(* ===== verification/_CoqProject ===== *)
-Q . S2P
Prelude.v
Runtime.v
Constraints.v
BitData.v
BitOutp.v
UperSupport.v
Integer.v
IntegerUper.v
OerSupport.v
IntegerOer.v
UperCodec.v
OctetString.v
BitString.v
StringCodec.v
SetOf.v
SequenceOf.v
OpenType.v
Sequence.v
SequenceCodec.v
LanePositionAndType.v
SequenceTheorems.v
Choice.v
ChoiceTheorems.v
Double.v
GnNumbers.v
Archive.v
GnWire.v
Caches.v
SoftState.v
LocationTable.v
PacketBuffer.v
Scheduler.v
CbfBuffer.v
DccLoad.v
DccBudget.v
FlowControl.v
Packets.v
Areas.v
Requests.v
RouterState.v
Router.v
Indication.v
RouterInv.v
RouterSafety.v
RouterExample.v
RouterTheorems.v
RouterReception.v
RouterMemory.v
RouterSpec.v
Permissions.v
Regions.v
Certificate.v
TrustStore.v
CertificatePool.v
SecuredMessage.v
PeerRequests.v
SignHeader.v
Credentials.v
Access.v
IdentityManager.v
IdentityRounds.v
IdentityLiveness.v
IdentityExamples.v
Validator.v
SecurityEntity.v
SecurityTheorems.v
SignedExchange.v
SecurityExamples.v
CbrSharing.v
Btp.v
