(* ===== verification/Prelude.v ===== *)
(** * The ASN.1 runtime, the GeoNetworking layer, congestion control and
    security of vanetza-idf

    vanetza-idf is an ETSI ITS stack for embedded targets.  Its messages and
    certificates are ASN.1 values that travel in unaligned PER and in OER;
    the C code under vanetza/asn1/support/ is the runtime of these encodings.
    The messages are carried by BTP and GeoNetworking packets, whose headers,
    tables, buffers and timers are C++ under vanetza/geonet/, vanetza/btp/,
    vanetza/net/ and vanetza/common/; below them the congestion control of
    vanetza/dcc/ decides when a packet may go on the air.  Packets are signed
    and verified by the security entity of the port to ESP-IDF
    (ports/esp_idf/src/) with the certificates, messages and validators of
    vanetza/security/v3/.  This library models the four: that what one side
    writes the other side reads and hostile input cannot lead a decoder out of
    its buffer, that the tables and buffers of the network layer keep what
    they promise to the router, over time, that the router itself fails in no
    call but on the one kind of message it cannot read (below) and forwards,
    passes up and secures packets as it should, that packets
    are queued, sent and dropped as the rate control says, and that a message
    is accepted when, and only when, its signature and the chain behind it
    allow it, while identifiers change as all layers agreed.

    ** Parts and files: the ASN.1 runtime

    - Prelude.v (this file): C integer conversions ([uwrap], [swrap], with the
      notations [u8], [u16], [u32], [u64], [s64]), bit strings and their
      values, octets, tactics and hint databases.
    - Runtime.v: the target ([Target]: word size of LP64 and ILP32), memory.c
      (the limit of 4096 octets in front of the allocator; [Allocator] says
      which requests succeed), results of asn_codecs.h, and the callbacks
      that take encoded octets ([Consumer]; a [Sink] keeps what it takes, a
      [RoomySink] takes as much as it has room for, a [TotalSink] anything).
    - Constraints.v: the constraint records of per_support.h, oer_support.h
      and INTEGER.h.
    - BitData.v, BitOutp.v: asn_bit_data.c, the reader and the writer of bit
      streams, as records with the C fields.  [remaining] and [written] are
      the bits they stand for; [decodes] and [encodes] say that a function
      reads or appends given bits, and compose along the code.
    - UperSupport.v: uper_support.c, length determinants, small numbers,
      whole numbers, range offsets, and the fragments of long values.
    - Integer.v: INTEGER.c, conversions between octets and C integers,
      decimal text, enumeration tables, comparison.
    - IntegerUper.v: INTEGER_uper.c, NativeInteger_uper.c,
      NativeEnumerated_uper.c, ENUMERATED_uper.c, BOOLEAN_uper.c, NULL_uper.c;
      [x691_integer] states the encoding of the standard.
    - OerSupport.v: oer_support.c, oer_decoder.c, oer_encoder.c, with
      [emits] and [parses] as the counterparts of [encodes] and [decodes].
    - IntegerOer.v: the same types in INTEGER_oer.c, NativeInteger_oer.c,
      NativeEnumerated_oer.c, ENUMERATED_oer.c, BOOLEAN_oer.c, NULL_oer.c.
    - UperCodec.v: uper_decoder.c, uper_encoder.c, per_encoder.c, the
      functions applications call, proved against the interface [UperCodec]
      of a type's encoder and decoder.
    - OctetString.v: OCTET_STRING.c, OCTET_STRING_uper.c, OCTET_STRING_oer.c.
    - BitString.v: BIT_STRING.c, BIT_STRING_uper.c, BIT_STRING_oer.c.
    - StringCodec.v: OCTET STRING and BIT STRING as instances of [UperCodec].
    - SetOf.v: the arrays of asn_SET_OF.c and asn_SEQUENCE_OF.c, comparison
      and copy of lists.
    - SequenceOf.v: constr_SET_OF_uper.c and constr_SEQUENCE_OF_uper.c,
      generic in an element type that is an instance of [UperCodec].
    - OpenType.v: uper_opentype.c and per_opentype.c, values that travel as
      octets behind a length.
    - Sequence.v: constr_SEQUENCE_uper.c and constr_SEQUENCE.c, generic in
      the member table; SequenceCodec.v: tables of verified members
      ([vmember]), the bits of a structure ([sequence_bits]), readers and
      writers that know different extensions ([understood]);
      SequenceTheorems.v: what follows for applications.
    - Choice.v, ChoiceTheorems.v: the same for constr_CHOICE_uper.c,
      constr_CHOICE.c and the selected open types of OPEN_TYPE_uper.c.
    - LanePositionAndType.v: the generated tables of one type of the data
      dictionary (its/r2/), as an instance of the two.

    ** Parts and files: the network layer

    - Double.v: binary64 and units/time.hpp, for the lifetimes.
    - GnNumbers.v: common/bit_number.hpp, sequence_number.cpp, timestamp.cpp
      and lifetime.cpp, in modules of these names.
    - Archive.v: common/archives.cpp and common/serialization.hpp (a [Reader]
      is code that reads an archive and may throw), net/mac_address.cpp,
      btp/header.cpp, and the contract [Wire] of a type with a fixed length
      on the wire.
    - GnWire.v: the headers of geonet/ and geonet/parser.cpp, whose types are
      instances of [Wire].
    - Caches.v: duplicate_packet_list.cpp, gbc_memory.cpp and
      common/lru_cache.hpp.
    - SoftState.v: soft_state_map.hpp, a hash map and a heap that refer to
      each other by handles; [abs] is the map from keys to a deadline and a
      value that they implement.
    - LocationTable.v: location_table.cpp over SoftState.v.
    - PacketBuffer.v: packet_buffer.cpp over the interface [Data], and the
      pending packets that implement it.
    - Scheduler.v: common/manual_runtime.cpp, the clock and the callbacks of
      the stack.
    - CbfBuffer.v: cbf_packet_buffer.cpp on that runtime, with the counters
      of cbf_counter.cpp behind the interface [CbfCounter].

    ** Parts and files: the router

    - Packets.v: net/osi_layer.hpp, cohesive_packet.cpp (one buffer cut into
      layers), chunk_packet.cpp (one buffer per layer) and packet.cpp.
    - Areas.v: areas.cpp and the destination of gbc_gac_header.cpp, over
      doubles; [Geodesy] is the interface to geodesy and trigonometry.
    - Requests.v: mib.cpp, data_request.cpp, data_confirm.cpp, the headers
      built from a request, and repeater.cpp.
    - RouterState.v: the PDUs and pending packets of pdu.cpp,
      extended_pdu.hpp and pending_packet.hpp, where a std::function is a
      value that names the function and its captures; [Environment], what
      the router calls elsewhere (signing and decapsulation, random numbers,
      the DCC field), with its laws; [World], the state of router.hpp with
      the events it sent to other layers; and the monad [M] of handlers that
      return, or throw, fail an assertion or use a dangling reference.
    - Btp.v: above the router, the functions of btp/header.cpp that cut a
      header off a packet, btp/data_indication.cpp and port_dispatcher.cpp.
    - Router.v: the source operations and forwarding of router.cpp, timers,
      buffers and repetitions.  Indication.v: indication_context.cpp and the
      reception half of router.cpp.
    - RouterInv.v: [RouterInv], the invariant of the state, and that the
      operations of Router.v keep it ([yields]).  RouterSafety.v: the same
      for reception; [Input] are the calls from outside, [handle] their
      handlers, [allowed] what callers must respect (a packet fits in
      memory, a configuration is sensible, a callback comes from the
      runtime), and [reachable] the histories.
    - RouterExample.v: a concrete environment, configurations and states.
    - RouterTheorems.v, RouterReception.v, RouterSpec.v: the properties of
      reachable states, of reception, and of the algorithms; RouterMemory.v:
      that reception changes the memory of geo-broadcasts only where a packet
      is passed up, on which RouterSpec.v builds.

    ** Parts and files: congestion control

    - DccLoad.v: common/unit_interval.cpp, channel_load.cpp and the state
      machines fully_meshed_state_machine.cpp and gradual_state_machine.cpp,
      over the order of doubles in Double.v.
    - DccBudget.v: the budgets burst_budget.cpp, state_machine_budget.cpp and
      limeric_budget.cpp, limeric.cpp, transmission.cpp, and the rate controls
      as instances of [TransmitRateControl]; [TransmitRateLaws] is what they
      promise.
    - FlowControl.v: flow_control.cpp and mapping.cpp, proved against that
      interface, on the runtime of Scheduler.v; [reaches] is its step
      relation.
    - CbrSharing.v: the loads stations tell each other, of
      geonet/dcc_mco_field.cpp, cbr_aggregator.cpp and
      dcc_information_sharing.cpp; one generator of DCC fields a router may
      have.

    ** Parts and files: security

    The files of this part are those of ports/esp_idf/src/ where no directory
    is given; v3/ is vanetza/security/v3/.

    - Permissions.v: namespace consistency of security.cpp, whether the
      permissions along a chain of certificates nest.
    - Regions.v: regions of certificates, in security.cpp, v3/certificate.cpp,
      v3/geometry.cpp and v3/location_checker.cpp, over [RegionGeometry].
    - Certificate.v: v3/certificate.cpp and v3/hash.cpp, canonical form,
      digests, keys and validity; [CertificateCodec] is the generated codec
      with the hash functions, [Backend] what signs and verifies.
    - TrustStore.v: v3/trust_store.cpp, issuer_memory_lookup.cpp,
      revocation_lookup.cpp and certificate_cache.cpp, and TrustConfiguration
      of security.cpp.  CertificatePool.v: the station's own tickets.
    - SecuredMessage.v: v3/secured_message.cpp, setters and getters, over
      [MessageCodec].  PeerRequests.v: security/peer_request_tracker.cpp.
    - SignHeader.v: sign_header_policy.cpp, which header a message gets and
      whether it carries the certificate or its digest.
    - Validator.v: v3/certificate_validator.cpp, and the signatures of
      certificates and ChainValidator of security.cpp.
    - SecurityEntity.v: profiles, verification, replay window, learned
      authorities, statistics and signing of security.cpp, with
      v3/sign_service.cpp.  SecurityTheorems.v: [Entity_ok], its invariant,
      and what accepted messages stand on.  SignedExchange.v: two stations.
      SecurityExamples.v: concrete certificates and messages.
    - IdentityManager.v: identity_manager.cpp.  A hook is a tree of calls
      ([Prog]), since hooks may call the service from within; [Event] is what
      happens between the calls, and a ghost [log] records what was started,
      delivered and answered.  IdentityRounds.v: [log_ok], the protocol the
      log keeps.  IdentityLiveness.v: that calls return, and which states are
      stuck.  IdentityExamples.v: subscribers that answer, and that misbehave.
    - Credentials.v: credentials.cpp, the format of provisioned credentials.
    - Access.v: its_g5_frame.cpp and access.cpp, frames of the radio and the
      gate in front of it, over the budget of DccBudget.v.

    Every definition that models code has the name of the function or type;
    a part of a function that is a definition of its own says which part.  A
    pointer that may be NULL is an option, an octet buffer with its size a
    list of octets, a structure or class a record; a function that changes an
    object takes and returns it, and the clock is an argument where the code
    asks the runtime.  Return codes are [asn_dec_rval], [asn_enc_rval],
    [option] or the C number where callers test it.  Integers are [Z] with
    the conversions of the C types written out.

    ** What the theorems show

    - Round trips: for bit fields, determinants, numbers, INTEGER,
      ENUMERATED, BOOLEAN, OCTET STRING, character strings, BIT STRING,
      lists, open types, SEQUENCE and CHOICE, the encoder writes the bits or octets a definition states
      ([uper_integer_bits], [octet_string_bits], [bit_string_bits],
      [sequence_bits], [oer_integer_octets], ...), for any callback, or fails where there are
      none, and the decoder returns the value from them, whatever follows.
      The bits of an INTEGER are those of X.691 ([x691_integer]) when its
      octets are the shortest; strings are covered for alphabets whose codes
      fit their bits ([alphabet_ok]), whole messages for values with at least
      one bit.
      SEQUENCE and CHOICE are instances of the interface their members keep,
      so this composes along a type; UperCodec.v lifts it to whole messages.  The headers of a
      GeoNetworking packet are parsed back to themselves, and whatever the
      parser accepts serializes to the octets it took.
    - Versions: an old receiver skips the extensions of a newer sender, unless
      it is in the strict canonical mode, which refuses them, and a new
      receiver finds those of an older sender absent; a receiver refuses an
      alternative of a CHOICE it does not know, and in canonical mode an
      encoded DEFAULT.
    - Hostile input: on arbitrary octets the decoders stay inside the data
      ([follows], [within]), terminate, and store no more than they allocate;
      the parser of packets is total.
    - Arithmetic: conversions and range offsets do not overflow for any
      argument of the C types, on both targets; the cyclic orders of sequence
      numbers and time stamps; the field of lifetimes over doubles.
    - Tables and buffers: the soft-state map refines an expiring map (as its
      comment documents it, but for expired entries that are asked for); the
      location table holds valid positions whose time stamps only move
      forward; the caches equal the list of the last used elements; the
      buffers count the bytes they store and drop no more than they have to.
    - Time: the runtime invokes callbacks in the order of their deadlines and
      stops; the buffer of contention-based forwarding is woken before its
      first timer expires (but for the late wake-ups below) and hands over
      exactly the packets that are due.
    - The router: in every reachable state every call returns and keeps the
      invariant, except that a secured packet whose decapsulation fails
      without plain text makes indicate() throw where security is not strict
      (then only the environment has changed); under strict security nothing
      unsecured leaves or is passed
      up; a single-hop broadcast is passed up as it was sent, a malformed
      packet is dropped for its reason; a forwarded topologically-scoped
      broadcast loses one hop, is remembered, and is stopped exactly when it
      is known, its hops are used up or its sender or source exceeds the
      packet data rate; greedy forwarding makes progress, contention-based
      forwarding drops what was overheard, a geo-broadcast packet that
      process_gbc() gets is passed up exactly when it is accepted and not
      among those passed up last; beacons go on; which positions a
      destination area holds.
    - Congestion control: flow control sends at once only when the rate
      control allows it and nothing of the same or a higher category waits,
      accounts for every packet, and always wakes up while packets wait;
      the delays of the rate controls are the shortest; bursts stay within
      their limit; the state machines follow the measured load; the field of
      a station carries the largest or second largest load of its neighbours,
      unchanged by the conversions.
    - Ports: a BTP packet is shown to every hook and then handed to the
      handler of its port, or reported; only packets too short for a header
      throw.
    - Security: an accepted message was signed by the key of a certificate
      that is valid here and now and whose chain of signatures ends in a
      provisioned anchor, is timely, and is no replay within the window; what
      a station signs, one that trusts its ticket accepts; a certificate is
      valid for signing exactly when a definition by paths, periods,
      permissions, revocations and places says so; the permissions of a chain
      are granted at every step; a header prepared with a digest follows, within a second,
      one prepared with the certificate (prepared, not sent: see below); the pool holds tickets whose keys fit.
    - Identifier change: a new ticket is selected only when every live
      subscriber agreed, COMMIT goes only to those of a committed round and
      ABORT only to those of a round that ended without commit, to all of
      them that are still there, whatever hooks do from
      within; calls return, and rounds end by an answer or by the timer.
    - The radio: frames that are decoded are those of the layout, every other
      is called malformed or unsupported as the order of the checks says, and
      a decoded frame is the one encoded; the gate keeps transmissions short
      and 25 ms apart.
    - Orders and copies: the compare functions as total orders.
    - Deviations: some theorems state exactly where the code departs from its
      intent (small numbers above 63, the order of negative INTEGERs,
      unsigned long from 2^63 on, the alphabet limit, the endless loop of
      BIT_STRING_encode_oer, the open type skip, values without bits, the sign octet of
      INTEGERs with nothing but a lower bound, copies of empty lists, the order of MAC addresses, equality of lifetimes,
      expired entries that come back, late wake-ups of the CBF buffer, triggers
      that ignore the rate, bursts at the end of a period, beacons that end
      after one failed signature, canonical mode and unknown extensions, the
      source CHOICE_copy does not check, regions lost below an authority
      without one, authorities with all permissions, years of two lengths,
      encryption keys left out of the canonical form, lengths of credentials
      cut to sixteen bits, initial delays that are always zero, rounds started while an abort is notified, digests
      that are remembered without a limit, messages that are refused and yet
      restart the timers of certificates).

    ** Bounds and fuel

    Loops that are not structural carry fuel.  asn_get_few_bits and
    asn_put_few_bits nest at most twice (a call of up to 31 bits splits into
    one of 24 and one of at most 7).  Loops over bits run at most once per 24
    bits or per octet of the argument, and fragment loops at most once per
    bit left in the stream ([fragments_fuel]), since every determinant takes
    an octet; the round-trip theorems show that this yields a result, the
    safety theorems that more fuel changes nothing.  The trailing-zero loop
    of BIT_STRING_encode_oer is modelled by the number of rounds, because it
    does not end.  The loops that drop packets, timers and map entries take
    one away in each turn, so that their number is enough fuel; triggering
    the runtime has no result when the fuel runs out, and theorems say when
    it does not, for callbacks in general and for flow control.  Flushing a
    forwarding buffer of the router visits the packets that were in it at
    the start, so that packets queued again by their handler wait for the
    next flush, as in the code; the loops of the router are folds.  Chains of
    certificates are followed as far as the code does, eight steps upstream
    and four in ChainValidator.  The fuel of the identifier change bounds how
    deep calls of hooks nest; without enough there is no result, and a
    theorem says how much is enough when hooks leave triggers and locks to
    others.

    ** What is not modelled

    Streams with a refill callback (set only by a function that is never
    called), debug output and assertions, the stack limit of the codec
    context, printing, random fill, BER, DER, XER, JER and APER (not used on
    the air), freeing of structures.  The generated type tables are arguments
    of the definitions, with well-formedness conditions ([per_value_ok],
    [enum_ok], [size_ok], [alphabet_ok], [specs_ok], [choice_ok]) that state
    what the compiler guarantees; one type is modelled as an instance.  The
    union of a CHOICE is read only as the member its index names, so its
    decoder is modelled on no structure or a zeroed one.  Structures with
    more than 64 extensions are outside the round trips: their bitmap length
    is a normally small number the code writes wrongly.  Of the C++ code:
    geodesy, facilities, cryptographic libraries, the envelope of version 2,
    encrypted messages, the enrolment protocol (pki.cpp), files and drivers of
    the port; in security the messages on the console and the build without
    verification; in the identifier change the wrap-around of its counters of
    64 bits and responders that outlive the service; in the router,
    that the access interface, the generator of DCC fields and the seed can
    be exchanged while it runs, and signing that answers later; hash functions, because only the
    equality of keys matters; exceptions of output streams.  Containers of
    Boost are modelled by their documented behaviour, as lists in the order
    of the container.  Clock arithmetic is not wrapped at 64 bits, except
    where a difference does leave the range (LimericBudget).

    What could be modelled the same way and is left out: in the ASN.1 runtime
    SEQUENCE, CHOICE and lists in OER over the member tables of Sequence.v,
    OBJECT IDENTIFIER, and the BER tag and length functions. *)

(** Shared vocabulary of the development: machine-width wrap-around, bit
    strings and their values, octets, generic list lemmas, the tactics and
    the hint databases the component files use. *)

From stdpp Require Export base tactics list numbers.
From Stdlib Require Export ZArith Lia.

Open Scope Z_scope.

(** * Scope of the C notations *)

Declare Scope c_scope.
Delimit Scope c_scope with c.

(** ** Unsigned and signed conversions of C *)

(** Conversion to an unsigned type of width [w]. *)
Definition uwrap (w v : Z) : Z := v mod 2 ^ w.

(** Conversion to a two's complement signed type of width [w]. *)
Definition swrap (w v : Z) : Z := (v + 2 ^ (w - 1)) mod 2 ^ w - 2 ^ (w - 1).

Abbreviation u8 := (uwrap 8).
Abbreviation u16 := (uwrap 16).
Abbreviation u32 := (uwrap 32).
Abbreviation u64 := (uwrap 64).
Abbreviation s64 := (swrap 64).

Notation "a .& b" := (Z.land a b) (at level 40, left associativity) : c_scope.
Notation "a .| b" := (Z.lor a b) (at level 45, left associativity) : c_scope.
Open Scope c_scope.

Definition INTMAX_MIN : Z := - 2 ^ 63.
Definition INTMAX_MAX : Z := 2 ^ 63 - 1.
Definition UINTMAX_MAX : Z := 2 ^ 64 - 1.

(** The values of [intmax_t] and of [uintmax_t]. *)
Definition is_imax (v : Z) : Prop := INTMAX_MIN <= v <= INTMAX_MAX.
Definition is_umax (v : Z) : Prop := 0 <= v <= UINTMAX_MAX.

(** An octet, as C stores it in a [uint8_t]. *)
Definition octet (b : Z) : Prop := 0 <= b < 256.
Definition octets (l : list Z) : Prop := Forall octet l.

#[export] Instance octet_dec b : Decision (octet b).
Proof. unfold octet. apply _. Defined.

(** ** Tactics *)

Create HintDb asn discriminated.
Create Rewrite HintDb asn_len.

(** Split conjunctions in the context and the goal. *)
Ltac split_all := repeat match goal with
  | H : _ /\ _ |- _ => destruct H
  | |- _ /\ _ => split
  end.

(** Decide the Boolean comparisons of the goal that arithmetic settles, and
    split on the remaining ones. *)
Ltac bool_case :=
  match goal with
  | |- context [Z.leb ?a ?b] =>
      first [ rewrite (proj2 (Z.leb_le a b)) by lia
            | rewrite (proj2 (Z.leb_gt a b)) by lia ]
  | |- context [Z.ltb ?a ?b] =>
      first [ rewrite (proj2 (Z.ltb_lt a b)) by lia
            | rewrite (proj2 (Z.ltb_ge a b)) by lia ]
  | |- context [Z.eqb ?a ?b] =>
      first [ rewrite (proj2 (Z.eqb_eq a b)) by lia
            | rewrite (proj2 (Z.eqb_neq a b)) by lia ]
  end.
Ltac bool_cases := repeat (bool_case; cbv beta iota zeta).

(** Turn Boolean comparisons of the context into inequalities. *)
Ltac bool_hyps := repeat match goal with
  | H : Z.leb _ _ = true |- _ => apply Z.leb_le in H
  | H : Z.leb _ _ = false |- _ => apply Z.leb_gt in H
  | H : Z.ltb _ _ = true |- _ => apply Z.ltb_lt in H
  | H : Z.ltb _ _ = false |- _ => apply Z.ltb_ge in H
  | H : Z.eqb _ _ = true |- _ => apply Z.eqb_eq in H
  | H : Z.eqb _ _ = false |- _ => apply Z.eqb_neq in H
  end.

(** Case split on the test of the outermost [if] of the goal. *)
Ltac if_split :=
  match goal with
  | |- context [if ?b then _ else _] =>
      let E := fresh "E" in destruct b eqn:E; bool_hyps
  end.

(** Length bookkeeping. *)
Ltac len := repeat first
  [ rewrite length_app | rewrite length_take | rewrite length_drop
  | rewrite length_replicate | rewrite length_insert | rewrite length_map
  | progress autorewrite with asn_len ];
  simpl length; try lia.

(** * Powers of two and wrap-around *)

Lemma pow2_pos n : 0 <= n -> 0 < 2 ^ n.
Proof. intros; apply Z.pow_pos_nonneg; lia. Qed.

Lemma pow2_pos' (n : nat) : 0 < 2 ^ Z.of_nat n.
Proof. apply pow2_pos; lia. Qed.
#[export] Hint Resolve pow2_pos pow2_pos' : asn.

Lemma uwrap_small w v : 0 <= v < 2 ^ w -> uwrap w v = v.
Proof. apply Z.mod_small. Qed.

Lemma uwrap_bound w v : 0 <= w -> 0 <= uwrap w v < 2 ^ w.
Proof. intros; apply Z.mod_pos_bound, pow2_pos; lia. Qed.

Lemma u8_octet v : octet (u8 v).
Proof. apply (uwrap_bound 8); lia. Qed.
#[export] Hint Resolve u8_octet : asn.

Lemma u8_small v : octet v -> u8 v = v.
Proof. apply (uwrap_small 8). Qed.

Lemma swrap_small w v : 0 < w -> - 2 ^ (w - 1) <= v < 2 ^ (w - 1) -> swrap w v = v.
Proof.
  intros Hw Hv. unfold swrap.
  replace (2 ^ w) with (2 * 2 ^ (w - 1)).
  - rewrite Z.mod_small by lia. lia.
  - rewrite <- Z.pow_succ_r by lia. f_equal; lia.
Qed.

Lemma swrap_bound w v : 0 < w -> - 2 ^ (w - 1) <= swrap w v < 2 ^ (w - 1).
Proof.
  intros Hw. unfold swrap.
  assert (2 ^ w = 2 * 2 ^ (w - 1)) as E by (rewrite <- Z.pow_succ_r by lia; f_equal; lia).
  pose proof (Z.mod_pos_bound (v + 2 ^ (w - 1)) (2 ^ w) (pow2_pos w ltac:(lia))). lia.
Qed.

(** Adding a multiple of the modulus does not change the signed value. *)
Lemma swrap_mod w v : 0 < w -> swrap w (v mod 2 ^ w) = swrap w v.
Proof.
  intros Hw. unfold swrap. rewrite Zplus_mod_idemp_l. reflexivity.
Qed.

(** * Bit strings *)

(** The [n] low bits of [v], most significant first. *)
Fixpoint bits_of (n : nat) (v : Z) : list bool :=
  match n with
  | O => []
  | S n' => Z.testbit v (Z.of_nat n') :: bits_of n' v
  end.

(** The number a bit string denotes, most significant bit first. *)
Fixpoint bval (l : list bool) : Z :=
  match l with
  | [] => 0
  | b :: l' => Z.b2z b * 2 ^ Z.of_nat (length l') + bval l'
  end.

(** The bits of an octet string, in transmission order. *)
Fixpoint bytes_bits (l : list Z) : list bool :=
  match l with
  | [] => []
  | b :: l' => bits_of 8 b ++ bytes_bits l'
  end.

Lemma length_bits_of n v : length (bits_of n v) = n.
Proof. induction n; simpl; congruence. Qed.

Lemma length_bytes_bits l : length (bytes_bits l) = (8 * length l)%nat.
Proof. induction l; simpl; rewrite ?length_app, ?length_bits_of; simpl; lia. Qed.
#[export] Hint Rewrite length_bits_of length_bytes_bits : asn_len.

Lemma bval_bound l : 0 <= bval l < 2 ^ Z.of_nat (length l).
Proof.
  induction l as [|b l IH]; cbn [bval length].
  - change (2 ^ Z.of_nat 0) with 1. lia.
  - rewrite Nat2Z.inj_succ, Z.pow_succ_r by lia. destruct b; simpl Z.b2z; nia.
Qed.

Lemma bval_app l1 l2 : bval (l1 ++ l2) = bval l1 * 2 ^ Z.of_nat (length l2) + bval l2.
Proof.
  induction l1 as [|b l1 IH]; cbn [bval app]; [lia|].
  rewrite IH, length_app, Nat2Z.inj_add, Z.pow_add_r by lia. ring.
Qed.

Lemma bval_bits_of n v : bval (bits_of n v) = v mod 2 ^ Z.of_nat n.
Proof.
  induction n as [|n IH]; cbn [bval bits_of].
  - change (2 ^ Z.of_nat 0) with 1. now rewrite Z.mod_1_r.
  - rewrite IH, length_bits_of, Nat2Z.inj_succ, Z.pow_succ_r by lia.
    rewrite (Z.mul_comm 2), Z.rem_mul_r by (pose proof (pow2_pos' n); lia).
    rewrite Z.testbit_spec' by lia. ring.
Qed.

Lemma bval_bits_of_small n v : 0 <= v < 2 ^ Z.of_nat n -> bval (bits_of n v) = v.
Proof. intros. rewrite bval_bits_of. now apply Z.mod_small. Qed.

Lemma bits_of_ext n v w :
  (forall i, 0 <= i < Z.of_nat n -> Z.testbit v i = Z.testbit w i) -> bits_of n v = bits_of n w.
Proof.
  induction n as [|n IH]; intros H; cbn [bits_of]; [reflexivity|].
  f_equal; [apply H; lia | apply IH; intros; apply H; lia].
Qed.

Lemma bits_of_mod n m v : (n <= m)%nat -> bits_of n (v mod 2 ^ Z.of_nat m) = bits_of n v.
Proof. intros. apply bits_of_ext. intros. apply Z.mod_pow2_bits_low. lia. Qed.

Lemma bits_of_uwrap n w v : 0 <= w -> Z.of_nat n <= w -> bits_of n (uwrap w v) = bits_of n v.
Proof.
  intros. unfold uwrap. rewrite <- (Z2Nat.id w) by lia. apply bits_of_mod. lia.
Qed.

Lemma bits_of_app n m v :
  bits_of (n + m) v = bits_of n (v ≫ Z.of_nat m) ++ bits_of m v.
Proof.
  induction n as [|n IH]; cbn [bits_of app Nat.add]; [reflexivity|].
  rewrite IH. f_equal. rewrite Z.shiftr_spec by lia. f_equal. lia.
Qed.

Lemma bits_of_bval l : bits_of (length l) (bval l) = l.
Proof.
  induction l as [|b l IH]; [reflexivity|]. cbn [length bits_of]. f_equal.
  - cbn [bval]. pose proof (bval_bound l). apply Z.b2z_inj.
    rewrite Z.testbit_spec' by lia.
    rewrite Z.add_comm, Z.div_add, Z.div_small by (pose proof (pow2_pos' (length l)); lia).
    destruct b; reflexivity.
  - etransitivity; [|exact IH]. apply bits_of_ext. intros i Hi. cbn [bval].
    rewrite <- (Z.mod_pow2_bits_low _ (Z.of_nat (length l)) i) by lia.
    rewrite Z.add_comm, Z.mod_add by (pose proof (pow2_pos' (length l)); lia).
    now apply Z.mod_pow2_bits_low.
Qed.

Lemma bval_inj l1 l2 : length l1 = length l2 -> bval l1 = bval l2 -> l1 = l2.
Proof. intros Hl Hv. rewrite <- (bits_of_bval l1), <- (bits_of_bval l2). congruence. Qed.

(** A slice of a bit string, computed by shift and mask as the C code does. *)
Lemma bval_slice l o n :
  (o + n <= length l)%nat ->
  bval (take n (drop o l)) = (bval l ≫ Z.of_nat (length l - o - n)) mod 2 ^ Z.of_nat n.
Proof.
  intros H. rewrite <- (take_drop o l) at 2. rewrite <- (take_drop n (drop o l)) at 2.
  set (a := take o l). set (b := take n (drop o l)). set (c := drop n (drop o l)).
  assert (Z.of_nat (length l - o - n) = Z.of_nat (length c)) as -> by (subst c; len).
  assert (length b = n) as Hb by (subst b; len).
  rewrite !bval_app, length_app, Hb, Z.shiftr_div_pow2, Nat2Z.inj_add, Z.pow_add_r by lia.
  pose proof (bval_bound c). pose proof (bval_bound b). rewrite Hb in *.
  pose proof (pow2_pos' (length c)). pose proof (pow2_pos' n).
  rewrite Z.mul_assoc, Z.add_assoc, <- Z.mul_add_distr_r, Z.div_add_l, (Z.div_small (bval c)) by lia.
  rewrite Z.add_0_r, Z.add_comm, Z.mod_add by lia. now rewrite Z.mod_small.
Qed.

Lemma bytes_bits_app l1 l2 : bytes_bits (l1 ++ l2) = bytes_bits l1 ++ bytes_bits l2.
Proof. induction l1; simpl; rewrite ?IHl1; auto using app_assoc. Qed.

Lemma bytes_bits_take l n : take (8 * n) (bytes_bits l) = bytes_bits (take n l).
Proof.
  revert l; induction n as [|n IH]; intros [|b l]; try reflexivity.
  replace (8 * S n)%nat with (length (bits_of 8 b) + 8 * n)%nat by (rewrite length_bits_of; lia).
  cbn [bytes_bits take]. rewrite take_app_add. now rewrite IH.
Qed.

Lemma bytes_bits_drop l n : drop (8 * n) (bytes_bits l) = bytes_bits (drop n l).
Proof.
  revert l; induction n as [|n IH]; intros [|b l]; try reflexivity.
  replace (8 * S n)%nat with (length (bits_of 8 b) + 8 * n)%nat by (rewrite length_bits_of; lia).
  cbn [bytes_bits drop]. rewrite drop_app_add. now rewrite IH.
Qed.

Lemma octets_app l1 l2 : octets (l1 ++ l2) <-> octets l1 /\ octets l2.
Proof. apply Forall_app. Qed.

Lemma octets_cons x l : octets (x :: l) <-> octet x /\ octets l.
Proof. apply Forall_cons_iff. Qed.

Lemma octets_take l n : octets l -> octets (take n l).
Proof. apply Forall_take. Qed.

Lemma octets_drop l n : octets l -> octets (drop n l).
Proof. apply Forall_drop. Qed.
#[export] Hint Resolve octets_take octets_drop : asn.
#[export] Hint Unfold octets : asn.

(** Octet strings with the same bits are equal. *)
Lemma bytes_bits_inj l1 l2 :
  octets l1 -> octets l2 -> bytes_bits l1 = bytes_bits l2 -> l1 = l2.
Proof.
  intros H1; revert l2; induction H1 as [|x l1 Hx H1 IH]; intros [|y l2] H2 E;
    try reflexivity; try (exfalso; apply (f_equal length) in E; revert E; len; fail).
  inversion_clear H2 as [|? ? Hy H2']. cbn [bytes_bits] in E.
  apply app_inj_1 in E as [E1 E2]; [|now rewrite !length_bits_of].
  f_equal; [|now apply IH].
  apply (f_equal bval) in E1. rewrite !bval_bits_of_small in E1; assumption.
Qed.

(** * Big-endian numbers *)

(** The unsigned number an octet string denotes, most significant octet
    first. *)
Fixpoint be_val (l : list Z) : Z :=
  match l with
  | [] => 0
  | b :: l' => b * 256 ^ Z.of_nat (length l') + be_val l'
  end.

(** The [n] low octets of [v], most significant first. *)
Fixpoint be_bytes (n : nat) (v : Z) : list Z :=
  match n with
  | O => []
  | S n' => u8 (v ≫ (8 * Z.of_nat n')) :: be_bytes n' v
  end.

Lemma length_be_bytes n v : length (be_bytes n v) = n.
Proof. induction n; simpl; congruence. Qed.
#[export] Hint Rewrite length_be_bytes : asn_len.

Lemma be_bytes_octets n v : octets (be_bytes n v).
Proof. induction n; constructor; auto with asn. Qed.
#[export] Hint Resolve be_bytes_octets : asn.

Lemma pow256 n : 0 <= n -> 256 ^ n = 2 ^ (8 * n).
Proof. intros. now rewrite Z.pow_mul_r by lia. Qed.

Lemma be_val_app l1 l2 : be_val (l1 ++ l2) = be_val l1 * 256 ^ Z.of_nat (length l2) + be_val l2.
Proof.
  induction l1 as [|b l1 IH]; cbn [be_val app]; [lia|].
  rewrite IH, length_app, Nat2Z.inj_add, Z.pow_add_r by lia. ring.
Qed.

Lemma be_val_bound l : octets l -> 0 <= be_val l < 256 ^ Z.of_nat (length l).
Proof.
  induction 1 as [|b l Hb Hl IH]; cbn [be_val length].
  - change (256 ^ Z.of_nat 0) with 1. lia.
  - rewrite Nat2Z.inj_succ, Z.pow_succ_r by lia. unfold octet in Hb. nia.
Qed.

Lemma be_val_bits l : octets l -> be_val l = bval (bytes_bits l).
Proof.
  induction 1 as [|b l Hb Hl IH]; [reflexivity|].
  cbn [be_val bytes_bits]. rewrite bval_app, bval_bits_of_small, length_bytes_bits, IH by exact Hb.
  rewrite pow256 by lia. do 3 f_equal. lia.
Qed.

Lemma bytes_bits_be_bytes n v : bytes_bits (be_bytes n v) = bits_of (8 * n) v.
Proof.
  induction n as [|n IH]; [reflexivity|].
  cbn [be_bytes bytes_bits]. replace (8 * S n)%nat with (8 + 8 * n)%nat by lia.
  rewrite bits_of_app, IH. f_equal. rewrite bits_of_uwrap by lia. do 2 f_equal; lia.
Qed.

Lemma be_val_be_bytes n v : be_val (be_bytes n v) = v mod 2 ^ (8 * Z.of_nat n).
Proof.
  rewrite be_val_bits, bytes_bits_be_bytes, bval_bits_of by auto with asn. do 2 f_equal. lia.
Qed.

Lemma be_bytes_be_val l : octets l -> be_bytes (length l) (be_val l) = l.
Proof.
  intros H. apply bytes_bits_inj; auto with asn.
  rewrite bytes_bits_be_bytes, be_val_bits by assumption.
  rewrite <- length_bytes_bits. apply bits_of_bval.
Qed.

Lemma be_val_inj l1 l2 :
  octets l1 -> octets l2 -> length l1 = length l2 -> be_val l1 = be_val l2 -> l1 = l2.
Proof.
  intros H1 H2 Hl Hv. rewrite <- (be_bytes_be_val l1), <- (be_bytes_be_val l2) by assumption.
  congruence.
Qed.

(** One step of the C accumulation loop [value = (value << 8) | *b]. *)
Lemma shift_or_octet v b : octet b -> Z.lor (v ≪ 8) b = v * 256 + b.
Proof.
  intros Hb. rewrite Z.shiftl_mul_pow2 by lia. change (2 ^ 8) with 256.
  rewrite <- Z.add_lor_land.
  enough (Z.land (v * 256) b = 0) as -> by lia.
  apply Z.bits_inj'. intros i Hi. rewrite Z.land_spec, Z.bits_0.
  change 256 with (2 ^ 8). destruct (Z.ltb_spec i 8).
  - rewrite Z.mul_pow2_bits_low by lia. reflexivity.
  - rewrite <- (Z.mod_small b (2 ^ 8)) by exact Hb.
    rewrite Z.mod_pow2_bits_high by lia. apply andb_false_r.
Qed.

(** Disjoint bit fields: or is addition. *)
Lemma lor_disjoint a b n : 0 <= n -> 0 <= b < 2 ^ n -> Z.lor (a ≪ n) b = a * 2 ^ n + b.
Proof.
  intros Hn Hb. rewrite Z.shiftl_mul_pow2 by lia. rewrite <- Z.add_lor_land.
  enough (Z.land (a * 2 ^ n) b = 0) as -> by lia.
  apply Z.bits_inj'. intros i Hi. rewrite Z.land_spec, Z.bits_0.
  destruct (Z.ltb_spec i n).
  - rewrite Z.mul_pow2_bits_low by lia. reflexivity.
  - rewrite <- (Z.mod_small b (2 ^ n)) by exact Hb.
    rewrite Z.mod_pow2_bits_high by lia. apply andb_false_r.
Qed.

Lemma land_ones_mod v n : 0 <= n -> Z.land v (1 ≪ n - 1) = v mod 2 ^ n.
Proof. intros. rewrite Z.shiftl_1_l, Z.sub_1_r, <- Z.ones_equiv. now apply Z.land_ones. Qed.

(** Sum of a list of integers. *)
Fixpoint list_sum_Z (l : list Z) : Z :=
  match l with [] => 0 | x :: l' => x + list_sum_Z l' end.

(** Deciding facts about small numbers by enumeration. *)
Lemma small_cases (P : Z -> bool) (n : nat) :
  forallb (fun i => P (Z.of_nat i)) (seq 0 n) = true -> forall v, 0 <= v < Z.of_nat n -> P v = true.
Proof.
  intros H v Hv. rewrite forallb_forall in H.
  rewrite <- (Z2Nat.id v) by lia. apply H, in_seq. lia.
Qed.
