(* ===== verification/Runtime.v ===== *)
(** What every codec of the ASN.1 runtime shares: the integer widths of the
    build target, the allocator, the result types of encoders and decoders
    (asn_codecs.h) and the consumers of encoded octets
    (asn_app_consume_bytes_f). *)

From S2P Require Import Prelude.

(** * Build target *)

(** [long], [size_t] and pointers have one width on the targets the library
    is built for: 32 bits on the ESP32 family, 64 bits on the hosts.
    [intmax_t] and [uintmax_t] have 64 bits on both. *)
Class Target := {
  word_bits : Z;
  word_bits_cases : word_bits = 32 \/ word_bits = 64
}.

Definition LP64 : Target := {| word_bits := 64; word_bits_cases := or_intror eq_refl |}.
Definition ILP32 : Target := {| word_bits := 32; word_bits_cases := or_introl eq_refl |}.

Definition sizeof_intmax : Z := 8.

Section Widths.
Context {T : Target}.

Definition LONG_MIN : Z := - 2 ^ (word_bits - 1).
Definition LONG_MAX : Z := 2 ^ (word_bits - 1) - 1.
Definition ULONG_MAX : Z := 2 ^ word_bits - 1.
Definition SIZE_MAX : Z := 2 ^ word_bits - 1.
(** asn_system.h: half the range of [size_t]. *)
Definition RSIZE_MAX : Z := SIZE_MAX ≫ 1.
Definition sizeof_word : Z := word_bits / 8.

Definition is_long (v : Z) : Prop := LONG_MIN <= v <= LONG_MAX.
Definition is_ulong (v : Z) : Prop := 0 <= v <= ULONG_MAX.

Lemma RSIZE_MAX_value : RSIZE_MAX = 2 ^ (word_bits - 1) - 1.
Proof. unfold RSIZE_MAX, SIZE_MAX. destruct word_bits_cases as [-> | ->]; reflexivity. Qed.

Lemma sizeof_word_cases : word_bits = 32 /\ sizeof_word = 4 \/ word_bits = 64 /\ sizeof_word = 8.
Proof. unfold sizeof_word. destruct word_bits_cases as [E|E]; rewrite E; [left|right]; split; reflexivity. Qed.

Lemma long_imax v : is_long v -> is_imax v.
Proof.
  unfold is_long, is_imax, LONG_MIN, LONG_MAX, INTMAX_MIN, INTMAX_MAX.
  destruct word_bits_cases as [-> | ->]; lia.
Qed.

Lemma ulong_umax v : is_ulong v -> is_umax v.
Proof.
  unfold is_ulong, is_umax, ULONG_MAX, UINTMAX_MAX.
  destruct word_bits_cases as [-> | ->]; lia.
Qed.
End Widths.
#[export] Hint Resolve long_imax ulong_umax : asn.

(** * Allocation *)

(** Whether an allocation of a number of octets succeeds.  The decoders take
    the allocator as a parameter: [malloc] of the platform, or the limited
    one of memory.c. *)
Class Allocator := malloc_ok : Z -> bool.

Definition max_size : Z := 4096.

(** memory.c: requests above [max_size] octets get NULL, whatever the heap
    would say ([heap] is the platform's [malloc]). *)
Definition vanetza_asn1c_malloc (heap : Z -> bool) (size : Z) : bool :=
  if size <=? max_size then heap size else false.

Definition vanetza_asn1c_calloc {T : Target} (heap : Z -> bool) (nmemb size : Z) : bool :=
  if uwrap word_bits (nmemb * size) <=? max_size then heap (nmemb * size) else false.

Definition vanetza_asn1c_realloc (heap : Z -> bool) (size : Z) : bool :=
  if size <=? max_size then heap size else false.

(** An allocator that serves every request of at most [n] octets. *)
Definition serves (A : Allocator) (n : Z) : Prop := forall m, 0 <= m <= n -> @malloc_ok A m = true.

Lemma serves_le A n m : serves A n -> m <= n -> serves A m.
Proof. intros H Hm k Hk. apply H. lia. Qed.

(** * Results *)

(** asn_dec_rval_t with the structure a successful decoder leaves behind
    [*sptr].  On the two other codes the structure is only ever freed. *)
Inductive asn_dec_rval (A : Type) :=
  | RC_OK (consumed : Z) (st : A)
  | RC_WMORE (consumed : Z)
  | RC_FAIL (consumed : Z).
Arguments RC_OK {A} _ _.
Arguments RC_WMORE {A} _.
Arguments RC_FAIL {A} _.

(** The macros ASN__DECODE_FAILED and ASN__DECODE_STARVED. *)
Definition DECODE_FAILED {A} : asn_dec_rval A := RC_FAIL 0.
Definition DECODE_STARVED {A} : asn_dec_rval A := RC_WMORE 0.

(** asn_enc_rval_t: the count of a successful encoder, or the failure value
    (encoded = -1; failed_type and structure_ptr only feed a message). *)
Inductive asn_enc_rval :=
  | ENCODED_OK (encoded : Z)
  | ENCODE_FAILED.

#[export] Instance asn_enc_rval_eq_dec : EqDecision asn_enc_rval.
Proof. solve_decision. Defined.

(** errno values the conversions report. *)
Inductive errno := EINVAL | ERANGE | EPERM.

#[export] Instance errno_eq_dec : EqDecision errno.
Proof. solve_decision. Defined.

(** asn_codec_ctx_t, the flags the UPER decoders read.  The stack limit is
    not part of the model: recursion follows the type descriptor. *)
Record asn_codec_ctx := {
  uper_canonical : bool;
  uper_canonical_lenient : bool
}.

Definition default_ctx : asn_codec_ctx :=
  {| uper_canonical := false; uper_canonical_lenient := false |}.

(** * Consumers of encoded octets *)

(** asn_app_consume_bytes_f with its key: the state after the call, or
    nothing when the callback returns a negative value. *)
Class Consumer (K : Type) := consume : K -> list Z -> option K.

(** A consumer that stores what it is given, in order. *)
Class Sink (K : Type) {C : Consumer K} := {
  contents : K -> list Z;
  consume_contents k bs k' : consume k bs = Some k' -> contents k' = contents k ++ bs
}.

(** A sink that never refuses. *)
Class TotalSink (K : Type) {C : Consumer K} {S : Sink K} :=
  consume_total k bs : exists k', consume k bs = Some k'.

(** A sink that takes octets up to a number, if there is one. *)
Class RoomySink (K : Type) {C : Consumer K} {S : Sink K} := {
  room : option Z;
  consume_room k bs :
    (forall r, room = Some r -> Z.of_nat (length (contents k) + length bs) <= r) -> exists k', consume k bs = Some k'
}.

(** [bits] bits in all can be handed over. *)
Definition fits {K} {C : Consumer K} {S : Sink K} {R : RoomySink K} (bits : nat) : Prop :=
  forall r, room = Some r -> Z.of_nat bits <= 8 * r.

Definition unlimited {K} {C : Consumer K} {S : Sink K} {R : RoomySink K} : Prop := forall n, fits n.

Lemma fits_le {K} {C : Consumer K} {S : Sink K} {R : RoomySink K} n m : fits m -> (n <= m)%nat -> fits n.
Proof. intros H Hn r Hr. specialize (H r Hr). lia. Qed.

#[export] Instance total_roomy {K} {C : Consumer K} {S : Sink K} (TS : TotalSink K) : RoomySink K.
Proof. refine {| room := None |}. intros k bs _. apply consume_total. Defined.

Lemma fits_total {K} {C : Consumer K} {S : Sink K} {TS : TotalSink K} n : fits n.
Proof. intros r [=]. Qed.
#[export] Hint Resolve fits_total : core.

(** ** write_buffer: the ByteBuffer of asn1c_wrapper.cpp *)
Definition ByteBuffer := list Z.
#[export] Instance write_buffer : Consumer ByteBuffer := fun out bs => Some (out ++ bs).
#[export] Instance write_buffer_sink : Sink ByteBuffer.
Proof. refine {| contents := fun k => k |}. intros k bs k' [= <-]. reflexivity. Defined.
#[export] Instance write_buffer_total : TotalSink ByteBuffer.
Proof. intros k bs. eexists. reflexivity. Qed.

(** ** encode_to_buffer_cb: a caller-provided buffer of limited size *)
Record enc_to_buf_arg := { etb_data : list Z; etb_left : Z }.
Definition encode_to_buffer_cb : Consumer enc_to_buf_arg := fun arg bs =>
  if etb_left arg <? Z.of_nat (length bs) then None
  else Some {| etb_data := etb_data arg ++ bs; etb_left := etb_left arg - Z.of_nat (length bs) |}.

Definition encode_to_buffer_sink : @Sink enc_to_buf_arg encode_to_buffer_cb.
Proof.
  refine {| contents := etb_data |}. intros k bs k'. unfold consume, encode_to_buffer_cb.
  destruct (_ <? _); [discriminate|]. intros [= <-]. reflexivity.
Defined.

(** ** oer__count_bytes *)
Record count_arg := { counted : Z }.
Definition oer__count_bytes : Consumer count_arg := fun k bs =>
  Some {| counted := counted k + Z.of_nat (length bs) |}.
