(* ===== verification/Constraints.v ===== *)
(** Tables the ASN.1 compiler emits and the codecs interpret: PER and OER
    constraints (per_support.h, oer_support.h) and the specifics of INTEGER
    and ENUMERATED types (INTEGER.h). *)

From S2P Require Import Prelude Runtime.

(** * PER *)

Definition APC_UNCONSTRAINED : Z := 0.
Definition APC_SEMI_CONSTRAINED : Z := 1.
Definition APC_CONSTRAINED : Z := 2.
Definition APC_EXTENSIBLE : Z := 4.

(** asn_per_constraint_t. *)
Record asn_per_constraint := mk_per_constraint {
  flags : Z;
  range_bits : Z;
  effective_bits : Z;
  lower_bound : Z;
  upper_bound : Z
}.

(** asn_per_constraints_t: [value] and [size], and the permitted alphabet as
    the two optional functions. *)
Record asn_per_constraints := mk_per_constraints {
  pc_value : asn_per_constraint;
  pc_size : asn_per_constraint;
  value2code : option (Z -> Z);
  code2value : option (Z -> Z)
}.

(** [ct->flags & mask]. *)
Definition has (ct : asn_per_constraint) (mask : Z) : bool := negb (flags ct .& mask =? 0).

(** [if(!constraints) constraints = td->encoding_constraints.per_constraints] *)
Definition or_else {A} (constraints of_type : option A) : option A :=
  match constraints with Some c => Some c | None => of_type end.

(** The bounds of an unsigned field are compared as [uintmax_t]. *)
Definition lower (unsigned : bool) (ct : asn_per_constraint) : Z :=
  if unsigned then u64 (lower_bound ct) else lower_bound ct.
Definition upper (unsigned : bool) (ct : asn_per_constraint) : Z :=
  if unsigned then u64 (upper_bound ct) else upper_bound ct.

(** The constraints the compiler emits for a value: no PER-visible bound, a
    lower bound only, or a range with the number of bits it needs. *)
Definition per_value_ok (unsigned : bool) (ct : asn_per_constraint) : Prop :=
  is_imax (lower_bound ct) /\ is_imax (upper_bound ct) /\
  (range_bits ct = -1 \/
   has ct APC_CONSTRAINED = true /\ has ct APC_SEMI_CONSTRAINED = false /\
   0 <= range_bits ct <= 64 /\ lower unsigned ct <= upper unsigned ct /\
   upper unsigned ct - lower unsigned ct < 2 ^ range_bits ct) /\
  (has ct APC_SEMI_CONSTRAINED = false -> range_bits ct = -1 -> lower_bound ct = 0).

(** * INTEGER specifics *)

(** asn_INTEGER_specifics_t; [value2enum] holds the [nat_value]s, so
    [map_count] is its length. *)
Record asn_INTEGER_specifics := mk_INTEGER_specifics {
  value2enum : list Z;
  extension : Z;
  strict_enumeration : bool;
  field_width : Z;
  field_unsigned : bool
}.

Definition map_count (specs : asn_INTEGER_specifics) : Z := Z.of_nat (length (value2enum specs)).

(** [specs && specs->field_unsigned] *)
Definition is_unsigned (specs : option asn_INTEGER_specifics) : bool :=
  match specs with Some s => field_unsigned s | None => false end.

(** * OER *)

(** asn_oer_constraint_number_t *)
Record asn_oer_constraint_number := mk_oer_constraint_number { width : Z; positive : bool }.

(** asn_oer_constraints_t; [size] is -1 for types of variable size. *)
Record asn_oer_constraints := mk_oer_constraints { oc_value : asn_oer_constraint_number; oc_size : Z }.
