(* ===== verification/BitData.v ===== *)
(** The reader of the PER bit streams: the asn_get_* functions of
    vanetza/asn1/support/asn_bit_data.c.

    A reader ([asn_bit_data]) is a pointer into an octet string with a bit
    offset.  [remaining] is the sequence of bits it stands for; the main
    lemmas say that, whatever the alignment, a read yields the number the
    next bits denote and advances past them, or fails at the end of data
    without moving. *)

From S2P Require Import Prelude Runtime.

(** * The reader *)

(** asn_bit_data_t.  [buffer] is the octet string from the C pointer on, so
    advancing the pointer drops octets.  [refill] is NULL in every stream the
    live code builds: uper_decode and uper_open_type_get_simple clear the
    structure, asn_bit_data_new_contiguous callocs it, and the one function
    that sets the pointer, uper_open_type_get_complex, is never called. *)
Record asn_bit_data := mk_bit_data {
  buffer : list Z;
  nboff : Z;
  nbits : Z;
  moved : Z
}.

(** asn_bit_data_new_contiguous: a copy of [size_bits] bits and one extra
    zero octet. *)
Definition asn_bit_data_new_contiguous {A : Allocator} (sizeof_pd : Z) (data : list Z)
    (size_bits : Z) : option asn_bit_data :=
  let size_bytes := (size_bits + 7) / 8 in
  if malloc_ok (sizeof_pd + size_bytes + 1) then
    Some {| buffer := take (Z.to_nat size_bytes) data ++ [0];
            nboff := 0; nbits := size_bits; moved := 0 |}
  else None.

(** asn_get_undo.  The assertion of the first branch always holds there. *)
Definition asn_get_undo (pd : asn_bit_data) (nb : Z) : asn_bit_data :=
  if nboff pd <? nb then pd
  else {| buffer := buffer pd; nboff := nboff pd - nb; nbits := nbits pd;
          moved := moved pd - nb |}.

(** "Normalize position indicator" of asn_get_few_bits. *)
Definition get_normalize (pd : asn_bit_data) : asn_bit_data :=
  if 8 <=? nboff pd then
    {| buffer := drop (Z.to_nat (nboff pd ≫ 3)) (buffer pd);
       nboff := nboff pd .& 7;
       nbits := nbits pd - (nboff pd .& Z.lnot 7);
       moved := moved pd |}
  else pd.

(** [buf[i]]; the streams of the model never read past their octets
    (see [get_few_bits_ok]). *)
Definition octet_at (buf : list Z) (i : nat) : Z := nth i buf 0.

(** asn_get_few_bits.  The only nested calls read at most 24 bits from an
    offset below 8 and do not nest again, so two levels are enough. *)
Fixpoint asn_get_few_bits_fuel (fuel : nat) (pd : asn_bit_data) (nb : Z) : Z * asn_bit_data :=
  if nb <? 0 then (-1, pd) else
  let nleft := nbits pd - nboff pd in
  if nleft <? nb then (-1, pd) else
  let pd0 := get_normalize pd in
  let pd' := {| buffer := buffer pd0; nboff := nboff pd0 + nb; nbits := nbits pd0;
                moved := moved pd0 + nb |} in
  let off := nboff pd' in
  let b := octet_at (buffer pd') in
  let finish accum := (u32 accum .& (1 ≪ nb - 1), pd') in
  if off <=? 8 then
    finish (if nb =? 0 then 0 else b 0%nat ≫ (8 - off))
  else if off <=? 16 then
    finish ((b 0%nat ≪ 8 + b 1%nat) ≫ (16 - off))
  else if off <=? 24 then
    finish ((b 0%nat ≪ 16 + b 1%nat ≪ 8 + b 2%nat) ≫ (24 - off))
  else if off <=? 31 then
    finish ((b 0%nat ≪ 24 + b 1%nat ≪ 16 + b 2%nat ≪ 8 + b 3%nat) ≫ (32 - off))
  else if nb <=? 31 then
    match fuel with
    | O => (-1, pd')
    | S fuel' =>
        let tpd := asn_get_undo pd' nb in
        let '(hi, tpd) := asn_get_few_bits_fuel fuel' tpd (nb - 24) in
        let '(lo, tpd) := asn_get_few_bits_fuel fuel' tpd 24 in
        finish (u32 (hi ≪ 24) .| u32 lo)
    end
  else (-1, asn_get_undo pd' nb).

Definition asn_get_few_bits : asn_bit_data -> Z -> Z * asn_bit_data := asn_get_few_bits_fuel 2.

(** The loop of asn_get_many_bits: the octets stored through [dst]. *)
Fixpoint asn_get_many_bits_loop (fuel : nat) (pd : asn_bit_data) (nb : Z) (dst : list Z) :
    option (list Z) * asn_bit_data :=
  if nb =? 0 then (Some dst, pd) else
  match fuel with
  | O => (None, pd)
  | S fuel' =>
      if 24 <=? nb then
        let '(value, pd) := asn_get_few_bits pd 24 in
        if value <? 0 then (None, pd)
        else asn_get_many_bits_loop fuel' pd (nb - 24)
               (dst ++ [u8 (value ≫ 16); u8 (value ≫ 8); u8 value])
      else
        let '(value, pd) := asn_get_few_bits pd nb in
        if value <? 0 then (None, pd) else
        let value := if (nb .& 7) =? 0 then value else value ≪ (8 - (nb .& 7)) in
        let nb := if (nb .& 7) =? 0 then nb else nb + (8 - (nb .& 7)) in
        (Some (dst ++ (if 24 <? nb then [u8 (value ≫ 24)] else [])
                   ++ (if 16 <? nb then [u8 (value ≫ 16)] else [])
                   ++ (if 8 <? nb then [u8 (value ≫ 8)] else [])
                   ++ [u8 value]), pd)
  end.

(** asn_get_many_bits: the octets written to [dst] and success, or -1. *)
Definition asn_get_many_bits (pd : asn_bit_data) (alright : bool) (nb : Z) :
    option (list Z) * asn_bit_data :=
  let fuel := S (Z.to_nat (nb / 24)) in
  if alright && negb ((nb .& 7) =? 0) then
    let '(value, pd) := asn_get_few_bits pd (nb .& 7) in
    if value <? 0 then (None, pd)
    else asn_get_many_bits_loop fuel pd (nb .& Z.lnot 7) [u8 value]
  else asn_get_many_bits_loop fuel pd nb [].

(** ** Meaning of a reader *)

Definition pd_ok (pd : asn_bit_data) : Prop :=
  0 <= nboff pd <= nbits pd /\ nbits pd <= 8 * Z.of_nat (length (buffer pd)) /\ octets (buffer pd).

(** The bits still to be read. *)
Definition remaining (pd : asn_bit_data) : list bool :=
  take (Z.to_nat (nbits pd - nboff pd)) (drop (Z.to_nat (nboff pd)) (bytes_bits (buffer pd))).

(** [pd'] is [pd] after [n] bits were read: the position advances by [n], in
    the stream and in both of its counters. *)
Definition advanced (pd pd' : asn_bit_data) (n : nat) : Prop :=
  pd_ok pd' /\ remaining pd' = drop n (remaining pd) /\ (n <= length (remaining pd))%nat /\
  moved pd' = moved pd + Z.of_nat n /\
  nboff pd' - 8 * Z.of_nat (length (buffer pd')) =
    nboff pd - 8 * Z.of_nat (length (buffer pd)) + Z.of_nat n.

Lemma length_remaining pd : pd_ok pd -> Z.of_nat (length (remaining pd)) = nbits pd - nboff pd.
Proof. intros (H1 & H2 & _). unfold remaining. len. Qed.

Lemma advanced_0 pd : pd_ok pd -> advanced pd pd 0.
Proof. intros H. unfold advanced. rewrite drop_0. split_all; auto; lia. Qed.

Lemma advanced_trans pd1 pd2 pd3 n m :
  advanced pd1 pd2 n -> advanced pd2 pd3 m -> advanced pd1 pd3 (n + m).
Proof.
  intros (_ & R2 & L2 & M2 & P2) (W3 & R3 & L3 & M3 & P3).
  unfold advanced. rewrite R3, R2, drop_drop. rewrite R2 in L3.
  split_all; auto; [revert L3; len | lia | lia].
Qed.

(** A stream of whole octets, as uper_decode sets it up. *)
Lemma new_stream_ok bs :
  octets bs ->
  pd_ok (mk_bit_data bs 0 (8 * Z.of_nat (length bs)) 0) /\
  remaining (mk_bit_data bs 0 (8 * Z.of_nat (length bs)) 0) = bytes_bits bs.
Proof.
  intros H. split; [unfold pd_ok; simpl; split_all; auto; lia|].
  unfold remaining; cbn [buffer nboff nbits]. rewrite drop_0. apply take_ge. len.
Qed.

(** ** Reading a few bits *)

Lemma land7 n : 0 <= n -> n .& 7 = n mod 8.
Proof. intros. change 7 with (Z.ones 3). now rewrite Z.land_ones by lia. Qed.

Lemma land_not7 n : 0 <= n -> n .& Z.lnot 7 = 8 * (n / 8).
Proof.
  intros H. rewrite <- Z.ldiff_land. change 7 with (Z.ones 3).
  rewrite Z.ldiff_ones_r by lia. rewrite Z.shiftl_mul_pow2, Z.shiftr_div_pow2 by lia.
  change (2 ^ 3) with 8. lia.
Qed.

Lemma shiftr3 n : n ≫ 3 = n / 8.
Proof. now rewrite Z.shiftr_div_pow2 by lia. Qed.

Lemma get_normalize_ok pd :
  pd_ok pd -> advanced pd (get_normalize pd) 0 /\ 0 <= nboff (get_normalize pd) < 8.
Proof.
  intros Hok. pose proof Hok as (H1 & H2 & H3). unfold get_normalize.
  destruct (Z.leb_spec 8 (nboff pd)) as [H8|H8]; [|auto using advanced_0 with lia].
  rewrite land7, land_not7, shiftr3 by lia.
  pose proof (Z.div_mod (nboff pd) 8 ltac:(lia)).
  pose proof (Z.mod_pos_bound (nboff pd) 8 ltac:(lia)).
  set (q := nboff pd / 8) in *. set (r := nboff pd mod 8) in *.
  split; [|cbn [nboff]; lia]. unfold advanced, pd_ok, remaining; cbn [buffer nboff nbits moved].
  rewrite length_drop, drop_0. split_all; auto with asn; try lia.
  rewrite <- bytes_bits_drop, drop_drop. f_equal; [lia|f_equal; lia].
Qed.

Lemma octet_at_octet l i : octets l -> octet (octet_at l i).
Proof.
  intros H. unfold octet_at. destruct (Nat.lt_ge_cases i (length l)) as [Hi|Hi].
  - now apply (proj1 (List.Forall_nth octet l) H).
  - rewrite nth_overflow by lia. split; lia.
Qed.

(** The first [k] octets of a buffer as the accumulator of the C code. *)
Lemma octet_window l k :
  octets l -> (k <= length l)%nat -> bval (bytes_bits (take k l)) = be_val (map (octet_at l) (seq 0 k)).
Proof.
  intros Hl Hk. rewrite <- be_val_bits by auto with asn. f_equal.
  apply (nth_ext _ _ 0 0); [len; rewrite length_seq; lia|].
  intros i Hi. rewrite length_take in Hi.
  rewrite (nth_indep (map _ _) 0 (octet_at l 0)), map_nth, seq_nth by (rewrite ?length_map, ?length_seq; lia).
  unfold octet_at. rewrite <- (take_drop k l) at 2. rewrite app_nth1 by len. reflexivity.
Qed.

(** Shift and mask of the first [k] octets yields the wanted slice of bits. *)
Lemma window_slice pd nb (k : nat) :
  pd_ok pd -> 0 <= nb <= 31 -> nboff pd + nb <= nbits pd -> 0 <= nboff pd < 8 ->
  8 * (Z.of_nat k - 1) < nboff pd + nb <= 8 * Z.of_nat k -> (k <= 4)%nat ->
  u32 (be_val (map (octet_at (buffer pd)) (seq 0 k)) ≫ (8 * Z.of_nat k - (nboff pd + nb)))
    .& (1 ≪ nb - 1) = bval (take (Z.to_nat nb) (remaining pd)).
Proof.
  intros (H1 & H2 & H3) Hnb Hle Hoff Hk Hk4.
  rewrite <- octet_window by (auto; lia). rewrite land_ones_mod by lia.
  set (l := bytes_bits (take k (buffer pd))).
  assert (length l = 8 * k)%nat as Hl by (subst l; len).
  assert (take (Z.to_nat nb) (remaining pd) = take (Z.to_nat nb) (drop (Z.to_nat (nboff pd)) l)) as ->.
  { unfold remaining. rewrite take_take. subst l. rewrite <- bytes_bits_take.
    rewrite !take_drop_commute, take_take. repeat (f_equal; try lia). }
  rewrite bval_slice, Hl by lia.
  assert (bval l < 2 ^ 32).
  { pose proof (bval_bound l) as B. rewrite Hl in B.
    pose proof (Z.pow_le_mono_r 2 (Z.of_nat (8 * k)) 32 ltac:(lia) ltac:(lia)). lia. }
  rewrite uwrap_small.
  - f_equal; [f_equal; lia|f_equal; lia].
  - rewrite Z.shiftr_div_pow2 by lia. pose proof (bval_bound l).
    split; [apply Z.div_pos; [lia|apply pow2_pos; lia]|].
    apply Z.div_lt_upper_bound; [apply pow2_pos; lia|].
    pose proof (pow2_pos (8 * Z.of_nat k - (nboff pd + nb)) ltac:(lia)). nia.
Qed.

(** The state after [nb] bits of a normalized stream. *)
Definition step_over (pd : asn_bit_data) (nb : Z) : asn_bit_data :=
  {| buffer := buffer pd; nboff := nboff pd + nb; nbits := nbits pd; moved := moved pd + nb |}.

Lemma step_over_advanced pd nb :
  pd_ok pd -> 0 <= nb <= nbits pd - nboff pd -> advanced pd (step_over pd nb) (Z.to_nat nb).
Proof.
  intros Hok Hnb. pose proof (length_remaining pd Hok). destruct Hok as (H1 & H2 & H3).
  unfold advanced, pd_ok, step_over, remaining; cbn [buffer nboff nbits moved].
  rewrite Z2Nat.id by lia. split_all; auto; try lia; [|len].
  rewrite take_drop_commute, (take_drop_commute _ _ (Z.to_nat (nboff pd))), drop_drop.
  f_equal; [lia|f_equal; lia].
Qed.

Lemma normalize_step pd nb :
  pd_ok pd -> 0 <= nb <= nbits pd - nboff pd ->
  let pd0 := get_normalize pd in
  advanced pd (step_over pd0 nb) (Z.to_nat nb) /\ 0 <= nboff pd0 < 8 /\
  nb <= nbits pd0 - nboff pd0 /\ pd_ok pd0 /\ remaining pd0 = remaining pd.
Proof.
  intros Hok Hnb pd0. destruct (get_normalize_ok pd Hok) as [Ha Ho]. fold pd0 in Ha, Ho.
  pose proof Ha as (Hok0 & Hr & _ & _ & Hp). rewrite drop_0 in Hr.
  assert (nb <= nbits pd0 - nboff pd0).
  { rewrite <- length_remaining, Hr, length_remaining by assumption. lia. }
  split_all; try lia; auto.
  change (Z.to_nat nb) with (0 + Z.to_nat nb)%nat.
  eapply advanced_trans; [exact Ha|]. apply step_over_advanced; [assumption|lia].
Qed.

Lemma be_val_1 f : be_val (map f (seq 0 1)) = f 0%nat.
Proof. cbn. lia. Qed.
Lemma be_val_2 f : be_val (map f (seq 0 2)) = f 0%nat ≪ 8 + f 1%nat.
Proof. cbn -[Z.mul Z.add Z.shiftl]. rewrite !Z.shiftl_mul_pow2 by lia. change (Z.pow_pos 256 1) with 256. lia. Qed.
Lemma be_val_3 f : be_val (map f (seq 0 3)) = f 0%nat ≪ 16 + f 1%nat ≪ 8 + f 2%nat.
Proof.
  cbn -[Z.mul Z.add Z.shiftl]. rewrite !Z.shiftl_mul_pow2 by lia.
  change (Z.pow_pos 256 1) with 256; change (Z.pow_pos 256 2) with (256 * 256). lia.
Qed.
Lemma be_val_4 f :
  be_val (map f (seq 0 4)) = f 0%nat ≪ 24 + f 1%nat ≪ 16 + f 2%nat ≪ 8 + f 3%nat.
Proof.
  cbn -[Z.mul Z.add Z.shiftl]. rewrite !Z.shiftl_mul_pow2 by lia.
  change (Z.pow_pos 256 1) with 256; change (Z.pow_pos 256 2) with (256 * 256);
  change (Z.pow_pos 256 3) with (256 * 256 * 256). lia.
Qed.

(** The branches of asn_get_few_bits that need no nested call. *)
Lemma get_few_bits_flat fuel pd nb :
  pd_ok pd -> 0 <= nb <= nbits pd - nboff pd -> nboff (get_normalize pd) + nb <= 31 ->
  asn_get_few_bits_fuel fuel pd nb =
    (bval (take (Z.to_nat nb) (remaining pd)), step_over (get_normalize pd) nb).
Proof.
  intros Hok Hnb H31. destruct (normalize_step pd nb Hok Hnb) as (_ & Ho & Hle & Hok0 & <-).
  destruct fuel; cbn [asn_get_few_bits_fuel]; fold (step_over (get_normalize pd) nb);
    bool_cases; set (pd0 := get_normalize pd) in *; cbn [nboff buffer step_over].
  all: destruct (Z.leb_spec (nboff pd0 + nb) 8);
    [|destruct (Z.leb_spec (nboff pd0 + nb) 16);
      [|destruct (Z.leb_spec (nboff pd0 + nb) 24)]]; bool_cases; f_equal.
  all: try (rewrite <- be_val_2; apply (window_slice pd0 nb 2); auto; lia).
  all: try (rewrite <- be_val_3; apply (window_slice pd0 nb 3); auto; lia).
  all: try (rewrite <- be_val_4; apply (window_slice pd0 nb 4); auto; lia).
  all: destruct (Z.eqb_spec nb 0) as [->|]; [reflexivity|].
  all: rewrite <- be_val_1; apply (window_slice pd0 nb 1); auto; lia.
Qed.

(** The two halves of the nested branch, put together in 32 bits. *)
Lemma combine_halves (hi lo : list bool) :
  length lo = 24%nat -> (length hi <= 7)%nat ->
  u32 (u32 (bval hi ≪ 24) .| u32 (bval lo)) .& (1 ≪ Z.of_nat (length hi + 24) - 1) = bval (hi ++ lo).
Proof.
  intros Hlo Hhi. pose proof (bval_bound lo) as Blo. pose proof (bval_bound hi) as Bhi.
  rewrite Hlo in Blo. change (2 ^ Z.of_nat 24) with (2 ^ 24) in Blo.
  pose proof (Z.pow_le_mono_r 2 (Z.of_nat (length hi)) 7 ltac:(lia) ltac:(lia)).
  rewrite (uwrap_small 32 (bval lo)) by lia.
  rewrite (uwrap_small 32 (bval hi ≪ 24)) by (rewrite Z.shiftl_mul_pow2; lia).
  rewrite lor_disjoint, land_ones_mod by lia.
  replace (bval hi * 2 ^ 24) with (bval hi * 2 ^ Z.of_nat (length lo)) by (rewrite Hlo; reflexivity).
  rewrite <- bval_app. pose proof (bval_bound (hi ++ lo)) as B. rewrite length_app, Hlo in B.
  pose proof (Z.pow_lt_mono_r 2 (Z.of_nat (length hi + 24)) 32 ltac:(lia) ltac:(lia) ltac:(lia)).
  rewrite uwrap_small, Z.mod_small; lia.
Qed.

Lemma get_few_bits_fuel_ok fuel pd nb :
  pd_ok pd -> 0 <= nb <= 31 -> nb <= nbits pd - nboff pd ->
  asn_get_few_bits_fuel (S fuel) pd nb =
    (bval (take (Z.to_nat nb) (remaining pd)), step_over (get_normalize pd) nb).
Proof.
  intros Hok Hnb Hle. destruct (normalize_step pd nb Hok ltac:(lia)) as (_ & Ho & Hle0 & Hok0 & Hr).
  destruct (Z.leb_spec (nboff (get_normalize pd) + nb) 31).
  { apply get_few_bits_flat; auto; lia. }
  cbn [asn_get_few_bits_fuel]. bool_cases.
  fold (step_over (get_normalize pd) nb). set (pd0 := get_normalize pd) in *.
  cbn [nboff step_over]. bool_cases.
  assert (asn_get_undo (step_over pd0 nb) nb = pd0) as ->.
  { unfold asn_get_undo; cbn [nboff step_over buffer nbits moved]. bool_cases.
    destruct pd0; cbn [buffer nboff nbits moved]. f_equal; lia. }
  assert (get_normalize pd0 = pd0) as E0 by (unfold get_normalize at 1; now bool_cases).
  rewrite get_few_bits_flat by (rewrite ?E0; auto; lia). rewrite E0.
  destruct (normalize_step pd0 (nb - 24) Hok0 ltac:(lia)) as (Ha1 & _). rewrite E0 in Ha1.
  set (pd1 := step_over pd0 (nb - 24)) in *. pose proof Ha1 as (Hok1 & Hr1 & _).
  assert (24 <= nbits pd1 - nboff pd1) by (cbn [pd1 step_over nbits nboff]; lia).
  destruct (normalize_step pd1 24 Hok1 ltac:(lia)) as (_ & Ho2 & _).
  rewrite get_few_bits_flat by (auto; lia). f_equal.
  rewrite Hr1, Hr. pose proof (length_remaining pd Hok).
  replace (1 ≪ nb - 1)
    with (1 ≪ Z.of_nat (length (take (Z.to_nat (nb - 24)) (remaining pd)) + 24) - 1)
    by (do 2 f_equal; len).
  rewrite combine_halves, take_take_drop by len. do 2 f_equal. lia.
Qed.

(** Reading [nb] bits, at most 31, from a stream that has them: the value is
    the number they denote and the stream advances past them. *)
Lemma get_few_bits_ok pd nb :
  pd_ok pd -> 0 <= nb <= 31 -> nb <= nbits pd - nboff pd ->
  exists pd', asn_get_few_bits pd nb = (bval (take (Z.to_nat nb) (remaining pd)), pd') /\
              advanced pd pd' (Z.to_nat nb).
Proof.
  intros Hok Hnb Hle. eexists. split; [now apply get_few_bits_fuel_ok|].
  apply normalize_step; [assumption|lia].
Qed.

(** At the end of the data, or for a count that is not 0..31, nothing is
    read and the result is -1. *)
Lemma get_few_bits_starved pd nb :
  nb < 0 \/ nbits pd - nboff pd < nb -> asn_get_few_bits pd nb = (-1, pd).
Proof.
  intros H. unfold asn_get_few_bits. cbn [asn_get_few_bits_fuel].
  destruct (Z.ltb_spec nb 0); [reflexivity|]. now bool_cases.
Qed.

(** More than 31 bits are never read in one call. *)
Lemma get_few_bits_wide pd nb :
  pd_ok pd -> 31 < nb <= nbits pd - nboff pd ->
  asn_get_few_bits pd nb = (-1, step_over (get_normalize pd) 0).
Proof.
  intros Hok Hnb. destruct (get_normalize_ok pd Hok) as [_ Ho].
  unfold asn_get_few_bits. cbn [asn_get_few_bits_fuel nboff]. bool_cases.
  unfold asn_get_undo; cbn [nboff buffer nbits moved]. rewrite (proj2 (Z.ltb_ge _ _)) by lia.
  unfold step_over. do 2 f_equal; lia.
Qed.

(** ** Reads on arbitrary data *)

(** [follows pd r]: the reader of the result [r] is [pd] moved forward, and
    never beyond the end of its data. *)
Definition follows {A} (pd : asn_bit_data) (r : A * asn_bit_data) : Prop := exists n, advanced pd r.2 n.

Lemma follows_ret {A} pd (a : A) : pd_ok pd -> follows pd (a, pd).
Proof. intros H. exists 0%nat. now apply advanced_0. Qed.

Lemma follows_let {A B} pd (r : A * asn_bit_data) (g : A -> asn_bit_data -> B * asn_bit_data) :
  follows pd r -> (forall x pd', pd_ok pd' -> follows pd' (g x pd')) ->
  follows pd (let '(x, pd') := r in g x pd').
Proof.
  intros [n Hn] Hg. destruct r as [x pd']. cbn in Hn.
  destruct (Hg x pd' (proj1 Hn)) as [m Hm]. exists (n + m)%nat. eauto using advanced_trans.
Qed.

Lemma follows_few_bits pd nb : pd_ok pd -> follows pd (asn_get_few_bits pd nb).
Proof.
  intros Hok. destruct (decide (nb < 0 \/ nbits pd - nboff pd < nb)) as [H|H].
  { rewrite get_few_bits_starved by assumption. now apply follows_ret. }
  destruct (decide (nb <= 31)).
  - destruct (get_few_bits_ok pd nb Hok) as (pd' & E & Ha); [lia|lia|]. rewrite E. exists (Z.to_nat nb). exact Ha.
  - rewrite get_few_bits_wide by (auto; lia). exists 0%nat. apply (normalize_step pd 0 Hok).
    destruct Hok. lia.
Qed.

(** From here on a read is used through its specification. *)
#[global] Opaque asn_get_few_bits.

Create HintDb follows discriminated.
#[export] Hint Resolve follows_ret follows_few_bits : follows.

(** Follow a reader through the branches of a function. *)
Ltac follow := repeat (cbv zeta; match goal with
  | |- follows _ (let '(_, _) := ?r in _) => apply follows_let; [solve [eauto with follows]|intros ? ? ?]
  | |- follows _ (if ?b then _ else _) => destruct b
  | |- follows _ (match ?x with _ => _ end) => destruct x
  | |- follows _ _ => solve [eauto with follows]
  end).

(** ** Decoding steps *)

(** [decodes f enc a]: on any stream that starts with the bits [enc], [f]
    returns [a] and stops right after them. *)
Definition decodes {A} (f : asn_bit_data -> A * asn_bit_data) (enc : list bool) (a : A) : Prop :=
  forall pd rest, pd_ok pd -> remaining pd = enc ++ rest ->
  exists pd', f pd = (a, pd') /\ advanced pd pd' (length enc) /\ remaining pd' = rest.

Lemma advanced_rest pd pd' l rest :
  remaining pd = l ++ rest -> advanced pd pd' (length l) -> remaining pd' = rest.
Proof. intros E (_ & -> & _). rewrite E. apply drop_app_length. Qed.

Lemma decodes_ret {A} (a : A) : decodes (fun pd => (a, pd)) [] a.
Proof. intros pd rest Hok E. exists pd. auto using advanced_0. Qed.

Lemma decodes_bind {A B} (f : asn_bit_data -> A * asn_bit_data) (g : A -> asn_bit_data -> B * asn_bit_data)
    e1 e2 a b :
  decodes f e1 a -> decodes (g a) e2 b ->
  decodes (fun pd => let '(x, pd') := f pd in g x pd') (e1 ++ e2) b.
Proof.
  intros Hf Hg pd rest Hok E. rewrite <- app_assoc in E.
  destruct (Hf pd (e2 ++ rest) Hok E) as (pd1 & E1 & A1 & R1).
  destruct (Hg pd1 rest (proj1 A1) R1) as (pd2 & E2 & A2 & R2).
  exists pd2. rewrite E1, length_app. eauto using advanced_trans.
Qed.

(** The last read of a function that only post-processes it. *)
Lemma decodes_last {A B} (f : asn_bit_data -> A * asn_bit_data) (g : A -> asn_bit_data -> B * asn_bit_data)
    enc a b :
  decodes f enc a -> decodes (g a) [] b ->
  decodes (fun pd => let '(x, pd') := f pd in g x pd') enc b.
Proof. intros. rewrite <- (app_nil_r enc). eapply decodes_bind; eassumption. Qed.

Lemma decodes_ext {A} (f g : asn_bit_data -> A * asn_bit_data) enc a :
  (forall pd, f pd = g pd) -> decodes f enc a -> decodes g enc a.
Proof. intros H Hf pd rest Hok E. rewrite <- H. eauto. Qed.

Lemma decodes_few_bits nb l :
  Z.of_nat (length l) = nb -> nb <= 31 -> decodes (fun pd => asn_get_few_bits pd nb) l (bval l).
Proof.
  intros Hl Hn pd rest Hok E. pose proof (length_remaining pd Hok) as Hrem.
  rewrite E, length_app in Hrem.
  destruct (get_few_bits_ok pd nb Hok ltac:(lia) ltac:(lia)) as (pd' & E' & Ha).
  rewrite <- Hl, Nat2Z.id, E, take_app_length in E'. rewrite <- Hl, Nat2Z.id in Ha.
  exists pd'. rewrite <- Hl. eauto using advanced_rest.
Qed.

(** The bits of a number come back as that number. *)
Lemma decodes_few_bits_of n nb v :
  Z.of_nat n = nb -> nb <= 31 -> 0 <= v < 2 ^ nb ->
  decodes (fun pd => asn_get_few_bits pd nb) (bits_of n v) v.
Proof.
  intros <- Hn Hv. rewrite <- (bval_bits_of_small n v) at 2 by assumption.
  apply decodes_few_bits; [now rewrite length_bits_of|assumption].
Qed.

(** Zero bits up to the next octet boundary. *)
Definition padding (n : nat) : nat := Z.to_nat ((8 - Z.of_nat n mod 8) mod 8).

Lemma padding_spec n : exists q, (n + padding n = 8 * q /\ padding n < 8 /\ (n = 0 -> q = 0))%nat.
Proof.
  unfold padding. pose proof (Z.mod_pos_bound (Z.of_nat n) 8 ltac:(lia)).
  pose proof (Z.div_mod (Z.of_nat n) 8 ltac:(lia)).
  destruct (Z.eq_dec (Z.of_nat n mod 8) 0) as [E|E].
  - rewrite E. change ((8 - 0) mod 8) with 0. exists (Z.to_nat (Z.of_nat n / 8)). lia.
  - rewrite (Z.mod_small (8 - _)) by lia. exists (S (Z.to_nat (Z.of_nat n / 8))). lia.
Qed.

Lemma bval_pad l k : bval (l ++ replicate k false) = bval l ≪ Z.of_nat k.
Proof.
  rewrite bval_app, length_replicate, Z.shiftl_mul_pow2 by lia.
  enough (bval (replicate k false) = 0) as -> by lia.
  induction k as [|k IH]; simpl; [reflexivity|]. rewrite IH. lia.
Qed.

Lemma bytes_of_bits (l : list bool) q :
  length l = (8 * q)%nat -> bytes_bits (be_bytes q (bval l)) = l.
Proof. intros H. rewrite bytes_bits_be_bytes, <- H. apply bits_of_bval. Qed.

(** The last, incomplete group of asn_get_many_bits: left aligned. *)
Lemma tail_bytes (l : list bool) :
  (0 < length l < 24)%nat ->
  let nb := Z.of_nat (length l) in
  let v := if (nb .& 7) =? 0 then bval l else bval l ≪ (8 - (nb .& 7)) in
  let nb' := if (nb .& 7) =? 0 then nb else nb + (8 - (nb .& 7)) in
  exists q, (length l + padding (length l) = 8 * q)%nat /\
    ((if 24 <? nb' then [u8 (v ≫ 24)] else []) ++ (if 16 <? nb' then [u8 (v ≫ 16)] else []) ++
     (if 8 <? nb' then [u8 (v ≫ 8)] else []) ++ [u8 v])
    = be_bytes q (bval (l ++ replicate (padding (length l)) false)).
Proof.
  intros Hl nb v nb'. rewrite bval_pad.
  destruct (padding_spec (length l)) as (q & Hq & Hlt & _). exists q. split; [assumption|].
  assert (nb' = 8 * Z.of_nat q /\ v = bval l ≪ Z.of_nat (padding (length l))) as [-> ->].
  { subst nb' v nb. rewrite land7 by lia. unfold padding in *.
    pose proof (Z.mod_pos_bound (Z.of_nat (length l)) 8 ltac:(lia)).
    destruct (Z.eqb_spec (Z.of_nat (length l) mod 8) 0) as [E|E].
    - rewrite E in *. change ((8 - 0) mod 8) with 0 in *. rewrite Z.shiftl_0_r. lia.
    - rewrite (Z.mod_small (8 - _)) in * by lia. rewrite Z2Nat.id by lia. lia. }
  assert (q = 1 \/ q = 2 \/ q = 3)%nat as [-> | [-> | ->]] by lia;
    cbn -[Z.shiftl Z.shiftr]; now rewrite ?Z.shiftr_0_r.
Qed.

Lemma be_bytes_3 v : be_bytes 3 v = [u8 (v ≫ 16); u8 (v ≫ 8); u8 v].
Proof. cbn -[Z.shiftr]. now rewrite Z.shiftr_0_r. Qed.

Lemma get_many_bits_loop_ok fuel l dst :
  (length l <= 24 * fuel)%nat ->
  (0 < length l -> S (length l / 24) <= fuel)%nat ->
  exists q, (length l + padding (length l) = 8 * q)%nat /\
  decodes (fun pd => asn_get_many_bits_loop fuel pd (Z.of_nat (length l)) dst) l
    (Some (dst ++ be_bytes q (bval (l ++ replicate (padding (length l)) false)))).
Proof.
  revert l dst. induction fuel as [|fuel IH]; intros l dst Hf Hf'.
  { destruct l; simpl in *; [|lia]. exists 0%nat. split; [reflexivity|].
    cbn. rewrite app_nil_r. apply decodes_ret. }
  cbn [asn_get_many_bits_loop].
  destruct (decide (length l = 0%nat)) as [E0|E0].
  { apply nil_length_inv in E0 as ->. exists 0%nat. split; [reflexivity|].
    cbn. rewrite app_nil_r. apply decodes_ret. }
  assert ((Z.of_nat (length l) =? 0) = false) as -> by lia.
  destruct (Z.leb_spec 24 (Z.of_nat (length l))) as [H24|H24].
  - assert (exists l1 l2, l = l1 ++ l2 /\ length l1 = 24%nat) as (l1 & l2 & -> & H1).
    { exists (take 24 l), (drop 24 l). rewrite take_drop. split; [reflexivity|len]. }
    rewrite length_app, H1 in *.
    replace (24 + length l2)%nat with (1 * 24 + length l2)%nat in Hf' by lia.
    rewrite Nat.div_add_l in Hf' by lia.
    destruct (IH l2 (dst ++ be_bytes 3 (bval l1)) ltac:(lia) ltac:(lia)) as (q & Hq & Hd).
    exists (3 + q)%nat. assert (padding (24 + length l2) = padding (length l2)) as ->.
    { unfold padding. rewrite Nat2Z.inj_add. change (Z.of_nat 24) with (3 * 8).
      rewrite Z.add_comm, Z.mod_add by lia. reflexivity. }
    split; [lia|].
    eapply decodes_bind; [apply decodes_few_bits; lia|].
    pose proof (bval_bound l1). assert ((bval l1 <? 0) = false) as -> by lia.
    replace (Z.of_nat (24 + length l2) - 24) with (Z.of_nat (length l2)) by lia.
    match type of Hd with decodes _ _ (Some ?r) => match goal with |- decodes _ _ (Some ?r') =>
      enough (r' = r) as -> by (rewrite be_bytes_3 in Hd at 1; exact Hd) end end.
    rewrite <- (app_assoc dst). f_equal. apply bytes_bits_inj; [auto with asn| |].
    + apply octets_app; auto with asn.
    + rewrite bytes_bits_app, !bytes_of_bits by len. now rewrite app_assoc.
  - destruct (tail_bytes l ltac:(lia)) as (q & Hq & Et). exists q. split; [assumption|].
    eapply decodes_last; [apply decodes_few_bits; lia|].
    pose proof (bval_bound l). assert ((bval l <? 0) = false) as -> by lia.
    rewrite Et. apply decodes_ret.
Qed.

(** Left-aligned reading of whole octets returns these octets. *)
Lemma decodes_many_bits_octets bs :
  octets bs ->
  decodes (fun pd => asn_get_many_bits pd false (8 * Z.of_nat (length bs))) (bytes_bits bs) (Some bs).
Proof.
  intros Hbs. set (l := bytes_bits bs).
  assert (length l = 8 * length bs)%nat as Hl by (subst l; len).
  replace (8 * Z.of_nat (length bs)) with (Z.of_nat (length l)) by lia.
  unfold asn_get_many_bits; cbn [andb].
  destruct (get_many_bits_loop_ok (S (Z.to_nat (Z.of_nat (length l) / 24))) l []) as (q & Hq & Hd).
  - pose proof (Z.div_mod (Z.of_nat (length l)) 24 ltac:(lia)).
    pose proof (Z.mod_pos_bound (Z.of_nat (length l)) 24 ltac:(lia)). lia.
  - intros _. rewrite <- (Nat2Z.id (length l / 24)), Nat2Z.inj_div. lia.
  - assert (padding (length l) = 0)%nat as E.
    { unfold padding. rewrite Hl, Nat2Z.inj_mul, (Z.mul_comm (Z.of_nat 8)).
      change (Z.of_nat 8) with 8. now rewrite Z.mod_mul by lia. }
    rewrite E in *. cbn [replicate app] in Hd. rewrite app_nil_r in Hd.
    enough (be_bytes q (bval l) = bs) as Eb by (rewrite Eb in Hd; exact Hd).
    apply bytes_bits_inj; auto with asn. now rewrite bytes_of_bits by lia.
Qed.

Lemma follows_many_bits_loop fuel pd nb dst : pd_ok pd -> follows pd (asn_get_many_bits_loop fuel pd nb dst).
Proof.
  revert pd nb dst. induction fuel as [|fuel IH]; intros pd nb dst Hok; cbn [asn_get_many_bits_loop]; follow.
Qed.

Lemma follows_many_bits pd alright nb : pd_ok pd -> follows pd (asn_get_many_bits pd alright nb).
Proof. intros Hok. unfold asn_get_many_bits. pose proof follows_many_bits_loop. follow. Qed.
#[export] Hint Resolve follows_many_bits : follows.

(** * Properties *)

(** asn_get_few_bits, at any bit offset: when the stream holds [nb]
    bits, 0 to 31, it returns the number these bits denote, most significant
    first, and advances the position and the counter [moved] by [nb]; when it
    holds fewer, it returns -1 and leaves the stream as it is. *)
Theorem asn_get_few_bits_spec pd nb :
  pd_ok pd -> 0 <= nb <= 31 ->
  if nb <=? Z.of_nat (length (remaining pd))
  then exists pd', asn_get_few_bits pd nb = (bval (take (Z.to_nat nb) (remaining pd)), pd') /\
                   advanced pd pd' (Z.to_nat nb)
  else asn_get_few_bits pd nb = (-1, pd).
Proof.
  intros Hok Hnb. rewrite length_remaining by assumption.
  destruct (Z.leb_spec nb (nbits pd - nboff pd)).
  - now apply get_few_bits_ok.
  - apply get_few_bits_starved. lia.
Qed.

Lemma asn_get_few_bits_spec_witness :
  let pd := mk_bit_data [165; 60] 3 16 3 in
  asn_get_few_bits pd 7 = (20, mk_bit_data [165; 60] 10 16 10) /\
  if 7 <=? Z.of_nat (length (remaining pd))
  then exists pd', asn_get_few_bits pd 7 = (bval (take (Z.to_nat 7) (remaining pd)), pd') /\
                   advanced pd pd' (Z.to_nat 7)
  else asn_get_few_bits pd 7 = (-1, pd).
Proof.
  split; [vm_compute; reflexivity|].
  apply (asn_get_few_bits_spec (mk_bit_data [165; 60] 3 16 3) 7); [|lia].
  unfold pd_ok; simpl; repeat split; try lia. repeat constructor; lia.
Defined.
