(* ===== verification/BitOutp.v ===== *)
(** The writer of the PER bit streams: the asn_put_* functions of
    vanetza/asn1/support/asn_bit_data.c.

    A writer ([asn_bit_outp]) is a pointer into a 32-octet scratch area whose
    complete octets are flushed through a callback.  [written] is the
    sequence of bits written so far; the main lemmas say that, whatever the
    alignment and however often the scratch area is flushed, a write appends
    exactly the bits of its argument, and stays inside the scratch area. *)

From S2P Require Import Prelude Runtime BitData.

(** * The writer *)

(** asn_bit_outp_t.  [o_buffer] is [buffer - tmpspace], or nothing while the
    pointer is NULL (constr_SEQUENCE_oer.c starts from a cleared structure);
    [op_key] is the state behind the key of the output callback. *)
Record asn_bit_outp (K : Type) := mk_bit_outp {
  o_buffer : option nat;
  o_nboff : Z;
  o_nbits : Z;
  tmpspace : list Z;
  op_key : K;
  flushed_bytes : Z
}.
Arguments mk_bit_outp {K} _ _ _ _ _ _.
Arguments o_buffer {K} _.
Arguments o_nboff {K} _.
Arguments o_nbits {K} _.
Arguments tmpspace {K} _.
Arguments op_key {K} _.
Arguments flushed_bytes {K} _.

Definition sizeof_tmpspace : nat := 32.

Section Writer.
Context {K : Type} {C : Consumer K}.

(** "Normalize position indicator" of asn_put_few_bits. *)
Definition put_normalize (po : asn_bit_outp K) : asn_bit_outp K :=
  if 8 <=? o_nboff po then
    {| o_buffer := option_map (fun i => (i + Z.to_nat (o_nboff po ≫ 3))%nat) (o_buffer po);
       o_nboff := o_nboff po .& 7;
       o_nbits := o_nbits po - (o_nboff po .& Z.lnot 7);
       tmpspace := tmpspace po; op_key := op_key po; flushed_bytes := flushed_bytes po |}
  else po.

(** "Flush whole-bytes output, if necessary"; nothing when the callback
    fails. *)
Definition put_flush (po : asn_bit_outp K) (obits : Z) : option (asn_bit_outp K) :=
  if o_nbits po <? o_nboff po + obits then
    let buf := default 0%nat (o_buffer po) in
    let complete_bytes := buf in
    match consume (op_key po) (take complete_bytes (tmpspace po)) with
    | None => None
    | Some key =>
        Some {| o_buffer := Some 0%nat; o_nboff := o_nboff po;
                o_nbits := 8 * Z.of_nat sizeof_tmpspace;
                tmpspace := if o_nboff po =? 0 then tmpspace po
                            else <[0%nat := octet_at (tmpspace po) buf]> (tmpspace po);
                op_key := key;
                flushed_bytes := flushed_bytes po + Z.of_nat complete_bytes |}
    end
  else Some po.

(** Store octets from [buf[0]] on and move the bit offset. *)
Definition put_store (po : asn_bit_outp K) (off : Z) (bs : list Z) : asn_bit_outp K :=
  {| o_buffer := o_buffer po; o_nboff := off; o_nbits := o_nbits po;
     tmpspace := list_inserts (default 0%nat (o_buffer po)) bs (tmpspace po);
     op_key := op_key po; flushed_bytes := flushed_bytes po |}.

(** asn_put_few_bits.  The nested calls write at most 24 bits from an
    offset below 8 and do not nest again. *)
Fixpoint asn_put_few_bits_fuel (fuel : nat) (po : asn_bit_outp K) (bits obits : Z) :
    Z * asn_bit_outp K :=
  if (obits <=? 0) || (32 <=? obits) then ((if obits =? 0 then 0 else -1), po) else
  match put_flush (put_normalize po) obits with
  | None => (-1, put_normalize po)
  | Some po =>
      let buf0 := octet_at (tmpspace po) (default 0%nat (o_buffer po)) in
      let omsk := Z.lnot (1 ≪ (8 - o_nboff po) - 1) in
      let off := o_nboff po + obits in
      let bits := u32 bits .& (1 ≪ obits - 1) in
      if off <=? 8 then
        let bits := u32 (bits ≪ (8 - off)) in
        (0, put_store po off [u8 (buf0 .& omsk .| bits)])
      else if off <=? 16 then
        let bits := u32 (bits ≪ (16 - off)) in
        (0, put_store po off [u8 (buf0 .& omsk .| bits ≫ 8); u8 bits])
      else if off <=? 24 then
        let bits := u32 (bits ≪ (24 - off)) in
        (0, put_store po off [u8 (buf0 .& omsk .| bits ≫ 16); u8 (bits ≫ 8); u8 bits])
      else if off <=? 31 then
        let bits := u32 (bits ≪ (32 - off)) in
        (0, put_store po off [u8 (buf0 .& omsk .| bits ≫ 24); u8 (bits ≫ 16); u8 (bits ≫ 8); u8 bits])
      else
        match fuel with
        | O => (-1, po)
        | S fuel' =>
            let '(rc, po) := asn_put_few_bits_fuel fuel' po (bits ≫ (obits - 24)) 24 in
            if negb (rc =? 0) then (-1, po) else
            let '(rc, po) := asn_put_few_bits_fuel fuel' po bits (obits - 24) in
            if negb (rc =? 0) then (-1, po) else (0, po)
        end
  end.

Definition asn_put_few_bits : asn_bit_outp K -> Z -> Z -> Z * asn_bit_outp K :=
  asn_put_few_bits_fuel 2.

(** The loop of asn_put_many_bits. *)
Fixpoint asn_put_many_bits_loop (fuel : nat) (po : asn_bit_outp K) (src : list Z) (nb : Z) :
    Z * asn_bit_outp K :=
  if nb =? 0 then (0, po) else
  match fuel with
  | O => (-1, po)
  | S fuel' =>
      if 24 <=? nb then
        let value := (octet_at src 0 ≪ 16) .| (octet_at src 1 ≪ 8) .| octet_at src 2 in
        let '(rc, po) := asn_put_few_bits po value 24 in
        if negb (rc =? 0) then (-1, po)
        else asn_put_many_bits_loop fuel' po (drop 3 src) (nb - 24)
      else
        let value := octet_at src 0 in
        let value := if 8 <? nb then (value ≪ 8) .| octet_at src 1 else value in
        let value := if 16 <? nb then (value ≪ 8) .| octet_at src 2 else value in
        let value := if (nb .& 7) =? 0 then value else value ≫ (8 - (nb .& 7)) in
        let '(rc, po) := asn_put_few_bits po value nb in
        if negb (rc =? 0) then (-1, po) else (0, po)
  end.

Definition asn_put_many_bits (po : asn_bit_outp K) (src : list Z) (nb : Z) : Z * asn_bit_outp K :=
  asn_put_many_bits_loop (S (Z.to_nat (nb / 24))) po src nb.

(** asn_put_aligned_flush: clear the unused bits of the last octet and
    flush everything. *)
Definition asn_put_aligned_flush (po : asn_bit_outp K) : Z * asn_bit_outp K :=
  let unused_bits := 7 .& (8 - (o_nboff po .& 7)) in
  let complete_bytes := (default 0%nat (o_buffer po) + Z.to_nat ((o_nboff po + 7) ≫ 3))%nat in
  let last := (default 0%nat (o_buffer po) + Z.to_nat (o_nboff po ≫ 3))%nat in
  let tmp := if unused_bits =? 0 then tmpspace po
             else <[last := u8 (octet_at (tmpspace po) last .& u32 (Z.lnot 0 ≪ unused_bits))]> (tmpspace po) in
  match consume (op_key po) (take complete_bytes tmp) with
  | None => (-1, mk_bit_outp (o_buffer po) (o_nboff po) (o_nbits po) tmp (op_key po) (flushed_bytes po))
  | Some key =>
      (0, {| o_buffer := Some 0%nat; o_nboff := 0; o_nbits := 8 * Z.of_nat sizeof_tmpspace;
             tmpspace := tmp; op_key := key;
             flushed_bytes := flushed_bytes po + Z.of_nat complete_bytes |})
  end.
End Writer.

(** ** Meaning of a writer *)

Section WriterSpec.
Context {K : Type} {C : Consumer K} {S : Sink K}.
Implicit Types po : asn_bit_outp K.

(** The scratch area holds whole octets, the position stays inside it, and
    [flushed_bytes] counts what the callback was given. *)
Definition po_ok po : Prop :=
  length (tmpspace po) = sizeof_tmpspace /\ octets (tmpspace po) /\ octets (contents (op_key po)) /\
  match o_buffer po with
  | None => o_nboff po = 0 /\ o_nbits po = 0
  | Some i => (i <= sizeof_tmpspace)%nat /\ 0 <= o_nboff po <= o_nbits po /\
              8 * Z.of_nat i + o_nbits po = 8 * Z.of_nat sizeof_tmpspace
  end.

(** Index of the first octet of the scratch area that is not complete. *)
Definition o_pos po : nat := default 0%nat (o_buffer po).

(** All bits written so far: those the callback consumed, then those of
    the scratch area. *)
Definition written po : list bool :=
  bytes_bits (contents (op_key po)) ++
  take (8 * o_pos po + Z.to_nat (o_nboff po)) (bytes_bits (tmpspace po)).

(** [po'] is [po] after the bits [l] were written. *)
Definition appended po po' (l : list bool) : Prop :=
  po_ok po' /\ written po' = written po ++ l /\
  flushed_bytes po' - Z.of_nat (length (contents (op_key po')))
    = flushed_bytes po - Z.of_nat (length (contents (op_key po))).

Lemma appended_nil po : po_ok po -> appended po po [].
Proof. intros. unfold appended. rewrite app_nil_r. auto. Qed.

Lemma appended_trans po1 po2 po3 l1 l2 :
  appended po1 po2 l1 -> appended po2 po3 l2 -> appended po1 po3 (l1 ++ l2).
Proof.
  intros (_ & W2 & F2) (O3 & W3 & F3). unfold appended. rewrite W3, W2, app_assoc.
  split_all; auto. lia.
Qed.

(** uper_encode's initial state. *)
Definition fresh_outp (tmp : list Z) (key : K) : asn_bit_outp K :=
  {| o_buffer := Some 0%nat; o_nboff := 0; o_nbits := 8 * Z.of_nat sizeof_tmpspace;
     tmpspace := tmp; op_key := key; flushed_bytes := 0 |}.

Lemma fresh_outp_ok tmp key :
  length tmp = sizeof_tmpspace -> octets tmp -> octets (contents key) ->
  po_ok (fresh_outp tmp key) /\ written (fresh_outp tmp key) = bytes_bits (contents key).
Proof.
  intros H1 H2 H3. split; [unfold po_ok, fresh_outp; cbn; split_all; auto; lia|].
  unfold written, o_pos, fresh_outp; cbn. apply app_nil_r.
Qed.

Lemma put_normalize_ok po :
  po_ok po -> appended po (put_normalize po) [] /\ 0 <= o_nboff (put_normalize po) < 8 /\
              (o_buffer (put_normalize po) = None -> o_nbits (put_normalize po) = 0).
Proof.
  intros Hok. pose proof Hok as (Hl & Ho & Hc & Hb). unfold put_normalize.
  destruct (Z.leb_spec 8 (o_nboff po)) as [H8|H8].
  - destruct (o_buffer po) as [i|] eqn:Ei; [|lia]. destruct Hb as (Hi & Hn & Hs).
    rewrite land7, land_not7, shiftr3 by lia.
    pose proof (Z.div_mod (o_nboff po) 8 ltac:(lia)).
    pose proof (Z.mod_pos_bound (o_nboff po) 8 ltac:(lia)).
    set (q := o_nboff po / 8) in *. set (r := o_nboff po mod 8) in *.
    split; [|cbn; split; [lia|discriminate]].
    unfold appended, po_ok, written, o_pos; cbn [o_buffer o_nboff o_nbits tmpspace op_key flushed_bytes option_map from_option id].
    rewrite Ei, app_nil_r. cbn [from_option id]. unfold sizeof_tmpspace in *. split_all; auto; try lia.
    f_equal. f_equal. lia.
  - split; [auto using appended_nil|]. destruct (o_buffer po); split; try lia; try discriminate.
Qed.

Lemma octet_at_bits l i :
  (i < length l)%nat -> bytes_bits l = bytes_bits (take i l) ++ bits_of 8 (octet_at l i) ++ bytes_bits (drop (Datatypes.S i) l).
Proof.
  intros Hi. rewrite <- (take_drop i l) at 1. rewrite bytes_bits_app. f_equal.
  rewrite <- (take_drop i l) at 2. unfold octet_at. rewrite app_nth2 by len.
  replace (i - length (take i l))%nat with 0%nat by len.
  replace (Datatypes.S i) with (i + 1)%nat by lia. rewrite <- drop_drop.
  destruct (drop i l) as [|b l'] eqn:E; [|reflexivity].
  apply (f_equal length) in E. revert E. len.
Qed.

Lemma take_first_octet l n :
  (n <= 8)%nat -> (0 < length l)%nat -> take n (bytes_bits l) = take n (bits_of 8 (octet_at l 0)).
Proof. intros Hn Hl. destruct l as [|b l]; [simpl in Hl; lia|]. cbn [bytes_bits]. now rewrite take_app_le by len. Qed.

(** After the flush there is room for [obits] more bits. *)
Lemma put_flush_ok po obits po' :
  po_ok po -> 0 <= o_nboff po < 8 -> 0 < obits <= 31 ->
  put_flush po obits = Some po' ->
  appended po po' [] /\ o_nboff po' = o_nboff po /\
  exists i, o_buffer po' = Some i /\ o_nboff po' + obits <= o_nbits po'.
Proof.
  intros Hok Hn Hob. pose proof Hok as (Hl & Ho & Hc & Hb). unfold put_flush.
  destruct (Z.ltb_spec (o_nbits po) (o_nboff po + obits)) as [Hf|Hf].
  - destruct (consume _ _) as [key|] eqn:Ek; [|discriminate]. intros [= <-].
    pose proof (consume_contents _ _ _ Ek) as Ec. fold (o_pos po) in *.
    assert (o_pos po <= sizeof_tmpspace)%nat as Hi.
    { unfold o_pos. destruct (o_buffer po); cbn; lia. }
    cbn [o_nboff o_buffer o_nbits]. split; [|split; [reflexivity|exists 0%nat; unfold sizeof_tmpspace; split; auto; lia]].
    assert (0 < o_nboff po -> (o_pos po < sizeof_tmpspace)%nat) as Hi'.
    { unfold o_pos. destruct (o_buffer po); cbn; lia. }
    unfold appended, po_ok; cbn [o_nboff o_buffer o_nbits tmpspace op_key flushed_bytes].
    rewrite Ec, length_app, length_take, app_nil_r.
    split_all; auto; try lia.
    + destruct (_ =? 0); [|rewrite length_insert]; assumption.
    + destruct (_ =? 0); [assumption|]. apply Forall_insert; [assumption|now apply octet_at_octet].
    + apply octets_app. auto with asn.
    + assert (length (tmpspace po) = 32%nat) as Hl32 by exact Hl.
      unfold written; cbn [o_nboff tmpspace op_key]. change (o_pos _) with 0%nat at 1.
      rewrite Ec, bytes_bits_app, <- app_assoc, <- bytes_bits_take. f_equal.
      rewrite <- (take_take_drop _ (8 * o_pos po)). f_equal.
      rewrite bytes_bits_drop, Nat.mul_0_r, Nat.add_0_l.
      destruct (Z.eqb_spec (o_nboff po) 0) as [->|Hne]; [reflexivity|].
      rewrite !take_first_octet by len. do 2 f_equal.
      transitivity (octet_at (tmpspace po) (o_pos po)).
      { destruct (tmpspace po); [simpl in Hl; discriminate|reflexivity]. }
      unfold octet_at. rewrite <- (take_drop (o_pos po) (tmpspace po)) at 1.
      rewrite app_nth2 by len.
      f_equal. len.
  - intros [= <-]. split; [auto using appended_nil|]. split; [reflexivity|].
    destruct (o_buffer po) as [i|]; [|lia]. exists i. split; [reflexivity|lia].
Qed.
End WriterSpec.

(** ** Storing a few bits *)

Lemma inserts_app {A} i (bs l : list A) :
  (i + length bs <= length l)%nat ->
  list_inserts i bs l = take i l ++ bs ++ drop (i + length bs) l.
Proof.
  intros Hi. rewrite <- (take_drop i l) at 1.
  rewrite <- (take_drop (length bs) (drop i l)) at 1.
  replace i with (length (take i l) + 0)%nat at 1 by len.
  rewrite list_inserts_app_r, list_inserts_0_r by len. now rewrite drop_drop.
Qed.

(** The bits of [buf[0]] the mask [omsk] keeps. *)
Lemma mask_high b n :
  octet b -> 0 <= n <= 8 ->
  b .& Z.lnot (1 ≪ (8 - n) - 1) = bval (take (Z.to_nat n) (bits_of 8 b)) ≪ (8 - n).
Proof.
  intros Hb Hn. rewrite <- Z.ldiff_land, Z.shiftl_1_l, Z.sub_1_r, <- Z.ones_equiv.
  rewrite Z.ldiff_ones_r by lia. f_equal.
  pose proof (bval_slice (bits_of 8 b) 0 (Z.to_nat n)) as E.
  rewrite drop_0, length_bits_of in E. rewrite E by lia.
  rewrite bval_bits_of_small by exact Hb.
  replace (Z.of_nat (8 - 0 - Z.to_nat n)) with (8 - n) by lia. rewrite Z2Nat.id by lia.
  rewrite Z.mod_small; [reflexivity|]. rewrite Z.shiftr_div_pow2 by lia.
  split; [apply Z.div_pos; [apply Hb|apply pow2_pos; lia]|].
  apply Z.div_lt_upper_bound; [apply pow2_pos; lia|].
  rewrite <- Z.pow_add_r by lia. replace (8 - n + n) with 8 by lia. apply Hb.
Qed.

Lemma u8_low a w n : 8 <= n -> u8 (Z.lor (a ≪ n) w) = u8 w.
Proof.
  intros Hn. unfold uwrap. apply Z.bits_inj'. intros j Hj.
  destruct (Z.ltb_spec j 8); [|now rewrite !Z.mod_pow2_bits_high by lia].
  rewrite !Z.mod_pow2_bits_low, Z.lor_spec by lia.
  now rewrite Z.shiftl_spec_low by lia.
Qed.

Lemma shiftr_field a w n m :
  0 <= m <= n -> Z.lor (a ≪ n) w ≫ m = Z.lor (a ≪ (n - m)) (w ≫ m).
Proof. intros. rewrite Z.shiftr_lor, Z.shiftr_shiftl_l by lia. reflexivity. Qed.

(** The octets C stores for a head field [a] above [w], as big-endian
    octets of one number. *)
Lemma field_octets_1 a w : [u8 (a .| w)] = be_bytes 1 (Z.lor (a ≪ 0) w).
Proof. cbn -[Z.shiftl Z.shiftr]. now rewrite Z.shiftr_0_r, Z.shiftl_0_r. Qed.
Lemma field_octets_2 a w : [u8 (a .| w ≫ 8); u8 w] = be_bytes 2 (Z.lor (a ≪ 8) w).
Proof.
  cbn -[Z.shiftl Z.shiftr]. rewrite Z.shiftr_0_r, shiftr_field, (u8_low a w 8) by lia.
  now rewrite Z.shiftl_0_r.
Qed.
Lemma field_octets_3 a w :
  [u8 (a .| w ≫ 16); u8 (w ≫ 8); u8 w] = be_bytes 3 (Z.lor (a ≪ 16) w).
Proof.
  cbn -[Z.shiftl Z.shiftr]. rewrite Z.shiftr_0_r, !shiftr_field by lia.
  change (8 * Z.of_nat 1) with 8; change (8 * Z.of_nat 2) with 16; change (8 * Z.of_nat 3) with 24.
  rewrite (u8_low a w 16), (u8_low a (w ≫ 8) (16 - 8)) by lia. now rewrite Z.shiftl_0_r.
Qed.
Lemma field_octets_4 a w :
  [u8 (a .| w ≫ 24); u8 (w ≫ 16); u8 (w ≫ 8); u8 w] = be_bytes 4 (Z.lor (a ≪ 24) w).
Proof.
  cbn -[Z.shiftl Z.shiftr]. rewrite Z.shiftr_0_r, !shiftr_field by lia.
  change (8 * Z.of_nat 1) with 8; change (8 * Z.of_nat 2) with 16; change (8 * Z.of_nat 3) with 24.
  rewrite (u8_low a w 24), (u8_low a (w ≫ 8) (24 - 8)), (u8_low a (w ≫ 16) (24 - 16)) by lia.
  now rewrite Z.shiftl_0_r.
Qed.

(** The [k] octets after the store: the old bits before the offset, the new
    bits, then zeros. *)
Lemma field_bits (k : nat) b n obits v :
  octet b -> 0 <= n < 8 -> 0 < obits -> n + obits <= 8 * Z.of_nat k -> (k <= 4)%nat -> (0 < k)%nat ->
  bytes_bits (be_bytes k (Z.lor ((b .& Z.lnot (1 ≪ (8 - n) - 1)) ≪ (8 * (Z.of_nat k - 1)))
                                (u32 ((u32 v .& (1 ≪ obits - 1)) ≪ (8 * Z.of_nat k - (n + obits)))))) =
  take (Z.to_nat n) (bits_of 8 b) ++ bits_of (Z.to_nat obits) (u32 v) ++
  replicate (Z.to_nat (8 * Z.of_nat k - (n + obits))) false.
Proof.
  intros Hb Hn Hob Hk Hk4 Hk0.
  set (p := take (Z.to_nat n) (bits_of 8 b)). set (q := bits_of (Z.to_nat obits) (u32 v)).
  set (z := replicate _ false).
  assert (length (p ++ q ++ z) = 8 * k)%nat as Hlen by (subst p q z; len).
  rewrite <- (bytes_of_bits _ k Hlen). f_equal. f_equal.
  rewrite mask_high by (auto; lia). fold p. rewrite land_ones_mod by lia.
  replace (u32 v mod 2 ^ obits) with (bval q)
    by (subst q; rewrite bval_bits_of, Z2Nat.id by lia; reflexivity).
  assert (length q = Z.to_nat obits) as Hq by (subst q; len).
  assert (length z = Z.to_nat (8 * Z.of_nat k - (n + obits))) as Hz by (subst z; len).
  pose proof (bval_bound q) as Bq. rewrite Hq, Z2Nat.id in Bq by lia.
  assert (bval q ≪ (8 * Z.of_nat k - (n + obits)) = bval (q ++ z)) as ->.
  { subst z. rewrite bval_pad, Z2Nat.id by lia. reflexivity. }
  pose proof (bval_bound (q ++ z)) as Bqz. rewrite length_app, Hq, Hz in Bqz.
  replace (Z.of_nat _) with (8 * Z.of_nat k - n) in Bqz by lia.
  rewrite uwrap_small by (pose proof (Z.pow_le_mono_r 2 (8 * Z.of_nat k - n) 32); lia).
  rewrite Z.shiftl_shiftl by lia. replace (8 - n + 8 * (Z.of_nat k - 1)) with (8 * Z.of_nat k - n) by lia.
  rewrite lor_disjoint by lia. rewrite (bval_app p), length_app, Hq, Hz. do 3 f_equal. lia.
Qed.

Section PutFewBits.
Context {K : Type} {C : Consumer K} {S : Sink K}.
Implicit Types po : asn_bit_outp K.

(** The callback refused some octets, when it would have taken no more than
    [n] bits in all. *)
Definition refused (n : nat) : Prop :=
  exists (k : K) bs, consume k bs = None /\ (8 * (length (contents k) + length bs) <= n)%nat.

Lemma refused_le n m : refused n -> (n <= m)%nat -> refused m.
Proof. intros (k & bs & E & H) Hn. exists k, bs. split; [exact E|lia]. Qed.

(** A writing step: it appends [l], or it fails and the callback refused. *)
Definition put_result po (r : Z * asn_bit_outp K) (l : list bool) : Prop :=
  (r.1 = 0 /\ appended po r.2 l) \/ (r.1 = -1 /\ refused (length (written po ++ l))).

Lemma put_store_ok po i off bs l rest :
  po_ok po -> o_buffer po = Some i -> 0 <= o_nboff po < 8 ->
  off = o_nboff po + Z.of_nat (length l) -> (0 < length l)%nat -> off <= o_nbits po ->
  off <= 8 * Z.of_nat (length bs) -> 8 * Z.of_nat (length bs) < off + 8 -> octets bs ->
  bytes_bits bs = take (Z.to_nat (o_nboff po)) (bits_of 8 (octet_at (tmpspace po) i)) ++ l ++ rest ->
  appended po (put_store po off bs) l.
Proof.
  intros Hok Ei Hn Hoff Hl0 Hle Hk1 Hk2 Hbs Ebs. pose proof Hok as (Hl & Ho & Hc & Hb).
  rewrite Ei in Hb. destruct Hb as (Hi & Hnb & Hs).
  assert (i + length bs <= length (tmpspace po))%nat as Hfit by (rewrite Hl; lia).
  unfold appended, po_ok, put_store; cbn [o_buffer o_nboff o_nbits tmpspace op_key flushed_bytes].
  rewrite Ei, length_inserts; cbn [from_option id]. split_all; auto; try lia.
  { rewrite inserts_app by assumption. apply octets_app; split; [auto with asn|].
    apply octets_app; auto with asn. }
  unfold written, o_pos; cbn [o_buffer o_nboff o_nbits tmpspace op_key flushed_bytes].
  rewrite Ei; cbn [from_option id]. rewrite <- app_assoc. f_equal.
  rewrite inserts_app by assumption. rewrite !bytes_bits_app.
  unfold sizeof_tmpspace in *.
  assert (length (bytes_bits (take i (tmpspace po))) = 8 * i)%nat as Hpre by len.
  replace (8 * i + Z.to_nat off)%nat with (length (bytes_bits (take i (tmpspace po))) + Z.to_nat off)%nat by lia.
  rewrite take_app_add, take_app_le by len.
  rewrite <- (take_take_drop (bytes_bits (tmpspace po)) (8 * i)), bytes_bits_take, <- app_assoc. f_equal.
  rewrite bytes_bits_drop, (take_first_octet (drop i _)) by len.
  assert (octet_at (drop i (tmpspace po)) 0 = octet_at (tmpspace po) i) as ->.
  { unfold octet_at. rewrite <- (take_drop i (tmpspace po)) at 2. rewrite app_nth2 by len. f_equal. len. }
  rewrite Ebs, app_assoc. apply take_app_length'. len.
Qed.

(** What is complete in the scratch area was written. *)
Lemma complete_written po :
  po_ok po -> (8 * (length (contents (op_key po)) + length (take (o_pos po) (tmpspace po))) <= length (written po))%nat.
Proof.
  intros (Hl & _ & _ & Hb). unfold written, o_pos in *. unfold sizeof_tmpspace in *.
  destruct (o_buffer po); cbn [from_option id]; len.
Qed.

Lemma put_room_ok po obits :
  po_ok po -> 0 < obits <= 31 ->
  match put_flush (put_normalize po) obits with
  | None => refused (length (written po))
  | Some po1 => appended po po1 [] /\ 0 <= o_nboff po1 < 8 /\
                exists i, o_buffer po1 = Some i /\ o_nboff po1 + obits <= o_nbits po1
  end.
Proof.
  intros Hok Hob. destruct (put_normalize_ok po Hok) as (Ha & Hn & _).
  destruct (put_flush _ obits) as [po1|] eqn:E.
  - destruct (put_flush_ok _ obits po1 (proj1 Ha) Hn Hob E) as (Ha1 & Hn1 & Hi).
    split; [|split; [lia|exact Hi]]. change (@nil bool) with (@nil bool ++ []).
    eapply appended_trans; eassumption.
  - revert E. unfold put_flush. destruct (_ <? _); [|discriminate].
    destruct (consume _ _) eqn:E; [discriminate|]. intros _. eexists _, _. split; [exact E|].
    destruct Ha as (Hok1 & W & _). rewrite app_nil_r in W. rewrite <- W. now apply complete_written.
Qed.

(** The branches without a nested call; [flat] excludes the others. *)
Lemma put_few_bits_flat fuel po v obits :
  po_ok po -> 0 < obits <= 31 ->
  (forall po1, put_flush (put_normalize po) obits = Some po1 -> o_nboff po1 + obits <= 31) ->
  put_result po (asn_put_few_bits_fuel fuel po v obits) (bits_of (Z.to_nat obits) (u32 v)).
Proof.
  intros Hok Hob Hflat. pose proof (put_room_ok po obits Hok Hob) as Hroom.
  destruct fuel; cbn [asn_put_few_bits_fuel]; rewrite (proj2 (Z.leb_gt obits 0)),
    (proj2 (Z.leb_gt 32 obits)) by lia; cbn [orb]; unfold put_result;
    (destruct (put_flush _ obits) as [po1|]; [|right; split; [reflexivity|]; eapply refused_le; [eassumption|len]]);
    specialize (Hflat po1 eq_refl); destruct Hroom as (Ha & Hn & i & Ei & Hle);
    rewrite Ei; cbn [from_option id]; pose proof (proj1 Ha) as Hok1;
    pose proof (octet_at_octet (tmpspace po1) i (proj1 (proj2 Hok1))) as Hb0.
  all: destruct (Z.leb_spec (o_nboff po1 + obits) 8) as [H8|H8];
    [rewrite field_octets_1; pose (k := 1%nat)|
     destruct (Z.leb_spec (o_nboff po1 + obits) 16) as [H16|H16];
      [rewrite field_octets_2; pose (k := 2%nat)|
       destruct (Z.leb_spec (o_nboff po1 + obits) 24) as [H24|H24];
        [rewrite field_octets_3; pose (k := 3%nat)
        |rewrite (proj2 (Z.leb_le (o_nboff po1 + obits) 31)) by lia;
         rewrite field_octets_4; pose (k := 4%nat)]]].
  all: left; split; [reflexivity|]; cbn [fst snd];
    rewrite <- (app_nil_l (bits_of _ _)); eapply appended_trans; [exact Ha|];
    eapply put_store_ok with (rest := replicate (Z.to_nat (8 * Z.of_nat k - (o_nboff po1 + obits))) false);
    try eassumption; auto with asn; rewrite ?length_bits_of, ?length_be_bytes, ?Z2Nat.id by lia;
    try (subst k; lia).
  all: apply (field_bits k); auto; subst k; lia.
Qed.

Lemma put_few_bits_24 fuel po v obits :
  po_ok po -> 0 < obits <= 24 ->
  put_result po (asn_put_few_bits_fuel fuel po v obits) (bits_of (Z.to_nat obits) (u32 v)).
Proof.
  intros Hok Hob. apply put_few_bits_flat; [assumption|lia|]. intros po1 E.
  pose proof (put_room_ok po obits Hok ltac:(lia)) as H. rewrite E in H. lia.
Qed.

Lemma split_bits w obits :
  24 <= obits <= 31 ->
  bits_of 24 (u32 ((w .& (1 ≪ obits - 1)) ≫ (obits - 24))) ++
  bits_of (Z.to_nat (obits - 24)) (u32 (w .& (1 ≪ obits - 1))) = bits_of (Z.to_nat obits) w.
Proof.
  intros Ho. replace (Z.to_nat obits) with (24 + Z.to_nat (obits - 24))%nat at 1 by lia.
  rewrite bits_of_app, land_ones_mod, !bits_of_uwrap, Z2Nat.id by lia. f_equal.
  - apply bits_of_ext. intros j Hj. rewrite !Z.shiftr_spec by lia. apply Z.mod_pow2_bits_low. lia.
  - apply bits_of_ext. intros j Hj. apply Z.mod_pow2_bits_low. lia.
Qed.

Lemma put_result_trans po po1 r l1 l2 :
  appended po po1 l1 -> put_result po1 r l2 -> put_result po r (l1 ++ l2).
Proof.
  intros Ha [[E1 E2]|[E H]]; [left; eauto using appended_trans|right]. split; [exact E|].
  destruct Ha as (_ & W & _). now rewrite app_assoc, <- W.
Qed.

Lemma put_few_bits_fuel_ok fuel po v obits :
  po_ok po -> 0 < obits <= 31 ->
  put_result po (asn_put_few_bits_fuel (Datatypes.S fuel) po v obits) (bits_of (Z.to_nat obits) (u32 v)).
Proof.
  intros Hok Hob. pose proof (put_room_ok po obits Hok Hob) as Hroom.
  destruct (put_flush (put_normalize po) obits) as [po1|] eqn:E.
  2: { apply put_few_bits_flat; auto. rewrite E. discriminate. }
  destruct (Z.leb_spec (o_nboff po1 + obits) 31) as [H31|H31].
  { apply put_few_bits_flat; auto. rewrite E. now intros ? [= <-]. }
  cbn [asn_put_few_bits_fuel]. rewrite (proj2 (Z.leb_gt obits 0)),
    (proj2 (Z.leb_gt 32 obits)) by lia; cbn [orb]. rewrite E.
  destruct Hroom as (Ha & Hn & i & Ei & Hle). bool_cases.
  rewrite <- split_bits, <- (app_nil_l (_ ++ _)) by lia.
  eapply put_result_trans; [exact Ha|].
  pose proof (put_few_bits_24 fuel po1 ((u32 v .& (1 ≪ obits - 1)) ≫ (obits - 24)) 24 (proj1 Ha) ltac:(lia)) as P1.
  destruct (asn_put_few_bits_fuel fuel po1 _ 24) as [rc po2].
  destruct P1 as [[E1 P1]|[E1 P1]]; cbn [fst snd] in *; subst rc; [|right; split; [reflexivity|]; eapply refused_le; [exact P1|len]].
  cbn [negb Z.eqb]. eapply put_result_trans; [exact P1|].
  pose proof (put_few_bits_24 fuel po2 (u32 v .& (1 ≪ obits - 1)) (obits - 24) (proj1 P1) ltac:(lia)) as P2.
  destruct (asn_put_few_bits_fuel fuel po2 _ _) as [rc po3].
  destruct P2 as [[E2 P2]|[E2 P2]]; cbn [fst snd] in *; subst rc; [left|right]; auto.
Qed.

(** Writing [obits] bits, 0 to 31, appends the [obits] low bits of the
    value, and fails only when the callback does. *)
Lemma put_few_bits_ok po v obits :
  po_ok po -> 0 <= obits <= 31 ->
  put_result po (asn_put_few_bits po v obits) (bits_of (Z.to_nat obits) v).
Proof.
  intros Hok Hob. destruct (Z.eq_dec obits 0) as [->|].
  { left. split; [reflexivity|]. now apply appended_nil. }
  rewrite <- (bits_of_uwrap _ 32 v) by lia. apply put_few_bits_fuel_ok; [assumption|lia].
Qed.

(** Counts that are not 0..31 are refused without any effect. *)
Lemma put_few_bits_range po v obits :
  obits < 0 \/ 32 <= obits -> asn_put_few_bits po v obits = (-1, po).
Proof.
  intros H. unfold asn_put_few_bits; cbn [asn_put_few_bits_fuel].
  destruct (Z.leb_spec obits 0), (Z.leb_spec 32 obits); cbn [orb]; try lia; now bool_cases.
Qed.
End PutFewBits.

(** From here on a write is used through its specification. *)
#[global] Opaque asn_put_few_bits.

(** ** Encoding steps *)

Section Encodes.
Context {K : Type} {C : Consumer K} {S : Sink K} {R : RoomySink K}.

(** [encodes f enc a]: with a callback that has room for them, [f] appends the
    bits [enc] and returns [a]. *)
Definition encodes {A} (f : asn_bit_outp K -> A * asn_bit_outp K) (enc : list bool) (a : A) : Prop :=
  forall po, po_ok po -> fits (length (written po ++ enc)) -> exists po', f po = (a, po') /\ appended po po' enc.

Lemma not_refused n : fits n -> ~ @refused K C S n.
Proof.
  intros Hn (k & bs & E & Hle). destruct (consume_room k bs) as (k' & E'); [|congruence].
  intros r Hr. specialize (Hn r Hr). lia.
Qed.

Lemma encodes_ret {A} (a : A) : encodes (fun po => (a, po)) [] a.
Proof. intros po Hok _. exists po. auto using appended_nil. Qed.

Lemma encodes_bind {A B} (f : asn_bit_outp K -> A * asn_bit_outp K)
    (g : A -> asn_bit_outp K -> B * asn_bit_outp K) e1 e2 a b :
  encodes f e1 a -> encodes (g a) e2 b ->
  encodes (fun po => let '(x, po') := f po in g x po') (e1 ++ e2) b.
Proof.
  intros Hf Hg po Hok Hr. destruct (Hf po Hok) as (po1 & E1 & A1); [eapply fits_le; [exact Hr|len]|].
  destruct (Hg po1 (proj1 A1)) as (po2 & E2 & A2).
  { destruct A1 as (_ & W & _). now rewrite W, <- app_assoc. }
  exists po2. rewrite E1.
  eauto using appended_trans.
Qed.

Lemma encodes_last {A B} (f : asn_bit_outp K -> A * asn_bit_outp K)
    (g : A -> asn_bit_outp K -> B * asn_bit_outp K) enc a b :
  encodes f enc a -> encodes (g a) [] b ->
  encodes (fun po => let '(x, po') := f po in g x po') enc b.
Proof. intros. rewrite <- (app_nil_r enc). eapply encodes_bind; eassumption. Qed.

Lemma encodes_few_bits n nb v :
  Z.of_nat n = nb -> nb <= 31 -> encodes (fun po => asn_put_few_bits po v nb) (bits_of n v) 0.
Proof.
  intros <- Hn po Hok Hr. destruct (put_few_bits_ok po v (Z.of_nat n) Hok ltac:(lia)) as [[E H]|[_ H]].
  - destruct (asn_put_few_bits _ _ _) as [rc po']; cbn in *. subst rc. rewrite Nat2Z.id in H. eauto.
  - rewrite Nat2Z.id in H. now apply not_refused in H.
Qed.
End Encodes.

(** ** Many bits *)

Lemma take_bits_of_shift (l : list bool) n :
  (n <= length l)%nat -> bits_of n (bval l ≫ Z.of_nat (length l - n)) = take n l.
Proof.
  intros Hn. pose proof (bits_of_bval l) as E.
  replace (length l) with (n + (length l - n))%nat in E at 1 by lia.
  rewrite bits_of_app in E. rewrite <- E at 3. rewrite take_app_length'; [reflexivity|len].
Qed.

Lemma or_octets_2 f : octet (f 1%nat) -> Z.lor (f 0%nat ≪ 8) (f 1%nat) = be_val (map f (seq 0 2)).
Proof. intros. rewrite be_val_2, shift_or_octet by assumption. rewrite Z.shiftl_mul_pow2; lia. Qed.

Lemma or_octets_3 f :
  octet (f 1%nat) -> octet (f 2%nat) ->
  Z.lor (Z.lor (f 0%nat ≪ 8) (f 1%nat) ≪ 8) (f 2%nat) = be_val (map f (seq 0 3)).
Proof.
  intros H1 H2. rewrite be_val_3, !shift_or_octet by assumption. rewrite !Z.shiftl_mul_pow2 by lia. lia.
Qed.

Lemma or_octets_24 f :
  octet (f 1%nat) -> octet (f 2%nat) ->
  Z.lor (Z.lor (f 0%nat ≪ 16) (f 1%nat ≪ 8)) (f 2%nat) = be_val (map f (seq 0 3)).
Proof.
  intros H1 H2. rewrite <- or_octets_3 by assumption. f_equal.
  rewrite Z.shiftl_lor, Z.shiftl_shiftl by lia. reflexivity.
Qed.

(** The value of the first [k] octets, shifted right by the unused bits. *)
Lemma window_bits src nb (k : nat) :
  octets src -> (k <= length src)%nat -> 0 <= nb <= 8 * Z.of_nat k ->
  bits_of (Z.to_nat nb) (be_val (map (octet_at src) (seq 0 k)) ≫ (8 * Z.of_nat k - nb)) =
  take (Z.to_nat nb) (bytes_bits src).
Proof.
  intros Hs Hk Hnb. rewrite <- octet_window by assumption.
  set (l := bytes_bits (take k src)). assert (length l = 8 * k)%nat as Hl by (subst l; len).
  replace (8 * Z.of_nat k - nb) with (Z.of_nat (length l - Z.to_nat nb)) by lia.
  rewrite take_bits_of_shift by lia. subst l. rewrite <- bytes_bits_take, take_take. f_equal. lia.
Qed.

(** The value of the last group of asn_put_many_bits. *)
Lemma tail_value src nb :
  octets src -> 0 < nb < 24 -> nb <= 8 * Z.of_nat (length src) ->
  let v := octet_at src 0 in
  let v := if 8 <? nb then (v ≪ 8) .| octet_at src 1 else v in
  let v := if 16 <? nb then (v ≪ 8) .| octet_at src 2 else v in
  let v := if (nb .& 7) =? 0 then v else v ≫ (8 - (nb .& 7)) in
  bits_of (Z.to_nat nb) v = take (Z.to_nat nb) (bytes_bits src).
Proof.
  intros Hs Hnb Hle. cbv zeta. pose proof (fun i => octet_at_octet src i Hs) as Ho.
  assert (exists k, 8 * (Z.of_nat k - 1) < nb <= 8 * Z.of_nat k) as [k Hk].
  { exists (Z.to_nat ((nb + 7) / 8)). pose proof (Z.div_mod (nb + 7) 8 ltac:(lia)).
    pose proof (Z.mod_pos_bound (nb + 7) 8 ltac:(lia)). lia. }
  assert ((if (nb .& 7) =? 0 then 0 else 8 - (nb .& 7)) = 8 * Z.of_nat k - nb) as Hsh.
  { rewrite land7 by lia. pose proof (Z.div_mod nb 8 ltac:(lia)).
    pose proof (Z.mod_pos_bound nb 8 ltac:(lia)). destruct (Z.eqb_spec (nb mod 8) 0); lia. }
  assert (forall v, (if (nb .& 7) =? 0 then v else v ≫ (8 - (nb .& 7))) = v ≫ (8 * Z.of_nat k - nb)) as ->.
  { intros v. rewrite <- Hsh. destruct (_ =? 0); [now rewrite Z.shiftr_0_r|reflexivity]. }
  rewrite <- (window_bits src nb k) by (auto; lia). f_equal. f_equal.
  assert (k = 1 \/ k = 2 \/ k = 3)%nat as [-> | [-> | ->]] by lia; bool_cases.
  - symmetry. apply be_val_1.
  - now apply or_octets_2.
  - now apply or_octets_3.
Qed.

Section PutMany.
Context {K : Type} {C : Consumer K} {S : Sink K} {R : RoomySink K}.

Lemma put_many_bits_loop_ok fuel src nb :
  octets src -> 0 <= nb <= 8 * Z.of_nat (length src) -> nb < 24 * Z.of_nat fuel \/ nb = 0 ->
  encodes (fun po : asn_bit_outp K => asn_put_many_bits_loop fuel po src nb)
    (take (Z.to_nat nb) (bytes_bits src)) 0.
Proof.
  revert src nb. induction fuel as [|fuel IH]; intros src nb Hs Hnb Hf; cbn [asn_put_many_bits_loop].
  { replace nb with 0 by lia. rewrite take_0. apply encodes_ret. }
  destruct (Z.eqb_spec nb 0) as [->|Hn0]; [rewrite take_0; apply encodes_ret|].
  destruct (Z.leb_spec 24 nb) as [H24|H24].
  - replace (Z.to_nat nb) with (8 * 3 + Z.to_nat (nb - 24))%nat by lia.
    rewrite <- take_take_drop, bytes_bits_take, bytes_bits_drop.
    rewrite or_octets_24 by now apply octet_at_octet.
    eapply encodes_bind.
    + pose proof (window_bits src 24 3 Hs ltac:(lia) ltac:(lia)) as E.
      change (8 * Z.of_nat 3 - 24) with 0 in E. rewrite Z.shiftr_0_r in E.
      rewrite <- (bytes_bits_take src 3). change (8 * 3)%nat with (Z.to_nat 24). rewrite <- E.
      apply encodes_few_bits; lia.
    + cbn [negb Z.eqb]. apply IH; auto with asn; [|lia]. len.
  - rewrite <- (tail_value src nb) by (auto; lia).
    eapply encodes_last; [apply encodes_few_bits; lia|]. cbn [negb Z.eqb]. apply encodes_ret.
Qed.

(** asn_put_many_bits appends the first [nb] bits of [src]. *)
Lemma encodes_many_bits src nb :
  octets src -> 0 <= nb <= 8 * Z.of_nat (length src) ->
  encodes (fun po : asn_bit_outp K => asn_put_many_bits po src nb)
    (take (Z.to_nat nb) (bytes_bits src)) 0.
Proof.
  intros Hs Hnb. apply put_many_bits_loop_ok; auto. left.
  pose proof (Z.div_mod nb 24 ltac:(lia)). pose proof (Z.mod_pos_bound nb 24 ltac:(lia)).
  rewrite Nat2Z.inj_succ, Z2Nat.id by (apply Z.div_pos; lia). lia.
Qed.

Lemma encodes_many_octets src :
  octets src ->
  encodes (fun po : asn_bit_outp K => asn_put_many_bits po src (8 * Z.of_nat (length src)))
    (bytes_bits src) 0.
Proof.
  intros Hs. rewrite <- (take_ge (bytes_bits src) (Z.to_nat (8 * Z.of_nat (length src)))) by len.
  apply encodes_many_bits; [assumption|lia].
Qed.
End PutMany.

(** ** Flushing *)

(** Clearing the [u] low bits of an octet. *)
Lemma cleared_octet b u m :
  octet b -> 1 <= u <= 7 -> (forall j, 0 <= j < 8 -> Z.testbit m j = (u <=? j)) ->
  octet (u8 (b .& m)) /\
  bits_of 8 (u8 (b .& m)) = take (Z.to_nat (8 - u)) (bits_of 8 b) ++ replicate (Z.to_nat u) false.
Proof.
  intros Hb Hu Hm. split; [auto with asn|]. rewrite bits_of_uwrap by lia.
  assert (bits_of 8 (b .& m) = bits_of 8 (b .& Z.lnot (1 ≪ u - 1))) as ->.
  { apply bits_of_ext. intros j Hj. rewrite !Z.land_spec, Hm, Z.lnot_spec by lia. f_equal.
    rewrite Z.shiftl_1_l, Z.sub_1_r, <- Z.ones_equiv, Z.testbit_ones_nonneg by lia.
    destruct (Z.leb_spec u j), (Z.ltb_spec j u); try reflexivity; lia. }
  replace (1 ≪ u) with (1 ≪ (8 - (8 - u))) by (f_equal; lia). rewrite mask_high by (auto; lia).
  replace (8 - (8 - u)) with (Z.of_nat (Z.to_nat u)) by lia. rewrite <- bval_pad.
  set (l := take _ _ ++ replicate _ _). replace 8%nat with (length l) by (subst l; len).
  apply bits_of_bval.
Qed.

(** The complete octets of the scratch area once the unused bits of the last
    one are cleared. *)
Lemma flushed_octets tmp (i : nat) off x :
  octets tmp -> 0 <= off -> 8 * Z.of_nat i + off <= 8 * Z.of_nat (length tmp) ->
  let u := padding (Z.to_nat off) in
  let last := (i + Z.to_nat (off / 8))%nat in
  (u <> 0%nat -> octet x /\
    bits_of 8 x = take (8 - u) (bits_of 8 (octet_at tmp last)) ++ replicate u false) ->
  let tmp' := if decide (u = 0%nat) then tmp else <[last := x]> tmp in
  octets tmp' /\
  bytes_bits (take (i + Z.to_nat ((off + 7) / 8)) tmp') =
    take (8 * i + Z.to_nat off) (bytes_bits tmp) ++ replicate u false.
Proof.
  intros Ht Ho Hle u last Hx tmp'.
  pose proof (Z.div_mod off 8 ltac:(lia)) as Hdm. pose proof (Z.mod_pos_bound off 8 ltac:(lia)).
  assert (Z.of_nat u = (8 - off mod 8) mod 8) as Hu.
  { subst u. unfold padding. rewrite !Z2Nat.id by (try lia; apply Z.mod_pos_bound; lia). reflexivity. }
  destruct (Z.eq_dec (off mod 8) 0) as [E0|E0].
  - assert (u = 0%nat) as Eu by (rewrite E0 in Hu; change ((8 - 0) mod 8) with 0 in Hu; lia).
    subst tmp'. rewrite Eu. destruct (decide (0%nat = 0%nat)); [|congruence]. split; [assumption|].
    rewrite app_nil_r, <- bytes_bits_take. f_equal.
    assert ((off + 7) / 8 = off / 8) as ->; [|lia].
    rewrite Hdm at 1. rewrite E0. replace (8 * (off / 8) + 0 + 7) with (7 + off / 8 * 8) by lia.
    now rewrite Z.div_add.
  - rewrite (Z.mod_small (8 - _)) in Hu by lia.
    destruct (Hx ltac:(lia)) as [Hxo Hxb]. subst tmp'. destruct (decide (u = 0%nat)); [lia|].
    split; [now apply Forall_insert|].
    assert (Z.to_nat ((off + 7) / 8) = S (Z.to_nat (off / 8))) as ->.
    { rewrite <- Z2Nat.inj_succ by (apply Z.div_pos; lia). f_equal.
      rewrite Hdm at 1. replace (8 * (off / 8) + off mod 8 + 7) with ((off mod 8 - 1) + Z.succ (off / 8) * 8) by lia.
      rewrite Z.div_add, Z.div_small by lia. lia. }
    replace (i + S (Z.to_nat (off / 8)))%nat with (S last) by (subst last; lia).
    assert (last < length tmp)%nat as Hlast by (subst last; lia).
    rewrite insert_take_drop by assumption.
    replace (S last) with (length (take last tmp ++ [x])) at 1 by len.
    change (x :: drop (S last) tmp) with ([x] ++ drop (S last) tmp).
    rewrite app_assoc, take_app_length, bytes_bits_app. cbn [bytes_bits]. rewrite app_nil_r, Hxb.
    rewrite app_assoc. f_equal.
    replace (8 * i + Z.to_nat off)%nat with (8 * last + (8 - u))%nat by (subst last; lia).
    rewrite <- take_take_drop, bytes_bits_take, bytes_bits_drop. f_equal.
    rewrite take_first_octet by len. do 2 f_equal. unfold octet_at.
    rewrite <- (take_drop last tmp) at 1. rewrite app_nth2 by len. f_equal. len.
Qed.

Section Flush.
Context {K : Type} {C : Consumer K} {S : Sink K} {TS : TotalSink K}.

Lemma length_written (po : asn_bit_outp K) :
  po_ok po -> exists q, length (written po) = (8 * q + Z.to_nat (o_nboff po))%nat.
Proof.
  intros (Hl & _ & _ & Hb). unfold written, o_pos. exists (length (contents (op_key po)) + default 0%nat (o_buffer po))%nat.
  unfold sizeof_tmpspace in *. destruct (o_buffer po); cbn [from_option id]; len.
Qed.

Lemma padding_mod q n : padding (8 * q + n) = padding n.
Proof.
  unfold padding. rewrite Nat2Z.inj_add, Nat2Z.inj_mul, Z.add_comm, Z.mul_comm.
  change (Z.of_nat 8) with 8. now rewrite Z.mod_add by lia.
Qed.

Lemma padding_written (po : asn_bit_outp K) :
  po_ok po -> padding (length (written po)) = padding (Z.to_nat (o_nboff po)).
Proof. intros H. destruct (length_written po H) as [q ->]. apply padding_mod. Qed.

(** asn_put_aligned_flush hands over everything written, completed with
    zero bits to whole octets, and leaves an empty writer. *)
Lemma aligned_flush_ok (po : asn_bit_outp K) :
  po_ok po ->
  exists po', asn_put_aligned_flush po = (0, po') /\ po_ok po' /\
    written po' = written po ++ replicate (padding (length (written po))) false /\
    bytes_bits (contents (op_key po')) = written po'.
Proof.
  intros Hok. pose proof Hok as (Hl & Ho & Hc & Hb).
  assert (0 <= o_nboff po /\ 8 * Z.of_nat (o_pos po) + o_nboff po <= 8 * Z.of_nat (length (tmpspace po))) as [Hn Hfit].
  { rewrite Hl. unfold o_pos, sizeof_tmpspace in *. destruct (o_buffer po); cbn [from_option id]; lia. }
  unfold asn_put_aligned_flush. fold (o_pos po). rewrite !shiftr3.
  set (u := 7 .& (8 - (o_nboff po .& 7))).
  assert (u = Z.of_nat (padding (Z.to_nat (o_nboff po)))) as Eu.
  { subst u. rewrite Z.land_comm, land7 by (rewrite land7 by lia; pose proof (Z.mod_pos_bound (o_nboff po) 8); lia).
    rewrite land7 by lia. unfold padding. rewrite !Z2Nat.id by (try lia; apply Z.mod_pos_bound; lia). reflexivity. }
  set (last := (o_pos po + Z.to_nat (o_nboff po / 8))%nat).
  set (x := u8 (octet_at (tmpspace po) last .& u32 (Z.lnot 0 ≪ u))).
  destruct (flushed_octets (tmpspace po) (o_pos po) (o_nboff po) x Ho Hn Hfit) as [Ho' Eb].
  { intros Hu. destruct (padding_spec (Z.to_nat (o_nboff po))) as (q & Hq & Hlt & _).
    replace (8 - padding (Z.to_nat (o_nboff po)))%nat with (Z.to_nat (8 - u)) by lia.
    replace (padding (Z.to_nat (o_nboff po))) with (Z.to_nat u) by lia. apply cleared_octet; [now apply octet_at_octet|lia|].
    intros j Hj. unfold uwrap. rewrite Z.mod_pow2_bits_low by lia. change (Z.lnot 0) with (-1).
    destruct (Z.leb_spec u j); [rewrite Z.shiftl_spec, Z.bits_m1 by lia; reflexivity|now apply Z.shiftl_spec_low]. }
  cbv zeta in Eb, Ho'.
  assert ((if u =? 0 then tmpspace po else <[last:=x]> (tmpspace po)) =
          (if decide (padding (Z.to_nat (o_nboff po)) = 0%nat) then tmpspace po else <[last:=x]> (tmpspace po))) as Et.
  { destruct (Z.eqb_spec u 0), (decide (padding (Z.to_nat (o_nboff po)) = 0%nat)); try reflexivity; lia. }
  rewrite Et. set (tmp := if decide _ then _ else _) in *.
  assert (length tmp = sizeof_tmpspace) as Hlt by (subst tmp; destruct (decide _); rewrite ?length_insert; assumption).
  destruct (consume_total (op_key po) (take (o_pos po + Z.to_nat ((o_nboff po + 7) / 8)) tmp)) as [key Ek].
  rewrite Ek. pose proof (consume_contents _ _ _ Ek) as Ec. eexists. split; [reflexivity|].
  rewrite padding_written by assumption.
  split; [|split].
  - unfold po_ok; cbn. rewrite Ec. split_all; auto; try lia. apply octets_app. auto with asn.
  - unfold written at 1; cbn. rewrite app_nil_r, Ec, bytes_bits_app, Eb. unfold written. now rewrite app_assoc.
  - unfold written; cbn. now rewrite app_nil_r.
Qed.
End Flush.

(** * Properties *)

(** asn_put_few_bits, for any callback that stores what it is given and
    at any bit offset: writing [obits] bits, 0 to 31, keeps the writer well
    formed (the position never leaves the 32-octet scratch area), appends the
    [obits] low bits of the value to what was written and nothing else, and
    fails only if the callback refused. *)
Theorem asn_put_few_bits_spec {K} {C : Consumer K} {S : Sink K} (po : asn_bit_outp K) v obits :
  po_ok po -> 0 <= obits <= 31 ->
  let '(rc, po') := asn_put_few_bits po v obits in
  (rc = 0 /\ po_ok po' /\ written po' = written po ++ bits_of (Z.to_nat obits) v) \/
  (rc = -1 /\ exists (k : K) bs, consume k bs = None).
Proof.
  intros Hok Hob. pose proof (put_few_bits_ok po v obits Hok Hob) as H.
  destruct (asn_put_few_bits po v obits) as [rc po'].
  destruct H as [[E (H1 & H2 & _)]|[E (k & bs & H & _)]]; [left|right]; eauto.
Qed.

Lemma asn_put_few_bits_spec_witness :
  let po := mk_bit_outp (Some 31%nat) 5 8 (replicate 32 85) ([] : ByteBuffer) 0 in
  let '(rc, po') := asn_put_few_bits po 1000 10 in
  (rc = 0 /\ po_ok po' /\ written po' = written po ++ bits_of (Z.to_nat 10) 1000) \/
  (rc = -1 /\ exists (k : ByteBuffer) bs, consume k bs = None).
Proof.
  apply (asn_put_few_bits_spec (mk_bit_outp (Some 31%nat) 5 8 (replicate 32 85) ([] : ByteBuffer) 0) 1000 10).
  - unfold po_ok; cbn. repeat split; try lia; repeat constructor; lia.
  - lia.
Defined.

(** A record of bit fields, written and read one after the other. *)
Fixpoint put_fields {K} {C : Consumer K} (po : asn_bit_outp K) (fs : list (Z * Z)) : Z * asn_bit_outp K :=
  match fs with
  | [] => (0, po)
  | (v, w) :: fs' =>
      let '(rc, po) := asn_put_few_bits po v w in
      if negb (rc =? 0) then (-1, po) else put_fields po fs'
  end.

Fixpoint get_fields (pd : asn_bit_data) (ws : list Z) : list Z * asn_bit_data :=
  match ws with
  | [] => ([], pd)
  | w :: ws' =>
      let '(v, pd) := asn_get_few_bits pd w in
      let '(vs, pd) := get_fields pd ws' in
      (v :: vs, pd)
  end.

Definition field_ok (f : Z * Z) : Prop := 0 <= f.2 <= 31 /\ 0 <= f.1 < 2 ^ f.2.

Fixpoint field_bits_of (fs : list (Z * Z)) : list bool :=
  match fs with [] => [] | (v, w) :: fs' => bits_of (Z.to_nat w) v ++ field_bits_of fs' end.

Lemma encodes_fields {K} {C : Consumer K} {S : Sink K} {R : RoomySink K} fs :
  Forall field_ok fs -> encodes (fun po : asn_bit_outp K => put_fields po fs) (field_bits_of fs) 0.
Proof.
  induction 1 as [|[v w] fs [Hw Hv] _ IH]; cbn [put_fields field_bits_of]; [apply encodes_ret|].
  cbn in Hw, Hv. eapply encodes_bind; [apply encodes_few_bits; lia|]. exact IH.
Qed.

Lemma decodes_fields fs :
  Forall field_ok fs -> decodes (fun pd => get_fields pd (map snd fs)) (field_bits_of fs) (map fst fs).
Proof.
  induction 1 as [|[v w] fs [Hw Hv] _ IH]; cbn [get_fields field_bits_of map fst snd]; [apply decodes_ret|].
  cbn in Hw, Hv. eapply decodes_bind; [apply decodes_few_bits_of with (v := v); lia|].
  eapply decodes_last; [exact IH|]. apply decodes_ret.
Qed.

(** C20.  Bit-level round trip: any sequence of bit fields of at most 31 bits
    written with asn_put_few_bits and flushed with asn_put_aligned_flush
    is read back, field by field, from the octets the callback received,
    across every octet boundary and every flush of the scratch area; the
    octets hold nothing but the fields and fewer than eight zero bits. *)
Theorem bit_fields_roundtrip (tmp : list Z) (fs : list (Z * Z)) :
  length tmp = sizeof_tmpspace -> octets tmp -> Forall field_ok fs ->
  exists po1 po2 : asn_bit_outp ByteBuffer,
    put_fields (fresh_outp tmp []) fs = (0, po1) /\
    asn_put_aligned_flush po1 = (0, po2) /\
    let bs := op_key po2 in
    octets bs /\ 8 * Z.of_nat (length bs) < list_sum_Z (map snd fs) + 8 /\
    exists pd', get_fields (mk_bit_data bs 0 (8 * Z.of_nat (length bs)) 0) (map snd fs) = (map fst fs, pd') /\
      moved pd' = list_sum_Z (map snd fs) /\
      Forall (fun b => b = false) (remaining pd').
Proof.
  intros Ht Ho Hfs. destruct (fresh_outp_ok tmp ([] : ByteBuffer) Ht Ho) as [Hok Hw]; [constructor|].
  destruct (encodes_fields fs Hfs _ Hok (fits_total _)) as (po1 & E1 & Hok1 & W1 & _). rewrite Hw in W1.
  change (bytes_bits (contents ([] : ByteBuffer))) with (@nil bool) in W1. rewrite app_nil_l in W1.
  destruct (aligned_flush_ok po1 Hok1) as (po2 & E2 & Hok2 & W2 & Ec). rewrite W1 in W2.
  exists po1, po2. split; [exact E1|]. split; [exact E2|]. cbv zeta.
  pose proof (proj1 (proj2 (proj2 Hok2))) as Hoc. change (contents (op_key po2)) with (op_key po2) in *.
  destruct (new_stream_ok (op_key po2) Hoc) as [Hpd Hrem].
  rewrite Ec, W2 in Hrem.
  destruct (decodes_fields fs Hfs _ _ Hpd Hrem) as (pd' & E3 & (_ & _ & _ & Hm & _) & Hr).
  assert (Z.of_nat (length (field_bits_of fs)) = list_sum_Z (map snd fs)) as Hlen.
  { clear - Hfs. induction Hfs as [|[v w] fs [Hw _] _ IH]; cbn -[Z.add Z.of_nat] in *; [reflexivity|]. revert Hw IH. len. }
  split; [exact Hoc|]. split.
  - apply (f_equal length) in Ec. rewrite W2 in Ec. revert Ec. len.
    destruct (padding_spec (length (field_bits_of fs))) as (q & _ & Hlt & _). lia.
  - exists pd'. split; [exact E3|]. cbn [moved] in Hm. split; [lia|]. rewrite Hr. apply Forall_replicate. reflexivity.
Qed.

Lemma bit_fields_roundtrip_witness :
  exists po1 po2 : asn_bit_outp ByteBuffer,
    put_fields (fresh_outp (replicate 32 0) []) [(5, 3); (1000000, 31); (0, 0); (77, 7)] = (0, po1) /\
    asn_put_aligned_flush po1 = (0, po2) /\
    let bs := op_key po2 in
    octets bs /\ 8 * Z.of_nat (length bs) < list_sum_Z (map snd [(5, 3); (1000000, 31); (0, 0); (77, 7)]) + 8 /\
    exists pd', get_fields (mk_bit_data bs 0 (8 * Z.of_nat (length bs)) 0)
                  (map snd [(5, 3); (1000000, 31); (0, 0); (77, 7)]) = (map fst [(5, 3); (1000000, 31); (0, 0); (77, 7)], pd') /\
      moved pd' = list_sum_Z (map snd [(5, 3); (1000000, 31); (0, 0); (77, 7)]) /\
      Forall (fun b => b = false) (remaining pd').
Proof.
  apply (bit_fields_roundtrip (replicate 32 0) [(5, 3); (1000000, 31); (0, 0); (77, 7)]).
  - reflexivity.
  - repeat constructor; lia.
  - repeat constructor; cbn; lia.
Defined.
