(* ===== verification/UperSupport.v ===== *)
(** Length determinants, small numbers and range offsets of unaligned PER:
    vanetza/asn1/support/uper_support.c.  Every getter is shown to read what
    the matching putter writes; where that fails in the code, the failing
    inputs are characterised. *)

From S2P Require Import Prelude Runtime BitData BitOutp.

(** * Operations *)

Section Get.
Context {T : Target}.

(** uper_get_length: the length and whether more fragments follow. *)
Definition uper_get_length (pd : asn_bit_data) (ebits lower_bound : Z) : (Z * bool) * asn_bit_data :=
  if (0 <=? ebits) && (ebits <=? 16) then
    let '(value, pd) := asn_get_few_bits pd ebits in
    let value := if 0 <=? value then swrap word_bits (value + lower_bound) else value in
    ((value, false), pd)
  else
    let '(value, pd) := asn_get_few_bits pd 8 in
    if value .& 128 =? 0 then ((value .& 127, false), pd)
    else if value .& 64 =? 0 then
      let '(low, pd) := asn_get_few_bits pd 8 in
      ((((value .& 63) ≪ 8) .| low, false), pd)
    else if value <? 0 then ((-1, false), pd)
    else
      let value := value .& 63 in
      if (value <? 1) || (4 <? value) then ((-1, false), pd)
      else ((16384 * value, true), pd).

(** uper_get_nslength. *)
Definition uper_get_nslength (pd : asn_bit_data) : Z * asn_bit_data :=
  let '(b, pd) := asn_get_few_bits pd 1 in
  if b =? 0 then
    let '(l, pd) := asn_get_few_bits pd 6 in
    let length := l + 1 in
    if length <=? 0 then (-1, pd) else (length, pd)
  else
    let '((length, repeat), pd) := uper_get_length pd (-1) 0 in
    if (0 <=? length) && negb repeat then (length, pd) else (-1, pd).
End Get.

(** uper_get_nsnnwn. *)
Definition uper_get_nsnnwn (pd : asn_bit_data) : Z * asn_bit_data :=
  let '(value, pd) := asn_get_few_bits pd 7 in
  if negb (value .& 64 =? 0) then
    let '(low, pd) := asn_get_few_bits pd 2 in
    let value := ((value .& 63) ≪ 2) .| low in
    if negb (value .& 128 =? 0) then (-1, pd)
    else if value =? 0 then (0, pd)
    else if 3 <=? value then (-1, pd)
    else asn_get_few_bits pd (8 * value)
  else (value, pd).

(** uper_get_constrained_whole_number: the value, or nothing for -1. *)
Fixpoint uper_get_constrained_whole_number_fuel (fuel : nat) (pd : asn_bit_data) (nb : Z) :
    option Z * asn_bit_data :=
  if nb <=? 31 then
    let '(half, pd) := asn_get_few_bits pd nb in
    if half <? 0 then (None, pd) else (Some half, pd)
  else if 8 * sizeof_intmax <? nb then (None, pd)
  else
    match fuel with
    | O => (None, pd)
    | S fuel' =>
        let '(half, pd) := asn_get_few_bits pd 31 in
        if half <? 0 then (None, pd) else
        let '(lhalf, pd) := uper_get_constrained_whole_number_fuel fuel' pd (nb - 31) in
        match lhalf with
        | None => (None, pd)
        | Some lhalf => (Some (u64 (half ≪ (nb - 31)) .| lhalf), pd)
        end
    end.

(** At most 64 bits are read in groups of 31: two nested calls. *)
Definition uper_get_constrained_whole_number := uper_get_constrained_whole_number_fuel 2.

Section Put.
Context {K : Type} {C : Consumer K}.
Implicit Types po : asn_bit_outp K.

(** uper_put_nsnnwn. *)
Definition uper_put_nsnnwn po (n : Z) : Z * asn_bit_outp K :=
  if n <=? 63 then
    if n <? 0 then (-1, po) else asn_put_few_bits po n 7
  else
    let put_bytes bytes :=
      let '(rc, po) := asn_put_few_bits po bytes 8 in
      if negb (rc =? 0) then (-1, po) else asn_put_few_bits po n (8 * bytes) in
    if n <? 256 then put_bytes 1
    else if n <? 65536 then put_bytes 2
    else if n <? 256 * 65536 then put_bytes 3
    else (-1, po).

(** uper_put_constrained_whole_number_u. *)
Fixpoint uper_put_constrained_whole_number_u_fuel (fuel : nat) po (v nb : Z) : Z * asn_bit_outp K :=
  if nb <=? 31 then asn_put_few_bits po v nb
  else
    match fuel with
    | O => (-1, po)
    | S fuel' =>
        let '(rc, po) := uper_put_constrained_whole_number_u_fuel fuel' po (v ≫ 31) (nb - 31) in
        if negb (rc =? 0) then (-1, po) else asn_put_few_bits po v 31
    end.

Definition uper_put_constrained_whole_number_u po (v nb : Z) : Z * asn_bit_outp K :=
  uper_put_constrained_whole_number_u_fuel (Z.to_nat (nb / 31)) po v nb.

(** uper_put_length: the units that may follow, and whether an empty
    fragment must end the encoding. *)
Definition uper_put_length po (length : Z) : (Z * bool) * asn_bit_outp K :=
  if length <=? 127 then
    let '(rc, po) := asn_put_few_bits po length 8 in
    ((if negb (rc =? 0) then -1 else length, false), po)
  else if length <? 16384 then
    let '(rc, po) := asn_put_few_bits po (length .| 32768) 16 in
    ((if negb (rc =? 0) then -1 else length, false), po)
  else
    let need_eom := length .& 16383 =? 0 in
    let length := length ≫ 14 in
    let need_eom := if 4 <? length then false else need_eom in
    let length := if 4 <? length then 4 else length in
    let '(rc, po) := asn_put_few_bits po (192 .| length) 8 in
    ((if negb (rc =? 0) then -1 else length ≪ 14, need_eom), po).

(** uper_put_nslength. *)
Definition uper_put_nslength po (length : Z) : Z * asn_bit_outp K :=
  if length <=? 64 then
    if length =? 0 then (-1, po)
    else
      let '(rc, po) := asn_put_few_bits po (length - 1) 7 in
      (if negb (rc =? 0) then -1 else 0, po)
  else
    let '((put, need_eom), po) := uper_put_length po length in
    if negb (put =? length) || need_eom then (-1, po) else (0, po).
End Put.

(** per__imax_range; the last branch, an assertion in debug builds, returns
    -1. *)
Definition per__imax_range (lb ub : Z) : option Z :=
  if Bool.eqb (ub <? 0) (lb <? 0) then Some (u64 (ub - lb))
  else if lb <? 0 then Some (u64 (1 + (u64 ub + u64 (- (lb + 1)))))
  else None.

(** per_imax_range_rebase. *)
Definition per_imax_range_rebase (v lb ub : Z) : option Z :=
  if (v <? lb) || (ub <? v) then None else
  match per__imax_range lb ub with
  | None => None
  | Some range =>
      if Bool.eqb (v <? 0) (lb <? 0) then Some (u64 (v - lb))
      else if v <? 0 then Some (u64 (1 + u64 (- (v + 1)) + u64 lb))
      else if lb <? 0 then Some (u64 (1 + u64 (- (lb + 1)) + u64 v))
      else None
  end.

(** per_imax_range_unrebase. *)
Definition per_imax_range_unrebase (inp lb ub : Z) : option Z :=
  match per__imax_range lb ub with
  | None => None
  | Some range =>
      if range <? inp then None
      else if inp <=? INTMAX_MAX then Some (inp + lb)
      else Some ((lb + INTMAX_MAX + 1) + ((inp - INTMAX_MAX) - 1))
  end.

Section LongRange.
Context {T : Target}.

(** per_long_range_rebase and per_long_range_unrebase: the same through
    [unsigned long] and [long]. *)
Definition per_long_range_rebase (v lb ub : Z) : option Z :=
  option_map (uwrap word_bits) (per_imax_range_rebase v lb ub).

Definition per_long_range_unrebase (inp lb ub : Z) : option Z :=
  option_map (swrap word_bits) (per_imax_range_unrebase inp lb ub).
End LongRange.

(** * Bit fields of the determinants *)

Lemma land_bit_add v n c : 0 <= n -> c = 2 ^ n -> 0 <= v < c -> v .& c = 0.
Proof.
  intros Hn -> Hv. apply Z.bits_inj'. intros i Hi. rewrite Z.land_spec, Z.bits_0.
  destruct (Z.eq_dec i n) as [->|Hne].
  - rewrite <- (Z.mod_small v (2 ^ n)) by assumption.
    now rewrite Z.mod_pow2_bits_high by lia.
  - rewrite Z.pow2_bits_false by lia. apply andb_false_r.
Qed.

Lemma lor_high a v n c : 0 <= n -> c = a * 2 ^ n -> 0 <= v < 2 ^ n -> c .| v = c + v.
Proof. intros Hn -> Hv. rewrite <- Z.shiftl_mul_pow2 by lia. rewrite lor_disjoint by lia. now rewrite Z.shiftl_mul_pow2 by lia. Qed.

Lemma land_ones' v n c : 0 <= n -> c = 2 ^ n - 1 -> v .& c = v mod 2 ^ n.
Proof. intros Hn ->. rewrite <- land_ones_mod, Z.shiftl_1_l by lia. reflexivity. Qed.

(** * Length determinants *)

(** X.691 #11.9.3.6, #11.9.3.7: one or two octets, below 16384 units. *)
Definition length_bits (n : Z) : list bool :=
  if n <=? 127 then bits_of 8 n else bits_of 16 (n + 32768).

(** X.691 #11.9.3.8: a fragment of [m] times 16384 units, [m] from 1 to 4. *)
Definition fragment_bits (m : Z) : list bool := bits_of 8 (192 + m).

(** The units of the first fragment of [n] >= 16384 units. *)
Definition fragment_units (n : Z) : Z := Z.min 4 (n / 16384).

Section LengthGet.
Context {T : Target}.

(** Evaluate the tests on one octet of a determinant. *)
Ltac octet_fact P n := let H := fresh in
  pose proof (small_cases P n ltac:(vm_compute; reflexivity)) as H; cbv beta in H.

Lemma decodes_length n :
  0 <= n < 16384 -> decodes (fun pd => uper_get_length pd (-1) 0) (length_bits n) (n, false).
Proof.
  intros Hn. unfold uper_get_length, length_bits; cbn [Z.leb Z.compare andb].
  destruct (Z.leb_spec n 127).
  - eapply decodes_last; [apply (decodes_few_bits_of 8 8 n); lia|].
    rewrite (land_bit_add n 7 128), (land_ones' n 7 127) by lia. cbn [Z.eqb].
    rewrite Z.mod_small by lia. apply decodes_ret.
  - change 16%nat with (8 + 8)%nat. rewrite bits_of_app. change (Z.of_nat 8) with 8.
    rewrite Z.shiftr_div_pow2 by lia. change (2 ^ 8) with 256.
    replace (n + 32768) with (n + 128 * 256) by lia. rewrite Z.div_add by lia.
    rewrite <- (bits_of_mod 8 8 (n + _)) by lia. change (2 ^ Z.of_nat 8) with 256.
    rewrite Z.mod_add by lia.
    pose proof (Z.mod_pos_bound n 256 ltac:(lia)). pose proof (Z.div_mod n 256 ltac:(lia)).
    assert (0 <= n / 256 < 64) as Hq by lia.
    eapply decodes_bind; [apply (decodes_few_bits_of 8 8 (n / 256 + 128)); lia|].
    octet_fact (fun q => negb ((q + 128) .& 128 =? 0) && ((q + 128) .& 64 =? 0) && ((q + 128) .& 63 =? q)) 64%nat.
    specialize (H2 _ Hq). apply andb_prop in H2 as [[H2 H3]%andb_prop H4].
    apply negb_true_iff in H2. rewrite H2, H3. apply Z.eqb_eq in H4. rewrite H4.
    eapply decodes_last; [apply (decodes_few_bits_of 8 8 (n mod 256)); lia|].
    rewrite lor_disjoint by lia. replace (n / 256 * 2 ^ 8 + n mod 256) with n by lia. apply decodes_ret.
Qed.

Lemma decodes_fragment m :
  1 <= m <= 4 -> decodes (fun pd => uper_get_length pd (-1) 0) (fragment_bits m) (16384 * m, true).
Proof.
  intros Hm. unfold uper_get_length, fragment_bits; cbn [Z.leb Z.compare andb].
  eapply decodes_last; [apply (decodes_few_bits_of 8 8 (192 + m)); lia|].
  assert (m = 1 \/ m = 2 \/ m = 3 \/ m = 4) as [-> | [-> | [-> | ->]]] by lia; apply decodes_ret.
Qed.

(** A length constrained to [ebits] bits above a lower bound. *)
Lemma decodes_length_constrained n ebits lb :
  0 <= ebits <= 16 -> lb <= n < lb + 2 ^ ebits -> 0 <= n < 2 ^ 31 ->
  decodes (fun pd => uper_get_length pd ebits lb) (bits_of (Z.to_nat ebits) (n - lb)) (n, false).
Proof.
  intros He Hn Hn31. unfold uper_get_length.
  rewrite (proj2 (Z.leb_le 0 ebits)), (proj2 (Z.leb_le ebits 16)) by lia. cbn [andb].
  eapply decodes_last; [apply (decodes_few_bits_of _ ebits (n - lb)); lia|].
  rewrite (proj2 (Z.leb_le 0 (n - lb))) by lia. replace (n - lb + lb) with n by lia.
  rewrite swrap_small by (destruct word_bits_cases as [-> | ->]; lia). apply decodes_ret.
Qed.

Lemma decodes_nslength n :
  1 <= n <= 64 -> decodes uper_get_nslength (bits_of 7 (n - 1)) n.
Proof.
  intros Hn. unfold uper_get_nslength. change 7%nat with (1 + 6)%nat. rewrite bits_of_app.
  change (Z.of_nat 6) with 6. rewrite Z.shiftr_div_pow2, Z.div_small by lia.
  eapply decodes_bind; [apply (decodes_few_bits_of 1 1 0); lia|]. cbn [Z.eqb].
  eapply decodes_last; [apply (decodes_few_bits_of 6 6 (n - 1)); lia|].
  rewrite (proj2 (Z.leb_gt (n - 1 + 1) 0)) by lia. replace (n - 1 + 1) with n by lia. apply decodes_ret.
Qed.
End LengthGet.

Lemma decodes_nsnnwn n : 0 <= n <= 63 -> decodes uper_get_nsnnwn (bits_of 7 n) n.
Proof.
  intros Hn. unfold uper_get_nsnnwn. eapply decodes_last; [apply (decodes_few_bits_of 7 7 n); lia|].
  rewrite (land_bit_add n 6 64) by lia. apply decodes_ret.
Qed.

(** ** On arbitrary data *)

Lemma follows_length {T : Target} pd ebits lb : pd_ok pd -> follows pd (uper_get_length pd ebits lb).
Proof. intros Hok. unfold uper_get_length. follow. Qed.
#[export] Hint Resolve follows_length : follows.

Lemma follows_nslength {T : Target} pd : pd_ok pd -> follows pd (uper_get_nslength pd).
Proof. intros Hok. unfold uper_get_nslength. follow. Qed.

Lemma follows_nsnnwn pd : pd_ok pd -> follows pd (uper_get_nsnnwn pd).
Proof. intros Hok. unfold uper_get_nsnnwn. follow. Qed.

Lemma follows_whole_number pd nb : pd_ok pd -> follows pd (uper_get_constrained_whole_number pd nb).
Proof.
  unfold uper_get_constrained_whole_number. generalize 2%nat as fuel. intros fuel. revert pd nb.
  induction fuel as [|fuel IH]; intros pd nb Hok; cbn [uper_get_constrained_whole_number_fuel]; follow.
Qed.
#[export] Hint Resolve follows_nslength follows_nsnnwn follows_whole_number : follows.

(** A determinant occupies at least one octet, and a fragment holds 16384 to
    65536 units. *)
Lemma get_length_progress {T : Target} pd :
  pd_ok pd ->
  let '((len, more), pd') := uper_get_length pd (-1) 0 in
  if len <? 0 then more = false
  else (exists n, (8 <= n)%nat /\ advanced pd pd' n) /\ len <= 65536 /\ (more = true -> 16384 <= len).
Proof.
  intros Hok. unfold uper_get_length; cbn [Z.leb Z.compare andb].
  destruct (decide (8 <= nbits pd - nboff pd)) as [H8|H8]; [|now rewrite get_few_bits_starved by lia].
  destruct (get_few_bits_ok pd 8 Hok ltac:(lia) H8) as (pd1 & -> & A1).
  set (l := take (Z.to_nat 8) (remaining pd)). pose proof (bval_bound l) as B.
  assert (length l = 8)%nat as Hl by (subst l; pose proof (length_remaining pd Hok); len).
  rewrite Hl in B. change (2 ^ Z.of_nat 8) with 256 in B. set (v := bval l) in *.
  assert (0 <= v .& 63 < 64) as H63 by (rewrite (land_ones' v 6 63) by lia; apply Z.mod_pos_bound; lia).
  assert (0 <= v .& 127 < 128) as H127 by (rewrite (land_ones' v 7 127) by lia; apply Z.mod_pos_bound; lia).
  destruct (v .& 128 =? 0).
  { rewrite (proj2 (Z.ltb_ge _ _)) by lia. split; [exists 8%nat; auto|]. split; [lia|discriminate]. }
  destruct (v .& 64 =? 0).
  - destruct (follows_few_bits pd1 8 (proj1 A1)) as [m Hm].
    destruct (decide (8 <= nbits pd1 - nboff pd1)) as [H8'|H8'];
      [|rewrite get_few_bits_starved by lia; now rewrite Z.lor_m1_r].
    destruct (get_few_bits_ok pd1 8 (proj1 A1) ltac:(lia) H8') as (pd2 & -> & A2).
    set (l2 := take (Z.to_nat 8) (remaining pd1)). pose proof (bval_bound l2) as B2.
    assert (length l2 = 8)%nat as Hl2 by (subst l2; pose proof (length_remaining pd1 (proj1 A1)); len).
    rewrite Hl2 in B2. change (2 ^ Z.of_nat 8) with 256 in B2.
    rewrite lor_disjoint by lia. rewrite (proj2 (Z.ltb_ge _ _)) by lia.
    split; [exists (Z.to_nat 8 + Z.to_nat 8)%nat; split; [lia|eauto using advanced_trans]|]. split; [lia|discriminate].
  - rewrite (proj2 (Z.ltb_ge v 0)) by lia. destruct ((v .& 63 <? 1) || (4 <? v .& 63)) eqn:E; [reflexivity|].
    apply orb_false_iff in E as [E1 E2]. bool_hyps. rewrite (proj2 (Z.ltb_ge _ _)) by lia.
    split; [exists 8%nat; auto|]. split; lia.
Qed.

Section LengthPut.
Context {K : Type} {C : Consumer K} {S : Sink K} {R : RoomySink K}.

Lemma encodes_length n :
  0 <= n < 16384 -> encodes (fun po : asn_bit_outp K => uper_put_length po n) (length_bits n) (n, false).
Proof.
  intros Hn. unfold uper_put_length, length_bits. destruct (Z.leb_spec n 127).
  - eapply encodes_last; [apply (encodes_few_bits 8 8 n); lia|]. apply encodes_ret.
  - bool_cases. rewrite Z.lor_comm, (lor_high 1 n 15 32768) by lia.
    rewrite (Z.add_comm 32768).
    eapply encodes_last; [apply (encodes_few_bits 16 16); lia|]. apply encodes_ret.
Qed.

Lemma encodes_fragment n :
  16384 <= n ->
  encodes (fun po : asn_bit_outp K => uper_put_length po n) (fragment_bits (fragment_units n))
    (16384 * fragment_units n, n =? 16384 * fragment_units n).
Proof.
  intros Hn. unfold uper_put_length, fragment_bits, fragment_units. bool_cases.
  rewrite Z.shiftr_div_pow2 by lia. change (2 ^ 14) with 16384.
  pose proof (Z.div_mod n 16384 ltac:(lia)). pose proof (Z.mod_pos_bound n 16384 ltac:(lia)).
  set (m := Z.min 4 (n / 16384)). assert ((if 4 <? n / 16384 then 4 else n / 16384) = m) as ->.
  { subst m. destruct (Z.ltb_spec 4 (n / 16384)); lia. }
  assert (1 <= m <= 4) as Hm by (subst m; lia).
  rewrite (lor_high 3 m 6 192) by lia.
  eapply encodes_last; [apply (encodes_few_bits 8 8); lia|]. cbn [negb Z.eqb].
  rewrite Z.shiftl_mul_pow2 by lia. replace (m * 2 ^ 14) with (16384 * m) by lia.
  assert ((if 4 <? n / 16384 then false else n .& 16383 =? 0) = (n =? 16384 * m)) as ->; [|apply encodes_ret].
  rewrite (land_ones' n 14 16383) by lia. change (2 ^ 14) with 16384. subst m.
  destruct (Z.ltb_spec 4 (n / 16384)), (Z.eqb_spec (n mod 16384) 0), (Z.eqb_spec n (16384 * Z.min 4 (n / 16384))); lia.
Qed.

Lemma encodes_nslength n :
  1 <= n <= 64 -> encodes (fun po : asn_bit_outp K => uper_put_nslength po n) (bits_of 7 (n - 1)) 0.
Proof.
  intros Hn. unfold uper_put_nslength. bool_cases.
  eapply encodes_last; [apply (encodes_few_bits 7 7); lia|]. apply encodes_ret.
Qed.

Lemma encodes_nsnnwn n :
  0 <= n <= 63 -> encodes (fun po : asn_bit_outp K => uper_put_nsnnwn po n) (bits_of 7 n) 0.
Proof. intros Hn. unfold uper_put_nsnnwn. bool_cases. apply encodes_few_bits; lia. Qed.
End LengthPut.

(** * Constrained whole numbers *)

Section WholeNumber.
Context {K : Type} {C : Consumer K} {S : Sink K} {R : RoomySink K}.

Lemma encodes_whole_number_fuel fuel v nb :
  0 <= nb <= 31 * (Z.of_nat fuel + 1) ->
  encodes (fun po : asn_bit_outp K => uper_put_constrained_whole_number_u_fuel fuel po v nb)
    (bits_of (Z.to_nat nb) v) 0.
Proof.
  revert v nb. induction fuel as [|fuel IH]; intros v nb Hnb;
    cbn [uper_put_constrained_whole_number_u_fuel];
    (destruct (Z.leb_spec nb 31); [apply encodes_few_bits; lia|]); [lia|].
  replace (Z.to_nat nb) with (Z.to_nat (nb - 31) + 31)%nat by lia. rewrite bits_of_app.
  eapply encodes_bind; [apply IH; lia|]. cbn [negb Z.eqb]. apply encodes_few_bits; lia.
Qed.

Lemma encodes_whole_number v nb :
  0 <= nb ->
  encodes (fun po : asn_bit_outp K => uper_put_constrained_whole_number_u po v nb)
    (bits_of (Z.to_nat nb) v) 0.
Proof.
  intros Hnb. apply encodes_whole_number_fuel. split; [assumption|].
  pose proof (Z.div_mod nb 31 ltac:(lia)). pose proof (Z.mod_pos_bound nb 31 ltac:(lia)).
  pose proof (Z.div_pos nb 31 ltac:(lia) ltac:(lia)). lia.
Qed.
End WholeNumber.

Lemma decodes_whole_number_fuel fuel v nb :
  0 <= nb <= 31 * (Z.of_nat fuel + 1) -> nb <= 64 -> 0 <= v < 2 ^ nb ->
  decodes (fun pd => uper_get_constrained_whole_number_fuel fuel pd nb) (bits_of (Z.to_nat nb) v) (Some v).
Proof.
  revert v nb. induction fuel as [|fuel IH]; intros v nb Hnb H64 Hv;
    cbn [uper_get_constrained_whole_number_fuel];
    (destruct (Z.leb_spec nb 31);
      [eapply decodes_last; [apply (decodes_few_bits_of _ nb v); lia|];
       rewrite (proj2 (Z.ltb_ge v 0)) by lia; apply decodes_ret|]); [lia|].
  change (8 * sizeof_intmax) with 64. rewrite (proj2 (Z.ltb_ge 64 nb)) by lia.
  replace (Z.to_nat nb) with (31 + Z.to_nat (nb - 31))%nat by lia. rewrite bits_of_app, Z2Nat.id by lia.
  pose proof (pow2_pos (nb - 31) ltac:(lia)) as Hp.
  assert (2 ^ nb = 2 ^ 31 * 2 ^ (nb - 31)) as E by (rewrite <- Z.pow_add_r by lia; f_equal; lia).
  pose proof (Z.div_mod v (2 ^ (nb - 31)) ltac:(lia)) as Hdm.
  pose proof (Z.mod_pos_bound v (2 ^ (nb - 31)) Hp) as Hmod.
  assert (0 <= v / 2 ^ (nb - 31) < 2 ^ 31) as Hhi.
  { split; [apply Z.div_pos; lia|]. apply Z.div_lt_upper_bound; lia. }
  rewrite Z.shiftr_div_pow2 by lia.
  eapply decodes_bind; [apply (decodes_few_bits_of 31 31); lia|].
  rewrite (proj2 (Z.ltb_ge _ 0)) by lia.
  rewrite <- (bits_of_uwrap _ (nb - 31) v) by lia.
  eapply decodes_last; [apply (IH (uwrap (nb - 31) v)); [lia|lia|apply Hmod]|]. cbv beta iota.
  assert (u64 ((v / 2 ^ (nb - 31)) ≪ (nb - 31)) .| uwrap (nb - 31) v = v) as ->; [|apply decodes_ret].
  unfold uwrap at 2. rewrite uwrap_small.
  - rewrite lor_disjoint by lia. lia.
  - rewrite Z.shiftl_mul_pow2 by lia.
    pose proof (Z.pow_le_mono_r 2 nb 64 ltac:(lia) ltac:(lia)). nia.
Qed.

Lemma decodes_whole_number v nb :
  0 <= nb <= 64 -> 0 <= v < 2 ^ nb ->
  decodes (fun pd => uper_get_constrained_whole_number pd nb) (bits_of (Z.to_nat nb) v) (Some v).
Proof. intros. apply decodes_whole_number_fuel; lia. Qed.

(** * Range offsets *)

Lemma imax_range_value lb ub : is_imax lb -> is_imax ub -> lb <= ub -> per__imax_range lb ub = Some (ub - lb).
Proof.
  unfold is_imax, INTMAX_MIN, INTMAX_MAX, per__imax_range. intros.
  destruct (Z.ltb_spec ub 0), (Z.ltb_spec lb 0); cbn [Bool.eqb]; try lia; unfold uwrap; f_equal;
    rewrite ?(Z.mod_small ub), ?(Z.mod_small (- (lb + 1))), Z.mod_small by lia; lia.
Qed.

Lemma rebase_value v lb ub :
  is_imax v -> is_imax lb -> is_imax ub -> lb <= ub ->
  per_imax_range_rebase v lb ub = if (lb <=? v) && (v <=? ub) then Some (v - lb) else None.
Proof.
  intros Hv Hlb Hub Hle. unfold per_imax_range_rebase. rewrite imax_range_value by assumption.
  unfold is_imax, INTMAX_MIN, INTMAX_MAX in *.
  destruct (Z.ltb_spec v lb), (Z.ltb_spec ub v), (Z.leb_spec lb v), (Z.leb_spec v ub); cbn [orb andb]; try lia; auto.
  destruct (Z.ltb_spec v 0), (Z.ltb_spec lb 0); cbn [Bool.eqb]; try lia; unfold uwrap; f_equal;
    rewrite ?(Z.mod_small v), ?(Z.mod_small (- (lb + 1))), Z.mod_small by lia; lia.
Qed.

Lemma unrebase_value inp lb ub :
  is_imax lb -> is_imax ub -> lb <= ub -> 0 <= inp ->
  per_imax_range_unrebase inp lb ub = if inp <=? ub - lb then Some (lb + inp) else None.
Proof.
  intros Hlb Hub Hle Hi. unfold per_imax_range_unrebase. rewrite imax_range_value by assumption.
  destruct (Z.ltb_spec (ub - lb) inp), (Z.leb_spec inp (ub - lb)); try lia; auto.
  destruct (Z.leb_spec inp INTMAX_MAX); f_equal; lia.
Qed.

(** * Fragments *)

Lemma fragment_units_bound n : 16384 <= n -> 1 <= fragment_units n <= 4 /\ 16384 * fragment_units n <= n.
Proof.
  intros. unfold fragment_units. pose proof (Z.div_mod n 16384 ltac:(lia)).
  pose proof (Z.mod_pos_bound n 16384 ltac:(lia)). lia.
Qed.

Section Fragments.
Context {U : Type} (enc : list U -> list bool).

(** X.691 #11.9.3: units (octets, characters, bits) behind their length
    determinants, in fragments of at most 65536 units. *)
Fixpoint fragmented_fuel (fuel : nat) (us : list U) : list bool :=
  let n := Z.of_nat (length us) in
  if n <? 16384 then length_bits n ++ enc us
  else match fuel with
  | O => []
  | S fuel' =>
      let k := Z.to_nat (16384 * fragment_units n) in
      fragment_bits (fragment_units n) ++ enc (take k us) ++ fragmented_fuel fuel' (drop k us)
  end.

Definition fragmented_of (us : list U) : list bool := fragmented_fuel (length us) us.

Lemma fragmented_fuel_enough f1 f2 us :
  (length us <= f1)%nat -> (length us <= f2)%nat -> fragmented_fuel f1 us = fragmented_fuel f2 us.
Proof.
  revert f2 us. induction f1 as [|f1 IH]; intros f2 us H1 H2.
  - destruct us; simpl in H1; [|lia]. destruct f2; reflexivity.
  - destruct f2 as [|f2]; [destruct us; simpl in H2; [reflexivity|lia]|].
    cbn [fragmented_fuel]. destruct (Z.ltb_spec (Z.of_nat (length us)) 16384) as [Hs|Hs]; [reflexivity|].
    pose proof (fragment_units_bound _ Hs).
    do 2 f_equal. apply IH; len.
Qed.

(** The defining equation. *)
Lemma fragmented_eq us :
  let n := Z.of_nat (length us) in
  let k := Z.to_nat (16384 * fragment_units n) in
  fragmented_of us = if n <? 16384 then length_bits n ++ enc us
                     else fragment_bits (fragment_units n) ++ enc (take k us) ++ fragmented_of (drop k us).
Proof.
  cbv zeta. unfold fragmented_of at 1. destruct (Z.ltb_spec (Z.of_nat (length us)) 16384) as [Hs|Hs].
  - destruct (length us) eqn:E; cbn [fragmented_fuel]; rewrite E; now rewrite (proj2 (Z.ltb_lt _ _)) by lia.
  - pose proof (fragment_units_bound _ Hs). destruct (length us) as [|n] eqn:E; [lia|].
    cbn [fragmented_fuel]. rewrite E, (proj2 (Z.ltb_ge _ _)) by lia. do 2 f_equal.
    apply fragmented_fuel_enough; len.
Qed.
End Fragments.

(** Induction on the fragments of a string of units. *)
Lemma fragments_ind {U} (P : list U -> Prop) :
  (forall us, Z.of_nat (length us) < 16384 -> P us) ->
  (forall us, 16384 <= Z.of_nat (length us) ->
     P (drop (Z.to_nat (16384 * fragment_units (Z.of_nat (length us)))) us) -> P us) ->
  forall us, P us.
Proof.
  intros Hs Hl us. remember (length us) as n eqn:E. revert us E.
  induction n as [n IH] using lt_wf_ind. intros us ->.
  destruct (Z.lt_ge_cases (Z.of_nat (length us)) 16384) as [H|H]; [now apply Hs|].
  apply Hl; [assumption|]. pose proof (fragment_units_bound _ H). eapply IH; [|reflexivity]. len.
Qed.

Lemma length_length_bits n : (8 <= length (length_bits n) <= 16)%nat.
Proof. unfold length_bits. destruct (n <=? 127); rewrite length_bits_of; lia. Qed.

(** Octets in fragments. *)
Definition fragmented : list Z -> list bool := fragmented_of bytes_bits.

(** * Properties *)

(** Length determinants, X.691 #11.9: for every number of units,
    uper_put_length writes a determinant from which uper_get_length returns
    the same count; from 16384 units on the count is that of the first
    fragment (a multiple of 16384 not above the total, at most 65536), the
    getter reports that more follows, and the putter asks for a closing
    empty fragment exactly when the fragment ends the data. *)
Theorem uper_length_roundtrip {T : Target} {K} {C : Consumer K} {S : Sink K} {TS : TotalSink K} n :
  0 <= n ->
  exists enc put eom, encodes (fun po : asn_bit_outp K => uper_put_length po n) enc (put, eom) /\
    decodes (fun pd => uper_get_length pd (-1) 0) enc (put, negb (n <? 16384)) /\
    (if n <? 16384 then put = n /\ eom = false
     else put = 16384 * fragment_units n /\ 16384 <= put <= Z.min n 65536 /\ eom = (n =? put)).
Proof.
  intros Hn. destruct (Z.ltb_spec n 16384) as [Hs|Hs]; cbn [negb].
  - exists (length_bits n), n, false. split; [apply encodes_length; lia|]. split; [apply decodes_length; lia|]. auto.
  - pose proof (fragment_units_bound n Hs).
    exists (fragment_bits (fragment_units n)), (16384 * fragment_units n), (n =? 16384 * fragment_units n).
    split; [now apply encodes_fragment|]. split; [apply decodes_fragment; lia|]. split_all; auto; lia.
Qed.

Lemma uper_length_roundtrip_witness :
  0 <= 40000 /\
  exists enc put eom, encodes (fun po : asn_bit_outp ByteBuffer => uper_put_length po 40000) enc (put, eom) /\
    decodes (fun pd => @uper_get_length LP64 pd (-1) 0) enc (put, negb (40000 <? 16384)) /\
    (if 40000 <? 16384 then put = 40000 /\ eom = false
     else put = 16384 * fragment_units 40000 /\ 16384 <= put <= Z.min 40000 65536 /\ eom = (40000 =? put)).
Proof. split; [lia|]. apply (@uper_length_roundtrip LP64 ByteBuffer _ _ _ 40000). lia. Defined.

(** Constrained whole numbers: for every width up to the 64 bits of
    uintmax_t, uper_put_constrained_whole_number_u writes exactly [nb] bits,
    the number itself, and uper_get_constrained_whole_number reads it back;
    wider requests are refused by the getter. *)
Theorem constrained_whole_number_roundtrip {K} {C : Consumer K} {S : Sink K} {TS : TotalSink K} v nb :
  0 <= nb -> 0 <= v < 2 ^ nb ->
  encodes (fun po : asn_bit_outp K => uper_put_constrained_whole_number_u po v nb) (bits_of (Z.to_nat nb) v) 0 /\
  if nb <=? 64
  then decodes (fun pd => uper_get_constrained_whole_number pd nb) (bits_of (Z.to_nat nb) v) (Some v)
  else forall pd, uper_get_constrained_whole_number pd nb = (None, pd).
Proof.
  intros Hnb Hv. split; [now apply encodes_whole_number|].
  destruct (Z.leb_spec nb 64); [apply decodes_whole_number; lia|]. intros pd.
  unfold uper_get_constrained_whole_number; cbn [uper_get_constrained_whole_number_fuel].
  change (8 * sizeof_intmax) with 64. now bool_cases.
Qed.

Lemma constrained_whole_number_roundtrip_witness :
  (0 <= 42 /\ 0 <= 4398046511103 < 2 ^ 42) /\
  encodes (fun po : asn_bit_outp ByteBuffer => uper_put_constrained_whole_number_u po 4398046511103 42)
    (bits_of (Z.to_nat 42) 4398046511103) 0 /\
  if 42 <=? 64
  then decodes (fun pd => uper_get_constrained_whole_number pd 42) (bits_of (Z.to_nat 42) 4398046511103) (Some 4398046511103)
  else forall pd, uper_get_constrained_whole_number pd 42 = (None, pd).
Proof. split; [lia|]. apply (@constrained_whole_number_roundtrip ByteBuffer _ _ _ 4398046511103 42); lia. Defined.

(** Offsets into an [intmax_t] range: for all bounds, including those
    whose distance does not fit intmax_t, per_imax_range_rebase computes
    [v - lb] without wrapping and fails exactly outside the bounds;
    per_imax_range_unrebase restores [v] and refuses every offset beyond the
    range, and the intermediate sums of the C expression fit intmax_t. *)
Theorem imax_range_roundtrip v lb ub :
  is_imax v -> is_imax lb -> is_imax ub -> lb <= ub ->
  (per_imax_range_rebase v lb ub = if (lb <=? v) && (v <=? ub) then Some (v - lb) else None) /\
  (forall inp, is_umax inp ->
     per_imax_range_unrebase inp lb ub = if inp <=? ub - lb then Some (lb + inp) else None) /\
  (lb <= v <= ub -> per_imax_range_unrebase (v - lb) lb ub = Some v) /\
  (forall inp, is_umax inp -> inp <= ub - lb -> INTMAX_MAX < inp ->
     is_imax (lb + INTMAX_MAX) /\ is_imax (lb + INTMAX_MAX + 1) /\ is_imax ((inp - INTMAX_MAX) - 1)).
Proof.
  intros Hv Hlb Hub Hle. split; [now apply rebase_value|].
  assert (forall inp, 0 <= inp -> per_imax_range_unrebase inp lb ub = if inp <=? ub - lb then Some (lb + inp) else None)
    as Hun by (intros; now apply unrebase_value).
  split; [intros inp [? _]; now apply Hun|]. split.
  - intros Hr. rewrite Hun by lia. rewrite (proj2 (Z.leb_le _ _)) by lia. f_equal. lia.
  - unfold is_umax, UINTMAX_MAX, is_imax, INTMAX_MIN, INTMAX_MAX in *. intros. lia.
Qed.

Lemma imax_range_roundtrip_witness :
  let v := 5 in let lb := - 2 ^ 63 in let ub := 2 ^ 63 - 1 in
  (per_imax_range_rebase v lb ub = if (lb <=? v) && (v <=? ub) then Some (v - lb) else None) /\
  (forall inp, is_umax inp ->
     per_imax_range_unrebase inp lb ub = if inp <=? ub - lb then Some (lb + inp) else None) /\
  (lb <= v <= ub -> per_imax_range_unrebase (v - lb) lb ub = Some v) /\
  (forall inp, is_umax inp -> inp <= ub - lb -> INTMAX_MAX < inp ->
     is_imax (lb + INTMAX_MAX) /\ is_imax (lb + INTMAX_MAX + 1) /\ is_imax ((inp - INTMAX_MAX) - 1)).
Proof.
  apply (imax_range_roundtrip 5 (- 2 ^ 63) (2 ^ 63 - 1)); unfold is_imax, INTMAX_MIN, INTMAX_MAX; lia.
Defined.

(** Normally small numbers and lengths: uper_get_nsnnwn reads back what
    uper_put_nsnnwn writes for 0..63, and uper_get_nslength what
    uper_put_nslength writes for 1..64.  Above these bounds the putters omit
    the leading 1 bit the getters test: a number from 64 to 2^24 - 1 comes
    back as 0 or 1, and a length from 65 to 127 as half of it plus one. *)
Theorem normally_small_numbers {T : Target} {K} {C : Consumer K} {S : Sink K} {TS : TotalSink K} :
  (forall n, 0 <= n <= 63 ->
     encodes (fun po : asn_bit_outp K => uper_put_nsnnwn po n) (bits_of 7 n) 0 /\
     decodes uper_get_nsnnwn (bits_of 7 n) n) /\
  (forall n, 64 <= n < 256 * 65536 -> exists enc more,
     encodes (fun po : asn_bit_outp K => uper_put_nsnnwn po n) (enc ++ more) 0 /\
     decodes uper_get_nsnnwn enc (if n <? 256 then 0 else 1)) /\
  (forall n, 1 <= n <= 64 ->
     encodes (fun po : asn_bit_outp K => uper_put_nslength po n) (bits_of 7 (n - 1)) 0 /\
     decodes uper_get_nslength (bits_of 7 (n - 1)) n) /\
  (forall n, 65 <= n <= 127 -> exists enc more,
     encodes (fun po : asn_bit_outp K => uper_put_nslength po n) (enc ++ more) 0 /\
     decodes uper_get_nslength enc (n / 2 + 1)).
Proof.
  split; [|split; [|split]].
  - split; [now apply encodes_nsnnwn|now apply decodes_nsnnwn].
  - intros n Hn. pose (bytes := if n <? 256 then 1 else if n <? 65536 then 2 else 3).
    exists (bits_of 7 (bytes / 2)), (bits_of 1 bytes ++ bits_of (Z.to_nat (8 * bytes)) n). split.
    + rewrite app_assoc. replace (bits_of 7 (bytes / 2) ++ bits_of 1 bytes) with (bits_of 8 bytes)
        by (subst bytes; destruct (n <? 256), (n <? 65536); reflexivity).
      unfold uper_put_nsnnwn. bool_cases. subst bytes.
      destruct (n <? 256), (n <? 65536); (eapply encodes_bind;
        [apply (encodes_few_bits 8 8); lia|cbn [negb Z.eqb]; apply encodes_few_bits; lia]).
    + replace (if n <? 256 then 0 else 1) with (bytes / 2)
        by (subst bytes; destruct (n <? 256), (n <? 65536); reflexivity).
      apply decodes_nsnnwn. subst bytes. destruct (n <? 256), (n <? 65536); vm_compute; split; discriminate.
  - split; [now apply encodes_nslength|now apply decodes_nslength].
  - intros n Hn. exists (bits_of 7 (n / 2 + 1 - 1)), (bits_of 1 n). split.
    + replace (n / 2 + 1 - 1) with (n ≫ Z.of_nat 1) by (rewrite Z.shiftr_div_pow2 by lia; change (2 ^ Z.of_nat 1) with 2; lia).
      rewrite <- (bits_of_app 7 1). unfold uper_put_nslength. bool_cases.
      pose proof (encodes_length (K := K) n ltac:(lia)) as He. unfold length_bits in He.
      rewrite (proj2 (Z.leb_le n 127)) in He by lia.
      eapply encodes_last; [exact He|]. cbv beta iota.
      rewrite (proj2 (Z.eqb_eq n n)) by lia. apply encodes_ret.
    + apply decodes_nslength. pose proof (Z.div_mod n 2 ltac:(lia)).
      pose proof (Z.mod_pos_bound n 2 ltac:(lia)). lia.
Qed.

Lemma normally_small_numbers_witness :
  encodes (fun po : asn_bit_outp ByteBuffer => uper_put_nsnnwn po 40) (bits_of 7 40) 0 /\
  decodes uper_get_nsnnwn (bits_of 7 40) 40 /\
  exists enc more, encodes (fun po : asn_bit_outp ByteBuffer => uper_put_nslength po 100) (enc ++ more) 0 /\
    decodes (@uper_get_nslength LP64) enc 51.
Proof.
  destruct (@normally_small_numbers LP64 ByteBuffer _ _ _) as (H1 & _ & _ & H4).
  destruct (H1 40) as [He Hd]; [lia|]. split; [exact He|]. split; [exact Hd|]. apply (H4 100). lia.
Defined.
