(* ===== verification/Integer.v ===== *)
(** ASN.1 INTEGER values: vanetza/asn1/support/INTEGER.c.

    An INTEGER is a string of two's complement octets.  The conversions to
    and from the C integer types are specified by the number the octets
    denote ([sval]), the parsers of decimal text by the number the digits
    denote, and INTEGER_compare is compared with the order of the numbers. *)

From S2P Require Import Prelude Runtime.

(** INTEGER_t: nothing for a NULL [buf], otherwise the [size] octets. *)
Abbreviation INTEGER_t := (option (list Z)) (only parsing).

Definition INTEGER_size (st : INTEGER_t) : Z :=
  match st with None => 0 | Some bs => Z.of_nat (length bs) end.

(** * Conversions *)

(** asn__integer_convert: sign initialization, then the octets. *)
Definition asn__integer_convert (b : list Z) : Z :=
  let value := if hd 0 b ≫ 7 =? 0 then 0 else UINTMAX_MAX in
  s64 (fold_left (fun value x => u64 (value ≪ 8) .| x) b value).

(** The test of the loops that skip insignificant leading octets. *)
Definition redundant (b0 b1 : Z) : bool :=
  (b0 =? 0) && (b1 .& 128 =? 0) || (b0 =? 255) && negb (b1 .& 128 =? 0).

(** "Skip out the insignificant leading bytes"; at least one octet stays. *)
Fixpoint skip_redundant (b : list Z) : list Z :=
  match b with
  | b0 :: ((b1 :: _) as rest) => if redundant b0 b1 then skip_redundant rest else b
  | _ => b
  end.

Definition asn_INTEGER2imax (iptr : INTEGER_t) : errno + Z :=
  match iptr with
  | None => inl EINVAL
  | Some b =>
      let b := if sizeof_intmax <? Z.of_nat (length b) then skip_redundant b else b in
      if sizeof_intmax <? Z.of_nat (length b) then inl ERANGE
      else match b with [] => inr 0 | _ => inr (asn__integer_convert b) end
  end.

(** "If all extra leading bytes are zeroes, ignore them" *)
Fixpoint skip_zeroes (b : list Z) : option (list Z) :=
  if sizeof_intmax <? Z.of_nat (length b) then
    match b with
    | [] => Some []
    | x :: b' => if x =? 0 then skip_zeroes b' else None
    end
  else Some b.

Definition asn_INTEGER2umax (iptr : INTEGER_t) : errno + Z :=
  match iptr with
  | None => inl EINVAL
  | Some b =>
      match skip_zeroes b with
      | None => inl ERANGE
      | Some b => inr (fold_left (fun value x => u64 (value ≪ 8) .| x) b 0)
      end
  end.

Section Store.
Context {A : Allocator}.

(** asn_imax2INTEGER: the octets of [value] in memory, most significant
    first, without the insignificant leading ones; -1 is nothing. *)
Definition asn_imax2INTEGER (value : Z) : option INTEGER_t :=
  if malloc_ok sizeof_intmax then Some (Some (skip_redundant (be_bytes 8 value))) else None.

(** asn_int642INTEGER has the same body for [int64_t]. *)
Definition asn_int642INTEGER (value : Z) : option INTEGER_t :=
  if malloc_ok 8 then Some (Some (skip_redundant (be_bytes 8 value))) else None.

Definition asn_umax2INTEGER (value : Z) : option INTEGER_t :=
  if value <=? UINTMAX_MAX ≫ 1 then asn_imax2INTEGER value
  else if malloc_ok (1 + sizeof_intmax) then Some (Some (0 :: be_bytes 8 value)) else None.

Definition asn_uint642INTEGER (value : Z) : option INTEGER_t :=
  if value <=? INTMAX_MAX then asn_int642INTEGER value
  else if malloc_ok (1 + 8) then Some (Some (0 :: be_bytes 8 value)) else None.
End Store.

Section Native.
Context {T : Target} {A : Allocator}.

Definition asn_INTEGER2long (iptr : INTEGER_t) : errno + Z :=
  match asn_INTEGER2imax iptr with
  | inr v => if (v <? LONG_MIN) || (LONG_MAX <? v) then inl ERANGE else inr v
  | inl e => inl e
  end.

Definition asn_INTEGER2ulong (iptr : INTEGER_t) : errno + Z :=
  match asn_INTEGER2umax iptr with
  | inr v => if ULONG_MAX <? v then inl ERANGE else inr v
  | inl e => inl e
  end.

Definition asn_long2INTEGER (value : Z) : option INTEGER_t := asn_imax2INTEGER value.

(** The argument is converted from [unsigned long] to [intmax_t]. *)
Definition asn_ulong2INTEGER (value : Z) : option INTEGER_t := asn_imax2INTEGER (s64 value).
End Native.

Definition asn_INTEGER2int64 (st : INTEGER_t) : errno + Z :=
  match asn_INTEGER2imax st with
  | inr v => if (v <? INTMAX_MIN) || (INTMAX_MAX <? v) then inl ERANGE else inr v
  | inl e => inl e
  end.

Definition asn_INTEGER2uint64 (st : INTEGER_t) : errno + Z :=
  match asn_INTEGER2umax st with
  | inr v => if UINTMAX_MAX <? v then inl ERANGE else inr v
  | inl e => inl e
  end.

(** * Enumeration maps *)

(** The elements of asn_INTEGER_specifics_t::value2enum: the number (the
    name only matters to the text encodings). *)
Abbreviation enum_map := (list Z) (only parsing).

(** bsearch(3) of the C library on an array ordered by the comparison. *)
Fixpoint bsearch_fuel (fuel : nat) (cmp : Z -> Z -> Z) (key : Z) (base : list Z) (lo hi : nat) : option nat :=
  match fuel with
  | O => None
  | S fuel' =>
      if (lo <? hi)%nat then
        let mid := Nat.div2 (lo + hi) in
        let c := cmp key (nth mid base 0) in
        if c <? 0 then bsearch_fuel fuel' cmp key base lo mid
        else if 0 <? c then bsearch_fuel fuel' cmp key base (S mid) hi
        else Some mid
      else None
  end.

Definition bsearch (cmp : Z -> Z -> Z) (key : Z) (base : list Z) : option nat :=
  bsearch_fuel (S (length base)) cmp key base 0 (length base).

Definition INTEGER__compar_value2enum (a b : Z) : Z :=
  if a <? b then -1 else if a =? b then 0 else 1.

(** INTEGER_map_value2enum: the index of the element, or NULL. *)
Definition INTEGER_map_value2enum (value2enum : enum_map) (value : Z) : option nat :=
  if (length value2enum =? 0)%nat then None else bsearch INTEGER__compar_value2enum value value2enum.

(** * Decimal text *)

Inductive asn_strtox_result :=
  | ASN_STRTOX_ERROR_RANGE
  | ASN_STRTOX_ERROR_INVAL
  | ASN_STRTOX_EXPECT_MORE
  | ASN_STRTOX_EXTRA_DATA
  | ASN_STRTOX_OK.

#[export] Instance asn_strtox_result_eq_dec : EqDecision asn_strtox_result.
Proof. solve_decision. Defined.

Definition is_digit (c : Z) : bool := (48 <=? c) && (c <=? 57).

(** The digit loop of asn_strtoimax_lim and, with a positive sign, of
    asn_strtoumax_lim.  The results are the code, the value of [*end] as an
    offset, and the number stored. *)
Fixpoint strtox_loop (upper_boundary last_digit_max : Z) (str : list Z) (pos sign value : Z) :
    asn_strtox_result * Z * option Z :=
  match str with
  | [] => (ASN_STRTOX_OK, pos, Some (sign * value))
  | c :: str' =>
      if is_digit c then
        let d := c - 48 in
        if value <? upper_boundary then
          strtox_loop upper_boundary last_digit_max str' (pos + 1) sign (value * 10 + d)
        else if value =? upper_boundary then
          if d <=? last_digit_max then
            let value' := if 0 <? sign then value * 10 + d else - value * 10 - d in
            let sign' := if 0 <? sign then sign else 1 in
            match str' with
            | c' :: _ => if is_digit c' then (ASN_STRTOX_ERROR_RANGE, pos + 1, None)
                         else (ASN_STRTOX_EXTRA_DATA, pos + 1, Some (sign' * value'))
            | [] => (ASN_STRTOX_OK, pos + 1, Some (sign' * value'))
            end
          else (ASN_STRTOX_ERROR_RANGE, pos, None)
        else (ASN_STRTOX_ERROR_RANGE, pos, None)
      else (ASN_STRTOX_EXTRA_DATA, pos, Some (sign * value))
  end.

Definition asn_strtoimax_lim (str : list Z) : asn_strtox_result * Z * option Z :=
  let upper_boundary := INTMAX_MAX / 10 in
  let last_digit_max := INTMAX_MAX mod 10 in
  match str with
  | [] => (ASN_STRTOX_ERROR_INVAL, 0, None)
  | 45 :: [] => (ASN_STRTOX_EXPECT_MORE, 1, None)
  | 45 :: str' => strtox_loop upper_boundary (last_digit_max + 1) str' 1 (-1) 0
  | 43 :: [] => (ASN_STRTOX_EXPECT_MORE, 1, None)
  | 43 :: str' => strtox_loop upper_boundary last_digit_max str' 1 1 0
  | _ => strtox_loop upper_boundary last_digit_max str 0 1 0
  end.

Definition asn_strtoumax_lim (str : list Z) : asn_strtox_result * Z * option Z :=
  let upper_boundary := UINTMAX_MAX / 10 in
  let last_digit_max := UINTMAX_MAX mod 10 in
  match str with
  | [] => (ASN_STRTOX_ERROR_INVAL, 0, None)
  | 45 :: _ => (ASN_STRTOX_ERROR_INVAL, Z.of_nat (length str), None)
  | 43 :: [] => (ASN_STRTOX_EXPECT_MORE, 1, None)
  | 43 :: str' => strtox_loop upper_boundary last_digit_max str' 1 1 0
  | _ => strtox_loop upper_boundary last_digit_max str 0 1 0
  end.

Section StrtoNative.
Context {T : Target}.

(** asn_strtol_lim and asn_strtoul_lim: the result narrowed to [long] and
    [unsigned long]. *)
Definition strto_narrow (lo hi : Z) (r : asn_strtox_result * Z * option Z) : asn_strtox_result * Z * option Z :=
  match r with
  | (ASN_STRTOX_OK, e, Some value) =>
      if (lo <=? value) && (value <=? hi) then (ASN_STRTOX_OK, e, Some value) else (ASN_STRTOX_ERROR_RANGE, e, None)
  | (ASN_STRTOX_EXTRA_DATA, e, Some value) =>
      if (lo <=? value) && (value <=? hi) then (ASN_STRTOX_EXTRA_DATA, e, Some value) else (ASN_STRTOX_ERROR_RANGE, e, None)
  | (code, e, _) => (code, e, None)
  end.

Definition asn_strtol_lim (str : list Z) := strto_narrow LONG_MIN LONG_MAX (asn_strtoimax_lim str).
Definition asn_strtoul_lim (str : list Z) := strto_narrow 0 ULONG_MAX (asn_strtoumax_lim str).
End StrtoNative.

(** * Comparison and copy *)

(** memcmp(3) of equally long strings, as -1, 0 or 1. *)
Fixpoint memcmp (a b : list Z) : Z :=
  match a, b with
  | x :: a', y :: b' => if x <? y then -1 else if y <? x then 1 else memcmp a' b'
  | _, _ => 0
  end.

(** [(buf[0] & 0x80) ? -1 : 1]; nothing when there is no octet to read. *)
Definition sign_octet (st : INTEGER_t) : option Z :=
  match st with
  | Some (x :: _) => Some (if x .& 128 =? 0 then 1 else -1)
  | _ => None
  end.

(** INTEGER_compare; a NULL structure pointer is nothing.  The result is
    nothing where the C code reads the first octet of an empty string. *)
Definition INTEGER_compare (a b : option INTEGER_t) : option Z :=
  match a, b with
  | Some a, Some b =>
      if negb (INTEGER_size a =? 0) && negb (INTEGER_size b =? 0) then
        sign_a ← sign_octet a; sign_b ← sign_octet b;
        if sign_a <? sign_b then Some (-1)
        else if sign_b <? sign_a then Some 1
        else if INTEGER_size a <? INTEGER_size b then Some (-1 * sign_a)
        else if INTEGER_size b <? INTEGER_size a then Some (1 * sign_b)
        else Some (sign_a * memcmp (default [] a) (default [] b))
      else if negb (INTEGER_size a =? 0) then
        sign ← sign_octet a; Some (1 * sign)
      else if negb (INTEGER_size b =? 0) then
        sign ← sign_octet a; Some (-1 * sign)
      else Some 0
  | None, None => Some 0
  | None, _ => Some (-1)
  | _, None => Some 1
  end.

(** INTEGER_copy: the return code and the structure behind [*aptr]
    afterwards. *)
Definition INTEGER_copy {T : Target} {A : Allocator} (a b : option INTEGER_t) : Z * option INTEGER_t :=
  match b with
  | None => (0, None)
  | Some b =>
      match (match a with Some a => Some a | None => if malloc_ok (2 * sizeof_word) then Some None else None end) with
      | None => (-1, None)
      | Some a =>
          if negb (INTEGER_size b =? 0) then
            if malloc_ok (INTEGER_size b) then (0, Some (Some (default [] b))) else (-1, Some a)
          else (0, Some None)
      end
  end.

(** NativeInteger_compare and NativeInteger_copy of NativeInteger.c; a long
    or unsigned long is the number it denotes at the signedness of the type. *)
Definition NativeInteger_compare (aptr bptr : option Z) : Z :=
  match aptr, bptr with
  | Some a, Some b => if a <? b then -1 else if b <? a then 1 else 0
  | None, _ => -1
  | Some _, None => 1
  end.
Definition NativeInteger_copy {T : Target} {A : Allocator} (a b : option Z) : Z * option Z :=
  match b with
  | None => (0, None)
  | Some b => match a with
              | Some _ => (0, Some b)
              | None => if malloc_ok sizeof_word then (0, Some b) else (-1, None)
              end
  end.

(** * The number an INTEGER denotes *)

(** Two's complement, most significant octet first. *)
Definition sval (b : list Z) : Z :=
  match b with
  | [] => 0
  | x :: _ => be_val b - (if 128 <=? x then 256 ^ Z.of_nat (length b) else 0)
  end.

(** Not empty, and no insignificant leading octet. *)
Definition canonical (b : list Z) : Prop :=
  match b with
  | [] => False
  | b0 :: b1 :: _ => redundant b0 b1 = false
  | _ => True
  end.

Lemma land128 x : octet x -> (x .& 128 =? 0) = (x <? 128).
Proof.
  intros Hx. apply Bool.eqb_prop.
  apply (small_cases (fun v => Bool.eqb (v .& 128 =? 0) (v <? 128)) 256); [vm_compute; reflexivity|exact Hx].
Qed.

Lemma shift7 x : octet x -> (x ≫ 7 =? 0) = (x <? 128).
Proof.
  intros Hx. unfold octet in Hx. rewrite Z.shiftr_div_pow2 by lia. change (2 ^ 7) with 128.
  pose proof (Z.div_mod x 128 ltac:(lia)). pose proof (Z.mod_pos_bound x 128 ltac:(lia)).
  destruct (Z.eqb_spec (x / 128) 0), (Z.ltb_spec x 128); try reflexivity; nia.
Qed.

Lemma redundant_spec b0 b1 :
  octet b1 -> redundant b0 b1 = (b0 =? 0) && (b1 <? 128) || (b0 =? 255) && (128 <=? b1).
Proof. intros H. unfold redundant. rewrite land128, Z.leb_antisym by assumption. reflexivity. Qed.

Lemma skip_redundant_cons b0 b1 r :
  skip_redundant (b0 :: b1 :: r) = if redundant b0 b1 then skip_redundant (b1 :: r) else b0 :: b1 :: r.
Proof. reflexivity. Qed.

Lemma sval_redundant b0 b1 r :
  octet b1 -> redundant b0 b1 = true -> sval (b0 :: b1 :: r) = sval (b1 :: r).
Proof.
  intros H1 H. rewrite redundant_spec in H by assumption. unfold sval. cbn [be_val length].
  rewrite !Nat2Z.inj_succ, !Z.pow_succ_r by lia.
  destruct (Z.eqb_spec b0 0), (Z.eqb_spec b0 255), (Z.ltb_spec b1 128), (Z.leb_spec 128 b1),
    (Z.leb_spec 128 b0); cbn in H; try discriminate; subst; lia.
Qed.

Lemma skip_redundant_ind (P : list Z -> Prop) :
  P [] -> (forall b, P [b]) ->
  (forall b0 b1 r, (redundant b0 b1 = true -> P (b1 :: r)) -> P (b0 :: b1 :: r)) ->
  forall b, P b.
Proof.
  intros H0 H1 H2. induction b as [|b0 b IH]; [exact H0|]. destruct b as [|b1 r]; auto.
Qed.

Lemma skip_redundant_sval b : octets b -> sval (skip_redundant b) = sval b.
Proof.
  induction b as [| |b0 b1 r IH] using skip_redundant_ind; try reflexivity.
  intros Hb. apply octets_cons in Hb as [_ Hb]. rewrite skip_redundant_cons.
  destruct (redundant b0 b1) eqn:E; [|reflexivity].
  rewrite IH by auto. symmetry. apply sval_redundant; [|assumption]. now apply octets_cons in Hb.
Qed.

Lemma skip_redundant_octets b : octets b -> octets (skip_redundant b).
Proof.
  induction b as [| |b0 b1 r IH] using skip_redundant_ind; auto.
  intros Hb. rewrite skip_redundant_cons. destruct (redundant b0 b1); [|assumption].
  apply IH; [reflexivity|]. now apply octets_cons in Hb.
Qed.

Lemma skip_redundant_length b :
  (length (skip_redundant b) <= length b)%nat /\ (b <> [] -> skip_redundant b <> []).
Proof.
  induction b as [| |b0 b1 r IH] using skip_redundant_ind; auto.
  rewrite skip_redundant_cons. destruct (redundant b0 b1) eqn:E; [|split; auto].
  destruct (IH eq_refl) as [H1 H2]. simpl in *. split; [lia|]. intros _. apply H2. discriminate.
Qed.

Lemma skip_redundant_canonical b : b <> [] -> canonical (skip_redundant b).
Proof.
  induction b as [| |b0 b1 r IH] using skip_redundant_ind; [congruence|intros; exact I|].
  intros _. rewrite skip_redundant_cons. destruct (redundant b0 b1) eqn:E; [|exact E].
  apply IH; [reflexivity|discriminate].
Qed.

Lemma skip_redundant_id b : canonical b -> skip_redundant b = b.
Proof. destruct b as [|b0 [|b1 r]]; try reflexivity. intros H. rewrite skip_redundant_cons. simpl in H. now rewrite H. Qed.
#[export] Hint Resolve skip_redundant_octets : asn.

(** ** Bounds *)

Lemma sval_bound b :
  octets b -> b <> [] ->
  - 2 ^ (8 * Z.of_nat (length b) - 1) <= sval b < 2 ^ (8 * Z.of_nat (length b) - 1).
Proof.
  intros Hb Hn. destruct b as [|x r]; [congruence|]. apply octets_cons in Hb as [Hx Hr].
  pose proof (be_val_bound r Hr) as Br. unfold sval. cbn [be_val length].
  replace (8 * Z.of_nat (S (length r)) - 1) with (7 + 8 * Z.of_nat (length r)) by lia.
  rewrite Nat2Z.inj_succ, Z.pow_succ_r, Z.pow_add_r, <- pow256 by lia.
  unfold octet in Hx. change (2 ^ 7) with 128. set (p := 256 ^ Z.of_nat (length r)) in *.
  destruct (Z.leb_spec 128 x); nia.
Qed.

(** A canonical INTEGER of more than one octet does not fit one octet
    less. *)
Lemma canonical_bound b :
  octets b -> canonical b -> (2 <= length b)%nat ->
  sval b < - 2 ^ (8 * (Z.of_nat (length b) - 1) - 1) \/ 2 ^ (8 * (Z.of_nat (length b) - 1) - 1) <= sval b.
Proof.
  intros Hb Hc Hl. destruct b as [|b0 [|b1 r]]; simpl in Hl; try lia.
  apply octets_cons in Hb as [H0 Hb]. apply octets_cons in Hb as [H1 Hr].
  simpl in Hc. rewrite redundant_spec in Hc by assumption.
  pose proof (be_val_bound r Hr) as Br. unfold sval. cbn [be_val length].
  replace (8 * (Z.of_nat (S (S (length r))) - 1) - 1) with (7 + 8 * Z.of_nat (length r)) by lia.
  rewrite !Nat2Z.inj_succ, !Z.pow_succ_r, Z.pow_add_r, <- pow256 by lia.
  change (2 ^ 7) with 128. set (p := 256 ^ Z.of_nat (length r)) in *. unfold octet in *.
  destruct (Z.leb_spec 128 b0).
  - left. destruct (Z.eqb_spec b0 255) as [->|]; [|nia].
    destruct (Z.leb_spec 128 b1); cbn in Hc; [discriminate|nia].
  - right. destruct (Z.eqb_spec b0 0) as [->|]; [|nia].
    destruct (Z.ltb_spec b1 128); cbn in Hc; [discriminate|nia].
Qed.

Lemma pow2_le n m : 0 <= n <= m -> 2 ^ n <= 2 ^ m.
Proof. intros. apply Z.pow_le_mono_r; lia. Qed.

(** The number determines the canonical octets. *)
Lemma canonical_unique a b :
  octets a -> octets b -> canonical a -> canonical b -> sval a = sval b -> a = b.
Proof.
  intros Ha Hb Ca Cb E.
  assert (forall x, canonical x -> x <> []) as Hne by (intros [|]; simpl; [tauto|discriminate]).
  assert (length a = length b) as Hl.
  { destruct (Nat.lt_trichotomy (length a) (length b)) as [H|[H|H]]; [|exact H|]; exfalso.
    - pose proof (canonical_bound b Hb Cb). pose proof (sval_bound a Ha (Hne a Ca)).
      assert (length a <> 0)%nat by (destruct a; [now apply Hne in Ca|discriminate]).
      pose proof (pow2_le (8 * Z.of_nat (length a) - 1) (8 * (Z.of_nat (length b) - 1) - 1)). lia.
    - pose proof (canonical_bound a Ha Ca). pose proof (sval_bound b Hb (Hne b Cb)).
      assert (length b <> 0)%nat by (destruct b; [now apply Hne in Cb|discriminate]).
      pose proof (pow2_le (8 * Z.of_nat (length b) - 1) (8 * (Z.of_nat (length a) - 1) - 1)). lia. }
  apply be_val_inj; auto.
  pose proof (be_val_bound a Ha). pose proof (be_val_bound b Hb). rewrite Hl in *.
  destruct a as [|x a]; [now apply Hne in Ca|]. destruct b as [|y b]; [now apply Hne in Cb|].
  unfold sval in E. rewrite Hl in E.
  destruct (Z.leb_spec 128 x), (Z.leb_spec 128 y); lia.
Qed.

(** ** The conversion loops *)

Lemma fold_octets w b v :
  8 <= w -> octets b ->
  let fold := fold_left (fun value x => uwrap w (value ≪ 8) .| x) b v in
  uwrap w fold = uwrap w (v * 256 ^ Z.of_nat (length b) + be_val b) /\ (b <> [] -> uwrap w fold = fold).
Proof.
  intros Hw Hb. revert v. induction Hb as [|x b Hx Hb IH]; intros v; cbn [fold_left]; cbv zeta.
  { split; [|congruence]. f_equal. cbn. lia. }
  assert (2 ^ w = 2 ^ (w - 8) * 256) as Ew.
  { change 256 with (2 ^ 8). rewrite <- Z.pow_add_r by lia. f_equal. lia. }
  pose proof (pow2_pos (w - 8) ltac:(lia)) as Hp.
  assert (uwrap w (v ≪ 8) .| x = uwrap w (v * 256 + x)) as Ex.
  { unfold uwrap. rewrite Z.shiftl_mul_pow2 by lia. change (2 ^ 8) with 256.
    rewrite Ew, Z.mul_mod_distr_r by lia.
    rewrite <- (Z.shiftl_mul_pow2 _ 8) by lia. rewrite shift_or_octet by assumption.
    rewrite (Z.mod_eq (v * 256 + x)) by lia.
    replace ((v * 256 + x) / (2 ^ (w - 8) * 256)) with (v / 2 ^ (w - 8)).
    - rewrite (Z.mod_eq v) by lia. lia.
    - rewrite (Z.mul_comm (2 ^ (w - 8))), <- Z.div_div by lia. unfold octet in Hx.
      rewrite Z.div_add_l, (Z.div_small x) by lia. f_equal. lia. }
  rewrite Ex. destruct (IH (uwrap w (v * 256 + x))) as [E1 E2]. split.
  - rewrite E1. cbn [be_val length]. rewrite Nat2Z.inj_succ, Z.pow_succ_r by lia.
    unfold uwrap. rewrite Zplus_mod, Zmult_mod_idemp_l, <- Zplus_mod.
    f_equal. ring.
  - intros _. destruct b as [|y b]; [|apply E2; discriminate].
    cbn [fold_left]. unfold uwrap. apply Z.mod_mod. lia.
Qed.

Lemma swrap_add_mul w v k : 0 < w -> swrap w (v + k * 2 ^ w) = swrap w v.
Proof.
  intros Hw. rewrite <- (swrap_mod w (v + _)), <- (swrap_mod w v) by assumption.
  rewrite Z.mod_add by (pose proof (pow2_pos w); lia). reflexivity.
Qed.

Lemma sval_swrap b : octets b -> b <> [] -> sval b = swrap (8 * Z.of_nat (length b)) (be_val b).
Proof.
  intros Hb Hn. pose proof (sval_bound b Hb Hn) as B. destruct b as [|x r]; [congruence|].
  assert (0 < 8 * Z.of_nat (length (x :: r))) by (cbn [length]; lia).
  rewrite <- (swrap_small (8 * Z.of_nat (length (x :: r))) (sval (x :: r))) by assumption.
  unfold sval. rewrite pow256 by lia. destruct (128 <=? x).
  - rewrite <- (swrap_add_mul _ (_ - _) 1) by assumption. f_equal. lia.
  - f_equal. lia.
Qed.

Lemma be_val_nonneg_sval b : octets b -> 0 <= sval b -> b <> [] -> be_val b = sval b.
Proof.
  intros Hb Hs Hn. pose proof (be_val_bound b Hb). destruct b as [|x r]; [congruence|].
  unfold sval in *. destruct (128 <=? x); lia.
Qed.

Lemma sval_imax b : octets b -> (length b <= 8)%nat -> is_imax (sval b).
Proof.
  intros Hb Hl. unfold is_imax, INTMAX_MIN, INTMAX_MAX.
  destruct (decide (b = [])) as [->|Hn]; [cbn; lia|].
  assert (1 <= length b)%nat by (destruct b; [congruence|simpl; lia]).
  pose proof (sval_bound b Hb Hn). pose proof (pow2_le (8 * Z.of_nat (length b) - 1) 63). lia.
Qed.

(** The accumulation with sign initialization, in a type of width [w]. *)
Lemma convert_sval w b :
  8 <= w -> octets b -> b <> [] -> 8 * Z.of_nat (length b) <= w ->
  swrap w (fold_left (fun value x => uwrap w (value ≪ 8) .| x) b (if hd 0 b ≫ 7 =? 0 then 0 else 2 ^ w - 1)) = sval b.
Proof.
  intros Hw Hb Hn Hl.
  destruct (fold_octets w b (if hd 0 b ≫ 7 =? 0 then 0 else 2 ^ w - 1) Hw Hb) as [E1 E2].
  rewrite <- (E2 Hn), E1. unfold uwrap. rewrite swrap_mod by lia.
  pose proof (sval_bound b Hb Hn) as Hr. destruct b as [|x r]; [congruence|]. cbn [length] in Hl.
  pose proof (pow2_le (8 * Z.of_nat (length (x :: r)) - 1) (w - 1) ltac:(cbn [length]; lia)).
  rewrite <- (swrap_small w (sval (x :: r))) by lia.
  cbn [hd]. rewrite shift7, Z.ltb_antisym by now apply octets_cons in Hb. unfold sval.
  destruct (128 <=? x); cbn [negb]; [|f_equal; lia]. set (p := 256 ^ _).
  replace ((2 ^ w - 1) * p + be_val (x :: r)) with (be_val (x :: r) - p + p * 2 ^ w) by ring.
  apply swrap_add_mul. lia.
Qed.

Lemma integer_convert_sval b :
  octets b -> b <> [] -> (length b <= 8)%nat -> asn__integer_convert b = sval b.
Proof. intros Hb Hn Hl. apply (convert_sval 64); auto; lia. Qed.

Definition imax_b (v : Z) : bool := (INTMAX_MIN <=? v) && (v <=? INTMAX_MAX).

Lemma imax_b_true v : is_imax v -> imax_b v = true.
Proof. unfold is_imax, imax_b. lia. Qed.

(** The value of asn_INTEGER2imax. *)
Lemma INTEGER2imax_value b :
  octets b -> asn_INTEGER2imax (Some b) = if imax_b (sval b) then inr (sval b) else inl ERANGE.
Proof.
  intros Hb. unfold asn_INTEGER2imax, sizeof_intmax.
  assert (forall c, octets c -> sval c = sval b -> (length c <= 8)%nat ->
    match c with [] => inr 0 | _ => inr (asn__integer_convert c) end = if imax_b (sval b) then inr (sval b) else inl ERANGE) as Hfit.
  { intros c Hc E Hl. rewrite <- E, (imax_b_true _ (sval_imax c Hc Hl)).
    destruct c as [|x c]; [reflexivity|]. rewrite integer_convert_sval; auto. }
  destruct (Z.ltb_spec 8 (Z.of_nat (length b))) as [H8|H8].
  - destruct (Z.ltb_spec 8 (Z.of_nat (length (skip_redundant b)))) as [H8'|H8'].
    + assert (b <> []) as Hn by (intros ->; simpl in H8; lia).
      pose proof (canonical_bound (skip_redundant b) ltac:(auto with asn) (skip_redundant_canonical b Hn) ltac:(lia)) as Hbd.
      rewrite skip_redundant_sval in Hbd by assumption.
      pose proof (pow2_le 63 (8 * (Z.of_nat (length (skip_redundant b)) - 1) - 1)).
      unfold imax_b, INTMAX_MIN, INTMAX_MAX.
      destruct (Z.leb_spec (- 2 ^ 63) (sval b)), (Z.leb_spec (sval b) (2 ^ 63 - 1)); try reflexivity; lia.
    + apply Hfit; auto with asn; [now apply skip_redundant_sval|lia].
  - rewrite (proj2 (Z.ltb_ge _ _)) by lia. apply Hfit; auto. lia.
Qed.

Lemma sval_be_bytes v : is_imax v -> sval (be_bytes 8 v) = v.
Proof.
  unfold is_imax, INTMAX_MIN, INTMAX_MAX. intros Hv.
  rewrite sval_swrap by (auto with asn; discriminate). rewrite be_val_be_bytes, length_be_bytes.
  change (8 * Z.of_nat 8) with 64. rewrite swrap_mod, swrap_small by lia. reflexivity.
Qed.

(** What asn_imax2INTEGER stores. *)
Lemma imax2INTEGER_octets v :
  is_imax v ->
  let b := skip_redundant (be_bytes 8 v) in
  octets b /\ canonical b /\ sval b = v /\ (1 <= length b <= 8)%nat.
Proof.
  intros Hv b. destruct (skip_redundant_length (be_bytes 8 v)) as [H1 H2].
  split; [subst b; auto with asn|]. split; [apply skip_redundant_canonical; discriminate|].
  split; [subst b; rewrite skip_redundant_sval by auto with asn; now apply sval_be_bytes|].
  rewrite length_be_bytes in H1. fold b in H1, H2. specialize (H2 ltac:(discriminate)).
  destruct b; [congruence|]. simpl in *. lia.
Qed.

(** ** Unsigned *)

Lemma skip_zeroes_value b :
  octets b ->
  match skip_zeroes b with
  | Some c => octets c /\ be_val c = be_val b /\ (length c <= 8)%nat /\ be_val b <= UINTMAX_MAX
  | None => UINTMAX_MAX < be_val b
  end.
Proof.
  induction 1 as [|x b Hx Hb IH]; [change (skip_zeroes []) with (Some (@nil Z)); cbn [be_val length]; unfold UINTMAX_MAX; split_all; try lia; constructor|].
  cbn [skip_zeroes]. unfold sizeof_intmax. pose proof (be_val_bound (x :: b)) as B.
  assert (octets (x :: b)) as Hxb by now constructor. destruct (B Hxb) as [B0 B1]. clear B.
  destruct (Z.ltb_spec 8 (Z.of_nat (length (x :: b)))) as [H8|H8].
  - destruct (Z.eqb_spec x 0) as [->|Hx0]; [exact IH|].
    pose proof (be_val_bound b Hb). unfold UINTMAX_MAX, octet in *. cbn [be_val length] in *.
    rewrite pow256 by lia. pose proof (pow2_le 64 (8 * Z.of_nat (length b))). nia.
  - split_all; auto; [lia|]. rewrite pow256 in B1 by lia.
    pose proof (pow2_le (8 * Z.of_nat (length (x :: b))) 64). unfold UINTMAX_MAX. lia.
Qed.

Lemma INTEGER2umax_value b :
  octets b -> asn_INTEGER2umax (Some b) = if be_val b <=? UINTMAX_MAX then inr (be_val b) else inl ERANGE.
Proof.
  intros Hb. unfold asn_INTEGER2umax. pose proof (skip_zeroes_value b Hb) as H.
  destruct (skip_zeroes b) as [c|]; [|now rewrite (proj2 (Z.leb_gt _ _))].
  destruct H as (Hc & E & Hl & Hle). rewrite (proj2 (Z.leb_le _ _)) by assumption. f_equal.
  rewrite <- E. destruct (decide (c = [])) as [->|Hn]; [reflexivity|].
  destruct (fold_octets 64 c 0 ltac:(lia) Hc) as [E1 E2]. rewrite <- (E2 Hn), E1. apply uwrap_small.
  pose proof (be_val_bound c Hc). unfold UINTMAX_MAX in *. lia.
Qed.

(** What asn_umax2INTEGER stores for the numbers beyond [intmax_t]. *)
Lemma umax2INTEGER_octets v :
  INTMAX_MAX < v <= UINTMAX_MAX ->
  let b := 0 :: be_bytes 8 v in octets b /\ canonical b /\ sval b = v /\ be_val b = v.
Proof.
  intros Hv b. unfold INTMAX_MAX, UINTMAX_MAX in Hv.
  assert (octets b) as Hb by (subst b; apply octets_cons; split; [split; lia|auto with asn]).
  assert (be_val b = v) as Ev.
  { subst b. cbn [be_val]. rewrite be_val_be_bytes. change (8 * Z.of_nat 8) with 64. rewrite Z.mod_small; lia. }
  split_all; auto.
  - subst b. change (canonical (0 :: be_bytes 8 v)) with (redundant 0 (u8 (v ≫ (8 * Z.of_nat 7))) = false).
    rewrite redundant_spec by auto with asn. rewrite uwrap_small.
    + rewrite Z.shiftr_div_pow2 by lia. change (8 * Z.of_nat 7) with 56.
      assert (128 <= v / 2 ^ 56) by (apply Z.div_le_lower_bound; lia).
      rewrite (proj2 (Z.ltb_ge _ _)) by lia. reflexivity.
    + rewrite Z.shiftr_div_pow2 by lia. change (8 * Z.of_nat 7) with 56.
      split; [apply Z.div_pos; lia|apply Z.div_lt_upper_bound; lia].
  - rewrite <- Ev. unfold sval, b. cbn [Z.leb Z.compare]. lia.
Qed.

(** The results of the two stores, with an allocator that serves them. *)
Lemma imax2INTEGER_ok (A : Allocator) v :
  serves A 9 -> is_imax v ->
  exists b, asn_imax2INTEGER v = Some (Some b) /\ octets b /\ canonical b /\ sval b = v /\ (1 <= length b <= 8)%nat.
Proof.
  intros HA Hv. unfold asn_imax2INTEGER. rewrite HA by (unfold sizeof_intmax; lia).
  pose proof (imax2INTEGER_octets v Hv) as H. cbv zeta in H. eexists. split; [reflexivity|]. exact H.
Qed.

Lemma umax2INTEGER_ok (A : Allocator) v :
  serves A 9 -> is_umax v ->
  exists b, asn_umax2INTEGER v = Some (Some b) /\ octets b /\ canonical b /\ sval b = v /\ be_val b = v.
Proof.
  intros HA [Hv0 Hv1]. unfold asn_umax2INTEGER. change (UINTMAX_MAX ≫ 1) with INTMAX_MAX.
  destruct (Z.leb_spec v INTMAX_MAX) as [Hle|Hgt].
  - destruct (imax2INTEGER_ok A v HA) as (b & E & Hb & Cb & Es & Hl); [unfold is_imax, INTMAX_MIN; lia|].
    exists b. split_all; auto. rewrite be_val_nonneg_sval; auto; [lia|]. intros ->. exact Cb.
  - rewrite HA by (unfold sizeof_intmax; lia).
    pose proof (umax2INTEGER_octets v ltac:(lia)) as H. cbv zeta in H. eexists. split; [reflexivity|]. exact H.
Qed.

(** * Native integers *)

(** The number an INTEGER of a signed or unsigned field denotes. *)
Definition integer_number (unsigned : bool) (b : list Z) : Z := if unsigned then be_val b else sval b.

Lemma canonical_ne b : canonical b -> b <> [] /\ (Z.of_nat (length b) =? 0) = false.
Proof. destruct b as [|x b]; [intros []|]. split; [discriminate|]. apply Z.eqb_neq. simpl. lia. Qed.

Section NativeConversions.
Context {T : Target} {A : Allocator}.

(** The values of a [long], or of an [unsigned long] that intmax_t holds. *)
Definition native_ok (unsigned : bool) (v : Z) : Prop :=
  if unsigned then is_ulong v /\ v <= INTMAX_MAX else is_long v.

(** The INTEGER a native value is converted to. *)
Lemma native_INTEGER unsigned v :
  serves A 9 -> native_ok unsigned v ->
  let b := skip_redundant (be_bytes 8 v) in
  (if unsigned then asn_ulong2INTEGER (uwrap word_bits v) else asn_long2INTEGER v) = Some (Some b) /\
  octets b /\ canonical b /\ integer_number unsigned b = v /\ sval b = v /\ (length b <= 8)%nat.
Proof.
  intros HA Hv b. assert (is_imax v) as Hi.
  { unfold native_ok in Hv. destruct unsigned; [|now apply long_imax]. unfold is_imax, INTMAX_MIN. unfold is_ulong in Hv. lia. }
  destruct (imax2INTEGER_octets v Hi) as (Hb & Cb & Es & Hl). fold b in Hb, Cb, Es, Hl.
  assert (asn_imax2INTEGER v = Some (Some b)) as E.
  { unfold asn_imax2INTEGER. rewrite HA by (unfold sizeof_intmax; lia). reflexivity. }
  clearbody b. split; [|split; [exact Hb|split; [exact Cb|split; [|split; [exact Es|lia]]]]].
  - unfold asn_ulong2INTEGER, asn_long2INTEGER. destruct unsigned; [|exact E]. cbn in Hv.
    rewrite uwrap_small by (unfold is_ulong, ULONG_MAX in Hv; lia). rewrite swrap_small; [exact E|lia|].
    unfold is_ulong, INTMAX_MAX in Hv. lia.
  - unfold integer_number. destruct unsigned; [|exact Es]. cbn in Hv. unfold is_ulong in Hv.
    rewrite be_val_nonneg_sval; auto; [lia|]. now apply canonical_ne.
Qed.

(** The conversion back. *)
Lemma native_of_number unsigned b v :
  octets b -> native_ok unsigned v -> integer_number unsigned b = v ->
  (if unsigned then asn_INTEGER2ulong (Some b) else asn_INTEGER2long (Some b)) = inr v.
Proof.
  intros Hb Hv E. unfold native_ok, integer_number in *. destruct unsigned.
  - unfold asn_INTEGER2ulong. rewrite INTEGER2umax_value, E by assumption. destruct Hv as [Hv _].
    pose proof (ulong_umax _ Hv) as Hu. unfold is_umax, is_ulong in *.
    rewrite (proj2 (Z.leb_le _ _)), (proj2 (Z.ltb_ge _ _)) by lia. reflexivity.
  - unfold asn_INTEGER2long. rewrite INTEGER2imax_value, E, imax_b_true by (assumption || now apply long_imax).
    unfold is_long in Hv. now rewrite (proj2 (Z.ltb_ge _ _)), (proj2 (Z.ltb_ge _ _)) by lia.
Qed.
End NativeConversions.

(** * Searching an enumeration map *)

Definition ascending (l : list Z) : Prop :=
  forall i j, (i < j < length l)%nat -> nth i l 0 < nth j l 0.

Lemma bsearch_fuel_spec fuel key base lo hi :
  ascending base -> (hi <= length base)%nat -> (hi - lo < fuel)%nat ->
  (forall i, (i < lo)%nat -> (i < length base)%nat -> nth i base 0 < key) ->
  (forall i, (hi <= i < length base)%nat -> key < nth i base 0) ->
  match bsearch_fuel fuel INTEGER__compar_value2enum key base lo hi with
  | Some i => (i < length base)%nat /\ nth i base 0 = key
  | None => forall i, (i < length base)%nat -> nth i base 0 <> key
  end.
Proof.
  intros Hs. revert lo hi. induction fuel as [|fuel IH]; intros lo hi Hhi Hf Hlo Hup; [lia|].
  cbn [bsearch_fuel]. destruct (Nat.ltb_spec lo hi) as [Hlt|Hge].
  2: { intros i Hi E. destruct (Nat.lt_ge_cases i lo); [specialize (Hlo i)|specialize (Hup i)]; lia. }
  assert (lo <= Nat.div2 (lo + hi) < hi)%nat as Hmid.
  { rewrite Nat.div2_div. pose proof (Nat.div_mod_eq (lo + hi) 2). pose proof (Nat.mod_upper_bound (lo + hi) 2 ltac:(lia)). lia. }
  set (mid := Nat.div2 (lo + hi)) in *. cbv zeta.
  remember (INTEGER__compar_value2enum key (nth mid base 0)) as c eqn:Ec. unfold INTEGER__compar_value2enum in Ec.
  destruct (Z.ltb_spec key (nth mid base 0)); [|destruct (Z.eqb_spec key (nth mid base 0))]; subst c;
    cbn [Z.ltb Z.compare].
  - apply IH; try lia; [assumption|]. intros i Hi.
    destruct (Nat.eq_dec i mid) as [->|]; [assumption|]. pose proof (Hs mid i). lia.
  - split; [lia|congruence].
  - apply IH; try lia; [|assumption]. intros i Hi Hl.
    destruct (Nat.eq_dec i mid) as [->|]; [lia|]. pose proof (Hs i mid). lia.
Qed.

(** bsearch finds the element when there is one. *)
Lemma bsearch_spec key base :
  ascending base ->
  match bsearch INTEGER__compar_value2enum key base with
  | Some i => (i < length base)%nat /\ nth i base 0 = key
  | None => forall i, (i < length base)%nat -> nth i base 0 <> key
  end.
Proof. intros Hs. apply bsearch_fuel_spec; auto; lia. Qed.

Lemma ascending_inj l i j :
  ascending l -> (i < length l)%nat -> (j < length l)%nat -> nth i l 0 = nth j l 0 -> i = j.
Proof.
  intros Hs Hi Hj E. destruct (Nat.lt_trichotomy i j) as [H|[H|H]]; [|exact H|].
  - pose proof (Hs i j). lia.
  - pose proof (Hs j i). lia.
Qed.

Lemma bsearch_nth base i :
  ascending base -> (i < length base)%nat -> bsearch INTEGER__compar_value2enum (nth i base 0) base = Some i.
Proof.
  intros Hs Hi. pose proof (bsearch_spec (nth i base 0) base Hs) as H.
  destruct (bsearch _ _ _) as [j|]; [|now specialize (H i Hi)].
  f_equal. apply (ascending_inj base); tauto.
Qed.

(** * Decimal text *)

Fixpoint decimal (value : Z) (ds : list Z) : Z :=
  match ds with [] => value | c :: ds' => decimal (value * 10 + (c - 48)) ds' end.

Definition digits (ds : list Z) : Prop := Forall (fun c => is_digit c = true) ds.

(** What may follow the digits: nothing, or another character. *)
Definition no_digit_next (tl : list Z) : Prop :=
  match tl with [] => True | c :: _ => is_digit c = false end.

Definition end_code (tl : list Z) : asn_strtox_result :=
  match tl with [] => ASN_STRTOX_OK | _ => ASN_STRTOX_EXTRA_DATA end.

Lemma is_digit_bound c : is_digit c = true -> 0 <= c - 48 <= 9.
Proof. unfold is_digit. lia. Qed.

Lemma decimal_ge value ds : 0 <= value -> digits ds -> value <= decimal value ds.
Proof.
  intros Hv Hd. revert value Hv. induction Hd as [|c ds Hc Hd IH]; intros value Hv; cbn [decimal]; [lia|].
  apply is_digit_bound in Hc. specialize (IH (value * 10 + (c - 48))). lia.
Qed.

Lemma strtox_loop_spec upper last ds tl pos sign value :
  0 < upper -> 0 <= last <= 9 -> (sign = 1 \/ sign = -1) -> digits ds -> no_digit_next tl ->
  0 <= value <= upper * 10 + last ->
  let total := decimal value ds in
  if total <=? upper * 10 + last
  then strtox_loop upper last (ds ++ tl) pos sign value =
         (end_code tl, pos + Z.of_nat (length ds), Some (sign * total))
  else exists e, strtox_loop upper last (ds ++ tl) pos sign value = (ASN_STRTOX_ERROR_RANGE, e, None).
Proof.
  intros Hu Hla Hs Hd Ht. revert pos value.
  induction Hd as [|c ds Hc Hd IH]; intros pos value Hv; cbn [decimal app strtox_loop length]; cbv zeta.
  - rewrite (proj2 (Z.leb_le _ _)) by lia. destruct tl as [|c tl]; cbn [strtox_loop].
    + do 2 f_equal. lia.
    + simpl in Ht. rewrite Ht. do 2 f_equal. lia.
  - rewrite Hc. pose proof (is_digit_bound c Hc) as Hb. set (v' := value * 10 + (c - 48)).
    pose proof (decimal_ge v' ds ltac:(subst v'; lia) Hd) as Hge.
    destruct (Z.ltb_spec value upper) as [Hlt|Hge'].
    + specialize (IH (pos + 1) v' ltac:(subst v'; lia)). cbv zeta in IH.
      replace (pos + Z.of_nat (S (length ds))) with (pos + 1 + Z.of_nat (length ds)) by lia. exact IH.
    + destruct (Z.eqb_spec value upper) as [->|Hne].
      * destruct (Z.leb_spec (c - 48) last) as [Hl|Hl].
        -- destruct ds as [|c' ds].
           ++ cbn [decimal app length] in *. subst v'. rewrite (proj2 (Z.leb_le _ _)) by lia.
              assert ((if 0 <? sign then sign else 1) * (if 0 <? sign then upper * 10 + (c - 48) else - upper * 10 - (c - 48))
                      = sign * (upper * 10 + (c - 48))) as E by (destruct Hs as [-> | ->]; cbn [Z.ltb Z.compare]; ring).
              rewrite E. destruct tl as [|t tl]; [reflexivity|]. simpl in Ht. rewrite Ht. reflexivity.
           ++ apply Forall_cons_iff in Hd as [Hc' Hd]. cbn [app]. rewrite Hc'.
              cbn [decimal] in *. apply is_digit_bound in Hc'.
              pose proof (decimal_ge (v' * 10 + (c' - 48)) ds ltac:(subst v'; lia) Hd).
              rewrite (proj2 (Z.leb_gt _ _)) by (subst v'; lia). eauto.
        -- rewrite (proj2 (Z.leb_gt _ _)) by (subst v'; lia). eauto.
      * rewrite (proj2 (Z.leb_gt _ _)) by (subst v'; lia). eauto.
Qed.

(** * Comparison *)

Lemma memcmp_sgn a b :
  octets a -> octets b -> length a = length b -> memcmp a b = Z.sgn (be_val a - be_val b).
Proof.
  intros Ha. revert b. induction Ha as [|x a Hx Ha IH]; intros [|y b] Hb Hl; try discriminate; [reflexivity|].
  apply octets_cons in Hb as [Hy Hb]. injection Hl as Hl. cbn [memcmp be_val]. rewrite Hl.
  pose proof (be_val_bound a Ha) as Ba. pose proof (be_val_bound b Hb) as Bb. rewrite Hl in Ba.
  pose proof (Z.pow_pos_nonneg 256 (Z.of_nat (length b)) ltac:(lia) ltac:(lia)).
  destruct (Z.ltb_spec x y); [|destruct (Z.ltb_spec y x)].
  - symmetry. apply Z.sgn_neg. nia.
  - symmetry. apply Z.sgn_pos. nia.
  - assert (x = y) as -> by lia. rewrite IH by assumption. f_equal. lia.
Qed.

Lemma sval_sign x r : octets (x :: r) -> (sval (x :: r) <? 0) = negb (x .& 128 =? 0).
Proof.
  intros H. apply octets_cons in H as [Hx Hr]. rewrite land128 by assumption.
  pose proof (be_val_bound r Hr) as Br. unfold sval. cbn [be_val length].
  rewrite Nat2Z.inj_succ, Z.pow_succ_r by lia. unfold octet in Hx. set (p := 256 ^ Z.of_nat (length r)) in *.
  destruct (Z.leb_spec 128 x), (Z.ltb_spec x 128); cbn [negb]; try nia.
Qed.


(** The sign and magnitude tests of INTEGER_compare on canonical INTEGERs. *)
Lemma canonical_longer a b :
  octets a -> octets b -> canonical a -> canonical b -> (length a < length b)%nat ->
  if sval b <? 0 then sval b < sval a else sval a < sval b.
Proof.
  intros Ha Hb Ca Cb Hl.
  assert (a <> []) as Hn by (intros ->; exact Ca).
  assert (1 <= length a)%nat by (destruct a; [congruence|simpl; lia]).
  pose proof (canonical_bound b Hb Cb ltac:(lia)). pose proof (sval_bound a Ha Hn).
  pose proof (pow2_le (8 * Z.of_nat (length a) - 1) (8 * (Z.of_nat (length b) - 1) - 1) ltac:(lia)).
  pose proof (pow2_pos (8 * (Z.of_nat (length b) - 1) - 1) ltac:(lia)).
  destruct (Z.ltb_spec (sval b) 0); lia.
Qed.

Lemma sval_be_diff a b :
  a <> [] -> b <> [] -> length a = length b -> octets a -> octets b ->
  (sval a <? 0) = (sval b <? 0) -> sval a - sval b = be_val a - be_val b.
Proof.
  intros Na Nb Hl Ha Hb Hs. destruct a as [|x a]; [congruence|]. destruct b as [|y b]; [congruence|].
  rewrite !sval_sign in Hs by assumption. apply octets_cons in Ha as [Hx _]. apply octets_cons in Hb as [Hy _].
  rewrite !land128, !Z.ltb_antisym, !negb_involutive in Hs by assumption.
  unfold sval. rewrite Hs, Hl. lia.
Qed.

Lemma sign_octet_spec b :
  octets b -> canonical b -> sign_octet (Some b) = Some (if sval b <? 0 then -1 else 1).
Proof.
  destruct b as [|x b]; [intros _ []|]. intros Hb _. rewrite sval_sign by assumption.
  unfold sign_octet. now destruct (x .& 128 =? 0).
Qed.

Lemma INTEGER_compare_value a b :
  octets a -> octets b -> canonical a -> canonical b ->
  INTEGER_compare (Some (Some a)) (Some (Some b)) =
    Some (if (sval a <? 0) && (sval b <? 0) && (length a =? length b)%nat
          then Z.sgn (sval b - sval a) else Z.sgn (sval a - sval b)).
Proof.
  intros Ha Hb Ca Cb. destruct (canonical_ne a Ca) as [Na Za], (canonical_ne b Cb) as [Nb Zb].
  unfold INTEGER_compare, INTEGER_size. rewrite Za, Zb, !sign_octet_spec by assumption.
  cbn [negb andb mbind option_bind].
  pose proof (canonical_longer a b Ha Hb Ca Cb) as L1. pose proof (canonical_longer b a Hb Ha Cb Ca) as L2.
  pose proof (fun E => sval_be_diff a b Na Nb E Ha Hb) as Ld. pose proof (memcmp_sgn a b Ha Hb) as Lm.
  cbn [default from_option id].
  destruct (Z.ltb_spec (sval a) 0) as [Sa|Sa], (Z.ltb_spec (sval b) 0) as [Sb|Sb];
    cbn [Z.ltb Z.compare Pos.compare Pos.compare_cont andb];
    try (f_equal; symmetry; (apply Z.sgn_neg || apply Z.sgn_pos); lia).
  all: destruct (Nat.eqb_spec (length a) (length b)) as [E|E];
    [rewrite (proj2 (Z.ltb_ge (Z.of_nat (length a)) _)), (proj2 (Z.ltb_ge (Z.of_nat (length b)) _)),
       Lm, <- (Ld E) by (reflexivity || assumption || lia); f_equal; lia|].
  all: destruct (Z.ltb_spec (Z.of_nat (length a)) (Z.of_nat (length b)));
    [|destruct (Z.ltb_spec (Z.of_nat (length b)) (Z.of_nat (length a))); [|lia]];
    f_equal; symmetry; (apply Z.sgn_neg || apply Z.sgn_pos); lia.
Qed.

(** * Properties *)

(** The conversions to C integers: for every octet string of any length,
    asn_INTEGER2imax yields the two's complement number exactly when it fits
    intmax_t and fails with ERANGE otherwise, whatever insignificant leading
    octets there are; asn_INTEGER2long does the same for the [long] of the
    target; asn_INTEGER2umax and asn_INTEGER2ulong do it for the unsigned
    number of the octets.  A NULL buffer is EINVAL. *)
Theorem INTEGER_to_native {T : Target} b :
  octets b ->
  asn_INTEGER2imax (Some b) = (if imax_b (sval b) then inr (sval b) else inl ERANGE) /\
  asn_INTEGER2long (Some b) = (if (LONG_MIN <=? sval b) && (sval b <=? LONG_MAX) then inr (sval b) else inl ERANGE) /\
  asn_INTEGER2umax (Some b) = (if be_val b <=? UINTMAX_MAX then inr (be_val b) else inl ERANGE) /\
  asn_INTEGER2ulong (Some b) = (if be_val b <=? ULONG_MAX then inr (be_val b) else inl ERANGE) /\
  asn_INTEGER2imax None = inl EINVAL /\ asn_INTEGER2umax None = inl EINVAL.
Proof.
  intros Hb. unfold asn_INTEGER2long, asn_INTEGER2ulong.
  rewrite INTEGER2imax_value, INTEGER2umax_value by assumption.
  split; [reflexivity|]. split.
  - pose proof (long_imax (T := T) (sval b)) as Hl. unfold is_long, is_imax in Hl. unfold imax_b.
    destruct (Z.leb_spec INTMAX_MIN (sval b)), (Z.leb_spec (sval b) INTMAX_MAX),
      (Z.leb_spec LONG_MIN (sval b)), (Z.leb_spec (sval b) LONG_MAX); cbn [andb];
      try reflexivity; try lia; destruct (Z.ltb_spec (sval b) LONG_MIN), (Z.ltb_spec LONG_MAX (sval b)); cbn [orb];
      reflexivity || lia.
  - split; [reflexivity|]. split; [|split; reflexivity].
    assert (ULONG_MAX <= UINTMAX_MAX) as Hm
      by (unfold ULONG_MAX, UINTMAX_MAX; destruct word_bits_cases as [-> | ->]; lia).
    destruct (Z.leb_spec (be_val b) UINTMAX_MAX), (Z.leb_spec (be_val b) ULONG_MAX); try lia;
      try (rewrite (proj2 (Z.ltb_lt _ _)) by lia); try (rewrite (proj2 (Z.ltb_ge _ _)) by lia); reflexivity.
Qed.

Lemma INTEGER_to_native_witness :
  let b := [255; 255; 255; 127; 1; 2; 3; 4; 5; 6] in
  octets b /\
  asn_INTEGER2imax (Some b) = (if imax_b (sval b) then inr (sval b) else inl ERANGE) /\
  @asn_INTEGER2long ILP32 (Some b) =
    (if (@LONG_MIN ILP32 <=? sval b) && (sval b <=? @LONG_MAX ILP32) then inr (sval b) else inl ERANGE) /\
  asn_INTEGER2umax (Some b) = (if be_val b <=? UINTMAX_MAX then inr (be_val b) else inl ERANGE) /\
  @asn_INTEGER2ulong ILP32 (Some b) = (if be_val b <=? @ULONG_MAX ILP32 then inr (be_val b) else inl ERANGE) /\
  asn_INTEGER2imax None = inl EINVAL /\ asn_INTEGER2umax None = inl EINVAL.
Proof.
  assert (octets [255; 255; 255; 127; 1; 2; 3; 4; 5; 6]) as H by (repeat constructor; lia).
  split; [exact H|]. exact (@INTEGER_to_native ILP32 _ H).
Defined.

(** Storing C integers: for every intmax_t, asn_imax2INTEGER builds
    octets that denote the number, are the shortest that do, and convert
    back to it; the same holds for every uintmax_t and asn_umax2INTEGER. *)
Theorem INTEGER_store_roundtrip (A : Allocator) v :
  serves A 9 ->
  (is_imax v -> exists b, asn_imax2INTEGER v = Some (Some b) /\ octets b /\ sval b = v /\
     asn_INTEGER2imax (Some b) = inr v /\ (forall c, octets c -> c <> [] -> sval c = v -> (length b <= length c)%nat)) /\
  (is_umax v -> exists b, asn_umax2INTEGER v = Some (Some b) /\ octets b /\ sval b = v /\
     asn_INTEGER2umax (Some b) = inr v /\ (forall c, octets c -> c <> [] -> sval c = v -> (length b <= length c)%nat)).
Proof.
  intros HA.
  assert (forall b, octets b -> canonical b -> forall c, octets c -> c <> [] -> sval c = sval b -> (length b <= length c)%nat) as Hmin.
  { intros b Hb Cb c Hc Hn E. rewrite (canonical_unique b (skip_redundant c)); auto with asn.
    - apply skip_redundant_length.
    - now apply skip_redundant_canonical.
    - now rewrite skip_redundant_sval. }
  split; intros Hv.
  - destruct (imax2INTEGER_ok A v HA Hv) as (b & E & Hb & Cb & Es & _). exists b. split_all; auto.
    + rewrite INTEGER2imax_value, Es, imax_b_true by assumption. reflexivity.
    + intros c Hc Hn Ec. apply Hmin; auto. congruence.
  - destruct (umax2INTEGER_ok A v HA Hv) as (b & E & Hb & Cb & Es & Eu). exists b. split_all; auto.
    + rewrite INTEGER2umax_value, Eu by assumption. destruct Hv. now rewrite (proj2 (Z.leb_le _ _)) by lia.
    + intros c Hc Hn Ec. apply Hmin; auto. congruence.
Qed.

Lemma INTEGER_store_roundtrip_witness :
  let A : Allocator := vanetza_asn1c_malloc (fun _ => true) in
  let v := 2 ^ 63 + 5 in
  (is_imax v -> exists b, asn_imax2INTEGER v = Some (Some b) /\ octets b /\ sval b = v /\
     asn_INTEGER2imax (Some b) = inr v /\ (forall c, octets c -> c <> [] -> sval c = v -> (length b <= length c)%nat)) /\
  (is_umax v -> exists b, asn_umax2INTEGER v = Some (Some b) /\ octets b /\ sval b = v /\
     asn_INTEGER2umax (Some b) = inr v /\ (forall c, octets c -> c <> [] -> sval c = v -> (length b <= length c)%nat)).
Proof.
  apply (INTEGER_store_roundtrip (vanetza_asn1c_malloc (fun _ => true)) (2 ^ 63 + 5)).
  intros m Hm. unfold malloc_ok, vanetza_asn1c_malloc, max_size.
  now rewrite (proj2 (Z.leb_le m 4096)) by lia.
Defined.

(** asn_ulong2INTEGER stores through intmax_t: an unsigned long below
    2^63 survives the way back through asn_INTEGER2ulong, on every target;
    from 2^63 on (64-bit targets) the stored INTEGER denotes the number minus
    2^64, and ULONG_MAX comes back as 255. *)
Theorem ulong_store {T : Target} (A : Allocator) v :
  serves A 8 -> is_ulong v ->
  exists b, asn_ulong2INTEGER v = Some (Some b) /\ octets b /\ sval b = s64 v /\
    (v <= INTMAX_MAX -> sval b = v /\ asn_INTEGER2ulong (Some b) = inr v) /\
    (INTMAX_MAX < v -> sval b = v - 2 ^ 64 /\ (v = UINTMAX_MAX -> asn_INTEGER2ulong (Some b) = inr 255)).
Proof.
  intros HA Hv. unfold asn_ulong2INTEGER, asn_imax2INTEGER. rewrite HA by (unfold sizeof_intmax; lia).
  pose proof (ulong_umax _ Hv) as Hu.
  assert (is_imax (s64 v)) as Hi.
  { unfold is_imax, INTMAX_MIN, INTMAX_MAX. pose proof (swrap_bound 64 v ltac:(lia)). lia. }
  destruct (imax2INTEGER_octets _ Hi) as (Hb & Cb & Es & Hl).
  remember (skip_redundant (be_bytes 8 (s64 v))) as b eqn:Eb. exists b. split; [reflexivity|].
  split; [exact Hb|]. split; [exact Es|]. unfold is_umax, UINTMAX_MAX, INTMAX_MAX in *. split; intros Hc.
  - rewrite swrap_small in Es by lia. split; [exact Es|]. unfold asn_INTEGER2ulong.
    assert (b <> []) as Hn by (intros ->; exact Cb).
    rewrite INTEGER2umax_value, be_val_nonneg_sval, Es by (assumption || lia).
    unfold UINTMAX_MAX. rewrite (proj2 (Z.leb_le _ _)) by lia. unfold is_ulong in Hv.
    now rewrite (proj2 (Z.ltb_ge _ _)) by lia.
  - split.
    + rewrite Es. rewrite <- (swrap_add_mul 64 v (-1)) by lia. apply swrap_small; lia.
    + intros Ev. assert (b = [255]) as -> by (rewrite Eb, Ev; vm_compute; reflexivity).
      unfold asn_INTEGER2ulong. change (asn_INTEGER2umax _) with (@inr errno Z 255). cbv beta iota.
      unfold is_ulong in Hv. now rewrite (proj2 (Z.ltb_ge _ _)) by lia.
Qed.

Lemma ulong_store_witness :
  serves (fun _ => true) 8 /\ @is_ulong LP64 UINTMAX_MAX /\
  exists b, @asn_ulong2INTEGER (fun _ => true) UINTMAX_MAX = Some (Some b) /\ octets b /\ sval b = s64 UINTMAX_MAX /\
    (UINTMAX_MAX <= INTMAX_MAX -> sval b = UINTMAX_MAX /\ @asn_INTEGER2ulong LP64 (Some b) = inr UINTMAX_MAX) /\
    (INTMAX_MAX < UINTMAX_MAX -> sval b = UINTMAX_MAX - 2 ^ 64 /\
       (UINTMAX_MAX = UINTMAX_MAX -> @asn_INTEGER2ulong LP64 (Some b) = inr 255)).
Proof.
  split; [intros ? _; reflexivity|]. split; [unfold is_ulong, ULONG_MAX, UINTMAX_MAX; cbn; lia|].
  apply (@ulong_store LP64 (fun _ => true) UINTMAX_MAX); [intros ? _; reflexivity|].
  unfold is_ulong, ULONG_MAX, UINTMAX_MAX; cbn; lia.
Defined.

(** INTEGER_compare on INTEGERs without insignificant octets orders
    them as the numbers they denote, with one exception: two negative
    INTEGERs of the same length are ordered in reverse.  Comparing an
    INTEGER without octets to one with octets reads the first octet of the
    empty one.  A copy made by INTEGER_copy compares equal. *)
Theorem INTEGER_compare_order {T : Target} (A : Allocator) a b :
  octets a -> octets b -> canonical a -> canonical b ->
  serves A (Z.max 16 (Z.of_nat (length a))) ->
  INTEGER_compare (Some (Some a)) (Some (Some b)) =
    Some (if (sval a <? 0) && (sval b <? 0) && (length a =? length b)%nat
          then Z.sgn (sval b - sval a) else Z.sgn (sval a - sval b)) /\
  INTEGER_compare (Some (Some [])) (Some (Some b)) = None /\
  exists c, INTEGER_copy None (Some (Some a)) = (0, Some c) /\
    INTEGER_compare (Some c) (Some (Some a)) = Some 0.
Proof.
  intros Ha Hb Ca Cb HA. split; [now apply INTEGER_compare_value|]. split.
  - unfold INTEGER_compare, INTEGER_size. rewrite (proj2 (canonical_ne b Cb)). reflexivity.
  - exists (Some a). split.
    + unfold INTEGER_copy, INTEGER_size. rewrite (proj2 (canonical_ne a Ca)). cbn [negb from_option id].
      pose proof sizeof_word_cases.
      rewrite !HA by lia. reflexivity.
    + rewrite INTEGER_compare_value, Z.sub_diag by assumption. now destruct (_ && _).
Qed.

Lemma INTEGER_compare_order_witness :
  INTEGER_compare (Some (Some [254])) (Some (Some [255])) =
    Some (if (sval [254] <? 0) && (sval [255] <? 0) && (length [254] =? length [255])%nat
          then Z.sgn (sval [255] - sval [254]) else Z.sgn (sval [254] - sval [255])) /\
  INTEGER_compare (Some (Some [])) (Some (Some [255])) = None /\
  exists c, @INTEGER_copy LP64 (fun _ => true) None (Some (Some [254])) = (0, Some c) /\
    INTEGER_compare (Some c) (Some (Some [254])) = Some 0.
Proof.
  apply (@INTEGER_compare_order LP64 (fun _ => true) [254] [255]);
    [repeat constructor; lia|repeat constructor; lia|exact I|exact I|intros ? _; reflexivity].
Defined.

(** What follows an optional sign. *)
Definition sign_prefix (sign : Z) (explicit : bool) : list Z :=
  if sign =? -1 then [45] else if explicit then [43] else [].

Lemma digits_no_sign d ds tl : digits (d :: ds) -> exists rest, (d :: ds) ++ tl = d :: rest /\ 48 <= d <= 57.
Proof. intros H. apply Forall_cons_iff in H as [H _]. unfold is_digit in H. exists (ds ++ tl). split; [reflexivity|lia]. Qed.

Lemma strtoimax_dispatch sign explicit ds tl :
  (sign = 1 \/ sign = -1) -> digits ds -> ds <> [] ->
  asn_strtoimax_lim (sign_prefix sign explicit ++ ds ++ tl) =
    strtox_loop (INTMAX_MAX / 10) (if sign =? -1 then INTMAX_MAX mod 10 + 1 else INTMAX_MAX mod 10)
      (ds ++ tl) (Z.of_nat (length (sign_prefix sign explicit))) sign 0.
Proof.
  intros Hs Hd Hn. destruct ds as [|d ds]; [congruence|].
  destruct (digits_no_sign d ds tl Hd) as (rest & -> & Hr).
  destruct Hs as [-> | ->]; [|reflexivity]. cbn [Z.eqb Pos.eqb sign_prefix app].
  destruct explicit; [reflexivity|]. cbn [app length].
  assert (d = 48 \/ d = 49 \/ d = 50 \/ d = 51 \/ d = 52 \/ d = 53 \/ d = 54 \/ d = 55 \/ d = 56 \/ d = 57) as Hc by lia.
  repeat destruct Hc as [-> |Hc]; try subst d; reflexivity.
Qed.

(** asn_strtoimax_lim on an optional sign, digits and what follows
    them: the number the digits denote when it fits intmax_t, INTMAX_MIN
    included, with the end pointer behind the digits and the code telling
    whether text follows; a range error otherwise, and never a wrapped
    number. *)
Theorem asn_strtoimax_lim_decimal sign explicit ds tl :
  (sign = 1 \/ sign = -1) -> digits ds -> ds <> [] -> no_digit_next tl ->
  let str := sign_prefix sign explicit ++ ds ++ tl in
  let v := sign * decimal 0 ds in
  if imax_b v
  then asn_strtoimax_lim str = (end_code tl, Z.of_nat (length (sign_prefix sign explicit ++ ds)), Some v)
  else exists e, asn_strtoimax_lim str = (ASN_STRTOX_ERROR_RANGE, e, None).
Proof.
  intros Hs Hd Hn Ht str v. subst str. rewrite strtoimax_dispatch by assumption.
  set (last := if sign =? -1 then _ else _).
  pose proof (strtox_loop_spec (INTMAX_MAX / 10) last ds tl (Z.of_nat (length (sign_prefix sign explicit))) sign 0) as H.
  assert (last = if sign =? -1 then 8 else 7) as El by reflexivity.
  change (INTMAX_MAX / 10) with 922337203685477580 in *. cbv zeta in H.
  pose proof (decimal_ge 0 ds ltac:(lia) Hd).
  rewrite length_app, Nat2Z.inj_add.
  assert ((decimal 0 ds <=? 922337203685477580 * 10 + last) = imax_b v) as <-.
  { unfold imax_b, v, INTMAX_MIN, INTMAX_MAX. rewrite El. destruct Hs as [-> | ->]; cbn [Z.eqb Pos.eqb]; lia. }
  assert (7 <= last <= 8) by (rewrite El; destruct (sign =? -1); lia). apply H; auto; lia.
Qed.

Lemma asn_strtoimax_lim_decimal_witness :
  let ds := [57; 50; 50; 51; 51; 55; 50; 48; 51; 54; 56; 53; 52; 55; 55; 53; 56; 48; 56] in
  let str := sign_prefix (-1) false ++ ds ++ [32] in
  let v := -1 * decimal 0 ds in
  if imax_b v
  then asn_strtoimax_lim str = (end_code [32], Z.of_nat (length (sign_prefix (-1) false ++ ds)), Some v)
  else exists e, asn_strtoimax_lim str = (ASN_STRTOX_ERROR_RANGE, e, None).
Proof.
  apply (asn_strtoimax_lim_decimal (-1) false
    [57; 50; 50; 51; 51; 55; 50; 48; 51; 54; 56; 53; 52; 55; 55; 53; 56; 48; 56] [32]).
  - right. reflexivity.
  - repeat constructor.
  - discriminate.
  - reflexivity.
Defined.
