(* ===== verification/IntegerUper.v ===== *)
(** UPER of INTEGER, ENUMERATED, BOOLEAN and NULL: INTEGER_uper.c,
    NativeInteger_uper.c, NativeEnumerated_uper.c, ENUMERATED_uper.c,
    BOOLEAN_uper.c and NULL_uper.c under vanetza/asn1/support/.

    [uper_integer_bits] are the bits the code gives an INTEGER, which the
    encoder is shown to write and the decoder to read back, for constrained,
    semi-constrained, unconstrained and extended values; [x691_integer] is
    what the standard demands, independent of the code.  The two agree but
    for octets that are longer than necessary, see [standard_octets]. *)

From S2P Require Import Prelude Runtime Constraints BitData BitOutp UperSupport Integer.

(** * INTEGER *)

Section IntegerDecode.
Context {T : Target} {A : Allocator}.

Definition sizeof_INTEGER_t : Z := 2 * sizeof_word.

(** [if(!st) st = *sptr = CALLOC(1, size)] *)
Definition have_struct {X} (sptr : option X) (size : Z) : bool :=
  match sptr with Some _ => true | None => malloc_ok size end.

(** The fragments of an unconstrained number, appended to [buf]. *)
Fixpoint integer_fragments (fuel : nat) (pd : asn_bit_data) (buf : list Z) :
    (asn_dec_rval (list Z)) * asn_bit_data :=
  match fuel with
  | O => (DECODE_FAILED, pd)
  | S fuel' =>
      let '((len, repeat), pd) := uper_get_length pd (-1) 0 in
      if len <? 0 then (DECODE_STARVED, pd) else
      if negb (malloc_ok (Z.of_nat (length buf) + len + 1)) then (DECODE_FAILED, pd) else
      let '(got, pd) := asn_get_many_bits pd false (8 * len) in
      match got with
      | None => (DECODE_STARVED, pd)
      | Some bs =>
          if repeat then integer_fragments fuel' pd (buf ++ bs) else (RC_OK 0 (buf ++ bs), pd)
      end
  end.

(** Every fragment but the last takes at least one octet of the stream. *)
Definition fragments_fuel (pd : asn_bit_data) : nat := S (Z.to_nat (nbits pd - nboff pd)).

Definition stored (v : option INTEGER_t) : asn_dec_rval INTEGER_t :=
  match v with Some st => RC_OK 0 st | None => DECODE_FAILED end.

(** The constrained whole number of INTEGER_decode_uper. *)
Definition integer_decode_constrained (unsigned : bool) (ct : asn_per_constraint) (pd : asn_bit_data) :
    asn_dec_rval INTEGER_t * asn_bit_data :=
  if 8 * sizeof_intmax <? range_bits ct then (DECODE_FAILED, pd) else
  let '(uvalue, pd) := uper_get_constrained_whole_number pd (range_bits ct) in
  match uvalue with
  | None => (DECODE_STARVED, pd)
  | Some uvalue =>
      if unsigned then
        let uvalue := u64 (uvalue + lower_bound ct) in
        if u64 (upper_bound ct) <? uvalue then (DECODE_FAILED, pd)
        else (stored (asn_umax2INTEGER uvalue), pd)
      else
        match per_imax_range_unrebase uvalue (lower_bound ct) (upper_bound ct) with
        | None => (DECODE_FAILED, pd)
        | Some svalue => (stored (asn_imax2INTEGER svalue), pd)
        end
  end.

(** The canonical check of an unconstrained or extended number: false when
    the octets are refused. *)
Definition minimal_check (ctx : option asn_codec_ctx) (buf : list Z) : bool :=
  match ctx, buf with
  | Some c, b0 :: b1 :: _ => negb (uper_canonical c && redundant b0 b1) || uper_canonical_lenient c
  | _, _ => true
  end.

(** INTEGER_decode_uper behind the extension bit, [ct] being nothing for an
    extended value. *)
Definition integer_decode_body (ctx : option asn_codec_ctx) (unsigned : bool) (ct : option asn_per_constraint)
    (pd : asn_bit_data) : asn_dec_rval INTEGER_t * asn_bit_data :=
  match ct with
  | Some c =>
      let semi := has c APC_SEMI_CONSTRAINED in
      if semi && negb (malloc_ok 2) then (DECODE_FAILED, pd)
      else if negb semi && has c APC_CONSTRAINED && (0 <=? range_bits c)
              && negb (malloc_ok (1 + (range_bits c + 7) ≫ 3 + 1)) then (DECODE_FAILED, pd)
      else if negb (flags c =? APC_UNCONSTRAINED) && (0 <=? range_bits c) then
        integer_decode_constrained unsigned c pd
      else
        let '(r, pd) := integer_fragments (fragments_fuel pd) pd (if semi then [0] else []) in
        match r with
        | RC_OK _ buf =>
            if negb (lower_bound c =? 0) then
              match asn_INTEGER2long (Some buf) with
              | inl _ => (DECODE_FAILED, pd)
              | inr value => (stored (asn_imax2INTEGER (s64 (value + lower_bound c))), pd)
              end
            else (RC_OK 0 (Some buf), pd)
        | RC_WMORE n => (RC_WMORE n, pd)
        | RC_FAIL n => (RC_FAIL n, pd)
        end
  | None =>
      let '(r, pd) := integer_fragments (fragments_fuel pd) pd [] in
      match r with
      | RC_OK _ buf => if minimal_check ctx buf then (RC_OK 0 (Some buf), pd) else (DECODE_FAILED, pd)
      | RC_WMORE n => (RC_WMORE n, pd)
      | RC_FAIL n => (RC_FAIL n, pd)
      end
  end.

(** INTEGER_decode_uper. *)
Definition INTEGER_decode_uper (ctx : option asn_codec_ctx) (specs : option asn_INTEGER_specifics)
    (td_constraints constraints : option asn_per_constraints) (sptr : option INTEGER_t)
    (pd : asn_bit_data) : asn_dec_rval INTEGER_t * asn_bit_data :=
  if negb (have_struct sptr sizeof_INTEGER_t) then (DECODE_FAILED, pd) else
  let ct := option_map pc_value (or_else constraints td_constraints) in
  match ct with
  | Some c =>
      if has c APC_EXTENSIBLE then
        let '(inext, pd) := asn_get_few_bits pd 1 in
        if inext <? 0 then (DECODE_STARVED, pd)
        else integer_decode_body ctx (is_unsigned specs) (if negb (inext =? 0) then None else ct) pd
      else integer_decode_body ctx (is_unsigned specs) ct pd
  | None => integer_decode_body ctx (is_unsigned specs) None pd
  end.
End IntegerDecode.

Section IntegerEncode.
Context {K : Type} {C : Consumer K}.

(** The octets of an unconstrained number, fragment by fragment. *)
Fixpoint integer_put_fragments (fuel : nat) (po : asn_bit_outp K) (buf : list Z) : asn_enc_rval * asn_bit_outp K :=
  if (length buf =? 0)%nat then (ENCODED_OK 0, po) else
  match fuel with
  | O => (ENCODE_FAILED, po)
  | S fuel' =>
      let '((mayEncode, need_eom), po) := uper_put_length po (Z.of_nat (length buf)) in
      if mayEncode <? 0 then (ENCODE_FAILED, po) else
      let '(rc, po) := asn_put_many_bits po buf (8 * mayEncode) in
      if negb (rc =? 0) then (ENCODE_FAILED, po) else
      let buf := drop (Z.to_nat mayEncode) buf in
      if need_eom then
        let '((rc, _), po) := uper_put_length po 0 in
        if negb (rc =? 0) then (ENCODE_FAILED, po) else integer_put_fragments fuel' po buf
      else integer_put_fragments fuel' po buf
  end.

(** INTEGER_encode_uper: the number of a constrained type, converted by the
    signedness of the field. *)
Definition integer_value (unsigned : bool) (st : INTEGER_t) : errno + Z :=
  if unsigned then asn_INTEGER2umax st else asn_INTEGER2imax st.

(** "Check proper range" *)
Definition out_of_range (unsigned : bool) (ct : asn_per_constraint) (value : Z) : bool :=
  if has ct APC_SEMI_CONSTRAINED then value <? lower unsigned ct
  else if 0 <=? range_bits ct then (value <? lower unsigned ct) || (upper unsigned ct <? value)
  else false.

(** The offset of a constrained value. *)
Definition integer_offset (unsigned : bool) (ct : asn_per_constraint) (value : Z) : option Z :=
  if unsigned then
    if (upper true ct <? lower true ct) || (value <? lower true ct) || (upper true ct <? value) then None
    else Some (u64 (value - lower true ct))
  else per_imax_range_rebase value (lower_bound ct) (upper_bound ct).

Definition INTEGER_encode_uper (specs : option asn_INTEGER_specifics)
    (td_constraints constraints : option asn_per_constraints) (st : option INTEGER_t)
    (po : asn_bit_outp K) : asn_enc_rval * asn_bit_outp K :=
  match st with
  | None | Some None | Some (Some []) => (ENCODE_FAILED, po)
  | Some (Some buf) =>
      let unsigned := is_unsigned specs in
      let put_octets po := integer_put_fragments (length buf) po buf in
      match option_map pc_value (or_else constraints td_constraints) with
      | None => put_octets po
      | Some ct =>
          match integer_value unsigned (Some buf) with
          | inl _ => (ENCODE_FAILED, po)
          | inr value =>
              let inext := out_of_range unsigned ct value in
              let put_root po :=
                if 0 <=? range_bits ct then
                  match integer_offset unsigned ct value with
                  | None => (ENCODE_FAILED, po)
                  | Some v =>
                      let '(rc, po) := uper_put_constrained_whole_number_u po v (range_bits ct) in
                      if negb (rc =? 0) then (ENCODE_FAILED, po) else (ENCODED_OK 0, po)
                  end
                else if negb (lower_bound ct =? 0) then (ENCODE_FAILED, po)
                else put_octets po in
              if has ct APC_EXTENSIBLE then
                let '(rc, po) := asn_put_few_bits po (Z.b2z inext) 1 in
                if negb (rc =? 0) then (ENCODE_FAILED, po)
                else if inext then put_octets po else put_root po
              else if inext then (ENCODE_FAILED, po)
              else put_root po
          end
      end
  end.
End IntegerEncode.

(** * Native types *)

(** NativeEnumerated.c *)
Definition NativeEnumerated__compar_value2enum (a b : Z) : Z :=
  if a =? b then 0 else if a <? b then -1 else 1.

Section NativeInteger.
Context {T : Target} {A : Allocator} {K : Type} {C : Consumer K}.

(** NativeInteger_decode_uper: the value is that of the [long], or of the
    [unsigned long] of an unsigned field. *)
Definition NativeInteger_decode_uper (ctx : option asn_codec_ctx) (specs : option asn_INTEGER_specifics)
    (td_constraints constraints : option asn_per_constraints) (sptr : option Z)
    (pd : asn_bit_data) : asn_dec_rval Z * asn_bit_data :=
  if negb (have_struct sptr sizeof_word) then (DECODE_FAILED, pd) else
  let '(r, pd) := INTEGER_decode_uper ctx specs td_constraints constraints (Some None) pd in
  match r with
  | RC_OK n tmpint =>
      match (if is_unsigned specs then asn_INTEGER2ulong tmpint else asn_INTEGER2long tmpint) with
      | inl _ => (RC_FAIL n, pd)
      | inr native => (RC_OK n native, pd)
      end
  | RC_WMORE n => (RC_WMORE n, pd)
  | RC_FAIL n => (RC_FAIL n, pd)
  end.

Definition NativeInteger_encode_uper (specs : option asn_INTEGER_specifics)
    (td_constraints constraints : option asn_per_constraints) (sptr : option Z)
    (po : asn_bit_outp K) : asn_enc_rval * asn_bit_outp K :=
  match sptr with
  | None => (ENCODE_FAILED, po)
  | Some native =>
      match (if is_unsigned specs then asn_ulong2INTEGER (uwrap word_bits native) else asn_long2INTEGER native) with
      | None => (ENCODE_FAILED, po)
      | Some tmpint => INTEGER_encode_uper specs td_constraints constraints (Some tmpint) po
      end
  end.

(** ** NativeEnumerated and ENUMERATED *)

(** The number of elements that are not extensions. *)
Definition root_count (specs : asn_INTEGER_specifics) : Z :=
  if negb (extension specs =? 0) then extension specs - 1 else map_count specs.

(** NativeEnumerated_decode_uper.  Both checks leave an index into
    [value2enum] (see [NativeEnumerated_decode_in_map]). *)
Definition NativeEnumerated_decode_uper (specs : option asn_INTEGER_specifics)
    (td_constraints constraints : option asn_per_constraints) (sptr : option Z)
    (pd : asn_bit_data) : asn_dec_rval Z * asn_bit_data :=
  match or_else constraints td_constraints, specs with
  | Some cs, Some specs =>
      if negb (have_struct sptr sizeof_word) then (DECODE_FAILED, pd) else
      let ct := pc_value cs in
      let decode in_root pd :=
        if in_root && (0 <=? range_bits ct) then
          let '(value, pd) := asn_get_few_bits pd (range_bits ct) in
          if value <? 0 then (DECODE_STARVED, pd)
          else if root_count specs <=? value then (DECODE_FAILED, pd)
          else (RC_OK 0 (nth (Z.to_nat value) (value2enum specs) 0), pd)
        else if extension specs =? 0 then (DECODE_FAILED, pd)
        else
          let '(value, pd) := uper_get_nsnnwn pd in
          if value <? 0 then (DECODE_STARVED, pd) else
          let value := value + (extension specs - 1) in
          if map_count specs <=? value then (DECODE_FAILED, pd)
          else (RC_OK 0 (nth (Z.to_nat value) (value2enum specs) 0), pd) in
      if has ct APC_EXTENSIBLE then
        let '(inext, pd) := asn_get_few_bits pd 1 in
        if inext <? 0 then (DECODE_STARVED, pd) else decode (inext =? 0) pd
      else decode true pd
  | _, _ => (DECODE_FAILED, pd)
  end.

(** NativeEnumerated_encode_uper. *)
Definition NativeEnumerated_encode_uper (specs : option asn_INTEGER_specifics)
    (td_constraints constraints : option asn_per_constraints) (sptr : option Z)
    (po : asn_bit_outp K) : asn_enc_rval * asn_bit_outp K :=
  match sptr, specs, or_else constraints td_constraints with
  | Some native, Some specs, Some cs =>
      let ct := pc_value cs in
      match bsearch NativeEnumerated__compar_value2enum native (value2enum specs) with
      | None => (ENCODE_FAILED, po)
      | Some index =>
          let value := Z.of_nat index in
          let inext := (0 <=? range_bits ct) && (root_count specs <=? value) in
          let put in_root po :=
            if in_root && (0 <=? range_bits ct) then
              let '(rc, po) := asn_put_few_bits po value (range_bits ct) in
              if negb (rc =? 0) then (ENCODE_FAILED, po) else (ENCODED_OK 0, po)
            else if extension specs =? 0 then (ENCODE_FAILED, po)
            else
              let '(rc, po) := uper_put_nsnnwn po (value - (if inext then extension specs - 1 else 0)) in
              if negb (rc =? 0) then (ENCODE_FAILED, po) else (ENCODED_OK 0, po) in
          if has ct APC_EXTENSIBLE then
            let '(rc, po) := asn_put_few_bits po (Z.b2z inext) 1 in
            if negb (rc =? 0) then (ENCODE_FAILED, po) else put (negb inext) po
          else if inext then (ENCODE_FAILED, po)
          else put true po
      end
  | _, _, _ => (ENCODE_FAILED, po)
  end.

(** ENUMERATED_decode_uper and ENUMERATED_encode_uper: the same on an
    INTEGER of octets. *)
Definition ENUMERATED_decode_uper (specs : option asn_INTEGER_specifics)
    (td_constraints constraints : option asn_per_constraints) (sptr : option INTEGER_t)
    (pd : asn_bit_data) : asn_dec_rval INTEGER_t * asn_bit_data :=
  if negb (have_struct sptr sizeof_INTEGER_t) then (DECODE_FAILED, pd) else
  let '(r, pd) := NativeEnumerated_decode_uper specs td_constraints constraints (Some 0) pd in
  match r with
  | RC_OK n value => (match asn_long2INTEGER value with Some st => RC_OK n st | None => RC_FAIL n end, pd)
  | RC_WMORE n => (RC_WMORE n, pd)
  | RC_FAIL n => (RC_FAIL n, pd)
  end.

Definition ENUMERATED_encode_uper (specs : option asn_INTEGER_specifics)
    (td_constraints constraints : option asn_per_constraints) (st : INTEGER_t)
    (po : asn_bit_outp K) : asn_enc_rval * asn_bit_outp K :=
  match asn_INTEGER2long st with
  | inl _ => (ENCODE_FAILED, po)
  | inr value => NativeEnumerated_encode_uper specs td_constraints constraints (Some value) po
  end.

(** ** BOOLEAN and NULL *)

Definition sizeof_BOOLEAN_t : Z := 4.

Definition BOOLEAN_decode_uper (sptr : option Z) (pd : asn_bit_data) : asn_dec_rval Z * asn_bit_data :=
  if negb (have_struct sptr sizeof_BOOLEAN_t) then (DECODE_FAILED, pd) else
  let '(b, pd) := asn_get_few_bits pd 1 in
  if b =? 1 then (RC_OK 1 1, pd) else if b =? 0 then (RC_OK 1 0, pd) else (DECODE_STARVED, pd).

Definition BOOLEAN_encode_uper (st : option Z) (po : asn_bit_outp K) : asn_enc_rval * asn_bit_outp K :=
  match st with
  | None => (ENCODE_FAILED, po)
  | Some v =>
      let '(rc, po) := asn_put_few_bits po (if v =? 0 then 0 else 1) 1 in
      if negb (rc =? 0) then (ENCODE_FAILED, po) else (ENCODED_OK 0, po)
  end.

(** [NULL_t] is an int set to zero when it is allocated. *)
Definition NULL_decode_uper (sptr : option Z) (pd : asn_bit_data) : asn_dec_rval Z * asn_bit_data :=
  match sptr with
  | Some st => (RC_OK 0 st, pd)
  | None => if malloc_ok sizeof_BOOLEAN_t then (RC_OK 0 0, pd) else (DECODE_FAILED, pd)
  end.

Definition NULL_encode_uper (st : option Z) (po : asn_bit_outp K) : asn_enc_rval * asn_bit_outp K :=
  (ENCODED_OK 0, po).
End NativeInteger.

(** * Fragments *)

Lemma length_fragmented bs : (8 * S (length bs) <= length (fragmented bs))%nat.
Proof.
  induction bs as [bs H|bs H IH] using fragments_ind; unfold fragmented; rewrite fragmented_eq; cbv zeta; fold fragmented.
  - rewrite (proj2 (Z.ltb_lt _ _)) by assumption. pose proof (length_length_bits (Z.of_nat (length bs))). len.
  - rewrite (proj2 (Z.ltb_ge _ _)) by assumption. pose proof (fragment_units_bound _ H). revert IH. len.
Qed.

Section Fragments.
Context {T : Target} {A : Allocator}.

Lemma decodes_fragments bs : forall fuel buf,
  octets bs -> (length bs < fuel)%nat -> serves A (Z.of_nat (length (buf ++ bs)) + 1) ->
  decodes (fun pd => integer_fragments fuel pd buf) (fragmented bs) (RC_OK 0 (buf ++ bs)).
Proof.
  induction bs as [bs H|bs H IH] using fragments_ind; intros [|fuel] buf Hbs Hf HA; try lia;
    unfold fragmented; rewrite fragmented_eq; cbv zeta; fold fragmented; cbn [integer_fragments].
  - rewrite (proj2 (Z.ltb_lt _ _)) by assumption. eapply decodes_bind; [apply decodes_length; lia|].
    cbv beta iota. rewrite (proj2 (Z.ltb_ge _ _)) by lia. rewrite HA by len. cbn [negb].
    eapply decodes_last; [now apply decodes_many_bits_octets|]. apply decodes_ret.
  - rewrite (proj2 (Z.ltb_ge _ 16384)) by assumption. pose proof (fragment_units_bound _ H) as [Hm Hle].
    set (m := fragment_units (Z.of_nat (length bs))) in *. set (k := Z.to_nat (16384 * m)) in *.
    eapply decodes_bind; [apply decodes_fragment; lia|]. cbv beta iota.
    rewrite (proj2 (Z.ltb_ge _ _)) by lia. rewrite HA by len. cbn [negb].
    replace (8 * (16384 * m)) with (8 * Z.of_nat (length (take k bs))) by len.
    eapply decodes_bind; [apply decodes_many_bits_octets; auto with asn|]. cbv beta iota.
    replace (buf ++ bs) with ((buf ++ take k bs) ++ drop k bs) by now rewrite <- app_assoc, take_drop.
    apply IH; auto with asn; [len|]. intros x Hx. apply HA. revert Hx. len.
Qed.

Lemma decodes_fragments_all bs buf :
  octets bs -> serves A (Z.of_nat (length (buf ++ bs)) + 1) ->
  decodes (fun pd => integer_fragments (fragments_fuel pd) pd buf) (fragmented bs) (RC_OK 0 (buf ++ bs)).
Proof.
  intros Hbs HA pd rest Hok E. apply (decodes_fragments bs (fragments_fuel pd)); auto.
  unfold fragments_fuel. rewrite <- length_remaining, E by assumption.
  pose proof (length_fragmented bs). len.
Qed.

(** The fuel of the fragment loop is enough on any data: more changes
    nothing. *)
Lemma fragments_fuel_enough f1 : forall f2 pd buf,
  pd_ok pd -> (length (remaining pd) < f1)%nat -> (length (remaining pd) < f2)%nat ->
  integer_fragments f1 pd buf = integer_fragments f2 pd buf.
Proof.
  induction f1 as [|f1 IH]; intros [|f2] pd buf Hok H1 H2; try lia. cbn [integer_fragments].
  pose proof (get_length_progress pd Hok) as Hp.
  destruct (uper_get_length pd (-1) 0) as [[len more] pd1].
  destruct (len <? 0); [reflexivity|]. destruct Hp as [(n & Hn & Ha) _].
  destruct (negb _); [reflexivity|].
  destruct (follows_many_bits pd1 false (8 * len) (proj1 Ha)) as [m Hm].
  destruct (asn_get_many_bits pd1 false (8 * len)) as [[bs|] pd2]; [|reflexivity].
  destruct more; [|reflexivity]. cbn [snd] in Hm.
  destruct Ha as (_ & R1 & L1 & _), Hm as (Hok2 & R2 & _).
  apply IH; [assumption| |]; rewrite R2, R1; len.
Qed.

Lemma follows_fragments fuel pd buf : pd_ok pd -> follows pd (integer_fragments fuel pd buf).
Proof. revert pd buf. induction fuel as [|fuel IH]; intros pd buf Hok; cbn [integer_fragments]; follow. Qed.

Context {K : Type} {C : Consumer K} {S : Sink K} {R : RoomySink K}.

Lemma encodes_fragments bs : forall fuel,
  octets bs -> bs <> [] -> (length bs <= fuel)%nat ->
  encodes (fun po : asn_bit_outp K => integer_put_fragments fuel po bs) (fragmented bs) (ENCODED_OK 0).
Proof.
  induction bs as [bs H|bs H IH] using fragments_ind; intros fuel Hbs Hn Hf;
    unfold fragmented; rewrite fragmented_eq; cbv zeta; fold fragmented; (assert (length bs <> 0)%nat as Hne by (destruct bs; simpl; congruence));
    (destruct fuel as [|fuel]; [lia|]); cbn [integer_put_fragments]; rewrite (proj2 (Nat.eqb_neq _ _) Hne).
  - rewrite (proj2 (Z.ltb_lt _ _)) by assumption. eapply encodes_bind; [apply encodes_length; lia|].
    cbv beta iota. rewrite (proj2 (Z.ltb_ge _ _)) by lia.
    eapply encodes_last; [now apply encodes_many_octets|]. cbn [negb Z.eqb].
    rewrite Nat2Z.id, drop_all. destruct fuel; apply encodes_ret.
  - rewrite (proj2 (Z.ltb_ge _ 16384)) by assumption. pose proof (fragment_units_bound _ H) as [Hm Hle].
    set (m := fragment_units (Z.of_nat (length bs))) in *. set (k := Z.to_nat (16384 * m)) in *.
    eapply encodes_bind; [now apply encodes_fragment|]. cbv beta iota. fold m.
    rewrite (proj2 (Z.ltb_ge _ _)) by lia. rewrite <- (bytes_bits_take bs k).
    replace (8 * k)%nat with (Z.to_nat (8 * (16384 * m))) by lia.
    eapply encodes_bind; [apply encodes_many_bits; auto; lia|]. cbn [negb Z.eqb]. fold k.
    destruct (Z.eqb_spec (Z.of_nat (length bs)) (16384 * m)) as [E|E].
    + rewrite drop_ge by lia. change (fragmented []) with (length_bits 0).
      eapply encodes_last; [apply encodes_length; lia|]. cbn [negb Z.eqb]. destruct fuel; apply encodes_ret.
    + apply IH; auto with asn; [|len]. intros E0. apply (f_equal length) in E0. revert E0. len.
Qed.
End Fragments.

(** * INTEGER on the wire *)

(** Whether the C type of the codec holds a number. *)
Definition number_fits (unsigned : bool) (v : Z) : bool := if unsigned then v <=? UINTMAX_MAX else imax_b v.

(** Whether a value lies in the extension root. *)
Definition in_root (unsigned : bool) (c : asn_per_constraint) (v : Z) : bool :=
  if has c APC_SEMI_CONSTRAINED then lower unsigned c <=? v
  else if 0 <=? range_bits c then (lower unsigned c <=? v) && (v <=? upper unsigned c)
  else true.

(** The bits the code gives an INTEGER value with octets [b], nothing where
    it has no encoding: outside a range that is not extensible, beyond the C
    types, or above a non-zero lower bound without an upper bound.  Values
    outside a range travel as the octets [b] of the structure, also those
    with a lower bound only. *)
Definition uper_integer_bits (unsigned : bool) (ct : option asn_per_constraint) (b : list Z) : option (list bool) :=
  match ct with
  | None => Some (fragmented b)
  | Some c =>
      let v := integer_number unsigned b in
      let root := if 0 <=? range_bits c then Some (bits_of (Z.to_nat (range_bits c)) (v - lower unsigned c))
                  else if lower_bound c =? 0 then Some (fragmented b) else None in
      if negb (number_fits unsigned v) then None
      else if has c APC_EXTENSIBLE then
        if in_root unsigned c v then option_map (cons false) root else Some (true :: fragmented b)
      else if in_root unsigned c v then root else None
  end.

(** ** The encoding X.691 #13 demands of a number

    The shortest octets of a number: in two's complement (#11.4) they are
    [canonical], without a sign (#11.3) they do not start with zero. *)
Definition signed_octets (v : Z) (b : list Z) : Prop := octets b /\ canonical b /\ sval b = v.
Definition unsigned_octets (v : Z) (b : list Z) : Prop :=
  octets b /\ b <> [] /\ (hd 0 b = 0 -> length b = 1%nat) /\ be_val b = v.

(** #13.2: an offset in the bits of the range, the offset from a lower bound
    behind its length, or the number behind its length. *)
Definition x691_root (unsigned : bool) (c : asn_per_constraint) (v : Z) (enc : list bool) : Prop :=
  if 0 <=? range_bits c then enc = bits_of (Z.to_nat (range_bits c)) (v - lower unsigned c)
  else if has c APC_SEMI_CONSTRAINED then exists b, unsigned_octets (v - lower unsigned c) b /\ enc = fragmented b
  else exists b, signed_octets v b /\ enc = fragmented b.

(** #13.1: in front of an extensible value a bit that says whether it lies in
    the root; beyond the root it is sent as if it was not constrained. *)
Definition x691_integer (unsigned : bool) (ct : option asn_per_constraint) (v : Z) (enc : list bool) : Prop :=
  match ct with
  | None => exists b, signed_octets v b /\ enc = fragmented b
  | Some c =>
      if in_root unsigned c v then
        if has c APC_EXTENSIBLE then exists r, x691_root unsigned c v r /\ enc = false :: r else x691_root unsigned c v enc
      else has c APC_EXTENSIBLE = true /\ exists b, signed_octets v b /\ enc = true :: fragmented b
  end.

(** The octets of a structure the code encodes as the standard does: any for
    a value in a range; otherwise the shortest two's complement, for an
    unsigned field too, and in a type with nothing but a lower bound without
    an octet for the sign. *)
Definition standard_octets (unsigned : bool) (ct : option asn_per_constraint) (b : list Z) : Prop :=
  (exists c, ct = Some c /\ 0 <= range_bits c /\ in_root unsigned c (integer_number unsigned b) = true) \/
  (canonical b /\ sval b = integer_number unsigned b /\
   forall c, ct = Some c -> has c APC_SEMI_CONSTRAINED = true -> in_root unsigned c (integer_number unsigned b) = true ->
     hd 0 b = 0 -> length b = 1%nat).

Lemma integer_value_ok unsigned b :
  octets b ->
  integer_value unsigned (Some b) =
    if number_fits unsigned (integer_number unsigned b) then inr (integer_number unsigned b) else inl ERANGE.
Proof.
  intros Hb. unfold integer_value, number_fits, integer_number.
  destruct unsigned; [now apply INTEGER2umax_value|now apply INTEGER2imax_value].
Qed.

Lemma uper_integer_standard unsigned ct b enc :
  octets b -> standard_octets unsigned ct b -> uper_integer_bits unsigned ct b = Some enc ->
  x691_integer unsigned ct (integer_number unsigned b) enc.
Proof.
  intros Hb Hstd. set (v := integer_number unsigned b) in *. destruct ct as [c|]; cbn [uper_integer_bits x691_integer].
  2: { intros [= <-]. destruct Hstd as [(c & [=] & _)|(Hc & Hv & _)]. exists b. now repeat split. }
  fold v. destruct (number_fits _ v); [|discriminate]. cbn [negb].
  assert (forall r, in_root unsigned c v = true ->
    (if 0 <=? range_bits c then Some (bits_of (Z.to_nat (range_bits c)) (v - lower unsigned c))
     else if lower_bound c =? 0 then Some (fragmented b) else None) = Some r -> x691_root unsigned c v r) as Hroot.
  { intros r Hin. unfold x691_root. destruct (Z.leb_spec 0 (range_bits c)) as [|Hr]; [now intros [= <-]|].
    destruct (Z.eqb_spec (lower_bound c) 0) as [Hl|]; [|discriminate]. intros [= <-].
    destruct Hstd as [(c' & [= <-] & Hr' & _)|(Hc & Hv & Hsemi)]; [lia|].
    destruct (has c APC_SEMI_CONSTRAINED) eqn:Es; exists b; split; try reflexivity; [|now repeat split].
    assert (lower unsigned c = 0) as El by (unfold lower; rewrite Hl; now destruct unsigned).
    assert (b <> []) as Hn by (intros ->; exact Hc).
    specialize (Hsemi c eq_refl Es Hin). unfold in_root in Hin. rewrite Es in Hin. bool_hyps. rewrite El, Z.sub_0_r in *.
    repeat split; auto. transitivity (sval b); [apply be_val_nonneg_sval; auto; lia|exact Hv]. }
  destruct (in_root unsigned c v) eqn:Hin; destruct (has c APC_EXTENSIBLE) eqn:He.
  - destruct (if 0 <=? range_bits c then _ else _) as [r|]; [|discriminate]. intros [= <-]. exists r. auto.
  - auto.
  - intros [= <-]. split; [reflexivity|]. destruct Hstd as [(c' & [= <-] & _ & Hin')|(Hc & Hv & _)]; [fold v in Hin'; congruence|].
    exists b. now repeat split.
  - discriminate.
Qed.

Lemma out_of_range_in_root unsigned c v : out_of_range unsigned c v = negb (in_root unsigned c v).
Proof.
  unfold out_of_range, in_root. destruct (has c _); [apply Z.ltb_antisym|].
  destruct (0 <=? range_bits c); [|reflexivity].
  rewrite negb_andb, <- !Z.ltb_antisym. reflexivity.
Qed.

Lemma number_fits_spec unsigned v :
  number_fits unsigned v = true -> (if unsigned then v <= UINTMAX_MAX else is_imax v).
Proof. unfold number_fits, imax_b, is_imax. destruct unsigned; lia. Qed.

Lemma u64_umax v : is_umax (u64 v).
Proof. unfold is_umax, UINTMAX_MAX. pose proof (uwrap_bound 64 v). lia. Qed.

Lemma integer_offset_ok unsigned c v :
  per_value_ok unsigned c -> 0 <= range_bits c -> number_fits unsigned v = true -> in_root unsigned c v = true ->
  integer_offset unsigned c v = Some (v - lower unsigned c) /\
  0 <= v - lower unsigned c < 2 ^ range_bits c /\ 0 <= range_bits c <= 64 /\
  lower unsigned c <= v <= upper unsigned c.
Proof.
  intros (Hlb & Hub & Hr & _) H0 Hf Hin. apply number_fits_spec in Hf.
  destruct Hr as [Hr|(_ & Hsemi & Hb & Hle & Hlt)]; [lia|].
  unfold in_root in Hin. rewrite Hsemi, (proj2 (Z.leb_le _ _)) in Hin by lia.
  apply andb_prop in Hin as [H1 H2]. bool_hyps. split; [|lia].
  unfold integer_offset, lower, upper in *. destruct unsigned.
  - pose proof (u64_umax (lower_bound c)) as B. unfold is_umax, UINTMAX_MAX in *. bool_cases. cbn [orb].
    rewrite uwrap_small by lia. reflexivity.
  - rewrite rebase_value by assumption. now rewrite (proj2 (Z.leb_le _ _)), (proj2 (Z.leb_le _ _)) by lia.
Qed.

Section IntegerWire.
Context {T : Target} {K : Type} {C : Consumer K} {S : Sink K} {R : RoomySink K}.

(** The part of the encoder behind the extension bit. *)
Lemma encodes_integer_root unsigned c b :
  octets b -> b <> [] -> per_value_ok unsigned c ->
  let v := integer_number unsigned b in
  number_fits unsigned v = true -> in_root unsigned c v = true ->
  let put := fun po : asn_bit_outp K =>
    if 0 <=? range_bits c then
      match integer_offset unsigned c v with
      | None => (ENCODE_FAILED, po)
      | Some v =>
          let '(rc, po) := uper_put_constrained_whole_number_u po v (range_bits c) in
          if negb (rc =? 0) then (ENCODE_FAILED, po) else (ENCODED_OK 0, po)
      end
    else if negb (lower_bound c =? 0) then (ENCODE_FAILED, po)
    else integer_put_fragments (length b) po b in
  match (if 0 <=? range_bits c then Some (bits_of (Z.to_nat (range_bits c)) (v - lower unsigned c))
         else if lower_bound c =? 0 then Some (fragmented b) else None) with
  | Some enc => encodes put enc (ENCODED_OK 0)
  | None => forall po, put po = (ENCODE_FAILED, po)
  end.
Proof.
  intros Hb Hn Hc v Hf Hin put. subst put. cbv beta.
  destruct (Z.leb_spec 0 (range_bits c)) as [H0|H0].
  - destruct (integer_offset_ok unsigned c v Hc H0 Hf Hin) as (-> & Hv & Hr & _).
    eapply encodes_last; [apply encodes_whole_number; lia|]. apply encodes_ret.
  - destruct (lower_bound c =? 0); cbn [negb]; [|reflexivity]. now apply encodes_fragments.
Qed.

Lemma INTEGER_encode_uper_ok specs td_cs cs b :
  octets b -> b <> [] ->
  (forall c, or_else cs td_cs = Some c -> per_value_ok (is_unsigned specs) (pc_value c)) ->
  match uper_integer_bits (is_unsigned specs) (option_map pc_value (or_else cs td_cs)) b with
  | Some enc => encodes (fun po : asn_bit_outp K => INTEGER_encode_uper specs td_cs cs (Some (Some b)) po) enc (ENCODED_OK 0)
  | None => forall po : asn_bit_outp K, po_ok po -> fst (INTEGER_encode_uper specs td_cs cs (Some (Some b)) po) = ENCODE_FAILED
  end.
Proof.
  intros Hb Hn Hcs. unfold INTEGER_encode_uper. destruct b as [|x r] eqn:Eb; [congruence|]. rewrite <- Eb in *. clear Hn.
  assert (b <> []) as Hn by (rewrite Eb; discriminate). clear Eb.
  destruct (or_else cs td_cs) as [c|]; cbn [option_map uper_integer_bits]; [|now apply encodes_fragments].
  specialize (Hcs c eq_refl). set (u := is_unsigned specs) in *. rewrite integer_value_ok by assumption.
  set (v := integer_number u b) in *. set (cv := pc_value c) in *.
  destruct (number_fits u v) eqn:Hf; cbn [negb]; [|reflexivity].
  rewrite out_of_range_in_root. pose proof (encodes_integer_root u cv b Hb Hn Hcs Hf) as Hroot. fold v in Hroot.
  destruct (in_root u cv v) eqn:Hin; cbn [negb]; cbv beta iota zeta in Hroot.
  - specialize (Hroot eq_refl).
    destruct (has cv APC_EXTENSIBLE); [|destruct (if 0 <=? range_bits cv then _ else _); [exact Hroot|]; intros; now rewrite Hroot].
    destruct (if 0 <=? range_bits cv then _ else _) as [enc|]; cbn [option_map].
    + change (false :: enc) with (bits_of 1 0 ++ enc).
      eapply encodes_bind; [apply encodes_few_bits; lia|]. exact Hroot.
    + intros po Hok. cbn [Z.b2z]. destruct (asn_put_few_bits po 0 1) as [rc po'].
      destruct (rc =? 0); cbn [negb]; [now rewrite Hroot|reflexivity].
  - destruct (has cv APC_EXTENSIBLE); [|reflexivity]. change (true :: fragmented b) with (bits_of 1 1 ++ fragmented b).
    eapply encodes_bind; [apply encodes_few_bits; lia|]. now apply encodes_fragments.
Qed.
End IntegerWire.

Section IntegerUnwire.
Context {T : Target} {A : Allocator}.

Lemma decodes_integer_constrained unsigned c v :
  serves A 9 -> per_value_ok unsigned c -> 0 <= range_bits c ->
  number_fits unsigned v = true -> in_root unsigned c v = true ->
  exists b, octets b /\ canonical b /\ integer_number unsigned b = v /\ sval b = v /\
    decodes (integer_decode_constrained unsigned c) (bits_of (Z.to_nat (range_bits c)) (v - lower unsigned c))
      (RC_OK 0 (Some b)).
Proof.
  intros HA Hc H0 Hf Hin. destruct (integer_offset_ok unsigned c v Hc H0 Hf Hin) as (_ & Hv & Hr & Hb).
  apply number_fits_spec in Hf. destruct Hc as (Hlb & Hub & _). unfold integer_decode_constrained.
  change (8 * sizeof_intmax) with 64. unfold lower, upper, integer_number in *. destruct unsigned.
  - pose proof (u64_umax (lower_bound c)) as B. destruct B as [B0 _].
    destruct (umax2INTEGER_ok A v HA) as (b & E & Hbo & Cb & Es & Eu); [split; lia|]. exists b. split_all; auto.
    rewrite (proj2 (Z.ltb_ge _ _)) by lia.
    eapply decodes_last; [apply decodes_whole_number; lia|]. cbv beta iota zeta.
    assert (u64 (v - u64 (lower_bound c) + lower_bound c) = v) as ->.
    { unfold uwrap at 1. unfold uwrap. rewrite <- Zplus_mod_idemp_r. rewrite Z.sub_add.
      apply Z.mod_small. unfold UINTMAX_MAX in Hf. lia. }
    rewrite (proj2 (Z.ltb_ge _ _)), E by lia. apply decodes_ret.
  - destruct (imax2INTEGER_ok A v HA Hf) as (b & E & Hbo & Cb & Es & _). exists b. split_all; auto.
    rewrite (proj2 (Z.ltb_ge _ _)) by lia.
    eapply decodes_last; [apply decodes_whole_number; lia|]. cbv beta iota.
    rewrite unrebase_value by (assumption || lia). rewrite (proj2 (Z.leb_le _ _)) by lia.
    replace (lower_bound c + (v - lower_bound c)) with v by lia. rewrite E. apply decodes_ret.
Qed.

(** The number is the same with a zero octet in front, if not negative. *)
Lemma integer_number_zero unsigned b :
  octets b -> b <> [] -> 0 <= integer_number unsigned b -> integer_number unsigned (0 :: b) = integer_number unsigned b.
Proof.
  intros Hb Hn H0. unfold integer_number in *. destruct unsigned; [cbn [be_val]; lia|].
  rewrite <- (be_val_nonneg_sval b) by assumption. unfold sval. cbn [Z.leb Z.compare be_val]. lia.
Qed.

Definition same_number (unsigned : bool) (b b' : list Z) : Prop :=
  octets b' /\ b' <> [] /\ integer_number unsigned b' = integer_number unsigned b.

Lemma same_number_refl unsigned b : octets b -> b <> [] -> same_number unsigned b b.
Proof. unfold same_number. auto. Qed.

(** An unconstrained or extended number. *)
Lemma decodes_integer_unconstrained ctx unsigned b :
  octets b -> minimal_check ctx b = true -> serves A (16 + Z.of_nat (length b)) ->
  decodes (integer_decode_body ctx unsigned None) (fragmented b) (RC_OK 0 (Some b)).
Proof.
  intros Hb Hmin HA. unfold integer_decode_body.
  eapply decodes_last; [apply decodes_fragments_all; [assumption|intros m Hm; apply HA; revert Hm; len]|].
  cbn [app]. rewrite Hmin. apply decodes_ret.
Qed.

(** A number of the extension root. *)
Lemma decodes_integer_root ctx unsigned c b enc :
  octets b -> b <> [] -> serves A (16 + Z.of_nat (length b)) -> per_value_ok unsigned c ->
  let v := integer_number unsigned b in
  number_fits unsigned v = true -> in_root unsigned c v = true ->
  (if 0 <=? range_bits c then Some (bits_of (Z.to_nat (range_bits c)) (v - lower unsigned c))
   else if lower_bound c =? 0 then Some (fragmented b) else None) = Some enc ->
  exists b', same_number unsigned b b' /\
    decodes (integer_decode_body ctx unsigned (Some c)) enc (RC_OK 0 (Some b')).
Proof.
  intros Hb Hn HA Hc v Hf Hin He. pose proof Hc as (_ & _ & Hr & Hlb). unfold integer_decode_body; cbv zeta.
  assert (serves A 16) as HA16 by (intros m Hm; apply HA; lia).
  destruct (Z.leb_spec 0 (range_bits c)) as [H0|H0].
  - injection He as <-. destruct Hr as [Hr|(Hcon & Hsemi & Hr & _)]; [lia|].
    destruct (decodes_integer_constrained unsigned c v ltac:(intros m Hm; apply HA; lia) Hc H0 Hf Hin)
      as (b' & Hb' & Cb' & Ev & _ & Hd).
    exists b'. split; [exact (conj Hb' (conj (proj1 (canonical_ne b' Cb')) Ev))|].
    rewrite Hsemi, Hcon. cbn [andb negb].
    assert (malloc_ok (1 + (range_bits c + 7) ≫ 3 + 1) = true) as ->.
    { rewrite shiftr3. pose proof (Z.div_mod (range_bits c + 7) 8 ltac:(lia)).
      pose proof (Z.mod_pos_bound (range_bits c + 7) 8 ltac:(lia)). apply HA16. lia. }
    assert ((flags c =? APC_UNCONSTRAINED) = false) as ->; [|exact Hd].
    apply Z.eqb_neq. intros E. unfold has in Hcon. rewrite E in Hcon. discriminate.
  - destruct (Z.eqb_spec (lower_bound c) 0) as [El|]; [|discriminate]. injection He as <-.
    rewrite !andb_false_r. cbn [andb]. rewrite HA16 by lia. rewrite El.
    assert (same_number unsigned b ((if has c APC_SEMI_CONSTRAINED then [0] else []) ++ b)) as Hs.
    { destruct (has c APC_SEMI_CONSTRAINED) eqn:Es; [|now apply same_number_refl].
      split; [apply octets_cons; split; [split; lia|assumption]|]. split; [discriminate|].
      cbn [app]. apply integer_number_zero; auto. fold v.
      unfold in_root in Hin. rewrite Es in Hin. unfold lower in Hin. rewrite El in Hin.
      destruct unsigned; bool_hyps; assumption. }
    eexists. split; [exact Hs|].
    destruct (has c APC_SEMI_CONSTRAINED); cbn [andb negb];
      (eapply decodes_last; [apply decodes_fragments_all; [assumption|intros m Hm; apply HA; revert Hm; len]|apply decodes_ret]).
Qed.

Lemma have_struct_ok {X} (sptr : option X) size n : serves A n -> 0 <= size <= n -> have_struct sptr size = true.
Proof. intros HA Hs. destruct sptr; [reflexivity|]. now apply HA. Qed.

Lemma sizeof_INTEGER_bound : 0 <= sizeof_INTEGER_t <= 16.
Proof. unfold sizeof_INTEGER_t. pose proof sizeof_word_cases. lia. Qed.

Lemma INTEGER_decode_uper_ok ctx specs td_cs cs sptr b enc :
  octets b -> b <> [] -> minimal_check ctx b = true ->
  (forall c, or_else cs td_cs = Some c -> per_value_ok (is_unsigned specs) (pc_value c)) ->
  serves A (16 + Z.of_nat (length b)) ->
  uper_integer_bits (is_unsigned specs) (option_map pc_value (or_else cs td_cs)) b = Some enc ->
  exists b', same_number (is_unsigned specs) b b' /\
    decodes (INTEGER_decode_uper ctx specs td_cs cs sptr) enc (RC_OK 0 (Some b')).
Proof.
  intros Hb Hn Hmin Hcs HA Henc. set (u := is_unsigned specs) in *.
  pose proof sizeof_INTEGER_bound. pose proof (decodes_integer_unconstrained ctx u b Hb Hmin HA) as Hext.
  unfold INTEGER_decode_uper. rewrite (have_struct_ok _ _ _ HA) by lia. cbn [negb].
  destruct (or_else cs td_cs) as [c|]; cbn [option_map uper_integer_bits] in *; cbv zeta in *;
    [|injection Henc as <-; exists b; auto using same_number_refl].
  fold u. specialize (Hcs c eq_refl). set (cv := pc_value c) in *. set (v := integer_number u b) in *.
  destruct (number_fits u v) eqn:Hf; cbn [negb] in Henc; [|discriminate].
  pose proof (decodes_integer_root ctx u cv b) as Hroot. fold v in Hroot. cbv zeta in Hroot.
  destruct (has cv APC_EXTENSIBLE); destruct (in_root u cv v) eqn:Hin; try discriminate.
  - destruct (if 0 <=? range_bits cv then _ else _) as [root|]; [|discriminate].
    destruct (Hroot root) as (b' & Hs & Hd); auto. exists b'. split; [exact Hs|].
    injection Henc as <-. change (false :: root) with (bits_of 1 0 ++ root).
    eapply decodes_bind; [apply (decodes_few_bits_of 1 1 0); lia|exact Hd].
  - injection Henc as <-. exists b.
    split; [now apply same_number_refl|]. change (true :: fragmented b) with (bits_of 1 1 ++ fragmented b).
    eapply decodes_bind; [apply (decodes_few_bits_of 1 1 1); lia|]. exact Hext.
  - now apply Hroot.
Qed.
End IntegerUnwire.

(** * Native integers *)

Lemma minimal_check_canonical ctx b : canonical b -> minimal_check ctx b = true.
Proof.
  destruct ctx as [c|], b as [|b0 [|b1 r]]; try reflexivity. cbn. intros ->. now rewrite andb_false_r.
Qed.

(** * Enumerations *)

(** X.691 #14: the index of an element, with an extension bit where the type
    is extensible; elements beyond the root as a normally small number. *)
Definition enum_bits (specs : asn_INTEGER_specifics) (ct : asn_per_constraint) (i : Z) : list bool :=
  if i <? root_count specs
  then (if has ct APC_EXTENSIBLE then [false] else []) ++ bits_of (Z.to_nat (range_bits ct)) i
  else [true] ++ bits_of 7 (i - root_count specs).

(** The tables the compiler emits for an enumeration: ascending numbers, an
    index width for the root, and at most 64 extension elements. *)
Definition enum_ok {T : Target} (specs : asn_INTEGER_specifics) (ct : asn_per_constraint) : Prop :=
  ascending (value2enum specs) /\ Forall is_long (value2enum specs) /\
  0 <= range_bits ct <= 31 /\ 0 <= root_count specs <= Z.min (map_count specs) (2 ^ range_bits ct) /\
  if has ct APC_EXTENSIBLE then 0 < extension specs /\ map_count specs <= root_count specs + 64
  else extension specs = 0.

Lemma bsearch_fuel_ext fuel f g key base lo hi :
  (forall a b, f a b = g a b) -> bsearch_fuel fuel f key base lo hi = bsearch_fuel fuel g key base lo hi.
Proof.
  intros H. revert lo hi. induction fuel as [|fuel IH]; intros lo hi; cbn [bsearch_fuel]; [reflexivity|].
  cbv zeta. rewrite H, !IH. reflexivity.
Qed.

Lemma bsearch_native key base :
  bsearch NativeEnumerated__compar_value2enum key base = bsearch INTEGER__compar_value2enum key base.
Proof.
  apply bsearch_fuel_ext. intros a b. unfold NativeEnumerated__compar_value2enum, INTEGER__compar_value2enum.
  destruct (Z.eqb_spec a b), (Z.ltb_spec a b); try reflexivity; lia.
Qed.

Section EnumWire.
Context {T : Target} {A : Allocator} {K : Type} {C : Consumer K} {S : Sink K} {R : RoomySink K}.

Lemma encodes_enum specs td_cs cs c i :
  or_else cs td_cs = Some c -> enum_ok specs (pc_value c) -> (i < length (value2enum specs))%nat ->
  encodes (fun po : asn_bit_outp K => NativeEnumerated_encode_uper (Some specs) td_cs cs
             (Some (nth i (value2enum specs) 0)) po)
    (enum_bits specs (pc_value c) (Z.of_nat i)) (ENCODED_OK 0).
Proof.
  intros Ec (Hasc & _ & Hr & Hroot & Hext) Hi. unfold NativeEnumerated_encode_uper. rewrite Ec.
  rewrite bsearch_native, bsearch_nth by assumption. cbv zeta. set (cv := pc_value c) in *.
  unfold enum_bits. rewrite (proj2 (Z.leb_le 0 _)), Z.leb_antisym by lia. cbn [andb].
  unfold map_count in *. destruct (Z.ltb_spec (Z.of_nat i) (root_count specs)) as [Hlt|Hge]; cbn [negb].
  - cbn [andb negb]. assert (encodes (fun po : asn_bit_outp K =>
      let '(rc, po) := asn_put_few_bits po (Z.of_nat i) (range_bits cv) in
      if negb (rc =? 0) then (ENCODE_FAILED, po) else (ENCODED_OK 0, po))
      (bits_of (Z.to_nat (range_bits cv)) (Z.of_nat i)) (ENCODED_OK 0)) as Hput.
    { eapply encodes_last; [apply encodes_few_bits; lia|]. apply encodes_ret. }
    destruct (has cv APC_EXTENSIBLE); [|exact Hput]. change [false] with (bits_of 1 0).
    eapply encodes_bind; [apply encodes_few_bits; lia|]. exact Hput.
  - destruct (has cv APC_EXTENSIBLE).
    + change [true] with (bits_of 1 1). eapply encodes_bind; [apply encodes_few_bits; lia|]. cbn [negb Z.eqb andb].
      rewrite (proj2 (Z.eqb_neq _ _)) by lia.
      assert (extension specs - 1 = root_count specs) as ->.
      { unfold root_count. now rewrite (proj2 (Z.eqb_neq _ _)) by lia. }
      eapply encodes_last; [apply encodes_nsnnwn; lia|]. apply encodes_ret.
    + exfalso. unfold root_count in Hge. rewrite Hext in Hge. cbn in Hge. unfold map_count in Hge. lia.
Qed.

Lemma decodes_enum specs td_cs cs c i sptr :
  or_else cs td_cs = Some c -> enum_ok specs (pc_value c) -> (i < length (value2enum specs))%nat -> serves A 16 ->
  decodes (NativeEnumerated_decode_uper (Some specs) td_cs cs sptr)
    (enum_bits specs (pc_value c) (Z.of_nat i)) (RC_OK 0 (nth i (value2enum specs) 0)).
Proof.
  intros Ec (Hasc & _ & Hr & Hroot & Hext) Hi HA. unfold NativeEnumerated_decode_uper. rewrite Ec.
  pose proof sizeof_word_cases. rewrite (have_struct_ok _ _ _ HA) by lia. cbn [negb]. cbv zeta.
  set (cv := pc_value c) in *. unfold enum_bits. unfold map_count in *.
  destruct (Z.ltb_spec (Z.of_nat i) (root_count specs)) as [Hlt|Hge].
  - assert (decodes (fun pd => let '(value, pd) := asn_get_few_bits pd (range_bits cv) in
        if value <? 0 then (DECODE_STARVED, pd)
        else if root_count specs <=? value then (DECODE_FAILED, pd)
        else (RC_OK 0 (nth (Z.to_nat value) (value2enum specs) 0), pd))
        (bits_of (Z.to_nat (range_bits cv)) (Z.of_nat i)) (RC_OK 0 (nth i (value2enum specs) 0))) as Hget.
    { eapply decodes_last; [apply (decodes_few_bits_of _ _ (Z.of_nat i)); lia|].
      rewrite (proj2 (Z.ltb_ge _ _)), (proj2 (Z.leb_gt _ _)), Nat2Z.id by lia. apply decodes_ret. }
    rewrite (proj2 (Z.leb_le 0 _)) by lia. cbn [andb].
    destruct (has cv APC_EXTENSIBLE); [|exact Hget]. change [false] with (bits_of 1 0).
    eapply decodes_bind; [apply (decodes_few_bits_of 1 1 0); lia|]. exact Hget.
  - destruct (has cv APC_EXTENSIBLE).
    + change [true] with (bits_of 1 1). eapply decodes_bind; [apply (decodes_few_bits_of 1 1 1); lia|].
      cbn [Z.ltb Z.compare Z.eqb Pos.eqb andb]. rewrite (proj2 (Z.eqb_neq _ _)) by lia.
      eapply decodes_last; [apply decodes_nsnnwn; lia|]. rewrite (proj2 (Z.ltb_ge _ _)) by lia.
      assert (Z.of_nat i - root_count specs + (extension specs - 1) = Z.of_nat i) as ->.
      { unfold root_count. rewrite (proj2 (Z.eqb_neq _ _)) by lia. cbn [negb]. lia. }
      unfold map_count. rewrite (proj2 (Z.leb_gt _ _)), Nat2Z.id by lia. apply decodes_ret.
    + exfalso. unfold root_count in Hge. rewrite Hext in Hge. cbn in Hge. unfold map_count in Hge. lia.
Qed.
End EnumWire.

(** ** Native integers *)

Lemma NativeInteger_uper_ok {T : Target} {A : Allocator} {K} {C : Consumer K} {S : Sink K} {R : RoomySink K}
    ctx specs td_cs cs sptr v :
  native_ok (is_unsigned specs) v ->
  (forall c, or_else cs td_cs = Some c -> per_value_ok (is_unsigned specs) (pc_value c)) ->
  serves A 24 ->
  match uper_integer_bits (is_unsigned specs) (option_map pc_value (or_else cs td_cs)) (skip_redundant (be_bytes 8 v)) with
  | Some enc =>
      encodes (fun po : asn_bit_outp K => NativeInteger_encode_uper specs td_cs cs (Some v) po) enc (ENCODED_OK 0) /\
      decodes (NativeInteger_decode_uper ctx specs td_cs cs sptr) enc (RC_OK 0 v)
  | None =>
      forall po : asn_bit_outp K, po_ok po -> fst (NativeInteger_encode_uper specs td_cs cs (Some v) po) = ENCODE_FAILED
  end.
Proof.
  intros Hv Hcs HA. destruct (native_INTEGER (is_unsigned specs) v (serves_le _ _ 9 HA ltac:(lia)) Hv) as (E & Hb & Cb & En & _ & Hl).
  set (b := skip_redundant (be_bytes 8 v)) in *. clearbody b.
  pose proof (proj1 (canonical_ne b Cb)) as Hn.
  pose proof (INTEGER_encode_uper_ok (K := K) specs td_cs cs b Hb Hn Hcs) as He.
  unfold NativeInteger_encode_uper. rewrite E.
  destruct (uper_integer_bits _ _ b) as [enc|] eqn:Eb; [|exact He]. split; [exact He|].
  destruct (INTEGER_decode_uper_ok ctx specs td_cs cs (Some None) b enc) as (b' & (Hb' & _ & En') & Hd);
    auto using minimal_check_canonical; [apply (serves_le _ _ _ HA); lia|].
  unfold NativeInteger_decode_uper. pose proof sizeof_word_cases.
  rewrite (have_struct_ok _ _ _ HA) by lia. cbn [negb].
  eapply decodes_last; [exact Hd|]. cbv beta iota.
  rewrite (native_of_number _ b' v) by (auto; congruence). apply decodes_ret.
Qed.

(** ** On arbitrary data *)

Section Follows.
Context {T : Target} {A : Allocator}.

Lemma follows_integer_constrained unsigned c pd : pd_ok pd -> follows pd (integer_decode_constrained unsigned c pd).
Proof. intros Hok. unfold integer_decode_constrained. follow. Qed.

Lemma follows_integer_body ctx unsigned ct pd : pd_ok pd -> follows pd (integer_decode_body ctx unsigned ct pd).
Proof.
  intros Hok. pose proof follows_integer_constrained. pose proof follows_fragments.
  unfold integer_decode_body. follow.
Qed.

Lemma follows_INTEGER ctx specs td_cs cs sptr pd :
  pd_ok pd -> follows pd (INTEGER_decode_uper ctx specs td_cs cs sptr pd).
Proof. intros Hok. pose proof follows_integer_body. unfold INTEGER_decode_uper. follow. Qed.

Lemma follows_NativeInteger ctx specs td_cs cs sptr pd :
  pd_ok pd -> follows pd (NativeInteger_decode_uper ctx specs td_cs cs sptr pd).
Proof. intros Hok. pose proof follows_INTEGER. unfold NativeInteger_decode_uper. follow. Qed.

Lemma follows_NativeEnumerated specs td_cs cs sptr pd :
  pd_ok pd -> follows pd (NativeEnumerated_decode_uper specs td_cs cs sptr pd).
Proof. intros Hok. unfold NativeEnumerated_decode_uper. follow. Qed.

Lemma follows_ENUMERATED specs td_cs cs sptr pd :
  pd_ok pd -> follows pd (ENUMERATED_decode_uper specs td_cs cs sptr pd).
Proof. intros Hok. pose proof follows_NativeEnumerated. unfold ENUMERATED_decode_uper. follow. Qed.

Lemma follows_BOOLEAN sptr pd : pd_ok pd -> follows pd (BOOLEAN_decode_uper sptr pd).
Proof. intros Hok. unfold BOOLEAN_decode_uper. follow. Qed.
End Follows.
#[export] Hint Resolve follows_INTEGER follows_NativeInteger follows_NativeEnumerated follows_ENUMERATED follows_BOOLEAN : follows.

(** * Properties *)

(** C26.  UPER of INTEGER: for every value, signed or unsigned field and
    constraint (range with its bit count, lower bound only, none; extensible
    or not), INTEGER_encode_uper writes exactly the bits of
    [uper_integer_bits] and INTEGER_decode_uper, on a stream that starts with
    them, consumes exactly these and yields an INTEGER with the same number,
    also under the canonical checks when the octets are minimal; where there
    is no encoding the encoder fails.  The bits are those X.691 #13 demands of
    the number ([x691_integer]) for every value in a range, and otherwise when
    the octets of the structure are the shortest ([standard_octets]): the
    encoder copies longer octets as they are, and above a lower bound of zero
    also the octet for the sign ([semi_constrained_sign_octet]). *)
Theorem INTEGER_uper_roundtrip {T : Target} {A : Allocator} {K} {C : Consumer K} {S : Sink K} {TS : TotalSink K}
    ctx specs td_cs cs sptr b :
  octets b -> b <> [] -> minimal_check ctx b = true ->
  (forall c, or_else cs td_cs = Some c -> per_value_ok (is_unsigned specs) (pc_value c)) ->
  serves A (16 + Z.of_nat (length b)) ->
  match uper_integer_bits (is_unsigned specs) (option_map pc_value (or_else cs td_cs)) b with
  | Some enc =>
      encodes (fun po : asn_bit_outp K => INTEGER_encode_uper specs td_cs cs (Some (Some b)) po) enc (ENCODED_OK 0) /\
      (exists b', same_number (is_unsigned specs) b b' /\
        decodes (INTEGER_decode_uper ctx specs td_cs cs sptr) enc (RC_OK 0 (Some b'))) /\
      (standard_octets (is_unsigned specs) (option_map pc_value (or_else cs td_cs)) b ->
       x691_integer (is_unsigned specs) (option_map pc_value (or_else cs td_cs)) (integer_number (is_unsigned specs) b) enc)
  | None =>
      forall po : asn_bit_outp K, po_ok po -> fst (INTEGER_encode_uper specs td_cs cs (Some (Some b)) po) = ENCODE_FAILED
  end.
Proof.
  intros Hb Hn Hmin Hcs HA. pose proof (INTEGER_encode_uper_ok (K := K) specs td_cs cs b Hb Hn Hcs) as He.
  destruct (uper_integer_bits _ _ b) as [enc|] eqn:E; [|exact He].
  split; [exact He|]. split; [now apply INTEGER_decode_uper_ok|]. intros Hs. now apply uper_integer_standard.
Qed.

Definition example_constraint : asn_per_constraints :=
  {| pc_value := mk_per_constraint (APC_CONSTRAINED .| APC_EXTENSIBLE) 9 9 (-256) 255;
     pc_size := mk_per_constraint APC_UNCONSTRAINED (-1) (-1) 0 0; value2code := None; code2value := None |}.

Lemma INTEGER_uper_roundtrip_witness :
  let b := [3; 232] in
  match uper_integer_bits false (Some (pc_value example_constraint)) b with
  | Some enc =>
      encodes (fun po : asn_bit_outp ByteBuffer => INTEGER_encode_uper None None (Some example_constraint) (Some (Some b)) po)
        enc (ENCODED_OK 0) /\
      (exists b', same_number false b b' /\
        decodes (@INTEGER_decode_uper LP64 (fun _ => true) None None None (Some example_constraint) None) enc (RC_OK 0 (Some b'))) /\
      (standard_octets false (Some (pc_value example_constraint)) b ->
       x691_integer false (Some (pc_value example_constraint)) (integer_number false b) enc)
  | None =>
      forall po : asn_bit_outp ByteBuffer, po_ok po ->
        fst (INTEGER_encode_uper None None (Some example_constraint) (Some (Some b)) po) = ENCODE_FAILED
  end.
Proof.
  apply (@INTEGER_uper_roundtrip LP64 (fun _ => true) ByteBuffer _ _ _ None None None (Some example_constraint) None [3; 232]).
  - repeat constructor; lia.
  - discriminate.
  - reflexivity.
  - intros c [= <-]. unfold per_value_ok, is_imax, INTMAX_MIN, INTMAX_MAX; cbn -[Z.pow].
    split; [lia|]. split; [lia|]. split; [right|discriminate]. repeat split; lia.
  - intros ? _. reflexivity.
Defined.

(** INTEGER(0..MAX), as the compiler describes it. *)
Definition lower_bound_only : asn_per_constraints :=
  {| pc_value := mk_per_constraint APC_SEMI_CONSTRAINED (-1) (-1) 0 0;
     pc_size := mk_per_constraint APC_UNCONSTRAINED (-1) (-1) 0 0; value2code := None; code2value := None |}.

(** Where the code departs from X.691 #13.2.3: a value above a lower bound of
    zero is the shortest number without a sign, but the encoder copies the
    octets of the structure, so that a number whose first bit is one is
    preceded by a zero octet; 128 is written as 02 00 80, not 01 80. *)
Theorem semi_constrained_sign_octet {K} {C : Consumer K} {S : Sink K} {TS : TotalSink K} x r :
  octets (x :: r) -> 128 <= x -> (length r <= 6)%nat ->
  encodes (fun po : asn_bit_outp K => INTEGER_encode_uper None None (Some lower_bound_only) (Some (Some (0 :: x :: r))) po)
    (fragmented (0 :: x :: r)) (ENCODED_OK 0) /\
  x691_integer false (Some (pc_value lower_bound_only)) (sval (0 :: x :: r)) (fragmented (x :: r)).
Proof.
  intros Hb Hx Hl. assert (octets (0 :: x :: r)) as H0 by (constructor; [unfold octet; lia|exact Hb]).
  assert (sval (0 :: x :: r) = be_val (x :: r)) as Ev by (unfold sval; cbn [Z.leb Z.compare]; cbn [be_val]; lia).
  pose proof (be_val_bound (x :: r) Hb) as Hv.
  assert (in_root false (pc_value lower_bound_only) (sval (0 :: x :: r)) = true) as Hin.
  { change ((0 <=? sval (0 :: x :: r)) = true). apply Z.leb_le. lia. }
  assert (per_value_ok false (pc_value lower_bound_only)) as Hok.
  { unfold per_value_ok, is_imax, INTMAX_MIN, INTMAX_MAX. cbn -[Z.pow]. split; [lia|]. split; [lia|]. split; [now left|reflexivity]. }
  split.
  - pose proof (INTEGER_encode_uper_ok (K := K) None None (Some lower_bound_only) (0 :: x :: r) H0 ltac:(discriminate)
      ltac:(intros c [= <-]; exact Hok)) as He.
    assert (uper_integer_bits false (Some (pc_value lower_bound_only)) (0 :: x :: r) = Some (fragmented (0 :: x :: r))) as E.
    { unfold uper_integer_bits, integer_number. cbn zeta. rewrite Hin.
      rewrite (imax_b_true _ (sval_imax (0 :: x :: r) H0 ltac:(cbn [length]; lia)) : number_fits false _ = true). reflexivity. }
    cbn [or_else option_map is_unsigned] in He. now rewrite E in He.
  - cbn [x691_integer]. rewrite Hin. cbn [has]. exists (x :: r). split; [|reflexivity].
    change (lower false (pc_value lower_bound_only)) with 0. rewrite Ev, Z.sub_0_r.
    repeat split; [exact Hb|discriminate|cbn [hd]; lia].
Qed.

Lemma semi_constrained_sign_octet_witness :
  encodes (fun po : asn_bit_outp ByteBuffer => INTEGER_encode_uper None None (Some lower_bound_only) (Some (Some [0; 128])) po)
    (fragmented [0; 128]) (ENCODED_OK 0) /\
  x691_integer false (Some (pc_value lower_bound_only)) 128 (fragmented [128]) /\
  fragmented [0; 128] = bytes_bits [2; 0; 128] /\ fragmented [128] = bytes_bits [1; 128].
Proof.
  destruct (@semi_constrained_sign_octet ByteBuffer _ _ _ 128 []) as (He & Hx); [repeat constructor; lia|lia|cbn; lia|].
  split; [exact He|]. split; [exact Hx|]. split; vm_compute; reflexivity.
Defined.

(** UPER of native integers: every [long] of the target, and every
    [unsigned long] that intmax_t holds, is encoded as the INTEGER it denotes
    and decoded to itself, at any constraint that has an encoding for it; a
    decoder in canonical mode accepts what the encoder wrote. *)
Theorem NativeInteger_uper_roundtrip {T : Target} {A : Allocator} {K} {C : Consumer K} {S : Sink K} {TS : TotalSink K}
    ctx specs td_cs cs sptr v :
  native_ok (is_unsigned specs) v ->
  (forall c, or_else cs td_cs = Some c -> per_value_ok (is_unsigned specs) (pc_value c)) ->
  serves A 24 ->
  match uper_integer_bits (is_unsigned specs) (option_map pc_value (or_else cs td_cs)) (skip_redundant (be_bytes 8 v)) with
  | Some enc =>
      encodes (fun po : asn_bit_outp K => NativeInteger_encode_uper specs td_cs cs (Some v) po) enc (ENCODED_OK 0) /\
      decodes (NativeInteger_decode_uper ctx specs td_cs cs sptr) enc (RC_OK 0 v)
  | None =>
      forall po : asn_bit_outp K, po_ok po -> fst (NativeInteger_encode_uper specs td_cs cs (Some v) po) = ENCODE_FAILED
  end.
Proof. apply NativeInteger_uper_ok. Qed.

Lemma NativeInteger_uper_roundtrip_witness :
  let v := -200 in
  match uper_integer_bits false (Some (pc_value example_constraint)) (skip_redundant (be_bytes 8 v)) with
  | Some enc =>
      encodes (fun po : asn_bit_outp ByteBuffer =>
        @NativeInteger_encode_uper ILP32 (fun _ => true) ByteBuffer _ None None (Some example_constraint) (Some v) po) enc (ENCODED_OK 0) /\
      decodes (@NativeInteger_decode_uper ILP32 (fun _ => true) None None None (Some example_constraint) None) enc (RC_OK 0 v)
  | None =>
      forall po : asn_bit_outp ByteBuffer, po_ok po ->
        fst (@NativeInteger_encode_uper ILP32 (fun _ => true) ByteBuffer _ None None (Some example_constraint) (Some v) po) = ENCODE_FAILED
  end.
Proof.
  apply (@NativeInteger_uper_roundtrip ILP32 (fun _ => true) ByteBuffer _ _ _ None None None (Some example_constraint) None (-200)).
  - cbn. unfold is_long, LONG_MIN, LONG_MAX; cbn; lia.
  - intros c [= <-]. unfold per_value_ok, is_imax, INTMAX_MIN, INTMAX_MAX; cbn -[Z.pow].
    split; [lia|]. split; [lia|]. split; [right|discriminate]. repeat split; lia.
  - intros ? _. reflexivity.
Defined.

(** UPER of enumerations, X.691 #14: for tables as the compiler emits
    them, the encoder writes the index of the element (with the extension bit
    and a normally small number beyond the root), both the native and the
    octet-string decoder return the element, and a number that is not in
    the table is refused. *)
Theorem enumerated_uper_roundtrip {T : Target} {A : Allocator} {K} {C : Consumer K} {S : Sink K} {TS : TotalSink K}
    specs td_cs cs c v :
  or_else cs td_cs = Some c -> enum_ok specs (pc_value c) -> serves A 16 ->
  if decide (v ∈ value2enum specs)
  then exists enc,
    encodes (fun po : asn_bit_outp K => NativeEnumerated_encode_uper (Some specs) td_cs cs (Some v) po) enc (ENCODED_OK 0) /\
    decodes (NativeEnumerated_decode_uper (Some specs) td_cs cs None) enc (RC_OK 0 v) /\
    (exists b, sval b = v /\ decodes (ENUMERATED_decode_uper (Some specs) td_cs cs None) enc (RC_OK 0 (Some b)) /\
       encodes (fun po : asn_bit_outp K => ENUMERATED_encode_uper (Some specs) td_cs cs (Some b) po) enc (ENCODED_OK 0))
  else forall po : asn_bit_outp K,
    NativeEnumerated_encode_uper (Some specs) td_cs cs (Some v) po = (ENCODE_FAILED, po).
Proof.
  intros Ec Hok HA. destruct (decide (v ∈ value2enum specs)) as [Hin|Hout].
  - apply list_elem_of_lookup in Hin as [i Hi]. pose proof (lookup_lt_Some _ _ _ Hi) as Hlt.
    assert (nth i (value2enum specs) 0 = v) as Ev by (apply nth_lookup_Some; exact Hi).
    pose proof (encodes_enum (K := K) specs td_cs cs c i Ec Hok Hlt) as He. rewrite Ev in He.
    pose proof (fun sp => decodes_enum specs td_cs cs c i sp Ec Hok Hlt HA) as Hd. rewrite Ev in Hd.
    eexists. split; [exact He|]. split; [apply Hd|].
    assert (is_long v) as Hv.
    { destruct Hok as (_ & Hl & _). rewrite Forall_forall in Hl. apply Hl. rewrite <- Ev. now apply nth_In. }
    destruct (imax2INTEGER_ok A v (serves_le _ _ 9 HA ltac:(lia)) (long_imax _ Hv)) as (b & E & Hb & Cb & Es & _).
    exists b. split; [exact Es|]. split.
    + unfold ENUMERATED_decode_uper. pose proof sizeof_INTEGER_bound. rewrite (have_struct_ok _ _ _ HA) by lia. cbn [negb].
      eapply decodes_last; [apply Hd|]. cbv beta iota. unfold asn_long2INTEGER. rewrite E. apply decodes_ret.
    + unfold ENUMERATED_encode_uper. rewrite (native_of_number false b v Hb Hv Es). exact He.
  - intros po. unfold NativeEnumerated_encode_uper. rewrite Ec, bsearch_native. destruct Hok as (Hasc & _).
    pose proof (bsearch_spec v (value2enum specs) Hasc) as H.
    destruct (bsearch _ v _) as [j|]; [|reflexivity]. destruct H as [Hj E]. destruct Hout.
    apply list_elem_of_In. rewrite <- E. now apply nth_In.
Qed.

Definition example_enum : asn_INTEGER_specifics :=
  {| value2enum := [-1; 0; 5; 6; 9]; extension := 4; strict_enumeration := true; field_width := 0; field_unsigned := false |}.

Definition example_enum_constraint : asn_per_constraints :=
  {| pc_value := mk_per_constraint (APC_CONSTRAINED .| APC_EXTENSIBLE) 2 2 0 2;
     pc_size := mk_per_constraint APC_UNCONSTRAINED (-1) (-1) 0 0; value2code := None; code2value := None |}.

Lemma enumerated_uper_roundtrip_witness :
  if decide (9 ∈ value2enum example_enum)
  then exists enc,
    encodes (fun po : asn_bit_outp ByteBuffer =>
      NativeEnumerated_encode_uper (Some example_enum) (Some example_enum_constraint) None (Some 9) po) enc (ENCODED_OK 0) /\
    decodes (@NativeEnumerated_decode_uper LP64 (fun _ => true) (Some example_enum) (Some example_enum_constraint) None None) enc (RC_OK 0 9) /\
    (exists b, sval b = 9 /\
       decodes (@ENUMERATED_decode_uper LP64 (fun _ => true) (Some example_enum) (Some example_enum_constraint) None None) enc (RC_OK 0 (Some b)) /\
       encodes (fun po : asn_bit_outp ByteBuffer =>
         @ENUMERATED_encode_uper LP64 ByteBuffer _ (Some example_enum) (Some example_enum_constraint) None (Some b) po) enc (ENCODED_OK 0))
  else forall po : asn_bit_outp ByteBuffer,
    NativeEnumerated_encode_uper (Some example_enum) (Some example_enum_constraint) None (Some 9) po = (ENCODE_FAILED, po).
Proof.
  apply (@enumerated_uper_roundtrip LP64 (fun _ => true) ByteBuffer _ _ _ example_enum (Some example_enum_constraint) None
           example_enum_constraint 9).
  - reflexivity.
  - unfold enum_ok. split; [|split; [|split; [|split]]].
    + intros i j Hij. cbn in Hij.
      do 5 (destruct i as [|i]; [do 5 (destruct j as [|j]; [cbn; lia|]); lia|]). lia.
    + repeat constructor; unfold is_long, LONG_MIN, LONG_MAX; cbn; lia.
    + cbn. lia.
    + vm_compute. split; discriminate.
    + vm_compute. split; [reflexivity|discriminate].
  - intros ? _. reflexivity.
Defined.

(** The enumeration decoder never leaves its table: on any stream and
    any constraint, a decoded value is an element of the table. *)
Theorem NativeEnumerated_decode_in_map {T : Target} {A : Allocator} specs td_cs cs sptr pd n v pd' :
  0 <= root_count specs <= map_count specs ->
  NativeEnumerated_decode_uper (Some specs) td_cs cs sptr pd = (RC_OK n v, pd') -> v ∈ value2enum specs.
Proof.
  intros Hr. unfold NativeEnumerated_decode_uper, DECODE_FAILED, DECODE_STARVED, map_count in *. intros E.
  destruct (or_else cs td_cs) as [c|]; [|discriminate]. destruct (negb (have_struct _ _)); [discriminate|].
  cbv zeta in E.
  assert (forall (i : Z), 0 <= i < Z.of_nat (length (value2enum specs)) ->
    nth (Z.to_nat i) (value2enum specs) 0 ∈ value2enum specs) as Hnth.
  { intros i Hi. apply list_elem_of_In, nth_In. lia. }
  assert (extension specs <> 0 -> 0 <= extension specs - 1) as Hext.
  { unfold root_count in Hr. destruct (Z.eqb_spec (extension specs) 0); cbn in Hr; lia. }
  repeat match type of E with
    | context [if ?b then _ else _] => destruct b eqn:?; bool_hyps; try discriminate
    | context [asn_get_few_bits ?p ?k] => destruct (asn_get_few_bits p k); cbv beta iota in E
    | context [uper_get_nsnnwn ?p] => destruct (uper_get_nsnnwn p); cbv beta iota in E
    end; injection E as <- <- <-; apply Hnth; lia.
Qed.

Lemma NativeEnumerated_decode_in_map_witness :
  NativeEnumerated_decode_uper (T := LP64) (A := fun _ => true) (Some example_enum) (Some example_enum_constraint) None None
    (mk_bit_data [129; 0] 0 16 0) = (RC_OK 0 9, mk_bit_data [129; 0] 8 16 8) /\ 9 ∈ value2enum example_enum.
Proof.
  split; [vm_compute; reflexivity|].
  apply (@NativeEnumerated_decode_in_map LP64 (fun _ => true) example_enum (Some example_enum_constraint) None None
    (mk_bit_data [129; 0] 0 16 0) 0 9 (mk_bit_data [129; 0] 8 16 8)).
  - vm_compute. split; discriminate.
  - vm_compute. reflexivity.
Defined.

(** C40.  Hostile input: on any well-formed stream, whatever its bits, the
    UPER decoders of the primitive types stay inside the data and only move
    forward, and the loop over the fragments of an unconstrained INTEGER
    ends (more iterations than the length of the data change nothing). *)
Theorem primitive_uper_decoders_safe {T : Target} {A : Allocator} ctx specs td_cs cs pd :
  pd_ok pd ->
  follows pd (INTEGER_decode_uper ctx specs td_cs cs None pd) /\
  follows pd (NativeInteger_decode_uper ctx specs td_cs cs None pd) /\
  follows pd (NativeEnumerated_decode_uper specs td_cs cs None pd) /\
  follows pd (ENUMERATED_decode_uper specs td_cs cs None pd) /\
  follows pd (BOOLEAN_decode_uper None pd) /\
  (forall fuel buf, (fragments_fuel pd <= fuel)%nat ->
     integer_fragments fuel pd buf = integer_fragments (fragments_fuel pd) pd buf).
Proof.
  intros Hok. split_all; auto with follows. intros fuel buf Hf.
  unfold fragments_fuel in *. rewrite <- length_remaining in * by assumption. apply fragments_fuel_enough; auto; lia.
Qed.

Lemma primitive_uper_decoders_safe_witness :
  let pd := mk_bit_data [193; 255; 7] 1 23 1 in
  follows pd (@INTEGER_decode_uper LP64 (fun _ => true) None None None None None pd) /\
  follows pd (@NativeInteger_decode_uper LP64 (fun _ => true) None None None None None pd) /\
  follows pd (@NativeEnumerated_decode_uper LP64 (fun _ => true) None None None None pd) /\
  follows pd (@ENUMERATED_decode_uper LP64 (fun _ => true) None None None None pd) /\
  follows pd (@BOOLEAN_decode_uper (fun _ => true) None pd) /\
  (forall fuel buf, (fragments_fuel pd <= fuel)%nat ->
     @integer_fragments LP64 (fun _ => true) fuel pd buf = @integer_fragments LP64 (fun _ => true) (fragments_fuel pd) pd buf).
Proof.
  apply (@primitive_uper_decoders_safe LP64 (fun _ => true) None None None None (mk_bit_data [193; 255; 7] 1 23 1)).
  unfold pd_ok; cbn. repeat split; try lia. repeat constructor; lia.
Defined.
