(* ===== verification/OerSupport.v ===== *)
(** Octet encoding rules, the shared part: oer_support.c, oer_encoder.c and
    oer_decoder.c under vanetza/asn1/support/.

    An OER encoder is a function on the state of any callback; [emits] says
    which octets it hands over, for callbacks that may refuse as well.  An
    OER decoder is a function of the octets at hand; [parses] says that it
    reads an encoding, whatever follows. *)

From S2P Require Import Prelude Runtime Constraints.

(** * Encoders and decoders *)

(** The result of an OER encoder: the count [er.encoded] and the state of the
    callback, or nothing for -1. *)
Definition oer_enc (K : Type) : Type := option (Z * K).

(** An encoder works with every callback. *)
Definition oer_encoder : Type := forall K, Consumer K -> K -> oer_enc K.

(** A decoder of a type, from the octets between [ptr] and [ptr + size]. *)
Definition oer_decoder (A : Type) : Type := list Z -> asn_dec_rval A.

(** [cb(bs, length, key)] with what is counted for it. *)
Definition put_bytes {K} {C : Consumer K} (bs : list Z) (k : K) : oer_enc K :=
  match consume k bs with Some k' => Some (Z.of_nat (length bs), k') | None => None end.

(** Two encoders in a row, both counted. *)
Definition enc_seq {K} (f : oer_enc K) (g : K -> oer_enc K) : oer_enc K :=
  match f with
  | None => None
  | Some (n, k) => match g k with Some (m, k') => Some (n + m, k') | None => None end
  end.

(** * Length determinants *)

(** "Skip the leading 0-bytes" of oer_fetch_length. *)
Fixpoint skip_leading_zeroes (b : list Z) : list Z :=
  match b with
  | x :: b' => if x =? 0 then skip_leading_zeroes b' else b
  | [] => []
  end.

Section Length.
Context {T : Target}.

(** oer_fetch_length: the octets used (0 for more data, -1 for an error) and
    the value of [*len_r]. *)
Definition oer_fetch_length (buf : list Z) : Z * Z :=
  match buf with
  | [] => (0, 0)
  | first_byte :: rest =>
      if first_byte .& 128 =? 0 then (1, first_byte)
      else
        let len_len := first_byte .& 127 in
        if Z.of_nat (length buf) <? 1 + len_len then (0, 0) else
        let b := skip_leading_zeroes (take (Z.to_nat len_len) rest) in
        if sizeof_word <? Z.of_nat (length b) then (-1, 0) else
        let len := fold_left (fun len x => uwrap word_bits (len ≪ 8 + x)) b 0 in
        if RSIZE_MAX <? len then (-1, 0) else (len_len + 1, len)
  end.

(** Leading zero octets, all but the last octet. *)
Fixpoint strip_zeroes (b : list Z) : list Z :=
  match b with
  | x :: ((_ :: _) as r) => if x =? 0 then strip_zeroes r else b
  | _ => b
  end.

(** oer_serialize_length, on a little-endian target as all supported ones
    are: the octets of [length] from the most significant one on. *)
Definition oer_serialize_length {K} {C : Consumer K} (length : Z) (k : K) : oer_enc K :=
  if length <=? 127 then put_bytes [length] k
  else
    let sp := strip_zeroes (be_bytes (Z.to_nat sizeof_word) length) in
    put_bytes (128 + Z.of_nat (List.length sp) :: sp) k.

(** * Primitive types and open types *)

Context {A : Allocator}.

(** oer_decode_primitive; the structure is that of an INTEGER or an OCTET
    STRING. *)
Definition oer_decode_primitive (sptr : option (option (list Z))) : oer_decoder (option (list Z)) := fun ptr =>
  if match sptr with Some _ => false | None => negb (malloc_ok (2 * sizeof_word)) end then DECODE_FAILED else
  let '(len_len, expected_length) := oer_fetch_length ptr in
  if 0 <? len_len then
    let ptr := drop (Z.to_nat len_len) ptr in
    if Z.of_nat (length ptr) <? expected_length then DECODE_STARVED
    else if malloc_ok (expected_length + 1)
    then RC_OK (len_len + expected_length) (Some (take (Z.to_nat expected_length) ptr))
    else DECODE_FAILED
  else if len_len =? 0 then DECODE_STARVED
  else DECODE_FAILED.

(** oer_encode_primitive. *)
Definition oer_encode_primitive {K} {C : Consumer K} (st : option (option (list Z))) (k : K) : oer_enc K :=
  match st with
  | None => None
  | Some st =>
      let buf := default [] st in
      enc_seq (oer_serialize_length (Z.of_nat (length buf)) k) (put_bytes buf)
  end.

(** oer_encode_to_buffer: the count and the octets stored, or -1. *)
Definition oer_encode_to_buffer (enc : oer_encoder) (buffer_size : Z) : option (Z * list Z) :=
  match enc _ encode_to_buffer_cb {| etb_data := []; etb_left := buffer_size |} with
  | None => None
  | Some (n, arg) => Some (n, etb_data arg)
  end.

(** oer_open_type_skip. *)
Definition oer_open_type_skip (buf : list Z) : Z := fst (oer_fetch_length buf).

(** oer_open_type_get: the return value and the structure.  [dec] is
    [td->op->oer_decoder] with its arguments. *)
Definition oer_open_type_get {X} (dec : oer_decoder X) (buf : list Z) : Z * option X :=
  let '(len_len, container_len) := oer_fetch_length buf in
  if len_len <=? 0 then (len_len, None)
  else if Z.of_nat (length buf) - len_len <? container_len then (0, None)
  else
    match dec (take (Z.to_nat container_len) (drop (Z.to_nat len_len) buf)) with
    | RC_OK _ st => (len_len + container_len, Some st)
    | _ => (-1, None)
    end.

(** oer_open_type_put: one pass to count, then length and contents.  [enc] is
    [td->op->oer_encoder] with its arguments. *)
Definition oer_open_type_put {K} {C : Consumer K} (enc : oer_encoder) (k : K) : oer_enc K :=
  match enc _ oer__count_bytes {| counted := 0 |} with
  | None => None
  | Some (_, arg) => enc_seq (oer_serialize_length (counted arg) k) (enc K C)
  end.
End Length.

(** * What encoders emit *)

(** The state of a callback after it was given the chunks in order. *)
Fixpoint feed {K} {C : Consumer K} (k : K) (chunks : list (list Z)) : option K :=
  match chunks with
  | [] => Some k
  | c :: cs => match consume k c with Some k' => feed k' cs | None => None end
  end.

(** [emits f bs]: with every callback, [f] hands over the octets [bs] and
    reports their number, or fails if the callback refuses a part. *)
Definition emits (f : oer_encoder) (bs : list Z) : Prop :=
  exists chunks, concat chunks = bs /\
    forall K (C : Consumer K) k, f K C k = option_map (fun k' => (Z.of_nat (length bs), k')) (feed k chunks).

(** [refuses f]: the encoder fails whatever the callback is. *)
Definition refuses (f : oer_encoder) : Prop := forall K (C : Consumer K) k, f K C k = None.

(** [parses d bs a]: [d] reads [a] from the octets [bs] and reports their
    number, whatever follows. *)
Definition parses {A} (d : oer_decoder A) (bs : list Z) (a : A) : Prop :=
  forall rest, d (bs ++ rest) = RC_OK (Z.of_nat (length bs)) a.

Lemma feed_app {K} {C : Consumer K} (k : K) c1 c2 :
  feed k (c1 ++ c2) = match feed k c1 with Some k' => feed k' c2 | None => None end.
Proof. revert k. induction c1 as [|c c1 IH]; intros k; cbn [feed app]; [reflexivity|]. destruct (consume k c); auto. Qed.

Lemma emits_bytes bs : emits (fun K C k => put_bytes bs k) bs.
Proof.
  exists [bs]. cbn [concat]. rewrite app_nil_r. split; [reflexivity|]. intros K C k.
  unfold put_bytes. cbn [feed]. destruct (consume k bs); reflexivity.
Qed.

Lemma emits_nothing : emits (fun K C k => Some (0, k)) [].
Proof. exists []. split; [reflexivity|]. reflexivity. Qed.

Lemma emits_seq (f g : oer_encoder) b1 b2 :
  emits f b1 -> emits g b2 -> emits (fun K C k => enc_seq (f K C k) (g K C)) (b1 ++ b2).
Proof.
  intros (c1 & E1 & H1) (c2 & E2 & H2). exists (c1 ++ c2).
  split; [now rewrite concat_app, E1, E2|]. intros K C k. rewrite H1, feed_app.
  destruct (feed k c1) as [k1|]; cbn [option_map enc_seq]; [|reflexivity]. rewrite H2.
  destruct (feed k1 c2) as [k2|]; cbn [option_map]; [|reflexivity]. now rewrite length_app, Nat2Z.inj_add.
Qed.

Lemma emits_ext (f g : oer_encoder) bs : (forall K C k, f K C k = g K C k) -> emits f bs -> emits g bs.
Proof. intros H (c & E & Hf). exists c. split; [exact E|]. intros K C k. now rewrite <- H. Qed.

Lemma emits_seq_refuses (f g : oer_encoder) bs :
  emits f bs -> refuses g -> refuses (fun K C k => enc_seq (f K C k) (g K C)).
Proof.
  intros (c & E & H) Hg K C k. rewrite H. destruct (feed k c) as [k'|]; cbn; [|reflexivity]. now rewrite Hg.
Qed.

(** ** With the callbacks of the library *)

Lemma feed_write_buffer (k : ByteBuffer) cs : feed k cs = Some (k ++ concat cs).
Proof.
  revert k. induction cs as [|c cs IH]; intros k; cbn [feed concat]; [now rewrite app_nil_r|].
  unfold consume, write_buffer. rewrite IH. now rewrite app_assoc.
Qed.

Lemma emits_write_buffer f bs (out : ByteBuffer) :
  emits f bs -> f ByteBuffer write_buffer out = Some (Z.of_nat (length bs), out ++ bs).
Proof. intros (cs & <- & H). now rewrite H, feed_write_buffer. Qed.

Lemma feed_count k cs :
  @feed _ oer__count_bytes k cs = Some {| counted := counted k + Z.of_nat (length (concat cs)) |}.
Proof.
  revert k. induction cs as [|c cs IH]; intros k; cbn [feed concat].
  - destruct k as [n]; cbn. do 2 f_equal. lia.
  - unfold consume, oer__count_bytes. rewrite IH. cbn [counted]. rewrite length_app. do 2 f_equal. lia.
Qed.

Lemma feed_to_buffer cs : forall arg,
  0 <= etb_left arg ->
  @feed _ encode_to_buffer_cb arg cs =
    if Z.of_nat (length (concat cs)) <=? etb_left arg
    then Some {| etb_data := etb_data arg ++ concat cs; etb_left := etb_left arg - Z.of_nat (length (concat cs)) |}
    else None.
Proof.
  induction cs as [|c cs IH]; intros [data left] H0; cbn [feed concat etb_left etb_data] in *.
  - rewrite (proj2 (Z.leb_le _ _)) by (simpl; lia). rewrite app_nil_r. do 2 f_equal. simpl. lia.
  - unfold consume, encode_to_buffer_cb. cbn [etb_left etb_data]. rewrite length_app.
    destruct (Z.ltb_spec left (Z.of_nat (length c))) as [H|H].
    + now rewrite (proj2 (Z.leb_gt _ _)) by lia.
    + rewrite IH by (cbn [etb_left]; lia). cbn [etb_left etb_data]. rewrite <- app_assoc.
      destruct (Z.leb_spec (Z.of_nat (length (concat cs))) (left - Z.of_nat (length c))).
      * rewrite (proj2 (Z.leb_le _ _)) by lia. do 2 f_equal. lia.
      * now rewrite (proj2 (Z.leb_gt _ _)) by lia.
Qed.

(** * Length determinants on the wire *)

(** X.696 #8.6: short form up to 127, else the number of octets and the
    octets. *)
Definition length_octets {T : Target} (n : Z) : list Z :=
  if n <=? 127 then [n]
  else let sp := strip_zeroes (be_bytes (Z.to_nat sizeof_word) n) in (128 + Z.of_nat (length sp)) :: sp.

Lemma strip_zeroes_spec b :
  octets b -> b <> [] ->
  octets (strip_zeroes b) /\ be_val (strip_zeroes b) = be_val b /\ (1 <= length (strip_zeroes b) <= length b)%nat /\
  (hd 0 (strip_zeroes b) <> 0 \/ (length (strip_zeroes b) = 1)%nat).
Proof.
  induction b as [|x [|y r] IH]; [congruence| |]; intros Hb _.
  - cbn [strip_zeroes hd length]. split_all; auto.
  - change (strip_zeroes (x :: y :: r)) with (if x =? 0 then strip_zeroes (y :: r) else x :: y :: r).
    pose proof (proj1 (octets_cons _ _) Hb) as [Hx Hr].
    destruct (Z.eqb_spec x 0) as [->|Hx0].
    + destruct (IH Hr ltac:(discriminate)) as (H1 & H2 & H3 & H4). cbn [length] in *.
      split_all; auto; lia.
    + split_all; auto; cbn [length]; lia.
Qed.

Lemma skip_leading_zeroes_spec b :
  octets b ->
  octets (skip_leading_zeroes b) /\ be_val (skip_leading_zeroes b) = be_val b /\
  (length (skip_leading_zeroes b) <= length b)%nat /\
  (skip_leading_zeroes b <> [] -> 256 ^ Z.of_nat (length (skip_leading_zeroes b) - 1) <= be_val b).
Proof.
  induction 1 as [|x r Hx Hr IH]; cbn [skip_leading_zeroes]; [split_all; [constructor|reflexivity|lia|congruence]|].
  destruct (Z.eqb_spec x 0) as [->|Hx0].
  - destruct IH as (H1 & H2 & H3 & H4). cbn [length be_val]. split_all; auto; lia.
  - assert (octets (x :: r)) by now constructor. split_all; auto. intros _. cbn [length be_val].
    replace (Datatypes.S (length r) - 1)%nat with (length r) by lia.
    pose proof (be_val_bound r Hr). unfold octet in Hx.
    pose proof (Z.pow_pos_nonneg 256 (Z.of_nat (length r)) ltac:(lia) ltac:(lia)). nia.
Qed.

Lemma fold_length w b acc :
  0 < w -> octets b -> 0 <= acc -> acc * 256 ^ Z.of_nat (length b) + be_val b < 2 ^ w ->
  fold_left (fun len x => uwrap w (len ≪ 8 + x)) b acc = acc * 256 ^ Z.of_nat (length b) + be_val b.
Proof.
  intros Hw Hb. revert acc. induction Hb as [|x b Hx Hb IH]; intros acc Ha Hlt; cbn [fold_left length be_val] in *.
  - cbn. lia.
  - rewrite Nat2Z.inj_succ, Z.pow_succ_r in * by lia. pose proof (be_val_bound b Hb). unfold octet in Hx.
    pose proof (Z.pow_pos_nonneg 256 (Z.of_nat (length b)) ltac:(lia) ltac:(lia)).
    rewrite Z.shiftl_mul_pow2 by lia. change (2 ^ 8) with 256.
    rewrite uwrap_small by nia. rewrite IH; [ring|lia|nia].
Qed.

Section LengthWire.
Context {T : Target}.

Lemma emits_length n : emits (fun K C k => oer_serialize_length n k) (length_octets n).
Proof.
  unfold oer_serialize_length, length_octets. destruct (n <=? 127); apply emits_bytes.
Qed.

(** The value of oer_fetch_length on any data. *)
Lemma fetch_length_long first rest :
  128 <= first < 256 -> octets (take (Z.to_nat (first - 128)) rest) ->
  let m := Z.to_nat (first - 128) in
  oer_fetch_length (first :: rest) =
    if (length rest <? m)%nat then (0, 0)
    else if RSIZE_MAX <? be_val (take m rest) then (-1, 0)
    else (1 + Z.of_nat m, be_val (take m rest)).
Proof.
  intros Hx Ht m. cbn [oer_fetch_length].
  assert ((first .& 128 =? 0) = false /\ first .& 127 = first - 128) as [-> ->].
  { assert (0 <= first - 128 < 128) as Hs by lia.
    pose proof (small_cases (fun i => negb ((i + 128) .& 128 =? 0) && ((i + 128) .& 127 =? i)) 128
                  ltac:(vm_compute; reflexivity) _ Hs) as H. cbv beta in H.
    rewrite Z.sub_add in H. apply andb_prop in H as [H1 H2]. apply negb_true_iff in H1. apply Z.eqb_eq in H2. auto. }
  cbn [length]. fold m. destruct (Nat.ltb_spec (length rest) m) as [Hl|Hl].
  { now rewrite (proj2 (Z.ltb_lt _ _)) by lia. }
  rewrite (proj2 (Z.ltb_ge _ _)) by lia.
  fold m in Ht.
  destruct (skip_leading_zeroes_spec _ Ht) as (H1 & H2 & H3 & H4).
  set (b := skip_leading_zeroes (take m rest)) in *.
  pose proof (be_val_bound b H1) as Bb. rewrite H2 in Bb.
  pose proof RSIZE_MAX_value as ER. pose proof sizeof_word_cases as Hw.
  assert (2 ^ word_bits = 256 ^ sizeof_word) as Ew by (destruct Hw as [[-> ->]|[-> ->]]; reflexivity).
  assert (RSIZE_MAX < 2 ^ word_bits) by (rewrite ER; destruct Hw as [[-> _]|[-> _]]; lia).
  destruct (Z.ltb_spec sizeof_word (Z.of_nat (length b))) as [Hs|Hs].
  - assert (b <> []) as Hn by (intros E; apply (f_equal length) in E; cbn [length] in E; lia). specialize (H4 Hn).
    pose proof (Z.pow_le_mono_r 256 sizeof_word (Z.of_nat (length b - 1)) ltac:(lia) ltac:(lia)).
    now rewrite (proj2 (Z.ltb_lt _ _)) by lia.
  - pose proof (Z.pow_le_mono_r 256 (Z.of_nat (length b)) sizeof_word eq_refl Hs) as Hp. rewrite <- Ew in Hp.
    rewrite fold_length; [|lia|assumption|reflexivity|rewrite H2; clear - Bb Hp; lia]. rewrite Z.mul_0_l, Z.add_0_l, H2.
    destruct (RSIZE_MAX <? be_val (take m rest)); [reflexivity|]. f_equal. lia.
Qed.

Lemma fetch_length_short first rest : 0 <= first <= 127 -> oer_fetch_length (first :: rest) = (1, first).
Proof.
  intros Hf. cbn [oer_fetch_length].
  pose proof (small_cases (fun i => i .& 128 =? 0) 128 ltac:(vm_compute; reflexivity) first ltac:(lia)) as H.
  cbv beta in H. now rewrite H.
Qed.

Lemma octets_length_octets n : 0 <= n -> octets (length_octets n).
Proof.
  intros Hn. unfold length_octets. destruct (Z.leb_spec n 127); [repeat constructor; lia|].
  pose proof sizeof_word_cases.
  destruct (strip_zeroes_spec (be_bytes (Z.to_nat sizeof_word) n)) as (H1 & _ & H3 & _); auto with asn.
  - intros E. apply (f_equal length) in E. rewrite length_be_bytes in E. cbn in E. lia.
  - rewrite length_be_bytes in H3. cbv zeta. apply octets_cons. split; [split; lia|assumption].
Qed.

(** oer_fetch_length reads what oer_serialize_length wrote. *)
Lemma fetch_length_octets n rest :
  0 <= n <= RSIZE_MAX ->
  oer_fetch_length (length_octets n ++ rest) = (Z.of_nat (length (length_octets n)), n).
Proof.
  intros Hn. pose proof (octets_length_octets n ltac:(lia)) as Ho. unfold length_octets in *.
  destruct (Z.leb_spec n 127); [now apply fetch_length_short|]. pose proof sizeof_word_cases as Hw.
  destruct (strip_zeroes_spec (be_bytes (Z.to_nat sizeof_word) n)) as (H1 & H2 & H3 & _); auto with asn.
  { intros E. apply (f_equal length) in E. rewrite length_be_bytes in E. cbn in E. lia. }
  rewrite be_val_be_bytes in H2. rewrite length_be_bytes in H3.
  rewrite Z.mod_small in H2.
  2: { pose proof RSIZE_MAX_value as ER. rewrite ER in Hn. rewrite Z2Nat.id by lia.
       destruct Hw as [[E1 E2]|[E1 E2]]; rewrite E1 in Hn; rewrite E2; clear - Hn; lia. }
  cbv zeta in *. set (sp := strip_zeroes _) in *. rewrite <- app_comm_cons.
  assert (Z.to_nat (128 + Z.of_nat (length sp) - 128) = length sp) as El by lia.
  rewrite fetch_length_long; rewrite ?El, ?take_app_length; [|lia|assumption].
  rewrite H2. rewrite (proj2 (Nat.ltb_ge _ _)) by len.
  rewrite (proj2 (Z.ltb_ge _ _)) by lia. cbn [length]. f_equal. lia.
Qed.

(** What oer_fetch_length may return. *)
Lemma fetch_length_bound buf :
  octets buf ->
  let '(n, len) := oer_fetch_length buf in
  n = -1 \/ 0 <= n <= Z.of_nat (length buf) /\ 0 <= len <= RSIZE_MAX.
Proof.
  intros Hb. assert (127 <= RSIZE_MAX) as HR.
  { rewrite RSIZE_MAX_value. destruct sizeof_word_cases as [[-> _]|[-> _]]; lia. }
  destruct buf as [|x r]; [cbn; lia|]. pose proof (proj1 (octets_cons _ _) Hb) as [Hx Hr]. unfold octet in Hx.
  destruct (Z.lt_ge_cases x 128); [rewrite fetch_length_short by lia; cbn [length]; lia|].
  rewrite fetch_length_long by (auto with asn; lia). cbv zeta.
  destruct (Nat.ltb_spec (length r) (Z.to_nat (x - 128))); [lia|].
  pose proof (be_val_bound (take (Z.to_nat (x - 128)) r) ltac:(auto with asn)).
  destruct (Z.ltb_spec RSIZE_MAX (be_val (take (Z.to_nat (x - 128)) r))); [lia|]. cbn [length]. lia.
Qed.
End LengthWire.

Section Containers.
Context {T : Target} {A : Allocator}.

Lemma length_octets_pos n : (1 <= length (length_octets n))%nat.
Proof. unfold length_octets. destruct (n <=? 127); cbn [length]; lia. Qed.

(** Octets behind their length. *)
Definition with_length (bs : list Z) : list Z := length_octets (Z.of_nat (length bs)) ++ bs.

Lemma parses_primitive sptr bs :
  Z.of_nat (length bs) <= RSIZE_MAX -> serves A (Z.max 16 (Z.of_nat (length bs) + 1)) ->
  parses (oer_decode_primitive sptr) (with_length bs) (Some bs).
Proof.
  intros Hn HA rest. unfold oer_decode_primitive, with_length. pose proof sizeof_word_cases.
  rewrite (HA (2 * sizeof_word)) by lia. replace (match sptr with Some _ => false | None => negb true end) with false by now destruct sptr.
  rewrite <- app_assoc, fetch_length_octets by lia. pose proof (length_octets_pos (Z.of_nat (length bs))).
  rewrite (proj2 (Z.ltb_lt _ _)) by lia. rewrite Nat2Z.id, drop_app_length.
  rewrite (proj2 (Z.ltb_ge _ _)) by len. rewrite HA by lia. rewrite Nat2Z.id, take_app_length.
  f_equal. len.
Qed.

Lemma bounded_primitive sptr ptr :
  octets ptr -> match oer_decode_primitive sptr ptr with
  | RC_OK n st => 0 <= n <= Z.of_nat (length ptr)
  | RC_WMORE n | RC_FAIL n => n = 0
  end.
Proof.
  intros Hp. unfold oer_decode_primitive. destruct (match sptr with Some _ => _ | None => _ end); [reflexivity|].
  pose proof (fetch_length_bound ptr Hp) as Hb. destruct (oer_fetch_length ptr) as [n len].
  destruct (Z.ltb_spec 0 n).
  - destruct (Z.ltb_spec (Z.of_nat (length (drop (Z.to_nat n) ptr))) len) as [|Hl]; [reflexivity|].
    destruct (malloc_ok _); [|reflexivity]. rewrite length_drop in Hl. lia.
  - destruct (n =? 0); reflexivity.
Qed.

Lemma emits_primitive bs : emits (fun K C k => oer_encode_primitive (Some (Some bs)) k) (with_length bs).
Proof. apply (emits_seq (fun K C k => oer_serialize_length _ k) (fun K C k => put_bytes bs k)); [apply emits_length|apply emits_bytes]. Qed.

Lemma emits_open_type enc bs : emits enc bs -> emits (fun K C k => oer_open_type_put enc k) (with_length bs).
Proof.
  intros He. pose proof He as (cs & E & H). unfold with_length.
  apply (emits_ext (fun K C k => enc_seq (oer_serialize_length (Z.of_nat (length bs)) k) (enc K C))).
  - intros K C k. unfold oer_open_type_put. rewrite H, feed_count, E. reflexivity.
  - apply (emits_seq (fun K C k => oer_serialize_length _ k)); [apply emits_length|exact He].
Qed.

Lemma open_type_get_ok {X} (dec : oer_decoder X) bs rest n x :
  Z.of_nat (length bs) <= RSIZE_MAX -> dec bs = RC_OK n x ->
  oer_open_type_get dec (with_length bs ++ rest) = (Z.of_nat (length (with_length bs)), Some x).
Proof.
  intros Hn Hd. unfold oer_open_type_get, with_length. rewrite <- app_assoc, fetch_length_octets by lia.
  pose proof (length_octets_pos (Z.of_nat (length bs))).
  rewrite (proj2 (Z.leb_gt _ _)) by lia. rewrite (proj2 (Z.ltb_ge _ _)) by len.
  rewrite !Nat2Z.id, drop_app_length, take_app_length, Hd. f_equal. len.
Qed.
End Containers.

(** * Properties *)

(** OER lengths, X.696 #8.6: oer_serialize_length emits one short-form
    octet up to 127 and the long form above; oer_fetch_length reads every
    length up to RSIZE_MAX back, whatever follows, and asks for more data on
    every proper prefix of the determinant. *)
Theorem oer_length_roundtrip {T : Target} n :
  0 <= n <= RSIZE_MAX ->
  emits (fun K C k => oer_serialize_length n k) (length_octets n) /\
  (forall rest, oer_fetch_length (length_octets n ++ rest) = (Z.of_nat (length (length_octets n)), n)) /\
  (forall k, (k < length (length_octets n))%nat -> oer_fetch_length (take k (length_octets n)) = (0, 0)).
Proof.
  intros Hn. split; [apply emits_length|]. split; [intros; now apply fetch_length_octets|].
  intros k Hk. pose proof (octets_length_octets n ltac:(lia)) as Ho. unfold length_octets in *.
  destruct (n <=? 127); cbv zeta in *; [destruct k; [reflexivity|simpl in Hk; lia]|].
  destruct k as [|k]; [reflexivity|]. set (sp := strip_zeroes _) in *. cbn [take length] in *.
  apply octets_cons in Ho as [Hx Hs]. unfold octet in Hx.
  rewrite fetch_length_long by (auto with asn; lia). cbv zeta.
  now rewrite (proj2 (Nat.ltb_lt _ _)) by len.
Qed.

Lemma oer_length_roundtrip_witness :
  0 <= 70000 <= @RSIZE_MAX ILP32 /\
  emits (fun K C k => @oer_serialize_length ILP32 K C 70000 k) (@length_octets ILP32 70000) /\
  (forall rest, @oer_fetch_length ILP32 (@length_octets ILP32 70000 ++ rest) = (Z.of_nat (length (@length_octets ILP32 70000)), 70000)) /\
  (forall k, (k < length (@length_octets ILP32 70000))%nat -> @oer_fetch_length ILP32 (take k (@length_octets ILP32 70000)) = (0, 0)).
Proof.
  assert (0 <= 70000 <= @RSIZE_MAX ILP32) as H by (vm_compute; split; discriminate).
  split; [exact H|]. exact (@oer_length_roundtrip ILP32 70000 H).
Defined.

(** oer_fetch_length on any octets never uses more octets than there
    are, never reports a length above RSIZE_MAX, and a long form is exactly
    the big-endian number of its octets. *)
Theorem oer_fetch_length_safe {T : Target} buf :
  octets buf ->
  let '(n, len) := oer_fetch_length buf in
  (n = -1 \/ 0 <= n <= Z.of_nat (length buf) /\ 0 <= len <= RSIZE_MAX) /\
  (0 < n -> len = if n =? 1 then be_val (take 1 buf) .& 127 else be_val (take (Z.to_nat n - 1) (drop 1 buf))).
Proof.
  intros Hb. pose proof (fetch_length_bound buf Hb) as Hbound.
  destruct buf as [|x r]; [split; [exact Hbound|intros; lia]|]. pose proof (proj1 (octets_cons _ _) Hb) as [Hx Hr]. unfold octet in Hx.
  destruct (Z.lt_ge_cases x 128) as [H|H].
  - rewrite fetch_length_short in * by lia. split; [exact Hbound|]. intros _. cbn [Z.eqb Pos.eqb take be_val length].
    pose proof (small_cases (fun i => i .& 127 =? i) 128 ltac:(vm_compute; reflexivity) x ltac:(lia)) as E.
    cbv beta in E. apply Z.eqb_eq in E. change (256 ^ Z.of_nat 0) with 1. rewrite Z.mul_1_r, Z.add_0_r. congruence.
  - rewrite fetch_length_long in * by (auto with asn; lia). cbv zeta in *.
    destruct (_ <? _)%nat; [split; [exact Hbound|lia]|]. destruct (_ <? _); [split; [exact Hbound|lia]|].
    split; [exact Hbound|]. intros _. destruct (Z.eqb_spec (1 + Z.of_nat (Z.to_nat (x - 128))) 1) as [E|E].
    + replace (Z.to_nat (x - 128)) with 0%nat by lia. assert (x = 128) as -> by lia. reflexivity.
    + cbn [drop]. do 2 f_equal. lia.
Qed.

Lemma oer_fetch_length_safe_witness :
  octets [131; 0; 1; 4; 9] /\
  let '(n, len) := @oer_fetch_length LP64 [131; 0; 1; 4; 9] in
  (n = -1 \/ 0 <= n <= Z.of_nat (length [131; 0; 1; 4; 9]) /\ 0 <= len <= @RSIZE_MAX LP64) /\
  (0 < n -> len = if n =? 1 then be_val (take 1 [131; 0; 1; 4; 9]) .& 127 else be_val (take (Z.to_nat n - 1) (drop 1 [131; 0; 1; 4; 9]))).
Proof.
  assert (octets [131; 0; 1; 4; 9]) as H by (repeat constructor; lia). split; [exact H|].
  exact (@oer_fetch_length_safe LP64 _ H).
Defined.

(** OER open types, X.696 #30: whatever a type's encoder emits,
    oer_open_type_put (which runs the encoder twice, first to count) emits
    its length and then those octets, for every callback; and
    oer_open_type_get returns the structure and the size of the container
    when the type's decoder accepts the contents.  oer_open_type_skip
    returns the size of the length determinant only, so a caller that
    advances by it stops in front of the contents. *)
Theorem oer_open_type_roundtrip {T : Target} {X} (enc : oer_encoder) (dec : oer_decoder X) bs n x :
  emits enc bs -> dec bs = RC_OK n x -> Z.of_nat (length bs) <= RSIZE_MAX ->
  emits (fun K C k => oer_open_type_put enc k) (with_length bs) /\
  (forall rest, oer_open_type_get dec (with_length bs ++ rest) = (Z.of_nat (length (with_length bs)), Some x)) /\
  (forall rest, oer_open_type_skip (with_length bs ++ rest) = Z.of_nat (length (with_length bs)) - Z.of_nat (length bs)).
Proof.
  intros He Hd Hn. split; [now apply emits_open_type|]. split; [intros; now apply (open_type_get_ok dec bs rest n)|].
  intros rest. unfold oer_open_type_skip, with_length. rewrite <- app_assoc, fetch_length_octets by lia. cbn [fst]. len.
Qed.

Lemma oer_open_type_roundtrip_witness :
  let enc : oer_encoder := fun K C k => @oer_encode_primitive LP64 K C (Some (Some [1; 2; 3])) k in
  let dec := @oer_decode_primitive LP64 (fun _ => true) None in
  let bs := [3; 1; 2; 3] in
  emits (fun K C k => @oer_open_type_put LP64 K C enc k) (@with_length LP64 bs) /\
  (forall rest, @oer_open_type_get LP64 _ dec (@with_length LP64 bs ++ rest) =
     (Z.of_nat (length (@with_length LP64 bs)), Some (Some [1; 2; 3]))) /\
  (forall rest, @oer_open_type_skip LP64 (@with_length LP64 bs ++ rest) =
     Z.of_nat (length (@with_length LP64 bs)) - Z.of_nat (length bs)).
Proof.
  apply (@oer_open_type_roundtrip LP64 _ (fun K C k => @oer_encode_primitive LP64 K C (Some (Some [1; 2; 3])) k)
    (@oer_decode_primitive LP64 (fun _ => true) None) [3; 1; 2; 3] 4 (Some [1; 2; 3])).
  - apply (@emits_primitive LP64 [1; 2; 3]).
  - vm_compute. reflexivity.
  - vm_compute. discriminate.
Defined.

(** oer_encode_to_buffer stores exactly the octets the type's encoder
    emits and returns their number, which is what its assertion compares,
    when the buffer is large enough; otherwise it returns -1. *)
Theorem oer_encode_to_buffer_exact (enc : oer_encoder) bs buffer_size :
  emits enc bs -> 0 <= buffer_size ->
  oer_encode_to_buffer enc buffer_size =
    if Z.of_nat (length bs) <=? buffer_size then Some (Z.of_nat (length bs), bs) else None.
Proof.
  intros (cs & E & H) Hs. unfold oer_encode_to_buffer. rewrite H, feed_to_buffer by (cbn; lia).
  cbn [etb_left etb_data app]. rewrite E. destruct (_ <=? _); reflexivity.
Qed.

Lemma oer_encode_to_buffer_exact_witness :
  oer_encode_to_buffer (fun K C k => @oer_encode_primitive LP64 K C (Some (Some [7; 8])) k) 3 =
    if Z.of_nat (length (@with_length LP64 [7; 8])) <=? 3
    then Some (Z.of_nat (length (@with_length LP64 [7; 8])), @with_length LP64 [7; 8]) else None.
Proof.
  apply (oer_encode_to_buffer_exact (fun K C k => @oer_encode_primitive LP64 K C (Some (Some [7; 8])) k) (@with_length LP64 [7; 8]) 3).
  - apply (@emits_primitive LP64 [7; 8]).
  - lia.
Defined.

(** Types coded as a length and octets: oer_decode_primitive reads back
    the octets oer_encode_primitive emits, reports exactly their number, and
    on arbitrary data never reports more octets than it was given. *)
Theorem oer_primitive_roundtrip {T : Target} {A : Allocator} sptr bs :
  Z.of_nat (length bs) <= RSIZE_MAX -> serves A (Z.max 16 (Z.of_nat (length bs) + 1)) ->
  emits (fun K C k => oer_encode_primitive (Some (Some bs)) k) (with_length bs) /\
  parses (oer_decode_primitive sptr) (with_length bs) (Some bs) /\
  (forall ptr, octets ptr -> match oer_decode_primitive sptr ptr with
   | RC_OK n _ => 0 <= n <= Z.of_nat (length ptr)
   | RC_WMORE n | RC_FAIL n => n = 0
   end).
Proof.
  intros Hn HA. split; [apply emits_primitive|]. split; [now apply parses_primitive|].
  intros. now apply bounded_primitive.
Qed.

Lemma oer_primitive_roundtrip_witness :
  emits (fun K C k => @oer_encode_primitive LP64 K C (Some (Some [5; 6])) k) (@with_length LP64 [5; 6]) /\
  parses (@oer_decode_primitive LP64 (fun _ => true) None) (@with_length LP64 [5; 6]) (Some [5; 6]) /\
  (forall ptr, octets ptr -> match @oer_decode_primitive LP64 (fun _ => true) None ptr with
   | RC_OK n _ => 0 <= n <= Z.of_nat (length ptr)
   | RC_WMORE n | RC_FAIL n => n = 0
   end).
Proof.
  apply (@oer_primitive_roundtrip LP64 (fun _ => true) None [5; 6]).
  - vm_compute. discriminate.
  - intros ? _. reflexivity.
Defined.
