(* ===== verification/IntegerOer.v ===== *)
(** OER of INTEGER, ENUMERATED, BOOLEAN and NULL: INTEGER_oer.c,
    NativeInteger_oer.c, NativeEnumerated_oer.c, ENUMERATED_oer.c,
    BOOLEAN_oer.c and NULL_oer.c under vanetza/asn1/support/.

    [oer_integer_octets] states the encoding of a number; the encoder emits
    it for every INTEGER that denotes the number, whatever insignificant
    octets it has, and the decoder returns an INTEGER with that number. *)

From S2P Require Import Prelude Runtime Constraints BitData BitOutp Integer IntegerUper OerSupport.

(** [constraints->value], or no constraint at all. *)
Definition oer_number (constraints of_type : option asn_oer_constraints) : asn_oer_constraint_number :=
  match or_else constraints of_type with
  | Some c => oc_value c
  | None => {| width := 0; positive := false |}
  end.

(** * INTEGER *)

Section IntegerOer.
Context {T : Target} {A : Allocator}.

(** [if(!st) st = CALLOC(1, size)] fails. *)
Definition no_struct {X} (sptr : option X) (size : Z) : bool :=
  match sptr with Some _ => false | None => negb (malloc_ok size) end.

(** The copy of the contents octets: an octet is put in front of a large
    unsigned number. *)
Definition integer_copy_contents (pos : bool) (consumed req_bytes : Z) (ptr : list Z) : asn_dec_rval INTEGER_t :=
  let bytes := take (Z.to_nat req_bytes) ptr in
  if pos then
    let msb := hd 0 ptr ≫ 7 in
    if malloc_ok (msb + req_bytes + 1)
    then RC_OK (consumed + req_bytes) (Some (if msb =? 0 then bytes else 0 :: bytes))
    else DECODE_FAILED
  else if malloc_ok (req_bytes + 1) then RC_OK (consumed + req_bytes) (Some bytes)
  else DECODE_FAILED.

(** INTEGER_decode_oer. *)
Definition INTEGER_decode_oer (td_constraints constraints : option asn_oer_constraints)
    (sptr : option INTEGER_t) : oer_decoder INTEGER_t := fun ptr =>
  if no_struct sptr (2 * sizeof_word) then DECODE_FAILED else
  let ct := oer_number constraints td_constraints in
  let finish consumed req_bytes ptr :=
    if (req_bytes =? 0) || (Z.of_nat (length ptr) <? req_bytes) then DECODE_STARVED
    else integer_copy_contents (positive ct) consumed req_bytes ptr in
  if negb (width ct =? 0) then finish 0 (width ct) ptr
  else
    let '(consumed, req_bytes) := oer_fetch_length ptr in
    if consumed =? 0 then DECODE_STARVED
    else if consumed =? -1 then DECODE_FAILED
    else finish consumed req_bytes (drop (Z.to_nat consumed) ptr).

(** The loop that writes [n] padding octets. *)
Fixpoint put_padding {K} {C : Consumer K} (sign : bool) (n : nat) (k : K) : oer_enc K :=
  match n with
  | O => Some (0, k)
  | Datatypes.S n' => enc_seq (put_bytes [if sign then 255 else 0] k) (put_padding sign n')
  end.

(** INTEGER_encode_oer. *)
Definition INTEGER_encode_oer {K} {C : Consumer K} (td_constraints constraints : option asn_oer_constraints)
    (st : option INTEGER_t) (k : K) : oer_enc K :=
  match st with
  | None | Some None | Some (Some []) => None
  | Some (Some b) =>
      let ct := oer_number constraints td_constraints in
      let sign := negb (hd 0 b .& 128 =? 0) in
      if positive ct && sign then None else
      let buf := if positive ct then strip_zeroes b else skip_redundant b in
      let useful_bytes := length buf in
      if negb (width ct =? 0) then
        if width ct <? Z.of_nat useful_bytes then None
        else enc_seq (put_padding sign (Z.to_nat (width ct) - useful_bytes) k) (put_bytes buf)
      else enc_seq (oer_serialize_length (Z.of_nat useful_bytes) k) (put_bytes buf)
  end.

(** * NativeInteger *)

Definition NativeInteger_decode_oer (specs : option asn_INTEGER_specifics)
    (td_constraints constraints : option asn_oer_constraints) (nint_ptr : option Z) : oer_decoder Z := fun ptr =>
  if no_struct nint_ptr sizeof_word then DECODE_FAILED else
  match INTEGER_decode_oer td_constraints constraints (Some None) ptr with
  | RC_OK n tmpint =>
      match (if is_unsigned specs then asn_INTEGER2ulong tmpint else asn_INTEGER2long tmpint) with
      | inr native => RC_OK n native
      | inl _ => RC_FAIL n
      end
  | RC_WMORE n => RC_WMORE n
  | RC_FAIL n => RC_FAIL n
  end.

Definition NativeInteger_encode_oer {K} {C : Consumer K} (specs : option asn_INTEGER_specifics)
    (td_constraints constraints : option asn_oer_constraints) (sptr : option Z) (k : K) : oer_enc K :=
  match sptr with
  | None => None
  | Some native =>
      match (if is_unsigned specs then asn_ulong2INTEGER (uwrap word_bits native) else asn_long2INTEGER native) with
      | None => None
      | Some tmpint => INTEGER_encode_oer td_constraints constraints (Some tmpint) k
      end
  end.

(** * Enumerations *)

(** asn__nativeenumerated_convert: sign initialization and accumulation in
    [unsigned long]. *)
Definition asn__nativeenumerated_convert (b : list Z) : Z :=
  let value := if hd 0 b ≫ 7 =? 0 then 0 else ULONG_MAX in
  swrap word_bits (fold_left (fun value x => uwrap word_bits (value ≪ 8) .| x) b value).

Definition NativeEnumerated_decode_oer (specs : option asn_INTEGER_specifics) (nint_ptr : option Z) : oer_decoder Z := fun ptr =>
  match ptr with
  | [] => DECODE_STARVED
  | b :: rest =>
      if b .& 128 =? 0 then
        if no_struct nint_ptr sizeof_word then DECODE_FAILED else RC_OK 1 b
      else
        let length := b .& 127 in
        if (length <? 1) || (sizeof_word <? length) then DECODE_FAILED
        else if Z.of_nat (List.length ptr) <? 1 + length then DECODE_STARVED
        else
          let value := asn__nativeenumerated_convert (take (Z.to_nat length) rest) in
          if (value <? 0) && is_unsigned specs then DECODE_FAILED
          else if no_struct nint_ptr sizeof_word then DECODE_FAILED
          else RC_OK (1 + length) value
  end.

(** The loop that stores the octets of [native] from the last one on, until
    the sign is all that is left; nothing once the scratch area is full. *)
Fixpoint enumerated_octets (fuel : nat) (native final_pattern : Z) (stored : list Z) : option (list Z) :=
  match fuel with
  | O => None
  | Datatypes.S fuel' =>
      let b := u8 native in
      let native := native ≫ 8 in
      if (native =? final_pattern) && Bool.eqb (negb (b .& 128 =? 0)) (negb (final_pattern =? 0))
      then Some (b :: stored)
      else enumerated_octets fuel' native final_pattern (b :: stored)
  end.

Definition NativeEnumerated_encode_oer {K} {C : Consumer K} (sptr : option Z) (k : K) : oer_enc K :=
  match sptr with
  | None => None
  | Some native =>
      if (0 <=? native) && (native <=? 127) then put_bytes [native] k
      else
        match enumerated_octets (Z.to_nat sizeof_word) native (if native <? 0 then -1 else 0) [] with
        | None => None
        | Some b => put_bytes (128 .| Z.of_nat (length b) :: b) k
        end
  end.

Definition ENUMERATED_decode_oer (specs : option asn_INTEGER_specifics) (sptr : option INTEGER_t) : oer_decoder INTEGER_t := fun ptr =>
  if no_struct sptr (2 * sizeof_word) then DECODE_FAILED else
  match NativeEnumerated_decode_oer specs (Some 0) ptr with
  | RC_OK n value => match asn_long2INTEGER value with Some st => RC_OK n st | None => RC_FAIL n end
  | RC_WMORE n => RC_WMORE n
  | RC_FAIL n => RC_FAIL n
  end.

Definition ENUMERATED_encode_oer {K} {C : Consumer K} (st : INTEGER_t) (k : K) : oer_enc K :=
  match asn_INTEGER2long st with
  | inl _ => None
  | inr value => NativeEnumerated_encode_oer (Some value) k
  end.

(** * BOOLEAN and NULL *)

Definition BOOLEAN_encode_oer {K} {C : Consumer K} (st : Z) (k : K) : oer_enc K :=
  put_bytes [if st =? 0 then 0 else 255] k.

Definition BOOLEAN_decode_oer (sptr : option Z) : oer_decoder Z := fun ptr =>
  match ptr with
  | [] => DECODE_STARVED
  | b :: _ => if no_struct sptr 4 then DECODE_FAILED else RC_OK 1 b
  end.

Definition NULL_decode_oer (sptr : option Z) : oer_decoder Z := fun _ =>
  match sptr with
  | Some st => RC_OK 0 st
  | None => if malloc_ok 4 then RC_OK 0 0 else DECODE_FAILED
  end.

Definition NULL_encode_oer {K} {C : Consumer K} (st : option Z) (k : K) : oer_enc K := Some (0, k).
End IntegerOer.

(** * INTEGER on the wire *)

(** Whether a number fits [w] octets, unsigned or two's complement. *)
Definition fits_width (pos : bool) (w v : Z) : bool :=
  if pos then (0 <=? v) && (v <? 2 ^ (8 * w)) else (- 2 ^ (8 * w - 1) <=? v) && (v <? 2 ^ (8 * w - 1)).

Lemma put_padding_emits sign n :
  emits (fun K C k => put_padding sign n k) (replicate n (if sign then 255 else 0)).
Proof.
  induction n as [|n IH]; cbn [put_padding replicate]; [apply emits_nothing|].
  change (?x :: ?l) with ([x] ++ l).
  apply (emits_seq (fun K C k => put_bytes [if sign then 255 else 0] k)); [apply emits_bytes|exact IH].
Qed.

Lemma be_bytes_pad_zero n b :
  octets b -> (length b <= n)%nat -> be_bytes n (be_val b) = replicate (n - length b) 0 ++ b.
Proof.
  intros Hb Hl. assert (octets (replicate (n - length b) 0 ++ b)) as Ho.
  { apply octets_app. split; [|assumption]. apply Forall_replicate. split; lia. }
  apply be_val_inj; auto with asn; [len|].
  rewrite be_val_be_bytes, be_val_app. pose proof (be_val_bound b Hb) as B. rewrite pow256 in B by lia.
  assert (be_val (replicate (n - length b) 0) = 0) as ->
    by (generalize (n - length b)%nat as m; induction m as [|m IH]; cbn; [reflexivity|rewrite IH; lia]).
  pose proof (pow2_le (8 * Z.of_nat (length b)) (8 * Z.of_nat n)). rewrite Z.mod_small; lia.
Qed.

Lemma be_val_ones m : be_val (replicate m 255) = 256 ^ Z.of_nat m - 1.
Proof.
  induction m as [|m IH]; [reflexivity|]. cbn [replicate be_val]. rewrite IH, length_replicate.
  rewrite Nat2Z.inj_succ, Z.pow_succ_r by lia. lia.
Qed.

(** Sign extension to [n] octets. *)
Lemma be_bytes_sign_extend n b :
  octets b -> b <> [] -> (length b <= n)%nat ->
  be_bytes n (sval b) = replicate (n - length b) (if sval b <? 0 then 255 else 0) ++ b.
Proof.
  intros Hb Hn Hl. destruct (Z.ltb_spec (sval b) 0) as [Hs|Hs].
  2: { rewrite <- be_val_nonneg_sval by assumption. now apply be_bytes_pad_zero. }
  assert (sval b = be_val b - 256 ^ Z.of_nat (length b)) as Es.
  { pose proof (be_val_bound b Hb). destruct b as [|x r]; [congruence|]. unfold sval in *. destruct (128 <=? x); lia. }
  apply be_val_inj; auto with asn; [|len|].
  { apply octets_app. split; [|assumption]. apply Forall_replicate. split; lia. }
  rewrite be_val_be_bytes, be_val_app, be_val_ones, <- pow256 by lia. rewrite Es.
  pose proof (be_val_bound b Hb).
  assert (256 ^ Z.of_nat n = 256 ^ Z.of_nat (n - length b) * 256 ^ Z.of_nat (length b)) as En.
  { rewrite <- Z.pow_add_r by lia. f_equal. lia. }
  pose proof (Z.pow_pos_nonneg 256 (Z.of_nat (n - length b)) ltac:(lia) ltac:(lia)).
  rewrite <- (Z.mod_add _ 1) by (rewrite En; nia). rewrite Z.mod_small; rewrite En; nia.
Qed.

(** The number of octets a number needs. *)
Lemma strip_zeroes_fits b w :
  octets b -> b <> [] -> 0 < w ->
  (Z.of_nat (length (strip_zeroes b)) <=? w) = (be_val b <? 2 ^ (8 * w)).
Proof.
  intros Hb Hn Hw. destruct (strip_zeroes_spec b Hb Hn) as (H1 & <- & H3 & H4).
  set (c := strip_zeroes b) in *. pose proof (be_val_bound c H1) as B. rewrite pow256 in B by lia.
  destruct (Z.leb_spec (Z.of_nat (length c)) w) as [Hl|Hl]; symmetry.
  - apply Z.ltb_lt. pose proof (pow2_le (8 * Z.of_nat (length c)) (8 * w)). lia.
  - apply Z.ltb_ge. destruct H4 as [H4|H4]; [|lia]. destruct c as [|x r]; [cbn in Hl; lia|].
    cbn [hd be_val length] in *. apply octets_cons in H1 as [Hx Hr]. pose proof (be_val_bound r Hr).
    unfold octet in Hx. rewrite pow256 by lia. pose proof (pow2_le (8 * w) (8 * Z.of_nat (length r))). nia.
Qed.

Lemma skip_redundant_fits b w :
  octets b -> b <> [] -> 0 < w ->
  (Z.of_nat (length (skip_redundant b)) <=? w) = fits_width false w (sval b).
Proof.
  intros Hb Hn Hw. pose proof (skip_redundant_octets b Hb) as Hc. pose proof (skip_redundant_canonical b Hn) as Cc.
  rewrite <- (skip_redundant_sval b Hb). set (c := skip_redundant b) in *.
  pose proof (canonical_ne c Cc) as [Nc _]. pose proof (sval_bound c Hc Nc) as B.
  assert (1 <= length c)%nat by (destruct c; [congruence|cbn; lia]).
  unfold fits_width. destruct (Z.leb_spec (Z.of_nat (length c)) w) as [Hl|Hl].
  - pose proof (pow2_le (8 * Z.of_nat (length c) - 1) (8 * w - 1)). symmetry. apply andb_true_iff. lia.
  - pose proof (canonical_bound c Hc Cc ltac:(lia)).
    pose proof (pow2_le (8 * w - 1) (8 * (Z.of_nat (length c) - 1) - 1)). symmetry. apply andb_false_iff. lia.
Qed.

(** X.696 #10: a fixed number of octets when the constraint has a width,
    otherwise a length and the fewest octets; nothing for a number the
    constraint does not admit. *)
Definition oer_integer_octets {T : Target} (ct : asn_oer_constraint_number) (b : list Z) : option (list Z) :=
  let v := sval b in
  if positive ct && (v <? 0) then None
  else if negb (width ct =? 0) then
    if fits_width (positive ct) (width ct) v then Some (be_bytes (Z.to_nat (width ct)) v) else None
  else Some (with_length (if positive ct then strip_zeroes b else skip_redundant b)).

(** Unsigned octets without leading zeroes are determined by their number. *)
Lemma strip_zeroes_unique a b :
  octets a -> octets b -> a <> [] -> b <> [] -> be_val a = be_val b -> strip_zeroes a = strip_zeroes b.
Proof.
  intros Ha Hb Na Nb E.
  assert (forall x y, octets x -> octets y -> x <> [] -> y <> [] -> be_val x = be_val y ->
    (length (strip_zeroes x) <= length (strip_zeroes y))%nat) as Hle.
  { clear. intros x y Hx Hy Nx Ny E. destruct (strip_zeroes_spec y Hy Ny) as (H1 & H2 & H3 & _).
    pose proof (strip_zeroes_fits x (Z.of_nat (length (strip_zeroes y))) Hx Nx ltac:(lia)) as F.
    rewrite E in F. pose proof (strip_zeroes_fits y (Z.of_nat (length (strip_zeroes y))) Hy Ny ltac:(lia)) as G.
    rewrite Z.leb_refl in G. rewrite <- G in F. apply Z.leb_le in F. lia. }
  destruct (strip_zeroes_spec a Ha Na) as (H1 & H2 & _), (strip_zeroes_spec b Hb Nb) as (G1 & G2 & _).
  apply be_val_inj; auto; [|congruence].
  pose proof (Hle a b Ha Hb Na Nb E). pose proof (Hle b a Hb Ha Nb Na (eq_sym E)). lia.
Qed.

Section Wire.
Context {T : Target}.

(** The encoding depends on the number only. *)
Lemma oer_integer_octets_canonical ct a b :
  octets a -> octets b -> a <> [] -> b <> [] -> sval a = sval b -> oer_integer_octets ct a = oer_integer_octets ct b.
Proof.
  intros Ha Hb Na Nb E. unfold oer_integer_octets. rewrite E. destruct (positive ct) eqn:Ep.
  - destruct (Z.ltb_spec (sval b) 0) as [Hs|Hs]; cbn [andb]; [reflexivity|].
    rewrite (strip_zeroes_unique a b) by (auto; rewrite !be_val_nonneg_sval; auto; lia). reflexivity.
  - cbn [andb]. rewrite (canonical_unique (skip_redundant a) (skip_redundant b)); auto with asn.
    + now apply skip_redundant_canonical.
    + now apply skip_redundant_canonical.
    + now rewrite !skip_redundant_sval.
Qed.

Lemma INTEGER_encode_oer_ok td_cs cs b :
  octets b -> b <> [] -> 0 <= width (oer_number cs td_cs) ->
  match oer_integer_octets (oer_number cs td_cs) b with
  | Some bs => emits (fun K C k => INTEGER_encode_oer td_cs cs (Some (Some b)) k) bs
  | None => refuses (fun K C k => INTEGER_encode_oer td_cs cs (Some (Some b)) k)
  end.
Proof.
  intros Hb Hn Hw. unfold oer_integer_octets, INTEGER_encode_oer. destruct b as [|x r] eqn:Eb; [congruence|].
  cbn [hd]. rewrite <- (sval_sign x r) by assumption. rewrite <- Eb in *. clear Eb. set (ct := oer_number cs td_cs) in *.
  destruct (positive ct && (sval b <? 0)) eqn:Eneg; [intros K C k; reflexivity|].
  set (buf := if positive ct then strip_zeroes b else skip_redundant b).
  destruct (Z.eqb_spec (width ct) 0) as [Ew|Ew]; cbn [negb].
  { apply (emits_seq (fun K C k => oer_serialize_length _ k) (fun K C k => put_bytes buf k));
      [apply emits_length|apply emits_bytes]. }
  assert ((width ct <? Z.of_nat (length buf)) = negb (fits_width (positive ct) (width ct) (sval b))) as ->.
  { rewrite Z.ltb_antisym. f_equal. subst buf. destruct (positive ct); cbn [andb] in Eneg.
    - rewrite strip_zeroes_fits, be_val_nonneg_sval by (auto; bool_hyps; lia).
      unfold fits_width. bool_hyps. now rewrite (proj2 (Z.leb_le 0 _)) by lia.
    - apply skip_redundant_fits; auto. lia. }
  destruct (fits_width (positive ct) (width ct) (sval b)) eqn:Ef; cbn [negb]; [|intros K C k; reflexivity].
  assert (octets buf /\ buf <> [] /\ sval b = (if positive ct then be_val buf else sval buf)) as (Hob & Hnb & Ev).
  { subst buf. destruct (positive ct); cbn [andb] in Eneg.
    - destruct (strip_zeroes_spec b Hb Hn) as (H1 & H2 & H3 & _). split; [assumption|]. split.
      + intros E. rewrite E in H3. cbn in H3. lia.
      + rewrite H2. symmetry. apply be_val_nonneg_sval; auto. bool_hyps. lia.
    - split; [auto with asn|]. split; [now apply skip_redundant_length|]. symmetry. now apply skip_redundant_sval. }
  assert (Z.of_nat (length buf) <= width ct) as Hfit.
  { apply Z.leb_le. subst buf. destruct (positive ct); cbn [andb] in Eneg.
    - rewrite strip_zeroes_fits by (auto; lia). unfold fits_width in Ef. apply andb_prop in Ef as [_ Ef].
      rewrite be_val_nonneg_sval by (auto; bool_hyps; lia). exact Ef.
    - rewrite skip_redundant_fits by (auto; lia). exact Ef. }
  assert (be_bytes (Z.to_nat (width ct)) (sval b) =
          replicate (Z.to_nat (width ct) - length buf) (if sval b <? 0 then 255 else 0) ++ buf) as ->.
  { rewrite Ev. destruct (positive ct); cbn [andb] in Eneg.
    - rewrite Ev in Eneg. rewrite Eneg. apply be_bytes_pad_zero; [assumption|lia].
    - apply be_bytes_sign_extend; auto. lia. }
  apply (emits_seq (fun K C k => put_padding _ _ k) (fun K C k => put_bytes buf k));
    [apply put_padding_emits|apply emits_bytes].
Qed.

Context {A : Allocator}.

(** The INTEGER made of contents octets. *)
Definition contents_integer (pos : bool) (bytes : list Z) : list Z :=
  if pos && (128 <=? hd 0 bytes) then 0 :: bytes else bytes.

Lemma contents_integer_ok pos bytes :
  octets bytes -> bytes <> [] ->
  octets (contents_integer pos bytes) /\ contents_integer pos bytes <> [] /\
  sval (contents_integer pos bytes) = (if pos then be_val bytes else sval bytes).
Proof.
  intros Hb Hn. unfold contents_integer. destruct pos; cbn [andb]; [|auto].
  destruct bytes as [|x r]; [congruence|]. cbn [hd]. destruct (Z.leb_spec 128 x).
  - split; [apply octets_cons; split; [split; lia|assumption]|]. split; [discriminate|].
    unfold sval. cbn [Z.leb Z.compare be_val]. lia.
  - split_all; auto. unfold sval. rewrite (proj2 (Z.leb_gt _ _)) by lia. lia.
Qed.

Lemma copy_contents pos consumed bytes rest :
  octets bytes -> bytes <> [] -> serves A (Z.of_nat (length bytes) + 2) ->
  integer_copy_contents pos consumed (Z.of_nat (length bytes)) (bytes ++ rest) =
    RC_OK (consumed + Z.of_nat (length bytes)) (Some (contents_integer pos bytes)).
Proof.
  intros Hb Hn HA. unfold integer_copy_contents, contents_integer. rewrite Nat2Z.id, take_app_length.
  destruct bytes as [|x r]; [congruence|]. cbn [app hd]. apply octets_cons in Hb as [Hx _].
  destruct pos; cbn [andb]; [|now rewrite HA by lia].
  assert (0 <= x ≫ 7 <= 1) as Hm.
  { unfold octet in Hx. rewrite Z.shiftr_div_pow2 by lia. change (2 ^ 7) with 128.
    split; [apply Z.div_pos; lia|]. pose proof (Z.div_lt_upper_bound x 128 2 ltac:(lia) ltac:(lia)). lia. }
  rewrite HA by lia. rewrite shift7, Z.ltb_antisym by assumption. now destruct (128 <=? x).
Qed.

Lemma no_struct_ok {X} (sptr : option X) size n : serves A n -> 0 <= size <= n -> no_struct sptr size = false.
Proof. intros HA Hs. destruct sptr; [reflexivity|]. unfold no_struct. now rewrite HA. Qed.

Lemma sval_be_bytes_width w v : 0 < w -> fits_width false w v = true -> sval (be_bytes (Z.to_nat w) v) = v.
Proof.
  intros Hw Hf. unfold fits_width in Hf. apply andb_prop in Hf as [H1 H2]. bool_hyps.
  rewrite sval_swrap; [|auto with asn|].
  - rewrite be_val_be_bytes, length_be_bytes, Z2Nat.id, swrap_mod, swrap_small by lia. reflexivity.
  - intros E. apply (f_equal length) in E. rewrite length_be_bytes in E. cbn in E. lia.
Qed.

(** The contents octets of an encoding, and their length in front if the
    constraint has no width. *)
Lemma oer_integer_contents ct b bs :
  octets b -> b <> [] -> 0 <= width ct -> oer_integer_octets ct b = Some bs ->
  exists m, octets m /\ m <> [] /\ (if positive ct then be_val m else sval m) = sval b /\
    if width ct =? 0 then bs = with_length m /\ (length m <= length b)%nat
    else bs = m /\ Z.of_nat (length m) = width ct.
Proof.
  intros Hb Hn Hw E. unfold oer_integer_octets in E.
  destruct (positive ct && (sval b <? 0)) eqn:Eneg; [discriminate|].
  destruct (Z.eqb_spec (width ct) 0) as [Ew|Ew]; cbn [negb] in E.
  - injection E as <-. eexists. split; [|split; [|split; [|split; [reflexivity|]]]];
      destruct (positive ct); cbn [andb] in Eneg;
      (try destruct (strip_zeroes_spec b Hb Hn) as (H1 & H2 & H3 & _)); destruct (skip_redundant_length b) as [L1 L2];
      try solve [auto with asn | lia].
    + intros Em. rewrite Em in H3. cbn in H3. lia.
    + rewrite H2. apply be_val_nonneg_sval; auto. bool_hyps. lia.
    + now apply skip_redundant_sval.
  - destruct (fits_width _ _ _) eqn:Ef; [|discriminate]. injection E as <-. eexists.
    split; [|split; [|split; [|split; [reflexivity|]]]]; [auto with asn| | |rewrite length_be_bytes; lia].
    + intros Em. apply (f_equal length) in Em. rewrite length_be_bytes in Em. cbn in Em. lia.
    + destruct (positive ct); [|apply sval_be_bytes_width; [lia|exact Ef]].
      unfold fits_width in Ef. apply andb_prop in Ef as [F1 F2]. bool_hyps.
      rewrite be_val_be_bytes, Z2Nat.id, Z.mod_small by lia. reflexivity.
Qed.

Lemma INTEGER_decode_oer_ok td_cs cs sptr b bs :
  octets b -> b <> [] -> 0 <= width (oer_number cs td_cs) <= 8 -> Z.of_nat (length b) <= RSIZE_MAX ->
  serves A (16 + Z.of_nat (length b)) ->
  oer_integer_octets (oer_number cs td_cs) b = Some bs ->
  exists b', octets b' /\ b' <> [] /\ sval b' = sval b /\
    parses (INTEGER_decode_oer td_cs cs sptr) bs (Some b').
Proof.
  intros Hb Hn Hw Hl HA E. destruct (oer_integer_contents _ b bs Hb Hn (proj1 Hw) E) as (m & Hm & Nm & Vm & Hbs).
  set (ct := oer_number cs td_cs) in *. destruct (contents_integer_ok (positive ct) m Hm Nm) as (Ho & Nc & Vc).
  exists (contents_integer (positive ct) m). split; [exact Ho|]. split; [exact Nc|]. split; [congruence|].
  intros rest. unfold INTEGER_decode_oer. pose proof sizeof_word_cases. rewrite (no_struct_ok _ _ _ HA) by lia.
  fold ct. assert (length m <> 0)%nat by (destruct m; cbn; congruence).
  destruct (Z.eqb_spec (width ct) 0) as [Ew|Ew]; cbn [negb]; destruct Hbs as [-> Hlm]; cbv zeta.
  - assert (with_length m ++ rest = length_octets (Z.of_nat (length m)) ++ m ++ rest) as ->
      by (unfold with_length; now rewrite app_assoc).
    rewrite fetch_length_octets by lia.
    pose proof (length_octets_pos (Z.of_nat (length m))). bool_cases.
    rewrite Nat2Z.id, drop_app_length. rewrite (proj2 (Z.ltb_ge _ _)) by len. cbn [orb].
    rewrite copy_contents by (auto; apply (serves_le _ _ _ HA); lia). f_equal. unfold with_length. len.
  - rewrite (proj2 (Z.ltb_ge _ _)) by len. cbn [orb].
    rewrite <- Hlm. rewrite copy_contents by (auto; apply (serves_le _ _ _ HA); lia). reflexivity.
Qed.
End Wire.

(** * Enumerations on the wire *)

(** The stop test of the encoder: the number fits the octets stored. *)
Lemma enumerated_stop n j :
  let q := n ≫ (8 * Z.of_nat j) in
  let fp := if n <? 0 then -1 else 0 in
  (q ≫ 8 =? fp) && Bool.eqb (negb (u8 q .& 128 =? 0)) (negb (fp =? 0)) = fits_width false (Z.of_nat (Datatypes.S j)) n.
Proof.
  intros q fp. rewrite land128 by auto with asn.
  assert (q = 256 * (q ≫ 8) + u8 q /\ 0 <= u8 q < 256) as [Eq Hb].
  { rewrite Z.shiftr_div_pow2 by lia. unfold uwrap. change (2 ^ 8) with 256. split; [apply Z.div_mod; lia|apply Z.mod_pos_bound; lia]. }
  set (p := 2 ^ (8 * Z.of_nat j)). pose proof (pow2_pos (8 * Z.of_nat j) ltac:(lia)) as Hp. fold p in Hp.
  assert (p * q <= n < p * q + p) as Hq.
  { subst q. rewrite Z.shiftr_div_pow2 by lia. fold p. pose proof (Z.div_mod n p ltac:(lia)). pose proof (Z.mod_pos_bound n p Hp). lia. }
  unfold fits_width. replace (8 * Z.of_nat (Datatypes.S j) - 1) with (7 + 8 * Z.of_nat j) by lia.
  rewrite Z.pow_add_r by lia. fold p. change (2 ^ 7) with 128.
  assert ((- (128 * p) <=? n) && (n <? 128 * p) = (-128 <=? q) && (q <? 128)) as ->.
  { destruct (Z.leb_spec (- (128 * p)) n), (Z.leb_spec (-128) q), (Z.ltb_spec n (128 * p)), (Z.ltb_spec q 128); try reflexivity; nia. }
  subst fp. destruct (Z.ltb_spec n 0); cbn [negb Z.eqb];
    destruct (Z.eqb_spec (q ≫ 8) (-1)), (Z.eqb_spec (q ≫ 8) 0), (Z.ltb_spec (u8 q) 128),
      (Z.leb_spec (-128) q), (Z.ltb_spec q 128); cbn [negb andb Bool.eqb]; try reflexivity; nia.
Qed.

Lemma enumerated_octets_ok n fuel : forall j,
  (forall i, (1 <= i <= j)%nat -> fits_width false (Z.of_nat i) n = false) ->
  fits_width false (Z.of_nat (j + fuel)) n = true -> (1 <= fuel)%nat ->
  exists m, enumerated_octets fuel (n ≫ (8 * Z.of_nat j)) (if n <? 0 then -1 else 0) (be_bytes j n) = Some (be_bytes m n) /\
    (1 <= m <= j + fuel)%nat /\ fits_width false (Z.of_nat m) n = true /\
    (forall i, (1 <= i < m)%nat -> fits_width false (Z.of_nat i) n = false).
Proof.
  induction fuel as [|fuel IH]; intros j Hj Hfit Hf; [lia|]. cbn [enumerated_octets]. cbv zeta.
  rewrite enumerated_stop. change (u8 (n ≫ (8 * Z.of_nat j)) :: be_bytes j n) with (be_bytes (Datatypes.S j) n).
  destruct (fits_width false (Z.of_nat (Datatypes.S j)) n) eqn:E.
  - exists (Datatypes.S j). split; [reflexivity|]. split; [lia|]. split; [exact E|]. intros i Hi. apply Hj. lia.
  - assert (forall i, (1 <= i <= Datatypes.S j)%nat -> fits_width false (Z.of_nat i) n = false) as Hj'.
    { intros i Hi. destruct (Nat.eq_dec i (Datatypes.S j)) as [->|]; [exact E|]. apply Hj. lia. }
    destruct fuel as [|fuel].
    { replace (j + 1)%nat with (Datatypes.S j) in Hfit by lia. congruence. }
    rewrite Z.shiftr_shiftr by lia. replace (8 * Z.of_nat j + 8) with (8 * Z.of_nat (Datatypes.S j)) by lia.
    destruct (IH (Datatypes.S j) Hj') as (m & Em & Hm & H); [|lia|].
    + replace (Datatypes.S j + Datatypes.S fuel)%nat with (j + Datatypes.S (Datatypes.S fuel))%nat by lia. exact Hfit.
    + exists m. split; [exact Em|]. split; [lia|exact H].
Qed.

Section EnumWire.
Context {T : Target} {A : Allocator}.

(** X.696 #11: the number itself up to 127, otherwise a length with the high
    bit and the fewest two's complement octets. *)
Definition oer_enumerated_octets (n : Z) (bs : list Z) : Prop :=
  if (0 <=? n) && (n <=? 127) then bs = [n]
  else exists b, bs = 128 + Z.of_nat (length b) :: b /\ octets b /\ sval b = n /\ (1 <= length b)%nat /\
    forall c, octets c -> c <> [] -> sval c = n -> (length b <= length c)%nat.

Lemma long_fits n : is_long n -> fits_width false sizeof_word n = true.
Proof.
  unfold is_long, LONG_MIN, LONG_MAX, fits_width. destruct sizeof_word_cases as [[-> ->]|[-> ->]]; lia.
Qed.

Lemma fits_sval c : octets c -> c <> [] -> fits_width false (Z.of_nat (length c)) (sval c) = true.
Proof. intros Hc Hn. pose proof (sval_bound c Hc Hn). unfold fits_width. apply andb_true_iff. lia. Qed.

(** The long form of the encoder. *)
Lemma enumerated_long n :
  is_long n ->
  exists b, enumerated_octets (Z.to_nat sizeof_word) n (if n <? 0 then -1 else 0) [] = Some b /\
    octets b /\ sval b = n /\ (1 <= length b <= Z.to_nat sizeof_word)%nat /\
    forall c, octets c -> c <> [] -> sval c = n -> (length b <= length c)%nat.
Proof.
  intros Hn. pose proof sizeof_word_cases as Hw.
  destruct (enumerated_octets_ok n (Z.to_nat sizeof_word) 0) as (m & E & Hm & Hf & Hmin); [lia| |lia|].
  { cbn [Nat.add]. rewrite Z2Nat.id by lia. now apply long_fits. }
  change (8 * Z.of_nat 0) with 0 in E. rewrite Z.shiftr_0_r in E. exists (be_bytes m n).
  split; [exact E|]. split; [auto with asn|]. rewrite length_be_bytes. split; [|split; [lia|]].
  - rewrite <- (Nat2Z.id m) at 1. apply sval_be_bytes_width; [lia|exact Hf].
  - intros c Hc Nc Ec. destruct (Nat.le_gt_cases m (length c)) as [|Hlt]; [assumption|].
    pose proof (fits_sval c Hc Nc) as Hfc. rewrite Ec in Hfc. rewrite Hmin in Hfc; [discriminate|].
    destruct c; [congruence|]. cbn [length] in *. lia.
Qed.

Lemma enum_header m : 1 <= m <= 8 ->
  128 .| m = 128 + m /\ ((128 + m) .& 128 =? 0) = false /\ (128 + m) .& 127 = m.
Proof.
  intros Hm. assert (m = 1 \/ m = 2 \/ m = 3 \/ m = 4 \/ m = 5 \/ m = 6 \/ m = 7 \/ m = 8) as H by lia.
  repeat destruct H as [-> |H]; try subst m; repeat split; reflexivity.
Qed.

Lemma enumerated_oer_ok n :
  is_long n ->
  exists bs, oer_enumerated_octets n bs /\
    emits (fun K C k => NativeEnumerated_encode_oer (Some n) k) bs /\
    forall specs sptr, is_unsigned specs && (n <? 0) = false -> serves A 16 ->
      parses (NativeEnumerated_decode_oer specs sptr) bs n.
Proof.
  intros Hn. pose proof sizeof_word_cases as Hw. unfold oer_enumerated_octets, NativeEnumerated_encode_oer.
  destruct ((0 <=? n) && (n <=? 127)) eqn:Es.
  - apply andb_prop in Es as [E1 E2]. bool_hyps. exists [n]. split; [reflexivity|]. split; [apply emits_bytes|].
    intros specs sptr _ HA rest. unfold NativeEnumerated_decode_oer. cbn [app].
    rewrite land128 by (split; lia). rewrite (proj2 (Z.ltb_lt _ _)) by lia.
    rewrite (no_struct_ok _ _ _ HA) by lia. reflexivity.
  - destruct (enumerated_long n Hn) as (b & E & Hb & Ev & Hl & Hmin). rewrite E.
    destruct (enum_header (Z.of_nat (length b)) ltac:(lia)) as (H1 & H2 & H3). rewrite H1.
    exists (128 + Z.of_nat (length b) :: b). split; [exists b; split_all; auto|]. split; [apply emits_bytes|].
    intros specs sptr Hu HA rest. unfold NativeEnumerated_decode_oer. rewrite <- app_comm_cons, H2, H3.
    rewrite (proj2 (Z.ltb_ge _ _)), (proj2 (Z.ltb_ge _ _)) by lia. cbn [orb].
    rewrite (proj2 (Z.ltb_ge _ _)) by (cbn [length]; len). rewrite Nat2Z.id, take_app_length.
    assert (asn__nativeenumerated_convert b = n) as ->.
    { rewrite <- Ev. unfold asn__nativeenumerated_convert, ULONG_MAX. apply convert_sval; auto.
      - destruct Hw as [[-> _]|[-> _]]; lia.
      - intros ->. cbn in Hl. lia.
      - destruct Hw as [[-> Hs]|[-> Hs]]; rewrite Hs in Hl; lia. }
    rewrite andb_comm, Hu, (no_struct_ok _ _ _ HA) by lia. f_equal. cbn [length]. lia.
Qed.
End EnumWire.

(** ** On arbitrary data *)

(** A result that uses at most the octets at hand. *)
Definition within {X} (ptr : list Z) (r : asn_dec_rval X) : Prop :=
  match r with RC_OK n _ | RC_WMORE n | RC_FAIL n => 0 <= n <= Z.of_nat (length ptr) end.

Section Within.
Context {T : Target} {A : Allocator}.

Lemma within_copy_contents pos consumed req ptr bound :
  0 <= consumed -> 0 <= req -> consumed + req <= Z.of_nat (length bound) ->
  within bound (integer_copy_contents pos consumed req ptr).
Proof.
  intros H1 H2 H3. unfold integer_copy_contents, within, DECODE_FAILED.
  destruct pos; destruct (malloc_ok _); lia.
Qed.

Lemma within_INTEGER td_cs cs sptr ptr :
  octets ptr -> 0 <= width (oer_number cs td_cs) -> within ptr (INTEGER_decode_oer td_cs cs sptr ptr).
Proof.
  intros Hp Hw. unfold INTEGER_decode_oer. destruct (no_struct _ _); [cbn; lia|]. cbv zeta.
  destruct (negb _).
  - destruct (_ =? 0); cbn [orb]; [cbn; lia|]. destruct (Z.ltb_spec (Z.of_nat (length ptr)) (width (oer_number cs td_cs))); [cbn; lia|].
    apply within_copy_contents; lia.
  - pose proof (fetch_length_bound ptr Hp) as Hb. destruct (oer_fetch_length ptr) as [n len].
    destruct (Z.eqb_spec n 0); [cbn; lia|]. destruct (Z.eqb_spec n (-1)); [cbn; lia|].
    destruct (len =? 0); cbn [orb]; [cbn; lia|].
    destruct (Z.ltb_spec (Z.of_nat (length (drop (Z.to_nat n) ptr))) len) as [|Hl]; [cbn; lia|].
    rewrite length_drop in Hl. apply within_copy_contents; lia.
Qed.

Lemma within_NativeInteger specs td_cs cs sptr ptr :
  octets ptr -> 0 <= width (oer_number cs td_cs) -> within ptr (NativeInteger_decode_oer specs td_cs cs sptr ptr).
Proof.
  intros Hp Hw. unfold NativeInteger_decode_oer. destruct (no_struct _ _); [cbn; lia|].
  pose proof (within_INTEGER td_cs cs (Some None) ptr Hp Hw) as H.
  destruct (INTEGER_decode_oer _ _ _ _); try exact H. destruct (if is_unsigned specs then _ else _); exact H.
Qed.

Lemma within_NativeEnumerated specs sptr ptr : within ptr (NativeEnumerated_decode_oer specs sptr ptr).
Proof.
  unfold NativeEnumerated_decode_oer. destruct ptr as [|b r]; [cbn; lia|].
  destruct (b .& 128 =? 0); [destruct (no_struct _ _); cbn [within DECODE_FAILED length]; lia|]. cbv zeta.
  destruct (Z.ltb_spec (b .& 127) 1); cbn [orb]; [cbn [within DECODE_FAILED length]; lia|].
  destruct (sizeof_word <? b .& 127); [cbn [within DECODE_FAILED length]; lia|].
  destruct (Z.ltb_spec (Z.of_nat (length (b :: r))) (1 + (b .& 127))); [cbn [within DECODE_STARVED length]; lia|].
  destruct (_ && _); [cbn [within DECODE_FAILED length]; lia|].
  destruct (no_struct _ _); cbn [within DECODE_FAILED]; lia.
Qed.

Lemma within_BOOLEAN sptr ptr : within ptr (BOOLEAN_decode_oer sptr ptr).
Proof. destruct ptr as [|b r]; [cbn; lia|]. unfold BOOLEAN_decode_oer. destruct (no_struct _ _); cbn [within DECODE_FAILED length]; lia. Qed.
End Within.

(** * Properties *)

(** OER of INTEGER, X.696 #10: for every INTEGER and constraint,
    INTEGER_encode_oer emits the octets of [oer_integer_octets] with any
    callback (or fails where there is no encoding), INTEGER_decode_oer reads
    an INTEGER with the same number from them, whatever follows, and the
    encoding is canonical: INTEGERs that denote the same number have the same
    octets, whatever insignificant octets they carry. *)
Theorem INTEGER_oer_roundtrip {T : Target} {A : Allocator} td_cs cs sptr b :
  octets b -> b <> [] -> 0 <= width (oer_number cs td_cs) <= 8 -> Z.of_nat (length b) <= RSIZE_MAX ->
  serves A (16 + Z.of_nat (length b)) ->
  match oer_integer_octets (oer_number cs td_cs) b with
  | Some bs =>
      emits (fun K C k => INTEGER_encode_oer td_cs cs (Some (Some b)) k) bs /\
      exists b', octets b' /\ b' <> [] /\ sval b' = sval b /\ parses (INTEGER_decode_oer td_cs cs sptr) bs (Some b')
  | None => refuses (fun K C k => INTEGER_encode_oer td_cs cs (Some (Some b)) k)
  end /\
  (forall c, octets c -> c <> [] -> sval c = sval b ->
     oer_integer_octets (oer_number cs td_cs) c = oer_integer_octets (oer_number cs td_cs) b).
Proof.
  intros Hb Hn Hw Hl HA. split.
  - pose proof (INTEGER_encode_oer_ok td_cs cs b Hb Hn (proj1 Hw)) as He.
    destruct (oer_integer_octets _ b) as [bs|] eqn:E; [|exact He]. split; [exact He|].
    now apply INTEGER_decode_oer_ok with (b := b).
  - intros c Hc Nc Ec. now apply oer_integer_octets_canonical.
Qed.

Definition example_oer_constraint : asn_oer_constraints :=
  {| oc_value := {| width := 2; positive := true |}; oc_size := -1 |}.

Lemma INTEGER_oer_roundtrip_witness :
  let b := [0; 0; 200; 1] in let ct := oer_number (Some example_oer_constraint) None in
  match @oer_integer_octets LP64 ct b with
  | Some bs =>
      emits (fun K C k => @INTEGER_encode_oer LP64 K C None (Some example_oer_constraint) (Some (Some b)) k) bs /\
      exists b', octets b' /\ b' <> [] /\ sval b' = sval b /\
        parses (@INTEGER_decode_oer LP64 (fun _ => true) None (Some example_oer_constraint) None) bs (Some b')
  | None => refuses (fun K C k => @INTEGER_encode_oer LP64 K C None (Some example_oer_constraint) (Some (Some b)) k)
  end /\
  (forall c, octets c -> c <> [] -> sval c = sval b -> @oer_integer_octets LP64 ct c = @oer_integer_octets LP64 ct b).
Proof.
  apply (@INTEGER_oer_roundtrip LP64 (fun _ => true) None (Some example_oer_constraint) None [0; 0; 200; 1]).
  - repeat constructor; lia.
  - discriminate.
  - cbn; lia.
  - vm_compute. discriminate.
  - intros ? _. reflexivity.
Defined.

(** OER of native integers: every [long] of the target, and every
    [unsigned long] that intmax_t holds, comes back from the octets
    NativeInteger_encode_oer emits, at every constraint that admits it. *)
Theorem NativeInteger_oer_roundtrip {T : Target} {A : Allocator} specs td_cs cs sptr v :
  native_ok (is_unsigned specs) v -> 0 <= width (oer_number cs td_cs) <= 8 -> serves A 24 ->
  match oer_integer_octets (oer_number cs td_cs) (skip_redundant (be_bytes 8 v)) with
  | Some bs =>
      emits (fun K C k => NativeInteger_encode_oer specs td_cs cs (Some v) k) bs /\
      parses (NativeInteger_decode_oer specs td_cs cs sptr) bs v
  | None => refuses (fun K C k => NativeInteger_encode_oer specs td_cs cs (Some v) k)
  end.
Proof.
  intros Hv Hw HA. destruct (native_INTEGER (is_unsigned specs) v (serves_le _ _ 9 HA ltac:(lia)) Hv) as (E & Hb & Cb & _ & Es & Hl).
  set (b := skip_redundant (be_bytes 8 v)) in *. clearbody b.
  pose proof (proj1 (canonical_ne b Cb)) as Hn. unfold NativeInteger_encode_oer. rewrite E.
  pose proof (INTEGER_encode_oer_ok td_cs cs b Hb Hn (proj1 Hw)) as He.
  destruct (oer_integer_octets _ b) as [bs|] eqn:Eb; [|exact He]. split; [exact He|].
  assert (Z.of_nat (length b) <= RSIZE_MAX) as HR.
  { rewrite RSIZE_MAX_value. destruct sizeof_word_cases as [[-> _]|[-> _]]; lia. }
  destruct (INTEGER_decode_oer_ok td_cs cs (Some None) b bs Hb Hn Hw HR) as (b' & Hb' & Nb' & Vb' & Hd);
    [apply (serves_le _ _ _ HA); lia|exact Eb|].
  intros rest. unfold NativeInteger_decode_oer. pose proof sizeof_word_cases.
  rewrite (no_struct_ok _ _ _ HA) by lia. rewrite Hd, (native_of_number _ b' v); auto.
  unfold integer_number. destruct (is_unsigned specs); [|congruence].
  destruct Hv as [[Hv0 _] _]. rewrite be_val_nonneg_sval; auto; congruence || lia.
Qed.

Lemma NativeInteger_oer_roundtrip_witness :
  match @oer_integer_octets ILP32 (oer_number None None) (skip_redundant (be_bytes 8 (-70000))) with
  | Some bs =>
      emits (fun K C k => @NativeInteger_encode_oer ILP32 (fun _ => true) K C None None None (Some (-70000)) k) bs /\
      parses (@NativeInteger_decode_oer ILP32 (fun _ => true) None None None None) bs (-70000)
  | None => refuses (fun K C k => @NativeInteger_encode_oer ILP32 (fun _ => true) K C None None None (Some (-70000)) k)
  end.
Proof.
  apply (@NativeInteger_oer_roundtrip ILP32 (fun _ => true) None None None None (-70000)).
  - cbn. unfold is_long, LONG_MIN, LONG_MAX; cbn; lia.
  - cbn; lia.
  - intros ? _. reflexivity.
Defined.

(** OER of enumerations, X.696 #11: every [long] is emitted as one
    octet from 0 to 127 and otherwise as a length and the fewest two's
    complement octets (the scratch area of the encoder always holds them),
    and both decoders return it; negative values are refused by the decoder
    of an unsigned field. *)
Theorem enumerated_oer_roundtrip {T : Target} {A : Allocator} specs n :
  is_long n -> serves A 16 ->
  exists bs, oer_enumerated_octets n bs /\
    emits (fun K C k => NativeEnumerated_encode_oer (Some n) k) bs /\
    (is_unsigned specs && (n <? 0) = false ->
       parses (NativeEnumerated_decode_oer specs None) bs n /\
       exists b, sval b = n /\ parses (ENUMERATED_decode_oer specs None) bs (Some b) /\
         emits (fun K C k => ENUMERATED_encode_oer (Some b) k) bs).
Proof.
  intros Hn HA. destruct (enumerated_oer_ok (A := A) n Hn) as (bs & Hbs & He & Hd).
  exists bs. split; [exact Hbs|]. split; [exact He|]. intros Hu. split; [now apply Hd|].
  destruct (imax2INTEGER_ok A n (serves_le _ _ 9 HA ltac:(lia)) (long_imax _ Hn)) as (b & E & Hb & Cb & Es & _).
  exists b. split; [exact Es|]. split.
  - intros rest. unfold ENUMERATED_decode_oer. pose proof sizeof_word_cases.
    rewrite (no_struct_ok _ _ _ HA) by lia. rewrite (Hd specs (Some 0) Hu HA). unfold asn_long2INTEGER. now rewrite E.
  - unfold ENUMERATED_encode_oer. rewrite (native_of_number false b n Hb Hn Es). exact He.
Qed.

Lemma enumerated_oer_roundtrip_witness :
  @is_long ILP32 (-129) /\
  exists bs, oer_enumerated_octets (-129) bs /\
    emits (fun K C k => @NativeEnumerated_encode_oer ILP32 K C (Some (-129)) k) bs /\
    (is_unsigned None && (-129 <? 0) = false ->
       parses (@NativeEnumerated_decode_oer ILP32 (fun _ => true) None None) bs (-129) /\
       exists b, sval b = -129 /\ parses (@ENUMERATED_decode_oer ILP32 (fun _ => true) None None) bs (Some b) /\
         emits (fun K C k => @ENUMERATED_encode_oer ILP32 K C (Some b) k) bs).
Proof.
  assert (@is_long ILP32 (-129)) as H by (unfold is_long, LONG_MIN, LONG_MAX; cbn; lia).
  split; [exact H|]. apply (@enumerated_oer_roundtrip ILP32 (fun _ => true) None (-129) H). intros ? _. reflexivity.
Defined.

(** BOOLEAN in both encodings: any C value survives as its truth value;
    UPER yields 0 or 1, OER yields 0 or 255 (the octet on the wire). *)
Theorem BOOLEAN_roundtrip {A : Allocator} {K} {C : Consumer K} {S : Sink K} {TS : TotalSink K} v :
  serves A 4 ->
  (exists enc, encodes (fun po : asn_bit_outp K => BOOLEAN_encode_uper (Some v) po) enc (ENCODED_OK 0) /\
     decodes (BOOLEAN_decode_uper None) enc (RC_OK 1 (if v =? 0 then 0 else 1)) /\ length enc = 1%nat) /\
  (exists bs, emits (fun K C k => BOOLEAN_encode_oer v k) bs /\
     parses (BOOLEAN_decode_oer None) bs (if v =? 0 then 0 else 255) /\ length bs = 1%nat).
Proof.
  intros HA. split.
  - exists (bits_of 1 (if v =? 0 then 0 else 1)). split; [|split; [|reflexivity]].
    + unfold BOOLEAN_encode_uper. eapply encodes_last; [apply encodes_few_bits; lia|]. apply encodes_ret.
    + unfold BOOLEAN_decode_uper. rewrite (have_struct_ok _ _ _ HA) by (unfold sizeof_BOOLEAN_t; lia). cbn [negb].
      eapply decodes_last; [apply decodes_few_bits_of with (v := if v =? 0 then 0 else 1); destruct (v =? 0); lia|].
      destruct (v =? 0); apply decodes_ret.
  - eexists. split; [apply emits_bytes|]. split; [|reflexivity].
    intros rest. cbn [app]. unfold BOOLEAN_decode_oer. now rewrite (no_struct_ok _ _ _ HA) by lia.
Qed.

Lemma BOOLEAN_roundtrip_witness :
  (exists enc, encodes (fun po : asn_bit_outp ByteBuffer => BOOLEAN_encode_uper (Some 7) po) enc (ENCODED_OK 0) /\
     decodes (@BOOLEAN_decode_uper (fun _ => true) None) enc (RC_OK 1 (if 7 =? 0 then 0 else 1)) /\ length enc = 1%nat) /\
  (exists bs, emits (fun K C k => BOOLEAN_encode_oer 7 k) bs /\
     parses (@BOOLEAN_decode_oer (fun _ => true) None) bs (if 7 =? 0 then 0 else 255) /\ length bs = 1%nat).
Proof. apply (@BOOLEAN_roundtrip (fun _ => true) ByteBuffer _ _ _ 7). intros ? _. reflexivity. Defined.

(** Hostile input: whatever the octets, no OER decoder of a primitive
    type reports more octets than it was given. *)
Theorem primitive_oer_decoders_safe {T : Target} {A : Allocator} specs td_cs cs ptr :
  octets ptr -> 0 <= width (oer_number cs td_cs) ->
  within ptr (INTEGER_decode_oer td_cs cs None ptr) /\
  within ptr (NativeInteger_decode_oer specs td_cs cs None ptr) /\
  within ptr (NativeEnumerated_decode_oer specs None ptr) /\
  within ptr (BOOLEAN_decode_oer None ptr).
Proof.
  intros Hp Hw. split_all;
    auto using within_INTEGER, within_NativeInteger, within_NativeEnumerated, within_BOOLEAN.
Qed.

Lemma primitive_oer_decoders_safe_witness :
  let ptr := [132; 255; 255; 255; 255; 1] in
  within ptr (@INTEGER_decode_oer LP64 (fun _ => true) None None None ptr) /\
  within ptr (@NativeInteger_decode_oer LP64 (fun _ => true) None None None None ptr) /\
  within ptr (@NativeEnumerated_decode_oer LP64 (fun _ => true) None None ptr) /\
  within ptr (@BOOLEAN_decode_oer (fun _ => true) None ptr).
Proof.
  apply (@primitive_oer_decoders_safe LP64 (fun _ => true) None None None [132; 255; 255; 255; 255; 1]).
  - repeat constructor; lia.
  - cbn; lia.
Defined.
