(* ===== verification/UperCodec.v ===== *)
(** Complete UPER encodings: uper_decoder.c, uper_encoder.c and per_encoder.c
    under vanetza/asn1/support/, the functions asn1c_wrapper.cpp calls.

    [UperCodec] is what a type promises to them: an encoder, a decoder and
    the bits of each value, written by the one and read by the other, and a
    decoder that stays inside its data.  The functions of this file are
    verified against that interface; the types discharge it. *)

From S2P Require Import Prelude Runtime Constraints BitData BitOutp UperSupport Integer IntegerUper.

(** * Decoding *)

(** [td->op->uper_decoder] with the arguments other than the context and the
    stream. *)
Definition uper_type_decoder (X : Type) : Type :=
  option asn_codec_ctx -> asn_bit_data -> asn_dec_rval X * asn_bit_data.

(** uper_decode.  A context that is not given is replaced by one without
    flags. *)
Definition uper_decode {X} (opt_codec_ctx : option asn_codec_ctx) (dec : option (uper_type_decoder X))
    (buf : list Z) (skip_bits unused_bits : Z) : asn_dec_rval X :=
  if (skip_bits <? 0) || (7 <? skip_bits) || (unused_bits <? 0) || (7 <? unused_bits)
     || (0 <? unused_bits) && (length buf =? 0)%nat then DECODE_FAILED else
  let ctx := match opt_codec_ctx with Some c => c | None => default_ctx end in
  let pd := {| buffer := buf; nboff := skip_bits; nbits := 8 * Z.of_nat (length buf) - unused_bits; moved := 0 |} in
  if nbits pd <? nboff pd then DECODE_FAILED else
  match dec with
  | None => DECODE_FAILED
  | Some dec =>
      let '(rval, pd') := dec (Some ctx) pd in
      let consumed := (Z.of_nat (length buf) - Z.of_nat (length (buffer pd'))) ≪ 3 + nboff pd' - skip_bits in
      match rval with
      | RC_OK _ st => RC_OK consumed st
      | RC_WMORE _ => RC_WMORE consumed
      | RC_FAIL _ => RC_FAIL consumed
      end
  end.

(** uper_decode_complete. *)
Definition uper_decode_complete {X} (opt_codec_ctx : option asn_codec_ctx) (dec : option (uper_type_decoder X))
    (buf : list Z) : asn_dec_rval X :=
  let bytes consumed := if negb (consumed =? 0) then (consumed + 7) ≫ 3 else consumed in
  match uper_decode opt_codec_ctx dec buf 0 0 with
  | RC_OK consumed st =>
      if negb (consumed =? 0) then RC_OK (bytes consumed) st
      else match buf with
           | [] => RC_WMORE 0
           | b :: _ => if b =? 0 then RC_OK 1 st else RC_FAIL 0
           end
  | RC_WMORE consumed => RC_WMORE (bytes consumed)
  | RC_FAIL consumed => RC_FAIL (bytes consumed)
  end.

(** The context with the canonical flags of the four variants. *)
Definition canonical_ctx (lenient : bool) (opt_codec_ctx : option asn_codec_ctx) : asn_codec_ctx :=
  let c := match opt_codec_ctx with Some c => c | None => default_ctx end in
  {| uper_canonical := true; uper_canonical_lenient := lenient || uper_canonical_lenient c |}.

Definition uper_decode_canonical {X} ctx (dec : option (uper_type_decoder X)) buf skip_bits unused_bits :=
  uper_decode (Some (canonical_ctx false ctx)) dec buf skip_bits unused_bits.
Definition uper_decode_complete_canonical {X} ctx (dec : option (uper_type_decoder X)) buf :=
  uper_decode_complete (Some (canonical_ctx false ctx)) dec buf.
Definition uper_decode_canonical_lenient {X} ctx (dec : option (uper_type_decoder X)) buf skip_bits unused_bits :=
  uper_decode (Some (canonical_ctx true ctx)) dec buf skip_bits unused_bits.
Definition uper_decode_complete_canonical_lenient {X} ctx (dec : option (uper_type_decoder X)) buf :=
  uper_decode_complete (Some (canonical_ctx true ctx)) dec buf.

(** * Encoding *)

(** [td->op->uper_encoder] applied to a structure. *)
Definition uper_type_encoder : Type :=
  forall K, Consumer K -> asn_bit_outp K -> asn_enc_rval * asn_bit_outp K.

Section Encode.
Context {K : Type} {C : Consumer K}.

(** _uper_encode_flush_outp. *)
Definition _uper_encode_flush_outp (po : asn_bit_outp K) : option K :=
  let pos := default 0%nat (o_buffer po) in
  if (o_nboff po =? 0) && (pos =? 0)%nat then Some (op_key po)
  else
    let buf := (pos + Z.to_nat (o_nboff po ≫ 3))%nat in
    if negb (o_nboff po .& 7 =? 0) then
      let tmp := <[buf := u8 (octet_at (tmpspace po) buf .& (255 ≪ (8 - (o_nboff po .& 7))))]> (tmpspace po) in
      consume (op_key po) (take (Datatypes.S buf) tmp)
    else consume (op_key po) (take buf (tmpspace po)).

(** uper_encode; [tmp] is what the scratch area holds before.  The result
    is the number of bits and the state of the callback, or nothing. *)
Definition uper_encode (enc : option uper_type_encoder) (tmp : list Z) (key : K) : option (Z * K) :=
  match enc with
  | None => None
  | Some enc =>
      match enc K C (fresh_outp tmp key) with
      | (ENCODE_FAILED, _) => None
      | (ENCODED_OK _, po) =>
          let bits_to_flush := Z.of_nat (default 0%nat (o_buffer po)) ≪ 3 + o_nboff po in
          let encoded := flushed_bytes po ≪ 3 + bits_to_flush in
          match _uper_encode_flush_outp po with
          | None => None
          | Some key => Some (encoded, key)
          end
      end
  end.
End Encode.

(** uper_encode_to_buffer. *)
Definition uper_encode_to_buffer (enc : option uper_type_encoder) (tmp : list Z) (buffer_size : Z) :
    option (Z * enc_to_buf_arg) :=
  uper_encode (C := encode_to_buffer_cb) enc tmp {| etb_data := []; etb_left := buffer_size |}.

(** ** A growing buffer *)

(** enc_dyn_arg of per_encoder.c: [length] octets of contents in [allocated]
    octets of memory. *)
Record enc_dyn_arg := { dyn_data : list Z; dyn_allocated : N }.

Section Dynamic.
Context {T : Target} {A : Allocator}.

(** do { new_size <<= 2; } while(arg->length + size >= new_size) *)
Fixpoint dyn_grow (fuel : nat) (new_size need : Z) : option Z :=
  match fuel with
  | O => None
  | Datatypes.S fuel' =>
      let new_size := uwrap word_bits (new_size ≪ 2) in
      if new_size <=? need then dyn_grow fuel' new_size need else Some new_size
  end.

(** encode_dyn_cb. *)
Definition encode_dyn_cb : Consumer enc_dyn_arg := fun arg bs =>
  let need := Z.of_nat (length (dyn_data arg)) + Z.of_nat (length bs) in
  let allocated := Z.of_N (dyn_allocated arg) in
  if allocated <=? need then
    match dyn_grow (Z.to_nat word_bits) (if allocated =? 0 then 8 else allocated) need with
    | None => None
    | Some new_size =>
        if malloc_ok new_size then Some {| dyn_data := dyn_data arg ++ bs; dyn_allocated := Z.to_N new_size |} else None
    end
  else Some {| dyn_data := dyn_data arg ++ bs; dyn_allocated := dyn_allocated arg |}.

Definition encode_dyn_sink : @Sink enc_dyn_arg encode_dyn_cb.
Proof.
  refine {| contents := dyn_data |}. intros k bs k'. unfold consume, encode_dyn_cb. cbv zeta.
  destruct (_ <=? _); [|intros [= <-]; reflexivity].
  destruct (dyn_grow _ _ _); [|discriminate]. destruct (malloc_ok _); [|discriminate]. intros [= <-]. reflexivity.
Defined.

(** uper_encode_to_new_buffer: the size and the octets, or -1. *)
Definition uper_encode_to_new_buffer (enc : option uper_type_encoder) (tmp : list Z) : option (Z * list Z) :=
  match uper_encode (C := encode_dyn_cb) enc tmp {| dyn_data := []; dyn_allocated := 0%N |} with
  | None => None
  | Some (encoded, key) =>
      if encoded =? 0 then if malloc_ok 1 then Some (1, [0]) else None
      else Some ((encoded + 7) ≫ 3, dyn_data key)
  end.
End Dynamic.

(** * The interface of a type *)

Class UperCodec (X : Type) := {
  uper_enc : X -> uper_type_encoder;
  uper_dec : uper_type_decoder X;
  uper_valid : X -> Prop;
  uper_bits : X -> list bool;
  uper_enc_ok x K (C : Consumer K) (S : Sink K) (R : RoomySink K) :
    uper_valid x -> exists e, encodes (uper_enc x K C) (uper_bits x) (ENCODED_OK e);
  uper_dec_ok ctx x : uper_valid x -> exists n, decodes (uper_dec ctx) (uper_bits x) (RC_OK n x);
  uper_dec_safe ctx pd : pd_ok pd -> follows pd (uper_dec ctx pd)
}.

(** The same type with a decoder that differs in its target only. *)
Definition with_decoder {X} (U : UperCodec X) (dec : uper_type_decoder X) (H : forall ctx pd, dec ctx pd = uper_dec ctx pd) : UperCodec X.
Proof.
  refine {| uper_enc := uper_enc; uper_dec := dec; uper_valid := uper_valid; uper_bits := uper_bits; uper_enc_ok := uper_enc_ok |}.
  - intros ctx x Hv. destruct (uper_dec_ok ctx x Hv) as [n Hd]. exists n. eapply decodes_ext; [|exact Hd]. intros pd. now rewrite H.
  - intros ctx pd Hok. rewrite H. now apply uper_dec_safe.
Defined.

(** ** Decoding a buffer *)

(** The octets of some bits, completed with zero bits. *)
Definition complete_octets (l : list bool) : list Z :=
  be_bytes (Z.to_nat ((Z.of_nat (length l) + 7) / 8)) (bval (l ++ replicate (padding (length l)) false)).

Lemma padding_octets n :
  exists q, (n + padding n = 8 * q)%nat /\ (Z.of_nat n + 7) / 8 = Z.of_nat q.
Proof.
  destruct (padding_spec n) as (q & Hq & Hlt & _). exists q. split; [assumption|].
  replace (Z.of_nat n + 7) with ((7 - Z.of_nat (padding n)) + Z.of_nat q * 8) by lia.
  rewrite Z.div_add, Z.div_small by lia. lia.
Qed.

Lemma complete_octets_bits l :
  octets (complete_octets l) /\ bytes_bits (complete_octets l) = l ++ replicate (padding (length l)) false /\
  Z.of_nat (length (complete_octets l)) = (Z.of_nat (length l) + 7) / 8.
Proof.
  unfold complete_octets. destruct (padding_octets (length l)) as (q & Hq & ->). rewrite Nat2Z.id.
  split; [auto with asn|]. split; [apply bytes_of_bits; len|]. now rewrite length_be_bytes.
Qed.

(** The stream uper_decode reads. *)
Lemma uper_decode_stream buf skip unused :
  octets buf -> 0 <= skip <= 7 -> 0 <= unused <= 7 -> skip <= 8 * Z.of_nat (length buf) - unused ->
  pd_ok {| buffer := buf; nboff := skip; nbits := 8 * Z.of_nat (length buf) - unused; moved := 0 |}.
Proof. intros Hb Hs Hu Hle. unfold pd_ok; cbn [buffer nboff nbits]. split; [lia|]. split; [lia|assumption]. Qed.

(** The position of a reader counted in both ways. *)
Lemma consumed_moved buf skip nb pd' n :
  advanced {| buffer := buf; nboff := skip; nbits := nb; moved := 0 |} pd' n ->
  (Z.of_nat (length buf) - Z.of_nat (length (buffer pd'))) ≪ 3 + nboff pd' - skip = Z.of_nat n /\ moved pd' = Z.of_nat n.
Proof.
  intros (_ & _ & _ & Hm & Hp). cbn [moved nboff buffer] in *. rewrite Z.shiftl_mul_pow2 by lia. split; lia.
Qed.

Lemma uper_decode_eq {X} ctx (dec : uper_type_decoder X) buf skip unused :
  0 <= skip <= 7 -> 0 <= unused <= 7 -> skip <= 8 * Z.of_nat (length buf) - unused ->
  uper_decode ctx (Some dec) buf skip unused =
    let c := match ctx with Some c => c | None => default_ctx end in
    let '(rval, pd') := dec (Some c) {| buffer := buf; nboff := skip; nbits := 8 * Z.of_nat (length buf) - unused; moved := 0 |} in
    let consumed := (Z.of_nat (length buf) - Z.of_nat (length (buffer pd'))) ≪ 3 + nboff pd' - skip in
    match rval with RC_OK _ st => RC_OK consumed st | RC_WMORE _ => RC_WMORE consumed | RC_FAIL _ => RC_FAIL consumed end.
Proof.
  intros Hs Hu Hle. unfold uper_decode. cbn [nbits nboff]. bool_cases. cbn [orb].
  assert ((0 <? unused) && (length buf =? 0)%nat = false) as ->; [|reflexivity].
  destruct (Z.ltb_spec 0 unused), (Nat.eqb_spec (length buf) 0); try reflexivity. lia.
Qed.

(** ** Flushing *)

Section Flush.
Context {K : Type} {C : Consumer K} {S : Sink K} {R : RoomySink K}.

(** _uper_encode_flush_outp hands over what is written, completed with zero
    bits. *)
Lemma uper_flush_ok (po : asn_bit_outp K) :
  po_ok po -> fits (length (written po) + padding (length (written po))) ->
  exists key, _uper_encode_flush_outp po = Some key /\ octets (contents key) /\
    bytes_bits (contents key) = written po ++ replicate (padding (length (written po))) false.
Proof.
  intros Hok Hr. pose proof Hok as (Hl & Ho & Hc & Hb). rewrite padding_written in * by assumption.
  assert (0 <= o_nboff po /\ 8 * Z.of_nat (o_pos po) + o_nboff po <= 8 * Z.of_nat (length (tmpspace po))) as [Hn Hfit].
  { rewrite Hl. unfold o_pos, sizeof_tmpspace in *. destruct (o_buffer po); cbn [from_option id]; lia. }
  unfold _uper_encode_flush_outp. fold (o_pos po). rewrite !shiftr3, land7 by lia.
  destruct ((o_nboff po =? 0) && (o_pos po =? 0)%nat) eqn:E0.
  { apply andb_prop in E0 as [E1 E2]. apply Z.eqb_eq in E1. apply Nat.eqb_eq in E2.
    eexists. split; [reflexivity|]. split; [assumption|]. unfold written. rewrite E1, E2. cbn. now rewrite !app_nil_r. }
  pose proof (Z.div_mod (o_nboff po) 8 ltac:(lia)) as Hdm. pose proof (Z.mod_pos_bound (o_nboff po) 8 ltac:(lia)) as Hmb.
  set (last := (o_pos po + Z.to_nat (o_nboff po / 8))%nat).
  set (x := u8 (octet_at (tmpspace po) last .& (255 ≪ (8 - o_nboff po mod 8)))).
  assert (Z.of_nat (padding (Z.to_nat (o_nboff po))) = (8 - o_nboff po mod 8) mod 8) as Hpad.
  { unfold padding. rewrite !Z2Nat.id by (try lia; apply Z.mod_pos_bound; lia). reflexivity. }
  destruct (flushed_octets (tmpspace po) (o_pos po) (o_nboff po) x Ho Hn Hfit) as [Ho' Eb].
  { intros Hu. assert (o_nboff po mod 8 <> 0) as Hne by (intros E; rewrite E in Hpad; change ((8 - 0) mod 8) with 0 in Hpad; lia).
    rewrite (Z.mod_small (8 - _)) in Hpad by lia.
    replace (8 - padding (Z.to_nat (o_nboff po)))%nat with (Z.to_nat (8 - (8 - o_nboff po mod 8))) by lia.
    replace (padding (Z.to_nat (o_nboff po))) with (Z.to_nat (8 - o_nboff po mod 8)) by lia.
    apply cleared_octet; [now apply octet_at_octet|lia|]. intros j Hj.
    destruct (Z.leb_spec (8 - o_nboff po mod 8) j); [|now apply Z.shiftl_spec_low].
    rewrite Z.shiftl_spec by lia. apply (Z.ones_spec_low 8). lia. }
  cbv zeta in Eb, Ho'. fold last in Eb, Ho'.
  set (tmp := if decide (padding (Z.to_nat (o_nboff po)) = 0%nat) then tmpspace po else <[last:=x]> (tmpspace po)) in *.
  assert ((if negb (o_nboff po mod 8 =? 0) then consume (op_key po) (take (Datatypes.S last) (<[last:=x]> (tmpspace po)))
           else consume (op_key po) (take last (tmpspace po))) =
          consume (op_key po) (take (o_pos po + Z.to_nat ((o_nboff po + 7) / 8)) tmp)) as ->.
  { subst tmp. destruct (Z.eqb_spec (o_nboff po mod 8) 0) as [E|E]; cbn [negb].
    - rewrite E in Hpad. change ((8 - 0) mod 8) with 0 in Hpad. destruct (decide _) as [_|Hne]; [|lia]. do 2 f_equal. subst last.
      replace (o_nboff po + 7) with (7 + o_nboff po / 8 * 8) by lia. now rewrite Z.div_add, (Z.div_small 7) by lia.
    - rewrite (Z.mod_small (8 - _)) in Hpad by lia. destruct (decide _) as [Heq|_]; [lia|]. do 2 f_equal. subst last.
      replace (o_nboff po + 7) with ((o_nboff po mod 8 - 1) + (o_nboff po / 8 + 1) * 8) by lia.
      rewrite Z.div_add, (Z.div_small (_ - 1)) by lia. pose proof (Z.div_pos (o_nboff po) 8). lia. }
  destruct (consume_room (op_key po) (take (o_pos po + Z.to_nat ((o_nboff po + 7) / 8)) tmp)) as [key Ek].
  { intros r Er. specialize (Hr r Er). apply (f_equal length) in Eb. revert Eb Hr. unfold written. len. }
  exists key. split; [exact Ek|]. rewrite (consume_contents _ _ _ Ek). split.
  - apply octets_app. auto with asn.
  - rewrite bytes_bits_app, Eb. unfold written. now rewrite app_assoc.
Qed.

(** The number of bits uper_encode reports. *)
Lemma written_count (po : asn_bit_outp K) base :
  po_ok po -> flushed_bytes po = Z.of_nat (length (contents (op_key po))) - base ->
  flushed_bytes po ≪ 3 + (Z.of_nat (default 0%nat (o_buffer po)) ≪ 3 + o_nboff po) =
    Z.of_nat (length (written po)) - 8 * base.
Proof.
  intros (Hl & _ & _ & Hb) E. rewrite !Z.shiftl_mul_pow2 by lia. unfold written, o_pos, sizeof_tmpspace in *.
  destruct (o_buffer po); cbn [from_option id]; len.
Qed.
End Flush.

(** ** Encoding a value *)

Section EncodeSpec.
Context {X : Type} {U : UperCodec X}.

Lemma uper_encode_ok {K} {C : Consumer K} {S : Sink K} {R : RoomySink K} tmp (key : K) x :
  length tmp = sizeof_tmpspace -> octets tmp -> octets (contents key) -> uper_valid x ->
  fits (8 * (length (contents key) + length (complete_octets (uper_bits x)))) ->
  exists key', uper_encode (Some (uper_enc x)) tmp key = Some (Z.of_nat (length (uper_bits x)), key') /\
    contents key' = contents key ++ complete_octets (uper_bits x).
Proof.
  intros Ht Ho Hc Hv Hr. destruct (fresh_outp_ok tmp key Ht Ho Hc) as [Hok Hw].
  destruct (complete_octets_bits (uper_bits x)) as (_ & El & _). apply (f_equal length) in El. rewrite length_bytes_bits in El.
  destruct (uper_enc_ok x K C S R Hv) as [e He]. destruct (He _ Hok) as (po & E & Hok' & W & F).
  { eapply fits_le; [exact Hr|]. rewrite Hw. revert El. len. }
  unfold uper_encode. rewrite E. destruct (uper_flush_ok po Hok') as (key' & Ef & Hoc & Eb); [|rewrite Ef].
  { eapply fits_le; [exact Hr|]. rewrite W, Hw, length_app, length_bytes_bits, padding_mod. revert El. len. }
  exists key'. rewrite (written_count po (Z.of_nat (length (contents key))) Hok') by (cbn in F; lia).
  rewrite W, Hw in *. split.
  - do 2 f_equal. len.
  - destruct (complete_octets_bits (uper_bits x)) as (Hco & Ecb & _).
    apply bytes_bits_inj; [assumption|apply octets_app; auto|]. rewrite Eb, bytes_bits_app, Ecb, <- app_assoc.
    do 3 f_equal. rewrite length_app, length_bytes_bits. apply padding_mod.
Qed.

(** The decoder on the octets of a value and whatever follows. *)
Lemma uper_decode_ok ctx x trailing :
  uper_valid x -> octets trailing ->
  uper_decode ctx (Some uper_dec) (complete_octets (uper_bits x) ++ trailing) 0 0 =
    RC_OK (Z.of_nat (length (uper_bits x))) x.
Proof.
  intros Hv Ht. destruct (complete_octets_bits (uper_bits x)) as (Hco & Eb & _).
  set (buf := complete_octets (uper_bits x) ++ trailing).
  assert (octets buf) as Hbuf by (subst buf; apply octets_app; auto).
  rewrite uper_decode_eq by lia. cbv zeta. set (c := match ctx with Some _ => _ | None => _ end).
  destruct (uper_dec_ok (Some c) x Hv) as [n Hd]. rewrite Z.sub_0_r.
  destruct (new_stream_ok buf Hbuf) as [Hpd Hrem].
  destruct (Hd _ (replicate (padding (length (uper_bits x))) false ++ bytes_bits trailing) Hpd) as (pd' & E & Ha & _).
  { rewrite Hrem. subst buf. rewrite bytes_bits_app, Eb. now rewrite app_assoc. }
  rewrite E. destruct (consumed_moved _ _ _ _ _ Ha) as [-> _]. reflexivity.
Qed.
End EncodeSpec.

(** ** Growing the buffer *)

Lemma dyn_grow_ok {T : Target} need fuel : forall s,
  0 < s <= Z.max 8 need -> 0 <= need < 2 ^ (word_bits - 2) -> need < s * 4 ^ Z.of_nat fuel -> (1 <= fuel)%nat ->
  exists r, dyn_grow fuel s need = Some r /\ need < r <= Z.max 32 (4 * need).
Proof.
  assert (2 ^ word_bits = 4 * 2 ^ (word_bits - 2) /\ 32 < 2 ^ word_bits) as [E4 H32].
  { destruct sizeof_word_cases as [[-> _]|[-> _]]; split; reflexivity. }
  induction fuel as [|fuel IH]; intros s Hs Hneed Hlt Hf; [lia|]. cbn [dyn_grow]. cbv zeta.
  rewrite Z.shiftl_mul_pow2 by lia. change (2 ^ 2) with 4. rewrite uwrap_small by lia.
  rewrite Nat2Z.inj_succ, Z.pow_succ_r in Hlt by lia.
  destruct (Z.leb_spec (s * 4) need) as [H|H]; [|exists (s * 4); split; [reflexivity|lia]].
  destruct fuel as [|fuel]; [change (4 ^ Z.of_nat 0) with 1 in Hlt; lia|]. apply IH; lia.
Qed.

Lemma encode_dyn_grows {T : Target} {A : Allocator} arg bs :
  let need := Z.of_nat (length (dyn_data arg)) + Z.of_nat (length bs) in
  need < 2 ^ (word_bits - 2) -> serves A (Z.max 32 (4 * need)) ->
  exists arg', encode_dyn_cb arg bs = Some arg' /\ dyn_data arg' = dyn_data arg ++ bs /\
    need < Z.of_N (dyn_allocated arg') <= Z.max (Z.of_N (dyn_allocated arg)) (Z.max 32 (4 * need)).
Proof.
  intros need Hneed HA. unfold encode_dyn_cb. fold need. cbv zeta.
  pose proof (N2Z.is_nonneg (dyn_allocated arg)) as Ha. remember (Z.of_N (dyn_allocated arg)) as a eqn:Ea.
  destruct (Z.leb_spec a need) as [Hle|Hgt]; [|eexists; split; [reflexivity|]; cbn [dyn_data dyn_allocated]; split; [reflexivity|lia]].
  set (s := if a =? 0 then 8 else a).
  assert (0 < s <= Z.max 8 need) as Hs by (subst s; destruct (Z.eqb_spec a 0); lia).
  assert (4 ^ word_bits = 2 ^ (word_bits + word_bits)) as E4 by (destruct sizeof_word_cases as [[-> _]|[-> _]]; reflexivity).
  destruct (dyn_grow_ok need (Z.to_nat word_bits) s Hs) as (r & -> & Hr); [lia| |destruct sizeof_word_cases; lia|].
  { rewrite Z2Nat.id by (destruct sizeof_word_cases; lia).
    assert (2 ^ (word_bits - 2) <= 4 ^ word_bits) by (destruct sizeof_word_cases as [[-> _]|[-> _]]; discriminate). nia. }
  rewrite HA by lia. eexists. split; [reflexivity|]. cbn [dyn_data dyn_allocated]. split; [reflexivity|lia].
Qed.

(** With memory for [r] octets and their doubling, the buffer takes them. *)
Definition encode_dyn_room {T : Target} {A : Allocator} (r : Z) (Hr : r < 2 ^ (word_bits - 2)) (HA : serves A (Z.max 32 (4 * r))) :
  @RoomySink enc_dyn_arg encode_dyn_cb encode_dyn_sink.
Proof.
  refine (@Build_RoomySink _ encode_dyn_cb encode_dyn_sink (Some r) _). intros k bs Hk. specialize (Hk r eq_refl).
  cbn [contents encode_dyn_sink] in Hk. destruct (encode_dyn_grows k bs) as (k' & E & _); [lia|eapply serves_le; [exact HA|lia]|].
  exists k'. exact E.
Defined.

(** The octets of a value that is encoded on its own. *)
Definition new_buffer_octets (l : list bool) : list Z := match l with [] => [0] | _ => complete_octets l end.

Lemma new_buffer_octets_ok l :
  octets (new_buffer_octets l) /\ exists pad, bytes_bits (new_buffer_octets l) = l ++ replicate pad false /\
    ((l <> [] /\ (pad < 8)%nat) \/ (l = [] /\ pad = 8%nat)).
Proof.
  destruct (complete_octets_bits l) as (Ho & Eb & _). destruct (padding_spec (length l)) as (q & Hq & Hlt & _).
  destruct l as [|b l]; cbn [new_buffer_octets]; [|split; [exact Ho|]; exists (padding (length (b :: l))); split; [exact Eb|left; split; [discriminate|exact Hlt]]].
  split; [repeat constructor; lia|]. exists 8%nat. split; [reflexivity|right; auto].
Qed.

Lemma uper_encode_to_new_buffer_ok {T : Target} {A : Allocator} {X} {U : UperCodec X} tmp x r :
  length tmp = sizeof_tmpspace -> octets tmp -> uper_valid x ->
  Z.of_nat (length (new_buffer_octets (uper_bits x))) <= r -> r < 2 ^ (word_bits - 2) -> serves A (Z.max 32 (4 * r)) ->
  uper_encode_to_new_buffer (Some (uper_enc x)) tmp =
    Some (Z.of_nat (length (new_buffer_octets (uper_bits x))), new_buffer_octets (uper_bits x)).
Proof.
  intros Ht Ho Hv Hl Hr HA.
  destruct (uper_encode_ok (R := encode_dyn_room r Hr HA) tmp {| dyn_data := []; dyn_allocated := 0%N |} x Ht Ho) as (key & E & Ec); auto.
  { cbn. constructor. }
  { intros r' [= <-]. cbn [contents encode_dyn_sink dyn_data length]. revert Hl.
    destruct (uper_bits x); cbn [new_buffer_octets]; [change (complete_octets []) with (@nil Z); cbn [length]; lia|lia]. }
  unfold uper_encode_to_new_buffer. rewrite E. cbn [contents encode_dyn_sink dyn_data app] in Ec.
  destruct (complete_octets_bits (uper_bits x)) as (_ & _ & El). destruct (uper_bits x) as [|b l] eqn:Eb; cbn [new_buffer_octets].
  - cbn [length Z.of_nat Z.eqb]. now rewrite HA by lia.
  - rewrite (proj2 (Z.eqb_neq _ _)) by (cbn [length]; lia). now rewrite Ec, shiftr3, El.
Qed.

(** * Instances *)

Section Instances.
Context {T : Target} {A : Allocator}.

Definition NativeInteger_codec (specs : option asn_INTEGER_specifics) (td_cs : option asn_per_constraints)
  (Hcs : forall c, td_cs = Some c -> per_value_ok (is_unsigned specs) (pc_value c)) (HA : serves A 24) : UperCodec Z.
Proof.
  refine {|
    uper_enc := fun v K C => NativeInteger_encode_uper specs td_cs None (Some v);
    uper_dec := fun ctx => NativeInteger_decode_uper ctx specs td_cs None None;
    uper_valid := fun v => native_ok (is_unsigned specs) v /\
      uper_integer_bits (is_unsigned specs) (option_map pc_value td_cs) (skip_redundant (be_bytes 8 v)) <> None;
    uper_bits := fun v =>
      default [] (uper_integer_bits (is_unsigned specs) (option_map pc_value td_cs) (skip_redundant (be_bytes 8 v)))
  |}.
  - intros v K C S TS [Hv Hb]. exists 0.
    pose proof (NativeInteger_uper_ok (K := K) None specs td_cs None None v Hv Hcs HA) as H. cbn [or_else] in H.
    destruct (uper_integer_bits _ _ _); [apply H|congruence].
  - intros ctx v [Hv Hb]. exists 0.
    pose proof (NativeInteger_uper_ok (K := ByteBuffer) ctx specs td_cs None None v Hv Hcs HA) as H. cbn [or_else] in H.
    destruct (uper_integer_bits _ _ _); [apply H|congruence].
  - auto with follows.
Defined.

Definition BOOLEAN_codec (HA : serves A 4) : UperCodec Z.
Proof.
  refine {|
    uper_enc := fun v K C => BOOLEAN_encode_uper (Some v);
    uper_dec := fun _ => BOOLEAN_decode_uper None;
    uper_valid := fun v => v = 0 \/ v = 1;
    uper_bits := fun v => bits_of 1 v
  |}.
  - intros v K C S TS Hv. exists 0. unfold BOOLEAN_encode_uper.
    destruct Hv as [-> | ->]; (eapply encodes_last; [apply encodes_few_bits; lia|apply encodes_ret]).
  - intros _ v Hv. exists 1. unfold BOOLEAN_decode_uper.
    rewrite (have_struct_ok _ _ _ HA) by (unfold sizeof_BOOLEAN_t; lia). cbn [negb].
    destruct Hv as [-> | ->]; (eapply decodes_last; [apply decodes_few_bits_of; lia|apply decodes_ret]).
  - auto with follows.
Defined.

Definition NativeEnumerated_codec (specs : asn_INTEGER_specifics) (c : asn_per_constraints)
  (Hok : enum_ok specs (pc_value c)) (HA : serves A 16) : UperCodec Z.
Proof.
  refine {|
    uper_enc := fun v K C => NativeEnumerated_encode_uper (Some specs) (Some c) None (Some v);
    uper_dec := fun _ => NativeEnumerated_decode_uper (Some specs) (Some c) None None;
    uper_valid := fun v => exists i, (i < length (value2enum specs))%nat /\ nth i (value2enum specs) 0 = v;
    uper_bits := fun v => match bsearch INTEGER__compar_value2enum v (value2enum specs) with
                          | Some i => enum_bits specs (pc_value c) (Z.of_nat i) | None => [] end
  |}.
  - intros v K C S TS (i & Hi & <-). exists 0. rewrite bsearch_nth by (auto; apply Hok).
    now apply encodes_enum.
  - intros _ v (i & Hi & <-). exists 0. rewrite bsearch_nth by (auto; apply Hok). now apply decodes_enum.
  - auto with follows.
Defined.

Definition NULL_codec (HA : serves A 4) : UperCodec Z.
Proof.
  refine {|
    uper_enc := fun v K C => NULL_encode_uper (Some v);
    uper_dec := fun _ => NULL_decode_uper None;
    uper_valid := fun v => v = 0;
    uper_bits := fun _ => []
  |}.
  - intros v K C S TS _. exists 0. apply encodes_ret.
  - intros _ v ->. exists 0. unfold NULL_decode_uper. rewrite HA by (unfold sizeof_BOOLEAN_t; lia). apply decodes_ret.
  - intros _ pd Hok. unfold NULL_decode_uper. destruct (malloc_ok _); now apply follows_ret.
Defined.
End Instances.

(** * Properties *)



(** Hostile input to a whole decoder: for every such type, any octets
    and any skipped and unused bits, the count of consumed bits that
    uper_decode computes from the stream position equals the counter its
    assertion compares it with, and it never exceeds the bits available. *)
Theorem uper_decode_consumed {X} {U : UperCodec X} ctx buf skip unused :
  octets buf -> 0 <= skip <= 7 -> 0 <= unused <= 7 -> skip <= 8 * Z.of_nat (length buf) - unused ->
  let pd := {| buffer := buf; nboff := skip; nbits := 8 * Z.of_nat (length buf) - unused; moved := 0 |} in
  let '(r, pd') := uper_dec (Some (match ctx with Some c => c | None => default_ctx end)) pd in
  match uper_decode ctx (Some uper_dec) buf skip unused with
  | RC_OK n x => n = moved pd' /\ exists m, r = RC_OK m x
  | RC_WMORE n | RC_FAIL n => n = moved pd'
  end /\ 0 <= moved pd' <= nbits pd - skip.
Proof.
  intros Hb Hs Hu Hle. pose proof (uper_decode_stream buf skip unused Hb Hs Hu Hle) as Hpd. cbv zeta.
  rewrite uper_decode_eq by assumption. cbv zeta.
  set (c := match ctx with Some _ => _ | None => _ end). destruct (uper_dec_safe (Some c) _ Hpd) as [n Hn].
  destruct (uper_dec (Some c) _) as [r pd']. cbn [snd] in Hn. destruct (consumed_moved _ _ _ _ _ Hn) as [-> Em].
  destruct Hn as (_ & _ & Hlen & _). pose proof (length_remaining _ Hpd) as Hrem. cbn [nbits nboff] in *.
  split; [destruct r; eauto|]. lia.
Qed.

Lemma uper_decode_consumed_witness :
  let U := @BOOLEAN_codec (fun _ => true) (fun _ _ => eq_refl) in
  let pd := {| buffer := [64]; nboff := 1; nbits := 8 * Z.of_nat (length [64]) - 2; moved := 0 |} in
  let '(r, pd') := @uper_dec _ U (Some default_ctx) pd in
  match uper_decode None (Some (@uper_dec _ U)) [64] 1 2 with
  | RC_OK n x => n = moved pd' /\ exists m, r = RC_OK m x
  | RC_WMORE n | RC_FAIL n => n = moved pd'
  end /\ 0 <= moved pd' <= nbits pd - 1.
Proof.
  apply (@uper_decode_consumed Z (@BOOLEAN_codec (fun _ => true) (fun _ _ => eq_refl)) None [64] 1 2);
    [repeat constructor; lia|lia|lia|cbn; lia].
Defined.

(** Values without bits (NULL): uper_encode hands over nothing and
    reports 0 bits, so uper_decode_complete on its output asks for more data;
    uper_encode_to_new_buffer supplies the single zero octet that X.691
    #11.1 demands, from which the value is decoded. *)
Theorem empty_encoding {X} {U : UperCodec X} {T : Target} {A : Allocator} ctx tmp x :
  length tmp = sizeof_tmpspace -> octets tmp -> uper_valid x -> uper_bits x = [] ->
  (forall po : asn_bit_outp enc_dyn_arg, exists e, uper_enc x _ encode_dyn_cb po = (ENCODED_OK e, po)) -> malloc_ok 1 = true ->
  uper_encode (Some (uper_enc x)) tmp ([] : ByteBuffer) = Some (0, []) /\
  uper_decode_complete ctx (Some uper_dec) [] = RC_WMORE 0 /\
  uper_encode_to_new_buffer (Some (uper_enc x)) tmp = Some (1, [0]) /\
  uper_decode_complete ctx (Some uper_dec) [0] = RC_OK 1 x.
Proof.
  intros Ht Ho Hv Hne He HA.
  destruct (uper_encode_ok (R := total_roomy write_buffer_total) tmp ([] : ByteBuffer) x Ht Ho) as (out & E & Ec); [constructor|assumption|apply fits_total|].
  rewrite Hne in *. change (contents out) with out in Ec. cbn in Ec. subst out. split; [exact E|].
  pose proof (fun tr => uper_decode_ok ctx x tr Hv) as Hd. rewrite Hne in Hd. cbn [app length] in Hd.
  change (complete_octets []) with (@nil Z) in Hd. cbn [app] in Hd.
  split; [unfold uper_decode_complete; rewrite (Hd [] ltac:(constructor)); reflexivity|]. split.
  - unfold uper_encode_to_new_buffer, uper_encode. destruct (He (fresh_outp tmp {| dyn_data := []; dyn_allocated := 0%N |})) as [e ->].
    cbn. rewrite HA. reflexivity.
  - unfold uper_decode_complete. rewrite (Hd [0] ltac:(repeat constructor; lia)). reflexivity.
Qed.

Lemma empty_encoding_witness :
  let U := @NULL_codec (fun _ => true) (fun _ _ => eq_refl) in
  uper_encode (Some (@uper_enc _ U 0)) (replicate 32 1) ([] : ByteBuffer) = Some (0, []) /\
  uper_decode_complete None (Some (@uper_dec _ U)) [] = RC_WMORE 0 /\
  @uper_encode_to_new_buffer LP64 (fun _ => true) (Some (@uper_enc _ U 0)) (replicate 32 1) = Some (1, [0]) /\
  uper_decode_complete None (Some (@uper_dec _ U)) [0] = RC_OK 1 0.
Proof.
  apply (@empty_encoding Z (@NULL_codec (fun _ => true) (fun _ _ => eq_refl)) LP64 (fun _ => true) None (replicate 32 1) 0).
  - reflexivity.
  - repeat constructor; lia.
  - reflexivity.
  - reflexivity.
  - intros po. exists 0. reflexivity.
  - reflexivity.
Defined.

(** The growing buffer of per_encoder.c: with room to double twice in
    size_t and an allocator that serves it, encode_dyn_cb accepts the octets,
    appends them, and keeps the contents strictly inside the allocated
    memory, which it never makes larger than four times the need (or 32). *)
Theorem encode_dyn_cb_in_bounds {T : Target} {A : Allocator} arg bs :
  let need := Z.of_nat (length (dyn_data arg)) + Z.of_nat (length bs) in
  need < 2 ^ (word_bits - 2) -> serves A (Z.max 32 (4 * need)) ->
  exists arg', encode_dyn_cb arg bs = Some arg' /\ dyn_data arg' = dyn_data arg ++ bs /\
    Z.of_nat (length (dyn_data arg')) < Z.of_N (dyn_allocated arg') <= Z.max (Z.of_N (dyn_allocated arg)) (Z.max 32 (4 * need)).
Proof.
  intros need Hneed HA. destruct (encode_dyn_grows arg bs Hneed HA) as (arg' & E & Ed & Ha).
  exists arg'. split; [exact E|]. split; [exact Ed|]. rewrite Ed. fold need in Ha. subst need. revert Ha. len.
Qed.

Lemma encode_dyn_cb_in_bounds_witness :
  let arg := {| dyn_data := [1; 2; 3]; dyn_allocated := 4%N |} in
  exists arg', @encode_dyn_cb LP64 (fun _ => true) arg [4; 5; 6] = Some arg' /\ dyn_data arg' = [1; 2; 3] ++ [4; 5; 6] /\
    Z.of_nat (length (dyn_data arg')) < Z.of_N (dyn_allocated arg') <= Z.max 4 (Z.max 32 (4 * 6)).
Proof.
  apply (@encode_dyn_cb_in_bounds LP64 (fun _ => true) {| dyn_data := [1; 2; 3]; dyn_allocated := 4%N |} [4; 5; 6]).
  - reflexivity.
  - intros ? _. reflexivity.
Defined.
