(* ===== verification/OctetString.v ===== *)
(** OCTET STRING and the character strings: OCTET_STRING.c,
    OCTET_STRING_uper.c and OCTET_STRING_oer.c under vanetza/asn1/support/.

    A string is a list of characters of one, two or four octets.  UPER codes
    each character by the permitted alphabet ([char_code]), the number of
    characters by the size constraint; [octet_string_bits] states the whole
    encoding. *)

From S2P Require Import Prelude Runtime Constraints BitData BitOutp UperSupport Integer IntegerUper OerSupport IntegerOer.

(** * Data *)

Inductive asn_OS_Subvariant := ASN_OSUBV_ANY | ASN_OSUBV_BIT | ASN_OSUBV_STR | ASN_OSUBV_U16 | ASN_OSUBV_U32.

#[export] Instance asn_OS_Subvariant_eq_dec : EqDecision asn_OS_Subvariant.
Proof. solve_decision. Defined.

(** asn_OCTET_STRING_specifics_t *)
Record asn_OCTET_STRING_specifics := { struct_size : Z; subvariant : asn_OS_Subvariant }.

(** OCTET_STRING_t: nothing for a NULL [buf], otherwise the [size] octets. *)
Abbreviation OCTET_STRING_t := (option (list Z)) (only parsing).

(** asn_SPC_OCTET_STRING_specs; [sizeof(OCTET_STRING_t)] is that of a
    pointer, a size and the decoding context. *)
Definition asn_SPC_OCTET_STRING_specs {T : Target} : asn_OCTET_STRING_specifics :=
  {| struct_size := 8 + 4 * sizeof_word; subvariant := ASN_OSUBV_STR |}.

Definition os_specs {T : Target} (specifics : option asn_OCTET_STRING_specifics) : asn_OCTET_STRING_specifics :=
  match specifics with Some s => s | None => asn_SPC_OCTET_STRING_specs end.

(** asn_DEF_OCTET_STRING_constraints *)
Definition asn_DEF_OCTET_STRING_constraints : asn_per_constraints :=
  {| pc_value := mk_per_constraint APC_CONSTRAINED 8 8 0 255;
     pc_size := mk_per_constraint APC_SEMI_CONSTRAINED (-1) (-1) 0 0; value2code := None; code2value := None |}.

(** Octets per character; nothing for the subvariants that are no strings. *)
Definition bytes_per_char (v : asn_OS_Subvariant) : option nat :=
  match v with
  | ASN_OSUBV_STR => Some 1%nat
  | ASN_OSUBV_U16 => Some 2%nat
  | ASN_OSUBV_U32 => Some 4%nat
  | _ => None
  end.

(** * Characters *)

Section Characters.
Context {T : Target}.

(** [(unsigned long)ub <= ((unsigned long)2 << (unit_bits - 1))] *)
Definition as_is (ub unit_bits : Z) : bool := uwrap word_bits ub <=? uwrap word_bits (2 ≪ (unit_bits - 1)).

(** Results of OCTET_STRING_per_get_characters: the octets, or 1 (fatal), or
    -1 (more data). *)
Inductive get_result := Got (bs : list Z) | GetFatal | GetMore.

(** The loop with a permitted alphabet. *)
Fixpoint get_mapped (units bpc : nat) (unit_bits : Z) (code2value : Z -> Z) (pd : asn_bit_data) (buf : list Z) :
    get_result * asn_bit_data :=
  match units with
  | O => (Got buf, pd)
  | S units' =>
      let '(code, pd) := asn_get_few_bits pd unit_bits in
      if code <? 0 then (GetMore, pd) else
      let value := code2value code in
      if value <? 0 then (GetFatal, pd)
      else get_mapped units' bpc unit_bits code2value pd (buf ++ be_bytes bpc value)
  end.

(** The loop that adds the lower bound. *)
Fixpoint get_shifted (units bpc : nat) (unit_bits lb ub : Z) (pd : asn_bit_data) (buf : list Z) :
    get_result * asn_bit_data :=
  match units with
  | O => (Got buf, pd)
  | S units' =>
      let '(code, pd) := asn_get_few_bits pd unit_bits in
      let ch := swrap 32 (code + lb) in
      if code <? 0 then (GetMore, pd)
      else if ub <? ch then (GetFatal, pd)
      else get_shifted units' bpc unit_bits lb ub pd (buf ++ be_bytes bpc ch)
  end.

(** OCTET_STRING_per_get_characters. *)
Definition OCTET_STRING_per_get_characters (pd : asn_bit_data) (units bpc : nat) (unit_bits lb ub : Z)
    (pc : option asn_per_constraints) : get_result * asn_bit_data :=
  let plain lb :=
    if (lb =? 0) && (unit_bits =? 8 * Z.of_nat bpc) then
      let '(got, pd) := asn_get_many_bits pd false (unit_bits * Z.of_nat units) in
      (match got with Some bs => Got bs | None => GetMore end, pd)
    else get_shifted units bpc unit_bits lb ub pd [] in
  if as_is ub unit_bits then plain 0
  else
    match pc with
    | Some {| code2value := Some c2v |} =>
        if 16 <? unit_bits then (GetFatal, pd) else get_mapped units bpc unit_bits c2v pd []
    | _ => plain lb
    end.

Context {K : Type} {C : Consumer K}.

Fixpoint put_mapped (units bpc : nat) (unit_bits : Z) (value2code : Z -> Z) (po : asn_bit_outp K) (buf : list Z) :
    Z * asn_bit_outp K :=
  match units with
  | O => (0, po)
  | S units' =>
      let code := value2code (be_val (take bpc buf)) in
      if code <? 0 then (-1, po) else
      let '(rc, po) := asn_put_few_bits po code unit_bits in
      if negb (rc =? 0) then (-1, po) else put_mapped units' bpc unit_bits value2code po (drop bpc buf)
  end.

Fixpoint put_shifted (units bpc : nat) (unit_bits lb ub : Z) (po : asn_bit_outp K) (buf : list Z) :
    Z * asn_bit_outp K :=
  match units with
  | O => (0, po)
  | S units' =>
      let ch := swrap 32 (be_val (take bpc buf) - lb) in
      if (ch <? 0) || (ub - lb <? ch) then (-1, po) else
      let '(rc, po) := asn_put_few_bits po ch unit_bits in
      if negb (rc =? 0) then (-1, po) else put_shifted units' bpc unit_bits lb ub po (drop bpc buf)
  end.

(** OCTET_STRING_per_put_characters.  Behind the loop with a permitted
    alphabet no character is left. *)
Definition OCTET_STRING_per_put_characters (po : asn_bit_outp K) (buf : list Z) (units bpc : nat) (unit_bits lb ub : Z)
    (pc : option asn_per_constraints) : Z * asn_bit_outp K :=
  let plain lb units buf po :=
    if (lb =? 0) && (unit_bits =? 8 * Z.of_nat bpc) then asn_put_many_bits po buf (unit_bits * Z.of_nat units)
    else put_shifted units bpc unit_bits lb ub po buf in
  if as_is ub unit_bits then plain 0 units buf po
  else
    match pc with
    | Some {| value2code := Some v2c |} =>
        let '(rc, po) := put_mapped units bpc unit_bits v2c po buf in
        if negb (rc =? 0) then (-1, po)
        else if (lb =? 0) && (unit_bits =? 8 * Z.of_nat bpc)
        then asn_put_many_bits po (drop (units * bpc) buf) (unit_bits * Z.of_nat units)
        else (0, po)
    | _ => plain lb units buf po
    end.
End Characters.

(** * UPER *)

Section OctetStringUper.
Context {T : Target} {A : Allocator}.

(** [unit_bits] of a subvariant under a value constraint. *)
Definition unit_bits_of (cval : asn_per_constraint) (bpc : nat) : Z :=
  if has cval APC_CONSTRAINED then range_bits cval else 8 * Z.of_nat bpc.

(** The bounds, converted to the [long] parameters of the character
    functions. *)
Definition char_lb (cval : asn_per_constraint) : Z := swrap word_bits (lower_bound cval).
Definition char_ub (cval : asn_per_constraint) : Z := swrap word_bits (upper_bound cval).

(** The loop over the fragments; [buf] is nothing while [st->buf] is NULL,
    and [acc] holds the [st->size] octets decoded. *)
Fixpoint octet_string_fragments (fuel : nat) (pd : asn_bit_data) (csiz cval : asn_per_constraint) (bpc : nat)
    (unit_bits : Z) (pc : option asn_per_constraints) (have_buf : bool) (acc : list Z) :
    asn_dec_rval OCTET_STRING_t * asn_bit_data :=
  match fuel with
  | O => (DECODE_FAILED, pd)
  | S fuel' =>
      let '((raw_len, repeat), pd) := uper_get_length pd (effective_bits csiz) (lower_bound csiz) in
      if raw_len <? 0 then (DECODE_STARVED, pd)
      else if (raw_len =? 0) && have_buf then (RC_OK 0 (Some acc), pd)
      else if negb (malloc_ok (Z.of_nat (length acc) + raw_len * Z.of_nat bpc + 1)) then (DECODE_FAILED, pd)
      else
        let '(got, pd) := OCTET_STRING_per_get_characters pd (Z.to_nat raw_len) bpc unit_bits (char_lb cval) (char_ub cval) pc in
        match got with
        | GetFatal => (DECODE_FAILED, pd)
        | GetMore => (DECODE_STARVED, pd)
        | Got bs =>
            if repeat then octet_string_fragments fuel' pd csiz cval bpc unit_bits pc true (acc ++ bs)
            else (RC_OK 0 (Some (acc ++ bs)), pd)
        end
  end.

(** The part of OCTET_STRING_decode_uper behind the extension bit. *)
Definition octet_string_decode_body (csiz cval : asn_per_constraint) (bpc : nat) (unit_bits : Z)
    (pc : option asn_per_constraints) (sptr : option OCTET_STRING_t) (pd : asn_bit_data) :
    asn_dec_rval OCTET_STRING_t * asn_bit_data :=
  let sized := 0 <=? effective_bits csiz in
  if sized && negb (malloc_ok (upper_bound csiz * Z.of_nat bpc + 1)) then (DECODE_FAILED, pd)
  else if effective_bits csiz =? 0 then
    let '(got, pd) := OCTET_STRING_per_get_characters pd (Z.to_nat (upper_bound csiz)) bpc unit_bits (char_lb cval) (char_ub cval) pc in
    match got with
    | GetFatal => (DECODE_FAILED, pd)
    | GetMore => (DECODE_STARVED, pd)
    | Got bs => (RC_OK (unit_bits * upper_bound csiz) (Some bs), pd)
    end
  else
    let have_buf := sized || match sptr with Some (Some _) => true | _ => false end in
    octet_string_fragments (fragments_fuel pd) pd csiz cval bpc unit_bits pc have_buf [].

(** OCTET_STRING_decode_uper. *)
Definition OCTET_STRING_decode_uper (specifics : option asn_OCTET_STRING_specifics)
    (td_constraints constraints : option asn_per_constraints) (sptr : option OCTET_STRING_t)
    (pd : asn_bit_data) : asn_dec_rval OCTET_STRING_t * asn_bit_data :=
  let specs := os_specs specifics in
  let pc := or_else constraints td_constraints in
  let cs := match pc with Some c => c | None => asn_DEF_OCTET_STRING_constraints end in
  match bytes_per_char (subvariant specs) with
  | None => (DECODE_FAILED, pd)
  | Some bpc =>
      let unit_bits := unit_bits_of (pc_value cs) bpc in
      if negb (have_struct sptr (struct_size specs)) then (DECODE_FAILED, pd)
      else if has (pc_size cs) APC_EXTENSIBLE then
        let '(inext, pd) := asn_get_few_bits pd 1 in
        if inext <? 0 then (DECODE_STARVED, pd)
        else if negb (inext =? 0)
        then octet_string_decode_body (pc_size asn_DEF_OCTET_STRING_constraints) (pc_value cs) bpc (8 * Z.of_nat bpc) pc sptr pd
        else octet_string_decode_body (pc_size cs) (pc_value cs) bpc unit_bits pc sptr pd
      else octet_string_decode_body (pc_size cs) (pc_value cs) bpc unit_bits pc sptr pd
  end.

Context {K : Type} {C : Consumer K}.

(** The do-while loop of the encoder. *)
Fixpoint octet_string_put_fragments (fuel : nat) (po : asn_bit_outp K) (buf : list Z) (size_in_units : Z)
    (cval : asn_per_constraint) (bpc : nat) (unit_bits : Z) (pc : option asn_per_constraints) : asn_enc_rval * asn_bit_outp K :=
  match fuel with
  | O => (ENCODE_FAILED, po)
  | S fuel' =>
      let '((may_save, need_eom), po) := uper_put_length po size_in_units in
      if may_save <? 0 then (ENCODE_FAILED, po) else
      let '(ret, po) := OCTET_STRING_per_put_characters po buf (Z.to_nat may_save) bpc unit_bits (char_lb cval) (char_ub cval) pc in
      if negb (ret =? 0) then (ENCODE_FAILED, po) else
      let buf := drop (Z.to_nat may_save * bpc) buf in
      let size_in_units := size_in_units - may_save in
      let continue po :=
        if negb (size_in_units =? 0) then octet_string_put_fragments fuel' po buf size_in_units cval bpc unit_bits pc
        else (ENCODED_OK 0, po) in
      if need_eom then
        let '((rc, _), po) := uper_put_length po 0 in
        if negb (rc =? 0) then (ENCODE_FAILED, po) else continue po
      else continue po
  end.

(** The part of OCTET_STRING_encode_uper behind the extension bit; [outside]
    is [inext], which replaces the size constraint and the unit. *)
Definition octet_string_encode_body (outside : bool) (csiz cval : asn_per_constraint) (bpc : nat)
    (pc : option asn_per_constraints) (buf : list Z) (size_in_units : Z) (po : asn_bit_outp K) : asn_enc_rval * asn_bit_outp K :=
  if outside then
    octet_string_put_fragments (S (length buf)) po buf size_in_units cval bpc (8 * Z.of_nat bpc) pc
  else if 0 <=? effective_bits csiz then
    let '(ret, po) := asn_put_few_bits po (size_in_units - lower_bound csiz) (effective_bits csiz) in
    if negb (ret =? 0) then (ENCODE_FAILED, po) else
    let '(ret, po) := OCTET_STRING_per_put_characters po buf (Z.to_nat size_in_units) bpc (unit_bits_of cval bpc)
                        (char_lb cval) (char_ub cval) pc in
    if negb (ret =? 0) then (ENCODE_FAILED, po) else (ENCODED_OK 0, po)
  else octet_string_put_fragments (S (length buf)) po buf size_in_units cval bpc (unit_bits_of cval bpc) pc.

(** OCTET_STRING_encode_uper. *)
Definition OCTET_STRING_encode_uper (specifics : option asn_OCTET_STRING_specifics)
    (td_constraints constraints : option asn_per_constraints) (sptr : option OCTET_STRING_t)
    (po : asn_bit_outp K) : asn_enc_rval * asn_bit_outp K :=
  match sptr with
  | None => (ENCODE_FAILED, po)
  | Some st =>
      let buf := default [] st in
      let size := Z.of_nat (length buf) in
      if 2147483647 <? size then (ENCODE_FAILED, po) else
      let pc := or_else constraints td_constraints in
      let cs := match pc with Some c => c | None => asn_DEF_OCTET_STRING_constraints end in
      let cval := pc_value cs in let csiz := pc_size cs in
      let ct_extensible := has csiz APC_EXTENSIBLE in
      match bytes_per_char (subvariant (os_specs specifics)) with
      | None => (ENCODE_FAILED, po)
      | Some bpc =>
          if negb (size mod Z.of_nat bpc =? 0) then (ENCODE_FAILED, po) else
          let size_in_units := size / Z.of_nat bpc in
          let outside := (0 <=? effective_bits csiz) &&
                         ((size_in_units <? lower_bound csiz) || (upper_bound csiz <? size_in_units)) in
          if outside && negb ct_extensible then (ENCODE_FAILED, po) else
          let put := octet_string_encode_body outside csiz cval bpc pc buf size_in_units in
          if ct_extensible then
            let '(rc, po) := asn_put_few_bits po (Z.b2z outside) 1 in
            if negb (rc =? 0) then (ENCODE_FAILED, po) else put po
          else put po
      end
  end.
End OctetStringUper.

(** * OER *)

Section OctetStringOer.
Context {T : Target} {A : Allocator}.

Definition oer_size (constraints of_type : option asn_oer_constraints) : Z :=
  match or_else constraints of_type with Some c => oc_size c | None => -1 end.

(** The subvariants OER takes; an open type counts as octets. *)
Definition oer_unit_bytes (v : asn_OS_Subvariant) : option Z :=
  match v with
  | ASN_OSUBV_ANY | ASN_OSUBV_STR => Some 1
  | ASN_OSUBV_U16 => Some 2
  | ASN_OSUBV_U32 => Some 4
  | ASN_OSUBV_BIT => None
  end.

(** OCTET_STRING_decode_oer. *)
Definition OCTET_STRING_decode_oer (specifics : option asn_OCTET_STRING_specifics)
    (td_constraints constraints : option asn_oer_constraints) (sptr : option OCTET_STRING_t) : oer_decoder OCTET_STRING_t := fun ptr =>
  let specs := os_specs specifics in
  let ct_size := oer_size constraints td_constraints in
  match oer_unit_bytes (subvariant specs) with
  | None => DECODE_FAILED
  | Some unit_bytes =>
      if negb (have_struct sptr (struct_size specs)) then DECODE_FAILED else
      let finish consumed expected_length ptr :=
        if Z.of_nat (length ptr) <? expected_length then DECODE_STARVED
        else if malloc_ok (expected_length + 1)
        then RC_OK (consumed + expected_length) (Some (take (Z.to_nat expected_length) ptr))
        else DECODE_FAILED in
      if 0 <=? ct_size then finish 0 (unit_bytes * ct_size) ptr
      else
        let '(len_len, expected_length) := oer_fetch_length ptr in
        if 0 <? len_len then
          if negb (expected_length mod unit_bytes =? 0) then DECODE_FAILED
          else finish len_len expected_length (drop (Z.to_nat len_len) ptr)
        else if len_len =? 0 then DECODE_STARVED
        else DECODE_FAILED
  end.

(** OCTET_STRING_encode_oer. *)
Definition OCTET_STRING_encode_oer {K} {C : Consumer K} (specifics : option asn_OCTET_STRING_specifics)
    (td_constraints constraints : option asn_oer_constraints) (sptr : option OCTET_STRING_t) (k : K) : oer_enc K :=
  match sptr with
  | None => None
  | Some st =>
      let buf := default [] st in
      let ct_size := oer_size constraints td_constraints in
      if 0 <=? ct_size then
        match oer_unit_bytes (subvariant (os_specs specifics)) with
        | None => None
        | Some unit_bytes => if negb (Z.of_nat (length buf) =? unit_bytes * ct_size) then None else put_bytes buf k
        end
      else enc_seq (oer_serialize_length (Z.of_nat (length buf)) k) (put_bytes buf)
  end.
End OctetStringOer.

(** * Comparison, copy and construction *)

(** OCTET_STRING_compare; NULL structure pointers are nothing. *)
Definition OCTET_STRING_compare (a b : option OCTET_STRING_t) : Z :=
  match a, b with
  | Some a, Some b =>
      let a := default [] a in let b := default [] b in
      let common_prefix_size := Nat.min (length a) (length b) in
      let ret := memcmp (take common_prefix_size a) (take common_prefix_size b) in
      if ret =? 0 then
        if (length a <? length b)%nat then -1 else if (length b <? length a)%nat then 1 else 0
      else if ret <? 0 then -1 else 1
  | None, None => 0
  | None, _ => -1
  | _, None => 1
  end.

(** strlen(3): the octets before the first NUL. *)
Fixpoint strlen (s : list Z) : Z :=
  match s with
  | [] => 0
  | c :: s' => if c =? 0 then 0 else 1 + strlen s'
  end.

Section Construct.
Context {A : Allocator}.

(** OCTET_STRING_copy: the return code and the structure behind [*aptr]. *)
Definition OCTET_STRING_copy {T : Target} (specifics : option asn_OCTET_STRING_specifics) (a b : option OCTET_STRING_t) :
    Z * option OCTET_STRING_t :=
  match b with
  | None => (0, None)
  | Some b =>
      match (match a with Some a => Some a | None => if malloc_ok (struct_size (os_specs specifics)) then Some None else None end) with
      | None => (-1, None)
      | Some a =>
          let bs := default [] b in
          if malloc_ok (Z.of_nat (length bs) + 1) then (0, Some (Some bs)) else (-1, Some a)
      end
  end.

(** OCTET_STRING_fromBuf; a negative length is that of the text, and [str] is nothing for
    NULL. *)
Definition OCTET_STRING_fromBuf (st : OCTET_STRING_t) (str : option (list Z)) (len : Z) : (errno + Z) * OCTET_STRING_t :=
  match str with
  | None => if negb (len =? 0) then (inl EINVAL, st) else (inr 0, None)
  | Some s =>
      let len := if len <? 0 then strlen s else len in
      if malloc_ok (len + 1) then (inr 0, Some (take (Z.to_nat len) s)) else (inr (-1), st)
  end.
End Construct.

(** * Characters on the wire *)

(** The octets of a string of characters. *)
Definition chars_bytes (bpc : nat) (cs : list Z) : list Z := flat_map (be_bytes bpc) cs.

Definition is_char (bpc : nat) (c : Z) : Prop := 0 <= c < 256 ^ Z.of_nat bpc.

Lemma length_chars_bytes bpc cs : length (chars_bytes bpc cs) = (length cs * bpc)%nat.
Proof. induction cs as [|c cs IH]; [reflexivity|]. unfold chars_bytes in *. cbn [flat_map]. len. Qed.
#[export] Hint Rewrite length_chars_bytes : asn_len.

Lemma chars_bytes_octets bpc cs : octets (chars_bytes bpc cs).
Proof. induction cs as [|c cs IH]; [constructor|]. apply octets_app. auto with asn. Qed.
#[export] Hint Resolve chars_bytes_octets : asn.

Lemma chars_bytes_app bpc cs cs' : chars_bytes bpc (cs ++ cs') = chars_bytes bpc cs ++ chars_bytes bpc cs'.
Proof. apply flat_map_app. Qed.

Lemma chars_bytes_drop bpc n cs : drop (n * bpc) (chars_bytes bpc cs) = chars_bytes bpc (drop n cs).
Proof.
  destruct (Nat.le_gt_cases n (length cs)) as [H|H].
  - rewrite <- (take_drop n cs) at 1. rewrite chars_bytes_app. apply drop_app_length'. len.
    rewrite Nat.min_l by lia. reflexivity.
  - rewrite (drop_ge cs) by lia. apply drop_ge. len. nia.
Qed.

Lemma be_val_char bpc c : is_char bpc c -> be_val (be_bytes bpc c) = c.
Proof. intros H. rewrite be_val_be_bytes. apply Z.mod_small. unfold is_char in H. rewrite pow256 in H by lia. exact H. Qed.

(** How one character is coded, X.691 #30.5: copied octet by octet, through
    the tables of a permitted alphabet, or as an offset from a lower bound. *)
Inductive coding := Copy | Mapped (value2code code2value : Z -> Z) | Offset (lb ub : Z).

Definition char_coding {T : Target} (bpc : nat) (unit_bits lb ub : Z) (pc : option asn_per_constraints) : coding :=
  let plain lb := if (lb =? 0) && (unit_bits =? 8 * Z.of_nat bpc) then Copy else Offset lb ub in
  if as_is ub unit_bits then plain 0
  else
    match pc with
    | Some {| value2code := Some v2c; code2value := Some c2v |} => Mapped v2c c2v
    | _ => plain lb
    end.

(** The characters with a code, and the code. *)
Definition char_ok (k : coding) (c : Z) : bool :=
  match k with Copy => true | Mapped v2c _ => 0 <=? v2c c | Offset lb ub => (lb <=? c) && (c <=? ub) end.

Definition char_code (k : coding) (c : Z) : Z :=
  match k with Copy => c | Mapped v2c _ => v2c c | Offset lb _ => c - lb end.

Definition char_bits (k : coding) (unit_bits : Z) (c : Z) : list bool := bits_of (Z.to_nat unit_bits) (char_code k c).

(** The tables come in pairs, and a code fits its bits.  An alphabet without
    tables may be kept as it is when its largest character [ub] is below
    [2 ^ unit_bits]; the code also keeps one with [ub = 2 ^ unit_bits], whose
    last character does not fit and is lost ([alphabet_limit_lost]), so that
    one is not among the alphabets of the round trip. *)
Definition alphabet_ok {T : Target} (bpc : nat) (unit_bits lb ub : Z) (pc : option asn_per_constraints) : Prop :=
  (forall p, pc = Some p -> (value2code p = None <-> code2value p = None)) /\
  match char_coding bpc unit_bits lb ub pc with
  | Copy => True
  | Mapped v2c c2v =>
      1 <= unit_bits <= 16 /\ (lb = 0 -> unit_bits <> 8 * Z.of_nat bpc) /\
      forall c, is_char bpc c -> 0 <= v2c c -> v2c c < 2 ^ unit_bits /\ c2v (v2c c) = c
  | Offset lb ub => 1 <= unit_bits <= 31 /\ 0 <= lb /\ ub < 2 ^ 31 /\ ub - lb < 2 ^ unit_bits
  end.

Lemma copy_bits bpc cs : flat_map (char_bits Copy (8 * Z.of_nat bpc)) cs = bytes_bits (chars_bytes bpc cs).
Proof.
  induction cs as [|c cs IH]; [reflexivity|]. unfold chars_bytes in *. cbn [flat_map].
  rewrite bytes_bits_app, <- IH, bytes_bits_be_bytes. unfold char_bits, char_code. do 2 f_equal. lia.
Qed.

(** The codes of the characters, when all have one. *)
Definition chars_bits (k : coding) (unit_bits : Z) (cs : list Z) : option (list bool) :=
  if forallb (char_ok k) cs then Some (flat_map (char_bits k unit_bits) cs) else None.

Lemma chars_bits_cons k unit_bits c cs :
  char_ok k c = true ->
  chars_bits k unit_bits (c :: cs) = option_map (app (char_bits k unit_bits c)) (chars_bits k unit_bits cs).
Proof. intros H. unfold chars_bits. cbn [forallb flat_map]. rewrite H. now destruct (forallb _ cs). Qed.

Section GetCharacters.
Context {T : Target}.

Lemma decodes_mapped bpc unit_bits v2c c2v cs : forall buf,
  1 <= unit_bits <= 16 ->
  (forall c, is_char bpc c -> 0 <= v2c c -> v2c c < 2 ^ unit_bits /\ c2v (v2c c) = c) ->
  Forall (is_char bpc) cs -> forallb (char_ok (Mapped v2c c2v)) cs = true ->
  decodes (fun pd => get_mapped (length cs) bpc unit_bits c2v pd buf)
    (flat_map (char_bits (Mapped v2c c2v) unit_bits) cs) (Got (buf ++ chars_bytes bpc cs)).
Proof.
  induction cs as [|c cs IH]; intros buf Hu Hm Hcs Hok; cbn [length get_mapped flat_map].
  { rewrite app_nil_r. apply decodes_ret. }
  apply Forall_cons_iff in Hcs as [Hc Hcs]. cbn [forallb] in Hok. apply andb_prop in Hok as [Hv Hok].
  cbn [char_ok] in Hv. bool_hyps. destruct (Hm c Hc Hv) as [Hlt Hback].
  eapply decodes_bind; [apply (decodes_few_bits_of _ unit_bits (v2c c)); lia|]. cbv beta iota zeta.
  rewrite Hback, (proj2 (Z.ltb_ge (v2c c) 0)), (proj2 (Z.ltb_ge c 0)) by (unfold is_char in *; lia).
  change (chars_bytes bpc (c :: cs)) with (be_bytes bpc c ++ chars_bytes bpc cs). rewrite app_assoc. now apply IH.
Qed.

Lemma decodes_shifted bpc unit_bits lb ub cs : forall buf,
  1 <= unit_bits <= 31 -> 0 <= lb -> ub < 2 ^ 31 -> ub - lb < 2 ^ unit_bits ->
  forallb (char_ok (Offset lb ub)) cs = true ->
  decodes (fun pd => get_shifted (length cs) bpc unit_bits lb ub pd buf)
    (flat_map (char_bits (Offset lb ub) unit_bits) cs) (Got (buf ++ chars_bytes bpc cs)).
Proof.
  induction cs as [|c cs IH]; intros buf Hu Hlb Hub Hr Hok; cbn [length get_shifted flat_map].
  { rewrite app_nil_r. apply decodes_ret. }
  cbn [forallb char_ok] in Hok. apply andb_prop in Hok as [[H1 H2]%andb_prop Hok]. bool_hyps.
  eapply decodes_bind; [apply (decodes_few_bits_of _ unit_bits (c - lb)); lia|]. cbv beta iota zeta.
  rewrite Z.sub_add, swrap_small by lia.
  rewrite (proj2 (Z.ltb_ge (c - lb) 0)), (proj2 (Z.ltb_ge ub c)) by lia.
  change (chars_bytes bpc (c :: cs)) with (be_bytes bpc c ++ chars_bytes bpc cs). rewrite app_assoc. now apply IH.
Qed.

Lemma decodes_copy bpc cs :
  decodes (fun pd => let '(got, pd') := asn_get_many_bits pd false (8 * Z.of_nat bpc * Z.of_nat (length cs)) in
                     (match got with Some bs => Got bs | None => GetMore end, pd'))
    (flat_map (char_bits Copy (8 * Z.of_nat bpc)) cs) (Got (chars_bytes bpc cs)).
Proof.
  rewrite copy_bits. replace (8 * Z.of_nat bpc * Z.of_nat (length cs)) with (8 * Z.of_nat (length (chars_bytes bpc cs))).
  - eapply decodes_last; [apply decodes_many_bits_octets; auto with asn|]. apply decodes_ret.
  - len.
Qed.

(** OCTET_STRING_per_get_characters reads the codes of the characters. *)
Lemma decodes_characters bpc unit_bits lb ub pc cs :
  let k := char_coding bpc unit_bits lb ub pc in
  alphabet_ok bpc unit_bits lb ub pc -> Forall (is_char bpc) cs -> forallb (char_ok k) cs = true ->
  decodes (fun pd => OCTET_STRING_per_get_characters pd (length cs) bpc unit_bits lb ub pc)
    (flat_map (char_bits k unit_bits) cs) (Got (chars_bytes bpc cs)).
Proof.
  cbv zeta. intros [Hpair Ha] Hcs Hok. unfold OCTET_STRING_per_get_characters, char_coding in *.
  assert (forall lb, match (if (lb =? 0) && (unit_bits =? 8 * Z.of_nat bpc) then Copy else Offset lb ub) with
      | Copy => True | Mapped _ _ => False
      | Offset lb ub => 1 <= unit_bits <= 31 /\ 0 <= lb /\ ub < 2 ^ 31 /\ ub - lb < 2 ^ unit_bits end ->
    forallb (char_ok (if (lb =? 0) && (unit_bits =? 8 * Z.of_nat bpc) then Copy else Offset lb ub)) cs = true ->
    decodes (fun pd => if (lb =? 0) && (unit_bits =? 8 * Z.of_nat bpc) then
        let '(got, pd) := asn_get_many_bits pd false (unit_bits * Z.of_nat (length cs)) in
        (match got with Some bs => Got bs | None => GetMore end, pd)
      else get_shifted (length cs) bpc unit_bits lb ub pd [])
    (flat_map (char_bits (if (lb =? 0) && (unit_bits =? 8 * Z.of_nat bpc) then Copy else Offset lb ub) unit_bits) cs)
    (Got (chars_bytes bpc cs))) as Hplain.
  { intros l Hl Hc. destruct ((l =? 0) && _) eqn:E; [|apply (decodes_shifted bpc unit_bits l ub cs []); tauto].
    apply andb_prop in E as [_ ->%Z.eqb_eq]. apply decodes_copy. }
  destruct (as_is ub unit_bits); [apply Hplain; [destruct (_ && _); auto|assumption]|].
  assert (Hlb := Hplain lb). clear Hplain.
  destruct pc as [[cv cz [v2c|] [c2v|]]|]; try (apply Hlb; [destruct (_ && _); auto|assumption]);
    try (destruct (Hpair _ eq_refl) as [H1 H2]; cbn in H1, H2; (discriminate H1 || discriminate H2); reflexivity).
  destruct Ha as (Hu & Hne & Hm). rewrite (proj2 (Z.ltb_ge 16 _)) by lia. now apply (decodes_mapped bpc unit_bits v2c c2v cs []).
Qed.
End GetCharacters.

(** One encoding behind another. *)
Definition both (e1 e2 : option (list bool)) : option (list bool) :=
  match e1, e2 with Some l1, Some l2 => Some (l1 ++ l2) | _, _ => None end.

Section PutCharacters.
Context {T : Target} {K : Type} {C : Consumer K} {S : Sink K} {R : RoomySink K}.
Implicit Types po : asn_bit_outp K.

(** [yields f enc a bad]: [f] appends [enc] and returns [a], or, when there
    is no such encoding, returns [bad]. *)
Definition yields {X} (f : asn_bit_outp K -> X * asn_bit_outp K) (enc : option (list bool)) (a bad : X) : Prop :=
  match enc with Some l => encodes f l a | None => forall po, po_ok po -> unlimited -> fst (f po) = bad end.

Lemma yields_bind {X Y} (f : asn_bit_outp K -> X * asn_bit_outp K) (g : X -> asn_bit_outp K -> Y * asn_bit_outp K) e1 enc a b bad :
  encodes f e1 a -> yields (g a) enc b bad ->
  yields (fun po => let '(x, po) := f po in g x po) (option_map (app e1) enc) b bad.
Proof.
  intros Hf Hg. destruct enc as [e2|]; cbn in *; [now apply encodes_bind with (a := a)|].
  intros po Hok Hr. destruct (Hf po Hok (Hr _)) as (po1 & -> & A1). apply Hg; [apply A1|exact Hr].
Qed.

Lemma yields_checked {X} (f : asn_bit_outp K -> Z * asn_bit_outp K) (g : asn_bit_outp K -> X * asn_bit_outp K) e1 e2 a bad :
  yields f e1 0 (-1) -> (e1 <> None -> yields g e2 a bad) ->
  yields (fun po => let '(ret, po) := f po in if negb (ret =? 0) then (bad, po) else g po) (both e1 e2) a bad.
Proof.
  intros Hf Hg. destruct e1 as [l1|]; cbn in Hf.
  - specialize (Hg ltac:(discriminate)). destruct e2 as [l2|]; cbn in *.
    + eapply encodes_bind; [exact Hf|]. exact Hg.
    + intros po Hok Hr. destruct (Hf po Hok (Hr _)) as (po1 & -> & A1). apply Hg; [apply A1|exact Hr].
  - intros po Hok Hr. specialize (Hf po Hok Hr). destruct (f po) as [rc po1]. cbn in Hf. now subst rc.
Qed.

Lemma take_char bpc c cs rest : take bpc (chars_bytes bpc (c :: cs) ++ rest) = be_bytes bpc c.
Proof.
  change (chars_bytes bpc (c :: cs)) with (be_bytes bpc c ++ chars_bytes bpc cs). rewrite <- app_assoc.
  apply take_app_length'. now rewrite length_be_bytes.
Qed.

Lemma drop_char bpc c cs rest : drop bpc (chars_bytes bpc (c :: cs) ++ rest) = chars_bytes bpc cs ++ rest.
Proof.
  change (chars_bytes bpc (c :: cs)) with (be_bytes bpc c ++ chars_bytes bpc cs). rewrite <- app_assoc.
  apply drop_app_length'. now rewrite length_be_bytes.
Qed.

Lemma yields_mapped bpc unit_bits v2c c2v cs rest :
  1 <= unit_bits <= 16 -> Forall (is_char bpc) cs ->
  yields (fun po => put_mapped (length cs) bpc unit_bits v2c po (chars_bytes bpc cs ++ rest))
    (chars_bits (Mapped v2c c2v) unit_bits cs) 0 (-1).
Proof.
  intros Hu. induction cs as [|c cs IH]; intros Hcs; cbn [length put_mapped]; [apply encodes_ret|].
  apply Forall_cons_iff in Hcs as [Hc Hcs].
  rewrite take_char, drop_char, be_val_char by assumption.
  destruct (Z.ltb_spec (v2c c) 0) as [Hv|Hv].
  - unfold chars_bits. cbn [forallb char_ok]. now rewrite (proj2 (Z.leb_gt _ _)) by lia.
  - rewrite chars_bits_cons by (cbn; lia). eapply yields_bind; [apply encodes_few_bits; lia|]. now apply IH.
Qed.

Lemma yields_shifted bpc unit_bits lb ub cs rest :
  1 <= unit_bits <= 31 -> 0 <= lb -> ub < 2 ^ 31 -> (bpc <= 4)%nat -> Forall (is_char bpc) cs ->
  yields (fun po => put_shifted (length cs) bpc unit_bits lb ub po (chars_bytes bpc cs ++ rest))
    (chars_bits (Offset lb ub) unit_bits cs) 0 (-1).
Proof.
  intros Hu Hlb Hub Hbpc. induction cs as [|c cs IH]; intros Hcs; cbn [length put_shifted]; [apply encodes_ret|].
  apply Forall_cons_iff in Hcs as [Hc Hcs].
  rewrite take_char, drop_char, be_val_char by assumption.
  assert (0 <= c < 2 ^ 32) as Hc32.
  { unfold is_char in Hc. rewrite pow256 in Hc by lia.
    pose proof (Z.pow_le_mono_r 2 (8 * Z.of_nat bpc) 32 ltac:(lia) ltac:(lia)). lia. }
  destruct ((lb <=? c) && (c <=? ub)) eqn:E.
  - apply andb_prop in E as [E1 E2]. bool_hyps. rewrite swrap_small by lia.
    rewrite (proj2 (Z.ltb_ge (c - lb) 0)), (proj2 (Z.ltb_ge (ub - lb) (c - lb))) by lia. cbn [orb].
    rewrite chars_bits_cons by (cbn; lia). eapply yields_bind; [apply encodes_few_bits; lia|]. now apply IH.
  - unfold chars_bits. cbn [forallb char_ok]. rewrite E. cbn [andb yields]. intros po _.
    assert ((swrap 32 (c - lb) <? 0) || (ub - lb <? swrap 32 (c - lb)) = true) as ->; [|reflexivity].
    apply orb_true_iff. destruct (decide (ub < lb)) as [Hlt|Hlt].
    + destruct (Z.ltb_spec (swrap 32 (c - lb)) 0); [now left|]. right. apply Z.ltb_lt. lia.
    + destruct (decide (c - lb < 2 ^ 31)) as [H31|H31].
      * rewrite swrap_small by lia. destruct (Z.leb_spec lb c), (Z.leb_spec c ub); cbn in E; try discriminate; lia.
      * left. apply Z.ltb_lt. unfold swrap. replace (c - lb + 2 ^ (32 - 1)) with (c - lb - 2 ^ 31 + 1 * 2 ^ 32) by lia.
        rewrite Z.mod_add, Z.mod_small by lia. lia.
Qed.

Lemma yields_copy bpc cs rest :
  octets rest ->
  yields (fun po => asn_put_many_bits po (chars_bytes bpc cs ++ rest) (8 * Z.of_nat bpc * Z.of_nat (length cs)))
    (chars_bits Copy (8 * Z.of_nat bpc) cs) 0 (-1).
Proof.
  intros Hr. unfold chars_bits. replace (forallb (char_ok Copy) cs) with true by (induction cs; auto).
  rewrite copy_bits. set (bs := chars_bytes bpc cs).
  assert (length bs = length cs * bpc)%nat as Hl by (subst bs; len).
  cbn [yields]. replace (bytes_bits bs) with (take (Z.to_nat (8 * Z.of_nat bpc * Z.of_nat (length cs))) (bytes_bits (bs ++ rest))).
  - apply encodes_many_bits; [apply octets_app; subst bs; auto with asn|]. rewrite length_app. lia.
  - rewrite bytes_bits_app. apply take_app_length'. rewrite length_bytes_bits. lia.
Qed.

(** OCTET_STRING_per_put_characters writes the codes of the first characters
    of a buffer, and fails on a character without one. *)
Lemma yields_characters bpc unit_bits lb ub pc cs rest :
  let k := char_coding bpc unit_bits lb ub pc in
  alphabet_ok bpc unit_bits lb ub pc -> (bpc <= 4)%nat -> Forall (is_char bpc) cs -> octets rest ->
  yields (fun po => OCTET_STRING_per_put_characters po (chars_bytes bpc cs ++ rest) (length cs) bpc unit_bits lb ub pc)
    (chars_bits k unit_bits cs) 0 (-1).
Proof.
  cbv zeta. intros [Hpair Ha] Hbpc Hcs Hr. unfold OCTET_STRING_per_put_characters.
  assert (forall l, char_coding bpc unit_bits lb ub pc =
      (if (l =? 0) && (unit_bits =? 8 * Z.of_nat bpc) then Copy else Offset l ub) ->
    yields (fun po => if (l =? 0) && (unit_bits =? 8 * Z.of_nat bpc)
        then asn_put_many_bits po (chars_bytes bpc cs ++ rest) (unit_bits * Z.of_nat (length cs))
        else put_shifted (length cs) bpc unit_bits l ub po (chars_bytes bpc cs ++ rest))
      (chars_bits (char_coding bpc unit_bits lb ub pc) unit_bits cs) 0 (-1)) as Hplain.
  { intros l Hl. rewrite Hl in *. destruct ((l =? 0) && _) eqn:E; [|apply yields_shifted; tauto].
    apply andb_prop in E as [_ ->%Z.eqb_eq]. now apply yields_copy. }
  destruct (as_is ub unit_bits) eqn:Eas; [apply Hplain; unfold char_coding; now rewrite Eas|].
  destruct pc as [[cv cz [v2c|] c2v]|]; try (apply Hplain; unfold char_coding; rewrite Eas; reflexivity).
  destruct c2v as [c2v|]; [|destruct (Hpair _ eq_refl) as [_ H2]; cbn in H2; discriminate H2; reflexivity].
  unfold char_coding in *. rewrite Eas in *. destruct Ha as (Hu & Hne & Hm).
  assert ((lb =? 0) && (unit_bits =? 8 * Z.of_nat bpc) = false) as ->
    by (destruct (Z.eqb_spec lb 0), (Z.eqb_spec unit_bits (8 * Z.of_nat bpc)); tauto).
  pose proof (yields_mapped bpc unit_bits v2c c2v cs rest Hu Hcs) as Hy.
  destruct (chars_bits _ _ _) as [enc|]; cbn [yields] in *.
  - eapply encodes_last; [exact Hy|]. apply encodes_ret.
  - intros po Hok Hun. specialize (Hy po Hok Hun). destruct (put_mapped _ _ _ _ _ _) as [rc po']. cbn in Hy. now subst rc.
Qed.
End PutCharacters.

(** * Strings on the wire *)

(** The size constraints: none that PER sees, or fewer than 65536 characters
    with a count of at most 16 bits. *)
Definition size_ok (csiz : asn_per_constraint) : Prop :=
  effective_bits csiz < 0 \/
  (0 <= effective_bits csiz <= 16 /\ 0 <= lower_bound csiz <= upper_bound csiz /\ upper_bound csiz <= 65535 /\
   upper_bound csiz - lower_bound csiz < 2 ^ effective_bits csiz).

Definition size_inside (csiz : asn_per_constraint) (n : Z) : bool :=
  negb ((0 <=? effective_bits csiz) && ((n <? lower_bound csiz) || (upper_bound csiz <? n))).

(** Well-formed constraints of a string type: the alphabet as the root and as
    the extension use it. *)
Definition string_ok {T : Target} (bpc : nat) (c : asn_per_constraints) (pc : option asn_per_constraints) : Prop :=
  size_ok (pc_size c) /\
  alphabet_ok bpc (unit_bits_of (pc_value c) bpc) (char_lb (pc_value c)) (char_ub (pc_value c)) pc /\
  (has (pc_size c) APC_EXTENSIBLE = true ->
   alphabet_ok bpc (8 * Z.of_nat bpc) (char_lb (pc_value c)) (char_ub (pc_value c)) pc).

Lemma forallb_take_drop {X} (f : X -> bool) k l : forallb f l = forallb f (take k l) && forallb f (drop k l).
Proof. rewrite <- forallb_app, take_drop. reflexivity. Qed.

(** The codes of a string in fragments, when all characters have one. *)
Definition fragmented_chars (k : coding) (u : Z) (cs : list Z) : option (list bool) :=
  if forallb (char_ok k) cs then Some (fragmented_of (flat_map (char_bits k u)) cs) else None.

Lemma fragmented_chars_eq k u cs :
  let n := Z.of_nat (length cs) in
  let j := Z.to_nat (16384 * fragment_units n) in
  fragmented_chars k u cs =
    if n <? 16384 then option_map (app (length_bits n)) (both (chars_bits k u cs) (Some []))
    else option_map (app (fragment_bits (fragment_units n)))
           (both (chars_bits k u (take j cs)) (fragmented_chars k u (drop j cs))).
Proof.
  cbv zeta. unfold fragmented_chars, chars_bits. rewrite fragmented_eq. cbv zeta.
  destruct (_ <? 16384); [destruct (forallb _ cs); cbn; [now rewrite app_nil_r|reflexivity]|].
  set (j := Z.to_nat _). rewrite (forallb_take_drop _ j cs).
  now destruct (forallb _ (take j cs)), (forallb _ (drop j cs)).
Qed.

(** X.691 #17, #30: the characters behind their count; nothing when a
    character has no code or the count is refused. *)
Definition octet_string_body_bits {T : Target} (bpc : nat) (csiz cval : asn_per_constraint) (pc : option asn_per_constraints)
    (cs : list Z) : option (list bool) :=
  let n := Z.of_nat (length cs) in
  let coding_of u := char_coding bpc u (char_lb cval) (char_ub cval) pc in
  let root := unit_bits_of cval bpc in
  if size_inside csiz n then
    if 0 <=? effective_bits csiz
    then option_map (app (bits_of (Z.to_nat (effective_bits csiz)) (n - lower_bound csiz))) (chars_bits (coding_of root) root cs)
    else fragmented_chars (coding_of root) root cs
  else if has csiz APC_EXTENSIBLE then fragmented_chars (coding_of (8 * Z.of_nat bpc)) (8 * Z.of_nat bpc) cs
  else None.

Definition octet_string_bits {T : Target} (bpc : nat) (c : asn_per_constraints) (pc : option asn_per_constraints)
    (cs : list Z) : option (list bool) :=
  let body := octet_string_body_bits bpc (pc_size c) (pc_value c) pc cs in
  if has (pc_size c) APC_EXTENSIBLE
  then option_map (app [negb (size_inside (pc_size c) (Z.of_nat (length cs)))]) body else body.

Section StringPut.
Context {T : Target} {K : Type} {C : Consumer K} {S : Sink K} {R : RoomySink K}.
Implicit Types po : asn_bit_outp K.

Lemma yields_fragments bpc u cval pc cs : forall fuel,
  let k := char_coding bpc u (char_lb cval) (char_ub cval) pc in
  alphabet_ok bpc u (char_lb cval) (char_ub cval) pc -> (1 <= bpc <= 4)%nat -> Forall (is_char bpc) cs ->
  (length cs < fuel)%nat ->
  yields (fun po => octet_string_put_fragments fuel po (chars_bytes bpc cs) (Z.of_nat (length cs)) cval bpc u pc)
    (fragmented_chars k u cs) (ENCODED_OK 0) ENCODE_FAILED.
Proof.
  cbv zeta. set (k := char_coding _ _ _ _ _).
  induction cs as [cs H|cs H IH] using fragments_ind; intros [|fuel] Ha Hbpc Hcs Hf; try lia;
    rewrite fragmented_chars_eq; cbv zeta; cbn [octet_string_put_fragments].
  - rewrite (proj2 (Z.ltb_lt _ _)) by assumption.
    pose proof (yields_characters (K := K) bpc u (char_lb cval) (char_ub cval) pc cs [] Ha ltac:(lia) Hcs ltac:(constructor)) as Hy.
    rewrite app_nil_r in Hy.
    eapply yields_bind; [apply encodes_length; lia|]. cbv beta iota zeta.
    rewrite (proj2 (Z.ltb_ge _ 0)) by lia. rewrite Nat2Z.id, Z.sub_diag. cbn [Z.eqb negb].
    apply yields_checked; [exact Hy|]. intros _. apply encodes_ret.
  - rewrite (proj2 (Z.ltb_ge _ 16384)) by assumption. pose proof (fragment_units_bound _ H) as [Hm Hle].
    pose proof (encodes_fragment (K := K) (Z.of_nat (length cs)) H) as Hfrag.
    set (m := fragment_units (Z.of_nat (length cs))) in *. set (j := Z.to_nat (16384 * m)) in *.
    assert (length (take j cs) = j) as Hj by len.
    pose proof (yields_characters (K := K) bpc u (char_lb cval) (char_ub cval) pc (take j cs) (chars_bytes bpc (drop j cs))
      Ha ltac:(lia) ltac:(now apply Forall_take) ltac:(auto with asn)) as Hy.
    rewrite <- chars_bytes_app, take_drop, Hj in Hy.
    eapply yields_bind; [exact Hfrag|]. cbv beta iota zeta. rewrite (proj2 (Z.ltb_ge _ 0)) by lia. fold j.
    apply yields_checked; [exact Hy|]. intros _.
    rewrite chars_bytes_drop. replace (Z.of_nat (length cs) - 16384 * m) with (Z.of_nat (length (drop j cs))) by len.
    destruct (Z.eqb_spec (Z.of_nat (length cs)) (16384 * m)) as [E|E].
    + rewrite drop_ge by lia. change (fragmented_chars k u []) with (Some (length_bits 0 ++ [])).
      eapply encodes_bind; [apply encodes_length; lia|]. apply encodes_ret.
    + assert (Z.of_nat (length (drop j cs)) <> 0) as Hne by len.
      rewrite (proj2 (Z.eqb_neq _ _) Hne). cbn [negb]. apply IH; auto; [now apply Forall_drop|len].
Qed.

Lemma bpc_range v bpc : bytes_per_char v = Some bpc -> (1 <= bpc <= 4)%nat.
Proof. destruct v; intros [= <-]; lia. Qed.

Definition constraints_of (pc : option asn_per_constraints) : asn_per_constraints :=
  match pc with Some c => c | None => asn_DEF_OCTET_STRING_constraints end.

Lemma both_nil e : both e (Some []) = e.
Proof. destruct e; cbn; [now rewrite app_nil_r|reflexivity]. Qed.

Lemma yields_string_body bpc csiz cval pc chars :
  (1 <= bpc <= 4)%nat -> size_ok csiz ->
  alphabet_ok bpc (unit_bits_of cval bpc) (char_lb cval) (char_ub cval) pc ->
  (has csiz APC_EXTENSIBLE = true -> alphabet_ok bpc (8 * Z.of_nat bpc) (char_lb cval) (char_ub cval) pc) ->
  Forall (is_char bpc) chars ->
  let n := Z.of_nat (length chars) in
  size_inside csiz n || has csiz APC_EXTENSIBLE = true ->
  yields (octet_string_encode_body (negb (size_inside csiz n)) csiz cval bpc pc (chars_bytes bpc chars) n)
    (octet_string_body_bits bpc csiz cval pc chars) (ENCODED_OK 0) ENCODE_FAILED.
Proof.
  intros Hbpc Hsz Hroot Hext Hcs n Hin. unfold octet_string_encode_body, octet_string_body_bits. fold n.
  assert (length chars < Datatypes.S (length (chars_bytes bpc chars)))%nat as Hfuel by (len; nia).
  destruct (size_inside csiz n) eqn:Ei; cbn [negb orb] in *.
  - destruct (Z.leb_spec 0 (effective_bits csiz)) as [H0|H0]; [|now apply yields_fragments].
    pose proof (yields_characters (K := K) bpc (unit_bits_of cval bpc) (char_lb cval) (char_ub cval) pc chars [] Hroot
      ltac:(lia) Hcs ltac:(constructor)) as Hy.
    rewrite app_nil_r in Hy. rewrite <- (both_nil (chars_bits _ _ _)).
    destruct Hsz as [Hsz|Hsz]; [lia|].
    eapply yields_bind; [apply encodes_few_bits; lia|]. cbn [Z.eqb negb]. unfold n. rewrite Nat2Z.id.
    apply yields_checked; [exact Hy|]. intros _. apply encodes_ret.
  - rewrite Hin. apply yields_fragments; auto.
Qed.

(** OCTET_STRING_encode_uper writes [octet_string_bits] or fails. *)
Lemma OCTET_STRING_encode_uper_ok specs td_cs cs bpc chars :
  let pc := or_else cs td_cs in
  bytes_per_char (subvariant (os_specs specs)) = Some bpc -> string_ok bpc (constraints_of pc) pc ->
  Forall (is_char bpc) chars -> Z.of_nat (length chars * bpc) < 2 ^ 31 ->
  yields (fun po => OCTET_STRING_encode_uper specs td_cs cs (Some (Some (chars_bytes bpc chars))) po)
    (octet_string_bits bpc (constraints_of pc) pc chars) (ENCODED_OK 0) ENCODE_FAILED.
Proof.
  cbv zeta. intros Hv (Hsz & Hroot & Hext) Hcs Hlen. pose proof (bpc_range _ _ Hv) as Hbpc.
  unfold OCTET_STRING_encode_uper. set (pc := or_else cs td_cs) in *. rewrite Hv. cbn [default from_option id].
  unfold id. rewrite length_chars_bytes, (proj2 (Z.ltb_ge 2147483647 _)) by lia.
  change (match pc with Some c => c | None => asn_DEF_OCTET_STRING_constraints end) with (constraints_of pc).
  set (c := constraints_of pc) in *. rewrite Nat2Z.inj_mul, Z.mod_mul, Z.div_mul by lia. cbn [Z.eqb negb].
  unfold octet_string_bits. set (csiz := pc_size c) in *. set (cval := pc_value c) in *.
  set (n := Z.of_nat (length chars)).
  pose proof (yields_string_body bpc csiz cval pc chars Hbpc Hsz Hroot Hext Hcs) as Hput. cbv zeta in Hput. fold n in Hput.
  rewrite <- (negb_involutive ((0 <=? effective_bits csiz) && _)). fold (size_inside csiz n).
  destruct (has csiz APC_EXTENSIBLE) eqn:Ex; cbn [negb orb].
  - rewrite andb_false_r. replace [negb (size_inside csiz n)] with (bits_of 1 (Z.b2z (negb (size_inside csiz n))))
      by (now destruct (size_inside csiz n)).
    rewrite orb_true_r in Hput. eapply yields_bind; [apply encodes_few_bits; lia|]. now apply Hput.
  - rewrite andb_true_r. destruct (size_inside csiz n) eqn:Ei; cbn [negb orb] in *; [now apply Hput|].
    unfold octet_string_body_bits. fold n. now rewrite Ei, Ex.
Qed.
End StringPut.

Section StringGet.
Context {T : Target} {A : Allocator}.

Lemma uper_get_length_uncounted pd ebits lb : ebits < 0 -> uper_get_length pd ebits lb = uper_get_length pd (-1) 0.
Proof. intros H. unfold uper_get_length. now rewrite (proj2 (Z.leb_gt 0 ebits)) by lia. Qed.

Lemma length_pos_nil {X} (l : list X) : (Z.of_nat (length l) =? 0) = true -> l = [].
Proof. destruct l; [reflexivity|]. simpl length. intros E%Z.eqb_eq. lia. Qed.

Lemma decodes_string_fragments bpc u csiz cval pc cs : forall fuel have acc,
  let k := char_coding bpc u (char_lb cval) (char_ub cval) pc in
  effective_bits csiz < 0 ->
  alphabet_ok bpc u (char_lb cval) (char_ub cval) pc -> Forall (is_char bpc) cs -> forallb (char_ok k) cs = true ->
  (length (fragmented_of (flat_map (char_bits k u)) cs) <= fuel)%nat ->
  serves A (Z.of_nat (length (acc ++ chars_bytes bpc cs)) + 1) ->
  decodes (fun pd => octet_string_fragments fuel pd csiz cval bpc u pc have acc)
    (fragmented_of (flat_map (char_bits k u)) cs) (RC_OK 0 (Some (acc ++ chars_bytes bpc cs))).
Proof.
  cbv zeta. set (k := char_coding _ _ _ _ _).
  induction cs as [cs H|cs H IH] using fragments_ind; intros fuel have acc He Ha Hcs Hok; rewrite fragmented_eq; cbv zeta; intros Hf HA.
  - rewrite (proj2 (Z.ltb_lt _ _)) in * by assumption. pose proof (length_length_bits (Z.of_nat (length cs))).
    rewrite length_app in Hf. destruct fuel as [|fuel]; [lia|]. cbn [octet_string_fragments].
    eapply decodes_bind; [eapply decodes_ext; [intros; symmetry; now apply uper_get_length_uncounted|apply decodes_length; lia]|].
    cbv beta iota. rewrite (proj2 (Z.ltb_ge _ 0)) by lia.
    destruct ((Z.of_nat (length cs) =? 0) && have) eqn:E.
    + apply andb_prop in E as [->%length_pos_nil _]. rewrite app_nil_r. apply decodes_ret.
    + rewrite HA, Nat2Z.id by len. cbn [negb]. eapply decodes_last; [now apply decodes_characters|]. apply decodes_ret.
  - rewrite (proj2 (Z.ltb_ge _ 16384)) in * by assumption. pose proof (fragment_units_bound _ H) as [Hm Hle].
    set (m := fragment_units (Z.of_nat (length cs))) in *. set (j := Z.to_nat (16384 * m)) in *.
    rewrite !length_app in Hf. unfold fragment_bits at 1 in Hf. rewrite length_bits_of in Hf.
    destruct fuel as [|fuel]; [lia|]. cbn [octet_string_fragments].
    rewrite (forallb_take_drop _ j) in Hok. apply andb_prop in Hok as [Ho1 Ho2].
    assert (length (take j cs) = j) as Hj by len.
    eapply decodes_bind; [eapply decodes_ext; [intros; symmetry; now apply uper_get_length_uncounted|apply decodes_fragment; lia]|].
    cbv beta iota. rewrite (proj2 (Z.ltb_ge _ 0)), (proj2 (Z.eqb_neq _ 0)) by lia. cbn [andb].
    rewrite HA by (len; nia). cbn [negb]. fold j.
    pose proof (decodes_characters bpc u (char_lb cval) (char_ub cval) pc (take j cs) Ha ltac:(now apply Forall_take) Ho1) as Hd.
    rewrite Hj in Hd. eapply decodes_bind; [exact Hd|]. cbv beta iota.
    rewrite <- (take_drop j cs) at 2. rewrite chars_bytes_app, app_assoc.
    apply IH; auto; [now apply Forall_drop|lia|]. rewrite <- app_assoc, <- chars_bytes_app, take_drop. exact HA.
Qed.

(** The memory the reader of a string asks for. *)
Definition string_room (bpc : nat) (csiz : asn_per_constraint) (cs : list Z) : Z :=
  Z.max (Z.of_nat (length (chars_bytes bpc cs)) + 1) (if 0 <=? effective_bits csiz then upper_bound csiz * Z.of_nat bpc + 1 else 0).

(** What the root of a string type decodes: [consumed] is set only for a
    fixed size. *)
Definition fixed_consumed (csiz : asn_per_constraint) (u : Z) : Z := if effective_bits csiz =? 0 then u * upper_bound csiz else 0.

Lemma decodes_counted bpc u csiz cval pc sptr cs :
  let k := char_coding bpc u (char_lb cval) (char_ub cval) pc in
  effective_bits csiz < 0 ->
  alphabet_ok bpc u (char_lb cval) (char_ub cval) pc -> Forall (is_char bpc) cs -> forallb (char_ok k) cs = true ->
  serves A (Z.of_nat (length (chars_bytes bpc cs)) + 1) ->
  decodes (octet_string_decode_body csiz cval bpc u pc sptr)
    (fragmented_of (flat_map (char_bits k u)) cs) (RC_OK 0 (Some (chars_bytes bpc cs))).
Proof.
  intros k He Ha Hcs Hok HA pd rest Hpd E. unfold octet_string_decode_body.
  rewrite (proj2 (Z.leb_gt 0 _)), (proj2 (Z.eqb_neq _ 0)) by lia. cbn [andb].
  apply (decodes_string_fragments bpc u csiz cval pc cs (fragments_fuel pd) _ []); auto.
  unfold fragments_fuel. rewrite <- length_remaining, E, length_app by assumption. fold k. lia.
Qed.

Lemma decodes_sized bpc u csiz cval pc sptr cs :
  let k := char_coding bpc u (char_lb cval) (char_ub cval) pc in
  let n := Z.of_nat (length cs) in
  size_ok csiz -> 0 <= effective_bits csiz -> size_inside csiz n = true ->
  alphabet_ok bpc u (char_lb cval) (char_ub cval) pc -> Forall (is_char bpc) cs -> forallb (char_ok k) cs = true ->
  serves A (Z.max (Z.of_nat (length (chars_bytes bpc cs)) + 1) (upper_bound csiz * Z.of_nat bpc + 1)) ->
  decodes (octet_string_decode_body csiz cval bpc u pc sptr)
    (bits_of (Z.to_nat (effective_bits csiz)) (n - lower_bound csiz) ++ flat_map (char_bits k u) cs)
    (RC_OK (fixed_consumed csiz u) (Some (chars_bytes bpc cs))).
Proof.
  intros k n [Hsz|Hsz] He Hin Ha Hcs Hok HA; [lia|]. unfold octet_string_decode_body, fixed_consumed.
  unfold size_inside in Hin. rewrite (proj2 (Z.leb_le 0 _)) in * by lia.
  apply negb_true_iff in Hin. cbn [andb] in Hin. apply orb_false_iff in Hin as [H1 H2]. bool_hyps.
  rewrite HA by nia. cbn [andb negb orb].
  destruct (Z.eqb_spec (effective_bits csiz) 0) as [E0|E0].
  - rewrite E0 in *. change (2 ^ 0) with 1 in Hsz. change (Z.to_nat 0) with 0%nat. cbn [bits_of app].
    replace (Z.to_nat (upper_bound csiz)) with (length cs) by lia.
    eapply decodes_last; [now apply decodes_characters|]. apply decodes_ret.
  - apply decodes_ext with (f := fun pd => octet_string_fragments 1 pd csiz cval bpc u pc true []).
    + intros pd. unfold fragments_fuel. cbn [octet_string_fragments]. unfold uper_get_length.
      rewrite (proj2 (Z.leb_le 0 _)), (proj2 (Z.leb_le _ 16)) by lia. cbn [andb]. now destruct (asn_get_few_bits _ _).
    + cbn [octet_string_fragments]. eapply decodes_bind; [apply decodes_length_constrained; lia|]. cbv beta iota.
      rewrite (proj2 (Z.ltb_ge n 0)) by lia.
      destruct (n =? 0) eqn:En; cbn [andb].
      * apply length_pos_nil in En as ->. apply decodes_ret.
      * assert (malloc_ok (Z.of_nat (length []) + n * Z.of_nat bpc + 1) = true) as -> by (apply HA; len).
        cbn [negb]. unfold n. rewrite Nat2Z.id.
        eapply decodes_last; [now apply decodes_characters|]. apply decodes_ret.
Qed.

(** What OCTET_STRING_decode_uper reports as consumed. *)
Definition string_consumed (bpc : nat) (c : asn_per_constraints) (n : Z) : Z :=
  if size_inside (pc_size c) n then fixed_consumed (pc_size c) (unit_bits_of (pc_value c) bpc) else 0.

Lemma decodes_string_root bpc csiz cval pc sptr cs enc :
  size_ok csiz -> alphabet_ok bpc (unit_bits_of cval bpc) (char_lb cval) (char_ub cval) pc ->
  Forall (is_char bpc) cs -> serves A (string_room bpc csiz cs) ->
  size_inside csiz (Z.of_nat (length cs)) = true ->
  octet_string_body_bits bpc csiz cval pc cs = Some enc ->
  decodes (octet_string_decode_body csiz cval bpc (unit_bits_of cval bpc) pc sptr) enc
    (RC_OK (fixed_consumed csiz (unit_bits_of cval bpc)) (Some (chars_bytes bpc cs))).
Proof.
  intros Hsz Ha Hcs HA Hin. unfold octet_string_body_bits. rewrite Hin. unfold string_room in HA.
  destruct (Z.leb_spec 0 (effective_bits csiz)) as [H0|H0].
  - unfold chars_bits. destruct (forallb _ cs) eqn:Hok; [|discriminate]. cbn [option_map]. intros [= <-].
    now apply decodes_sized.
  - unfold fragmented_chars. destruct (forallb _ cs) eqn:Hok; [|discriminate]. intros [= <-].
    unfold fixed_consumed. rewrite (proj2 (Z.eqb_neq _ _)) by lia.
    apply decodes_counted; auto. intros m Hm. apply HA. lia.
Qed.

(** OCTET_STRING_decode_uper reads [octet_string_bits]. *)
Lemma OCTET_STRING_decode_uper_ok specs td_cs cs bpc sptr chars enc :
  let pc := or_else cs td_cs in
  bytes_per_char (subvariant (os_specs specs)) = Some bpc -> string_ok bpc (constraints_of pc) pc ->
  Forall (is_char bpc) chars -> have_struct sptr (struct_size (os_specs specs)) = true ->
  serves A (string_room bpc (pc_size (constraints_of pc)) chars) ->
  octet_string_bits bpc (constraints_of pc) pc chars = Some enc ->
  decodes (OCTET_STRING_decode_uper specs td_cs cs sptr) enc
    (RC_OK (string_consumed bpc (constraints_of pc) (Z.of_nat (length chars))) (Some (chars_bytes bpc chars))).
Proof.
  cbv zeta. intros Hv (Hsz & Hroot & Hext) Hcs Hst HA. unfold OCTET_STRING_decode_uper, octet_string_bits, string_consumed.
  set (pc := or_else cs td_cs) in *. rewrite Hv, Hst. cbn [negb].
  change (match pc with Some c => c | None => asn_DEF_OCTET_STRING_constraints end) with (constraints_of pc).
  set (c := constraints_of pc) in *. set (n := Z.of_nat (length chars)).
  destruct (size_inside (pc_size c) n) eqn:Ei; cbn [negb].
  - assert (forall enc, octet_string_body_bits bpc (pc_size c) (pc_value c) pc chars = Some enc ->
      decodes (octet_string_decode_body (pc_size c) (pc_value c) bpc (unit_bits_of (pc_value c) bpc) pc sptr) enc
        (RC_OK (fixed_consumed (pc_size c) (unit_bits_of (pc_value c) bpc)) (Some (chars_bytes bpc chars)))) as Hd
      by (intros; now apply decodes_string_root).
    destruct (has (pc_size c) APC_EXTENSIBLE); [|apply Hd].
    destruct (octet_string_body_bits _ _ _ _ _) as [e|]; [|discriminate]. cbn [option_map]. intros [= <-].
    change (false :: e) with (bits_of 1 0 ++ e).
    eapply decodes_bind; [apply (decodes_few_bits_of 1 1 0); lia|]. cbn [Z.ltb Z.compare Z.eqb negb]. now apply Hd.
  - unfold octet_string_body_bits. fold n. rewrite Ei. destruct (has (pc_size c) APC_EXTENSIBLE) eqn:Ex; [|discriminate].
    unfold fragmented_chars. destruct (forallb _ chars) eqn:Hok; [|discriminate]. cbn [option_map]. intros [= <-].
    set (e := fragmented_of _ chars). change (true :: e) with (bits_of 1 1 ++ e).
    eapply decodes_bind; [apply (decodes_few_bits_of 1 1 1); lia|]. cbn [Z.ltb Z.compare Z.eqb negb].
    apply decodes_counted; auto; [reflexivity|]. intros m Hm. apply HA. unfold string_room. lia.
Qed.

(** ** On arbitrary data *)

Lemma follows_mapped units bpc u c2v : forall pd buf, pd_ok pd -> follows pd (get_mapped units bpc u c2v pd buf).
Proof. induction units as [|units IH]; intros pd buf Hok; cbn [get_mapped]; follow. Qed.

Lemma follows_shifted units bpc u lb ub : forall pd buf, pd_ok pd -> follows pd (get_shifted units bpc u lb ub pd buf).
Proof. induction units as [|units IH]; intros pd buf Hok; cbn [get_shifted]; follow. Qed.

Lemma follows_characters pd units bpc u lb ub pc :
  pd_ok pd -> follows pd (OCTET_STRING_per_get_characters pd units bpc u lb ub pc).
Proof.
  intros Hok. pose proof follows_mapped. pose proof follows_shifted.
  unfold OCTET_STRING_per_get_characters. follow.
Qed.
Hint Resolve follows_characters : follows.

Lemma follows_string_fragments fuel csiz cval bpc u pc : forall pd have acc,
  pd_ok pd -> follows pd (octet_string_fragments fuel pd csiz cval bpc u pc have acc).
Proof. induction fuel as [|fuel IH]; intros pd have acc Hok; cbn [octet_string_fragments]; follow. Qed.

Lemma follows_OCTET_STRING specs td_cs cs sptr pd : pd_ok pd -> follows pd (OCTET_STRING_decode_uper specs td_cs cs sptr pd).
Proof.
  intros Hok. pose proof follows_string_fragments.
  assert (forall csiz cval bpc u pc pd, pd_ok pd -> follows pd (octet_string_decode_body csiz cval bpc u pc sptr pd)).
  { intros. unfold octet_string_decode_body. follow. }
  unfold OCTET_STRING_decode_uper. follow.
Qed.

(** The octets stored are exactly those the caller allocated. *)
Lemma many_bits_loop_length fuel : forall pd nb dst,
  0 <= nb -> match fst (asn_get_many_bits_loop fuel pd nb dst) with
             | Some bs => Z.of_nat (length bs) = Z.of_nat (length dst) + (nb + 7) / 8
             | None => True end.
Proof.
  induction fuel as [|fuel IH]; intros pd nb dst Hnb; cbn [asn_get_many_bits_loop];
    (destruct (Z.eqb_spec nb 0) as [->|Hn]; [cbn [fst]; change ((0 + 7) / 8) with 0; lia|]); [exact I|].
  destruct (Z.leb_spec 24 nb) as [H24|H24].
  - destruct (asn_get_few_bits pd 24) as [v pd1]. destruct (v <? 0); [exact I|].
    specialize (IH pd1 (nb - 24) (dst ++ [u8 (v ≫ 16); u8 (v ≫ 8); u8 v]) ltac:(lia)).
    destruct (fst _); [|exact I]. rewrite IH, length_app. simpl length.
    replace (nb + 7) with (nb - 24 + 7 + 3 * 8) by lia. rewrite Z.div_add by lia. lia.
  - destruct (asn_get_few_bits pd nb) as [v pd1]. destruct (v <? 0); [exact I|]. cbn [fst].
    pose proof (small_cases (fun nb => (nb =? 0) || (let nb' := if (nb .& 7) =? 0 then nb else nb + (8 - (nb .& 7)) in
      Z.of_nat (length ((if 24 <? nb' then [0] else []) ++ (if 16 <? nb' then [0] else []) ++ (if 8 <? nb' then [0] else []) ++ [0]))
        =? (nb + 7) / 8)) 24 ltac:(vm_compute; reflexivity) nb ltac:(lia)) as Hs.
    cbv beta zeta in Hs. rewrite (proj2 (Z.eqb_neq nb 0) Hn) in Hs. apply Z.eqb_eq in Hs. rewrite <- Hs, length_app.
    set (nb' := if _ =? 0 then nb else _). destruct (24 <? nb'), (16 <? nb'), (8 <? nb'); simpl length; lia.
Qed.

Lemma mapped_length units bpc u c2v : forall pd buf,
  match fst (get_mapped units bpc u c2v pd buf) with
  | Got bs => length bs = (length buf + units * bpc)%nat | _ => True end.
Proof.
  induction units as [|units IH]; intros pd buf; cbn [get_mapped]; [cbn; lia|].
  destruct (asn_get_few_bits pd u) as [code pd1]. destruct (code <? 0); [exact I|]. cbv zeta.
  destruct (c2v code <? 0); [exact I|]. specialize (IH pd1 (buf ++ be_bytes bpc (c2v code))).
  destruct (fst _); auto. rewrite IH. len.
Qed.

Lemma shifted_length units bpc u lb ub : forall pd buf,
  match fst (get_shifted units bpc u lb ub pd buf) with
  | Got bs => length bs = (length buf + units * bpc)%nat | _ => True end.
Proof.
  induction units as [|units IH]; intros pd buf; cbn [get_shifted]; [cbn; lia|].
  destruct (asn_get_few_bits pd u) as [code pd1]. cbv zeta. destruct (code <? 0); [exact I|].
  destruct (ub <? _); [exact I|]. specialize (IH pd1 (buf ++ be_bytes bpc (swrap 32 (code + lb)))).
  destruct (fst _); auto. rewrite IH. len.
Qed.

Lemma characters_length pd units bpc u lb ub pc :
  match fst (OCTET_STRING_per_get_characters pd units bpc u lb ub pc) with
  | Got bs => length bs = (units * bpc)%nat | _ => True end.
Proof.
  assert (forall l, match fst (if (l =? 0) && (u =? 8 * Z.of_nat bpc) then
      let '(got, pd) := asn_get_many_bits pd false (u * Z.of_nat units) in
      (match got with Some bs => Got bs | None => GetMore end, pd)
    else get_shifted units bpc u l ub pd []) with Got bs => length bs = (units * bpc)%nat | _ => True end) as Hplain.
  { intros l. destruct ((l =? 0) && _) eqn:E; [|apply (shifted_length units bpc u l ub pd [])].
    apply andb_prop in E as [_ ->%Z.eqb_eq]. unfold asn_get_many_bits; cbn [andb].
    pose proof (many_bits_loop_length (S (Z.to_nat (8 * Z.of_nat bpc * Z.of_nat units / 24))) pd
      (8 * Z.of_nat bpc * Z.of_nat units) [] ltac:(lia)) as H.
    destruct (asn_get_many_bits_loop _ _ _ _) as [[bs|] pd1]; cbn [fst] in *; [|exact I].
    replace (8 * Z.of_nat bpc * Z.of_nat units + 7) with (7 + Z.of_nat (units * bpc) * 8) in H by lia.
    rewrite Z.div_add in H by lia. change (7 / 8) with 0 in H. cbn [length] in H. lia. }
  unfold OCTET_STRING_per_get_characters. destruct (as_is ub u); [apply Hplain|].
  destruct pc as [[cv cz v2c [c2v|]]|]; try apply Hplain.
  destruct (16 <? u); [exact I|]. apply (mapped_length units bpc u c2v pd []).
Qed.
End StringGet.
#[export] Hint Resolve follows_OCTET_STRING : follows.

(** * OER on the wire *)

(** X.696 #14: the octets alone for a fixed size, behind their length
    otherwise. *)
Definition oer_string_octets {T : Target} (unit_bytes ct_size : Z) (bs : list Z) : option (list Z) :=
  if 0 <=? ct_size then if Z.of_nat (length bs) =? unit_bytes * ct_size then Some bs else None
  else Some (with_length bs).

Section StringOer.
Context {T : Target} {A : Allocator}.

Lemma OCTET_STRING_encode_oer_ok specs td_cs cs unit_bytes bs :
  oer_unit_bytes (subvariant (os_specs specs)) = Some unit_bytes ->
  match oer_string_octets unit_bytes (oer_size cs td_cs) bs with
  | Some enc => emits (fun K C k => OCTET_STRING_encode_oer specs td_cs cs (Some (Some bs)) k) enc
  | None => refuses (fun K C k => OCTET_STRING_encode_oer specs td_cs cs (Some (Some bs)) k)
  end.
Proof.
  intros Hu. unfold oer_string_octets, OCTET_STRING_encode_oer. rewrite Hu. cbn [default from_option id]. unfold id.
  destruct (0 <=? oer_size cs td_cs).
  - destruct (_ =? _); cbn [negb]; [apply emits_bytes|]. intros K C k. reflexivity.
  - apply (emits_seq (fun K C k => oer_serialize_length _ k) (fun K C k => put_bytes bs k)); [apply emits_length|apply emits_bytes].
Qed.

(** The last step of the decoder, with enough octets. *)
Lemma oer_string_finish consumed (bs rest : list Z) :
  serves A (Z.of_nat (length bs) + 1) ->
  (if Z.of_nat (length (bs ++ rest)) <? Z.of_nat (length bs) then DECODE_STARVED
   else if malloc_ok (Z.of_nat (length bs) + 1)
   then RC_OK (consumed + Z.of_nat (length bs)) (Some (take (Z.to_nat (Z.of_nat (length bs))) (bs ++ rest)))
   else DECODE_FAILED) = RC_OK (consumed + Z.of_nat (length bs)) (Some bs).
Proof.
  intros HA. rewrite (proj2 (Z.ltb_ge _ _)) by len. rewrite HA by lia. now rewrite Nat2Z.id, take_app_length.
Qed.

Lemma OCTET_STRING_decode_oer_ok specs td_cs cs sptr unit_bytes bs enc :
  oer_unit_bytes (subvariant (os_specs specs)) = Some unit_bytes ->
  have_struct sptr (struct_size (os_specs specs)) = true -> Z.of_nat (length bs) <= RSIZE_MAX ->
  serves A (Z.of_nat (length bs) + 1) ->
  oer_string_octets unit_bytes (oer_size cs td_cs) bs = Some enc ->
  (0 <= oer_size cs td_cs \/ Z.of_nat (length bs) mod unit_bytes = 0) ->
  parses (OCTET_STRING_decode_oer specs td_cs cs sptr) enc (Some bs).
Proof.
  intros Hu Hst Hl HA He Hm rest. unfold OCTET_STRING_decode_oer, oer_string_octets in *. rewrite Hu, Hst. cbn [negb].
  destruct (Z.leb_spec 0 (oer_size cs td_cs)).
  - destruct (Z.eqb_spec (Z.of_nat (length bs)) (unit_bytes * oer_size cs td_cs)) as [E|E]; [|discriminate].
    injection He as <-. rewrite <- E. now apply (oer_string_finish 0).
  - injection He as <-. unfold with_length. rewrite <- app_assoc, fetch_length_octets by lia.
    pose proof (length_octets_pos (Z.of_nat (length bs))). rewrite (proj2 (Z.ltb_lt 0 _)) by lia.
    destruct Hm as [Hm|Hm]; [lia|]. rewrite Hm. cbn [Z.eqb negb]. rewrite Nat2Z.id, drop_app_length.
    rewrite oer_string_finish by assumption. f_equal. len.
Qed.

Lemma within_OCTET_STRING specs td_cs cs sptr ptr :
  octets ptr -> within ptr (OCTET_STRING_decode_oer specs td_cs cs sptr ptr).
Proof.
  intros Hp. unfold OCTET_STRING_decode_oer. destruct (oer_unit_bytes _) as [u|] eqn:Eu; [|cbn; lia].
  assert (0 < u) as Hu by (destruct (subvariant _); inversion Eu; lia).
  destruct (negb _); [cbn; lia|]. cbv zeta. destruct (Z.leb_spec 0 (oer_size cs td_cs)) as [H0|H0].
  - destruct (Z.ltb_spec (Z.of_nat (length ptr)) (u * oer_size cs td_cs)); [cbn; lia|].
    destruct (malloc_ok _); cbn [within DECODE_FAILED]; nia.
  - pose proof (fetch_length_bound ptr Hp) as Hb. destruct (oer_fetch_length ptr) as [n len].
    destruct (Z.ltb_spec 0 n); [|destruct (n =? 0); cbn; lia]. destruct (negb _); [cbn; lia|].
    destruct (Z.ltb_spec (Z.of_nat (length (drop (Z.to_nat n) ptr))) len) as [|Hl]; [cbn; lia|].
    rewrite length_drop in Hl. destruct (malloc_ok _); cbn [within DECODE_FAILED]; lia.
Qed.
End StringOer.

(** * Order *)

(** Dictionary order of octet strings. *)
Fixpoint dictionary (a b : list Z) : Z :=
  match a, b with
  | [], [] => 0
  | [], _ => -1
  | _, [] => 1
  | x :: a', y :: b' => if x <? y then -1 else if y <? x then 1 else dictionary a' b'
  end.

Lemma compare_dictionary a b :
  let n := Nat.min (length a) (length b) in
  let ret := memcmp (take n a) (take n b) in
  (if ret =? 0 then if (length a <? length b)%nat then -1 else if (length b <? length a)%nat then 1 else 0
   else if ret <? 0 then -1 else 1) = dictionary a b.
Proof.
  cbv zeta. revert b. induction a as [|x a IH]; intros [|y b]; try reflexivity.
  cbn [length Nat.min take memcmp dictionary]. destruct (x <? y), (y <? x); try reflexivity. apply IH.
Qed.

Lemma dictionary_eq a b : dictionary a b = 0 <-> a = b.
Proof.
  split; [|intros ->; induction b as [|y b IH]; [reflexivity|cbn; now rewrite Z.ltb_irrefl]].
  revert b. induction a as [|x a IH]; intros [|y b]; cbn; try discriminate; [reflexivity|].
  destruct (Z.ltb_spec x y); [discriminate|]. destruct (Z.ltb_spec y x); [discriminate|].
  intros H1. f_equal; [lia|]. now apply IH.
Qed.

Lemma dictionary_antisym a b : dictionary b a = - dictionary a b.
Proof.
  revert b. induction a as [|x a IH]; intros [|y b]; cbn; try reflexivity.
  destruct (Z.ltb_spec x y), (Z.ltb_spec y x); try reflexivity; [lia|]. apply IH.
Qed.

Lemma dictionary_trans a b c : dictionary a b < 0 -> dictionary b c < 0 -> dictionary a c < 0.
Proof.
  revert b c. induction a as [|x a IH]; intros [|y b] [|z c]; cbn; try lia.
  destruct (Z.ltb_spec x y), (Z.ltb_spec y x), (Z.ltb_spec y z), (Z.ltb_spec z y), (Z.ltb_spec x z), (Z.ltb_spec z x);
    try lia. apply IH.
Qed.

(** * Properties *)


(** IA5String (SIZE (1..5, ...)) (FROM ("A".."P")): four bits a character. *)
Definition example_string : asn_per_constraints :=
  {| pc_value := mk_per_constraint APC_CONSTRAINED 4 4 65 80;
     pc_size := mk_per_constraint (APC_CONSTRAINED .| APC_EXTENSIBLE) 3 3 1 5; value2code := None; code2value := None |}.


(** On arbitrary data OCTET_STRING_decode_uper stays inside the data and
    moves forward only, and OCTET_STRING_per_get_characters stores exactly
    the octets of the requested characters, the number its callers
    allocate. *)
Theorem OCTET_STRING_decode_uper_safe {T : Target} {A : Allocator} pd :
  pd_ok pd ->
  (forall specs td_cs cs sptr, follows pd (OCTET_STRING_decode_uper specs td_cs cs sptr pd)) /\
  (forall units bpc unit_bits lb ub pc,
     match fst (OCTET_STRING_per_get_characters pd units bpc unit_bits lb ub pc) with
     | Got bs => length bs = (units * bpc)%nat
     | _ => True
     end).
Proof. intros Hok. split; intros; [now apply follows_OCTET_STRING|apply characters_length]. Qed.

Lemma OCTET_STRING_decode_uper_safe_witness :
  let pd := mk_bit_data [130; 17; 201; 33] 2 30 2 in
  follows pd (@OCTET_STRING_decode_uper LP64 (fun _ => true) None None (Some example_string) None pd) /\
  match fst (@OCTET_STRING_per_get_characters LP64 pd 3 1 8 0 255 None) with Got bs => length bs = 3%nat | _ => True end.
Proof.
  destruct (@OCTET_STRING_decode_uper_safe LP64 (fun _ => true) (mk_bit_data [130; 17; 201; 33] 2 30 2)) as [H1 H2].
  - unfold pd_ok; cbn. repeat split; try lia. repeat constructor; lia.
  - split; [apply H1|apply (H2 3%nat 1%nat)].
Defined.

(** The test of X.691 #30.5.4 in OCTET_STRING_per_put_characters lets an
    alphabet whose largest character is exactly 2^unit_bits through
    unchanged: that character is written as zero and read back as NUL,
    although it belongs to the alphabet. *)
Theorem alphabet_limit_lost {T : Target} {K} {C : Consumer K} {S : Sink K} {TS : TotalSink K} u lb pc :
  1 <= u <= 7 -> 0 <= lb <= 2 ^ u ->
  encodes (fun po : asn_bit_outp K =>
      OCTET_STRING_per_put_characters po [2 ^ u] 1 1 u lb (2 ^ u) pc) (bits_of (Z.to_nat u) 0) 0 /\
  decodes (fun pd => OCTET_STRING_per_get_characters pd 1 1 u lb (2 ^ u) pc) (bits_of (Z.to_nat u) 0) (Got [0]).
Proof.
  intros Hu Hlb. pose proof (Z.pow_le_mono_r 2 u 7 ltac:(lia) ltac:(lia)) as H7. change (2 ^ 7) with 128 in H7.
  pose proof (pow2_pos u ltac:(lia)) as Hp.
  assert (as_is (2 ^ u) u = true) as Eas.
  { unfold as_is. rewrite Z.shiftl_mul_pow2 by lia. replace (2 * 2 ^ (u - 1)) with (2 ^ u)
      by (rewrite <- Z.pow_succ_r by lia; f_equal; lia). apply Z.leb_refl. }
  unfold OCTET_STRING_per_put_characters, OCTET_STRING_per_get_characters. rewrite Eas.
  change (8 * Z.of_nat 1) with 8. rewrite (proj2 (Z.eqb_neq u 8)) by lia. rewrite andb_false_r. split.
  - cbn [put_shifted take be_val length]. change (Z.of_nat 0) with 0. rewrite Z.pow_0_r, Z.mul_1_r, Z.add_0_r, Z.sub_0_r.
    rewrite swrap_small by lia. rewrite (proj2 (Z.ltb_ge (2 ^ u) 0)), (proj2 (Z.ltb_ge (2 ^ u) (2 ^ u))) by lia. cbn [orb].
    replace (bits_of (Z.to_nat u) 0) with (bits_of (Z.to_nat u) (2 ^ u)).
    + eapply encodes_last; [apply encodes_few_bits; lia|]. apply encodes_ret.
    + rewrite <- (bits_of_uwrap (Z.to_nat u) u (2 ^ u)) by lia. unfold uwrap. now rewrite Z.mod_same by lia.
  - cbn [get_shifted]. eapply decodes_last; [apply (decodes_few_bits_of _ u 0); lia|]. cbv beta iota zeta.
    rewrite swrap_small by lia. rewrite (proj2 (Z.ltb_ge 0 0)), (proj2 (Z.ltb_ge (2 ^ u) (0 + 0))) by lia. apply decodes_ret.
Qed.

Lemma alphabet_limit_lost_witness :
  (1 <= 6 <= 7 /\ 0 <= 32 <= 2 ^ 6) /\
  encodes (fun po : asn_bit_outp ByteBuffer =>
      @OCTET_STRING_per_put_characters LP64 _ _ po [2 ^ 6] 1 1 6 32 (2 ^ 6) None) (bits_of (Z.to_nat 6) 0) 0 /\
  decodes (fun pd => @OCTET_STRING_per_get_characters LP64 pd 1 1 6 32 (2 ^ 6) None) (bits_of (Z.to_nat 6) 0) (Got [0]).
Proof. split; [lia|]. apply (@alphabet_limit_lost LP64 ByteBuffer _ _ _ 6 32 None); lia. Defined.

(** OER of OCTET STRING, X.696 #14: OCTET_STRING_encode_oer emits the
    octets, behind their length unless the size is fixed, and fails when a
    fixed size does not match; OCTET_STRING_decode_oer reads the same octets
    back, whatever follows, for every whole number of characters, refuses a
    length that is not one, and on arbitrary data never uses more octets than
    it was given. *)
Theorem OCTET_STRING_oer_roundtrip {T : Target} {A : Allocator} specs td_cs cs sptr unit_bytes bs :
  oer_unit_bytes (subvariant (os_specs specs)) = Some unit_bytes ->
  have_struct sptr (struct_size (os_specs specs)) = true -> Z.of_nat (length bs) <= RSIZE_MAX ->
  serves A (Z.of_nat (length bs) + 1) ->
  match oer_string_octets unit_bytes (oer_size cs td_cs) bs with
  | Some enc =>
      emits (fun K C k => OCTET_STRING_encode_oer specs td_cs cs (Some (Some bs)) k) enc /\
      if (0 <=? oer_size cs td_cs) || (Z.of_nat (length bs) mod unit_bytes =? 0)
      then parses (OCTET_STRING_decode_oer specs td_cs cs sptr) enc (Some bs)
      else forall rest, OCTET_STRING_decode_oer specs td_cs cs sptr (enc ++ rest) = DECODE_FAILED
  | None => refuses (fun K C k => OCTET_STRING_encode_oer specs td_cs cs (Some (Some bs)) k)
  end /\
  (forall ptr, octets ptr -> within ptr (OCTET_STRING_decode_oer specs td_cs cs sptr ptr)).
Proof.
  intros Hu Hst Hl HA. split; [|intros; now apply within_OCTET_STRING].
  pose proof (OCTET_STRING_encode_oer_ok specs td_cs cs unit_bytes bs Hu) as He.
  destruct (oer_string_octets unit_bytes (oer_size cs td_cs) bs) as [enc|] eqn:E; [|exact He]. split; [exact He|].
  destruct (Z.leb_spec 0 (oer_size cs td_cs)) as [H0|H0]; cbn [orb].
  - apply OCTET_STRING_decode_oer_ok with (unit_bytes := unit_bytes); auto.
  - destruct (Z.eqb_spec (Z.of_nat (length bs) mod unit_bytes) 0) as [Em|Em];
      [apply OCTET_STRING_decode_oer_ok with (unit_bytes := unit_bytes); auto|].
    intros rest. unfold OCTET_STRING_decode_oer, oer_string_octets in *. rewrite Hu, Hst, (proj2 (Z.leb_gt 0 _)) in * by lia.
    injection E as <-. cbn [negb]. unfold with_length. rewrite <- app_assoc, fetch_length_octets by lia.
    pose proof (length_octets_pos (Z.of_nat (length bs))). rewrite (proj2 (Z.ltb_lt 0 _)) by lia.
    now rewrite (proj2 (Z.eqb_neq _ _) Em).
Qed.

Lemma OCTET_STRING_oer_roundtrip_witness :
  emits (fun K C k => @OCTET_STRING_encode_oer LP64 K C None None None (Some (Some [1; 2; 3])) k) [3; 1; 2; 3] /\
  parses (@OCTET_STRING_decode_oer LP64 (fun _ => true) None None None None) [3; 1; 2; 3] (Some [1; 2; 3]).
Proof.
  pose proof (@OCTET_STRING_oer_roundtrip LP64 (fun _ => true) None None None None 1 [1; 2; 3]) as H.
  apply H; [reflexivity|reflexivity|vm_compute; discriminate|intros ? _; reflexivity].
Defined.

(** OCTET_STRING_compare is the dictionary order of the octets, a total
    order, with an absent structure first; OCTET_STRING_copy makes a
    structure that compares equal to its source, and on a failed allocation
    leaves the old contents of the target. *)
Theorem OCTET_STRING_order {T : Target} {A : Allocator} :
  (forall a b, OCTET_STRING_compare (Some (Some a)) (Some (Some b)) = dictionary a b) /\
  (forall a, OCTET_STRING_compare None (Some a) = -1 /\ OCTET_STRING_compare (Some a) None = 1) /\
  (forall a b, dictionary a b = 0 <-> a = b) /\
  (forall a b, dictionary b a = - dictionary a b) /\
  (forall a b c, dictionary a b < 0 -> dictionary b c < 0 -> dictionary a c < 0) /\
  (forall specs a b, match OCTET_STRING_copy specs a (Some b) with
     | (0, copy) => OCTET_STRING_compare copy (Some b) = 0
     | (_, a') => a' = a \/ a = None
     end).
Proof.
  assert (forall a b, OCTET_STRING_compare (Some (Some a)) (Some (Some b)) = dictionary a b) as Hc
    by (intros a b; apply compare_dictionary).
  split; [exact Hc|]. split; [split; reflexivity|].
  split; [apply dictionary_eq|]. split; [intros; apply dictionary_antisym|]. split; [apply dictionary_trans|].
  intros specs a b. unfold OCTET_STRING_copy. destruct a as [a|]; [|destruct (malloc_ok (struct_size _)); [|now right]];
    (destruct (malloc_ok _); [|auto]); (destruct b as [b|]; [rewrite Hc; now apply dictionary_eq|reflexivity]).
Qed.

Lemma OCTET_STRING_order_witness :
  OCTET_STRING_compare (Some (Some [1; 2])) (Some (Some [1; 2; 0])) = -1 /\
  dictionary [1; 1] [1; 2; 0] < 0.
Proof.
  destruct (@OCTET_STRING_order LP64 (fun _ => true)) as (H1 & _ & _ & _ & H5 & _).
  split; [rewrite H1; reflexivity|]. apply (H5 [1; 1] [1; 1; 7] [1; 2; 0]); vm_compute; reflexivity.
Defined.
