(* ===== verification/BitString.v ===== *)
(** BIT STRING: BIT_STRING.c, BIT_STRING_uper.c and BIT_STRING_oer.c under
    vanetza/asn1/support/.

    The value of a structure is its list of bits ([string_bits]); [pack] is
    the inverse.  UPER and OER are shown to carry the bits, and
    BIT_STRING_compare to compare them up to trailing zeros. *)

From S2P Require Import Prelude Runtime Constraints BitData BitOutp UperSupport Integer IntegerUper OerSupport IntegerOer OctetString.

(** * Data *)

(** BIT_STRING_t: nothing for a NULL [buf], otherwise its [size] octets. *)
Record BIT_STRING_t := mk_bit_string { bs_buf : option (list Z); bits_unused : Z }.

(** asn_SPC_BIT_STRING_specs; [sizeof(BIT_STRING_t)] is that of a pointer, a
    size, a padded int and the decoding context. *)
Definition asn_SPC_BIT_STRING_specs {T : Target} : asn_OCTET_STRING_specifics :=
  {| struct_size := 8 + 5 * sizeof_word; subvariant := ASN_OSUBV_BIT |}.

Definition bit_specs {T : Target} (specifics : option asn_OCTET_STRING_specifics) : asn_OCTET_STRING_specifics :=
  match specifics with Some s => s | None => asn_SPC_BIT_STRING_specs end.

Definition asn_DEF_BIT_STRING_constraint_size : asn_per_constraint :=
  mk_per_constraint APC_SEMI_CONSTRAINED (-1) (-1) 0 0.

Definition size_constraint (pc : option asn_per_constraints) : asn_per_constraint :=
  match pc with Some c => pc_size c | None => asn_DEF_BIT_STRING_constraint_size end.

(** [buf[size - 1]] of a string that is not empty. *)
Definition last_octet (buf : list Z) : Z := List.last buf 0.

(** [0xff << bits_unused], of which a mask of octets keeps the low octet. *)
Definition used_mask (unused : Z) : Z := 255 ≪ unused.

(** * Comparison *)

(** BIT_STRING_constraint: 0 when the structure is consistent. *)
Definition BIT_STRING_constraint (st : option BIT_STRING_t) : Z :=
  match st with
  | Some {| bs_buf := Some buf; bits_unused := unused |} =>
      if ((length buf =? 0)%nat && negb (unused =? 0)) || (unused <? 0) || (7 <? unused) then -1 else 0
  | _ => -1
  end.

(** The backwards loop of BIT_STRING__compactify over [rev buf]: it stops at
    the first octet or at one that is not zero. *)
Fixpoint skip_back (rbuf : list Z) : list Z :=
  match rbuf with
  | x :: (_ :: _) as rest => if x =? 0 then skip_back rest else rbuf
  | _ => rbuf
  end.

(** The trailing zero bits of an octet: [v &= -(int8_t)v] and its tests. *)
Definition octet_unused (x : Z) : Z :=
  let v := u8 (x .& (- swrap 8 x)) in
  7 - (if v .& 15 =? 0 then 0 else 4) - (if v .& 51 =? 0 then 0 else 2) - (if v .& 85 =? 0 then 0 else 1).

(** BIT_STRING__compactify. *)
Definition BIT_STRING__compactify (st : BIT_STRING_t) : BIT_STRING_t :=
  let buf := default [] (bs_buf st) in
  match skip_back (rev buf) with
  | [] => st
  | b :: before =>
      if b =? 0 then mk_bit_string (Some (rev before)) 0
      else mk_bit_string (Some (rev (b :: before))) (octet_unused b)
  end.

(** BIT_STRING_compare on two structures, as -1, 0 or 1. *)
Definition BIT_STRING_compare (aptr bptr : BIT_STRING_t) : Z :=
  let a := BIT_STRING__compactify aptr in let b := BIT_STRING__compactify bptr in
  let abuf := default [] (bs_buf a) in let bbuf := default [] (bs_buf b) in
  let common_prefix_size := Nat.min (length abuf) (length bbuf) in
  let ret := memcmp (take common_prefix_size abuf) (take common_prefix_size bbuf) in
  if ret =? 0 then
    if (length abuf <? length bbuf)%nat then -1
    else if (length bbuf <? length abuf)%nat then 1
    else if bits_unused b <? bits_unused a then -1
    else if bits_unused a <? bits_unused b then 1
    else 0
  else ret.

(** BIT_STRING_copy: the return code and the structure behind [*aptr]. *)
Definition BIT_STRING_copy {A : Allocator} (specs : asn_OCTET_STRING_specifics) (a b : option BIT_STRING_t) :
    Z * option BIT_STRING_t :=
  match b with
  | None => (0, None)
  | Some b =>
      match (match a with Some a => Some a | None => if malloc_ok (struct_size specs) then Some (mk_bit_string None 0) else None end) with
      | None => (-1, None)
      | Some a =>
          let bs := default [] (bs_buf b) in
          if malloc_ok (Z.of_nat (length bs) + 1) then (0, Some (mk_bit_string (Some bs) (bits_unused b))) else (-1, Some a)
      end
  end.

(** * UPER *)

Section BitStringUper.
Context {T : Target} {A : Allocator}.

(** The loop over the fragments; [acc] holds the [st->size] octets decoded. *)
Fixpoint bit_string_fragments (fuel : nat) (pd : asn_bit_data) (csiz : asn_per_constraint) (have_buf : bool)
    (acc : list Z) (unused : Z) : asn_dec_rval BIT_STRING_t * asn_bit_data :=
  match fuel with
  | O => (DECODE_FAILED, pd)
  | S fuel' =>
      let '((raw_len, repeat), pd) := uper_get_length pd (effective_bits csiz) (lower_bound csiz) in
      if raw_len <? 0 then (DECODE_STARVED, pd)
      else if (raw_len =? 0) && have_buf then (RC_OK 0 (mk_bit_string (Some acc) unused), pd)
      else if (0 <=? effective_bits csiz) && (effective_bits csiz <=? 16) && (upper_bound csiz <? raw_len)
              && negb (has csiz APC_EXTENSIBLE) then (DECODE_FAILED, pd)
      else
        let len_bytes := (raw_len + 7) ≫ 3 in
        let unused := if raw_len .& 7 =? 0 then unused else 8 - (raw_len .& 7) in
        if negb (malloc_ok (Z.of_nat (length acc) + len_bytes + 1)) then (DECODE_FAILED, pd) else
        let '(got, pd) := asn_get_many_bits pd false raw_len in
        match got with
        | None => (DECODE_STARVED, pd)
        | Some bs =>
            if repeat then bit_string_fragments fuel' pd csiz true (acc ++ bs) unused
            else (RC_OK 0 (mk_bit_string (Some (acc ++ bs)) unused), pd)
        end
  end.

(** The part of BIT_STRING_decode_uper behind the extension bit. *)
Definition bit_string_decode_body (csiz : asn_per_constraint) (sptr : option BIT_STRING_t) (pd : asn_bit_data) :
    asn_dec_rval BIT_STRING_t * asn_bit_data :=
  let sized := 0 <=? effective_bits csiz in
  if sized && negb (malloc_ok ((upper_bound csiz + 7) ≫ 3 + 1)) then (DECODE_FAILED, pd)
  else if effective_bits csiz =? 0 then
    let '(got, pd) := asn_get_many_bits pd false (upper_bound csiz) in
    match got with
    | None => (DECODE_STARVED, pd)
    | Some bs => (RC_OK (upper_bound csiz) (mk_bit_string (Some bs) ((8 - (upper_bound csiz .& 7)) .& 7)), pd)
    end
  else
    let have_buf := sized || match sptr with Some {| bs_buf := Some _ |} => true | _ => false end in
    let unused := match sptr with Some st => bits_unused st | None => 0 end in
    bit_string_fragments (fragments_fuel pd) pd csiz have_buf [] unused.

(** BIT_STRING_decode_uper. *)
Definition BIT_STRING_decode_uper (specifics : option asn_OCTET_STRING_specifics)
    (td_constraints constraints : option asn_per_constraints) (sptr : option BIT_STRING_t)
    (pd : asn_bit_data) : asn_dec_rval BIT_STRING_t * asn_bit_data :=
  let specs := bit_specs specifics in
  let csiz := size_constraint (or_else constraints td_constraints) in
  if negb (bool_decide (subvariant specs = ASN_OSUBV_BIT)) then (DECODE_FAILED, pd)
  else if negb (have_struct sptr (struct_size specs)) then (DECODE_FAILED, pd)
  else if has csiz APC_EXTENSIBLE then
    let '(inext, pd) := asn_get_few_bits pd 1 in
    if inext <? 0 then (DECODE_STARVED, pd)
    else bit_string_decode_body (if negb (inext =? 0) then asn_DEF_BIT_STRING_constraint_size else csiz) sptr pd
  else bit_string_decode_body csiz sptr pd.

Context {K : Type} {C : Consumer K}.

(** The trailer of zero bits, sixteen octets at a time. *)
Fixpoint put_zero_bits (fuel : nat) (po : asn_bit_outp K) (trailing_zero_bits : Z) : Z * asn_bit_outp K :=
  if trailing_zero_bits <=? 0 then (0, po) else
  match fuel with
  | O => (-1, po)
  | S fuel' =>
      let n := if 128 <? trailing_zero_bits then 128 else trailing_zero_bits in
      let '(ret, po) := asn_put_many_bits po (replicate 16 0) n in
      if negb (ret =? 0) then (-1, po) else put_zero_bits fuel' po (trailing_zero_bits - n)
  end.

(** The do-while loop of the encoder. *)
Fixpoint bit_string_put_fragments (fuel : nat) (po : asn_bit_outp K) (buf : list Z) (size_in_bits : Z) :
    asn_enc_rval * asn_bit_outp K :=
  match fuel with
  | O => (ENCODE_FAILED, po)
  | S fuel' =>
      let '((maySave, need_eom), po) := uper_put_length po size_in_bits in
      if maySave <? 0 then (ENCODE_FAILED, po) else
      let '(ret, po) := asn_put_many_bits po buf maySave in
      if negb (ret =? 0) then (ENCODE_FAILED, po) else
      let buf := drop (Z.to_nat (maySave ≫ 3)) buf in
      let size_in_bits := size_in_bits - maySave in
      let continue po :=
        if negb (size_in_bits =? 0) then bit_string_put_fragments fuel' po buf size_in_bits else (ENCODED_OK 0, po) in
      if need_eom then
        let '((rc, _), po) := uper_put_length po 0 in
        if negb (rc =? 0) then (ENCODE_FAILED, po) else continue po
      else continue po
  end.

(** The part of BIT_STRING_encode_uper behind the extension bit. *)
Definition bit_string_encode_body (inext : bool) (csiz : asn_per_constraint) (buf : list Z) (size_in_bits : Z)
    (po : asn_bit_outp K) : asn_enc_rval * asn_bit_outp K :=
  if (0 <=? effective_bits csiz) && negb inext then
    let add_trailer := size_in_bits <? lower_bound csiz in
    let '(ret, po) := asn_put_few_bits po (if add_trailer then 0 else size_in_bits - lower_bound csiz) (effective_bits csiz) in
    if negb (ret =? 0) then (ENCODE_FAILED, po) else
    let '(ret, po) := asn_put_many_bits po buf size_in_bits in
    if negb (ret =? 0) then (ENCODE_FAILED, po) else
    if add_trailer then
      let trailing_zero_bits := lower_bound csiz - size_in_bits in
      let '(ret, po) := put_zero_bits (S (Z.to_nat trailing_zero_bits)) po trailing_zero_bits in
      if negb (ret =? 0) then (ENCODE_FAILED, po) else (ENCODED_OK 0, po)
    else (ENCODED_OK 0, po)
  else bit_string_put_fragments (S (8 * length buf)) po buf size_in_bits.

(** BIT_STRING_encode_uper. *)
Definition BIT_STRING_encode_uper (specifics : option asn_OCTET_STRING_specifics)
    (td_constraints constraints : option asn_per_constraints) (sptr : option BIT_STRING_t)
    (po : asn_bit_outp K) : asn_enc_rval * asn_bit_outp K :=
  match sptr with
  | None => (ENCODE_FAILED, po)
  | Some st =>
      let buf := default [] (bs_buf st) in
      if negb (bool_decide (subvariant (bit_specs specifics) = ASN_OSUBV_BIT)) then (ENCODE_FAILED, po)
      else if ((length buf =? 0)%nat && negb (bits_unused st =? 0)) || negb (bits_unused st .& Z.lnot 7 =? 0)
      then (ENCODE_FAILED, po)
      else
        let csiz := size_constraint (or_else constraints td_constraints) in
        let size_in_bits := 8 * Z.of_nat (length buf) - bits_unused st in
        let outside := (0 <=? effective_bits csiz) && (upper_bound csiz <? size_in_bits) in
        if outside && negb (has csiz APC_EXTENSIBLE) then (ENCODE_FAILED, po)
        else if has csiz APC_EXTENSIBLE then
          let '(rc, po) := asn_put_few_bits po (Z.b2z outside) 1 in
          if negb (rc =? 0) then (ENCODE_FAILED, po) else bit_string_encode_body outside csiz buf size_in_bits po
        else bit_string_encode_body outside csiz buf size_in_bits po
  end.
End BitStringUper.

(** * OER *)

Section BitStringOer.
Context {T : Target} {A : Allocator}.

(** [buf[expected_length - 1] &= (0xff << bits_unused)] *)
Definition mask_last (buf : list Z) (unused : Z) : list Z :=
  match rev buf with
  | [] => []
  | x :: before => rev before ++ [x .& used_mask unused]
  end.

(** BIT_STRING_decode_oer. *)
Definition BIT_STRING_decode_oer (td_constraints constraints : option asn_oer_constraints)
    (sptr : option BIT_STRING_t) : oer_decoder BIT_STRING_t := fun ptr =>
  if negb (have_struct sptr (struct_size asn_SPC_BIT_STRING_specs)) then DECODE_FAILED else
  let ct_size := oer_size constraints td_constraints in
  let finish consumed expected_length unused ptr :=
    if Z.of_nat (length ptr) <? expected_length then DECODE_STARVED
    else if malloc_ok (expected_length + 1)
    then RC_OK (consumed + expected_length) (mk_bit_string (Some (mask_last (take (Z.to_nat expected_length) ptr) unused)) unused)
    else DECODE_FAILED in
  if 0 <=? ct_size then finish 0 ((ct_size + 7) ≫ 3) ((8 - (ct_size .& 7)) .& 7) ptr
  else
    let '(len_len, expected_length) := oer_fetch_length ptr in
    if len_len =? 0 then DECODE_STARVED
    else if len_len <? 0 then DECODE_FAILED
    else
      let ptr := drop (Z.to_nat len_len) ptr in
      if expected_length <? 1 then DECODE_FAILED
      else if Z.of_nat (length ptr) <? expected_length then DECODE_STARVED
      else
        let unused := octet_at ptr 0 in
        if negb (unused .& Z.lnot 7 =? 0) then DECODE_FAILED
        else finish (len_len + 1) (expected_length - 1) unused (drop 1 ptr).

Context {K : Type} {C : Consumer K}.

(** Where an encoder stands after a number of callbacks: returned, or still
    in its loop with the octets counted so far. *)
Inductive progress := Returned (r : oer_enc K) | Running (encoded : Z) (k : K).

(** The loop over the trailing zeros, [turns] times; [trailing_zeros] never
    changes. *)
Fixpoint put_trailing_zeros (turns : nat) (trailing_zeros encoded : Z) (k : K) : progress :=
  if trailing_zeros <=? 0 then Returned (Some (encoded, k)) else
  match turns with
  | O => Running encoded k
  | S turns' =>
      let n := if trailing_zeros <? 16 then trailing_zeros else 16 in
      match consume k (replicate (Z.to_nat n) 0) with
      | None => Returned None
      | Some k => put_trailing_zeros turns' trailing_zeros (encoded + n) k
      end
  end.

(** The octets of the body: the last one is masked when [fix_last_byte]. *)
Definition put_body (buf : list Z) (unused : Z) (k : K) : oer_enc K :=
  let fix_last_byte := negb (unused =? 0) && negb (last_octet buf .& used_mask unused =? 0) in
  if fix_last_byte
  then enc_seq (put_bytes (take (length buf - 1) buf) k) (put_bytes [u8 (last_octet buf .& used_mask unused)])
  else put_bytes buf k.

(** BIT_STRING_encode_oer, run for at most [turns] rounds of its last loop. *)
Definition BIT_STRING_encode_oer (turns : nat) (td_constraints constraints : option asn_oer_constraints)
    (sptr : option BIT_STRING_t) (k : K) : progress :=
  match sptr with
  | None => Returned None
  | Some st =>
      let buf := default [] (bs_buf st) in
      let unused := bits_unused st in
      if negb (unused .& Z.lnot 7 =? 0) then Returned None
      else if negb (unused =? 0) && (length buf =? 0)%nat then Returned None
      else
        let ct_size := oer_size constraints td_constraints in
        let size := Z.of_nat (length buf) in
        if 0 <=? ct_size then
          let ct_bytes := (ct_size + 7) ≫ 3 in
          if ct_bytes <? size then Returned None
          else match put_body buf unused k with
               | None => Returned None
               | Some (n, k) => put_trailing_zeros turns (ct_bytes - size) n k
               end
        else
          Returned (enc_seq (oer_serialize_length (1 + size) k)
                      (fun k => enc_seq (put_bytes [u8 (unused .& 7)] k) (put_body buf unused)))
  end.
End BitStringOer.
Arguments Returned {K} r.
Arguments Running {K} encoded k.

(** * Bits and octets *)

(** The octets of a list of bits, the last one filled with zeros. *)
Definition bit_octets (l : list bool) : list Z :=
  be_bytes ((length l + 7) / 8) (bval (l ++ replicate (padding (length l)) false)).

(** The structure of a list of bits, and the bits of a structure. *)
Definition pack (l : list bool) : BIT_STRING_t := mk_bit_string (Some (bit_octets l)) (Z.of_nat (padding (length l))).

Definition string_bits (st : BIT_STRING_t) : list bool :=
  let buf := default [] (bs_buf st) in take (8 * length buf - Z.to_nat (bits_unused st)) (bytes_bits buf).

(** A consistent structure: BIT_STRING_constraint accepts it. *)
Definition bit_string_ok (st : BIT_STRING_t) : Prop :=
  octets (default [] (bs_buf st)) /\ 0 <= bits_unused st <= 7 /\ (default [] (bs_buf st) = [] -> bits_unused st = 0).

Lemma octet_count n : exists q, ((n + 7) / 8 = q /\ n + padding n = 8 * q /\ padding n < 8)%nat.
Proof.
  destruct (padding_spec n) as (q & Hq & Hlt & _). exists q. split; [|auto].
  symmetry. apply (Nat.div_unique (n + 7) 8 q (7 - padding n)); lia.
Qed.

Lemma padding_value n : Z.of_nat (padding n) = (8 - (Z.of_nat n .& 7)) .& 7.
Proof.
  rewrite (land7 (Z.of_nat n)) by lia. pose proof (Z.mod_pos_bound (Z.of_nat n) 8 ltac:(lia)).
  rewrite land7 by lia. unfold padding. rewrite Z2Nat.id; [reflexivity|]. apply Z.mod_pos_bound. lia.
Qed.

Lemma bytes_bits_octets l : bytes_bits (bit_octets l) = l ++ replicate (padding (length l)) false.
Proof.
  unfold bit_octets. destruct (octet_count (length l)) as (q & -> & Hq & _). apply bytes_of_bits. len.
Qed.

Lemma length_bit_octets l : Z.of_nat (length (bit_octets l)) = (Z.of_nat (length l) + 7) ≫ 3.
Proof.
  unfold bit_octets. rewrite length_be_bytes, shiftr3, Nat2Z.inj_div, Nat2Z.inj_add. reflexivity.
Qed.

Lemma bit_octets_octets l : octets (bit_octets l).
Proof. apply be_bytes_octets. Qed.
#[export] Hint Resolve bit_octets_octets : asn.

Lemma string_bits_pack l : string_bits (pack l) = l.
Proof.
  unfold string_bits, pack. cbn [bs_buf bits_unused default from_option id]. unfold id.
  rewrite bytes_bits_octets, Nat2Z.id. apply take_app_length'.
  pose proof (f_equal length (bytes_bits_octets l)) as E. rewrite length_bytes_bits, length_app, length_replicate in E. lia.
Qed.

Lemma pack_ok l : bit_string_ok (pack l).
Proof.
  destruct (octet_count (length l)) as (q & Eq & Hq & Hlt). unfold bit_string_ok, pack. cbn [bs_buf bits_unused default from_option id].
  unfold id. split; [apply bit_octets_octets|]. split; [lia|]. intros E. apply (f_equal length) in E.
  unfold bit_octets in E. rewrite length_be_bytes in E. cbn [length] in E. lia.
Qed.

Lemma bit_octets_app l1 l2 k : length l1 = (8 * k)%nat -> bit_octets (l1 ++ l2) = bit_octets l1 ++ bit_octets l2.
Proof.
  intros Hk. apply bytes_bits_inj; [auto with asn|apply octets_app; auto with asn|].
  rewrite bytes_bits_app, !bytes_bits_octets, length_app, Hk, padding_mod.
  replace (padding (8 * k)) with 0%nat by (rewrite <- (Nat.add_0_r (8 * k)), padding_mod; reflexivity).
  cbn [replicate]. now rewrite app_nil_r, app_assoc.
Qed.

(** Reading a number of bits gives their octets. *)
Lemma decodes_many_bits l :
  decodes (fun pd => asn_get_many_bits pd false (Z.of_nat (length l))) l (Some (bit_octets l)).
Proof.
  unfold asn_get_many_bits; cbn [andb].
  destruct (get_many_bits_loop_ok (S (Z.to_nat (Z.of_nat (length l) / 24))) l []) as (q & Hq & Hd).
  - pose proof (Z.div_mod (Z.of_nat (length l)) 24 ltac:(lia)).
    pose proof (Z.mod_pos_bound (Z.of_nat (length l)) 24 ltac:(lia)). lia.
  - intros _. rewrite <- (Nat2Z.id (length l / 24)), Nat2Z.inj_div. lia.
  - unfold bit_octets. destruct (octet_count (length l)) as (q' & -> & Hq' & _).
    replace q' with q by lia. exact Hd.
Qed.

Lemma land_lnot7 u : 0 <= u -> (u .& Z.lnot 7 =? 0) = (u <=? 7).
Proof.
  intros Hu. rewrite land_not7 by assumption. pose proof (Z.div_mod u 8 ltac:(lia)).
  pose proof (Z.mod_pos_bound u 8 ltac:(lia)). destruct (Z.leb_spec u 7); lia.
Qed.

(** * BIT STRING on the wire *)

Definition bits_inside (csiz : asn_per_constraint) (n : Z) : bool :=
  negb ((0 <=? effective_bits csiz) && (upper_bound csiz <? n)).

(** Whether the size constraint of the root bounds the count. *)
Definition counted_in_root (csiz : asn_per_constraint) (n : Z) : bool := (0 <=? effective_bits csiz) && bits_inside csiz n.

(** The bits the receiver sees: filled with zeros up to the lower bound. *)
Definition filled (csiz : asn_per_constraint) (l : list bool) : list bool :=
  if counted_in_root csiz (Z.of_nat (length l))
  then l ++ replicate (Z.to_nat (lower_bound csiz - Z.of_nat (length l))) false else l.

(** X.691 #16: the bits behind their count. *)
Definition bit_string_bits (csiz : asn_per_constraint) (l : list bool) : option (list bool) :=
  let n := Z.of_nat (length l) in
  let body :=
    if counted_in_root csiz n
    then bits_of (Z.to_nat (effective_bits csiz)) (Z.of_nat (length (filled csiz l)) - lower_bound csiz) ++ filled csiz l
    else fragmented_of id l in
  if has csiz APC_EXTENSIBLE then Some (negb (bits_inside csiz n) :: body)
  else if bits_inside csiz n then Some body else None.

Section BitStringPut.
Context {K : Type} {C : Consumer K} {S : Sink K} {R : RoomySink K}.
Implicit Types po : asn_bit_outp K.

Lemma encodes_zero_bits fuel z :
  0 <= z -> (Z.to_nat z <= fuel)%nat ->
  encodes (fun po => put_zero_bits fuel po z) (replicate (Z.to_nat z) false) 0.
Proof.
  revert z. induction fuel as [|fuel IH]; intros z Hz Hf; cbn [put_zero_bits].
  { replace z with 0 by lia. apply encodes_ret. }
  destruct (Z.leb_spec z 0); [replace z with 0 by lia; apply encodes_ret|]. cbv zeta.
  set (n := if 128 <? z then 128 else z). assert (1 <= n <= 128 /\ n <= z) as [Hn Hnz] by (subst n; destruct (Z.ltb_spec 128 z); lia).
  replace (Z.to_nat z) with (Z.to_nat n + Z.to_nat (z - n))%nat by lia. rewrite replicate_add.
  apply encodes_bind with (a := 0); [|cbn [Z.eqb negb]; apply IH; lia].
  replace (replicate (Z.to_nat n) false) with (take (Z.to_nat n) (bytes_bits (replicate 16 0))).
  - apply encodes_many_bits; [repeat constructor; lia|len].
  - change (bytes_bits (replicate 16 0)) with (replicate 128 false). rewrite take_replicate. f_equal. lia.
Qed.

(** The fragments of a prefix of the bits of a buffer. *)
Lemma encodes_bit_fragments l : forall fuel buf,
  octets buf -> (length l <= 8 * length buf)%nat -> take (length l) (bytes_bits buf) = l -> (length l < fuel)%nat ->
  encodes (fun po => bit_string_put_fragments fuel po buf (Z.of_nat (length l))) (fragmented_of id l) (ENCODED_OK 0).
Proof.
  induction l as [l H|l H IH] using fragments_ind; intros [|fuel] buf Hb Hl El Hf; try lia;
    rewrite fragmented_eq; cbv zeta; cbn [bit_string_put_fragments].
  - rewrite (proj2 (Z.ltb_lt _ _)) by assumption. eapply encodes_bind; [apply encodes_length; lia|].
    cbv beta iota zeta. rewrite (proj2 (Z.ltb_ge _ 0)) by lia.
    pose proof (encodes_many_bits (K := K) buf (Z.of_nat (length l)) Hb ltac:(lia)) as Hm. rewrite Nat2Z.id, El in Hm.
    eapply encodes_last; [exact Hm|]. rewrite Z.sub_diag. apply encodes_ret.
  - rewrite (proj2 (Z.ltb_ge _ 16384)) by assumption. pose proof (fragment_units_bound _ H) as [Hm Hle].
    pose proof (encodes_fragment (K := K) (Z.of_nat (length l)) H) as Hfrag.
    set (m := fragment_units (Z.of_nat (length l))) in *. set (j := Z.to_nat (16384 * m)) in *.
    eapply encodes_bind; [exact Hfrag|]. cbv beta iota zeta. rewrite (proj2 (Z.ltb_ge _ 0)) by lia.
    pose proof (encodes_many_bits (K := K) buf (16384 * m) Hb ltac:(lia)) as Hp. fold j in Hp.
    assert (take j (bytes_bits buf) = id (take j l)) as Ej by (rewrite <- El at 1; unfold id; rewrite take_take; f_equal; lia).
    rewrite Ej in Hp. eapply encodes_bind; [exact Hp|]. cbn [negb Z.eqb].
    replace (Z.to_nat ((16384 * m) ≫ 3)) with (Z.to_nat (2048 * m))
      by (rewrite shiftr3; replace (16384 * m) with (2048 * m * 8) by lia; now rewrite Z.div_mul by lia).
    replace (Z.of_nat (length l) - 16384 * m) with (Z.of_nat (length (drop j l))) by len.
    destruct (Z.eqb_spec (Z.of_nat (length l)) (16384 * m)) as [E|E].
    + rewrite drop_ge by lia. change (fragmented_of id []) with (length_bits 0 ++ []).
      eapply encodes_bind; [apply encodes_length; lia|]. apply encodes_ret.
    + assert (Z.of_nat (length (drop j l)) <> 0) as Hne by len. rewrite (proj2 (Z.eqb_neq _ _) Hne). cbn [negb].
      apply IH; auto with asn; [len| |len].
      rewrite <- bytes_bits_drop. replace (8 * Z.to_nat (2048 * m))%nat with j by lia.
      rewrite length_drop, <- skipn_firstn_comm. exact (f_equal (drop j) El).
Qed.

Lemma encodes_bit_body csiz buf l :
  size_ok csiz -> octets buf -> (length l <= 8 * length buf)%nat -> take (length l) (bytes_bits buf) = l ->
  let n := Z.of_nat (length l) in
  encodes (bit_string_encode_body (negb (bits_inside csiz n)) csiz buf n)
    (if counted_in_root csiz n
     then bits_of (Z.to_nat (effective_bits csiz)) (Z.of_nat (length (filled csiz l)) - lower_bound csiz) ++ filled csiz l
     else fragmented_of id l) (ENCODED_OK 0).
Proof.
  intros Hsz Hb Hl El n. unfold bit_string_encode_body. rewrite negb_involutive. unfold filled. fold n.
  fold (counted_in_root csiz n). destruct (counted_in_root csiz n) eqn:Ec; [|apply encodes_bit_fragments; auto; lia].
  unfold counted_in_root in Ec. apply andb_prop in Ec as [E0 Ei]. bool_hyps. destruct Hsz as [Hsz|Hsz]; [lia|].
  pose proof (encodes_many_bits (K := K) buf n Hb ltac:(lia)) as Hm. unfold n in Hm. rewrite Nat2Z.id, El in Hm. fold n in Hm.
  set (z := lower_bound csiz - n).
  replace (Z.of_nat (length (l ++ replicate (Z.to_nat z) false)) - lower_bound csiz)
    with (if n <? lower_bound csiz then 0 else n - lower_bound csiz) by (subst z; destruct (Z.ltb_spec n (lower_bound csiz)); len).
  eapply encodes_bind; [apply encodes_few_bits; lia|]. cbn [Z.eqb negb].
  eapply encodes_bind; [exact Hm|]. cbn [Z.eqb negb].
  destruct (Z.ltb_spec n (lower_bound csiz)) as [Hlt|Hge].
  - eapply encodes_last; [apply encodes_zero_bits; lia|]. apply encodes_ret.
  - replace (Z.to_nat z) with 0%nat by lia. apply encodes_ret.
Qed.

(** The bits of a consistent structure. *)
Lemma string_bits_length st :
  bit_string_ok st ->
  let buf := default [] (bs_buf st) in
  8 * Z.of_nat (length buf) - bits_unused st = Z.of_nat (length (string_bits st)) /\
  (length (string_bits st) <= 8 * length buf)%nat /\ take (length (string_bits st)) (bytes_bits buf) = string_bits st.
Proof.
  intros (Hb & Hu & Hn). cbv zeta. unfold string_bits. set (buf := default [] (bs_buf st)) in *.
  assert (buf = [] \/ (1 <= length buf)%nat) as Hcase by (destruct buf; [left; reflexivity|right; cbn; lia]).
  assert (length (take (8 * length buf - Z.to_nat (bits_unused st)) (bytes_bits buf)) = 8 * length buf - Z.to_nat (bits_unused st))%nat
    as -> by len.
  split; [|split; [lia|reflexivity]]. destruct Hcase as [E|E]; [|lia]. rewrite (Hn E), E. cbn. lia.
Qed.

(** BIT_STRING_encode_uper writes [bit_string_bits] or fails. *)
Lemma BIT_STRING_encode_uper_ok {T : Target} specs td_cs cs st :
  subvariant (bit_specs specs) = ASN_OSUBV_BIT -> size_ok (size_constraint (or_else cs td_cs)) -> bit_string_ok st ->
  yields (fun po => BIT_STRING_encode_uper specs td_cs cs (Some st) po)
    (bit_string_bits (size_constraint (or_else cs td_cs)) (string_bits st)) (ENCODED_OK 0) ENCODE_FAILED.
Proof.
  intros Hv Hsz Hok. pose proof (string_bits_length st Hok) as (El & Hl & Et). destruct Hok as (Hb & Hu & Hn).
  unfold BIT_STRING_encode_uper. rewrite bool_decide_eq_true_2 by assumption. cbn [negb].
  rewrite land_lnot7, (proj2 (Z.leb_le _ 7)) by lia. cbn [negb]. rewrite orb_false_r.
  set (buf := default [] (bs_buf st)) in *.
  assert ((length buf =? 0)%nat && negb (bits_unused st =? 0) = false) as ->.
  { destruct buf; [|reflexivity]. now rewrite (Hn eq_refl). }
  set (csiz := size_constraint _) in *. cbv zeta in El |- *. rewrite El. set (l := string_bits st) in *. set (n := Z.of_nat (length l)).
  pose proof (encodes_bit_body csiz buf l Hsz Hb Hl Et) as He. cbv zeta in He. fold n in He.
  rewrite <- (negb_involutive ((0 <=? effective_bits csiz) && _)). fold (bits_inside csiz n).
  unfold bit_string_bits. cbv zeta. fold n. destruct (has csiz APC_EXTENSIBLE); cbn [negb].
  - rewrite andb_false_r. set (b := negb (bits_inside csiz n)) in *. set (body := if counted_in_root csiz n then _ else _) in *.
    cbn [yields]. replace (b :: body) with (bits_of 1 (Z.b2z b) ++ body) by (now destruct b).
    eapply encodes_bind; [apply encodes_few_bits; lia|]. exact He.
  - rewrite andb_true_r. destruct (bits_inside csiz n) eqn:Ei; cbn [negb] in *; [exact He|intros po _; reflexivity].
Qed.
End BitStringPut.

(** [bits_unused] after a count of [n] bits: set only when it is not zero. *)
Definition kept_unused (unused n : Z) : Z := if n .& 7 =? 0 then unused else 8 - (n .& 7).

Definition old_unused (sptr : option BIT_STRING_t) : Z := match sptr with Some st => bits_unused st | None => 0 end.

Lemma kept_unused_padding n : kept_unused 0 (Z.of_nat n) = Z.of_nat (padding n).
Proof.
  rewrite padding_value. unfold kept_unused. rewrite (land7 (Z.of_nat n)) by lia.
  pose proof (Z.mod_pos_bound (Z.of_nat n) 8 ltac:(lia)). destruct (Z.eqb_spec (Z.of_nat n mod 8) 0) as [->|Hne]; [reflexivity|].
  rewrite land7 by lia. now rewrite (Z.mod_small (8 - _)) by lia.
Qed.

(** The structure BIT_STRING_decode_uper leaves for [l] bits sent. *)
Definition decoded_string (csiz : asn_per_constraint) (sptr : option BIT_STRING_t) (l : list bool) : BIT_STRING_t :=
  let l' := filled csiz l in
  mk_bit_string (Some (bit_octets l'))
    (kept_unused (if counted_in_root csiz (Z.of_nat (length l)) && (effective_bits csiz =? 0) then 0 else old_unused sptr)
       (Z.of_nat (length l'))).

Lemma decoded_string_fresh csiz sptr l : old_unused sptr = 0 -> decoded_string csiz sptr l = pack (filled csiz l).
Proof. intros E. unfold decoded_string, pack. rewrite E. destruct (_ && _); now rewrite kept_unused_padding. Qed.

Section BitStringGet.
Context {T : Target} {A : Allocator}.

Lemma decodes_bit_fragments csiz l : forall fuel have acc unused,
  effective_bits csiz < 0 -> (length (fragmented_of id l) <= fuel)%nat ->
  serves A (Z.of_nat (length (acc ++ bit_octets l)) + 1) ->
  decodes (fun pd => bit_string_fragments fuel pd csiz have acc unused) (fragmented_of id l)
    (RC_OK 0 (mk_bit_string (Some (acc ++ bit_octets l)) (kept_unused unused (Z.of_nat (length l))))).
Proof.
  induction l as [l H|l H IH] using fragments_ind; intros fuel have acc unused He; rewrite fragmented_eq; cbv zeta; intros Hf HA.
  - rewrite (proj2 (Z.ltb_lt _ _)) in * by assumption. pose proof (length_length_bits (Z.of_nat (length l))).
    rewrite length_app in Hf. destruct fuel as [|fuel]; [lia|]. cbn [bit_string_fragments].
    eapply decodes_bind; [eapply decodes_ext; [intros; symmetry; now apply uper_get_length_uncounted|apply decodes_length; lia]|].
    cbv beta iota. rewrite (proj2 (Z.ltb_ge _ 0)), (proj2 (Z.leb_gt 0 (effective_bits csiz))) by lia. cbn [andb].
    destruct ((Z.of_nat (length l) =? 0) && have) eqn:E.
    + apply andb_prop in E as [->%length_pos_nil _]. rewrite app_nil_r. apply decodes_ret.
    + rewrite <- length_bit_octets, HA by len. cbn [negb].
      eapply decodes_last; [apply decodes_many_bits|]. apply decodes_ret.
  - rewrite (proj2 (Z.ltb_ge _ 16384)) in * by assumption. pose proof (fragment_units_bound _ H) as [Hm Hle].
    set (m := fragment_units (Z.of_nat (length l))) in *. set (j := Z.to_nat (16384 * m)) in *.
    rewrite !length_app in Hf. unfold fragment_bits at 1 in Hf. rewrite length_bits_of in Hf.
    destruct fuel as [|fuel]; [lia|]. cbn [bit_string_fragments].
    assert (length (take j l) = 8 * Z.to_nat (2048 * m))%nat as Hj by len.
    pose proof (bit_octets_app (take j l) (drop j l) _ Hj) as Eb. rewrite take_drop in Eb.
    pose proof (length_bit_octets (take j l)) as Lb. replace (Z.of_nat (length (take j l))) with (16384 * m) in Lb by lia.
    eapply decodes_bind; [eapply decodes_ext; [intros; symmetry; now apply uper_get_length_uncounted|apply decodes_fragment; lia]|].
    cbv beta iota. rewrite (proj2 (Z.ltb_ge _ 0)), (proj2 (Z.eqb_neq _ 0)), (proj2 (Z.leb_gt 0 (effective_bits csiz))) by lia.
    cbn [andb]. rewrite <- Lb, HA by (rewrite Eb; len). cbn [negb].
    assert ((16384 * m) .& 7 = 0) as E7 by (rewrite land7 by lia; replace (16384 * m) with (2048 * m * 8) by lia; apply Z.mod_mul; lia).
    rewrite E7. cbn [Z.eqb]. replace (16384 * m) with (Z.of_nat (length (take j l))) by lia.
    eapply decodes_bind; [apply decodes_many_bits|]. cbv beta iota. rewrite Eb, app_assoc.
    assert (kept_unused unused (Z.of_nat (length l)) = kept_unused unused (Z.of_nat (length (drop j l)))) as ->.
    { unfold kept_unused. rewrite !land7 by lia. replace (Z.of_nat (length l)) with (Z.of_nat (length (drop j l)) + 2048 * m * 8) by len.
      now rewrite Z.mod_add by lia. }
    apply IH; [assumption|lia|]. rewrite <- app_assoc, <- Eb. exact HA.
Qed.

(** Room for the structure the decoder builds. *)
Definition bit_room (csiz : asn_per_constraint) (l : list bool) : Z :=
  Z.max (Z.of_nat (length (bit_octets (filled csiz l))) + 1)
    (if 0 <=? effective_bits csiz then (upper_bound csiz + 7) ≫ 3 + 1 else 0).

Lemma decodes_bits_counted csiz sptr l :
  effective_bits csiz < 0 -> serves A (Z.of_nat (length (bit_octets l)) + 1) ->
  decodes (bit_string_decode_body csiz sptr) (fragmented_of id l)
    (RC_OK 0 (mk_bit_string (Some (bit_octets l)) (kept_unused (old_unused sptr) (Z.of_nat (length l))))).
Proof.
  intros He HA pd rest Hpd E. unfold bit_string_decode_body.
  rewrite (proj2 (Z.leb_gt 0 _)), (proj2 (Z.eqb_neq _ 0)) by lia. cbn [andb].
  apply (decodes_bit_fragments csiz l (fragments_fuel pd) _ []); auto.
  unfold fragments_fuel. rewrite <- length_remaining, E, length_app by assumption. lia.
Qed.

Lemma decodes_bits_sized csiz sptr l :
  size_ok csiz -> 0 <= effective_bits csiz -> lower_bound csiz <= Z.of_nat (length l) <= upper_bound csiz ->
  serves A (Z.max (Z.of_nat (length (bit_octets l)) + 1) ((upper_bound csiz + 7) ≫ 3 + 1)) ->
  decodes (bit_string_decode_body csiz sptr)
    (bits_of (Z.to_nat (effective_bits csiz)) (Z.of_nat (length l) - lower_bound csiz) ++ l)
    (RC_OK (if effective_bits csiz =? 0 then upper_bound csiz else 0)
       (mk_bit_string (Some (bit_octets l))
          (kept_unused (if effective_bits csiz =? 0 then 0 else old_unused sptr) (Z.of_nat (length l))))).
Proof.
  intros [Hsz|Hsz] He Hin HA; [lia|]. unfold bit_string_decode_body.
  rewrite (proj2 (Z.leb_le 0 _)) by lia.
  assert (0 <= (upper_bound csiz + 7) ≫ 3) by (apply Z.shiftr_nonneg; lia).
  rewrite HA by lia. cbn [andb negb orb].
  destruct (Z.eqb_spec (effective_bits csiz) 0) as [E0|E0].
  - rewrite E0 in *. change (2 ^ 0) with 1 in Hsz. change (Z.to_nat 0) with 0%nat. cbn [bits_of app].
    replace (upper_bound csiz) with (Z.of_nat (length l)) by lia. rewrite kept_unused_padding, padding_value.
    eapply decodes_last; [apply decodes_many_bits|]. apply decodes_ret.
  - apply decodes_ext with (f := fun pd => bit_string_fragments 1 pd csiz true [] (old_unused sptr)).
    + intros pd. unfold fragments_fuel. cbn [bit_string_fragments]. unfold uper_get_length.
      rewrite (proj2 (Z.leb_le 0 _)), (proj2 (Z.leb_le _ 16)) by lia. cbn [andb].
      destruct (asn_get_few_bits _ _) as [v pd1]. reflexivity.
    + cbn [bit_string_fragments]. eapply decodes_bind; [apply decodes_length_constrained; lia|]. cbv beta iota.
      rewrite (proj2 (Z.ltb_ge (Z.of_nat (length l)) 0)), (proj2 (Z.ltb_ge (upper_bound csiz) (Z.of_nat (length l)))) by lia.
      rewrite andb_false_r. cbn [andb].
      destruct (Z.of_nat (length l) =? 0) eqn:En; cbn [andb].
      * apply length_pos_nil in En as ->. apply decodes_ret.
      * rewrite <- length_bit_octets, HA by len. cbn [negb].
        eapply decodes_last; [apply decodes_many_bits|]. apply decodes_ret.
Qed.

Definition bits_consumed (csiz : asn_per_constraint) (l : list bool) : Z :=
  if counted_in_root csiz (Z.of_nat (length l)) && (effective_bits csiz =? 0) then upper_bound csiz else 0.

Lemma decodes_bit_body csiz sptr l :
  size_ok csiz -> serves A (bit_room csiz l) -> bits_inside csiz (Z.of_nat (length l)) = true ->
  let n := Z.of_nat (length l) in
  decodes (bit_string_decode_body csiz sptr)
    (if counted_in_root csiz n
     then bits_of (Z.to_nat (effective_bits csiz)) (Z.of_nat (length (filled csiz l)) - lower_bound csiz) ++ filled csiz l
     else fragmented_of id l) (RC_OK (bits_consumed csiz l) (decoded_string csiz sptr l)).
Proof.
  intros Hsz HA Hin n. unfold bits_consumed, decoded_string, bit_room in *. fold n in Hin |- *.
  destruct (counted_in_root csiz n) eqn:Ec; unfold counted_in_root in Ec; rewrite Hin, andb_true_r in Ec; bool_hyps; cbn [andb].
  - rewrite (proj2 (Z.leb_le 0 _)) in HA by lia. apply decodes_bits_sized; auto.
    assert (n <= upper_bound csiz).
    { unfold bits_inside in Hin. apply negb_true_iff in Hin. rewrite (proj2 (Z.leb_le 0 _)) in Hin by lia. cbn [andb] in Hin. bool_hyps. lia. }
    unfold filled, counted_in_root. fold n. rewrite Hin, (proj2 (Z.leb_le 0 _)) by lia. cbn [andb].
    destruct Hsz as [Hsz|Hsz]; [lia|]. len.
  - assert (filled csiz l = l) as Ef by (unfold filled, counted_in_root; now rewrite (proj2 (Z.leb_gt 0 _)) by lia).
    rewrite Ef in *. apply decodes_bits_counted; [assumption|]. intros m Hm. apply HA. lia.
Qed.

(** BIT_STRING_decode_uper reads [bit_string_bits]. *)
Lemma BIT_STRING_decode_uper_ok specs td_cs cs sptr l enc :
  let csiz := size_constraint (or_else cs td_cs) in
  subvariant (bit_specs specs) = ASN_OSUBV_BIT -> size_ok csiz ->
  have_struct sptr (struct_size (bit_specs specs)) = true -> serves A (bit_room csiz l) ->
  bit_string_bits csiz l = Some enc ->
  decodes (BIT_STRING_decode_uper specs td_cs cs sptr) enc (RC_OK (bits_consumed csiz l) (decoded_string csiz sptr l)).
Proof.
  cbv zeta. intros Hv Hsz Hst HA. unfold BIT_STRING_decode_uper, bit_string_bits. set (csiz := size_constraint _) in *.
  rewrite bool_decide_eq_true_2, Hst by assumption. cbn [negb]. set (n := Z.of_nat (length l)).
  pose proof (decodes_bit_body csiz sptr l Hsz HA) as Hd. cbv zeta in Hd. fold n in Hd.
  destruct (bits_inside csiz n) eqn:Ei; cbn [negb].
  - specialize (Hd eq_refl). set (body := if counted_in_root csiz n then _ else _) in *.
    destruct (has csiz APC_EXTENSIBLE); intros [= <-]; [|exact Hd].
    change (false :: body) with (bits_of 1 0 ++ body).
    eapply decodes_bind; [apply (decodes_few_bits_of 1 1 0); lia|]. exact Hd.
  - assert (counted_in_root csiz n = false) as Ec by (unfold counted_in_root; now rewrite Ei, andb_false_r).
    assert (filled csiz l = l) as Ef by (unfold filled; fold n; now rewrite Ec).
    unfold bits_consumed, decoded_string, bit_room in *. fold n. rewrite Ec, Ef in *. cbn [andb].
    destruct (has csiz APC_EXTENSIBLE); intros [= <-]. change (true :: fragmented_of id l) with (bits_of 1 1 ++ fragmented_of id l).
    eapply decodes_bind; [apply (decodes_few_bits_of 1 1 1); lia|]. cbn [Z.ltb Z.compare Z.eqb negb].
    apply decodes_bits_counted; [reflexivity|]. intros m Hm. apply HA. lia.
Qed.

(** ** On arbitrary data *)

Lemma follows_bit_fragments fuel csiz : forall pd have acc unused,
  pd_ok pd -> follows pd (bit_string_fragments fuel pd csiz have acc unused).
Proof. induction fuel as [|fuel IH]; intros pd have acc unused Hok; cbn [bit_string_fragments]; follow. Qed.

Lemma follows_BIT_STRING specs td_cs cs sptr pd : pd_ok pd -> follows pd (BIT_STRING_decode_uper specs td_cs cs sptr pd).
Proof.
  intros Hok. pose proof follows_bit_fragments.
  assert (forall csiz pd, pd_ok pd -> follows pd (bit_string_decode_body csiz sptr pd)).
  { intros. unfold bit_string_decode_body. follow. }
  unfold BIT_STRING_decode_uper. follow.
Qed.

(** A size constraint without extension marker bounds the decoded octets. *)
Lemma bit_body_length csiz sptr pd :
  0 <= effective_bits csiz <= 16 -> 0 <= upper_bound csiz -> has csiz APC_EXTENSIBLE = false ->
  match fst (bit_string_decode_body csiz sptr pd) with
  | RC_OK _ st => Z.of_nat (length (default [] (bs_buf st))) <= (upper_bound csiz + 7) / 8
  | _ => True
  end.
Proof.
  intros He Hub Hx. unfold bit_string_decode_body. rewrite (proj2 (Z.leb_le 0 _)) by lia. cbn [andb orb].
  assert (0 <= (upper_bound csiz + 7) / 8) as Hpos by (apply Z.div_pos; lia).
  destruct (negb _); [exact I|]. destruct (effective_bits csiz =? 0).
  - pose proof (many_bits_loop_length (S (Z.to_nat (upper_bound csiz / 24))) pd (upper_bound csiz) [] Hub) as Hl.
    unfold asn_get_many_bits; cbn [andb]. destruct (asn_get_many_bits_loop _ _ _ _) as [[bs|] pd1]; cbn [fst] in *; [|exact I].
    cbn [bs_buf default from_option id]. unfold id. cbn [length] in Hl. lia.
  - unfold fragments_fuel. cbn [bit_string_fragments]. unfold uper_get_length.
    rewrite (proj2 (Z.leb_le 0 _)), (proj2 (Z.leb_le _ 16)) by lia. cbn [andb].
    destruct (asn_get_few_bits pd (effective_bits csiz)) as [v pd1]. set (raw := if 0 <=? v then _ else v).
    destruct (Z.ltb_spec raw 0); [exact I|]. rewrite andb_true_r, Hx. cbn [negb]. rewrite andb_true_r.
    destruct (raw =? 0); [cbn; exact Hpos|]. destruct (Z.ltb_spec (upper_bound csiz) raw); [exact I|].
    destruct (negb _); [exact I|].
    pose proof (many_bits_loop_length (S (Z.to_nat (raw / 24))) pd1 raw [] ltac:(lia)) as Hl.
    unfold asn_get_many_bits; cbn [andb]. destruct (asn_get_many_bits_loop _ _ _ _) as [[bs|] pd2]; cbn [fst] in *; [|exact I].
    cbn [bs_buf default from_option id app]. unfold id. cbn [length] in Hl. rewrite Hl.
    pose proof (Z.div_le_mono (raw + 7) (upper_bound csiz + 7) 8 ltac:(lia) ltac:(lia)). lia.
Qed.
End BitStringGet.
#[export] Hint Resolve follows_BIT_STRING : follows.

(** * OER on the wire *)

(** Masking the last octet clears exactly the unused bits. *)
Definition masks (x u : Z) : bool :=
  bool_decide (bytes_bits [x .& used_mask u] = take (8 - Z.to_nat u) (bytes_bits [x]) ++ replicate (Z.to_nat u) false) &&
  bool_decide (octet (x .& used_mask u)).

Lemma masked_octet x u :
  octet x -> 0 <= u <= 7 ->
  bytes_bits [x .& used_mask u] = take (8 - Z.to_nat u) (bytes_bits [x]) ++ replicate (Z.to_nat u) false /\ octet (x .& used_mask u).
Proof.
  intros Hx Hu.
  pose proof (small_cases (fun x => forallb (masks x) [0; 1; 2; 3; 4; 5; 6; 7]) 256 ltac:(vm_compute; reflexivity) x Hx) as H.
  cbv beta in H. rewrite forallb_forall in H. specialize (H u). unfold masks in H. rewrite andb_true_iff, !bool_decide_eq_true in H.
  apply H. assert (u = 0 \/ u = 1 \/ u = 2 \/ u = 3 \/ u = 4 \/ u = 5 \/ u = 6 \/ u = 7) as Hc by lia.
  cbn [In]. intuition congruence.
Qed.

Lemma mask_last_snoc buf x u : mask_last (buf ++ [x]) u = buf ++ [x .& used_mask u].
Proof. unfold mask_last. rewrite rev_app_distr. cbn [rev app]. now rewrite rev_involutive. Qed.

(** The octets of the used bits. *)
Lemma mask_last_bits buf u :
  octets buf -> 0 <= u <= 7 -> (buf = [] -> u = 0) ->
  mask_last buf u = bit_octets (take (8 * length buf - Z.to_nat u) (bytes_bits buf)).
Proof.
  intros Hb Hu Hn. destruct buf as [|x buf _] using rev_ind.
  { rewrite (Hn eq_refl). reflexivity. }
  clear Hn. apply octets_app in Hb as [Hb Hx]. apply octets_cons in Hx as [Hx _].
  destruct (masked_octet x u Hx Hu) as [Em Ho]. rewrite mask_last_snoc.
  assert (take (8 * length (buf ++ [x]) - Z.to_nat u) (bytes_bits (buf ++ [x])) =
          bytes_bits buf ++ take (8 - Z.to_nat u) (bytes_bits [x])) as El.
  { rewrite bytes_bits_app, take_app. rewrite length_bytes_bits, length_app. simpl (length [x]).
    rewrite take_ge by (rewrite length_bytes_bits; lia). do 2 f_equal. lia. }
  rewrite El, (bit_octets_app (bytes_bits buf) _ (length buf)) by len. f_equal.
  - apply bytes_bits_inj; auto with asn. rewrite bytes_bits_octets, length_bytes_bits.
    replace (padding (8 * length buf)) with 0%nat by (rewrite <- (Nat.add_0_r (8 * _)), padding_mod; reflexivity).
    cbn [replicate]. now rewrite app_nil_r.
  - apply bytes_bits_inj; [constructor; [exact Ho|constructor]|auto with asn|].
    rewrite Em, bytes_bits_octets. do 2 f_equal. rewrite length_take, length_bytes_bits. cbn [length].
    unfold padding. replace (Nat.min (8 - Z.to_nat u) (8 * 1)) with (8 - Z.to_nat u)%nat by lia.
    assert (u = 0 \/ 1 <= u) as [->|Hu1] by lia; [reflexivity|].
    rewrite Nat2Z.inj_sub, Z2Nat.id by lia. rewrite (Z.mod_small (_ - u)), Z.mod_small by lia. lia.
Qed.

(** What the encoder emits of the octets. *)
Definition body_octets (buf : list Z) (u : Z) : list Z :=
  if negb (u =? 0) && negb (last_octet buf .& used_mask u =? 0) then mask_last buf u else buf.

Lemma emits_body buf u :
  octets buf -> 0 <= u <= 7 -> (buf = [] -> u = 0) -> emits (fun K C k => put_body buf u k) (body_octets buf u).
Proof.
  intros Hb Hu Hn. unfold put_body, body_octets. destruct (negb (u =? 0) && _) eqn:E; [|apply emits_bytes].
  apply andb_prop in E as [E _]. destruct (Z.eqb_spec u 0) as [->|Hne]; [discriminate|].
  destruct buf as [|x buf _] using rev_ind; [specialize (Hn eq_refl); lia|]. apply octets_app in Hb as [_ Hx]. apply octets_cons in Hx as [Hx _].
  rewrite mask_last_snoc. unfold last_octet. rewrite last_last.
  replace (take (length (buf ++ [x]) - 1) (buf ++ [x])) with buf by (rewrite take_app_length'; [reflexivity|len]).
  rewrite u8_small by apply (masked_octet x u Hx Hu).
  apply (emits_seq (fun K C k => put_bytes buf k) (fun K C k => put_bytes [x .& used_mask u] k)); apply emits_bytes.
Qed.

Lemma body_octets_mask buf u : mask_last (body_octets buf u) u = mask_last buf u /\ length (body_octets buf u) = length buf.
Proof.
  unfold body_octets. destruct (_ && _); [|auto]. destruct buf as [|x buf _] using rev_ind; [auto|].
  rewrite !mask_last_snoc. split; [|len]. now rewrite <- Z.land_assoc, Z.land_diag.
Qed.

Section BitStringOerWire.
Context {T : Target} {A : Allocator}.

(** The decoder on a body of the announced length. *)
Lemma oer_bits_finish consumed buf u rest :
  octets buf -> 0 <= u <= 7 -> (buf = [] -> u = 0) -> serves A (Z.of_nat (length buf) + 1) ->
  (if Z.of_nat (length (body_octets buf u ++ rest)) <? Z.of_nat (length buf) then DECODE_STARVED
   else if malloc_ok (Z.of_nat (length buf) + 1)
   then RC_OK (consumed + Z.of_nat (length buf))
          (mk_bit_string (Some (mask_last (take (Z.to_nat (Z.of_nat (length buf))) (body_octets buf u ++ rest)) u)) u)
   else DECODE_FAILED) =
  RC_OK (consumed + Z.of_nat (length buf))
    (mk_bit_string (Some (bit_octets (take (8 * length buf - Z.to_nat u) (bytes_bits buf)))) u).
Proof.
  intros Hb Hu Hn HA. destruct (body_octets_mask buf u) as [Em El].
  rewrite (proj2 (Z.ltb_ge _ _)) by (len). rewrite HA by lia.
  rewrite Nat2Z.id, take_app_length' by exact (eq_sym El). now rewrite Em, mask_last_bits.
Qed.

Lemma pack_string_bits st : bit_string_ok st -> mk_bit_string (Some (bit_octets (string_bits st))) (bits_unused st) = pack (string_bits st).
Proof.
  intros Hok. unfold pack. f_equal. destruct (string_bits_length st Hok) as (El & _ & _).
  destruct Hok as (_ & Hu & _). unfold padding. rewrite <- El.
  rewrite <- Zminus_mod_idemp_r.
  replace ((8 * Z.of_nat (length (default [] (bs_buf st))) - bits_unused st) mod 8) with ((- bits_unused st) mod 8)
    by (replace (8 * _ - bits_unused st) with (- bits_unused st + Z.of_nat (length (default [] (bs_buf st))) * 8) by lia; now rewrite Z.mod_add by lia).
  rewrite Zmod_mod, Zminus_mod_idemp_r. replace (8 - - bits_unused st) with (bits_unused st + 1 * 8) by lia.
  rewrite Z.mod_add, Z.mod_small by lia. lia.
Qed.

Lemma BIT_STRING_decode_oer_fixed td_cs cs sptr st :
  bit_string_ok st -> have_struct sptr (struct_size asn_SPC_BIT_STRING_specs) = true ->
  serves A (Z.of_nat (length (default [] (bs_buf st))) + 1) ->
  oer_size cs td_cs = Z.of_nat (length (string_bits st)) ->
  parses (BIT_STRING_decode_oer td_cs cs sptr) (body_octets (default [] (bs_buf st)) (bits_unused st)) (pack (string_bits st)).
Proof.
  intros Hok Hst HA Hct rest. destruct (string_bits_length st Hok) as (El & _ & _). pose proof (pack_string_bits st Hok) as Ep.
  destruct Hok as (Hb & Hu & Hn). unfold BIT_STRING_decode_oer. rewrite Hst, Hct. cbn [negb].
  rewrite (proj2 (Z.leb_le 0 _)) by lia. pose proof (f_equal bits_unused Ep) as Eu. cbn [bits_unused pack] in Eu.
  rewrite <- padding_value, <- Eu.
  assert ((Z.of_nat (length (string_bits st)) + 7) ≫ 3 = Z.of_nat (length (default [] (bs_buf st)))) as ->.
  { rewrite shiftr3, <- El. symmetry. apply (Z.div_unique _ 8 _ (7 - bits_unused st)); lia. }
  rewrite oer_bits_finish by assumption. f_equal.
  - destruct (body_octets_mask (default [] (bs_buf st)) (bits_unused st)). lia.
  - exact Ep.
Qed.

Lemma BIT_STRING_decode_oer_counted td_cs cs sptr st :
  bit_string_ok st -> have_struct sptr (struct_size asn_SPC_BIT_STRING_specs) = true ->
  Z.of_nat (length (default [] (bs_buf st))) + 1 <= RSIZE_MAX ->
  serves A (Z.of_nat (length (default [] (bs_buf st))) + 1) -> oer_size cs td_cs < 0 ->
  parses (BIT_STRING_decode_oer td_cs cs sptr)
    (with_length (bits_unused st :: body_octets (default [] (bs_buf st)) (bits_unused st))) (pack (string_bits st)).
Proof.
  intros Hok Hst Hr HA Hct rest. pose proof (pack_string_bits st Hok) as Ep. destruct Hok as (Hb & Hu & Hn).
  destruct (body_octets_mask (default [] (bs_buf st)) (bits_unused st)) as [_ El].
  unfold BIT_STRING_decode_oer. rewrite Hst, (proj2 (Z.leb_gt 0 _)) by lia. cbn [negb].
  unfold with_length. set (u := bits_unused st) in *. set (buf := default [] (bs_buf st)) in *.
  set (body := body_octets buf u). assert (Z.of_nat (length (u :: body)) = Z.of_nat (length buf) + 1) as EL by (cbn [length]; fold body in El; lia).
  rewrite <- app_assoc, EL, fetch_length_octets by lia. set (n := Z.of_nat (length buf) + 1) in *.
  pose proof (length_octets_pos n). rewrite (proj2 (Z.eqb_neq _ 0)), (proj2 (Z.ltb_ge _ 0)) by lia.
  rewrite Nat2Z.id, drop_app_length.
  assert (1 <= n <= Z.of_nat (length ((u :: body) ++ rest))) as Hn1 by (rewrite length_app; subst n; lia).
  rewrite (proj2 (Z.ltb_ge n 1)), (proj2 (Z.ltb_ge _ n)) by lia.
  change (octet_at ((u :: body) ++ rest) 0) with u. rewrite land_lnot7, (proj2 (Z.leb_le u 7)) by lia. cbn [negb].
  change (drop 1 ((u :: body) ++ rest)) with (body ++ rest). replace (n - 1) with (Z.of_nat (length buf)) by lia.
  unfold body. rewrite oer_bits_finish by assumption. f_equal; [|exact Ep]. fold body. rewrite length_app. lia.
Qed.

Lemma within_BIT_STRING td_cs cs sptr ptr : octets ptr -> within ptr (BIT_STRING_decode_oer td_cs cs sptr ptr).
Proof.
  intros Hp. unfold BIT_STRING_decode_oer. destruct (negb _); [cbn; lia|]. cbv zeta.
  destruct (Z.leb_spec 0 (oer_size cs td_cs)) as [H0|H0].
  - assert (0 <= (oer_size cs td_cs + 7) ≫ 3) by (apply Z.shiftr_nonneg; lia).
    destruct (Z.ltb_spec (Z.of_nat (length ptr)) ((oer_size cs td_cs + 7) ≫ 3)); [cbn; lia|].
    destruct (malloc_ok _); cbn [within DECODE_FAILED]; lia.
  - pose proof (fetch_length_bound ptr Hp) as Hb. destruct (oer_fetch_length ptr) as [n len].
    destruct (Z.eqb_spec n 0); [cbn; lia|]. destruct (Z.ltb_spec n 0); [cbn; lia|].
    destruct (Z.ltb_spec len 1); [cbn; lia|].
    destruct (Z.ltb_spec (Z.of_nat (length (drop (Z.to_nat n) ptr))) len) as [|Hl]; [cbn; lia|].
    destruct (negb _); [cbn; lia|]. destruct (Z.ltb_spec (Z.of_nat (length (drop 1 (drop (Z.to_nat n) ptr)))) (len - 1)); [cbn; lia|].
    rewrite length_drop in Hl. destruct (malloc_ok _); cbn [within DECODE_FAILED]; lia.
Qed.
End BitStringOerWire.

(** ** The loop over the trailing zeros *)

Lemma trailing_zeros_run {K} {C : Consumer K} {S : Sink K} {TS : TotalSink K} turns z : forall encoded (k : K),
  0 < z -> exists k', put_trailing_zeros turns z encoded k = Running (encoded + Z.of_nat turns * Z.min z 16) k'.
Proof.
  induction turns as [|turns IH]; intros encoded k Hz; cbn [put_trailing_zeros]; rewrite (proj2 (Z.leb_gt z 0)) by lia.
  - exists k. f_equal. lia.
  - cbv zeta. replace (if z <? 16 then z else 16) with (Z.min z 16) by (destruct (Z.ltb_spec z 16); lia).
    destruct (consume_total k (replicate (Z.to_nat (Z.min z 16)) 0)) as (k1 & ->).
    destruct (IH (encoded + Z.min z 16) k1 Hz) as (k' & ->). exists k'. f_equal. lia.
Qed.

(** * Order *)

Fixpoint drop_zeros (l : list Z) : list Z :=
  match l with
  | [] => []
  | x :: l' => if x =? 0 then drop_zeros l' else l
  end.

(** An octet string without its trailing zero octets. *)
Definition strip (buf : list Z) : list Z := rev (drop_zeros (rev buf)).

Lemma rev_replicate {X} k (x : X) : rev (replicate k x) = replicate k x.
Proof. rewrite rev_alt. apply reverse_replicate. Qed.

Lemma drop_zeros_zeros k l : drop_zeros (replicate k 0 ++ l) = drop_zeros l.
Proof. induction k as [|k IH]; [reflexivity|]. exact IH. Qed.

Lemma strip_zeros buf k : strip (buf ++ replicate k 0) = strip buf.
Proof. unfold strip. now rewrite rev_app_distr, rev_replicate, drop_zeros_zeros. Qed.

Lemma strip_spec buf : exists k, buf = strip buf ++ replicate k 0.
Proof.
  unfold strip. assert (forall l, exists k, l = replicate k 0 ++ drop_zeros l) as H.
  { induction l as [|x l (k & IH)]; [now exists 0%nat|]. cbn [drop_zeros]. destruct (Z.eqb_spec x 0) as [->|Hx].
    - exists (Datatypes.S k). cbn [replicate app]. now rewrite <- IH.
    - now exists 0%nat. }
  destruct (H (rev buf)) as (k & E). exists k. apply (f_equal (@rev Z)) in E.
  now rewrite rev_involutive, rev_app_distr, rev_replicate in E.
Qed.

Lemma skip_back_drop l :
  match skip_back l with
  | [] => l = []
  | b :: before => if b =? 0 then before = [] /\ drop_zeros l = [] else drop_zeros l = b :: before
  end.
Proof.
  induction l as [|x [|y l] IH]; [reflexivity| |].
  - cbn [skip_back drop_zeros]. now destruct (x =? 0) eqn:E.
  - cbn [skip_back] in *. destruct (x =? 0) eqn:E.
    + cbn [drop_zeros] in *. rewrite E. destruct (match l with [] => _ | _ :: _ => _ end); [discriminate IH|exact IH].
    + cbn [drop_zeros]. now rewrite E.
Qed.

(** The unused bits of a string without trailing zeros. *)
Definition strip_unused (buf : list Z) : Z := match drop_zeros (rev buf) with [] => 0 | b :: _ => octet_unused b end.

Lemma compactify_strip st :
  bit_string_ok st ->
  default [] (bs_buf (BIT_STRING__compactify st)) = strip (default [] (bs_buf st)) /\
  bits_unused (BIT_STRING__compactify st) = strip_unused (default [] (bs_buf st)).
Proof.
  intros (_ & _ & Hn). unfold BIT_STRING__compactify, strip, strip_unused. set (buf := default [] (bs_buf st)) in *.
  pose proof (skip_back_drop (rev buf)) as H. destruct (skip_back (rev buf)) as [|b before].
  - rewrite H. cbn [drop_zeros rev]. fold buf. apply (f_equal (@rev Z)) in H. rewrite rev_involutive in H. cbn [rev] in H.
    auto.
  - destruct (b =? 0); [destruct H as [-> ->]|rewrite H]; auto.
Qed.

Lemma compare_strip a b :
  bit_string_ok a -> bit_string_ok b ->
  BIT_STRING_compare a b = dictionary (strip (default [] (bs_buf a))) (strip (default [] (bs_buf b))).
Proof.
  intros Ha Hb. unfold BIT_STRING_compare. destruct (compactify_strip a Ha) as [-> ->], (compactify_strip b Hb) as [-> ->].
  set (sa := strip _). set (sb := strip (default [] (bs_buf b))). rewrite <- compare_dictionary. cbv zeta.
  set (ret := memcmp _ _). assert (ret = -1 \/ ret = 0 \/ ret = 1) as Hr.
  { subst ret. generalize (take (Nat.min (length sa) (length sb)) sa) (take (Nat.min (length sa) (length sb)) sb).
    induction l as [|x l IH]; intros [|y l']; cbn [memcmp]; auto. destruct (x <? y), (y <? x); auto. }
  destruct (Z.eqb_spec ret 0) as [E|E]; [|destruct Hr as [-> | [-> | ->]]; auto; congruence].
  destruct (Nat.ltb_spec (length sa) (length sb)); [reflexivity|]. destruct (Nat.ltb_spec (length sb) (length sa)); [reflexivity|].
  assert (sa = sb) as Es.
  { apply dictionary_eq. rewrite <- compare_dictionary. cbv zeta. fold ret. rewrite E. cbn [Z.eqb].
    now rewrite (proj2 (Nat.ltb_ge _ _)), (proj2 (Nat.ltb_ge _ _)) by assumption. }
  assert (strip_unused (default [] (bs_buf a)) = strip_unused (default [] (bs_buf b))) as ->.
  { unfold strip_unused. unfold sa, sb, strip in Es. apply (f_equal (@rev Z)) in Es. rewrite !rev_involutive in Es. now rewrite Es. }
  now rewrite Z.ltb_irrefl.
Qed.

(** Bit strings that differ only in trailing zeros: X.680 #22.7. *)
Definition same_bits (l l' : list bool) : Prop := forall i, nth i l false = nth i l' false.

#[export] Instance same_bits_equivalence : Equivalence same_bits.
Proof. split; unfold same_bits; [easy|easy|congruence]. Qed.

Lemma same_bits_zeros l k : same_bits (l ++ replicate k false) l.
Proof.
  intros i. destruct (Nat.lt_ge_cases i (length l)) as [H|H]; [now rewrite app_nth1|].
  rewrite app_nth2, (nth_overflow l) by assumption. generalize (i - length l)%nat as j. clear.
  induction k as [|k IH]; intros [|j]; try reflexivity. apply IH.
Qed.

(** The unused bits of the last octet are zero. *)
Definition clean (st : BIT_STRING_t) : Prop :=
  bytes_bits (default [] (bs_buf st)) = string_bits st ++ replicate (Z.to_nat (bits_unused st)) false.

Lemma bytes_bits_zeros k : bytes_bits (replicate k 0) = replicate (8 * k) false.
Proof.
  induction k as [|k IH]; [reflexivity|]. replace (8 * Datatypes.S k)%nat with (8 + 8 * k)%nat by lia.
  rewrite replicate_add, <- IH. reflexivity.
Qed.

Lemma strip_same_bits a b :
  octets a -> octets b -> (strip a = strip b <-> same_bits (bytes_bits a) (bytes_bits b)).
Proof.
  intros Ha Hb. split.
  - intros E. destruct (strip_spec a) as (j & Ea), (strip_spec b) as (k & Eb). rewrite Ea, Eb, E.
    rewrite !bytes_bits_app, !bytes_bits_zeros. now rewrite !same_bits_zeros.
  - intros E. set (n := Nat.max (length a) (length b)).
    rewrite <- (strip_zeros a (n - length a)), <- (strip_zeros b (n - length b)). f_equal.
    assert (forall k, octets (replicate k 0)) as Hz by (intros; apply Forall_replicate; unfold octet; lia).
    apply bytes_bits_inj; [apply octets_app; auto|apply octets_app; auto|].
    apply nth_ext with (d := false) (d' := false); [rewrite !length_bytes_bits, !length_app, !length_replicate; lia|].
    intros i _. revert i. change (same_bits (bytes_bits (a ++ replicate (n - length a) 0)) (bytes_bits (b ++ replicate (n - length b) 0))).
    rewrite !bytes_bits_app, !bytes_bits_zeros. now rewrite !same_bits_zeros.
Qed.

Lemma clean_same_bits st : clean st -> same_bits (bytes_bits (default [] (bs_buf st))) (string_bits st).
Proof. intros ->. apply same_bits_zeros. Qed.

Lemma pack_clean l : clean (pack l).
Proof.
  unfold clean. rewrite string_bits_pack. unfold pack. cbn [bs_buf bits_unused default from_option id]. unfold id.
  now rewrite bytes_bits_octets, Nat2Z.id.
Qed.

(** The octet that ends a compact string keeps no trailing zero bit. *)
Definition tight (x : Z) : bool :=
  (x =? 0) || ((0 <=? octet_unused x) && (octet_unused x <=? 7) && (x mod 2 ^ octet_unused x =? 0) && Z.testbit x (octet_unused x)).

Lemma octet_unused_tight x : octet x -> tight x = true.
Proof. intros Hx. apply (small_cases tight 256); [vm_compute; reflexivity|exact Hx]. Qed.

(** * Properties *)

(** UPER of BIT STRING, X.691 #16: for every consistent structure and
    size constraint, BIT_STRING_encode_uper writes [bit_string_bits] (the
    bits filled with zeros up to the lower bound, behind their count) or
    fails when they are too many; BIT_STRING_decode_uper reads these bits
    back, and the structure is the packed bits whenever it was new or had no
    unused bits. *)
Theorem BIT_STRING_uper_roundtrip {T : Target} {A : Allocator} {K} {C : Consumer K} {S : Sink K} {TS : TotalSink K}
    specs td_cs cs sptr st :
  let csiz := size_constraint (or_else cs td_cs) in
  let l := string_bits st in
  subvariant (bit_specs specs) = ASN_OSUBV_BIT -> size_ok csiz -> bit_string_ok st ->
  have_struct sptr (struct_size (bit_specs specs)) = true -> serves A (bit_room csiz l) ->
  match bit_string_bits csiz l with
  | Some enc =>
      encodes (fun po : asn_bit_outp K => BIT_STRING_encode_uper specs td_cs cs (Some st) po) enc (ENCODED_OK 0) /\
      decodes (BIT_STRING_decode_uper specs td_cs cs sptr) enc (RC_OK (bits_consumed csiz l) (decoded_string csiz sptr l)) /\
      (old_unused sptr = 0 ->
         decoded_string csiz sptr l = pack (filled csiz l) /\ string_bits (decoded_string csiz sptr l) = filled csiz l)
  | None =>
      forall po : asn_bit_outp K, po_ok po -> fst (BIT_STRING_encode_uper specs td_cs cs (Some st) po) = ENCODE_FAILED
  end.
Proof.
  intros csiz l Hv Hsz Hok Hst HA.
  pose proof (BIT_STRING_encode_uper_ok (K := K) specs td_cs cs st Hv Hsz Hok) as He. fold csiz l in He.
  destruct (bit_string_bits csiz l) as [enc|] eqn:E; [|intros po Hpo; exact (He po Hpo fits_total)]. split; [exact He|].
  split; [now apply BIT_STRING_decode_uper_ok|]. intros E0. rewrite decoded_string_fresh by assumption.
  split; [reflexivity|apply string_bits_pack].
Qed.

(** BIT STRING (SIZE (4..20, ...)) *)
Definition example_bits : asn_per_constraints :=
  {| pc_value := mk_per_constraint APC_UNCONSTRAINED (-1) (-1) 0 0;
     pc_size := mk_per_constraint (APC_CONSTRAINED .| APC_EXTENSIBLE) 5 5 4 20; value2code := None; code2value := None |}.

Lemma BIT_STRING_uper_roundtrip_witness :
  let st := mk_bit_string (Some [202; 64]) 6 in
  let enc := [false] ++ bits_of 5 6 ++ string_bits st in
  encodes (fun po : asn_bit_outp ByteBuffer => @BIT_STRING_encode_uper LP64 _ _ None None (Some example_bits) (Some st) po)
    enc (ENCODED_OK 0) /\
  decodes (@BIT_STRING_decode_uper LP64 (fun _ => true) None None (Some example_bits) None) enc (RC_OK 0 st).
Proof.
  pose proof (@BIT_STRING_uper_roundtrip LP64 (fun _ => true) ByteBuffer _ _ _ None None (Some example_bits) None
    (mk_bit_string (Some [202; 64]) 6)) as H. cbv zeta in H.
  destruct H as (H1 & H2 & _).
  - reflexivity.
  - right. cbn. lia.
  - split; [repeat constructor; cbn; lia|]. split; [cbn; lia|discriminate].
  - reflexivity.
  - intros ? _. reflexivity.
  - split; [exact H1|exact H2].
Defined.

(** On arbitrary data BIT_STRING_decode_uper stays inside the data and
    moves forward only, BIT_STRING_decode_oer reports no more octets than it
    was given, and a size constraint without extension bounds the octets the
    UPER decoder stores. *)
Theorem BIT_STRING_decoders_safe {T : Target} {A : Allocator} specs td_cs cs sptr pd :
  pd_ok pd ->
  follows pd (BIT_STRING_decode_uper specs td_cs cs sptr pd) /\
  (let csiz := size_constraint (or_else cs td_cs) in
   0 <= effective_bits csiz <= 16 -> 0 <= upper_bound csiz -> has csiz APC_EXTENSIBLE = false ->
   match fst (bit_string_decode_body csiz sptr pd) with
   | RC_OK _ st => Z.of_nat (length (default [] (bs_buf st))) <= (upper_bound csiz + 7) / 8
   | _ => True
   end) /\
  (forall o_td o_cs ptr, octets ptr -> within ptr (BIT_STRING_decode_oer o_td o_cs sptr ptr)).
Proof.
  intros Hok. split; [now apply follows_BIT_STRING|]. split; [intros; now apply bit_body_length|].
  intros. now apply within_BIT_STRING.
Qed.

Lemma BIT_STRING_decoders_safe_witness :
  let pd := mk_bit_data [130; 17; 201; 33] 2 30 2 in
  follows pd (@BIT_STRING_decode_uper LP64 (fun _ => true) None None (Some example_bits) None pd).
Proof.
  apply (@BIT_STRING_decoders_safe LP64 (fun _ => true) None None (Some example_bits) None (mk_bit_data [130; 17; 201; 33] 2 30 2)).
  unfold pd_ok; cbn. repeat split; try lia. repeat constructor; lia.
Defined.

(** OER of BIT STRING, X.696 #13: without a fixed size
    BIT_STRING_encode_oer emits the length, the number of unused bits and the
    octets, and BIT_STRING_decode_oer reads the packed bits back; with a
    fixed size the octets alone carry the bits.  A string with more octets
    than the fixed size is refused.  With fewer octets the loop that appends
    zeros never ends: it does not return after any number of rounds, each
    emitting up to sixteen more octets. *)
Theorem BIT_STRING_oer {T : Target} {A : Allocator} td_cs cs sptr st :
  let buf := default [] (bs_buf st) in
  let ct_size := oer_size cs td_cs in
  let ct_bytes := (ct_size + 7) / 8 in
  bit_string_ok st -> have_struct sptr (struct_size asn_SPC_BIT_STRING_specs) = true ->
  Z.of_nat (length buf) + 1 <= RSIZE_MAX -> serves A (Z.of_nat (length buf) + 1) ->
  (ct_size < 0 -> exists f : oer_encoder,
     (forall K (C : Consumer K) k turns, BIT_STRING_encode_oer turns td_cs cs (Some st) k = Returned (f K C k)) /\
     emits f (with_length (bits_unused st :: body_octets buf (bits_unused st))) /\
     parses (BIT_STRING_decode_oer td_cs cs sptr) (with_length (bits_unused st :: body_octets buf (bits_unused st)))
       (pack (string_bits st))) /\
  (0 <= ct_size -> Z.of_nat (length buf) = ct_bytes -> exists f : oer_encoder,
     (forall K (C : Consumer K) k turns, BIT_STRING_encode_oer turns td_cs cs (Some st) k = Returned (f K C k)) /\
     emits f (body_octets buf (bits_unused st)) /\
     (ct_size = Z.of_nat (length (string_bits st)) ->
        parses (BIT_STRING_decode_oer td_cs cs sptr) (body_octets buf (bits_unused st)) (pack (string_bits st)))) /\
  (0 <= ct_size -> ct_bytes < Z.of_nat (length buf) ->
     forall K (C : Consumer K) (k : K) turns, BIT_STRING_encode_oer turns td_cs cs (Some st) k = Returned None) /\
  (0 <= ct_size -> Z.of_nat (length buf) < ct_bytes ->
     forall K (C : Consumer K) (S : Sink K) (TS : TotalSink K) (k : K) turns, exists k',
       BIT_STRING_encode_oer turns td_cs cs (Some st) k =
         Running (Z.of_nat (length buf) + Z.of_nat turns * Z.min (ct_bytes - Z.of_nat (length buf)) 16) k').
Proof.
  intros buf ct_size ct_bytes Hok Hst Hr HA. pose proof Hok as (Hb & Hu & Hn). fold buf in Hb, Hn.
  pose proof (emits_body buf (bits_unused st) Hb Hu Hn) as He. pose proof He as (chunks & Ec & Hf).
  destruct (body_octets_mask buf (bits_unused st)) as [_ El].
  assert (negb (bits_unused st .& Z.lnot 7 =? 0) = false) as E7 by (now rewrite land_lnot7, (proj2 (Z.leb_le _ 7)) by lia).
  assert (negb (bits_unused st =? 0) && (length buf =? 0)%nat = false) as E0.
  { destruct buf; [now rewrite (Hn eq_refl)|]. cbn [length Nat.eqb]. apply andb_false_r. }
  unfold BIT_STRING_encode_oer. fold buf ct_size. rewrite E7, E0, shiftr3. fold ct_bytes. split; [|split; [|split]].
  - intros Hct. rewrite (proj2 (Z.leb_gt 0 _)) by lia.
    exists (fun K C k => enc_seq (oer_serialize_length (1 + Z.of_nat (length buf)) k)
      (fun k => enc_seq (put_bytes [u8 (bits_unused st .& 7)] k) (put_body buf (bits_unused st)))).
    split; [reflexivity|]. split; [|now apply BIT_STRING_decode_oer_counted]. unfold with_length.
    replace (Z.of_nat (length (bits_unused st :: body_octets buf (bits_unused st)))) with (1 + Z.of_nat (length buf)) by (cbn [length]; lia).
    rewrite land7, Z.mod_small, u8_small by (unfold octet; lia).
    apply (emits_seq (fun K C k => oer_serialize_length _ k) (fun K C k => enc_seq (put_bytes [bits_unused st] k) (put_body buf (bits_unused st)))
      _ ([bits_unused st] ++ body_octets buf (bits_unused st))); [apply emits_length|].
    apply (emits_seq (fun K C k => put_bytes [bits_unused st] k) (fun K C k => put_body buf (bits_unused st) k)); [apply emits_bytes|exact He].
  - intros Hct Hlen. rewrite (proj2 (Z.leb_le 0 _)), (proj2 (Z.ltb_ge ct_bytes _)) by lia.
    exists (fun K C k => put_body buf (bits_unused st) k). split.
    + intros K C k turns. replace (ct_bytes - Z.of_nat (length buf)) with 0 by lia.
      destruct (put_body buf (bits_unused st) k) as [[n k1]|]; [|reflexivity]. now destruct turns.
    + split; [exact He|]. intros Hbits. now apply BIT_STRING_decode_oer_fixed.
  - intros Hct Hlen K C k turns. now rewrite (proj2 (Z.leb_le 0 _)), (proj2 (Z.ltb_lt ct_bytes _)) by lia.
  - intros Hct Hlen K C S TS k turns. rewrite (proj2 (Z.leb_le 0 _)), (proj2 (Z.ltb_ge ct_bytes _)) by lia.
    rewrite Hf. assert (exists k1, feed k chunks = Some k1) as (k1 & ->).
    { clear -TS. revert k. induction chunks as [|c chunks IH]; intros k; [now exists k|]. cbn [feed].
      destruct (consume_total k c) as (k' & ->). apply IH. }
    cbn [option_map]. rewrite El. apply trailing_zeros_run. lia.
Qed.

Lemma BIT_STRING_oer_witness :
  let st := mk_bit_string (Some [202; 64]) 6 in
  parses (@BIT_STRING_decode_oer LP64 (fun _ => true) None None None) [3; 6; 202; 64] st /\
  exists k', @BIT_STRING_encode_oer LP64 _ write_buffer 1000 None
      (Some {| oc_value := {| width := 0; positive := false |}; oc_size := 24 |}) (Some st) [] = Running 1002 k'.
Proof.
  pose proof (@BIT_STRING_oer LP64 (fun _ => true) None None None (mk_bit_string (Some [202; 64]) 6)) as H.
  pose proof (@BIT_STRING_oer LP64 (fun _ => true) None (Some {| oc_value := {| width := 0; positive := false |}; oc_size := 24 |})
    None (mk_bit_string (Some [202; 64]) 6)) as H'. cbv zeta in H, H'.
  assert (bit_string_ok (mk_bit_string (Some [202; 64]) 6)) as Hok
    by (split; [repeat constructor; cbn; lia|]; split; [cbn; lia|discriminate]).
  specialize (H Hok eq_refl ltac:(vm_compute; discriminate) ltac:(intros ? _; reflexivity)).
  specialize (H' Hok eq_refl ltac:(vm_compute; discriminate) ltac:(intros ? _; reflexivity)).
  split.
  - destruct (proj1 H eq_refl) as (f & _ & _ & Hp). exact Hp.
  - destruct H' as (_ & _ & _ & H'). apply (H' ltac:(vm_compute; discriminate) eq_refl ByteBuffer write_buffer _ _ [] 1000%nat).
Defined.

(** BIT_STRING_compare on consistent structures is the dictionary order
    of the octets without trailing zeros, and is zero exactly for bit strings
    that differ in trailing zero bits only (X.680 #22.7), whatever their
    lengths; BIT_STRING__compactify ends a string at its last one bit; a copy
    has the same octets and unused bits. *)
Theorem BIT_STRING_compare_values {A : Allocator} a b :
  bit_string_ok a -> bit_string_ok b ->
  BIT_STRING_compare a b = dictionary (strip (default [] (bs_buf a))) (strip (default [] (bs_buf b))) /\
  (clean a -> clean b -> (BIT_STRING_compare a b = 0 <-> same_bits (string_bits a) (string_bits b))) /\
  (let c := BIT_STRING__compactify a in
   default [] (bs_buf c) = strip (default [] (bs_buf a)) /\
   forall x before, strip (default [] (bs_buf a)) = before ++ [x] ->
     x <> 0 /\ 0 <= bits_unused c <= 7 /\ x mod 2 ^ bits_unused c = 0 /\ Z.testbit x (bits_unused c) = true) /\
  (forall specs old copy, BIT_STRING_copy specs old (Some a) = (0, Some copy) ->
     bits_unused copy = bits_unused a /\ default [] (bs_buf copy) = default [] (bs_buf a)).
Proof.
  intros Ha Hb. pose proof (compare_strip a b Ha Hb) as Hc. split; [exact Hc|]. split; [|split].
  - intros Ca Cb. rewrite Hc, dictionary_eq. rewrite strip_same_bits by (apply Ha || apply Hb).
    now rewrite (clean_same_bits a Ca), (clean_same_bits b Cb).
  - destruct (compactify_strip a Ha) as [Es Eu]. split; [exact Es|]. intros x before E. rewrite Eu.
    unfold strip in E. apply (f_equal (@rev Z)) in E. rewrite rev_involutive, rev_app_distr in E. cbn [rev app] in E.
    unfold strip_unused. rewrite E.
    assert (octet x) as Hx.
    { pose proof (strip_spec (default [] (bs_buf a))) as (k & Ek). destruct Ha as (Ho & _). rewrite Ek in Ho.
      apply octets_app in Ho as [Ho _]. unfold strip in Ho. rewrite E in Ho. cbn [rev] in Ho. apply octets_app in Ho as [_ Ho].
      now apply octets_cons in Ho as [Ho _]. }
    assert (x <> 0) as Hx0.
    { intros ->. assert (forall l r, drop_zeros l <> 0 :: r) as Hd
        by (induction l as [|y l IH]; intros r; cbn; [discriminate|]; destruct (Z.eqb_spec y 0); [apply IH|congruence]).
      now apply Hd in E. }
    pose proof (octet_unused_tight x Hx) as Ht. unfold tight in Ht. rewrite (proj2 (Z.eqb_neq x 0) Hx0) in Ht. cbn [orb] in Ht.
    rewrite !andb_true_iff in Ht. destruct Ht as [[[H1 H2] H3] H4]. bool_hyps. repeat split; auto.
  - intros specs old copy. unfold BIT_STRING_copy.
    destruct old as [old|]; [|destruct (malloc_ok (struct_size specs)); [|discriminate]];
      (destruct (malloc_ok _); [|discriminate]); intros [= <-]; auto.
Qed.

Lemma BIT_STRING_compare_values_witness :
  BIT_STRING_compare (mk_bit_string (Some [160]) 4) (mk_bit_string (Some [160; 0; 0]) 1) = 0 /\
  same_bits (string_bits (mk_bit_string (Some [160]) 4)) (string_bits (mk_bit_string (Some [160; 0; 0]) 1)).
Proof.
  split; [reflexivity|].
  apply (@BIT_STRING_compare_values (fun _ => true) (mk_bit_string (Some [160]) 4) (mk_bit_string (Some [160; 0; 0]) 1));
    try reflexivity; (split; [repeat constructor; cbn; lia|]; split; [cbn; lia|discriminate]).
Defined.
