(* ===== verification/StringCodec.v ===== *)
(** OCTET STRING and BIT STRING keep the promises of [UperCodec], so the
    theorems of UperCodec.v on complete encodings hold for them. *)

From S2P Require Import Prelude Runtime Constraints BitData BitOutp UperSupport Integer IntegerUper OerSupport IntegerOer UperCodec OctetString BitString.

Section StringCodecs.
Context {T : Target} {A : Allocator}.

(** One octet is one character. *)
Lemma chars_bytes_octets_1 bs : octets bs -> chars_bytes 1 bs = bs.
Proof.
  induction 1 as [|x bs Hx Hbs IH]; [reflexivity|]. unfold chars_bytes in *. cbn [flat_map]. rewrite IH.
  change (be_bytes 1 x ++ bs) with (u8 x :: bs). now rewrite u8_small.
Qed.

Lemma is_char_octets bs : octets bs -> Forall (is_char 1) bs.
Proof. intros H. exact H. Qed.

(** OCTET STRING and the character strings of one octet per character. *)
Definition OCTET_STRING_codec (specs : option asn_OCTET_STRING_specifics) (td_cs : option asn_per_constraints)
  (Hv : bytes_per_char (subvariant (os_specs specs)) = Some 1%nat) (Hok : string_ok 1 (constraints_of td_cs) td_cs)
  (Hst : malloc_ok (struct_size (os_specs specs)) = true) : UperCodec (option (list Z)).
Proof.
  refine {|
    uper_enc := fun st K C => OCTET_STRING_encode_uper specs td_cs None (Some st);
    uper_dec := fun _ => OCTET_STRING_decode_uper specs td_cs None None;
    uper_valid := fun st => exists bs, st = Some bs /\ octets bs /\ Z.of_nat (length bs) < 2 ^ 31 /\
      serves A (string_room 1 (pc_size (constraints_of td_cs)) bs) /\ octet_string_bits 1 (constraints_of td_cs) td_cs bs <> None;
    uper_bits := fun st => default [] (octet_string_bits 1 (constraints_of td_cs) td_cs (default [] st))
  |}.
  - intros st K C S TS (bs & -> & Hb & Hl & _ & He). exists 0.
    pose proof (OCTET_STRING_encode_uper_ok (K := K) specs td_cs None 1 bs Hv Hok (is_char_octets bs Hb) ltac:(lia)) as H.
    cbn [or_else] in H. rewrite chars_bytes_octets_1 in H by assumption. cbn [default from_option id].
    destruct (octet_string_bits _ _ _ _); [exact H|congruence].
  - intros _ st (bs & -> & Hb & Hl & HA & He). cbn [default from_option id].
    destruct (octet_string_bits 1 _ td_cs bs) as [enc|] eqn:E; [|congruence].
    pose proof (OCTET_STRING_decode_uper_ok specs td_cs None 1 None bs enc Hv Hok (is_char_octets bs Hb) Hst HA E) as H.
    rewrite chars_bytes_octets_1 in H by assumption. eauto.
  - auto with follows.
Defined.

(** BIT STRING; the values are packed and reach the lower bound. *)
Definition BIT_STRING_codec (specs : option asn_OCTET_STRING_specifics) (td_cs : option asn_per_constraints)
  (Hv : subvariant (bit_specs specs) = ASN_OSUBV_BIT) (Hok : size_ok (size_constraint td_cs))
  (Hst : malloc_ok (struct_size (bit_specs specs)) = true) : UperCodec BIT_STRING_t.
Proof.
  refine {|
    uper_enc := fun st K C => BIT_STRING_encode_uper specs td_cs None (Some st);
    uper_dec := fun _ => BIT_STRING_decode_uper specs td_cs None None;
    uper_valid := fun st => st = pack (string_bits st) /\ filled (size_constraint td_cs) (string_bits st) = string_bits st /\
      serves A (bit_room (size_constraint td_cs) (string_bits st)) /\ bit_string_bits (size_constraint td_cs) (string_bits st) <> None;
    uper_bits := fun st => default [] (bit_string_bits (size_constraint td_cs) (string_bits st))
  |}.
  - intros st K C S TS (Hp & _ & _ & He). exists 0.
    assert (bit_string_ok st) as Hst_ok by (rewrite Hp; apply pack_ok).
    pose proof (BIT_STRING_encode_uper_ok (K := K) specs td_cs None st Hv Hok Hst_ok) as H. cbn [or_else] in H.
    destruct (bit_string_bits _ _); [exact H|congruence].
  - intros _ st (Hp & Hf & HA & He).
    destruct (bit_string_bits (size_constraint td_cs) (string_bits st)) as [enc|] eqn:E; [|congruence].
    pose proof (BIT_STRING_decode_uper_ok specs td_cs None None (string_bits st) enc Hv Hok Hst HA E) as H. cbn [or_else] in H.
    rewrite decoded_string_fresh, Hf, <- Hp in H by reflexivity. eexists. exact H.
  - auto with follows.
Defined.
End StringCodecs.

(** The constraints of an unconstrained OCTET STRING are well formed. *)
Lemma unconstrained_string_ok {T : Target} : string_ok 1 (constraints_of None) None.
Proof.
  split; [left; reflexivity|]. split; [|discriminate]. split; [discriminate|].
  assert (char_coding 1 (unit_bits_of (pc_value (constraints_of None)) 1) (char_lb (pc_value (constraints_of None)))
    (char_ub (pc_value (constraints_of None))) None = Copy) as ->; [|exact I].
  unfold char_coding. now destruct (as_is _ _); (destruct word_bits_cases as [E|E]; unfold char_lb; rewrite ?E; vm_compute).
Qed.

(** An octet string in a buffer and back. *)
Lemma octet_string_complete_example :
  let U := @OCTET_STRING_codec LP64 (fun _ => true) None None eq_refl unconstrained_string_ok eq_refl in
  @uper_encode ByteBuffer write_buffer (Some (@uper_enc _ U (Some [1; 2; 3]))) (replicate 32 0) [] = Some (32, [3; 1; 2; 3]) /\
  uper_decode_complete None (Some (@uper_dec _ U)) [3; 1; 2; 3] = RC_OK 4 (Some [1; 2; 3]).
Proof. split; vm_compute; reflexivity. Qed.
