(* ===== verification/SetOf.v ===== *)
(** The arrays behind SET OF and SEQUENCE OF: asn_SET_OF.c,
    asn_SEQUENCE_OF.c, SET_OF_copy of constr_SET_OF.c (which is also the copy
    function of SEQUENCE OF) and SEQUENCE_OF_compare of constr_SEQUENCE_OF.c,
    all under vanetza/asn1/support/. *)

From S2P Require Import Prelude Runtime Constraints IntegerUper.

(** * Arrays of pointers *)

(** asn_anonymous_set_ and asn_anonymous_sequence_: the first [count]
    pointers of [array] (a NULL pointer is nothing), the allocated [size] and
    whether the callback [free] is set. *)
Record asn_anonymous_set (X : Type) := mk_set {
  set_array : list (option X);
  set_size : Z;
  set_free : bool
}.
Arguments mk_set {X} _ _ _.
Arguments set_array {X} _.
Arguments set_size {X} _.
Arguments set_free {X} _.

(** What CALLOC leaves. *)
Definition empty_set {X} : asn_anonymous_set X := mk_set [] 0 false.

Definition set_count {X} (st : asn_anonymous_set X) : Z := Z.of_nat (length (set_array st)).

Section Sets.
Context {X : Type}.
Implicit Types (st : asn_anonymous_set X) (ptr : option X).

(** asn_set_add, also ASN_SEQUENCE_ADD: the new array, or nothing for -1,
    which leaves the old one. *)
Definition asn_set_add {T : Target} {A : Allocator} (as_ : option (asn_anonymous_set X)) ptr :
    option (asn_anonymous_set X) :=
  match as_, ptr with
  | Some st, Some _ =>
      if set_count st =? set_size st then
        let _newsize := if negb (set_size st =? 0) then swrap 32 (set_size st ≪ 1) else 4 in
        if malloc_ok (uwrap word_bits (_newsize * sizeof_word))
        then Some (mk_set (set_array st ++ [ptr]) _newsize (set_free st)) else None
      else Some (mk_set (set_array st ++ [ptr]) (set_size st) (set_free st))
  | _, _ => None
  end.

(** [if(_do_free && as->free) ptr = as->array[number]; else ptr = 0;] and,
    at the end, [if(ptr) as->free(ptr);]: the pointers handed to [free]. *)
Definition freed_element st (number : nat) (_do_free : bool) : list X :=
  if _do_free && set_free st then
    match set_array st !! number with Some (Some ptr) => [ptr] | _ => [] end
  else [].

(** asn_set_del: the last element takes the place of the deleted one.  The
    second result are the pointers handed to [free]. *)
Definition asn_set_del st (number : Z) (_do_free : bool) : asn_anonymous_set X * list X :=
  if (number <? 0) || (set_count st <=? number) then (st, [])
  else
    let ptr := freed_element st (Z.to_nat number) _do_free in
    let count := (length (set_array st) - 1)%nat in
    let last := nth count (set_array st) None in
    (mk_set (take count (<[Z.to_nat number := last]> (set_array st))) (set_size st) (set_free st), ptr).

(** asn_set_empty; an array that is NULL has no elements. *)
Definition asn_set_empty st : asn_anonymous_set X * list (option X) :=
  (mk_set [] 0 (set_free st), if set_free st then rev (set_array st) else []).

(** The loop of asn_sequence_del: [array[n] = array[n + 1]]. *)
Fixpoint shift_left (turns n : nat) (arr : list (option X)) : list (option X) :=
  match turns with
  | O => arr
  | S turns' => shift_left turns' (S n) (<[n := nth (S n) arr None]> arr)
  end.

(** asn_sequence_del: the later elements move down. *)
Definition asn_sequence_del st (number : Z) (_do_free : bool) : asn_anonymous_set X * list X :=
  if (number <? 0) || (set_count st <=? number) then (st, [])
  else
    let ptr := freed_element st (Z.to_nat number) _do_free in
    let count := (length (set_array st) - 1)%nat in
    (mk_set (take count (shift_left (count - Z.to_nat number) (Z.to_nat number) (set_array st))) (set_size st) (set_free st),
     ptr).
End Sets.

(** * Comparison *)

Section Compare.
Context {X : Type}.
(** [td->elements->type->op->compare_struct] *)
Variable compare_struct : option X -> option X -> Z.

(** The loop over the common length, and what follows it. *)
Fixpoint compare_elements (xs ys : list (option X)) : Z :=
  match xs, ys with
  | x :: xs', y :: ys' =>
      let ret := compare_struct x y in
      if negb (ret =? 0) then ret else compare_elements xs' ys'
  | [], _ :: _ => -1
  | _ :: _, [] => 1
  | [], [] => 0
  end.

(** SEQUENCE_OF_compare. *)
Definition SEQUENCE_OF_compare (a b : option (asn_anonymous_set X)) : Z :=
  match a, b with
  | Some a, Some b => compare_elements (set_array a) (set_array b)
  | None, _ => -1
  | Some _, None => 1
  end.
End Compare.

(** * Copy *)

(** The target of SET_OF_copy, where a slot below [count] that was not
    written is nothing. *)
Record copied_set (X : Type) := mk_copied { copied_slots : list (option (option X)); copied_size : Z }.
Arguments mk_copied {X} _ _.
Arguments copied_slots {X} _.
Arguments copied_size {X} _.

Definition as_copied {X} (st : asn_anonymous_set X) : copied_set X :=
  mk_copied (map Some (set_array st)) (set_size st).

Section Copy.
Context {T : Target} {A : Allocator} {X : Type}.
(** [td->elements->type->op->copy_struct] into a NULL pointer: the return
    code and the new structure. *)
Variable copy_struct : X -> Z * option X.

(** The loop of SET_OF_copy from element [i] on, into the reallocated
    array. *)
Fixpoint copy_elements (i : nat) (bs : list (option X)) (slots : list (option (option X))) : Z * list (option (option X)) :=
  match bs with
  | [] => (0, slots)
  | bmemb :: bs' =>
      match bmemb with
      | Some b =>
          let '(ret, amemb) := copy_struct b in
          if negb (ret =? 0) then (ret, slots) else copy_elements (S i) bs' (<[i := Some amemb]> slots)
      | None => copy_elements (S i) bs' (<[i := Some None]> slots)
      end
  end.

(** SET_OF_copy of a structure [b] onto the one behind [*aptr]: REALLOC keeps
    the old pointers as far as they fit, [count] is that of [b]. *)
Definition SET_OF_copy (struct_size : Z) (aptr : option (asn_anonymous_set X)) (bptr : option (asn_anonymous_set X)) :
    Z * option (copied_set X) :=
  match bptr with
  | None => (0, None)
  | Some b =>
      if negb (have_struct aptr struct_size) then (-1, None) else
      let a := default empty_set aptr in
      if negb (set_size b =? 0) then
        if malloc_ok (uwrap word_bits (set_size b * sizeof_word)) then
          let count := length (set_array b) in
          let old := take count (map Some (set_array a)) in
          let '(ret, slots) := copy_elements 0 (set_array b) (old ++ replicate (count - length old) None) in
          (ret, Some (mk_copied slots (set_size b)))
        else (-1, Some (as_copied a))
      else (0, Some (as_copied a))
  end.
End Copy.

(** * Arrays as lists *)

(** The representation: the elements fit into the allocated size, which is an
    [int]. *)
Definition set_ok {X} (st : asn_anonymous_set X) : Prop :=
  0 <= set_count st <= set_size st /\ set_size st < 2 ^ 31.

Lemma shift_left_spec {X} : forall (turns n : nat) (arr : list (option X)),
  (n + turns < length arr)%nat ->
  take (n + turns) (shift_left turns n arr) = take n arr ++ take turns (drop (S n) arr).
Proof.
  induction turns as [|turns IH]; intros n arr Hn; cbn [shift_left].
  - now rewrite Nat.add_0_r, take_0, app_nil_r.
  - replace (n + S turns)%nat with (S n + turns)%nat by lia. rewrite IH by (rewrite length_insert; lia).
    destruct (lookup_lt_is_Some_2 arr (S n)) as [x Hx]; [lia|].
    rewrite (nth_lookup_Some _ _ _ _ Hx), drop_insert_lt by lia. rewrite (drop_S _ _ _ Hx).
    rewrite (take_S_r _ n x) by (apply list_lookup_insert_eq; lia).
    rewrite take_insert_ge by lia. now rewrite <- app_assoc.
Qed.

Lemma sequence_del_array {X} (l : list (option X)) n :
  (n < length l)%nat ->
  take (length l - 1) (shift_left (length l - 1 - n) n l) = take n l ++ drop (S n) l.
Proof.
  intros Hn. replace (length l - 1)%nat with (n + (length l - 1 - n))%nat at 1 by lia.
  rewrite shift_left_spec by lia. f_equal. apply take_ge. rewrite length_drop. lia.
Qed.

Lemma set_del_array {X} (l : list (option X)) n x :
  l !! n = Some x ->
  let l' := take (length l - 1) (<[n := nth (length l - 1) l None]> l) in
  l ≡ₚ x :: l' /\ take n l' = take n l.
Proof.
  destruct l as [|last init _] using rev_ind; [discriminate|]. intros Hx. cbv zeta.
  replace (length (init ++ [last]) - 1)%nat with (length init) by (rewrite length_app; simpl; lia).
  rewrite app_nth2, Nat.sub_diag by lia. cbn [nth].
  pose proof (lookup_lt_Some _ _ _ Hx) as Hn. rewrite length_app in Hn. cbn [length] in Hn.
  destruct (decide (n < length init)%nat) as [Hlt|Hge].
  - rewrite lookup_app_l in Hx by assumption. rewrite insert_app_l, take_app_length' by (rewrite ?length_insert; lia). split.
    + rewrite insert_take_drop by assumption. rewrite <- (take_drop_middle _ _ _ Hx) at 1.
      rewrite <- app_assoc. cbn [app]. rewrite <- Permutation_middle. apply perm_skip.
      apply Permutation_app_head. symmetry. apply Permutation_cons_append.
    + rewrite take_insert_ge, take_app_le by lia. reflexivity.
  - assert (n = length init) as -> by lia. rewrite list_lookup_middle in Hx by reflexivity. injection Hx as <-.
    rewrite take_insert_ge, take_app_length by lia. split.
    + symmetry. apply Permutation_cons_append.
    + now apply take_ge.
Qed.

(** * Comparison as an order *)

(** What a compare function promises: zero for equal values only, opposite
    signs, transitivity. *)
Record compare_order {X} (cmp : X -> X -> Z) : Prop := {
  order_eq x y : cmp x y = 0 <-> x = y;
  order_sign x y : cmp x y < 0 <-> 0 < cmp y x;
  order_trans x y z : cmp x y < 0 -> cmp y z < 0 -> cmp x z < 0
}.

Section Order.
Context {X : Type} {cmp : option X -> option X -> Z} (O : compare_order cmp).

Lemma order_refl x : cmp x x = 0.
Proof. now apply (order_eq _ O). Qed.

Lemma order_zero_sym x y : cmp x y = 0 -> cmp y x = 0.
Proof. intros H. apply (order_eq _ O) in H as ->. apply order_refl. Qed.

Lemma compare_elements_eq xs : forall ys, compare_elements cmp xs ys = 0 <-> xs = ys.
Proof.
  induction xs as [|x xs IH]; intros [|y ys]; cbn [compare_elements]; try (split; [discriminate || reflexivity|congruence]).
  destruct (Z.eqb_spec (cmp x y) 0) as [E|E]; cbn [negb].
  - rewrite IH. apply (order_eq _ O) in E as ->. split; congruence.
  - split; [contradiction|]. intros [= -> ->]. now rewrite order_refl in E.
Qed.

Lemma compare_elements_sign xs : forall ys, compare_elements cmp xs ys < 0 <-> 0 < compare_elements cmp ys xs.
Proof.
  induction xs as [|x xs IH]; intros [|y ys]; cbn [compare_elements]; try lia.
  pose proof (order_sign _ O x y). destruct (Z.eqb_spec (cmp x y) 0) as [E|E]; cbn [negb].
  - rewrite (order_zero_sym _ _ E). cbn [Z.eqb negb]. apply IH.
  - destruct (Z.eqb_spec (cmp y x) 0) as [E'|E']; [now apply order_zero_sym in E'|]. cbn [negb]. assumption.
Qed.

Lemma compare_elements_trans xs : forall ys zs,
  compare_elements cmp xs ys < 0 -> compare_elements cmp ys zs < 0 -> compare_elements cmp xs zs < 0.
Proof.
  induction xs as [|x xs IH]; intros [|y ys] [|z zs]; cbn [compare_elements]; try lia.
  destruct (Z.eqb_spec (cmp x y) 0) as [E|E]; cbn [negb].
  - apply (order_eq _ O) in E as ->. destruct (cmp y z =? 0); cbn [negb]; [apply IH|auto].
  - intros Hxy. destruct (Z.eqb_spec (cmp y z) 0) as [E'|E']; cbn [negb].
    + apply (order_eq _ O) in E' as ->. intros _. apply Z.eqb_neq in E. now rewrite E.
    + intros Hyz. pose proof (order_trans _ O _ _ _ Hxy Hyz) as Hxz. rewrite (proj2 (Z.eqb_neq _ _)) by lia. assumption.
Qed.

Lemma compare_elements_order : compare_order (compare_elements cmp).
Proof. split; [apply compare_elements_eq|apply compare_elements_sign|apply compare_elements_trans]. Qed.
End Order.

(** * Copies *)

Section Copies.
Context {X : Type} (copy_struct : X -> Z * option X).

(** A pointer copies to itself: NULL does, a structure when [copy_struct]
    makes an equal one. *)
Definition copies (b : option X) : Prop := forall x, b = Some x -> copy_struct x = (0, Some x).

Lemma copy_elements_app (i : nat) bs rest : forall slots,
  Forall copies bs -> (i + length bs <= length slots)%nat ->
  copy_elements copy_struct i (bs ++ rest) slots =
    copy_elements copy_struct (i + length bs) rest (take i slots ++ map Some bs ++ drop (i + length bs) slots).
Proof.
  revert i. induction bs as [|b bs IH]; intros i slots Hb Hl; cbn [app length map].
  - now rewrite Nat.add_0_r, take_drop.
  - apply Forall_cons_iff in Hb as [Hb Hbs]. cbn [length] in Hl. cbn [copy_elements].
    assert ((match b with Some b0 => let '(ret, amemb) := copy_struct b0 in
        if negb (ret =? 0) then (ret, slots) else copy_elements copy_struct (S i) (bs ++ rest) (<[i:=Some amemb]> slots)
      | None => copy_elements copy_struct (S i) (bs ++ rest) (<[i:=Some None]> slots) end) =
      copy_elements copy_struct (S i) (bs ++ rest) (<[i:=Some b]> slots)) as ->.
    { destruct b as [x|]; [|reflexivity]. rewrite (Hb x eq_refl). reflexivity. }
    rewrite IH by (rewrite ?length_insert; auto; lia).
    rewrite (take_S_r _ i (Some b)) by (apply list_lookup_insert_eq; lia).
    rewrite take_insert_ge, drop_insert_lt, <- app_assoc by lia. cbn [app].
    now replace (i + S (length bs))%nat with (S i + length bs)%nat by lia.
Qed.
End Copies.

(** * Operations *)

Section Operations.
Context {T : Target} {A : Allocator} {X : Type}.
Implicit Types st : asn_anonymous_set X.

Lemma asn_set_add_ok st x :
  set_ok st -> set_size st < 2 ^ 28 -> serves A (8 * Z.max 4 (2 * set_size st)) ->
  exists size, asn_set_add (Some st) (Some x) = Some (mk_set (set_array st ++ [Some x]) size (set_free st)) /\
    set_count st < size < 2 ^ 31 /\
    size = (if set_count st =? set_size st then if set_size st =? 0 then 4 else 2 * set_size st else set_size st).
Proof.
  intros [Hc Hs] Hmax HA. unfold asn_set_add. pose proof sizeof_word_cases as Hw.
  destruct (Z.eqb_spec (set_count st) (set_size st)) as [E|E]; [|exists (set_size st); split; [reflexivity|lia]].
  rewrite Z.shiftl_mul_pow2, swrap_small by lia. change (2 ^ 1) with 2.
  destruct (Z.eqb_spec (set_size st) 0) as [E0|E0]; cbn [negb];
    (rewrite uwrap_small by (destruct word_bits_cases as [-> | ->]; lia)); (rewrite HA by lia);
    eexists; (split; [reflexivity|lia]).
Qed.

Lemma delete_in_range st n :
  (n < length (set_array st))%nat -> (Z.of_nat n <? 0) || (set_count st <=? Z.of_nat n) = false.
Proof. intros H. unfold set_count. bool_cases. reflexivity. Qed.

Lemma freed_element_spec st n (p : option X) do_free :
  set_array st !! n = Some p -> freed_element st n do_free = if do_free && set_free st then option_list p else [].
Proof.
  intros H. unfold freed_element. rewrite H. now destruct (_ && _), p.
Qed.
End Operations.

(** * Properties *)

(** The arrays of SET OF and SEQUENCE OF: adding appends the pointer and
    keeps the elements inside the allocated size, which doubles when
    it grows; asn_set_del removes exactly the numbered element, keeps the
    order of those before it and fills the gap with the last one;
    asn_sequence_del keeps the order of all others; both hand the element to
    the free callback once when asked to, and ignore numbers out of range;
    asn_set_empty hands over every element once. *)
Theorem asn_set_operations {T : Target} {A : Allocator} {X} (st : asn_anonymous_set X) :
  set_ok st -> set_size st < 2 ^ 28 -> serves A (8 * Z.max 4 (2 * set_size st)) ->
  (forall x, exists st', asn_set_add (Some st) (Some x) = Some st' /\ set_ok st' /\
     set_array st' = set_array st ++ [Some x] /\ set_free st' = set_free st /\
     (set_size st' = set_size st \/ set_size st' = if set_size st =? 0 then 4 else 2 * set_size st)) /\
  (forall n p do_free, set_array st !! n = Some p ->
     let freed := if do_free && set_free st then option_list p else [] in
     (exists st', asn_set_del st (Z.of_nat n) do_free = (st', freed) /\ set_ok st' /\
        set_array st ≡ₚ p :: set_array st' /\ take n (set_array st') = take n (set_array st)) /\
     (exists st', asn_sequence_del st (Z.of_nat n) do_free = (st', freed) /\ set_ok st' /\
        set_array st' = take n (set_array st) ++ drop (S n) (set_array st))) /\
  (forall number do_free, number < 0 \/ set_count st <= number ->
     asn_set_del st number do_free = (st, []) /\ asn_sequence_del st number do_free = (st, [])) /\
  (asn_set_empty st).1 = mk_set [] 0 (set_free st) /\
  (set_free st = true -> (asn_set_empty st).2 ≡ₚ set_array st).
Proof.
  intros Hok Hmax HA. pose proof Hok as [Hc Hs]. split_all; try reflexivity.
  - intros x. destruct (asn_set_add_ok st x Hok Hmax HA) as (size & -> & Hb & E). eexists. split; [reflexivity|].
    unfold set_ok, set_count in *. cbn [set_array set_size set_free]. rewrite length_app. cbn [length].
    split_all; try reflexivity; try lia. subst size. destruct (_ =? set_size st); [now right|now left].
  - intros n p do_free Hp. pose proof (lookup_lt_Some _ _ _ Hp) as Hn. unfold asn_set_del, asn_sequence_del.
    rewrite delete_in_range, Nat2Z.id, (freed_element_spec _ _ _ _ Hp) by assumption. cbv zeta.
    destruct (set_del_array _ _ _ Hp) as [Hperm Htake]. cbv zeta in *.
    unfold set_ok, set_count in *. split; eexists; (split; [reflexivity|]); cbn [set_array set_size].
    + rewrite length_take, length_insert. split_all; auto; lia.
    + rewrite sequence_del_array by assumption. rewrite length_app, length_take, length_drop. split_all; auto; lia.
  - intros number do_free Hr. unfold asn_set_del, asn_sequence_del.
    assert ((number <? 0) || (set_count st <=? number) = true) as ->; [|split; reflexivity].
    destruct Hr; [rewrite (proj2 (Z.ltb_lt number 0)) by assumption; reflexivity|].
    rewrite (proj2 (Z.leb_le (set_count st) number)) by assumption. apply orb_true_r.
  - intros Hf. unfold asn_set_empty. rewrite Hf. symmetry. apply Permutation_rev.
Qed.

Lemma asn_set_operations_witness :
  let st := mk_set [Some 10; Some 20; None; Some 40] 4 true in
  (exists st', @asn_set_add _ LP64 (fun _ => true) (Some st) (Some 50) = Some st' /\
     set_array st' = [Some 10; Some 20; None; Some 40; Some 50] /\ set_size st' = 8) /\
  (exists st', asn_set_del st 1 true = (st', [20]) /\ set_array st ≡ₚ Some 20 :: set_array st') /\
  (exists st', asn_sequence_del st 1 true = (st', [20]) /\ set_array st' = [Some 10; None; Some 40]).
Proof.
  destruct (@asn_set_operations LP64 (fun _ => true) Z (mk_set [Some 10; Some 20; None; Some 40] 4 true)) as (H1 & H2 & _).
  - unfold set_ok, set_count; cbn; lia.
  - cbn; lia.
  - intros ? _. reflexivity.
  - split; [|split].
    + destruct (H1 50) as (st' & E & _ & Ha & _ & [Hz|Hz]); exists st'; (split; [exact E|]); (split; [exact Ha|]);
        [|exact Hz]. vm_compute in E. injection E as <-. discriminate Hz.
    + destruct (H2 1%nat (Some 20) true eq_refl) as [(st' & E & _ & Hp & _) _]. exists st'. split; [exact E|exact Hp].
    + destruct (H2 1%nat (Some 20) true eq_refl) as [_ (st' & E & _ & Ha)]. exists st'. split; [exact E|exact Ha].
Defined.

(** SEQUENCE_OF_compare: when the elements' compare function is an order
    (zero for equal values only, opposite signs, transitive), so is the
    comparison of lists, which is the dictionary order; an absent structure
    comes first. *)
Theorem SEQUENCE_OF_order {X} (cmp : option X -> option X -> Z) :
  compare_order cmp ->
  (forall a b, SEQUENCE_OF_compare cmp (Some a) (Some b) = 0 <-> set_array a = set_array b) /\
  (forall a b, SEQUENCE_OF_compare cmp (Some a) (Some b) < 0 <-> 0 < SEQUENCE_OF_compare cmp (Some b) (Some a)) /\
  (forall a b c, SEQUENCE_OF_compare cmp a b < 0 -> SEQUENCE_OF_compare cmp b c < 0 -> SEQUENCE_OF_compare cmp a c < 0) /\
  (forall xs x y ys zs s t f g, cmp x y < 0 ->
     SEQUENCE_OF_compare cmp (Some (mk_set (xs ++ x :: ys) s f)) (Some (mk_set (xs ++ y :: zs) t g)) = cmp x y) /\
  (forall xs x ys s t f g, SEQUENCE_OF_compare cmp (Some (mk_set xs s f)) (Some (mk_set (xs ++ x :: ys) t g)) = -1) /\
  (forall a, SEQUENCE_OF_compare cmp None (Some a) = -1 /\ SEQUENCE_OF_compare cmp (Some a) None = 1).
Proof.
  intros O. pose proof (compare_elements_order O) as L. split_all.
  - intros a b. apply (order_eq _ L).
  - intros a b. apply (order_sign _ L).
  - intros [a|] [b|] [c|]; cbn [SEQUENCE_OF_compare]; try lia.
    intros Hab Hbc. exact (order_trans _ L _ _ _ Hab Hbc).
  - intros xs x y ys zs s t f g H. cbn [SEQUENCE_OF_compare set_array].
    induction xs as [|z xs IH]; cbn [app compare_elements].
    + rewrite (proj2 (Z.eqb_neq _ _)) by lia. reflexivity.
    + rewrite (order_refl O). exact IH.
  - intros xs x ys s t f g. cbn [SEQUENCE_OF_compare set_array].
    induction xs as [|z xs IH]; [reflexivity|]. cbn [app compare_elements]. rewrite (order_refl O). exact IH.
  - intros a. split; reflexivity.
Qed.

(** Natural comparison of pointers to numbers, NULL first. *)
Definition pointer_compare (a b : option Z) : Z :=
  match a, b with
  | Some x, Some y => Z.sgn (x - y)
  | None, None => 0
  | None, Some _ => -1
  | Some _, None => 1
  end.

Lemma pointer_order : compare_order pointer_compare.
Proof.
  split.
  - intros [x|] [y|]; cbn; split; try discriminate; try reflexivity; [intros H; f_equal; lia|intros [= ->]; lia].
  - intros [x|] [y|]; cbn; lia.
  - intros [x|] [y|] [z|]; cbn; lia.
Qed.

Lemma SEQUENCE_OF_order_witness :
  SEQUENCE_OF_compare pointer_compare (Some (mk_set [Some 1; Some 2; Some 9] 4 false)) (Some (mk_set [Some 1; Some 3] 4 false)) < 0.
Proof.
  destruct (SEQUENCE_OF_order pointer_compare pointer_order) as (_ & _ & H3 & H4 & _ & _).
  apply (H3 _ (Some (mk_set [Some 1; Some 2; Some 10] 4 false)) _); vm_compute; reflexivity.
Defined.

(** SET_OF_copy: onto any target it makes an array equal to the source
    when the elements copy and memory suffices.  Two cases depart from that:
    a source without allocated elements leaves the elements of the target
    where they are and reports success; and when the copy of an element
    fails, the target counts all elements although the slots from that one
    on were never written. *)
Theorem SET_OF_copy_spec {T : Target} {A : Allocator} {X} (copy_struct : X -> Z * option X) struct_size a b :
  have_struct a struct_size = true ->
  (set_size b <> 0 -> malloc_ok (uwrap word_bits (set_size b * sizeof_word)) = true ->
   Forall (copies copy_struct) (set_array b) ->
   SET_OF_copy copy_struct struct_size a (Some b) = (0, Some (mk_copied (map Some (set_array b)) (set_size b)))) /\
  (set_size b = 0 ->
   SET_OF_copy copy_struct struct_size a (Some b) = (0, Some (as_copied (default empty_set a)))) /\
  (forall before x after ret p, a = None -> set_array b = before ++ Some x :: after -> set_size b <> 0 ->
   malloc_ok (uwrap word_bits (set_size b * sizeof_word)) = true ->
   Forall (copies copy_struct) before -> copy_struct x = (ret, p) -> ret <> 0 ->
   SET_OF_copy copy_struct struct_size a (Some b) =
     (ret, Some (mk_copied (map Some before ++ replicate (length (Some x :: after)) None) (set_size b)))).
Proof.
  intros Hst. unfold SET_OF_copy. rewrite Hst. cbn [negb]. split_all.
  - intros Hs HA Hb. rewrite (proj2 (Z.eqb_neq _ _) Hs), HA. cbn [negb]. cbv zeta.
    set (old := take _ (map Some (set_array (default empty_set a)))).
    set (room := old ++ replicate _ None).
    assert (length room = length (set_array b)) as Hl.
    { subst room. rewrite length_app, length_replicate. subst old. rewrite length_take. lia. }
    rewrite <- (app_nil_r (set_array b)) at 1. rewrite copy_elements_app by (auto; lia). cbn [copy_elements Nat.add].
    rewrite take_0, drop_ge, app_nil_r by lia. reflexivity.
  - intros ->. reflexivity.
  - intros before x after ret p -> Eb Hs HA Hb Ex Hret. rewrite (proj2 (Z.eqb_neq _ _) Hs), HA. cbn [negb]. cbv zeta.
    cbn [default from_option empty_set set_array map]. rewrite take_nil, Eb. cbn [app length]. rewrite Nat.sub_0_r.
    rewrite copy_elements_app by (rewrite ?length_replicate, ?length_app; auto; cbn [length]; lia).
    cbn [copy_elements]. rewrite Ex, (proj2 (Z.eqb_neq _ _) Hret). cbn [negb].
    rewrite take_0, drop_replicate, length_app. cbn [app length]. do 4 f_equal. f_equal. lia.
Qed.

Lemma SET_OF_copy_spec_witness :
  let copy_even (x : Z) := if Z.even x then (0, Some x) else (-1, None) in
  let b := mk_set [Some 2; None; Some 4] 4 false in
  @SET_OF_copy LP64 (fun _ => true) Z copy_even 40 (Some (mk_set [Some 8] 4 false)) (Some b) =
    (0, Some (mk_copied [Some (Some 2); Some None; Some (Some 4)] 4)) /\
  @SET_OF_copy LP64 (fun _ => true) Z copy_even 40 (Some (mk_set [Some 8] 4 false)) (Some empty_set) =
    (0, Some (mk_copied [Some (Some 8)] 4)) /\
  @SET_OF_copy LP64 (fun _ => true) Z copy_even 40 None (Some (mk_set [Some 2; Some 3; Some 4] 4 false)) =
    (-1, Some (mk_copied [Some (Some 2); None; None] 4)).
Proof.
  intros copy_even b. split; [|split].
  - apply (@SET_OF_copy_spec LP64 (fun _ => true) Z copy_even 40 (Some (mk_set [Some 8] 4 false)) b); try reflexivity; [discriminate|].
    repeat constructor; intros x [= <-]; reflexivity.
  - now apply (@SET_OF_copy_spec LP64 (fun _ => true) Z copy_even 40 (Some (mk_set [Some 8] 4 false)) empty_set).
  - destruct (@SET_OF_copy_spec LP64 (fun _ => true) Z copy_even 40 None (mk_set [Some 2; Some 3; Some 4] 4 false) eq_refl)
      as (_ & _ & H). apply (H [Some 2] 3 [Some 4] (-1) None); try reflexivity; try discriminate.
    repeat constructor; intros x [= <-]; reflexivity.
Defined.
