(* ===== verification/SequenceOf.v ===== *)
(** SEQUENCE OF in UPER: SET_OF_decode_uper of constr_SET_OF_uper.c (which is
    also SEQUENCE_OF_decode_uper) and SEQUENCE_OF_encode_uper of
    constr_SEQUENCE_OF_uper.c under vanetza/asn1/support/.

    The codec of the elements is an instance of [UperCodec]; the codec of the
    list is shown to be one again, up to the limit the decoder puts on
    elements that report no consumed bits. *)

From S2P Require Import Prelude Runtime Constraints BitData BitOutp UperSupport IntegerUper UperCodec OctetString SetOf.

(** [ct && ct->effective_bits >= 0] *)
Definition sized (ct : option asn_per_constraint) : option asn_per_constraint :=
  match ct with Some c => if 0 <=? effective_bits c then Some c else None | None => None end.

(** * Decoder *)

Section Decode.
Context {T : Target} {A : Allocator} {X : Type}.
Variable dec : uper_type_decoder X.

(** The loop over the elements of one fragment; [nelems] is their number. *)
Fixpoint set_of_elements (n : nat) (nelems : Z) (ctx : option asn_codec_ctx) (pd : asn_bit_data)
    (list : asn_anonymous_set X) : asn_dec_rval (asn_anonymous_set X) * asn_bit_data :=
  match n with
  | O => (RC_OK 0 list, pd)
  | S n' =>
      let '(rv, pd) := dec ctx pd in
      match rv with
      | RC_OK consumed ptr =>
          match asn_set_add (Some list) (Some ptr) with
          | Some list =>
              if (consumed =? 0) && (200 <? nelems) then (DECODE_FAILED, pd)
              else set_of_elements n' nelems ctx pd list
          | None => (RC_FAIL consumed, pd)
          end
      | RC_WMORE consumed => (RC_WMORE consumed, pd)
      | RC_FAIL consumed => (RC_FAIL consumed, pd)
      end
  end.

(** The do-while loop; a negative [nelems] asks for a length determinant. *)
Fixpoint set_of_fragments (fuel : nat) (nelems : Z) (ctx : option asn_codec_ctx) (pd : asn_bit_data)
    (list : asn_anonymous_set X) : asn_dec_rval (asn_anonymous_set X) * asn_bit_data :=
  match fuel with
  | O => (DECODE_FAILED, pd)
  | S fuel' =>
      let '((nelems, repeat), pd) := if nelems <? 0 then uper_get_length pd (-1) 0 else ((nelems, false), pd) in
      if nelems <? 0 then (DECODE_STARVED, pd) else
      let '(rv, pd) := set_of_elements (Z.to_nat nelems) nelems ctx pd list in
      match rv with
      | RC_OK _ list => if repeat then set_of_fragments fuel' (-1) ctx pd list else (RC_OK 0 list, pd)
      | RC_WMORE consumed => (RC_WMORE consumed, pd)
      | RC_FAIL consumed => (RC_FAIL consumed, pd)
      end
  end.

(** The part of SET_OF_decode_uper behind the extension bit. *)
Definition set_of_decode_body (ct : option asn_per_constraint) (ctx : option asn_codec_ctx)
    (list : asn_anonymous_set X) (pd : asn_bit_data) : asn_dec_rval (asn_anonymous_set X) * asn_bit_data :=
  match sized ct with
  | Some c =>
      let '(nelems, pd) := asn_get_few_bits pd (effective_bits c) in
      if nelems <? 0 then (DECODE_STARVED, pd) else
      let nelems := swrap word_bits (nelems + lower_bound c) in
      if (upper_bound c <? nelems) && negb (has c APC_EXTENSIBLE) then (DECODE_FAILED, pd)
      else set_of_fragments (fragments_fuel pd) nelems ctx pd list
  | None => set_of_fragments (fragments_fuel pd) (-1) ctx pd list
  end.

(** SET_OF_decode_uper.  The stack check compares addresses of local
    variables, so its outcome is an argument. *)
Definition SET_OF_decode_uper (stack_overflow : bool) (struct_size : Z) (td_constraints constraints : option asn_per_constraints)
    (sptr : option (asn_anonymous_set X)) (ctx : option asn_codec_ctx) (pd : asn_bit_data) :
    asn_dec_rval (asn_anonymous_set X) * asn_bit_data :=
  if stack_overflow then (DECODE_FAILED, pd) else
  if negb (have_struct sptr struct_size) then (DECODE_FAILED, pd) else
  let list := default empty_set sptr in
  let ct := option_map pc_size (or_else constraints td_constraints) in
  match ct with
  | Some c =>
      if has c APC_EXTENSIBLE then
        let '(value, pd) := asn_get_few_bits pd 1 in
        if value <? 0 then (DECODE_STARVED, pd)
        else set_of_decode_body (if negb (value =? 0) then None else ct) ctx list pd
      else set_of_decode_body ct ctx list pd
  | None => set_of_decode_body None ctx list pd
  end.
End Decode.

(** * Encoder *)

Section Encode.
Context {K : Type} {C : Consumer K} {X : Type}.
Variable enc : X -> asn_bit_outp K -> asn_enc_rval * asn_bit_outp K.

(** The inner loop over the elements of a fragment; [er] is the result of
    the last one. *)
Fixpoint put_elements (xs : list (option X)) (er : asn_enc_rval) (po : asn_bit_outp K) : asn_enc_rval * asn_bit_outp K :=
  match xs with
  | [] => (er, po)
  | None :: _ => (ENCODE_FAILED, po)
  | Some memb_ptr :: xs' =>
      let '(er, po) := enc memb_ptr po in
      match er with
      | ENCODE_FAILED => (ENCODE_FAILED, po)
      | ENCODED_OK _ => put_elements xs' er po
      end
  end.

(** The outer loop; [sized] tells that the count was written already. *)
Fixpoint put_element_fragments (fuel : nat) (sized : bool) (xs : list (option X)) (er : asn_enc_rval) (po : asn_bit_outp K) :
    asn_enc_rval * asn_bit_outp K :=
  if (length xs =? 0)%nat then (er, po) else
  match fuel with
  | O => (ENCODE_FAILED, po)
  | S fuel' =>
      let '((may_encode, need_eom), po) :=
        if sized then ((Z.of_nat (length xs), false), po) else uper_put_length po (Z.of_nat (length xs)) in
      if may_encode <? 0 then (ENCODE_FAILED, po) else
      let '(er, po) := put_elements (take (Z.to_nat may_encode) xs) er po in
      match er with
      | ENCODE_FAILED => (ENCODE_FAILED, po)
      | ENCODED_OK _ =>
          let xs := drop (Z.to_nat may_encode) xs in
          if need_eom then
            let '((rc, _), po) := uper_put_length po 0 in
            if negb (rc =? 0) then (ENCODE_FAILED, po) else put_element_fragments fuel' sized xs er po
          else put_element_fragments fuel' sized xs er po
      end
  end.

(** The part of SEQUENCE_OF_encode_uper behind the extension bit. *)
Definition sequence_of_encode_body (ct : option asn_per_constraint) (xs : list (option X)) (po : asn_bit_outp K) :
    asn_enc_rval * asn_bit_outp K :=
  match sized ct with
  | Some c =>
      let '(rc, po) := asn_put_few_bits po (Z.of_nat (length xs) - lower_bound c) (effective_bits c) in
      if negb (rc =? 0) then (ENCODE_FAILED, po) else put_element_fragments (length xs) true xs (ENCODED_OK 0) po
  | None =>
      if (length xs =? 0)%nat then
        let '((rc, _), po) := uper_put_length po 0 in
        if negb (rc =? 0) then (ENCODE_FAILED, po) else (ENCODED_OK 0, po)
      else put_element_fragments (length xs) false xs (ENCODED_OK 0) po
  end.

(** SEQUENCE_OF_encode_uper. *)
Definition SEQUENCE_OF_encode_uper (td_constraints constraints : option asn_per_constraints) (sptr : option (asn_anonymous_set X))
    (po : asn_bit_outp K) : asn_enc_rval * asn_bit_outp K :=
  match sptr with
  | None => (ENCODE_FAILED, po)
  | Some st =>
      let xs := set_array st in
      let count := Z.of_nat (length xs) in
      let ct := option_map pc_size (or_else constraints td_constraints) in
      match ct with
      | Some c =>
          let not_in_root := (count <? lower_bound c) || (upper_bound c <? count) in
          if has c APC_EXTENSIBLE then
            let '(rc, po) := asn_put_few_bits po (Z.b2z not_in_root) 1 in
            if negb (rc =? 0) then (ENCODE_FAILED, po)
            else sequence_of_encode_body (if not_in_root then None else ct) xs po
          else if not_in_root && (0 <=? effective_bits c) then (ENCODE_FAILED, po)
          else sequence_of_encode_body ct xs po
      | None => sequence_of_encode_body None xs po
      end
  end.
End Encode.

(** * Arrays of decoded lists *)

(** The allocated size after adding [n] elements to an empty array. *)
Fixpoint capacity (n : nat) : Z :=
  match n with
  | O => 0
  | S n' => let c := capacity n' in if Z.of_nat n' =? c then (if c =? 0 then 4 else 2 * c) else c
  end.

(** The array a decoder leaves for the elements [xs]. *)
Definition built {X} (xs : list X) : asn_anonymous_set X := mk_set (map Some xs) (capacity (length xs)) false.

Lemma capacity_bound n : Z.of_nat n <= capacity n <= Z.max 4 (2 * Z.of_nat n).
Proof.
  induction n as [|n IH]; [cbn; lia|]. cbn [capacity].
  destruct (Z.eqb_spec (Z.of_nat n) (capacity n)), (Z.eqb_spec (capacity n) 0); lia.
Qed.

(** Memory for the array of [n] elements. *)
Definition list_room (n : nat) : Z := 8 * (4 * Z.of_nat n + 8).

Lemma set_add_built {T : Target} {A : Allocator} {X} (xs : list X) x :
  Z.of_nat (length xs) < 2 ^ 26 -> serves A (list_room (length xs)) ->
  asn_set_add (Some (built xs)) (Some x) = Some (built (xs ++ [x])).
Proof.
  intros Hn HA. pose proof (capacity_bound (length xs)) as Hc. unfold list_room in HA.
  destruct (asn_set_add_ok (built xs) x) as (size & -> & _ & ->).
  - unfold set_ok, set_count, built; cbn [set_array set_size]. rewrite length_map. lia.
  - cbn [built set_size]. lia.
  - eapply serves_le; [exact HA|]. cbn [built set_size]. lia.
  - unfold built, set_count. cbn [set_array set_size set_free]. rewrite length_map, map_app, length_app, Nat.add_comm.
    reflexivity.
Qed.

(** * SEQUENCE OF on the wire *)

Section Wire.
Context {X : Type} {U : UperCodec X}.

Definition elements_bits (xs : list X) : list bool := flat_map uper_bits xs.

Definition body_bits (ct : option asn_per_constraint) (xs : list X) : list bool :=
  match sized ct with
  | Some c => bits_of (Z.to_nat (effective_bits c)) (Z.of_nat (length xs) - lower_bound c) ++ elements_bits xs
  | None => fragmented_of elements_bits xs
  end.

(** X.691 #20: the count, then the elements; nothing when the count is
    refused. *)
Definition sequence_of_bits (ct : option asn_per_constraint) (xs : list X) : option (list bool) :=
  match ct with
  | Some c =>
      let n := Z.of_nat (length xs) in
      let not_in_root := (n <? lower_bound c) || (upper_bound c <? n) in
      if has c APC_EXTENSIBLE then Some (not_in_root :: body_bits (if not_in_root then None else ct) xs)
      else if not_in_root && (0 <=? effective_bits c) then None
      else Some (body_bits ct xs)
  | None => Some (body_bits None xs)
  end.

Definition list_size_ok (ct : option asn_per_constraint) : Prop := forall c, ct = Some c -> size_ok c.

(** The size constraint of the member or of the type. *)
Definition list_constraint (td_cs cs : option asn_per_constraints) : option asn_per_constraint :=
  option_map pc_size (or_else cs td_cs).

Lemma sized_ok ct c :
  list_size_ok ct -> sized ct = Some c ->
  (0 <= effective_bits c <= 16 /\ 0 <= lower_bound c <= upper_bound c /\ upper_bound c <= 65535 /\
   upper_bound c - lower_bound c < 2 ^ effective_bits c) /\ ct = Some c.
Proof.
  intros Hsz Es. unfold sized in Es. destruct ct as [c'|]; [|discriminate].
  destruct (Z.leb_spec 0 (effective_bits c')); [|discriminate]. injection Es as <-.
  destruct (Hsz c' eq_refl) as [H0|H0]; [lia|]. auto.
Qed.

(** A constraint under which the decoder finds the count. *)
Definition admits (ct : option asn_per_constraint) (n : Z) : Prop :=
  list_size_ok ct /\ forall c, sized ct = Some c -> lower_bound c <= n <= upper_bound c.

(** The two shapes of an encoding. *)
Lemma sequence_of_bits_inv ct xs bits :
  list_size_ok ct -> sequence_of_bits ct xs = Some bits ->
  (exists c (out : bool), ct = Some c /\ has c APC_EXTENSIBLE = true /\ admits (if out then None else ct) (Z.of_nat (length xs)) /\
     bits = bits_of 1 (Z.b2z out) ++ body_bits (if out then None else ct) xs) \/
  ((forall c, ct = Some c -> has c APC_EXTENSIBLE = false) /\ admits ct (Z.of_nat (length xs)) /\ bits = body_bits ct xs).
Proof.
  intros Hsz. unfold sequence_of_bits. assert (forall n, admits None n) as Hnone by (split; intros ? [=]).
  destruct ct as [c|]; [|intros [= <-]; right; split_all; auto; discriminate]. cbv zeta.
  set (n := Z.of_nat (length xs)) in *. set (out := _ || _).
  assert (out = false -> admits (Some c) n) as Hin.
  { intros Eo. split; [exact Hsz|]. intros c' [_ [= <-]]%(sized_ok _ _ Hsz). apply orb_false_iff in Eo as [E1 E2]. bool_hyps. lia. }
  destruct (has c APC_EXTENSIBLE) eqn:Ex.
  - intros [= <-]. left. exists c, out. split_all; auto; destruct out; auto.
  - destruct (out && (0 <=? effective_bits c)) eqn:E; [discriminate|]. intros [= <-]. right.
    split; [intros c' [= <-]; exact Ex|]. split; [|reflexivity]. destruct out; [|now apply Hin].
    split; [exact Hsz|]. intros c' Es. unfold sized in Es. cbn [andb] in E. now rewrite E in Es.
Qed.

Section Put.
Context {K : Type} {C : Consumer K} {S : Sink K} {R : RoomySink K}.
Let enc (x : X) : asn_bit_outp K -> asn_enc_rval * asn_bit_outp K := uper_enc x K C.

Lemma encodes_elements xs e :
  Forall uper_valid xs -> exists e', encodes (put_elements enc (map Some xs) (ENCODED_OK e)) (elements_bits xs) (ENCODED_OK e').
Proof.
  intros H. revert e. induction H as [|x xs Hx Hxs IH]; intros e; cbn [map put_elements elements_bits flat_map].
  - exists e. apply encodes_ret.
  - destruct (uper_enc_ok x K C S R Hx) as (e1 & H1). destruct (IH e1) as (e2 & H2). exists e2.
    eapply encodes_bind; [exact H1|]. exact H2.
Qed.

Lemma encodes_element_fragments xs : forall fuel e,
  Forall uper_valid xs -> xs <> [] -> (length xs <= fuel)%nat ->
  exists e', encodes (put_element_fragments enc fuel false (map Some xs) (ENCODED_OK e)) (fragmented_of elements_bits xs) (ENCODED_OK e').
Proof.
  induction xs as [xs H|xs H IH] using fragments_ind; intros fuel e Hv Hn Hf; rewrite fragmented_eq; cbv zeta;
    (assert (length xs <> 0)%nat as Hne by (destruct xs; simpl; congruence));
    (destruct fuel as [|fuel]; [lia|]); cbn [put_element_fragments]; rewrite length_map, (proj2 (Nat.eqb_neq _ _) Hne).
  - rewrite (proj2 (Z.ltb_lt _ _)) by assumption. destruct (encodes_elements xs e Hv) as (e' & He). exists e'.
    eapply encodes_bind; [apply encodes_length; lia|]. cbv beta iota. rewrite (proj2 (Z.ltb_ge _ 0)) by lia.
    rewrite Nat2Z.id, take_ge, drop_ge by (rewrite length_map; lia). eapply encodes_last; [exact He|]. destruct fuel; apply encodes_ret.
  - rewrite (proj2 (Z.ltb_ge _ 16384)) by assumption. pose proof (fragment_units_bound _ H) as [Hm Hle].
    pose proof (encodes_fragment (K := K) (Z.of_nat (length xs)) H) as Hfrag.
    set (m := fragment_units (Z.of_nat (length xs))) in *. set (j := Z.to_nat (16384 * m)) in *.
    destruct (encodes_elements (take j xs) e ltac:(now apply Forall_take)) as (e1 & He1).
    destruct (Z.eqb_spec (Z.of_nat (length xs)) (16384 * m)) as [E|E].
    + exists e1. eapply encodes_bind; [exact Hfrag|]. cbv beta iota. rewrite (proj2 (Z.ltb_ge _ 0)) by lia. fold j.
      rewrite firstn_map, skipn_map. eapply encodes_bind; [exact He1|]. cbv beta iota zeta. rewrite drop_ge by lia.
      change (fragmented_of elements_bits []) with (length_bits 0 ++ []).
      eapply encodes_bind; [apply encodes_length; lia|]. cbn [negb Z.eqb map]. destruct fuel; apply encodes_ret.
    + destruct (IH fuel e1) as (e2 & He2); [now apply Forall_drop| |len|].
      { intros E0. apply (f_equal length) in E0. revert E0. len. }
      exists e2. eapply encodes_bind; [exact Hfrag|]. cbv beta iota. rewrite (proj2 (Z.ltb_ge _ 0)) by lia. fold j.
      rewrite firstn_map, skipn_map. eapply encodes_bind; [exact He1|]. exact He2.
Qed.

Lemma encodes_sequence_body ct xs :
  list_size_ok ct -> Forall uper_valid xs ->
  exists e, encodes (sequence_of_encode_body enc ct (map Some xs)) (body_bits ct xs) (ENCODED_OK e).
Proof.
  intros Hsz Hv. unfold sequence_of_encode_body, body_bits. rewrite length_map. destruct (sized ct) as [c|] eqn:Es.
  - destruct (sized_ok ct c Hsz Es) as [Hok He].
    destruct (encodes_elements xs 0 Hv) as (e & Hx). exists e.
    eapply encodes_bind; [apply encodes_few_bits; lia|]. cbn [Z.eqb negb].
    destruct xs as [|x xs]; [exact Hx|]. cbn [length map put_element_fragments Nat.eqb]. rewrite length_map.
    rewrite (proj2 (Z.ltb_ge _ 0)) by lia. rewrite Nat2Z.id, take_ge, drop_ge by (cbn [length]; rewrite length_map; lia).
    eapply encodes_last; [exact Hx|]. destruct (length xs); apply encodes_ret.
  - destruct xs as [|x xs].
    + exists 0. change (fragmented_of elements_bits []) with (length_bits 0 ++ []).
      eapply encodes_bind; [apply encodes_length; lia|]. apply encodes_ret.
    + cbn [length Nat.eqb]. now apply (encodes_element_fragments (x :: xs)).
Qed.

Lemma SEQUENCE_OF_encode_uper_ok td_cs cs st xs :
  set_array st = map Some xs -> list_size_ok (list_constraint td_cs cs) -> Forall uper_valid xs ->
  match sequence_of_bits (list_constraint td_cs cs) xs with
  | Some bits => exists e, encodes (SEQUENCE_OF_encode_uper enc td_cs cs (Some st)) bits (ENCODED_OK e)
  | None => forall po, SEQUENCE_OF_encode_uper enc td_cs cs (Some st) po = (ENCODE_FAILED, po)
  end.
Proof.
  intros Est Hsz Hv. unfold sequence_of_bits, SEQUENCE_OF_encode_uper. rewrite Est, length_map. fold (list_constraint td_cs cs).
  destruct (list_constraint td_cs cs) as [c|]; [|now apply encodes_sequence_body]. cbv zeta.
  set (out := _ || _). destruct (has c APC_EXTENSIBLE).
  - destruct (encodes_sequence_body (if out then None else Some c) xs) as (e & He); [|assumption|].
    { destruct out; [intros c' [=]|exact Hsz]. }
    exists e. set (body := body_bits _ xs) in *. replace (out :: body) with (bits_of 1 (Z.b2z out) ++ body) by (now destruct out).
    eapply encodes_bind; [apply encodes_few_bits; lia|]. exact He.
  - destruct (out && _); [reflexivity|]. now apply encodes_sequence_body.
Qed.
End Put.

Section Get.
Context {T : Target} {A : Allocator}.

(** An element the decoder accepts in a list of [total]: it reports consumed
    bits, or the list has at most 200 elements. *)
Definition counted_element (ctx : option asn_codec_ctx) (total : Z) (x : X) : Prop :=
  exists n, decodes (uper_dec ctx) (uper_bits x) (RC_OK n x) /\ (n <> 0 \/ total <= 200).

Lemma decodes_elements ctx nelems total xs : forall ys,
  nelems <= total -> Forall (counted_element ctx total) xs ->
  Z.of_nat (length (ys ++ xs)) < 2 ^ 26 -> serves A (list_room (length (ys ++ xs))) ->
  decodes (fun pd => set_of_elements uper_dec (length xs) nelems ctx pd (built ys)) (elements_bits xs) (RC_OK 0 (built (ys ++ xs))).
Proof.
  intros ys Hle Hx. revert ys. induction Hx as [|x xs (n & Hd & Hn) Hxs IH]; intros ys Hl HA; cbn [length set_of_elements elements_bits flat_map].
  - rewrite app_nil_r. apply decodes_ret.
  - rewrite length_app in Hl. cbn [length] in Hl.
    eapply decodes_bind; [exact Hd|]. cbv beta iota.
    rewrite set_add_built by (lia || (eapply serves_le; [exact HA|unfold list_room; len])).
    assert ((n =? 0) && (200 <? nelems) = false) as ->.
    { destruct (Z.eqb_spec n 0), (Z.ltb_spec 200 nelems); try reflexivity. lia. }
    replace (ys ++ x :: xs) with ((ys ++ [x]) ++ xs) by (now rewrite <- app_assoc).
    apply IH; rewrite <- app_assoc; [rewrite length_app; cbn [app length]; lia|exact HA].
Qed.

Lemma decodes_list_fragments ctx total xs : forall fuel ys,
  Z.of_nat (length xs) <= total -> Forall (counted_element ctx total) xs ->
  (length (fragmented_of elements_bits xs) <= fuel)%nat ->
  Z.of_nat (length (ys ++ xs)) < 2 ^ 26 -> serves A (list_room (length (ys ++ xs))) ->
  decodes (fun pd => set_of_fragments uper_dec fuel (-1) ctx pd (built ys)) (fragmented_of elements_bits xs)
    (RC_OK 0 (built (ys ++ xs))).
Proof.
  induction xs as [xs H|xs H IH] using fragments_ind; intros fuel ys Ht Hx; rewrite fragmented_eq; cbv zeta; intros Hf Hl HA.
  - rewrite (proj2 (Z.ltb_lt _ _)) in * by assumption. pose proof (length_length_bits (Z.of_nat (length xs))).
    rewrite length_app in Hf. destruct fuel as [|fuel]; [lia|]. cbn [set_of_fragments Z.ltb Z.compare].
    eapply decodes_bind; [apply decodes_length; lia|]. cbv beta iota. rewrite (proj2 (Z.ltb_ge _ 0)), Nat2Z.id by lia.
    eapply decodes_last; [eapply decodes_elements; eassumption|]. apply decodes_ret.
  - rewrite (proj2 (Z.ltb_ge _ 16384)) in * by assumption. pose proof (fragment_units_bound _ H) as [Hm Hle].
    set (m := fragment_units (Z.of_nat (length xs))) in *. set (j := Z.to_nat (16384 * m)) in *.
    rewrite !length_app in Hf. unfold fragment_bits at 1 in Hf. rewrite length_bits_of in Hf.
    destruct fuel as [|fuel]; [lia|]. cbn [set_of_fragments Z.ltb Z.compare].
    assert (length (take j xs) = j) as Hj by len.
    eapply decodes_bind; [apply decodes_fragment; lia|]. cbv beta iota. rewrite (proj2 (Z.ltb_ge _ 0)) by lia. fold j.
    pose proof (decodes_elements ctx (16384 * m) total (take j xs) ys ltac:(lia) ltac:(now apply Forall_take)) as Hd.
    rewrite Hj in Hd. eapply decodes_bind.
    + apply Hd; [revert Hl; len|]. eapply serves_le; [exact HA|]. unfold list_room. len.
    + cbv beta iota. replace (ys ++ xs) with ((ys ++ take j xs) ++ drop j xs) by (now rewrite <- app_assoc, take_drop).
      apply IH; try (now apply Forall_drop); [len|lia| |]; rewrite <- app_assoc, take_drop; assumption.
Qed.

Lemma decodes_list_body ctx ct xs :
  admits ct (Z.of_nat (length xs)) -> Forall (counted_element ctx (Z.of_nat (length xs))) xs ->
  Z.of_nat (length xs) < 2 ^ 26 -> serves A (list_room (length xs)) ->
  decodes (set_of_decode_body uper_dec ct ctx (built [])) (body_bits ct xs) (RC_OK 0 (built xs)).
Proof.
  intros [Hsz Hin] Hx Hl HA. unfold set_of_decode_body, body_bits. destruct (sized ct) as [c|] eqn:Es.
  - destruct (sized_ok ct c Hsz Es) as [Hok He]. specialize (Hin c eq_refl).
    eapply decodes_bind; [apply (decodes_few_bits_of _ (effective_bits c)); lia|]. cbv beta iota zeta.
    rewrite (proj2 (Z.ltb_ge _ 0)), Z.sub_add by lia. rewrite swrap_small by (destruct word_bits_cases as [-> | ->]; lia).
    rewrite (proj2 (Z.ltb_ge (upper_bound c) _)) by lia. cbn [andb].
    unfold fragments_fuel. cbn [set_of_fragments].
    assert ((Z.of_nat (length xs) <? 0) = false) as Hge by (apply Z.ltb_ge; lia).
    rewrite Hge. cbv beta iota. rewrite Hge, Nat2Z.id.
    eapply decodes_last; [apply (decodes_elements ctx _ (Z.of_nat (length xs)) xs []); auto; lia|]. apply decodes_ret.
  - intros pd rest Hpd E. apply (decodes_list_fragments ctx (Z.of_nat (length xs)) xs (fragments_fuel pd) []); auto; [lia|].
    unfold fragments_fuel. rewrite <- length_remaining, E, length_app by assumption. lia.
Qed.

(** SET_OF_decode_uper reads [sequence_of_bits]. *)
Lemma SET_OF_decode_uper_ok struct_size td_cs cs ctx xs bits :
  malloc_ok struct_size = true -> list_size_ok (list_constraint td_cs cs) ->
  Forall (counted_element ctx (Z.of_nat (length xs))) xs ->
  Z.of_nat (length xs) < 2 ^ 26 -> serves A (list_room (length xs)) ->
  sequence_of_bits (list_constraint td_cs cs) xs = Some bits ->
  decodes (SET_OF_decode_uper uper_dec false struct_size td_cs cs None ctx) bits (RC_OK 0 (built xs)).
Proof.
  intros Hst Hsz Hx Hl HA E. unfold SET_OF_decode_uper. cbn [have_struct]. rewrite Hst. cbn [negb].
  fold (list_constraint td_cs cs). change (default empty_set None) with (@built X []). cbv zeta.
  destruct (sequence_of_bits_inv _ _ _ Hsz E) as [(c & out & Ec & Ex & Ha & ->)|(Hne & Ha & ->)].
  - rewrite Ec in *. rewrite Ex. eapply decodes_bind; [apply (decodes_few_bits_of 1 1 (Z.b2z out)); destruct out; cbn; lia|].
    destruct out; cbn [Z.b2z Z.ltb Z.compare Z.eqb negb]; now apply decodes_list_body.
  - destruct (list_constraint td_cs cs) as [c|]; [rewrite (Hne c eq_refl)|]; now apply decodes_list_body.
Qed.

(** [fails f enc]: on any stream that starts with [enc], [f] reports
    RC_FAIL. *)
Definition fails {B} (f : asn_bit_data -> asn_dec_rval B * asn_bit_data) (enc : list bool) : Prop :=
  forall pd rest, pd_ok pd -> remaining pd = enc ++ rest -> exists n pd', f pd = (RC_FAIL n, pd').

Lemma fails_bind {B D} f (g : D -> asn_bit_data -> asn_dec_rval B * asn_bit_data) enc1 enc2 a :
  decodes f enc1 a -> fails (g a) enc2 -> fails (fun pd => let '(x, pd) := f pd in g x pd) (enc1 ++ enc2).
Proof.
  intros Hf Hg pd rest Hok E. rewrite <- app_assoc in E. destruct (Hf pd _ Hok E) as (pd1 & -> & Ha & E1).
  exact (Hg pd1 rest (proj1 Ha) E1).
Qed.

(** The guard against compression bombs: a first element that reports no
    consumed bits ends the decoding of more than 200 elements. *)
Lemma guarded_elements ctx nelems n x (st : asn_anonymous_set X) enc :
  200 < nelems -> decodes (uper_dec ctx) (uper_bits x) (RC_OK 0 x) ->
  fails (fun pd => set_of_elements uper_dec (Datatypes.S n) nelems ctx pd st) (uper_bits x ++ enc).
Proof.
  intros Hn Hd. cbn [set_of_elements]. eapply fails_bind; [exact Hd|]. cbv beta iota.
  intros pd rest _ _. destruct (asn_set_add (Some st) (Some x)); [|eauto].
  rewrite (proj2 (Z.ltb_lt 200 nelems)) by lia. cbn [Z.eqb andb]. unfold DECODE_FAILED. eauto.
Qed.

(** A fragment that is refused ends the loop. *)
Lemma fails_fragment ctx fuel nelems j (st : asn_anonymous_set X) enc (more : bool) rest :
  fails (fun pd => set_of_elements uper_dec j nelems ctx pd st) enc ->
  fails (fun pd => let '(rv, pd) := set_of_elements uper_dec j nelems ctx pd st in
    match rv with
    | RC_OK _ list => if more then set_of_fragments uper_dec fuel (-1) ctx pd list else (RC_OK 0 list, pd)
    | RC_WMORE consumed => (RC_WMORE consumed, pd)
    | RC_FAIL consumed => (RC_FAIL consumed, pd)
    end) (enc ++ rest).
Proof.
  intros H pd r Hok E. rewrite <- app_assoc in E. destruct (H pd _ Hok E) as (n & pd' & ->). eauto.
Qed.

Lemma guarded_fragments ctx fuel x xs (st : asn_anonymous_set X) :
  200 < Z.of_nat (length (x :: xs)) -> decodes (uper_dec ctx) (uper_bits x) (RC_OK 0 x) ->
  fails (fun pd => set_of_fragments uper_dec (Datatypes.S fuel) (-1) ctx pd st) (fragmented_of elements_bits (x :: xs)).
Proof.
  intros Hn Hd. rewrite fragmented_eq. cbv zeta. cbn [set_of_fragments Z.ltb Z.compare].
  destruct (Z.ltb_spec (Z.of_nat (length (x :: xs))) 16384) as [H|H].
  - eapply fails_bind; [apply decodes_length; lia|]. cbv beta iota. rewrite (proj2 (Z.ltb_ge _ 0)), Nat2Z.id by lia.
    rewrite <- (app_nil_r (elements_bits (x :: xs))). apply (fails_fragment ctx fuel _ _ st _ false). now apply guarded_elements.
  - pose proof (fragment_units_bound _ H) as [Hm _].
    set (m := fragment_units (Z.of_nat (length (x :: xs)))) in *.
    eapply fails_bind; [apply decodes_fragment; lia|]. cbv beta iota. rewrite (proj2 (Z.ltb_ge _ 0)) by lia.
    apply (fails_fragment ctx fuel _ _ st _ true). destruct (Z.to_nat (16384 * m)) as [|j] eqn:Ej; [lia|].
    cbn [take elements_bits flat_map]. apply guarded_elements; [lia|assumption].
Qed.

Lemma guarded_body ctx ct x xs (st : asn_anonymous_set X) :
  200 < Z.of_nat (length (x :: xs)) -> decodes (uper_dec ctx) (uper_bits x) (RC_OK 0 x) ->
  admits ct (Z.of_nat (length (x :: xs))) ->
  fails (set_of_decode_body uper_dec ct ctx st) (body_bits ct (x :: xs)).
Proof.
  intros Hn Hd [Hsz Hin]. unfold set_of_decode_body, body_bits. destruct (sized ct) as [c|] eqn:Es.
  - destruct (sized_ok ct c Hsz Es) as [Hok He]. specialize (Hin c eq_refl).
    eapply fails_bind; [apply (decodes_few_bits_of _ (effective_bits c)); lia|]. cbv beta iota zeta.
    rewrite (proj2 (Z.ltb_ge _ 0)), Z.sub_add by lia. rewrite swrap_small by (destruct word_bits_cases as [-> | ->]; lia).
    rewrite (proj2 (Z.ltb_ge (upper_bound c) _)) by lia. cbn [andb].
    intros pd rest Hok' E. unfold fragments_fuel. cbn [set_of_fragments].
    assert ((Z.of_nat (length (x :: xs)) <? 0) = false) as Hge by (apply Z.ltb_ge; lia).
    rewrite Hge. cbv beta iota. rewrite Hge, Nat2Z.id. rewrite <- (app_nil_r (elements_bits (x :: xs))) in E.
    eapply (fails_fragment ctx 0 _ _ st _ false); [|exact Hok'|exact E]. now apply guarded_elements.
  - intros pd rest Hpd E. exact (guarded_fragments ctx _ x xs st Hn Hd pd rest Hpd E).
Qed.
End Get.

(** ** Arbitrary data *)

Section Safe.
Context {T : Target} {A : Allocator}.

Lemma follows_element ctx pd : pd_ok pd -> follows pd (uper_dec ctx pd).
Proof. apply uper_dec_safe. Qed.
Hint Resolve follows_element : follows.

Lemma follows_elements n nelems ctx : forall pd (st : asn_anonymous_set X), pd_ok pd -> follows pd (set_of_elements uper_dec n nelems ctx pd st).
Proof. induction n as [|n IH]; intros pd st Hok; cbn [set_of_elements]; follow. Qed.
Hint Resolve follows_elements : follows.

Lemma follows_list_fragments fuel ctx : forall nelems pd (st : asn_anonymous_set X),
  pd_ok pd -> follows pd (set_of_fragments uper_dec fuel nelems ctx pd st).
Proof.
  induction fuel as [|fuel IH]; intros nelems pd st Hok; cbn [set_of_fragments]; [follow|].
  apply follows_let; [destruct (nelems <? 0); auto with follows|]. intros [n more] pd1 H1. follow.
Qed.

Lemma follows_SET_OF overflow struct_size td_cs cs sptr ctx pd :
  pd_ok pd -> follows pd (SET_OF_decode_uper (X := X) uper_dec overflow struct_size td_cs cs sptr ctx pd).
Proof.
  intros Hok. pose proof follows_list_fragments.
  assert (forall ct st pd, pd_ok pd -> follows pd (set_of_decode_body (X := X) uper_dec ct ctx st pd)).
  { intros. unfold set_of_decode_body. follow. }
  unfold SET_OF_decode_uper. follow.
Qed.

(** More iterations than the length of the data change nothing. *)
Lemma list_fuel_enough ctx f1 : forall f2 pd (st : asn_anonymous_set X),
  pd_ok pd -> (length (remaining pd) < f1)%nat -> (length (remaining pd) < f2)%nat ->
  set_of_fragments uper_dec f1 (-1) ctx pd st = set_of_fragments uper_dec f2 (-1) ctx pd st.
Proof.
  induction f1 as [|f1 IH]; intros [|f2] pd st Hok H1 H2; try lia. cbn [set_of_fragments Z.ltb Z.compare].
  pose proof (get_length_progress pd Hok) as Hp.
  destruct (uper_get_length pd (-1) 0) as [[len more] pd1].
  destruct (len <? 0); [reflexivity|]. destruct Hp as [(n & Hn & Ha) _].
  destruct (follows_elements (Z.to_nat len) len ctx pd1 st (proj1 Ha)) as [m Hm].
  destruct (set_of_elements _ _ _ _ _ _) as [[c st'| |] pd2]; try reflexivity.
  destruct more; [|reflexivity]. cbn [snd] in Hm.
  destruct Ha as (_ & R1 & L1 & _), Hm as (Hok2 & R2 & _).
  apply IH; [assumption| |]; rewrite R2, R1; len.
Qed.

(** Each decoded element is in the array, which stays within its size. *)
Lemma elements_count n nelems ctx : forall pd (st : asn_anonymous_set X),
  match fst (set_of_elements uper_dec n nelems ctx pd st) with
  | RC_OK _ st' => length (set_array st') = (length (set_array st) + n)%nat | _ => True end.
Proof.
  induction n as [|n IH]; intros pd st; cbn [set_of_elements]; [cbn; lia|].
  destruct (uper_dec ctx pd) as [[c x| |] pd1]; try exact I.
  destruct (asn_set_add (Some st) (Some x)) as [st1|] eqn:E; [|exact I].
  destruct (_ && _); [exact I|]. specialize (IH pd1 st1). destruct (fst _); try exact I. rewrite IH.
  assert (set_array st1 = set_array st ++ [Some x]) as ->; [|rewrite length_app; simpl; lia].
  cbn [asn_set_add] in E. destruct (_ =? _); [destruct (malloc_ok _); [|discriminate]|]; now injection E as <-.
Qed.
End Safe.
End Wire.
#[export] Hint Resolve follows_SET_OF : follows.

(** * The codec of lists *)

Section Codec.
Context {T : Target} {A : Allocator} {X : Type} {U : UperCodec X}.

(** The elements of an array without NULL pointers. *)
Definition elements_of (st : asn_anonymous_set X) : list X := omap id (set_array st).

Lemma elements_of_array st xs : set_array st = map Some xs -> elements_of st = xs.
Proof. unfold elements_of. intros ->. induction xs as [|x xs IH]; [reflexivity|]. cbn. now rewrite IH. Qed.

(** Up to 200 elements every decoder will do. *)
Lemma few_elements_counted ctx xs :
  Forall uper_valid xs -> Z.of_nat (length xs) <= 200 -> Forall (counted_element ctx (Z.of_nat (length xs))) xs.
Proof.
  intros Hv Hn. revert Hv. apply Forall_impl. intros x Hx. destruct (uper_dec_ok ctx x Hx) as [n Hd].
  exists n. auto.
Qed.

(** SEQUENCE OF keeps the promises its element type keeps. *)
Definition SEQUENCE_OF_codec (struct_size : Z) (td_cs : option asn_per_constraints)
  (Hsz : list_size_ok (list_constraint td_cs None)) (Hst : malloc_ok struct_size = true) : UperCodec (asn_anonymous_set X).
Proof.
  refine {|
    uper_enc := fun st K C => SEQUENCE_OF_encode_uper (fun x => uper_enc x K C) td_cs None (Some st);
    uper_dec := SET_OF_decode_uper uper_dec false struct_size td_cs None None;
    uper_valid := fun st => exists xs, st = built xs /\ Forall uper_valid xs /\
      (forall ctx, Forall (counted_element ctx (Z.of_nat (length xs))) xs) /\
      Z.of_nat (length xs) < 2 ^ 26 /\ serves A (list_room (length xs)) /\ sequence_of_bits (list_constraint td_cs None) xs <> None;
    uper_bits := fun st => default [] (sequence_of_bits (list_constraint td_cs None) (elements_of st))
  |}.
  - intros st K C S TS (xs & -> & Hv & _ & _ & _ & Hb). rewrite (elements_of_array (built xs) xs) by reflexivity.
    pose proof (SEQUENCE_OF_encode_uper_ok (K := K) td_cs None (built xs) xs eq_refl Hsz Hv) as H.
    destruct (sequence_of_bits _ xs); [exact H|congruence].
  - intros ctx st (xs & -> & Hv & Hc & Hl & HA & Hb). rewrite (elements_of_array (built xs) xs) by reflexivity.
    destruct (sequence_of_bits _ xs) as [bits|] eqn:E; [|congruence]. exists 0. now apply SET_OF_decode_uper_ok.
  - auto with follows.
Defined.

(** What a read of some bits returns. *)
Lemma few_bits_range pd nb : pd_ok pd -> 0 <= nb <= 31 -> -1 <= fst (asn_get_few_bits pd nb) < 2 ^ nb.
Proof.
  intros Hok Hnb. pose proof (Z.pow_pos_nonneg 2 nb). destruct (Z.leb_spec nb (nbits pd - nboff pd)) as [H1|H1].
  - destruct (get_few_bits_ok pd nb Hok Hnb H1) as (pd' & -> & _). cbn [fst].
    pose proof (bval_bound (take (Z.to_nat nb) (remaining pd))) as Hb. pose proof (length_remaining pd Hok).
    rewrite length_take in Hb. replace (Z.of_nat (Z.to_nat nb `min` length (remaining pd))) with nb in Hb by lia. lia.
  - rewrite get_few_bits_starved by lia. cbn [fst]. lia.
Qed.

(** Decoded lists respect a size constraint without extension. *)
Lemma decoded_count ctx c (pd : asn_bit_data) :
  size_ok c -> 0 <= effective_bits c -> has c APC_EXTENSIBLE = false -> pd_ok pd ->
  match fst (set_of_decode_body (X := X) uper_dec (Some c) ctx empty_set pd) with
  | RC_OK _ st => lower_bound c <= set_count st <= upper_bound c
  | _ => True end.
Proof.
  intros [Hc|Hc] He Hx Hok; [lia|]. unfold set_of_decode_body, sized. rewrite (proj2 (Z.leb_le _ _) He).
  pose proof (few_bits_range pd (effective_bits c) Hok ltac:(lia)) as Hr.
  destruct (asn_get_few_bits pd (effective_bits c)) as [v pd1]. cbn [fst] in Hr.
  destruct (Z.ltb_spec v 0); [exact I|]. cbv zeta.
  assert (2 ^ effective_bits c <= 2 ^ 16) by (apply Z.pow_le_mono_r; lia).
  rewrite swrap_small by (destruct word_bits_cases as [-> | ->]; lia). rewrite Hx, andb_true_r.
  destruct (Z.ltb_spec (upper_bound c) (v + lower_bound c)); [exact I|]. unfold fragments_fuel. cbn [set_of_fragments].
  assert ((v + lower_bound c <? 0) = false) as Hge by (apply Z.ltb_ge; lia).
  rewrite Hge. cbv beta iota. rewrite Hge.
  pose proof (elements_count (Z.to_nat (v + lower_bound c)) (v + lower_bound c) ctx pd1 (@empty_set X)) as Hn.
  destruct (set_of_elements _ _ _ _ _ _) as [[n st| |] pd2]; try exact I. cbn [fst] in *.
  unfold set_count. rewrite Hn. cbn [empty_set set_array length]. lia.
Qed.
End Codec.

(** * Properties *)

(** SEQUENCE OF in UPER, for any element type that keeps the promises of
    [UperCodec]: the encoder writes the count (in the bits of the size
    constraint, behind an extension bit, or as determinants with fragments
    of 16K elements) and then the elements, or fails where the size
    constraint excludes the list; the decoder returns the elements in order
    from these bits, whatever follows. *)
Theorem SEQUENCE_OF_uper_roundtrip {T : Target} {A : Allocator} {X} {U : UperCodec X}
    {K} {C : Consumer K} {S : Sink K} {TS : TotalSink K} struct_size td_cs cs ctx st xs :
  set_array st = map Some xs -> Forall uper_valid xs -> list_size_ok (list_constraint td_cs cs) ->
  Forall (counted_element ctx (Z.of_nat (length xs))) xs -> Z.of_nat (length xs) < 2 ^ 26 ->
  malloc_ok struct_size = true -> serves A (list_room (length xs)) ->
  match sequence_of_bits (list_constraint td_cs cs) xs with
  | Some bits =>
      (exists e, encodes (SEQUENCE_OF_encode_uper (fun x => uper_enc x K C) td_cs cs (Some st)) bits (ENCODED_OK e)) /\
      decodes (SET_OF_decode_uper uper_dec false struct_size td_cs cs None ctx) bits (RC_OK 0 (built xs))
  | None => forall po, SEQUENCE_OF_encode_uper (fun x => uper_enc x K C) td_cs cs (Some st) po = (ENCODE_FAILED, po)
  end.
Proof.
  intros Est Hv Hsz Hc Hl Hst HA. pose proof (SEQUENCE_OF_encode_uper_ok (K := K) td_cs cs st xs Est Hsz Hv) as He.
  destruct (sequence_of_bits _ xs) as [bits|] eqn:E; [|exact He]. split; [exact He|]. now apply SET_OF_decode_uper_ok.
Qed.

(** BOOLEAN elements in a list of one to eight. *)
Definition example_size : asn_per_constraints :=
  {| pc_value := mk_per_constraint 0 (-1) (-1) 0 0; pc_size := mk_per_constraint 2 3 3 1 8; value2code := None; code2value := None |}.

Lemma SEQUENCE_OF_uper_roundtrip_witness :
  let U := @BOOLEAN_codec (fun _ => true) (fun _ _ => eq_refl) in
  (exists e, encodes (K := ByteBuffer)
     (SEQUENCE_OF_encode_uper (fun x => @uper_enc _ U x ByteBuffer write_buffer) (Some example_size) None
        (Some (mk_set [Some 1; Some 0; Some 1] 4 false))) [false; true; false; true; false; true] (ENCODED_OK e)) /\
  decodes (@SET_OF_decode_uper LP64 (fun _ => true) Z (@uper_dec _ U) false 40 (Some example_size) None None None)
    [false; true; false; true; false; true] (RC_OK 0 (built [1; 0; 1])).
Proof.
  apply (@SEQUENCE_OF_uper_roundtrip LP64 (fun _ => true) Z (@BOOLEAN_codec (fun _ => true) (fun _ _ => eq_refl))
    ByteBuffer write_buffer _ _ 40 (Some example_size) None None (mk_set [Some 1; Some 0; Some 1] 4 false) [1; 0; 1]).
  - reflexivity.
  - repeat constructor; cbn; lia.
  - intros c [= <-]. right. cbn. lia.
  - apply few_elements_counted; [repeat constructor; cbn; lia|cbn; lia].
  - reflexivity.
  - reflexivity.
  - intros ? _. reflexivity.
Defined.

(** Hostile input to SEQUENCE OF: on any stream, whatever its bits, for
    any element type, the decoder stays inside the data and only moves
    forward; the loop over the fragments ends (more iterations than the
    length of the data change nothing); and a list accepted under a size
    constraint without extension has a number of elements inside it. *)
Theorem SET_OF_decode_uper_safe {T : Target} {A : Allocator} {X} {U : UperCodec X} overflow struct_size td_cs cs ctx pd :
  pd_ok pd ->
  follows pd (SET_OF_decode_uper (X := X) uper_dec overflow struct_size td_cs cs None ctx pd) /\
  (forall fuel (st : asn_anonymous_set X), (fragments_fuel pd <= fuel)%nat ->
     set_of_fragments uper_dec fuel (-1) ctx pd st = set_of_fragments uper_dec (fragments_fuel pd) (-1) ctx pd st) /\
  (forall c, list_constraint td_cs cs = Some c -> size_ok c -> 0 <= effective_bits c -> has c APC_EXTENSIBLE = false ->
     match fst (SET_OF_decode_uper (X := X) uper_dec overflow struct_size td_cs cs None ctx pd) with
     | RC_OK _ st => lower_bound c <= set_count st <= upper_bound c
     | _ => True end).
Proof.
  intros Hok. split; [auto with follows|]. split.
  - intros fuel st Hf. unfold fragments_fuel in *. rewrite <- length_remaining in * by assumption.
    apply list_fuel_enough; auto; lia.
  - intros c Ec Hc He Hx. unfold SET_OF_decode_uper. destruct overflow; [exact I|]. cbn [have_struct].
    destruct (malloc_ok struct_size); [|exact I]. cbn [negb]. fold (list_constraint td_cs cs). rewrite Ec. cbv zeta.
    rewrite Hx. now apply decoded_count.
Qed.

Lemma SET_OF_decode_uper_safe_witness :
  let U := @BOOLEAN_codec (fun _ => true) (fun _ _ => eq_refl) in
  let pd := mk_bit_data [91; 60] 0 16 0 in
  match fst (@SET_OF_decode_uper LP64 (fun _ => true) Z (@uper_dec _ U) false 40 (Some example_size) None None None pd) with
  | RC_OK _ st => 1 <= set_count st <= 8 | _ => True end /\
  fst (@SET_OF_decode_uper LP64 (fun _ => true) Z (@uper_dec _ U) false 40 (Some example_size) None None None pd) =
    RC_OK 0 (built [1; 1; 0]).
Proof.
  split; [|vm_compute; reflexivity].
  destruct (@SET_OF_decode_uper_safe LP64 (fun _ => true) Z (@BOOLEAN_codec (fun _ => true) (fun _ _ => eq_refl))
    false 40 (Some example_size) None None (mk_bit_data [91; 60] 0 16 0)) as (_ & _ & H).
  - unfold pd_ok; cbn. repeat split; try lia. repeat constructor; lia.
  - apply (H (pc_size example_size)); [reflexivity|right; cbn; lia|cbn; lia|reflexivity].
Defined.

(** The guard of SET_OF_decode_uper against compressed lists of NULL:
    it looks at the consumed bits the element decoder reports, which UPER
    decoders of INTEGER, ENUMERATED, strings and lists leave at zero.  So
    every encoding of more than 200 such elements that SEQUENCE_OF_encode_uper
    writes is refused by the decoder. *)
Theorem SET_OF_guard_refuses {T : Target} {A : Allocator} {X} {U : UperCodec X} struct_size td_cs cs ctx st x xs bits :
  set_array st = map Some (x :: xs) -> Forall uper_valid (x :: xs) -> list_size_ok (list_constraint td_cs cs) ->
  200 < Z.of_nat (length (x :: xs)) -> decodes (uper_dec ctx) (uper_bits x) (RC_OK 0 x) ->
  sequence_of_bits (list_constraint td_cs cs) (x :: xs) = Some bits ->
  (exists e, encodes (SEQUENCE_OF_encode_uper (fun y => uper_enc y ByteBuffer write_buffer) td_cs cs (Some st)) bits (ENCODED_OK e)) /\
  fails (SET_OF_decode_uper uper_dec false struct_size td_cs cs None ctx) bits.
Proof.
  intros Est Hv Hsz Hn Hd. pose proof (SEQUENCE_OF_encode_uper_ok (K := ByteBuffer) td_cs cs st (x :: xs) Est Hsz Hv) as He.
  intros E. rewrite E in He. split; [exact He|]. unfold SET_OF_decode_uper. cbn [have_struct]. cbv zeta.
  fold (list_constraint td_cs cs).
  destruct (malloc_ok struct_size); cbn [negb]; [|intros pd rest _ _; unfold DECODE_FAILED; eauto].
  destruct (sequence_of_bits_inv _ _ _ Hsz E) as [(c & out & Ec & Ex & Ha & ->)|(Hne & Ha & ->)].
  - rewrite Ec in *. rewrite Ex. eapply fails_bind; [apply (decodes_few_bits_of 1 1 (Z.b2z out)); destruct out; cbn; lia|].
    destruct out; cbn [Z.b2z Z.ltb Z.compare Z.eqb negb]; now apply guarded_body.
  - destruct (list_constraint td_cs cs) as [c|]; [rewrite (Hne c eq_refl)|]; now apply guarded_body.
Qed.

(** 201 unconstrained numbers. *)
Lemma SET_OF_guard_refuses_witness :
  let U := @NativeInteger_codec LP64 (fun _ => true) None None ltac:(discriminate) (fun _ _ => eq_refl) in
  let xs := replicate 201 7 in
  let bits := default [] (sequence_of_bits (U := U) None xs) in
  (exists e, encodes (K := ByteBuffer)
     (SEQUENCE_OF_encode_uper (fun y => @uper_enc _ U y ByteBuffer write_buffer) None None (Some (built xs))) bits (ENCODED_OK e)) /\
  fails (@SET_OF_decode_uper LP64 (fun _ => true) Z (@uper_dec _ U) false 40 None None None None) bits.
Proof.
  apply (@SET_OF_guard_refuses LP64 (fun _ => true) Z
    (@NativeInteger_codec LP64 (fun _ => true) None None ltac:(discriminate) (fun _ _ => eq_refl))
    40 None None None (built (replicate 201 7)) 7 (replicate 200 7)).
  - reflexivity.
  - apply (Forall_replicate _ 201). split; [cbn; unfold is_long, LONG_MIN, LONG_MAX; cbn; lia|discriminate].
  - discriminate.
  - reflexivity.
  - pose proof (@NativeInteger_uper_ok LP64 (fun _ => true) ByteBuffer write_buffer _ _ None None None None None 7
      ltac:(cbn; unfold is_long, LONG_MIN, LONG_MAX; cbn; lia) ltac:(discriminate) (fun _ _ => eq_refl)) as H. apply H.
  - vm_compute. reflexivity.
Defined.
