(* ===== verification/OpenType.v ===== *)
(** Open types in UPER: uper_opentype.c, per_opentype.c and OPEN_TYPE_uper.c
    under vanetza/asn1/support/.

    A value of a type the reader may not know travels as a complete encoding
    in octets behind length determinants: the encoder lets the type write a
    buffer of its own, the decoder collects the octets and gives them to the
    type as a stream of their own, and a reader that does not know the type
    skips them.  The scratch areas of the inner encoders hold [tmp] before;
    the stack check compares addresses, so its outcome is an argument. *)

From S2P Require Import Prelude Runtime Constraints BitData BitOutp UperSupport Integer IntegerUper UperCodec.

(** * Encoding *)

Section Put.
Context {T : Target} {A : Allocator} {K : Type} {C : Consumer K}.

(** The do-while loop of uper_open_type_put. *)
Fixpoint open_type_fragments (fuel : nat) (size : Z) (bptr : list Z) (po : asn_bit_outp K) : Z * asn_bit_outp K :=
  match fuel with
  | O => (-1, po)
  | S fuel' =>
      let '((may_save, need_eom), po) := uper_put_length po size in
      if may_save <? 0 then (-1, po) else
      let '(rc, po) := asn_put_many_bits po bptr (may_save * 8) in
      if negb (rc =? 0) then (-1, po) else
      let bptr := drop (Z.to_nat may_save) bptr in
      let size := size - may_save in
      let '(rc, po) := if need_eom then let '((rc, _), po) := uper_put_length po 0 in (rc, po) else (0, po) in
      if negb (rc =? 0) then (-1, po) else
      if size =? 0 then (0, po) else open_type_fragments fuel' size bptr po
  end.

(** uper_open_type_put. *)
Definition uper_open_type_put (enc : option uper_type_encoder) (tmp : list Z) (po : asn_bit_outp K) : Z * asn_bit_outp K :=
  match uper_encode_to_new_buffer enc tmp with
  | None => (-1, po)
  | Some (size, buf) => if size <=? 0 then (-1, po) else open_type_fragments (S (Z.to_nat size)) size buf po
  end.
End Put.

(** * Decoding *)

Section Get.
Context {T : Target} {A : Allocator}.

(** The do-while loop of uper_open_type_get_simple: [buf] are the [bufLen]
    octets in the [bufSize] octets of memory. *)
Fixpoint open_type_octets (fuel : nat) (pd : asn_bit_data) (buf : list Z) (bufSize : Z) : asn_dec_rval (list Z) * asn_bit_data :=
  match fuel with
  | O => (DECODE_FAILED, pd)
  | S fuel' =>
      let '((chunk_bytes, repeat), pd) := uper_get_length pd (-1) 0 in
      if chunk_bytes <? 0 then (DECODE_STARVED, pd) else
      let grow := bufSize <? Z.of_nat (length buf) + chunk_bytes in
      let bufSize := if grow then uwrap word_bits (chunk_bytes + uwrap word_bits (bufSize ≪ 2)) else bufSize in
      if grow && negb (malloc_ok bufSize) then (DECODE_FAILED, pd) else
      let '(got, pd) := asn_get_many_bits pd false (chunk_bytes ≪ 3) in
      match got with
      | None => (DECODE_STARVED, pd)
      | Some bs => if repeat then open_type_octets fuel' pd (buf ++ bs) bufSize else (RC_OK 0 (buf ++ bs), pd)
      end
  end.

(** uper_open_type_get_simple.  The third test of the padding compares
    pointers: the inner reader still is at the first octet. *)
Definition uper_open_type_get_simple {X} (stack_overflow : bool) (dec : uper_type_decoder X) (ctx : option asn_codec_ctx)
    (pd : asn_bit_data) : asn_dec_rval X * asn_bit_data :=
  if stack_overflow then (DECODE_FAILED, pd) else
  let '(r, pd) := open_type_octets (fragments_fuel pd) pd [] 0 in
  match r with
  | RC_WMORE n => (RC_WMORE n, pd)
  | RC_FAIL n => (RC_FAIL n, pd)
  | RC_OK _ buf =>
      let spd := {| buffer := buf; nboff := 0; nbits := Z.of_nat (length buf) ≪ 3; moved := 0 |} in
      let '(rv, spd) := dec ctx spd in
      match rv with
      | RC_OK n x =>
          let padding := nbits spd - nboff spd in
          if (((0 <? padding) && (padding <? 8)) || ((nboff spd =? 0) && (nbits spd =? 8) && (length (buffer spd) =? length buf)%nat))
             && (fst (asn_get_few_bits spd padding) =? 0) then (RC_OK n x, pd)
          else if 8 <=? padding then (DECODE_FAILED, pd)
          else (RC_OK n x, pd)
      | RC_WMORE n | RC_FAIL n => (RC_FAIL n, pd)
      end
  end.
Definition uper_open_type_get {X} := @uper_open_type_get_simple X.

(** uper_sot_suck: while(per_get_few_bits(pd, 1) >= 0); *)
Fixpoint suck_bits (fuel : nat) (pd : asn_bit_data) : asn_bit_data :=
  match fuel with
  | O => pd
  | S fuel' => let '(b, pd) := asn_get_few_bits pd 1 in if 0 <=? b then suck_bits fuel' pd else pd
  end.
Definition uper_sot_suck : uper_type_decoder unit := fun _ pd =>
  let pd := suck_bits (fragments_fuel pd) pd in (RC_OK (moved pd) tt, pd).

(** uper_open_type_skip. *)
Definition uper_open_type_skip (stack_overflow : bool) (ctx : option asn_codec_ctx) (pd : asn_bit_data) : Z * asn_bit_data :=
  let '(rv, pd) := uper_open_type_get stack_overflow uper_sot_suck ctx pd in
  (match rv with RC_OK _ _ => 0 | RC_WMORE _ | RC_FAIL _ => -1 end, pd).
End Get.

(** * Open types on the wire *)

(** A complete encoding in fragments, X.691 #11.2. *)
Definition open_type_bits (l : list bool) : list bool := fragmented (new_buffer_octets l).

Section Write.
Context {T : Target} {A : Allocator} {K : Type} {C : Consumer K} {S : Sink K} {R : RoomySink K}.

Lemma encodes_open_type_fragments bs : forall fuel,
  octets bs -> bs <> [] -> (length bs < fuel)%nat ->
  encodes (fun po : asn_bit_outp K => open_type_fragments fuel (Z.of_nat (length bs)) bs po) (fragmented bs) 0.
Proof.
  induction bs as [bs H|bs H IH] using fragments_ind; intros [|fuel] Hbs Hn Hf; try lia;
    unfold fragmented; rewrite fragmented_eq; cbv zeta; fold fragmented; cbn [open_type_fragments].
  - rewrite (proj2 (Z.ltb_lt _ _)) by assumption. eapply encodes_bind; [apply encodes_length; lia|].
    cbv beta iota. rewrite (proj2 (Z.ltb_ge _ _)) by lia. rewrite (Z.mul_comm _ 8).
    eapply encodes_last; [now apply encodes_many_octets|]. cbn [negb Z.eqb].
    rewrite Z.sub_diag. cbn [Z.eqb]. apply encodes_ret.
  - rewrite (proj2 (Z.ltb_ge _ 16384)) by assumption. pose proof (fragment_units_bound _ H) as [Hm Hle].
    set (m := fragment_units (Z.of_nat (length bs))) in *. set (k := Z.to_nat (16384 * m)) in *.
    eapply encodes_bind; [now apply encodes_fragment|]. cbv beta iota. fold m.
    rewrite (proj2 (Z.ltb_ge _ _)) by lia. rewrite <- (bytes_bits_take bs k), (Z.mul_comm _ 8).
    replace (8 * k)%nat with (Z.to_nat (8 * (16384 * m))) by lia.
    eapply encodes_bind; [apply encodes_many_bits; auto; lia|]. cbn [negb Z.eqb]. fold k.
    destruct (Z.eqb_spec (Z.of_nat (length bs)) (16384 * m)) as [E|E].
    + rewrite drop_ge by lia. change (fragmented []) with (length_bits 0). rewrite E, Z.sub_diag.
      intros po Hok Hr. destruct (encodes_length (K := K) 0 ltac:(lia) po Hok Hr) as (po1 & E1 & A1).
      rewrite E1. cbn [negb Z.eqb]. eauto.
    + cbn [negb Z.eqb]. rewrite (proj2 (Z.eqb_neq _ 0)) by lia.
      replace (Z.of_nat (length bs) - 16384 * m) with (Z.of_nat (length (drop k bs))) by len.
      apply IH; auto with asn; [|len]. intros E0. apply (f_equal length) in E0. revert E0. len.
Qed.

(** Memory for the encoding of [l] on its own. *)
Definition open_type_room (l : list bool) : Prop :=
  let n := Z.of_nat (length (new_buffer_octets l)) in
  n < 2 ^ (word_bits - 4) /\ serves A (Z.max 32 (5 * n)).

Lemma encodes_open_type {X} {U : UperCodec X} tmp x :
  length tmp = sizeof_tmpspace -> octets tmp -> uper_valid x -> open_type_room (uper_bits x) ->
  encodes (fun po : asn_bit_outp K => uper_open_type_put (Some (uper_enc x)) tmp po) (open_type_bits (uper_bits x)) 0.
Proof.
  intros Ht Ho Hv [Hn HA]. destruct (new_buffer_octets_ok (uper_bits x)) as (Hb & pad & Eb & Hp).
  assert (2 ^ (word_bits - 4) <= 2 ^ (word_bits - 2)) as Hw by (apply Z.pow_le_mono_r; destruct sizeof_word_cases; lia).
  pose proof (uper_encode_to_new_buffer_ok tmp x _ Ht Ho Hv (Z.le_refl _)) as Enc. unfold uper_open_type_put.
  rewrite Enc by first [lia|eapply serves_le; [exact HA|lia]].
  assert (new_buffer_octets (uper_bits x) <> []) as Hne.
  { intros E0. rewrite E0 in Eb. symmetry in Eb. apply app_eq_nil in Eb as [E1 E2].
    destruct Hp as [[Hl _]|[_ ->]]; [congruence|discriminate E2]. }
  assert (length (new_buffer_octets (uper_bits x)) <> 0%nat) by (now intros ?%length_zero_iff_nil).
  rewrite (proj2 (Z.leb_gt _ 0)) by lia. apply encodes_open_type_fragments; auto. lia.
Qed.
End Write.

Section Read.
Context {T : Target} {A : Allocator}.

Lemma decodes_open_type_octets bs : forall fuel buf bufSize,
  octets bs -> (length bs < fuel)%nat -> 0 <= bufSize <= 5 * Z.of_nat (length buf) ->
  Z.of_nat (length buf) <= bufSize -> Z.of_nat (length (buf ++ bs)) < 2 ^ (word_bits - 4) ->
  serves A (5 * Z.of_nat (length (buf ++ bs))) ->
  decodes (fun pd => open_type_octets fuel pd buf bufSize) (fragmented bs) (RC_OK 0 (buf ++ bs)).
Proof.
  assert (2 ^ word_bits = 16 * 2 ^ (word_bits - 4)) as Ew by (destruct sizeof_word_cases as [[-> _]|[-> _]]; reflexivity).
  assert (forall n old new, 0 <= old -> old < n -> 0 <= new <= n -> n < 2 ^ (word_bits - 4) ->
    uwrap word_bits (new + uwrap word_bits (old ≪ 2)) = new + 4 * old) as Eg.
  { intros n old new H1 H2 H3 H4. rewrite Z.shiftl_mul_pow2 by lia. change (2 ^ 2) with 4.
    rewrite (uwrap_small word_bits (old * 4)) by lia. rewrite uwrap_small; lia. }
  induction bs as [bs H|bs H IH] using fragments_ind; intros [|fuel] buf bufSize Hbs Hf Hsz Hle Hl HA; try lia;
    unfold fragmented; rewrite fragmented_eq; cbv zeta; fold fragmented; cbn [open_type_octets]; rewrite length_app in *.
  - rewrite (proj2 (Z.ltb_lt _ _)) by assumption. eapply decodes_bind; [apply decodes_length; lia|].
    cbv beta iota zeta. rewrite (proj2 (Z.ltb_ge _ 0)) by lia. rewrite (Z.shiftl_mul_pow2 _ 3), (Z.mul_comm _ (2 ^ 3)) by lia. change (2 ^ 3) with 8.
    replace (_ && negb _) with false; [eapply decodes_last; [now apply decodes_many_bits_octets|]; apply decodes_ret|].
    destruct (Z.ltb_spec bufSize (Z.of_nat (length buf) + Z.of_nat (length bs))); [|reflexivity].
    rewrite (Eg (Z.of_nat (length buf) + Z.of_nat (length bs))), HA by lia. reflexivity.
  - rewrite (proj2 (Z.ltb_ge _ 16384)) by assumption. pose proof (fragment_units_bound _ H) as [Hm Hmle].
    set (m := fragment_units (Z.of_nat (length bs))) in *. set (k := Z.to_nat (16384 * m)) in *.
    eapply decodes_bind; [apply decodes_fragment; lia|]. cbv beta iota zeta. rewrite (proj2 (Z.ltb_ge _ 0)) by lia.
    rewrite (Z.shiftl_mul_pow2 _ 3), (Z.mul_comm _ (2 ^ 3)) by lia. change (2 ^ 3) with 8.
    set (grow := bufSize <? _). set (bufSize' := if grow then _ else _).
    assert (grow && negb (malloc_ok bufSize') = false /\ 0 <= bufSize' <= 5 * (Z.of_nat (length buf) + 16384 * m) /\
      Z.of_nat (length buf) + 16384 * m <= bufSize') as (-> & Hs' & Hle').
    { subst bufSize' grow. destruct (Z.ltb_spec bufSize (Z.of_nat (length buf) + 16384 * m)); [|split; [reflexivity|lia]].
      rewrite (Eg (Z.of_nat (length buf) + 16384 * m)), HA by lia. split; [reflexivity|lia]. }
    replace (8 * (16384 * m)) with (8 * Z.of_nat (length (take k bs))) by len.
    eapply decodes_bind; [apply decodes_many_bits_octets; auto with asn|]. cbv beta iota.
    replace (buf ++ bs) with ((buf ++ take k bs) ++ drop k bs) by now rewrite <- app_assoc, take_drop.
    apply IH; auto with asn; len. eapply serves_le; [exact HA|len].
Qed.

Lemma decodes_octets bs :
  octets bs -> Z.of_nat (length bs) < 2 ^ (word_bits - 4) -> serves A (5 * Z.of_nat (length bs)) ->
  decodes (fun pd => open_type_octets (fragments_fuel pd) pd [] 0) (fragmented bs) (RC_OK 0 bs).
Proof.
  intros Hbs Hl HA pd rest Hok E. apply (decodes_open_type_octets bs (fragments_fuel pd) [] 0); auto; cbn [length app]; try lia.
  unfold fragments_fuel. rewrite <- length_remaining, E by assumption. pose proof (length_fragmented bs). len.
Qed.

(** The reader of a collected buffer. *)
Lemma open_type_stream bs : octets bs ->
  let spd := {| buffer := bs; nboff := 0; nbits := Z.of_nat (length bs) ≪ 3; moved := 0 |} in
  pd_ok spd /\ remaining spd = bytes_bits bs.
Proof.
  intros Ho. destruct (new_stream_ok bs Ho) as [H1 H2]. rewrite Z.shiftl_mul_pow2, Z.mul_comm by lia. change (2 ^ 3) with 8. now split.
Qed.

(** What the decoder makes of a buffer: a value and what is left of it. *)
Lemma open_type_value {X} (dec : uper_type_decoder X) ctx bs bits pad n x :
  octets bs -> bytes_bits bs = bits ++ pad -> decodes (dec ctx) bits (RC_OK n x) -> bits <> [] ->
  let spd := {| buffer := bs; nboff := 0; nbits := Z.of_nat (length bs) ≪ 3; moved := 0 |} in
  exists spd', dec ctx spd = (RC_OK n x, spd') /\ nbits spd' - nboff spd' = Z.of_nat (length pad) /\
    (nboff spd' =? 0) && (nbits spd' =? 8) && (length (buffer spd') =? length bs)%nat = false.
Proof.
  intros Hbs Eb Hd Hn spd. destruct (open_type_stream bs Hbs) as [Hpd Hrem]. fold spd in Hpd, Hrem. rewrite Eb in Hrem.
  destruct (Hd spd pad Hpd Hrem) as (spd' & E & Ha & Hr). exists spd'. split; [exact E|].
  pose proof (length_remaining spd' (proj1 Ha)) as Hl. rewrite Hr in Hl. split; [lia|].
  destruct Ha as (_ & _ & _ & _ & Hp). cbn [nboff buffer spd] in Hp.
  destruct (Z.eqb_spec (nboff spd') 0), (Nat.eqb_spec (length (buffer spd')) (length bs)); rewrite ?andb_false_r; try reflexivity.
  destruct bits; [congruence|cbn [length] in Hp; lia].
Qed.

(** A type without bits reads nothing of its stream. *)
Definition reads_nothing {X} {U : UperCodec X} (x : X) : Prop :=
  uper_bits x = [] -> forall ctx pd, pd_ok pd -> exists n, uper_dec ctx pd = (RC_OK n x, pd).

Lemma decodes_open_type {X} {U : UperCodec X} ctx x :
  uper_valid x -> open_type_room (uper_bits x) -> reads_nothing x ->
  exists n, decodes (uper_open_type_get false uper_dec ctx) (open_type_bits (uper_bits x)) (RC_OK n x).
Proof.
  intros Hv [Hn HA] Hnull. destruct (new_buffer_octets_ok (uper_bits x)) as (Hb & pad & Eb & Hp).
  unfold open_type_bits, uper_open_type_get, uper_open_type_get_simple.
  assert (forall r : asn_dec_rval X, (forall pd : asn_bit_data,
      (let spd := {| buffer := new_buffer_octets (uper_bits x); nboff := 0; nbits := Z.of_nat (length (new_buffer_octets (uper_bits x))) ≪ 3; moved := 0 |} in
       let '(rv, spd) := uper_dec ctx spd in
       match rv with
       | RC_OK n x' =>
          let padding := nbits spd - nboff spd in
          if (((0 <? padding) && (padding <? 8)) || ((nboff spd =? 0) && (nbits spd =? 8) && (length (buffer spd) =? length (new_buffer_octets (uper_bits x)))%nat))
             && (fst (asn_get_few_bits spd padding) =? 0) then (RC_OK n x', pd)
          else if 8 <=? padding then (DECODE_FAILED, pd)
          else (RC_OK n x', pd)
       | RC_WMORE n | RC_FAIL n => (RC_FAIL n, pd)
       end) = (r, pd)) ->
    decodes (fun pd => uper_open_type_get_simple false uper_dec ctx pd) (fragmented (new_buffer_octets (uper_bits x))) r) as Hmain.
  { intros r Hr. unfold uper_open_type_get_simple.
    eapply decodes_last; [apply decodes_octets; [exact Hb|exact Hn|eapply serves_le; [exact HA|lia]]|].
    cbv beta iota. eapply decodes_ext; [intros pd; symmetry; apply Hr|]. apply decodes_ret. }
  destruct Hp as [[Hne Hlt]|[He ->]].
  - destruct (uper_dec_ok ctx x Hv) as [n Hd]. exists n. apply Hmain. intros pd. cbv zeta.
    destruct (open_type_value uper_dec ctx _ _ _ n x Hb Eb Hd Hne) as (spd' & E & El & _).
    rewrite E, El, length_replicate, (proj2 (Z.leb_gt 8 _)) by lia. now destruct (_ && _).
  - destruct (open_type_stream _ Hb) as [Hpd Hrem]. destruct (Hnull He ctx _ Hpd) as [n E]. exists n. apply Hmain. intros pd. cbv zeta.
    rewrite E, He. cbn [new_buffer_octets length nbits nboff buffer].
    pose proof (decodes_few_bits_of 8 8 0 ltac:(lia) ltac:(lia) ltac:(lia) {| buffer := [0]; nboff := 0; nbits := Z.of_nat 1 ≪ 3; moved := 0 |} []) as Hz.
    destruct Hz as (pd' & Ez & _); [rewrite He in Hpd; exact Hpd|reflexivity|]. change (Z.of_nat 1 ≪ 3 - 0) with 8. now rewrite Ez.
Qed.

(** ** Skipping *)

Lemma suck_bits_ok fuel : forall pd, pd_ok pd -> (length (remaining pd) < fuel)%nat ->
  advanced pd (suck_bits fuel pd) (length (remaining pd)).
Proof.
  induction fuel as [|fuel IH]; intros pd Hok Hf; [lia|]. cbn [suck_bits]. pose proof (length_remaining pd Hok) as Hl.
  destruct (remaining pd) as [|b l] eqn:Er.
  - rewrite get_few_bits_starved by (cbn [length] in Hl; auto; lia). cbn [Z.leb]. now apply advanced_0.
  - destruct (decodes_few_bits 1 [b] ltac:(reflexivity) ltac:(lia) pd l Hok Er) as (pd1 & E & A1 & R1). rewrite E.
    pose proof (bval_bound [b]). rewrite (proj2 (Z.leb_le 0 _)) by lia.
    change (length (b :: l)) with (length [b] + length l)%nat. eapply advanced_trans; [exact A1|].
    rewrite <- R1. apply IH; [apply A1|]. rewrite R1. cbn [length] in Hf. lia.
Qed.

Lemma decodes_open_type_skip ctx bs :
  octets bs -> Z.of_nat (length bs) < 2 ^ (word_bits - 4) -> serves A (5 * Z.of_nat (length bs)) ->
  decodes (uper_open_type_skip false ctx) (fragmented bs) 0.
Proof.
  intros Hbs Hl HA. unfold uper_open_type_skip.
  assert (exists n, decodes (uper_open_type_get false uper_sot_suck ctx) (fragmented bs) (RC_OK n tt)) as [n Hd].
  2: { eapply decodes_last; [exact Hd|]. apply decodes_ret. }
  unfold uper_open_type_get, uper_open_type_get_simple. destruct (open_type_stream bs Hbs) as [Hpd Hrem].
  set (spd := {| buffer := bs; nboff := 0; nbits := Z.of_nat (length bs) ≪ 3; moved := 0 |}) in *.
  pose proof (suck_bits_ok (fragments_fuel spd) spd Hpd) as Hs.
  assert (advanced spd (suck_bits (fragments_fuel spd) spd) (length (remaining spd))) as Ha.
  { apply Hs. unfold fragments_fuel. rewrite <- length_remaining by assumption. lia. }
  exists (moved (suck_bits (fragments_fuel spd) spd)).
  eapply decodes_last; [apply decodes_octets; assumption|]. cbv beta iota zeta. unfold uper_sot_suck. fold spd.
  assert (nbits (suck_bits (fragments_fuel spd) spd) - nboff (suck_bits (fragments_fuel spd) spd) = 0) as Ep.
  { rewrite <- length_remaining by apply Ha. destruct Ha as (_ & -> & _). rewrite drop_all. reflexivity. }
  rewrite Ep. cbn [Z.leb Z.compare]. destruct (_ && _); apply decodes_ret.
Qed.

(** ** On arbitrary data *)

Lemma follows_open_type_octets fuel : forall pd buf bufSize, pd_ok pd -> follows pd (open_type_octets fuel pd buf bufSize).
Proof. induction fuel as [|fuel IH]; intros pd buf bufSize Hok; cbn [open_type_octets]; follow. Qed.
#[local] Hint Resolve follows_open_type_octets : follows.

Lemma follows_open_type {X} overflow (dec : uper_type_decoder X) ctx pd : pd_ok pd -> follows pd (uper_open_type_get overflow dec ctx pd).
Proof.
  intros Hok. unfold uper_open_type_get, uper_open_type_get_simple. follow.
Qed.
#[local] Hint Resolve follows_open_type : follows.

Lemma follows_open_type_skip overflow ctx pd : pd_ok pd -> follows pd (uper_open_type_skip overflow ctx pd).
Proof. intros Hok. unfold uper_open_type_skip. follow. Qed.

(** More fuel changes nothing: every fragment takes an octet. *)
Lemma open_type_fuel_enough f1 : forall f2 pd buf bufSize,
  pd_ok pd -> (length (remaining pd) < f1)%nat -> (length (remaining pd) < f2)%nat ->
  open_type_octets f1 pd buf bufSize = open_type_octets f2 pd buf bufSize.
Proof.
  induction f1 as [|f1 IH]; intros [|f2] pd buf bufSize Hok H1 H2; try lia. cbn [open_type_octets].
  pose proof (get_length_progress pd Hok) as Hp. destruct (uper_get_length pd (-1) 0) as [[chunk more] pd1].
  destruct (chunk <? 0); [reflexivity|]. destruct Hp as [(n & Hn & Ha) _]. cbv zeta.
  destruct (_ && negb _); [reflexivity|].
  destruct (follows_many_bits pd1 false (chunk ≪ 3) (proj1 Ha)) as [m Hm].
  destruct (asn_get_many_bits pd1 false (chunk ≪ 3)) as [[bs|] pd2]; [|reflexivity].
  destruct more; [|reflexivity]. cbn [snd] in Hm. destruct Ha as (_ & R1 & L1 & _), Hm as (Hok2 & R2 & _).
  apply IH; [assumption| |]; rewrite R2, R1; len.
Qed.
End Read.
#[export] Hint Resolve follows_open_type follows_open_type_skip : follows.

(** * Properties *)

(** Open types, X.691 #11.2: for every type that keeps the promises of
    [UperCodec], any valid value and memory for its encoding,
    uper_open_type_put appends exactly the octets of the value's complete
    encoding behind length determinants (a single zero octet when the value
    has no bits), in fragments when there are 16384 or more; from these bits,
    whatever follows them, uper_open_type_get returns the value and
    uper_open_type_skip, which does not know the type, succeeds, and both
    stop right behind the encoding. *)
Theorem open_type_roundtrip {T : Target} {A : Allocator} {X} {U : UperCodec X} {K} {C : Consumer K} {S : Sink K} {TS : TotalSink K}
    tmp ctx x (po : asn_bit_outp K) :
  length tmp = sizeof_tmpspace -> octets tmp -> uper_valid x -> open_type_room (uper_bits x) -> reads_nothing x -> po_ok po ->
  (exists po', uper_open_type_put (Some (uper_enc x)) tmp po = (0, po') /\ po_ok po' /\
     written po' = written po ++ open_type_bits (uper_bits x)) /\
  forall pd rest, pd_ok pd -> remaining pd = open_type_bits (uper_bits x) ++ rest ->
    (exists n pd', uper_open_type_get false uper_dec ctx pd = (RC_OK n x, pd') /\ pd_ok pd' /\ remaining pd' = rest) /\
    (exists pd', uper_open_type_skip false ctx pd = (0, pd') /\ pd_ok pd' /\ remaining pd' = rest).
Proof.
  intros Ht Ho Hv Hroom Hnull Hpo. split.
  - destruct (encodes_open_type (K := K) tmp x Ht Ho Hv Hroom po Hpo (fits_total _)) as (po' & E & Hok & Hw & _). eauto.
  - intros pd rest Hpd E. split.
    + destruct (decodes_open_type ctx x Hv Hroom Hnull) as [n Hd]. destruct (Hd pd rest Hpd E) as (pd' & E' & Ha & Hr).
      exists n, pd'. split; [exact E'|]. split; [apply Ha|exact Hr].
    + destruct Hroom as [Hn HA]. destruct (new_buffer_octets_ok (uper_bits x)) as [Hb _].
      destruct (decodes_open_type_skip ctx (new_buffer_octets (uper_bits x)) Hb Hn ltac:(eapply serves_le; [exact HA|lia]) pd rest Hpd E)
        as (pd' & E' & Ha & Hr). exists pd'. split; [exact E'|]. split; [apply Ha|exact Hr].
Qed.

Lemma open_type_roundtrip_witness :
  let U := @BOOLEAN_codec (fun _ => true) (fun _ _ => eq_refl) in
  let po := fresh_outp (replicate 32 0) ([] : ByteBuffer) in
  (exists po', @uper_open_type_put LP64 (fun _ => true) _ _ (Some (@uper_enc _ U 1)) (replicate 32 9) po = (0, po') /\ po_ok po' /\
     written po' = written po ++ open_type_bits [true]) /\
  forall pd rest, pd_ok pd -> remaining pd = open_type_bits [true] ++ rest ->
    (exists n pd', @uper_open_type_get LP64 (fun _ => true) _ false (@uper_dec _ U) None pd = (RC_OK n 1, pd') /\ pd_ok pd' /\ remaining pd' = rest) /\
    (exists pd', @uper_open_type_skip LP64 (fun _ => true) false None pd = (0, pd') /\ pd_ok pd' /\ remaining pd' = rest).
Proof.
  apply (@open_type_roundtrip LP64 (fun _ => true) Z (@BOOLEAN_codec (fun _ => true) (fun _ _ => eq_refl)) ByteBuffer _ _ _
    (replicate 32 9) None 1).
  - reflexivity.
  - repeat constructor; lia.
  - now right.
  - split; [reflexivity|intros ? _; reflexivity].
  - intros E. discriminate E.
  - apply fresh_outp_ok; [reflexivity|repeat constructor; lia|constructor].
Defined.

(** Padding of open types: let the octets of an open type hold the
    bits of a value, at least one, and then [pad].  Fewer than eight padding
    bits are accepted whatever they are, zero or not; eight or more, a whole
    octet the value does not need, are refused.  In both cases the outer
    stream stands behind the open type. *)
Theorem open_type_padding {T : Target} {A : Allocator} {X} (dec : uper_type_decoder X) ctx bs bits pad n x pd rest :
  octets bs -> bytes_bits bs = bits ++ pad -> bits <> [] -> decodes (dec ctx) bits (RC_OK n x) ->
  Z.of_nat (length bs) < 2 ^ (word_bits - 4) -> serves A (5 * Z.of_nat (length bs)) ->
  pd_ok pd -> remaining pd = fragmented bs ++ rest ->
  exists pd', uper_open_type_get false dec ctx pd = (if (length pad <? 8)%nat then RC_OK n x else DECODE_FAILED, pd') /\
    pd_ok pd' /\ remaining pd' = rest.
Proof.
  intros Hb Eb Hn Hd Hl HA Hpd E. destruct (decodes_octets bs Hb Hl HA pd rest Hpd E) as (pd' & E' & Ha & Hr).
  exists pd'. split; [|split; [apply Ha|exact Hr]]. unfold uper_open_type_get, uper_open_type_get_simple. rewrite E'.
  destruct (open_type_value dec ctx bs bits pad n x Hb Eb Hd Hn) as (spd' & Ev & Elen & Eraw). cbv zeta in *.
  rewrite Ev, Elen, Eraw, orb_false_r.
  destruct (Nat.ltb_spec (length pad) 8).
  - rewrite (proj2 (Z.leb_gt 8 _)) by lia. match goal with |- (if ?b then _ else _) = _ => now destruct b end.
  - rewrite (proj2 (Z.ltb_ge _ 8)) by lia. rewrite andb_false_r. cbn [andb]. now rewrite (proj2 (Z.leb_le 8 _)) by lia.
Qed.

Lemma open_type_padding_witness :
  let U := @BOOLEAN_codec (fun _ => true) (fun _ _ => eq_refl) in
  exists pd', @uper_open_type_get LP64 (fun _ => true) _ false (@uper_dec _ U) None
      {| buffer := [1; 213]; nboff := 0; nbits := 16; moved := 0 |} = (RC_OK 1 1, pd') /\ pd_ok pd' /\ remaining pd' = [].
Proof.
  apply (@open_type_padding LP64 (fun _ => true) Z (@uper_dec _ (@BOOLEAN_codec (fun _ => true) (fun _ _ => eq_refl))) None
    [213] [true] [true; false; true; false; true; false; true]).
  - repeat constructor; lia.
  - reflexivity.
  - discriminate.
  - intros pd rest Hpd E. destruct (decodes_few_bits_of 1 1 1 ltac:(lia) ltac:(lia) ltac:(lia) pd rest Hpd E) as (pd' & E' & H).
    exists pd'. split; [|exact H]. cbn [uper_dec BOOLEAN_codec]. unfold BOOLEAN_decode_uper. cbn [have_struct]. now rewrite E'.
  - reflexivity.
  - intros ? _. reflexivity.
  - split; [cbn; lia|]. split; [cbn; lia|repeat constructor; lia].
  - reflexivity.
Defined.
