(* ===== verification/Sequence.v ===== *)
(** SEQUENCE in UPER: constr_SEQUENCE_uper.c and the comparison, copy and
    constraint check of constr_SEQUENCE.c under vanetza/asn1/support/.

    A structure is the list of its members' slots: a pointer member is absent
    or a value, an inline member always is a value.  The operations of the
    members' types are fields of the member table, as in the generated code.
    SequenceCodec.v verifies them, SequenceTheorems.v states what they do. *)

From S2P Require Import Prelude Runtime Constraints BitData BitOutp UperSupport Integer IntegerUper UperCodec OpenType.

(** * The tables *)

(** asn_TYPE_member_t: the flags ATF_POINTER and ATF_OPEN_TYPE, the optional
    count as a boolean, the value of zeroed memory, and the operations of the
    type and of the DEFAULT.  [default_value_set] gets what its argument
    points to and returns the new value, or nothing when memory is short. *)
Record asn_TYPE_member (V : Type) := {
  elm_pointer : bool;
  elm_optional : bool;
  elm_zero : V;
  elm_encode : V -> uper_type_encoder;
  elm_decode : option V -> uper_type_decoder V;
  elm_open_type : option (list (option V) -> uper_type_decoder V);
  default_value_set : option (option V -> option V);
  default_value_cmp : option (V -> Z);
  compare_struct : option (V -> V -> Z);
  copy_struct : option V -> option V -> option (option V);
  general_constraints : V -> Z
}.
Arguments elm_pointer {V} _.
Arguments elm_optional {V} _.
Arguments elm_zero {V} _.
Arguments elm_encode {V} _.
Arguments elm_decode {V} _.
Arguments elm_open_type {V} _.
Arguments default_value_set {V} _.
Arguments default_value_cmp {V} _.
Arguments compare_struct {V} _.
Arguments copy_struct {V} _.
Arguments general_constraints {V} _.

(** asn_SEQUENCE_specifics_t: [oms] are the positions of the optional
    members, those of the root first. *)
Record asn_SEQUENCE_specifics := {
  seq_struct_size : Z;
  oms : list nat;
  roms_count : nat;
  aoms_count : nat;
  first_extension : Z
}.

(** The outcomes of the stack checks in the function itself, in
    uper_open_type_get and below uper_open_type_skip. *)
Record stack_checks := { overflow_here : bool; overflow_open_type : bool; overflow_skip : bool }.
Definition stack_ok : stack_checks := {| overflow_here := false; overflow_open_type := false; overflow_skip := false |}.

(** A canonical context that is not lenient. *)
Definition strictly_canonical (ctx : option asn_codec_ctx) : bool :=
  match ctx with Some c => uper_canonical c && negb (uper_canonical_lenient c) | None => false end.

Section Tables.
Context {V : Type}.

(** CALLOC: no pointer, zeroed values. *)
Definition fresh_slot (elm : asn_TYPE_member V) : option V := if elm_pointer elm then None else Some (elm_zero elm).
Definition zero_struct (elements : list (asn_TYPE_member V)) : list (option V) := map fresh_slot elements.

Definition slot (st : list (option V)) (edx : nat) : option V := default None (st !! edx).

(** The loop bound of the root members. *)
Definition seq_root_count (specs : asn_SEQUENCE_specifics) (elements : list (asn_TYPE_member V)) : nat :=
  if first_extension specs <? 0 then length elements else Z.to_nat (first_extension specs).
End Tables.

(** * Decoder *)

Section Decode.
Context {T : Target} {A : Allocator} {V : Type}.

(** The decoded value of a member with a DEFAULT equals the DEFAULT. *)
Definition is_encoded_default (elm : asn_TYPE_member V) (v : V) : bool :=
  elm_optional elm &&
  match default_value_set elm with
  | Some set => match set None, compare_struct elm with Some d, Some cmp => cmp v d =? 0 | _, _ => false end
  | None => false
  end.

(** The loop over the root members from [edx] on; [opmd] reads the presence
    bitmap. *)
Fixpoint seq_decode_root (ctx : option asn_codec_ctx) (elms : list (asn_TYPE_member V)) (edx : nat)
    (st : list (option V)) (opmd pd : asn_bit_data) : asn_dec_rval (list (option V)) * asn_bit_data :=
  match elms with
  | [] => (RC_OK 0 st, pd)
  | elm :: elms' =>
      let '(present, opmd) := if elm_optional elm then asn_get_few_bits opmd 1 else (1, opmd) in
      if present =? 0 then
        match default_value_set elm with
        | Some set =>
            match set (slot st edx) with
            | None => (DECODE_FAILED, pd)
            | Some v => seq_decode_root ctx elms' (S edx) (<[edx := Some v]> st) opmd pd
            end
        | None => seq_decode_root ctx elms' (S edx) st opmd pd
        end
      else
        let '(rv, pd) := match elm_open_type elm with
                         | Some get => get st ctx pd
                         | None => elm_decode elm (slot st edx) ctx pd
                         end in
        match rv with
        | RC_OK _ v =>
            if strictly_canonical ctx && is_encoded_default elm v then (DECODE_FAILED, pd)
            else seq_decode_root ctx elms' (S edx) (<[edx := Some v]> st) opmd pd
        | RC_WMORE n => (RC_WMORE n, pd)
        | RC_FAIL n => (RC_FAIL n, pd)
        end
  end.

(** Whether one of the [n] known extensions is present. *)
Fixpoint seq_any_present (n : nat) (temp_epmd : asn_bit_data) : bool :=
  match n with
  | O => false
  | S n' =>
      let '(present, temp_epmd) := asn_get_few_bits temp_epmd 1 in
      if 0 <? present then true else if present <? 0 then false else seq_any_present n' temp_epmd
  end.

(** The loop over the known extensions: the structure and the reader of the
    bitmap. *)
Fixpoint seq_decode_extensions (overflow : bool) (ctx : option asn_codec_ctx) (elms : list (asn_TYPE_member V)) (edx : nat)
    (st : list (option V)) (epmd pd : asn_bit_data) : asn_dec_rval (list (option V) * asn_bit_data) * asn_bit_data :=
  match elms with
  | [] => (RC_OK 0 (st, epmd), pd)
  | elm :: elms' =>
      let '(present, epmd) := asn_get_few_bits epmd 1 in
      if present <? 0 then (RC_OK 0 (st, epmd), pd)
      else if present =? 0 then seq_decode_extensions overflow ctx elms' (S edx) st epmd pd
      else
        let '(rv, pd) := uper_open_type_get overflow (elm_decode elm (slot st edx)) ctx pd in
        match rv with
        | RC_OK _ v => seq_decode_extensions overflow ctx elms' (S edx) (<[edx := Some v]> st) epmd pd
        | RC_WMORE n => (RC_WMORE n, pd)
        | RC_FAIL n => (RC_FAIL n, pd)
        end
  end.

(** The overflow extensions: success and the stream behind them. *)
Fixpoint seq_skip_overflow (fuel : nat) (overflow : bool) (ctx : option asn_codec_ctx) (epmd pd : asn_bit_data) : bool * asn_bit_data :=
  match fuel with
  | O => (false, pd)
  | S fuel' =>
      let '(present, epmd) := asn_get_few_bits epmd 1 in
      if present =? -1 then (true, pd)
      else if present =? 0 then seq_skip_overflow fuel' overflow ctx epmd pd
      else
        let '(rc, pd) := uper_open_type_skip overflow ctx pd in
        if negb (rc =? 0) then (false, pd) else seq_skip_overflow fuel' overflow ctx epmd pd
  end.

(** Fill DEFAULT members in extensions; nothing when memory is short. *)
Fixpoint seq_fill_defaults (elements : list (asn_TYPE_member V)) (edxs : list nat) (st : list (option V)) : option (list (option V)) :=
  match edxs with
  | [] => Some st
  | edx :: edxs' =>
      match elements !! edx with
      | None => None
      | Some elm =>
          match default_value_set elm with
          | None => seq_fill_defaults elements edxs' st
          | Some set =>
              if elm_pointer elm then
                match slot st edx with
                | Some _ => seq_fill_defaults elements edxs' st
                | None => match set None with Some v => seq_fill_defaults elements edxs' (<[edx := Some v]> st) | None => None end
                end
              else seq_fill_defaults elements edxs' st
          end
      end
  end.

(** A bitmap of [n] bits copied from the stream to memory of its own. *)
Definition bitmap_reader (buf : list Z) (n : Z) : asn_bit_data := {| buffer := buf; nboff := 0; nbits := n; moved := 0 |}.

(** The part of SEQUENCE_decode_uper under [if(extpresent)]. *)
Definition seq_decode_additions (sc : stack_checks) (ctx : option asn_codec_ctx) (elms : list (asn_TYPE_member V)) (edx : nat)
    (st : list (option V)) (pd : asn_bit_data) : asn_dec_rval (list (option V)) * asn_bit_data :=
  let '(bmlength, pd) := uper_get_nslength pd in
  if bmlength <? 0 then (DECODE_STARVED, pd) else
  if negb (malloc_ok ((bmlength + 15) ≫ 3)) then (DECODE_STARVED, pd) else
  let '(got, pd) := asn_get_many_bits pd false bmlength in
  match got with
  | None => (DECODE_STARVED, pd)
  | Some epres =>
      let epmd := bitmap_reader epres bmlength in
      if strictly_canonical ctx && negb (seq_any_present (length elms) epmd) then (DECODE_FAILED, pd) else
      let '(rv, pd) := seq_decode_extensions (overflow_open_type sc) ctx elms edx st epmd pd in
      match rv with
      | RC_OK _ (st, epmd) =>
          let '(ok, pd) := seq_skip_overflow (S (Z.to_nat (nbits epmd - nboff epmd))) (overflow_skip sc) ctx epmd pd in
          if ok then (RC_OK 0 st, pd) else (DECODE_STARVED, pd)
      | RC_WMORE n => (RC_WMORE n, pd)
      | RC_FAIL n => (RC_FAIL n, pd)
      end
  end.

(** The presence bitmap of the root: a reader of it, or a failure. *)
Definition seq_presence (n : nat) (pd : asn_bit_data) : asn_dec_rval asn_bit_data * asn_bit_data :=
  if (n =? 0)%nat then (RC_OK 0 (bitmap_reader [] 0), pd) else
  if negb (malloc_ok ((Z.of_nat n + 7) ≫ 3 + 1)) then (DECODE_FAILED, pd) else
  let '(got, pd) := asn_get_many_bits pd false (Z.of_nat n) in
  match got with None => (DECODE_STARVED, pd) | Some opres => (RC_OK 0 (bitmap_reader opres (Z.of_nat n)), pd) end.

(** The part of SEQUENCE_decode_uper behind the presence bitmap. *)
Definition seq_decode_members (sc : stack_checks) (specs : asn_SEQUENCE_specifics) (elements : list (asn_TYPE_member V))
    (ctx : option asn_codec_ctx) (extpresent : Z) (st : list (option V)) (opmd pd : asn_bit_data) :
    asn_dec_rval (list (option V)) * asn_bit_data :=
  let root := seq_root_count specs elements in
  let '(r, pd) := seq_decode_root ctx (take root elements) 0 st opmd pd in
  match r with
  | RC_WMORE n => (RC_WMORE n, pd)
  | RC_FAIL n => (RC_FAIL n, pd)
  | RC_OK _ st =>
      let '(r, pd) := if extpresent =? 0 then (RC_OK 0 st, pd) else seq_decode_additions sc ctx (drop root elements) root st pd in
      match r with
      | RC_WMORE n => (RC_WMORE n, pd)
      | RC_FAIL n => (RC_FAIL n, pd)
      | RC_OK _ st =>
          if first_extension specs <? 0 then (RC_OK 0 st, pd) else
          match seq_fill_defaults elements (take (aoms_count specs) (drop (roms_count specs) (oms specs))) st with
          | Some st => (RC_OK 0 st, pd)
          | None => (DECODE_FAILED, pd)
          end
      end
  end.

(** SEQUENCE_decode_uper. *)
Definition SEQUENCE_decode_uper (sc : stack_checks) (specs : asn_SEQUENCE_specifics) (elements : list (asn_TYPE_member V))
    (sptr : option (list (option V))) (ctx : option asn_codec_ctx) (pd : asn_bit_data) :
    asn_dec_rval (list (option V)) * asn_bit_data :=
  if overflow_here sc then (DECODE_FAILED, pd) else
  if negb (have_struct sptr (seq_struct_size specs)) then (DECODE_FAILED, pd) else
  let st := default (zero_struct elements) sptr in
  let '(extpresent, pd) := if first_extension specs <? 0 then (0, pd) else asn_get_few_bits pd 1 in
  if extpresent <? 0 then (DECODE_STARVED, pd) else
  let '(r, pd) := seq_presence (roms_count specs) pd in
  match r with
  | RC_WMORE n => (RC_WMORE n, pd)
  | RC_FAIL n => (RC_FAIL n, pd)
  | RC_OK _ opmd => seq_decode_members sc specs elements ctx extpresent st opmd pd
  end.
End Decode.

(** * Encoder *)

Section Encode.
Context {T : Target} {A : Allocator} {K : Type} {C : Consumer K} {V : Type}.

(** [default_value_cmp && default_value_cmp(ptr) == 0] *)
Definition equals_default (elm : asn_TYPE_member V) (v : V) : bool :=
  match default_value_cmp elm with Some cmp => cmp v =? 0 | None => false end.

(** The loop of SEQUENCE__handle_extensions; [po1] takes the presence bits
    and [po2] the open types, when they are given.  The outcome is the number
    of members present and the number of members, or -1. *)
Fixpoint seq_extensions_loop (tmp : nat -> list Z) (elms : list (asn_TYPE_member V)) (edx : nat) (sts : list (option V))
    (exts_present exts_count : Z) (po1 po2 : option (asn_bit_outp K)) :
    option (Z * Z) * option (asn_bit_outp K) * option (asn_bit_outp K) :=
  match elms with
  | [] => (Some (exts_present, exts_count), po1, po2)
  | elm :: elms' =>
      let memb_ptr := default None (sts !! edx) in
      let present := Z.b2z (bool_decide (is_Some memb_ptr)) in
      let exts_count := exts_count + 1 in
      let exts_present := exts_present + present in
      let '(rc, po1) := match po1 with
                        | Some po => let '(rc, po) := asn_put_few_bits po present 1 in (rc, Some po)
                        | None => (0, None) end in
      if negb (rc =? 0) then (None, po1, po2) else
      let '(rc, po2) := match po2, memb_ptr with
                        | Some po, Some v => let '(rc, po) := uper_open_type_put (Some (elm_encode elm v)) (tmp edx) po in (rc, Some po)
                        | _, _ => (0, po2) end in
      if negb (rc =? 0) then (None, po1, po2) else
      seq_extensions_loop tmp elms' (S edx) sts exts_present exts_count po1 po2
  end.

(** SEQUENCE__handle_extensions. *)
Definition SEQUENCE__handle_extensions (tmp : nat -> list Z) (specs : asn_SEQUENCE_specifics) (elements : list (asn_TYPE_member V))
    (sptr : list (option V)) (po1 po2 : option (asn_bit_outp K)) : Z * option (asn_bit_outp K) * option (asn_bit_outp K) :=
  if first_extension specs <? 0 then (0, po1, po2) else
  let root := seq_root_count specs elements in
  let '((r, po1), po2) := seq_extensions_loop tmp (drop root elements) root sptr 0 0 po1 po2 in
  match r with
  | None => (-1, po1, po2)
  | Some (exts_present, exts_count) => (if exts_present =? 0 then 0 else exts_count, po1, po2)
  end.

(** The presence bitmap of the root: success. *)
Fixpoint seq_put_bitmap (elements : list (asn_TYPE_member V)) (edxs : list nat) (sptr : list (option V)) (po : asn_bit_outp K) :
    bool * asn_bit_outp K :=
  match edxs with
  | [] => (true, po)
  | edx :: edxs' =>
      match elements !! edx with
      | None => (false, po)
      | Some elm =>
          let present := match slot sptr edx with Some v => negb (equals_default elm v) | None => false end in
          let '(rc, po) := asn_put_few_bits po (Z.b2z present) 1 in
          if negb (rc =? 0) then (false, po) else seq_put_bitmap elements edxs' sptr po
      end
  end.

(** The loop over the root members from [edx] on; [er] is the result of the
    last one. *)
Fixpoint seq_put_root (elms : list (asn_TYPE_member V)) (edx : nat) (sptr : list (option V)) (er : asn_enc_rval) (po : asn_bit_outp K) :
    asn_enc_rval * asn_bit_outp K :=
  match elms with
  | [] => (er, po)
  | elm :: elms' =>
      match slot sptr edx with
      | None => if elm_optional elm then seq_put_root elms' (S edx) sptr er po else (ENCODE_FAILED, po)
      | Some v =>
          if equals_default elm v then seq_put_root elms' (S edx) sptr er po
          else
            let '(er, po) := elm_encode elm v K C po in
            match er with
            | ENCODE_FAILED => (ENCODE_FAILED, po)
            | ENCODED_OK _ => seq_put_root elms' (S edx) sptr er po
            end
      end
  end.

(** SEQUENCE_encode_uper.  [tmp edx] is what the scratch area of the encoder
    of the extension [edx] holds before. *)
Definition SEQUENCE_encode_uper (tmp : nat -> list Z) (specs : asn_SEQUENCE_specifics) (elements : list (asn_TYPE_member V))
    (sptr : option (list (option V))) (po : asn_bit_outp K) : asn_enc_rval * asn_bit_outp K :=
  match sptr with
  | None => (ENCODE_FAILED, po)
  | Some sptr =>
      let n_extensions := fst (fst (SEQUENCE__handle_extensions tmp specs elements sptr None None)) in
      if (0 <=? first_extension specs) && (n_extensions <? 0) then (ENCODE_FAILED, po) else
      let '(rc, po) := if first_extension specs <? 0 then (0, po)
                       else asn_put_few_bits po (if n_extensions =? 0 then 0 else 1) 1 in
      if negb (rc =? 0) then (ENCODE_FAILED, po) else
      let '(ok, po) := seq_put_bitmap elements (take (roms_count specs) (oms specs)) sptr po in
      if negb ok then (ENCODE_FAILED, po) else
      let '(er, po) := seq_put_root (take (seq_root_count specs elements) elements) 0 sptr (ENCODED_OK 0) po in
      match er with
      | ENCODE_FAILED => (ENCODE_FAILED, po)
      | ENCODED_OK _ =>
          if n_extensions =? 0 then (er, po) else
          let '(rc, po) := uper_put_nslength po n_extensions in
          if negb (rc =? 0) then (ENCODE_FAILED, po) else
          let '((n, po1), _) := SEQUENCE__handle_extensions tmp specs elements sptr (Some po) None in
          let po := default po po1 in
          if negb (n =? n_extensions) then (ENCODE_FAILED, po) else
          let '((n, _), po2) := SEQUENCE__handle_extensions tmp specs elements sptr None (Some po) in
          let po := default po po2 in
          if negb (n =? n_extensions) then (ENCODE_FAILED, po) else (er, po)
      end
  end.
End Encode.

(** * Comparison, copy, constraints *)

Section Structures.
Context {V : Type}.

(** SEQUENCE_compare.  A type without a comparison cannot be compared: the C
    code would call a null pointer. *)
Fixpoint SEQUENCE_compare (elements : list (asn_TYPE_member V)) (aptr bptr : list (option V)) : option Z :=
  match elements, aptr, bptr with
  | elm :: elements', a :: aptr', b :: bptr' =>
      match a, b with
      | None, None => SEQUENCE_compare elements' aptr' bptr'
      | None, Some v => if equals_default elm v then SEQUENCE_compare elements' aptr' bptr' else Some (-1)
      | Some v, None => if equals_default elm v then SEQUENCE_compare elements' aptr' bptr' else Some 1
      | Some v, Some w =>
          match compare_struct elm with
          | None => None
          | Some cmp => let ret := cmp v w in if negb (ret =? 0) then Some ret else SEQUENCE_compare elements' aptr' bptr'
          end
      end
  | _, _, _ => Some 0
  end.

(** The member loop of SEQUENCE_copy; nothing when a copy fails. *)
Fixpoint seq_copy_members (elements : list (asn_TYPE_member V)) (st bptr : list (option V)) : option (list (option V)) :=
  match elements, st, bptr with
  | elm :: elements', a :: st', b :: bptr' =>
      match copy_struct elm a b with
      | None => None
      | Some a => match seq_copy_members elements' st' bptr' with Some st' => Some (a :: st') | None => None end
      end
  | _, _, _ => Some []
  end.

(** SEQUENCE_copy: the target after the copy, or a failure. *)
Definition SEQUENCE_copy {A : Allocator} (specs : asn_SEQUENCE_specifics) (elements : list (asn_TYPE_member V))
    (aptr bptr : option (list (option V))) : option (option (list (option V))) :=
  match bptr with
  | None => Some None
  | Some b =>
      if negb (have_struct aptr (seq_struct_size specs)) then None
      else option_map Some (seq_copy_members elements (default (zero_struct elements) aptr) b)
  end.

(** SEQUENCE_constraint without the texts given to the callback. *)
Fixpoint seq_constraint_members (elements : list (asn_TYPE_member V)) (sptr : list (option V)) : Z :=
  match elements, sptr with
  | elm :: elements', s :: sptr' =>
      match s with
      | None => if elm_optional elm then seq_constraint_members elements' sptr' else -1
      | Some v => let ret := general_constraints elm v in if negb (ret =? 0) then ret else seq_constraint_members elements' sptr'
      end
  | _, _ => 0
  end.
Definition SEQUENCE_constraint (elements : list (asn_TYPE_member V)) (sptr : option (list (option V))) : Z :=
  match sptr with None => -1 | Some st => seq_constraint_members elements st end.
End Structures.
