(* ===== verification/SequenceCodec.v ===== *)
(** SEQUENCE in UPER, verified: tables whose members are of types that are
    instances of [UperCodec], the bits of a structure, the encoder and the
    decoder on them, the decoder on arbitrary data, readers that know fewer or
    more extensions than the writer.  The structure is an instance again. *)

From S2P Require Import Prelude Runtime Constraints BitData BitOutp UperSupport Integer IntegerUper UperCodec OpenType Sequence.

(** * Tables of verified members *)

(** A member whose type is an instance of [UperCodec].  A DEFAULT is set in
    a zeroed slot; the values that compare equal to it are the value it sets,
    and the general comparison agrees. *)
Record vmember (V : Type) := {
  vm : asn_TYPE_member V;
  vm_codec : UperCodec V;
  vm_encode v : elm_encode vm v = @uper_enc V vm_codec v;
  vm_decode : elm_decode vm (fresh_slot vm) = @uper_dec V vm_codec;
  vm_plain : elm_open_type vm = None;
  vm_set set : default_value_set vm = Some set -> exists d, set (fresh_slot vm) = Some d;
  vm_equal v : equals_default vm v = true ->
    elm_optional vm = true /\ exists set, default_value_set vm = Some set /\ set (fresh_slot vm) = Some v;
  vm_compare v : is_encoded_default vm v = true -> equals_default vm v = true
}.
Arguments vm {V} _.
Arguments vm_codec {V} _.

Section Bits.
Context {V : Type}.
Implicit Types (m : vmember V) (ms rs xs : list (vmember V)) (sts : list (option V)).

Definition vbits m (v : V) : list bool := @uper_bits V (vm_codec m) v.
Definition vvalid m (v : V) : Prop := @uper_valid V (vm_codec m) v.
Definition table ms : list (asn_TYPE_member V) := map vm ms.

(** A slot an encoder accepts: an absent member is an optional pointer. *)
Definition slot_ok m (s : option V) : Prop :=
  match s with Some v => vvalid m v | None => elm_pointer (vm m) = true /\ elm_optional (vm m) = true end.

(** The member is written: present and not the DEFAULT. *)
Definition slot_written m (s : option V) : bool :=
  match s with Some v => negb (equals_default (vm m) v) | None => false end.

(** What a reader finds: absent members have their DEFAULT. *)
Definition with_defaults m (s : option V) : option V :=
  match s with
  | Some v => Some v
  | None => match default_value_set (vm m) with Some set => set None | None => None end
  end.

Fixpoint root_presence ms sts : list bool :=
  match ms, sts with
  | m :: ms', s :: sts' => (if elm_optional (vm m) then [slot_written m s] else []) ++ root_presence ms' sts'
  | _, _ => []
  end.
Fixpoint root_bits ms sts : list bool :=
  match ms, sts with
  | m :: ms', s :: sts' =>
      match s with Some v => if equals_default (vm m) v then [] else vbits m v | None => [] end ++ root_bits ms' sts'
  | _, _ => []
  end.

(** The extensions on the wire: for each, its bits when it is present. *)
Definition extension_fields xs sts : list (option (list bool)) := zip_with (fun m s => option_map (vbits m) s) xs sts.

Definition is_present {X} (o : option X) : bool := match o with Some _ => true | None => false end.
Definition fields_bits (exts : list (option (list bool))) : list bool :=
  concat (map (fun e => match e with Some l => open_type_bits l | None => [] end) exts).

(** The bits of a SEQUENCE, X.691 #19: the extension bit, the bitmap and the
    members of the root, and, when an extension is present, the number of
    extensions, their bitmap and their open types. *)
Definition sequence_bits (extensible : bool) rs sts (exts : list (option (list bool))) : list bool :=
  (if extensible then [existsb is_present exts] else []) ++ root_presence rs sts ++ root_bits rs sts ++
  (if existsb is_present exts
   then bits_of 7 (Z.of_nat (length exts) - 1) ++ map is_present exts ++ fields_bits exts else []).

(** The positions of the optional members. *)
Fixpoint optional_positions (ms : list (vmember V)) (edx : nat) : list nat :=
  match ms with
  | [] => []
  | m :: ms' => (if elm_optional (vm m) then [edx] else []) ++ optional_positions ms' (S edx)
  end.

(** The tables a generator writes for a root and extensions: [oms] names the
    optional members of the root, then the extensions, which are optional
    pointers. *)
Record specs_ok (specs : asn_SEQUENCE_specifics) (extensible : bool) rs xs : Prop := {
  so_first : first_extension specs = if extensible then Z.of_nat (length rs) else -1;
  so_none : extensible = false -> xs = [];
  so_roms : take (roms_count specs) (oms specs) = optional_positions rs 0;
  so_count : roms_count specs = length (optional_positions rs 0);
  so_aoms : take (aoms_count specs) (drop (roms_count specs) (oms specs)) = seq (length rs) (length xs);
  so_exts : Forall (fun m => elm_pointer (vm m) = true) xs
}.

(** The extension [e] of the wire, or its absence, in the slot [s] of a
    reader that knows [xs]: readers with fewer and with more extensions. *)
Inductive understood : list (vmember V) -> list (option V) -> list (option (list bool)) -> Prop :=
| older_sender xs : understood xs (map (fun _ => None) xs) []
| known_field m s xs sts exts : understood xs sts exts -> understood (m :: xs) (s :: sts) (option_map (vbits m) s :: exts)
| newer_sender exts : understood [] [] exts.

Definition ext_ok {T : Target} {A : Allocator} m (s : option V) : Prop :=
  forall v, s = Some v -> vvalid m v /\ open_type_room (vbits m v) /\ @reads_nothing V (vm_codec m) v.

(** ** Lemmas on the tables *)

Lemma understood_fields xs sts : length sts = length xs -> understood xs sts (extension_fields xs sts).
Proof.
  revert sts. induction xs as [|m xs IH]; intros [|s sts] Hl; try discriminate; cbn; constructor. auto.
Qed.

Lemma slot_middle (done rest : list (option V)) s : slot (done ++ s :: rest) (length done) = s.
Proof. unfold slot. now rewrite list_lookup_middle by reflexivity. Qed.

Lemma insert_middle (done rest : list (option V)) s x : <[length done := x]> (done ++ s :: rest) = (done ++ [x]) ++ rest.
Proof. rewrite <- app_assoc. rewrite <- (Nat.add_0_r (length done)), insert_app_r. reflexivity. Qed.

Lemma length_root_presence rs sts : length sts = length rs -> length (root_presence rs sts) = length (optional_positions rs 0).
Proof.
  generalize 0%nat. revert sts. induction rs as [|m rs IH]; intros [|s sts] e Hl; try discriminate; cbn; [reflexivity|].
  rewrite !length_app, (IH sts (S e)) by (cbn in Hl; lia). now destruct (elm_optional _).
Qed.
End Bits.

(** * Encoding *)

Section Write.
Context {T : Target} {A : Allocator} {K : Type} {C : Consumer K} {S : Sink K} {R : RoomySink K} {V : Type}.
Variable tmp : nat -> list Z.
Hypothesis tmp_ok : forall edx, length (tmp edx) = sizeof_tmpspace /\ octets (tmp edx).
Implicit Types (m : vmember V) (ms rs xs : list (vmember V)) (sts : list (option V)).

Definition counted sts : Z := Z.of_nat (length (filter (fun s => is_Some s) sts)).

Lemma counted_cons s sts : counted (s :: sts) = Z.b2z (bool_decide (is_Some s)) + counted sts.
Proof. unfold counted. rewrite filter_cons. destruct s; cbn [length]; case_bool_decide; repeat destruct (decide _); cbn [length Z.b2z]; try done; lia. Qed.

Lemma present_bit (s : option V) : bits_of 1 (Z.b2z (bool_decide (is_Some s))) = [is_present s].
Proof. destruct s; case_bool_decide as H; cbn; try reflexivity; [destruct H; eauto|destruct H; discriminate]. Qed.

(** A step that writes [l] when there is a stream. *)
Definition wrote (po po' : option (asn_bit_outp K)) (l : list bool) : Prop :=
  match po, po' with Some po, Some po' => appended po po' l | None, None => True | _, _ => False end.
Definition ready (po : option (asn_bit_outp K)) (l : list bool) : Prop :=
  match po with Some po => po_ok po /\ fits (length (written po ++ l)) | None => True end.

Lemma wrote_trans po1 po2 po3 l1 l2 : wrote po1 po2 l1 -> wrote po2 po3 l2 -> wrote po1 po3 (l1 ++ l2).
Proof. destruct po1, po2, po3; cbn; try tauto. apply appended_trans. Qed.
Lemma wrote_nil po l : ready po l -> wrote po po [].
Proof. destruct po; cbn; [|tauto]. intros [H _]. now apply appended_nil. Qed.
Lemma ready_first po l1 l2 : ready po (l1 ++ l2) -> ready po l1.
Proof. destruct po; cbn; [|tauto]. intros [H Hr]. split; [assumption|]. eapply fits_le; [exact Hr|len]. Qed.
Lemma ready_next po po' l1 l2 : ready po (l1 ++ l2) -> wrote po po' l1 -> ready po' l2.
Proof.
  destruct po, po'; cbn; try tauto. intros [_ Hr] (Hok & W & _). split; [assumption|]. now rewrite W, <- app_assoc.
Qed.

(** One step of a loop that may have a stream. *)
Lemma wrote_encodes (f : asn_bit_outp K -> Z * asn_bit_outp K) l po :
  encodes f l 0 -> ready po l ->
  exists po', match po with Some po => let '(rc, po) := f po in (rc, Some po) | None => (0, None) end = (0, po') /\ wrote po po' l.
Proof.
  intros Hf Hr. destruct po as [po|]; cbn in *; [|now exists None].
  destruct (Hf po) as (po' & -> & Ha); [apply Hr..|]. now exists (Some po').
Qed.

Lemma extensions_loop_ok xs : forall done sts p c po1 po2,
  length sts = length xs -> (po2 <> None -> Forall2 ext_ok xs sts) ->
  ready po1 (map is_present sts) -> ready po2 (fields_bits (extension_fields xs sts)) ->
  exists po1' po2', seq_extensions_loop tmp (table xs) (length done) (done ++ sts) p c po1 po2
      = (Some (p + counted sts, c + Z.of_nat (length xs)), po1', po2') /\
    wrote po1 po1' (map is_present sts) /\ wrote po2 po2' (fields_bits (extension_fields xs sts)).
Proof.
  induction xs as [|m xs IH]; intros done [|s sts] p c po1 po2 Hl Hx H1 H2; try discriminate; cbn [table map seq_extensions_loop].
  { exists po1, po2. split; [cbn; now rewrite !Z.add_0_r|]. split; eapply wrote_nil; eassumption. }
  fold (slot (done ++ s :: sts) (length done)). rewrite slot_middle. cbv zeta.
  cbn [map extension_fields zip_with fields_bits concat] in *. fold (extension_fields xs sts) in *. fold (fields_bits (extension_fields xs sts)) in *.
  change (is_present s :: map is_present sts) with ([is_present s] ++ map is_present sts) in *.
  destruct (wrote_encodes (fun po => asn_put_few_bits po (Z.b2z (bool_decide (is_Some s))) 1) [is_present s] po1) as (po1' & -> & W1).
  { rewrite <- present_bit. apply encodes_few_bits; lia. }
  { eapply ready_first, H1. }
  cbn [negb Z.eqb].
  match goal with |- context[let '(_, _) := ?e in _] => assert (exists po2', e = (0, po2') /\
    wrote po2 po2' (match option_map (vbits m) s with Some l => open_type_bits l | None => [] end)) as (po2' & -> & W2) end.
  { destruct s as [v|]; [|exists po2; split; [now destruct po2|eapply wrote_nil; eassumption]].
    cbn [option_map] in *. destruct po2 as [po2|]; [|now exists None].
    destruct (proj1 (Forall2_cons_1 _ _ _ _ _ (Hx ltac:(discriminate))) v eq_refl) as (Hv & Hroom & _).
    destruct (tmp_ok (length done)) as [Ht Ho].
    apply (wrote_encodes (fun po => uper_open_type_put (Some (elm_encode (vm m) v)) (tmp (length done)) po) _ (Some po2)).
    - rewrite vm_encode. apply (@encodes_open_type _ _ _ _ _ _ V (vm_codec m)); assumption.
    - eapply ready_first, H2. }
  cbn [negb Z.eqb]. replace (Datatypes.S (length done)) with (length (done ++ [s])) by len.
  replace (done ++ s :: sts) with ((done ++ [s]) ++ sts) by now rewrite <- app_assoc.
  destruct (IH (done ++ [s]) sts (p + Z.b2z (bool_decide (is_Some s))) (c + 1) po1' po2') as (po1'' & po2'' & E & W1' & W2').
  - cbn in Hl. lia.
  - intros Hne. assert (po2 <> None) as Hne' by (intros ->; destruct po2'; [destruct W2|congruence]).
    now apply Hx in Hne' as [_ ?]%Forall2_cons_1.
  - eapply ready_next; eassumption.
  - eapply ready_next; eassumption.
  - exists po1'', po2''. unfold table in E. rewrite E, counted_cons. cbn [length]. split; [do 4 f_equal; lia|].
    split; eapply wrote_trans; eassumption.
Qed.

Lemma counted_present xs sts : length sts = length xs ->
  existsb is_present (extension_fields xs sts) = negb (counted sts =? 0) /\ 0 <= counted sts <= Z.of_nat (length xs).
Proof.
  revert sts. induction xs as [|m xs IH]; intros [|s sts] Hl; try discriminate; [split; [reflexivity|change (counted []) with 0; lia]|].
  destruct (IH sts) as [E B]; [cbn in Hl; lia|]. rewrite counted_cons.
  unfold extension_fields in *. cbn [zip_with existsb length]. rewrite E.
  destruct s as [v|]; cbn [option_map is_present orb]; case_bool_decide as Hs; cbn [Z.b2z].
  - split; [symmetry; apply Bool.negb_true_iff, Z.eqb_neq; lia|lia].
  - destruct Hs. eauto.
  - destruct Hs. discriminate.
  - split; [do 2 f_equal; lia|lia].
Qed.

Lemma table_root specs extensible rs xs : specs_ok specs extensible rs xs ->
  seq_root_count specs (table (rs ++ xs)) = length rs /\ take (length rs) (table (rs ++ xs)) = table rs /\
  drop (length rs) (table (rs ++ xs)) = table xs.
Proof.
  intros H. unfold table. rewrite map_app.
  rewrite take_app_length', drop_app_length' by now rewrite length_map. split; [|split; reflexivity].
  unfold seq_root_count. rewrite (so_first _ _ _ _ H). destruct extensible eqn:E; [|rewrite (so_none _ _ _ _ H eq_refl)].
  - rewrite (proj2 (Z.ltb_ge _ 0)) by lia. lia.
  - cbn. rewrite app_nil_r. now rewrite length_map.
Qed.

(** SEQUENCE__handle_extensions of an extensible type. *)
Lemma handle_extensions_ok specs rs xs rsts xsts po1 po2 :
  specs_ok specs true rs xs -> length rsts = length rs -> length xsts = length xs -> (po2 <> None -> Forall2 ext_ok xs xsts) ->
  ready po1 (map is_present xsts) -> ready po2 (fields_bits (extension_fields xs xsts)) ->
  exists po1' po2', SEQUENCE__handle_extensions tmp specs (table (rs ++ xs)) (rsts ++ xsts) po1 po2
      = (if counted xsts =? 0 then 0 else Z.of_nat (length xs), po1', po2') /\
    wrote po1 po1' (map is_present xsts) /\ wrote po2 po2' (fields_bits (extension_fields xs xsts)).
Proof.
  intros Hs Hr Hx Hok H1 H2. unfold SEQUENCE__handle_extensions.
  rewrite (so_first _ _ _ _ Hs), (proj2 (Z.ltb_ge _ 0)) by lia.
  destruct (table_root _ _ _ _ Hs) as (-> & _ & ->). rewrite <- Hr.
  destruct (extensions_loop_ok xs rsts xsts 0 0 po1 po2 Hx Hok H1 H2) as (po1' & po2' & -> & W). cbv zeta iota beta.
  exists po1', po2'. rewrite !Z.add_0_l. auto.
Qed.

(** ** The root *)

Lemma encodes_root_bitmap ms : forall pre post done sts tail, length sts = length ms -> length done = length pre ->
  encodes (fun po : asn_bit_outp K => seq_put_bitmap (pre ++ table ms ++ post) (optional_positions ms (length pre)) (done ++ sts ++ tail) po)
    (root_presence ms sts) true.
Proof.
  induction ms as [|m ms IH]; intros pre post done [|s sts] tail Hl Hd; try discriminate; [apply encodes_ret|].
  specialize (IH (pre ++ [vm m]) post (done ++ [s]) sts tail ltac:(cbn in Hl; lia) ltac:(len)).
  replace (length (pre ++ [vm m])) with (Datatypes.S (length pre)) in IH by len.
  rewrite <- !app_assoc in IH. cbn [app] in IH. cbn [optional_positions root_presence table map app]. fold (table ms).
  destruct (elm_optional (vm m)); cbn [app]; [|exact IH].
  cbn [seq_put_bitmap]. rewrite list_lookup_middle by reflexivity. rewrite <- Hd, slot_middle, Hd. cbv zeta.
  change (match s with Some v => negb (equals_default (vm m) v) | None => false end) with (slot_written m s).
  change (slot_written m s :: root_presence ms sts) with ([slot_written m s] ++ root_presence ms sts).
  replace [slot_written m s] with (bits_of 1 (Z.b2z (slot_written m s))) by now destruct (slot_written m s).
  eapply encodes_bind; [apply (encodes_few_bits 1 1); lia|]. exact IH.
Qed.

Lemma encodes_root ms : forall done sts tail n, Forall2 slot_ok ms sts ->
  exists n', encodes (fun po : asn_bit_outp K => seq_put_root (table ms) (length done) (done ++ sts ++ tail) (ENCODED_OK n) po)
    (root_bits ms sts) (ENCODED_OK n').
Proof.
  induction ms as [|m ms IH]; intros done sts tail n Hok; inversion Hok as [|? s ? sts' Hs Hok']; subst; [exists n; apply encodes_ret|].
  specialize (IH (done ++ [s]) sts' tail). rewrite <- app_assoc in IH. cbn [app] in IH.
  replace (length (done ++ [s])) with (Datatypes.S (length done)) in IH by len.
  cbn [table map seq_put_root root_bits app]. fold (table ms). rewrite slot_middle. destruct s as [v|]; cbn [slot_ok] in Hs.
  - destruct (equals_default (vm m) v) eqn:E; [now apply IH|].
    destruct (@uper_enc_ok V (vm_codec m) v K C S R Hs) as [e He]. rewrite <- vm_encode in He. destruct (IH e Hok') as [n' Hn]. exists n'.
    eapply encodes_bind; [exact He|exact Hn].
  - destruct Hs as [_ ->]. now apply IH.
Qed.

(** A function given as a step with a stream. *)
Lemma encodes_wrote {X} (f : asn_bit_outp K -> Z * asn_bit_outp K) (g : Z -> asn_bit_outp K -> X * asn_bit_outp K) l1 l2 n (a : X) :
  (forall po, ready (Some po) l1 -> exists po', f po = (n, po') /\ appended po po' l1) -> encodes (g n) l2 a ->
  encodes (fun po => let '(x, po') := f po in g x po') (l1 ++ l2) a.
Proof. intros Hf. apply encodes_bind. intros po Hok Hr. now apply Hf. Qed.

(** The extensions behind the root. *)
Lemma encodes_additions specs rs xs rsts xsts (er : asn_enc_rval) :
  specs_ok specs true rs xs -> length rsts = length rs -> Forall2 ext_ok xs xsts -> (length xs <= 64)%nat -> counted xsts <> 0 ->
  let n_extensions := Z.of_nat (length xs) in
  encodes (fun po : asn_bit_outp K =>
      let '(rc, po) := uper_put_nslength po n_extensions in
      if negb (rc =? 0) then (ENCODE_FAILED, po) else
      let '((n, po1), _) := SEQUENCE__handle_extensions tmp specs (table (rs ++ xs)) (rsts ++ xsts) (Some po) None in
      let po := default po po1 in
      if negb (n =? n_extensions) then (ENCODE_FAILED, po) else
      let '((n, _), po2) := SEQUENCE__handle_extensions tmp specs (table (rs ++ xs)) (rsts ++ xsts) None (Some po) in
      let po := default po po2 in
      if negb (n =? n_extensions) then (ENCODE_FAILED, po) else (er, po))
    (bits_of 7 (Z.of_nat (length (extension_fields xs xsts)) - 1) ++ map is_present (extension_fields xs xsts) ++ fields_bits (extension_fields xs xsts))
    er.
Proof.
  intros Hs Hr Hx H64 Hc n_extensions. pose proof (Forall2_length Hx) as Hlx.
  assert (length (extension_fields xs xsts) = length xs) as -> by (unfold extension_fields; rewrite length_zip_with; lia).
  assert (map is_present (extension_fields xs xsts) = map is_present xsts) as ->.
  { clear -Hlx. revert xsts Hlx. induction xs as [|m xs IH]; intros [|s sts] Hl; try discriminate; [reflexivity|].
    unfold extension_fields in *. cbn. rewrite IH by (cbn in Hl; lia). now destruct s. }
  destruct (counted_present xs xsts) as [_ Hb]; [lia|].
  eapply encodes_bind; [apply encodes_nslength; subst n_extensions; lia|]. cbn [negb Z.eqb].
  intros po Hok Hfit.
  destruct (handle_extensions_ok specs rs xs rsts xsts (Some po) None Hs Hr ltac:(lia)) as (po1 & po1' & -> & W1 & _);
    [congruence|split; [assumption|eapply fits_le; [exact Hfit|len]]|exact I|].
  destruct po1 as [po1|]; [|destruct W1]. rewrite (proj2 (Z.eqb_neq (counted _) 0)) by assumption.
  subst n_extensions. cbv zeta. rewrite Z.eqb_refl. cbn [negb from_option id].
  destruct (handle_extensions_ok specs rs xs rsts xsts None (Some po1) Hs Hr ltac:(lia)) as (po2 & po2' & -> & _ & W2);
    [auto|exact I| |].
  { eapply (ready_next (Some po) (Some po1)); [|exact W1]. now split. }
  destruct po2' as [po2'|]; [|destruct W2]. rewrite (proj2 (Z.eqb_neq (counted _) 0)) by assumption.
  rewrite Z.eqb_refl. cbn [negb from_option id]. exists po2'. split; [reflexivity|]. exact (appended_trans _ _ _ _ _ W1 W2).
Qed.

Lemma encodes_sequence specs extensible rs xs rsts xsts :
  specs_ok specs extensible rs xs -> Forall2 slot_ok rs rsts -> Forall2 ext_ok xs xsts -> (length xs <= 64)%nat ->
  exists n, encodes (fun po : asn_bit_outp K => SEQUENCE_encode_uper tmp specs (table (rs ++ xs)) (Some (rsts ++ xsts)) po)
    (sequence_bits extensible rs rsts (extension_fields xs xsts)) (ENCODED_OK n).
Proof.
  intros Hs Hr Hx H64. pose proof (Forall2_length Hr) as Hlr. pose proof (Forall2_length Hx) as Hlx.
  destruct (counted_present xs xsts) as [Hany Hb]; [lia|].
  pose proof (encodes_root_bitmap rs [] (table xs) [] rsts xsts ltac:(lia) eq_refl) as Hmap.
  destruct (encodes_root rs [] rsts xsts 0 Hr) as [n Hroot]. cbn [app length] in Hmap, Hroot.
  destruct (table_root _ _ _ _ Hs) as (Hrc & Htk & _).
  exists n. unfold SEQUENCE_encode_uper, sequence_bits. rewrite Hrc, Htk, (so_roms _ _ _ _ Hs), Hany.
  replace (table rs ++ table xs) with (table (rs ++ xs)) in Hmap by (unfold table; now rewrite map_app).
  destruct extensible.
  - destruct (handle_extensions_ok specs rs xs rsts xsts None None Hs ltac:(lia) ltac:(lia)) as (p1 & p2 & -> & W1 & W2); [congruence|exact I..|].
    rewrite (so_first _ _ _ _ Hs). cbn [fst]. rewrite (proj2 (Z.ltb_ge (Z.of_nat (length rs)) 0)) by lia.
    rewrite (proj2 (Z.leb_le 0 _)) by lia.
    assert (((if counted xsts =? 0 then 0 else Z.of_nat (length xs)) <? 0) = false) as -> by (destruct (_ =? _); lia).
    assert (((if counted xsts =? 0 then 0 else Z.of_nat (length xs)) =? 0) = (counted xsts =? 0)) as -> by (destruct (Z.eqb_spec (counted xsts) 0); lia).
    cbn [andb]. replace [negb (counted xsts =? 0)] with (bits_of 1 (if counted xsts =? 0 then 0 else 1)) by now destruct (_ =? _).
    eapply encodes_bind; [apply (encodes_few_bits 1 1); lia|]. cbn [negb Z.eqb].
    eapply encodes_bind; [exact Hmap|]. cbn [negb]. eapply encodes_bind; [exact Hroot|]. cbv beta iota.
    destruct (Z.eqb_spec (counted xsts) 0) as [E|E]; cbn [negb]; [apply encodes_ret|].
    apply encodes_additions; auto; lia.
  - rewrite (so_first _ _ _ _ Hs). unfold SEQUENCE__handle_extensions. rewrite (so_first _ _ _ _ Hs).
    pose proof (so_none _ _ _ _ Hs eq_refl) as ->. destruct xsts; [|discriminate]. cbn.
    eapply encodes_bind; [exact Hmap|]. cbn [negb].
    eapply encodes_bind; [exact Hroot|]. apply encodes_ret.
Qed.
End Write.

(** * Decoding *)

(** ** Bitmaps *)

Lemma decodes_bitmap (l : list bool) : exists bs,
  decodes (fun pd => asn_get_many_bits pd false (Z.of_nat (length l))) l (Some bs) /\
  pd_ok (bitmap_reader bs (Z.of_nat (length l))) /\ remaining (bitmap_reader bs (Z.of_nat (length l))) = l.
Proof.
  unfold asn_get_many_bits; cbn [andb].
  destruct (get_many_bits_loop_ok (S (Z.to_nat (Z.of_nat (length l) / 24))) l []) as (q & Hq & Hd).
  - pose proof (Z.div_mod (Z.of_nat (length l)) 24 ltac:(lia)). pose proof (Z.mod_pos_bound (Z.of_nat (length l)) 24 ltac:(lia)). lia.
  - intros _. rewrite <- (Nat2Z.id (length l / 24)), Nat2Z.inj_div. lia.
  - eexists. split; [exact Hd|]. cbn [app]. unfold bitmap_reader. split.
    + unfold pd_ok; cbn [nboff nbits buffer]. rewrite length_be_bytes. split; [lia|]. split; [lia|auto with asn].
    + unfold remaining; cbn [nboff nbits buffer]. rewrite bytes_of_bits by len.
      rewrite Z.sub_0_r, Nat2Z.id. change (Z.to_nat 0) with 0%nat. rewrite drop_0. now rewrite take_app_length.
Qed.

Lemma read_bit pd b l : pd_ok pd -> remaining pd = b :: l ->
  exists pd', asn_get_few_bits pd 1 = (Z.b2z b, pd') /\ pd_ok pd' /\ remaining pd' = l.
Proof.
  intros Hok E. destruct (decodes_few_bits 1 [b] eq_refl ltac:(lia) pd l Hok E) as (pd' & E' & Ha & Hr).
  exists pd'. split; [|split; [apply Ha|exact Hr]]. rewrite E'. now destruct b.
Qed.
Lemma read_end pd : pd_ok pd -> remaining pd = [] -> asn_get_few_bits pd 1 = (-1, pd).
Proof. intros Hok E. apply get_few_bits_starved. pose proof (length_remaining pd Hok). rewrite E in *. cbn in *. lia. Qed.

Section Read.
Context {T : Target} {A : Allocator} {V : Type}.
Implicit Types (m : vmember V) (ms rs xs : list (vmember V)) (sts : list (option V)) (ctx : option asn_codec_ctx).

(** ** The root *)

(** The members [ms] in front of [after], whose loop continues the reading. *)
Lemma decodes_root_before ctx ms after tail rest_presence bits (a : asn_dec_rval (list (option V))) :
  forall done sts opmd, Forall2 slot_ok ms sts -> pd_ok opmd -> remaining opmd = root_presence ms sts ++ rest_presence ->
  (forall opmd', pd_ok opmd' -> remaining opmd' = rest_presence ->
    decodes (seq_decode_root ctx (table after) (length done + length ms)
      (done ++ zip_with with_defaults ms sts ++ zero_struct (table after) ++ tail) opmd') bits a) ->
  decodes (seq_decode_root ctx (table (ms ++ after)) (length done) (done ++ zero_struct (table (ms ++ after)) ++ tail) opmd)
    (root_bits ms sts ++ bits) a.
Proof.
  induction ms as [|m ms IH]; intros done sts opmd Hok Hpd Hr Hk; inversion Hok as [|? s ? sts' Hs Hok']; subst.
  { cbn [app zip_with length root_bits root_presence] in *. rewrite Nat.add_0_r in Hk. now apply Hk. }
  cbn [table map zero_struct root_presence root_bits zip_with seq_decode_root app] in *. fold (table (ms ++ after)) (zero_struct (table (ms ++ after))) in *.
  rewrite slot_middle, <- app_assoc.
  assert (forall opmd, pd_ok opmd -> remaining opmd = root_presence ms sts' ++ rest_presence ->
    decodes (seq_decode_root ctx (table (ms ++ after)) (Datatypes.S (length done))
        (<[length done := with_defaults m s]> (done ++ fresh_slot (vm m) :: zero_struct (table (ms ++ after)) ++ tail)) opmd)
      (root_bits ms sts' ++ bits) a) as Hrest.
  { intros opmd' H1 H2. specialize (IH (done ++ [with_defaults m s]) sts' opmd' Hok' H1 H2). rewrite insert_middle.
    replace (length (done ++ [with_defaults m s])) with (Datatypes.S (length done)) in IH by len. apply IH. intros opmd'' H3 H4. specialize (Hk opmd'' H3 H4).
    rewrite <- app_assoc. cbn [app length] in *. now replace (Datatypes.S (length done) + length ms)%nat with (length done + Datatypes.S (length ms))%nat by lia. }
  clear IH Hk. destruct (elm_optional (vm m)) eqn:Eo.
  - destruct (read_bit opmd (slot_written m s) (root_presence ms sts' ++ rest_presence) Hpd Hr) as (opmd' & -> & Hpd' & Hr').
    specialize (Hrest opmd' Hpd' Hr'). destruct (slot_written m s) eqn:Ew; cbn [Z.b2z Z.eqb].
    + destruct s as [v|]; [|discriminate]. cbn in Ew. apply negb_true_iff in Ew. rewrite Ew, (vm_plain _ m), (vm_decode _ m).
      destruct (@uper_dec_ok V (vm_codec m) ctx v Hs) as [n Hd]. eapply decodes_bind; [exact Hd|]. cbv beta iota.
      replace (is_encoded_default (vm m) v) with false; [rewrite andb_false_r; exact Hrest|].
      destruct (is_encoded_default (vm m) v) eqn:Ed; [|reflexivity]. now rewrite (vm_compare _ m v Ed) in Ew.
    + assert (match s with Some v => if equals_default (vm m) v then [] else vbits m v | None => [] end = []) as ->.
      { destruct s as [v|]; [|reflexivity]. cbn in Ew. apply negb_false_iff in Ew. now rewrite Ew. }
      cbn [app]. destruct s as [v|]; cbn in Ew.
      * apply negb_false_iff in Ew. destruct (vm_equal _ m v Ew) as (_ & set & -> & ->). exact Hrest.
      * cbn [with_defaults] in Hrest. destruct Hs as [Hp _]. unfold fresh_slot in *. rewrite Hp in *.
        destruct (default_value_set (vm m)) as [set|] eqn:Eset.
        -- destruct (vm_set _ m set Eset) as [d Ed]. unfold fresh_slot in Ed. rewrite Hp in Ed. rewrite Ed in *. exact Hrest.
        -- now rewrite list_insert_id in Hrest by now apply list_lookup_middle.
  - cbn [Z.eqb app] in *. destruct s as [v|]; [|destruct Hs; congruence].
    assert (equals_default (vm m) v = false) as ->.
    { destruct (equals_default (vm m) v) eqn:E; [|reflexivity]. destruct (vm_equal _ m v E). congruence. }
    rewrite (vm_plain _ m), (vm_decode _ m). destruct (@uper_dec_ok V (vm_codec m) ctx v Hs) as [n Hd].
    eapply decodes_bind; [exact Hd|]. cbv beta iota. unfold is_encoded_default. rewrite Eo. cbn [andb]. rewrite andb_false_r. auto.
Qed.

Lemma decodes_root ctx ms done sts tail opmd : Forall2 slot_ok ms sts ->
  pd_ok opmd -> remaining opmd = root_presence ms sts ->
  decodes (seq_decode_root ctx (table ms) (length done) (done ++ zero_struct (table ms) ++ tail) opmd) (root_bits ms sts)
    (RC_OK 0 (done ++ zip_with with_defaults ms sts ++ tail)).
Proof.
  intros Hok Hpd Hr. rewrite <- (app_nil_r ms) at 1 2. rewrite <- (app_nil_r (root_bits ms sts)).
  apply (decodes_root_before ctx ms [] tail []); [assumption|assumption|now rewrite app_nil_r|]. intros. apply decodes_ret.
Qed.

(** ** The extensions *)

Definition pointers xs : Prop := Forall (fun m => elm_pointer (vm m) = true) xs.

Lemma zero_pointers xs : pointers xs -> zero_struct (table xs) = map (fun _ => None) xs.
Proof. intros H. induction H as [|m xs Hm _ IH]; [reflexivity|]. cbn [table map zero_struct]. unfold fresh_slot at 1. rewrite Hm. f_equal. exact IH. Qed.

Lemma decodes_extensions ctx xs sts exts : understood xs sts exts -> forall done epmd, Forall2 ext_ok xs sts -> pointers xs ->
  pd_ok epmd -> remaining epmd = map is_present exts ->
  exists epmd', pd_ok epmd' /\ remaining epmd' = map is_present (drop (length xs) exts) /\
    decodes (seq_decode_extensions false ctx (table xs) (length done) (done ++ zero_struct (table xs)) epmd)
      (fields_bits (take (length xs) exts)) (RC_OK 0 (done ++ sts, epmd')).
Proof.
  induction 1 as [xs|m s xs sts exts Hu IH|exts]; intros done epmd Hok Hp Hpd Hr.
  - exists epmd. rewrite take_nil, drop_nil. split; [assumption|]. split; [exact Hr|]. rewrite zero_pointers by assumption.
    destruct xs as [|m xs]; cbn [table map seq_decode_extensions]; [apply decodes_ret|].
    rewrite (read_end epmd Hpd Hr). cbn [Z.ltb Z.compare]. apply decodes_ret.
  - apply Forall2_cons_1 in Hok as [Hs Hok']. inversion Hp as [|? ? Hm Hp']; subst.
    cbn [map] in Hr. destruct (read_bit epmd (is_present (option_map (vbits m) s)) (map is_present exts) Hpd Hr) as (epmd1 & E1 & Hpd1 & Hr1).
    destruct (IH (done ++ [s]) epmd1 Hok' Hp' Hpd1 Hr1) as (epmd' & Hpd' & Hr' & Hd).
    exists epmd'. split; [assumption|]. split; [exact Hr'|].
    cbn [table map zero_struct seq_decode_extensions length take]. fold (table xs) (zero_struct (table xs)). rewrite E1, slot_middle.
    replace (length (done ++ [s])) with (Datatypes.S (length done)) in Hd by len. rewrite <- !app_assoc in Hd. cbn [app] in Hd.
    destruct s as [v|]; cbn [option_map is_present Z.b2z Z.eqb Z.ltb Z.compare].
    + destruct (Hs v eq_refl) as (Hv & Hroom & Hn). unfold fields_bits. cbn [map concat]. fold (fields_bits (take (length xs) exts)).
      destruct (@decodes_open_type _ _ V (vm_codec m) ctx v Hv Hroom Hn) as [n Hget]. rewrite <- (vm_decode _ m) in Hget.
      eapply decodes_bind; [exact Hget|]. cbv beta iota. rewrite insert_middle, <- app_assoc. exact Hd.
    + unfold fresh_slot. rewrite Hm. exact Hd.
  - exists epmd. split; [assumption|]. split; [exact Hr|]. apply decodes_ret.
Qed.

Lemma decodes_skip_overflow ctx (exts : list (option (list bool))) : forall fuel epmd, (length exts < fuel)%nat ->
  Forall (fun e => forall l, e = Some l -> open_type_room l) exts -> pd_ok epmd -> remaining epmd = map is_present exts ->
  decodes (seq_skip_overflow fuel false ctx epmd) (fields_bits exts) true.
Proof.
  induction exts as [|e exts IH]; intros [|fuel] epmd Hf Hroom Hpd Hr; try (cbn in Hf; lia); cbn [seq_skip_overflow].
  - rewrite (read_end epmd Hpd Hr). apply decodes_ret.
  - inversion Hroom as [|? ? He Hroom']; subst.
    cbn [map] in Hr. destruct (read_bit epmd (is_present e) (map is_present exts) Hpd Hr) as (epmd1 & E1 & Hpd1 & Hr1). rewrite E1.
    specialize (IH fuel epmd1 ltac:(cbn in Hf; lia) Hroom' Hpd1 Hr1).
    destruct e as [l|]; cbn [is_present Z.b2z Z.eqb]; [|exact IH].
    unfold fields_bits. cbn [map concat]. fold (fields_bits exts). destruct (He l eq_refl) as [Hl HA].
    destruct (new_buffer_octets_ok l) as [Hb _]. eapply decodes_bind.
    + apply (decodes_open_type_skip ctx (new_buffer_octets l)); [assumption|assumption|eapply serves_le; [exact HA|lia]].
    + exact IH.
Qed.

Lemma any_present_ok (exts : list (option (list bool))) : forall n epmd, pd_ok epmd -> remaining epmd = map is_present exts ->
  seq_any_present n epmd = existsb is_present (take n exts).
Proof.
  induction exts as [|e exts IH]; intros [|n] epmd Hpd Hr; try reflexivity; cbn [seq_any_present].
  - now rewrite (read_end epmd Hpd Hr).
  - cbn [map] in Hr. destruct (read_bit epmd (is_present e) (map is_present exts) Hpd Hr) as (epmd1 & E1 & Hpd1 & Hr1). rewrite E1.
    destruct e; cbn; [reflexivity|]. now apply IH.
Qed.

Lemma fill_defaults_ok xs : forall pre done sts, length sts = length xs -> length done = length pre -> pointers xs ->
  seq_fill_defaults (pre ++ table xs) (seq (length pre) (length xs)) (done ++ sts) = Some (done ++ zip_with with_defaults xs sts).
Proof.
  induction xs as [|m xs IH]; intros pre done [|s sts] Hl Hd Hp; try discriminate; [reflexivity|].
  inversion Hp as [|? ? Hm Hp']; subst. cbn [length seq table map seq_fill_defaults zip_with]. fold (table xs).
  assert (forall s', seq_fill_defaults (pre ++ vm m :: table xs) (seq (Datatypes.S (length pre)) (length xs)) (done ++ s' :: sts)
    = Some (done ++ s' :: zip_with with_defaults xs sts)) as Hrest.
  { intros s'. specialize (IH (pre ++ [vm m]) (done ++ [s']) sts ltac:(cbn in Hl; lia) ltac:(len) Hp').
    replace (length (pre ++ [vm m])) with (Datatypes.S (length pre)) in IH by len. now rewrite <- !app_assoc in IH. }
  rewrite list_lookup_middle, Hm by reflexivity. replace (slot (done ++ s :: sts) (length pre)) with s by now rewrite <- Hd, slot_middle.
  destruct (default_value_set (vm m)) as [set|] eqn:Eset.
  - destruct s as [v|]; cbn [with_defaults]; [apply Hrest|]. rewrite Eset.
    destruct (vm_set _ m set Eset) as [d Ed]. unfold fresh_slot in Ed. rewrite Hm in Ed. rewrite Ed.
    replace (<[length pre := Some d]> (done ++ None :: sts)) with (done ++ Some d :: sts) by now rewrite <- Hd, insert_middle, <- app_assoc.
    apply Hrest.
  - destruct s as [v|]; cbn [with_defaults]; [|rewrite Eset]; apply Hrest.
Qed.

(** ** The whole type *)

(** Memory for the structure and the bitmaps. *)
Definition sequence_room (specs : asn_SEQUENCE_specifics) : Z := Z.max (seq_struct_size specs) (Z.of_nat (roms_count specs) + 16).

(** Decoding starts from no structure or from a zeroed one. *)
Definition starts_fresh (elements : list (asn_TYPE_member V)) (sptr : option (list (option V))) : Prop :=
  sptr = None \/ sptr = Some (zero_struct elements).

Lemma decodes_presence specs l : length l = roms_count specs -> serves A (sequence_room specs) ->
  exists opmd, decodes (seq_presence (roms_count specs)) l (RC_OK 0 opmd) /\ pd_ok opmd /\ remaining opmd = l.
Proof.
  intros Hlen HA. unfold seq_presence.
  destruct (Nat.eqb_spec (roms_count specs) 0) as [E|E].
  - exists (bitmap_reader [] 0). rewrite E in Hlen. apply length_zero_iff_nil in Hlen as ->. split; [apply decodes_ret|].
    split; [|reflexivity]. unfold pd_ok, bitmap_reader; cbn. repeat split; try lia. constructor.
  - destruct (decodes_bitmap l) as (bs & Hd & Hpd & Hr). rewrite Hlen in *.
    exists (bitmap_reader bs (Z.of_nat (roms_count specs))). split; [|auto]. rewrite HA; cbn [negb].
    + eapply decodes_last; [exact Hd|apply decodes_ret].
    + rewrite shiftr3 by lia. unfold sequence_room. split; [apply Z.add_nonneg_nonneg; [apply Z.div_pos|]; lia|].
      pose proof (Z.div_le_upper_bound (Z.of_nat (roms_count specs) + 7) 8 (Z.of_nat (roms_count specs) + 7)). lia.
Qed.

Lemma additions_room specs n : 0 <= n <= 64 -> 0 <= (n + 15) ≫ 3 <= sequence_room specs.
Proof.
  intros Hn. rewrite shiftr3 by lia. unfold sequence_room. pose proof (Z.div_pos (n + 15) 8). pose proof (Z.div_le_upper_bound (n + 15) 8 16). lia.
Qed.

Lemma decodes_additions specs ctx xs sts exts done :
  understood xs sts exts -> Forall2 ext_ok xs sts -> pointers xs -> (1 <= length exts <= 64)%nat ->
  Forall (fun e => forall l, e = Some l -> open_type_room l) (drop (length xs) exts) -> serves A (sequence_room specs) ->
  (strictly_canonical ctx = true -> existsb is_present (take (length xs) exts) = true) ->
  decodes (seq_decode_additions stack_ok ctx (table xs) (length done) (done ++ zero_struct (table xs)))
    (bits_of 7 (Z.of_nat (length exts) - 1) ++ map is_present exts ++ fields_bits exts) (RC_OK 0 (done ++ sts)).
Proof.
  intros Hu Hok Hp Hl Hroom HA Hc. unfold seq_decode_additions.
  eapply decodes_bind; [apply decodes_nslength; lia|]. cbv beta iota. rewrite (proj2 (Z.ltb_ge _ 0)) by lia.
  rewrite HA by (apply additions_room; lia). cbn [negb].
  destruct (decodes_bitmap (map is_present exts)) as (bs & Hd & Hpd & Hr). rewrite length_map in *.
  eapply decodes_bind; [exact Hd|]. cbv beta iota zeta. rewrite (any_present_ok exts) by assumption. unfold table at 1. rewrite length_map.
  replace (strictly_canonical ctx && _) with false by (destruct (strictly_canonical ctx); [now rewrite Hc|reflexivity]).
  destruct (decodes_extensions ctx xs sts exts Hu done _ Hok Hp Hpd Hr) as (epmd' & Hpd' & Hr' & Hdec).
  assert (fields_bits exts = fields_bits (take (length xs) exts) ++ fields_bits (drop (length xs) exts)) as ->.
  { unfold fields_bits. now rewrite <- concat_app, <- map_app, take_drop. }
  eapply decodes_bind; [exact Hdec|]. cbv beta iota. eapply decodes_last.
  - apply (decodes_skip_overflow ctx (drop (length xs) exts)); auto.
    pose proof (length_remaining epmd' Hpd') as Hlr. rewrite Hr', length_map in Hlr. lia.
  - apply decodes_ret.
Qed.

(** A decoder of the type and what it needs of memory. *)
Record receiver_ok (specs : asn_SEQUENCE_specifics) (extensible : bool) rs xs (sptr : option (list (option V))) : Prop := {
  ro_specs : specs_ok specs extensible rs xs;
  ro_fresh : starts_fresh (table (rs ++ xs)) sptr;
  ro_size : 0 <= seq_struct_size specs;
  ro_room : serves A (sequence_room specs)
}.

(** The extension bit and the presence bitmap. *)
Lemma decodes_head specs extensible rs xs sptr ctx bit presence bits a :
  receiver_ok specs extensible rs xs sptr -> length presence = roms_count specs ->
  (forall opmd, pd_ok opmd -> remaining opmd = presence ->
    decodes (seq_decode_members stack_ok specs (table (rs ++ xs)) ctx (if extensible then Z.b2z bit else 0)
      (zero_struct (table rs) ++ zero_struct (table xs)) opmd) bits a) ->
  decodes (SEQUENCE_decode_uper stack_ok specs (table (rs ++ xs)) sptr ctx) ((if extensible then [bit] else []) ++ presence ++ bits) a.
Proof.
  intros [Hs Hf Hz HA] Hl Hk. destruct (decodes_presence specs presence Hl HA) as (opmd & Hpres & Hopmd & Hrem).
  unfold SEQUENCE_decode_uper. cbn [overflow_here stack_ok].
  rewrite (have_struct_ok _ _ _ HA) by (unfold sequence_room; lia). cbn [negb].
  assert (default (zero_struct (table (rs ++ xs))) sptr = zero_struct (table rs) ++ zero_struct (table xs)) as ->.
  { destruct Hf as [-> | ->]; cbn [from_option id]; unfold zero_struct, table; now rewrite !map_app. }
  rewrite (so_first _ _ _ _ Hs). eapply (decodes_bind _ _ _ _ (if extensible then Z.b2z bit else 0)).
  { destruct extensible; [|apply decodes_ret]. rewrite (proj2 (Z.ltb_ge (Z.of_nat _) 0)) by lia.
    replace [bit] with (bits_of 1 (Z.b2z bit)) by now destruct bit. apply (decodes_few_bits_of 1 1); [reflexivity|lia|now destruct bit]. }
  cbv beta iota. rewrite (proj2 (Z.ltb_ge (if extensible then _ else _) 0)) by (destruct extensible, bit; cbn; lia).
  eapply decodes_bind; [exact Hpres|]. now apply Hk.
Qed.

Lemma decodes_sequence specs extensible rs xs rsts xsts exts sptr ctx :
  receiver_ok specs extensible rs xs sptr ->
  Forall2 slot_ok rs rsts -> understood xs xsts exts -> Forall2 ext_ok xs xsts -> (length exts <= 64)%nat ->
  Forall (fun e => forall l, e = Some l -> open_type_room l) (drop (length xs) exts) ->
  (extensible = false -> exts = []) ->
  (strictly_canonical ctx = true -> existsb is_present exts = existsb is_present (take (length xs) exts)) ->
  decodes (SEQUENCE_decode_uper stack_ok specs (table (rs ++ xs)) sptr ctx) (sequence_bits extensible rs rsts exts)
    (RC_OK 0 (zip_with with_defaults (rs ++ xs) (rsts ++ xsts))).
Proof.
  intros Hro Hr Hu Hx H64 Hroom Hne Hc. pose proof (Forall2_length Hr) as Hlr. pose proof (Forall2_length Hx) as Hlx.
  apply decodes_head; [assumption|rewrite (so_count _ _ _ _ (ro_specs _ _ _ _ _ Hro)); apply length_root_presence; lia|].
  destruct Hro as [Hs _ _ HA]. destruct (table_root _ _ _ _ Hs) as (Hrc & Htk & Hdr).
  intros opmd Hpd Hrem. unfold seq_decode_members. rewrite Hrc, Htk, Hdr, (so_first _ _ _ _ Hs), (so_aoms _ _ _ _ Hs).
  pose proof (decodes_root ctx rs [] rsts (zero_struct (table xs)) opmd Hr Hpd Hrem) as Hroot. cbn [app length] in Hroot.
  rewrite (zip_with_app with_defaults) by lia. eapply decodes_bind; [exact Hroot|]. cbv beta iota zeta.
  destruct extensible.
  - eapply decodes_last with (a := RC_OK 0 (zip_with with_defaults rs rsts ++ xsts)).
    + destruct (existsb is_present exts) eqn:Eany; cbn [Z.b2z Z.eqb].
      * replace (length rs) with (length (zip_with with_defaults rs rsts)) by (rewrite length_zip_with; lia).
        apply (decodes_additions specs); auto; [apply Hs|destruct exts; [discriminate|cbn in *; lia]|].
        intros Hst. now rewrite <- Hc.
      * assert (xsts = map (fun _ => None) xs) as ->.
        { clear -Hu Eany. induction Hu as [xs|m s xs sts exts Hu IH|exts]; [reflexivity| |reflexivity].
          cbn in Eany. apply orb_false_iff in Eany as [E1 E2]. destruct s; [discriminate|]. cbn. now rewrite <- IH. }
        rewrite zero_pointers by apply Hs. apply decodes_ret.
    + cbv beta iota. rewrite (proj2 (Z.ltb_ge (Z.of_nat _) 0)) by lia.
      pose proof (fill_defaults_ok xs (table rs) (zip_with with_defaults rs rsts) xsts ltac:(lia)) as Hfill.
      assert (length (table rs) = length rs) as Et by apply length_map.
      rewrite Et, <- (map_app vm rs xs : table (rs ++ xs) = table rs ++ table xs) in Hfill.
      rewrite Hfill; [apply decodes_ret| |apply Hs]. rewrite length_zip_with. lia.
  - rewrite (Hne eq_refl). pose proof (so_none _ _ _ _ Hs eq_refl) as ->. destruct xsts; [|discriminate]. apply decodes_ret.
Qed.

(** A strictly canonical decoder refuses a bitmap that announces none of the
    extensions it knows. *)
Lemma decodes_unknown_refused specs rs xs rsts (exts : list (option (list bool))) sptr ctx :
  receiver_ok specs true rs xs sptr -> Forall2 slot_ok rs rsts -> (length exts <= 64)%nat ->
  existsb is_present exts = true -> existsb is_present (take (length xs) exts) = false -> strictly_canonical ctx = true ->
  decodes (SEQUENCE_decode_uper stack_ok specs (table (rs ++ xs)) sptr ctx)
    ([true] ++ root_presence rs rsts ++ root_bits rs rsts ++ bits_of 7 (Z.of_nat (length exts) - 1) ++ map is_present exts) DECODE_FAILED.
Proof.
  intros Hro Hr H64 Hany Hknown Hc. pose proof (Forall2_length Hr) as Hlr.
  apply (decodes_head specs true); [assumption|rewrite (so_count _ _ _ _ (ro_specs _ _ _ _ _ Hro)); apply length_root_presence; lia|].
  destruct Hro as [Hs _ _ HA]. destruct (table_root _ _ _ _ Hs) as (Hrc & Htk & Hdr).
  intros opmd Hpd Hrem. unfold seq_decode_members. rewrite Hrc, Htk, Hdr.
  pose proof (decodes_root ctx rs [] rsts (zero_struct (table xs)) opmd Hr Hpd Hrem) as Hroot. cbn [app length] in Hroot.
  eapply decodes_bind; [exact Hroot|]. cbv beta iota zeta. cbn [Z.b2z Z.eqb].
  assert (1 <= length exts)%nat by (destruct exts; [discriminate|cbn; lia]).
  eapply (decodes_last _ _ _ DECODE_FAILED); [|apply decodes_ret]. unfold seq_decode_additions.
  eapply decodes_bind; [apply decodes_nslength; lia|]. cbv beta iota. rewrite (proj2 (Z.ltb_ge _ 0)) by lia.
  rewrite HA by (apply additions_room; lia). cbn [negb].
  destruct (decodes_bitmap (map is_present exts)) as (bs & Hd & Hpd' & Hr'). rewrite length_map in *.
  eapply decodes_last; [exact Hd|]. cbv beta iota zeta. rewrite (any_present_ok exts) by assumption. unfold table at 1. rewrite length_map, Hknown, Hc.
  apply decodes_ret.
Qed.
End Read.

(** ** Arbitrary data *)

Section Safety.
Context {T : Target} {A : Allocator} {V : Type}.
Implicit Types (m : vmember V) (ms rs xs : list (vmember V)) (sts : list (option V)) (ctx : option asn_codec_ctx).

(** The stream is followed and a structure of the same shape comes out. *)
Definition shaped {X} (pd : asn_bit_data) (len : nat) (tail : list (option V)) (pr : X -> list (option V)) (r : asn_dec_rval X * asn_bit_data) : Prop :=
  follows pd r /\ forall n x, fst r = RC_OK n x -> exists done, length done = len /\ pr x = done ++ tail.

Lemma shaped_ret {X} pd len tail (pr : X -> list (option V)) (r : asn_dec_rval X) :
  pd_ok pd -> (forall n x, r = RC_OK n x -> exists done, length done = len /\ pr x = done ++ tail) -> shaped pd len tail pr (r, pd).
Proof. intros Hok H. split; [now apply follows_ret|exact H]. Qed.

Lemma shaped_failed {X} pd len tail (pr : X -> list (option V)) r :
  pd_ok pd -> (forall n x, r <> RC_OK n x) -> shaped pd len tail pr (r, pd).
Proof. intros Hok H. apply shaped_ret; [assumption|]. intros n x E. now apply H in E. Qed.

Lemma shaped_let {X Y} pd len tail (pr : Y -> list (option V)) (r : X * asn_bit_data) (g : X -> asn_bit_data -> asn_dec_rval Y * asn_bit_data) :
  follows pd r -> (forall x pd', pd_ok pd' -> shaped pd' len tail pr (g x pd')) -> shaped pd len tail pr (let '(x, pd') := r in g x pd').
Proof.
  intros [n Hn] Hg. destruct r as [x pd']. cbn [snd] in Hn. destruct (Hg x pd' (proj1 Hn)) as [[k Hk] H2].
  split; [|exact H2]. exists (n + k)%nat. eapply advanced_trans; eassumption.
Qed.

Lemma shaped_root ctx ms : forall done tail opmd pd, pd_ok pd ->
  shaped pd (length done + length ms) tail id (seq_decode_root ctx (table ms) (length done) (done ++ zero_struct (table ms) ++ tail) opmd pd).
Proof.
  induction ms as [|m ms IH]; intros done tail opmd pd Hok; cbn [table map seq_decode_root zero_struct app length].
  { apply shaped_ret; [assumption|]. intros n x [= _ <-]. exists done. split; [lia|reflexivity]. }
  fold (table ms) (zero_struct (table ms)).
  assert (forall x opmd pd, pd_ok pd -> shaped pd (length done + Datatypes.S (length ms)) tail id
    (seq_decode_root ctx (table ms) (Datatypes.S (length done)) (<[length done := x]> (done ++ fresh_slot (vm m) :: zero_struct (table ms) ++ tail)) opmd pd)) as Hrest.
  { intros x opmd' pd' Hpd. specialize (IH (done ++ [x]) tail opmd' pd' Hpd). rewrite insert_middle.
    revert IH. rewrite length_app. cbn [length].
    replace (length done + 1 + length ms)%nat with (length done + Datatypes.S (length ms))%nat by lia. now rewrite (Nat.add_1_r (length done)). }
  rewrite slot_middle. destruct (if elm_optional (vm m) then _ else _) as [present opmd'].
  destruct (present =? 0).
  - destruct (default_value_set (vm m)) as [set|].
    + destruct (set _); [now apply Hrest|now apply shaped_failed].
    + specialize (Hrest (fresh_slot (vm m)) opmd' pd Hok). now rewrite list_insert_id in Hrest by now apply list_lookup_middle.
  - rewrite (vm_plain _ m), (vm_decode _ m). apply shaped_let; [now apply uper_dec_safe|].
    intros [n v|n|n] pd' Hpd; try now apply shaped_failed. destruct (_ && _); [now apply shaped_failed|now apply Hrest].
Qed.

Lemma shaped_extensions ctx overflow xs : forall done epmd pd, pd_ok pd ->
  shaped pd (length done + length xs) [] fst
    (seq_decode_extensions overflow ctx (table xs) (length done) (done ++ zero_struct (table xs)) epmd pd).
Proof.
  induction xs as [|m xs IH]; intros done epmd pd Hok; cbn [table map seq_decode_extensions zero_struct length].
  { apply shaped_ret; [assumption|]. intros n x [= _ <-]. exists done. cbn [fst]. split; [lia|reflexivity]. }
  fold (table xs) (zero_struct (table xs)).
  assert (forall x epmd pd, pd_ok pd -> shaped pd (length done + Datatypes.S (length xs)) [] fst
    (seq_decode_extensions overflow ctx (table xs) (Datatypes.S (length done)) (<[length done := x]> (done ++ fresh_slot (vm m) :: zero_struct (table xs))) epmd pd)) as Hrest.
  { intros x epmd' pd' Hpd. specialize (IH (done ++ [x]) epmd' pd' Hpd). rewrite insert_middle.
    revert IH. rewrite length_app. cbn [length].
    replace (length done + 1 + length xs)%nat with (length done + Datatypes.S (length xs))%nat by lia. now rewrite (Nat.add_1_r (length done)). }
  rewrite slot_middle. destruct (asn_get_few_bits epmd 1) as [present epmd'].
  destruct (present <? 0).
  - apply shaped_ret; [assumption|]. intros n x [= _ <-]. eexists. cbn [fst]. rewrite app_nil_r. split; [|reflexivity].
    rewrite length_app. cbn [length]. unfold zero_struct, table. rewrite !length_map. lia.
  - destruct (present =? 0).
    + specialize (Hrest (fresh_slot (vm m)) epmd' pd Hok). now rewrite list_insert_id in Hrest by now apply list_lookup_middle.
    + apply shaped_let; [now apply follows_open_type|].
      intros [n v|n|n] pd' Hpd; try now apply shaped_failed. now apply Hrest.
Qed.

Lemma follows_skip_overflow ctx overflow fuel : forall epmd pd, pd_ok pd -> follows pd (seq_skip_overflow fuel overflow ctx epmd pd).
Proof.
  induction fuel as [|fuel IH]; intros epmd pd Hok; cbn [seq_skip_overflow]; [now apply follows_ret|].
  destruct (asn_get_few_bits epmd 1) as [present epmd']. follow.
Qed.
#[local] Hint Resolve follows_skip_overflow : follows.

(** The loop over the overflow extensions ends: the bitmap is finite. *)
Lemma skip_fuel_enough ctx overflow f1 : forall f2 epmd pd, pd_ok epmd ->
  (length (remaining epmd) < f1)%nat -> (length (remaining epmd) < f2)%nat ->
  seq_skip_overflow f1 overflow ctx epmd pd = seq_skip_overflow f2 overflow ctx epmd pd.
Proof.
  induction f1 as [|f1 IH]; intros [|f2] epmd pd Hok H1 H2; try lia. cbn [seq_skip_overflow].
  destruct (remaining epmd) as [|b l] eqn:Er.
  - now rewrite (read_end epmd Hok Er).
  - destruct (read_bit epmd b l Hok Er) as (epmd' & -> & Hok' & Er'). cbn [length] in *.
    destruct (Z.b2z b =? -1); [reflexivity|]. destruct (Z.b2z b =? 0); [apply IH; rewrite ?Er'; auto; lia|].
    destruct (uper_open_type_skip overflow ctx pd) as [rc pd']. destruct (negb _); [reflexivity|]. apply IH; rewrite ?Er'; auto; lia.
Qed.

Lemma follows_presence n pd : pd_ok pd -> follows pd (seq_presence n pd).
Proof. intros Hok. unfold seq_presence. follow. Qed.

Lemma shaped_additions sc ctx xs done pd : pd_ok pd ->
  shaped pd (length done + length xs) [] id (seq_decode_additions sc ctx (table xs) (length done) (done ++ zero_struct (table xs)) pd).
Proof.
  intros Hok. unfold seq_decode_additions. apply shaped_let; [auto with follows|]. intros bmlength pd1 Hpd1.
  destruct (bmlength <? 0); [now apply shaped_failed|]. destruct (negb _); [now apply shaped_failed|].
  apply shaped_let; [auto with follows|]. intros [epres|] pd2 Hpd2; [|now apply shaped_failed]. cbv zeta.
  destruct (_ && negb _); [now apply shaped_failed|].
  destruct (shaped_extensions ctx (overflow_open_type sc) xs done (bitmap_reader epres bmlength) pd2 Hpd2) as [[n Hn] Hst].
  destruct (seq_decode_extensions _ _ _ _ _ _ _) as [r pd3]. cbn [fst snd] in *.
  assert (shaped pd3 (length done + length xs) [] id
    (match r with
     | RC_OK _ (st, epmd) =>
         let '(ok, pd) := seq_skip_overflow (Datatypes.S (Z.to_nat (nbits epmd - nboff epmd))) (overflow_skip sc) ctx epmd pd3 in
         if ok then (RC_OK 0 st, pd) else (DECODE_STARVED, pd)
     | RC_WMORE n => (RC_WMORE n, pd3) | RC_FAIL n => (RC_FAIL n, pd3) end)) as [[k Hk] H2].
  { destruct r as [n' [st epmd]|n'|n']; try (apply shaped_failed; [apply Hn|discriminate]).
    apply shaped_let; [apply follows_skip_overflow, Hn|]. intros ok pd4 Hpd4. destruct ok; [|now apply shaped_failed].
    apply shaped_ret; [assumption|]. intros n0 x [= _ <-]. exact (Hst n' (st, epmd) eq_refl). }
  split; [|exact H2]. exists (n + k)%nat. eapply advanced_trans; eassumption.
Qed.

Lemma follows_sequence sc specs extensible rs xs sptr ctx pd :
  specs_ok specs extensible rs xs -> starts_fresh (table (rs ++ xs)) sptr -> pd_ok pd ->
  follows pd (SEQUENCE_decode_uper sc specs (table (rs ++ xs)) sptr ctx pd).
Proof.
  intros Hs Hf Hok. unfold SEQUENCE_decode_uper, seq_decode_members. destruct (table_root _ _ _ _ Hs) as (-> & -> & ->).
  assert (default (zero_struct (table (rs ++ xs))) sptr = zero_struct (table rs) ++ zero_struct (table xs)) as ->.
  { destruct Hf as [-> | ->]; cbn [from_option id]; unfold zero_struct, table; now rewrite !map_app. }
  destruct (overflow_here sc); [now apply follows_ret|]. destruct (negb _); [now apply follows_ret|]. cbv zeta.
  apply follows_let; [destruct (_ <? _); auto with follows|]. intros extpresent pd1 Hpd1.
  destruct (_ <? 0); [now apply follows_ret|]. apply follows_let; [now apply follows_presence|]. intros [n opmd|n|n] pd2 Hpd2; try now apply follows_ret.
  destruct (shaped_root ctx rs [] (zero_struct (table xs)) opmd pd2 Hpd2) as [[k Hk] Hst]. cbn [app length Nat.add] in *.
  destruct (seq_decode_root _ _ _ _ _ _) as [r pd3]. cbn [fst snd] in *.
  enough (follows pd3 (match r with
     | RC_OK _ st =>
         let '(r, pd) := if extpresent =? 0 then (RC_OK 0 st, pd3) else seq_decode_additions sc ctx (table xs) (length rs) st pd3 in
         match r with
         | RC_OK _ st =>
             if first_extension specs <? 0 then (RC_OK 0 st, pd) else
             match seq_fill_defaults (table (rs ++ xs)) (take (aoms_count specs) (drop (roms_count specs) (oms specs))) st with
             | Some st => (RC_OK 0 st, pd)
             | None => (DECODE_FAILED, pd)
             end
         | RC_WMORE n => (RC_WMORE n, pd) | RC_FAIL n => (RC_FAIL n, pd)
         end
     | RC_WMORE n => (RC_WMORE n, pd3) | RC_FAIL n => (RC_FAIL n, pd3) end)) as [j Hj].
  { exists (k + j)%nat. destruct r; eapply advanced_trans; eassumption. }
  destruct r as [n' st|n'|n']; [|apply follows_ret, Hk..]. destruct (Hst n' st eq_refl) as (done & Hl & E). cbn [id] in E. subst st.
  apply follows_let.
  - destruct (extpresent =? 0); [apply follows_ret, Hk|]. rewrite <- Hl. apply shaped_additions, Hk.
  - intros r' pd4 Hpd4. follow.
Qed.
End Safety.

(** * The interface *)

Section Instance.
Context {T : Target} {A : Allocator} {V : Type}.
Implicit Types (m : vmember V) (rs xs : list (vmember V)) (sts : list (option V)).

(** A structure that can be encoded: values of the root and of the
    extensions. *)
Definition encodable rs xs rsts xsts : Prop := Forall2 slot_ok rs rsts /\ Forall2 ext_ok xs xsts.

Lemma length_encodable rs xs rsts xsts : encodable rs xs rsts xsts -> length rsts = length rs /\ length xsts = length xs.
Proof. intros [H1%Forall2_length H2%Forall2_length]. lia. Qed.

Lemma fields_present xs xsts : length xsts = length xs -> length (extension_fields xs xsts) = length xs.
Proof. intros H. unfold extension_fields. rewrite length_zip_with. lia. Qed.

Lemma fields_room xs xsts : Forall2 ext_ok xs xsts ->
  Forall (fun e => forall l, e = Some l -> open_type_room l) (extension_fields xs xsts).
Proof.
  induction 1 as [|m s xs xsts Hm H IH]; [constructor|]. unfold extension_fields. cbn [zip_with]. constructor; [|exact IH].
  intros l. destruct s as [v|]; [|discriminate]. intros [= <-]. apply (Hm v eq_refl).
Qed.

(** Both sides know the same table. *)
Lemma decodes_own specs extensible rs xs rsts xsts sptr ctx :
  receiver_ok specs extensible rs xs sptr -> encodable rs xs rsts xsts -> (length xs <= 64)%nat ->
  decodes (SEQUENCE_decode_uper stack_ok specs (table (rs ++ xs)) sptr ctx) (sequence_bits extensible rs rsts (extension_fields xs xsts))
    (RC_OK 0 (zip_with with_defaults (rs ++ xs) (rsts ++ xsts))).
Proof.
  intros Hro He H64. destruct (length_encodable _ _ _ _ He) as [Hlr Hlx]. destruct He as [Hr Hx].
  pose proof (fields_present xs xsts Hlx) as Hlen. eapply decodes_sequence; eauto.
  - now apply understood_fields.
  - lia.
  - rewrite drop_ge by lia. constructor.
  - intros ->. pose proof (so_none _ _ _ _ (ro_specs _ _ _ _ _ Hro) eq_refl) as ->. reflexivity.
  - intros _. now rewrite take_ge by lia.
Qed.

(** A SEQUENCE is a type again. *)
Definition SEQUENCE_codec (tmp : nat -> list Z) specs extensible rs xs sptr
  (Ht : forall edx, length (tmp edx) = sizeof_tmpspace /\ octets (tmp edx))
  (Hr : receiver_ok specs extensible rs xs sptr) (H64 : (length xs <= 64)%nat) : UperCodec (list (option V)).
Proof.
  refine {|
    uper_enc := fun st K C => SEQUENCE_encode_uper tmp specs (table (rs ++ xs)) (Some st);
    uper_dec := SEQUENCE_decode_uper stack_ok specs (table (rs ++ xs)) sptr;
    uper_valid := fun st => exists rsts xsts, st = rsts ++ xsts /\ encodable rs xs rsts xsts /\ zip_with with_defaults (rs ++ xs) st = st;
    uper_bits := fun st => sequence_bits extensible rs (take (length rs) st) (extension_fields xs (drop (length rs) st))
  |}.
  - intros st K C S R (rsts & xsts & -> & He & _). destruct (length_encodable _ _ _ _ He) as [Hlr Hlx]. destruct He as [H1 H2].
    rewrite take_app_length', drop_app_length' by congruence. apply encodes_sequence; auto. apply Hr.
  - intros ctx st (rsts & xsts & -> & He & Hfill). destruct (length_encodable _ _ _ _ He) as [Hlr Hlx]. exists 0.
    rewrite take_app_length', drop_app_length' by congruence. rewrite <- Hfill. now apply decodes_own.
  - intros ctx pd Hok. eapply follows_sequence; [apply Hr|apply Hr|assumption].
Defined.

(** ** Versions of a type *)

Lemma understood_newer xs news xsts nsts : length xsts = length xs ->
  understood xs xsts (extension_fields (xs ++ news) (xsts ++ nsts)).
Proof.
  revert xsts. induction xs as [|m xs IH]; intros [|s xsts] Hl; try discriminate; [constructor|].
  unfold extension_fields in *. cbn. constructor. apply IH. cbn in Hl. lia.
Qed.

Lemma understood_older xs news xsts : length xsts = length xs ->
  understood (xs ++ news) (xsts ++ map (fun _ => None) news) (extension_fields xs xsts).
Proof.
  revert xsts. induction xs as [|m xs IH]; intros [|s xsts] Hl; try discriminate; [constructor|].
  unfold extension_fields in *. cbn. constructor. apply IH. cbn in Hl. lia.
Qed.

Lemma length_optional_positions rs rs' e e' :
  length (optional_positions (rs ++ rs') e) = (length (optional_positions rs e') + length (optional_positions rs' 0))%nat.
Proof.
  assert (forall rs e, length (optional_positions rs e) = length (filter (fun m => elm_optional (vm m) = true) rs)) as H.
  { clear. induction rs as [|m rs IH]; intros e; [reflexivity|]. cbn [optional_positions]. rewrite length_app, IH, filter_cons.
    destruct (elm_optional (vm m)); case_decide; try done; reflexivity. }
  now rewrite !H, list.filter_app, length_app.
Qed.
End Instance.
