(* ===== verification/LanePositionAndType.v ===== *)
(** A generated type: LanePositionAndType of the common data dictionary,
    its tables in LanePositionAndType.c and its members' types in
    LanePosition.c, LaneType.c and Direction.c under vanetza/asn1/its/r2/.

    The three members are numbers of a range in a long; the second and the
    third have the DEFAULT 0; the type is extensible without extensions yet. *)

From S2P Require Import Prelude Runtime Constraints BitData BitOutp UperSupport Integer IntegerUper UperCodec OpenType Sequence SequenceCodec.

(** * The member types *)

Definition unconstrained_size : asn_per_constraint := mk_per_constraint APC_UNCONSTRAINED (-1) (-1) 0 0.
Definition asn_PER_type_Vanetza_ITS2_LanePosition_constr_1 : asn_per_constraints :=
  mk_per_constraints (mk_per_constraint APC_CONSTRAINED 4 4 (-1) 14) unconstrained_size None None.
Definition asn_PER_type_Vanetza_ITS2_LaneType_constr_1 : asn_per_constraints :=
  mk_per_constraints (mk_per_constraint APC_CONSTRAINED 5 5 0 31) unconstrained_size None None.
Definition asn_PER_type_Vanetza_ITS2_Direction_constr_1 : asn_per_constraints :=
  mk_per_constraints (mk_per_constraint APC_CONSTRAINED 2 2 0 3) unconstrained_size None None.

Definition Vanetza_ITS2_LanePosition_constraint (sptr : option Z) : Z :=
  match sptr with None => -1 | Some value => if (-1 <=? value) && (value <=? 14) then 0 else -1 end.
Definition Vanetza_ITS2_LaneType_constraint (sptr : option Z) : Z :=
  match sptr with None => -1 | Some value => if (0 <=? value) && (value <=? 31) then 0 else -1 end.
Definition Vanetza_ITS2_Direction_constraint (sptr : option Z) : Z :=
  match sptr with None => -1 | Some value => if (0 <=? value) && (value <=? 3) then 0 else -1 end.

(** * The tables *)

Definition asn_DFL_3_cmp_0 (sptr : option Z) : Z :=
  match sptr with None => -1 | Some st => if st =? 0 then 0 else 1 end.

Definition asn_DFL_4_cmp_0 (sptr : option Z) : Z :=
  match sptr with None => -1 | Some st => if st =? 0 then 0 else 1 end.

Section Tables.
Context {T : Target} {A : Allocator}.

Definition asn_DFL_3_set_0 (sptr : option Z) : option Z :=
  match sptr with None => if malloc_ok sizeof_word then Some 0 else None | Some _ => Some 0 end.
Definition asn_DFL_4_set_0 (sptr : option Z) : option Z :=
  match sptr with None => if malloc_ok sizeof_word then Some 0 else None | Some _ => Some 0 end.

(** A member whose operations are asn_OP_NativeInteger. *)
Definition NativeInteger_member (flag_pointer optional : bool) (constr : asn_per_constraints) (check : option Z -> Z)
    (cmp : option (option Z -> Z)) (set : option (option Z -> option Z)) : asn_TYPE_member Z := {|
  elm_pointer := flag_pointer;
  elm_optional := optional;
  elm_zero := 0;
  elm_encode := fun v K C => NativeInteger_encode_uper None (Some constr) None (Some v);
  elm_decode := fun slot ctx => NativeInteger_decode_uper ctx None (Some constr) None slot;
  elm_open_type := None;
  default_value_set := set;
  default_value_cmp := option_map (fun cmp v => cmp (Some v)) cmp;
  compare_struct := Some (fun a b => NativeInteger_compare (Some a) (Some b));
  copy_struct := fun a b => let '(rc, a) := NativeInteger_copy a b in if rc =? 0 then Some a else None;
  general_constraints := fun v => check (Some v)
|}.

Definition asn_MBR_Vanetza_ITS2_LanePositionAndType_1 : list (asn_TYPE_member Z) := [
  NativeInteger_member false false asn_PER_type_Vanetza_ITS2_LanePosition_constr_1 Vanetza_ITS2_LanePosition_constraint None None;
  NativeInteger_member false true asn_PER_type_Vanetza_ITS2_LaneType_constr_1 Vanetza_ITS2_LaneType_constraint
    (Some asn_DFL_3_cmp_0) (Some asn_DFL_3_set_0);
  NativeInteger_member false true asn_PER_type_Vanetza_ITS2_Direction_constr_1 Vanetza_ITS2_Direction_constraint
    (Some asn_DFL_4_cmp_0) (Some asn_DFL_4_set_0)].

(** sizeof(struct Vanetza_ITS2_LanePositionAndType): three longs and the
    parsing context. *)
Definition asn_SPC_Vanetza_ITS2_LanePositionAndType_specs_1 : asn_SEQUENCE_specifics := {|
  seq_struct_size := 5 * sizeof_word + 8;
  oms := [1; 2]%nat;
  roms_count := 2;
  aoms_count := 0;
  first_extension := 3
|}.
End Tables.

(** * Members of a range *)

Section Range.
Context {T : Target} {A : Allocator}.
Hypothesis HA : serves A 24.

Definition range_ok (constr : asn_per_constraints) : Prop :=
  per_value_ok false (pc_value constr) /\ has (pc_value constr) APC_EXTENSIBLE = false /\ 0 <= range_bits (pc_value constr) /\
  is_long (lower_bound (pc_value constr)) /\ is_long (upper_bound (pc_value constr)).

Definition in_range (constr : asn_per_constraints) (v : Z) : Prop := lower_bound (pc_value constr) <= v <= upper_bound (pc_value constr).

Lemma native_range_bits constr v : range_ok constr -> in_range constr v ->
  native_ok false v /\
  uper_integer_bits false (Some (pc_value constr)) (skip_redundant (be_bytes 8 v)) =
    Some (bits_of (Z.to_nat (range_bits (pc_value constr))) (v - lower_bound (pc_value constr))).
Proof.
  intros (Hc & He & Hr & Hl & Hu) Hv. unfold in_range in Hv.
  assert (native_ok false v) as Hn by (cbn; unfold is_long in *; lia). split; [exact Hn|].
  destruct (native_INTEGER false v (serves_le _ _ 9 HA ltac:(lia)) Hn) as (_ & _ & _ & En & _).
  unfold uper_integer_bits. rewrite En, He, (proj2 (Z.leb_le 0 _)) by lia. cbn [lower].
  assert (number_fits false v = true) as ->.
  { unfold number_fits. apply imax_b_true, long_imax. exact Hn. }
  cbn [negb]. destruct Hc as (_ & _ & [Hc|(_ & Hs & _)] & _); [lia|].
  unfold in_root. rewrite Hs, (proj2 (Z.leb_le 0 _)) by lia. cbn [lower upper].
  now rewrite (proj2 (Z.leb_le _ v)), (proj2 (Z.leb_le v _)) by lia.
Qed.

Lemma native_slot ctx constr slot pd :
  NativeInteger_decode_uper ctx None (Some constr) None slot pd = NativeInteger_decode_uper ctx None (Some constr) None None pd.
Proof. unfold NativeInteger_decode_uper. pose proof sizeof_word_cases. now rewrite !(have_struct_ok _ _ _ HA) by lia. Qed.

Lemma range_value_ok constr : range_ok constr -> forall c, Some constr = Some c -> per_value_ok (is_unsigned None) (pc_value c).
Proof. intros [H _] c [= <-]. exact H. Qed.

(** The interface of such a member, decoded to its zeroed slot. *)
Definition native_member_codec constr (H : range_ok constr) (slot : option Z) : UperCodec Z :=
  with_decoder (NativeInteger_codec None (Some constr) (range_value_ok constr H) HA)
    (fun ctx => NativeInteger_decode_uper ctx None (Some constr) None slot) (fun ctx pd => native_slot ctx constr slot pd).

(** A DEFAULT 0. *)
Definition default_zero (optional : bool) (cmp : option (option Z -> Z)) (set : option (option Z -> option Z)) : Prop :=
  match cmp, set with
  | None, None => True
  | Some cmp, Some set => optional = true /\ (forall v, cmp (Some v) = 0 <-> v = 0) /\ forall slot, set slot = Some 0
  | _, _ => False
  end.

Lemma compare_zero v : (NativeInteger_compare (Some v) (Some 0) =? 0) = true -> v = 0.
Proof. cbn. destruct (Z.ltb_spec v 0), (Z.ltb_spec 0 v); try discriminate. lia. Qed.

Definition native_vmember (ptr optional : bool) constr (check : option Z -> Z) cmp set (H : range_ok constr) (Hd : default_zero optional cmp set) : vmember Z.
Proof.
  refine {| vm := NativeInteger_member ptr optional constr check cmp set;
            vm_codec := native_member_codec constr H (fresh_slot (NativeInteger_member ptr optional constr check cmp set)) |}.
  - reflexivity.
  - reflexivity.
  - reflexivity.
  - cbn. intros s ->. destruct cmp as [cmp|]; [|destruct Hd]. destruct Hd as (_ & _ & Hs). eauto.
  - intros v. unfold equals_default. cbn [default_value_cmp default_value_set elm_optional NativeInteger_member].
    destruct cmp as [cmp|], set as [set|]; cbn; try discriminate; try contradiction. destruct Hd as (Ho & Hc & Hs).
    intros E%Z.eqb_eq. apply Hc in E as ->. split; [exact Ho|]. eauto.
  - intros v. unfold is_encoded_default, equals_default. cbn [default_value_cmp default_value_set elm_optional compare_struct NativeInteger_member].
    destruct cmp as [cmp|], set as [set|]; cbn [option_map]; try contradiction; [|now rewrite andb_false_r]. destruct Hd as (_ & Hc & Hs).
    rewrite Hs. intros [_ E]%andb_prop. apply compare_zero in E as ->. apply Z.eqb_eq, Hc. reflexivity.
Defined.

Lemma native_member_valid ptr optional constr check cmp set H Hd v : in_range constr v ->
  vvalid (native_vmember ptr optional constr check cmp set H Hd) v.
Proof.
  intros Hv. destruct (native_range_bits constr v H Hv) as [Hn E]. split; [exact Hn|].
  cbn [is_unsigned option_map]. rewrite E. discriminate.
Qed.

Lemma native_member_bits ptr optional constr check cmp set H Hd v : in_range constr v ->
  vbits (native_vmember ptr optional constr check cmp set H Hd) v =
    bits_of (Z.to_nat (range_bits (pc_value constr))) (v - lower_bound (pc_value constr)).
Proof. intros Hv. destruct (native_range_bits constr v H Hv) as [_ E].
  unfold vbits. cbn [native_vmember vm_codec native_member_codec with_decoder uper_bits NativeInteger_codec is_unsigned option_map].
  now rewrite E.
Qed.
Lemma native_ext_ok ptr optional constr check cmp set H Hd v : in_range constr v -> 0 < range_bits (pc_value constr) <= 64 -> serves A 64 ->
  ext_ok (native_vmember ptr optional constr check cmp set H Hd) (Some v).
Proof.
  intros Hv Hr HA' v' [= <-]. split; [now apply native_member_valid|].
  assert (vbits (native_vmember ptr optional constr check cmp set H Hd) v =
    bits_of (Z.to_nat (range_bits (pc_value constr))) (v - lower_bound (pc_value constr))) as Eb by now apply native_member_bits.
  split.
  - rewrite Eb. unfold open_type_room. set (l := bits_of _ _).
    assert (length (new_buffer_octets l) <= 8)%nat as Hl.
    { assert (1 <= length l <= 64)%nat as Hll by (subst l; rewrite length_bits_of; lia).
      unfold new_buffer_octets. destruct l as [|b l']; [cbn in Hll; lia|]. destruct (complete_octets_bits (b :: l')) as (_ & _ & El).
      pose proof (Z.div_lt_upper_bound (Z.of_nat (length (b :: l')) + 7) 8 9). lia. }
    split; [destruct sizeof_word_cases as [[-> _]|[-> _]]; cbn; lia|eapply serves_le; [exact HA'|lia]].
  - intros E. exfalso. change (vbits (native_vmember ptr optional constr check cmp set H Hd) v = []) in E. rewrite Eb in E.
    apply (f_equal length) in E. rewrite length_bits_of in E. cbn in E. lia.
Qed.
End Range.

(** * The type *)

Section LanePositionAndType.
Context {T : Target} {A : Allocator}.
Hypothesis HA : serves A 64.

Ltac range := unfold range_ok, per_value_ok, is_imax, is_long, LONG_MIN, LONG_MAX, INTMAX_MIN, INTMAX_MAX; cbn [pc_value range_bits lower_bound upper_bound lower upper
    asn_PER_type_Vanetza_ITS2_LanePosition_constr_1 asn_PER_type_Vanetza_ITS2_LaneType_constr_1 asn_PER_type_Vanetza_ITS2_Direction_constr_1];
  destruct word_bits_cases as [-> | ->]; repeat split; try reflexivity; try lia; right; repeat split; try reflexivity; lia.

Lemma LanePosition_range : range_ok asn_PER_type_Vanetza_ITS2_LanePosition_constr_1. Proof. range. Qed.
Lemma LaneType_range : range_ok asn_PER_type_Vanetza_ITS2_LaneType_constr_1. Proof. range. Qed.
Lemma Direction_range : range_ok asn_PER_type_Vanetza_ITS2_Direction_constr_1. Proof. range. Qed.

Lemma serves_24 : serves A 24.
Proof. eapply serves_le; [exact HA|lia]. Qed.

Lemma default_3 : default_zero true (Some asn_DFL_3_cmp_0) (Some asn_DFL_3_set_0).
Proof.
  split; [reflexivity|]. split.
  - intros v. cbn. destruct (Z.eqb_spec v 0); split; congruence.
  - intros [v|]; cbn; [reflexivity|]. pose proof sizeof_word_cases. now rewrite HA by lia.
Qed.
Lemma default_4 : default_zero true (Some asn_DFL_4_cmp_0) (Some asn_DFL_4_set_0).
Proof. exact default_3. Qed.

(** The members, verified. *)
Definition lane_position_member : vmember Z :=
  native_vmember serves_24 false false _ Vanetza_ITS2_LanePosition_constraint None None LanePosition_range I.
Definition lane_type_member : vmember Z :=
  native_vmember serves_24 false true _ Vanetza_ITS2_LaneType_constraint _ _ LaneType_range default_3.
Definition lane_direction_member : vmember Z :=
  native_vmember serves_24 false true _ Vanetza_ITS2_Direction_constraint _ _ Direction_range default_4.
Definition lane_members : list (vmember Z) := [lane_position_member; lane_type_member; lane_direction_member].

Lemma lane_table : table (lane_members ++ []) = asn_MBR_Vanetza_ITS2_LanePositionAndType_1.
Proof. reflexivity. Qed.

Lemma lane_receiver sptr : starts_fresh asn_MBR_Vanetza_ITS2_LanePositionAndType_1 sptr ->
  receiver_ok asn_SPC_Vanetza_ITS2_LanePositionAndType_specs_1 true lane_members [] sptr.
Proof.
  intros Hf. pose proof sizeof_word_cases. split.
  - split; try reflexivity. constructor.
  - exact Hf.
  - cbn [seq_struct_size asn_SPC_Vanetza_ITS2_LanePositionAndType_specs_1]. lia.
  - eapply serves_le; [exact HA|]. unfold sequence_room. cbn [seq_struct_size roms_count asn_SPC_Vanetza_ITS2_LanePositionAndType_specs_1]. lia.
Qed.

(** The values of the type. *)
Definition lane_value (position type direction : Z) : list (option Z) := [Some position; Some type; Some direction].
Definition lane_ok (position type direction : Z) : Prop := -1 <= position <= 14 /\ 0 <= type <= 31 /\ 0 <= direction <= 3.

Lemma lane_encodable position type direction : lane_ok position type direction ->
  encodable lane_members [] (lane_value position type direction) [].
Proof.
  intros (Hp & Ht & Hd). split; [|constructor]. unfold lane_members, lane_value.
  constructor; [|constructor; [|constructor; [|constructor]]]; cbn [slot_ok]; apply native_member_valid; assumption.
Qed.

(** X.691 for this type: the extension bit, two presence bits, the position
    in 4 bits from -1 on, the type in 5 bits and the direction in 2 bits
    unless they are 0. *)
Definition lane_bits (position type direction : Z) : list bool :=
  [false; negb (type =? 0); negb (direction =? 0)] ++ bits_of 4 (position + 1) ++
  (if type =? 0 then [] else bits_of 5 type) ++ (if direction =? 0 then [] else bits_of 2 direction).

Lemma lane_bits_ok position type direction : lane_ok position type direction ->
  sequence_bits true lane_members (lane_value position type direction) [] = lane_bits position type direction.
Proof.
  intros (Hp & Ht & Hd). unfold sequence_bits, lane_bits, lane_members, lane_value.
  unfold lane_position_member, lane_type_member, lane_direction_member.
  cbn [root_presence root_bits]. rewrite !native_member_bits by assumption.
  unfold slot_written, equals_default. cbn [vm native_vmember NativeInteger_member elm_optional default_value_cmp option_map asn_DFL_3_cmp_0 asn_DFL_4_cmp_0
    pc_value range_bits lower_bound asn_PER_type_Vanetza_ITS2_LanePosition_constr_1 asn_PER_type_Vanetza_ITS2_LaneType_constr_1 asn_PER_type_Vanetza_ITS2_Direction_constr_1].
  rewrite !Z.sub_0_r. replace (position - -1) with (position + 1) by lia.
  destruct (type =? 0), (direction =? 0); reflexivity.
Qed.
End LanePositionAndType.

(** * A later version of LanePositionAndType

    On a 64-bit target whose memory never ends: the type with one extension,
    an optional number in the range of LaneType. *)

Definition roomy : @Allocator := fun _ => true.
#[local] Existing Instance LP64.
#[local] Existing Instance roomy.

Lemma roomy_serves n : serves roomy n.
Proof. intros m _. reflexivity. Qed.

Definition lane_ms : list (vmember Z) := lane_members (roomy_serves 64).
Definition lane_extension : vmember Z :=
  native_vmember (roomy_serves 24) true true asn_PER_type_Vanetza_ITS2_LaneType_constr_1 Vanetza_ITS2_LaneType_constraint None None LaneType_range I.
Definition lane_specs_extended : asn_SEQUENCE_specifics :=
  {| seq_struct_size := 56; oms := [1; 2; 3]%nat; roms_count := 2; aoms_count := 1; first_extension := 3 |}.

Lemma lane_old_receiver : receiver_ok asn_SPC_Vanetza_ITS2_LanePositionAndType_specs_1 true lane_ms [] None.
Proof. apply lane_receiver. now left. Qed.

Lemma lane_new_receiver : receiver_ok lane_specs_extended true lane_ms ([] ++ [lane_extension]) None.
Proof.
  split; [split; try reflexivity| |cbn; lia|apply roomy_serves].
  - discriminate.
  - constructor; [reflexivity|constructor].
  - now left.
Qed.

Lemma lane_new_encodable : encodable lane_ms ([] ++ [lane_extension]) (lane_value 3 0 2) ([] ++ [Some 7]).
Proof.
  split; [apply lane_encodable; unfold lane_ok; lia|]. constructor; [|constructor].
  apply native_ext_ok; [unfold in_range; cbn; lia|cbn; lia|apply roomy_serves].
Qed.
