(* ===== verification/SequenceTheorems.v ===== *)
(** What SEQUENCE promises in UPER: the round trip of structures, readers and
    writers of different versions of an extensible type, what canonical mode
    refuses, and one generated type down to its bits. *)

From S2P Require Import Prelude Runtime Constraints BitData BitOutp UperSupport Integer IntegerUper UperCodec OpenType.
From S2P Require Import Sequence SequenceCodec LanePositionAndType.

#[local] Existing Instance LP64.
#[local] Existing Instance roomy.

(** * Properties *)

(** C21.  SEQUENCE in UPER, X.691 #19, for any table of members whose types
    keep the promises of [UperCodec], extensible or not: every structure with
    valid values, its optional members present or not and its DEFAULT members
    explicit or not, is encoded as exactly the extension bit, the presence
    bitmap, the members of the root that are present and different from their
    DEFAULT, and, if an extension is present, the extension bitmap and the
    open types; from these bits, whatever follows them and in canonical mode
    too, the decoder returns the same structure with the absent members at
    their DEFAULT. *)
Theorem SEQUENCE_uper_roundtrip {T : Target} {A : Allocator} {V} {K} {C : Consumer K} {S : Sink K} {TS : TotalSink K}
    specs extensible (rs xs : list (vmember V)) sptr tmp rsts xsts (po : asn_bit_outp K) :
  receiver_ok specs extensible rs xs sptr -> encodable rs xs rsts xsts -> (length xs <= 64)%nat ->
  (forall edx, length (tmp edx) = sizeof_tmpspace /\ octets (tmp edx)) -> po_ok po ->
  let enc := sequence_bits extensible rs rsts (extension_fields xs xsts) in
  (exists n po', SEQUENCE_encode_uper tmp specs (table (rs ++ xs)) (Some (rsts ++ xsts)) po = (ENCODED_OK n, po') /\
     po_ok po' /\ written po' = written po ++ enc) /\
  forall ctx pd rest, pd_ok pd -> remaining pd = enc ++ rest ->
    exists pd', SEQUENCE_decode_uper stack_ok specs (table (rs ++ xs)) sptr ctx pd
        = (RC_OK 0 (zip_with with_defaults (rs ++ xs) (rsts ++ xsts)), pd') /\ pd_ok pd' /\ remaining pd' = rest.
Proof.
  intros Hro He H64 Ht Hpo enc. split.
  - destruct He as [Hr Hx].
    destruct (encodes_sequence (K := K) tmp Ht specs extensible rs xs rsts xsts (ro_specs _ _ _ _ _ Hro) Hr Hx H64) as [n Hn].
    destruct (Hn po Hpo (fits_total _)) as (po' & E & Hok & Hw & _). eauto.
  - intros ctx pd rest Hpd E.
    destruct (decodes_own specs extensible rs xs rsts xsts sptr ctx Hro He H64 pd rest Hpd E) as (pd' & E' & Ha & Hrest).
    exists pd'. split; [exact E'|]. split; [apply Ha|exact Hrest].
Qed.

Lemma SEQUENCE_uper_roundtrip_witness :
  let po := fresh_outp (replicate 32 0) ([] : ByteBuffer) in
  let enc := sequence_bits true lane_ms (lane_value 3 0 2) (extension_fields ([] : list (vmember Z)) []) in
  (exists n po', SEQUENCE_encode_uper (fun _ => replicate 32 9) asn_SPC_Vanetza_ITS2_LanePositionAndType_specs_1 (table (lane_ms ++ []))
       (Some (lane_value 3 0 2 ++ [])) po = (ENCODED_OK n, po') /\ po_ok po' /\ written po' = written po ++ enc) /\
  forall ctx pd rest, pd_ok pd -> remaining pd = enc ++ rest ->
    exists pd', SEQUENCE_decode_uper stack_ok asn_SPC_Vanetza_ITS2_LanePositionAndType_specs_1 (table (lane_ms ++ [])) None ctx pd
        = (RC_OK 0 (zip_with with_defaults (lane_ms ++ []) (lane_value 3 0 2 ++ [])), pd') /\ pd_ok pd' /\ remaining pd' = rest.
Proof.
  apply (@SEQUENCE_uper_roundtrip LP64 roomy Z ByteBuffer _ _ write_buffer_total asn_SPC_Vanetza_ITS2_LanePositionAndType_specs_1 true lane_ms [] None
    (fun _ => replicate 32 9) (lane_value 3 0 2) []).
  - exact lane_old_receiver.
  - apply lane_encodable. unfold lane_ok. lia.
  - cbn. lia.
  - intros _. split; [reflexivity|repeat constructor; lia].
  - apply fresh_outp_ok; [reflexivity|repeat constructor; lia|constructor].
Defined.

(** C22.  Versions of an extensible SEQUENCE: let the members [news] be added
    behind the extensions [xs] of a type.  A receiver of the old type that is
    not in the strict canonical mode decodes what a sender of the new type
    wrote, skips the extensions it does not know, finds the values of all
    members it knows and stands at the end of the encoding; and a receiver of
    the new type, in any mode, decodes what a sender of the old type wrote and
    finds the new members absent or at their DEFAULT.  In the strict canonical
    mode an old receiver refuses extensions it does not know, see
    [SEQUENCE_unknown_extensions_refused]. *)
Theorem SEQUENCE_extensions_compatible {T : Target} {A : Allocator} {V}
    specs_old specs_new (rs xs news : list (vmember V)) sptr_old sptr_new rsts xsts nsts ctx pd rest :
  receiver_ok specs_old true rs xs sptr_old -> receiver_ok specs_new true rs (xs ++ news) sptr_new ->
  encodable rs (xs ++ news) rsts (xsts ++ nsts) -> length xsts = length xs -> (length (xs ++ news) <= 64)%nat -> pd_ok pd ->
  (strictly_canonical ctx = false -> remaining pd = sequence_bits true rs rsts (extension_fields (xs ++ news) (xsts ++ nsts)) ++ rest ->
   exists pd', SEQUENCE_decode_uper stack_ok specs_old (table (rs ++ xs)) sptr_old ctx pd
       = (RC_OK 0 (zip_with with_defaults (rs ++ xs) (rsts ++ xsts)), pd') /\ pd_ok pd' /\ remaining pd' = rest) /\
  (remaining pd = sequence_bits true rs rsts (extension_fields xs xsts) ++ rest ->
   exists pd', SEQUENCE_decode_uper stack_ok specs_new (table (rs ++ xs ++ news)) sptr_new ctx pd
       = (RC_OK 0 (zip_with with_defaults (rs ++ xs ++ news) (rsts ++ xsts ++ map (fun _ => None) news)), pd') /\ pd_ok pd' /\ remaining pd' = rest).
Proof.
  intros Hold Hnew He Hlx H64 Hpd. destruct (length_encodable _ _ _ _ He) as [_ Hl]. rewrite !length_app in *.
  destruct He as [Hr Hx]. pose proof Hx as Hx'. apply Forall2_app_inv in Hx' as [Hx1 Hx2]; [|congruence]. split.
  - intros Hc E.
    destruct (decodes_sequence specs_old true rs xs rsts xsts (extension_fields (xs ++ news) (xsts ++ nsts)) sptr_old ctx
      Hold Hr (understood_newer xs news xsts nsts Hlx) Hx1) with (pd := pd) (rest := rest) as (pd' & E' & Ha & Hrest); auto.
    + rewrite fields_present by len. len.
    + now apply Forall_drop, fields_room.
    + discriminate.
    + congruence.
    + exists pd'. split; [exact E'|]. split; [apply Ha|exact Hrest].
  - intros E. rewrite !(app_assoc rs). rewrite (app_assoc rsts).
    destruct (decodes_sequence specs_new true rs (xs ++ news) rsts (xsts ++ map (fun _ => None) news) (extension_fields xs xsts) sptr_new ctx
      Hnew Hr (understood_older xs news xsts Hlx)) with (pd := pd) (rest := rest) as (pd' & E' & Ha & Hrest); auto.
    + apply Forall2_app; [assumption|]. clear. induction news as [|m news IH]; constructor; [intros v [=]|assumption].
    + rewrite fields_present by assumption. lia.
    + rewrite drop_ge by (rewrite length_app, fields_present by assumption; lia). constructor.
    + discriminate.
    + intros _. rewrite take_ge; [reflexivity|]. rewrite length_app, fields_present by assumption. lia.
    + exists pd'. rewrite <- !app_assoc in *. split; [exact E'|]. split; [apply Ha|exact Hrest].
Qed.

Lemma SEQUENCE_extensions_compatible_witness :
  let pd := bitmap_reader [169; 0; 128; 156; 0] 33 in
  (strictly_canonical None = false ->
   remaining pd = sequence_bits true lane_ms (lane_value 3 0 2) (extension_fields ([] ++ [lane_extension]) ([] ++ [Some 7])) ++ [] ->
   exists pd', SEQUENCE_decode_uper stack_ok asn_SPC_Vanetza_ITS2_LanePositionAndType_specs_1 (table (lane_ms ++ [])) None None pd
       = (RC_OK 0 (zip_with with_defaults (lane_ms ++ []) (lane_value 3 0 2 ++ [])), pd') /\ pd_ok pd' /\ remaining pd' = []) /\
  (remaining pd = sequence_bits true lane_ms (lane_value 3 0 2) (extension_fields ([] : list (vmember Z)) []) ++ [] ->
   exists pd', SEQUENCE_decode_uper stack_ok lane_specs_extended (table (lane_ms ++ [] ++ [lane_extension])) None None pd
       = (RC_OK 0 (zip_with with_defaults (lane_ms ++ [] ++ [lane_extension]) (lane_value 3 0 2 ++ [] ++ map (fun _ => None) [lane_extension])), pd') /\
     pd_ok pd' /\ remaining pd' = []).
Proof.
  apply (@SEQUENCE_extensions_compatible LP64 roomy Z asn_SPC_Vanetza_ITS2_LanePositionAndType_specs_1 lane_specs_extended lane_ms [] [lane_extension]
    None None (lane_value 3 0 2) [] [Some 7] None).
  - exact lane_old_receiver.
  - exact lane_new_receiver.
  - exact lane_new_encodable.
  - reflexivity.
  - cbn. lia.
  - split; [cbn; lia|]. split; [cbn; lia|repeat constructor; lia].
Defined.

(** Canonical UPER of a DEFAULT, X.691 #19.5: when the bitmap announces
    the DEFAULT member [m] and the value in the stream is its DEFAULT, a
    strictly canonical decoder refuses the structure right there, whatever
    the members before it hold and whatever follows; the encoder never
    writes such bits. *)
Theorem SEQUENCE_encoded_default_refused {T : Target} {A : Allocator} {V}
    specs extensible (before after xs : list (vmember V)) m v sptr bsts bit later ctx pd rest :
  receiver_ok specs extensible (before ++ m :: after) xs sptr ->
  Forall2 slot_ok before bsts -> vvalid m v -> is_encoded_default (vm m) v = true -> strictly_canonical ctx = true ->
  length later = length (optional_positions after 0) -> pd_ok pd ->
  remaining pd = (if extensible then [bit] else []) ++ (root_presence before bsts ++ true :: later) ++
    root_bits before bsts ++ vbits m v ++ rest ->
  slot_written m (Some v) = false /\
  exists pd', SEQUENCE_decode_uper stack_ok specs (table ((before ++ m :: after) ++ xs)) sptr ctx pd = (DECODE_FAILED, pd') /\
    pd_ok pd' /\ remaining pd' = rest.
Proof.
  intros Hro Hb Hv Hd Hc Hl Hpd E. split; [cbn; now rewrite (vm_compare _ m v Hd)|]. pose proof (ro_specs _ _ _ _ _ Hro) as Hs.
  destruct (table_root _ _ _ _ Hs) as (Hrc & Htk & _).
  assert (elm_optional (vm m) = true) as Ho by (unfold is_encoded_default in Hd; now destruct (elm_optional (vm m))).
  assert (decodes (SEQUENCE_decode_uper stack_ok specs (table ((before ++ m :: after) ++ xs)) sptr ctx)
    ((if extensible then [bit] else []) ++ (root_presence before bsts ++ true :: later) ++ root_bits before bsts ++ vbits m v) DECODE_FAILED) as Hdec.
  2: { destruct (Hdec pd rest Hpd) as (pd' & E' & Ha & Hr); [rewrite E; now rewrite <- !app_assoc|].
       exists pd'. split; [exact E'|]. split; [apply Ha|exact Hr]. }
  apply decodes_head; [assumption| |].
  { rewrite (so_count _ _ _ _ Hs), (length_optional_positions before (m :: after) 0 0). cbn [optional_positions].
    rewrite !length_app, Ho. cbn [length app]. rewrite (length_root_presence before bsts) by (symmetry; eapply Forall2_length; exact Hb).
    pose proof (length_optional_positions [] after 1 0) as H1. cbn [app optional_positions length] in H1. lia. }
  intros opmd Hopmd Hrem. unfold seq_decode_members. rewrite Hrc, Htk. eapply (decodes_last _ _ _ DECODE_FAILED); [|apply decodes_ret].
  apply (decodes_root_before ctx before (m :: after) (zero_struct (table xs)) (true :: later) (vbits m v) DECODE_FAILED [] bsts opmd Hb Hopmd Hrem).
  intros opmd' Hpd' Hrem'. cbn [app length Nat.add table map zero_struct seq_decode_root]. rewrite Ho.
  destruct (read_bit opmd' true later Hpd' Hrem') as (opmd'' & -> & _). cbn [Z.b2z Z.eqb]. rewrite (vm_plain _ m).
  assert (length before = length (zip_with with_defaults before bsts)) as ->.
  { rewrite length_zip_with. apply Forall2_length in Hb. lia. }
  rewrite slot_middle, (vm_decode _ m). destruct (@uper_dec_ok V (vm_codec m) ctx v Hv) as [n Hdv].
  eapply decodes_last; [exact Hdv|]. cbv beta iota. rewrite Hc, Hd. cbn [andb]. apply decodes_ret.
Qed.

Lemma SEQUENCE_encoded_default_refused_witness :
  exists before m after pd pd',
    lane_ms = before ++ m :: after /\ slot_written m (Some 0) = false /\
    SEQUENCE_decode_uper stack_ok asn_SPC_Vanetza_ITS2_LanePositionAndType_specs_1 (table ((before ++ m :: after) ++ [])) None
      (Some {| uper_canonical := true; uper_canonical_lenient := false |}) pd = (DECODE_FAILED, pd') /\ pd_ok pd' /\ remaining pd' = [].
Proof.
  pose (position := lane_position_member (roomy_serves 64)). pose (laneType := lane_type_member (roomy_serves 64)).
  pose (direction := lane_direction_member (roomy_serves 64)).
  exists [position], laneType, [direction], (bitmap_reader [72; 0] 12).
  assert (in_range asn_PER_type_Vanetza_ITS2_LanePosition_constr_1 3) as Hp by (unfold in_range; cbn; lia).
  assert (in_range asn_PER_type_Vanetza_ITS2_LaneType_constr_1 0) as Ht by (unfold in_range; cbn; lia).
  destruct (@SEQUENCE_encoded_default_refused LP64 roomy Z asn_SPC_Vanetza_ITS2_LanePositionAndType_specs_1 true [position] [direction] [] laneType 0
    None [Some 3] false [false] (Some {| uper_canonical := true; uper_canonical_lenient := false |}) (bitmap_reader [72; 0] 12) []) as (H & pd' & E).
  - exact lane_old_receiver.
  - constructor; [now apply native_member_valid|constructor].
  - now apply native_member_valid.
  - reflexivity.
  - reflexivity.
  - reflexivity.
  - split; [cbn; lia|]. split; [cbn; lia|repeat constructor; lia].
  - unfold position, laneType, lane_position_member, lane_type_member. cbn [root_bits]. rewrite !native_member_bits by assumption. reflexivity.
  - exists pd'. split; [reflexivity|]. split; [exact H|exact E].
Defined.

(** Canonical mode and unknown extensions: what a newer sender writes
    with no extension but ones the receiver does not know is refused by a
    strictly canonical receiver, although its encoding is canonical: the
    check that some extension is present looks at the known ones only.
    Without canonical mode the same bits are accepted
    ([SEQUENCE_extensions_compatible]). *)
Theorem SEQUENCE_unknown_extensions_refused {T : Target} {A : Allocator} {V}
    specs (rs xs news : list (vmember V)) sptr rsts nsts ctx pd rest :
  receiver_ok specs true rs xs sptr -> encodable rs (xs ++ news) rsts (map (fun _ => None) xs ++ nsts) ->
  (length (xs ++ news) <= 64)%nat -> existsb is_present nsts = true -> strictly_canonical ctx = true -> pd_ok pd ->
  remaining pd = sequence_bits true rs rsts (extension_fields (xs ++ news) (map (fun _ => None) xs ++ nsts)) ++ rest ->
  exists pd', SEQUENCE_decode_uper stack_ok specs (table (rs ++ xs)) sptr ctx pd = (DECODE_FAILED, pd').
Proof.
  intros Hro He H64 Hn Hc Hpd E. destruct (length_encodable _ _ _ _ He) as [_ Hl]. destruct He as [Hr _].
  rewrite !length_app, length_map in Hl. rewrite length_app in H64.
  assert (extension_fields (xs ++ news) (map (fun _ => None) xs ++ nsts) = map (fun _ => None) xs ++ extension_fields news nsts) as Ef.
  { clear. induction xs as [|m xs IH]; [reflexivity|]. unfold extension_fields in *. cbn. now rewrite IH. }
  assert (forall (l : list (vmember V)) s, length s = length l -> existsb is_present (extension_fields l s) = existsb is_present s) as Hex.
  { clear. induction l as [|m l IH]; intros [|s sts] H; try discriminate; [reflexivity|]. unfold extension_fields in *. cbn.
    rewrite IH by (cbn in H; lia). now destruct s. }
  assert (existsb is_present (map (fun _ => @None (list bool)) xs) = false) as Hx by (clear; induction xs; auto).
  rewrite Ef in E. unfold sequence_bits in E. rewrite existsb_app, Hx, Hex, Hn in E by lia. cbn [orb] in E. rewrite <- !app_assoc in E.
  assert (length (map (fun _ => @None (list bool)) xs ++ extension_fields news nsts) = (length xs + length news)%nat) as El.
  { rewrite length_app, length_map, fields_present by lia. reflexivity. }
  destruct (decodes_unknown_refused specs rs xs rsts (map (fun _ => None) xs ++ extension_fields news nsts) sptr ctx Hro Hr) with (pd := pd)
    (rest := fields_bits (map (fun _ => None) xs ++ extension_fields news nsts) ++ rest) as (pd' & E' & _); auto.
  - rewrite El. lia.
  - rewrite existsb_app, Hx, Hex, Hn by lia. reflexivity.
  - rewrite take_app_length' by now rewrite length_map. exact Hx.
  - rewrite E, <- !app_assoc. reflexivity.
  - eauto.
Qed.

Lemma SEQUENCE_unknown_extensions_refused_witness :
  exists pd', SEQUENCE_decode_uper stack_ok asn_SPC_Vanetza_ITS2_LanePositionAndType_specs_1 (table (lane_ms ++ [])) None
    (Some {| uper_canonical := true; uper_canonical_lenient := false |}) (bitmap_reader [169; 0; 128; 156; 0] 33) = (DECODE_FAILED, pd').
Proof.
  apply (@SEQUENCE_unknown_extensions_refused LP64 roomy Z asn_SPC_Vanetza_ITS2_LanePositionAndType_specs_1 lane_ms [] [lane_extension] None
    (lane_value 3 0 2) [Some 7] (Some {| uper_canonical := true; uper_canonical_lenient := false |}) (bitmap_reader [169; 0; 128; 156; 0] 33) []).
  - exact lane_old_receiver.
  - exact lane_new_encodable.
  - cbn. lia.
  - reflexivity.
  - reflexivity.
  - split; [cbn; lia|]. split; [cbn; lia|repeat constructor; lia].
  - vm_compute. reflexivity.
Defined.

(** C25.  LanePositionAndType of the generated code, end to end: for every
    position from -1 to 14, type from 0 to 31 and direction from 0 to 3, the
    generated constraint check accepts the structure, UPER writes exactly
    [lane_bits] (7 to 14 bits, the DEFAULT 0 of the type and the direction
    left out), and the decoder returns the structure from them in every mode,
    into a structure of its own or one the caller zeroed. *)
Theorem LanePositionAndType_uper {T : Target} {A : Allocator} {K} {C : Consumer K} {S : Sink K} {TS : TotalSink K}
    position type direction tmp (po : asn_bit_outp K) :
  serves A 64 -> lane_ok position type direction -> (forall edx : nat, length (tmp edx) = sizeof_tmpspace /\ octets (tmp edx)) -> po_ok po ->
  let specs := asn_SPC_Vanetza_ITS2_LanePositionAndType_specs_1 in
  let elements := asn_MBR_Vanetza_ITS2_LanePositionAndType_1 in
  let st := lane_value position type direction in
  SEQUENCE_constraint elements (Some st) = 0 /\
  (exists n po', SEQUENCE_encode_uper tmp specs elements (Some st) po = (ENCODED_OK n, po') /\ po_ok po' /\
     written po' = written po ++ lane_bits position type direction) /\
  forall sptr ctx pd rest, starts_fresh elements sptr -> pd_ok pd -> remaining pd = lane_bits position type direction ++ rest ->
    exists pd', SEQUENCE_decode_uper stack_ok specs elements sptr ctx pd = (RC_OK 0 st, pd') /\ pd_ok pd' /\ remaining pd' = rest.
Proof.
  intros HA Hl Ht Hpo specs elements st. pose proof (lane_encodable HA position type direction Hl) as He.
  pose proof (lane_bits_ok HA position type direction Hl) as Eb. split; [|split].
  - destruct Hl as (Hp & Hty & Hd). subst st elements. cbn. rewrite !(proj2 (Z.leb_le _ _)) by lia. reflexivity.
  - destruct (encodes_sequence (K := K) tmp Ht specs true (lane_members HA) [] st [] (ro_specs _ _ _ _ _ (lane_receiver HA None (or_introl eq_refl)))
      (proj1 He) (proj2 He) ltac:(cbn; lia)) as [n Hn].
    destruct (Hn po Hpo (fits_total _)) as (po' & E & Hok & Hw & _). exists n, po'. split; [exact E|]. split; [exact Hok|].
    rewrite Hw. f_equal. exact Eb.
  - intros sptr ctx pd rest Hf Hpd E.
    destruct (decodes_own specs true (lane_members HA) [] st [] sptr ctx (lane_receiver HA sptr Hf) He ltac:(cbn; lia) pd rest Hpd) as (pd' & E' & Ha & Hr).
    { rewrite E. f_equal. symmetry. exact Eb. }
    exists pd'. split; [exact E'|]. split; [apply Ha|exact Hr].
Qed.

Lemma LanePositionAndType_uper_witness :
  let po := fresh_outp (replicate 32 0) ([] : ByteBuffer) in
  let st := lane_value (-1) 31 0 in
  SEQUENCE_constraint asn_MBR_Vanetza_ITS2_LanePositionAndType_1 (Some st) = 0 /\
  (exists n po', SEQUENCE_encode_uper (fun _ => replicate 32 9) asn_SPC_Vanetza_ITS2_LanePositionAndType_specs_1 asn_MBR_Vanetza_ITS2_LanePositionAndType_1 (Some st) po
       = (ENCODED_OK n, po') /\ po_ok po' /\ written po' = written po ++ lane_bits (-1) 31 0) /\
  forall sptr ctx pd rest, starts_fresh asn_MBR_Vanetza_ITS2_LanePositionAndType_1 sptr -> pd_ok pd -> remaining pd = lane_bits (-1) 31 0 ++ rest ->
    exists pd', SEQUENCE_decode_uper stack_ok asn_SPC_Vanetza_ITS2_LanePositionAndType_specs_1 asn_MBR_Vanetza_ITS2_LanePositionAndType_1 sptr ctx pd
      = (RC_OK 0 st, pd') /\ pd_ok pd' /\ remaining pd' = rest.
Proof.
  apply (@LanePositionAndType_uper LP64 roomy ByteBuffer _ _ write_buffer_total (-1) 31 0 (fun _ => replicate 32 9)).
  - apply roomy_serves.
  - unfold lane_ok. lia.
  - intros _. split; [reflexivity|repeat constructor; lia].
  - apply fresh_outp_ok; [reflexivity|repeat constructor; lia|constructor].
Defined.

(** SEQUENCE_compare takes a structure and what a receiver finds of it for
    equal, in both orders, and SEQUENCE_copy makes an equal structure, when
    the comparisons and copies of the members do so and a DEFAULT that is set
    compares as DEFAULT. *)
Theorem SEQUENCE_compare_decoded {A : Allocator} {V} specs (ms : list (vmember V)) sts :
  Forall (fun m => exists cmp, compare_struct (vm m) = Some cmp /\ forall v, cmp v v = 0) ms ->
  Forall (fun m => forall set d, default_value_set (vm m) = Some set -> set None = Some d -> equals_default (vm m) d = true) ms ->
  Forall (fun m => forall a b, copy_struct (vm m) a b = Some b) ms -> length sts = length ms -> serves A (sequence_room specs) -> 0 <= seq_struct_size specs ->
  SEQUENCE_compare (table ms) sts (zip_with with_defaults ms sts) = Some 0 /\
  SEQUENCE_compare (table ms) (zip_with with_defaults ms sts) sts = Some 0 /\
  SEQUENCE_copy specs (table ms) None (Some sts) = Some (Some sts).
Proof.
  intros Hc Hd Hcp Hl HA Hz. split; [|split].
  3: { unfold SEQUENCE_copy. rewrite (have_struct_ok _ _ _ HA) by (unfold sequence_room; lia). cbn [negb from_option].
       assert (seq_copy_members (table ms) (zero_struct (table ms)) sts = Some sts) as ->; [|reflexivity].
       revert sts Hl. clear -Hcp. induction Hcp as [|m ms Hm _ IH]; intros [|s sts] Hl; try discriminate; [reflexivity|].
       cbn [table map zero_struct seq_copy_members]. rewrite Hm. fold (table ms) (zero_struct (table ms)). now rewrite IH by (cbn in Hl; lia). }
  all: revert sts Hl; clear -Hc Hd; induction Hc as [|m ms (cmp & Ec & Hr) _ IH]; intros [|s sts] Hl; try discriminate; [reflexivity|];
    inversion Hd as [|? ? Hm Hd']; subst; cbn [table map zip_with SEQUENCE_compare]; fold (table ms);
    specialize (IH Hd' sts ltac:(cbn in Hl; lia));
    (destruct s as [v|]; cbn [with_defaults]; [rewrite Ec, Hr; exact IH|]);
    (destruct (default_value_set (vm m)) as [set|] eqn:Es; [|exact IH]); (destruct (set None) as [d|] eqn:Ed; [|exact IH]);
    rewrite (Hm set d eq_refl Ed); exact IH.
Qed.
