(* ===== verification/Choice.v ===== *)
(** CHOICE in UPER: constr_CHOICE_uper.c and the presence index, comparison,
    copy and constraint check of constr_CHOICE.c, and the open types an
    information object selects of OPEN_TYPE_uper.c, all under
    vanetza/asn1/support/.

    A structure is its presence index, counted from 1, and the content of the
    union read as the member the index names.  The alternatives are members
    as in Sequence.v.  Decoders are modelled on no structure or on a zeroed
    one: the union's memory under another index has no type. *)

From S2P Require Import Prelude Runtime Constraints BitData BitOutp UperSupport Integer IntegerUper UperCodec OpenType Sequence.

Record asn_CHOICE_specifics := {
  ch_struct_size : Z;
  pres_size : Z;
  to_canonical_order : option (list Z);
  from_canonical_order : option (list Z);
  ext_start : Z
}.

(** A CHOICE structure. *)
Record CHOICE (V : Type) := mk_choice { ch_present : Z; ch_member : option V }.
Arguments mk_choice {V} _ _.
Arguments ch_present {V} _.
Arguments ch_member {V} _.

(** ** The presence index *)

Section Present.
Context {V : Type}.

(** The index as the memory of [pres_size] octets holds it; an assertion
    excludes other sizes. *)
Definition narrow_present (pres_size present : Z) : Z :=
  if pres_size =? 4 then u32 present else if pres_size =? 2 then u16 present else if pres_size =? 1 then u8 present else 0.
Definition _fetch_present_idx (st : CHOICE V) (pres_size : Z) : Z := narrow_present pres_size (ch_present st).
Definition _set_present_idx (member : option V) (pres_size present : Z) : CHOICE V := mk_choice (narrow_present pres_size present) member.

(** CHOICE_variant_get_presence. *)
Definition CHOICE_variant_get_presence (specs : asn_CHOICE_specifics) (st : CHOICE V) : Z := _fetch_present_idx st (pres_size specs).

(** CHOICE_variant_set_presence: the return code and the structure.  The
    memory of a member selected before is freed and zeroed; the content of a
    zeroed union is [zero] for the new member. *)
Definition CHOICE_variant_set_presence (specs : asn_CHOICE_specifics) (elements_count : Z) (zero : option V) (sptr : option (CHOICE V)) (present : Z) :
    Z * option (CHOICE V) :=
  match sptr with
  | None => (-1, None)
  | Some st =>
      if elements_count <? present then (-1, sptr) else
      let old_present := _fetch_present_idx st (pres_size specs) in
      if present =? old_present then (0, sptr) else
      let member := if negb (old_present =? 0) then zero else ch_member st in
      (0, Some (_set_present_idx member (pres_size specs) present))
  end.
End Present.

(** ** Decoder *)

Section Decode.
Context {T : Target} {A : Allocator} {V : Type}.

(** The index on the wire, from [ct] when the alternative is in the root. *)
Definition choice_index (specs : asn_CHOICE_specifics) (elements_count : Z) (ct : option asn_per_constraint) (pd : asn_bit_data) :
    asn_dec_rval Z * asn_bit_data :=
  let open_index pd :=
    if ext_start specs =? -1 then (DECODE_FAILED, pd) else
    let '(value, pd) := uper_get_nsnnwn pd in
    if value <? 0 then (DECODE_STARVED, pd) else
    let value := value + ext_start specs in
    if elements_count <=? u32 value then (DECODE_FAILED, pd) else (RC_OK 0 value, pd) in
  match ct with
  | Some c =>
      if 0 <=? range_bits c then
        let '(value, pd) := asn_get_few_bits pd (range_bits c) in
        if value <? 0 then (DECODE_STARVED, pd)
        else if upper_bound c <? value then (DECODE_FAILED, pd) else (RC_OK 0 value, pd)
      else open_index pd
  | None => open_index pd
  end.

(** The part of CHOICE_decode_uper behind the extension bit.  An index
    outside of a table would be read beyond its end. *)
Definition choice_decode_body (open_overflow : bool) (specs : asn_CHOICE_specifics) (elements : list (asn_TYPE_member V))
    (ct : option asn_per_constraint) (ctx : option asn_codec_ctx) (pd : asn_bit_data) : asn_dec_rval (CHOICE V) * asn_bit_data :=
  let '(r, pd) := choice_index specs (Z.of_nat (length elements)) ct pd in
  match r with
  | RC_WMORE n => (RC_WMORE n, pd)
  | RC_FAIL n => (RC_FAIL n, pd)
  | RC_OK _ value =>
      let value := match from_canonical_order specs with Some order => default (-1) (order !! Z.to_nat value) | None => value end in
      match (if value <? 0 then None else elements !! Z.to_nat value) with
      | None => (DECODE_FAILED, pd)
      | Some elm =>
          let in_root := match ct with Some c => 0 <=? range_bits c | None => false end in
          let '(rv, pd) := if in_root then elm_decode elm (fresh_slot elm) ctx pd
                           else uper_open_type_get open_overflow (elm_decode elm (fresh_slot elm)) ctx pd in
          match rv with
          | RC_OK n v => (RC_OK n (_set_present_idx (Some v) (pres_size specs) (value + 1)), pd)
          | RC_WMORE n => (RC_WMORE n, pd)
          | RC_FAIL n => (RC_FAIL n, pd)
          end
      end
  end.

(** CHOICE_decode_uper; [given] tells that the caller provides the (zeroed)
    structure. *)
Definition CHOICE_decode_uper (stack_overflow open_overflow : bool) (specs : asn_CHOICE_specifics)
    (td_constraints constraints : option asn_per_constraints) (elements : list (asn_TYPE_member V)) (given : bool)
    (ctx : option asn_codec_ctx) (pd : asn_bit_data) : asn_dec_rval (CHOICE V) * asn_bit_data :=
  if stack_overflow then (DECODE_FAILED, pd) else
  if negb given && negb (malloc_ok (ch_struct_size specs)) then (DECODE_FAILED, pd) else
  let ct := option_map pc_value (or_else constraints td_constraints) in
  match ct with
  | Some c =>
      if has c APC_EXTENSIBLE then
        let '(value, pd) := asn_get_few_bits pd 1 in
        if value <? 0 then (DECODE_STARVED, pd)
        else choice_decode_body open_overflow specs elements (if value =? 0 then ct else None) ctx pd
      else choice_decode_body open_overflow specs elements ct ctx pd
  | None => choice_decode_body open_overflow specs elements ct ctx pd
  end.
End Decode.

(** ** Encoder *)

Section Encode.
Context {T : Target} {A : Allocator} {K : Type} {C : Consumer K} {V : Type}.

(** The part of CHOICE_encode_uper behind the extension bit: [ct] is set when
    the alternative is in the root. *)
Definition choice_encode_body (tmp : list Z) (specs : asn_CHOICE_specifics) (elm : asn_TYPE_member V) (member : option V)
    (present_enc : Z) (ct : option asn_per_constraint) (po : asn_bit_outp K) : asn_enc_rval * asn_bit_outp K :=
  match member with
  | None => (ENCODE_FAILED, po)
  | Some v =>
      let put_open po :=
        if ext_start specs =? -1 then (ENCODE_FAILED, po) else
        let '(rc, po) := uper_put_nsnnwn po (present_enc - ext_start specs) in
        if negb (rc =? 0) then (ENCODE_FAILED, po) else
        let '(rc, po) := uper_open_type_put (Some (elm_encode elm v)) tmp po in
        if negb (rc =? 0) then (ENCODE_FAILED, po) else (ENCODED_OK 0, po) in
      match ct with
      | Some c =>
          if 0 <=? range_bits c then
            let '(rc, po) := asn_put_few_bits po present_enc (range_bits c) in
            if negb (rc =? 0) then (ENCODE_FAILED, po) else elm_encode elm v K C po
          else put_open po
      | None => put_open po
      end
  end.

(** CHOICE_encode_uper.  [tmp] is what the scratch area of the encoder of an
    open type holds before. *)
Definition CHOICE_encode_uper (tmp : list Z) (specs : asn_CHOICE_specifics) (td_constraints constraints : option asn_per_constraints)
    (elements : list (asn_TYPE_member V)) (sptr : option (CHOICE V)) (po : asn_bit_outp K) : asn_enc_rval * asn_bit_outp K :=
  match sptr with
  | None => (ENCODE_FAILED, po)
  | Some st =>
      let ct := option_map pc_value (or_else constraints td_constraints) in
      let present := _fetch_present_idx st (pres_size specs) in
      if (present =? 0) || (Z.of_nat (length elements) <? present) then (ENCODE_FAILED, po) else
      match elements !! Z.to_nat (present - 1) with
      | None => (ENCODE_FAILED, po)
      | Some elm =>
          let present_enc := match to_canonical_order specs with
                             | Some order => default 0 (order !! Z.to_nat (present - 1)) | None => present - 1 end in
          let body := choice_encode_body tmp specs elm (ch_member st) present_enc in
          match ct with
          | Some c =>
              if (0 <=? range_bits c) && ((present_enc <? lower_bound c) || (upper_bound c <? present_enc)) then
                if has c APC_EXTENSIBLE then
                  let '(rc, po) := asn_put_few_bits po 1 1 in
                  if negb (rc =? 0) then (ENCODE_FAILED, po) else body None po
                else (ENCODE_FAILED, po)
              else if has c APC_EXTENSIBLE then
                let '(rc, po) := asn_put_few_bits po 0 1 in
                if negb (rc =? 0) then (ENCODE_FAILED, po) else body ct po
              else body ct po
          | None => body None po
          end
      end
  end.
End Encode.

(** ** Comparison, copy, constraints *)

Section Structures.
Context {V : Type}.

(** _get_member_ptr: the index, the alternative and its value. *)
Definition _get_member_ptr (specs : asn_CHOICE_specifics) (elements : list (asn_TYPE_member V)) (sptr : option (CHOICE V)) :
    Z * option (asn_TYPE_member V * V) :=
  match sptr with
  | None => (0, None)
  | Some st =>
      let present := _fetch_present_idx st (pres_size specs) in
      (present,
       if (0 <? present) && (present <=? Z.of_nat (length elements)) then
         match elements !! Z.to_nat (present - 1), ch_member st with Some elm, Some v => Some (elm, v) | _, _ => None end
       else None)
  end.

(** CHOICE_compare; nothing when the type has no comparison to call. *)
Definition CHOICE_compare (specs : asn_CHOICE_specifics) (elements : list (asn_TYPE_member V)) (aptr bptr : option (CHOICE V)) : option Z :=
  let '(apresent, amember) := _get_member_ptr specs elements aptr in
  let '(bpresent, bmember) := _get_member_ptr specs elements bptr in
  match amember, bmember with
  | Some (aelm, a), Some (_, b) =>
      if apresent =? bpresent then option_map (fun cmp => cmp a b) (compare_struct aelm)
      else if apresent <? bpresent then Some (-1) else Some 1
  | None, _ => Some (-1)
  | Some _, None => Some 1
  end.

(** What CHOICE_copy does: a result or a read outside the member table. *)
Inductive copy_result := Copied (rc : Z) (st : option (CHOICE V)) | OutsideTable (index : Z).

(** CHOICE_copy. *)
Definition CHOICE_copy {A : Allocator} (specs : asn_CHOICE_specifics) (elements : list (asn_TYPE_member V)) (aptr bptr : option (CHOICE V)) : copy_result :=
  match bptr with
  | None => Copied 0 None
  | Some b =>
      if negb (have_struct aptr (ch_struct_size specs)) then Copied (-1) None else
      let st := default (mk_choice 0 None) aptr in
      let present := swrap 32 (_fetch_present_idx b (pres_size specs)) in
      if (present <=? 0) && (Z.of_nat (length elements) <? u32 present) then Copied (-1) (Some st) else
      match (if present - 1 <? 0 then None else elements !! Z.to_nat (present - 1)) with
      | None => OutsideTable (present - 1)
      | Some elm =>
          match copy_struct elm (ch_member st) (ch_member b) with
          | None => Copied (-1) (Some st)
          | Some member => Copied 0 (Some (_set_present_idx member (pres_size specs) present))
          end
      end
  end.

(** CHOICE_constraint without the texts given to the callback. *)
Definition CHOICE_constraint (specs : asn_CHOICE_specifics) (elements : list (asn_TYPE_member V)) (sptr : option (CHOICE V)) : Z :=
  match sptr with
  | None => -1
  | Some st =>
      let present := _fetch_present_idx st (pres_size specs) in
      if (0 <? present) && (present <=? Z.of_nat (length elements)) then
        match elements !! Z.to_nat (present - 1) with
        | None => -1
        | Some elm =>
            match ch_member st with
            | None => if elm_optional elm then 0 else -1
            | Some v => general_constraints elm v
            end
        end
      else -1
  end.
End Structures.

(** ** Open types an information object selects *)

Section Selected.
Context {T : Target} {A : Allocator} {V W : Type}.

(** asn_type_selector_result_t: the alternative and the decoder of the type. *)
Record asn_type_selector_result := { presence_index : Z; type_decoder : option W -> uper_type_decoder W }.

(** OPEN_TYPE_uper_get for the member [sptr_member] of the structure [sptr];
    [elements] and [specs] are those of the member's type.  The selected type
    is decoded to the zeroed memory of its alternative. *)
Definition OPEN_TYPE_uper_get (open_overflow is_open_type : bool) (type_selector : option (V -> asn_type_selector_result))
    (specs : asn_CHOICE_specifics) (elements : list (asn_TYPE_member W)) (sptr : V) (sptr_member : CHOICE W)
    (ctx : option asn_codec_ctx) (pd : asn_bit_data) : asn_dec_rval (CHOICE W) * asn_bit_data :=
  if negb is_open_type then (DECODE_FAILED, pd) else
  match type_selector with
  | None => (DECODE_FAILED, pd)
  | Some select =>
      let selected := select sptr in
      if presence_index selected =? 0 then (DECODE_FAILED, pd) else
      let count := Z.of_nat (length elements) in
      let '(rc, st) := CHOICE_variant_set_presence specs count None (Some sptr_member) 0 in
      if negb (rc =? 0) then (DECODE_FAILED, pd) else
      match elements !! Z.to_nat (presence_index selected - 1) with
      | None => (DECODE_FAILED, pd)
      | Some elm =>
          let '(rv, pd) := uper_open_type_get open_overflow (type_decoder selected (Some (elm_zero elm))) ctx pd in
          match rv with
          | RC_OK n v =>
              match CHOICE_variant_set_presence specs count None (option_map (fun st => mk_choice (ch_present st) (Some v)) st) (presence_index selected) with
              | (0, Some st) => (RC_OK n st, pd)
              | _ => (RC_FAIL n, pd)
              end
          | RC_WMORE n => (RC_WMORE n, pd)
          | RC_FAIL n => (RC_FAIL n, pd)
          end
      end
  end.

(** OPEN_TYPE_encode_uper. *)
Definition OPEN_TYPE_encode_uper {K} {C : Consumer K} (tmp : list Z) (specs : asn_CHOICE_specifics) (elements : list (asn_TYPE_member W))
    (sptr : CHOICE W) (po : asn_bit_outp K) : asn_enc_rval * asn_bit_outp K :=
  let present := CHOICE_variant_get_presence specs sptr in
  if (present =? 0) || (Z.of_nat (length elements) <? present) then (ENCODE_FAILED, po) else
  match elements !! Z.to_nat (present - 1), ch_member sptr with
  | Some elm, Some v =>
      let '(rc, po) := uper_open_type_put (Some (elm_encode elm v)) tmp po in
      if rc <? 0 then (ENCODE_FAILED, po) else (ENCODED_OK 0, po)
  | _, _ => (ENCODE_FAILED, po)
  end.
End Selected.
