(* ===== verification/ChoiceTheorems.v ===== *)
(** CHOICE in UPER, verified: tables whose alternatives are of types that are
    instances of [UperCodec], the bits of a choice, the round trip, what
    receivers do with alternatives they do not know, and the open types an
    information object selects.  The structure is an instance of [UperCodec]
    again. *)

From S2P Require Import Prelude Runtime Constraints BitData BitOutp UperSupport Integer IntegerUper UperCodec OpenType.
From S2P Require Import Sequence SequenceCodec Choice LanePositionAndType.

(** * Tables *)

Section Tables.
Context {T : Target} {A : Allocator} {V : Type}.
Implicit Types (m : vmember V) (ms : list (vmember V)).

(** The tables of a CHOICE whose first [root] alternatives in canonical
    order are its root: the constraint counts the root from 0, extensions
    start behind it, and the two orders are inverse permutations. *)
Record choice_ok (specs : asn_CHOICE_specifics) (c : asn_per_constraint) (root count : nat) : Prop := {
  co_range : 0 <= range_bits c <= 31;
  co_lower : lower_bound c = 0;
  co_upper : upper_bound c = Z.of_nat root - 1;
  co_fits : Z.of_nat root <= 2 ^ range_bits c;
  co_root : (0 < root <= count)%nat;
  co_closed : has c APC_EXTENSIBLE = false -> root = count;
  co_start : has c APC_EXTENSIBLE = true -> ext_start specs = Z.of_nat root;
  co_small : (count - root <= 64)%nat;
  co_pres : pres_size specs = 4 \/ pres_size specs = 2 /\ Z.of_nat count < 2 ^ 16 \/ pres_size specs = 1 /\ Z.of_nat count < 2 ^ 8;
  co_count : Z.of_nat count < 2 ^ 31;
  co_order : match to_canonical_order specs, from_canonical_order specs with
             | None, None => True
             | Some to, Some from => length to = count /\ length from = count /\
                 forall i e, to !! i = Some e -> 0 <= e < Z.of_nat count /\ from !! Z.to_nat e = Some (Z.of_nat i)
             | _, _ => False
             end
}.

(** The number of the alternative [i] on the wire. *)
Definition canonical_index (specs : asn_CHOICE_specifics) (i : nat) : Z :=
  match to_canonical_order specs with Some order => default 0 (order !! i) | None => Z.of_nat i end.

(** The bits of the alternative with the number [e] and the value bits [l],
    X.691 #23: in the root the number in a fixed width and the value, outside
    a normally small number and an open type. *)
Definition alternative_bits (c : asn_per_constraint) (root : nat) (e : Z) (l : list bool) : list bool :=
  (if has c APC_EXTENSIBLE then [Z.of_nat root <=? e] else []) ++
  if e <? Z.of_nat root then bits_of (Z.to_nat (range_bits c)) e ++ l else bits_of 7 (e - Z.of_nat root) ++ open_type_bits l.

(** A value an encoder accepts: the alternative [i] with a valid value, and,
    outside the root, memory for its open type. *)
Definition alternative_ok (specs : asn_CHOICE_specifics) (root : nat) ms (i : nat) (v : V) : Prop :=
  exists m, ms !! i = Some m /\ vvalid m v /\ (Z.of_nat root <= canonical_index specs i -> ext_ok m (Some v)).

Definition choice_bits (specs : asn_CHOICE_specifics) (c : asn_per_constraint) (root : nat) ms (i : nat) (v : V) : list bool :=
  alternative_bits c root (canonical_index specs i) (match ms !! i with Some m => vbits m v | None => [] end).

(** The structure: the index counted from 1. *)
Definition alternative (i : nat) (v : V) : CHOICE V := mk_choice (Z.of_nat i + 1) (Some v).

Lemma narrow_present_ok specs c root count i : choice_ok specs c root count -> (i < count)%nat ->
  narrow_present (pres_size specs) (Z.of_nat i + 1) = Z.of_nat i + 1.
Proof.
  intros H Hi. pose proof (co_count _ _ _ _ H) as Hc. unfold narrow_present.
  destruct (co_pres _ _ _ _ H) as [-> |[[-> Hp]|[-> Hp]]]; cbn [Z.eqb Pos.eqb]; apply uwrap_small; lia.
Qed.

Lemma canonical_index_bound specs c root count i : choice_ok specs c root count -> (i < count)%nat ->
  0 <= canonical_index specs i < Z.of_nat count /\
  match from_canonical_order specs with
  | Some order => default (-1) (order !! Z.to_nat (canonical_index specs i)) = Z.of_nat i
  | None => canonical_index specs i = Z.of_nat i
  end.
Proof.
  intros H Hi. pose proof (co_order _ _ _ _ H) as Ho. unfold canonical_index.
  destruct (to_canonical_order specs) as [to|], (from_canonical_order specs) as [from|]; try contradiction; [|lia].
  destruct Ho as (Hl & _ & Hinv). destruct (lookup_lt_is_Some_2 to i) as [e E]; [lia|].
  rewrite E. cbn [default from_option id]. destruct (Hinv i e E) as [He ->]. auto.
Qed.

(** * Encoding *)

Lemma encodes_choice {K} {C : Consumer K} {S : Sink K} {R : RoomySink K} specs cs root ms i v tmp :
  choice_ok specs (pc_value cs) root (length ms) -> alternative_ok specs root ms i v -> length tmp = sizeof_tmpspace -> octets tmp ->
  exists n, encodes (fun po : asn_bit_outp K => CHOICE_encode_uper tmp specs (Some cs) None (table ms) (Some (alternative i v)) po)
    (choice_bits specs (pc_value cs) root ms i v) (ENCODED_OK n).
Proof.
  intros H (m & Em & Hv & Hext) Ht Ho. pose proof (lookup_lt_Some _ _ _ Em) as Hi. set (c := pc_value cs) in *.
  destruct (canonical_index_bound _ _ _ _ i H Hi) as [He _].
  destruct (@uper_enc_ok V (vm_codec m) v K C S R Hv) as [n Hn]. rewrite <- (vm_encode _ m) in Hn.
  unfold choice_bits, alternative_bits. rewrite Em. set (e := canonical_index specs i) in *.
  exists (if e <? Z.of_nat root then n else 0). unfold CHOICE_encode_uper. cbn [option_map or_else]. fold c. unfold _fetch_present_idx, alternative. cbn [ch_present ch_member].
  rewrite (narrow_present_ok _ _ _ _ i H Hi), (proj2 (Z.eqb_neq _ 0)) by lia.
  unfold table. rewrite length_map, (proj2 (Z.ltb_ge (Z.of_nat (length ms)) _)) by lia. cbn [orb].
  replace (Z.of_nat i + 1 - 1) with (Z.of_nat i) by lia. rewrite Nat2Z.id, list_lookup_fmap, Em. cbn [fmap option_fmap option_map].
  change (match to_canonical_order specs with Some order => default 0 (order !! i) | None => Z.of_nat i end) with e. cbv zeta.
  rewrite (proj2 (Z.leb_le 0 (range_bits c))) by apply (co_range _ _ _ _ H). cbn [andb].
  rewrite (co_lower _ _ _ _ H), (co_upper _ _ _ _ H), (proj2 (Z.ltb_ge e 0)) by lia. cbn [orb].
  pose proof (co_range _ _ _ _ H) as Hrb. pose proof (co_fits _ _ _ _ H) as Hfits.
  destruct (Z.ltb_spec e (Z.of_nat root)) as [Hin|Hout].
  - rewrite (proj2 (Z.ltb_ge _ e)), (proj2 (Z.leb_gt _ e)) by lia.
    assert (encodes (fun po : asn_bit_outp K => choice_encode_body tmp specs (vm m) (Some v) e (Some c) po)
      (bits_of (Z.to_nat (range_bits c)) e ++ vbits m v) (ENCODED_OK n)) as Hbody.
    { unfold choice_encode_body. rewrite (proj2 (Z.leb_le 0 _)) by lia. eapply encodes_bind; [apply encodes_few_bits; lia|]. exact Hn. }
    destruct (has c APC_EXTENSIBLE); [|exact Hbody]. change [false] with (bits_of 1 0).
    eapply encodes_bind; [apply (encodes_few_bits 1 1); lia|]. exact Hbody.
  - destruct (has c APC_EXTENSIBLE) eqn:Ex; [|rewrite (co_closed _ _ _ _ H Ex) in Hout; lia].
    rewrite (proj2 (Z.ltb_lt _ e)), (proj2 (Z.leb_le _ e)) by lia. change [true] with (bits_of 1 1).
    eapply encodes_bind; [apply (encodes_few_bits 1 1); lia|]. cbn [negb Z.eqb]. unfold choice_encode_body. cbv zeta.
    rewrite (co_start _ _ _ _ H Ex), (proj2 (Z.eqb_neq _ (-1))) by lia. pose proof (co_small _ _ _ _ H).
    eapply encodes_bind; [apply encodes_nsnnwn; lia|]. cbn [negb Z.eqb]. rewrite (vm_encode _ m).
    destruct (Hext Hout v eq_refl) as (_ & Hroom & _).
    eapply encodes_last; [apply (@encodes_open_type _ _ _ _ _ _ V (vm_codec m)); assumption|]. apply encodes_ret.
Qed.

(** * Decoding *)

Lemma decodes_choice specs cs root ms i v given ctx :
  choice_ok specs (pc_value cs) root (length ms) -> alternative_ok specs root ms i v ->
  (given = false -> malloc_ok (ch_struct_size specs) = true) ->
  exists n, decodes (CHOICE_decode_uper false false specs (Some cs) None (table ms) given ctx)
    (choice_bits specs (pc_value cs) root ms i v) (RC_OK n (alternative i v)).
Proof.
  intros H (m & Em & Hv & Hext) Hg. pose proof (lookup_lt_Some _ _ _ Em) as Hi. set (c := pc_value cs) in *.
  destruct (canonical_index_bound _ _ _ _ i H Hi) as [He Hfrom].
  unfold choice_bits, alternative_bits. rewrite Em. set (e := canonical_index specs i) in *.
  pose proof (co_range _ _ _ _ H) as Hrb. pose proof (co_fits _ _ _ _ H) as Hfits.
  assert ((if match from_canonical_order specs with Some order => default (-1) (order !! Z.to_nat e) | None => e end <? 0 then None
           else table ms !! Z.to_nat (match from_canonical_order specs with Some order => default (-1) (order !! Z.to_nat e) | None => e end)) = Some (vm m) /\
          match from_canonical_order specs with Some order => default (-1) (order !! Z.to_nat e) | None => e end = Z.of_nat i) as [Hel Eval].
  { assert (match from_canonical_order specs with Some order => default (-1) (order !! Z.to_nat e) | None => e end = Z.of_nat i) as ->
      by (destruct (from_canonical_order specs); assumption).
    split; [|reflexivity]. rewrite (proj2 (Z.ltb_ge _ 0)), Nat2Z.id by lia. unfold table. now rewrite list_lookup_fmap, Em. }
  destruct (Z.ltb_spec e (Z.of_nat root)) as [Hin|Hout].
  - destruct (@uper_dec_ok V (vm_codec m) ctx v Hv) as [n Hd]. rewrite <- (vm_decode _ m) in Hd. exists n.
    assert (decodes (choice_decode_body false specs (table ms) (Some c) ctx) (bits_of (Z.to_nat (range_bits c)) e ++ vbits m v) (RC_OK n (alternative i v))) as Hbody.
    { unfold choice_decode_body, choice_index. rewrite (proj2 (Z.leb_le 0 _)) by lia.
      eapply decodes_bind with (a := RC_OK 0 e).
      - eapply decodes_last; [apply (decodes_few_bits_of _ _ e); lia|]. rewrite (proj2 (Z.ltb_ge e 0)) by lia.
        rewrite (co_upper _ _ _ _ H), (proj2 (Z.ltb_ge _ e)) by lia. apply decodes_ret.
      - cbv beta iota zeta. rewrite Hel, Eval. eapply decodes_last; [exact Hd|]. cbv beta iota. unfold _set_present_idx, alternative.
        rewrite (narrow_present_ok _ _ _ _ i H Hi). apply decodes_ret. }
    unfold CHOICE_decode_uper. cbn [option_map or_else]. fold c.
    replace (negb given && _) with false by (destruct given; [reflexivity|now rewrite Hg]).
    rewrite (proj2 (Z.leb_gt _ e)) by lia. destruct (has c APC_EXTENSIBLE); [|exact Hbody]. change [false] with (bits_of 1 0).
    eapply decodes_bind; [apply (decodes_few_bits_of 1 1 0); lia|]. exact Hbody.
  - destruct (Hext Hout v eq_refl) as (_ & Hroom & Hn).
    destruct (@decodes_open_type _ _ V (vm_codec m) ctx v Hv Hroom Hn) as [n Hd]. rewrite <- (vm_decode _ m) in Hd. exists n.
    unfold CHOICE_decode_uper. cbn [option_map or_else]. fold c.
    replace (negb given && _) with false by (destruct given; [reflexivity|now rewrite Hg]).
    destruct (has c APC_EXTENSIBLE) eqn:Ex; [|rewrite (co_closed _ _ _ _ H Ex) in Hout; lia].
    rewrite (proj2 (Z.leb_le _ e)) by lia. change [true] with (bits_of 1 1).
    eapply decodes_bind; [apply (decodes_few_bits_of 1 1 1); lia|]. cbv beta iota. cbn [Z.ltb Z.compare Z.eqb].
    unfold choice_decode_body, choice_index. rewrite (co_start _ _ _ _ H Ex), (proj2 (Z.eqb_neq _ (-1))) by lia.
    pose proof (co_small _ _ _ _ H). pose proof (co_count _ _ _ _ H).
    eapply decodes_bind with (a := RC_OK 0 e).
    + eapply decodes_last; [apply decodes_nsnnwn; lia|]. rewrite (proj2 (Z.ltb_ge _ 0)) by lia. cbv zeta.
      replace (e - Z.of_nat root + Z.of_nat root) with e by lia. rewrite (uwrap_small 32 e) by lia.
      unfold table. rewrite length_map, (proj2 (Z.leb_gt _ e)) by lia. apply decodes_ret.
    + cbv beta iota zeta. rewrite Hel, Eval. eapply decodes_last; [exact Hd|]. cbv beta iota. unfold _set_present_idx, alternative.
      rewrite (narrow_present_ok _ _ _ _ i H Hi). apply decodes_ret.
Qed.

Lemma follows_choice stack_overflow open_overflow specs td_cs cs ms given ctx pd : pd_ok pd ->
  follows pd (CHOICE_decode_uper stack_overflow open_overflow specs td_cs cs (table ms) given ctx pd).
Proof.
  assert (forall ct pd, pd_ok pd -> follows pd (choice_decode_body open_overflow specs (table ms) ct ctx pd)) as Hbody.
  { intros ct pd' Hok. unfold choice_decode_body. apply follows_let.
    - pose proof follows_nsnnwn. unfold choice_index. follow.
    - intros [n value|n|n] pd1 Hpd1; [|now apply follows_ret..]. cbv zeta.
      set (index := match from_canonical_order specs with Some _ => _ | None => _ end).
      destruct (index <? 0); [now apply follows_ret|]. unfold table. rewrite list_lookup_fmap.
      destruct (ms !! Z.to_nat index) as [m|]; cbn [fmap option_fmap option_map]; [|now apply follows_ret].
      apply follows_let; [|intros [n' v|n'|n'] pd2 Hpd2; now apply follows_ret].
      destruct (match ct with Some c => _ | None => _ end); [|now apply follows_open_type].
      rewrite (vm_decode _ m). now apply uper_dec_safe. }
  intros Hok. unfold CHOICE_decode_uper. destruct stack_overflow; [now apply follows_ret|].
  destruct (_ && _); [now apply follows_ret|]. cbv zeta.
  destruct (option_map pc_value (or_else cs td_cs)) as [c|]; [|now apply Hbody]. destruct (has c APC_EXTENSIBLE); [|now apply Hbody].
  apply follows_let; [now apply follows_few_bits|]. intros value pd1 Hpd1. destruct (value <? 0); [now apply follows_ret|now apply Hbody].
Qed.

(** A CHOICE is a type again. *)
Definition CHOICE_codec specs cs root ms given tmp (H : choice_ok specs (pc_value cs) root (length ms))
  (Hg : given = false -> malloc_ok (ch_struct_size specs) = true) (Ht : length tmp = sizeof_tmpspace) (Ho : octets tmp) : UperCodec (CHOICE V).
Proof.
  refine {|
    uper_enc := fun st K C => CHOICE_encode_uper tmp specs (Some cs) None (table ms) (Some st);
    uper_dec := CHOICE_decode_uper false false specs (Some cs) None (table ms) given;
    uper_valid := fun st => exists i v, st = alternative i v /\ alternative_ok specs root ms i v;
    uper_bits := fun st => match ch_member st with
                           | Some v => choice_bits specs (pc_value cs) root ms (Z.to_nat (ch_present st - 1)) v | None => [] end
  |}.
  - intros st K C S R (i & v & -> & Hok). cbn [ch_member ch_present alternative]. replace (Z.to_nat (Z.of_nat i + 1 - 1)) with i by lia.
    now apply encodes_choice.
  - intros ctx st (i & v & -> & Hok). cbn [ch_member ch_present alternative]. replace (Z.to_nat (Z.of_nat i + 1 - 1)) with i by lia.
    now apply decodes_choice.
  - intros ctx pd Hpd. now apply follows_choice.
Defined.
End Tables.

(** * Properties *)

(** C24.  CHOICE in UPER, X.691 #23, for any table of alternatives whose types
    keep the promises of [UperCodec], extensible or not, with or without a
    canonical order of its own: the encoder writes for the chosen alternative
    exactly its number in canonical order and its value, in an open type when
    it is an extension, and from these bits, whatever follows them, the
    decoder returns the same alternative with the same value. *)
Theorem CHOICE_uper_roundtrip {T : Target} {A : Allocator} {V} {K} {C : Consumer K} {S : Sink K} {TS : TotalSink K}
    specs cs root (ms : list (vmember V)) i v given tmp (po : asn_bit_outp K) :
  choice_ok specs (pc_value cs) root (length ms) -> alternative_ok specs root ms i v ->
  (given = false -> malloc_ok (ch_struct_size specs) = true) -> length tmp = sizeof_tmpspace -> octets tmp -> po_ok po ->
  let enc := choice_bits specs (pc_value cs) root ms i v in
  (exists n po', CHOICE_encode_uper tmp specs (Some cs) None (table ms) (Some (alternative i v)) po = (ENCODED_OK n, po') /\
     po_ok po' /\ written po' = written po ++ enc) /\
  forall ctx pd rest, pd_ok pd -> remaining pd = enc ++ rest ->
    exists n pd', CHOICE_decode_uper false false specs (Some cs) None (table ms) given ctx pd = (RC_OK n (alternative i v), pd') /\
      pd_ok pd' /\ remaining pd' = rest.
Proof.
  intros H Hok Hg Ht Ho Hpo enc. split.
  - destruct (encodes_choice (K := K) specs cs root ms i v tmp H Hok Ht Ho) as [n Hn].
    destruct (Hn po Hpo (fits_total _)) as (po' & E & Hok' & Hw & _). eauto.
  - intros ctx pd rest Hpd E. destruct (decodes_choice specs cs root ms i v given ctx H Hok Hg) as [n Hn].
    destruct (Hn pd rest Hpd E) as (pd' & E' & Ha & Hr). exists n, pd'. split; [exact E'|]. split; [apply Ha|exact Hr].
Qed.

#[local] Existing Instance LP64.
#[local] Existing Instance roomy.

(** An extensible CHOICE of a position or a lane type, with a direction as
    extension; the canonical order swaps the first two. *)
Definition lane_choice_specs : asn_CHOICE_specifics :=
  {| ch_struct_size := 40; pres_size := 4; to_canonical_order := Some [1; 0; 2]; from_canonical_order := Some [1; 0; 2]; ext_start := 2 |}.
Definition lane_choice_constraints : asn_per_constraints :=
  mk_per_constraints (mk_per_constraint (APC_CONSTRAINED + APC_EXTENSIBLE) 1 1 0 1) unconstrained_size None None.

Lemma lane_choice_ok : choice_ok lane_choice_specs (pc_value lane_choice_constraints) 2 3.
Proof.
  split; cbn; try lia; try discriminate.
  split; [reflexivity|]. split; [reflexivity|]. intros [|[|[|i]]] e E; inversion E; subst; (split; [lia|reflexivity]).
Qed.

Lemma lane_alternative_2 : alternative_ok lane_choice_specs 2 lane_ms 2 3.
Proof.
  exists (lane_direction_member (roomy_serves 64)). split; [reflexivity|].
  assert (in_range asn_PER_type_Vanetza_ITS2_Direction_constr_1 3) as Hr by (unfold in_range; cbn; lia).
  split; [now apply native_member_valid|]. intros _. apply native_ext_ok; [exact Hr|cbn; lia|apply roomy_serves].
Qed.

Lemma CHOICE_uper_roundtrip_witness :
  let po := fresh_outp (replicate 32 0) ([] : ByteBuffer) in
  let enc := choice_bits lane_choice_specs (pc_value lane_choice_constraints) 2 lane_ms 2 3 in
  (exists n po', CHOICE_encode_uper (replicate 32 9) lane_choice_specs (Some lane_choice_constraints) None (table lane_ms) (Some (alternative 2 3)) po
       = (ENCODED_OK n, po') /\ po_ok po' /\ written po' = written po ++ enc) /\
  forall ctx pd rest, pd_ok pd -> remaining pd = enc ++ rest ->
    exists n pd', CHOICE_decode_uper false false lane_choice_specs (Some lane_choice_constraints) None (table lane_ms) false ctx pd
      = (RC_OK n (alternative 2 3), pd') /\ pd_ok pd' /\ remaining pd' = rest.
Proof.
  apply (@CHOICE_uper_roundtrip LP64 roomy Z ByteBuffer _ _ write_buffer_total lane_choice_specs lane_choice_constraints 2 lane_ms 2 3 false (replicate 32 9)).
  - exact lane_choice_ok.
  - exact lane_alternative_2.
  - reflexivity.
  - reflexivity.
  - repeat constructor; lia.
  - apply fresh_outp_ok; [reflexivity|repeat constructor; lia|constructor].
Defined.

(** Alternatives a receiver does not know: an alternative a newer
    sender chose, whose number lies beyond the receiver's table, makes the
    decoder fail right behind its number, in every mode; other than unknown
    extensions of a SEQUENCE it is not skipped. *)
Theorem CHOICE_unknown_alternative_refused {T : Target} {A : Allocator} {V}
    specs cs root (ms : list (vmember V)) e l given ctx pd rest :
  choice_ok specs (pc_value cs) root (length ms) -> has (pc_value cs) APC_EXTENSIBLE = true ->
  (given = false -> malloc_ok (ch_struct_size specs) = true) ->
  Z.of_nat (length ms) <= e < 2 ^ 31 -> e - Z.of_nat root <= 63 -> pd_ok pd ->
  remaining pd = alternative_bits (pc_value cs) root e l ++ rest ->
  exists pd', CHOICE_decode_uper false false specs (Some cs) None (table ms) given ctx pd = (DECODE_FAILED, pd') /\
    pd_ok pd' /\ remaining pd' = open_type_bits l ++ rest.
Proof.
  intros H Hx Hg He Hsmall Hpd E. pose proof (co_root _ _ _ _ H) as Hroot. unfold alternative_bits in E.
  rewrite Hx, (proj2 (Z.leb_le _ e)), (proj2 (Z.ltb_ge e _)) in E by lia.
  assert (decodes (CHOICE_decode_uper false false specs (Some cs) None (table ms) given ctx)
    ([true] ++ bits_of 7 (e - Z.of_nat root)) DECODE_FAILED) as Hd.
  2: { destruct (Hd pd (open_type_bits l ++ rest) Hpd) as (pd' & E' & Ha & Hr); [rewrite E; now rewrite <- !app_assoc|].
       exists pd'. split; [exact E'|]. split; [apply Ha|exact Hr]. }
  unfold CHOICE_decode_uper. cbn [option_map or_else].
  replace (negb given && _) with false by (destruct given; [reflexivity|now rewrite Hg]).
  rewrite Hx. change [true] with (bits_of 1 1).
  eapply decodes_bind; [apply (decodes_few_bits_of 1 1 1); lia|]. cbv beta iota. cbn [Z.ltb Z.compare Z.eqb].
  unfold choice_decode_body, choice_index. rewrite (co_start _ _ _ _ H Hx), (proj2 (Z.eqb_neq _ (-1))) by lia.
  eapply (decodes_last _ _ _ DECODE_FAILED); [|apply decodes_ret].
  eapply decodes_last; [apply decodes_nsnnwn; lia|]. rewrite (proj2 (Z.ltb_ge _ 0)) by lia. cbv zeta.
  replace (e - Z.of_nat root + Z.of_nat root) with e by lia. rewrite (uwrap_small 32 e) by lia.
  unfold table. rewrite length_map, (proj2 (Z.leb_le _ e)) by lia. apply decodes_ret.
Qed.

Lemma CHOICE_unknown_alternative_refused_witness :
  exists pd', CHOICE_decode_uper false false lane_choice_specs (Some lane_choice_constraints) None (table lane_ms) true None
      (bitmap_reader [129; 1; 160] 24) = (DECODE_FAILED, pd') /\ pd_ok pd' /\ remaining pd' = open_type_bits [true; false; true; false] ++ [].
Proof.
  apply (@CHOICE_unknown_alternative_refused LP64 roomy Z lane_choice_specs lane_choice_constraints 2 lane_ms 3 [true; false; true; false] true None
    (bitmap_reader [129; 1; 160] 24) []).
  - exact lane_choice_ok.
  - reflexivity.
  - discriminate.
  - cbn. lia.
  - lia.
  - split; [cbn; lia|]. split; [cbn; lia|repeat constructor; lia].
  - vm_compute. reflexivity.
Defined.

(** Open types an information object selects: when the object selects the
    alternative [i] and its type, the member's structure holding that
    alternative is written as an open type of the value, and
    OPEN_TYPE_uper_get reads it back to the same structure; when the object
    selects nothing, or there is no selector, it fails and reads nothing. *)
Theorem OPEN_TYPE_uper_roundtrip {T : Target} {A : Allocator} {V W} {K} {C : Consumer K} {S : Sink K} {TS : TotalSink K}
    specs (ms : list (vmember W)) m i v (select : V -> asn_type_selector_result) (sptr : V) tmp ctx (po : asn_bit_outp K) :
  ms !! i = Some m -> elm_pointer (vm m) = false -> ext_ok m (Some v) ->
  presence_index (select sptr) = Z.of_nat i + 1 -> type_decoder (select sptr) = elm_decode (vm m) ->
  pres_size specs = 4 -> Z.of_nat (length ms) < 2 ^ 32 -> length tmp = sizeof_tmpspace -> octets tmp -> po_ok po ->
  let enc := open_type_bits (vbits m v) in
  (exists po', OPEN_TYPE_encode_uper tmp specs (table ms) (alternative i v) po = (ENCODED_OK 0, po') /\ po_ok po' /\ written po' = written po ++ enc) /\
  (forall pd rest, pd_ok pd -> remaining pd = enc ++ rest ->
     exists n pd', OPEN_TYPE_uper_get false true (Some select) specs (table ms) sptr (mk_choice 0 None) ctx pd = (RC_OK n (alternative i v), pd') /\
       pd_ok pd' /\ remaining pd' = rest) /\
  (forall other pd, presence_index (other sptr) = 0 ->
     OPEN_TYPE_uper_get false true (Some other) specs (table ms) sptr (mk_choice 0 None) ctx pd = (DECODE_FAILED, pd)) /\
  forall pd, OPEN_TYPE_uper_get false true None specs (table ms) sptr (mk_choice 0 None) ctx pd = (DECODE_FAILED, pd).
Proof.
  intros Em Hp Hext Hsel Hdec Hps Hlen Ht Ho Hpo enc. destruct (Hext v eq_refl) as (Hv & Hroom & Hn).
  pose proof (lookup_lt_Some _ _ _ Em) as Hi.
  assert (narrow_present (pres_size specs) (Z.of_nat i + 1) = Z.of_nat i + 1) as Enar.
  { rewrite Hps. unfold narrow_present. cbn [Z.eqb Pos.eqb]. apply uwrap_small. lia. }
  assert (table ms !! i = Some (vm m)) as Et by (unfold table; now rewrite list_lookup_fmap, Em).
  split; [|split; [|split; [|reflexivity]]].
  - unfold OPEN_TYPE_encode_uper, CHOICE_variant_get_presence, _fetch_present_idx, alternative. cbn [ch_present ch_member]. rewrite Enar.
    rewrite (proj2 (Z.eqb_neq _ 0)) by lia. unfold table at 1. rewrite length_map, (proj2 (Z.ltb_ge (Z.of_nat (length ms)) _)) by lia. cbn [orb].
    replace (Z.to_nat (Z.of_nat i + 1 - 1)) with i by lia. rewrite Et, (vm_encode _ m).
    destruct (@encodes_open_type _ _ K _ _ _ W (vm_codec m) tmp v Ht Ho Hv Hroom po Hpo (fits_total _)) as (po' & -> & Hok & Hw & _). cbn [Z.ltb Z.compare]. eauto.
  - intros pd rest Hpd E. destruct (@decodes_open_type _ _ W (vm_codec m) ctx v Hv Hroom Hn) as [n Hd]. rewrite <- (vm_decode _ m) in Hd.
    destruct (Hd pd rest Hpd E) as (pd' & E' & Ha & Hr). exists n, pd'. split; [|split; [apply Ha|exact Hr]].
    unfold OPEN_TYPE_uper_get. cbn [negb]. rewrite Hsel, (proj2 (Z.eqb_neq _ 0)) by lia. unfold CHOICE_variant_set_presence, _fetch_present_idx at 1. cbn [ch_present].
    rewrite (proj2 (Z.ltb_ge _ 0)) by lia. replace (narrow_present (pres_size specs) 0) with 0 by now rewrite Hps.
    cbn [Z.eqb negb]. replace (Z.to_nat (Z.of_nat i + 1 - 1)) with i by lia. rewrite Et, Hdec.
    replace (Some (elm_zero (vm m))) with (fresh_slot (vm m)) by (unfold fresh_slot; now rewrite Hp). rewrite E'.
    cbn [option_map ch_present]. unfold table. rewrite length_map, (proj2 (Z.ltb_ge _ (Z.of_nat i + 1))) by lia.
    unfold _fetch_present_idx, _set_present_idx, alternative. cbn [ch_present ch_member].
    replace (narrow_present (pres_size specs) 0) with 0 by now rewrite Hps. rewrite (proj2 (Z.eqb_neq _ 0)) by lia. cbn [negb Z.eqb]. now rewrite Enar.
  - intros other pd Hz. unfold OPEN_TYPE_uper_get. cbn [negb]. now rewrite Hz.
Qed.

Lemma OPEN_TYPE_uper_roundtrip_witness :
  let m := lane_direction_member (roomy_serves 64) in
  let po := fresh_outp (replicate 32 0) ([] : ByteBuffer) in
  let select n := {| presence_index := n; type_decoder := elm_decode (vm m) |} in
  let enc := open_type_bits (vbits m 3) in
  (exists po', OPEN_TYPE_encode_uper (replicate 32 9) lane_choice_specs (table lane_ms) (alternative 2 3) po = (ENCODED_OK 0, po') /\
     po_ok po' /\ written po' = written po ++ enc) /\
  (forall pd rest, pd_ok pd -> remaining pd = enc ++ rest ->
     exists n pd', OPEN_TYPE_uper_get false true (Some select) lane_choice_specs (table lane_ms) 3 (mk_choice 0 None) None pd = (RC_OK n (alternative 2 3), pd') /\
       pd_ok pd' /\ remaining pd' = rest) /\
  (forall other pd, presence_index (other 3) = 0 ->
     OPEN_TYPE_uper_get false true (Some other) lane_choice_specs (table lane_ms) 3 (mk_choice 0 None) None pd = (DECODE_FAILED, pd)) /\
  forall pd, OPEN_TYPE_uper_get false true None lane_choice_specs (table lane_ms) 3 (mk_choice 0 None) None pd = (DECODE_FAILED, pd).
Proof.
  apply (@OPEN_TYPE_uper_roundtrip LP64 roomy Z Z ByteBuffer _ _ write_buffer_total lane_choice_specs lane_ms (lane_direction_member (roomy_serves 64)) 2 3
    (fun n => {| presence_index := n; type_decoder := elm_decode (vm (lane_direction_member (roomy_serves 64))) |}) 3 (replicate 32 9) None).
  - reflexivity.
  - reflexivity.
  - apply native_ext_ok; [unfold in_range; cbn; lia|cbn; lia|apply roomy_serves].
  - reflexivity.
  - reflexivity.
  - reflexivity.
  - cbn. lia.
  - reflexivity.
  - repeat constructor; lia.
  - apply fresh_outp_ok; [reflexivity|repeat constructor; lia|constructor].
Defined.

(** CHOICE_copy tests the index of its source with [present <= 0 &&
    present > count], which no index meets: a source without a choice, or
    with an index beyond the table, makes it read outside the table. *)
Theorem CHOICE_copy_unchecked {A : Allocator} {V} specs (elements : list (asn_TYPE_member V)) aptr present member :
  pres_size specs = 4 -> have_struct aptr (ch_struct_size specs) = true -> 0 <= present < 2 ^ 31 ->
  Z.of_nat (length elements) < 2 ^ 31 ->
  (present = 0 \/ Z.of_nat (length elements) < present) ->
  CHOICE_copy specs elements aptr (Some (mk_choice present member)) = OutsideTable (present - 1).
Proof.
  intros Hps Hs Hp Hl Hout. unfold CHOICE_copy. rewrite Hs. cbn [negb]. unfold _fetch_present_idx, narrow_present. rewrite Hps. cbn [Z.eqb Pos.eqb ch_present].
  rewrite (uwrap_small 32 present), (swrap_small 32 present), (uwrap_small 32 present) by lia. cbv zeta.
  destruct Hout as [-> |Hout].
  - rewrite (proj2 (Z.ltb_ge _ 0)) by lia. reflexivity.
  - rewrite (proj2 (Z.leb_gt present 0)), (proj2 (Z.ltb_ge (present - 1) 0)) by lia. cbn [andb].
    now rewrite lookup_ge_None_2 by lia.
Qed.
