(* ===== verification/Double.v ===== *)
(** IEEE 754 binary64, the [double] of the C++ code, by the executable
    definitions of the Standard Library, and the conversions between doubles
    and integers that units/time.hpp uses for durations. *)

From Stdlib Require Import Floats.SpecFloat.
From S2P Require Import Prelude.

(** * Doubles *)

Definition double : Type := spec_float.

Definition prec : Z := 53.
Definition emax : Z := 1024.

(** Conversion of an integer: exact up to 2^53, rounded to nearest beyond. *)
Definition d_of_Z (v : Z) : double := binary_normalize prec emax v 0 false.

Definition d_add : double -> double -> double := SFadd prec emax.
Definition d_sub : double -> double -> double := SFsub prec emax.
Definition d_mul : double -> double -> double := SFmul prec emax.
Definition d_div : double -> double -> double := SFdiv prec emax.
Definition d_abs : double -> double := SFabs.

(** [<], [<=] and the mirrored [>], [>=]; false when an operand is NaN. *)
Definition d_ltb : double -> double -> bool := SFltb.
Definition d_leb : double -> double -> bool := SFleb.

(** A decimal literal [n / d]: the double nearest to the quotient. *)
Definition d_literal (n d : Z) : double := d_div (d_of_Z n) (d_of_Z d).

(** Conversion to an integer type, towards zero. *)
Definition d_trunc (f : double) : Z :=
  match f with
  | S754_finite s m e =>
      let v := if 0 <=? e then Zpos m ≪ e else Zpos m ≫ (- e) in if s then - v else v
  | _ => 0
  end.

(** std::lround: to nearest, halves away from zero. *)
Definition d_lround (f : double) : Z :=
  match f with
  | S754_finite s m e =>
      let v := if 0 <=? e then Zpos m ≪ e else (Zpos m + 1 ≪ (- e - 1)) ≫ (- e) in if s then - v else v
  | _ => 0
  end.

(** * Durations *)

(** units::Duration is a double in seconds, Clock::duration an [int64_t] in
    microseconds. *)
Definition Duration : Type := double.

(** clock_cast(Duration). *)
Definition clock_cast (duration : Duration) : Z := swrap 64 (d_trunc (d_mul duration (d_of_Z 1000000))).

(** clock_cast(Clock::duration). *)
Definition clock_cast_seconds (duration : Z) : Duration := d_div (d_of_Z duration) (d_of_Z 1000000).

(** * The order of doubles *)

Definition d_isnan (x : double) : bool := match x with S754_nan => true | _ => false end.

(** Comparison looks at the class, the exponent and the mantissa in turn: it
    is the lexicographic order of these keys, NaN apart. *)
Definition d_key (x : double) : Z * Z * Z :=
  match x with
  | S754_zero _ | S754_nan => (0, 0, 0)
  | S754_infinity s => (if s then -2 else 2, 0, 0)
  | S754_finite s m e => if s then (-1, - e, Zneg m) else (1, e, Zpos m)
  end.

Definition key_lt (k k' : Z * Z * Z) : Prop :=
  k.1.1 < k'.1.1 \/ k.1.1 = k'.1.1 /\ (k.1.2 < k'.1.2 \/ k.1.2 = k'.1.2 /\ k.2 < k'.2).

Definition compared (k k' : Z * Z * Z) (c : comparison) : Prop :=
  match c with Lt => key_lt k k' | Eq => k = k' | Gt => key_lt k' k end.

Lemma compared_finite e m e' m' :
  compared (1, e, Zpos m) (1, e', Zpos m') match (e ?= e')%Z with Lt => Lt | Gt => Gt | Eq => Pos.compare_cont Eq m m' end.
Proof.
  destruct (Z.compare_spec e e') as [->| |]; cbn; unfold key_lt; cbn; try lia. fold (Pos.compare m m').
  destruct (Pos.compare_spec m m') as [->| |]; cbn; unfold key_lt; cbn; try reflexivity; lia.
Qed.

Lemma SFcompare_key x y : d_isnan x = false -> d_isnan y = false ->
  exists c, SFcompare x y = Some c /\ compared (d_key x) (d_key y) c.
Proof.
  destruct x as [sx|sx| |sx mx ex], y as [sy|sy| |sy my ey]; intros Hx Hy; try discriminate; try destruct sx; try destruct sy;
    cbn [SFcompare]; (eexists; split; [reflexivity|]); cbn [d_key]; try (cbn; unfold key_lt; cbn; try reflexivity; lia).
  - pose proof (compared_finite ex mx ey my) as H. destruct (ex ?= ey)%Z, (Pos.compare_cont Eq mx my); cbn in *; unfold key_lt in *; cbn in *; try lia; try (injection H as <- <-; reflexivity).
  - apply compared_finite.
Qed.

Lemma d_ltb_spec x y : d_isnan x = false -> d_isnan y = false -> (d_ltb x y = true <-> key_lt (d_key x) (d_key y)).
Proof.
  intros Hx Hy. destruct (SFcompare_key x y Hx Hy) as (c & E & Hc). unfold d_ltb, SFltb. rewrite E.
  destruct c; cbn in Hc; [rewrite Hc| |]; unfold key_lt in *; split; intros; try discriminate; try reflexivity; lia.
Qed.

(** NaN is not less than anything, and nothing is less than NaN. *)
Lemma d_ltb_number x y : d_ltb x y = true -> d_isnan x = false /\ d_isnan y = false.
Proof. destruct x as [sx|[]| |[] mx ex], y as [sy|[]| |[] my ey]; cbn; try discriminate; auto. Qed.

Lemma d_leb_negb x y : d_isnan x = false -> d_isnan y = false -> d_leb x y = negb (d_ltb y x).
Proof.
  intros Hx Hy. destruct (SFcompare_key x y Hx Hy) as (c & E & Hc), (SFcompare_key y x Hy Hx) as (c' & E' & Hc').
  unfold d_leb, d_ltb, SFleb, SFltb. rewrite E, E'. destruct c, c'; cbn in *; try reflexivity; exfalso; unfold key_lt in *;
    try rewrite Hc in *; try rewrite Hc' in *; lia.
Qed.

Lemma d_ltb_irrefl x : d_ltb x x = false.
Proof.
  destruct (d_ltb x x) eqn:E; [|reflexivity]. destruct (d_ltb_number _ _ E). apply d_ltb_spec in E; auto. unfold key_lt in E. lia.
Qed.

Lemma d_ltb_trans x y z : d_ltb x y = true -> d_ltb y z = true -> d_ltb x z = true.
Proof.
  intros H1 H2. destruct (d_ltb_number _ _ H1), (d_ltb_number _ _ H2). rewrite d_ltb_spec in * by assumption. unfold key_lt in *. lia.
Qed.

(** [<=] as the negation of [>], for numbers. *)
Lemma d_nlt_trans x y z : d_isnan y = false -> d_ltb y x = false -> d_ltb z y = false -> d_ltb z x = false.
Proof.
  intros Hy H1 H2. destruct (d_ltb z x) eqn:E; [|reflexivity]. destruct (d_ltb_number _ _ E).
  apply not_true_iff_false in H1, H2. rewrite d_ltb_spec in * by assumption. unfold key_lt in *. lia.
Qed.

Lemma d_le_lt_trans x y z : d_isnan x = false -> d_ltb y x = false -> d_ltb y z = true -> d_ltb x z = true.
Proof.
  intros Hx H1 H2. destruct (d_ltb_number _ _ H2). apply not_true_iff_false in H1. rewrite d_ltb_spec in * by assumption.
  unfold key_lt in *. lia.
Qed.

Lemma d_lt_le_trans x y z : d_isnan z = false -> d_ltb x y = true -> d_ltb z y = false -> d_ltb x z = true.
Proof.
  intros Hz H1 H2. destruct (d_ltb_number _ _ H1). apply not_true_iff_false in H2. rewrite d_ltb_spec in * by assumption.
  unfold key_lt in *. lia.
Qed.

Lemma d_lt_nlt x y : d_ltb x y = true -> d_ltb y x = false.
Proof. intros H. destruct (d_ltb y x) eqn:E; [|reflexivity]. rewrite <- (d_ltb_irrefl x). symmetry. now apply d_ltb_trans with y. Qed.
