(* ===== verification/GnNumbers.v ===== *)
(** Numbers of the GeoNetworking headers: common/bit_number.hpp,
    geonet/sequence_number.cpp, geonet/timestamp.cpp and geonet/lifetime.cpp
    under vanetza/. *)

From S2P Require Import Prelude Double.

(** BitNumber<T, WIDTH>: the excess bits of a number are masked.  [w] is the
    width of T, which the constructor's argument is converted to. *)
Definition BitNumber (w width value : Z) : Z := uwrap w value .& (1 ≪ width - 1).

(** * Sequence numbers *)

Module SequenceNumber.
(** [m_number], a uint16_t. *)
Definition t : Type := Z.
Definition max : Z := 65535.

Definition lt (self other : t) : bool :=
  (self <? other) && (other - self <=? max / 2) || (other <? self) && (max / 2 <? self - other).
Definition add (self other : t) : t := uwrap 16 (self + other).
Definition sub (self other : t) : t := uwrap 16 (self - other).
(** operator++(int): the old number and the new state. *)
Definition post_increment (self : t) : t * t := (self, uwrap 16 (self + 1)).
End SequenceNumber.

(** * Timestamps *)

Module Timestamp.
(** [m_timestamp], a uint32_t of milliseconds. *)
Definition t : Type := Z.

(** The constructor from a time point in microseconds. *)
Definition of_time_point (time : Z) : t := u32 (Z.quot time 1000).
Definition add (self : t) (rhs : Z) : t := u32 (self + rhs).
Definition sub (self : t) (rhs : Z) : t := u32 (self - rhs).
Definition minus (lhs rhs : t) : Z := u32 (lhs - rhs).

Definition is_greater (lhs rhs : t) : bool :=
  let max := 2 ^ 32 - 1 in
  if (rhs <? lhs) && (u32 (lhs - rhs) <=? max / 2) || (lhs <? rhs) && (max / 2 <? u32 (rhs - lhs)) then true else false.
Definition eq (lhs rhs : t) : bool := lhs =? rhs.
Definition lt (lhs rhs : t) : bool := negb (is_greater lhs rhs) && negb (eq lhs rhs).
(** before() and after(): boost::totally_ordered turns [>] around. *)
Definition before (self other : t) : bool := lt self other.
Definition after (self other : t) : bool := lt other self.
End Timestamp.

(** * Lifetimes *)

Module Lifetime.
Inductive Base := Fifty_Milliseconds | One_Second | Ten_Seconds | Hundred_Seconds.

Definition base_value (b : Base) : Z :=
  match b with Fifty_Milliseconds => 0 | One_Second => 1 | Ten_Seconds => 2 | Hundred_Seconds => 3 end.

(** [m_lifetime], a uint8_t. *)
Definition t : Type := Z.
Definition multiplier_mask : Z := 252.
Definition base_mask : Z := 3.

(** set(base, BitNumber<uint8_t, 6>(multiplier)). *)
Definition set (base : Base) (multiplier : Z) : t :=
  u8 (BitNumber 8 6 multiplier ≪ 2 .| (base_value base .& base_mask)).
Definition zero : t := set Fifty_Milliseconds 0.

(** The switch of decode(): the two low bits name one of the four bases. *)
Definition base_of (self : t) : Base :=
  let base := self .& base_mask in
  if base =? 0 then Fifty_Milliseconds else if base =? 1 then One_Second
  else if base =? 2 then Ten_Seconds else Hundred_Seconds.

Definition unit (b : Base) : Duration :=
  match b with
  | Fifty_Milliseconds => d_literal 50 1000
  | One_Second => d_of_Z 1
  | Ten_Seconds => d_of_Z 10
  | Hundred_Seconds => d_of_Z 100
  end.

Definition decode (self : t) : Duration :=
  d_mul (d_of_Z ((self .& multiplier_mask) ≫ 2)) (unit (base_of self)).

Definition encode (seconds : Duration) : t :=
  if d_leb (d_of_Z 630) seconds then set Hundred_Seconds (d_lround (d_div seconds (d_of_Z 100)))
  else if d_leb (d_of_Z 63) seconds then set Ten_Seconds (d_lround (d_div seconds (d_of_Z 10)))
  else if d_leb (d_literal 315 100) seconds then set One_Second (d_lround seconds)
  else set Fifty_Milliseconds (d_lround (d_div seconds (d_literal 50 1000))).

Definition lt (self other : t) : bool := d_ltb (decode self) (decode other).
Definition eq (self other : t) : bool :=
  d_ltb (d_abs (d_sub (decode self) (decode other))) (d_literal 50 1000).

(** PendingPacket::reduce_lifetime on the lifetime of the PDU: the remaining
    Clock::duration and the new field. *)
Definition reduce (self : t) (queuing_time : Z) : Z * t :=
  let packet_lifetime := clock_cast (decode self) in
  if queuing_time <=? 0 then (packet_lifetime, self)
  else if queuing_time <? packet_lifetime then
    let remaining := packet_lifetime - queuing_time in (remaining, encode (clock_cast_seconds remaining))
  else (0, zero).

(** The duration a field stands for, in microseconds. *)
Definition micros (self : t) : Z :=
  ((self .& multiplier_mask) ≫ 2) *
  match base_of self with
  | Fifty_Milliseconds => 50000 | One_Second => 1000000 | Ten_Seconds => 10000000 | Hundred_Seconds => 100000000
  end.
End Lifetime.

(** * Cyclic comparison *)

(** The distance from [a] forward to [b] modulo 2^w. *)
Definition ahead (w a b : Z) : Z := uwrap w (b - a).

(** Ahead by less than half the range; at exactly half, the smaller number
    counts as the later one. *)
Definition cyclic_before (w a b : Z) : Prop :=
  0 < ahead w a b < 2 ^ (w - 1) \/ (ahead w a b = 2 ^ (w - 1) /\ b < a).

Lemma ahead_cases w a b :
  0 < w -> 0 <= a < 2 ^ w -> 0 <= b < 2 ^ w -> ahead w a b = if a <=? b then b - a else b - a + 2 ^ w.
Proof.
  intros Hw Ha Hb. unfold ahead, uwrap. destruct (Z.leb_spec a b).
  - now rewrite Z.mod_small by lia.
  - rewrite <- (Z.mod_add _ 1), Z.mul_1_l by lia. now rewrite Z.mod_small by lia.
Qed.

Lemma half_range w : 0 < w -> 2 ^ w = 2 * 2 ^ (w - 1).
Proof. intros. rewrite <- Z.pow_succ_r by lia. f_equal. lia. Qed.

Lemma cyclic_before_spec w a b :
  0 < w -> 0 <= a < 2 ^ w -> 0 <= b < 2 ^ w ->
  (cyclic_before w a b <-> (a < b /\ b - a < 2 ^ (w - 1)) \/ (b < a /\ 2 ^ (w - 1) <= a - b)).
Proof.
  intros Hw Ha Hb. unfold cyclic_before. rewrite ahead_cases by assumption. pose proof (half_range w Hw).
  destruct (Z.leb_spec a b); lia.
Qed.

Lemma SequenceNumber_lt_spec a b :
  0 <= a < 2 ^ 16 -> 0 <= b < 2 ^ 16 -> (SequenceNumber.lt a b = true <-> cyclic_before 16 a b).
Proof.
  intros Ha Hb. rewrite cyclic_before_spec by lia. unfold SequenceNumber.lt, SequenceNumber.max.
  change (65535 / 2) with 32767. rewrite orb_true_iff, !andb_true_iff, !Z.ltb_lt, Z.leb_le. change (2 ^ (16 - 1)) with 32768. lia.
Qed.

Lemma Timestamp_is_greater_spec a b :
  0 <= a < 2 ^ 32 -> 0 <= b < 2 ^ 32 -> (Timestamp.is_greater a b = true <-> cyclic_before 32 b a).
Proof.
  intros Ha Hb. rewrite cyclic_before_spec by lia. unfold Timestamp.is_greater. cbv zeta.
  change ((2 ^ 32 - 1) / 2) with 2147483647. change (2 ^ (32 - 1)) with 2147483648.
  assert (forall c : bool, (if c then true else false) = c) as -> by (now intros []).
  rewrite orb_true_iff, !andb_true_iff, !Z.ltb_lt, Z.leb_le.
  destruct (Z.lt_trichotomy a b) as [H|[H|H]].
  - rewrite (uwrap_small 32 (b - a)) by lia. lia.
  - lia.
  - rewrite (uwrap_small 32 (a - b)) by lia. lia.
Qed.

Lemma cyclic_total w a b :
  0 < w -> 0 <= a < 2 ^ w -> 0 <= b < 2 ^ w ->
  (cyclic_before w a b \/ a = b \/ cyclic_before w b a) /\ ~ (cyclic_before w a b /\ cyclic_before w b a).
Proof.
  intros Hw Ha Hb. rewrite !cyclic_before_spec by assumption. pose proof (half_range w Hw). lia.
Qed.

Lemma Timestamp_lt_spec a b :
  0 <= a < 2 ^ 32 -> 0 <= b < 2 ^ 32 -> (Timestamp.lt a b = true <-> cyclic_before 32 a b).
Proof.
  intros Ha Hb. unfold Timestamp.lt, Timestamp.eq. rewrite andb_true_iff, !negb_true_iff, Z.eqb_neq.
  pose proof (Timestamp_is_greater_spec a b Ha Hb) as Hg. pose proof (cyclic_total 32 a b ltac:(lia) Ha Hb) as [Ht Hx].
  destruct (Timestamp.is_greater a b).
  - assert (cyclic_before 32 b a) by (now apply Hg). split; [intros [[=] _]|]. intros Hab. exfalso. tauto.
  - assert (~ cyclic_before 32 b a) as Hn by (intros H; apply Hg in H; discriminate). split.
    + intros [_ Hne]. destruct Ht as [H|[H|H]]; tauto.
    + intros H. split; [reflexivity|]. intros ->. tauto.
Qed.

(** Numbers that went forward by less than half the range are in order. *)
Lemma cyclic_forward w a d :
  0 < w -> 0 <= a < 2 ^ w -> 0 < d < 2 ^ (w - 1) -> cyclic_before w a (uwrap w (a + d)).
Proof.
  intros Hw Ha Hd. left. unfold ahead, uwrap. rewrite Zminus_mod_idemp_l. replace (a + d - a) with d by lia.
  pose proof (half_range w Hw). now rewrite Z.mod_small by lia.
Qed.

(** Transitive as long as the whole distance stays below half the range. *)
Lemma cyclic_trans w a b c :
  0 < w -> 0 <= a < 2 ^ w -> 0 <= b < 2 ^ w -> 0 <= c < 2 ^ w ->
  ahead w a b + ahead w b c < 2 ^ (w - 1) -> cyclic_before w a b -> cyclic_before w b c -> cyclic_before w a c.
Proof.
  intros Hw Ha Hb Hc. unfold cyclic_before. rewrite !ahead_cases by assumption. pose proof (half_range w Hw).
  destruct (Z.leb_spec a b), (Z.leb_spec b c), (Z.leb_spec a c); lia.
Qed.

(** * Lifetime fields *)

Definition all_octets : list Z := map Z.of_nat (seq 0 256).

Lemma in_all_octets b : octet b -> In b all_octets.
Proof. intros Hb. unfold octet in Hb. apply in_map_iff. exists (Z.to_nat b). rewrite in_seq. lia. Qed.

(** The durations of all fields, evaluated once. *)
Definition lifetime_value (r : Z) : Z * double := (Lifetime.micros r, Lifetime.decode r).
Definition lifetime_table : list (Z * double) := Eval vm_compute in map lifetime_value all_octets.

Lemma in_lifetime_table a : octet a -> In (lifetime_value a) lifetime_table.
Proof.
  intros Ha. assert (lifetime_table = map lifetime_value all_octets) as -> by (vm_compute; reflexivity).
  now apply in_map, in_all_octets.
Qed.

(** A fact on two lifetime fields, checked on the table. *)
Lemma lifetime_pairs (P : Z * double -> Z * double -> bool) :
  forallb (fun x => forallb (P x) lifetime_table) lifetime_table = true ->
  forall a b, octet a -> octet b -> P (lifetime_value a) (lifetime_value b) = true.
Proof.
  rewrite forallb_forall. intros H a b Ha%in_lifetime_table Hb%in_lifetime_table.
  specialize (H _ Ha). rewrite forallb_forall in H. exact (H _ Hb).
Qed.

Definition fifty_milliseconds : double := Eval vm_compute in d_literal 50 1000.

(** What the two comparisons have to satisfy on a pair of fields. *)
Definition lifetime_order_ok (x y : Z * double) : bool :=
  let '(m, d) := x in let '(n, e) := y in
  Bool.eqb (d_ltb d e) (m <? n) &&
  let same := d_ltb (d_abs (d_sub d e)) fifty_milliseconds in
  (if m =? n then same else true) && (if same then Z.abs (m - n) <=? 50000 else true).

Lemma lifetime_order a b : octet a -> octet b ->
  lifetime_order_ok (lifetime_value a) (lifetime_value b) = true.
Proof. apply lifetime_pairs. vm_compute. reflexivity. Qed.

(** Re-encoding the decoded duration. *)
Definition lifetime_reencoded_ok (a : Z) : bool :=
  (clock_cast (Lifetime.decode a) =? Lifetime.micros a) &&
  ((Lifetime.micros (Lifetime.encode (Lifetime.decode a)) =? Lifetime.micros a) || (252 <=? a) && (a <=? 254)).

Lemma lifetime_reencoded a : octet a -> lifetime_reencoded_ok a = true.
Proof. intros Ha. apply (small_cases lifetime_reencoded_ok 256); [vm_compute; reflexivity|exact Ha]. Qed.

(** Base and multiplier occupy their bits. *)
Lemma lifetime_set b m : Lifetime.base_of (Lifetime.set b m) = b /\
  (Lifetime.set b m .& Lifetime.multiplier_mask) ≫ 2 = m mod 64 /\ octet (Lifetime.set b m).
Proof.
  assert (BitNumber 8 6 m = m mod 64) as E.
  { unfold BitNumber. change (1 ≪ 6 - 1) with (Z.ones 6). rewrite Z.land_ones by lia. unfold uwrap.
    change (2 ^ 8) with (64 * 4). change (2 ^ 6) with 64. rewrite Z.rem_mul_r by lia.
    rewrite (Z.mul_comm 64), Z.mod_add by lia. now rewrite Z.mod_mod by lia. }
  unfold Lifetime.set. rewrite E. pose proof (Z.mod_pos_bound m 64 ltac:(lia)) as Hm. set (k := m mod 64) in *. clearbody k.
  pose proof (small_cases (fun k => forallb (fun b =>
    let r := u8 (k ≪ 2 .| (Lifetime.base_value b .& Lifetime.base_mask)) in
    (Lifetime.base_value (Lifetime.base_of r) =? Lifetime.base_value b) &&
    ((r .& Lifetime.multiplier_mask) ≫ 2 =? k) && (0 <=? r) && (r <? 256))
    [Lifetime.Fifty_Milliseconds; Lifetime.One_Second; Lifetime.Ten_Seconds; Lifetime.Hundred_Seconds]) 64
    ltac:(vm_compute; reflexivity) k Hm) as H.
  cbv beta zeta in H. rewrite forallb_forall in H. specialize (H b ltac:(destruct b; simpl; auto)).
  rewrite !andb_true_iff, Z.leb_le, Z.ltb_lt, !Z.eqb_eq in H. destruct H as (((H1 & H2) & H3) & H4).
  split; [|split; [exact H2|split; assumption]].
  revert H1. generalize (Lifetime.base_of (u8 (k ≪ 2 .| (Lifetime.base_value b .& Lifetime.base_mask)))).
  intros b'. destruct b, b'; cbn; congruence.
Qed.

(** * Properties *)

(** Sequence numbers and time stamps: both comparisons of the headers
    are the cyclic order of their width.  Of two different numbers exactly
    one precedes the other; a number that went forward by less than half the
    range, wrapping around or not, follows the old one; the order is
    transitive as long as the distance stays below half the range; and time
    stamps made of clock times less than 2^31 ms apart are ordered as the
    times. *)
Theorem cyclic_orders :
  (forall a b, 0 <= a < 2 ^ 16 -> 0 <= b < 2 ^ 16 ->
     (SequenceNumber.lt a b = true <-> cyclic_before 16 a b) /\
     (if decide (a = b) then SequenceNumber.lt a b = false /\ SequenceNumber.lt b a = false
      else SequenceNumber.lt a b = negb (SequenceNumber.lt b a))) /\
  (forall a b, 0 <= a < 2 ^ 32 -> 0 <= b < 2 ^ 32 ->
     (Timestamp.lt a b = true <-> cyclic_before 32 a b) /\ Timestamp.lt a b = Timestamp.is_greater b a) /\
  (forall a d, 0 <= a < 2 ^ 16 -> 0 < d < 2 ^ 15 -> SequenceNumber.lt a (SequenceNumber.add a d) = true) /\
  (forall w a b c, 0 < w -> 0 <= a < 2 ^ w -> 0 <= b < 2 ^ w -> 0 <= c < 2 ^ w ->
     ahead w a b + ahead w b c < 2 ^ (w - 1) -> cyclic_before w a b -> cyclic_before w b c -> cyclic_before w a c) /\
  (forall s t, 0 <= s -> 0 < Z.quot t 1000 - Z.quot s 1000 < 2 ^ 31 ->
     Timestamp.before (Timestamp.of_time_point s) (Timestamp.of_time_point t) = true).
Proof.
  split; [|split; [|split; [|split]]].
  - intros a b Ha Hb. pose proof (SequenceNumber_lt_spec a b Ha Hb) as H1. pose proof (SequenceNumber_lt_spec b a Hb Ha) as H2.
    split; [exact H1|]. pose proof (cyclic_total 16 a b ltac:(lia) Ha Hb) as [Ht Hx].
    destruct (decide (a = b)) as [->|Hne].
    + destruct (SequenceNumber.lt b b); [|split; reflexivity]. exfalso. tauto.
    + destruct (SequenceNumber.lt a b), (SequenceNumber.lt b a); try reflexivity; exfalso; intuition discriminate.
  - intros a b Ha Hb. pose proof (Timestamp_lt_spec a b Ha Hb) as H1. pose proof (Timestamp_is_greater_spec b a Hb Ha) as H2.
    split; [exact H1|]. apply eq_true_iff_eq. now rewrite H1, H2.
  - intros a d Ha Hd. apply SequenceNumber_lt_spec; [assumption|unfold SequenceNumber.add; apply Z.mod_pos_bound; lia|].
    apply cyclic_forward; lia.
  - exact cyclic_trans.
  - intros s t Hs Hd. unfold Timestamp.before, Timestamp.of_time_point.
    apply Timestamp_lt_spec; try (apply Z.mod_pos_bound; lia).
    left. unfold ahead, uwrap. rewrite <- Zminus_mod. now rewrite Z.mod_small by lia.
Qed.

Lemma cyclic_orders_witness :
  SequenceNumber.lt 65530 (SequenceNumber.add 65530 20) = true /\
  Timestamp.lt 4294967290 5 = Timestamp.is_greater 5 4294967290 /\
  Timestamp.before (Timestamp.of_time_point 4294967290000) (Timestamp.of_time_point 4294967301000) = true.
Proof.
  destruct cyclic_orders as (_ & H2 & H3 & _ & H5). split; [|split].
  - apply (H3 65530 20); lia.
  - apply (H2 4294967290 5); lia.
  - apply (H5 4294967290000 4294967301000); [lia|]. vm_compute. split; reflexivity.
Defined.

(** The lifetime field, with the double arithmetic of the code: every
    octet decodes to exactly its multiple of 50 ms, 1 s, 10 s or 100 s in
    clock ticks, and operator< orders fields by these durations.  Encoding
    the decoded duration gives the same duration, except that the largest
    multiplier of the three smaller bases is rounded down to the next base
    (3.15 s, 63 s and 630 s become 3 s, 60 s and 600 s).  operator== accepts
    equal durations and no two that differ by more than 50 ms, but rounding
    makes it accept some that differ by 50 ms; and a duration of 6350 s or
    more wraps around the multiplier, 6400 s to a lifetime of zero. *)
Theorem lifetime_field a b :
  octet a -> octet b ->
  clock_cast (Lifetime.decode a) = Lifetime.micros a /\
  Lifetime.lt a b = (Lifetime.micros a <? Lifetime.micros b) /\
  (Lifetime.micros (Lifetime.encode (Lifetime.decode a)) = Lifetime.micros a \/
   In (a, Lifetime.micros (Lifetime.encode (Lifetime.decode a))) [(252, 3000000); (253, 60000000); (254, 600000000)]) /\
  (Lifetime.micros a = Lifetime.micros b -> Lifetime.eq a b = true) /\
  (Lifetime.eq a b = true -> Z.abs (Lifetime.micros a - Lifetime.micros b) <= 50000) /\
  (Lifetime.eq 12 16 = true /\ Lifetime.micros 12 = 150000 /\ Lifetime.micros 16 = 200000) /\
  Lifetime.encode (d_of_Z 6400) = Lifetime.set Lifetime.Hundred_Seconds 0.
Proof.
  intros Ha Hb. pose proof (lifetime_order a b Ha Hb) as Ho. pose proof (lifetime_reencoded a Ha) as Hr.
  unfold lifetime_order_ok, lifetime_value in Ho. unfold lifetime_reencoded_ok in Hr.
  apply andb_prop in Ho as [Hlt Ho]. apply andb_prop in Ho as [Hs Hd]. apply eqb_prop in Hlt.
  apply andb_prop in Hr as [Hc Hr]. apply Z.eqb_eq in Hc.
  change (d_ltb (d_abs (d_sub (Lifetime.decode a) (Lifetime.decode b))) fifty_milliseconds) with (Lifetime.eq a b) in Hs, Hd.
  split; [exact Hc|]. split; [exact Hlt|]. split; [|split; [|split; [|split]]].
  - apply orb_prop in Hr as [Hr|Hr]; [left; now apply Z.eqb_eq|right].
    apply andb_prop in Hr as [H1 H2]. apply Z.leb_le in H1, H2.
    assert (a = 252 \/ a = 253 \/ a = 254) as [-> | [-> | ->]] by lia; vm_compute; auto.
  - intros E. now rewrite E, Z.eqb_refl in Hs.
  - intros E. rewrite E in Hd. now apply Z.leb_le.
  - vm_compute. auto.
  - vm_compute. reflexivity.
Qed.

Lemma lifetime_field_witness :
  Lifetime.lt 5 9 = (Lifetime.micros 5 <? Lifetime.micros 9) /\ clock_cast (Lifetime.decode 5) = 1000000.
Proof.
  destruct (lifetime_field 5 9 ltac:(unfold octet; lia) ltac:(unfold octet; lia)) as (H1 & H2 & _).
  split; [exact H2|]. rewrite H1. vm_compute. reflexivity.
Defined.
