(* ===== verification/Archive.v ===== *)
(** Binary archives and the small types serialized with them:
    common/archives.cpp, common/serialization.hpp, net/mac_address.cpp and
    btp/header.cpp under vanetza/.

    An output archive is the list of octets saved so far; a serializer is the
    list it saves.  A deserializer takes the input archive and returns
    nothing when it throws InputArchive::Exception. *)

From Stdlib Require Import String Ascii.
From S2P Require Import Prelude.

Open Scope Z_scope.

(** * Input archives *)

Inductive ErrorCode := Ok | IncompleteData | ExcessiveLength | ConstraintViolation.

#[export] Instance ErrorCode_eq_dec : EqDecision ErrorCode.
Proof. solve_decision. Defined.

(** The octets left in the stream buffer and [m_error_code]. *)
Record InputArchive := mk_input { stream : list Z; error_code : ErrorCode }.

(** fail(): a prior error code is kept. *)
Definition failed (e code : ErrorCode) : ErrorCode := if decide (e = Ok) then code else e.
Definition fail (ar : InputArchive) (code : ErrorCode) : InputArchive :=
  mk_input (stream ar) (failed (error_code ar) code).
Definition is_good (ar : InputArchive) : bool := bool_decide (error_code ar = Ok).

(** Code that reads an archive and may throw. *)
Definition Reader (A : Type) : Type := InputArchive -> option A * InputArchive.

Definition ret {A} (a : A) : Reader A := fun ar => (Some a, ar).
Definition bind {A B} (d : Reader A) (k : A -> Reader B) : Reader B := fun ar =>
  let '(r, ar) := d ar in match r with Some a => k a ar | None => (None, ar) end.

Declare Scope archive_scope.
Delimit Scope archive_scope with archive.
Notation "x <~ d ; k" := (bind d (fun x => k)) (at level 100, d at next level, right associativity) : archive_scope.
Open Scope archive_scope.

(** load_binary: sgetn takes what is there, and a short read throws. *)
Definition load_binary (len : nat) : Reader (list Z) := fun ar =>
  let data := take len (stream ar) in
  let ar := mk_input (drop len (stream ar)) (error_code ar) in
  if (length data =? len)%nat then (Some data, ar) else (None, fail ar IncompleteData).

Definition peek_byte : Reader Z := fun ar =>
  match stream ar with
  | [] => (None, fail ar IncompleteData)
  | b :: _ => (Some b, ar)
  end.

(** ** Integers *)

(** serialize() of an integral type of [n] octets, in network byte order. *)
Definition serialize_int (n : nat) (value : Z) : list Z := be_bytes n value.

(** deserialize() of an unsigned type and of a signed one. *)
Definition deserialize_uint (n : nat) : Reader Z := tmp <~ load_binary n; ret (be_val tmp).
Definition deserialize_sint (n : nat) : Reader Z := tmp <~ load_binary n; ret (swrap (8 * Z.of_nat n) (be_val tmp)).

(** * MAC addresses *)

Definition MacAddress : Type := list Z.
Definition mac_length_bytes : nat := 6.
Definition cBroadcastMacAddress : MacAddress := replicate 6 255.
Definition mac_ok (m : MacAddress) : Prop := length m = mac_length_bytes /\ octets m.

(** operator<: some octet is less. *)
Fixpoint mac_lt (lhs rhs : MacAddress) : bool :=
  match lhs, rhs with
  | l :: lhs', r :: rhs' => if l <? r then true else mac_lt lhs' rhs'
  | _, _ => false
  end.

(** create_mac_address of a value of [size] octets. *)
Definition create_mac_address (size : nat) (value : Z) : MacAddress :=
  let octets := Nat.min mac_length_bytes size in
  map (fun i => (value ≫ (8 * Z.of_nat (octets - i - 1))) .& 255) (seq 0 octets) ++ replicate (mac_length_bytes - octets) 0.

Definition serialize_mac (m : MacAddress) : list Z := flat_map (serialize_int 1) m.

(** The loop of deserialize(), one octet after the other. *)
Fixpoint deserialize_octets (n : nat) : Reader (list Z) :=
  match n with
  | O => ret []
  | S n' => o <~ deserialize_uint 1; os <~ deserialize_octets n'; ret (o :: os)
  end.
Definition deserialize_mac : Reader MacAddress := deserialize_octets mac_length_bytes.

(** ** As text *)

(** std::isxdigit and the value strtol gives to a digit. *)
Definition xdigit (c : ascii) : option Z :=
  let n := Z.of_nat (nat_of_ascii c) in
  if (48 <=? n) && (n <=? 57) then Some (n - 48)
  else if (97 <=? n) && (n <=? 102) then Some (n - 87)
  else if (65 <=? n) && (n <=? 70) then Some (n - 55)
  else None.

(** boost::algorithm::split at each colon. *)
Fixpoint split_colon (s : string) : list string :=
  match s with
  | EmptyString => [EmptyString]
  | String c s' =>
      if Ascii.eqb c ":" then EmptyString :: split_colon s'
      else match split_colon s' with w :: ws => String c w :: ws | [] => [String c EmptyString] end
  end.

(** octet_checker and strtol(octet, nullptr, 16). *)
Definition parse_octet (s : string) : option Z :=
  match s with
  | String a (String b EmptyString) =>
      match xdigit a, xdigit b with Some x, Some y => Some (16 * x + y) | _, _ => None end
  | _ => None
  end.

Fixpoint parse_octets (l : list string) : option (list Z) :=
  match l with
  | [] => Some []
  | s :: l' => match parse_octet s, parse_octets l' with Some o, Some os => Some (o :: os) | _, _ => None end
  end.

Definition parse_mac_address (str : string) : option MacAddress :=
  let octets := split_colon str in
  if (length octets =? mac_length_bytes)%nat then parse_octets octets else None.

(** A digit of [std::hex]. *)
Definition hex_digit (v : Z) : ascii :=
  ascii_of_nat (Z.to_nat (if v <? 10 then v + 48 else v + 87)).
Definition print_octet (o : Z) : string := String (hex_digit (o / 16)) (String (hex_digit (o mod 16)) EmptyString).

(** operator<<. *)
Fixpoint print_mac (m : MacAddress) : string :=
  match m with
  | [] => EmptyString
  | [o] => print_octet o
  | o :: m' => String.append (print_octet o) (String ":" (print_mac m'))
  end.

(** * BTP headers *)

(** HeaderA and HeaderB: two ports, or a port and its info. *)
Record HeaderA := mk_HeaderA { a_destination_port : Z; source_port : Z }.
Record HeaderB := mk_HeaderB { b_destination_port : Z; destination_port_info : Z }.

Definition serialize_HeaderA (hdr : HeaderA) : list Z :=
  serialize_int 2 (a_destination_port hdr) ++ serialize_int 2 (source_port hdr).
Definition deserialize_HeaderA : Reader HeaderA :=
  d <~ deserialize_uint 2; s <~ deserialize_uint 2; ret (mk_HeaderA d s).
Definition serialize_HeaderB (hdr : HeaderB) : list Z :=
  serialize_int 2 (b_destination_port hdr) ++ serialize_int 2 (destination_port_info hdr).
Definition deserialize_HeaderB : Reader HeaderB :=
  d <~ deserialize_uint 2; i <~ deserialize_uint 2; ret (mk_HeaderB d i).

(** * Reading what was written *)

(** [reads d bs a]: on a stream that starts with [bs], [d] returns [a] and
    leaves the rest. *)
Definition reads {A} (d : Reader A) (bs : list Z) (a : A) : Prop :=
  forall rest e, d (mk_input (bs ++ rest) e) = (Some a, mk_input rest e).

Lemma reads_ret {A} (a : A) : reads (ret a) [] a.
Proof. intros rest e. reflexivity. Qed.

Lemma reads_bind {A B} (d : Reader A) (k : A -> Reader B) bs1 bs2 a b :
  reads d bs1 a -> reads (k a) bs2 b -> reads (bind d k) (bs1 ++ bs2) b.
Proof. intros Hd Hk rest e. unfold bind. rewrite <- app_assoc, Hd. apply Hk. Qed.

Lemma reads_last {A B} (d : Reader A) (k : A -> Reader B) bs a b :
  reads d bs a -> reads (k a) [] b -> reads (bind d k) bs b.
Proof. intros Hd Hk. rewrite <- (app_nil_r bs). eapply reads_bind; eassumption. Qed.

(** [frames d n P]: on any octets, [d] takes exactly [n] of them and returns
    a value related to them by [P], or throws when there are fewer. *)
Definition frames {A} (d : Reader A) (n : nat) (P : list Z -> A -> Prop) : Prop := forall s e, octets s ->
  if (n <=? length s)%nat then exists a, d (mk_input s e) = (Some a, mk_input (drop n s) e) /\ P (take n s) a
  else d (mk_input s e) = (None, mk_input [] (failed e IncompleteData)).

Lemma frames_ret {A} (a : A) : frames (ret a) 0 (fun bs x => bs = [] /\ x = a).
Proof. intros s e Hs. cbn [Nat.leb]. exists a. auto. Qed.

Lemma frames_bind {A B} (d : Reader A) (k : A -> Reader B) n m P Q :
  frames d n P -> (forall a, frames (k a) m (Q a)) ->
  frames (bind d k) (n + m) (fun bs b => exists bs1 bs2 a, bs = bs1 ++ bs2 /\ P bs1 a /\ Q a bs2 b).
Proof.
  intros Hd Hk s e Hs. specialize (Hd s e Hs). unfold bind. destruct (Nat.leb_spec n (length s)) as [Hn|Hn].
  - destruct Hd as (a & -> & Ha). specialize (Hk a (drop n s) e (octets_drop _ _ Hs)). rewrite length_drop in Hk.
    destruct (Nat.leb_spec (n + m) (length s)) as [Hm|Hm].
    + rewrite (proj2 (Nat.leb_le m _)) in Hk by lia. destruct Hk as (b & -> & Hb). exists b. rewrite drop_drop. split; [reflexivity|].
      exists (take n s), (take m (drop n s)), a. split; [|auto]. rewrite <- (take_drop n (take (n + m) s)) at 1.
      rewrite take_take, skipn_firstn_comm. repeat f_equal; lia.
    + now rewrite (proj2 (Nat.leb_gt m _)) in Hk by lia.
  - rewrite Hd, (proj2 (Nat.leb_gt (n + m) _)) by lia. reflexivity.
Qed.

Lemma frames_weaken {A} (d : Reader A) n (P Q : list Z -> A -> Prop) :
  frames d n P -> (forall bs a, length bs = n -> octets bs -> P bs a -> Q bs a) -> frames d n Q.
Proof.
  intros H HPQ s e Hs. specialize (H s e Hs). destruct (Nat.leb_spec n (length s)) as [Hn|]; [|exact H].
  destruct H as (a & E & HP). exists a. split; [exact E|]. apply HPQ; [len|auto with asn|exact HP].
Qed.

(** ** Integers and addresses *)

Lemma reads_load bs : reads (load_binary (length bs)) bs bs.
Proof.
  intros rest e. unfold load_binary. cbn [stream error_code]. rewrite take_app_length, drop_app_length, Nat.eqb_refl. reflexivity.
Qed.

Lemma frames_load n : frames (load_binary n) n (fun bs x => x = bs).
Proof.
  intros s e Hs. unfold load_binary. cbn [stream error_code]. rewrite length_take. destruct (Nat.leb_spec n (length s)) as [H|H].
  - rewrite Nat.min_l, Nat.eqb_refl by lia. eauto.
  - rewrite Nat.min_r, (proj2 (Nat.eqb_neq _ _)) by lia. rewrite drop_ge by lia. reflexivity.
Qed.

Lemma reads_uint n v : 0 <= v < 2 ^ (8 * Z.of_nat n) -> reads (deserialize_uint n) (serialize_int n v) v.
Proof.
  intros Hv. unfold deserialize_uint, serialize_int. eapply reads_last.
  - rewrite <- (length_be_bytes n v) at 1. apply reads_load.
  - rewrite be_val_be_bytes, Z.mod_small by assumption. apply reads_ret.
Qed.

Lemma reads_sint n v :
  (0 < n)%nat -> - 2 ^ (8 * Z.of_nat n - 1) <= v < 2 ^ (8 * Z.of_nat n - 1) -> reads (deserialize_sint n) (serialize_int n v) v.
Proof.
  intros Hn Hv. unfold deserialize_sint, serialize_int. eapply reads_last.
  - rewrite <- (length_be_bytes n v) at 1. apply reads_load.
  - rewrite be_val_be_bytes, swrap_mod, swrap_small by lia. apply reads_ret.
Qed.

(** An integer that fills its octets is restored by them. *)
Lemma frames_uint n :
  frames (deserialize_uint n) n (fun bs v => 0 <= v < 2 ^ (8 * Z.of_nat n) /\ serialize_int n v = bs).
Proof.
  unfold deserialize_uint. rewrite <- (Nat.add_0_r n) at 2. eapply frames_weaken.
  - eapply frames_bind; [apply frames_load|]. intros a. apply frames_ret.
  - intros bs v Hl Ho (bs1 & bs2 & a & -> & -> & -> & ->). rewrite app_nil_r in *. rewrite Nat.add_0_r in Hl.
    rewrite <- Hl. split; [rewrite <- pow256 by lia; now apply be_val_bound|now apply be_bytes_be_val].
Qed.

Lemma be_bytes_swrap n v : (0 < n)%nat -> be_bytes n (swrap (8 * Z.of_nat n) v) = be_bytes n v.
Proof.
  intros Hn. apply bytes_bits_inj; auto with asn. rewrite !bytes_bits_be_bytes.
  rewrite <- (bits_of_mod _ (8 * n) (swrap _ _)), <- (bits_of_mod _ (8 * n) v) by lia. f_equal.
  replace (Z.of_nat (8 * n)) with (8 * Z.of_nat n) by lia. set (w := 8 * Z.of_nat n). unfold swrap.
  rewrite Zminus_mod_idemp_l. f_equal. lia.
Qed.

Lemma frames_sint n : (0 < n)%nat ->
  frames (deserialize_sint n) n
    (fun bs v => - 2 ^ (8 * Z.of_nat n - 1) <= v < 2 ^ (8 * Z.of_nat n - 1) /\ serialize_int n v = bs).
Proof.
  intros Hn. unfold deserialize_sint. rewrite <- (Nat.add_0_r n) at 2. eapply frames_weaken.
  - eapply frames_bind; [apply frames_load|]. intros a. apply frames_ret.
  - intros bs v Hl Ho (bs1 & bs2 & a & -> & -> & -> & ->). rewrite app_nil_r in *. rewrite Nat.add_0_r in Hl.
    split; [apply swrap_bound; lia|]. unfold serialize_int. rewrite be_bytes_swrap by assumption.
    rewrite <- Hl. now apply be_bytes_be_val.
Qed.

Lemma serialize_mac_octets m : octets m -> serialize_mac m = m.
Proof.
  induction 1 as [|o m Ho Hm IH]; [reflexivity|]. unfold serialize_mac in *. cbn [flat_map]. rewrite IH.
  change (serialize_int 1 o ++ m) with (u8 o :: m). now rewrite u8_small.
Qed.

Lemma reads_octets m : octets m -> reads (deserialize_octets (length m)) (serialize_mac m) m.
Proof.
  induction 1 as [|o m Ho Hm IH]; [apply reads_ret|]. cbn [length deserialize_octets]. unfold serialize_mac in *. cbn [flat_map].
  eapply reads_bind; [apply (reads_uint 1); exact Ho|]. eapply reads_last; [exact IH|]. apply reads_ret.
Qed.

Lemma reads_mac m : mac_ok m -> reads deserialize_mac (serialize_mac m) m.
Proof. intros [Hl Ho]. unfold deserialize_mac. rewrite <- Hl. now apply reads_octets. Qed.

Lemma frames_octets n : frames (deserialize_octets n) n (fun bs m => m = bs).
Proof.
  induction n as [|n IH]; cbn [deserialize_octets].
  - eapply frames_weaken; [apply frames_ret|]. intros bs a _ _ [-> ->]. reflexivity.
  - change (S n) with (1 + n)%nat. rewrite <- (Nat.add_0_r n) at 1. eapply frames_weaken.
    + eapply frames_bind; [apply frames_uint|]. intros o. eapply frames_bind; [exact IH|]. intros os. apply frames_ret.
    + intros bs m Hl Ho (b1 & b2 & o & -> & [Hv Eo] & b3 & b4 & os & -> & -> & -> & ->). rewrite app_nil_r.
      rewrite <- Eo. change (serialize_int 1 o ++ b3) with (u8 o :: b3). now rewrite u8_small.
Qed.

Lemma frames_mac : frames deserialize_mac 6 (fun bs m => mac_ok m /\ serialize_mac m = bs).
Proof.
  eapply frames_weaken; [apply frames_octets|]. intros bs m Hl Ho ->. split; [now split|now apply serialize_mac_octets].
Qed.

(** * The contract of a header *)

(** A type of fixed length on the wire: what is serialized is read back, and
    any octets of that length are some value, which serializes to them
    again. *)
Class Wire (H : Type) := {
  wire_ser : H -> list Z;
  wire_de : Reader H;
  wire_len : nat;
  wire_ok : H -> Prop;
  wire_octets h : octets (wire_ser h);
  wire_reads h : wire_ok h -> reads wire_de (wire_ser h) h;
  wire_frames : frames wire_de wire_len (fun bs h => wire_ok h /\ wire_ser h = bs)
}.

Lemma frames_cast {A} (d : Reader A) n m P : frames d n P -> n = m -> frames d m P.
Proof. now intros H ->. Qed.

Lemma wire_length {H} {W : Wire H} h : wire_ok h -> length (wire_ser h) = wire_len.
Proof.
  intros Hok. pose proof (wire_reads h Hok [] Ok) as Hr. pose proof (wire_frames (wire_ser h) Ok (wire_octets h)) as Hf.
  rewrite app_nil_r in Hr. rewrite Hr in Hf. destruct (Nat.leb_spec wire_len (length (wire_ser h))) as [Hl|Hl]; [|discriminate].
  destruct Hf as (a & [= <- E] & _). symmetry in E. apply (f_equal length) in E. rewrite length_drop in E. cbn [length] in E. lia.
Qed.

Create HintDb archive discriminated.
#[export] Hint Resolve reads_uint reads_sint reads_mac frames_uint frames_sint frames_mac reads_ret frames_ret : archive.

(** Octets of serializers. *)
Lemma serialize_int_octets n v : octets (serialize_int n v).
Proof. apply be_bytes_octets. Qed.
Lemma serialize_mac_all m : octets (serialize_mac m).
Proof.
  unfold serialize_mac. induction m as [|o m IH]; [constructor|]. cbn [flat_map]. apply octets_app. auto using serialize_int_octets.
Qed.
#[export] Hint Resolve serialize_int_octets serialize_mac_all : archive.
Ltac octet_fields := repeat first [solve [auto with archive] | apply octets_app; split].

(** The range of an integer field. *)
Ltac int_range := cbn in *; lia.

(** Read the fields of a header one after the other. *)
Ltac read_field := first [apply reads_uint; int_range | apply reads_sint; int_range | solve [eauto with archive]].
Ltac read_fields :=
  first [eapply reads_bind; [read_field|]; read_fields | eapply reads_last; [read_field|]; read_fields | apply reads_ret | idtac].

(** Frame the fields of a header one after the other, and name what is known
    of each. *)
Ltac frame_field := first [apply frames_uint | apply frames_sint; lia | solve [eauto with archive]].
Ltac open_frame H :=
  lazymatch type of H with
  | exists _, _ => let x := fresh "x" in destruct H as [x H]; open_frame H
  | _ /\ _ => let H' := fresh "F" in destruct H as [H' H]; open_frame H'; open_frame H
  | _ => idtac
  end.
Ltac frame_fields :=
  eapply frames_cast; [eapply frames_weaken;
    [repeat (eapply frames_bind; [frame_field|intros ?]); apply frames_ret
    |let H := fresh "F" in intros ? ? _ ? H; cbv beta in H; open_frame H; subst; rewrite ?app_nil_r]
  |reflexivity].

(** ** BTP *)

Definition HeaderA_ok (h : HeaderA) : Prop := 0 <= a_destination_port h < 2 ^ 16 /\ 0 <= source_port h < 2 ^ 16.
Definition HeaderB_ok (h : HeaderB) : Prop := 0 <= b_destination_port h < 2 ^ 16 /\ 0 <= destination_port_info h < 2 ^ 16.

#[export] Instance HeaderA_wire : Wire HeaderA.
Proof.
  refine {| wire_ser := serialize_HeaderA; wire_de := deserialize_HeaderA; wire_len := 4; wire_ok := HeaderA_ok |}.
  - intros h. unfold serialize_HeaderA. octet_fields.
  - intros [d s] [Hd Hs]. unfold serialize_HeaderA, deserialize_HeaderA. read_fields.
  - unfold deserialize_HeaderA. frame_fields. split; [split; int_range|reflexivity].
Defined.

#[export] Instance HeaderB_wire : Wire HeaderB.
Proof.
  refine {| wire_ser := serialize_HeaderB; wire_de := deserialize_HeaderB; wire_len := 4; wire_ok := HeaderB_ok |}.
  - intros h. unfold serialize_HeaderB. octet_fields.
  - intros [d s] [Hd Hs]. unfold serialize_HeaderB, deserialize_HeaderB. read_fields.
  - unfold deserialize_HeaderB. frame_fields. split; [split; int_range|reflexivity].
Defined.

#[export] Instance MacAddress_wire : Wire MacAddress.
Proof.
  refine {| wire_ser := serialize_mac; wire_de := deserialize_mac; wire_len := 6; wire_ok := mac_ok |};
    auto using serialize_mac_all, reads_mac, frames_mac.
Defined.

(** ** MAC addresses as text and in order *)

Lemma xdigit_hex v : 0 <= v < 16 -> xdigit (hex_digit v) = Some v /\ Ascii.eqb (hex_digit v) ":" = false.
Proof.
  intros Hv. set (P v := match xdigit (hex_digit v) with Some x => x =? v | None => false end && negb (Ascii.eqb (hex_digit v) ":")).
  assert (H : P v = true) by (apply (small_cases P 16); [vm_compute; reflexivity|lia]). unfold P in H.
  destruct (xdigit (hex_digit v)); [|discriminate]. apply andb_true_iff in H as [H1%Z.eqb_eq H2%negb_true_iff]. now subst.
Qed.

Lemma octet_nibbles o : octet o -> 0 <= o / 16 < 16 /\ 0 <= o mod 16 < 16 /\ 16 * (o / 16) + o mod 16 = o.
Proof. unfold octet. intros Ho. Z.to_euclidean_division_equations. lia. Qed.

Lemma parse_print_octet o : octet o -> parse_octet (print_octet o) = Some o.
Proof.
  intros (Hh & Hl & E)%octet_nibbles. unfold parse_octet, print_octet.
  now rewrite (proj1 (xdigit_hex _ Hh)), (proj1 (xdigit_hex _ Hl)), E.
Qed.

Lemma split_print_octet o s : octet o ->
  split_colon (String.append (print_octet o) s) =
  match split_colon s with w :: ws => String.append (print_octet o) w :: ws | [] => [] end.
Proof.
  intros (Hh & Hl & _)%octet_nibbles. unfold print_octet. cbn [String.append split_colon].
  rewrite (proj2 (xdigit_hex _ Hh)), (proj2 (xdigit_hex _ Hl)).
  destruct (split_colon s) eqn:E; [destruct s; cbn in E; [discriminate|]|reflexivity].
  destruct (Ascii.eqb _ _); [discriminate|]. destruct (split_colon s); discriminate.
Qed.

Lemma split_print_mac m : octets m -> m <> [] -> split_colon (print_mac m) = map print_octet m.
Proof.
  induction 1 as [|o m Ho Hm IH]; [easy|]. intros _. destruct m as [|o' m].
  - exact (split_print_octet o EmptyString Ho).
  - change (print_mac (o :: o' :: m)) with (String.append (print_octet o) (String ":" (print_mac (o' :: m)))).
    rewrite split_print_octet by assumption. cbn [split_colon Ascii.eqb Bool.eqb]. rewrite IH by easy. reflexivity.
Qed.

Lemma parse_octets_print m : octets m -> parse_octets (map print_octet m) = Some m.
Proof.
  induction 1 as [|o m Ho Hm IH]; [reflexivity|]. cbn [map parse_octets]. now rewrite parse_print_octet, IH.
Qed.

Lemma xdigit_range c v : xdigit c = Some v -> 0 <= v < 16.
Proof.
  unfold xdigit. set (n := Z.of_nat (nat_of_ascii c)). clearbody n.
  repeat (match goal with |- context [if ?b then _ else _] => destruct b eqn:? end; [intros [= <-]; bool_hyps; lia|]). discriminate.
Qed.

Lemma parse_octets_ok l m : parse_octets l = Some m -> length m = length l /\ octets m.
Proof.
  revert m. induction l as [|s l IH]; intros m; cbn [parse_octets].
  - intros [= <-]. split; [reflexivity|constructor].
  - destruct (parse_octet s) as [o|] eqn:Eo; [|discriminate]. destruct (parse_octets l) as [os|]; [|discriminate]. intros [= <-].
    destruct (IH os eq_refl) as [Hl Ho]. split; [cbn; lia|]. apply octets_cons. split; [|exact Ho].
    unfold parse_octet in Eo. destruct s as [|a [|b [|? ?]]]; try discriminate.
    destruct (xdigit a) eqn:Ea; [|discriminate]. destruct (xdigit b) eqn:Eb; [|discriminate]. injection Eo as <-.
    apply xdigit_range in Ea, Eb. unfold octet. lia.
Qed.

(** The text of an address parses to it, and whatever parses is an address
    of six octets, whose text parses to it again. *)
Theorem mac_address_text m str :
  (mac_ok m -> parse_mac_address (print_mac m) = Some m) /\
  (parse_mac_address str = Some m -> mac_ok m /\ parse_mac_address (print_mac m) = Some m).
Proof.
  assert (H : mac_ok m -> parse_mac_address (print_mac m) = Some m).
  { intros [Hl Ho]. unfold parse_mac_address. rewrite split_print_mac by (destruct m; easy).
    rewrite length_map, Hl. cbn [Nat.eqb mac_length_bytes]. now apply parse_octets_print. }
  split; [exact H|]. unfold parse_mac_address at 1.
  destruct (Nat.eqb_spec (length (split_colon str)) mac_length_bytes) as [E|]; [|discriminate].
  intros Hp. apply parse_octets_ok in Hp as [Hl Ho]. assert (mac_ok m) by (split; [congruence|exact Ho]). auto.
Qed.

Lemma mac_address_text_witness :
  parse_mac_address "0a:00:FF:10:c3:07"%string = Some [10; 0; 255; 16; 195; 7] /\ mac_ok [10; 0; 255; 16; 195; 7].
Proof.
  assert (E : parse_mac_address "0a:00:FF:10:c3:07"%string = Some [10; 0; 255; 16; 195; 7]) by reflexivity.
  split; [exact E|]. apply (mac_address_text [10; 0; 255; 16; 195; 7] "0a:00:FF:10:c3:07"%string). exact E.
Defined.

Lemma mac_lt_spec l r : mac_lt l r = true <-> exists i x y, l !! i = Some x /\ r !! i = Some y /\ x < y.
Proof.
  revert r. induction l as [|x l IH]; intros [|y r]; cbn [mac_lt]; try (split; [discriminate|intros (i & ? & ? & ? & ? & ?); now destruct i]).
  destruct (Z.ltb_spec x y) as [H|H].
  - split; [intros _; exists 0%nat, x, y; auto|reflexivity].
  - rewrite IH. split; intros (i & a & b & Ha & Hb & Hab).
    + now exists (S i), a, b.
    + destruct i as [|i]; cbn in Ha, Hb; [injection Ha as ->; injection Hb as ->; lia|now exists i, a, b].
Qed.

(** operator< holds as soon as any octet is less, so that of two addresses
    each can be less than the other: it is no order.  It holds one way at
    least for any two different addresses. *)
Theorem mac_order l r : mac_ok l -> mac_ok r ->
  (mac_lt l r = false /\ mac_lt r l = false <-> l = r) /\
  (mac_lt l r = true /\ mac_lt r l = true <->
     exists i j, (exists x y, l !! i = Some x /\ r !! i = Some y /\ x < y) /\ (exists x y, l !! j = Some x /\ r !! j = Some y /\ y < x)).
Proof.
  unfold MacAddress in *. intros [Hl _] [Hr _]. split.
  - rewrite <- !not_true_iff_false, !mac_lt_spec. split.
    + intros [H1 H2]. apply (list_eq (A:=Z)). intros i. destruct (l !! i) as [x|] eqn:El, (r !! i) as [y|] eqn:Er; try congruence.
      * destruct (Z.lt_total x y) as [H|[->|H]]; [destruct H1; now exists i, x, y|congruence|destruct H2; now exists i, y, x].
      * apply lookup_lt_Some in El. apply lookup_ge_None in Er. lia.
      * apply lookup_lt_Some in Er. apply lookup_ge_None in El. lia.
    + intros ->. split; intros (i & x & y & E1 & E2 & H); rewrite E1 in E2; injection E2 as ->; lia.
  - rewrite !mac_lt_spec. split.
    + intros [(i & x & y & ?) (j & x' & y' & ? & ? & ?)]. exists i, j. split; [now exists x, y|now exists y', x'].
    + intros (i & j & (x & y & ?) & (x' & y' & ? & ? & ?)). split; [now exists i, x, y|now exists j, y', x'].
Qed.

Lemma mac_order_witness :
  let l := [0; 1; 0; 0; 0; 0] in let r := [1; 0; 0; 0; 0; 0] in mac_lt l r = true /\ mac_lt r l = true.
Proof.
  apply (mac_order [0; 1; 0; 0; 0; 0] [1; 0; 0; 0; 0; 0]).
  - split; [reflexivity|]. repeat constructor; unfold octet; lia.
  - split; [reflexivity|]. repeat constructor; unfold octet; lia.
  - exists 0%nat, 1%nat. split; [exists 0, 1|exists 1, 0]; cbn; auto with zarith.
Defined.
