(* ===== verification/GnWire.v ===== *)
(** The GeoNetworking headers on the wire and their parser: address.cpp,
    traffic_class.cpp, position_vector.cpp, basic_header.cpp,
    common_header.cpp, beacon_header.cpp, tsb_header.cpp, shb_header.cpp,
    dcc_field.cpp, dcc_mco_field.cpp, gbc_gac_header.cpp, gbc_header.cpp,
    header_variant.cpp and parser.cpp under vanetza/geonet/.

    An enumeration that is cast from a field of the wire is the number of the
    field, since the cast does not check it; its enumerators are constants. *)

From S2P Require Import Prelude Archive GnNumbers.

Open Scope Z_scope.
Open Scope archive_scope.

(** * Fields *)

(** ** SequenceNumber, Timestamp, Lifetime *)

Definition serialize_SequenceNumber (sn : SequenceNumber.t) : list Z := serialize_int 2 sn.
Definition deserialize_SequenceNumber : Reader SequenceNumber.t := deserialize_uint 2.
Definition serialize_Timestamp (ts : Timestamp.t) : list Z := serialize_int 4 ts.
Definition deserialize_Timestamp : Reader Timestamp.t := deserialize_uint 4.
Definition serialize_Lifetime (lifetime : Lifetime.t) : list Z := serialize_int 1 lifetime.
Definition deserialize_Lifetime : Reader Lifetime.t := deserialize_uint 1.

(** ** TrafficClass: the octet [m_tc] *)

Module TrafficClass.

Definition t : Type := Z.
Definition scf_mask : Z := 128.
Definition channel_offload_mask : Z := 64.
Definition tc_id_mask : Z := 63.

Definition store_carry_forward (m_tc : t) : bool := negb (m_tc .& scf_mask =? 0).
Definition set_store_carry_forward (flag : bool) (m_tc : t) : t :=
  if flag then m_tc .| scf_mask else m_tc .& (255 - scf_mask).
Definition channel_offload (m_tc : t) : bool := negb (m_tc .& channel_offload_mask =? 0).
Definition set_channel_offload (flag : bool) (m_tc : t) : t :=
  if flag then m_tc .| channel_offload_mask else m_tc .& (255 - channel_offload_mask).
Definition tc_id (m_tc : t) : Z := BitNumber 32 6 (m_tc .& tc_id_mask).
Definition set_tc_id (id : Z) (m_tc : t) : t := (m_tc .& (255 - tc_id_mask)) .| (id .& tc_id_mask).

(** The constructor of three fields; [tc] is a BitNumber of six bits. *)
Definition make (scf ch_offload : bool) (tc : Z) : t :=
  set_tc_id (BitNumber 32 6 tc) (set_channel_offload ch_offload (set_store_carry_forward scf 0)).

Inductive Profile := DP0 | DP1 | DP2 | DP3.
Definition map_tc_onto_profile (m_tc : t) : Profile :=
  if tc_id m_tc =? 0 then DP0 else if tc_id m_tc =? 1 then DP1 else if tc_id m_tc =? 2 then DP2 else DP3.

End TrafficClass.

Definition serialize_TrafficClass (tc : TrafficClass.t) : list Z := serialize_int 1 tc.
Definition deserialize_TrafficClass : Reader TrafficClass.t := deserialize_uint 1.

(** ** Address *)

Definition manually_configured_mask : Z := 32768.
Definition station_type_mask : Z := 31744.
Definition country_code_mask : Z := 1023.
Definition station_type_shift : Z := 10.

Record Address := mk_Address {
  manually_configured : bool;
  station_type : Z; (* StationType *)
  country_code : Z; (* BitNumber<unsigned, 10> *)
  mid : MacAddress
}.

#[export] Instance Address_eq_dec : EqDecision Address.
Proof. solve_decision. Defined.

Definition Address_default : Address := mk_Address false 0 0 (replicate 6 0).

Definition serialize_Address (addr : Address) : list Z :=
  let w := country_code addr in
  let w := w .| ((station_type addr ≪ station_type_shift) .& station_type_mask) in
  let w := w .| (if manually_configured addr then manually_configured_mask else 0) in
  serialize_int 2 w ++ serialize_mac (mid addr).

Definition deserialize_Address : Reader Address :=
  tmp <~ deserialize_uint 2;
  m <~ deserialize_mac;
  ret (mk_Address (negb (tmp .& manually_configured_mask =? 0))
                  ((tmp .& station_type_mask) ≫ station_type_shift)
                  (BitNumber 32 10 (tmp .& country_code_mask)) m).

(** ** LongPositionVector *)

Record LongPositionVector := mk_LongPositionVector {
  gn_addr : Address;
  timestamp : Timestamp.t;
  latitude : Z;  (* int32_t, tenths of a microdegree *)
  longitude : Z;
  position_accuracy_indicator : bool;
  speed : Z;     (* BitNumber<uint_fast16_t, 15>, hundredths of m/s *)
  heading : Z    (* uint16_t, tenths of a degree *)
}.

#[export] Instance LongPositionVector_eq_dec : EqDecision LongPositionVector.
Proof. solve_decision. Defined.

Definition LongPositionVector_default : LongPositionVector := mk_LongPositionVector Address_default 0 0 0 false 0 0.

Definition is_empty (pv : LongPositionVector) : bool := bool_decide (pv = LongPositionVector_default).

(** The limits are 90, 180 and 360 degrees in the units of the fields. *)
Definition is_valid (pv : LongPositionVector) : bool :=
  let limit_lat := 900000000 in
  let limit_lon := 1800000000 in
  let limit_hdg := 3600 in
  if is_empty pv then false
  else if (latitude pv <? - limit_lat) || (limit_lat <? latitude pv) then false
  else if (longitude pv <? - limit_lon) || (limit_lon <? longitude pv) then false
  else if limit_hdg <? heading pv then false
  else true.

Definition serialize_LongPositionVector (lpv : LongPositionVector) : list Z :=
  serialize_Address (gn_addr lpv) ++ serialize_Timestamp (timestamp lpv) ++
  serialize_int 4 (latitude lpv) ++ serialize_int 4 (longitude lpv) ++
  serialize_int 2 (u16 (speed lpv) .| (if position_accuracy_indicator lpv then 32768 else 0)) ++
  serialize_int 2 (heading lpv).

Definition deserialize_LongPositionVector : Reader LongPositionVector :=
  a <~ deserialize_Address; ts <~ deserialize_Timestamp;
  lat <~ deserialize_sint 4; lon <~ deserialize_sint 4;
  paiAndSpeed <~ deserialize_uint 2;
  h <~ deserialize_uint 2;
  ret (mk_LongPositionVector a ts lat lon (negb (paiAndSpeed .& 32768 =? 0)) (BitNumber 64 15 paiAndSpeed) h).

Record ShortPositionVector := mk_ShortPositionVector {
  spv_gn_addr : Address; spv_timestamp : Timestamp.t; spv_latitude : Z; spv_longitude : Z
}.
Definition ShortPositionVector_of (lpv : LongPositionVector) : ShortPositionVector :=
  mk_ShortPositionVector (gn_addr lpv) (timestamp lpv) (latitude lpv) (longitude lpv).

(** ** DccField *)

Record DccMcoField := mk_DccMcoField { cbr_l0_hop : Z; cbr_l1_hop : Z; m_output_power : Z }.

Definition DccMcoField_of (field : Z) : DccMcoField :=
  mk_DccMcoField (u8 (field ≫ 24)) (u8 (field ≫ 16)) (BitNumber 32 5 (field ≫ 11)).
Definition DccMcoField_raw (mco : DccMcoField) : Z :=
  let field := cbr_l0_hop mco in
  let field := u32 (field ≪ 8) .| cbr_l1_hop mco in
  let field := u32 (field ≪ 5) .| m_output_power mco in
  u32 (field ≪ 11).
Definition set_output_power (dbm : Z) (mco : DccMcoField) : DccMcoField :=
  mk_DccMcoField (cbr_l0_hop mco) (cbr_l1_hop mco) (BitNumber 32 5 (Z.min dbm 31)).

Inductive DccField := DccMco (mco : DccMcoField) | DccRaw (raw : Z).
Definition get_dcc_mco (field : DccField) : option DccMcoField :=
  match field with DccMco mco => Some mco | DccRaw raw => Some (DccMcoField_of raw) end.

Definition DccField_raw (field : DccField) : Z :=
  match field with DccMco mco => DccMcoField_raw mco | DccRaw raw => raw end.
Definition serialize_DccField (field : DccField) : list Z := serialize_int 4 (DccField_raw field).
Definition deserialize_DccField : Reader DccField := raw <~ deserialize_uint 4; ret (DccRaw raw).

(** * Headers *)

(** ** BasicHeader *)

Definition NextHeaderBasic_Any : Z := 0.
Definition NextHeaderBasic_Common : Z := 1.
Definition NextHeaderBasic_Secured : Z := 2.

Record BasicHeader := mk_BasicHeader {
  version : Z; (* BitNumber<unsigned, 4> *)
  basic_next_header : Z;
  basic_reserved : Z;
  lifetime : Lifetime.t;
  hop_limit : Z
}.
Definition BasicHeader_length_bytes : nat := 4.

Definition serialize_BasicHeader (hdr : BasicHeader) : list Z :=
  serialize_int 1 (u8 (u8 (version hdr) ≪ 4) .| (basic_next_header hdr .& 15)) ++
  serialize_int 1 (basic_reserved hdr) ++ serialize_Lifetime (lifetime hdr) ++ serialize_int 1 (hop_limit hdr).

Definition deserialize_BasicHeader : Reader BasicHeader :=
  versionAndNextHeader <~ deserialize_uint 1;
  r <~ deserialize_uint 1; l <~ deserialize_Lifetime; h <~ deserialize_uint 1;
  ret (mk_BasicHeader (BitNumber 32 4 (versionAndNextHeader ≫ 4)) (versionAndNextHeader .& 15) r l h).

(** ** CommonHeader *)

Definition NextHeaderCommon_Any : Z := 0.
Definition NextHeaderCommon_BTP_A : Z := 1.
Definition NextHeaderCommon_BTP_B : Z := 2.
Definition NextHeaderCommon_IPv6 : Z := 3.

Definition HeaderType : Type := Z.
Definition HeaderType_Any : HeaderType := 0.
Definition HeaderType_Beacon : HeaderType := 16.
Definition HeaderType_GeoBroadcast_Circle : HeaderType := 64.
Definition HeaderType_GeoBroadcast_Rect : HeaderType := 65.
Definition HeaderType_GeoBroadcast_Elip : HeaderType := 66.
Definition HeaderType_TSB_Single_Hop : HeaderType := 80.
Definition HeaderType_TSB_Multi_Hop : HeaderType := 81.

Record CommonHeader := mk_CommonHeader {
  common_next_header : Z; (* NextHeaderCommon *)
  reserved1 : Z;          (* BitNumber<unsigned, 4> *)
  header_type : HeaderType;
  traffic_class : TrafficClass.t;
  flags : Z;
  payload : Z;
  maximum_hop_limit : Z;
  reserved2 : Z
}.
Definition CommonHeader_length_bytes : nat := 8.

Definition serialize_CommonHeader (hdr : CommonHeader) : list Z :=
  serialize_int 1 (u8 (u8 (common_next_header hdr) ≪ 4) .| reserved1 hdr) ++
  serialize_int 1 (header_type hdr) ++ serialize_TrafficClass (traffic_class hdr) ++ serialize_int 1 (flags hdr) ++
  serialize_int 2 (payload hdr) ++ serialize_int 1 (maximum_hop_limit hdr) ++ serialize_int 1 (reserved2 hdr).

Definition deserialize_CommonHeader : Reader CommonHeader :=
  nextHeaderAndReserved <~ deserialize_uint 1;
  ht <~ deserialize_uint 1; tc <~ deserialize_TrafficClass; f <~ deserialize_uint 1;
  p <~ deserialize_uint 2; m <~ deserialize_uint 1; r <~ deserialize_uint 1;
  ret (mk_CommonHeader (nextHeaderAndReserved ≫ 4) (BitNumber 32 4 (nextHeaderAndReserved .& 15)) ht tc f p m r).

(** ** Extended headers *)

Record BeaconHeader := mk_BeaconHeader { beacon_source_position : LongPositionVector }.
Record TsbHeader := mk_TsbHeader {
  tsb_sequence_number : SequenceNumber.t; tsb_reserved : Z; tsb_source_position : LongPositionVector
}.
Record ShbHeader := mk_ShbHeader { shb_source_position : LongPositionVector; dcc : DccField }.
Record GeoBroadcastHeader := mk_GeoBroadcastHeader {
  sequence_number : SequenceNumber.t;
  gbc_reserved1 : Z;
  source_position : LongPositionVector;
  geo_area_pos_latitude : Z;
  geo_area_pos_longitude : Z;
  distance_a : Z;
  distance_b : Z;
  angle : Z;
  gbc_reserved2 : Z
}.

Definition serialize_BeaconHeader (hdr : BeaconHeader) : list Z := serialize_LongPositionVector (beacon_source_position hdr).
Definition deserialize_BeaconHeader : Reader BeaconHeader :=
  p <~ deserialize_LongPositionVector; ret (mk_BeaconHeader p).

Definition serialize_TsbHeader (hdr : TsbHeader) : list Z :=
  serialize_SequenceNumber (tsb_sequence_number hdr) ++ serialize_int 2 (tsb_reserved hdr) ++
  serialize_LongPositionVector (tsb_source_position hdr).
Definition deserialize_TsbHeader : Reader TsbHeader :=
  sn <~ deserialize_SequenceNumber; r <~ deserialize_uint 2; p <~ deserialize_LongPositionVector;
  ret (mk_TsbHeader sn r p).

Definition serialize_ShbHeader (hdr : ShbHeader) : list Z :=
  serialize_LongPositionVector (shb_source_position hdr) ++ serialize_DccField (dcc hdr).
Definition deserialize_ShbHeader : Reader ShbHeader :=
  p <~ deserialize_LongPositionVector; d <~ deserialize_DccField; ret (mk_ShbHeader p d).

Definition serialize_GeoBroadcastHeader (hdr : GeoBroadcastHeader) : list Z :=
  serialize_SequenceNumber (sequence_number hdr) ++ serialize_int 2 (gbc_reserved1 hdr) ++
  serialize_LongPositionVector (source_position hdr) ++
  serialize_int 4 (geo_area_pos_latitude hdr) ++ serialize_int 4 (geo_area_pos_longitude hdr) ++
  serialize_int 2 (distance_a hdr) ++ serialize_int 2 (distance_b hdr) ++ serialize_int 2 (angle hdr) ++
  serialize_int 2 (gbc_reserved2 hdr).
Definition deserialize_GeoBroadcastHeader : Reader GeoBroadcastHeader :=
  sn <~ deserialize_SequenceNumber; r1 <~ deserialize_uint 2; p <~ deserialize_LongPositionVector;
  lat <~ deserialize_sint 4; lon <~ deserialize_sint 4;
  a <~ deserialize_uint 2; b <~ deserialize_uint 2; an <~ deserialize_uint 2; r2 <~ deserialize_uint 2;
  ret (mk_GeoBroadcastHeader sn r1 p lat lon a b an r2).

(** ** HeaderVariant *)

Inductive HeaderVariant :=
| Beacon (hdr : BeaconHeader)
| GeoBroadcast (hdr : GeoBroadcastHeader)
| Shb (hdr : ShbHeader)
| Tsb (hdr : TsbHeader).

Definition serialize_HeaderVariant (header : HeaderVariant) : list Z :=
  match header with
  | Beacon h => serialize_BeaconHeader h
  | GeoBroadcast h => serialize_GeoBroadcastHeader h
  | Shb h => serialize_ShbHeader h
  | Tsb h => serialize_TsbHeader h
  end.

Definition get_length (header : HeaderVariant) : nat :=
  match header with Beacon _ => 24 | GeoBroadcast _ => 44 | Shb _ => 28 | Tsb _ => 28 end.

(** * The parser *)

Record Parser := mk_Parser { archive : InputArchive; m_read_bytes : nat }.
Definition Parser_of (buffer : list Z) : Parser := mk_Parser (mk_input buffer Ok) 0.

(** The try block of each function: a deserializer of [bytes] octets, none
    counted when it throws.  The header the caller passed is not returned in
    that case. *)
Definition parse_with {A} (d : Reader A) (bytes : nat) (p : Parser) : nat * option A * Parser :=
  let '(r, ar) := d (archive p) in
  match r with
  | Some a => (bytes, Some a, mk_Parser ar (m_read_bytes p + bytes))
  | None => (0%nat, None, mk_Parser ar (m_read_bytes p))
  end.

Definition parse_basic : Parser -> nat * option BasicHeader * Parser :=
  parse_with deserialize_BasicHeader BasicHeader_length_bytes.
Definition parse_common : Parser -> nat * option CommonHeader * Parser :=
  parse_with deserialize_CommonHeader CommonHeader_length_bytes.

Definition deserialize_extended {E} (d : Reader E) (inj : E -> HeaderVariant) : Reader HeaderVariant :=
  header <~ d; ret (inj header).

Definition is_gbc (ht : HeaderType) : bool :=
  (ht =? HeaderType_GeoBroadcast_Circle) || (ht =? HeaderType_GeoBroadcast_Rect) || (ht =? HeaderType_GeoBroadcast_Elip).

Definition parse_extended (ht : HeaderType) (p : Parser) : nat * option HeaderVariant * Parser :=
  if ht =? HeaderType_TSB_Single_Hop then parse_with (deserialize_extended deserialize_ShbHeader Shb) 28 p
  else if ht =? HeaderType_TSB_Multi_Hop then parse_with (deserialize_extended deserialize_TsbHeader Tsb) 28 p
  else if is_gbc ht then parse_with (deserialize_extended deserialize_GeoBroadcastHeader GeoBroadcast) 44 p
  else if ht =? HeaderType_Beacon then parse_with (deserialize_extended deserialize_BeaconHeader Beacon) 24 p
  else (0%nat, None, p).

(** * Packed fields *)

Lemma BitNumber_mod w n v : 0 <= n <= w -> BitNumber w n v = v mod 2 ^ n.
Proof.
  intros Hn. unfold BitNumber, uwrap. rewrite land_ones_mod by lia. apply Z.bits_inj'. intros i Hi.
  destruct (Z.ltb_spec i n) as [H|H].
  - now rewrite !Z.mod_pow2_bits_low by lia.
  - now rewrite !Z.mod_pow2_bits_high by lia.
Qed.

(** The [n] bits of a word above the [m] lowest. *)
Lemma land_field t n m : 0 <= n -> 0 <= m -> (t .& (Z.ones n ≪ m)) ≫ m = t / 2 ^ m mod 2 ^ n.
Proof.
  intros Hn Hm. rewrite Z.shiftr_land, Z.shiftr_shiftl_l, Z.sub_diag, Z.shiftl_0_r, Z.land_ones, Z.shiftr_div_pow2 by lia. reflexivity.
Qed.

Lemma flag_field t n : 0 <= n -> negb (t .& 2 ^ n =? 0) = (t / 2 ^ n mod 2 =? 1).
Proof.
  intros Hn.
  replace (t .& 2 ^ n) with (Z.b2z (Z.testbit t n) * 2 ^ n).
  - rewrite Z.testbit_spec' by lia. pose proof (Z.mod_pos_bound (t / 2 ^ n) 2 ltac:(lia)). pose proof (pow2_pos n Hn).
    destruct (Z.eqb_spec (t / 2 ^ n mod 2) 1), (Z.eqb_spec (t / 2 ^ n mod 2 * 2 ^ n) 0); reflexivity || nia.
  - apply Z.bits_inj'. intros i Hi. rewrite Z.land_spec, Z.pow2_bits_eqb, <- Z.shiftl_mul_pow2, Z.shiftl_spec by lia.
    destruct (Z.eqb_spec n i) as [->|Hne].
    + rewrite Z.sub_diag, Z.b2z_bit0. now rewrite andb_true_r.
    + rewrite andb_false_r. destruct (Z.ltb_spec i n); [apply Z.testbit_neg_r; lia|].
      destruct (Z.testbit t n); [apply (Z.pow2_bits_false 0); lia|apply Z.testbit_0_l].
Qed.

(** A flag above the [n] lowest bits. *)
Lemma lor_flag (b : bool) v n : 0 <= n -> 0 <= v < 2 ^ n -> v .| (if b then 2 ^ n else 0) = Z.b2z b * 2 ^ n + v.
Proof.
  intros Hn Hv. rewrite Z.lor_comm. destruct b.
  - rewrite <- (Z.shiftl_1_l n) at 1. now apply (lor_disjoint 1).
  - now rewrite Z.lor_0_l.
Qed.

(** ** Contracts of the fields *)

Lemma reads_ret_eq {A} (a b : A) : a = b -> reads (ret a) [] b.
Proof. intros ->. apply reads_ret. Qed.

Definition Address_ok (a : Address) : Prop :=
  0 <= station_type a < 32 /\ 0 <= country_code a < 1024 /\ mac_ok (mid a).

Lemma Address_word mc st cc : 0 <= st < 32 -> 0 <= cc < 1024 ->
  (cc .| ((st ≪ station_type_shift) .& station_type_mask)) .| (if (mc : bool) then manually_configured_mask else 0) =
  Z.b2z mc * 32768 + st * 1024 + cc.
Proof.
  intros Hst Hcc. change station_type_mask with (Z.ones 5 ≪ 10). unfold station_type_shift. rewrite <- Z.shiftl_land, Z.land_ones by lia.
  rewrite Z.mod_small by (cbn; lia). rewrite (Z.lor_comm cc), (lor_disjoint st cc 10) by (cbn; lia).
  change manually_configured_mask with (2 ^ 15). rewrite lor_flag by (cbn; lia). cbn. lia.
Qed.

Lemma Address_fields t : 0 <= t < 2 ^ 16 ->
  negb (t .& manually_configured_mask =? 0) = (t / 32768 =? 1) /\
  (t .& station_type_mask) ≫ station_type_shift = t / 1024 mod 32 /\ BitNumber 32 10 (t .& country_code_mask) = t mod 1024.
Proof.
  intros Ht. split; [|split].
  - change manually_configured_mask with (2 ^ 15). rewrite flag_field by lia. change (2 ^ 15) with 32768.
    now rewrite (Z.mod_small (t / 32768) 2) by (cbn in Ht; Z.to_euclidean_division_equations; lia).
  - change station_type_mask with (Z.ones 5 ≪ 10). unfold station_type_shift. now rewrite land_field by lia.
  - rewrite BitNumber_mod by lia. change country_code_mask with (Z.ones 10). rewrite Z.land_ones by lia. now rewrite Z.mod_mod by lia.
Qed.

Lemma Address_repack t : 0 <= t < 2 ^ 16 -> Z.b2z (t / 32768 =? 1) * 32768 + t / 1024 mod 32 * 1024 + t mod 1024 = t.
Proof.
  intros Ht. change (2 ^ 16) with 65536 in Ht.
  destruct (Z.eqb_spec (t / 32768) 1); cbn [Z.b2z]; Z.to_euclidean_division_equations; lia.
Qed.

Lemma serialize_Address_octets a : octets (serialize_Address a).
Proof. unfold serialize_Address. octet_fields. Qed.

Lemma reads_Address a : Address_ok a -> reads deserialize_Address (serialize_Address a) a.
Proof.
  destruct a as [mc st cc m]. intros (Hst & Hcc & Hm). cbn in Hst, Hcc, Hm. unfold serialize_Address, deserialize_Address.
  cbn [station_type country_code manually_configured mid]. rewrite Address_word by assumption.
  set (t := Z.b2z mc * 32768 + st * 1024 + cc). assert (Ht : 0 <= t < 2 ^ 16) by (unfold t; destruct mc; cbn; lia).
  eapply reads_bind; [apply reads_uint; exact Ht|]. eapply reads_last; [auto with archive|]. apply reads_ret_eq.
  destruct (Address_fields t Ht) as (-> & -> & ->). unfold t. f_equal.
  - destruct mc; cbn [Z.b2z]; [apply Z.eqb_eq|apply Z.eqb_neq]; Z.to_euclidean_division_equations; lia.
  - destruct mc; cbn [Z.b2z]; Z.to_euclidean_division_equations; lia.
  - destruct mc; cbn [Z.b2z]; Z.to_euclidean_division_equations; lia.
Qed.

Lemma frames_Address : frames deserialize_Address 8 (fun bs a => Address_ok a /\ serialize_Address a = bs).
Proof.
  unfold deserialize_Address. frame_fields. rename x1 into t. change (8 * Z.of_nat 2) with 16 in *.
  match goal with H : 0 <= t, H' : t < _ |- _ => pose proof (conj H H') as Ht end.
  destruct (Address_fields t Ht) as (-> & -> & ->).
  split; [split; [|split; [|assumption]]; apply Z.mod_pos_bound; lia|].
  unfold serialize_Address. cbn [station_type country_code manually_configured mid].
  rewrite Address_word, Address_repack by first [exact Ht | apply Z.mod_pos_bound; lia]. reflexivity.
Qed.
#[export] Hint Resolve serialize_Address_octets reads_Address frames_Address : archive.

Definition LongPositionVector_ok (p : LongPositionVector) : Prop :=
  Address_ok (gn_addr p) /\ 0 <= timestamp p < 2 ^ 32 /\ - 2 ^ 31 <= latitude p < 2 ^ 31 /\ - 2 ^ 31 <= longitude p < 2 ^ 31 /\
  0 <= speed p < 2 ^ 15 /\ 0 <= heading p < 2 ^ 16.

Lemma pai_word (pai : bool) v : 0 <= v < 2 ^ 15 -> u16 v .| (if pai then 32768 else 0) = Z.b2z pai * 32768 + v.
Proof.
  intros Hv. rewrite uwrap_small by (cbn in *; lia). change 32768 with (2 ^ 15). now apply lor_flag.
Qed.

Lemma pai_fields t : 0 <= t < 2 ^ 16 -> negb (t .& 32768 =? 0) = (t / 32768 =? 1) /\ BitNumber 64 15 t = t mod 32768.
Proof. intros Ht. split; [apply (Address_fields t Ht)|now rewrite BitNumber_mod by lia]. Qed.

Lemma pai_pack (pai : bool) v : 0 <= v < 2 ^ 15 ->
  0 <= Z.b2z pai * 32768 + v < 2 ^ 16 /\ ((Z.b2z pai * 32768 + v) / 32768 =? 1) = pai /\ (Z.b2z pai * 32768 + v) mod 32768 = v.
Proof.
  intros Hv. cbn in Hv. split; [destruct pai; cbn; lia|split].
  - destruct pai; cbn [Z.b2z]; [apply Z.eqb_eq|apply Z.eqb_neq]; Z.to_euclidean_division_equations; lia.
  - destruct pai; cbn [Z.b2z]; Z.to_euclidean_division_equations; lia.
Qed.

Lemma pai_repack t : 0 <= t < 2 ^ 16 -> Z.b2z (t / 32768 =? 1) * 32768 + t mod 32768 = t.
Proof.
  intros Ht. cbn in Ht. destruct (Z.eqb_spec (t / 32768) 1); cbn [Z.b2z]; Z.to_euclidean_division_equations; lia.
Qed.

Lemma serialize_LongPositionVector_octets p : octets (serialize_LongPositionVector p).
Proof. unfold serialize_LongPositionVector, serialize_Timestamp. octet_fields. Qed.

Lemma reads_LongPositionVector p :
  LongPositionVector_ok p -> reads deserialize_LongPositionVector (serialize_LongPositionVector p) p.
Proof.
  destruct p as [a ts lat lon pai v h]. intros (Ha & Hts & Hlat & Hlon & Hv & Hh). cbn in Ha, Hts, Hlat, Hlon, Hv, Hh.
  unfold serialize_LongPositionVector, deserialize_LongPositionVector, serialize_Timestamp, deserialize_Timestamp.
  cbn [gn_addr timestamp latitude longitude position_accuracy_indicator speed heading].
  rewrite pai_word by assumption. destruct (pai_pack pai v Hv) as (Ht & E1 & E2).
  read_fields. apply reads_ret_eq. destruct (pai_fields _ Ht) as [-> ->]. now rewrite E1, E2.
Qed.

Lemma frames_LongPositionVector :
  frames deserialize_LongPositionVector 24 (fun bs p => LongPositionVector_ok p /\ serialize_LongPositionVector p = bs).
Proof.
  unfold deserialize_LongPositionVector, deserialize_Timestamp. frame_fields.
  match goal with |- context [negb (?t .& _ =? 0)] =>
    let H := fresh in assert (H : 0 <= t < 2 ^ 16) by (split; assumption);
    destruct (pai_fields t H) as [-> ->]; pose proof (pai_repack t H) end.
  split; [|unfold serialize_LongPositionVector, serialize_Timestamp;
    cbn [gn_addr timestamp latitude longitude position_accuracy_indicator speed heading];
    rewrite pai_word by (apply Z.mod_pos_bound; reflexivity); congruence].
  unfold LongPositionVector_ok. cbn [gn_addr timestamp latitude longitude position_accuracy_indicator speed heading].
  split_all; first [assumption | apply Z.mod_pos_bound; reflexivity].
Qed.
#[export] Hint Resolve serialize_LongPositionVector_octets reads_LongPositionVector frames_LongPositionVector : archive.

(** ** Contracts of the headers *)

Lemma nibble_word hi lo : 0 <= hi < 16 -> 0 <= lo < 16 -> u8 (u8 hi ≪ 4) .| lo = hi * 16 + lo.
Proof.
  intros Hh Hl. rewrite (uwrap_small 8 hi) by (cbn; lia). rewrite uwrap_small; [now apply lor_disjoint|].
  rewrite Z.shiftl_mul_pow2 by lia. cbn. lia.
Qed.

Lemma low_nibble v : v .& 15 = v mod 16.
Proof. apply (Z.land_ones v 4). lia. Qed.

Lemma nibble_fields t : octet t ->
  BitNumber 32 4 (t ≫ 4) = t / 16 /\ t ≫ 4 = t / 16 /\ t .& 15 = t mod 16 /\ BitNumber 32 4 (t .& 15) = t mod 16.
Proof.
  intros (Hh & Hl & E)%octet_nibbles. rewrite !BitNumber_mod by lia. rewrite Z.shiftr_div_pow2, low_nibble by lia.
  change (2 ^ 4) with 16. rewrite Z.mod_mod by lia. now rewrite (Z.mod_small (t / 16)).
Qed.

Lemma nibble_pack hi lo : 0 <= hi < 16 -> 0 <= lo < 16 ->
  octet (hi * 16 + lo) /\ (hi * 16 + lo) / 16 = hi /\ (hi * 16 + lo) mod 16 = lo.
Proof. intros Hh Hl. unfold octet. Z.to_euclidean_division_equations. lia. Qed.

Definition BasicHeader_ok (h : BasicHeader) : Prop :=
  0 <= version h < 16 /\ 0 <= basic_next_header h < 16 /\ octet (basic_reserved h) /\ octet (lifetime h) /\ octet (hop_limit h).

Definition CommonHeader_ok (h : CommonHeader) : Prop :=
  0 <= common_next_header h < 16 /\ 0 <= reserved1 h < 16 /\ octet (header_type h) /\ octet (traffic_class h) /\ octet (flags h) /\
  0 <= payload h < 2 ^ 16 /\ octet (maximum_hop_limit h) /\ octet (reserved2 h).

Lemma reads_BasicHeader h : BasicHeader_ok h -> reads deserialize_BasicHeader (serialize_BasicHeader h) h.
Proof.
  destruct h as [v n r l hl]. intros (Hv & Hn & Hr & Hl & Hh). cbn in Hv, Hn, Hr, Hl, Hh.
  unfold serialize_BasicHeader, deserialize_BasicHeader, serialize_Lifetime, deserialize_Lifetime.
  cbn [version basic_next_header basic_reserved lifetime hop_limit].
  rewrite low_nibble, (Z.mod_small n) by lia. rewrite nibble_word by assumption.
  destruct (nibble_pack v n Hv Hn) as (Ht & E1 & E2). unfold octet in *. read_fields.
  apply reads_ret_eq. destruct (nibble_fields _ Ht) as (-> & _ & -> & _). now rewrite E1, E2.
Qed.

Lemma frames_BasicHeader : frames deserialize_BasicHeader 4 (fun bs h => BasicHeader_ok h /\ serialize_BasicHeader h = bs).
Proof.
  unfold deserialize_BasicHeader, deserialize_Lifetime. frame_fields. rename x1 into t.
  assert (Ht : octet t) by (split; assumption). destruct (nibble_fields t Ht) as (-> & _ & -> & _).
  destruct (octet_nibbles t Ht) as (Hh & Hl & E).
  split; [unfold BasicHeader_ok, octet; cbn [version basic_next_header basic_reserved lifetime hop_limit]; split_all; assumption || apply Hh || apply Hl|].
  unfold serialize_BasicHeader, serialize_Lifetime. cbn [version basic_next_header basic_reserved lifetime hop_limit].
  rewrite low_nibble, Z.mod_mod by lia. rewrite nibble_word by assumption.
  rewrite Z.mul_comm, E. reflexivity.
Qed.

Lemma reads_CommonHeader h : CommonHeader_ok h -> reads deserialize_CommonHeader (serialize_CommonHeader h) h.
Proof.
  destruct h as [n r ht tc f p m r2]. intros (Hn & Hr & Hht & Htc & Hf & Hp & Hm & Hr2). cbn in Hn, Hr, Hht, Htc, Hf, Hp, Hm, Hr2.
  unfold serialize_CommonHeader, deserialize_CommonHeader, serialize_TrafficClass, deserialize_TrafficClass.
  cbn [common_next_header reserved1 header_type traffic_class flags payload maximum_hop_limit reserved2].
  rewrite nibble_word by assumption. destruct (nibble_pack n r Hn Hr) as (Ht & E1 & E2). unfold octet in *. read_fields.
  apply reads_ret_eq. destruct (nibble_fields _ Ht) as (_ & -> & _ & ->). now rewrite E1, E2.
Qed.

Lemma frames_CommonHeader : frames deserialize_CommonHeader 8 (fun bs h => CommonHeader_ok h /\ serialize_CommonHeader h = bs).
Proof.
  unfold deserialize_CommonHeader, deserialize_TrafficClass. frame_fields. rename x1 into t.
  assert (Ht : octet t) by (split; assumption). destruct (nibble_fields t Ht) as (_ & -> & _ & ->).
  destruct (octet_nibbles t Ht) as (Hh & Hl & E).
  split; [unfold CommonHeader_ok, octet; cbn [common_next_header reserved1 header_type traffic_class flags payload maximum_hop_limit reserved2];
    split_all; assumption || apply Hh || apply Hl|].
  unfold serialize_CommonHeader, serialize_TrafficClass.
  cbn [common_next_header reserved1 header_type traffic_class flags payload maximum_hop_limit reserved2].
  rewrite nibble_word by assumption. rewrite Z.mul_comm, E. reflexivity.
Qed.

Lemma serialize_BasicHeader_octets h : octets (serialize_BasicHeader h).
Proof. unfold serialize_BasicHeader, serialize_Lifetime. octet_fields. Qed.
Lemma serialize_CommonHeader_octets h : octets (serialize_CommonHeader h).
Proof. unfold serialize_CommonHeader, serialize_TrafficClass. octet_fields. Qed.
#[export] Hint Resolve serialize_BasicHeader_octets reads_BasicHeader frames_BasicHeader
  serialize_CommonHeader_octets reads_CommonHeader frames_CommonHeader : archive.

#[export] Instance BasicHeader_wire : Wire BasicHeader.
Proof.
  refine {| wire_ser := serialize_BasicHeader; wire_de := deserialize_BasicHeader; wire_len := 4; wire_ok := BasicHeader_ok |};
    auto with archive.
Defined.

#[export] Instance CommonHeader_wire : Wire CommonHeader.
Proof.
  refine {| wire_ser := serialize_CommonHeader; wire_de := deserialize_CommonHeader; wire_len := 8; wire_ok := CommonHeader_ok |};
    auto with archive.
Defined.

#[export] Instance LongPositionVector_wire : Wire LongPositionVector.
Proof.
  refine {| wire_ser := serialize_LongPositionVector; wire_de := deserialize_LongPositionVector;
            wire_len := 24; wire_ok := LongPositionVector_ok |}; auto with archive.
Defined.

(** A DCC field is read back as its 32 bits. *)
Definition DccField_ok (d : DccField) : Prop := match d with DccRaw raw => 0 <= raw < 2 ^ 32 | DccMco _ => False end.

Lemma reads_DccField d : DccField_ok d -> reads deserialize_DccField (serialize_DccField d) d.
Proof. destruct d; [easy|]. intros Hd. unfold serialize_DccField, deserialize_DccField. cbn in Hd. read_fields. Qed.

Lemma frames_DccField : frames deserialize_DccField 4 (fun bs d => DccField_ok d /\ serialize_DccField d = bs).
Proof. unfold deserialize_DccField. frame_fields. split; [split; assumption|reflexivity]. Qed.
#[export] Hint Resolve reads_DccField frames_DccField : archive.

Definition BeaconHeader_ok (h : BeaconHeader) : Prop := LongPositionVector_ok (beacon_source_position h).
Definition TsbHeader_ok (h : TsbHeader) : Prop :=
  0 <= tsb_sequence_number h < 2 ^ 16 /\ 0 <= tsb_reserved h < 2 ^ 16 /\ LongPositionVector_ok (tsb_source_position h).
Definition ShbHeader_ok (h : ShbHeader) : Prop := LongPositionVector_ok (shb_source_position h) /\ DccField_ok (dcc h).
Definition GeoBroadcastHeader_ok (h : GeoBroadcastHeader) : Prop :=
  0 <= sequence_number h < 2 ^ 16 /\ 0 <= gbc_reserved1 h < 2 ^ 16 /\ LongPositionVector_ok (source_position h) /\
  - 2 ^ 31 <= geo_area_pos_latitude h < 2 ^ 31 /\ - 2 ^ 31 <= geo_area_pos_longitude h < 2 ^ 31 /\
  0 <= distance_a h < 2 ^ 16 /\ 0 <= distance_b h < 2 ^ 16 /\ 0 <= angle h < 2 ^ 16 /\ 0 <= gbc_reserved2 h < 2 ^ 16.

#[export] Instance BeaconHeader_wire : Wire BeaconHeader.
Proof.
  refine {| wire_ser := serialize_BeaconHeader; wire_de := deserialize_BeaconHeader; wire_len := 24; wire_ok := BeaconHeader_ok |}.
  - intros h. unfold serialize_BeaconHeader. octet_fields.
  - intros [p] Hp. unfold serialize_BeaconHeader, deserialize_BeaconHeader. read_fields.
  - unfold deserialize_BeaconHeader. frame_fields. now split.
Defined.

#[export] Instance TsbHeader_wire : Wire TsbHeader.
Proof.
  refine {| wire_ser := serialize_TsbHeader; wire_de := deserialize_TsbHeader; wire_len := 28; wire_ok := TsbHeader_ok |}.
  - intros h. unfold serialize_TsbHeader, serialize_SequenceNumber. octet_fields.
  - intros [sn r p] (Hs & Hr & Hp). unfold serialize_TsbHeader, deserialize_TsbHeader, serialize_SequenceNumber, deserialize_SequenceNumber.
    read_fields.
  - unfold deserialize_TsbHeader, deserialize_SequenceNumber. frame_fields. split; [|reflexivity]. unfold TsbHeader_ok. cbn. split_all; assumption.
Defined.

#[export] Instance ShbHeader_wire : Wire ShbHeader.
Proof.
  refine {| wire_ser := serialize_ShbHeader; wire_de := deserialize_ShbHeader; wire_len := 28; wire_ok := ShbHeader_ok |}.
  - intros h. unfold serialize_ShbHeader, serialize_DccField. octet_fields.
  - intros [p d] (Hp & Hd). unfold serialize_ShbHeader, deserialize_ShbHeader. read_fields.
  - unfold deserialize_ShbHeader. frame_fields. split; [now split|reflexivity].
Defined.

#[export] Instance GeoBroadcastHeader_wire : Wire GeoBroadcastHeader.
Proof.
  refine {| wire_ser := serialize_GeoBroadcastHeader; wire_de := deserialize_GeoBroadcastHeader;
            wire_len := 44; wire_ok := GeoBroadcastHeader_ok |}.
  - intros h. unfold serialize_GeoBroadcastHeader, serialize_SequenceNumber. octet_fields.
  - intros [sn r1 p lat lon a b an r2] (? & ? & ? & ? & ? & ? & ? & ? & ?).
    unfold serialize_GeoBroadcastHeader, deserialize_GeoBroadcastHeader, serialize_SequenceNumber, deserialize_SequenceNumber. read_fields.
  - unfold deserialize_GeoBroadcastHeader, deserialize_SequenceNumber. frame_fields. split; [|reflexivity].
    unfold GeoBroadcastHeader_ok. cbn. split_all; assumption.
Defined.

(** ** The variant *)

Definition HeaderVariant_ok (v : HeaderVariant) : Prop :=
  match v with Beacon h => wire_ok h | GeoBroadcast h => wire_ok h | Shb h => wire_ok h | Tsb h => wire_ok h end.

(** The header types under which a variant travels. *)
Definition travels (ht : HeaderType) (v : HeaderVariant) : bool :=
  match v with
  | Beacon _ => ht =? HeaderType_Beacon
  | GeoBroadcast _ => is_gbc ht
  | Shb _ => ht =? HeaderType_TSB_Single_Hop
  | Tsb _ => ht =? HeaderType_TSB_Multi_Hop
  end.

(** The length of the extended header a type announces. *)
Definition extended_length (ht : HeaderType) : option nat :=
  if ht =? HeaderType_TSB_Single_Hop then Some 28%nat else if ht =? HeaderType_TSB_Multi_Hop then Some 28%nat
  else if is_gbc ht then Some 44%nat else if ht =? HeaderType_Beacon then Some 24%nat else None.

Section Parse.
Context {H A : Type} {W : Wire H} (inj : H -> A).

(** [parse_with] on a header that is there. *)
Lemma parse_with_reads h rest e n : wire_ok h ->
  parse_with (bind wire_de (fun x => ret (inj x))) wire_len (mk_Parser (mk_input (wire_ser h ++ rest) e) n) =
  (wire_len, Some (inj h), mk_Parser (mk_input rest e) (n + wire_len)).
Proof. intros Hh. unfold parse_with, bind. cbn [archive m_read_bytes]. now rewrite (wire_reads h Hh). Qed.

(** [parse_with] on any octets. *)
Lemma parse_with_frames s e n : octets s ->
  if (wire_len <=? length s)%nat then exists h : H, wire_ok h /\ s = wire_ser h ++ drop wire_len s /\
    parse_with (bind wire_de (fun x => ret (inj x))) wire_len (mk_Parser (mk_input s e) n) =
    (wire_len, Some (inj h), mk_Parser (mk_input (drop wire_len s) e) (n + wire_len))
  else parse_with (bind wire_de (fun x => ret (inj x))) wire_len (mk_Parser (mk_input s e) n) =
    (0%nat, None, mk_Parser (mk_input [] (failed e IncompleteData)) n).
Proof.
  intros Hs. pose proof (wire_frames (H := H) s e Hs) as Hf. unfold parse_with, bind. cbn [archive m_read_bytes].
  destruct (Nat.leb_spec wire_len (length s)) as [Hl|Hl].
  - destruct Hf as (h & -> & Hok & E). exists h. split; [exact Hok|]. split; [now rewrite E, take_drop|reflexivity].
  - now rewrite Hf.
Qed.

End Parse.

Lemma parse_with_ret {A} (d : Reader A) n p : parse_with (bind d (fun x => ret x)) n p = parse_with d n p.
Proof. unfold parse_with, bind, ret. now destruct (d (archive p)) as [[a|] ar]. Qed.

(** What a parser's function does on a stream of [s]: it returns a header
    that serializes to the first [n] octets, or nothing when there are
    fewer. *)
Definition parses {A} (parse : Parser -> nat * option A * Parser) (n : nat) (ser : A -> list Z) (ok : A -> Prop) : Prop :=
  forall s e k, octets s ->
  if (n <=? length s)%nat then exists a, ok a /\ s = ser a ++ drop n s /\
    parse (mk_Parser (mk_input s e) k) = (n, Some a, mk_Parser (mk_input (drop n s) e) (k + n))
  else parse (mk_Parser (mk_input s e) k) = (0%nat, None, mk_Parser (mk_input [] (failed e IncompleteData)) k).

Lemma parses_basic : parses parse_basic 4 serialize_BasicHeader BasicHeader_ok.
Proof.
  intros s e k Hs. unfold parse_basic. rewrite <- parse_with_ret. exact (parse_with_frames (H := BasicHeader) (fun x => x) s e k Hs).
Qed.

Lemma parses_common : parses parse_common 8 serialize_CommonHeader CommonHeader_ok.
Proof.
  intros s e k Hs. unfold parse_common. rewrite <- parse_with_ret. exact (parse_with_frames (H := CommonHeader) (fun x => x) s e k Hs).
Qed.

(** Each branch of [parse_extended]. *)
Lemma parses_variant {H} {W : Wire H} (inj : H -> HeaderVariant) (ht : HeaderType) :
  (forall h, serialize_HeaderVariant (inj h) = wire_ser h) -> (forall h, HeaderVariant_ok (inj h) = wire_ok h) ->
  (forall h, travels ht (inj h) = true) -> (forall h, get_length (inj h) = wire_len) ->
  parses (parse_with (deserialize_extended wire_de inj) wire_len) wire_len serialize_HeaderVariant
    (fun v => HeaderVariant_ok v /\ travels ht v = true /\ get_length v = wire_len).
Proof.
  intros Hs Ho Ht Hl s e k Hoct. pose proof (parse_with_frames inj s e k Hoct) as Hf.
  destruct (wire_len <=? length s)%nat; [|exact Hf]. destruct Hf as (h & Hok & E & Hp).
  exists (inj h). rewrite Hs, Ho, Ht, Hl. auto.
Qed.

Lemma parses_extended ht n : extended_length ht = Some n ->
  parses (parse_extended ht) n serialize_HeaderVariant (fun v => HeaderVariant_ok v /\ travels ht v = true /\ get_length v = n).
Proof.
  unfold extended_length, parse_extended. intros Hn.
  destruct (ht =? HeaderType_TSB_Single_Hop) eqn:E1; [injection Hn as <-; exact (parses_variant (H := ShbHeader) Shb ht (fun _ => eq_refl) (fun _ => eq_refl) (fun _ => ltac:(assumption)) (fun _ => eq_refl))|].
  destruct (ht =? HeaderType_TSB_Multi_Hop) eqn:E2; [injection Hn as <-; exact (parses_variant (H := TsbHeader) Tsb ht (fun _ => eq_refl) (fun _ => eq_refl) (fun _ => ltac:(assumption)) (fun _ => eq_refl))|].
  destruct (is_gbc ht) eqn:E3; [injection Hn as <-; exact (parses_variant (H := GeoBroadcastHeader) GeoBroadcast ht (fun _ => eq_refl) (fun _ => eq_refl) (fun _ => ltac:(assumption)) (fun _ => eq_refl))|].
  destruct (ht =? HeaderType_Beacon) eqn:E4; [injection Hn as <-; exact (parses_variant (H := BeaconHeader) Beacon ht (fun _ => eq_refl) (fun _ => eq_refl) (fun _ => ltac:(assumption)) (fun _ => eq_refl))|discriminate].
Qed.

(** C30.  The parser is total on octets: each of its functions either returns a
    header in range which serializes to exactly the octets it took, counting
    them in parsed_bytes, or returns none, counts none and marks the archive
    as incomplete, when the stream is shorter than the header; a header type
    without parser takes nothing at all. *)
Theorem parser_exact :
  parses parse_basic 4 serialize_BasicHeader BasicHeader_ok /\
  parses parse_common 8 serialize_CommonHeader CommonHeader_ok /\
  (forall ht, match extended_length ht with
   | Some n => parses (parse_extended ht) n serialize_HeaderVariant
                 (fun v => HeaderVariant_ok v /\ travels ht v = true /\ get_length v = n)
   | None => forall p, parse_extended ht p = (0%nat, None, p)
   end).
Proof.
  split; [apply parses_basic|]. split; [apply parses_common|]. intros ht.
  destruct (extended_length ht) as [n|] eqn:E; [now apply parses_extended|]. intros p. revert E. unfold extended_length, parse_extended.
  destruct (ht =? HeaderType_TSB_Single_Hop), (ht =? HeaderType_TSB_Multi_Hop), (is_gbc ht), (ht =? HeaderType_Beacon); discriminate || reflexivity.
Qed.

(** ** Whole packets *)

Lemma reads_variant ht v rest e k : HeaderVariant_ok v -> travels ht v = true ->
  parse_extended ht (mk_Parser (mk_input (serialize_HeaderVariant v ++ rest) e) k) =
  (get_length v, Some v, mk_Parser (mk_input rest e) (k + get_length v)).
Proof.
  intros Hv Ht. unfold parse_extended. destruct v as [h|h|h|h]; cbn [travels HeaderVariant_ok] in *.
  - apply Z.eqb_eq in Ht as ->. exact (parse_with_reads Beacon h rest e k Hv).
  - rewrite Ht. unfold is_gbc in Ht. rewrite !orb_true_iff, !Z.eqb_eq in Ht.
    assert (E : (ht =? HeaderType_TSB_Single_Hop) = false /\ (ht =? HeaderType_TSB_Multi_Hop) = false)
      by (destruct Ht as [[-> | ->] | ->]; split; reflexivity).
    destruct E as [-> ->]. exact (parse_with_reads GeoBroadcast h rest e k Hv).
  - rewrite Ht. exact (parse_with_reads Shb h rest e k Hv).
  - apply Z.eqb_eq in Ht as ->. exact (parse_with_reads Tsb h rest e k Hv).
Qed.

(** C19.  A packet of a basic, a common and an extended header, as the router
    reads it, is parsed back to the headers it was made of: the payload is
    what is left, and parsed_bytes is the length of the headers. *)
Theorem packet_roundtrip basic common extended pl :
  BasicHeader_ok basic -> CommonHeader_ok common -> HeaderVariant_ok extended -> travels (header_type common) extended = true ->
  let buffer := serialize_BasicHeader basic ++ serialize_CommonHeader common ++ serialize_HeaderVariant extended ++ pl in
  exists p1 p2,
    parse_basic (Parser_of buffer) = (4%nat, Some basic, p1) /\ parse_common p1 = (8%nat, Some common, p2) /\
    parse_extended (header_type common) p2 =
      (get_length extended, Some extended, mk_Parser (mk_input pl Ok) (12 + get_length extended)).
Proof.
  intros Hb Hc He Ht. cbv zeta. eexists _, _. unfold parse_basic, parse_common, parse_with, Parser_of. cbn [archive m_read_bytes].
  rewrite reads_BasicHeader by assumption. split; [reflexivity|]. cbn [archive m_read_bytes].
  rewrite reads_CommonHeader by assumption. split; [reflexivity|]. now apply reads_variant.
Qed.

Definition example_position : LongPositionVector :=
  mk_LongPositionVector (mk_Address true 5 276 [10; 20; 30; 40; 50; 60]) 4000000000 486000000 (-113000000) true 1389 900.

Lemma packet_roundtrip_witness :
  let basic := mk_BasicHeader 1 1 0 241 10 in
  let common := mk_CommonHeader 2 0 65 131 128 2 10 0 in
  let gbc := GeoBroadcast (mk_GeoBroadcastHeader 65535 0 example_position 486000000 (-113000000) 100 50 45 0) in
  let buffer := serialize_BasicHeader basic ++ serialize_CommonHeader common ++ serialize_HeaderVariant gbc ++ [7; 8] in
  length buffer = 58%nat /\
  exists p1 p2, parse_basic (Parser_of buffer) = (4%nat, Some basic, p1) /\ parse_common p1 = (8%nat, Some common, p2) /\
    parse_extended (header_type common) p2 = (44%nat, Some gbc, mk_Parser (mk_input [7; 8] Ok) 56).
Proof.
  cbv zeta. split; [vm_compute; reflexivity|].
  apply (packet_roundtrip (mk_BasicHeader 1 1 0 241 10) (mk_CommonHeader 2 0 65 131 128 2 10 0)
    (GeoBroadcast (mk_GeoBroadcastHeader 65535 0 example_position 486000000 (-113000000) 100 50 45 0)) [7; 8]).
  - unfold BasicHeader_ok, octet. cbn. lia.
  - unfold CommonHeader_ok, octet. cbn. lia.
  - cbn. unfold GeoBroadcastHeader_ok, LongPositionVector_ok, Address_ok, mac_ok. cbn. split_all; try lia; try reflexivity.
    repeat constructor; unfold octet; lia.
  - reflexivity.
Defined.

(** ** Bit fields *)

Definition DccMcoField_ok (m : DccMcoField) : Prop := octet (cbr_l0_hop m) /\ octet (cbr_l1_hop m) /\ 0 <= m_output_power m < 32.

Lemma DccMcoField_raw_value m : DccMcoField_ok m ->
  DccMcoField_raw m = cbr_l0_hop m * 16777216 + cbr_l1_hop m * 65536 + m_output_power m * 2048.
Proof.
  destruct m as [a b c]. unfold DccMcoField_ok, octet. cbn. intros (Ha & Hb & Hc). unfold DccMcoField_raw. cbn.
  rewrite (uwrap_small 32 (a ≪ 8)), lor_disjoint by (rewrite ?Z.shiftl_mul_pow2 by lia; cbn; lia).
  rewrite (uwrap_small 32 ((a * 2 ^ 8 + b) ≪ 5)), lor_disjoint by (rewrite ?Z.shiftl_mul_pow2 by lia; cbn; lia).
  rewrite uwrap_small, Z.shiftl_mul_pow2 by (rewrite ?Z.shiftl_mul_pow2 by lia; cbn; lia). cbn. lia.
Qed.

Lemma DccMcoField_of_raw m : DccMcoField_ok m -> DccMcoField_of (DccMcoField_raw m) = m.
Proof.
  intros Hm. unfold DccMcoField_of. rewrite (DccMcoField_raw_value m Hm), BitNumber_mod by lia.
  destruct m as [a b c]. unfold DccMcoField_ok, octet in Hm. cbn in Hm. cbn [cbr_l0_hop cbr_l1_hop m_output_power].
  unfold uwrap. rewrite !Z.shiftr_div_pow2 by lia.
  change (2 ^ 24) with 16777216. change (2 ^ 16) with 65536. change (2 ^ 11) with 2048. change (2 ^ 8) with 256. change (2 ^ 5) with 32.
  f_equal; Z.to_euclidean_division_equations; lia.
Qed.

(** The bit fields of the headers keep what is put in them: a DCC-MCO field
    travels in an SHB header, every part of a traffic class is read back and
    leaves the other parts alone, and a traffic class selects the profile of
    its number. *)
Theorem bit_fields :
  (forall p m rest e, LongPositionVector_ok p -> DccMcoField_ok m ->
     exists d, deserialize_ShbHeader (mk_input (serialize_ShbHeader (mk_ShbHeader p (DccMco m)) ++ rest) e) =
                 (Some (mk_ShbHeader p d), mk_input rest e) /\ get_dcc_mco d = Some m) /\
  (forall scf ch tc, 0 <= tc < 64 -> let t := TrafficClass.make scf ch tc in
     octet t /\ TrafficClass.store_carry_forward t = scf /\ TrafficClass.channel_offload t = ch /\ TrafficClass.tc_id t = tc) /\
  (forall t, octet t ->
     t = TrafficClass.make (TrafficClass.store_carry_forward t) (TrafficClass.channel_offload t) (TrafficClass.tc_id t) /\
     0 <= TrafficClass.tc_id t < 64).
Proof.
  split_all.
  - intros p m rest e Hp Hm. exists (DccRaw (DccMcoField_raw m)). split; [|cbn; now rewrite DccMcoField_of_raw].
    refine (wire_reads (mk_ShbHeader p (DccRaw (DccMcoField_raw m))) _ rest e). split; [exact Hp|].
    cbn [dcc DccField_ok]. rewrite (DccMcoField_raw_value m Hm). unfold DccMcoField_ok, octet in Hm. cbn. lia.
  - intros scf ch tc Htc. cbv zeta.
    set (P tc := forallb (fun scf => forallb (fun ch => let t := TrafficClass.make scf ch tc in
      (0 <=? t) && (t <? 256) && eqb (TrafficClass.store_carry_forward t) scf && eqb (TrafficClass.channel_offload t) ch &&
      (TrafficClass.tc_id t =? tc)) [true; false]) [true; false]).
    assert (H : P tc = true) by (apply (small_cases P 64); [vm_compute; reflexivity|lia]).
    unfold P in H. rewrite forallb_forall in H. specialize (H scf ltac:(destruct scf; cbn; auto)).
    rewrite forallb_forall in H. specialize (H ch ltac:(destruct ch; cbn; auto)). cbv zeta in H.
    rewrite !andb_true_iff, Z.leb_le, Z.ltb_lt, Z.eqb_eq, !eqb_true_iff in H. unfold octet. tauto.
  - intros t Ht.
    set (P t := (t =? TrafficClass.make (TrafficClass.store_carry_forward t) (TrafficClass.channel_offload t) (TrafficClass.tc_id t)) &&
      (0 <=? TrafficClass.tc_id t) && (TrafficClass.tc_id t <? 64)).
    assert (H : P t = true) by (apply (small_cases P 256); [vm_compute; reflexivity|exact Ht]).
    unfold P in H. rewrite !andb_true_iff, Z.leb_le, Z.ltb_lt, Z.eqb_eq in H. tauto.
Qed.

Lemma bit_fields_witness :
  exists d, deserialize_ShbHeader (mk_input (serialize_ShbHeader (mk_ShbHeader example_position (DccMco (mk_DccMcoField 200 17 31)))) Ok) =
    (Some (mk_ShbHeader example_position d), mk_input [] Ok) /\ get_dcc_mco d = Some (mk_DccMcoField 200 17 31).
Proof.
  rewrite <- (app_nil_r (serialize_ShbHeader _)). apply (proj1 bit_fields).
  - unfold LongPositionVector_ok, Address_ok, mac_ok. cbn. split_all; try lia; try reflexivity.
    repeat constructor; unfold octet; lia.
  - unfold DccMcoField_ok, octet. cbn. lia.
Defined.
