(* ===== verification/Caches.v ===== *)
(** Bounded memories of recent packets and keys:
    geonet/duplicate_packet_list.cpp, geonet/gbc_memory.cpp and
    common/lru_cache.hpp.

    The hash index of GbcMemory is the membership of the queue; the map of
    LruCache holds an iterator into its index, which is the place of the key
    in it. *)

From S2P Require Import Prelude GnNumbers.
From stdpp Require Import gmap.

Open Scope Z_scope.

(** * DuplicatePacketList *)

Module DuplicatePacketList.

Record ListElement := mk_element { sequence_number : SequenceNumber.t; counter_of : Z }.

(** The circular buffer: its elements from the oldest on, and its capacity. *)
Record t := mk { m_elements : list ListElement; capacity : nat }.

Definition create (elements : nat) : t := mk [] elements.

(** boost::circular_buffer::push_back overwrites the front when full. *)
Definition push_back (e : ListElement) (self : t) : t :=
  mk (if (length (m_elements self) <? capacity self)%nat then m_elements self ++ [e]
      else match m_elements self with [] => [] | _ :: l => l ++ [e] end) (capacity self).

Definition is_sn (sn : SequenceNumber.t) (e : ListElement) : bool := sequence_number e =? sn.

(** find(sn), as whether it is there. *)
Definition find (sn : SequenceNumber.t) (l : list ListElement) : option ListElement := List.find (is_sn sn) l.

(** [++element->counter] of the first element of that number. *)
Fixpoint increment (sn : SequenceNumber.t) (l : list ListElement) : list ListElement :=
  match l with
  | [] => []
  | e :: l' => if is_sn sn e then mk_element (sequence_number e) (u32 (counter_of e + 1)) :: l' else e :: increment sn l'
  end.

Definition check (sn : SequenceNumber.t) (self : t) : bool * t :=
  match find sn (m_elements self) with
  | Some _ => (true, mk (increment sn (m_elements self)) (capacity self))
  | None => (false, push_back (mk_element sn 1) self)
  end.

Definition counter (sn : SequenceNumber.t) (self : t) : Z :=
  match find sn (m_elements self) with Some e => counter_of e | None => 0 end.

End DuplicatePacketList.

(** * GbcMemory *)

Module GbcMemory.
Section GbcMemory.
Context {Id : Type} `{EqDecision Id}.

(** [m_identifiers], from the front of the queue on. *)
Record t := mk { m_capacity : nat; m_identifiers : list Id }.

Definition create : t := mk 1 [].
Definition size (self : t) : nat := length (m_identifiers self).

(** Both loops: pop the front while there are more than [n]. *)
Fixpoint pop_to (n : nat) (q : list Id) : list Id :=
  match q with
  | [] => []
  | _ :: q' => if (n <? length q)%nat then pop_to n q' else q
  end.

Definition set_capacity (num : nat) (self : t) : t :=
  let m_capacity := if (num <? 1)%nat then 1%nat else num in
  mk m_capacity (pop_to m_capacity (m_identifiers self)).

Definition knows (id : Id) (self : t) : bool := bool_decide (id ∈ m_identifiers self).

Definition remember (id : Id) (self : t) : bool * t :=
  if knows id self then
    (true, mk (m_capacity self) (filter (fun x => x <> id) (m_identifiers self) ++ [id]))
  else (false, mk (m_capacity self) (pop_to (m_capacity self - 1) (m_identifiers self) ++ [id])).

End GbcMemory.
Arguments t Id : clear implicits.
End GbcMemory.

(** * LruCache *)

Module LruCache.
Section LruCache.
Context {K : Type} `{Countable K} {V : Type}.
Variable m_generator : K -> V.

Record t := mk { m_capacity : nat; m_index : list K; m_cache : gmap K V }.

Definition create (capacity : nat) : t := mk capacity [] ∅.

Definition remove (self : t) : t :=
  match last (m_index self) with
  | Some k => mk (m_capacity self) (removelast (m_index self)) (delete k (m_cache self))
  | None => self
  end.

Definition add (k : K) (self : t) : V * t :=
  let self := if (m_capacity self <=? size (m_cache self))%nat then remove self else self in
  let v := m_generator k in
  (v, mk (m_capacity self) (k :: m_index self) (<[k := v]> (m_cache self))).

Definition refresh (k : K) (v : V) (self : t) : V * t :=
  (v, mk (m_capacity self) (k :: filter (fun x => x <> k) (m_index self)) (m_cache self)).

(** operator[]. *)
Definition access (k : K) (self : t) : V * t :=
  match m_cache self !! k with
  | None => add k self
  | Some v => refresh k v self
  end.

End LruCache.
Arguments t K {_ _} V.
End LruCache.

(** * Recency *)

Section Recency.
Context {A : Type} `{EqDecision A}.

(** The distinct elements used so far, the last used first. *)
Definition touch (a : A) (r : list A) : list A := a :: filter (fun x => x <> a) r.
Fixpoint recent (history : list A) : list A :=
  match history with
  | [] => []
  | a :: older => touch a (recent older)
  end.

Lemma filter_ne_id (a : A) (l : list A) : a ∉ l -> filter (fun x => x <> a) l = l.
Proof.
  induction l as [|x l IH]; intros Ha; [reflexivity|]. apply not_elem_of_cons in Ha as [Hx Hl].
  rewrite filter_cons_True by congruence. now rewrite IH.
Qed.

Lemma filter_ne_notin (a : A) (l : list A) : a ∉ filter (fun x => x <> a) l.
Proof. rewrite list_elem_of_filter. now intros [? _]. Qed.

Lemma touch_NoDup a r : NoDup r -> NoDup (touch a r).
Proof. intros Hr. constructor; [apply filter_ne_notin|now apply NoDup_filter]. Qed.

Lemma recent_NoDup h : NoDup (recent h).
Proof. induction h; [constructor|now apply touch_NoDup]. Qed.

Lemma elem_of_recent a h : a ∈ recent h <-> a ∈ h.
Proof.
  induction h as [|b h IH]; [reflexivity|]. cbn [recent]. unfold touch. rewrite !elem_of_cons, list_elem_of_filter, IH.
  destruct (decide (a = b)); tauto.
Qed.

(** Using an element that is among the first [n], and one that is not. *)
Lemma take_touch_in n a r : NoDup r -> a ∈ take n r -> take n (touch a r) = touch a (take n r).
Proof.
  intros Hd Ha. destruct n as [|n]; [cbn in Ha; now apply elem_of_nil in Ha|]. unfold touch. cbn [take]. f_equal.
  revert n Ha. induction Hd as [|x r Hx Hr IH]; intros n Ha; [cbn in Ha; now apply elem_of_nil in Ha|]. cbn [take] in *.
  destruct (decide (x = a)) as [->|Hne].
  - rewrite !filter_cons_False by (intros C; now apply C). rewrite (filter_ne_id a r Hx), filter_ne_id; [reflexivity|].
    intros (i & Ei & _)%elem_of_take. apply Hx. now apply list_elem_of_lookup_2 in Ei.
  - apply elem_of_cons in Ha as [->|Ha]; [easy|]. rewrite !filter_cons_True by assumption.
    destruct n as [|n]; [cbn in Ha; now apply elem_of_nil in Ha|]. cbn [take] in *. f_equal. now apply IH.
Qed.

Lemma take_touch_out n a r : a ∉ take n r -> take (Datatypes.S n) (touch a r) = a :: take n r.
Proof.
  intros Ha. unfold touch. cbn [take]. f_equal. revert n Ha. induction r as [|x r IH]; intros n Ha; [reflexivity|].
  destruct n as [|n]; [reflexivity|]. cbn [take] in *. apply not_elem_of_cons in Ha as [Hne Ha].
  rewrite filter_cons_True by congruence. cbn [take]. f_equal. now apply IH.
Qed.

End Recency.

(** ** GbcMemory is the memory of the last packets *)

Section GbcMemory_spec.
Context {Id : Type} `{EqDecision Id}.
Implicit Types (q : list Id) (h : list Id) (s : GbcMemory.t Id).

Lemma pop_to_drop n q : GbcMemory.pop_to n q = drop (length q - n) q.
Proof.
  induction q as [|x q IH]; [reflexivity|]. cbn [GbcMemory.pop_to]. destruct (Nat.ltb_spec n (length (x :: q))) as [Hn|Hn].
  - rewrite IH. cbn [length] in *. now replace (Datatypes.S (length q) - n)%nat with (Datatypes.S (length q - n)) by lia.
  - now replace (length (x :: q) - n)%nat with 0%nat by lia.
Qed.

Lemma reverse_pop_to n q : reverse (GbcMemory.pop_to n q) = take n (reverse q).
Proof.
  rewrite pop_to_drop. destruct (Nat.le_gt_cases n (length q)) as [Hn|Hn].
  - rewrite <- (take_drop (length q - n) q) at 3. rewrite reverse_app, take_app_length'; [reflexivity|].
    rewrite length_reverse, length_drop. lia.
  - replace (length q - n)%nat with 0%nat by lia. cbn [drop]. now rewrite take_ge by (rewrite length_reverse; lia).
Qed.

(** The memory of a capacity after a history of remembered packets, the last
    one first. *)
Fixpoint gbc_run (num : nat) h : GbcMemory.t Id :=
  match h with
  | [] => GbcMemory.set_capacity num GbcMemory.create
  | id :: older => (GbcMemory.remember id (gbc_run num older)).2
  end.

Lemma gbc_run_capacity num h : GbcMemory.m_capacity (gbc_run num h) = Nat.max 1 num.
Proof.
  induction h as [|id h IH]; cbn [gbc_run].
  - unfold GbcMemory.set_capacity. cbn [GbcMemory.m_capacity]. destruct (Nat.ltb_spec num 1); lia.
  - unfold GbcMemory.remember. now destruct (GbcMemory.knows _ _).
Qed.

Lemma reverse_filter_ne (id : Id) q : reverse (filter (fun x => x <> id) q) = filter (fun x => x <> id) (reverse q).
Proof.
  induction q as [|x q IH]; [reflexivity|]. rewrite reverse_cons, filter_app, <- IH.
  destruct (decide (x = id)) as [->|Hne].
  - rewrite !filter_cons_False by (intros C; now apply C). now rewrite app_nil_r.
  - now rewrite !filter_cons_True, reverse_cons by assumption.
Qed.

Lemma gbc_run_recent num h : reverse (GbcMemory.m_identifiers (gbc_run num h)) = take (Nat.max 1 num) (recent h).
Proof.
  induction h as [|id h IH]; cbn [gbc_run recent]; [now rewrite take_nil|].
  unfold GbcMemory.remember, GbcMemory.knows. rewrite gbc_run_capacity. case_bool_decide as Hk; cbn [snd GbcMemory.m_identifiers].
  - rewrite reverse_app, reverse_filter_ne, IH. rewrite <- elem_of_reverse, IH in Hk. symmetry. apply take_touch_in; [apply recent_NoDup|exact Hk].
  - rewrite reverse_app, reverse_pop_to, IH, take_take. rewrite <- elem_of_reverse, IH in Hk.
    destruct (Nat.max 1 num) as [|n] eqn:En; [lia|]. rewrite take_touch_out.
    + now rewrite Nat.min_l, Nat.sub_succ, Nat.sub_0_r by lia.
    + intros (i & Ei & Hi)%elem_of_take. apply Hk. apply elem_of_take. exists i. split; [exact Ei|lia].
Qed.

(** GbcMemory knows exactly the last packets it was asked to remember, as
    many distinct ones as its capacity (at least one): remember() tells
    whether a packet is among them, and shrinking the capacity forgets the
    least recent ones. *)
Theorem gbc_memory_recent num h id num' :
  let s := gbc_run num h in
  reverse (GbcMemory.m_identifiers s) = take (Nat.max 1 num) (recent h) /\ NoDup (GbcMemory.m_identifiers s) /\
  (GbcMemory.size s <= Nat.max 1 num)%nat /\
  (GbcMemory.remember id s).1 = GbcMemory.knows id s /\
  (GbcMemory.knows id s = true <-> id ∈ take (Nat.max 1 num) (recent h)) /\
  reverse (GbcMemory.m_identifiers (GbcMemory.set_capacity num' s)) = take (Nat.min (Nat.max 1 num') (Nat.max 1 num)) (recent h).
Proof.
  cbv zeta. pose proof (gbc_run_recent num h) as E. set (s := gbc_run num h) in *. split_all.
  - exact E.
  - rewrite <- reverse_Permutation, E. eapply sublist_NoDup; [apply recent_NoDup|apply sublist_take].
  - unfold GbcMemory.size. rewrite <- length_reverse, E, length_take. lia.
  - unfold GbcMemory.remember. now destruct (GbcMemory.knows id s).
  - unfold GbcMemory.knows. now rewrite bool_decide_eq_true, <- E, elem_of_reverse.
  - unfold GbcMemory.set_capacity. cbn [GbcMemory.m_identifiers]. rewrite reverse_pop_to, E, take_take. f_equal.
    destruct (Nat.ltb_spec num' 1); lia.
Qed.

End GbcMemory_spec.

(** ** LruCache is transparent and bounded *)

Section LruCache_spec.
Context {K : Type} `{Countable K} {V : Type}.
Variable m_generator : K -> V.

Fixpoint lru_run (capacity : nat) (h : list K) : LruCache.t K V :=
  match h with
  | [] => LruCache.create capacity
  | k :: older => (LruCache.access m_generator k (lru_run capacity older)).2
  end.

(** The cache holds the generated value of every key of the index. *)
Definition cached (ks : list K) (c : gmap K V) : Prop :=
  forall k, c !! k = if decide (k ∈ ks) then Some (m_generator k) else None.

Lemma cached_size ks c : NoDup ks -> cached ks c -> size c = length ks.
Proof.
  intros Hd Hc. rewrite <- size_dom. rewrite <- (size_list_to_set (C := gset K) ks Hd). f_equal. apply set_eq. intros k.
  rewrite elem_of_dom, elem_of_list_to_set, Hc. destruct (decide (k ∈ ks)); split; try easy. intros [v E]. discriminate.
Qed.

Lemma cached_cons k ks c : cached ks c -> cached (k :: ks) (<[k := m_generator k]> c).
Proof.
  intros Hc k'. destruct (decide (k' = k)) as [->|Hne].
  - now rewrite lookup_insert_eq, decide_True by constructor.
  - rewrite lookup_insert_ne, Hc by congruence. destruct (decide (k' ∈ ks)) as [Hi|Hi].
    + now rewrite decide_True by (now constructor).
    + rewrite decide_False; [reflexivity|]. intros [?|?]%elem_of_cons; easy.
Qed.

Lemma cached_snoc k ks c : NoDup (ks ++ [k]) -> cached (ks ++ [k]) c -> cached ks (delete k c).
Proof.
  intros Hd Hc k'. apply NoDup_app in Hd as (_ & Hd & _). destruct (decide (k' = k)) as [->|Hne].
  - rewrite lookup_delete_eq, decide_False; [reflexivity|]. intros Hk. apply (Hd k Hk). constructor.
  - rewrite lookup_delete_ne, Hc by congruence. destruct (decide (k' ∈ ks)) as [Hi|Hi].
    + rewrite decide_True; [reflexivity|]. apply elem_of_app. now left.
    + rewrite decide_False; [reflexivity|]. intros [?|[?|?%elem_of_nil]%elem_of_cons]%elem_of_app; easy.
Qed.

Lemma cached_ext ks ks' c : (forall k, k ∈ ks <-> k ∈ ks') -> cached ks c -> cached ks' c.
Proof. intros He Hc k. rewrite Hc. specialize (He k). destruct (decide (k ∈ ks)), (decide (k ∈ ks')); tauto. Qed.

(** Making room leaves the most recent keys but for the last place. *)
Lemma make_room n R (s : LruCache.t K V) :
  NoDup R -> n = Nat.max 1 (LruCache.m_capacity s) -> LruCache.m_index s = take n R -> cached (take n R) (LruCache.m_cache s) ->
  let s' := if (LruCache.m_capacity s <=? size (LruCache.m_cache s))%nat then LruCache.remove s else s in
  LruCache.m_index s' = take (n - 1) R /\ cached (take (n - 1) R) (LruCache.m_cache s') /\ LruCache.m_capacity s' = LruCache.m_capacity s.
Proof.
  intros HR En Ei Hc. assert (Hd : NoDup (take n R)) by (eapply sublist_NoDup; [exact HR|apply sublist_take]).
  rewrite (cached_size (take n R)) by assumption. rewrite length_take. cbv zeta.
  destruct (Nat.leb_spec (LruCache.m_capacity s) (Nat.min n (length R))) as [Hl|Hl].
  - unfold LruCache.remove. rewrite Ei. destruct (Nat.le_gt_cases n (length R)) as [Hn|Hn].
    + destruct n as [|n]; [lia|]. destruct (lookup_lt_is_Some_2 R n) as [k Ek]; [lia|].
      rewrite (take_S_r R n k Ek) in *. rewrite last_snoc, removelast_last, Nat.sub_succ, Nat.sub_0_r. cbn. split_all; auto.
      now apply cached_snoc.
    + assert (E0 : R = []) by (destruct R; [reflexivity|cbn in *; lia]). subst R. rewrite !take_nil in *. cbn. split_all; auto.
  - rewrite !take_ge in * by lia. auto.
Qed.

Lemma lru_run_spec capacity h : let n := Nat.max 1 capacity in
  LruCache.m_index (lru_run capacity h) = take n (recent h) /\ cached (take n (recent h)) (LruCache.m_cache (lru_run capacity h)) /\
  LruCache.m_capacity (lru_run capacity h) = capacity.
Proof.
  cbv zeta. induction h as [|k h (Ei & Hc & Ec)]; cbn [lru_run recent].
  - rewrite take_nil. split_all; try reflexivity. intros k. cbn. rewrite lookup_empty, decide_False; [reflexivity|apply not_elem_of_nil].
  - set (s := lru_run capacity h) in *. unfold LruCache.access. rewrite (Hc k). destruct (decide (k ∈ take (Nat.max 1 capacity) (recent h))) as [Hk|Hk].
    + rewrite take_touch_in by (assumption || apply recent_NoDup). cbn. rewrite Ei. split_all; auto. revert Hc. apply cached_ext. intros k'.
      unfold touch. rewrite elem_of_cons, list_elem_of_filter. destruct (decide (k' = k)) as [->|]; tauto.
    + unfold LruCache.add. destruct (make_room (Nat.max 1 capacity) (recent h) s) as (Ei' & Hc' & Ec'); [apply recent_NoDup|now rewrite Ec|assumption..|].
      cbv zeta. cbn [snd LruCache.m_index LruCache.m_cache LruCache.m_capacity].
      destruct (Nat.max 1 capacity) as [|n] eqn:En; [lia|]. rewrite Nat.sub_succ, Nat.sub_0_r in *. rewrite take_touch_out.
      * rewrite Ei'. split_all; [reflexivity|now apply cached_cons|congruence].
      * intros (i & Eq & Hi)%elem_of_take. apply Hk. apply elem_of_take. exists i. split; [exact Eq|lia].
Qed.

(** Access returns the generated value of the key whether it is cached or
    not; the cache holds the last used keys, as many as the capacity and one
    if that is zero, and its index lists them in the order of their last
    use. *)
Theorem lru_cache_transparent capacity h k :
  let n := Nat.max 1 capacity in let s := lru_run capacity h in
  (LruCache.access m_generator k s).1 = m_generator k /\ LruCache.m_index s = take n (recent h) /\
  (size (LruCache.m_cache s) <= n)%nat /\
  (forall k', LruCache.m_cache s !! k' = if decide (k' ∈ take n (recent h)) then Some (m_generator k') else None).
Proof.
  cbv zeta. destruct (lru_run_spec capacity h) as (Ei & Hc & _). split_all; [|exact Ei| |exact Hc].
  - unfold LruCache.access. rewrite Hc. now destruct (decide (k ∈ take (Nat.max 1 capacity) (recent h))).
  - rewrite (cached_size _ _ (sublist_NoDup _ _ (recent_NoDup h) (sublist_take _ _)) Hc), length_take. lia.
Qed.

End LruCache_spec.

(** ** DuplicatePacketList counts packets *)

Module DPL := DuplicatePacketList.

(** The list after the checks of a history, the last one first. *)
Fixpoint dpl_run (elements : nat) (h : list Z) : DPL.t :=
  match h with
  | [] => DPL.create elements
  | sn :: older => (DPL.check sn (dpl_run elements older)).2
  end.

(** The distinct numbers of a history from the first seen on, and how often
    one was seen. *)
Fixpoint firsts (h : list Z) : list Z :=
  match h with
  | [] => []
  | a :: older => if decide (a ∈ older) then firsts older else firsts older ++ [a]
  end.
Fixpoint occurrences (a : Z) (h : list Z) : Z :=
  match h with
  | [] => 0
  | b :: older => (if b =? a then 1 else 0) + occurrences a older
  end.

Lemma elem_of_firsts a h : a ∈ firsts h <-> a ∈ h.
Proof.
  induction h as [|b h IH]; [reflexivity|]. cbn [firsts]. rewrite elem_of_cons. destruct (decide (b ∈ h)) as [Hb|Hb].
  - rewrite IH. split; [tauto|]. now intros [->|?].
  - rewrite elem_of_app, list_elem_of_singleton, IH. tauto.
Qed.

Lemma occurrences_0 a h : a ∉ h -> occurrences a h = 0.
Proof.
  induction h as [|b h IH]; [reflexivity|]. intros [Hne Ha]%not_elem_of_cons. cbn [occurrences].
  destruct (Z.eqb_spec b a); [congruence|]. rewrite IH by assumption. reflexivity.
Qed.

Definition numbered (h : list Z) (a : Z) : DPL.ListElement := DPL.mk_element a (u32 (occurrences a h)).

Lemma find_numbered h a l : DPL.find a (map (numbered h) l) = if decide (a ∈ l) then Some (numbered h a) else None.
Proof.
  unfold DPL.find. induction l as [|b l IH]; [now rewrite decide_False by apply not_elem_of_nil|]. cbn [map find].
  change (DPL.is_sn a (numbered h b)) with (b =? a). destruct (Z.eqb_spec b a) as [->|Hne].
  - rewrite decide_True; [reflexivity|]. apply elem_of_cons. now left.
  - rewrite IH. destruct (decide (a ∈ l)) as [Hi|Hi].
    + rewrite decide_True; [reflexivity|]. apply elem_of_cons. now right.
    + rewrite decide_False; [reflexivity|]. intros [?|?]%elem_of_cons; [congruence|contradiction].
Qed.

Lemma increment_numbered h a l : NoDup l -> a ∈ l -> DPL.increment a (map (numbered h) l) = map (numbered (a :: h)) l.
Proof.
  intros Hd Ha. induction Hd as [|b l Hb Hl IH]; [now apply elem_of_nil in Ha|]. cbn [map DPL.increment].
  change (DPL.is_sn a (numbered h b)) with (b =? a). destruct (Z.eqb_spec b a) as [->|Hne].
  - f_equal.
    + unfold numbered. cbn [DPL.counter_of occurrences]. rewrite Z.eqb_refl. f_equal. unfold uwrap. rewrite Zplus_mod_idemp_l. f_equal. lia.
    + apply map_ext_in. intros x Hx. unfold numbered. cbn [occurrences]. destruct (Z.eqb_spec a x) as [->|]; [|reflexivity].
      exfalso. apply Hb. now apply list_elem_of_In.
  - apply elem_of_cons in Ha as [->|Ha]; [easy|]. f_equal; [|now apply IH]. unfold numbered. cbn [occurrences].
    destruct (Z.eqb_spec a b); [congruence|reflexivity].
Qed.

Lemma firsts_NoDup h : NoDup (firsts h).
Proof.
  induction h as [|a h IH]; [constructor|]. cbn [firsts]. destruct (decide (a ∈ h)) as [Ha|Ha]; [exact IH|].
  apply NoDup_app. split; [exact IH|]. split; [|apply NoDup_singleton]. intros x Hx ->%list_elem_of_singleton. now apply Ha, elem_of_firsts.
Qed.

Lemma dpl_run_capacity n h : DPL.capacity (dpl_run n h) = n.
Proof. induction h as [|a h IH]; [reflexivity|]. cbn [dpl_run]. unfold DPL.check. now destruct (DPL.find _ _). Qed.

Lemma dpl_run_spec n h : (length (firsts h) <= n)%nat -> DPL.m_elements (dpl_run n h) = map (numbered h) (firsts h).
Proof.
  induction h as [|a h IH]; [reflexivity|]. cbn [firsts dpl_run]. intros Hn.
  assert (E : DPL.m_elements (dpl_run n h) = map (numbered h) (firsts h)).
  { apply IH. destruct (decide (a ∈ h)); [exact Hn|]. rewrite length_app in Hn. lia. }
  unfold DPL.check. rewrite E, find_numbered. destruct (decide (a ∈ h)) as [Ha|Ha].
  - rewrite decide_True by now apply elem_of_firsts. cbn [snd DPL.m_elements]. apply increment_numbered; [apply firsts_NoDup|now apply elem_of_firsts].
  - rewrite decide_False by (now rewrite elem_of_firsts). cbn [snd DPL.push_back DPL.m_elements]. rewrite E, dpl_run_capacity, length_map.
    rewrite length_app in Hn. cbn in Hn. rewrite (proj2 (Nat.ltb_lt _ _)) by lia. rewrite map_app. f_equal.
    + apply map_ext_in. intros x Hx. unfold numbered. cbn [occurrences]. destruct (Z.eqb_spec a x) as [->|]; [|reflexivity].
      exfalso. apply Ha, elem_of_firsts. now apply list_elem_of_In.
    + unfold numbered. cbn. now rewrite Z.eqb_refl, occurrences_0.
Qed.

Lemma increment_sns sn l : map DPL.sequence_number (DPL.increment sn l) = map DPL.sequence_number l.
Proof. induction l as [|e l IH]; [reflexivity|]. cbn. destruct (DPL.is_sn sn e); cbn; congruence. Qed.

Lemma dpl_find_None sn l : DPL.find sn l = None -> sn ∉ map DPL.sequence_number l.
Proof.
  unfold DPL.find. induction l as [|e l IH]; [intros _; apply not_elem_of_nil|]. cbn [find map].
  change (DPL.is_sn sn e) with (DPL.sequence_number e =? sn). destruct (Z.eqb_spec (DPL.sequence_number e) sn); [discriminate|]. intros E. apply not_elem_of_cons. split; [congruence|now apply IH].
Qed.

Lemma dpl_run_bounded n h : (length (DPL.m_elements (dpl_run n h)) <= n)%nat /\ NoDup (map DPL.sequence_number (DPL.m_elements (dpl_run n h))).
Proof.
  induction h as [|a h [Hl Hd]]; [split; [cbn; lia|constructor]|]. cbn [dpl_run]. pose proof (dpl_run_capacity n h) as Ec.
  set (s := dpl_run n h) in *. unfold DPL.check. destruct (DPL.find a (DPL.m_elements s)) eqn:Ef; cbn [snd DPL.m_elements DPL.push_back].
  - split; [|now rewrite increment_sns]. rewrite <- (length_map DPL.sequence_number), increment_sns, length_map. exact Hl.
  - apply dpl_find_None in Ef. rewrite Ec. destruct (Nat.ltb_spec (length (DPL.m_elements s)) n) as [Hn|Hn].
    + rewrite length_app, map_app. split; [cbn; lia|]. apply NoDup_app. split; [exact Hd|]. split; [|apply NoDup_singleton].
      intros x Hx ->%list_elem_of_singleton. now apply Ef.
    + destruct (DPL.m_elements s) as [|e l]; [now split|]. cbn [length map] in *. rewrite length_app, map_app. split; [cbn; lia|].
      apply NoDup_cons in Hd as [_ Hd]. apply NoDup_app. split; [exact Hd|]. split; [|apply NoDup_singleton].
      intros x Hx ->%list_elem_of_singleton. apply Ef. now constructor.
Qed.

(** The list never exceeds its capacity nor holds a number twice; and as
    long as no more distinct numbers than its capacity were checked, check()
    recognises exactly the numbers checked before, and counter() is how
    often one was checked, modulo 2^32. *)
Theorem duplicate_detection n h sn :
  (length (DPL.m_elements (dpl_run n h)) <= n)%nat /\ NoDup (map DPL.sequence_number (DPL.m_elements (dpl_run n h))) /\
  ((length (firsts h) <= n)%nat ->
     (DPL.check sn (dpl_run n h)).1 = bool_decide (sn ∈ h) /\ DPL.counter sn (dpl_run n h) = u32 (occurrences sn h)).
Proof.
  destruct (dpl_run_bounded n h) as [Hl Hd]. split; [exact Hl|]. split; [exact Hd|]. intros Hn. pose proof (dpl_run_spec n h Hn) as E.
  unfold DPL.check, DPL.counter. rewrite E, find_numbered. destruct (decide (sn ∈ firsts h)) as [Hi|Hi]; rewrite elem_of_firsts in Hi.
  - now rewrite bool_decide_true.
  - now rewrite bool_decide_false, occurrences_0.
Qed.

Lemma duplicate_detection_witness :
  (DPL.check 7 (dpl_run 2 [9; 7; 9])).1 = true /\ DPL.counter 9 (dpl_run 2 [9; 7; 9]) = 2 /\
  (DPL.check 5 (dpl_run 2 [9; 7; 5])).1 = false.
Proof.
  destruct (duplicate_detection 2 [9; 7; 9] 7) as (_ & _ & H7). destruct (H7 ltac:(vm_compute; lia)) as [E7 _].
  destruct (duplicate_detection 2 [9; 7; 9] 9) as (_ & _ & H9). destruct (H9 ltac:(vm_compute; lia)) as [_ E9].
  split; [rewrite E7; reflexivity|]. split; [rewrite E9; reflexivity|]. vm_compute. reflexivity.
Defined.
