(* ===== verification/SoftState.v ===== *)
(** Maps with expiring entries: geonet/soft_state_map.hpp.

    An entry of the hash map holds a handle to its node of the heap, and the
    node holds the key back.  Handles are modelled as the numbers of the
    nodes, so that a handle may dangle: an operation that follows a dangling
    handle has no result, and part of the refinement is that none does. *)

From stdpp Require Import gmap.
From S2P Require Import Prelude.

Open Scope Z_scope.

(** A time point or a duration of Clock, in microseconds. *)
Abbreviation time := Z.

Section SoftStateMap.
Context {K : Type} `{Countable K} {V : Type}.

(** * The data structure *)

(** ExpiryWithKey. *)
Abbreviation node := (time * K)%type.

(** The heap, ordered by the expiry of its nodes. *)
Abbreviation heap := (gmap nat node).

Record SoftStateMap := mk_SoftStateMap {
  m_lifetime : time;
  m_heap : heap;
  m_map : gmap K (nat * V) (* handle and value *)
}.

(** m_creator, when the clock shows its argument. *)
Variable m_creator : time -> V.

Definition with_heap (h : heap) (m : SoftStateMap) : SoftStateMap := mk_SoftStateMap (m_lifetime m) h (m_map m).
Definition set_lifetime (l : time) (m : SoftStateMap) : SoftStateMap := mk_SoftStateMap l (m_heap m) (m_map m).
Definition SoftStateMap_empty : SoftStateMap := mk_SoftStateMap 0 ∅ ∅.

(** ** The heap *)

Definition fresh_handle (hp : heap) : nat := Datatypes.S (map_fold (fun h _ m => Nat.max h m) 0%nat hp).

Definition earlier (h : nat) (n : node) (acc : option (nat * node)) : option (nat * node) :=
  match acc with
  | Some (_, n') => if n.1 <? n'.1 then Some (h, n) else acc
  | None => Some (h, n)
  end.

(** top(): a node of least expiry. *)
Definition top (hp : heap) : option (nat * node) := map_fold earlier None hp.

(** ** Operations *)

Definition is_expired (now : time) (expiry : time) : bool := expiry <? now.

Definition get_data_ptr (key : K) (m : SoftStateMap) : option (nat * V) := m_map m !! key.

(** Whether the node of a handle is expired; nothing when it dangles. *)
Definition handle_expired (now : time) (handle : nat) (m : SoftStateMap) : option bool :=
  (fun n : node => is_expired now n.1) <$> m_heap m !! handle.

(** refresh(handle). *)
Definition refresh_handle (now : time) (handle : nat) (m : SoftStateMap) : option SoftStateMap :=
  (fun n : node => with_heap (<[handle := (now + m_lifetime m, n.2)]> (m_heap m)) m) <$> m_heap m !! handle.

(** The branch of get_data that creates an entry. *)
Definition create (now : time) (key : K) (m : SoftStateMap) : SoftStateMap :=
  let handle := fresh_handle (m_heap m) in
  mk_SoftStateMap (m_lifetime m) (<[handle := (now + m_lifetime m, key)]> (m_heap m)) (<[key := (handle, m_creator now)]> (m_map m)).

(** get_data and get_value: the value is then found at [key]. *)
Definition get_value (now : time) (key : K) (m : SoftStateMap) : option SoftStateMap :=
  match get_data_ptr key m with
  | None => Some (create now key m)
  | Some (handle, _) =>
      match handle_expired now handle m with
      | Some true => refresh_handle now handle m
      | Some false => Some m
      | None => None
      end
  end.

Definition get_value_ptr (now : time) (key : K) (m : SoftStateMap) : option (option V) :=
  match get_data_ptr key m with
  | None => Some None
  | Some (handle, v) => (fun expired : bool => if expired then None else Some v) <$> handle_expired now handle m
  end.

Definition has_value (now : time) (key : K) (m : SoftStateMap) : option bool :=
  (fun p : option V => match p with Some _ => true | None => false end) <$> get_value_ptr now key m.

Definition refresh (now : time) (key : K) (m : SoftStateMap) : option SoftStateMap :=
  match get_data_ptr key m with
  | Some (handle, _) => refresh_handle now handle m
  | None => get_value now key m
  end.

(** Assignment through the reference an operation returned. *)
Definition assign (key : K) (f : V -> V) (m : SoftStateMap) : SoftStateMap :=
  mk_SoftStateMap (m_lifetime m) (m_heap m) (alter (fun d : nat * V => (d.1, f d.2)) key (m_map m)).

(** The loop of drop_expired, for at most [fuel] nodes. *)
Fixpoint drop_loop (fuel : nat) (now : time) (m : SoftStateMap) : SoftStateMap :=
  match fuel with
  | O => m
  | Datatypes.S fuel' =>
      match top (m_heap m) with
      | Some (h, (expiry, key)) =>
          if is_expired now expiry then
            drop_loop fuel' now (mk_SoftStateMap (m_lifetime m) (delete h (m_heap m)) (delete key (m_map m)))
          else m
      | None => m
      end
  end.
Definition drop_expired (now : time) (m : SoftStateMap) : SoftStateMap := drop_loop (size (m_heap m)) now m.

(** map(): the entries that are not expired. *)
Definition map_range (now : time) (m : SoftStateMap) : gmap K V :=
  omap (fun d : nat * V => match handle_expired now d.1 m with Some false => Some d.2 | _ => None end) (m_map m).

(** * The abstract map *)

(** A map from keys to a deadline and a value. *)
Abbreviation amap := (gmap K (time * V)).

Definition abs (m : SoftStateMap) : amap :=
  omap (fun d : nat * V => (fun n : node => (n.1, d.2)) <$> m_heap m !! d.1) (m_map m).

(** Every handle leads to the node of its key, and every node belongs to an
    entry. *)
Definition Linked (m : SoftStateMap) : Prop :=
  (forall k h v, m_map m !! k = Some (h, v) -> exists e, m_heap m !! h = Some (e, k)) /\
  (forall h e k, m_heap m !! h = Some (e, k) -> exists v, m_map m !! k = Some (h, v)).

(** ** Specification of the operations *)

Definition live (now : time) (a : amap) : gmap K V := omap (fun d : time * V => if is_expired now d.1 then None else Some d.2) a.

(** refresh: the entry gets a new lifetime and keeps its value, or is created. *)
Definition spec_refresh (now life : time) (k : K) (a : amap) : amap :=
  <[k := (now + life, match a !! k with Some (_, v) => v | None => m_creator now end)]> a.

(** get_value as the comment in get_data documents it: an entry that is absent
    or has expired is as if it had just been created. *)
Definition documented_get_value (now life : time) (k : K) (a : amap) : amap :=
  match live now a !! k with Some _ => a | None => <[k := (now + life, m_creator now)]> a end.

(** get_value as the code has it: an expired entry that was not dropped yet
    gets a new lifetime, but keeps its old value, against that comment. *)
Definition spec_get_value (now life : time) (k : K) (a : amap) : amap :=
  match a !! k with
  | Some (e, v) => if is_expired now e then <[k := (now + life, v)]> a else a
  | None => <[k := (now + life, m_creator now)]> a
  end.

Definition spec_drop (now : time) (a : amap) : amap := filter (fun p => is_expired now p.2.1 = false) a.

(** * The refinement *)

Lemma fresh_handle_above hp h n : hp !! h = Some n -> (h < fresh_handle hp)%nat.
Proof.
  unfold fresh_handle. revert h n. apply (map_fold_weak_ind (fun m hp => forall h n, hp !! h = Some n -> (h < Datatypes.S m)%nat)).
  - intros h n E. now rewrite lookup_empty in E.
  - intros i x hp' m Hi IH h n. rewrite lookup_insert_Some. intros [[<- _]|[_ E]]; [lia|]. apply IH in E. lia.
Qed.

Lemma fresh_handle_None hp : hp !! fresh_handle hp = None.
Proof. apply eq_None_not_Some. intros [n E]. apply fresh_handle_above in E. lia. Qed.

Lemma top_spec hp :
  match top hp with
  | Some (h, n) => hp !! h = Some n /\ forall h' n', hp !! h' = Some n' -> n.1 <= n'.1
  | None => hp = ∅
  end.
Proof.
  unfold top. apply (map_fold_weak_ind (fun t hp => match t with
    | Some (h, n) => hp !! h = Some n /\ forall h' n', hp !! h' = Some n' -> n.1 <= n'.1 | None => hp = ∅ end)); [reflexivity|].
  intros i x hp' [[h n]|] Hi IH; cbn [earlier].
  - destruct IH as [Hh Hmin]. destruct (Z.ltb_spec x.1 n.1) as [Hlt|Hge].
    + split; [apply lookup_insert_eq|]. intros h' n' [[_ <-]|[_ E]]%lookup_insert_Some; [lia|]. apply Hmin in E. lia.
    + split; [rewrite lookup_insert_ne; [exact Hh|congruence]|].
      intros h' n' [[_ <-]|[_ E]]%lookup_insert_Some; [lia|]. eapply Hmin; eassumption.
  - subst. split; [apply lookup_insert_eq|]. intros h' n' [[_ <-]|[_ E]]%lookup_insert_Some; [lia|]. now rewrite lookup_empty in E.
Qed.

Lemma abs_lookup m k : abs m !! k = m_map m !! k ≫= fun d => (fun n : node => (n.1, d.2)) <$> m_heap m !! d.1.
Proof. apply lookup_omap. Qed.

Lemma Linked_lookup m k h v : Linked m -> m_map m !! k = Some (h, v) ->
  exists e, m_heap m !! h = Some (e, k) /\ abs m !! k = Some (e, v).
Proof.
  intros HL E. destruct (proj1 HL k h v E) as [e Eh]. exists e. split; [exact Eh|]. rewrite abs_lookup, E. cbn. now rewrite Eh.
Qed.

Lemma Linked_None m k : Linked m -> m_map m !! k = None -> abs m !! k = None.
Proof. intros _ E. now rewrite abs_lookup, E. Qed.

Lemma Linked_empty : Linked SoftStateMap_empty.
Proof. split; cbn; intros *; now rewrite lookup_empty. Qed.

(** Two keys do not share a handle. *)
Lemma Linked_inj m k k' h v v' : Linked m -> m_map m !! k = Some (h, v) -> m_map m !! k' = Some (h, v') -> k = k'.
Proof.
  intros [H1 _] E E'. destruct (H1 _ _ _ E) as [e Ee]. destruct (H1 _ _ _ E') as [e' Ee']. rewrite Ee in Ee'. now injection Ee'.
Qed.

Lemma refresh_handle_spec now m k h v : Linked m -> m_map m !! k = Some (h, v) ->
  exists m', refresh_handle now h m = Some m' /\ Linked m' /\ m_lifetime m' = m_lifetime m /\
    abs m' = <[k := (now + m_lifetime m, v)]> (abs m).
Proof.
  intros HL E. destruct (Linked_lookup m k h v HL E) as (e & Eh & _). unfold refresh_handle. rewrite Eh. cbn [fmap option_fmap option_map snd].
  eexists. split; [reflexivity|]. split; [|split; [reflexivity|]].
  - pose proof HL as [H1 H2]. split; cbn.
    + intros k' h' v' E'. destruct (decide (h' = h)) as [->|Hne].
      * exists (now + m_lifetime m). rewrite lookup_insert_eq. f_equal. f_equal. now apply (Linked_inj m k k' h v v').
      * rewrite lookup_insert_ne by congruence. eauto.
    + intros h' e' k' [[<- [= <- <-]]|[_ E']]%lookup_insert_Some; eauto.
  - apply map_eq. intros k'. rewrite abs_lookup. cbn. destruct (decide (k' = k)) as [->|Hne].
    + rewrite lookup_insert_eq, E. cbn. now rewrite lookup_insert_eq.
    + rewrite lookup_insert_ne by congruence. rewrite abs_lookup. destruct (m_map m !! k') as [[h' v']|] eqn:E'; [|reflexivity].
      cbn. rewrite lookup_insert_ne; [reflexivity|]. intros <-. apply Hne. now apply (Linked_inj m k' k h v' v).
Qed.

Lemma create_spec now m k : Linked m -> m_map m !! k = None ->
  Linked (create now k m) /\ abs (create now k m) = <[k := (now + m_lifetime m, m_creator now)]> (abs m).
Proof.
  intros HL E. pose proof (fresh_handle_None (m_heap m)) as Hf. set (h := fresh_handle (m_heap m)) in *.
  assert (Hused : forall k' h' v', m_map m !! k' = Some (h', v') -> h' <> h).
  { intros k' h' v' E' ->. destruct (proj1 HL _ _ _ E') as [e Ee]. congruence. }
  split.
  - destruct HL as [H1 H2]. unfold create. fold h. split; cbn.
    + intros k' h' v' [[<- [= <- <-]]|[Hne E']]%lookup_insert_Some; [eexists; apply lookup_insert_eq|].
      rewrite lookup_insert_ne; [eauto|]. intros <-. now apply (Hused _ _ _ E').
    + intros h' e' k' [[<- [= <- <-]]|[Hne E']]%lookup_insert_Some; [eexists; apply lookup_insert_eq|].
      destruct (H2 _ _ _ E') as [v' Ev]. exists v'. rewrite lookup_insert_ne by congruence. exact Ev.
  - apply map_eq. intros k'. rewrite abs_lookup. unfold create. fold h. cbn. destruct (decide (k' = k)) as [->|Hne].
    + rewrite !lookup_insert_eq. cbn. now rewrite lookup_insert_eq.
    + rewrite !(lookup_insert_ne _ k k') by congruence. rewrite abs_lookup. destruct (m_map m !! k') as [[h' v']|] eqn:E'; [|reflexivity].
      cbn. rewrite lookup_insert_ne; [reflexivity|]. intros <-. now apply (Hused _ _ _ E').
Qed.

Lemma handle_expired_spec now m k h v e : m_heap m !! h = Some (e, k) -> m_map m !! k = Some (h, v) ->
  handle_expired now h m = Some (is_expired now e).
Proof. intros Eh _. unfold handle_expired. now rewrite Eh. Qed.

(** The comment describes get_value of entries that are absent or live. *)
Lemma spec_documented now life k a : (forall e v, a !! k = Some (e, v) -> is_expired now e = false) ->
  spec_get_value now life k a = documented_get_value now life k a.
Proof.
  intros Hl. unfold spec_get_value, documented_get_value, live. rewrite lookup_omap.
  destruct (a !! k) as [[e v]|]; [|reflexivity]. cbn. now rewrite (Hl e v).
Qed.

Lemma get_value_spec now m k : Linked m ->
  exists m', get_value now k m = Some m' /\ Linked m' /\ m_lifetime m' = m_lifetime m /\
    abs m' = spec_get_value now (m_lifetime m) k (abs m).
Proof.
  intros HL. unfold get_value, get_data_ptr, spec_get_value. destruct (m_map m !! k) as [[h v]|] eqn:E.
  - destruct (Linked_lookup m k h v HL E) as (e & Eh & ->). rewrite (handle_expired_spec now m k h v e Eh E).
    destruct (is_expired now e); [now apply refresh_handle_spec|]. exists m. auto.
  - rewrite (Linked_None m k HL E). eexists. split; [reflexivity|]. destruct (create_spec now m k HL E). auto.
Qed.

Lemma refresh_spec now m k : Linked m ->
  exists m', refresh now k m = Some m' /\ Linked m' /\ m_lifetime m' = m_lifetime m /\
    abs m' = spec_refresh now (m_lifetime m) k (abs m).
Proof.
  intros HL. unfold refresh, spec_refresh. unfold get_data_ptr. destruct (m_map m !! k) as [[h v]|] eqn:E.
  - destruct (Linked_lookup m k h v HL E) as (e & _ & ->). now apply refresh_handle_spec.
  - destruct (get_value_spec now m k HL) as (m' & -> & HL' & El & Ea). exists m'. split_all; auto.
    rewrite Ea. unfold spec_get_value. now rewrite (Linked_None m k HL E).
Qed.

Lemma get_value_ptr_spec now m k : Linked m -> get_value_ptr now k m = Some (live now (abs m) !! k).
Proof.
  intros HL. unfold get_value_ptr, get_data_ptr, live. rewrite lookup_omap. destruct (m_map m !! k) as [[h v]|] eqn:E.
  - destruct (Linked_lookup m k h v HL E) as (e & Eh & ->). rewrite (handle_expired_spec now m k h v e Eh E). cbn.
    now destruct (is_expired now e).
  - now rewrite (Linked_None m k HL E).
Qed.

Lemma map_range_spec now m : Linked m -> map_range now m = live now (abs m).
Proof.
  intros HL. apply map_eq. intros k. unfold map_range, live. rewrite !lookup_omap. destruct (m_map m !! k) as [[h v]|] eqn:E.
  - destruct (Linked_lookup m k h v HL E) as (e & Eh & ->). cbn. rewrite (handle_expired_spec now m k h v e Eh E).
    now destruct (is_expired now e).
  - now rewrite (Linked_None m k HL E).
Qed.

Lemma assign_spec m k f : Linked m ->
  Linked (assign k f m) /\ abs (assign k f m) = alter (fun d : time * V => (d.1, f d.2)) k (abs m).
Proof.
  intros HL. split.
  - pose proof HL as [H1 H2]. split; cbn.
    + intros k' h v. destruct (decide (k' = k)) as [->|Hne].
      * rewrite lookup_alter_eq. destruct (m_map m !! k) as [[h' v']|] eqn:E; [|discriminate]. intros [= <- <-]. eauto.
      * rewrite lookup_alter_ne by congruence. eauto.
    + intros h e k' Eh. destruct (H2 h e k' Eh) as [v Ev]. destruct (decide (k' = k)) as [->|Hne].
      * exists (f v). now rewrite lookup_alter_eq, Ev.
      * exists v. now rewrite lookup_alter_ne by congruence.
  - apply map_eq. intros k'. rewrite abs_lookup. cbn. destruct (decide (k' = k)) as [->|Hne].
    + rewrite !lookup_alter_eq, abs_lookup. destruct (m_map m !! k) as [[h v]|]; [|reflexivity]. cbn. now destruct (m_heap m !! h).
    + rewrite !lookup_alter_ne by congruence. now rewrite abs_lookup.
Qed.

(** ** Dropping *)

(** One turn of the loop, on the node at the top. *)
Lemma drop_one m h e k : Linked m -> m_heap m !! h = Some (e, k) ->
  let m' := mk_SoftStateMap (m_lifetime m) (delete h (m_heap m)) (delete k (m_map m)) in
  Linked m' /\ abs m' = delete k (abs m) /\ exists v, abs m !! k = Some (e, v).
Proof.
  intros HL Eh. destruct (proj2 HL h e k Eh) as [v Ev]. cbv zeta. split_all.
  - pose proof HL as [H1 H2]. split; cbn.
    + intros k' h' v' [Hne E']%lookup_delete_Some. rewrite lookup_delete_ne; [eauto|]. intros <-. apply Hne.
      destruct (H1 _ _ _ E') as [e' Ee']. rewrite Eh in Ee'. now injection Ee'.
    + intros h' e' k' [Hne E']%lookup_delete_Some. destruct (H2 _ _ _ E') as [v' Ev']. exists v'. rewrite lookup_delete_ne; [exact Ev'|].
      intros <-. apply Hne. rewrite Ev in Ev'. now injection Ev'.
  - apply map_eq. intros k'. rewrite abs_lookup. cbn. destruct (decide (k' = k)) as [->|Hne].
    + now rewrite !lookup_delete_eq.
    + rewrite !lookup_delete_ne by congruence. rewrite abs_lookup. destruct (m_map m !! k') as [[h' v']|] eqn:E'; [|reflexivity].
      cbn. rewrite lookup_delete_ne; [reflexivity|]. intros <-. apply Hne. now apply (Linked_inj m k' k h v' v).
  - destruct (Linked_lookup m k h v HL Ev) as (e' & Eh' & Ea). exists v. rewrite Eh in Eh'. now injection Eh' as <-.
Qed.

(** Deleting an expired entry does not change what survives. *)
Lemma spec_drop_delete now a k e v : a !! k = Some (e, v) -> is_expired now e = true -> spec_drop now (delete k a) = spec_drop now a.
Proof.
  intros E He. apply map_eq. intros k'. unfold spec_drop. destruct (decide (k' = k)) as [->|Hne].
  - transitivity (@None (time * V)); [|symmetry]; apply map_lookup_filter_None; [left; apply lookup_delete_eq|right].
    intros x Ex. rewrite E in Ex. injection Ex as <-. cbn. congruence.
  - rewrite !map_lookup_filter, lookup_delete_ne by congruence. reflexivity.
Qed.

Lemma abs_empty_heap now m : Linked m -> m_heap m = ∅ -> abs m = spec_drop now (abs m).
Proof.
  intros HL E. apply map_eq. intros k. unfold spec_drop. assert (Ek : abs m !! k = None).
  { destruct (m_map m !! k) as [[h v]|] eqn:Em; [|now apply Linked_None]. destruct (proj1 HL _ _ _ Em) as [e Ee].
    now rewrite E, lookup_empty in Ee. }
  rewrite Ek. symmetry. apply map_lookup_filter_None. auto.
Qed.

Lemma drop_loop_spec now fuel m : Linked m -> (size (m_heap m) <= fuel)%nat ->
  Linked (drop_loop fuel now m) /\ m_lifetime (drop_loop fuel now m) = m_lifetime m /\
  abs (drop_loop fuel now m) = spec_drop now (abs m).
Proof.
  revert m. induction fuel as [|fuel IH]; intros m HL Hs.
  - cbn. split_all; auto. apply abs_empty_heap; [assumption|]. apply map_size_empty_inv. lia.
  - cbn [drop_loop]. pose proof (top_spec (m_heap m)) as Ht. destruct (top (m_heap m)) as [[h [e k]]|].
    + destruct Ht as [Eh Hmin]. destruct (is_expired now e) eqn:He.
      * destruct (drop_one m h e k HL Eh) as (HL' & Ea & v & Ev).
        destruct (IH _ HL') as (HL2 & El & Ea2).
        { cbn. rewrite map_size_delete_Some by eauto. lia. }
        split_all; auto. rewrite Ea2, Ea. now apply (spec_drop_delete now _ k e v).
      * split_all; auto. symmetry. apply map_filter_id. intros k' [e' v'] E'. cbn. apply Z.ltb_ge.
        rewrite abs_lookup in E'. destruct (m_map m !! k') as [[h' w]|]; [|discriminate]. cbn in E'.
        destruct (m_heap m !! h') as [[e'' k'']|] eqn:E''; [|discriminate]. injection E' as <- <-.
        apply Hmin in E''. apply Z.ltb_ge in He. cbn in *. lia.
    + split_all; auto. now apply abs_empty_heap.
Qed.

(** More turns than nodes change nothing. *)
Lemma drop_loop_stable now m f1 f2 : Linked m -> (size (m_heap m) <= f1)%nat -> (size (m_heap m) <= f2)%nat ->
  drop_loop f1 now m = drop_loop f2 now m.
Proof.
  revert f2 m. induction f1 as [|f1 IH]; intros f2 m HL H1 H2.
  - assert (E : m_heap m = ∅) by (apply map_size_empty_inv; lia). destruct f2; [reflexivity|]. cbn [drop_loop]. rewrite E. reflexivity.
  - destruct f2 as [|f2].
    + assert (E : m_heap m = ∅) by (apply map_size_empty_inv; lia). cbn [drop_loop]. rewrite E. reflexivity.
    + cbn [drop_loop]. pose proof (top_spec (m_heap m)) as Ht. destruct (top (m_heap m)) as [[h [e k]]|]; [|reflexivity].
      destruct Ht as [Eh _]. destruct (is_expired now e); [|reflexivity]. destruct (drop_one m h e k HL Eh) as (HL' & _).
      apply IH; [exact HL'| |]; cbn; rewrite map_size_delete_Some by eauto; lia.
Qed.

(** C38.  SoftStateMap is a map from keys to a deadline and a value: no operation
    follows a dangling handle, and each does to the abstract map what its
    specification says.  For get_value this is what its comment documents
    ([documented_get_value]) except for an expired entry that was not dropped
    yet: has_value and get_value_ptr hide it, but get_value brings its OLD
    value back with a new lifetime, where the comment says that it is as if
    just created.  refresh keeps the value of an expired entry, too. *)
Theorem SoftStateMap_refines now k m : Linked m ->
  get_value_ptr now k m = Some (live now (abs m) !! k) /\
  map_range now m = live now (abs m) /\
  (exists m', get_value now k m = Some m' /\ Linked m' /\ m_lifetime m' = m_lifetime m /\
     abs m' = spec_get_value now (m_lifetime m) k (abs m) /\
     ((forall e v, abs m !! k = Some (e, v) -> is_expired now e = false) ->
      abs m' = documented_get_value now (m_lifetime m) k (abs m)) /\
     (forall e v, abs m !! k = Some (e, v) -> is_expired now e = true ->
      abs m' = <[k := (now + m_lifetime m, v)]> (abs m))) /\
  (exists m', refresh now k m = Some m' /\ Linked m' /\ m_lifetime m' = m_lifetime m /\
     abs m' = spec_refresh now (m_lifetime m) k (abs m)) /\
  (forall f, Linked (assign k f m) /\ abs (assign k f m) = alter (fun d : time * V => (d.1, f d.2)) k (abs m)) /\
  Linked (drop_expired now m) /\ abs (drop_expired now m) = spec_drop now (abs m).
Proof.
  intros HL. split_all; eauto using get_value_ptr_spec, map_range_spec, refresh_spec.
  - destruct (get_value_spec now m k HL) as (m' & E & HL' & El & Ea). exists m'. split_all; auto; rewrite Ea.
    + apply spec_documented.
    + intros e v Ek Hx. unfold spec_get_value. now rewrite Ek, Hx.
  - intros f. now apply assign_spec.
  - now apply drop_loop_spec.
  - now apply drop_loop_spec.
Qed.

(** drop_expired removes every expired entry: its loop ends because each
    turn takes a node off the heap, as many turns as there are nodes being
    enough. *)
Theorem drop_expired_complete now m fuel : Linked m -> (size (m_heap m) <= fuel)%nat ->
  drop_loop fuel now m = drop_expired now m /\
  (forall h e k, m_heap (drop_expired now m) !! h = Some (e, k) -> now <= e) /\
  (forall k, abs (drop_expired now m) !! k = None <-> live now (abs m) !! k = None).
Proof.
  intros HL Hf. split; [|split].
  - now apply drop_loop_stable.
  - intros h e k Eh. destruct (drop_loop_spec now (size (m_heap m)) m HL (le_n _)) as (HL' & _ & Ea). fold (drop_expired now m) in *.
    destruct (proj2 HL' h e k Eh) as [v Ev]. destruct (Linked_lookup _ k h v HL' Ev) as (e' & Eh' & Ek).
    rewrite Eh in Eh'. injection Eh' as <-. rewrite Ea in Ek. apply map_lookup_filter_Some in Ek as [_ Hx]. cbn in Hx. now apply Z.ltb_ge.
  - intros k. destruct (drop_loop_spec now (size (m_heap m)) m HL (le_n _)) as (_ & _ & Ea). fold (drop_expired now m) in *. rewrite Ea.
    unfold spec_drop, live. rewrite lookup_omap, map_lookup_filter. destruct (abs m !! k) as [[e v]|]; [|easy]. cbn.
    destruct (is_expired now e); cbn; [now rewrite option_guard_False by easy|now rewrite option_guard_True by easy].
Qed.

End SoftStateMap.

Arguments SoftStateMap K {_ _} V.

(** ** An example: an entry created at 10 with lifetime 5 *)

Definition example_map : SoftStateMap Z Z :=
  assign 7 (fun _ => 42) (create (fun _ => 0) 10 7 (set_lifetime 5 SoftStateMap_empty)).

Lemma example_map_Linked : Linked example_map.
Proof.
  apply assign_spec. apply create_spec; [|reflexivity]. split; cbn; intros *; now rewrite lookup_empty.
Qed.

(** At 16 the entry is hidden, and refreshing it brings its old value back. *)
Lemma SoftStateMap_refines_witness :
  get_value_ptr 15 7 example_map = Some (Some 42) /\ get_value_ptr 16 7 example_map = Some None /\
  exists m', refresh (fun _ => 0) 16 7 example_map = Some m' /\ abs m' !! 7 = Some (21, 42).
Proof.
  split; [vm_compute; reflexivity|].
  destruct (SoftStateMap_refines (fun _ => 0) 16 7 example_map example_map_Linked) as (Hp & _ & _ & (m' & Hr & _ & _ & Ea) & _).
  split; [rewrite Hp; vm_compute; reflexivity|]. exists m'. split; [exact Hr|]. rewrite Ea. vm_compute. reflexivity.
Defined.

Lemma drop_expired_complete_witness :
  abs (drop_expired 16 example_map) !! 7 = None /\ abs (drop_expired 15 example_map) !! 7 = Some (15, 42).
Proof.
  split; [|vm_compute; reflexivity].
  apply (drop_expired_complete 16 example_map 3 example_map_Linked); [vm_compute; lia|vm_compute; reflexivity].
Defined.
