(* ===== verification/LocationTable.v ===== *)
(** The location table: geonet/location_table.cpp over SoftStateMap.

    Of an entry's extensions those the router uses are modelled, the
    duplicate packet list and LocTEX_G5.  An operation has no result when
    SoftStateMap has none. *)

From S2P Require Import Prelude Double GnNumbers Archive GnWire Caches SoftState.
From Stdlib Require Import Floats.SpecFloat.
From stdpp Require Import gmap.

Open Scope Z_scope.

(** * Entries *)

(** Clock::time_point::min() and max(). *)
Definition time_min : time := - 2 ^ 63.
Definition time_max : time := 2 ^ 63 - 1.

(** geonet/loctex_g5.hpp *)
Record LocTEX_G5 := mk_LocTEX_G5 { local_update : Timestamp.t; source_update : Timestamp.t; dcc_mco : DccMcoField }.

Record LocationTableEntry := mk_LocationTableEntry {
  m_is_neighbour : time;
  m_has_position_vector : bool;
  m_position_vector : LongPositionVector;
  m_pdr : double;
  m_pdr_update : time;
  duplicate_packet_list : option DuplicatePacketList.t;
  loctex_g5 : option LocTEX_G5
}.

(** LocationTableEntryCreator. *)
Definition create_entry (now : time) : LocationTableEntry :=
  mk_LocationTableEntry time_min false LongPositionVector_default S754_nan now None None.

Definition geonet_address (e : LocationTableEntry) : Address := gn_addr (m_position_vector e).
Definition link_layer_address (e : LocationTableEntry) : MacAddress := mid (geonet_address e).
Definition is_neighbour (now : time) (e : LocationTableEntry) : bool := now <? m_is_neighbour e.

Definition with_pdr (pdr : double) (at_time : time) (e : LocationTableEntry) : LocationTableEntry :=
  mk_LocationTableEntry (m_is_neighbour e) (m_has_position_vector e) (m_position_vector e) pdr at_time (duplicate_packet_list e) (loctex_g5 e).

(** update_pdr; [beta] is the weight, the time period is a
    std::chrono::duration<double>. *)
Definition update_pdr (now : time) (packet_size : Z) (beta : double) (e : LocationTableEntry) : LocationTableEntry :=
  if d_isnan (m_pdr e) then with_pdr (d_of_Z 0) now e
  else if d_ltb (d_of_Z 0) beta && d_ltb beta (d_of_Z 1) then
    let time_period := clock_cast_seconds (now - m_pdr_update e) in
    if d_ltb (d_of_Z 0) time_period then
      let instant_pdr := d_div (d_of_Z packet_size) time_period in
      with_pdr (d_add (d_mul (m_pdr e) beta) (d_mul (d_sub (d_of_Z 1) beta) instant_pdr)) now e
    else e
  else e.

Definition set_position_vector (pv : LongPositionVector) (e : LocationTableEntry) : bool * LocationTableEntry :=
  if is_valid pv then
    (true, mk_LocationTableEntry (m_is_neighbour e) true pv (m_pdr e) (m_pdr_update e) (duplicate_packet_list e) (loctex_g5 e))
  else (false, e).

Definition update_position_vector (lpv : LongPositionVector) (e : LocationTableEntry) : bool * LocationTableEntry :=
  if m_has_position_vector e then
    if Timestamp.lt (timestamp (m_position_vector e)) (timestamp lpv) then set_position_vector lpv e else (false, e)
  else set_position_vector lpv e.

Definition with_neighbour (t : time) (e : LocationTableEntry) : LocationTableEntry :=
  mk_LocationTableEntry t (m_has_position_vector e) (m_position_vector e) (m_pdr e) (m_pdr_update e) (duplicate_packet_list e) (loctex_g5 e).
Definition set_neighbour (flag : bool) (e : LocationTableEntry) : LocationTableEntry :=
  with_neighbour (if flag then time_max else time_min) e.
Definition set_neighbour_expiry (now : time) (flag : bool) (expiry : time) (e : LocationTableEntry) : LocationTableEntry :=
  if flag && (0 <? expiry) then with_neighbour (now + expiry) e else set_neighbour flag e.

(** The extensions are replaced in place. *)
Definition with_duplicate_packet_list (l : DuplicatePacketList.t) (e : LocationTableEntry) : LocationTableEntry :=
  mk_LocationTableEntry (m_is_neighbour e) (m_has_position_vector e) (m_position_vector e) (m_pdr e) (m_pdr_update e) (Some l) (loctex_g5 e).
Definition with_loctex_g5 (x : LocTEX_G5) (e : LocationTableEntry) : LocationTableEntry :=
  mk_LocationTableEntry (m_is_neighbour e) (m_has_position_vector e) (m_position_vector e) (m_pdr e) (m_pdr_update e) (duplicate_packet_list e) (Some x).

(** * The table *)

Definition LocationTable : Type := SoftStateMap MacAddress LocationTableEntry.

(** The constructor, with itsGnLifetimeLocTE in microseconds. *)
Definition LocationTable_create (lifetime : time) : LocationTable := set_lifetime lifetime SoftStateMap_empty.

Definition has_entry (now : time) (addr : Address) (t : LocationTable) : option bool := has_value now (mid addr) t.
Definition has_neighbours (now : time) (t : LocationTable) : bool :=
  map_fold (fun _ e found => found || is_neighbour now e) false (map_range now t).
Definition filter_entries (now : time) (predicate : MacAddress -> LocationTableEntry -> bool) (t : LocationTable) :
  gmap MacAddress LocationTableEntry := filter (fun p => predicate p.1 p.2 = true) (map_range now t).
Definition neighbours (now : time) (t : LocationTable) : gmap MacAddress LocationTableEntry :=
  filter_entries now (fun _ e => is_neighbour now e) t.

Definition get_or_create_entry (now : time) (mac : MacAddress) (t : LocationTable) : option LocationTable :=
  get_value create_entry now mac t.
Definition get_entry (now : time) (mac : MacAddress) (t : LocationTable) : option (option LocationTableEntry) :=
  get_value_ptr now mac t.
Definition get_position (now : time) (mac : MacAddress) (t : LocationTable) : option (option LongPositionVector) :=
  (fun entry : option LocationTableEntry => match entry with
   | Some e => if m_has_position_vector e then Some (m_position_vector e) else None
   | None => None
   end) <$> get_value_ptr now mac t.

(** update(): the entry is then found at the sender's address. *)
Definition update (now : time) (lpv : LongPositionVector) (t : LocationTable) : option LocationTable :=
  let key := mid (gn_addr lpv) in
  let created t :=
    t ← refresh create_entry now key t;
    Some (assign key (fun e => (update_position_vector lpv e).2) t) in
  entry ← get_value_ptr now key t;
  match entry with
  | Some e =>
      if m_has_position_vector e then
        let '(updated, e') := update_position_vector lpv e in
        let t := assign key (fun _ => e') t in
        if updated then refresh create_entry now key t else Some t
      else created t
  | None => created t
  end.

(** * What is in the table *)

(** An entry's position is valid and was sent from the address it is stored
    under. *)
Definition entry_ok (mac : MacAddress) (e : LocationTableEntry) : Prop :=
  m_has_position_vector e = true -> is_valid (m_position_vector e) = true /\ link_layer_address e = mac.

Definition TableInv (t : LocationTable) : Prop :=
  Linked t /\ forall mac d e, abs t !! mac = Some (d, e) -> entry_ok mac e.

(** The abstract update of an entry. *)
Definition renewed (now : time) (lpv : LongPositionVector) (life : time) (old : option (time * LocationTableEntry)) :
  time * LocationTableEntry :=
  match old with
  | Some (d, e) =>
      if m_has_position_vector e && negb (is_expired now d) then
        let '(updated, e') := update_position_vector lpv e in (if updated then now + life else d, e')
      else (now + life, (update_position_vector lpv e).2)
  | None => (now + life, (update_position_vector lpv (create_entry now)).2)
  end.

Lemma update_position_vector_ok lpv e mac : mid (gn_addr lpv) = mac -> entry_ok mac e -> entry_ok mac (update_position_vector lpv e).2.
Proof.
  intros Hm He. unfold update_position_vector, set_position_vector.
  assert (Hs : entry_ok mac (if is_valid lpv then
    (true, mk_LocationTableEntry (m_is_neighbour e) true lpv (m_pdr e) (m_pdr_update e) (duplicate_packet_list e) (loctex_g5 e)) else (false, e)).2)
    by (destruct (is_valid lpv) eqn:E; [intros _; now split|exact He]).
  destruct (m_has_position_vector e); [destruct (Timestamp.lt _ _)|]; assumption.
Qed.

Lemma update_position_vector_has lpv e : is_valid lpv = true -> m_has_position_vector (update_position_vector lpv e).2 = true.
Proof.
  intros Hv. unfold update_position_vector, set_position_vector. rewrite Hv.
  destruct (m_has_position_vector e) eqn:E; [destruct (Timestamp.lt _ _)|]; assumption || reflexivity.
Qed.

(** update_position_vector leaves an entry alone that it does not update. *)
Lemma update_position_vector_false lpv e e' : update_position_vector lpv e = (false, e') -> e' = e.
Proof.
  unfold update_position_vector, set_position_vector.
  destruct (m_has_position_vector e); [destruct (Timestamp.lt _ _)|]; destruct (is_valid lpv); intros [=]; auto.
Qed.

Lemma alter_insert_value {V} (f : V -> V) (key : MacAddress) (d : time) (v : V) (a : gmap MacAddress (time * V)) :
  alter (fun x : time * V => (x.1, f x.2)) key (<[key := (d, v)]> a) = <[key := (d, f v)]> a.
Proof. now rewrite alter_insert_eq. Qed.

(** Refreshing an entry and assigning to it. *)
Lemma refresh_assign now key f (t : LocationTable) : Linked t ->
  exists t', (t1 ← refresh create_entry now key t; Some (assign key f t1)) = Some t' /\ Linked t' /\ m_lifetime t' = m_lifetime t /\
    abs t' = <[key := (now + m_lifetime t, f (match abs t !! key with Some (_, e) => e | None => create_entry now end))]> (abs t).
Proof.
  intros HL. destruct (refresh_spec create_entry now t key HL) as (t1 & -> & HL1 & El & Ea). cbn.
  destruct (assign_spec t1 key f HL1) as [HL2 Ea2]. eexists. split; [reflexivity|]. split_all; auto.
  rewrite Ea2, Ea. unfold spec_refresh. apply alter_insert_value.
Qed.

Lemma update_refines now lpv t : Linked t ->
  exists t', update now lpv t = Some t' /\ Linked t' /\ m_lifetime t' = m_lifetime t /\
    abs t' = <[mid (gn_addr lpv) := renewed now lpv (m_lifetime t) (abs t !! mid (gn_addr lpv))]> (abs t).
Proof.
  intros HL. unfold update. cbv zeta. set (key := mid (gn_addr lpv)).
  pose proof (refresh_assign now key (fun e => (update_position_vector lpv e).2) t HL) as Hc.
  rewrite (get_value_ptr_spec now t key HL). unfold live. rewrite lookup_omap. unfold renewed.
  destruct (abs t !! key) as [[d e]|] eqn:Ek; [|exact Hc]. cbn [mbind option_bind fst snd].
  destruct (is_expired now d) eqn:Ed; [rewrite andb_false_r; exact Hc|]. destruct (m_has_position_vector e) eqn:Ep; [|exact Hc].
  cbn [andb negb]. destruct (update_position_vector lpv e) as [updated e'] eqn:Eu.
  destruct (assign_spec t key (fun _ => e') HL) as [HL1 Ea]. destruct updated.
  - destruct (refresh_spec create_entry now (assign key (fun _ => e') t) key HL1) as (t2 & -> & HL2 & El & Ea2).
    exists t2. split_all; auto. rewrite Ea2, Ea. unfold spec_refresh. rewrite lookup_alter_eq, Ek. cbn.
    apply map_eq. intros k. destruct (decide (k = key)) as [->|Hne].
    + now rewrite !lookup_insert_eq.
    + now rewrite !lookup_insert_ne, lookup_alter_ne by congruence.
  - apply update_position_vector_false in Eu as ->. eexists. split; [reflexivity|]. split_all; auto. rewrite Ea.
    apply map_eq. intros k. destruct (decide (k = key)) as [->|Hne].
    + now rewrite lookup_insert_eq, lookup_alter_eq, Ek.
    + now rewrite lookup_insert_ne, lookup_alter_ne by congruence.
Qed.

(** * Theorems *)

Lemma update_TableInv now lpv t : TableInv t ->
  exists t', update now lpv t = Some t' /\ TableInv t' /\
    (forall mac, mac <> mid (gn_addr lpv) -> abs t' !! mac = abs t !! mac) /\
    exists d e, abs t' !! mid (gn_addr lpv) = Some (d, e) /\ (is_valid lpv = true -> m_has_position_vector e = true).
Proof.
  intros [HL Hok]. destruct (update_refines now lpv t HL) as (t' & E & HL' & _ & Ea). exists t'. split; [exact E|].
  set (key := mid (gn_addr lpv)) in *.
  assert (Hnew : entry_ok key (renewed now lpv (m_lifetime t) (abs t !! key)).2 /\
    (is_valid lpv = true -> m_has_position_vector (renewed now lpv (m_lifetime t) (abs t !! key)).2 = true)).
  { unfold renewed. destruct (abs t !! key) as [[d e]|] eqn:Ek.
    - pose proof (update_position_vector_ok lpv e key eq_refl (Hok _ _ _ Ek)) as Hu. pose proof (update_position_vector_has lpv e) as Hh.
      destruct (update_position_vector lpv e) as [u e']. cbn [snd] in *. destruct (_ && _); auto.
    - split; [|apply update_position_vector_has]. apply update_position_vector_ok; [reflexivity|]. intros [=]. }
  destruct (renewed now lpv (m_lifetime t) (abs t !! key)) as [d e]. cbn [snd] in Hnew. split; [|split].
  - split; [exact HL'|]. intros mac d' e'. rewrite Ea. rewrite lookup_insert_Some. intros [[<- [= <- <-]]|[_ Em]]; [apply Hnew|eauto].
  - intros mac Hne. now rewrite Ea, lookup_insert_ne.
  - exists d, e. rewrite Ea, lookup_insert_eq. split; [reflexivity|apply Hnew].
Qed.

(** C39.  Every entry of the table with a position has a valid one, sent from the
    address it is stored under, and update() keeps it so; update() changes
    no other entry. *)
Theorem update_invariant now lpv t : TableInv t ->
  exists t', update now lpv t = Some t' /\ TableInv t' /\
    (forall mac, mac <> mid (gn_addr lpv) -> abs t' !! mac = abs t !! mac) /\
    exists d e, abs t' !! mid (gn_addr lpv) = Some (d, e) /\ (is_valid lpv = true -> m_has_position_vector e = true).
Proof. apply update_TableInv. Qed.

(** The timestamps of stored positions only move forward: update() either
    stores the vector it is given, which is valid and later than the stored
    one, or keeps the stored one.  A live entry that is not updated keeps its
    deadline; in every other case the deadline is renewed, also for an
    expired entry that keeps its old position. *)
Theorem update_forward now lpv t d e : Linked t -> abs t !! mid (gn_addr lpv) = Some (d, e) -> m_has_position_vector e = true ->
  exists t' d' e', update now lpv t = Some t' /\ abs t' !! mid (gn_addr lpv) = Some (d', e') /\ m_has_position_vector e' = true /\
    if is_valid lpv && Timestamp.lt (timestamp (m_position_vector e)) (timestamp lpv)
    then m_position_vector e' = lpv /\ d' = now + m_lifetime t
    else e' = e /\ d' = if is_expired now d then now + m_lifetime t else d.
Proof.
  intros HL Ek Hp. destruct (update_refines now lpv t HL) as (t' & E & _ & _ & Ea).
  exists t'. rewrite Ek in Ea. cbn [renewed] in Ea. unfold update_position_vector, set_position_vector in Ea. rewrite Hp in Ea. cbn [andb] in Ea.
  destruct (is_expired now d), (is_valid lpv), (Timestamp.lt (timestamp (m_position_vector e)) (timestamp lpv)); cbn in Ea;
    eexists _, _; (split; [exact E|]); rewrite Ea, lookup_insert_eq; cbn; auto.
Qed.

(** ** Examples *)

Definition example_vector (ts lat : Z) : LongPositionVector :=
  mk_LongPositionVector (mk_Address false 5 0 [1; 2; 3; 4; 5; 6]) ts lat 0 true 0 0.

(** A table of lifetime 20 that heard a station at 100. *)
Definition example_table : LocationTable :=
  match update 100 (example_vector 7000 11) (LocationTable_create 20) with Some t => t | None => LocationTable_create 0 end.

Lemma LocationTable_create_Inv life : TableInv (LocationTable_create life).
Proof. split; [split; cbn; intros *; now rewrite lookup_empty|]. intros mac d e. unfold abs. cbn. now rewrite lookup_omap, lookup_empty. Qed.

Lemma example_table_Linked : Linked example_table.
Proof.
  destruct (update_refines 100 (example_vector 7000 11) (LocationTable_create 20) (proj1 (LocationTable_create_Inv 20))) as (t' & E & HL & _).
  unfold example_table. now rewrite E.
Qed.

Lemma update_invariant_witness :
  exists t', update 100 (example_vector 7000 11) (LocationTable_create 20) = Some t' /\ TableInv t'.
Proof.
  destruct (update_invariant 100 (example_vector 7000 11) (LocationTable_create 20) (LocationTable_create_Inv 20)) as (t' & E & HI & _).
  now exists t'.
Defined.

(** A vector that is older than the expired one leaves it in place and gives
    it a new lifetime. *)
Lemma update_forward_witness :
  get_position 121 [1; 2; 3; 4; 5; 6] example_table = Some None /\
  exists t', update 121 (example_vector 6999 22) example_table = Some t' /\
    exists e, abs t' !! [1; 2; 3; 4; 5; 6] = Some (141, e) /\ latitude (m_position_vector e) = 11.
Proof.
  split; [vm_compute; reflexivity|].
  destruct (abs example_table !! [1; 2; 3; 4; 5; 6]) as [[d e]|] eqn:Ek; [|vm_compute in Ek; discriminate].
  destruct (update_forward 121 (example_vector 6999 22) example_table d e example_table_Linked Ek) as (t' & d' & e' & E & Ek' & _ & Hx).
  - vm_compute in Ek. now injection Ek as <- <-.
  - exists t'. split; [exact E|]. exists e'. vm_compute in Ek. injection Ek as <- <-. destruct Hx as [-> ->]. split; [exact Ek'|reflexivity].
Defined.
