(* ===== verification/PacketBuffer.v ===== *)
(** The packet buffer of store-carry-forward: geonet/packet_buffer.cpp, and
    the pending packets of geonet/pending_packet.hpp that it holds. *)

From S2P Require Import Prelude GnNumbers.

Open Scope Z_scope.

(** * Buffered data *)

(** packet_buffer::Data: what the buffer asks of a packet.  A length is a
    std::size_t and does not depend on the lifetime. *)
Class Data (D : Type) := {
  data_length : D -> Z;
  data_reduce_lifetime : Z -> D -> Z * D;
  data_length_nonneg d : 0 <= data_length d;
  data_length_reduce t d : data_length (data_reduce_lifetime t d).2 = data_length d
}.

(** A PendingPacket: the lengths of its PDU and of its payload, and the
    lifetime of the PDU's basic header.  [packet_id] stands for the rest. *)
Record PendingPacket := mk_PendingPacket { pdu_length : nat; payload_length : nat; packet_lifetime : Lifetime.t; packet_id : Z }.

Definition PendingPacket_length (p : PendingPacket) : Z := Z.of_nat (pdu_length p) + Z.of_nat (payload_length p).
Definition PendingPacket_reduce_lifetime (queuing_time : Z) (p : PendingPacket) : Z * PendingPacket :=
  let '(remaining, l) := Lifetime.reduce (packet_lifetime p) queuing_time in
  (remaining, mk_PendingPacket (pdu_length p) (payload_length p) l (packet_id p)).

#[export] Instance PendingPacket_Data : Data PendingPacket.
Proof.
  refine {| data_length := PendingPacket_length; data_reduce_lifetime := PendingPacket_reduce_lifetime |}.
  - intros p. unfold PendingPacket_length. lia.
  - intros t p. unfold PendingPacket_reduce_lifetime. now destruct (Lifetime.reduce _ _).
Defined.

Section PacketBuffer.
Context {D : Type} `{Data D}.

(** * Operations *)

Record Expiry := mk_Expiry { m_buffered_since : Z; m_expires_at : Z }.
Definition make_Expiry (now lifetime : Z) : Expiry := mk_Expiry now (now + lifetime).
Definition is_expired (now : Z) (e : Expiry) : bool := m_expires_at e <? now.

Abbreviation node := (Expiry * D)%type.

Record PacketBuffer := mk_PacketBuffer { m_nodes : list node; m_capacity : Z; m_stored : Z }.

Definition PacketBuffer_empty (capacity : Z) : PacketBuffer := mk_PacketBuffer [] capacity 0.
Definition free (b : PacketBuffer) : Z := u64 (m_capacity b - m_stored b).

Definition drop_head (b : PacketBuffer) : bool * PacketBuffer :=
  match m_nodes b with
  | [] => (false, b)
  | (_, d) :: nodes => (true, mk_PacketBuffer nodes (m_capacity b) (u64 (m_stored b - data_length d)))
  end.

(** The loop of drop_expired over the nodes that are left. *)
Fixpoint erase_expired (now : Z) (nodes : list node) (stored : Z) : list node * Z :=
  match nodes with
  | [] => ([], stored)
  | (e, d) :: nodes' =>
      if is_expired now e then erase_expired now nodes' (u64 (stored - data_length d))
      else let '(kept, stored') := erase_expired now nodes' stored in ((e, d) :: kept, stored')
  end.
Definition drop_expired (now : Z) (b : PacketBuffer) : PacketBuffer :=
  let '(nodes, stored) := erase_expired now (m_nodes b) (m_stored b) in mk_PacketBuffer nodes (m_capacity b) stored.

(** The loop of drop, for at most [fuel] turns. *)
Fixpoint drop_loop (fuel : nat) (bytes : Z) (b : PacketBuffer) : PacketBuffer :=
  if free b <? bytes then
    match drop_head b with
    | (true, b') => match fuel with O => b' | S fuel' => drop_loop fuel' bytes b' end
    | (false, b') => b'
    end
  else b.
Definition drop_bytes (bytes : Z) (b : PacketBuffer) : bool * PacketBuffer :=
  let b := drop_loop (length (m_nodes b)) bytes b in (bytes <=? free b, b).

Definition push (now : Z) (d : D) (b : PacketBuffer) : bool * PacketBuffer :=
  let b := drop_expired now b in
  let '(fits, b) := drop_bytes (data_length d) b in
  if fits then
    let stored := u64 (m_stored b + data_length d) in
    let '(lifetime, d) := data_reduce_lifetime 0 d in
    (true, mk_PacketBuffer (m_nodes b ++ [(make_Expiry now lifetime, d)]) (m_capacity b) stored)
  else (false, b).

(** flush(): [process] is what Data::flush does to the packet, the buffer
    and the rest of the program. *)
Definition flush_node {W} (now : Z) (process : D -> PacketBuffer * W -> PacketBuffer * W) (n : node) (s : PacketBuffer * W) :
  PacketBuffer * W :=
  if is_expired now n.1 then s
  else process (data_reduce_lifetime (now - m_buffered_since n.1) n.2).2 s.
Definition flush {W} (now : Z) (process : D -> PacketBuffer * W -> PacketBuffer * W) (s : PacketBuffer * W) : PacketBuffer * W :=
  let '(b, w) := s in
  fold_left (fun s n => flush_node now process n s) (m_nodes b) (mk_PacketBuffer [] (m_capacity b) 0, w).

(** * The invariant *)

Definition total (nodes : list node) : Z := list_sum_Z (map (fun n => data_length n.2) nodes).

(** m_stored is the length of what is stored, which fits. *)
Definition Inv (b : PacketBuffer) : Prop :=
  0 <= m_capacity b < 2 ^ 64 /\ m_stored b = total (m_nodes b) /\ total (m_nodes b) <= m_capacity b.

Lemma PacketBuffer_empty_Inv capacity : 0 <= capacity < 2 ^ 64 -> Inv (PacketBuffer_empty capacity).
Proof. intros Hc. split; [exact Hc|]. cbn. change (total []) with 0. lia. Qed.

Definition live (now : Z) (nodes : list node) : list node := filter (fun n => is_expired now n.1 = false) nodes.

Lemma total_cons n l : total (n :: l) = data_length n.2 + total l.
Proof. reflexivity. Qed.
Lemma total_nonneg l : 0 <= total l.
Proof. induction l as [|n l IH]; [reflexivity|]. rewrite total_cons. pose proof (data_length_nonneg n.2). lia. Qed.
Lemma total_app l1 l2 : total (l1 ++ l2) = total l1 + total l2.
Proof. induction l1 as [|n l IH]; [reflexivity|]. cbn [app]. rewrite !total_cons, IH. lia. Qed.
Lemma total_live now l : total (live now l) <= total l.
Proof.
  unfold live. induction l as [|n l IH]; [reflexivity|]. rewrite filter_cons. pose proof (data_length_nonneg n.2).
  destruct (decide _); rewrite ?total_cons; lia.
Qed.

Lemma free_Inv b : Inv b -> free b = m_capacity b - total (m_nodes b).
Proof. intros (Hc & Hs & Hle). unfold free. rewrite Hs. pose proof (total_nonneg (m_nodes b)). apply uwrap_small. lia. Qed.

Lemma erase_expired_spec now nodes stored : total nodes <= stored < 2 ^ 64 ->
  erase_expired now nodes stored = (live now nodes, stored - (total nodes - total (live now nodes))).
Proof.
  revert stored. induction nodes as [|[e d] nodes IH]; intros stored Hs; [cbn; f_equal; lia|].
  cbn [erase_expired]. unfold live in *. rewrite filter_cons. cbn [fst]. rewrite total_cons in *. cbn [snd] in *.
  pose proof (data_length_nonneg d). pose proof (total_nonneg nodes). destruct (is_expired now e) eqn:E.
  - rewrite decide_False by easy. rewrite uwrap_small by lia. rewrite IH by lia. f_equal. lia.
  - rewrite decide_True by easy. rewrite IH by lia. f_equal. rewrite total_cons. cbn [snd]. lia.
Qed.

Lemma drop_expired_spec now b : Inv b -> Inv (drop_expired now b) /\ m_nodes (drop_expired now b) = live now (m_nodes b) /\
  m_capacity (drop_expired now b) = m_capacity b.
Proof.
  intros (Hc & Hs & Hle). unfold drop_expired. rewrite Hs, erase_expired_spec by lia. unfold Inv. cbn [m_nodes m_capacity m_stored].
  pose proof (total_live now (m_nodes b)). split_all; auto; lia.
Qed.

(** The fewest nodes from the front whose removal leaves room for [bytes]. *)
Fixpoint room (bytes capacity : Z) (nodes : list node) : list node :=
  match nodes with
  | [] => []
  | n :: nodes' => if capacity - total nodes <? bytes then room bytes capacity nodes' else nodes
  end.

Lemma buffer_drop_loop_spec bytes b fuel : Inv b -> (length (m_nodes b) <= fuel)%nat ->
  Inv (drop_loop fuel bytes b) /\ m_nodes (drop_loop fuel bytes b) = room bytes (m_capacity b) (m_nodes b) /\
  m_capacity (drop_loop fuel bytes b) = m_capacity b.
Proof.
  revert b. induction fuel as [|fuel IH]; intros b HI Hf; cbn [drop_loop]; rewrite (free_Inv b HI).
  - assert (E : m_nodes b = []) by (destruct (m_nodes b); [reflexivity|cbn in Hf; lia]). unfold drop_head. rewrite E.
    cbn [room]. destruct (_ <? _); split_all; auto.
  - unfold drop_head. destruct (m_nodes b) as [|[e d] nodes] eqn:E; cbn [room]; rewrite <- E.
    + destruct (_ <? _); split_all; auto.
    + destruct (_ <? _) eqn:L; [|split_all; auto; now rewrite E]. set (b' := mk_PacketBuffer _ _ _).
      assert (HI' : Inv b').
      { destruct HI as (Hc & Hs & Hle). rewrite E, total_cons in *. cbn [snd] in *. pose proof (data_length_nonneg d). pose proof (total_nonneg nodes).
        unfold Inv, b'. cbn [m_nodes m_capacity m_stored]. rewrite uwrap_small by lia. lia. }
      destruct (IH b' HI') as (? & En & Ec); [cbn in *; lia|]. split_all; auto. 
Qed.

Lemma room_spec bytes capacity nodes : exists k, room bytes capacity nodes = drop k nodes /\ (k <= length nodes)%nat /\
  (forall j, (j < k)%nat -> capacity < total (drop j nodes) + bytes) /\
  (bytes <= capacity -> total (drop k nodes) + bytes <= capacity) /\ (capacity < bytes -> drop k nodes = []).
Proof.
  induction nodes as [|n nodes (k & E & Hk & Hj & Hr & Hd)].
  - exists 0%nat. cbn. split_all; try lia; auto.
  - cbn [room]. destruct (Z.ltb_spec (capacity - total (n :: nodes)) bytes) as [Hlt|Hge].
    + exists (S k). cbn [drop length]. split_all; auto; [lia|]. intros [|j] Hjk; cbn [drop]; [lia|]. apply Hj. lia.
    + exists 0%nat. cbn [drop]. split_all; auto; try lia. pose proof (total_nonneg (n :: nodes)). lia.
Qed.

Lemma Inv_push b e d : Inv b -> total (m_nodes b) + data_length d <= m_capacity b ->
  Inv (mk_PacketBuffer (m_nodes b ++ [(e, d)]) (m_capacity b) (u64 (m_stored b + data_length d))).
Proof.
  intros (Hc & Hs & Hle) Hr. unfold Inv. cbn [m_nodes m_capacity m_stored]. pose proof (total_nonneg (m_nodes b)). pose proof (data_length_nonneg d).
  rewrite Hs, uwrap_small, total_app, total_cons by lia. cbn [snd]. change (total []) with 0. lia.
Qed.

Lemma push_result now d b : Inv b ->
  let '(pushed, b') := push now d b in
  let kept := live now (m_nodes b) in
  Inv b' /\ m_capacity b' = m_capacity b /\ pushed = (data_length d <=? m_capacity b) /\
  if pushed then exists k, m_nodes b' = drop k kept ++ [(make_Expiry now (data_reduce_lifetime 0 d).1, (data_reduce_lifetime 0 d).2)] /\
    (k <= length kept)%nat /\ forall j, (j < k)%nat -> m_capacity b < total (drop j kept) + data_length d
  else m_nodes b' = [].
Proof.
  intros HI. unfold push. destruct (drop_expired_spec now b HI) as (HI1 & En1 & Ec1). set (b1 := drop_expired now b) in *.
  unfold drop_bytes. destruct (buffer_drop_loop_spec (data_length d) b1 (length (m_nodes b1)) HI1 (le_n _)) as (HI2 & En2 & Ec2).
  set (b2 := drop_loop _ _ _) in *. cbv beta iota zeta. rewrite (free_Inv b2 HI2), Ec2, Ec1. rewrite En1, Ec1 in En2. rewrite En2.
  destruct (room_spec (data_length d) (m_capacity b) (live now (m_nodes b))) as (k & Er & Hk & Hj & Hfit & Hnone). rewrite Er in *.
  pose proof (total_nonneg (drop k (live now (m_nodes b)))) as Ht.
  destruct (Z.leb_spec (data_length d) (m_capacity b - total (drop k (live now (m_nodes b))))) as [Hl|Hl].
  - destruct (data_reduce_lifetime 0 d) as [l d'] eqn:Ed. cbn [m_nodes m_capacity fst snd].
    assert (Hlen : data_length d' = data_length d) by (rewrite <- (data_length_reduce 0 d), Ed; reflexivity).
    split; [|split; [congruence|split; [symmetry; apply Z.leb_le; lia|exists k; auto]]].
    rewrite <- Hlen, <- En2, <- Ec1, <- Ec2. apply Inv_push; [exact HI2|]. rewrite Hlen, En2, Ec2, Ec1. lia.
  - assert (Hbig : m_capacity b < data_length d) by lia. split; [exact HI2|]. split; [congruence|].
    split; [symmetry; apply Z.leb_gt; lia|]. rewrite En2. auto.
Qed.

(** push() keeps the books of the buffer: expired packets go first, then as
    few packets from the head as make room, and the new packet goes last
    with its lifetime from now on.  A packet longer than the capacity is
    refused, and the buffer is empty then. *)
Theorem push_spec now d b : Inv b ->
  let '(pushed, b') := push now d b in
  let kept := live now (m_nodes b) in
  Inv b' /\ m_capacity b' = m_capacity b /\ pushed = (data_length d <=? m_capacity b) /\
  if pushed then exists k, m_nodes b' = drop k kept ++ [(make_Expiry now (data_reduce_lifetime 0 d).1, (data_reduce_lifetime 0 d).2)] /\
    (k <= length kept)%nat /\ forall j, (j < k)%nat -> m_capacity b < total (drop j kept) + data_length d
  else m_nodes b' = [].
Proof. apply push_result. Qed.

Lemma fold_flush {W} now (process : D -> PacketBuffer * W -> PacketBuffer * W) (P : PacketBuffer * W -> Prop) nodes s :
  (forall d s, P s -> P (process d s)) -> P s -> P (fold_left (fun s n => flush_node now process n s) nodes s).
Proof.
  intros Hp. revert s. induction nodes as [|n nodes IH]; intros s Hs; [exact Hs|]. cbn [fold_left]. apply IH. unfold flush_node.
  destruct (is_expired now n.1); auto.
Qed.

(** What flush() hands over, in order: the live packets with their lifetimes
    reduced by the time spent in the buffer. *)
Definition flushed (now : Z) (nodes : list node) : list D :=
  map (fun n => (data_reduce_lifetime (now - m_buffered_since n.1) n.2).2) (live now nodes).

Lemma fold_flushed now nodes b0 acc :
  fold_left (fun s n => flush_node now (fun d s => (s.1, s.2 ++ [d])) n s) nodes (b0, acc) = (b0, acc ++ flushed now nodes).
Proof.
  revert acc. induction nodes as [|n nodes IH]; intros acc; [cbn; now rewrite app_nil_r|].
  cbn [fold_left]. unfold flush_node at 2. unfold flushed, live in *. rewrite filter_cons. destruct (is_expired now n.1) eqn:E.
  - rewrite decide_False by easy. apply IH.
  - rewrite decide_True by easy. cbn [fst snd map]. rewrite IH, <- app_assoc. reflexivity.
Qed.

(** flush() empties the buffer and hands every packet that is not expired
    over once, in the order of arrival; packets that come back to the buffer
    meanwhile keep its books. *)
Theorem flush_spec now b : Inv b ->
  (forall W (process : D -> PacketBuffer * W -> PacketBuffer * W) w, (forall d b w, Inv b -> Inv (process d (b, w)).1) ->
     Inv (flush now process (b, w)).1) /\
  flush now (fun d s => (s.1, s.2 ++ [d])) (b, []) = (mk_PacketBuffer [] (m_capacity b) 0, flushed now (m_nodes b)) /\
  (forall nodes, (forall n, n ∈ nodes -> is_expired now n.1 = true) -> flushed now nodes = []).
Proof.
  intros (Hc & Hs & Hle). split_all.
  - intros W process w Hp. unfold flush. apply (fold_flush now process (fun s => Inv s.1)).
    + intros d [b' w']. apply Hp.
    + unfold Inv. cbn [fst m_nodes m_capacity m_stored]. change (total []) with 0. lia.
  - apply fold_flushed.
  - intros nodes Hx. unfold flushed, live. replace (filter _ nodes) with (@nil node); [reflexivity|]. symmetry.
    induction nodes as [|n nodes IH]; [reflexivity|]. rewrite filter_cons. rewrite decide_False.
    + apply IH. intros m Hm. apply Hx. apply elem_of_cons. now right.
    + rewrite (Hx n); [easy|]. apply elem_of_cons. now left.
Qed.

End PacketBuffer.

Arguments PacketBuffer D : clear implicits.

(** ** Examples *)

Definition example_packet (len : nat) (id : Z) : PendingPacket := mk_PendingPacket 4 len (Lifetime.set Lifetime.One_Second 5) id.

(** Three packets in a buffer of 100 octets. *)
Definition example_buffer : PacketBuffer PendingPacket :=
  (push 30 (example_packet 36 3) (push 20 (example_packet 26 2) (push 10 (example_packet 16 1) (PacketBuffer_empty 100)).2).2).2.

Definition ids (b : PacketBuffer PendingPacket) : list Z := map (fun n => packet_id n.2) (m_nodes b).

Lemma example_buffer_Inv : Inv example_buffer.
Proof. vm_compute. split_all; congruence. Qed.

(** Pushing 61 octets drops all three packets, pushing 54 the two oldest, and
    pushing 101, which cannot fit, all. *)
Lemma push_spec_witness :
  ids (push 40 (example_packet 57 4) example_buffer).2 = [4] /\
  ids (push 40 (example_packet 50 4) example_buffer).2 = [3; 4] /\
  Inv (push 40 (example_packet 97 4) example_buffer).2 /\ m_nodes (push 40 (example_packet 97 4) example_buffer).2 = [].
Proof.
  split; [vm_compute; reflexivity|]. split; [vm_compute; reflexivity|].
  pose proof (push_spec 40 (example_packet 97 4) example_buffer example_buffer_Inv) as Hp.
  destruct (push 40 (example_packet 97 4) example_buffer) as [pushed b'] eqn:E. destruct Hp as (HI & _ & Ep & Hn).
  assert (Ef : pushed = false) by (rewrite Ep; vm_compute; reflexivity). rewrite Ef in Hn. split; [exact HI|exact Hn].
Defined.

Lemma flush_spec_witness :
  map packet_id (flush 5000025 (fun d s => (s.1, s.2 ++ [d])) (example_buffer, [])).2 = [3].
Proof.
  destruct (flush_spec 5000025 example_buffer example_buffer_Inv) as (_ & E & _). rewrite E. vm_compute. reflexivity.
Defined.
