(* ===== verification/Scheduler.v ===== *)
(** The manually triggered runtime: common/manual_runtime.cpp.

    A callback is a value of a type of its own; [invoke] is what it does to
    the runtime and to the rest of the program. *)

From S2P Require Import Prelude.
From stdpp Require Import list sorting.

Open Scope Z_scope.

(** * Ordered insertion *)

Section Insertion.
Context {A : Type} (key : A -> Z).

(** Into an ordered multiset, behind the elements of the same key. *)
Fixpoint insert_by (s : A) (q : list A) : list A :=
  match q with
  | [] => [s]
  | x :: q' => if key s <? key x then s :: q else x :: insert_by s q'
  end.

Definition ordered_by (q : list A) : Prop := StronglySorted (fun x y => key x <= key y) q.

Lemma insert_by_Permutation s q : insert_by s q ≡ₚ s :: q.
Proof.
  induction q as [|x q IH]; [reflexivity|]. cbn [insert_by]. destruct (_ <? _); [reflexivity|]. rewrite IH. apply perm_swap.
Qed.

Lemma insert_by_ordered s q : ordered_by q -> ordered_by (insert_by s q).
Proof.
  induction 1 as [|x q Hs IH Hx]; cbn [insert_by]; [repeat constructor|]. destruct (Z.ltb_spec (key s) (key x)) as [H|H].
  - constructor; [now constructor|]. constructor; [lia|]. eapply Forall_impl; [exact Hx|]. cbn. intros y. lia.
  - constructor; [exact IH|]. rewrite insert_by_Permutation. now constructor.
Qed.

Lemma filter_ordered (P : A -> Prop) `{forall x, Decision (P x)} q : ordered_by q -> ordered_by (filter P q).
Proof.
  induction 1 as [|x q Hs IH Hx]; [constructor|]. rewrite filter_cons. destruct (decide (P x)); [|exact IH].
  constructor; [exact IH|]. apply Forall_forall. intros y [_ Hy]%list_elem_of_filter. rewrite Forall_forall in Hx. auto.
Qed.

Lemma filter_none (P : A -> Prop) `{forall x, Decision (P x)} q : Forall (fun y => ~ P y) q -> filter P q = [].
Proof. induction 1 as [|y l Hy Hl IH]; [reflexivity|]. rewrite filter_cons_False; assumption. Qed.

Lemma filter_all (P : A -> Prop) `{forall x, Decision (P x)} q : Forall P q -> filter P q = q.
Proof. induction 1 as [|y l Hy Hl IH]; [reflexivity|]. rewrite filter_cons_True by assumption. now rewrite IH. Qed.

(** Elements of one key stay in the order they were inserted in. *)
Lemma insert_by_fifo s q t : ordered_by q ->
  filter (fun x => key x = t) (insert_by s q) = filter (fun x => key x = t) q ++ (if decide (key s = t) then [s] else []).
Proof.
  induction 1 as [|x q Hs IH Hx]; cbn [insert_by].
  - rewrite filter_cons. now destruct (decide (key s = t)).
  - destruct (Z.ltb_spec (key s) (key x)) as [H|H].
    + rewrite filter_cons. destruct (decide (key s = t)) as [E|E]; [|now rewrite app_nil_r].
      rewrite (filter_none _ (x :: q)); [reflexivity|]. constructor; [lia|]. eapply Forall_impl; [exact Hx|]. cbn. intros y. lia.
    + rewrite !filter_cons. destruct (decide (key x = t)); cbn; now rewrite IH.
Qed.

End Insertion.

Section ManualRuntime.
Context {Callback : Type}.

Abbreviation time := Z.

(** * Operations *)

(** A scope is an address; the null pointer is no scope. *)
Record ScheduledCallback := mk_ScheduledCallback { deadline : time; callback : Callback; scope : option Z }.

(** The queue in the order of its index by deadline. *)
Record ManualRuntime := mk_ManualRuntime { m_now : time; m_queue : list ScheduledCallback }.

Definition ManualRuntime_create (init : time) : ManualRuntime := mk_ManualRuntime init [].

Definition emplace : ScheduledCallback -> list ScheduledCallback -> list ScheduledCallback := insert_by deadline.

Definition schedule (tp : time) (cb : Callback) (sc : option Z) (rt : ManualRuntime) : ManualRuntime :=
  mk_ManualRuntime (m_now rt) (emplace (mk_ScheduledCallback tp cb sc) (m_queue rt)).
Definition schedule_after (d : time) (cb : Callback) (sc : option Z) (rt : ManualRuntime) : ManualRuntime :=
  schedule (m_now rt + d) cb sc rt.

Definition cancel (sc : option Z) (rt : ManualRuntime) : ManualRuntime :=
  match sc with
  | Some _ => mk_ManualRuntime (m_now rt) (filter (fun x => scope x <> sc) (m_queue rt))
  | None => rt
  end.

Definition next (rt : ManualRuntime) : time :=
  match m_queue rt with [] => 2 ^ 63 - 1 | x :: _ => deadline x end.

Section Trigger.
Context {W : Type}.
Variable invoke : Callback -> time -> ManualRuntime * W -> ManualRuntime * W.

(** The loop of trigger(); no result when [fuel] callbacks were not enough. *)
Fixpoint trigger (fuel : nat) (s : ManualRuntime * W) : option (ManualRuntime * W) :=
  let '(rt, w) := s in
  match m_queue rt with
  | [] => Some s
  | x :: q =>
      if deadline x <=? m_now rt then
        match fuel with
        | O => None
        | S fuel' => trigger fuel' (invoke (callback x) (deadline x) (mk_ManualRuntime (m_now rt) q, w))
        end
      else Some s
  end.

(** trigger(tp) and trigger(d). *)
Definition trigger_at (fuel : nat) (tp : time) (s : ManualRuntime * W) : option (ManualRuntime * W) :=
  trigger fuel (mk_ManualRuntime tp (m_queue s.1), s.2).
Definition trigger_after (fuel : nat) (d : time) (s : ManualRuntime * W) : option (ManualRuntime * W) :=
  trigger_at fuel (m_now s.1 + d) s.

(** reset(): every callback once, on a fresh queue. *)
Definition reset (tp : time) (s : ManualRuntime * W) : ManualRuntime * W :=
  fold_left (fun s x => invoke (callback x) (deadline x) s) (m_queue s.1) (mk_ManualRuntime tp [], s.2).
End Trigger.

(** * The queue *)

Definition ordered : list ScheduledCallback -> Prop := ordered_by deadline.

Lemma next_least rt x : ordered (m_queue rt) -> x ∈ m_queue rt -> next rt <= deadline x.
Proof.
  unfold next. destruct 1 as [|y q Hs Hy]; intros Hx; [now apply elem_of_nil in Hx|].
  apply elem_of_cons in Hx as [->|Hx]; [lia|]. rewrite Forall_forall in Hy. auto.
Qed.

(** The queue of the runtime: scheduling adds one callback, behind those of
    its deadline, cancelling takes exactly the callbacks of a scope, and the
    order by deadline stays, so that next() is the least deadline. *)
Theorem runtime_queue (rt : ManualRuntime) tp cb sc : ordered (m_queue rt) ->
  ordered (m_queue (schedule tp cb sc rt)) /\
  m_queue (schedule tp cb sc rt) ≡ₚ mk_ScheduledCallback tp cb sc :: m_queue rt /\
  (forall t, filter (fun x => deadline x = t) (m_queue (schedule tp cb sc rt)) =
     filter (fun x => deadline x = t) (m_queue rt) ++ (if decide (tp = t) then [mk_ScheduledCallback tp cb sc] else [])) /\
  ordered (m_queue (cancel sc rt)) /\
  (forall x, x ∈ m_queue (cancel sc rt) <-> x ∈ m_queue rt /\ (sc = None \/ scope x <> sc)) /\
  (forall x, x ∈ m_queue rt -> next rt <= deadline x).
Proof.
  intros Ho. split_all.
  - now apply insert_by_ordered.
  - apply insert_by_Permutation.
  - intros t. now apply (insert_by_fifo deadline (mk_ScheduledCallback tp cb sc)).
  - destruct sc; [now apply filter_ordered|exact Ho].
  - intros x. destruct sc as [a|]; cbn.
    + rewrite list_elem_of_filter. split; [intros [? ?]; auto|]. intros [Hx [|]]; [discriminate|auto].
    + tauto.
  - intros x. now apply next_least.
Qed.

(** ** Triggering *)

Section Trigger_spec.
Context {W : Type}.
Variable invoke : Callback -> time -> ManualRuntime * W -> ManualRuntime * W.

(** How many callbacks are due. *)
Definition due (rt : ManualRuntime) : nat := length (filter (fun x => deadline x <= m_now rt) (m_queue rt)).

(** A callback leaves the clock alone, keeps the queue in order and does not
    add callbacks that are due already. *)
Hypothesis invoke_clock : forall cb d s, m_now (invoke cb d s).1 = m_now s.1.
Hypothesis invoke_ordered : forall cb d s, ordered (m_queue s.1) -> ordered (m_queue (invoke cb d s).1).
Hypothesis invoke_due : forall cb d s, (due (invoke cb d s).1 <= due s.1)%nat.

Lemma trigger_total fuel s : ordered (m_queue s.1) -> (due s.1 <= fuel)%nat ->
  exists s', trigger invoke fuel s = Some s' /\ m_now s'.1 = m_now s.1 /\ ordered (m_queue s'.1) /\
    Forall (fun x => m_now s.1 < deadline x) (m_queue s'.1).
Proof.
  revert s. induction fuel as [|fuel IH]; intros [[now q] w] Ho Hd; cbn [fst m_queue m_now trigger] in *.
  - destruct q as [|x q]; [eexists; split; [reflexivity|]; cbn; split_all; auto; constructor|]. unfold due in Hd. cbn [m_queue m_now] in Hd.
    rewrite filter_cons in Hd. destruct (Z.leb_spec (deadline x) now) as [H|H].
    + rewrite decide_True in Hd by assumption. cbn in Hd. lia.
    + eexists. split; [reflexivity|]. cbn. split_all; auto. inversion Ho as [|? ? _ Hx]; subst. constructor; [assumption|].
      eapply Forall_impl; [exact Hx|]. cbn. intros y. lia.
  - destruct q as [|x q]; [eexists; split; [reflexivity|]; cbn; split_all; auto; constructor|].
    inversion Ho as [|? ? Hq Hx]; subst. destruct (Z.leb_spec (deadline x) now) as [H|H].
    + destruct (IH (invoke (callback x) (deadline x) (mk_ManualRuntime now q, w))) as (s' & Et & Hn & Ho' & Hf).
      * now apply invoke_ordered.
      * etransitivity; [apply invoke_due|]. unfold due in *. cbn [fst m_queue m_now] in *. rewrite filter_cons_True in Hd by assumption. cbn in Hd. lia.
      * rewrite invoke_clock in Hn, Hf. exists s'. auto.
    + eexists. split; [reflexivity|]. cbn. split_all; auto. constructor; [assumption|]. eapply Forall_impl; [exact Hx|]. cbn. intros y. lia.
Qed.

(** Triggering ends once no callback is due any more, and never sooner: as
    many turns as there are due callbacks are enough, when a callback does
    not schedule another for a time that has passed. *)
Theorem trigger_terminates tp rt w : ordered (m_queue rt) ->
  exists s', trigger_at invoke (length (m_queue rt)) tp (rt, w) = Some s' /\ m_now s'.1 = tp /\ ordered (m_queue s'.1) /\
    Forall (fun x => tp < deadline x) (m_queue s'.1).
Proof.
  intros Ho. unfold trigger_at. cbn [fst snd]. apply (trigger_total _ (mk_ManualRuntime tp (m_queue rt), w)); [exact Ho|].
  unfold due. cbn [fst m_queue m_now]. apply length_filter || (rewrite length_filter_le; reflexivity).
Qed.

End Trigger_spec.

(** The loop ends when every callback keeps [I] and decreases [mu]. *)
Lemma trigger_measure {W} (invoke : Callback -> time -> ManualRuntime * W -> ManualRuntime * W) (I : ManualRuntime * W -> Prop) (mu : ManualRuntime * W -> nat) :
  (forall now x q w, I (mk_ManualRuntime now (x :: q), w) -> deadline x <= now ->
    let s' := invoke (callback x) (deadline x) (mk_ManualRuntime now q, w) in
    I s' /\ m_now s'.1 = now /\ (mu s' < mu (mk_ManualRuntime now (x :: q), w))%nat) ->
  forall fuel s, I s -> (mu s <= fuel)%nat ->
  exists s', trigger invoke fuel s = Some s' /\ I s' /\ m_now s'.1 = m_now s.1 /\
    match m_queue s'.1 with [] => True | x :: _ => m_now s.1 < deadline x end.
Proof.
  intros Hstep. induction fuel as [|fuel IH]; intros [[now q] w] HI Hmu; cbn [trigger m_queue m_now fst] in *;
    (destruct q as [|x q]; [eexists; split; [reflexivity|]; cbn; auto|]); destruct (Z.leb_spec (deadline x) now) as [H|H];
    try (eexists; split; [reflexivity|]; cbn; auto; fail); destruct (Hstep now x q w HI H) as (HI' & Hn & Hlt); [lia|].
  destruct (IH _ HI') as (s' & E & H1 & H2 & H3); [lia|]. rewrite Hn in *. exists s'. auto.
Qed.

(** A callback that only leaves a record. *)
Definition record (cb : Callback) (d : time) (s : ManualRuntime * list (time * Callback)) : ManualRuntime * list (time * Callback) :=
  (s.1, s.2 ++ [(d, cb)]).

Lemma trigger_record fuel now q log : ordered q -> (length q <= fuel)%nat ->
  trigger record fuel (mk_ManualRuntime now q, log) =
  Some (mk_ManualRuntime now (filter (fun x => now < deadline x) q),
        log ++ map (fun x => (deadline x, callback x)) (filter (fun x => deadline x <= now) q)).
Proof.
  intros Ho. revert fuel log. induction Ho as [|x q Hs IH Hx]; intros fuel log Hf; [destruct fuel; cbn; now rewrite app_nil_r|].
  destruct fuel as [|fuel]; [cbn in Hf; lia|]. cbn [trigger m_queue m_now]. rewrite !filter_cons.
  destruct (Z.leb_spec (deadline x) now) as [H|H].
  - rewrite (decide_False (P := now < deadline x)) by lia. rewrite decide_True by assumption. unfold record at 2. cbn [fst snd].
    rewrite IH by (cbn in Hf; lia). cbn [map]. now rewrite <- app_assoc.
  - rewrite decide_True by assumption. rewrite decide_False by lia.
    assert (Hall : Forall (fun y => now < deadline y) q) by (eapply Forall_impl; [exact Hx|]; cbn; intros; lia).
    rewrite filter_all, filter_none; [cbn; now rewrite app_nil_r| |exact Hall].
    eapply Forall_impl; [exact Hall|]. cbn. lia.
Qed.

(** Callbacks are invoked with their deadlines in the order of these, those
    of one deadline in the order of scheduling, each once, and the callbacks
    that are not due stay. *)
Theorem trigger_in_order rt tp : ordered (m_queue rt) ->
  trigger_at record (length (m_queue rt)) tp (rt, []) =
  Some (mk_ManualRuntime tp (filter (fun x => tp < deadline x) (m_queue rt)),
        map (fun x => (deadline x, callback x)) (filter (fun x => deadline x <= tp) (m_queue rt))).
Proof. intros Ho. unfold trigger_at. cbn [fst snd]. now rewrite trigger_record. Qed.

End ManualRuntime.

(** ** Examples *)

Definition example_runtime : ManualRuntime :=
  schedule 30 3 (Some 1) (schedule 10 2 None (schedule 20 1 (Some 1) (schedule 10 0 (Some 7) (ManualRuntime_create 5)))).

Lemma example_runtime_ordered : ordered (m_queue example_runtime).
Proof. repeat apply insert_by_ordered. constructor. Qed.

Lemma runtime_queue_witness :
  map callback (m_queue example_runtime) = [0; 2; 1; 3] /\ ordered (m_queue (cancel (Some 1) example_runtime)) /\
  map callback (m_queue (cancel (Some 1) example_runtime)) = [0; 2].
Proof.
  split; [vm_compute; reflexivity|]. destruct (runtime_queue example_runtime 0 0 (Some 1) example_runtime_ordered) as (_ & _ & _ & H & _).
  split; [exact H|vm_compute; reflexivity].
Defined.

Lemma trigger_in_order_witness :
  trigger_at record 4 20 (example_runtime, []) = Some (mk_ManualRuntime 20 [mk_ScheduledCallback 30 3 (Some 1)], [(10, 0); (10, 2); (20, 1)]).
Proof. exact (trigger_in_order example_runtime 20 example_runtime_ordered). Defined.

(** A callback that schedules itself again ten later than now. *)
Definition periodic (cb : Z) (d : Z) (s : ManualRuntime * nat) : ManualRuntime * nat :=
  (schedule_after 10 cb None s.1, S s.2).

Lemma trigger_terminates_witness :
  exists s', trigger_at periodic 4 20 (example_runtime, 0%nat) = Some s' /\ Forall (fun x => 20 < deadline x) (m_queue s'.1).
Proof.
  destruct (trigger_terminates periodic) with (tp := 20) (rt := example_runtime) (w := 0%nat) as (s' & E & _ & _ & H).
  - intros cb d [rt w]. reflexivity.
  - intros cb d [rt w]. apply insert_by_ordered.
  - intros cb d [rt w]. unfold due, periodic, schedule_after, schedule, emplace. cbn [fst m_queue m_now]. rewrite (insert_by_Permutation deadline).
    rewrite filter_cons_False; [reflexivity|]. cbn. lia.
  - exact example_runtime_ordered.
  - exists s'. split; [exact E|exact H].
Defined.
