(* ===== verification/CbfBuffer.v ===== *)
(** Contention-based forwarding: geonet/cbf_packet_buffer.cpp with the
    counters of geonet/cbf_counter.cpp, on the runtime of Scheduler.v.

    The two sides of the bimap of timers are one list, ordered by expiry; the
    iterator a timer keeps into the list of packets is the identifier of the
    packet.  A timer's node has an address, because add() compares the first
    node before and after; the address of a new node is what the allocator
    chooses. *)

From S2P Require Import Prelude GnNumbers Archive GnWire SoftState PacketBuffer Scheduler.
From stdpp Require Import gmap sorting.

Open Scope Z_scope.

(** * Identifiers *)

#[export] Instance Address_countable : Countable Address.
Proof.
  refine (inj_countable' (fun a => (manually_configured a, station_type a, country_code a, mid a))
    (fun p => let '(a, b, c, d) := p in mk_Address a b c d) _). now intros [].
Defined.

Definition CbfPacketIdentifier : Type := Address * SequenceNumber.t.
#[export] Instance CbfPacketIdentifier_eq_dec : EqDecision CbfPacketIdentifier.
Proof. unfold CbfPacketIdentifier, SequenceNumber.t. apply _. Defined.
#[export] Instance CbfPacketIdentifier_countable : Countable CbfPacketIdentifier.
Proof. unfold CbfPacketIdentifier, SequenceNumber.t. apply _. Defined.

Abbreviation Id := CbfPacketIdentifier.

(** * Counters *)

(** The interface CbfCounter; the clock is an argument of the operations. *)
Class CbfCounter (C : Type) := {
  cnt_add : time -> Id -> C -> C;
  cnt_remove : time -> Id -> C -> C;
  cnt_increment : time -> Id -> C -> C;
  cnt_counter : time -> Id -> C -> Z
}.

(** Counters are of type std::size_t; [++m_counters[id]] starts at zero. *)
Definition bump (id : Id) (m : gmap Id Z) : gmap Id Z := <[id := u64 (default 0 (m !! id) + 1)]> m.

Record CbfCounterImmortal := mk_Immortal { immortal_counters : gmap Id Z }.
#[export] Instance Immortal_counter : CbfCounter CbfCounterImmortal := {
  cnt_add _ id c := mk_Immortal (bump id (immortal_counters c));
  cnt_remove _ id c := c;
  cnt_increment _ id c := mk_Immortal (bump id (immortal_counters c));
  cnt_counter _ id c := default 0 (immortal_counters c !! id)
}.

Record CbfCounterContending := mk_Contending { contending_counters : gmap Id Z }.
#[export] Instance Contending_counter : CbfCounter CbfCounterContending := {
  cnt_add _ id c := mk_Contending (<[id := 1]> (contending_counters c));
  cnt_remove _ id c := mk_Contending (delete id (contending_counters c));
  cnt_increment _ id c := mk_Contending (bump id (contending_counters c));
  cnt_counter _ id c := default 0 (contending_counters c !! id)
}.

(** The counters in a SoftStateMap; when that has no result neither has the
    operation, and the counters stay. *)
Definition zero_counter (now : time) : Z := 0.
Definition succ_counter (v : Z) : Z := u64 (v + 1).

Record CbfCounterFading := mk_Fading { fading_counters : SoftStateMap Id Z }.
#[export] Instance Fading_counter : CbfCounter CbfCounterFading := {
  cnt_add now id c :=
    match refresh zero_counter now id (fading_counters c) with
    | Some m => mk_Fading (SoftState.drop_expired now (assign id succ_counter m))
    | None => c
    end;
  cnt_remove _ id c := c;
  cnt_increment now id c :=
    match get_value zero_counter now id (fading_counters c) with
    | Some m => mk_Fading (assign id succ_counter m)
    | None => c
    end;
  cnt_counter now id c :=
    match get_value_ptr now id (fading_counters c) with Some (Some v) => v | _ => 0 end
}.

(** * The buffer *)

Record Timer := mk_Timer { node : nat; expiry : time; start : time; timer_id : Id }.

Section CbfPacketBuffer.
Context {P : Type} `{Data P} {C : Type} `{CbfCounter C} {Callback : Type}.

(** CbfPacket: the identifier comes from its extended header. *)
Record CbfPacket := mk_CbfPacket { identifier : Id; m_packet : P; m_sender : MacAddress }.
Definition CbfPacket_length (p : CbfPacket) : Z := data_length (m_packet p).

(** The runtime's callback that flushes this buffer, and its scope. *)
Variable flush_callback : Callback.
Variable this : Z.

Record CbfPacketBuffer := mk_CbfPacketBuffer {
  m_packets : list CbfPacket;
  m_timers : list Timer;
  m_counter : C;
  m_capacity_bytes : Z;
  m_stored_bytes : Z
}.

(** The buffer and the runtime it refers to. *)
Abbreviation state := (CbfPacketBuffer * @ManualRuntime Callback)%type.

Definition CbfPacketBuffer_create (cnt : C) (bytes : Z) : CbfPacketBuffer := mk_CbfPacketBuffer [] [] cnt bytes 0.

(** ** Timers *)

Definition find_timer (id : Id) (ts : list Timer) : option Timer := List.find (fun t => bool_decide (timer_id t = id)) ts.
Definition erase_timer (id : Id) (ts : list Timer) : list Timer := filter (fun t => timer_id t <> id) ts.
Definition insert_timer : Timer -> list Timer -> list Timer := insert_by expiry.

(** schedule_timer() on a buffer that has a timer. *)
Definition schedule_timer (b : CbfPacketBuffer) (rt : @ManualRuntime Callback) : @ManualRuntime Callback :=
  match m_timers b with
  | [] => rt
  | t :: _ => schedule (expiry t) flush_callback (Some this) (Scheduler.cancel (Some this) rt)
  end.

(** ** Packets *)

Definition find_packet (id : Id) (ps : list CbfPacket) : option CbfPacket := List.find (fun p => bool_decide (identifier p = id)) ps.
Definition erase_packet (id : Id) (ps : list CbfPacket) : list CbfPacket := filter (fun p => identifier p <> id) ps.

(** reduce_lifetime: whether the packet remains valid, and the packet. *)
Definition reduce_lifetime (now : time) (t : Timer) (p : CbfPacket) : bool * CbfPacket :=
  let '(remaining, q) := data_reduce_lifetime (now - start t) (m_packet p) in
  (0 <? remaining, mk_CbfPacket (identifier p) q (m_sender p)).

(** ** Operations *)

(** The end of remove() and fetch(): the counter forgets the packet, the
    packet and its timer go (remove_timer). *)
Definition discard (id : Id) (len : Z) (s : state) : state :=
  let '(b, rt) := s in
  let b' := mk_CbfPacketBuffer (erase_packet id (m_packets b)) (erase_timer id (m_timers b))
              (cnt_remove (m_now rt) id (m_counter b)) (m_capacity_bytes b) (u64 (m_stored_bytes b - len)) in
  let was_first := match m_timers b with t :: _ => bool_decide (timer_id t = id) | [] => false end in
  (b', if was_first then schedule_timer b' rt else rt).

Definition remove (id : Id) (s : state) : bool * state :=
  match find_timer id (m_timers s.1), find_packet id (m_packets s.1) with
  | Some _, Some p => (true, discard id (CbfPacket_length p) s)
  | _, _ => (false, s)
  end.

Definition fetch (id : Id) (s : state) : option CbfPacket * state :=
  match find_timer id (m_timers s.1), find_packet id (m_packets s.1) with
  | Some t, Some p =>
      let '(valid, p') := reduce_lifetime (m_now s.2) t p in
      (if valid then Some p' else None, discard id (CbfPacket_length p') s)
  | _, _ => (None, s)
  end.

(** The head drop of add(), for at most [fuel] packets. *)
Fixpoint head_drop (fuel : nat) (now : time) (b : CbfPacketBuffer) : CbfPacketBuffer :=
  match fuel with
  | O => b
  | S fuel' =>
      match m_packets b with
      | p :: ps =>
          if m_capacity_bytes b <? m_stored_bytes b then
            head_drop fuel' now (mk_CbfPacketBuffer ps (erase_timer (identifier p) (m_timers b))
              (cnt_remove now (identifier p) (m_counter b)) (m_capacity_bytes b) (u64 (m_stored_bytes b - CbfPacket_length p)))
          else b
      | [] => b
      end
  end.

Definition first_node (ts : list Timer) : option nat := match ts with [] => None | t :: _ => Some (node t) end.

(** The packet's bytes are counted, and older packets make room for them. *)
Definition make_room (now : time) (len : Z) (b : CbfPacketBuffer) : CbfPacketBuffer :=
  head_drop (length (m_packets b)) now
    (mk_CbfPacketBuffer (m_packets b) (m_timers b) (m_counter b) (m_capacity_bytes b) (u64 (m_stored_bytes b + len))).

(** add(); [new] is the address of the node of the new timer. *)
Definition add (new : nat) (p : CbfPacket) (timeout : time) (s : state) : state :=
  let '(b, rt) := s in
  if timeout <=? 0 then s
  else
    let first_timer := first_node (m_timers b) in
    let b1 := make_room (m_now rt) (CbfPacket_length p) b in
    let id := identifier p in
    let b2 :=
      match find_timer id (m_timers b1) with
      | Some _ => mk_CbfPacketBuffer (m_packets b1) (m_timers b1) (m_counter b1) (m_capacity_bytes b1)
                    (u64 (m_stored_bytes b1 - CbfPacket_length p))
      | None => mk_CbfPacketBuffer (m_packets b1 ++ [p])
                  (insert_timer (mk_Timer new (m_now rt + timeout) (m_now rt) id) (m_timers b1))
                  (cnt_add (m_now rt) id (m_counter b1)) (m_capacity_bytes b1) (m_stored_bytes b1)
      end in
    (b2, if decide (first_node (m_timers b2) = first_timer) then rt else schedule_timer b2 rt).

(** update(): replace_data moves the timer to its new place. *)
Definition update (id : Id) (timeout : time) (s : state) : state :=
  let '(b, rt) := s in
  match find_timer id (m_timers b) with
  | Some t =>
      let now := m_now rt in
      (mk_CbfPacketBuffer
         (map (fun p => if decide (identifier p = id) then (reduce_lifetime now t p).2 else p) (m_packets b))
         (insert_timer (mk_Timer (node t) (now + timeout) now id) (erase_timer id (m_timers b)))
         (cnt_increment now id (m_counter b)) (m_capacity_bytes b) (m_stored_bytes b), rt)
  | None => s
  end.

Definition find (id : Id) (b : CbfPacketBuffer) : option CbfPacket :=
  match find_timer id (m_timers b) with Some _ => find_packet id (m_packets b) | None => None end.

(** The loop of flush() over the timers that are left, with the packets given
    to the callback. *)
Fixpoint flush_loop (now : time) (ts : list Timer) (b : CbfPacketBuffer) : CbfPacketBuffer * list CbfPacket :=
  match ts with
  | [] => (mk_CbfPacketBuffer (m_packets b) [] (m_counter b) (m_capacity_bytes b) (m_stored_bytes b), [])
  | t :: ts' =>
      if now <? expiry t then (mk_CbfPacketBuffer (m_packets b) ts (m_counter b) (m_capacity_bytes b) (m_stored_bytes b), [])
      else
        match find_packet (timer_id t) (m_packets b) with
        | Some p =>
            let '(valid, p') := reduce_lifetime now t p in
            let '(b', out) := flush_loop now ts'
              (mk_CbfPacketBuffer (erase_packet (timer_id t) (m_packets b)) (m_timers b)
                 (cnt_remove now (timer_id t) (m_counter b)) (m_capacity_bytes b) (u64 (m_stored_bytes b - CbfPacket_length p'))) in
            (b', if valid then p' :: out else out)
        | None => flush_loop now ts' b
        end
  end.

Definition flush (s : state) : state * list CbfPacket :=
  let '(b, rt) := s in
  let '(b', out) := flush_loop (m_now rt) (m_timers b) b in
  ((b', match m_timers b' with [] => rt | _ :: _ => schedule_timer b' rt end), out).

(** * The invariant *)

Definition size_of (ps : list CbfPacket) : Z := list_sum_Z (map CbfPacket_length ps).

(** One timer for each packet, no identifier twice, timers in order, nodes
    apart. *)
Definition Matched (ps : list CbfPacket) (ts : list Timer) : Prop :=
  NoDup (map identifier ps) /\ map timer_id ts ≡ₚ map identifier ps /\ ordered_by expiry ts /\ NoDup (map node ts).

(** The bytes counted are those stored.  They exceed the capacity only for a
    single packet that is longer than it. *)
Definition Inv (b : CbfPacketBuffer) : Prop :=
  Matched (m_packets b) (m_timers b) /\ m_stored_bytes b = size_of (m_packets b) /\
  0 <= m_capacity_bytes b <= 2 ^ 62 /\ size_of (m_packets b) <= 2 ^ 62 /\
  (size_of (m_packets b) <= m_capacity_bytes b \/ exists p, m_packets b = [p]).

Lemma CbfPacketBuffer_create_Inv cnt bytes : 0 <= bytes <= 2 ^ 62 -> Inv (CbfPacketBuffer_create cnt bytes).
Proof. intros Hb. unfold Inv, Matched. cbn. split_all; try lia; try constructor; lia. Qed.

(** The runtime will call flush() no later than the first timer expires. *)
Definition Armed (s : state) : Prop :=
  match m_timers s.1 with
  | [] => True
  | t :: _ => exists x, x ∈ m_queue s.2 /\ callback x = flush_callback /\ scope x = Some this /\ deadline x <= expiry t
  end.

(** ** Lists *)

Lemma CbfPacket_length_nonneg p : 0 <= CbfPacket_length p.
Proof. apply data_length_nonneg. Qed.

Lemma size_of_nonneg ps : 0 <= size_of ps.
Proof. induction ps as [|p ps IH]; [reflexivity|]. unfold size_of in *. cbn. pose proof (CbfPacket_length_nonneg p). lia. Qed.

Lemma size_of_cons p ps : size_of (p :: ps) = CbfPacket_length p + size_of ps.
Proof. reflexivity. Qed.

Lemma size_of_app ps qs : size_of (ps ++ qs) = size_of ps + size_of qs.
Proof. induction ps as [|p ps IH]; [reflexivity|]. cbn [app]. rewrite !size_of_cons, IH. lia. Qed.

Lemma erase_timer_ids id ts : map timer_id (erase_timer id ts) = filter (fun x => x <> id) (map timer_id ts).
Proof.
  unfold erase_timer. induction ts as [|t ts IH]; [reflexivity|]. cbn [map]. rewrite !filter_cons.
  destruct (decide (timer_id t <> id)); cbn [map]; now rewrite IH.
Qed.

Lemma erase_packet_ids id ps : map identifier (erase_packet id ps) = filter (fun x => x <> id) (map identifier ps).
Proof.
  unfold erase_packet. induction ps as [|p ps IH]; [reflexivity|]. cbn [map]. rewrite !filter_cons.
  destruct (decide (identifier p <> id)); cbn [map]; now rewrite IH.
Qed.

Lemma find_Some {A} (f : A -> Id) id l x : List.find (fun y => bool_decide (f y = id)) l = Some x -> x ∈ l /\ f x = id.
Proof.
  intros E. apply List.find_some in E as [Hi Hb]. split; [now apply list_elem_of_In|now apply bool_decide_eq_true in Hb].
Qed.

Lemma find_None {A} (f : A -> Id) id l : List.find (fun y => bool_decide (f y = id)) l = None <-> id ∉ map f l.
Proof.
  induction l as [|x l IH]; cbn; [split; [intros _; apply not_elem_of_nil|reflexivity]|].
  rewrite not_elem_of_cons. case_bool_decide as E; [split; [discriminate|intros [? _]; congruence]|]. rewrite IH. split; [|tauto].
  intros Hi. split; [congruence|exact Hi].
Qed.

Lemma find_packet_unique id ps p : NoDup (map identifier ps) -> p ∈ ps -> identifier p = id -> find_packet id ps = Some p.
Proof.
  unfold find_packet. induction ps as [|q ps IH]; intros Hd Hp Hi; [now apply elem_of_nil in Hp|]. cbn [map List.find] in *.
  apply NoDup_cons in Hd as [Hq Hd]. apply elem_of_cons in Hp as [->|Hp].
  - now rewrite bool_decide_true.
  - rewrite bool_decide_false; [now apply IH|]. intros E. apply Hq. rewrite E, <- Hi. apply list_elem_of_In, List.in_map. now apply list_elem_of_In.
Qed.

Lemma erase_packet_size id ps p : NoDup (map identifier ps) -> find_packet id ps = Some p ->
  size_of (erase_packet id ps) = size_of ps - CbfPacket_length p.
Proof.
  unfold find_packet, erase_packet. induction ps as [|q ps IH]; intros Hd Hf; [discriminate|]. cbn [map List.find] in *.
  apply NoDup_cons in Hd as [Hq Hd]. rewrite filter_cons. case_bool_decide as E.
  - injection Hf as <-. rewrite decide_False by (intros Hne; now apply Hne). rewrite size_of_cons.
    rewrite filter_all; [lia|]. apply Forall_forall. intros r Hr Er. apply Hq. rewrite E, <- Er.
    apply list_elem_of_In, List.in_map. now apply list_elem_of_In.
  - rewrite decide_True by assumption. rewrite !size_of_cons, IH by assumption. lia.
Qed.

Lemma Matched_erase id ps ts : Matched ps ts -> Matched (erase_packet id ps) (erase_timer id ts).
Proof.
  intros (Hd & Hp & Ho & Hn). unfold Matched. split_all.
  - rewrite erase_packet_ids. now apply NoDup_filter.
  - rewrite erase_packet_ids, erase_timer_ids. now rewrite Hp.
  - now apply filter_ordered.
  - eapply sublist_NoDup; [exact Hn|]. unfold erase_timer. apply (fmap_sublist node). apply sublist_filter.
Qed.

Lemma Matched_find ps ts id : Matched ps ts -> (is_Some (find_timer id ts) <-> is_Some (find_packet id ps)).
Proof.
  intros (_ & Hp & _). rewrite <- !not_eq_None_Some. unfold find_timer, find_packet. now rewrite !find_None, Hp.
Qed.

(** ** Each operation *)

Lemma erase_head p ps : NoDup (map identifier (p :: ps)) -> erase_packet (identifier p) (p :: ps) = ps.
Proof.
  cbn [map]. intros [Hp Hd]%NoDup_cons. unfold erase_packet. rewrite filter_cons_False by (intros Hne; now apply Hne). apply filter_all.
  apply Forall_forall. intros r Hr Er. apply Hp. rewrite <- Er. apply list_elem_of_In, List.in_map. now apply list_elem_of_In.
Qed.

(** Head drop leaves the newest packets; [extra] bytes are counted but not
    stored yet. *)
Lemma head_drop_spec fuel now b extra : (length (m_packets b) <= fuel)%nat -> Matched (m_packets b) (m_timers b) ->
  m_stored_bytes b = size_of (m_packets b) + extra -> 0 <= extra -> size_of (m_packets b) + extra < 2 ^ 64 ->
  let b' := head_drop fuel now b in
  exists k, m_packets b' = drop k (m_packets b) /\ Matched (m_packets b') (m_timers b') /\
    m_stored_bytes b' = size_of (m_packets b') + extra /\ m_capacity_bytes b' = m_capacity_bytes b /\
    (forall t, t ∈ m_timers b' -> t ∈ m_timers b) /\ size_of (m_packets b') <= size_of (m_packets b) /\
    (size_of (m_packets b') + extra <= m_capacity_bytes b \/ m_packets b' = []).
Proof.
  revert b. induction fuel as [|fuel IH]; intros b Hf HM Hs He Hlt; cbv zeta; cbn [head_drop].
  - exists 0%nat. assert (E : m_packets b = []) by (destruct (m_packets b); [reflexivity|cbn in Hf; lia]). split_all; auto. lia.
  - destruct (m_packets b) as [|p ps] eqn:Ep; [exists 0%nat; rewrite Ep; split_all; auto; lia|].
    destruct (Z.ltb_spec (m_capacity_bytes b) (m_stored_bytes b)) as [H1|H1]; [|exists 0%nat; rewrite Ep; split_all; auto; [lia|left; lia]].
    pose proof (CbfPacket_length_nonneg p). pose proof (size_of_nonneg ps). rewrite size_of_cons in *. rewrite Hs, uwrap_small by lia.
    set (b1 := mk_CbfPacketBuffer ps _ _ _ _).
    assert (HM1 : Matched (m_packets b1) (m_timers b1)).
    { cbn. rewrite <- (erase_head p ps) by apply HM. now apply Matched_erase. }
    destruct (IH b1) as (k & Ek & HM' & Es' & Ec' & Ht' & Hle' & Hfit); [cbn in *; lia|exact HM1|unfold b1; cbn [m_packets m_stored_bytes]; lia..|].
    exists (S k). split_all; auto.
    + intros t Ht. apply Ht' in Ht. cbn in Ht. now apply list_elem_of_filter in Ht as [_ Ht].
    + change (m_packets b1) with ps in Hle'. lia.
Qed.

Lemma schedule_timer_armed b rt : Armed (b, schedule_timer b rt).
Proof.
  unfold Armed, schedule_timer. cbn [fst snd]. destruct (m_timers b) as [|t ts]; [exact I|].
  exists (mk_ScheduledCallback (expiry t) flush_callback (Some this)). split; [|cbn; split_all; auto; lia].
  unfold schedule, emplace. cbn [m_queue]. rewrite (insert_by_Permutation deadline). constructor.
Qed.

Lemma schedule_timer_now b rt : m_now (schedule_timer b rt) = m_now rt.
Proof. unfold schedule_timer. now destruct (m_timers b). Qed.

(** The first timer stays the first when another one is erased. *)
Lemma erase_timer_first id t ts : timer_id t <> id -> exists ts', erase_timer id (t :: ts) = t :: ts'.
Proof. intros Hne. unfold erase_timer. rewrite filter_cons_True by assumption. eauto. Qed.

Lemma discard_spec id p s : Inv s.1 -> find_packet id (m_packets s.1) = Some p ->
  let s' := discard id (CbfPacket_length p) s in
  Inv s'.1 /\ m_packets s'.1 = erase_packet id (m_packets s.1) /\ m_timers s'.1 = erase_timer id (m_timers s.1) /\ (Armed s -> Armed s').
Proof.
  destruct s as [b rt]. cbn [fst]. intros (HM & Hs & Hc & Hb & Hcap) Hf. unfold discard.
  pose proof (erase_packet_size id (m_packets b) p (proj1 HM) Hf) as Hsz.
  pose proof (size_of_nonneg (erase_packet id (m_packets b))). pose proof (CbfPacket_length_nonneg p).
  set (b' := mk_CbfPacketBuffer _ _ _ _ _). cbn [fst]. split_all; auto.
  - unfold Inv, b'. cbn [m_packets m_timers m_stored_bytes m_capacity_bytes]. split; [now apply Matched_erase|].
    rewrite Hs, uwrap_small by lia. split; [lia|]. split; [lia|]. split; [lia|]. left. destruct Hcap as [Hcap|[q Eq]]; [lia|].
    rewrite Eq in *. cbn in Hf. unfold find_packet in Hf. cbn in Hf. rewrite size_of_cons in Hsz. case_bool_decide; [|discriminate].
    injection Hf as <-. change (size_of []) with 0 in Hsz. lia.
  - destruct (m_timers b) as [|t ts] eqn:Et; [intros _; exact I|].
    case_bool_decide as E; [intros _; apply schedule_timer_armed|]. unfold Armed. cbn [fst snd]. rewrite Et. unfold b'. cbn [m_timers].
    now destruct (erase_timer_first id t ts E) as [ts' ->].
Qed.

Lemma reduce_lifetime_length now t p : CbfPacket_length (reduce_lifetime now t p).2 = CbfPacket_length p /\
  identifier (reduce_lifetime now t p).2 = identifier p.
Proof.
  unfold reduce_lifetime, CbfPacket_length. pose proof (data_length_reduce (now - start t) (m_packet p)) as E.
  destruct (data_reduce_lifetime _ _). now split.
Qed.

Lemma map_inj_NoDup {A B} (f : A -> B) l x y : NoDup (map f l) -> x ∈ l -> y ∈ l -> f x = f y -> x = y.
Proof.
  induction l as [|z l IH]; intros Hd Hx Hy E; [now apply elem_of_nil in Hx|]. cbn [map] in Hd. apply NoDup_cons in Hd as [Hz Hd].
  apply elem_of_cons in Hx as [->|Hx]; apply elem_of_cons in Hy as [->|Hy]; auto.
  - destruct Hz. rewrite E. apply list_elem_of_In, List.in_map. now apply list_elem_of_In.
  - destruct Hz. rewrite <- E. apply list_elem_of_In, List.in_map. now apply list_elem_of_In.
Qed.

Lemma split_off {A} (f : A -> Id) l x : NoDup (map f l) -> x ∈ l -> x :: filter (fun y => f y <> f x) l ≡ₚ l.
Proof.
  induction l as [|z l IH]; intros Hd Hx; [now apply elem_of_nil in Hx|]. cbn [map] in Hd. apply NoDup_cons in Hd as [Hz Hd].
  apply elem_of_cons in Hx as [->|Hx].
  - rewrite filter_cons_False by (intros Hne; now apply Hne). rewrite filter_all; [reflexivity|]. apply Forall_forall. intros y Hy E.
    apply Hz. rewrite <- E. apply list_elem_of_In, List.in_map. now apply list_elem_of_In.
  - rewrite filter_cons_True; [rewrite perm_swap; now rewrite IH|]. intros E. apply Hz. rewrite E.
    apply list_elem_of_In, List.in_map. now apply list_elem_of_In.
Qed.

Lemma make_room_spec now p b : Inv b -> CbfPacket_length p <= 2 ^ 62 ->
  let b1 := make_room now (CbfPacket_length p) b in
  exists k, m_packets b1 = drop k (m_packets b) /\ Matched (m_packets b1) (m_timers b1) /\
    m_stored_bytes b1 = size_of (m_packets b1) + CbfPacket_length p /\ m_capacity_bytes b1 = m_capacity_bytes b /\
    (forall t, t ∈ m_timers b1 -> t ∈ m_timers b) /\ size_of (m_packets b1) <= size_of (m_packets b) /\
    (size_of (m_packets b1) + CbfPacket_length p <= m_capacity_bytes b \/ m_packets b1 = []).
Proof.
  intros (HM & Hs & Hc & Hb & Hcap) Hp. pose proof (CbfPacket_length_nonneg p). pose proof (size_of_nonneg (m_packets b)).
  apply (head_drop_spec _ _ (mk_CbfPacketBuffer (m_packets b) (m_timers b) (m_counter b) (m_capacity_bytes b) _));
    cbn [m_packets m_timers m_stored_bytes]; auto; [rewrite Hs; apply uwrap_small|]; lia.
Qed.

Lemma add_Inv new p timeout s : Inv s.1 -> CbfPacket_length p <= 2 ^ 62 ->
  new ∉ map node (m_timers (make_room (m_now s.2) (CbfPacket_length p) s.1)) ->
  Inv (add new p timeout s).1 /\
  (0 < timeout -> exists k, m_packets (add new p timeout s).1 = drop k (m_packets s.1) \/
     m_packets (add new p timeout s).1 = drop k (m_packets s.1) ++ [p]) /\
  (0 < timeout -> is_Some (find (identifier p) (add new p timeout s).1)).
Proof.
  destruct s as [b rt]. cbn [fst snd]. intros HI Hp Hnew. unfold add. destruct (Z.leb_spec timeout 0) as [Ht|Ht]; [split_all; [exact HI|lia..]|].
  destruct (make_room_spec (m_now rt) p b HI Hp) as (k & Ek & HM & Es & Ec & Hin & Hle & Hfit). cbv zeta.
  set (b1 := make_room _ _ _) in *. pose proof (size_of_nonneg (m_packets b1)). pose proof (CbfPacket_length_nonneg p).
  destruct HI as (_ & _ & Hc & Hb & _). destruct (find_timer (identifier p) (m_timers b1)) as [t|] eqn:Ef; cbn [fst].
  - split_all.
    + unfold Inv. cbn [m_packets m_timers m_stored_bytes m_capacity_bytes]. rewrite Es, uwrap_small by lia. split; [exact HM|].
      split; [lia|]. rewrite Ec. split; [lia|]. split; [lia|]. left. destruct Hfit as [|E0]; [lia|]. rewrite E0. change (size_of []) with 0. lia.
    + intros _. exists k. now left.
    + intros _. unfold find. cbn [m_timers m_packets]. rewrite Ef. apply (Matched_find _ (m_timers b1) _ HM). now exists t.
  - pose proof (proj1 (find_None timer_id (identifier p) (m_timers b1)) Ef) as Hnone. destruct HM as (Hd & Hperm & Hord & Hnd).
    split_all.
    + unfold Inv, Matched. cbn [m_packets m_timers m_stored_bytes m_capacity_bytes].
      rewrite map_app, size_of_app, size_of_cons. change (size_of []) with 0. split_all; try lia.
      * apply NoDup_app. rewrite Hperm in Hnone. split_all; auto; [|apply NoDup_singleton]. intros x Hx ->%list_elem_of_singleton. easy.
      * unfold insert_timer. rewrite (Permutation_map timer_id (insert_by_Permutation expiry _ _)). cbn [map timer_id].
        rewrite Hperm. apply Permutation_cons_append.
      * now apply insert_by_ordered.
      * unfold insert_timer. rewrite (Permutation_map node (insert_by_Permutation expiry _ _)). cbn [map node]. now constructor.
      * destruct Hfit as [?| -> ]; [lia|]. change (size_of []) with 0. lia.
      * destruct Hfit as [|E0]; [left; lia|right; exists p; now rewrite E0].
    + intros _. exists k. right. cbn [m_packets]. now rewrite Ek.
    + intros _. unfold find. cbn [m_timers m_packets].
      assert (Hft : is_Some (find_timer (identifier p) (insert_timer (mk_Timer new (m_now rt + timeout) (m_now rt) (identifier p)) (m_timers b1)))).
      { rewrite <- not_eq_None_Some. unfold find_timer. rewrite find_None. intros Hn. apply Hn. unfold insert_timer.
        rewrite (Permutation_map timer_id (insert_by_Permutation expiry _ _)). constructor. }
      destruct Hft as [t ->]. rewrite <- not_eq_None_Some. unfold find_packet. rewrite find_None. intros Hn. apply Hn.
      rewrite map_app. apply elem_of_app. right. constructor.
Qed.

Lemma add_Armed new p timeout s : Inv s.1 -> CbfPacket_length p <= 2 ^ 62 -> Some new <> first_node (m_timers s.1) ->
  Armed s -> Armed (add new p timeout s).
Proof.
  destruct s as [b rt]. cbn [fst]. intros HI Hp Hnew HA. unfold add. destruct (Z.leb_spec timeout 0) as [Ht|Ht]; [exact HA|].
  destruct (make_room_spec (m_now rt) p b HI Hp) as (k & Ek & HM & Es & Ec & Hin & _). cbv zeta. set (b1 := make_room _ _ _) in *.
  set (b2 := match find_timer _ _ with Some _ => _ | None => _ end).
  destruct (decide _) as [E|E]; [|apply schedule_timer_armed].
  assert (Hold : forall t, t ∈ m_timers b2 -> node t = new \/ t ∈ m_timers b).
  { intros t. unfold b2. destruct (find_timer _ _); cbn [m_timers]; [auto|]. unfold insert_timer.
    rewrite (insert_by_Permutation expiry), elem_of_cons. intros [->|?]; auto. }
  unfold Armed in *. cbn [fst snd] in *. destruct (m_timers b2) as [|t2 ts2]; [exact I|]. cbn [first_node] in E.
  destruct (m_timers b) as [|t ts] eqn:Et; [discriminate|]. cbn [first_node] in *. injection E as E.
  destruct (Hold t2 ltac:(constructor)) as [Hn|Hn]; [congruence|].
  destruct HI as ((_ & _ & _ & Hnd) & _). rewrite Et in Hnd.
  now rewrite (map_inj_NoDup node (t :: ts) t2 t Hnd Hn ltac:(constructor) E).
Qed.

Lemma update_ids id now t ps :
  map identifier (map (fun p => if decide (identifier p = id) then (reduce_lifetime now t p).2 else p) ps) = map identifier ps /\
  size_of (map (fun p => if decide (identifier p = id) then (reduce_lifetime now t p).2 else p) ps) = size_of ps.
Proof.
  induction ps as [|p ps [E1 E2]]; [auto|]. cbn [map]. rewrite E1, !size_of_cons, E2.
  destruct (reduce_lifetime_length now t p) as [Hl Hi]. destruct (decide _); [now rewrite Hl, Hi|auto].
Qed.

Lemma update_Inv id timeout s : Inv s.1 -> Inv (update id timeout s).1.
Proof.
  destruct s as [b rt]. cbn [fst]. intros ((Hd & Hperm & Hord & Hnd) & Hs & Hc & Hb & Hcap). unfold update.
  destruct (find_timer id (m_timers b)) as [t|] eqn:Ef; [|unfold Inv, Matched; auto 10].
  apply find_Some in Ef as [Hin <-]. cbn [fst]. unfold Inv, Matched. cbn [m_packets m_timers m_stored_bytes m_capacity_bytes].
  destruct (update_ids (timer_id t) (m_now rt) t (m_packets b)) as [-> ->].
  assert (Hids : NoDup (map timer_id (m_timers b))) by now rewrite Hperm.
  pose proof (split_off timer_id (m_timers b) t Hids Hin) as Hsp. fold (erase_timer (timer_id t) (m_timers b)) in Hsp.
  split_all; try lia; auto.
  - unfold insert_timer. rewrite (Permutation_map timer_id (insert_by_Permutation expiry _ _)). cbn [map timer_id].
    change (timer_id t :: map timer_id (erase_timer (timer_id t) (m_timers b))) with (map timer_id (t :: erase_timer (timer_id t) (m_timers b))).
    now rewrite (Permutation_map timer_id Hsp).
  - apply insert_by_ordered. now apply filter_ordered.
  - unfold insert_timer. rewrite (Permutation_map node (insert_by_Permutation expiry _ _)). cbn [map node].
    change (node t :: map node (erase_timer (timer_id t) (m_timers b))) with (map node (t :: erase_timer (timer_id t) (m_timers b))).
    now rewrite (Permutation_map node Hsp).
  - destruct Hcap as [|[q ->]]; [now left|]. right. cbn [map]. eauto.
Qed.

(** update() keeps the buffer armed unless it brings the first expiry
    forward. *)
Lemma update_Armed id timeout s : Inv s.1 -> (forall t, t ∈ m_timers s.1 -> expiry t <= m_now s.2 + timeout) -> Armed s -> Armed (update id timeout s).
Proof.
  destruct s as [b rt]. cbn [fst snd]. intros HI Hle HA. unfold update. destruct (find_timer id (m_timers b)) as [t|] eqn:Ef; [|exact HA].
  unfold Armed in *. cbn [fst snd m_timers] in *. set (ts := insert_timer _ _). destruct ts as [|u us] eqn:E; [exact I|].
  destruct (m_timers b) as [|f fs] eqn:Et; [discriminate Ef|].
  destruct HA as (x & Hx & Hcb & Hsc & Hd). exists x. split_all; auto. etransitivity; [exact Hd|].
  assert (Hu : u ∈ ts) by (rewrite E; constructor). unfold ts, insert_timer in Hu. rewrite (insert_by_Permutation expiry), elem_of_cons in Hu.
  destruct Hu as [->|Hu]; [cbn; apply Hle; constructor|]. apply list_elem_of_filter in Hu as [_ Hu].
  destruct HI as ((_ & _ & Hord & _) & _). rewrite Et in Hord. inversion Hord as [|? ? _ Hf]; subst.
  apply elem_of_cons in Hu as [->|Hu]; [lia|]. rewrite Forall_forall in Hf. auto.
Qed.

(** ** Flushing *)

(** What the timer of a packet makes of it: nothing at the end of its
    lifetime. *)
Definition expired_packet (now : time) (ps : list CbfPacket) (t : Timer) : option CbfPacket :=
  match find_packet (timer_id t) ps with
  | Some p => let '(valid, p') := reduce_lifetime now t p in if valid then Some p' else None
  | None => None
  end.

Lemma find_packet_erase id id' ps : id <> id' -> find_packet id (erase_packet id' ps) = find_packet id ps.
Proof.
  intros Hne. unfold find_packet, erase_packet. induction ps as [|p ps IH]; [reflexivity|]. rewrite filter_cons. cbn [List.find].
  destruct (decide (identifier p <> id')) as [Hp|Hp]; cbn [List.find].
  - now rewrite IH.
  - rewrite IH, bool_decide_false; [reflexivity|]. apply dec_stable in Hp. congruence.
Qed.

Lemma expired_packets_erase now id ps ts : id ∉ map timer_id ts ->
  omap (expired_packet now (erase_packet id ps)) ts = omap (expired_packet now ps) ts.
Proof.
  induction ts as [|t ts IH]; [reflexivity|]. cbn [map]. intros [Hne Hn]%not_elem_of_cons. cbn. rewrite IH by assumption.
  unfold expired_packet. now rewrite find_packet_erase by congruence.
Qed.

Lemma Matched_tail ps t ts : Matched ps (t :: ts) -> Matched (erase_packet (timer_id t) ps) ts /\ is_Some (find_packet (timer_id t) ps) /\
  timer_id t ∉ map timer_id ts.
Proof.
  intros HM. assert (Hids : NoDup (map timer_id (t :: ts))) by (destruct HM as (Hd & Hp & _); now rewrite Hp).
  cbn [map] in Hids. apply NoDup_cons in Hids as [Ht Hids]. split_all; auto.
  - replace ts with (erase_timer (timer_id t) (t :: ts)); [now apply Matched_erase|]. unfold erase_timer.
    rewrite filter_cons_False by (intros Hne; now apply Hne). apply filter_all. apply Forall_forall. intros u Hu E. apply Ht. rewrite <- E.
    apply list_elem_of_In, List.in_map. now apply list_elem_of_In.
  - apply (Matched_find ps (t :: ts) _ HM). unfold find_timer. cbn [List.find]. rewrite bool_decide_true by reflexivity. eauto.
Qed.

(** Bytes of some packets that were stored already bound those left. *)
Definition Sized (b : CbfPacketBuffer) : Prop :=
  m_stored_bytes b = size_of (m_packets b) /\ size_of (m_packets b) <= 2 ^ 62.

Lemma flush_loop_spec now ts b : Matched (m_packets b) ts -> Sized b ->
  let '(b', out) := flush_loop now ts b in
  m_timers b' = filter (fun t => now < expiry t) ts /\ Matched (m_packets b') (m_timers b') /\ Sized b' /\
  m_capacity_bytes b' = m_capacity_bytes b /\
  (forall p, p ∈ m_packets b' <-> p ∈ m_packets b /\ identifier p ∈ map timer_id (m_timers b')) /\
  size_of (m_packets b') <= size_of (m_packets b) /\ (length (m_packets b') <= length (m_packets b))%nat /\
  out = omap (expired_packet now (m_packets b)) (filter (fun t => expiry t <= now) ts).
Proof.
  revert b. induction ts as [|t ts IH]; intros b HM [Hs Hle]; cbn [flush_loop].
  - cbn [m_packets m_timers m_capacity_bytes]. split_all; auto; try lia; [now split|]. intros p. split; [|tauto]. intros Hp. split; [exact Hp|].
    destruct HM as (_ & Hperm & _). rewrite Hperm. apply list_elem_of_In, List.in_map. now apply list_elem_of_In.
  - rewrite !filter_cons. destruct (Z.ltb_spec now (expiry t)) as [Hlt|Hge].
    + rewrite (decide_True (P := now < expiry t)) by assumption. rewrite decide_False by lia.
      assert (Hall : Forall (fun u => now < expiry u) ts).
      { destruct HM as (_ & _ & Ho & _). inversion Ho as [|? ? _ Hx]; subst. eapply Forall_impl; [exact Hx|]. cbn. intros. lia. }
      rewrite filter_all by exact Hall. rewrite (filter_none (fun u => expiry u <= now)) by (eapply Forall_impl; [exact Hall|]; cbn; lia).
      cbn [m_packets m_timers m_capacity_bytes]. split_all; auto; try lia; [now split|]. intros p. split; [|tauto]. intros Hp. split; [exact Hp|].
      destruct HM as (_ & Hperm & _). rewrite Hperm. apply list_elem_of_In, List.in_map. now apply list_elem_of_In.
    + rewrite (decide_False (P := now < expiry t)) by lia. rewrite decide_True by assumption.
      destruct (Matched_tail _ _ _ HM) as (HM' & [p Ep] & Hnot). rewrite Ep.
      destruct (reduce_lifetime_length now t p) as [Hlen _]. destruct (reduce_lifetime now t p) as [valid p'] eqn:Er. cbn [snd] in Hlen.
      pose proof (erase_packet_size _ _ _ (proj1 HM) Ep) as Hsz. pose proof (size_of_nonneg (erase_packet (timer_id t) (m_packets b))).
      pose proof (CbfPacket_length_nonneg p). rewrite Hlen, Hs, uwrap_small by lia.
      specialize (IH (mk_CbfPacketBuffer (erase_packet (timer_id t) (m_packets b)) (m_timers b) (cnt_remove now (timer_id t) (m_counter b))
        (m_capacity_bytes b) (size_of (m_packets b) - CbfPacket_length p)) HM').
      destruct (flush_loop now ts _) as [b' out]. cbn [m_packets m_capacity_bytes] in IH.
      destruct IH as (Et & HMx & Hsx & Ec & Hin & Hle' & Hln & Eo); [split; cbn [m_packets m_stored_bytes]; lia|].
      split_all; auto; try lia.
      * intros q. rewrite Hin. unfold erase_packet. rewrite list_elem_of_filter. split; [tauto|]. intros [Hq Hi]. split; [split; [|exact Hq]|exact Hi].
        intros E. apply Hnot. rewrite E in Hi. rewrite Et in Hi. apply list_elem_of_In, List.in_map_iff in Hi as (u & Eu & Hu).
        apply list_elem_of_In, list_elem_of_filter in Hu as [_ Hu]. rewrite <- Eu. apply list_elem_of_In, List.in_map. now apply list_elem_of_In.
      * etransitivity; [exact Hln|]. unfold erase_packet. apply length_filter.
      * rewrite Eo, expired_packets_erase.
        -- assert (Ex : expired_packet now (m_packets b) t = if valid then Some p' else None) by (unfold expired_packet; now rewrite Ep, Er).
           cbn. rewrite Ex. now destruct valid.
        -- intros Hx. apply Hnot. apply list_elem_of_In, List.in_map_iff in Hx as (u & Eu & Hu). apply list_elem_of_In, list_elem_of_filter in Hu as [_ Hu].
           rewrite <- Eu. apply list_elem_of_In, List.in_map. now apply list_elem_of_In.
Qed.

Lemma remove_cases id s : remove id s = (false, s) \/
  exists p, find_packet id (m_packets s.1) = Some p /\ remove id s = (true, discard id (CbfPacket_length p) s).
Proof.
  unfold remove. destruct (find_timer id _), (find_packet id _) as [p|] eqn:E; auto. right. exists p. auto.
Qed.

Lemma fetch_cases id s : fetch id s = (None, s) \/
  exists p, find_packet id (m_packets s.1) = Some p /\ (fetch id s).2 = discard id (CbfPacket_length p) s.
Proof.
  unfold fetch. destruct (find_timer id _) as [t|], (find_packet id _) as [p|] eqn:E; auto. right. exists p. split; [reflexivity|].
  destruct (reduce_lifetime_length (m_now s.2) t p) as [Hl _]. destruct (reduce_lifetime _ t p) as [v p']. cbn in *. now rewrite Hl.
Qed.

Lemma flush_Inv s : Inv s.1 -> Inv (flush s).1.1.
Proof.
  destruct s as [b rt]. cbn [fst]. intros (HM & Hs & Hc & Hb & Hcap). unfold flush.
  pose proof (flush_loop_spec (m_now rt) (m_timers b) b HM (conj Hs Hb)) as Hf. destruct (flush_loop _ _ b) as [b' out]. cbn [fst].
  destruct Hf as (_ & HM' & [Hs' Hb'] & Ec & _ & Hle & Hln & _). unfold Inv. rewrite Ec. split_all; auto; try lia.
  destruct Hcap as [|[p Ep]]; [left; lia|]. rewrite Ep in Hln. cbn in Hln.
  destruct (m_packets b') as [|q [|? ?]]; [left; change (size_of []) with 0; lia|right; eauto|cbn in Hln; lia].
Qed.

Lemma flush_Armed s : Armed (flush s).1.
Proof.
  destruct s as [b rt]. unfold flush. destruct (flush_loop _ _ b) as [b' out]. cbn [fst]. pose proof (schedule_timer_armed b' rt) as HA.
  unfold Armed in *. cbn [fst snd] in *. now destruct (m_timers b').
Qed.

Lemma erase_timer_find id ts : find_timer id (erase_timer id ts) = None.
Proof. apply (find_None timer_id). rewrite erase_timer_ids, list_elem_of_filter. now intros [? _]. Qed.

Lemma erase_packet_find id ps : find_packet id (erase_packet id ps) = None.
Proof. apply (find_None identifier). rewrite erase_packet_ids, list_elem_of_filter. now intros [? _]. Qed.

(** ** Theorems *)

(** C35.  The buffer's books are kept by every operation: one timer for each
    packet, no packet twice, timers in order, and the bytes counted are the
    bytes stored, within the capacity but for a single longer packet.  The
    node of a new timer is not one that is in use. *)
Theorem cbf_buffer_invariant s : Inv s.1 ->
  (forall new p timeout, CbfPacket_length p <= 2 ^ 62 -> new ∉ map node (m_timers (make_room (m_now s.2) (CbfPacket_length p) s.1)) ->
     Inv (add new p timeout s).1 /\ (0 < timeout -> is_Some (find (identifier p) (add new p timeout s).1))) /\
  (forall id timeout, Inv (update id timeout s).1) /\
  (forall id, Inv (remove id s).2.1 /\ find id (remove id s).2.1 = None) /\
  (forall id, Inv (fetch id s).2.1 /\ find id (fetch id s).2.1 = None) /\
  Inv (flush s).1.1.
Proof.
  intros HI. split_all.
  - intros new p timeout Hp Hn. destruct (add_Inv new p timeout s HI Hp Hn) as (? & _ & ?). auto.
  - intros id timeout. now apply update_Inv.
  - intros id. destruct (remove_cases id s) as [E|(p & Ep & E)].
    + rewrite E. split; [exact HI|]. unfold remove in E. unfold find. cbn [snd].
      now destruct (find_timer id (m_timers s.1)), (find_packet id (m_packets s.1)).
    + rewrite E. cbn [snd]. destruct (discard_spec id p s HI Ep) as (HI' & _ & Et & _). split; [exact HI'|]. unfold find. rewrite Et.
      now rewrite erase_timer_find.
  - intros id. destruct (fetch_cases id s) as [E|(p & Ep & E)].
    + rewrite E. split; [exact HI|]. unfold fetch in E. unfold find. cbn [snd].
      destruct (find_timer id (m_timers s.1)) as [t|], (find_packet id (m_packets s.1)) as [p|] eqn:Ep; auto. exfalso.
      destruct (reduce_lifetime _ t p) as [v p'] eqn:Er. injection E as _ E. destruct (discard_spec id p s HI Ep) as (_ & Epk & _).
      pose proof (reduce_lifetime_length (m_now s.2) t p) as [Hl _]. rewrite Er in Hl. cbn in Hl. rewrite Hl in E. rewrite E in Epk.
      apply (f_equal (find_packet id)) in Epk. now rewrite Ep, erase_packet_find in Epk.
    + rewrite E. destruct (discard_spec id p s HI Ep) as (HI' & _ & Et & _). split; [exact HI'|]. unfold find. rewrite Et.
      now rewrite erase_timer_find.
  - now apply flush_Inv.
Qed.

(** C36.  The runtime wakes the buffer no later than its first timer:
    remove(), fetch() and flush() always keep it so; add() does unless the
    allocator gives the new timer the address of the timer that was first
    and that add() freed to make room, since the code tells by the address
    whether the first timer changed ([cbf_late_wakeup] is that case); and
    update() does when it does not bring the first expiry forward.  As long as
    this is kept, no timer has expired once the runtime has nothing due. *)
Theorem cbf_buffer_armed s : Inv s.1 -> Armed s ->
  (forall new p timeout, CbfPacket_length p <= 2 ^ 62 -> Some new <> first_node (m_timers s.1) -> Armed (add new p timeout s)) /\
  (forall id timeout, (forall t, t ∈ m_timers s.1 -> expiry t <= m_now s.2 + timeout) -> Armed (update id timeout s)) /\
  (forall id, Armed (remove id s).2) /\ (forall id, Armed (fetch id s).2) /\ Armed (flush s).1 /\
  (Forall (fun x => m_now s.2 < deadline x) (m_queue s.2) -> Forall (fun t => m_now s.2 < expiry t) (m_timers s.1)).
Proof.
  intros HI HA. split_all.
  - intros new p timeout Hp Hn. now apply add_Armed.
  - intros id timeout Hle. now apply update_Armed.
  - intros id. destruct (remove_cases id s) as [E|(p & Ep & E)]; rewrite E; [exact HA|]. cbn [snd]. now apply (discard_spec id p s HI Ep).
  - intros id. destruct (fetch_cases id s) as [E|(p & Ep & E)]; rewrite E; [exact HA|]. now apply (discard_spec id p s HI Ep).
  - apply flush_Armed.
  - intros Hq. destruct HI as ((_ & _ & Hord & _) & _). unfold Armed in HA. destruct (m_timers s.1) as [|t ts]; [constructor|].
    destruct HA as (x & Hx & _ & _ & Hd). rewrite Forall_forall in Hq. apply Hq in Hx. cbn in Hx.
    inversion Hord as [|? ? _ Hf]; subst. constructor; [lia|]. eapply Forall_impl; [exact Hf|]. cbn. intros. lia.
Qed.

(** flush() hands over exactly the packets whose timers have expired and
    whose lifetime has not, in the order of their timers, and keeps exactly
    the others. *)
Theorem cbf_flush s : Inv s.1 ->
  let '((b', rt'), out) := flush s in
  out = omap (expired_packet (m_now s.2) (m_packets s.1)) (filter (fun t => expiry t <= m_now s.2) (m_timers s.1)) /\
  m_timers b' = filter (fun t => m_now s.2 < expiry t) (m_timers s.1) /\
  (forall p, p ∈ m_packets b' <-> p ∈ m_packets s.1 /\ identifier p ∈ map timer_id (m_timers b')).
Proof.
  destruct s as [b rt]. cbn [fst snd]. intros (HM & Hs & Hc & Hb & Hcap). unfold flush.
  pose proof (flush_loop_spec (m_now rt) (m_timers b) b HM (conj Hs Hb)) as Hf. destruct (flush_loop _ _ b) as [b' out].
  destruct Hf as (Et & _ & _ & _ & Hin & _ & _ & Eo). auto.
Qed.

End CbfPacketBuffer.

(** * Counters *)

(** The value a fading counter goes on from. *)
Definition stored_count (id : Id) (c : CbfCounterFading) : Z := default 0 (snd <$> abs (fading_counters c) !! id).

Lemma fading_add now id c : Linked (fading_counters c) -> 0 <= m_lifetime (fading_counters c) ->
  Linked (fading_counters (cnt_add now id c)) /\ cnt_counter now id (cnt_add now id c) = u64 (stored_count id c + 1).
Proof.
  intros HL Hlife. cbn [cnt_add Fading_counter]. destruct (refresh_spec zero_counter now (fading_counters c) id HL) as (m & -> & HL1 & El & Ea).
  destruct (assign_spec m id succ_counter HL1) as [HL2 Ea2].
  destruct (SoftState.drop_loop_spec now (size (m_heap (assign id succ_counter m))) _ HL2 (le_n _)) as (HL3 & _ & Ea3).
  fold (SoftState.drop_expired now (assign id succ_counter m)) in HL3, Ea3. split; [exact HL3|].
  cbn [cnt_counter Fading_counter fading_counters]. rewrite (get_value_ptr_spec now _ id HL3), Ea3, Ea2, Ea. unfold SoftState.live, spec_drop, spec_refresh.
  rewrite lookup_omap, map_lookup_filter, lookup_alter_eq, lookup_insert_eq. cbn.
  assert (E : SoftState.is_expired now (now + m_lifetime (fading_counters c)) = false) by (apply Z.ltb_ge; lia).
  rewrite option_guard_True by exact E. cbn. rewrite E. unfold stored_count. now destruct (abs (fading_counters c) !! id) as [[d v]|].
Qed.

Lemma fading_increment now id c : Linked (fading_counters c) -> 0 <= m_lifetime (fading_counters c) ->
  Linked (fading_counters (cnt_increment now id c)) /\ cnt_counter now id (cnt_increment now id c) = u64 (stored_count id c + 1).
Proof.
  intros HL Hlife. cbn [cnt_increment Fading_counter]. destruct (get_value_spec zero_counter now (fading_counters c) id HL) as (m & -> & HL1 & El & Ea).
  destruct (assign_spec m id succ_counter HL1) as [HL2 Ea2]. split; [exact HL2|].
  cbn [cnt_counter Fading_counter fading_counters]. rewrite (get_value_ptr_spec now _ id HL2), Ea2, Ea. unfold SoftState.live, spec_get_value.
  assert (E : SoftState.is_expired now (now + m_lifetime (fading_counters c)) = false) by (apply Z.ltb_ge; lia).
  rewrite lookup_omap, lookup_alter_eq. unfold stored_count. destruct (abs (fading_counters c) !! id) as [[d v]|] eqn:Ek.
  - destruct (SoftState.is_expired now d) eqn:Ed; [rewrite lookup_insert_eq; cbn; now rewrite E|]. rewrite Ek. cbn. now rewrite Ed.
  - rewrite lookup_insert_eq. cbn. now rewrite E.
Qed.

(** The counters of contention: a contending counter starts at one with each
    packet and is forgotten with it; an immortal counter goes on for ever; a
    fading one reads zero after its lifetime, but goes on from its old value
    when the packet comes back before the counter was dropped. *)
Theorem cbf_counters now id :
  (forall c : CbfCounterContending, cnt_counter now id (cnt_add now id c) = 1 /\ cnt_counter now id (cnt_remove now id c) = 0 /\
     cnt_counter now id (cnt_increment now id c) = u64 (cnt_counter now id c + 1)) /\
  (forall c : CbfCounterImmortal, cnt_counter now id (cnt_add now id c) = u64 (cnt_counter now id c + 1) /\
     cnt_counter now id (cnt_increment now id c) = u64 (cnt_counter now id c + 1) /\ cnt_remove now id c = c) /\
  (forall c : CbfCounterFading, Linked (fading_counters c) -> 0 <= m_lifetime (fading_counters c) ->
     cnt_counter now id (cnt_add now id c) = u64 (stored_count id c + 1) /\
     cnt_counter now id (cnt_increment now id c) = u64 (stored_count id c + 1) /\
     cnt_counter now id c = match abs (fading_counters c) !! id with
       | Some (d, v) => if d <? now then 0 else v
       | None => 0
       end).
Proof.
  split_all.
  - intros c. cbn. unfold bump. now rewrite !lookup_insert_eq, lookup_delete_eq.
  - intros c. cbn. unfold bump. now rewrite !lookup_insert_eq.
  - intros c HL Hl. split; [now apply fading_add|]. split; [now apply fading_increment|].
    cbn. rewrite (get_value_ptr_spec now _ id HL). unfold SoftState.live, SoftState.is_expired. rewrite lookup_omap.
    destruct (abs (fading_counters c) !! id) as [[d v]|]; [|reflexivity]. cbn. now destruct (d <? now).
Qed.

(** * Examples *)

Definition example_id (n : Z) : Id := (Address_default, n).
Definition example_cbf (n : Z) (len : nat) : @CbfPacket PendingPacket :=
  mk_CbfPacket (example_id n) (mk_PendingPacket 44 len (Lifetime.set Lifetime.One_Second 10) n) cBroadcastMacAddress.

(** A buffer of 200 octets on a runtime of which it is the only user. *)
Definition example_empty : @CbfPacketBuffer PendingPacket CbfCounterContending * @ManualRuntime unit :=
  (CbfPacketBuffer_create (mk_Contending ∅) 200, ManualRuntime_create 0).
Definition example_one : @CbfPacketBuffer PendingPacket CbfCounterContending * @ManualRuntime unit := add tt 1 1 (example_cbf 1 56) 100 example_empty.

Lemma example_empty_Inv : Inv example_empty.1.
Proof. unfold Inv, Matched. cbn. split_all; try lia; try constructor. Qed.

Lemma example_one_Inv : Inv example_one.1.
Proof. apply add_Inv; [apply example_empty_Inv|vm_compute; congruence|]. vm_compute. apply not_elem_of_nil. Qed.

Lemma example_one_Armed : Armed tt 1 example_one.
Proof. apply add_Armed; [apply example_empty_Inv|vm_compute; congruence|discriminate|exact I]. Qed.

Lemma cbf_buffer_invariant_witness : Inv (update (example_id 1) 10 example_one).1 /\ Inv (flush tt 1 example_one).1.1.
Proof. destruct (cbf_buffer_invariant tt 1 example_one example_one_Inv) as (_ & Hu & _ & _ & Hf). split; [apply Hu|exact Hf]. Defined.

Lemma cbf_buffer_armed_witness : Armed tt 1 (add tt 1 2 (example_cbf 2 56) 50 example_one) /\ Armed tt 1 (update (example_id 1) 150 example_one).
Proof.
  destruct (cbf_buffer_armed tt 1 example_one example_one_Inv example_one_Armed) as (Ha & Hu & _). split.
  - apply Ha; vm_compute; congruence.
  - apply Hu. intros t Ht. vm_compute in Ht. apply list_elem_of_singleton in Ht as ->. vm_compute. congruence.
Defined.

(** Two packets are due at 100: the first in the buffer, the second three
    later. *)
Lemma cbf_flush_witness :
  let s := (add tt 1 2 (example_cbf 2 56) 103 example_one).1 in
  let '((b', rt'), out) := flush tt 1 (s, mk_ManualRuntime 100 []) in map identifier out = [example_id 1] /\ length (m_packets b') = 1%nat.
Proof.
  cbv zeta. pose proof (cbf_flush tt 1 ((add tt 1 2 (example_cbf 2 56) 103 example_one).1, mk_ManualRuntime 100 [])) as Hf.
  destruct (flush tt 1 ((add tt 1 2 (example_cbf 2 56) 103 example_one).1, mk_ManualRuntime 100 [])) as [[b' rt'] out] eqn:E.
  destruct Hf as (Eo & _).
  - apply add_Inv; [apply example_one_Inv|vm_compute; congruence|]. vm_compute. intros Hx%list_elem_of_singleton. discriminate.
  - split; [rewrite Eo; vm_compute; reflexivity|]. vm_compute in E. now injection E as <- _ _.
Defined.

Definition example_fading : CbfCounterFading := mk_Fading (set_lifetime 5 SoftStateMap_empty).

Lemma example_fading_Linked : Linked (fading_counters example_fading).
Proof. split; cbn; intros *; now rewrite lookup_empty. Qed.

Lemma cbf_counters_witness :
  let c := cnt_increment 12 (example_id 1) (cnt_add 10 (example_id 1) example_fading) in
  cnt_counter 15 (example_id 1) c = 2 /\ cnt_counter 16 (example_id 1) c = 0 /\ cnt_counter 16 (example_id 1) (cnt_increment 16 (example_id 1) c) = 3.
Proof.
  cbv zeta. split; [vm_compute; reflexivity|]. split; [vm_compute; reflexivity|].
  destruct (cbf_counters 16 (example_id 1)) as (_ & _ & H).
  destruct (H (cnt_increment 12 (example_id 1) (cnt_add 10 (example_id 1) example_fading))) as (_ & E & _).
  - apply fading_increment; [apply fading_add; [apply example_fading_Linked|]|]; vm_compute; congruence.
  - vm_compute. congruence.
  - rewrite E. vm_compute. reflexivity.
Defined.

(** Two ways to be woken late: update() with a shorter timeout leaves the
    runtime's event where it was, and so does add() when the head drop frees
    the first timer's node and the new timer gets its address. *)
Theorem cbf_late_wakeup :
  let s := example_one in
  Inv s.1 /\ Armed tt 1 s /\ ~ Armed tt 1 (update (example_id 1) 10 s) /\ ~ Armed tt 1 (add tt 1 1 (example_cbf 2 146) 10 s).
Proof.
  cbv zeta. split; [apply example_one_Inv|]. split; [apply example_one_Armed|]. split.
  - unfold Armed. vm_compute. intros (x & Hx & _ & _ & Hd). apply list_elem_of_singleton in Hx as ->. now apply Hd.
  - unfold Armed. vm_compute. intros (x & Hx & _ & _ & Hd). apply list_elem_of_singleton in Hx as ->. now apply Hd.
Qed.
