(* ===== verification/DccLoad.v ===== *)
(** Channel load and the state machines of transmit rate control:
    common/unit_interval.cpp, dcc/channel_load.cpp, dcc/limeric.cpp (the
    arithmetic), dcc/fully_meshed_state_machine.cpp and
    dcc/gradual_state_machine.cpp.  Durations are in microseconds. *)

From Stdlib Require Import Floats.SpecFloat.
From S2P Require Import Prelude Double.
From stdpp Require Import list sorting.

Open Scope Z_scope.

Abbreviation zero := (d_of_Z 0).
Abbreviation one := (d_of_Z 1).
Definition ms (n : Z) : Z := n * 1000.

(** * UnitInterval *)

Module UnitInterval.

Definition clamp (v : double) : double := if d_ltb one v then one else if d_ltb v zero then zero else v.

(** The value of UnitInterval(v). *)
Definition make : double -> double := clamp.

Definition add (x y : double) : double := clamp (d_add x y).
Definition sub (x y : double) : double := clamp (d_sub x y).
Definition mul (x y : double) : double := d_mul x y.
Definition div (x y : double) : double := let v := d_div x y in if d_ltb one v then one else v.

(** With a double as second operand. *)
Definition mul_double (x v : double) : double := clamp (d_mul x v).
Definition div_double (x v : double) : double := clamp (d_div x v).

Definition lt (x y : double) : bool := d_ltb x y.
Definition ge (x y : double) : bool := negb (lt x y).

(** numeric_limits<double>::epsilon() *)
Definition epsilon : double := d_div one (d_of_Z (2 ^ 52)).
Definition eq (x y : double) : bool := d_ltb (d_abs (d_sub x y)) epsilon.

Definition complement (x : double) : double := d_sub one x.

Definition mean2 (lhs rhs : double) : double := make (d_mul (d_literal 1 2) (d_add lhs rhs)).
Definition mean (l : list double) : double :=
  let accu := fold_left (fun accu x => d_add accu x) l zero in
  make (if 1 <? Z.of_nat (length l) then d_div accu (d_of_Z (Z.of_nat (length l))) else accu).

(** Neither below 0.0 nor above 1.0; NaN is neither. *)
Definition in_unit (v : double) : bool := negb (d_ltb v zero) && negb (d_ltb one v).

Lemma clamp_in v : in_unit (clamp v) = true.
Proof.
  unfold clamp, in_unit. destruct (d_ltb one v) eqn:E1; [reflexivity|]. destruct (d_ltb v zero) eqn:E2; [reflexivity|].
  now rewrite E1, E2.
Qed.

Lemma clamp_id v : in_unit v = true -> clamp v = v.
Proof. unfold clamp, in_unit. intros [H1 H2]%andb_prop. rewrite negb_true_iff in *. now rewrite H1, H2. Qed.

Lemma clamp_nan v : d_isnan (clamp v) = d_isnan v.
Proof. unfold clamp. destruct (d_ltb one v) eqn:E1; [|destruct (d_ltb v zero) eqn:E2; [|reflexivity]]; destruct v; try discriminate; reflexivity. Qed.

Lemma clamp_monotone v w : d_isnan v = false -> d_isnan w = false -> d_ltb w v = false -> d_ltb (clamp w) (clamp v) = false.
Proof.
  intros Hv Hw H. unfold clamp.
  destruct (d_ltb one v) eqn:V1.
  - rewrite (d_lt_le_trans one v w) by assumption. reflexivity.
  - destruct (d_ltb one w) eqn:W1; [destruct (d_ltb v zero) eqn:V0; [reflexivity|exact V1]|].
    destruct (d_ltb v zero) eqn:V0, (d_ltb w zero) eqn:W0; try reflexivity; auto.
    rewrite (d_le_lt_trans v w zero) in V0 by assumption. discriminate.
Qed.

End UnitInterval.
Import UnitInterval.

(** * ChannelLoad *)

(** The two unsigned arguments. *)
Definition create_from_probes (probes_busy probes_total : Z) : double :=
  let fraction := if probes_total =? 0 then zero else d_div (d_of_Z probes_busy) (d_of_Z probes_total) in
  UnitInterval.make fraction.

(** * FullyMeshedStateMachine *)

Definition NDL_minDccSampling : Z := ms 100.
Definition N_samples_up : nat := Z.to_nat (1000000 / NDL_minDccSampling).
Definition N_samples_down : nat := Z.to_nat (5000000 / NDL_minDccSampling).
Definition NDL_minChannelLoad : double := d_literal 19 100.
Definition NDL_maxChannelLoad : double := d_literal 59 100.

Module FullyMeshed.

(** The states m_state points to; Active has its substate in a member of the
    machine, which stays when another state is left and entered. *)
Inductive State := Relaxed | Active | Restrictive.

Record Machine := mk_Machine { m_state : State; m_substate : nat; m_channel_loads : list double }.

Definition create : Machine := mk_Machine Relaxed 0 [].

Definition sc_substates : nat := 5.
Definition channel_loads : list double := map (fun n => d_literal n 100) [27; 35; 43; 51; 59].
Definition tx_intervals : list Z := map ms [100; 180; 260; 340; 420].

(** std::upper_bound as a distance: the first element that is greater. *)
Fixpoint upper_bound (l : list double) (v : double) : nat :=
  match l with [] => 0 | x :: l' => if d_ltb v x then 0 else S (upper_bound l' v) end.

(** Active::update. *)
Definition substate (min_cl max_cl : double) : nat :=
  let state_up := upper_bound channel_loads min_cl in
  let state_down := upper_bound channel_loads max_cl in
  Nat.min (sc_substates - 1) (Nat.max state_up state_down).

Definition infinity : double := S754_infinity false.
Definition isinf (x : double) : bool := match x with S754_infinity _ => true | _ => false end.

(** The loops over the samples, the newest first. *)
Definition least (l : list double) : double := fold_left (fun min_cl s => if d_ltb s min_cl then s else min_cl) l infinity.
Definition greatest (l : list double) : double := fold_left (fun max_cl s => if d_ltb max_cl s then s else max_cl) l zero.

Definition min_channel_load (m : Machine) : double :=
  let min_cl := least (take N_samples_up (m_channel_loads m)) in if isinf min_cl then zero else min_cl.
Definition max_channel_load (m : Machine) : double := greatest (take N_samples_down (m_channel_loads m)).

(** push_front of a circular buffer, which gives up the oldest sample. *)
Definition push_front (cl : double) (l : list double) : list double := take (Nat.max N_samples_up N_samples_down) (cl :: l).

Definition update (cl : double) (m : Machine) : Machine :=
  let m := mk_Machine (m_state m) (m_substate m) (push_front cl (m_channel_loads m)) in
  let lo := min_channel_load m in
  let hi := max_channel_load m in
  let to s n := mk_Machine s n (m_channel_loads m) in
  match m_state m with
  | Relaxed => if d_leb NDL_minChannelLoad lo then to Active (substate lo hi) else m
  | Restrictive => if d_ltb hi NDL_maxChannelLoad then to Active (substate lo hi) else m
  | Active =>
      if d_ltb hi NDL_minChannelLoad then to Relaxed (m_substate m)
      else if d_leb NDL_maxChannelLoad lo then to Restrictive (m_substate m)
      else to Active (substate lo hi)
  end.

Definition transmission_interval (m : Machine) : Z :=
  match m_state m with
  | Relaxed => ms 60
  | Active => nth (Nat.min (length tx_intervals - 1) (m_substate m)) tx_intervals 0
  | Restrictive => ms 460
  end.

End FullyMeshed.

(** * GradualStateMachine *)

Module Gradual.

Record State := mk_State { lower_limit : double; off_time : Z }.

(** The states in the order of the set, and the position of m_current. *)
Record Machine := mk_Machine { m_states : list State; m_current : nat }.

(** Insertion into the set: none when an equivalent state is there. *)
Fixpoint insert_state (s : State) (l : list State) : list State :=
  match l with
  | [] => [s]
  | x :: l' => if lt (lower_limit s) (lower_limit x) then s :: l
               else if lt (lower_limit x) (lower_limit s) then x :: insert_state s l' else l
  end.
Definition states_of (l : list State) : list State := fold_left (fun acc s => insert_state s acc) l [].

(** The constructor with repair(). *)
Definition create (states : list State) : Machine :=
  mk_Machine (match states with [] => [mk_State (UnitInterval.make zero) 0] | _ => states end) 0.

Definition state_at (m : Machine) (i : nat) : State := nth i (m_states m) (mk_State zero 0).

Definition update (cbr : double) (m : Machine) : Machine :=
  if lt cbr (lower_limit (state_at m (m_current m))) then
    if (m_current m =? 0)%nat then m else mk_Machine (m_states m) (m_current m - 1)
  else
    let up := S (m_current m) in
    if (negb (up =? length (m_states m))%nat && ge cbr (lower_limit (state_at m up)))%bool then mk_Machine (m_states m) up else m.

Definition transmission_interval (m : Machine) : Z := off_time (state_at m (m_current m)).

Definition etsiStates1ms : list State :=
  states_of (map (fun '(l, t) => mk_State (UnitInterval.make (d_literal l 100)) (ms t)) [(0, 100); (30, 200); (40, 400); (50, 500); (60, 1000)]).
Definition etsiStates500us : list State :=
  states_of (map (fun '(l, t) => mk_State (UnitInterval.make (d_literal l 100)) (ms t)) [(0, 50); (30, 100); (40, 200); (50, 250); (65, 1000)]).

End Gradual.

(** * The windows of the fully meshed state machine *)

Import FullyMeshed.

(** What a ChannelLoad made of a number holds. *)
Definition sample (v : double) : Prop := d_isnan v = false /\ in_unit v = true.

Lemma make_sample v : d_isnan v = false -> sample (UnitInterval.make v).
Proof. intros H. split; [now unfold UnitInterval.make; rewrite clamp_nan|apply clamp_in]. Qed.

Lemma sample_number v : sample v -> d_isnan v = false.
Proof. now intros []. Qed.

Lemma sample_bounds v : sample v -> d_ltb v zero = false /\ d_ltb one v = false.
Proof. intros [_ H]. unfold in_unit in H. rewrite andb_true_iff, !negb_true_iff in H. exact H. Qed.

Definition numbers (l : list double) : Prop := Forall (fun v => d_isnan v = false) l.

Lemma samples_numbers l : Forall sample l -> numbers l.
Proof. intros H. eapply Forall_impl; [exact H|exact sample_number]. Qed.

Lemma fold_least l acc c : numbers (acc :: l) ->
  let r := fold_left (fun min_cl s => if d_ltb s min_cl then s else min_cl) l acc in
  d_isnan r = false /\ d_ltb r c = d_ltb acc c || existsb (fun s => d_ltb s c) l.
Proof.
  revert acc. induction l as [|s l IH]; intros acc H; cbn [fold_left existsb]; [inversion H; subst; split; [easy|now rewrite orb_false_r]|].
  inversion H as [|? ? Ha Hl]; subst. inversion Hl as [|? ? Hs Hl']; subst. destruct (d_ltb s acc) eqn:E.
  - destruct (IH s) as [Hn ->]; [now constructor|]. split; [exact Hn|]. destruct (d_ltb acc c) eqn:Ea; [|reflexivity].
    now rewrite (d_ltb_trans s acc c).
  - destruct (IH acc) as [Hn ->]; [now constructor|]. split; [exact Hn|]. destruct (d_ltb s c) eqn:Es; [|reflexivity].
    now rewrite (d_le_lt_trans acc s c).
Qed.

Lemma fold_greatest l acc c : numbers (acc :: l) ->
  let r := fold_left (fun max_cl s => if d_ltb max_cl s then s else max_cl) l acc in
  d_isnan r = false /\ d_ltb r c = d_ltb acc c && forallb (fun s => d_ltb s c) l.
Proof.
  revert acc. induction l as [|s l IH]; intros acc H; cbn [fold_left forallb]; [inversion H; subst; split; [easy|now rewrite andb_true_r]|].
  inversion H as [|? ? Ha Hl]; subst. inversion Hl as [|? ? Hs Hl']; subst. destruct (d_ltb acc s) eqn:E.
  - destruct (IH s) as [Hn ->]; [now constructor|]. split; [exact Hn|]. destruct (d_ltb s c) eqn:Es; [|now rewrite andb_false_r].
    now rewrite (d_ltb_trans acc s c).
  - destruct (IH acc) as [Hn ->]; [now constructor|]. split; [exact Hn|]. destruct (d_ltb acc c) eqn:Ea; [|reflexivity].
    now rewrite (d_le_lt_trans s acc c).
Qed.

Lemma least_spec l c : numbers l -> d_isnan (least l) = false /\ d_ltb (least l) c = d_ltb infinity c || existsb (fun s => d_ltb s c) l.
Proof. intros H. apply fold_least. now constructor. Qed.

Lemma greatest_spec l c : numbers l -> d_isnan (greatest l) = false /\ d_ltb (greatest l) c = d_ltb zero c && forallb (fun s => d_ltb s c) l.
Proof. intros H. apply fold_greatest. now constructor. Qed.

Lemma infinity_greatest c : d_ltb infinity c = false.
Proof. destruct c as [| [] | |[]]; reflexivity. Qed.

Lemma sample_finite v : sample v -> d_ltb v infinity = true.
Proof. intros [H1 H2]. apply (d_le_lt_trans v one); [exact H1| |reflexivity]. now apply sample_bounds. Qed.

(** The least of some samples is a number of the interval. *)
Lemma least_finite s l : Forall sample (s :: l) -> isinf (least (s :: l)) = false.
Proof.
  intros H. pose proof (samples_numbers _ H) as Hn. destruct (least_spec _ infinity Hn) as [_ E1], (least_spec _ zero Hn) as [_ E2].
  rewrite infinity_greatest in E1, E2. inversion H as [|? ? Hs Hl]; subst. cbn [orb existsb] in E1, E2.
  rewrite (sample_finite s) in E1 by exact Hs. destruct (least (s :: l)) as [| [] | |]; try reflexivity; cbn in E1; try discriminate.
  assert (existsb (fun x => d_ltb x zero) (s :: l) = false) as E3; [|cbn [existsb] in E3; rewrite E3 in E2; discriminate].
  apply not_true_iff_false. intros (x & Hx & Ex)%existsb_exists. rewrite Forall_forall in H. apply list_elem_of_In, H, sample_bounds in Hx as [Hx _]. congruence.
Qed.

Lemma forallb_negb {A} (f g : A -> bool) l : Forall (fun x => f x = negb (g x)) l -> forallb f l = negb (existsb g l).
Proof. induction 1 as [|x l Hx Hl IH]; [reflexivity|]. cbn. now rewrite IH, Hx, negb_orb. Qed.

Lemma min_at_least m c : m_channel_loads m <> [] -> Forall sample (m_channel_loads m) -> d_isnan c = false ->
  d_isnan (min_channel_load m) = false /\
  d_leb c (min_channel_load m) = forallb (fun s => d_leb c s) (take N_samples_up (m_channel_loads m)).
Proof.
  intros Hne H Hc. unfold min_channel_load. destruct (m_channel_loads m) as [|s l]; [contradiction|].
  assert (Hw : Forall sample (take N_samples_up (s :: l))) by now apply Forall_take.
  change (take N_samples_up (s :: l)) with (s :: take 9 l) in *. rewrite least_finite by exact Hw.
  pose proof (samples_numbers _ Hw) as Hn. destruct (least_spec _ c Hn) as [Hl E]. split; [exact Hl|].
  rewrite d_leb_negb by assumption. rewrite E, infinity_greatest. symmetry. apply forallb_negb. eapply Forall_impl; [exact Hn|]. cbn. intros x Hx. now apply d_leb_negb.
Qed.

Lemma max_below m c : Forall sample (m_channel_loads m) -> d_ltb zero c = true ->
  d_isnan (max_channel_load m) = false /\
  d_ltb (max_channel_load m) c = forallb (fun s => d_ltb s c) (take N_samples_down (m_channel_loads m)).
Proof.
  intros H Hc. unfold max_channel_load. destruct (greatest_spec (take N_samples_down (m_channel_loads m)) c) as [H1 H2].
  - now apply samples_numbers, Forall_take.
  - now rewrite H2, Hc.
Qed.

(** The least load of the last second does not exceed the greatest of the
    last five: the precondition Active::update asserts. *)
Lemma min_max_channel_load m : m_channel_loads m <> [] -> Forall sample (m_channel_loads m) -> d_ltb (max_channel_load m) (min_channel_load m) = false.
Proof.
  intros Hne H. destruct (m_channel_loads m) as [|s l] eqn:E; [contradiction|]. inversion H as [|? ? Hs Hl]; subst.
  apply d_nlt_trans with s; [now apply sample_number| |].
  - unfold min_channel_load. rewrite E. change (take N_samples_up (s :: l)) with (s :: take 9 l).
    assert (Hw : Forall sample (s :: take 9 l)) by now constructor; [|apply Forall_take]. rewrite least_finite by exact Hw.
    pose proof (samples_numbers _ Hw) as Hn. destruct (least_spec _ (least (s :: take 9 l)) Hn) as [_ E1].
    rewrite d_ltb_irrefl, infinity_greatest in E1. cbn [existsb orb] in E1. now destruct (d_ltb s (least (s :: take 9 l))).
  - unfold max_channel_load. rewrite E. change (take N_samples_down (s :: l)) with (s :: take 49 l).
    assert (Hw : Forall sample (s :: take 49 l)) by now constructor; [|apply Forall_take]. pose proof (samples_numbers _ Hw) as Hn.
    destruct (greatest_spec _ s Hn) as [_ ->]. cbn [forallb]. now rewrite d_ltb_irrefl, andb_false_r.
Qed.

(** How many of the limits, from the first on, some sample reached. *)
Fixpoint reached (limits : list double) (w : list double) : nat :=
  match limits with
  | [] => 0
  | x :: limits' => if existsb (fun s => d_leb x s) w then S (reached limits' w) else 0
  end.

Lemma upper_bound_monotone l v w : d_isnan v = false -> d_isnan w = false -> d_ltb w v = false -> (upper_bound l v <= upper_bound l w)%nat.
Proof.
  intros Hv Hw H. induction l as [|x l IH]; [reflexivity|]. cbn [upper_bound]. destruct (d_ltb v x) eqn:E1, (d_ltb w x) eqn:E2; try lia.
  rewrite (d_le_lt_trans v w x) in E1 by assumption. discriminate.
Qed.

Lemma upper_bound_greatest l w : numbers w -> Forall (fun x => d_ltb zero x = true) l -> upper_bound l (greatest w) = reached l w.
Proof.
  intros Hn. induction 1 as [|x l Hx Hl IH]; [reflexivity|]. cbn [upper_bound reached]. destruct (greatest_spec w x Hn) as [_ ->].
  rewrite Hx. cbn [andb]. rewrite (forallb_negb _ (fun s => d_leb x s)).
  - destruct (existsb _ w); cbn [negb]; [now rewrite IH|reflexivity].
  - eapply Forall_impl; [exact Hn|]. cbn. intros s Hs. rewrite d_leb_negb, negb_involutive; auto. now apply d_ltb_number in Hx.
Qed.

Lemma substate_reached m : m_channel_loads m <> [] -> Forall sample (m_channel_loads m) ->
  substate (min_channel_load m) (max_channel_load m) = Nat.min 4 (reached channel_loads (take N_samples_down (m_channel_loads m))).
Proof.
  intros Hne H. unfold substate. rewrite Nat.max_r.
  - unfold max_channel_load. rewrite upper_bound_greatest; [reflexivity|now apply samples_numbers, Forall_take|].
    repeat constructor.
  - apply upper_bound_monotone; [apply (min_at_least m zero)|apply (max_below m one)|apply min_max_channel_load]; auto.
Qed.

(** The machine after the samples of [h], the oldest first. *)
Definition fully_meshed (h : list double) : Machine := fold_left (fun m cl => update cl m) h create.

(** The transitions in terms of the samples of the last second and of the
    last five seconds. *)
Definition next_state (s : State) (up down : list double) : State :=
  match s with
  | Relaxed => if forallb (fun v => d_leb NDL_minChannelLoad v) up then Active else Relaxed
  | Restrictive => if forallb (fun v => d_ltb v NDL_maxChannelLoad) down then Active else Restrictive
  | Active =>
      if forallb (fun v => d_ltb v NDL_minChannelLoad) down then Relaxed
      else if forallb (fun v => d_leb NDL_maxChannelLoad v) up then Restrictive else Active
  end.

Lemma update_loads cl m : m_channel_loads (update cl m) = push_front cl (m_channel_loads m).
Proof. unfold update. cbn [m_state]. destruct (m_state m); repeat if_split; reflexivity. Qed.

Lemma fully_meshed_loads h : m_channel_loads (fully_meshed h) = take N_samples_down (rev h).
Proof.
  unfold fully_meshed. induction h as [|cl h IH] using rev_ind; [reflexivity|]. rewrite fold_left_app, rev_app_distr. cbn [fold_left rev app].
  rewrite update_loads, IH. unfold push_front. change (Nat.max N_samples_up N_samples_down) with 50%nat. cbn [N_samples_down take].
  change (Pos.to_nat 50) with 50%nat. cbn [take]. f_equal. rewrite take_take. reflexivity.
Qed.

Lemma update_next cl m : Forall sample (cl :: m_channel_loads m) ->
  let w := cl :: m_channel_loads m in
  m_state (update cl m) = next_state (m_state m) (take N_samples_up w) (take N_samples_down w) /\
  (m_state (update cl m) = Active -> m_substate (update cl m) = Nat.min 4 (reached channel_loads (take N_samples_down w))).
Proof.
  intros H. cbn zeta. set (m1 := mk_Machine (m_state m) (m_substate m) (push_front cl (m_channel_loads m))).
  assert (Hne : m_channel_loads m1 <> []) by discriminate.
  assert (H1 : Forall sample (m_channel_loads m1)) by now apply Forall_take.
  assert (Eu : take N_samples_up (m_channel_loads m1) = take N_samples_up (cl :: m_channel_loads m)) by apply take_take.
  assert (Ed : take N_samples_down (m_channel_loads m1) = take N_samples_down (cl :: m_channel_loads m)) by apply take_take.
  destruct (min_at_least m1 NDL_minChannelLoad Hne H1 eq_refl) as [_ El], (min_at_least m1 NDL_maxChannelLoad Hne H1 eq_refl) as [_ Eh],
    (max_below m1 NDL_minChannelLoad H1 eq_refl) as [_ Fl], (max_below m1 NDL_maxChannelLoad H1 eq_refl) as [_ Fh].
  pose proof (substate_reached m1 Hne H1) as Es. rewrite Eu in El, Eh. rewrite Ed in Fl, Fh, Es.
  assert (Em : m_state m1 = m_state m) by reflexivity. unfold update, next_state. fold m1. cbn zeta. clearbody m1.
  rewrite Em, El, Eh, Fl, Fh, Es. destruct (m_state m); repeat if_split; cbn [m_state m_substate]; rewrite ?Em; split; auto; discriminate.
Qed.

Lemma transmission_interval_bounds m : ms 60 <= transmission_interval m <= ms 460.
Proof.
  unfold transmission_interval. destruct (m_state m); [unfold ms; lia| |unfold ms; lia].
  change (length tx_intervals - 1)%nat with 4%nat. assert (H : (Nat.min 4 (m_substate m) <= 4)%nat) by lia.
  destruct (Nat.min 4 (m_substate m)) as [|[|[|[|[|n]]]]]; try (cbn; unfold ms; lia).
Qed.

Lemma take_front {A} n k (x : A) l : (n <= S k)%nat -> take n (x :: take k l) = take n (x :: l).
Proof. intros H. change (x :: take k l) with (take (S k) (x :: l)). rewrite take_take. f_equal. lia. Qed.

(** The fully meshed state machine leaves Relaxed when every sample of the
    last second reaches the lower limit, Active for Restrictive when every
    one reaches the upper limit, and goes back when every sample of the last
    five seconds is below the limit.  In Active the interval follows the
    limits that some sample of the last five seconds reached, the sample just
    taken included; the interval is always from 60 to 460 ms. *)
Theorem fully_meshed_transitions h cl : Forall sample (h ++ [cl]) ->
  let m := fully_meshed h in let m' := update cl m in
  let up := take N_samples_up (rev (h ++ [cl])) in let down := take N_samples_down (rev (h ++ [cl])) in
  m_state m' = next_state (m_state m) up down /\
  (m_state m' = Active -> transmission_interval m' = nth (Nat.min 4 (reached channel_loads down)) tx_intervals 0) /\
  ms 60 <= transmission_interval m' <= ms 460.
Proof.
  intros H. cbn zeta. apply Forall_app in H as [Hh Hcl]. inversion Hcl as [|? ? Hc _]; subst.
  assert (Hw : Forall sample (cl :: m_channel_loads (fully_meshed h))).
  { constructor; [exact Hc|]. rewrite fully_meshed_loads. apply Forall_take. now apply List.Forall_rev. }
  destruct (update_next cl (fully_meshed h) Hw) as [E1 E2]. rewrite fully_meshed_loads in E1, E2.
  rewrite (take_front N_samples_up), (take_front N_samples_down) in E1 by (vm_compute; lia).
  rewrite (take_front N_samples_down) in E2 by (vm_compute; lia). rewrite rev_app_distr. cbn [rev app].
  split; [exact E1|]. split; [|apply transmission_interval_bounds]. intros Ha. unfold transmission_interval. rewrite Ha, (E2 Ha). f_equal.
  change (length tx_intervals - 1)%nat with 4%nat. lia.
Qed.

(** A quiet channel and one loaded sample: the state changes after a second
    of load only, but within Active one sample sets the longest interval. *)
Definition load (n : Z) : double := UnitInterval.make (d_literal n 100).

Lemma fully_meshed_transitions_witness :
  let h := repeat (load 20) 10 in
  m_state (fully_meshed h) = Active /\ transmission_interval (fully_meshed h) = ms 100 /\
  m_state (update (load 90) (fully_meshed h)) = Active /\
  transmission_interval (update (load 90) (fully_meshed h)) = ms 420.
Proof.
  cbn zeta. destruct (fully_meshed_transitions (repeat (load 20) 10) (load 90)) as (E & H & _).
  - repeat (constructor; [split; vm_compute; reflexivity|]). constructor.
  - split; [vm_compute; reflexivity|]. split; [vm_compute; reflexivity|].
    assert (Ea : m_state (update (load 90) (fully_meshed (repeat (load 20) 10))) = Active) by (rewrite E; vm_compute; reflexivity).
    split; [exact Ea|]. rewrite (H Ea). vm_compute. reflexivity.
Defined.

(** * The gradual state machine *)

Import Gradual.

(** The limits of a set are numbers in strictly increasing order. *)
Definition increasing (l : list State) : Prop := StronglySorted (fun x y => d_ltb (lower_limit x) (lower_limit y) = true) l.

Lemma insert_state_lower s x l : d_ltb (lower_limit x) (lower_limit s) = true ->
  Forall (fun y => d_ltb (lower_limit x) (lower_limit y) = true) l -> Forall (fun y => d_ltb (lower_limit x) (lower_limit y) = true) (insert_state s l).
Proof.
  intros Hs. induction 1 as [|y l Hy Hl IH]; cbn [insert_state]; [repeat constructor; exact Hs|]. repeat if_split; repeat constructor; auto.
Qed.

(** Whatever is put into the set. *)
Lemma states_of_increasing l : increasing (states_of l).
Proof.
  unfold states_of. assert (H : increasing []) by constructor. revert H. generalize (@nil State). induction l as [|s l IH]; intros acc H; [exact H|].
  cbn [fold_left]. apply IH. clear IH. induction H as [|x acc Hacc IH Hx]; cbn [insert_state]; [repeat constructor|].
  unfold lt. destruct (d_ltb (lower_limit s) (lower_limit x)) eqn:E1; [|destruct (d_ltb (lower_limit x) (lower_limit s)) eqn:E2].
  - constructor; [now constructor|]. constructor; [exact E1|]. eapply Forall_impl; [exact Hx|]. cbn. intros y Hy. eapply d_ltb_trans; eassumption.
  - constructor; [exact IH|]. now apply insert_state_lower.
  - now constructor.
Qed.

Lemma increasing_nth d l i j : increasing l -> (i < j < length l)%nat -> d_ltb (lower_limit (nth i l d)) (lower_limit (nth j l d)) = true.
Proof.
  intros H. revert i j. induction H as [|x l Hl IH Hx]; intros i j Hij; cbn in Hij; [lia|]. destruct i, j; try lia; cbn [nth].
  - rewrite Forall_forall in Hx. apply Hx. apply list_elem_of_In, nth_In. lia.
  - apply IH. lia.
Qed.

(** The state a load belongs to: the last whose limit it reaches, or the first. *)
Definition belongs (cbr : double) (l : list State) (i : nat) : Prop :=
  (i < length l)%nat /\ (i = 0%nat \/ d_ltb cbr (lower_limit (nth i l (mk_State zero 0))) = false) /\
  (S i = length l \/ d_ltb cbr (lower_limit (nth (S i) l (mk_State zero 0))) = true).

Definition well_formed (m : Machine) : Prop := increasing (m_states m) /\ (m_current m < length (m_states m))%nat.

(** One step towards [i]. *)
Definition step_to (i k : nat) : nat := if (k <? i)%nat then S k else if (i <? k)%nat then (k - 1)%nat else k.

Lemma update_step cbr m i : well_formed m -> d_isnan cbr = false -> belongs cbr (m_states m) i ->
  update cbr m = mk_Machine (m_states m) (step_to i (m_current m)).
Proof.
  intros [Hs Hk] Hc (Hi & Hlo & Hhi). destruct m as [l k]. cbn [m_states m_current] in *. unfold update, step_to, state_at, ge, lt. cbn [m_states m_current]. cbv zeta.
  set (d := mk_State zero 0) in *. destruct (Nat.ltb_spec k i) as [H|H]; [|destruct (Nat.ltb_spec i k) as [H'|H']].
  - destruct Hlo as [->|Hlo]; [lia|]. assert (Hup : d_ltb cbr (lower_limit (nth (S k) l d)) = false).
    { destruct (decide (S k = i)) as [<-|Hne]; [exact Hlo|]. apply d_lt_nlt, (d_lt_le_trans _ (lower_limit (nth i l d))); auto.
      apply increasing_nth; auto. lia. }
    rewrite (d_lt_nlt (lower_limit (nth k l d)) cbr), Hup.
    + destruct (Nat.eqb_spec (S k) (length l)); [lia|reflexivity].
    + eapply d_lt_le_trans; [exact Hc| |exact Hup]. apply increasing_nth; auto. lia.
  - destruct Hhi as [Hhi|Hhi]; [lia|]. rewrite (d_le_lt_trans cbr cbr (lower_limit (nth k l d))); auto using d_ltb_irrefl.
    + destruct (Nat.eqb_spec k 0); [lia|reflexivity].
    + destruct (decide (S i = k)) as [<-|Hne]; [exact Hhi|]. eapply d_ltb_trans; [exact Hhi|]. apply increasing_nth; auto. lia.
  - assert (k = i) as -> by lia. destruct (d_ltb cbr (lower_limit (nth i l d))) eqn:E.
    + destruct Hlo as [->|]; [reflexivity|congruence].
    + destruct (Nat.eqb_spec (S i) (length l)) as [Hl|Hl]; [reflexivity|]. destruct Hhi as [|Hhi]; [contradiction|]. now rewrite Hhi.
Qed.

Definition target (cbr : double) (l : list State) : nat := Nat.pred (FullyMeshed.upper_bound (map lower_limit l) cbr).

Lemma upper_bound_spec cbr l :
  let n := FullyMeshed.upper_bound (map lower_limit l) cbr in
  (n <= length l)%nat /\ (forall i d, (i < n)%nat -> d_ltb cbr (lower_limit (nth i l d)) = false) /\
  (forall d, (n < length l)%nat -> d_ltb cbr (lower_limit (nth n l d)) = true).
Proof.
  induction l as [|x l (IH1 & IH2 & IH3)]; cbn [map FullyMeshed.upper_bound length]; [split_all; [lia|lia|lia]|].
  destruct (d_ltb cbr (lower_limit x)) eqn:E; [split_all; [lia|lia|]; intros; exact E|]. split_all; [lia| |].
  - intros [|i] d H; [exact E|]. apply IH2. lia.
  - intros d H. apply IH3. lia.
Qed.

Lemma target_belongs cbr l : l <> [] -> increasing l -> belongs cbr l (target cbr l).
Proof.
  intros Hl Hi. unfold belongs, target. destruct (upper_bound_spec cbr l) as (H1 & H2 & H3). set (n := FullyMeshed.upper_bound _ _) in *.
  assert (length l <> 0)%nat by now destruct l. split_all; [lia| |].
  - destruct n; [left; reflexivity|right; apply H2; cbn; lia].
  - destruct (decide (S (Nat.pred n) = length l)) as [|Hn]; [now left|]. right. destruct n as [|n]; cbn [Nat.pred] in *; [|apply H3; lia].
    eapply d_ltb_trans; [apply H3; lia|]. apply increasing_nth; auto. lia.
Qed.

(** Any machine the constructor makes and any loads lead to. *)
Definition gradual (l : list State) (h : list double) : Machine := fold_left (fun m cbr => update cbr m) h (create (states_of l)).

Lemma well_formed_update cbr m : well_formed m -> well_formed (update cbr m) /\ m_states (update cbr m) = m_states m.
Proof.
  intros Hm. pose proof Hm as [Hs Hk]. unfold update. cbv zeta. destruct (lt _ _).
  - destruct (Nat.eqb_spec (m_current m) 0); [split; auto|]. split; [split; [exact Hs|cbn [m_current m_states]; lia]|reflexivity].
  - destruct (Nat.eqb_spec (S (m_current m)) (length (m_states m))); cbn [negb andb]; [split; auto|]. destruct (ge _ _); [|split; auto].
    split; [split; [exact Hs|cbn [m_current m_states]; lia]|reflexivity].
Qed.

Lemma gradual_well_formed l h : well_formed (gradual l h).
Proof.
  unfold gradual. assert (H : well_formed (create (states_of l))).
  { pose proof (states_of_increasing l) as H. unfold create, well_formed. destruct (states_of l); cbn [m_states m_current length]; split; auto; try lia.
    repeat constructor. }
  revert H. generalize (create (states_of l)). induction h as [|c h IH]; intros m H; [exact H|]. apply IH. now apply well_formed_update.
Qed.

Lemma iter_step i k n : Nat.iter n (step_to i) k = if (k <? i)%nat then Nat.min (k + n) i else Nat.max (k - n) i.
Proof.
  induction n as [|n IH]; [change (Nat.iter 0 (step_to i) k) with k; destruct (Nat.ltb_spec k i); lia|]. rewrite Nat.iter_succ, IH. unfold step_to.
  destruct (Nat.ltb_spec k i); repeat match goal with |- context [(?a <? ?b)%nat] => destruct (Nat.ltb_spec a b) end; lia.
Qed.

Lemma iter_update cbr m i n : well_formed m -> d_isnan cbr = false -> belongs cbr (m_states m) i ->
  Nat.iter n (update cbr) m = mk_Machine (m_states m) (Nat.iter n (step_to i) (m_current m)).
Proof.
  intros Hm Hc Hi. induction n as [|n IH]; [now destruct m|]. rewrite !Nat.iter_succ, IH. rewrite (update_step _ _ i); auto.
  destruct Hm as [Hs Hk]. split; [exact Hs|]. cbn [m_states m_current]. rewrite iter_step. destruct Hi as [Hi _]. destruct (Nat.ltb_spec (m_current m) i); lia.
Qed.

(** The gradual state machine, whatever it was told before: a load that
    stays moves it by one state at a time to the state whose limits enclose
    the load, where it rests; it is there after as many updates as there are
    states in between. *)
Theorem gradual_converges l h cbr n : d_isnan cbr = false ->
  let m := gradual l h in
  let i := target cbr (m_states m) in
  belongs cbr (m_states m) i /\
  Nat.iter n (update cbr) m =
    mk_Machine (m_states m) (if (m_current m <? i)%nat then Nat.min (m_current m + n) i else Nat.max (m_current m - n) i).
Proof.
  intros Hc. cbn zeta. pose proof (gradual_well_formed l h) as Hm. assert (Hb : belongs cbr (m_states (gradual l h)) (target cbr (m_states (gradual l h)))).
  { destruct Hm as [Hs Hk]. apply target_belongs; [|exact Hs]. intros E. rewrite E in Hk. cbn in Hk. lia. }
  split; [exact Hb|]. rewrite (iter_update _ _ _ n Hm Hc Hb). now rewrite iter_step.
Qed.

Lemma gradual_converges_witness :
  let m := gradual etsiStates1ms [load 35; load 45] in
  m_current m = 2%nat /\ map (fun n => transmission_interval (Nat.iter n (update (load 90)) m)) [0; 1; 2; 3]%nat = map ms [400; 500; 1000; 1000].
Proof.
  cbn zeta. split; [vm_compute; reflexivity|]. cbn [map].
  rewrite !(fun n => proj2 (gradual_converges etsiStates1ms [load 35; load 45] (load 90) n eq_refl)). vm_compute. reflexivity.
Defined.
