(* ===== verification/DccBudget.v ===== *)
(** Transmit rate control of dcc/: the budgets of burst_budget.cpp,
    state_machine_budget.cpp and limeric_budget.cpp, the algorithm of
    limeric.cpp, and the rate controls built on them, as instances of one
    interface.

    The runtime is asked for the time only, which is an argument here.  An
    object another one refers to is a field of it. *)

From Stdlib Require Import Floats.SpecFloat.
From S2P Require Import Prelude Double GnWire DccLoad.
From stdpp Require Import list sorting.
Import TrafficClass UnitInterval.

Open Scope Z_scope.

Abbreviation time := Z.
Definition seconds (n : Z) : Z := n * 1000000.
Definition duration_max : Z := 2 ^ 63 - 1.
Definition time_point_min : time := - 2 ^ 63.

(** * Transmissions *)

Record DataRateG5 := mk_DataRateG5 { m_bytes_per_second : Z; m_coded_bits_per_symbol : Z }.
Definition make_DataRateG5 (kbps cbits : Z) : DataRateG5 := mk_DataRateG5 (u32 (kbps * 1000) / 8) cbits.
Definition G5_6Mbps : DataRateG5 := make_DataRateG5 6000 96.

Definition data_length (psdu : Z) (r : DataRateG5) : Z :=
  let body := u32 (16 + 6 + psdu * 8) in
  let padding := body mod m_coded_bits_per_symbol r in
  let padding := if 0 <? padding then m_coded_bits_per_symbol r - padding else padding in
  u32 (body + padding) / 8.

Record Transmission := mk_Transmission { profile : Profile; data_rate : option DataRateG5; body_length : Z }.

(** std::chrono::duration_cast of a floating-point duration in seconds. *)
Definition cast_seconds (s : double) : Z := d_trunc (d_mul s (d_of_Z 1000000)).

Definition channel_occupancy (tx : Transmission) : Z :=
  let rate := default G5_6Mbps (data_rate tx) in
  let bytes := data_length (body_length tx + 2 + 34) rate in
  let seconds_per_byte := d_div one (d_of_Z (m_bytes_per_second rate)) in
  32 + 8 + cast_seconds (d_mul (d_of_Z bytes) seconds_per_byte).

(** * Interfaces *)

(** transmit_rate_control.hpp. *)
Class TransmitRateControl (T : Type) := {
  delay : time -> Transmission -> T -> Z * T;
  interval : Transmission -> T -> Z;
  notify : time -> Transmission -> T -> T
}.

(** state_machine.hpp, the part rate control uses. *)
Class StateMachine (M : Type) := { transmission_interval : M -> Z }.
#[export] Instance FullyMeshed_machine : StateMachine FullyMeshed.Machine := { transmission_interval := FullyMeshed.transmission_interval }.
#[export] Instance Gradual_machine : StateMachine Gradual.Machine := { transmission_interval := Gradual.transmission_interval }.

(** * BurstBudget *)

(** boost::circular_buffer: push_back gives up the first element of a full
    buffer; resize fills up with default values and raises the capacity where
    that is needed, or drops elements at the end. *)
Record circular_buffer (A : Type) := mk_circular_buffer { content : list A; capacity : nat }.
Arguments mk_circular_buffer {A}.
Arguments content {A}.
Arguments capacity {A}.

Definition full {A} (b : circular_buffer A) : bool := (length (content b) =? capacity b)%nat.
Definition push_back {A} (x : A) (b : circular_buffer A) : circular_buffer A :=
  if full b then
    match content b with [] => b | _ :: l => mk_circular_buffer (l ++ [x]) (capacity b) end
  else mk_circular_buffer (content b ++ [x]) (capacity b).
Definition resize {A} (n : nat) (x : A) (b : circular_buffer A) : circular_buffer A :=
  if (length (content b) <? n)%nat then
    mk_circular_buffer (content b ++ replicate (n - length (content b)) x) (Nat.max n (capacity b))
  else mk_circular_buffer (take n (content b)) (capacity b).

Module BurstBudget.

Definition T_Burst : Z := seconds 1.
Definition T_BurstPeriod : Z := seconds 10.
Definition N_Burst : nat := 20.

Record t := mk { m_messages : circular_buffer time; m_burst_duration : Z; m_burst_period : Z }.

Definition create : t := mk (mk_circular_buffer [] N_Burst) T_Burst T_BurstPeriod.

Definition delay (now : time) (b : t) : Z * t :=
  match content (m_messages b) with
  | [] => (0, b)
  | front :: _ =>
      if (now <? front + m_burst_duration b) && negb (full (m_messages b)) then (0, b)
      else if front + m_burst_period b <? now then
        (0, mk (mk_circular_buffer [] (capacity (m_messages b))) (m_burst_duration b) (m_burst_period b))
      else (front + m_burst_period b - now, b)
  end.

Definition notify (now : time) (b : t) : t := mk (push_back now (m_messages b)) (m_burst_duration b) (m_burst_period b).

(** A default time point is the epoch. *)
Definition burst_messages (n : nat) (b : t) : t := mk (resize n 0 (m_messages b)) (m_burst_duration b) (m_burst_period b).
Definition burst_duration (d : Z) (b : t) : t := mk (m_messages b) d (m_burst_period b).
Definition burst_period (p : Z) (b : t) : t := mk (m_messages b) (m_burst_duration b) p.

End BurstBudget.

(** * StateMachineBudget *)

Module StateMachineBudget.
Section Budget.
Context {M : Type} `{StateMachine M}.

Record t := mk { m_fsm : M; m_last_tx : option time }.

Definition delay (now : time) (b : t) : Z :=
  match m_last_tx b with
  | Some last_tx =>
      let tx_interval := transmission_interval (m_fsm b) in
      if last_tx + tx_interval <? now then 0 else last_tx + tx_interval - now
  | None => 0
  end.

Definition notify (now : time) (b : t) : t := mk (m_fsm b) (Some now).

End Budget.
Arguments t : clear implicits.
End StateMachineBudget.

(** * Limeric *)

Module Limeric.

Record Parameters := mk_Parameters {
  alpha : double; beta : double; delta_max : double; delta_min : double;
  g_plus_max : double; g_minus_max : double; cbr_target : double; cbr_interval : Z
}.
Definition default_params : Parameters := {|
  alpha := make (d_literal 16 1000); beta := make (d_literal 12 10000);
  delta_max := make (d_literal 3 100); delta_min := make (d_literal 6 10000);
  g_plus_max := d_literal 5 10000; g_minus_max := d_literal (-25) 100000;
  cbr_target := make (d_literal 68 100); cbr_interval := ms 100
|}.
Record DualAlphaParameters := mk_DualAlpha { alternate_alpha : double; threshold : double }.

Record t := mk {
  m_params : Parameters; m_dual_alpha : option DualAlphaParameters;
  m_channel_load : double; m_duty_cycle : double; m_cbr : circular_buffer double
}.

(** The constructor, apart from schedule(). *)
Definition create (params : Parameters) : t :=
  mk params None zero (mean2 (delta_max params) (delta_min params)) (mk_circular_buffer [] 2).

Definition configure_dual_alpha (params : option DualAlphaParameters) (l : t) : t :=
  mk (m_params l) params (m_channel_load l) (m_duty_cycle l) (m_cbr l).

Definition average_cbr (l : t) : double :=
  if full (m_cbr l) then
    add (mul_double (mean (content (m_cbr l))) (d_literal 1 2)) (mul_double (m_channel_load l) (d_literal 1 2))
  else m_channel_load l.

Definition update_cbr (cbr : double) (l : t) : t :=
  let cbrs := push_back cbr (m_cbr l) in
  mk (m_params l) (m_dual_alpha l) (if full (m_cbr l) then m_channel_load l else mean (content cbrs)) (m_duty_cycle l) cbrs.

(** std::min and std::max of two intervals, with operator<. *)
Definition min_of (x y : double) : double := if lt y x then y else x.
Definition max_of (x y : double) : double := if lt x y then y else x.

Definition delta_of (p : Parameters) (a duty_cycle delta_offset : double) : double :=
  min_of (max_of (add (mul (complement a) duty_cycle) delta_offset) (delta_min p)) (delta_max p).

Definition calculate_duty_cycle (l : t) : double :=
  let p := m_params l in
  let cbr_delta := d_sub (cbr_target p) (m_channel_load l) in
  let v := d_mul (beta p) cbr_delta in
  let delta_offset :=
    if d_ltb zero cbr_delta then (if d_ltb (g_plus_max p) v then g_plus_max p else v)
    else (if d_ltb v (g_minus_max p) then g_minus_max p else v) in
  let delta := delta_of p (alpha p) (m_duty_cycle l) delta_offset in
  match m_dual_alpha l with
  | Some dual => if lt (threshold dual) (sub (m_duty_cycle l) delta) then delta_of p (alternate_alpha dual) (m_duty_cycle l) delta_offset else delta
  | None => delta
  end.

(** calculate(), apart from the hook and schedule(). *)
Definition calculate (l : t) : t :=
  let l := mk (m_params l) (m_dual_alpha l) (average_cbr l) (m_duty_cycle l) (m_cbr l) in
  mk (m_params l) (m_dual_alpha l) (m_channel_load l) (calculate_duty_cycle l) (m_cbr l).

(** The time point schedule() asks for; the remainder of C++ truncates. *)
Definition next_calculation (now : time) (l : t) : time :=
  let scheduling_interval := 2 * cbr_interval (m_params l) in
  let tp := now + scheduling_interval in
  let scheduling_bias := Z.rem tp scheduling_interval in
  if cbr_interval (m_params l) <? scheduling_bias then tp + (scheduling_interval - scheduling_bias)
  else if 0 <? scheduling_bias then tp - scheduling_bias else tp.

End Limeric.

(** * LimericBudget *)

Module LimericBudget.

Definition min_interval : Z := ms 25.
Definition max_interval : Z := seconds 1.

Record t := mk { m_duty_cycle_permit : Limeric.t; m_interval : Z; m_tx_start : time; m_tx_on : Z }.

Definition clamp_interval (i : Z) : Z := Z.min (Z.max i min_interval) max_interval.

Definition delay (now : time) (b : t) : Z :=
  if m_tx_start b + m_interval b <=? now then 0 else m_tx_start b + m_interval b - now.

Definition permitted (b : t) : double := Limeric.m_duty_cycle (m_duty_cycle_permit b).

Definition notify (now : time) (tx_on : Z) (b : t) : t :=
  mk (m_duty_cycle_permit b) (clamp_interval (d_trunc (d_div (d_of_Z tx_on) (permitted b)))) now tx_on.

(** update(); the differences of time points wrap around where the source
    overflows. *)
Definition update (now : time) (b : t) : t :=
  let delay := d_of_Z (s64 (m_tx_start b + m_interval b - now)) in
  let duty_cycle := permitted b in
  let interval :=
    if d_ltb zero duty_cycle then
      if d_ltb zero delay then
        let interval := d_mul (d_div (d_of_Z (m_tx_on b)) duty_cycle) (d_div delay (d_of_Z (m_interval b))) in
        clamp_interval (s64 (s64 (d_trunc interval + now) - m_tx_start b))
      else clamp_interval (d_trunc (d_div (d_of_Z (m_tx_on b)) duty_cycle))
    else max_interval in
  mk (m_duty_cycle_permit b) interval (m_tx_start b) (m_tx_on b).

Definition create (now : time) (l : Limeric.t) : t := update now (mk l min_interval time_point_min 0).

End LimericBudget.

(** * Rate controls *)

(** BurstyTransmitRateControl: both budgets. *)
Record BurstyTransmitRateControl (M : Type) := mk_Bursty { m_burst_budget : BurstBudget.t; m_fsm_budget : StateMachineBudget.t M }.
Arguments mk_Bursty {M}.
Arguments m_burst_budget {M}.
Arguments m_fsm_budget {M}.

#[export] Instance Bursty_control {M} `{StateMachine M} : TransmitRateControl (BurstyTransmitRateControl M) := {
  delay now tx c :=
    match profile tx with
    | DP0 => let '(d, b) := BurstBudget.delay now (m_burst_budget c) in (d, mk_Bursty b (m_fsm_budget c))
    | _ => (StateMachineBudget.delay now (m_fsm_budget c), c)
    end;
  interval tx c :=
    match profile tx with
    | DP0 => BurstBudget.m_burst_period (m_burst_budget c)
    | _ => transmission_interval (StateMachineBudget.m_fsm (m_fsm_budget c))
    end;
  notify now tx c :=
    match profile tx with
    | DP0 => mk_Bursty (BurstBudget.notify now (m_burst_budget c)) (m_fsm_budget c)
    | _ => mk_Bursty (m_burst_budget c) (StateMachineBudget.notify now (m_fsm_budget c))
    end
}.

(** SingleReactiveTransmitRateControl is a state machine budget. *)
#[export] Instance SingleReactive_control {M} `{StateMachine M} : TransmitRateControl (StateMachineBudget.t M) := {
  delay now _ b := (StateMachineBudget.delay now b, b);
  interval _ b := transmission_interval (StateMachineBudget.m_fsm b);
  notify now _ b := StateMachineBudget.notify now b
}.

(** LimericTransmitRateControl is a Limeric budget. *)
#[export] Instance Limeric_control : TransmitRateControl LimericBudget.t := {
  delay now _ b := (LimericBudget.delay now b, b);
  interval _ b := LimericBudget.m_interval b;
  notify now tx b := LimericBudget.notify now (channel_occupancy tx) b
}.

(** * What rate controls promise *)

(** [usable now] is the condition under which a control answers at [now]; a
    delay counts down to zero, is never the largest duration, and asking does
    not change the answers. *)
Class TransmitRateLaws (T : Type) `{!TransmitRateControl T} := {
  usable : time -> T -> Prop;
  usable_later : forall now now' c, usable now c -> now <= now' -> usable now' c;
  usable_delay : forall now tx c, usable now c -> usable now (delay now tx c).2;
  usable_notify : forall now tx c, usable now c -> usable now (notify now tx c);
  delay_range : forall now tx c, usable now c -> 0 <= (delay now tx c).1 < duration_max;
  delay_counts_down : forall now tx c w, usable now c -> 0 <= w <= (delay now tx c).1 ->
    (delay (now + w) tx c).1 = (delay now tx c).1 - w;
  delay_stable : forall now tx tx' c, usable now c -> (delay now tx (delay now tx' c).2).1 = (delay now tx c).1
}.

(** ** BurstBudget *)

Definition burst_usable (now : time) (b : BurstBudget.t) : Prop :=
  0 < BurstBudget.m_burst_duration b < BurstBudget.m_burst_period b /\ BurstBudget.m_burst_period b < duration_max /\
  Forall (fun m => m <= now) (content (BurstBudget.m_messages b)).

Lemma burst_usable_later now now' b : burst_usable now b -> now <= now' -> burst_usable now' b.
Proof. intros (H1 & H2 & H3) H. unfold burst_usable. split_all; try lia. eapply Forall_impl; [exact H3|]. cbn. lia. Qed.

Lemma burst_usable_delay now b : burst_usable now b -> burst_usable now (BurstBudget.delay now b).2.
Proof.
  intros H. unfold BurstBudget.delay. destruct (content _) as [|front l] eqn:E; [exact H|]. repeat if_split; try exact H.
  destruct H as (H1 & H2 & _). unfold burst_usable. cbn. split_all; try lia. constructor.
Qed.

Lemma push_back_Forall {A} (P : A -> Prop) x b : P x -> Forall P (content b) -> Forall P (content (push_back x b)).
Proof.
  intros Hx H. unfold push_back. destruct (full b); [destruct (content b) eqn:E; [now rewrite E|]|]; cbn [content]; try exact H.
  - inversion H; subst. apply Forall_app. auto.
  - apply Forall_app. auto.
Qed.

Lemma burst_usable_notify now b : burst_usable now b -> burst_usable now (BurstBudget.notify now b).
Proof. intros (H1 & H2 & H3). unfold burst_usable, BurstBudget.notify. cbn. split_all; try lia. apply push_back_Forall; [lia|exact H3]. Qed.

Lemma burst_delay_range now b : burst_usable now b -> 0 <= (BurstBudget.delay now b).1 < duration_max.
Proof.
  intros (H1 & H2 & H3). unfold BurstBudget.delay. destruct (content _) as [|front l]; [cbn; lia|]. inversion H3; subst.
  repeat if_split; cbn [fst]; lia.
Qed.

Lemma burst_counts_down now b w : burst_usable now b -> 0 <= w <= (BurstBudget.delay now b).1 ->
  (BurstBudget.delay (now + w) b).1 = (BurstBudget.delay now b).1 - w.
Proof.
  intros (H1 & H2 & H3). unfold BurstBudget.delay. destruct (content _) as [|front l]; [cbn; lia|]. inversion H3 as [|? ? Hf _]; subst.
  set (f := full _). destruct (Z.ltb_spec now (front + BurstBudget.m_burst_duration b)), f; cbn [andb negb];
    repeat match goal with |- context [?x <? ?y] => destruct (Z.ltb_spec x y) end; cbn [fst andb negb]; intros; try lia.
Qed.

Lemma burst_delay_stable now b : burst_usable now b -> (BurstBudget.delay now (BurstBudget.delay now b).2).1 = (BurstBudget.delay now b).1.
Proof.
  intros (H1 & H2 & H3). unfold BurstBudget.delay at 2 3. destruct (content _) as [|front l] eqn:E; [cbn [fst snd]; unfold BurstBudget.delay; now rewrite E|].
  destruct ((_ <? _) && _) eqn:E0; [cbn [fst snd]; unfold BurstBudget.delay; now rewrite E, E0|].
  destruct (front + _ <? now) eqn:E1; [reflexivity|]. cbn [fst snd]. unfold BurstBudget.delay. now rewrite E, E0, E1.
Qed.

(** ** The other budgets *)

Definition fsm_usable {M} `{StateMachine M} (now : time) (b : StateMachineBudget.t M) : Prop :=
  0 <= transmission_interval (StateMachineBudget.m_fsm b) < duration_max /\
  (forall last, StateMachineBudget.m_last_tx b = Some last -> last <= now).

Definition limeric_usable (now : time) (b : LimericBudget.t) : Prop :=
  LimericBudget.min_interval <= LimericBudget.m_interval b <= LimericBudget.max_interval /\ LimericBudget.m_tx_start b <= now.

Lemma clamp_interval_bounds i : LimericBudget.min_interval <= LimericBudget.clamp_interval i <= LimericBudget.max_interval.
Proof. unfold LimericBudget.clamp_interval, LimericBudget.min_interval, LimericBudget.max_interval, ms, seconds. lia. Qed.

#[export] Instance SingleReactive_laws {M} `{StateMachine M} : TransmitRateLaws (StateMachineBudget.t M).
Proof.
  refine {| usable := fsm_usable |}; cbn; unfold fsm_usable, StateMachineBudget.delay.
  - intros now now' c [H1 H2] Hle. split; [exact H1|]. intros last E. specialize (H2 last E). lia.
  - auto.
  - intros now _ c [H1 _]. cbn. split; [exact H1|]. intros last [= ->]. lia.
  - intros now _ c [H1 H2]. destruct (StateMachineBudget.m_last_tx c) as [last|]; [|unfold duration_max; lia].
    specialize (H2 last eq_refl). if_split; unfold duration_max in *; lia.
  - intros now _ c w [H1 H2]. destruct (StateMachineBudget.m_last_tx c) as [last|]; [|lia].
    repeat match goal with |- context [?x <? ?y] => destruct (Z.ltb_spec x y) end; intros; lia.
  - reflexivity.
Defined.

#[export] Instance Limeric_laws : TransmitRateLaws LimericBudget.t.
Proof.
  refine {| usable := limeric_usable |}; cbn; unfold limeric_usable, LimericBudget.delay.
  - intros now now' c [H1 H2] Hle. split; [exact H1|lia].
  - auto.
  - intros now tx c [H1 _]. cbn. split; [apply clamp_interval_bounds|lia].
  - intros now _ c [H1 H2]. unfold LimericBudget.min_interval, LimericBudget.max_interval, ms, seconds, duration_max in *. if_split; lia.
  - intros now _ c w [H1 H2].
    repeat match goal with |- context [?x <=? ?y] => destruct (Z.leb_spec x y) end; intros; lia.
  - reflexivity.
Defined.

#[export] Instance Bursty_laws {M} `{StateMachine M} : TransmitRateLaws (BurstyTransmitRateControl M).
Proof.
  refine {| usable now c := burst_usable now (m_burst_budget c) /\ fsm_usable now (m_fsm_budget c) |}; cbn.
  - intros now now' c [H1 H2] Hle. split; [now apply burst_usable_later with now|]. exact (usable_later (T := StateMachineBudget.t M) now now' _ H2 Hle).
  - intros now tx c [H1 H2]. destruct (profile tx); cbn; auto. pose proof (burst_usable_delay now (m_burst_budget c) H1) as H3.
    destruct (BurstBudget.delay _ _). now split.
  - intros now tx c [H1 H2]. destruct (profile tx); cbn; split; auto using burst_usable_notify; exact (usable_notify (T := StateMachineBudget.t M) now tx _ H2).
  - intros now tx c [H1 H2]. destruct (profile tx); try exact (delay_range (T := StateMachineBudget.t M) now tx _ H2).
    pose proof (burst_delay_range now (m_burst_budget c) H1) as H3. now destruct (BurstBudget.delay _ _).
  - intros now tx c w [H1 H2]. destruct (profile tx); try exact (delay_counts_down (T := StateMachineBudget.t M) now tx _ w H2).
    pose proof (burst_counts_down now (m_burst_budget c) w H1) as H3.
    destruct (BurstBudget.delay now _), (BurstBudget.delay (now + w) _). exact H3.
  - intros now tx tx' c [H1 H2]. pose proof (burst_delay_stable now (m_burst_budget c) H1) as H3.
    destruct (profile tx), (profile tx'); try reflexivity; destruct (BurstBudget.delay now (m_burst_budget c)) as [d b]; cbn in *; try reflexivity.
    now destruct (BurstBudget.delay now b).
Defined.

(** The first moment a control lets a transmission pass is when the delay it
    answered has passed. *)
Definition shortest {T} `{TransmitRateControl T} (now : time) (tx : Transmission) (c : T) : Prop :=
  let d := (delay now tx c).1 in 0 <= d < duration_max /\ forall w, 0 <= w <= d -> ((delay (now + w) tx c).1 = 0 <-> w = d).

Lemma laws_shortest {T} `{TransmitRateLaws T} now tx c : usable now c -> shortest now tx c.
Proof.
  intros Hc. split; [now apply delay_range|]. intros w Hw. rewrite delay_counts_down by assumption. lia.
Qed.

(** The delay the rate controls answer is the shortest waiting time, for
    bursts, for the two state machines and for Limeric, and it is never the
    largest duration, which would stand for no answer; a Limeric budget
    never waits longer than its interval, which is from 25 ms to 1 s. *)
Theorem rate_control_delays now tx :
  (forall c : BurstyTransmitRateControl FullyMeshed.Machine, usable now c -> shortest now tx c) /\
  (forall c : BurstyTransmitRateControl Gradual.Machine, usable now c -> shortest now tx c) /\
  (forall c : LimericBudget.t, usable now c -> shortest now tx c /\ (delay now tx c).1 <= interval tx c) /\
  (forall c tx_on, let c' := LimericBudget.notify now tx_on c in usable now c') /\
  (forall c, LimericBudget.m_tx_start c <= now -> usable now (LimericBudget.update now c)).
Proof.
  split_all; try (intros c Hc; now apply laws_shortest).
  - intros c Hc. split; [now apply laws_shortest|]. destruct Hc as [H1 H2]. cbn. unfold LimericBudget.delay. if_split; [|lia].
    unfold LimericBudget.min_interval, ms in H1. lia.
  - intros c tx_on. split; [apply clamp_interval_bounds|cbn; lia].
  - intros c Hc. split; [|exact Hc]. unfold LimericBudget.update. cbn [LimericBudget.m_interval].
    repeat if_split; try apply clamp_interval_bounds. unfold LimericBudget.min_interval, LimericBudget.max_interval, ms, seconds. lia.
Qed.

Lemma rate_control_delays_witness :
  let tx := mk_Transmission DP2 None 100 in
  let c := notify 0 tx (mk_Bursty BurstBudget.create (StateMachineBudget.mk FullyMeshed.create None)) in
  (delay 20000 tx c).1 = 40000 /\ (delay 60000 tx c).1 = 0.
Proof.
  cbn zeta. split; [vm_compute; reflexivity|].
  destruct (rate_control_delays 20000 (mk_Transmission DP2 None 100)) as (H & _).
  destruct (H (notify 0 (mk_Transmission DP2 None 100) (mk_Bursty BurstBudget.create (StateMachineBudget.mk FullyMeshed.create None)))) as [_ Hs].
  - split; [unfold burst_usable; split_all; try reflexivity; constructor|]. split; [vm_compute; split; [discriminate|reflexivity]|].
    intros last [= <-]. lia.
  - refine (proj2 (Hs 40000 _) _); [vm_compute; split; discriminate|vm_compute; reflexivity].
Defined.

(** ** The limit of bursts *)

(** A client that asks for the delay and sends when it is zero; [sent] are
    the times of the messages, the last first. *)
Definition attempt (s : BurstBudget.t * list time) (now : time) : BurstBudget.t * list time :=
  let '(d, b) := BurstBudget.delay now s.1 in
  if d =? 0 then (BurstBudget.notify now b, now :: s.2) else (b, s.2).

Definition burst_budget (n : nat) (duration period : Z) : BurstBudget.t := BurstBudget.mk (mk_circular_buffer [] n) duration period.

(** No attempt is made at the very moment the period of a burst ends. *)
Fixpoint off_boundary (s : BurstBudget.t * list time) (attempts : list time) : Prop :=
  match attempts with
  | [] => True
  | now :: attempts' =>
      match content (BurstBudget.m_messages s.1) with front :: _ => now <> front + BurstBudget.m_burst_period s.1 | [] => True end /\
      off_boundary (attempt s now) attempts'
  end.

(** Among [n + 1] messages in a row, the first and the last are further apart
    than [gap]. *)
Definition spread (n : nat) (gap : Z) (sent : list time) : Prop :=
  forall i x y, sent !! i = Some x -> sent !! (i + n)%nat = Some y -> y + gap < x.

(** The messages of the burst are the newest; those of earlier bursts are
    before the end of a burst one period ago. *)
Definition burst_inv (n : nat) (duration period : Z) (s : BurstBudget.t * list time) : Prop :=
  exists burst older, s.1 = BurstBudget.mk (mk_circular_buffer burst n) duration period /\ s.2 = rev burst ++ older /\
    (length burst <= n)%nat /\ (burst = [] -> older = []) /\
    (forall front, head burst = Some front -> Forall (fun y => y < front - period + duration) older /\ Forall (fun m => front <= m < front + duration) burst) /\
    spread n (period - duration) s.2.

Lemma spread_cons n gap x sent : spread n gap sent -> (forall y, (x :: sent) !! n = Some y -> y + gap < x) -> spread n gap (x :: sent).
Proof. intros Hs Hx [|i] u v Hu Hv; [cbn in Hu; injection Hu as <-; now apply Hx|]. now apply (Hs i). Qed.

Section Bursts.
Context (n : nat) (duration period : Z) (Hn : (0 < n)%nat) (Hd : 0 < duration < period).

Lemma spread_burst burst older now front : spread n (period - duration) (rev burst ++ older) -> (length burst < n)%nat ->
  Forall (fun y => y < front - period + duration) older -> front <= now ->
  spread n (period - duration) (now :: rev burst ++ older).
Proof.
  intros Hs Hl Ho Hf. apply spread_cons; [exact Hs|]. intros y Hy. destruct n as [|k]; [lia|]. change ((rev burst ++ older) !! k = Some y) in Hy.
  rewrite lookup_app_r in Hy by (rewrite length_rev; lia). rewrite Forall_forall in Ho.
  apply list_elem_of_lookup_2, Ho in Hy. lia.
Qed.

Lemma burst_inv_intro burst older : (length burst <= n)%nat -> (burst = [] -> older = []) ->
  (forall front, head burst = Some front -> Forall (fun y => y < front - period + duration) older /\ Forall (fun m => front <= m < front + duration) burst) ->
  spread n (period - duration) (rev burst ++ older) ->
  burst_inv n duration period (BurstBudget.mk (mk_circular_buffer burst n) duration period, rev burst ++ older).
Proof. intros H1 H2 H3 H4. exists burst, older. split; [reflexivity|]. split; [reflexivity|]. auto. Qed.

(** A burst that starts at [now]. *)
Lemma burst_inv_start older now : Forall (fun y => y < now - period + duration) older -> spread n (period - duration) older ->
  burst_inv n duration period (BurstBudget.mk (mk_circular_buffer [now] n) duration period, now :: older).
Proof.
  intros Ho Hs. apply (burst_inv_intro [now] older); [cbn; lia|discriminate| |].
  - intros ? [= <-]. split; [exact Ho|]. repeat constructor; lia.
  - apply (spread_burst [] older now now); auto. lia.
Qed.

Lemma burst_attempt s now : burst_inv n duration period s -> off_boundary s [now] ->
  (forall m, m ∈ s.2 -> m <= now) -> burst_inv n duration period (attempt s now).
Proof.
  intros (burst & older & Eb & Es & Hl & He & Hb & Hs) [Hoff _] Hnow. destruct s as [b sent]. cbn [fst snd] in *. subst b sent.
  unfold attempt, BurstBudget.delay. cbn [fst snd BurstBudget.m_messages BurstBudget.m_burst_duration BurstBudget.m_burst_period content capacity] in *.
  assert (En : (0 =? n)%nat = false) by (apply Nat.eqb_neq; lia).
  destruct burst as [|front burst].
  - rewrite He in * by reflexivity. unfold BurstBudget.notify, push_back, full. cbn [Z.eqb BurstBudget.m_messages content capacity length rev app].
    rewrite En. apply burst_inv_start; [constructor|exact Hs].
  - destruct (Hb front eq_refl) as [Ho Hw]. unfold full. cbn [content capacity].
    destruct (Z.ltb_spec now (front + duration)) as [H1|H1]; cbn [andb].
    + assert (Hf : front <= now) by (apply Hnow, elem_of_app; left; apply list_elem_of_In; rewrite <- in_rev; now left).
      destruct (Nat.eqb_spec (length (front :: burst)) n) as [H2|H2]; cbn [negb].
      * destruct (Z.ltb_spec (front + period) now); [lia|]. destruct (Z.eqb_spec (front + period - now) 0); [lia|].
        now apply burst_inv_intro.
      * unfold BurstBudget.notify, push_back, full. cbn [Z.eqb BurstBudget.m_messages content capacity].
        rewrite (proj2 (Nat.eqb_neq _ _) H2). cbn [BurstBudget.m_burst_duration BurstBudget.m_burst_period].
        assert (E : now :: rev (front :: burst) ++ older = rev ((front :: burst) ++ [now]) ++ older) by now rewrite rev_app_distr.
        rewrite E. apply burst_inv_intro; [rewrite length_app; cbn [length] in *; lia|discriminate| |].
        -- intros ? [= <-]. split; [exact Ho|]. apply (Forall_app _ (front :: burst)). split; [exact Hw|]. repeat constructor; lia.
        -- rewrite <- E. apply (spread_burst (front :: burst) older now front); auto. lia.
    + destruct (Z.ltb_spec (front + period) now) as [H3|H3].
      * unfold BurstBudget.notify, push_back, full. cbn [Z.eqb BurstBudget.m_messages content capacity length app]. rewrite En.
        apply burst_inv_start; [|exact Hs]. apply Forall_app. split; [|eapply Forall_impl; [exact Ho|]; cbn; lia].
        apply List.Forall_rev. eapply Forall_impl; [exact Hw|]. cbn. lia.
      * destruct (Z.eqb_spec (front + period - now) 0); [lia|]. now apply burst_inv_intro.
Qed.

End Bursts.

Definition run_attempts (b : BurstBudget.t) (attempts : list time) : BurstBudget.t * list time := fold_left attempt attempts (b, []).

Lemma burst_run n duration period attempts s : (0 < n)%nat -> 0 < duration < period -> StronglySorted Z.le attempts ->
  (forall m t, m ∈ s.2 -> t ∈ attempts -> m <= t) -> off_boundary s attempts -> burst_inv n duration period s ->
  burst_inv n duration period (fold_left attempt attempts s).
Proof.
  intros Hn Hd. revert s. induction attempts as [|now attempts IH]; intros s Hs Hle Hoff Hinv; [exact Hinv|]. cbn [fold_left].
  inversion Hs as [|? ? Hs' Hnow]; subst. destruct Hoff as [Ho Hoff]. apply IH; auto.
  - intros m t Hm Ht. rewrite Forall_forall in Hnow. specialize (Hnow t Ht). unfold attempt in Hm. destruct (BurstBudget.delay now s.1) as [d b].
    assert (m = now \/ m ∈ s.2) as [->|Hm'] by (destruct (d =? 0); cbn in Hm; [apply elem_of_cons in Hm as [|]; auto|auto]); [exact Hnow|].
    assert (m <= now) by (apply Hle; [exact Hm'|left]). lia.
  - apply burst_attempt; auto; [now split|]. intros m Hm. apply Hle; [exact Hm|left].
Qed.

(** A client that sends only when the budget answers zero never sends more
    than the limit of messages within the pause between two bursts (twenty in
    nine seconds), for any limit, duration and period, as long as it does not
    ask at the very moment a period ends. *)
Theorem burst_limit n duration period attempts : (0 < n)%nat -> 0 < duration < period -> StronglySorted Z.le attempts ->
  off_boundary (burst_budget n duration period, []) attempts ->
  spread n (period - duration) (run_attempts (burst_budget n duration period) attempts).2.
Proof.
  intros Hn Hd Hs Hoff. assert (H : burst_inv n duration period (run_attempts (burst_budget n duration period) attempts)).
  { apply burst_run; auto; [intros m t Hm; now apply elem_of_nil in Hm|]. apply (burst_inv_intro n duration period [] []); [cbn; lia|auto|intros ? [=]|intros i x y [=]]. }
  now destruct H as (_ & _ & _ & _ & _ & _ & _ & H).
Qed.

Lemma burst_limit_witness :
  let attempts := map (fun i => Z.of_nat i * ms 300) (seq 0 80) in
  rev (run_attempts (burst_budget 2 (seconds 1) (seconds 10)) attempts).2 = map ms [0; 300; 10200; 10500; 20400; 20700] /\
  spread 2 (seconds 9) (run_attempts (burst_budget 2 (seconds 1) (seconds 10)) attempts).2.
Proof.
  cbn zeta. split; [vm_compute; reflexivity|].
  apply (burst_limit 2 (seconds 1) (seconds 10)); [lia|unfold seconds; lia| |].
  - vm_compute. repeat constructor; discriminate.
  - vm_compute. repeat split; discriminate.
Defined.

(** What happens otherwise: a message sent at the end of the period does not
    start a new burst, so that a full one may follow a microsecond later; and
    burst_messages() does not lower the limit, but fills the budget. *)
Theorem burst_deviations :
  let t := BurstBudget.T_BurstPeriod in
  length (run_attempts BurstBudget.create (0 :: repeat t 19 ++ repeat (t + 1) 20)).2 = 40%nat /\
  (BurstBudget.delay (seconds 5) (BurstBudget.burst_messages 5 BurstBudget.create)).1 = seconds 5 /\
  length (run_attempts (BurstBudget.burst_messages 5 BurstBudget.create) (repeat (seconds 3600) 25)).2 = 20%nat.
Proof. vm_compute. auto. Qed.

(** ** Limeric *)

Lemma delta_of_bounds p a duty offset : d_ltb (Limeric.delta_max p) (Limeric.delta_min p) = false ->
  d_ltb (Limeric.delta_of p a duty offset) (Limeric.delta_min p) = false /\ d_ltb (Limeric.delta_max p) (Limeric.delta_of p a duty offset) = false.
Proof.
  intros Hp. unfold Limeric.delta_of, Limeric.min_of, Limeric.max_of, lt. set (x := add _ _).
  set (y := if d_ltb x (Limeric.delta_min p) then Limeric.delta_min p else x).
  assert (Hy : d_ltb y (Limeric.delta_min p) = false) by (unfold y; destruct (d_ltb x (Limeric.delta_min p)) eqn:E; auto using d_ltb_irrefl).
  destruct (d_ltb (Limeric.delta_max p) y) eqn:E2; auto using d_ltb_irrefl.
Qed.

Lemma next_calculation_spec l now : let p := Limeric.m_params l in 0 < Limeric.cbr_interval p -> 0 <= now ->
  let tp := Limeric.next_calculation now l in
  tp mod (2 * Limeric.cbr_interval p) = 0 /\ now + Limeric.cbr_interval p <= tp < now + 3 * Limeric.cbr_interval p.
Proof.
  cbn zeta. intros Hi Hnow. unfold Limeric.next_calculation. set (p := Limeric.m_params l) in *.
  set (si := 2 * Limeric.cbr_interval p). set (tp := now + si). rewrite Z.rem_mod_nonneg by lia.
  pose proof (Z.mod_pos_bound tp si ltac:(lia)). pose proof (Z.div_mod tp si ltac:(lia)) as E. repeat if_split; (split; [|lia]).
  - replace (tp + (si - tp mod si)) with ((tp / si + 1) * si) by lia. apply Z.mod_mul. lia.
  - replace (tp - tp mod si) with (tp / si * si) by lia. apply Z.mod_mul. lia.
  - lia.
Qed.

(** Whatever Limeric measured, the duty cycle it calculates is within the
    bounds of its parameters and the channel load within the unit interval;
    it calculates at the multiples of twice the measuring interval, once per
    period, never sooner than one interval from now. *)
Theorem limeric_bounds l now : let p := Limeric.m_params l in
  d_ltb (Limeric.delta_max p) (Limeric.delta_min p) = false -> 0 < Limeric.cbr_interval p -> 0 <= now -> in_unit (Limeric.m_channel_load l) = true ->
  let l' := Limeric.calculate l in
  d_ltb (Limeric.m_duty_cycle l') (Limeric.delta_min p) = false /\ d_ltb (Limeric.delta_max p) (Limeric.m_duty_cycle l') = false /\
  in_unit (Limeric.m_channel_load l') = true /\ Limeric.m_params l' = p /\
  let tp := Limeric.next_calculation now l in
  tp mod (2 * Limeric.cbr_interval p) = 0 /\ now + Limeric.cbr_interval p <= tp < now + 3 * Limeric.cbr_interval p.
Proof.
  cbn zeta. intros Hp Hi Hnow Hu. set (p := Limeric.m_params l) in *.
  assert (Hd : forall a duty offset, d_ltb (Limeric.delta_of p a duty offset) (Limeric.delta_min p) = false /\ d_ltb (Limeric.delta_max p) (Limeric.delta_of p a duty offset) = false)
    by (intros; now apply delta_of_bounds).
  split_all; try reflexivity.
  - cbn. unfold Limeric.calculate_duty_cycle. cbn. destruct (Limeric.m_dual_alpha l); [destruct (lt _ _)|]; apply Hd.
  - cbn. unfold Limeric.calculate_duty_cycle. cbn. destruct (Limeric.m_dual_alpha l); [destruct (lt _ _)|]; apply Hd.
  - cbn. unfold Limeric.average_cbr. destruct (full _); [apply clamp_in|exact Hu].
  - now apply next_calculation_spec.
  - now apply next_calculation_spec.
  - now apply next_calculation_spec.
Qed.

Lemma limeric_bounds_witness :
  let l := Limeric.update_cbr (load 90) (Limeric.update_cbr (load 80) (Limeric.create Limeric.default_params)) in
  Limeric.next_calculation (ms 130) l = ms 400 /\
  d_ltb (Limeric.m_duty_cycle (Limeric.calculate l)) (Limeric.m_duty_cycle l) = true /\
  d_ltb (Limeric.m_duty_cycle (Limeric.calculate l)) (Limeric.delta_min Limeric.default_params) = false.
Proof.
  cbn zeta. split; [vm_compute; reflexivity|]. split; [vm_compute; reflexivity|].
  apply (limeric_bounds (Limeric.update_cbr (load 90) (Limeric.update_cbr (load 80) (Limeric.create Limeric.default_params))) (ms 130)); vm_compute; try reflexivity; discriminate.
Defined.

(** A new budget starts at the earliest time point, and the difference its
    first update() takes is out of range from 25 ms after the epoch on. *)
Theorem limeric_start_overflows now l : LimericBudget.min_interval < now ->
  let b := LimericBudget.mk l LimericBudget.min_interval time_point_min 0 in
  LimericBudget.m_tx_start b + LimericBudget.m_interval b - now < - 2 ^ 63 /\
  LimericBudget.m_interval (LimericBudget.create (seconds 1) (Limeric.create Limeric.default_params)) = LimericBudget.min_interval.
Proof. intros H. split; [cbn; unfold time_point_min; lia|vm_compute; reflexivity]. Qed.
