(* ===== verification/FlowControl.v ===== *)
(** The gatekeeper above the access layer: dcc/flow_control.cpp and
    dcc/mapping.cpp, over any rate control of DccBudget.v and on the runtime of
    Scheduler.v. *)

From S2P Require Import Prelude Archive GnWire DccLoad DccBudget Scheduler.
From stdpp Require Import list sorting.
Import TrafficClass.

Open Scope Z_scope.

(** * Data *)

Inductive AccessCategory := BK | BE | VI | VO.
Definition ac_value (ac : AccessCategory) : Z := match ac with BK => 1 | BE => 3 | VI => 5 | VO => 7 end.
#[export] Instance AccessCategory_eq_dec : EqDecision AccessCategory.
Proof. solve_decision. Defined.

Definition map_profile_onto_ac (dp_id : Profile) : AccessCategory :=
  match dp_id with DP0 => VO | DP1 => VI | DP2 => BE | DP3 => BK end.

(** dcc::DataRequest and access::DataRequest. *)
Record DataRequest := mk_DataRequest {
  ether_type : Z; source : MacAddress; destination : MacAddress; dcc_profile : Profile; lifetime : Z
}.
Record AccessRequest := mk_AccessRequest {
  access_ether_type : Z; source_addr : MacAddress; destination_addr : MacAddress; access_category : AccessCategory
}.

Section FlowControl.
(** A packet and its size; the rate control; the callback that calls
    trigger(), and the address of the object as its scope. *)
Context {Packet : Type} (size : Packet -> Z).
Context {T : Type} `{!TransmitRateControl T}.
Context {Callback : Type} (on_trigger : Callback) (self : Z).

Record PendingTransmission := mk_Pending { expiry : time; request_of : DataRequest; packet : Packet }.
Definition transmission_of (p : PendingTransmission) : Transmission :=
  mk_Transmission (dcc_profile (request_of p)) (Some G5_6Mbps) (size (packet p)).
Definition TransmissionLite (dp : Profile) (len : Z) : Transmission := mk_Transmission dp None len.

Abbreviation Queue := (list PendingTransmission).

(** The map from categories to queues in the order it is iterated, the
    highest priority first. *)
Abbreviation Queues := (list (AccessCategory * Queue)).

Fixpoint queue_at (ac : AccessCategory) (qs : Queues) : Queue :=
  match qs with [] => [] | (a, q) :: qs' => if decide (a = ac) then q else queue_at ac qs' end.
Fixpoint set_queue (ac : AccessCategory) (q : Queue) (qs : Queues) : Queues :=
  match qs with
  | [] => [(ac, q)]
  | (a, q') :: qs' =>
      if decide (a = ac) then (ac, q) :: qs'
      else if ac_value a <? ac_value ac then (ac, q) :: qs else (a, q') :: set_queue ac q qs'
  end.

(** Calls of the two hooks and of the access layer. *)
Inductive Event :=
| packet_drop_hook (ac : AccessCategory) (p : Packet)
| packet_transmit_hook (ac : AccessCategory) (p : Packet)
| access_request (r : AccessRequest) (p : Packet).

Record FlowControl := mk_FlowControl { m_trc : T; m_queues : Queues; m_queue_length : nat; m_events : list Event }.

Definition with_trc (c : T) (fc : FlowControl) : FlowControl := mk_FlowControl c (m_queues fc) (m_queue_length fc) (m_events fc).
Definition with_queues (qs : Queues) (fc : FlowControl) : FlowControl := mk_FlowControl (m_trc fc) qs (m_queue_length fc) (m_events fc).
Definition emit (l : list Event) (fc : FlowControl) : FlowControl :=
  mk_FlowControl (m_trc fc) (m_queues fc) (m_queue_length fc) (m_events fc ++ l).

Definition create (trc : T) : FlowControl := mk_FlowControl trc [] 0 [].

Abbreviation World := (@ManualRuntime Callback * FlowControl)%type.

(** * Operations *)

Definition is_empty (q : Queue) : bool := match q with [] => true | _ => false end.
Definition empty (fc : FlowControl) : bool := forallb (fun kv => is_empty kv.2) (m_queues fc).

Definition expired_in (now : time) (kv : AccessCategory * Queue) : list Event :=
  map (fun p => packet_drop_hook kv.1 (packet p)) (filter (fun p => expiry p < now) kv.2).
Definition remaining (now : time) (q : Queue) : Queue := filter (fun p => ~ expiry p < now) q.

Definition drop_expired (now : time) (fc : FlowControl) : FlowControl :=
  emit (flat_map (expired_in now) (m_queues fc)) (with_queues (map (fun kv => (kv.1, remaining now kv.2)) (m_queues fc)) fc).

(** The loop of next_queue(): the control is asked for the head of every
    queue that has one. *)
Fixpoint scan (now : time) (qs : Queues) (c : T) (min_delay : Z) (next : option AccessCategory) : option AccessCategory * T :=
  match qs with
  | [] => (next, c)
  | (ac, []) :: qs' => scan now qs' c min_delay next
  | (ac, front :: _) :: qs' =>
      let '(d, c) := delay now (transmission_of front) c in
      if d <? min_delay then scan now qs' c d (Some ac) else scan now qs' c min_delay next
  end.
Definition next_queue (now : time) (fc : FlowControl) : option AccessCategory * FlowControl :=
  let '(next, c) := scan now (m_queues fc) (m_trc fc) duration_max None in (next, with_trc c fc).

Definition next_transmission (now : time) (fc : FlowControl) : option PendingTransmission * FlowControl :=
  let '(next, fc) := next_queue now fc in
  (match next with Some ac => head (queue_at ac (m_queues fc)) | None => None end, fc).

Definition dequeue (now : time) (fc : FlowControl) : option PendingTransmission * FlowControl :=
  let '(next, fc) := next_queue now fc in
  match next with
  | Some ac =>
      match queue_at ac (m_queues fc) with
      | front :: q => (Some front, with_queues (set_queue ac q (m_queues fc)) fc)
      | [] => (None, fc)
      end
  | None => (None, fc)
  end.

Definition transmit (r : DataRequest) (p : Packet) (fc : FlowControl) : FlowControl :=
  let access_request_data :=
    mk_AccessRequest (ether_type r) (source r) (destination r) (map_profile_onto_ac (dcc_profile r)) in
  emit [packet_transmit_hook (access_category access_request_data) p; access_request access_request_data p] fc.

Definition schedule_trigger (tx : Transmission) (s : World) : World :=
  let '(rt, fc) := s in
  let '(callback_delay, c) := delay (m_now rt) tx (m_trc fc) in
  (schedule_after callback_delay on_trigger (Some self) rt, with_trc c fc).

Definition contention (ac : AccessCategory) (fc : FlowControl) : bool :=
  existsb (fun kv => (ac_value ac <=? ac_value kv.1) && negb (is_empty kv.2)) (m_queues fc).

Definition transmit_immediately (now : time) (tx : Transmission) (fc : FlowControl) : bool * FlowControl :=
  if contention (map_profile_onto_ac (profile tx)) fc then (false, fc)
  else let '(d, c) := delay now tx (m_trc fc) in (d =? 0, with_trc c fc).

(** The loop of enqueue() in front of the new packet. *)
Fixpoint make_room (n : nat) (q : Queue) : Queue :=
  match q with
  | [] => []
  | _ :: q' => if ((0 <? n) && (n <=? length q))%nat then make_room n q' else q
  end.

Definition enqueue (r : DataRequest) (p : Packet) (s : World) : World :=
  let '(rt, fc) := s in
  let first_packet := empty fc in
  let ac := map_profile_onto_ac (dcc_profile r) in
  let pending := mk_Pending (m_now rt + lifetime r) r p in
  let q := queue_at ac (m_queues fc) in
  let room := make_room (m_queue_length fc) q in
  let fc := emit (replicate (length q - length room) (packet_drop_hook ac p)) fc in
  let fc := with_queues (set_queue ac (room ++ [pending]) (m_queues fc)) fc in
  if first_packet then schedule_trigger (transmission_of pending) (rt, fc) else (rt, fc).

Definition request (r : DataRequest) (p : Packet) (s : World) : World :=
  let '(rt, fc) := s in
  let fc := drop_expired (m_now rt) fc in
  let tx := TransmissionLite (dcc_profile r) (size p) in
  let '(immediately, fc) := transmit_immediately (m_now rt) tx fc in
  if immediately then (rt, transmit r p (with_trc (notify (m_now rt) tx (m_trc fc)) fc))
  else enqueue r p (rt, fc).

Definition trigger (s : World) : World :=
  let '(rt, fc) := s in
  let now := m_now rt in
  let fc := drop_expired now fc in
  let '(transmission, fc) := dequeue now fc in
  let fc := match transmission with
            | Some tx => transmit (request_of tx) (packet tx) (with_trc (notify now (transmission_of tx) (m_trc fc)) fc)
            | None => fc
            end in
  let '(next, fc) := next_transmission now fc in
  match next with Some tx => schedule_trigger (transmission_of tx) (rt, fc) | None => (rt, fc) end.

Definition reschedule (s : World) : World :=
  let '(rt, fc) := s in
  let '(next, fc) := next_transmission (m_now rt) fc in
  match next with Some tx => schedule_trigger (transmission_of tx) (Scheduler.cancel (Some self) rt, fc) | None => (rt, fc) end.

Definition queue_length (length : nat) (fc : FlowControl) : FlowControl := mk_FlowControl (m_trc fc) (m_queues fc) length (m_events fc).

(** The destructor. *)
Definition destroy (s : World) : @ManualRuntime Callback := Scheduler.cancel (Some self) s.1.

(** * The queues *)

Definition sorted (qs : Queues) : Prop := StronglySorted (fun x y => ac_value y.1 < ac_value x.1) qs.

Lemma ac_value_inj a b : ac_value a = ac_value b -> a = b.
Proof. destruct a, b; cbn; congruence || lia. Qed.

Lemma queue_at_absent a qs : Forall (fun kv => ac_value kv.1 < ac_value a) qs -> queue_at a qs = [].
Proof.
  induction 1 as [|[b q] qs Hb Hqs IH]; [reflexivity|]. cbn [queue_at]. rewrite decide_False; [exact IH|]. intros ->. cbn in Hb. lia.
Qed.

Lemma queue_at_set a ac q qs : sorted qs -> queue_at a (set_queue ac q qs) = if decide (a = ac) then q else queue_at a qs.
Proof.
  induction 1 as [|[b q'] qs Hs IH Hb]; cbn [set_queue queue_at].
  - destruct (decide (ac = a)), (decide (a = ac)); congruence.
  - destruct (decide (b = ac)) as [->|Hne]; cbn [queue_at]; [destruct (decide (ac = a)), (decide (a = ac)); congruence|].
    destruct (Z.ltb_spec (ac_value b) (ac_value ac)) as [Hlt|Hge]; cbn [queue_at].
    + destruct (decide (ac = a)), (decide (a = ac)); congruence.
    + rewrite IH. destruct (decide (b = a)), (decide (a = ac)); congruence.
Qed.

Lemma set_queue_keys ac q qs x : x ∈ set_queue ac q qs -> x = (ac, q) \/ x ∈ qs.
Proof.
  induction qs as [|[b q'] qs IH]; cbn [set_queue]; [intros [->|?]%elem_of_cons; auto|].
  destruct (decide (b = ac)); [|destruct (_ <? _)]; rewrite !elem_of_cons; tauto.
Qed.

Lemma set_queue_sorted ac q qs : sorted qs -> sorted (set_queue ac q qs).
Proof.
  induction 1 as [|[b q'] qs Hs IH Hb]; cbn [set_queue]; [repeat constructor|].
  destruct (decide (b = ac)) as [->|Hne]; [now constructor|]. destruct (Z.ltb_spec (ac_value b) (ac_value ac)) as [Hlt|Hge].
  - constructor; [now constructor|]. constructor; [exact Hlt|]. eapply Forall_impl; [exact Hb|]. cbn. intros; lia.
  - constructor; [exact IH|]. apply Forall_forall. intros x [->|Hx]%set_queue_keys; cbn.
    + assert (ac_value b <> ac_value ac) by (intros E; now apply Hne, ac_value_inj). lia.
    + rewrite Forall_forall in Hb. now apply (Hb x).
Qed.

Lemma queue_at_elem a qs : queue_at a qs <> [] -> (a, queue_at a qs) ∈ qs.
Proof.
  induction qs as [|[b q] qs IH]; cbn [queue_at]; [easy|]. destruct (decide (b = a)) as [->|]; intros H; [left|right; auto].
Qed.

Lemma elem_queue_at a q qs : sorted qs -> (a, q) ∈ qs -> queue_at a qs = q.
Proof.
  induction 1 as [|[b q'] qs Hs IH Hb]; intros Hx; [now apply elem_of_nil in Hx|]. cbn [queue_at]. apply elem_of_cons in Hx as [[= <- <-]|Hx].
  - now rewrite decide_True.
  - rewrite decide_False; [now apply IH|]. intros ->. rewrite Forall_forall in Hb. specialize (Hb _ Hx). cbn in Hb. lia.
Qed.

Definition nonempty_at (a : AccessCategory) (qs : Queues) : Prop := queue_at a qs <> [].

Lemma is_empty_spec q : is_empty q = true <-> q = [].
Proof. destruct q; cbn; split; congruence. Qed.

Lemma empty_spec fc : sorted (m_queues fc) -> (empty fc = true <-> forall a, queue_at a (m_queues fc) = []).
Proof.
  intros Hs. unfold empty. rewrite forallb_forall. split.
  - intros H a. destruct (queue_at a (m_queues fc)) eqn:E; [reflexivity|]. apply is_empty_spec. rewrite <- E.
    apply (H (a, queue_at a (m_queues fc))). apply list_elem_of_In, queue_at_elem. congruence.
  - intros H [a q] Hx. apply list_elem_of_In, elem_queue_at in Hx; [|exact Hs]. cbn. apply is_empty_spec. now rewrite <- Hx.
Qed.

Lemma contention_spec ac fc : sorted (m_queues fc) ->
  (contention ac fc = true <-> exists a, ac_value ac <= ac_value a /\ nonempty_at a (m_queues fc)).
Proof.
  intros Hs. unfold contention, nonempty_at. rewrite existsb_exists. split.
  - intros ([a q] & Hx & [H1 H2]%andb_prop). apply list_elem_of_In, elem_queue_at in Hx; [|exact Hs]. exists a. cbn in *. split; [lia|].
    rewrite Hx. intros ->. discriminate.
  - intros (a & Ha & Hne). exists (a, queue_at a (m_queues fc)). split; [now apply list_elem_of_In, queue_at_elem|]. cbn.
    destruct (queue_at a (m_queues fc)); [contradiction|]. cbn. rewrite andb_true_r. lia.
Qed.

Lemma queue_at_expired a now qs : queue_at a (map (fun kv => (kv.1, remaining now kv.2)) qs) = remaining now (queue_at a qs).
Proof. induction qs as [|[b q] qs IH]; [reflexivity|]. cbn [map queue_at fst snd]. now destruct (decide (b = a)). Qed.

Lemma expired_sorted now qs : sorted qs -> sorted (map (fun kv => (kv.1, remaining now kv.2)) qs).
Proof.
  induction 1 as [|x qs Hs IH Hx]; cbn [map]; constructor; [exact IH|]. apply Forall_forall.
  intros y (z & -> & Hz)%list_elem_of_fmap. rewrite Forall_forall in Hx. exact (Hx z Hz).
Qed.

(** What is kept in front of a new packet: the last [n - 1], or all when
    there is no limit. *)
Lemma room_kept n q : make_room n q = if (n =? 0)%nat then q else drop (S (length q) - n) q.
Proof.
  destruct n as [|n]; cbn [Nat.eqb]; [now destruct q|]. induction q as [|x q IH]; [now rewrite drop_nil|]. cbn [make_room Nat.ltb Nat.leb length andb].
  destruct (Nat.leb_spec n (length q)) as [H|H].
  - rewrite IH. replace (S (S (length q)) - S n)%nat with (S (S (length q) - S n)) by lia. reflexivity.
  - replace (S (S (length q)) - S n)%nat with 0%nat by lia. reflexivity.
Qed.

(** * Choosing a queue *)

Context `{!TransmitRateLaws T}.

(** The control is usable and gives the answers [D]. *)
Definition answers (now : time) (D : Transmission -> Z) (c : T) : Prop := usable now c /\ forall tx, (delay now tx c).1 = D tx.

Lemma answers_delay now D c tx : answers now D c -> answers now D (delay now tx c).2.
Proof. intros [H1 H2]. split; [now apply usable_delay|]. intros tx'. now rewrite delay_stable. Qed.

(** The head of [a] has the least delay, of several the highest priority. *)
Definition chosen (D : Transmission -> Z) (qs : Queues) (a : AccessCategory) : Prop :=
  exists front q, (a, front :: q) ∈ qs /\
  forall b g q', (b, g :: q') ∈ qs ->
    D (transmission_of front) <= D (transmission_of g) /\ (ac_value a < ac_value b -> D (transmission_of front) < D (transmission_of g)).

Lemma scan_spec now D qs c m nx : sorted qs -> answers now D c ->
  let '(r, c') := scan now qs c m nx in
  answers now D c' /\
  ((r = nx /\ forall b g q', (b, g :: q') ∈ qs -> m <= D (transmission_of g)) \/
   (exists a, r = Some a /\ chosen D qs a /\ forall front q, (a, front :: q) ∈ qs -> D (transmission_of front) < m)).
Proof.
  intros Hs. revert c m nx. induction Hs as [|[b q] qs Hs IH Hb]; intros c m nx Hc; cbn [scan].
  - split; [exact Hc|]. left. split; [reflexivity|]. intros b g q' Hx. now apply elem_of_nil in Hx.
  - assert (Hlow : forall b' q', (b', q') ∈ qs -> ac_value b' < ac_value b) by (intros b' q' Hx; rewrite Forall_forall in Hb; exact (Hb _ Hx)).
    destruct q as [|front q].
    + specialize (IH c m nx Hc). destruct (scan now qs c m nx) as [r c']. destruct IH as [Hc' IH]. split; [exact Hc'|]. destruct IH as [[-> IH]|(a & -> & IH & Hm)].
      * left. split; [reflexivity|]. intros b' g q' [[= ]|Hx]%elem_of_cons. eauto.
      * right. exists a. split; [reflexivity|]. split; [|intros f' q' [[= ]|Hx]%elem_of_cons; eauto].
        destruct IH as (f & qf & Hf & IH). exists f, qf. split; [now right|]. intros b' g q' [[= ]|Hx]%elem_of_cons. eauto.
    + pose proof (answers_delay now D c (transmission_of front) Hc) as Hc1. destruct Hc as [Hu Hc]. specialize (Hc (transmission_of front)).
      destruct (delay now (transmission_of front) c) as [d c1]. cbn [fst snd] in *. subst d.
      destruct (Z.ltb_spec (D (transmission_of front)) m) as [Hlt|Hge].
      * specialize (IH c1 (D (transmission_of front)) (Some b) Hc1). destruct (scan now qs c1 _ _) as [r c']. destruct IH as [Hc' IH].
        split; [exact Hc'|]. right. destruct IH as [[-> IH]|(a & -> & IH & Hm)].
        -- exists b. split; [reflexivity|]. split.
           ++ exists front, q. split; [left|]. intros b' g q' [[= -> -> ->]|Hx]%elem_of_cons; [lia|]. specialize (IH _ _ _ Hx). specialize (Hlow _ _ Hx). lia.
           ++ intros f' q' [[= -> ->]|Hx]%elem_of_cons; [exact Hlt|]. specialize (Hlow _ _ Hx). lia.
        -- exists a. split; [reflexivity|]. destruct IH as (f & qf & Hf & IH). pose proof (Hm _ _ Hf) as Hfm. pose proof (Hlow _ _ Hf) as Hfl. split.
           ++ exists f, qf. split; [now right|]. intros b' g q' [[= -> -> ->]|Hx]%elem_of_cons; [lia|]. eauto.
           ++ intros f' q' [[= -> -> ->]|Hx]%elem_of_cons; [lia|]. specialize (Hm _ _ Hx). lia.
      * specialize (IH c1 m nx Hc1). destruct (scan now qs c1 m nx) as [r c']. destruct IH as [Hc' IH]. split; [exact Hc'|].
        destruct IH as [[-> IH]|(a & -> & IH & Hm)].
        -- left. split; [reflexivity|]. intros b' g q' [[= -> -> ->]|Hx]%elem_of_cons; [lia|]. eauto.
        -- right. exists a. split; [reflexivity|]. destruct IH as (f & qf & Hf & IH). pose proof (Hm _ _ Hf) as Hfm. pose proof (Hlow _ _ Hf) as Hfl. split.
           ++ exists f, qf. split; [now right|]. intros b' g q' [[= -> -> ->]|Hx]%elem_of_cons; [lia|]. eauto.
           ++ intros f' q' [[= -> -> ->]|Hx]%elem_of_cons; [lia|]. eauto.
Qed.

(** What the control answers now. *)
Definition delays (now : time) (c : T) (tx : Transmission) : Z := (delay now tx c).1.

Lemma answers_now now c : usable now c -> answers now (delays now c) c.
Proof. intros H. split; [exact H|reflexivity]. Qed.

(** The packet [front] is the head of the queue that is chosen, [q] the rest. *)
Definition selected (D : Transmission -> Z) (queues : AccessCategory -> Queue) (a : AccessCategory) (front : PendingTransmission) (q : Queue) : Prop :=
  queues a = front :: q /\
  forall b g q', queues b = g :: q' ->
    D (transmission_of front) <= D (transmission_of g) /\ (ac_value a < ac_value b -> D (transmission_of front) < D (transmission_of g)).

Lemma next_queue_spec now fc : sorted (m_queues fc) -> usable now (m_trc fc) ->
  exists r c', next_queue now fc = (r, with_trc c' fc) /\ usable now c' /\
    match r with
    | Some a => exists front q, selected (delays now (m_trc fc)) (fun b => queue_at b (m_queues fc)) a front q
    | None => forall a, queue_at a (m_queues fc) = []
    end.
Proof.
  intros Hs Hu. pose proof (scan_spec now _ _ _ duration_max None Hs (answers_now now _ Hu)) as H. unfold next_queue.
  destruct (scan now (m_queues fc) (m_trc fc) duration_max None) as [r c']. exists r, c'. destruct H as [[Hc' Hd] H].
  split; [reflexivity|]. split; [exact Hc'|]. destruct H as [[-> H]|(a & -> & (front & q & Hin & H) & _)].
  - intros a. destruct (queue_at a (m_queues fc)) as [|g q'] eqn:E; [reflexivity|]. assert (Hin : (a, g :: q') ∈ m_queues fc) by (rewrite <- E; apply queue_at_elem; congruence).
    specialize (H _ _ _ Hin). pose proof (delay_range now (transmission_of g) (m_trc fc) Hu). unfold delays in H. lia.
  - exists front, q. split; [now apply elem_queue_at|]. intros b g q' E. apply (H b g q'). rewrite <- E. apply queue_at_elem. congruence.
Qed.

Lemma next_transmission_spec now fc : sorted (m_queues fc) -> usable now (m_trc fc) ->
  exists r c', next_transmission now fc = (r, with_trc c' fc) /\ usable now c' /\
    match r with
    | Some front => exists a q, selected (delays now (m_trc fc)) (fun b => queue_at b (m_queues fc)) a front q
    | None => forall a, queue_at a (m_queues fc) = []
    end.
Proof.
  intros Hs Hu. destruct (next_queue_spec now fc Hs Hu) as (r & c' & E & Hc' & H). unfold next_transmission. rewrite E.
  destruct r as [a|]; [|exists None, c'; auto]. destruct H as (front & q & H). exists (Some front), c'. cbn [with_trc m_queues].
  destruct H as [Eq H]. rewrite Eq. split; [reflexivity|]. split; [exact Hc'|]. exists a, q. now split.
Qed.

Lemma dequeue_spec now fc : sorted (m_queues fc) -> usable now (m_trc fc) ->
  exists c', usable now c' /\
    ((forall a, queue_at a (m_queues fc) = []) /\ dequeue now fc = (None, with_trc c' fc) \/
     exists a front q, selected (delays now (m_trc fc)) (fun b => queue_at b (m_queues fc)) a front q /\
       dequeue now fc = (Some front, with_queues (set_queue a q (m_queues fc)) (with_trc c' fc))).
Proof.
  intros Hs Hu. destruct (next_queue_spec now fc Hs Hu) as (r & c' & E & Hc' & H). exists c'. split; [exact Hc'|]. unfold dequeue. rewrite E.
  destruct r as [a|]; [right|left; now split]. destruct H as (front & q & H). exists a, front, q. split; [exact H|]. cbn [with_trc m_queues].
  destruct H as [Eq _]. now rewrite Eq.
Qed.

(** * Requests and triggers *)

(** The events of dropping what has expired. *)
Definition drops (now : time) (fc : FlowControl) : list Event := flat_map (expired_in now) (m_queues fc).
Definition sends (r : DataRequest) (p : Packet) : list Event :=
  let ac := map_profile_onto_ac (dcc_profile r) in
  [packet_transmit_hook ac p; access_request (mk_AccessRequest (ether_type r) (source r) (destination r) ac) p].

Definition all_empty (fc : FlowControl) : Prop := forall a, queue_at a (m_queues fc) = [].

(** The queue of a category without its expired packets. *)
Definition fresh_at (now : time) (fc : FlowControl) (a : AccessCategory) : Queue := remaining now (queue_at a (m_queues fc)).

Lemma expire_spec now fc : sorted (m_queues fc) ->
  let fc' := drop_expired now fc in
  sorted (m_queues fc') /\ m_trc fc' = m_trc fc /\ m_queue_length fc' = m_queue_length fc /\ m_events fc' = m_events fc ++ drops now fc /\
  forall a, queue_at a (m_queues fc') = fresh_at now fc a.
Proof. intros Hs. cbn. split_all; auto; [now apply expired_sorted|intros a; apply queue_at_expired]. Qed.

(** A trigger is scheduled as soon as the control allows. *)
Definition woken (s s' : World) : Prop :=
  exists d, 0 <= d < duration_max /\ s'.1 = schedule_after d on_trigger (Some self) s.1.

Lemma schedule_trigger_spec tx rt fc : usable (m_now rt) (m_trc fc) ->
  exists c', usable (m_now rt) c' /\ schedule_trigger tx (rt, fc) =
    (schedule_after (delays (m_now rt) (m_trc fc) tx) on_trigger (Some self) rt, with_trc c' fc).
Proof.
  intros Hu. unfold schedule_trigger, delays. pose proof (usable_delay (m_now rt) tx _ Hu) as H. destruct (delay _ _ _) as [d c']. exists c'. auto.
Qed.

(** Whether a packet of category [ac] may go at once. *)
Definition free_for (now : time) (ac : AccessCategory) (tx : Transmission) (fc : FlowControl) : Prop :=
  (forall a, ac_value ac <= ac_value a -> fresh_at now fc a = []) /\ delays now (m_trc fc) tx = 0.

Definition well_kept (now : time) (fc : FlowControl) : Prop := sorted (m_queues fc) /\ usable now (m_trc fc).

Lemma transmit_immediately_spec now tx fc : well_kept now fc ->
  exists b c', transmit_immediately now tx (drop_expired now fc) = (b, with_trc c' (drop_expired now fc)) /\ usable now c' /\
    (b = true <-> free_for now (map_profile_onto_ac (profile tx)) tx fc).
Proof.
  intros [Hs Hu]. destruct (expire_spec now fc Hs) as (Hs1 & Et & _ & _ & Hq). unfold transmit_immediately.
  pose proof (contention_spec (map_profile_onto_ac (profile tx)) _ Hs1) as Hc. destruct (contention _ _).
  - exists false, (m_trc fc). rewrite <- Et at 1. split; [now destruct (drop_expired now fc)|]. split; [exact Hu|]. split; [discriminate|].
    intros [H _]. destruct (proj1 Hc eq_refl) as (a & Ha & Hne). unfold nonempty_at in Hne. rewrite Hq, H in Hne by exact Ha. contradiction.
  - rewrite Et. pose proof (usable_delay now tx _ Hu) as Hu'. unfold free_for, delays. destruct (delay now tx (m_trc fc)) as [d c'].
    exists (d =? 0), c'. split; [reflexivity|]. split; [exact Hu'|]. cbn [fst]. rewrite Z.eqb_eq. split; [|tauto]. intros ->. split; [|reflexivity].
    intros a Ha. destruct (fresh_at now fc a) eqn:E; [reflexivity|]. assert (false = true); [|discriminate].
    apply Hc. exists a. split; [exact Ha|]. unfold nonempty_at. rewrite Hq, E. discriminate.
Qed.

Definition kept (n : nat) (q : Queue) : Queue := if (n =? 0)%nat then q else drop (S (length q) - n) q.

(** The outcome of enqueueing into queues [fresh]. *)
Lemma enqueue_spec r p rt fc : well_kept (m_now rt) fc ->
  let ac := map_profile_onto_ac (dcc_profile r) in
  let pending := mk_Pending (m_now rt + lifetime r) r p in
  let q := queue_at ac (m_queues fc) in
  let s' := enqueue r p (rt, fc) in
  well_kept (m_now rt) s'.2 /\ m_queue_length s'.2 = m_queue_length fc /\
  (forall a, queue_at a (m_queues s'.2) = if decide (a = ac) then kept (m_queue_length fc) q ++ [pending] else queue_at a (m_queues fc)) /\
  m_events s'.2 = m_events fc ++ replicate (length q - length (kept (m_queue_length fc) q)) (packet_drop_hook ac p) /\
  (all_empty fc /\ s'.1 = schedule_after (delays (m_now rt) (m_trc fc) (transmission_of pending)) on_trigger (Some self) rt \/
   ~ all_empty fc /\ s'.1 = rt).
Proof.
  intros [Hs Hu]. cbn zeta. unfold enqueue. set (ac := map_profile_onto_ac _). set (pending := mk_Pending _ _ _). set (q := queue_at ac _).
  rewrite room_kept. fold (kept (m_queue_length fc) q). pose proof (empty_spec fc Hs) as He. destruct (empty fc).
  - match goal with |- context [schedule_trigger ?tx (rt, ?f)] => destruct (schedule_trigger_spec tx rt f Hu) as (c' & Hu' & ->) end. cbn.
    split; [split; [now apply set_queue_sorted|exact Hu']|]. split; [reflexivity|]. split; [intros a; now apply queue_at_set|]. split; [reflexivity|]. left. split; [exact (proj1 He eq_refl)|reflexivity].
  - cbn. split; [split; [now apply set_queue_sorted|exact Hu]|]. split; [reflexivity|]. split; [intros a; now apply queue_at_set|]. split; [reflexivity|].
    right. split; [intros H; apply He in H; discriminate|reflexivity].
Qed.

(** C28.  A request first drops what has expired.  The packet is then handed to
    the access layer at once exactly when no packet of the same or a higher
    category waits and the rate control asks for no delay; otherwise it goes
    to the end of its queue, which loses as many of its oldest packets as its
    limit demands, and the first waiting packet schedules a trigger for the
    delay of the rate control.  The other queues do not change. *)
Theorem request_spec r p rt fc : let now := m_now rt in well_kept now fc ->
  let ac := map_profile_onto_ac (dcc_profile r) in
  let pending := mk_Pending (now + lifetime r) r p in
  let s' := request r p (rt, fc) in
  let fresh := fresh_at now fc in
  well_kept now s'.2 /\ m_queue_length s'.2 = m_queue_length fc /\
  (free_for now ac (TransmissionLite (dcc_profile r) (size p)) fc /\ s'.1 = rt /\
     m_events s'.2 = m_events fc ++ drops now fc ++ sends r p /\ (forall a, queue_at a (m_queues s'.2) = fresh a) \/
   ~ free_for now ac (TransmissionLite (dcc_profile r) (size p)) fc /\
     (forall a, queue_at a (m_queues s'.2) = if decide (a = ac) then kept (m_queue_length fc) (fresh ac) ++ [pending] else fresh a) /\
     m_events s'.2 = m_events fc ++ drops now fc ++ replicate (length (fresh ac) - length (kept (m_queue_length fc) (fresh ac))) (packet_drop_hook ac p) /\
     ((forall a, fresh a = []) /\ woken (rt, fc) s' \/ ~ (forall a, fresh a = []) /\ s'.1 = rt)).
Proof.
  cbn zeta. intros Hw. pose proof (expire_spec (m_now rt) fc (proj1 Hw)) as (Hs1 & Et & En & Ee & Hq).
  destruct (transmit_immediately_spec (m_now rt) (TransmissionLite (dcc_profile r) (size p)) fc Hw) as (b & c' & E & Hu' & Hb).
  change (profile (TransmissionLite (dcc_profile r) (size p))) with (dcc_profile r) in Hb. unfold request. rewrite E. destruct b.
  - split; [split; [exact Hs1|now apply usable_notify]|]. split; [exact En|]. left. split; [now apply Hb|]. split; [reflexivity|]. cbn [snd].
    split; [cbn; now rewrite <- app_assoc|exact Hq].
  - destruct (enqueue_spec r p rt (with_trc c' (drop_expired (m_now rt) fc))) as (Hw' & En' & Hq' & Ee' & Hwake); [split; [exact Hs1|exact Hu']|].
    split; [exact Hw'|]. split; [exact En'|]. right. split; [intros Hf; apply Hb in Hf; discriminate|].
    cbn [with_trc m_queues m_queue_length m_events] in Hq', Ee', Hwake.
    split; [intros a; rewrite Hq', Hq, En; destruct (decide (a = _)); [reflexivity|apply Hq]|].
    split; [rewrite Ee', Ee, Hq, En; now rewrite <- app_assoc|].
    destruct Hwake as [[Ha Hwake]|[Ha ->]]; [left|right].
    + split; [intros a; rewrite <- Hq; apply Ha|]. eexists. split; [|exact Hwake]. now apply delay_range.
    + split; [|reflexivity]. intros H. apply Ha. intros a. etransitivity; [apply queue_at_expired|apply H].
Qed.

Lemma selected_ext D f g a front q : (forall b, f b = g b) -> selected D f a front q -> selected D g a front q.
Proof. intros E [H1 H2]. split; [now rewrite <- E|]. intros b x q'. rewrite <- E. apply H2. Qed.

Lemma fresh_not_expired now fc a p : p ∈ fresh_at now fc a -> ~ expiry p < now.
Proof. intros H. now apply list_elem_of_filter in H. Qed.

(** Waking up for what is left. *)
Definition wake_next (s : World) : World :=
  let '(next, fc) := next_transmission (m_now s.1) s.2 in
  match next with Some tx => schedule_trigger (transmission_of tx) (s.1, fc) | None => (s.1, fc) end.

Lemma wake_next_spec rt fc : well_kept (m_now rt) fc ->
  exists c', usable (m_now rt) c' /\ (wake_next (rt, fc)).2 = with_trc c' fc /\
    (all_empty fc /\ (wake_next (rt, fc)).1 = rt \/ ~ all_empty fc /\ woken (rt, fc) (wake_next (rt, fc))).
Proof.
  intros [Hs Hu]. destruct (next_transmission_spec (m_now rt) fc Hs Hu) as (r & c1 & E & Hu1 & H). unfold wake_next. cbn [fst snd]. rewrite E.
  destruct r as [front|].
  - destruct H as (a & q & Hsel & _). destruct (schedule_trigger_spec (transmission_of front) rt (with_trc c1 fc) Hu1) as (c' & Hu' & Es). rewrite Es.
    exists c'. split; [exact Hu'|]. split; [reflexivity|]. right. split; [intros Ha; specialize (Ha a); cbn in Hsel; congruence|].
    eexists. split; [|reflexivity]. now apply delay_range.
  - exists c1. split; [exact Hu1|]. split; [reflexivity|]. left. now split.
Qed.

(** C29.  A trigger drops what has expired and hands one packet to the access
    layer, if any is left: the head of the queue with the least delay, of
    several such the one of the highest category, and never an expired one.
    Nothing else changes, and as long as packets wait the next trigger is
    scheduled for the delay of the rate control. *)
Theorem trigger_spec rt fc : let now := m_now rt in well_kept now fc ->
  let s' := trigger (rt, fc) in
  let fresh := fresh_at now fc in
  well_kept now s'.2 /\ m_queue_length s'.2 = m_queue_length fc /\
  ((forall a, fresh a = []) /\ all_empty s'.2 /\ m_events s'.2 = m_events fc ++ drops now fc /\ s'.1 = rt \/
   exists a front q, selected (delays now (m_trc fc)) fresh a front q /\ ~ expiry front < now /\
     (forall b, queue_at b (m_queues s'.2) = if decide (b = a) then q else fresh b) /\
     m_events s'.2 = m_events fc ++ drops now fc ++ sends (request_of front) (packet front) /\
     (all_empty s'.2 /\ s'.1 = rt \/ ~ all_empty s'.2 /\ woken (rt, fc) s')).
Proof.
  cbn zeta. intros [Hs Hu]. pose proof (expire_spec (m_now rt) fc Hs) as (Hs1 & Et & En & Ee & Hq).
  set (fc1 := drop_expired (m_now rt) fc) in *. assert (Hu1 : usable (m_now rt) (m_trc fc1)) by now rewrite Et.
  assert (Etr : trigger (rt, fc) =
    let '(transmission, fc) := dequeue (m_now rt) fc1 in
    wake_next (rt, match transmission with
      | Some tx => transmit (request_of tx) (packet tx) (with_trc (notify (m_now rt) (transmission_of tx) (m_trc fc)) fc) | None => fc end)) by reflexivity.
  destruct (dequeue_spec (m_now rt) fc1 Hs1 Hu1) as (c1 & Hc1 & [[He Ed]|(a & front & q & Hsel & Ed)]); rewrite Ed in Etr; cbv beta iota in Etr; rewrite Etr; clear Etr.
  - destruct (wake_next_spec rt (with_trc c1 fc1)) as (c' & Hu' & E2 & H); [now split|]. rewrite E2. split; [now split|]. split; [exact En|]. left.
    split; [intros a; rewrite <- Hq; apply He|]. split; [exact He|]. split; [exact Ee|]. destruct H as [[_ H]|[H _]]; [exact H|]. now destruct H.
  - set (fc2 := transmit _ _ _). assert (Hq2 : forall b, queue_at b (m_queues fc2) = if decide (b = a) then q else fresh_at (m_now rt) fc b).
    { intros b. cbn. rewrite queue_at_set by exact Hs1. destruct (decide (b = a)); [reflexivity|apply Hq]. }
    destruct (wake_next_spec rt fc2) as (c' & Hu' & E2 & H); [split; [now apply set_queue_sorted|now apply usable_notify]|]. rewrite E2.
    split; [split; [now apply set_queue_sorted|exact Hu']|]. split; [exact En|]. right. exists a, front, q. rewrite Et in Hsel.
    apply (selected_ext _ _ _ _ _ _ Hq) in Hsel. split; [exact Hsel|].
    split; [apply (fresh_not_expired _ fc a); rewrite (proj1 Hsel); left|]. split; [exact Hq2|]. split; [|exact H].
    cbn. now rewrite <- app_assoc.
Qed.

(** * Over time *)

Definition categories : list AccessCategory := [VO; VI; BE; BK].

(** A sum over the queues. *)
Definition total (g : AccessCategory -> Queue -> nat) (qs : Queues) : nat := list_sum (map (fun a => g a (queue_at a qs)) categories).

Lemma total_sum g qs : sorted qs -> (forall a, g a [] = 0%nat) -> list_sum (map (fun kv => g kv.1 kv.2) qs) = total g qs.
Proof.
  intros Hs Hg. unfold total, categories. induction Hs as [|[b q] qs Hs IH Hb]; cbn [map list_sum queue_at fst snd]; [now rewrite !Hg|].
  assert (Hq : queue_at b qs = []) by (apply queue_at_absent; eapply Forall_impl; [exact Hb|]; cbn; auto).
  change (list_sum (g b q :: ?l)) with (g b q + list_sum l)%nat. rewrite IH.
  destruct b; cbn [map list_sum fold_right]; rewrite Hq, Hg; repeat case_decide; try congruence; lia.
Qed.

Definition waiting (fc : FlowControl) : nat := total (fun _ q => length q) (m_queues fc).

Lemma waiting_ext fc fc' : (forall a, queue_at a (m_queues fc) = queue_at a (m_queues fc')) -> waiting fc = waiting fc'.
Proof. intros H. unfold waiting, total. f_equal. apply map_ext. intros a. now rewrite H. Qed.

Definition is_sent (e : Event) : bool := match e with access_request _ _ => true | _ => false end.
Definition is_dropped (e : Event) : bool := match e with packet_drop_hook _ _ => true | _ => false end.
Definition count (f : Event -> bool) (l : list Event) : nat := length (List.filter f l).

Lemma count_app f l1 l2 : count f (l1 ++ l2) = (count f l1 + count f l2)%nat.
Proof. unfold count. now rewrite List.filter_app, length_app. Qed.

(** Packets that were handed over or reported as dropped. *)
Definition gone (l : list Event) : nat := (count is_sent l + count is_dropped l)%nat.

Lemma gone_app l1 l2 : gone (l1 ++ l2) = (gone l1 + gone l2)%nat.
Proof. unfold gone. rewrite !count_app. lia. Qed.

Lemma gone_sends r p : gone (sends r p) = 1%nat.
Proof. reflexivity. Qed.

Lemma gone_hooks f (l : list PendingTransmission) : (forall x, exists ac p, f x = packet_drop_hook ac p) -> gone (map f l) = length l.
Proof.
  intros Hf. unfold gone, count. induction l as [|x l IH]; [reflexivity|]. cbn [map List.filter]. destruct (Hf x) as (ac & p & ->). cbn in *. lia.
Qed.

Lemma gone_replicate n ac p : gone (replicate n (packet_drop_hook ac p)) = n.
Proof. unfold gone, count. induction n as [|n IH]; [reflexivity|]. cbn [replicate List.filter is_sent is_dropped length]. lia. Qed.

Lemma filter_split (now : time) (q : Queue) : (length (filter (fun p => (expiry p < now)%Z) q) + length (remaining now q) = length q)%nat.
Proof.
  unfold remaining. induction q as [|p q IH]; [reflexivity|]. rewrite !filter_cons. destruct (decide (expiry p < now)) as [H|H].
  - rewrite (decide_False (P := ~ expiry p < now)) by tauto. cbn [length]. lia.
  - rewrite (decide_True (P := ~ expiry p < now)) by assumption. cbn [length]. lia.
Qed.

Lemma gone_drops now fc : sorted (m_queues fc) -> (gone (drops now fc) + list_sum (map (fun b => length (fresh_at now fc b)) categories) = waiting fc)%nat.
Proof.
  intros Hs. change (list_sum (map (fun b => length (fresh_at now fc b)) categories)) with (total (fun _ q => length (remaining now q)) (m_queues fc)). unfold waiting. rewrite <- !total_sum by auto. unfold drops. clear Hs. induction (m_queues fc) as [|kv qs IH]; [reflexivity|].
  cbn [flat_map map]. rewrite gone_app. unfold expired_in at 1. rewrite gone_hooks by eauto. cbn [list_sum fold_right map] in *.
  pose proof (filter_split now kv.2). unfold list_sum in IH. lia.
Qed.

Lemma waiting_update fc (f : AccessCategory -> Queue) a q : (forall b, queue_at b (m_queues fc) = if decide (b = a) then q else f b) ->
  (waiting fc + length (f a) = list_sum (map (fun b => length (f b)) categories) + length q)%nat.
Proof.
  intros H. unfold waiting, total, categories. cbn [map list_sum fold_right]. rewrite !H. destruct a; repeat case_decide; try congruence; lia.
Qed.

Lemma kept_length n q : (length (kept n q) <= length q)%nat.
Proof. unfold kept. destruct (n =? 0)%nat; [lia|]. rewrite length_drop. lia. Qed.

(** Packets are neither lost nor multiplied: a request adds one. *)
Lemma request_accounts r p rt fc : well_kept (m_now rt) fc ->
  (gone (m_events (request r p (rt, fc)).2) + waiting (request r p (rt, fc)).2 = S (gone (m_events fc) + waiting fc))%nat.
Proof.
  intros Hw. destruct (request_spec r p rt fc Hw) as (_ & _ & [(_ & _ & Ee & Hq)|(_ & Hq & Ee & _)]); rewrite Ee, !gone_app; pose proof (gone_drops (m_now rt) fc (proj1 Hw)) as Hg.
  - rewrite gone_sends. replace (waiting (request r p (rt, fc)).2) with (list_sum (map (fun b => length (fresh_at (m_now rt) fc b)) categories)); [lia|].
    unfold waiting, total, categories. cbn [map]. now rewrite !Hq.
  - rewrite gone_replicate. apply waiting_update in Hq. rewrite length_app in Hq. cbn [length] in Hq.
    set (ac := map_profile_onto_ac _) in *. pose proof (kept_length (m_queue_length fc) (fresh_at (m_now rt) fc ac)).
    lia.
Qed.

Lemma trigger_accounts rt fc : well_kept (m_now rt) fc ->
  (gone (m_events (trigger (rt, fc)).2) + waiting (trigger (rt, fc)).2 = gone (m_events fc) + waiting fc)%nat /\
  (waiting (trigger (rt, fc)).2 <= waiting fc)%nat /\
  (all_empty (trigger (rt, fc)).2 \/ (waiting (trigger (rt, fc)).2 < waiting fc)%nat).
Proof.
  intros Hw. pose proof (gone_drops (m_now rt) fc (proj1 Hw)) as Hg.
  destruct (trigger_spec rt fc Hw) as (_ & _ & [(Hf & He & Ee & _)|(a & front & q & [Hsel _] & _ & Hq & Ee & _)]); rewrite Ee, !gone_app.
  - assert (Ew : waiting (trigger (rt, fc)).2 = 0%nat) by (unfold waiting, total, categories; cbn [map list_sum fold_right]; now rewrite !He).
    cbn [categories map list_sum fold_right] in Hg. rewrite !Hf in Hg. cbn [length] in Hg. rewrite Ew. split; [lia|]. split; [lia|]. now left.
  - rewrite gone_sends. apply waiting_update in Hq. rewrite Hsel in Hq. cbn [length] in Hq. split; [lia|]. split; [lia|]. right. lia.
Qed.

(** While packets wait, a trigger is in the queue of the runtime. *)
Definition armed (s : World) : Prop := all_empty s.2 \/ exists x, x ∈ m_queue s.1 /\ callback x = on_trigger /\ scope x = Some self.

Lemma woken_armed s s' : woken s s' -> armed s'.
Proof.
  intros (d & _ & E). right. rewrite E. exists (mk_ScheduledCallback (m_now s.1 + d) on_trigger (Some self)). split; [|now split].
  unfold schedule_after, schedule, emplace. cbn [m_queue]. rewrite (insert_by_Permutation deadline). left.
Qed.

Lemma woken_runtime s s' : woken s s' -> ordered (m_queue s.1) -> m_now s'.1 = m_now s.1 /\ ordered (m_queue s'.1) /\ (due s'.1 <= S (due s.1))%nat.
Proof.
  intros (d & _ & ->) Ho. split; [reflexivity|]. split; [now apply insert_by_ordered|]. unfold due, schedule_after, schedule, emplace. cbn [m_queue m_now].
  rewrite (insert_by_Permutation deadline), filter_cons. destruct (decide _); cbn [length]; lia.
Qed.

(** Flow control on its runtime: requests, due triggers, the passing of time,
    rescheduling, a new limit of the queues, and a rate control that changes
    with the channel load.  [n] counts the requests. *)
Inductive reaches : nat -> World -> Prop :=
| reaches_start rt c : m_queue rt = [] -> usable (m_now rt) c -> reaches 0 (rt, create c)
| reaches_request n s r p : reaches n s -> reaches (S n) (request r p s)
| reaches_trigger n rt x q fc : reaches n (rt, fc) -> m_queue rt = x :: q -> deadline x <= m_now rt ->
    reaches n (trigger (mk_ManualRuntime (m_now rt) q, fc))
| reaches_wait n rt fc t : reaches n (rt, fc) -> m_now rt <= t -> reaches n (mk_ManualRuntime t (m_queue rt), fc)
| reaches_reschedule n s : reaches n s -> reaches n (reschedule s)
| reaches_limit n rt fc l : reaches n (rt, fc) -> reaches n (rt, queue_length l fc)
| reaches_control n rt fc c : reaches n (rt, fc) -> usable (m_now rt) c -> reaches n (rt, with_trc c fc).

(** Packets wait in the queue of their category. *)
Definition filed (fc : FlowControl) : Prop :=
  forall a p, p ∈ queue_at a (m_queues fc) -> map_profile_onto_ac (dcc_profile (request_of p)) = a.

Definition flow_inv (n : nat) (s : World) : Prop :=
  ordered (m_queue s.1) /\ well_kept (m_now s.1) s.2 /\ armed s /\ filed s.2 /\ (gone (m_events s.2) + waiting s.2 = n)%nat.

Lemma fresh_filed now fc a p : filed fc -> p ∈ fresh_at now fc a -> map_profile_onto_ac (dcc_profile (request_of p)) = a.
Proof. intros Hf [_ H]%list_elem_of_filter. now apply Hf. Qed.

Lemma request_filed r p rt fc : well_kept (m_now rt) fc -> filed fc -> filed (request r p (rt, fc)).2.
Proof.
  intros Hw Hf a x Hx. destruct (request_spec r p rt fc Hw) as (_ & _ & [(_ & _ & _ & Hq)|(_ & Hq & _)]); rewrite Hq in Hx; [now apply fresh_filed in Hx|].
  destruct (decide _) as [->|]; [|now apply fresh_filed in Hx]. apply elem_of_app in Hx as [Hx| ->%list_elem_of_singleton]; [|reflexivity].
  apply (fresh_filed (m_now rt) fc); [exact Hf|]. unfold kept in Hx. destruct (_ =? 0)%nat; [exact Hx|]. now apply (subseteq_drop _) in Hx.
Qed.

Lemma trigger_filed rt fc : well_kept (m_now rt) fc -> filed fc -> filed (trigger (rt, fc)).2.
Proof.
  intros Hw Hf a x Hx. destruct (trigger_spec rt fc Hw) as (_ & _ & [(_ & He & _)|(b & front & q & [Hsel _] & _ & Hq & _)]).
  - rewrite He in Hx. now apply elem_of_nil in Hx.
  - rewrite Hq in Hx. apply (fresh_filed (m_now rt) fc); [exact Hf|]. destruct (decide (a = b)) as [->|]; [rewrite Hsel; now right|exact Hx].
Qed.

Lemma request_inv n s r p : flow_inv n s -> flow_inv (S n) (request r p s).
Proof.
  destruct s as [rt fc]. intros (Ho & Hw & Ha & Hf & Hn). cbn [fst snd] in *. pose proof (request_accounts r p rt fc Hw) as Hc.
  pose proof (request_filed r p rt fc Hw Hf) as Hf'. destruct (request_spec r p rt fc Hw) as (Hw' & _ & H).
  assert (Hrt : armed (request r p (rt, fc)) /\ ordered (m_queue (request r p (rt, fc)).1) /\ m_now (request r p (rt, fc)).1 = m_now rt).
  { destruct H as [(Hfree & Ert & _ & Hq)|(_ & _ & _ & [[_ Hwk]|[Hne Ert]])].
    - rewrite Ert. split; [|now split]. destruct Ha as [Ha|Ha]; [left|right; now rewrite Ert]. intros a. rewrite Hq. unfold fresh_at. now rewrite (Ha a : queue_at a (m_queues fc) = []).
    - split; [now apply woken_armed in Hwk|]. apply woken_runtime in Hwk; [|exact Ho]. tauto.
    - rewrite Ert. split; [|now split]. right. rewrite Ert. destruct Ha as [Ha|Ha]; [|exact Ha]. exfalso. apply Hne. intros a. unfold fresh_at. now rewrite (Ha a : queue_at a (m_queues fc) = []). }
  destruct Hrt as (Ha' & Ho' & En). unfold flow_inv. rewrite En. split_all; auto; try apply Hw'. lia.
Qed.

Lemma trigger_inv n now q fc : ordered q -> well_kept now fc -> filed fc -> (gone (m_events fc) + waiting fc = n)%nat ->
  let s' := trigger (mk_ManualRuntime now q, fc) in
  flow_inv n s' /\ m_now s'.1 = now /\ (due s'.1 + waiting s'.2 <= due (mk_ManualRuntime now q) + waiting fc)%nat.
Proof.
  intros Ho Hw Hf Hn s'. destruct (trigger_accounts (mk_ManualRuntime now q) fc Hw) as (Hc & Hle & Hlt). pose proof (trigger_filed (mk_ManualRuntime now q) fc Hw Hf) as Hf'.
  destruct (trigger_spec (mk_ManualRuntime now q) fc Hw) as (Hw' & _ & H). fold s' in Hc, Hle, Hlt, Hf', Hw', H. cbn [m_now] in *.
  assert (Hrt : (all_empty s'.2 /\ s'.1 = mk_ManualRuntime now q) \/ ~ all_empty s'.2 /\ woken (mk_ManualRuntime now q, fc) s') by (destruct H as [(_ & ? & _ & ?)|(? & ? & ? & _ & _ & _ & _ & ?)]; auto).
  destruct Hrt as [[He Ert]|[Hne Hwk]].
  - unfold flow_inv. rewrite Ert. cbn [m_queue m_now]. split_all; auto; try apply Hw'; [now left|lia|lia].
  - destruct (woken_runtime _ _ Hwk Ho) as (En & Ho' & Hd). cbn [fst m_now] in *. destruct Hlt as [|Hlt]; [contradiction|].
    unfold flow_inv. rewrite En. split_all; auto; try apply Hw'; [now apply woken_armed in Hwk|lia|lia].
Qed.

Lemma reschedule_spec rt fc : well_kept (m_now rt) fc ->
  exists c', usable (m_now rt) c' /\ (reschedule (rt, fc)).2 = with_trc c' fc /\
    (all_empty fc /\ (reschedule (rt, fc)).1 = rt \/ woken (Scheduler.cancel (Some self) rt, fc) (reschedule (rt, fc))).
Proof.
  intros [Hs Hu]. destruct (next_transmission_spec (m_now rt) fc Hs Hu) as (r & c1 & E & Hu1 & H). unfold reschedule. rewrite E.
  destruct r as [front|].
  - destruct (schedule_trigger_spec (transmission_of front) (Scheduler.cancel (Some self) rt) (with_trc c1 fc) Hu1) as (c' & Hu' & ->).
    exists c'. split; [exact Hu'|]. split; [reflexivity|]. right. eexists. split; [|reflexivity]. now apply delay_range.
  - exists c1. split; [exact Hu1|]. split; [reflexivity|]. left. now split.
Qed.

Lemma reschedule_inv n s : flow_inv n s -> flow_inv n (reschedule s).
Proof.
  destruct s as [rt fc]. intros (Ho & Hw & Ha & Hf & Hn). cbn [fst snd] in *. destruct (reschedule_spec rt fc Hw) as (c' & Hu' & E2 & H).
  assert (Hw' : well_kept (m_now rt) (with_trc c' fc)) by (split; [apply Hw|exact Hu']). unfold flow_inv. rewrite E2. destruct H as [[He E1]|H].
  - rewrite E1. split_all; auto; []. left. now rewrite E2.
  - pose proof (woken_armed _ _ H) as Ha'. apply woken_runtime in H as (En & Ho' & _); [|now apply filter_ordered]. rewrite En. cbn in *.
    split_all; auto; apply Hw'.
Qed.

Lemma reaches_inv n s : reaches n s -> flow_inv n s.
Proof.
  induction 1 as [rt c Hq Hu|n s r p _ IH|n rt x q fc _ IH Eq Hd|n rt fc t _ IH Ht|n s _ IH|n rt fc l _ IH|n rt fc c _ IH Hu].
  - unfold flow_inv. cbn [fst snd]. rewrite Hq. split; [apply SSorted_nil|]. split; [split; [apply SSorted_nil|exact Hu]|].
    split; [left; intros a; reflexivity|]. split; [intros a p Hp; now apply elem_of_nil in Hp|reflexivity].
  - now apply request_inv.
  - destruct IH as (Ho & Hw & _ & Hf & Hn). cbn in *. rewrite Eq in Ho. inversion Ho; subst. now apply trigger_inv.
  - destruct IH as (Ho & [Hs Hu] & Ha & Hf & Hn). cbn [fst snd] in *. repeat split; auto. now apply usable_later with (m_now rt).
  - now apply reschedule_inv.
  - exact IH.
  - destruct IH as (Ho & [Hs _] & Ha & Hf & Hn). cbn [fst snd] in *. repeat split; auto.
Qed.

(** However flow control got where it is: as many packets were handed to
    the access layer, reported as dropped or are waiting as were requested;
    each waits in the queue of its category; and while one waits, a trigger
    is in the queue of the runtime. *)
Theorem flow_control_accounts n s : reaches n s ->
  (count is_sent (m_events s.2) + count is_dropped (m_events s.2) + waiting s.2 = n)%nat /\ filed s.2 /\ armed s /\ ordered (m_queue s.1).
Proof. intros (Ho & _ & Ha & Hf & Hn)%reaches_inv. split_all; auto. Qed.

(** Advancing the runtime ends, after at most as many triggers as there are
    callbacks and waiting packets; then no trigger is due, and as long as
    packets wait the next one is scheduled for later. *)
Theorem flow_control_runs n rt fc tp : reaches n (rt, fc) -> m_now rt <= tp ->
  exists s', trigger_at (fun _ _ => trigger) (length (m_queue rt) + waiting fc) tp (rt, fc) = Some s' /\ m_now s'.1 = tp /\
    match m_queue s'.1 with [] => True | x :: _ => tp < deadline x end /\
    (all_empty s'.2 \/ exists x, x ∈ m_queue s'.1 /\ callback x = on_trigger /\ tp < deadline x) /\
    (waiting s'.2 <= waiting fc)%nat.
Proof.
  intros H Ht. apply (reaches_wait _ _ _ tp) in H; [|exact Ht]. apply reaches_inv in H. unfold trigger_at. cbn [fst snd].
  destruct (trigger_measure (fun _ _ => trigger) (fun s => flow_inv n s /\ (waiting s.2 <= waiting fc)%nat) (fun s => due s.1 + waiting s.2)%nat)
    with (fuel := (length (m_queue rt) + waiting fc)%nat) (s := (mk_ManualRuntime tp (m_queue rt), fc)) as (s' & E & [(Ho & _ & Ha & _) Hw] & En & Hx).
  - intros now x q w [(Ho & Hwk & _ & Hf & Hn) Hw] Hd. cbn [fst snd m_queue m_now] in *. inversion Ho as [|? ? Ho' _]; subst.
    destruct (trigger_inv _ now q w Ho' Hwk Hf eq_refl) as (Hi & En & Hm). destruct (trigger_accounts (mk_ManualRuntime now q) w Hwk) as (_ & Hle & _).
    split; [split; [exact Hi|lia]|]. split; [exact En|]. unfold due in *. cbn [m_queue m_now] in *. rewrite filter_cons_True by exact Hd. cbn [length]. lia.
  - split; [exact H|cbn; lia].
  - cbn [fst snd]. unfold due. cbn [m_queue]. pose proof (length_filter (fun x => deadline x <= tp) (m_queue rt)). cbn [m_now]. lia.
  - cbn [fst m_now] in *. exists s'. split; [exact E|]. split; [exact En|]. split; [exact Hx|]. split; [|exact Hw]. destruct Ha as [Ha|(x & Hin & Hcb & _)]; [now left|right].
    exists x. split; [exact Hin|]. split; [exact Hcb|]. destruct (m_queue s'.1) as [|y q]; [now apply elem_of_nil in Hin|].
    inversion Ho as [|? ? _ Hy]; subst. apply elem_of_cons in Hin as [->|Hin]; [exact Hx|]. rewrite Forall_forall in Hy. specialize (Hy x Hin). cbn in *. lia.
Qed.

End FlowControl.

(** * Examples *)

(** Packets are numbers of 100 octets; the rate is that of a quiet channel,
    one packet in 100 ms. *)
Abbreviation ex_request := (request (fun _ : Z => 100) tt 1).
Abbreviation ex_trigger := (trigger (fun _ : Z => 100) tt 1).
Abbreviation ex_reaches := (reaches (fun _ : Z => 100) tt 1).

Definition ex_control : StateMachineBudget.t Gradual.Machine := StateMachineBudget.mk (Gradual.create Gradual.etsiStates1ms) None.
Definition ex_data (dp : Profile) (life : Z) : DataRequest := mk_DataRequest 35143 (repeat 0 6) cBroadcastMacAddress dp life.
Definition ex_at (t : Z) {W} (s : @ManualRuntime unit * W) : @ManualRuntime unit * W := (mk_ManualRuntime t (m_queue s.1), s.2).
Definition ex_sent {T} (fc : FlowControl (Packet := Z) (T := T)) : list Z :=
  flat_map (fun e => match e with access_request _ p => [p] | _ => [] end) (m_events fc).

Definition ex0 := (@ManualRuntime_create unit 0, create (Packet := Z) ex_control).
(** One packet is sent, the next two wait, the second in a higher category. *)
Definition ex1 := ex_request (ex_data DP2 (seconds 1)) 10 ex0.
Definition ex2 := ex_request (ex_data DP2 (seconds 1)) 11 (ex_at (ms 10) ex1).
Definition ex3 := ex_request (ex_data DP1 (seconds 1)) 12 (ex_at (ms 20) ex2).

Lemma ex_at_reaches n t (s : @ManualRuntime unit * FlowControl (Packet := Z) (T := StateMachineBudget.t Gradual.Machine)) :
  ex_reaches n s -> (m_now s.1 <=? t) = true -> ex_reaches n (ex_at t s).
Proof. destruct s as [rt fc]. intros H Ht. apply reaches_wait; [exact H|]. now apply Z.leb_le. Qed.

Lemma ex0_reaches : ex_reaches 0 ex0.
Proof. apply reaches_start; [reflexivity|]. split; [vm_compute; split; [discriminate|reflexivity]|discriminate]. Qed.

Lemma ex2_reaches : ex_reaches 2 ex2.
Proof.
  unfold ex2. apply reaches_request, ex_at_reaches; [|vm_compute; reflexivity]. unfold ex1. apply reaches_request, ex0_reaches.
Qed.

Lemma ex3_reaches : ex_reaches 3 ex3.
Proof. unfold ex3. apply reaches_request, ex_at_reaches; [exact ex2_reaches|vm_compute; reflexivity]. Qed.

Lemma ex_well_kept n t (s : @ManualRuntime unit * FlowControl (Packet := Z) (T := StateMachineBudget.t Gradual.Machine)) :
  ex_reaches n s -> (m_now s.1 <=? t) = true -> well_kept t s.2.
Proof. intros H Ht. apply (ex_at_reaches n t) in H; [|exact Ht]. apply reaches_inv in H. apply H. Qed.

Lemma request_spec_witness :
  let s' := ex_request (ex_data DP1 (seconds 1)) 12 (ex_at (ms 20) ex2) in
  ex_sent s'.2 = [10] /\ map packet (queue_at VI (m_queues s'.2)) = [12] /\ map packet (queue_at BE (m_queues s'.2)) = [11].
Proof.
  cbn zeta. assert (Hw : well_kept (ms 20) ex2.2).
  { apply (ex_well_kept 2 (ms 20) ex2); [|vm_compute; reflexivity]. exact ex2_reaches. }
  destruct (request_spec (fun _ : Z => 100) tt 1 (ex_data DP1 (seconds 1)) 12 (mk_ManualRuntime (ms 20) (m_queue ex2.1)) ex2.2 Hw) as (_ & _ & [([_ Hd] & _)|(_ & Hq & _)]).
  - vm_compute in Hd. discriminate Hd.
  - split; [vm_compute; reflexivity|]. split; unfold ex_at; rewrite Hq; vm_compute; reflexivity.
Defined.

Lemma trigger_spec_witness :
  let s' := ex_trigger (mk_ManualRuntime (ms 100) [], ex3.2) in
  map packet (queue_at VI (m_queues s'.2)) = [] /\ map packet (queue_at BE (m_queues s'.2)) = [11] /\ ex_sent s'.2 = [10; 12].
Proof.
  cbn zeta. assert (Hw : well_kept (ms 100) ex3.2).
  { apply (ex_well_kept 3 (ms 100) ex3 ex3_reaches). vm_compute. reflexivity. }
  assert (EBK : fresh_at (ms 100) ex3.2 BK = []) by (vm_compute; reflexivity). assert (EVO : fresh_at (ms 100) ex3.2 VO = []) by (vm_compute; reflexivity).
  assert (EBE : fresh_at (ms 100) ex3.2 BE = [mk_Pending (ms 1010) (ex_data DP2 (seconds 1)) 11]) by (vm_compute; reflexivity).
  assert (EVI : fresh_at (ms 100) ex3.2 VI = [mk_Pending (ms 1020) (ex_data DP1 (seconds 1)) 12]) by (vm_compute; reflexivity).
  pose proof (trigger_spec (fun _ : Z => 100) tt 1 (mk_ManualRuntime (ms 100) []) ex3.2 Hw) as Ht. cbv zeta in Ht. cbn [m_now] in Ht.
  set (fresh := fresh_at (ms 100) ex3.2) in *. clearbody fresh.
  destruct Ht as (_ & _ & [(Hf & _)|(a & front & q & [E H] & _ & Hq & Ee & _)]).
  - rewrite Hf in EVI. discriminate EVI.
  - assert (Ha : a = VI).
    { destruct a; [rewrite EBK in E; discriminate E| |reflexivity|rewrite EVO in E; discriminate E]. exfalso. rewrite EBE in E. injection E as <- _.
      destruct (H VI _ _ EVI) as [_ Hlt]. specialize (Hlt eq_refl). vm_compute in Hlt. discriminate Hlt. }
    subst a. rewrite EVI in E. injection E as <- <-. rewrite !Hq. split; [reflexivity|]. split; [rewrite decide_False by discriminate; now rewrite EBE|].
    unfold ex_sent. rewrite Ee. vm_compute. reflexivity.
Defined.

Lemma flow_control_accounts_witness : waiting ex3.2 = 2%nat /\ count is_sent (m_events ex3.2) = 1%nat /\ armed tt 1 ex3.
Proof.
  destruct (flow_control_accounts (fun _ : Z => 100) tt 1 3 ex3 ex3_reaches) as (_ & _ & H & _).
  split; [vm_compute; reflexivity|]. split; [vm_compute; reflexivity|exact H].
Defined.

Lemma flow_control_runs_witness :
  exists s', trigger_at (fun _ _ => ex_trigger) 3 (ms 100) ex3 = Some s' /\ (waiting s'.2 <= 2)%nat /\
    match m_queue s'.1 with [] => True | x :: _ => ms 100 < deadline x end.
Proof.
  destruct (flow_control_runs (fun _ : Z => 100) tt 1 3 ex3.1 ex3.2 (ms 100)) as (s' & E & _ & Hx & _ & Hw).
  - rewrite <- surjective_pairing. exact ex3_reaches.
  - vm_compute. discriminate.
  - exists s'. split; [|split; [exact Hw|exact Hx]]. rewrite <- E, <- surjective_pairing. reflexivity.
Defined.

(** A packet that expires in its queue leaves its trigger behind, and the next
    packet schedules another: when both are due, two packets go out at once,
    although the control asks for 100 ms between them. *)
Definition ex_left := ex_request (ex_data DP2 (seconds 1)) 13
  (ex_at (ms 50) (ex_request (ex_data DP2 (seconds 1)) 12 (ex_at (ms 40) (ex_request (ex_data DP2 (ms 20)) 11 (ex_at (ms 10) ex1))))).

(** What flow control does not keep to: trigger() sends without asking the
    rate control again, so that a trigger left behind by an expired packet
    sends a packet at once after another; and when a full queue gives up its
    oldest packet, the hook is told of the new one. *)
Theorem flow_control_deviations :
  (exists s', trigger_at (fun _ _ => ex_trigger) 5 (ms 100) ex_left = Some s' /\ ex_sent s'.2 = [10; 12; 13]) /\
  (delay (ms 100) (TransmissionLite DP2 100) (m_trc (ex_trigger (ex_at (ms 100) ex_left)).2)).1 = ms 100 /\
  let full := ex_request (ex_data DP2 (seconds 1)) 12 (ex2.1, queue_length 1 ex2.2) in
  map packet (queue_at BE (m_queues full.2)) = [12] /\ last (m_events full.2) = Some (packet_drop_hook BE 12).
Proof. split; [eexists; split; [vm_compute; reflexivity|reflexivity]|]. vm_compute. auto. Qed.
