(* ===== verification/Packets.v ===== *)
(** Packets between the layers: net/osi_layer.hpp, net/cohesive_packet.cpp,
    net/chunk_packet.cpp and the duplication of net/packet.cpp.

    An iterator into a buffer is its position; a moved layer of a ChunkPacket
    is left empty, as merge() sees to. *)

From S2P Require Import Prelude.
From stdpp Require Import gmap.

Open Scope Z_scope.

(** * Layers *)

Abbreviation OsiLayer := nat.
Definition Physical : OsiLayer := 1%nat.
Definition Link : OsiLayer := 2%nat.
Definition Network : OsiLayer := 3%nat.
Definition Transport : OsiLayer := 4%nat.
Definition Session : OsiLayer := 5%nat.
Definition Presentation : OsiLayer := 6%nat.
Definition Application : OsiLayer := 7%nat.
Definition max_osi_layer : OsiLayer := Application.
Definition osi_layers : list OsiLayer := seq Physical 7.

Definition osi_layer_range (from to : OsiLayer) : list OsiLayer :=
  if decide (from <= to)%nat then seq from (to - from + 1) else [].

(** * CohesivePacket *)

Module CohesivePacket.

Record t := mk { m_buffer : list Z; m_iterators : list nat }.

Definition iterator (self : t) (i : nat) : nat := nth i (m_iterators self) 0%nat.

(** The two loops of reset_iterators. *)
Definition reset_iterators (ins_layer : OsiLayer) (buffer : list Z) : list nat :=
  replicate ins_layer 0%nat ++ replicate (max_osi_layer + 1 - ins_layer) (length buffer).
Definition create (buffer : list Z) (layer : OsiLayer) : t := mk buffer (reset_iterators layer buffer).

(** get() and operator[]: the octets between two iterators. *)
Definition get (self : t) (layer : OsiLayer) : list Z :=
  take (iterator self layer - iterator self (layer - 1)) (drop (iterator self (layer - 1)) (m_buffer self)).

Definition size_range (self : t) (from to : OsiLayer) : Z :=
  let dist := Z.of_nat (iterator self to) - Z.of_nat (iterator self (from - 1)) in
  if dist <? 0 then 0 else dist.
Definition size_layer (self : t) (layer : OsiLayer) : Z := Z.of_nat (length (get self layer)).
Definition size (self : t) : Z := Z.of_nat (iterator self max_osi_layer) - Z.of_nat (iterator self 0).

(** set_boundary(); no result when its assertion fails. *)
Definition set_boundary (layer : OsiLayer) (bytes : nat) (self : t) : option t :=
  if decide (bytes <= length (get self layer))%nat then
    Some (mk (m_buffer self) (<[layer := (iterator self (layer - 1) + bytes)%nat]> (m_iterators self)))
  else None.

(** The iterators from [from_idx] on are moved back to the end. *)
Definition clamp (from_idx : nat) (stop : nat) (its : list nat) : list nat :=
  imap (fun i it => if decide (from_idx <= i)%nat then Nat.min it stop else it) its.

(** trim(); no result when one of its assertions fails. *)
Definition trim (from : OsiLayer) (bytes : nat) (self : t) : option t :=
  self' ← (if Z.of_nat bytes <? size_range self from max_osi_layer then
      let from_idx := (from - 1)%nat in
      let stop := (iterator self from_idx + bytes)%nat in
      if decide (iterator self 0 <= stop)%nat then
        Some (mk (m_buffer self) (clamp from_idx stop (<[max_osi_layer := stop]> (m_iterators self))))
      else None
    else Some self);
  if decide (size_range self' from max_osi_layer <= Z.of_nat bytes) then Some self' else None.

(** rebuild_iterators(): the iterators of a copy, from the differences. *)
Fixpoint rebuild_iterators (prev next : nat) (others : list nat) : list nat :=
  match others with
  | [] => []
  | it :: others' => let next' := (next + it - prev)%nat in next' :: rebuild_iterators it next' others'
  end.
Definition copy (other : t) : t :=
  mk (m_buffer other)
     (match m_iterators other with [] => [] | it :: its => 0%nat :: rebuild_iterators it 0 its end).

(** The iterators ascend from the begin of the buffer to its end. *)
Definition Inv (self : t) : Prop :=
  length (m_iterators self) = 8%nat /\ iterator self 0 = 0%nat /\
  (forall i j, (i <= j <= 7)%nat -> (iterator self i <= iterator self j)%nat) /\
  (iterator self 7 <= length (m_buffer self))%nat.

(** The octets of the layers [from] to [to]. *)
Definition octets_of (self : t) (from to : OsiLayer) : list Z := concat (map (get self) (osi_layer_range from to)).

End CohesivePacket.

(** * ChunkPacket *)

(** What a layer of a ChunkPacket holds: ByteBufferConvertible, of which a
    packet only asks the size. *)
Class Convertible (B : Type) := {
  empty_convertible : B;
  convertible_size : B -> Z;
  convertible_size_empty : convertible_size empty_convertible = 0;
  convertible_size_nonneg b : 0 <= convertible_size b
}.

Module ChunkPacket.

Abbreviation t B := (gmap nat B).

Section ChunkPacket.
Context {B : Type} `{Convertible B}.

Definition layer (ol : OsiLayer) (self : t B) : B := default empty_convertible (self !! ol).
Definition set_layer (ol : OsiLayer) (b : B) (self : t B) : t B := <[ol := b]> self.

Definition total (self : t B) : Z := list_sum_Z (map (fun x => convertible_size x.2) (map_to_list self)).
Definition size_range (self : t B) (from to : OsiLayer) : Z :=
  total (filter (fun x => (from <= x.1 <= to)%nat) self).

(** One turn of the loop of merge(), and the loop. *)
Definition merge_layer (ol : OsiLayer) (s : t B * t B) : t B * t B :=
  let '(self, source) := s in (set_layer ol (layer ol source) self, set_layer ol empty_convertible source).
Definition merge (from to : OsiLayer) (self source : t B) : t B * t B :=
  fold_left (fun s ol => merge_layer ol s) (osi_layer_range from to) (self, source).

(** extract(): each layer of the range changes places with an empty one. *)
Definition extract (from to : OsiLayer) (self : t B) : t B * t B :=
  fold_left (fun '(result, self) ol => (set_layer ol (layer ol self) result, set_layer ol (layer ol result) self))
    (osi_layer_range from to) (∅, self).
End ChunkPacket.
End ChunkPacket.

(** duplicate(): the layers of a received packet as those of a new one. *)
Definition duplicate {B} (buffer : list Z -> B) (packet : CohesivePacket.t) : ChunkPacket.t B :=
  fold_left (fun dup ol => ChunkPacket.set_layer ol (buffer (CohesivePacket.get packet ol)) dup) osi_layers ∅.

(** * Theorems *)

Section Cohesive.
Import CohesivePacket.

Lemma nth_insert (l : list nat) i j v : (i < length l)%nat -> nth j (<[i := v]> l) 0%nat = if decide (j = i) then v else nth j l 0%nat.
Proof.
  intros Hi. rewrite !nth_lookup. destruct (decide (j = i)) as [->|Hne].
  - now rewrite list_lookup_insert_eq.
  - now rewrite list_lookup_insert_ne by congruence.
Qed.

Lemma nth_clamp k stop (l : list nat) j : (j < length l)%nat ->
  nth j (clamp k stop l) 0%nat = if decide (k <= j)%nat then Nat.min (nth j l 0%nat) stop else nth j l 0%nat.
Proof.
  intros Hj. unfold clamp. rewrite !nth_lookup, list_lookup_imap. apply lookup_lt_is_Some_2 in Hj as [x ->]. cbn. now destruct (decide _).
Qed.

Lemma get_octets_length p i : Inv p -> (1 <= i <= 7)%nat -> length (get p i) = (iterator p i - iterator p (i - 1))%nat.
Proof.
  intros (_ & _ & Hm & He) Hi. unfold get. rewrite length_take, length_drop. pose proof (Hm i 7%nat ltac:(lia)). lia.
Qed.

(** Neighbouring layers are neighbouring octets. *)
Lemma octets_of_section p from n : Inv p -> (1 <= from)%nat -> (from + n <= 8)%nat ->
  concat (map (get p) (seq from n)) = take (iterator p (from - 1 + n) - iterator p (from - 1)) (drop (iterator p (from - 1)) (m_buffer p)).
Proof.
  intros HI. destruct HI as (_ & _ & Hm & _) . revert from. induction n as [|n IH]; intros from Hf Hn.
  - cbn. rewrite Nat.add_0_r, Nat.sub_diag. reflexivity.
  - cbn [seq map concat]. rewrite IH by lia. unfold get. replace (S from - 1)%nat with from by lia. replace (from - 1 + S n)%nat with (from + n)%nat by lia.
    pose proof (Hm (from - 1)%nat from ltac:(lia)). pose proof (Hm from (from + n)%nat ltac:(lia)).
    set (a := iterator p (from - 1)) in *. set (b := iterator p from) in *. set (c := iterator p (from + n)) in *.
    replace (drop b (m_buffer p)) with (drop (b - a) (drop a (m_buffer p))) by (rewrite drop_drop; f_equal; lia).
    replace (c - a)%nat with ((b - a) + (c - b))%nat by lia. now rewrite take_take_drop.
Qed.

Lemma octets_of_spec p from to : Inv p -> (1 <= from)%nat -> (from <= to <= 7)%nat ->
  octets_of p from to = take (iterator p to - iterator p (from - 1)) (drop (iterator p (from - 1)) (m_buffer p)).
Proof.
  intros HI Hf Ht. unfold octets_of, osi_layer_range. rewrite decide_True by lia. rewrite octets_of_section by (auto; lia).
  now replace (from - 1 + (to - from + 1))%nat with to by lia.
Qed.

Lemma size_range_spec p from to : Inv p -> (1 <= from)%nat -> (from <= to <= 7)%nat ->
  CohesivePacket.size_range p from to = Z.of_nat (length (octets_of p from to)).
Proof.
  intros HI Hf Ht. rewrite octets_of_spec by (auto; lia). destruct HI as (_ & _ & Hm & He). unfold CohesivePacket.size_range.
  pose proof (Hm (from - 1)%nat to ltac:(lia)). pose proof (Hm to 7%nat ltac:(lia)). rewrite length_take, length_drop.
  destruct (Z.ltb_spec (Z.of_nat (iterator p to) - Z.of_nat (iterator p (from - 1))) 0); lia.
Qed.

Lemma create_iterator buffer l i : (1 <= l <= 7)%nat -> (i <= 7)%nat ->
  iterator (create buffer l) i = if decide (i < l)%nat then 0%nat else length buffer.
Proof.
  intros Hl Hi. unfold iterator, create, reset_iterators. cbn [m_iterators]. rewrite nth_lookup.
  destruct (decide (i < l)%nat) as [H|H].
  - rewrite lookup_app_l by (rewrite length_replicate; lia). now rewrite lookup_replicate_2 by lia.
  - rewrite lookup_app_r by (rewrite length_replicate; lia). rewrite length_replicate, lookup_replicate_2; [reflexivity|].
    unfold max_osi_layer, Application. lia.
Qed.

Lemma create_Inv buffer l : (1 <= l <= 7)%nat -> Inv (create buffer l).
Proof.
  intros Hl. unfold Inv. split_all.
  - unfold create, reset_iterators. cbn [m_iterators]. rewrite length_app, !length_replicate. unfold max_osi_layer, Application. lia.
  - rewrite create_iterator by lia. now rewrite decide_True by lia.
  - intros i j Hij. rewrite !create_iterator by lia. destruct (decide (i < l)%nat), (decide (j < l)%nat); lia.
  - rewrite create_iterator by lia. cbn. destruct (decide _); lia.
Qed.

Lemma create_get buffer l i : (1 <= l <= 7)%nat -> (1 <= i <= 7)%nat -> get (create buffer l) i = if decide (i = l) then buffer else [].
Proof.
  intros Hl Hi. unfold get. rewrite !create_iterator by lia. destruct (decide (i = l)) as [->|Hne].
  - rewrite decide_False, decide_True by lia. rewrite Nat.sub_0_r. cbn. now rewrite drop_0, take_ge by lia.
  - destruct (decide (i < l)%nat), (decide (i - 1 < l)%nat); try lia; now rewrite ?Nat.sub_diag.
Qed.

(** A new boundary inside a layer: what is beyond goes to the layer above. *)
Lemma set_boundary_spec p l bytes : Inv p -> (1 <= l < 7)%nat -> (bytes <= length (get p l))%nat ->
  exists p', set_boundary l bytes p = Some p' /\ Inv p' /\ m_buffer p' = m_buffer p /\
    get p' l = take bytes (get p l) /\ get p' (S l) = drop bytes (get p l) ++ get p (S l) /\
    (forall i, (1 <= i <= 7)%nat -> i <> l -> i <> S l -> get p' i = get p i) /\
    (forall i, (i <= 7)%nat -> i <> l -> iterator p' i = iterator p i).
Proof.
  intros HI Hl Hb. pose proof (get_octets_length p l HI ltac:(lia)) as Hg. pose proof HI as (H8 & H0 & Hm & He).
  unfold set_boundary. rewrite decide_True by exact Hb. eexists. split; [reflexivity|].
  set (p' := mk _ _).
  assert (Hit : forall i, (i <= 7)%nat -> iterator p' i = if decide (i = l) then (iterator p (l - 1) + bytes)%nat else iterator p i).
  { intros i Hi. unfold iterator at 1, p'. cbn [m_iterators]. apply nth_insert. lia. }
  pose proof (Hm (l - 1)%nat l ltac:(lia)) as M1. pose proof (Hm l (S l) ltac:(lia)) as M2. pose proof (Hm (S l) 7%nat ltac:(lia)) as M3.
  split_all.
  - unfold Inv. split_all.
    + unfold p'. cbn [m_iterators]. now rewrite length_insert.
    + rewrite Hit by lia. destruct (decide _); [lia|exact H0].
    + intros i j Hij. rewrite !Hit by lia. destruct (decide (i = l)) as [->|], (decide (j = l)) as [->|]; try lia.
      * pose proof (Hm l j ltac:(lia)). lia.
      * pose proof (Hm i (l - 1)%nat ltac:(lia)). lia.
      * now apply Hm.
    + rewrite Hit by lia. rewrite decide_False by lia. exact He.
  - reflexivity.
  - unfold get. rewrite !Hit by lia. rewrite decide_True, decide_False by lia. cbn [m_buffer p'].
    rewrite take_take. f_equal. lia.
  - unfold get. rewrite !Hit by lia. replace (S l - 1)%nat with l by lia. rewrite decide_False, decide_True by lia. cbn [m_buffer p'].
    rewrite skipn_firstn_comm, drop_drop.
    replace (drop (iterator p l) (m_buffer p)) with (drop (iterator p l - iterator p (l - 1) - bytes) (drop (iterator p (l - 1) + bytes) (m_buffer p)))
      by (rewrite drop_drop; f_equal; lia).
    rewrite take_take_drop. f_equal. lia.
  - intros i Hi Hn1 Hn2. unfold get. rewrite !Hit by lia. rewrite !decide_False by lia. reflexivity.
  - intros i Hi Hn. rewrite Hit by lia. now rewrite decide_False.
Qed.

(** trim() cuts off octets from the end; the layers below stay. *)
Lemma trim_spec p from bytes : Inv p -> (1 <= from <= 7)%nat ->
  exists p', trim from bytes p = Some p' /\ Inv p' /\
    octets_of p' from 7 = take bytes (octets_of p from 7) /\
    (forall i, (1 <= i < from)%nat -> get p' i = get p i).
Proof.
  intros HI Hf. pose proof HI as (H8 & H0 & Hm & He). unfold trim. unfold max_osi_layer, Application.
  rewrite (size_range_spec p from 7 HI) by lia.
  pose proof (octets_of_spec p from 7 HI ltac:(lia) ltac:(lia)) as Eo.
  assert (Hlen : length (octets_of p from 7) = (iterator p 7 - iterator p (from - 1))%nat).
  { rewrite Eo, length_take, length_drop. pose proof (Hm (from - 1)%nat 7%nat ltac:(lia)). lia. }
  destruct (Z.ltb_spec (Z.of_nat bytes) (Z.of_nat (length (octets_of p from 7)))) as [Hlt|Hge].
  - rewrite H0. rewrite decide_True by lia. cbn [mbind option_bind]. set (stop := (iterator p (from - 1) + bytes)%nat). set (p' := mk _ _).
    assert (Hit : forall i, (i <= 7)%nat -> iterator p' i =
      if decide (i = 7)%nat then stop else if decide (from - 1 <= i)%nat then Nat.min (iterator p i) stop else iterator p i).
    { intros i Hi. unfold iterator at 1, p'. cbn [m_iterators]. rewrite nth_clamp by (rewrite length_insert; lia). rewrite nth_insert by lia.
      unfold iterator. destruct (decide (i = 7)%nat), (decide (from - 1 <= i)%nat); try reflexivity; lia. }
    assert (HI' : Inv p').
    { unfold Inv. split_all.
      - unfold p', clamp. cbn [m_iterators]. now rewrite length_imap, length_insert.
      - rewrite Hit by lia. rewrite decide_False by lia. destruct (decide _); rewrite H0; reflexivity.
      - intros i j Hij. rewrite !Hit by lia. pose proof (Hm i j Hij). pose proof (Hm j 7%nat ltac:(lia)).
        destruct (decide (i = 7)%nat), (decide (j = 7)%nat), (decide (from - 1 <= i)%nat), (decide (from - 1 <= j)%nat); try lia.
        pose proof (Hm i (from - 1)%nat ltac:(lia)). lia.
        pose proof (Hm i (from - 1)%nat ltac:(lia)). lia.
      - rewrite Hit by lia. rewrite decide_True by lia. cbn [m_buffer p']. lia. }
    assert (Eo' : octets_of p' from 7 = take bytes (octets_of p from 7)).
    { rewrite octets_of_spec by (auto; lia). rewrite !Hit by lia. rewrite decide_True, decide_False, decide_True by lia.
      rewrite Eo. cbn [m_buffer p']. rewrite take_take. rewrite Nat.min_l by lia. f_equal. lia. }
    rewrite (size_range_spec p' from 7 HI') by lia. rewrite Eo', length_take, decide_True by lia.
    exists p'. split_all; auto. intros i Hi. assert (Hlow : forall k, (k < from)%nat -> iterator p' k = iterator p k).
    { intros k Hk. rewrite Hit by lia. rewrite (decide_False (P := k = 7%nat)) by lia. destruct (decide (from - 1 <= k)%nat); [|reflexivity].
      replace k with (from - 1)%nat by lia. lia. }
    unfold get. now rewrite !Hlow by lia.
  - cbn [mbind option_bind]. rewrite (size_range_spec p from 7 HI) by lia. rewrite decide_True by lia. exists p. split_all; auto.
    now rewrite take_ge by lia.
Qed.

Fixpoint ascending_from (prev : nat) (its : list nat) : Prop :=
  match its with [] => True | it :: its' => (prev <= it)%nat /\ ascending_from it its' end.

Lemma ascending_nth it its : (forall i j, (i <= j <= length its)%nat -> (nth i (it :: its) 0 <= nth j (it :: its) 0)%nat) -> ascending_from it its.
Proof.
  revert it. induction its as [|x its IH]; intros it Hm; [exact I|]. split; [apply (Hm 0 1)%nat; cbn; lia|].
  apply IH. intros i j Hij. apply (Hm (S i) (S j)). cbn in *. lia.
Qed.

(** A copy differs in its buffer only. *)
Lemma rebuild_same prev its : ascending_from prev its -> rebuild_iterators prev prev its = its.
Proof.
  revert prev. induction its as [|it its IH]; intros prev Ha; [reflexivity|]. destruct Ha as [Hle Ha]. cbn [rebuild_iterators].
  replace (prev + it - prev)%nat with it by lia. now rewrite IH.
Qed.

Lemma copy_same p : Inv p -> copy p = p.
Proof.
  intros (H8 & H0 & Hm & _). destruct p as [b its]. unfold copy, iterator in *. cbn [m_buffer m_iterators] in *. f_equal.
  destruct its as [|it its]; [reflexivity|]. cbn in H0. subst it. f_equal. apply rebuild_same. apply ascending_nth. intros i j Hij.
  apply (Hm i j). cbn in H8. cbn in Hij. lia.
Qed.

(** The layers of a CohesivePacket are consecutive sections of its buffer, and the
    sizes are those of the sections.  A packet created for a layer has all
    its octets there.  set_boundary() leaves the first octets to the layer and
    gives the rest to the layer above, trim() cuts off the end of the upper
    layers, and neither fails an assertion or touches the other layers.  A
    copy has the same layers. *)
Theorem cohesive_layers p : Inv p ->
  (forall from to, (1 <= from <= to)%nat -> (to <= 7)%nat ->
     octets_of p from to = take (iterator p to - iterator p (from - 1)) (drop (iterator p (from - 1)) (m_buffer p)) /\
     CohesivePacket.size_range p from to = Z.of_nat (length (octets_of p from to))) /\
  (forall l bytes, (1 <= l < 7)%nat -> (bytes <= length (get p l))%nat ->
     exists p', set_boundary l bytes p = Some p' /\ Inv p' /\ get p' l = take bytes (get p l) /\
       get p' (S l) = drop bytes (get p l) ++ get p (S l) /\
       forall i, (1 <= i <= 7)%nat -> i <> l -> i <> S l -> get p' i = get p i) /\
  (forall from bytes, (1 <= from <= 7)%nat ->
     exists p', trim from bytes p = Some p' /\ Inv p' /\ octets_of p' from 7 = take bytes (octets_of p from 7) /\
       forall i, (1 <= i < from)%nat -> get p' i = get p i) /\
  (forall buffer l, (1 <= l <= 7)%nat -> Inv (create buffer l) /\
     forall i, (1 <= i <= 7)%nat -> get (create buffer l) i = if decide (i = l) then buffer else []) /\
  copy p = p.
Proof.
  intros HI. split_all.
  - intros from to H1 H2. split; [apply octets_of_spec|apply size_range_spec]; auto; lia.
  - intros l bytes Hl Hb. destruct (set_boundary_spec p l bytes HI Hl Hb) as (p' & E & HI' & _ & G1 & G2 & G3 & _). eauto 10.
  - intros from bytes Hf. now apply trim_spec.
  - intros buffer l Hl. split; [now apply create_Inv|]. intros i Hi. now apply create_get.
  - now apply copy_same.
Qed.

Lemma cohesive_layers_witness :
  exists p', set_boundary Network 2 (create [1; 2; 3] Network) = Some p' /\ get p' Network = [1; 2] /\ get p' Transport = [3].
Proof.
  destruct (cohesive_layers (create [1; 2; 3] Network) (create_Inv [1; 2; 3] Network ltac:(unfold Network; lia))) as (_ & Hb & _).
  destruct (Hb Network 2%nat) as (p' & E & _ & G1 & G2 & _); [unfold Network; lia|apply Nat.leb_le; reflexivity|].
  exists p'. split; [exact E|]. split; [rewrite G1; reflexivity|]. now rewrite (G2 : get p' Transport = _).
Defined.

End Cohesive.

Section Chunk.
Context {B : Type} `{Convertible B}.
Import ChunkPacket.

Lemma layer_set i j b (p : ChunkPacket.t B) : layer i (set_layer j b p) = if decide (i = j) then b else layer i p.
Proof.
  unfold layer, set_layer. destruct (decide (i = j)) as [->|Hne]; [now rewrite lookup_insert_eq|now rewrite lookup_insert_ne by congruence].
Qed.

#[export] Instance list_sum_Z_Permutation : Proper (Permutation ==> eq) list_sum_Z.
Proof. intros l l' HP. induction HP; cbn; lia. Qed.

Lemma chunk_total_insert i b (p : ChunkPacket.t B) : p !! i = None -> total (<[i := b]> p) = convertible_size b + total p.
Proof. intros Hi. unfold total. rewrite (Permutation_map _ (map_to_list_insert p i b Hi)). reflexivity. Qed.

Lemma chunk_total_nonneg (p : ChunkPacket.t B) : 0 <= total p.
Proof.
  induction p as [|i b p Hi IH] using map_ind; [reflexivity|]. rewrite chunk_total_insert by assumption. pose proof (convertible_size_nonneg b). lia.
Qed.

(** No octets when every layer is empty. *)
Lemma size_range_zero (p : ChunkPacket.t B) from to : (forall i, (from <= i <= to)%nat -> convertible_size (layer i p) = 0) ->
  size_range p from to = 0.
Proof.
  intros Hz. unfold size_range. set (q := filter _ p).
  assert (Hq : forall i b, q !! i = Some b -> convertible_size b = 0).
  { intros i b Hi. apply map_lookup_filter_Some in Hi as [Hi Hr]. specialize (Hz i Hr). unfold layer in Hz. now rewrite Hi in Hz. }
  clearbody q. induction q as [|i b q Hi IH] using map_ind; [reflexivity|]. rewrite chunk_total_insert by assumption.
  rewrite (Hq i b) by apply lookup_insert_eq. rewrite IH; [reflexivity|]. intros j c Hj. apply (Hq j). rewrite lookup_insert_ne; congruence.
Qed.

Lemma merge_loop ls (self source : ChunkPacket.t B) : NoDup ls ->
  let '(self', source') := fold_left (fun s ol => merge_layer ol s) ls (self, source) in
  (forall i, layer i self' = if decide (i ∈ ls) then layer i source else layer i self) /\
  (forall i, layer i source' = if decide (i ∈ ls) then empty_convertible else layer i source).
Proof.
  revert self source. induction ls as [|l ls IH]; intros self source Hd; cbn [fold_left merge_layer].
  - split; intros i; now rewrite decide_False by apply not_elem_of_nil.
  - apply NoDup_cons in Hd as [Hl Hd]. specialize (IH (set_layer l (layer l source) self) (set_layer l empty_convertible source) Hd).
    destruct (fold_left _ _ _) as [self' source']. destruct IH as [IH1 IH2]. split; intros i; rewrite ?IH1, ?IH2, !layer_set;
      destruct (decide (i ∈ ls)) as [Hi|Hi], (decide (i = l)) as [E|Hne], (decide (i ∈ l :: ls)) as [Hc|Hc]; try reflexivity;
      rewrite ?elem_of_cons in Hc; try (subst i); intuition congruence.
Qed.

Lemma elem_of_range i from to : i ∈ osi_layer_range from to <-> (from <= i <= to)%nat.
Proof.
  unfold osi_layer_range. destruct (decide _); [|split; [intros Hi; now apply elem_of_nil in Hi|lia]]. rewrite list_elem_of_In, in_seq. lia.
Qed.

(** merge() moves the layers of the range, and leaves none of them behind. *)
Lemma merge_spec from to (self source : ChunkPacket.t B) :
  let '(self', source') := merge from to self source in
  (forall i, layer i self' = if decide (from <= i <= to)%nat then layer i source else layer i self) /\
  (forall i, layer i source' = if decide (from <= i <= to)%nat then empty_convertible else layer i source) /\
  size_range source' from to = 0.
Proof.
  unfold merge. assert (Hd : NoDup (osi_layer_range from to)).
  { unfold osi_layer_range. destruct (decide _); [apply NoDup_ListNoDup, seq_NoDup|constructor]. }
  pose proof (merge_loop (osi_layer_range from to) self source Hd) as Hm. destruct (fold_left _ _ _) as [self' source']. destruct Hm as [H1 H2].
  assert (H2' : forall i, layer i source' = if decide (from <= i <= to)%nat then empty_convertible else layer i source).
  { intros i. rewrite H2. destruct (decide (i ∈ _)) as [Hi|Hi], (decide (from <= i <= to)%nat) as [Hr|Hr]; auto; now rewrite elem_of_range in Hi. }
  split_all; auto.
  - intros i. rewrite H1. destruct (decide (i ∈ _)) as [Hi|Hi], (decide (from <= i <= to)%nat) as [Hr|Hr]; auto; now rewrite elem_of_range in Hi.
  - apply size_range_zero. intros i Hi. rewrite H2', decide_True by exact Hi. apply convertible_size_empty.
Qed.

End Chunk.

(** ** Sizes *)

Section Sizes.
Context {B : Type} `{Convertible B}.
Import ChunkPacket.

Lemma sum_update (f : nat -> Z) i v (ls : list nat) : NoDup ls -> f i = 0 ->
  list_sum_Z (map (fun j => if decide (j = i) then v else f j) ls) = (if decide (i ∈ ls) then v else 0) + list_sum_Z (map f ls).
Proof.
  intros Hd Hf. induction Hd as [|j ls Hj _ IH]; [reflexivity|]. cbn. rewrite IH.
  destruct (decide (j = i)) as [->|Hne], (decide (i ∈ ls)) as [Hi|Hi], (decide (i ∈ _ :: ls)) as [Hc|Hc]; try lia; try easy;
    rewrite ?elem_of_cons in Hc; exfalso; intuition congruence.
Qed.

(** The size of some layers is the sum of the sizes of each. *)
Lemma size_range_sum (p : ChunkPacket.t B) from to :
  size_range p from to = list_sum_Z (map (fun i => convertible_size (layer i p)) (osi_layer_range from to)).
Proof.
  assert (Hd : NoDup (osi_layer_range from to)).
  { unfold osi_layer_range. destruct (decide _); [apply NoDup_ListNoDup, seq_NoDup|constructor]. }
  unfold size_range. induction p as [|i b p Hi IH] using map_ind.
  - rewrite map_filter_empty. cbn. generalize (osi_layer_range from to). intros ls. induction ls as [|j ls IH]; [reflexivity|].
    cbn [map list_sum_Z]. rewrite <- IH. unfold layer. rewrite lookup_empty. cbn. now rewrite convertible_size_empty.
  - assert (E : forall j, convertible_size (layer j (<[i := b]> p)) = if decide (j = i) then convertible_size b else convertible_size (layer j p)).
    { intros j. unfold layer. destruct (decide (j = i)) as [->|Hne]; [now rewrite lookup_insert_eq|now rewrite lookup_insert_ne by congruence]. }
    rewrite (map_ext _ _ E), sum_update; [|exact Hd|unfold layer; rewrite Hi; apply convertible_size_empty].
    destruct (decide (from <= i <= to)%nat) as [Hr|Hr].
    + rewrite map_filter_insert_True by exact Hr. rewrite chunk_total_insert by (apply map_lookup_filter_None; now left).
      rewrite decide_True by now apply elem_of_range. now rewrite IH.
    + rewrite map_filter_insert_not by (intros y; exact Hr). rewrite decide_False by now rewrite elem_of_range. now rewrite IH.
Qed.

End Sizes.

Lemma duplicate_layer {B} `{Convertible B} (buffer : list Z -> B) p i : (1 <= i <= 7)%nat ->
  ChunkPacket.layer i (duplicate buffer p) = buffer (CohesivePacket.get p i).
Proof.
  intros Hi. unfold duplicate. cbn [fold_left osi_layers seq]. rewrite !layer_set.
  repeat (destruct (decide _) as [->|]; [reflexivity|]). unfold Physical in *. lia.
Qed.

(** A duplicate is as large as the packet. *)
Lemma duplicate_size {B} `{Convertible B} (buffer : list Z -> B) p from to : (forall bs, convertible_size (buffer bs) = Z.of_nat (length bs)) ->
  CohesivePacket.Inv p -> (1 <= from)%nat -> (from <= to <= 7)%nat ->
  ChunkPacket.size_range (duplicate buffer p) from to = CohesivePacket.size_range p from to.
Proof.
  intros Hb HI Hf Ht. rewrite size_range_sum, size_range_spec by auto. unfold CohesivePacket.octets_of.
  assert (Hr : Forall (fun i => (1 <= i <= 7)%nat) (osi_layer_range from to)) by (rewrite Forall_forall; intros i Hi%elem_of_range; lia).
  induction Hr as [|i ls Hi _ IH]; [reflexivity|]. cbn [map concat list_sum_Z]. rewrite length_app, Nat2Z.inj_add, <- IH, duplicate_layer, Hb by lia.
  reflexivity.
Qed.
