(* ===== verification/Areas.v ===== *)
(** Geographical areas: geonet/areas.cpp, the area of a geo-broadcast header
    (gbc_gac_header.cpp, gbc_header.cpp) and header_type.cpp.

    Quantities of Boost.Units are their values in SI units as binary64, angles
    of positions in degrees.  The conversions that Boost.Units, the geodesy
    and the mathematical library make are operations of [Geodesy]. *)

From S2P Require Import Prelude Double GnNumbers Archive GnWire.
From Stdlib Require Import SpecFloat.

Open Scope Z_scope.

(** * Numbers *)

Definition d_eqb : double -> double -> bool := SFeqb.
Definition d_opp : double -> double := SFopp.
Definition d_zero : double := S754_zero false.
Definition d_one : double := Eval vm_compute in d_of_Z 1.
Definition d_neg_infinity : double := S754_infinity true.
(** std::min: the first one unless the second is less. *)
Definition d_min (a b : double) : double := if d_ltb b a then b else a.
(** boost::math::double_constants *)
Definition half_pi : double := S754_finite false 7074237752028440 (-52).
Definition pi : double := S754_finite false 7074237752028440 (-51).

(** * Shapes *)

Record CartesianPosition := mk_CartesianPosition { x : double; y : double }.
Record GeodeticPosition := mk_GeodeticPosition { geo_latitude : double; geo_longitude : double }.

Inductive Shape :=
| Rectangle (a b : double)
| Ellipse (a b : double)
| Circle (r : double).
Record Area := mk_Area { shape : Shape; position : GeodeticPosition; area_angle : double }.

Definition geometric_function (s : Shape) (p : CartesianPosition) : double :=
  match s with
  | Circle r =>
      if negb (d_eqb r d_zero) then
        let x_over_r := d_div (x p) r in
        let y_over_r := d_div (y p) r in
        d_sub (d_sub d_one (d_mul x_over_r x_over_r)) (d_mul y_over_r y_over_r)
      else d_neg_infinity
  | Rectangle a b =>
      if negb (d_eqb a d_zero) && negb (d_eqb b d_zero) then
        let x_over_a := d_div (x p) a in
        let y_over_b := d_div (y p) b in
        d_min (d_sub d_one (d_mul x_over_a x_over_a)) (d_sub d_one (d_mul y_over_b y_over_b))
      else d_neg_infinity
  | Ellipse a b =>
      if negb (d_eqb a d_zero) && negb (d_eqb b d_zero) then
        let x_over_a := d_div (x p) a in
        let y_over_b := d_div (y p) b in
        d_sub (d_sub d_one (d_mul x_over_a x_over_a)) (d_mul y_over_b y_over_b)
      else d_neg_infinity
  end.

Definition inside_shape (s : Shape) (p : CartesianPosition) : bool := d_ltb d_zero (geometric_function s p).
Definition outside_shape (s : Shape) (p : CartesianPosition) : bool := d_ltb (geometric_function s p) d_zero.
Definition at_shape_border (s : Shape) (p : CartesianPosition) : bool := d_eqb (geometric_function s p) d_zero.
Definition at_center_point (s : Shape) (p : CartesianPosition) : bool := d_eqb (geometric_function s p) d_one.

Definition area_size (area : Area) : double :=
  match shape area with
  | Circle r => d_mul (d_mul pi r) r
  | Rectangle a b => d_mul (d_mul (d_of_Z 4) a) b
  | Ellipse a b => d_mul (d_mul pi a) b
  end.

Definition gbc_header_type (area : Area) : HeaderType :=
  match shape area with
  | Circle _ => HeaderType_GeoBroadcast_Circle
  | Rectangle _ _ => HeaderType_GeoBroadcast_Rect
  | Ellipse _ _ => HeaderType_GeoBroadcast_Elip
  end.

(** * Geodesy *)

Class Geodesy := {
  distance : GeodeticPosition -> GeodeticPosition -> double;
  local_cartesian : GeodeticPosition -> GeodeticPosition -> CartesianPosition;
  d_sin : double -> double;
  d_cos : double -> double;
  d_acos : double -> double;
  (** units::GeoAngle from geo_angle_i32t and back *)
  geo_angle : Z -> double;
  geo_angle_i32t : double -> Z;
  (** units::Angle from angle_u16t and back *)
  angle_of_degrees : Z -> double;
  angle_u16t : double -> Z;
  (** units::Velocity to speed_u15t, units::GeoAngle to heading_u16t *)
  speed_u15t : double -> Z;
  heading_u16t : double -> Z
}.

Section Areas.
Context {G : Geodesy}.

Definition canonicalize (point : CartesianPosition) (azimuth : double) : CartesianPosition :=
  let zenith := d_sub half_pi azimuth in
  let sin_z := d_sin zenith in
  let cos_z := d_cos zenith in
  mk_CartesianPosition (d_add (d_mul cos_z (x point)) (d_mul sin_z (y point)))
                       (d_add (d_mul (d_opp sin_z) (x point)) (d_mul cos_z (y point))).

Definition inside_or_at_border (area : Area) (geo_position : GeodeticPosition) : bool :=
  let local := local_cartesian (position area) geo_position in
  let canonical := canonicalize local (area_angle area) in
  negb (outside_shape (shape area) canonical).

(** LongPositionVector::position() *)
Definition position_of (pv : LongPositionVector) : GeodeticPosition :=
  mk_GeodeticPosition (geo_angle (latitude pv)) (geo_angle (longitude pv)).

(** ** The area of a geo-broadcast header *)

Definition gbc_position (hdr : GeoBroadcastHeader) : GeodeticPosition :=
  mk_GeodeticPosition (geo_angle (geo_area_pos_latitude hdr)) (geo_angle (geo_area_pos_longitude hdr)).

(** A length as distance_u16t, and std::round to geo_angle_i32t. *)
Definition distance_u16t (l : double) : Z := u16 (d_trunc l).
Definition rounded_angle (a : double) : Z := swrap 32 (d_lround (d_mul a (d_of_Z 10000000))).

(** set_distance_visitor *)
Definition set_distance (s : Shape) : Z * Z :=
  match s with
  | Circle r => (distance_u16t r, 0)
  | Rectangle a b => (distance_u16t a, distance_u16t b)
  | Ellipse a b => (distance_u16t a, distance_u16t b)
  end.

Definition set_destination (area : Area) (hdr : GeoBroadcastHeader) : GeoBroadcastHeader :=
  let '(a, b) := set_distance (shape area) in
  mk_GeoBroadcastHeader (sequence_number hdr) (gbc_reserved1 hdr) (source_position hdr)
    (rounded_angle (geo_latitude (position area))) (rounded_angle (geo_longitude (position area)))
    a b (angle_u16t (area_angle area)) (gbc_reserved2 hdr).

(** GeoBroadcastHeader::destination, which throws for other header types. *)
Definition destination (ht : HeaderType) (hdr : GeoBroadcastHeader) : option Area :=
  let area s := Some (mk_Area s (gbc_position hdr) (angle_of_degrees (angle hdr))) in
  if ht =? HeaderType_GeoBroadcast_Circle then area (Circle (d_of_Z (distance_a hdr)))
  else if ht =? HeaderType_GeoBroadcast_Rect then area (Rectangle (d_of_Z (distance_a hdr)) (d_of_Z (distance_b hdr)))
  else if ht =? HeaderType_GeoBroadcast_Elip then area (Ellipse (d_of_Z (distance_a hdr)) (d_of_Z (distance_b hdr)))
  else None.

End Areas.

(** * Theorems *)

(** A length the header can carry, in whole metres. *)
Definition metres (n : Z) : Prop := 0 <= n < 2 ^ 16.

Definition metres_ok (n : Z) : bool :=
  (distance_u16t (d_of_Z n) =? n) &&
  match d_of_Z n with S754_zero s => negb s && (n =? 0) | S754_finite s _ _ => negb s && negb (n =? 0) | _ => false end.

(** Whether [f] holds of the [n] integers from [k] on. *)
Fixpoint all_from (f : Z -> bool) (n : nat) (k : Z) : bool :=
  match n with O => true | S n' => f k && all_from f n' (k + 1) end.

Lemma all_from_spec f n k v : all_from f n k = true -> k <= v < k + Z.of_nat n -> f v = true.
Proof.
  revert k. induction n as [|n IH]; intros k H Hv; [lia|]. cbn [all_from] in H. apply andb_true_iff in H as [H1 H2].
  destruct (Z.eq_dec v k) as [->|]; [exact H1|]. apply (IH (k + 1)); [exact H2|lia].
Qed.

Lemma metres_table : all_from metres_ok (Z.to_nat 65536) 0 = true.
Proof. vm_compute. reflexivity. Qed.

Lemma metres_spec n : metres n -> distance_u16t (d_of_Z n) = n /\ d_eqb (d_of_Z n) d_zero = (n =? 0) /\
  exists m e, d_of_Z n = if n =? 0 then S754_zero false else S754_finite false m e.
Proof.
  intros [Hn Hb]. change (2 ^ 16) with 65536 in Hb.
  pose proof (all_from_spec metres_ok (Z.to_nat 65536) 0 n metres_table ltac:(rewrite Z2Nat.id by lia; lia)) as Hok. unfold metres_ok in Hok.
  apply andb_true_iff in Hok as [H1 H2]. split; [lia|]. destruct (d_of_Z n) as [s| | |s m e]; try discriminate.
  - apply andb_true_iff in H2 as [H2 H3]. destruct s; [discriminate|]. apply Z.eqb_eq in H3. replace n with 0 by lia.
    split; [reflexivity|]. now exists 1%positive, 0.
  - apply andb_true_iff in H2 as [H2 H3]. destruct s; [discriminate|]. apply negb_true_iff, Z.eqb_neq in H3.
    destruct (Z.eqb_spec n 0); [lia|]. split; [reflexivity|]. eauto.
Qed.

Definition d_iszero (v : double) : bool := match v with S754_zero _ => true | _ => false end.
Definition d_isfinite (v : double) : bool := match v with S754_zero _ | S754_finite _ _ _ => true | _ => false end.

Lemma mul_zero u v : d_isfinite u = true -> d_iszero v = true -> d_iszero (d_mul u v) = true.
Proof. destruct u, v; try discriminate; reflexivity. Qed.
Lemma add_zero u v : d_iszero u = true -> d_iszero v = true -> d_iszero (d_add u v) = true.
Proof. destruct u as [[]| | |], v as [[]| | |]; try discriminate; reflexivity. Qed.
Lemma opp_finite u : d_isfinite u = true -> d_isfinite (d_opp u) = true.
Proof. destruct u; try discriminate; reflexivity. Qed.
Lemma zero_finite u : d_iszero u = true -> d_isfinite u = true.
Proof. destruct u; try discriminate; reflexivity. Qed.
Lemma one_minus_zero v : d_iszero v = true -> d_sub d_one v = d_one.
Proof. destruct v; try discriminate; reflexivity. Qed.
Lemma div_zero u n : d_iszero u = true -> metres n -> n <> 0 -> d_iszero (d_div u (d_of_Z n)) = true.
Proof.
  intros Hu Hn H0. destruct (metres_spec n Hn) as (_ & _ & m & e & E). rewrite E. destruct (Z.eqb_spec n 0); [lia|].
  destruct u; try discriminate; reflexivity.
Qed.

Create HintDb zeros.
#[local] Hint Resolve mul_zero add_zero opp_finite zero_finite div_zero : zeros.

Lemma d_isnan_eq v : d_isnan v = true -> v = S754_nan.
Proof. now destruct v. Qed.

(** The shape of a header's area, by the type of the header. *)
Definition shape_of (ht : HeaderType) (a b : Z) : Shape :=
  if ht =? HeaderType_GeoBroadcast_Circle then Circle (d_of_Z a)
  else if ht =? HeaderType_GeoBroadcast_Rect then Rectangle (d_of_Z a) (d_of_Z b) else Ellipse (d_of_Z a) (d_of_Z b).

(** No side of the area has length zero. *)
Definition proper_sides (ht : HeaderType) (a b : Z) : bool :=
  negb (a =? 0) && ((ht =? HeaderType_GeoBroadcast_Circle) || negb (b =? 0)).

Lemma is_gbc_cases ht : is_gbc ht = true -> ht = 64 \/ ht = 65 \/ ht = 66.
Proof. unfold is_gbc, HeaderType_GeoBroadcast_Circle, HeaderType_GeoBroadcast_Rect, HeaderType_GeoBroadcast_Elip. lia. Qed.

Lemma is_zero_metres n : metres n -> negb (d_eqb (d_of_Z n) d_zero) = negb (n =? 0).
Proof. intros Hn. now destruct (metres_spec n Hn) as (_ & -> & _). Qed.

(** By the type of the header: what the shape is and which sides count. *)
Lemma shape_of_cases ht a b : is_gbc ht = true ->
  (shape_of ht a b = Circle (d_of_Z a) /\ proper_sides ht a b = negb (a =? 0)) \/
  (shape_of ht a b = Rectangle (d_of_Z a) (d_of_Z b) /\ proper_sides ht a b = negb (a =? 0) && negb (b =? 0)) \/
  (shape_of ht a b = Ellipse (d_of_Z a) (d_of_Z b) /\ proper_sides ht a b = negb (a =? 0) && negb (b =? 0)).
Proof.
  intros [-> |[-> | ->]]%is_gbc_cases; [left|right; left|right; right]; (split; [reflexivity|]); unfold proper_sides; [apply andb_true_r|reflexivity..].
Qed.

(** [geometric_function] of such a shape is decided by the sides. *)
Ltac shape_cases ht a b Hg Ha Hb Hp :=
  destruct (shape_of_cases ht a b Hg) as [[-> E]|[[-> E]|[-> E]]]; rewrite E in Hp; unfold geometric_function;
  rewrite !is_zero_metres by assumption; rewrite Hp; cbv zeta; clear E.

Lemma geometric_zero_side ht a b p : is_gbc ht = true -> metres a -> metres b -> proper_sides ht a b = false ->
  geometric_function (shape_of ht a b) p = d_neg_infinity.
Proof. intros Hg Ha Hb Hp. shape_cases ht a b Hg Ha Hb Hp; reflexivity. Qed.

Lemma square_over u n : d_iszero u = true -> metres n -> negb (n =? 0) = true -> d_iszero (d_mul (d_div u (d_of_Z n)) (d_div u (d_of_Z n))) = true.
Proof. intros Hu Hn H0. apply mul_zero; [apply zero_finite|]; apply div_zero; auto; lia. Qed.

Lemma geometric_center ht a b p : is_gbc ht = true -> metres a -> metres b -> proper_sides ht a b = true ->
  d_iszero (x p) = true -> d_iszero (y p) = true -> geometric_function (shape_of ht a b) p = d_one.
Proof.
  intros Hg Ha Hb Hp Hx Hy. shape_cases ht a b Hg Ha Hb Hp; rewrite ?andb_true_iff in Hp.
  - now rewrite !one_minus_zero by (apply square_over; auto).
  - destruct Hp. now rewrite !one_minus_zero by (apply square_over; auto).
  - destruct Hp. now rewrite !one_minus_zero by (apply square_over; auto).
Qed.

Lemma geometric_nan ht a b p : is_gbc ht = true -> metres a -> metres b -> proper_sides ht a b = true ->
  x p = S754_nan -> geometric_function (shape_of ht a b) p = S754_nan.
Proof.
  intros Hg Ha Hb Hp Hx. assert (N : forall n, d_mul (d_div S754_nan n) (d_div S754_nan n) = S754_nan) by (intros n; now destruct n).
  shape_cases ht a b Hg Ha Hb Hp; rewrite Hx, N; unfold d_min.
  - now destruct (d_mul (d_div (y p) _) _).
  - now destruct (d_sub d_one (d_mul (d_div (y p) _) _)) as [| | |[]].
  - now destruct (d_mul (d_div (y p) _) _).
Qed.

Section Membership.
Context {G : Geodesy}.

Lemma destination_shape ht hdr : destination ht hdr =
  if is_gbc ht then Some (mk_Area (shape_of ht (distance_a hdr) (distance_b hdr)) (gbc_position hdr) (angle_of_degrees (angle hdr))) else None.
Proof.
  unfold destination, is_gbc, shape_of. destruct (ht =? HeaderType_GeoBroadcast_Circle); [reflexivity|].
  destruct (ht =? HeaderType_GeoBroadcast_Rect); [reflexivity|]. now destruct (ht =? HeaderType_GeoBroadcast_Elip).
Qed.

(** Which positions a received geo-broadcast area holds: none when one of its
    sides has length zero; its centre otherwise, wherever the area is and
    however it is turned; and any position for which the geodesy answers no
    number. *)
Theorem area_membership ht hdr area p :
  destination ht hdr = Some area -> metres (distance_a hdr) -> metres (distance_b hdr) ->
  let local := local_cartesian (position area) p in
  let zenith := d_sub half_pi (area_angle area) in
  if proper_sides ht (distance_a hdr) (distance_b hdr) then
    (d_iszero (x local) = true -> d_iszero (y local) = true -> d_isfinite (d_sin zenith) = true -> d_isfinite (d_cos zenith) = true ->
       at_center_point (shape area) (canonicalize local (area_angle area)) = true /\ inside_or_at_border area p = true) /\
    (d_isnan (x local) = true -> inside_or_at_border area p = true)
  else inside_or_at_border area p = false.
Proof.
  rewrite destination_shape. destruct (is_gbc ht) eqn:Hg; [|discriminate]. intros E Ha Hb local zenith. injection E as <-.
  unfold inside_or_at_border, outside_shape, at_center_point. fold local. cbn [shape area_angle position] in *.
  destruct (proper_sides _ _ _) eqn:Hp.
  - split.
    + intros Hx Hy Hs Hc. rewrite geometric_center; [split; reflexivity|assumption..| |]; unfold canonicalize; cbn [x y]; fold zenith; eauto with zeros.
    + intros Hn. apply d_isnan_eq in Hn. rewrite geometric_nan; [reflexivity|assumption..|]. unfold canonicalize. cbn [x]. rewrite Hn.
      now destruct (d_cos _), (d_mul (d_sin _) _).
  - now rewrite geometric_zero_side.
Qed.

(** A destination area survives the header: an area with sides of whole metres
    is written as a type of header and two distances from which destination()
    restores the shape, and every geo-broadcast header of 16-bit distances
    gives an area that is written back as the same type and distances (the
    second distance of a circle is not used and written as zero).  Header
    types of other packets have no destination. *)
Theorem area_header_roundtrip ht hdr :
  match destination ht hdr with
  | Some area => is_gbc ht = true /\
      (metres (distance_a hdr) -> metres (distance_b hdr) ->
       gbc_header_type area = ht /\
       set_distance (shape area) = (distance_a hdr, if ht =? HeaderType_GeoBroadcast_Circle then 0 else distance_b hdr) /\
       forall hdr', exists area', destination (gbc_header_type area) (set_destination area hdr') = Some area' /\ shape area' = shape area)
  | None => is_gbc ht = false
  end.
Proof.
  rewrite destination_shape. destruct (is_gbc ht) eqn:Hg; [|reflexivity]. split; [reflexivity|]. intros Ha Hb.
  destruct (metres_spec _ Ha) as (Ea & _). destruct (metres_spec _ Hb) as (Eb & _).
  destruct (is_gbc_cases ht Hg) as [-> |[-> | ->]]; cbn [shape_of gbc_header_type shape Z.eqb Pos.eqb set_distance]; unfold shape_of, gbc_header_type; cbn -[d_of_Z distance_u16t];
    rewrite ?Ea, ?Eb; split_all; try reflexivity; intros hdr'; eexists; (split; [reflexivity|]); cbn -[d_of_Z distance_u16t]; now rewrite ?Ea, ?Eb.
Qed.

End Membership.

(** * Examples *)

(** A flat earth of 111195 metres to the degree, on which angles are small. *)
Definition metres_of_degrees (v : double) : double := d_mul v (d_of_Z 111195).
#[export] Instance Flat_geodesy : Geodesy := {
  distance p q := d_add (d_abs (metres_of_degrees (d_sub (geo_latitude q) (geo_latitude p))))
                        (d_abs (metres_of_degrees (d_sub (geo_longitude q) (geo_longitude p))));
  local_cartesian o p := mk_CartesianPosition (metres_of_degrees (d_sub (geo_longitude p) (geo_longitude o)))
                                              (metres_of_degrees (d_sub (geo_latitude p) (geo_latitude o)));
  d_sin v := v;
  d_cos _ := d_one;
  d_acos v := d_sub half_pi v;
  geo_angle v := d_div (d_of_Z v) (d_of_Z 10000000);
  geo_angle_i32t v := swrap 32 (d_trunc (d_mul v (d_of_Z 10000000)));
  angle_of_degrees v := d_div (d_mul (d_of_Z v) pi) (d_of_Z 180);
  angle_u16t v := u16 (d_trunc (d_div (d_mul v (d_of_Z 180)) pi));
  speed_u15t v := BitNumber 64 15 (d_trunc (d_mul v (d_of_Z 100)));
  heading_u16t v := u16 (d_trunc (d_mul v (d_of_Z 10)))
}.

(** A circle of 100 metres. *)
Definition example_gbc (sn lat lon : Z) : GeoBroadcastHeader :=
  mk_GeoBroadcastHeader sn 0 example_position lat lon 100 0 0 0.

Lemma area_membership_witness :
  inside_or_at_border (mk_Area (Circle (d_of_Z 100)) (gbc_position (example_gbc 1 500000000 100000000)) (angle_of_degrees 0))
    (gbc_position (example_gbc 1 500000000 100000000)) = true.
Proof.
  pose proof (area_membership HeaderType_GeoBroadcast_Circle (example_gbc 1 500000000 100000000) _
    (gbc_position (example_gbc 1 500000000 100000000)) eq_refl ltac:(split; vm_compute; congruence) ltac:(split; vm_compute; congruence)) as H.
  cbn [proper_sides] in H. destruct H as [H _]. apply H; vm_compute; reflexivity.
Defined.

Lemma area_header_roundtrip_witness :
  set_distance (Circle (d_of_Z 100)) = (100, 0) /\ destination HeaderType_Beacon (example_gbc 1 0 0) = None.
Proof.
  split; [|reflexivity]. pose proof (area_header_roundtrip HeaderType_GeoBroadcast_Circle (example_gbc 1 0 0)) as (_ & H).
  apply H; split; vm_compute; congruence.
Defined.
