(* ===== verification/Requests.v ===== *)
(** Requests of the upper layers: geonet/mib.cpp, geonet/data_request.cpp,
    geonet/data_confirm.cpp, the headers made from a request
    (geonet/basic_header.cpp, geonet/common_header.cpp) and the repetition of
    requests, geonet/repeater.cpp.

    A repetition is known by a number that stands for the iterator into the
    list of repetitions; an erased one is not in the list any more. *)

From S2P Require Import Prelude Double GnNumbers Archive GnWire Areas Scheduler.
From stdpp Require Import gmap.

Open Scope Z_scope.

(** * Management information base *)

Inductive UnicastForwarding := Uc_Unspecified | Uc_Greedy | Uc_CBF.
Inductive BroadcastForwarding := Bc_Unspecified | Bc_SIMPLE | Bc_CBF | Bc_Advanced.
Inductive AddrConfMethod := Auto | Managed | Anonymous.
Inductive InterfaceType := If_Unspecified | ITS_G5 | LTE_V2X.
Inductive SecurityDecapHandling := Strict | Non_Strict.
Inductive UpperProtocol := Unknown | BTP_A | BTP_B | IPv6.
Inductive TransportType := GUC | GAC | GBC | TSB | SHB.
Abbreviation CommunicationProfile := InterfaceType.

#[export] Instance UpperProtocol_eq_dec : EqDecision UpperProtocol.
Proof. solve_decision. Defined.

Record MIB := mk_MIB {
  itsGnLocalAddrConfMethod : AddrConfMethod;
  itsGnProtocolVersion : Z;
  itsGnIsMobile : bool;
  itsGnIfType : InterfaceType;
  itsGnPaiInterval : double;
  itsGnMaxSduSize : Z;
  itsGnLifetimeLocTE : Duration;
  itsGnSecurity : bool;
  itsGnSnDecapResultHandling : SecurityDecapHandling;
  itsGnBeaconServiceRetransmitTimer : Duration;
  itsGnBeaconServiceMaxJitter : Duration;
  itsGnDefaultHopLimit : Z;
  itsGnDPLLength : nat;
  itsGnMaxPacketLifetime : Lifetime.t;
  itsGnDefaultPacketLifetime : Lifetime.t;
  itsGnMaxPacketDataRate : Z;
  itsGnMaxPacketDataRateEmaBeta : double;
  itsGnMaxGeoAreaSize : double;
  itsGnMinPacketRepetitionInterval : Duration;
  itsGnNonAreaForwardingAlgorithm : UnicastForwarding;
  itsGnAreaForwardingAlgorithm : BroadcastForwarding;
  itsGnCbfMinTime : Duration;
  itsGnCbfMaxTime : Duration;
  itsGnDefaultMaxCommunicationRange : double;
  itsGnBroadcastCBFDefSectorAngle : double;
  itsGnUcForwardingPacketBufferSize : Z;
  itsGnBcForwardingPacketBufferSize : Z;
  itsGnCbfPacketBufferSize : Z;
  itsGnDefaultTrafficClass : TrafficClass.t;
  vanetzaCbfMaxCounter : Z;
  vanetzaDeferInitialBeacon : Z;
  vanetzaDisableBeaconing : bool;
  vanetzaMultiHopDuplicateAddressDetection : bool;
  vanetzaFadingCbfCounter : bool;
  vanetzaFadingCbfCounterLifetime : Duration;
  vanetzaNeighbourFlagExpiry : Z;
  vanetzaGbcMemoryCapacity : nat;
  vanetzaGbcPassUpOutsideDestination : bool
}.

(** The constructor.  30 degrees in radians are what Boost.Units makes of
    them. *)
Definition milli (n : Z) : Duration := d_literal n 1000.
Definition MIB_default (thirty_degrees : double) : MIB := {|
  itsGnLocalAddrConfMethod := Managed;
  itsGnProtocolVersion := 1;
  itsGnIsMobile := true;
  itsGnIfType := ITS_G5;
  itsGnPaiInterval := d_of_Z 80;
  itsGnMaxSduSize := 1398;
  itsGnLifetimeLocTE := d_of_Z 20;
  itsGnSecurity := false;
  itsGnSnDecapResultHandling := Strict;
  itsGnBeaconServiceRetransmitTimer := d_of_Z 3;
  itsGnBeaconServiceMaxJitter := d_div (d_of_Z 3) (d_of_Z 4);
  itsGnDefaultHopLimit := 10;
  itsGnDPLLength := 8;
  itsGnMaxPacketLifetime := Lifetime.set Lifetime.Hundred_Seconds 6;
  itsGnDefaultPacketLifetime := Lifetime.set Lifetime.Ten_Seconds 6;
  itsGnMaxPacketDataRate := 100;
  itsGnMaxPacketDataRateEmaBeta := d_literal 9 10;
  itsGnMaxGeoAreaSize := d_of_Z 10000000;
  itsGnMinPacketRepetitionInterval := milli 100;
  itsGnNonAreaForwardingAlgorithm := Uc_Greedy;
  itsGnAreaForwardingAlgorithm := Bc_CBF;
  itsGnCbfMinTime := milli 1;
  itsGnCbfMaxTime := milli 100;
  itsGnDefaultMaxCommunicationRange := d_of_Z 1000;
  itsGnBroadcastCBFDefSectorAngle := thirty_degrees;
  itsGnUcForwardingPacketBufferSize := 256;
  itsGnBcForwardingPacketBufferSize := 1024;
  itsGnCbfPacketBufferSize := 256;
  itsGnDefaultTrafficClass := TrafficClass.make false false 0;
  vanetzaCbfMaxCounter := 1;
  vanetzaDeferInitialBeacon := 0;
  vanetzaDisableBeaconing := false;
  vanetzaMultiHopDuplicateAddressDetection := false;
  vanetzaFadingCbfCounter := false;
  vanetzaFadingCbfCounterLifetime := d_mul (d_of_Z 4) (milli 100);
  vanetzaNeighbourFlagExpiry := 0;
  vanetzaGbcMemoryCapacity := 0;
  vanetzaGbcPassUpOutsideDestination := false
|}.

(** * Requests *)

Record Repetition := mk_Repetition { interval : Duration; maximum : Duration }.

Record DataRequest := mk_DataRequest {
  upper_protocol : UpperProtocol;
  communication_profile : CommunicationProfile;
  its_aid : Z;
  permissions : list Z;
  security_context : list Z;
  maximum_lifetime : Lifetime.t;
  repetition : option Repetition;
  max_hop_limit : Z;
  request_traffic_class : TrafficClass.t
}.

Definition with_repetition (rep : option Repetition) (r : DataRequest) : DataRequest :=
  mk_DataRequest (upper_protocol r) (communication_profile r) (its_aid r) (permissions r) (security_context r)
    (maximum_lifetime r) rep (max_hop_limit r) (request_traffic_class r).

Definition DataRequest_create (mib : MIB) (aid : Z) : DataRequest :=
  mk_DataRequest BTP_A If_Unspecified aid [] [] (itsGnDefaultPacketLifetime mib) None (itsGnDefaultHopLimit mib)
    (itsGnDefaultTrafficClass mib).

(** GacDataRequest and GbcDataRequest have an area, GucDataRequest an
    address. *)
Inductive DataRequestVariant :=
| GucDataRequest (r : DataRequest) (destination : Address)
| GbcDataRequest (r : DataRequest) (destination : Area)
| GacDataRequest (r : DataRequest) (destination : Area)
| ShbDataRequest (r : DataRequest)
| TsbDataRequest (r : DataRequest).

Definition access_request (v : DataRequestVariant) : DataRequest :=
  match v with GucDataRequest r _ | GbcDataRequest r _ | GacDataRequest r _ | ShbDataRequest r | TsbDataRequest r => r end.
Definition modify_request (f : DataRequest -> DataRequest) (v : DataRequestVariant) : DataRequestVariant :=
  match v with
  | GucDataRequest r a => GucDataRequest (f r) a
  | GbcDataRequest r a => GbcDataRequest (f r) a
  | GacDataRequest r a => GacDataRequest (f r) a
  | ShbDataRequest r => ShbDataRequest (f r)
  | TsbDataRequest r => TsbDataRequest (f r)
  end.

Definition decrement_by_one (rep : Repetition) : Repetition :=
  if d_ltb d_zero (maximum rep) && d_ltb d_zero (interval rep) && d_ltb (interval rep) (maximum rep)
  then mk_Repetition (interval rep) (d_sub (maximum rep) (interval rep))
  else mk_Repetition (interval rep) d_zero.

Definition has_further_repetition (rep : Repetition) : bool :=
  d_ltb d_zero (maximum rep) && d_ltb d_zero (interval rep) && d_leb (interval rep) (maximum rep).
Definition request_has_further_repetition (r : DataRequest) : bool :=
  match repetition r with Some rep => has_further_repetition rep | None => false end.

(** ** From BTP *)

Inductive DestinationVariant := To_address (a : Address) | To_area (a : Area) | To_nothing.

Record DataRequestGeoNetParams := mk_DataRequestGeoNetParams {
  btp_transport_type : TransportType;
  btp_destination : DestinationVariant;
  btp_communication_profile : CommunicationProfile;
  btp_its_aid : Z;
  btp_maximum_lifetime : option Lifetime.t;
  btp_maximum_hop_limit : option Z;
  btp_repetition : option Repetition;
  btp_traffic_class : TrafficClass.t
}.

Definition copy_request_parameters (btp : DataRequestGeoNetParams) (gn : DataRequest) : DataRequest :=
  mk_DataRequest BTP_B (btp_communication_profile btp) (btp_its_aid btp) (permissions gn) (security_context gn)
    (default (maximum_lifetime gn) (btp_maximum_lifetime btp)) (btp_repetition btp)
    (default (max_hop_limit gn) (btp_maximum_hop_limit btp)) (btp_traffic_class btp).

(** The overloads for an address and for an area throw without one. *)
Definition copy_request_address (btp : DataRequestGeoNetParams) (gn : DataRequest) : option (DataRequest * Address) :=
  match btp_destination btp with To_address a => Some (copy_request_parameters btp gn, a) | _ => None end.
Definition copy_request_area (btp : DataRequestGeoNetParams) (gn : DataRequest) : option (DataRequest * Area) :=
  match btp_destination btp with To_area a => Some (copy_request_parameters btp gn, a) | _ => None end.

(** * Confirmation *)

Inductive ResultCode :=
| Accepted
| Rejected_Max_SDU_Size
| Rejected_Max_Lifetime
| Rejected_Min_Repetition_Interval
| Rejected_Unsupported_Traffic_Class
| Rejected_Max_Geo_Area_Size
| Rejected_Unspecified.

Definition accepted (c : ResultCode) : bool := match c with Accepted => true | _ => false end.
(** operator ^= *)
Definition xor_result (lhs rhs : ResultCode) : ResultCode := match rhs with Accepted => lhs | _ => rhs end.

Definition validate_data_request (req : DataRequest) (mib : MIB) : ResultCode :=
  if Lifetime.lt (itsGnMaxPacketLifetime mib) (maximum_lifetime req) then Rejected_Max_Lifetime
  else if match repetition req with Some rep => d_ltb (interval rep) (itsGnMinPacketRepetitionInterval mib) | None => false end
  then Rejected_Min_Repetition_Interval
  else Accepted.

Definition validate_data_request_area (req : DataRequest) (area : Area) (mib : MIB) : ResultCode :=
  if d_ltb (itsGnMaxGeoAreaSize mib) (area_size area) then Rejected_Max_Geo_Area_Size else validate_data_request req mib.

(** [payload_size] of the packet, if there is one. *)
Definition validate_payload (payload_size : option Z) (mib : MIB) : ResultCode :=
  match payload_size with
  | None => Rejected_Unspecified
  | Some size => if itsGnMaxSduSize mib <? size then Rejected_Max_SDU_Size else Accepted
  end.

(** * Headers of a request *)

Definition BasicHeader_of_mib (mib : MIB) : BasicHeader :=
  mk_BasicHeader (BitNumber 32 4 (itsGnProtocolVersion mib)) NextHeaderBasic_Any 0 (itsGnDefaultPacketLifetime mib)
    (u8 (itsGnDefaultHopLimit mib)).
Definition BasicHeader_of_request (request : DataRequest) (mib : MIB) : BasicHeader :=
  let h := BasicHeader_of_mib mib in
  mk_BasicHeader (version h) (if itsGnSecurity mib then NextHeaderBasic_Secured else NextHeaderBasic_Common) (basic_reserved h)
    (maximum_lifetime request) (u8 (max_hop_limit request)).

Definition CommonHeader_of_mib (mib : MIB) : CommonHeader :=
  mk_CommonHeader NextHeaderCommon_Any 0 HeaderType_Any (itsGnDefaultTrafficClass mib) (if itsGnIsMobile mib then 128 else 0) 0
    (u8 (itsGnDefaultHopLimit mib)) 0.
Definition next_header_of (p : UpperProtocol) : Z :=
  match p with BTP_A => NextHeaderCommon_BTP_A | BTP_B => NextHeaderCommon_BTP_B | IPv6 => NextHeaderCommon_IPv6 | Unknown => NextHeaderCommon_Any end.
Definition CommonHeader_of_request (request : DataRequest) (mib : MIB) : CommonHeader :=
  let h := CommonHeader_of_mib mib in
  mk_CommonHeader (next_header_of (upper_protocol request)) (reserved1 h) (header_type h) (request_traffic_class request) (flags h)
    (payload h) (u8 (max_hop_limit request)) (reserved2 h).

(** * Repeater *)

Section Repeater.
Context {Payload Callback : Type}.

(** The runtime's callback for a repetition, and the scope of the repeater. *)
Variable trigger_callback : nat -> Callback.
Variable this : Z.

(** Repetitions under the numbers of their iterators; [m_next] is the number
    of the next one. *)
Record Repeater := mk_Repeater { m_repetitions : list (nat * (DataRequestVariant * Payload)); m_next : nat }.

Definition Repeater_create : Repeater := mk_Repeater [] 0.

(** add() for a request with a repetition. *)
Definition add_repetition (request : DataRequestVariant) (rep : Repetition) (pl : Payload)
  (s : Repeater * @ManualRuntime Callback) : Repeater * @ManualRuntime Callback :=
  let '(self, rt) := s in
  if has_further_repetition rep then
    let next_repetition := m_now rt + clock_cast (interval rep) in
    let added := m_next self in
    (mk_Repeater ((added, (request, pl)) :: m_repetitions self) (S added),
     schedule next_repetition (trigger_callback added) (Some this) rt)
  else s.
Definition add_request (request : DataRequestVariant) (pl : Payload) (s : Repeater * @ManualRuntime Callback) :
  Repeater * @ManualRuntime Callback :=
  match repetition (access_request request) with Some rep => add_repetition request rep pl s | None => s end.

(** trigger() before it calls the repeat function: the repetition the
    iterator points to, with the rest of its interval. *)
Definition repeated (now invocation : Z) (r : DataRequest) : DataRequest :=
  match repetition r with
  | Some rep =>
      let rep := decrement_by_one rep in
      let rep := mk_Repetition (interval rep) (d_sub (maximum rep) (clock_cast_seconds (now - invocation))) in
      with_repetition (if has_further_repetition rep then Some rep else None) r
  | None => r
  end.
Definition find_repetition (rep : nat) (self : Repeater) : option (DataRequestVariant * Payload) :=
  snd <$> List.find (fun x => (x.1 =? rep)%nat) (m_repetitions self).
(** ... and after it. *)
Definition erase_repetition (rep : nat) (self : Repeater) : Repeater :=
  mk_Repeater (filter (fun x => x.1 <> rep) (m_repetitions self)) (m_next self).

(** ** Every repetition has its callback *)

Variable as_trigger : Callback -> option nat.
Hypothesis as_trigger_spec : forall n, as_trigger (trigger_callback n) = Some n.

(** The repetitions a queue will trigger. *)
Definition pending (q : list (@ScheduledCallback Callback)) : list nat := omap (fun x => as_trigger (callback x)) q.

(** [held] of the callbacks the runtime has taken from its queue are being
    invoked. *)
Definition RepeaterInv (held : list nat) (self : Repeater) (rt : @ManualRuntime Callback) : Prop :=
  held ++ pending (m_queue rt) ≡ₚ map fst (m_repetitions self) /\ NoDup (map fst (m_repetitions self)) /\
  Forall (fun n => (n < m_next self)%nat) (map fst (m_repetitions self)) /\
  Forall (fun x => repetition (access_request x.2.1) <> None) (m_repetitions self).

Lemma pending_Permutation q q' : q ≡ₚ q' -> pending q ≡ₚ pending q'.
Proof.
  intros HP. unfold pending. induction HP as [|x l l' _ IH|x y l|? l' ? _ IH1 _ IH2]; cbn.
  - reflexivity.
  - destruct (as_trigger _); [now constructor|exact IH].
  - destruct (as_trigger (callback x)), (as_trigger (callback y)); try reflexivity. constructor.
  - etransitivity; [exact IH1|exact IH2].
Qed.

Lemma pending_emplace x q : pending (emplace x q) ≡ₚ match as_trigger (callback x) with Some n => n :: pending q | None => pending q end.
Proof.
  rewrite (pending_Permutation _ _ (insert_by_Permutation deadline x q)). unfold pending. cbn. now destruct (as_trigger (callback x)).
Qed.

Lemma add_repetition_Inv held request rep pl self rt : RepeaterInv held self rt -> repetition (access_request request) <> None ->
  RepeaterInv held (add_repetition request rep pl (self, rt)).1 (add_repetition request rep pl (self, rt)).2.
Proof.
  intros (HP & Hd & Hlt & Hr) Hreq. unfold add_repetition. destruct (has_further_repetition rep); [|unfold RepeaterInv; auto].
  unfold RepeaterInv, schedule. cbn [fst snd m_queue m_repetitions m_next map]. rewrite pending_emplace. cbn [callback]. rewrite as_trigger_spec.
  split_all.
  - rewrite <- Permutation_middle. now constructor.
  - constructor; [|exact Hd]. intros Hin. rewrite Forall_forall in Hlt. specialize (Hlt _ Hin). lia.
  - constructor; [lia|]. eapply Forall_impl; [exact Hlt|]. cbn. lia.
  - now constructor.
Qed.

Lemma find_repetition_Inv held rep self rt : RepeaterInv held self rt -> rep ∈ held ->
  exists request pl, find_repetition rep self = Some (request, pl) /\ repetition (access_request request) <> None.
Proof.
  intros (HP & Hd & _ & Hr) Hin. assert (Hm : rep ∈ map fst (m_repetitions self)) by (rewrite <- HP; apply elem_of_app; now left).
  clear HP Hd. unfold find_repetition. induction (m_repetitions self) as [|[n [rq pl]] l IH]; [now apply elem_of_nil in Hm|].
  cbn [map fst List.find] in *. destruct (Nat.eqb_spec n rep) as [->|Hne].
  - exists rq, pl. split; [reflexivity|]. now inversion Hr.
  - apply elem_of_cons in Hm as [->|Hm]; [easy|]. inversion Hr; auto.
Qed.

Lemma erase_repetition_Inv held rep self rt : RepeaterInv (rep :: held) self rt -> RepeaterInv held (erase_repetition rep self) rt.
Proof.
  intros (HP & Hd & Hlt & Hr). unfold RepeaterInv, erase_repetition. cbn [m_repetitions m_next].
  assert (Em : map fst (filter (fun x : nat * (DataRequestVariant * Payload) => x.1 <> rep) (m_repetitions self)) =
    filter (fun n => n <> rep) (map fst (m_repetitions self))).
  { clear. induction (m_repetitions self) as [|x l IH]; [reflexivity|]. cbn [map]. rewrite !filter_cons.
    destruct (decide (x.1 <> rep)); cbn [map]; now rewrite IH. }
  rewrite Em. split_all.
  - rewrite <- HP. cbn [app]. rewrite filter_cons_False by (intros Hne; now apply Hne). rewrite filter_all; [reflexivity|].
    rewrite <- HP in Hd. cbn [app] in Hd. apply NoDup_cons in Hd as [Hn _]. apply Forall_forall. intros y Hy ->. easy.
  - now apply NoDup_filter.
  - rewrite Forall_forall in *. intros n [_ Hn]%list_elem_of_filter. now apply Hlt.
  - rewrite Forall_forall in *. intros n [_ Hn]%list_elem_of_filter. now apply Hr.
Qed.

End Repeater.
