(* ===== verification/RouterState.v ===== *)
(** The state of the router, geonet/router.hpp, and the packets it keeps:
    geonet/pdu.cpp, geonet/extended_pdu.hpp, geonet/secured_pdu.cpp,
    geonet/pending_packet.hpp, geonet/next_hop.cpp, geonet/pdu_conversion.cpp.

    A std::function the router stores with a packet is a value that names the
    function and what it captures.  What the router calls outside of
    GeoNetworking is an operation of [Environment]; what it calls on other
    layers is an event.  An exception, a failed assertion and a use of a
    dangling reference are results of the monad [M]. *)

From S2P Require Import Prelude Double GnNumbers Archive GnWire Caches SoftState LocationTable PacketBuffer Scheduler CbfBuffer Packets Areas Requests.
From stdpp Require Import gmap strings.

Open Scope Z_scope.

(** * Protocol data units *)

(** Secured messages, security::get_size and security::serialize. *)
Class Secured (SM : Type) := {
  sm_size : SM -> Z;
  sm_serialize : SM -> list Z;
  sm_size_bound m : 0 <= sm_size m <= 2 ^ 61
}.

(** The extended headers as alternatives of HeaderVariant. *)
Class ExtendedHeader (H : Type) := as_variant : H -> HeaderVariant.
#[export] Instance Variant_header : ExtendedHeader HeaderVariant := fun h => h.
#[export] Instance Beacon_header : ExtendedHeader BeaconHeader := Beacon.
#[export] Instance Gbc_header : ExtendedHeader GeoBroadcastHeader := GeoBroadcast.
#[export] Instance Shb_header : ExtendedHeader ShbHeader := Shb.
#[export] Instance Tsb_header : ExtendedHeader TsbHeader := Tsb.

Section Pdu.
Context {SM : Type} {HS : Secured SM}.

(** ExtendedPdu and VariantPdu. *)
Record Pdu (H : Type) := mk_Pdu { basic : BasicHeader; common : CommonHeader; extended : H; secured : option SM }.
#[global] Arguments mk_Pdu {H} _ _ _ _.
#[global] Arguments basic {H} _.
#[global] Arguments common {H} _.
#[global] Arguments extended {H} _.
#[global] Arguments secured {H} _.

Definition VariantPdu : Type := Pdu HeaderVariant.
Definition variant_of {H} `{ExtendedHeader H} (pdu : Pdu H) : VariantPdu :=
  mk_Pdu (basic pdu) (common pdu) (as_variant (extended pdu)) (secured pdu).

Definition with_basic {H} (h : BasicHeader) (pdu : Pdu H) : Pdu H := mk_Pdu h (common pdu) (extended pdu) (secured pdu).
Definition with_common {H} (h : CommonHeader) (pdu : Pdu H) : Pdu H := mk_Pdu (basic pdu) h (extended pdu) (secured pdu).
Definition with_extended {H H'} (h : H') (pdu : Pdu H) : Pdu H' := mk_Pdu (basic pdu) (common pdu) h (secured pdu).
Definition with_secured {H} (m : option SM) (pdu : Pdu H) : Pdu H := mk_Pdu (basic pdu) (common pdu) (extended pdu) m.

Definition pdu_serialize (pdu : VariantPdu) : list Z :=
  serialize_BasicHeader (basic pdu) ++
  match secured pdu with
  | Some m => sm_serialize m
  | None => serialize_CommonHeader (common pdu) ++ serialize_HeaderVariant (extended pdu)
  end.
Definition get_pdu_length {H} `{ExtendedHeader H} (pdu : Pdu H) : Z :=
  Z.of_nat BasicHeader_length_bytes +
  match secured pdu with
  | Some m => sm_size m
  | None => Z.of_nat CommonHeader_length_bytes + Z.of_nat (get_length (as_variant (extended pdu)))
  end.

(** ** Layers of packets *)

Inductive ByteBufferConvertible :=
| Null
| Buffer (octets : list Z)
| Pdu_buffer (pdu : VariantPdu)
| SecuredPdu (common : CommonHeader) (extended : HeaderVariant).

Definition convert (b : ByteBufferConvertible) : list Z :=
  match b with
  | Null => []
  | Buffer octets => octets
  | Pdu_buffer pdu => pdu_serialize pdu
  | SecuredPdu c e => serialize_CommonHeader c ++ serialize_HeaderVariant e
  end.

#[export] Instance ByteBuffer_convertible : Convertible ByteBufferConvertible.
Proof.
  refine {| empty_convertible := Null;
    convertible_size b := match b with
      | Null => 0
      | Buffer octets => Z.of_nat (length octets)
      | Pdu_buffer pdu => get_pdu_length pdu
      | SecuredPdu _ e => Z.of_nat CommonHeader_length_bytes + Z.of_nat (get_length e)
      end |}; [reflexivity|].
  intros [|octets|pdu|c e]; [lia..| |lia]. unfold get_pdu_length. destruct (secured pdu) as [m|]; [|lia].
  pose proof (sm_size_bound m). lia.
Defined.

Abbreviation DownPacket := (ChunkPacket.t ByteBufferConvertible).
Inductive UpPacket := Chunk (packet : DownPacket) | Cohesive (packet : CohesivePacket.t).

Definition packet_size (packet : UpPacket) (from to : OsiLayer) : Z :=
  match packet with
  | Chunk p => ChunkPacket.size_range p from to
  | Cohesive p => CohesivePacket.size_range p from to
  end.
Definition duplicate_packet (packet : UpPacket) : DownPacket :=
  match packet with Chunk p => p | Cohesive p => duplicate Buffer p end.

(** * Pending packets *)

Record LinkLayer := mk_LinkLayer { ll_sender : MacAddress; ll_destination : MacAddress }.

Record ControlInfo := mk_ControlInfo {
  ctrl_communication_profile : CommunicationProfile; ctrl_its_aid : Z; ctrl_permissions : list Z; ctrl_security_context : list Z
}.
Definition ControlInfo_of (r : DataRequest) : ControlInfo :=
  mk_ControlInfo (communication_profile r) (its_aid r) (permissions r) (security_context r).

(** The functions that send a geo-broadcast packet: as its source, as a
    forwarder, and not at all. *)
Inductive Transmit := Source (ctrl : ControlInfo) | Relay | Noop.

(** PendingPacketForwarding. *)
Record ForwardPacket := mk_ForwardPacket { fwd_pdu : Pdu GeoBroadcastHeader; fwd_payload : DownPacket; fwd_transmit : Transmit }.

(** The functions of the packets in the forwarding buffers: forwarding for a
    request or for a received packet, or greedy forwarding again. *)
Inductive GbcAction := Forwarding (ll : option LinkLayer) | Greedy.
Inductive Buffered :=
| Buf_shb (pdu : Pdu ShbHeader) (payload : DownPacket) (ctrl : ControlInfo)
| Buf_tsb (pdu : Pdu TsbHeader) (payload : DownPacket)
| Buf_gbc (packet : ForwardPacket) (action : GbcAction).

Definition payload_size (payload : DownPacket) : Z := ChunkPacket.size_range payload Transport max_osi_layer.
Definition pending_length {H} `{ExtendedHeader H} (pdu : Pdu H) (payload : DownPacket) : Z := get_pdu_length pdu + payload_size payload.
Definition with_lifetime {H} (l : Lifetime.t) (pdu : Pdu H) : Pdu H :=
  let h := basic pdu in with_basic (mk_BasicHeader (version h) (basic_next_header h) (basic_reserved h) l (hop_limit h)) pdu.
Definition pending_reduce {H} (queuing_time : Z) (pdu : Pdu H) : Z * Pdu H :=
  let '(remaining, l) := Lifetime.reduce (lifetime (basic pdu)) queuing_time in (remaining, with_lifetime l pdu).

Lemma get_pdu_length_nonneg {H} `{ExtendedHeader H} (pdu : Pdu H) : 0 <= get_pdu_length pdu.
Proof. unfold get_pdu_length. destruct (secured pdu) as [m|]; [|lia]. pose proof (sm_size_bound m). lia. Qed.
Lemma payload_size_nonneg payload : 0 <= payload_size payload.
Proof. apply chunk_total_nonneg. Qed.
Lemma pending_length_nonneg {H} `{ExtendedHeader H} (pdu : Pdu H) payload : 0 <= pending_length pdu payload.
Proof. unfold pending_length. pose proof (get_pdu_length_nonneg pdu). pose proof (payload_size_nonneg payload). lia. Qed.
Lemma pending_length_reduce {H} `{ExtendedHeader H} t (pdu : Pdu H) payload : pending_length (pending_reduce t pdu).2 payload = pending_length pdu payload.
Proof. unfold pending_reduce. now destruct (Lifetime.reduce _ _). Qed.

#[export] Instance Forward_data : Data ForwardPacket.
Proof.
  refine {| data_length p := pending_length (fwd_pdu p) (fwd_payload p);
    data_reduce_lifetime t p := let '(r, pdu) := pending_reduce t (fwd_pdu p) in (r, mk_ForwardPacket pdu (fwd_payload p) (fwd_transmit p)) |}.
  - intros p. apply pending_length_nonneg.
  - intros t p. pose proof (pending_length_reduce t (fwd_pdu p) (fwd_payload p)) as E. now destruct (pending_reduce _ _).
Defined.

(** PendingPacketBufferData. *)
#[export] Instance Buffered_data : Data Buffered.
Proof.
  refine {| data_length b := match b with
      | Buf_shb pdu payload _ => pending_length pdu payload
      | Buf_tsb pdu payload => pending_length pdu payload
      | Buf_gbc p _ => data_length p
      end;
    data_reduce_lifetime t b := match b with
      | Buf_shb pdu payload ctrl => let '(r, pdu) := pending_reduce t pdu in (r, Buf_shb pdu payload ctrl)
      | Buf_tsb pdu payload => let '(r, pdu) := pending_reduce t pdu in (r, Buf_tsb pdu payload)
      | Buf_gbc p a => let '(r, p) := data_reduce_lifetime t p in (r, Buf_gbc p a)
      end |}.
  - intros []; [apply pending_length_nonneg..|apply data_length_nonneg].
  - intros t [pdu payload ctrl|pdu payload|p a].
    + pose proof (pending_length_reduce t pdu payload) as E. now destruct (pending_reduce _ _).
    + pose proof (pending_length_reduce t pdu payload) as E. now destruct (pending_reduce _ _).
    + pose proof (data_length_reduce t p) as E. now destruct (data_reduce_lifetime _ _).
Defined.

(** PendingPacket::duplicate(): a secured packet keeps its payload in the
    secured message. *)
Definition duplicate_pending (p : ForwardPacket) : ForwardPacket :=
  mk_ForwardPacket (fwd_pdu p) (match secured (fwd_pdu p) with Some _ => ∅ | None => fwd_payload p end) (fwd_transmit p).

(** NextHop *)
Inductive NextHop := Discarded | Buffered_hop | Valid (packet : ForwardPacket) (mac : MacAddress).

(** * Indications and confirmations *)

Record SignRequest := mk_SignRequest {
  plain_message : DownPacket; sign_its_aid : Z; sign_permissions : list Z; context_information : list Z
}.

End Pdu.
#[global] Arguments Pdu SM H : clear implicits.
#[global] Arguments VariantPdu SM : clear implicits.
#[global] Arguments ByteBufferConvertible SM : clear implicits.
#[global] Arguments UpPacket SM : clear implicits.
#[global] Arguments ForwardPacket SM : clear implicits.
#[global] Arguments Buffered SM : clear implicits.
#[global] Arguments NextHop SM : clear implicits.
#[global] Arguments SignRequest SM : clear implicits.

Inductive PacketDropReason :=
| Parse_Basic_Header | Parse_Common_Header | Parse_Secured_Header | Parse_Extended_Header | ITS_Protocol_Version
| Decap_Unsuccessful_Non_Strict | Decap_Unsuccessful_Strict | Hop_Limit | Payload_Size | Security_Entity_Missing | Packet_Size | Internal_Error.
Definition stringify (pdr : PacketDropReason) : string :=
  match pdr with
  | Parse_Basic_Header => "Parse_Basic_Header"
  | Parse_Common_Header => "Parse_Common_Header"
  | Parse_Secured_Header => "Parse_Secured_Header"
  | Parse_Extended_Header => "Parse_Extended_Header"
  | ITS_Protocol_Version => "ITS_Protocol_Version"
  | Decap_Unsuccessful_Non_Strict => "Decap_Unsuccessful_Non_Strict"
  | Decap_Unsuccessful_Strict => "Decap_Unsuccessful_Strict"
  | Hop_Limit => "Hop_Limit"
  | Payload_Size => "Payload_Size"
  | Security_Entity_Missing => "Security_Entity_Missing"
  | Packet_Size | Internal_Error => "UNKNOWN"
  end%string.
Inductive ForwardingStopReason := Stop_Hop_Limit | Stop_Geo_Area_Size | Stop_Outside_Destination_Area | Stop_Source_PDR | Stop_Sender_PDR.

Inductive Exception :=
| Secured_not_set          (* PDU with secured message but Secured not set in basic header *)
| Illegal_payload          (* PDU with secured message and illegal upper layer payload *)
| Secured_message_missing  (* PDU without secured message but Secured set in basic header *)
| Invalid_GBC_header_type
| Pdu_cast_failed
| SecuredPdu_cast_failed
| Assertion_failed
| Dangling.

(** ** The counters of the contention-based forwarding buffer *)

Inductive RouterCounter := Fading (c : CbfCounterFading) | Contending (c : CbfCounterContending).
#[export] Instance Router_counter : CbfCounter RouterCounter := {
  cnt_add now id c := match c with Fading c => Fading (cnt_add now id c) | Contending c => Contending (cnt_add now id c) end;
  cnt_remove now id c := match c with Fading c => Fading (cnt_remove now id c) | Contending c => Contending (cnt_remove now id c) end;
  cnt_increment now id c := match c with Fading c => Fading (cnt_increment now id c) | Contending c => Contending (cnt_increment now id c) end;
  cnt_counter now id c := match c with Fading c => cnt_counter now id c | Contending c => cnt_counter now id c end
}.
Definition create_cbf_counter (mib : MIB) : RouterCounter :=
  if vanetzaFadingCbfCounter mib
  then Fading (mk_Fading (set_lifetime (clock_cast (vanetzaFadingCbfCounterLifetime mib)) SoftStateMap_empty))
  else Contending (mk_Contending ∅).

(** * The environment *)

(** [Report] and [Certificate] are the reports and certificate identifiers of
    the security entity.  [Ext] is the state of the random generator, of the
    DCC field generator and of the security entity. *)
Record DecapConfirm (SM Report Certificate : Type) := mk_DecapConfirm {
  plaintext_payload : UpPacket SM; report : Report; certificate_id : option Certificate; decap_its_aid : Z; decap_permissions : list Z
}.
#[global] Arguments plaintext_payload {SM Report Certificate} _.
#[global] Arguments report {SM Report Certificate} _.
#[global] Arguments certificate_id {SM Report Certificate} _.
#[global] Arguments decap_its_aid {SM Report Certificate} _.
#[global] Arguments decap_permissions {SM Report Certificate} _.
#[global] Arguments mk_DecapConfirm {SM Report Certificate} _ _ _ _ _.

Class Environment (SM Report Certificate Ext : Type) := {
  env_secured :: Secured SM;
  env_geodesy :: Geodesy;
  is_successful : Report -> bool;
  (** std::uniform_real_distribution(0.0, 1.0) and
      std::uniform_int_distribution<unsigned> on the random generator *)
  draw_real : Ext -> double * Ext;
  draw_unsigned : Ext -> Z * Ext;
  generate_dcc_field : Ext -> DccField * Ext;
  (** no message for SignConfirmError *)
  encapsulate_packet : SignRequest SM -> Ext -> option SM * Ext;
  decapsulate_packet : SM -> Ext -> DecapConfirm SM Report Certificate * Ext;
  (** security::deserialize of the version the first octet names, with the
      number of octets it reports *)
  deserialize_secured : Reader (SM * nat);
  (** a node for a timer, given the nodes in use *)
  malloc : list nat -> nat;
  (** the order in which an unordered_map is traversed *)
  traversal : gmap MacAddress LocationTableEntry -> list LocationTableEntry
}.

(** A PDU whose header type announces its extended header and whose payload
    field is in range. *)
Definition headers_ok (c : CommonHeader) (e : HeaderVariant) : Prop := travels (header_type c) e = true /\ 0 <= payload c < 2 ^ 16.
Definition cohesive_ok (p : CohesivePacket.t) : Prop := CohesivePacket.Inv p /\ octets (CohesivePacket.m_buffer p).

(** What the router relies on. *)
Class EnvironmentLaws {SM Report Certificate Ext} (E : Environment SM Report Certificate Ext) := {
  malloc_fresh l : malloc l ∉ l;
  traversal_all m e : e ∈ traversal m <-> exists k, m !! k = Some e;
  (** as many octets are consumed as are reported *)
  deserialize_secured_consumes ar m n ar' : deserialize_secured ar = (Some (m, n), ar') -> length (stream ar) = (n + length (stream ar'))%nat;
  (** a plain text consists of octets, or is the PDU that was signed; only a
      message that is not accepted may come without *)
  plaintext_wellformed m e : match plaintext_payload (decapsulate_packet m e).1 with
    | Cohesive p => cohesive_ok p
    | Chunk p => match ChunkPacket.layer Network p with
                 | SecuredPdu c h => headers_ok c h
                 | _ => is_successful (report (decapsulate_packet m e).1) = false
                 end
    end
}.

(** * The router *)

Section State.
Context {SM Report Certificate Ext : Type} {Env : Environment SM Report Certificate Ext}.

Abbreviation Down := (gmap nat (ByteBufferConvertible SM)).

Record DataIndication := mk_DataIndication {
  ind_upper_protocol : UpperProtocol;
  ind_transport_type : option TransportType;
  ind_destination : DestinationVariant;
  ind_source_position : option ShortPositionVector;
  ind_security_report : option Report;  (* None is boost::blank *)
  ind_its_aid : option Z;
  ind_permissions : option (list Z);
  ind_certificate_id : option Certificate;
  ind_traffic_class : TrafficClass.t;
  ind_remaining_packet_lifetime : option Lifetime.t;
  ind_remaining_hop_limit : option Z
}.

(** dcc::DataRequest *)
Record DccRequest := mk_DccRequest {
  dcc_source : MacAddress; dcc_destination : MacAddress; dcc_profile : TrafficClass.Profile; dcc_lifetime : Z; dcc_ether_type : Z
}.

(** What the router does to the layers around it and to its hooks. *)
Inductive Event :=
| Pass_down (request : DccRequest) (packet : Down)
| Pass_up (ind : DataIndication) (packet : UpPacket SM)
| Packet_dropped (reason : PacketDropReason)
| Forwarding_stopped (reason : ForwardingStopReason).

(** The router's callbacks on the runtime. *)
Inductive Callback := Beacon_timer | Cbf_timer | Repetition_timer (rep : nat).
(** The scopes of the router, its buffer and its repeater. *)
Definition router_scope : Z := 0.
Definition cbf_scope : Z := 1.
Definition repeater_scope : Z := 2.

(** The members of Router that change, its runtime and the events so far in
    the order they happened. *)
Record World := mk_World {
  w_runtime : @ManualRuntime Callback;
  w_table : LocationTable;
  w_bc_buffer : PacketBuffer (Buffered SM);
  w_uc_buffer : PacketBuffer (Buffered SM);
  w_cbf : @CbfPacketBuffer (ForwardPacket SM) RouterCounter;
  w_local_position : LongPositionVector;
  w_local_sequence : SequenceNumber.t;
  w_repeater : @Repeater Down;
  w_memory : GbcMemory.t CbfPacketIdentifier;
  w_security_entity : bool;
  w_transports : UpperProtocol -> bool;
  w_ext : Ext;
  w_events : list Event
}.

Definition set_runtime (v : @ManualRuntime Callback) (w : World) : World :=
  mk_World v (w_table w) (w_bc_buffer w) (w_uc_buffer w) (w_cbf w) (w_local_position w) (w_local_sequence w) (w_repeater w) (w_memory w) (w_security_entity w) (w_transports w) (w_ext w) (w_events w).
Definition set_table (v : LocationTable) (w : World) : World :=
  mk_World (w_runtime w) v (w_bc_buffer w) (w_uc_buffer w) (w_cbf w) (w_local_position w) (w_local_sequence w) (w_repeater w) (w_memory w) (w_security_entity w) (w_transports w) (w_ext w) (w_events w).
Definition set_bc_buffer (v : PacketBuffer (Buffered SM)) (w : World) : World :=
  mk_World (w_runtime w) (w_table w) v (w_uc_buffer w) (w_cbf w) (w_local_position w) (w_local_sequence w) (w_repeater w) (w_memory w) (w_security_entity w) (w_transports w) (w_ext w) (w_events w).
Definition set_uc_buffer (v : PacketBuffer (Buffered SM)) (w : World) : World :=
  mk_World (w_runtime w) (w_table w) (w_bc_buffer w) v (w_cbf w) (w_local_position w) (w_local_sequence w) (w_repeater w) (w_memory w) (w_security_entity w) (w_transports w) (w_ext w) (w_events w).
Definition set_cbf (v : @CbfPacketBuffer (ForwardPacket SM) RouterCounter) (w : World) : World :=
  mk_World (w_runtime w) (w_table w) (w_bc_buffer w) (w_uc_buffer w) v (w_local_position w) (w_local_sequence w) (w_repeater w) (w_memory w) (w_security_entity w) (w_transports w) (w_ext w) (w_events w).
Definition set_local_position (v : LongPositionVector) (w : World) : World :=
  mk_World (w_runtime w) (w_table w) (w_bc_buffer w) (w_uc_buffer w) (w_cbf w) v (w_local_sequence w) (w_repeater w) (w_memory w) (w_security_entity w) (w_transports w) (w_ext w) (w_events w).
Definition set_local_sequence (v : SequenceNumber.t) (w : World) : World :=
  mk_World (w_runtime w) (w_table w) (w_bc_buffer w) (w_uc_buffer w) (w_cbf w) (w_local_position w) v (w_repeater w) (w_memory w) (w_security_entity w) (w_transports w) (w_ext w) (w_events w).
Definition set_repeater (v : @Repeater Down) (w : World) : World :=
  mk_World (w_runtime w) (w_table w) (w_bc_buffer w) (w_uc_buffer w) (w_cbf w) (w_local_position w) (w_local_sequence w) v (w_memory w) (w_security_entity w) (w_transports w) (w_ext w) (w_events w).
Definition set_memory (v : GbcMemory.t CbfPacketIdentifier) (w : World) : World :=
  mk_World (w_runtime w) (w_table w) (w_bc_buffer w) (w_uc_buffer w) (w_cbf w) (w_local_position w) (w_local_sequence w) (w_repeater w) v (w_security_entity w) (w_transports w) (w_ext w) (w_events w).
Definition set_security_entity (v : bool) (w : World) : World :=
  mk_World (w_runtime w) (w_table w) (w_bc_buffer w) (w_uc_buffer w) (w_cbf w) (w_local_position w) (w_local_sequence w) (w_repeater w) (w_memory w) v (w_transports w) (w_ext w) (w_events w).
Definition set_transports (v : UpperProtocol -> bool) (w : World) : World :=
  mk_World (w_runtime w) (w_table w) (w_bc_buffer w) (w_uc_buffer w) (w_cbf w) (w_local_position w) (w_local_sequence w) (w_repeater w) (w_memory w) (w_security_entity w) v (w_ext w) (w_events w).
Definition set_ext (v : Ext) (w : World) : World :=
  mk_World (w_runtime w) (w_table w) (w_bc_buffer w) (w_uc_buffer w) (w_cbf w) (w_local_position w) (w_local_sequence w) (w_repeater w) (w_memory w) (w_security_entity w) (w_transports w) v (w_events w).
Definition set_events (v : list Event) (w : World) : World :=
  mk_World (w_runtime w) (w_table w) (w_bc_buffer w) (w_uc_buffer w) (w_cbf w) (w_local_position w) (w_local_sequence w) (w_repeater w) (w_memory w) (w_security_entity w) (w_transports w) (w_ext w) v.

(** * The monad *)

Definition M (A : Type) : Type := World -> (A + Exception) * World.

Definition throw {A} (e : Exception) : M A := fun w => (inr e, w).
Definition gets {A} (f : World -> A) : M A := fun w => (inl (f w), w).
Definition modify (f : World -> World) : M unit := fun w => (inl tt, f w).
#[export] Instance M_ret : MRet M := fun A a w => (inl a, w).
#[export] Instance M_bind : MBind M := fun A B f m w => match m w with (inl a, w') => f a w' | (inr e, w') => (inr e, w') end.

Definition assertion (b : bool) : M unit := if b then mret tt else throw Assertion_failed.
(** A reference into the location table. *)
Definition deref {A} (o : option A) : M A := match o with Some a => mret a | None => throw Dangling end.
Definition emit (e : Event) : M unit := modify (fun w => set_events (w_events w ++ [e]) w).
Definition get_now : M Z := gets (fun w => m_now (w_runtime w)).

(** ** Reasoning *)

(** From [P] the computation throws nothing, and [Q] holds of its result. *)
Definition runs {A} (P : World -> Prop) (m : M A) (Q : A -> World -> Prop) : Prop :=
  forall w, P w -> match m w with (inl a, w') => Q a w' | (inr _, _) => False end.

Lemma runs_ret {A} (P : World -> Prop) (a : A) (Q : A -> World -> Prop) : (forall w, P w -> Q a w) -> runs P (mret a) Q.
Proof. intros H0 w Hw. now apply H0. Qed.
Lemma runs_bind {A B} P (m : M A) (f : A -> M B) Q R : runs P m Q -> (forall a, runs (Q a) (f a) R) -> runs P (m ≫= f) R.
Proof.
  intros Hm Hf w Hw. specialize (Hm w Hw). unfold mbind, M_bind. destruct (m w) as [[a|e] w']; [|contradiction]. now apply Hf.
Qed.
Lemma runs_gets {A} P (f : World -> A) : runs P (gets f) (fun a w => a = f w /\ P w).
Proof. intros w Hw. now split. Qed.
Lemma runs_modify P f (Q : unit -> World -> Prop) : (forall w, P w -> Q tt (f w)) -> runs P (modify f) Q.
Proof. intros H0 w Hw. now apply H0. Qed.
Lemma runs_conseq {A} (P P' : World -> Prop) (m : M A) (Q Q' : A -> World -> Prop) :
  (forall w, P w -> P' w) -> runs P' m Q' -> (forall a w, Q' a w -> Q a w) -> runs P m Q.
Proof. intros HP Hm HQ w Hw. specialize (Hm w (HP w Hw)). destruct (m w) as [[a|e] w']; auto. Qed.

End State.
#[global] Arguments World SM Report Certificate Ext : clear implicits.
#[global] Arguments DataIndication Report Certificate : clear implicits.
#[global] Arguments Event SM Report Certificate : clear implicits.
#[global] Arguments M SM Report Certificate Ext A : clear implicits.
