(* ===== verification/Router.v ===== *)
(** The operations of the router, geonet/router.cpp, with
    geonet/indication_context.cpp, geonet/parser.cpp (parse_secured) and
    geonet/repetition_dispatcher.hpp. *)

From S2P Require Import Prelude Double GnNumbers Archive GnWire Caches SoftState LocationTable PacketBuffer Scheduler CbfBuffer Packets Areas Requests RouterState.
From stdpp Require Import gmap.

Open Scope Z_scope.

Definition ether_type : Z := 35143. (* 0x8947 *)

Record PositionFix := mk_PositionFix {
  fix_latitude : double; fix_longitude : double; fix_course : double; fix_speed : double; semi_major : double
}.

Section Router.
Context {SM Report Certificate Ext : Type} {Env : Environment SM Report Certificate Ext}.
Variable m_mib : MIB.

Abbreviation W := (World SM Report Certificate Ext).
Abbreviation Router A := (M SM Report Certificate Ext A).
Abbreviation Down := (gmap nat (ByteBufferConvertible SM)).

(** * Access to the members *)

Definition local_address : Router Address := gets (fun w => gn_addr (w_local_position w)).
Definition local_position : Router GeodeticPosition := gets (fun w => position_of (w_local_position w)).

(** Draw from the environment. *)
Definition draw {A} (f : Ext -> A * Ext) : Router A :=
  fun w => let '(a, e) := f (w_ext w) in (inl a, set_ext e w).

Definition table_update (lpv : LongPositionVector) : Router unit :=
  now ← get_now; t ← gets w_table; t ← deref (LocationTable.update now lpv t); modify (set_table t).
Definition table_create (mac : MacAddress) : Router unit :=
  now ← get_now; t ← gets w_table; t ← deref (get_or_create_entry now mac t); modify (set_table t).
(** Reading and changing an entry through the reference to it. *)
Definition entry_at (mac : MacAddress) : Router LocationTableEntry :=
  t ← gets w_table; deref (snd <$> get_data_ptr mac t).
Definition entry_change (mac : MacAddress) (f : LocationTableEntry -> LocationTableEntry) : Router unit :=
  modify (fun w => set_table (assign mac f (w_table w)) w).
Definition table_position (mac : MacAddress) : Router (option LongPositionVector) :=
  now ← get_now; t ← gets w_table; deref (get_position now mac t).
Definition table_entry (mac : MacAddress) : Router (option LocationTableEntry) :=
  now ← get_now; t ← gets w_table; deref (get_entry now mac t).
Definition table_has_entry (addr : Address) : Router bool :=
  now ← get_now; t ← gets w_table; deref (has_entry now addr t).
Definition table_has_neighbours : Router bool := now ← get_now; gets (fun w => has_neighbours now (w_table w)).

Definition bc_push (d : Buffered SM) : Router unit :=
  now ← get_now; modify (fun w => set_bc_buffer (PacketBuffer.push now d (w_bc_buffer w)).2 w).

(** ** The contention-based forwarding buffer *)

Definition gbc_identifier (p : ForwardPacket SM) : CbfPacketIdentifier :=
  let gbc := extended (fwd_pdu p) in (gn_addr (source_position gbc), sequence_number gbc).
Definition cbf_operation {A} (f : CbfPacketBuffer * ManualRuntime -> A * (CbfPacketBuffer * ManualRuntime)) : Router A :=
  fun w => let '(a, (b, rt)) := f (w_cbf w, w_runtime w) in (inl a, set_cbf b (set_runtime rt w)).

Definition cbf_add (p : ForwardPacket SM) (sender : MacAddress) (timeout : Z) : Router unit :=
  cbf_operation (fun s =>
    let packet := mk_CbfPacket (gbc_identifier p) p sender in
    let nodes := map node (m_timers (CbfBuffer.make_room (m_now s.2) (CbfPacket_length packet) s.1)) in
    (tt, CbfBuffer.add Cbf_timer cbf_scope (malloc nodes) packet timeout s)).
Definition cbf_remove (id : CbfPacketIdentifier) : Router bool := cbf_operation (CbfBuffer.remove Cbf_timer cbf_scope id).
Definition cbf_update (id : CbfPacketIdentifier) (timeout : Z) : Router unit :=
  cbf_operation (fun s => (tt, CbfBuffer.update id timeout s)).
Definition cbf_counter (id : CbfPacketIdentifier) : Router Z :=
  now ← get_now; gets (fun w => cnt_counter now id (m_counter (w_cbf w))).

(** * Sending *)

Definition execute_itsg5_procedures : Router unit := mret tt.
Definition execute_media_procedures (com_profile : CommunicationProfile) : Router unit :=
  match com_profile with ITS_G5 => execute_itsg5_procedures | If_Unspecified | LTE_V2X => mret tt end.

(** pass_down for a dcc::DataRequest. *)
Definition pass_down_request (request : DccRequest) (pdu : VariantPdu SM) (payload : Down) : Router unit :=
  match secured pdu with
  | Some _ =>
      if negb (basic_next_header (basic pdu) =? NextHeaderBasic_Secured) then throw Secured_not_set
      else if 0 <? payload_size payload then throw Illegal_payload else mret tt
  | None => if basic_next_header (basic pdu) =? NextHeaderBasic_Secured then throw Secured_message_missing else mret tt
  end;;
  emit (Pass_down request (ChunkPacket.set_layer Network (Pdu_buffer pdu) payload)).

(** pass_down for a MAC address. *)
Definition pass_down (addr : MacAddress) (pdu : VariantPdu SM) (payload : Down) : Router unit :=
  local ← local_address;
  pass_down_request (mk_DccRequest (mid local) addr (TrafficClass.map_tc_onto_profile (traffic_class (common pdu)))
    (clock_cast (Lifetime.decode (lifetime (basic pdu)))) ether_type) pdu payload.

(** The request of a forwarder, which always has profile DP3. *)
Definition pass_down_forwarded (addr : MacAddress) (pdu : VariantPdu SM) (payload : Down) : Router unit :=
  local ← local_address;
  pass_down_request (mk_DccRequest (mid local) addr TrafficClass.DP3
    (clock_cast (Lifetime.decode (lifetime (basic pdu)))) ether_type) pdu payload.

Definition pass_up (ind : DataIndication Report Certificate) (packet : UpPacket SM) : Router unit :=
  transport ← gets (fun w => w_transports w (ind_upper_protocol ind));
  if transport : bool then emit (Pass_up ind packet) else mret tt.

(** reset_beacon_timer(next_beacon) and reset_beacon_timer(). *)
Definition reset_beacon_timer_after (next_beacon : Z) : Router unit :=
  modify (fun w => set_runtime (schedule_after next_beacon Beacon_timer (Some router_scope)
    (Scheduler.cancel (Some router_scope) (w_runtime w))) w).
Definition reset_beacon_timer : Router unit :=
  jitter ← draw draw_real;
  let next_beacon := d_add (itsGnBeaconServiceRetransmitTimer m_mib) (d_mul jitter (itsGnBeaconServiceMaxJitter m_mib)) in
  reset_beacon_timer_after (clock_cast next_beacon).

(** The PDU with its secured message and the packet whose payload went into
    it; nothing without a security entity or when signing fails. *)
Definition encap_packet {H} `{ExtendedHeader H} (aid : Z) (ssp context : list Z) (pdu : Pdu SM H) (packet : Down) :
  Router (option (Pdu SM H * Down)) :=
  security ← gets w_security_entity;
  if security : bool then
    let sec_payload := ChunkPacket.set_layer Network (SecuredPdu (common pdu) (as_variant (extended pdu))) ∅ in
    let '(sec_payload, packet) := ChunkPacket.merge Transport max_osi_layer sec_payload packet in
    confirm ← draw (encapsulate_packet (mk_SignRequest sec_payload aid ssp context));
    assertion (payload_size packet =? 0);;
    assertion (basic_next_header (basic pdu) =? NextHeaderBasic_Secured);;
    mret ((fun msg => (with_secured (Some msg) pdu, packet)) <$> confirm)
  else mret None.

(** The function transmit of request(ShbDataRequest). *)
Definition transmit_shb (ctrl : ControlInfo) (pdu : Pdu SM ShbHeader) (payload : Down) : Router unit :=
  lpv ← gets w_local_position;
  let pdu := with_extended (mk_ShbHeader lpv (dcc (extended pdu))) pdu in
  encapsulated ← (if itsGnSecurity m_mib
    then encap_packet (ctrl_its_aid ctrl) (ctrl_permissions ctrl) (ctrl_security_context ctrl) pdu payload
    else mret (Some (pdu, payload)));
  match encapsulated with
  | None => mret tt
  | Some (pdu, payload) =>
      execute_media_procedures (ctrl_communication_profile ctrl);;
      pass_down cBroadcastMacAddress (variant_of pdu) payload;;
      reset_beacon_timer
  end.

Definition with_source_position (lpv : LongPositionVector) (h : GeoBroadcastHeader) : GeoBroadcastHeader :=
  mk_GeoBroadcastHeader (sequence_number h) (gbc_reserved1 h) lpv (geo_area_pos_latitude h) (geo_area_pos_longitude h)
    (distance_a h) (distance_b h) (angle h) (gbc_reserved2 h).

(** The functions transmit of request(GbcDataRequest) and of
    process_extended for a GeoBroadcastHeader, and noop_fn. *)
Definition transmit_gbc (p : ForwardPacket SM) (mac : MacAddress) : Router unit :=
  match fwd_transmit p with
  | RouterState.Source ctrl =>
      lpv ← gets w_local_position;
      let pdu := with_extended (with_source_position lpv (extended (fwd_pdu p))) (fwd_pdu p) in
      encapsulated ← (if itsGnSecurity m_mib then
          assertion (basic_next_header (basic pdu) =? NextHeaderBasic_Secured);;
          encap_packet (ctrl_its_aid ctrl) (ctrl_permissions ctrl) (ctrl_security_context ctrl) pdu (fwd_payload p)
        else mret (Some (pdu, fwd_payload p)));
      match encapsulated with
      | None => mret tt
      | Some (pdu, payload) =>
          execute_media_procedures (ctrl_communication_profile ctrl);;
          pass_down mac (variant_of pdu) payload
      end
  | Relay =>
      execute_media_procedures (itsGnIfType m_mib);;
      pass_down_forwarded mac (variant_of (fwd_pdu p)) (fwd_payload p)
  | Noop => mret tt
  end.

(** The function transmit of process_extended for a TsbHeader. *)
Definition transmit_tsb (pdu : Pdu SM TsbHeader) (payload : Down) : Router unit :=
  execute_media_procedures (itsGnIfType m_mib);;
  pass_down_forwarded cBroadcastMacAddress (variant_of pdu) payload.

(** NextHop::process() *)
Definition process_next_hop (nh : NextHop SM) : Router unit :=
  match nh with Valid p mac => transmit_gbc p mac | Discarded | Buffered_hop => mret tt end.

(** * Forwarding algorithms *)

(** The neighbour with the most forward progress, after some neighbours. *)
Definition most_forward (dest : GeodeticPosition) (mfr : MacAddress * double) (neighbour : LocationTableEntry) : MacAddress * double :=
  if m_has_position_vector neighbour then
    let dist := distance dest (position_of (m_position_vector neighbour)) in
    if d_ltb dist mfr.2 then (link_layer_address neighbour, dist) else mfr
  else mfr.

Definition MacAddress_default : MacAddress := replicate 6 0.

Definition greedy_forwarding (packet : ForwardPacket SM) : Router (NextHop SM) :=
  let dest := gbc_position (extended (fwd_pdu packet)) in
  epv ← local_position;
  let own := distance dest epv in
  now ← get_now;
  ns ← gets (fun w => traversal (neighbours now (w_table w)));
  let '(mfr_addr, mfr_dist) := fold_left (most_forward dest) ns (MacAddress_default, own) in
  if d_ltb mfr_dist own then mret (Valid packet mfr_addr)
  else if TrafficClass.store_carry_forward (traffic_class (common (fwd_pdu packet))) then
    bc_push (Buf_gbc packet Greedy);; mret Buffered_hop
  else mret (Valid packet cBroadcastMacAddress).

(** timeout_cbf for a progress or a distance, and for a sender. *)
Definition timeout_cbf (prog : double) : Duration :=
  let dist_max := itsGnDefaultMaxCommunicationRange m_mib in
  let to_cbf_min := itsGnCbfMinTime m_mib in
  let to_cbf_max := itsGnCbfMaxTime m_mib in
  if d_ltb dist_max prog then to_cbf_min
  else if d_ltb d_zero prog then d_add to_cbf_max (d_mul (d_div (d_sub to_cbf_min to_cbf_max) dist_max) prog)
  else to_cbf_max.
Definition timeout_cbf_sender (sender : MacAddress) : Router Duration :=
  pv_se ← table_position sender;
  match pv_se with
  | Some pv =>
      if position_accuracy_indicator pv then
        epv ← local_position; mret (timeout_cbf (distance (position_of pv) epv))
      else mret (itsGnCbfMaxTime m_mib)
  | None => mret (itsGnCbfMaxTime m_mib)
  end.

(** GeoBroadcastHeader::destination of the packet. *)
Definition gbc_destination (ht : HeaderType) (gbc : GeoBroadcastHeader) : Router Area :=
  match destination ht gbc with Some area => mret area | None => throw Invalid_GBC_header_type end.

Definition non_area_contention_based_forwarding (packet : ForwardPacket SM) (sender : option MacAddress) : Router (NextHop SM) :=
  let gbc := extended (fwd_pdu packet) in
  let cbf_id := gbc_identifier packet in
  match sender with
  | None => mret (Valid packet cBroadcastMacAddress)
  | Some sender =>
      removed ← cbf_remove cbf_id;
      if removed : bool then mret Discarded
      else
        destination ← gbc_destination (header_type (common (fwd_pdu packet))) gbc;
        epv ← local_position;
        pv_se ← table_position sender;
        match pv_se with
        | Some pv =>
            if position_accuracy_indicator pv then
              let dist_sender := distance (position destination) (position_of pv) in
              let dist_local := distance (position destination) epv in
              if d_ltb dist_local dist_sender then
                let progress := d_sub dist_sender dist_local in
                cbf_add packet sender (clock_cast (timeout_cbf progress));; mret Buffered_hop
              else mret Discarded
            else cbf_add packet sender (clock_cast (itsGnCbfMaxTime m_mib));; mret Buffered_hop
        | None => cbf_add packet sender (clock_cast (itsGnCbfMaxTime m_mib));; mret Buffered_hop
        end
  end.

Definition area_contention_based_forwarding (packet : ForwardPacket SM) (sender : option MacAddress) : Router (NextHop SM) :=
  let cbf_id := gbc_identifier packet in
  match sender with
  | None => mret (Valid packet cBroadcastMacAddress)
  | Some sender =>
      removed ← cbf_remove cbf_id;
      if removed : bool then mret Discarded
      else
        counter ← cbf_counter cbf_id;
        if vanetzaCbfMaxCounter m_mib <=? counter then mret Discarded
        else
          timeout ← timeout_cbf_sender sender;
          cbf_add packet sender (clock_cast timeout);; mret Buffered_hop
  end.

Definition outside_sectorial_contention_area (sender forwarder : MacAddress) : Router bool :=
  position_sender ← table_position sender;
  position_forwarder ← table_position forwarder;
  epv ← local_position;
  match position_sender, position_forwarder with
  | Some ps, Some pf =>
      let dist_r := distance (position_of ps) epv in
      let dist_f := distance (position_of pf) (position_of ps) in
      let dist_max := itsGnDefaultMaxCommunicationRange m_mib in
      let dist_rf := distance (position_of pf) epv in
      let angle_fsr :=
        if d_ltb d_zero dist_r && d_ltb d_zero dist_f then
          d_acos (d_div (d_sub (d_sub (d_mul dist_rf dist_rf) (d_mul dist_r dist_r)) (d_mul dist_f dist_f))
                        (d_mul (d_mul (d_of_Z (-2)) dist_r) dist_f))
        else d_zero in
      let angle_th := itsGnBroadcastCBFDefSectorAngle m_mib in
      mret (negb (d_ltb dist_r dist_f && d_ltb dist_f dist_max && d_ltb angle_fsr angle_th))
  | _, _ => mret true
  end.

Definition is_broadcast_hop (nh : NextHop SM) : bool :=
  match nh with Valid _ mac => bool_decide (mac = cBroadcastMacAddress) | _ => false end.

Definition area_advanced_forwarding (packet : ForwardPacket SM) (ll : option LinkLayer) : Router (NextHop SM) :=
  match ll with
  | None => mret (Valid packet cBroadcastMacAddress)
  | Some ll =>
      destination_area ← gbc_destination (header_type (common (fwd_pdu packet))) (extended (fwd_pdu packet));
      let max_counter := vanetzaCbfMaxCounter m_mib in
      let cbf_id := gbc_identifier packet in
      cbf_packet ← gets (fun w => CbfBuffer.find cbf_id (w_cbf w));
      match cbf_packet with
      | Some cbf_packet =>
          counter ← cbf_counter cbf_id;
          if max_counter <=? counter then cbf_remove cbf_id;; mret Discarded
          else
            outside ← outside_sectorial_contention_area (m_sender cbf_packet) (ll_sender ll);
            if negb outside then cbf_remove cbf_id;; mret Discarded
            else
              timeout ← timeout_cbf_sender (ll_sender ll);
              cbf_update cbf_id (clock_cast timeout);; mret Buffered_hop
      | None =>
          local ← local_address;
          if bool_decide (ll_destination ll = mid local) then
            nh ← greedy_forwarding (duplicate_pending packet);
            (if is_broadcast_hop nh
             then cbf_add (mk_ForwardPacket (fwd_pdu packet) (fwd_payload packet) Noop) (ll_sender ll) (clock_cast (itsGnCbfMaxTime m_mib))
             else cbf_add packet (ll_sender ll) (clock_cast (itsGnCbfMaxTime m_mib)));;
            mret nh
          else
            timeout ← timeout_cbf_sender (ll_sender ll);
            cbf_add packet (ll_sender ll) (clock_cast timeout);; mret Buffered_hop
      end
  end.

Definition forwarding_algorithm_selection (packet : ForwardPacket SM) (ll : option LinkLayer) : Router (NextHop SM) :=
  destination ← gbc_destination (header_type (common (fwd_pdu packet))) (extended (fwd_pdu packet));
  epv ← local_position;
  if inside_or_at_border destination epv then
    match itsGnAreaForwardingAlgorithm m_mib with
    | Bc_Unspecified | Bc_SIMPLE => mret (Valid packet cBroadcastMacAddress)
    | Bc_CBF => area_contention_based_forwarding packet (ll_sender <$> ll)
    | Bc_Advanced => area_advanced_forwarding packet ll
    end
  else
    pv_se ← match ll with Some ll => table_position (ll_sender ll) | None => mret None end;
    if match pv_se with
       | Some pv => position_accuracy_indicator pv && inside_or_at_border destination (position_of pv)
       | None => false
       end
    then emit (Forwarding_stopped Stop_Outside_Destination_Area);; mret Discarded
    else
      match itsGnNonAreaForwardingAlgorithm m_mib with
      | Uc_Unspecified | Uc_Greedy => greedy_forwarding packet
      | Uc_CBF => non_area_contention_based_forwarding packet (ll_sender <$> ll)
      end.

(** * Buffers *)

(** What the function of a buffered packet does. *)
Definition process_buffered (b : Buffered SM) : Router unit :=
  match b with
  | Buf_shb pdu payload ctrl => transmit_shb ctrl pdu payload
  | Buf_tsb pdu payload => transmit_tsb pdu payload
  | Buf_gbc p (Forwarding ll) => nh ← forwarding_algorithm_selection p ll; process_next_hop nh
  | Buf_gbc p Greedy => nh ← greedy_forwarding p; process_next_hop nh
  end.

(** PacketBuffer::flush on one of the two buffers; the packets that are left
    are not processed after an exception. *)
Definition flush_step (get : W -> PacketBuffer (Buffered SM)) (set : PacketBuffer (Buffered SM) -> W -> W) (d : Buffered SM)
  (s : PacketBuffer (Buffered SM) * (option Exception * W)) : PacketBuffer (Buffered SM) * (option Exception * W) :=
  let '(b, (e, w)) := s in
  match e with
  | Some _ => s
  | None => let '(r, w') := process_buffered d (set b w) in (get w', (match r with inl _ => None | inr e => Some e end, w'))
  end.
Definition flush_buffer (get : W -> PacketBuffer (Buffered SM)) (set : PacketBuffer (Buffered SM) -> W -> W) : Router unit :=
  fun w =>
    let '(b, (e, w')) := PacketBuffer.flush (m_now (w_runtime w)) (flush_step get set) (get w, (None, w)) in
    (match e with None => inl tt | Some e => inr e end, set b w').
Definition flush_broadcast_forwarding_buffer : Router unit := flush_buffer w_bc_buffer set_bc_buffer.
Definition flush_unicast_forwarding_buffer (source : Address) : Router unit := flush_buffer w_uc_buffer set_uc_buffer.
Definition flush_forwarding_buffers : Router unit :=
  flush_broadcast_forwarding_buffer;;
  source ← local_address;
  flush_unicast_forwarding_buffer source.

(** The callback of the contention-based forwarding buffer's timer. *)
Fixpoint process_cbf (packets : list (@CbfPacket (ForwardPacket SM))) : Router unit :=
  match packets with
  | [] => mret tt
  | p :: ps => transmit_gbc (m_packet p) cBroadcastMacAddress;; process_cbf ps
  end.
Definition on_cbf_timer_expired : Router unit :=
  out ← cbf_operation (fun s => let '(s', out) := CbfBuffer.flush Cbf_timer cbf_scope s in (out, s'));
  process_cbf out.

(** * Local state *)

Definition update_position (position_fix : PositionFix) : Router unit :=
  now ← get_now;
  lpv ← gets w_local_position;
  modify (set_local_position (mk_LongPositionVector (gn_addr lpv) (Timestamp.of_time_point now)
    (geo_angle_i32t (fix_latitude position_fix)) (geo_angle_i32t (fix_longitude position_fix))
    (d_ltb (d_mul (semi_major position_fix) (d_of_Z 2)) (itsGnPaiInterval m_mib))
    (if itsGnIsMobile m_mib then speed_u15t (fix_speed position_fix) else 0)
    (if itsGnIsMobile m_mib then heading_u16t (fix_course position_fix) else 0))).

Definition with_address (a : Address) (lpv : LongPositionVector) : LongPositionVector :=
  mk_LongPositionVector a (timestamp lpv) (latitude lpv) (longitude lpv) (position_accuracy_indicator lpv) (speed lpv) (heading lpv).
Definition set_address (addr : Address) : Router unit :=
  modify (fun w => set_local_position (with_address addr (w_local_position w)) w).
Definition set_transport_handler (proto : UpperProtocol) (ifc : bool) : Router unit :=
  modify (fun w => set_transports (fun p => if decide (p = proto) then ifc else w_transports w p) w).
Definition set_security (entity : bool) : Router unit := modify (set_security_entity entity).

(** ** Duplicates *)

Fixpoint random_octets (n : nat) : Router (list Z) :=
  match n with
  | O => mret []
  | S n' => octet ← draw draw_unsigned; octets ← random_octets n'; mret (u8 octet :: octets)
  end.

Definition detect_duplicate_address (source : Address) (sender : MacAddress) : Router unit :=
  match itsGnLocalAddrConfMethod m_mib with
  | Auto =>
      local ← local_address;
      if bool_decide (source = local) || bool_decide (sender = mid local) then
        random_mac_addr ← random_octets 6;
        set_address (mk_Address (manually_configured local) (station_type local) (country_code local) random_mac_addr)
      else mret tt
  | Managed | Anonymous => mret tt
  end.

Definition detect_duplicate_packet (addr_so : Address) (sn : SequenceNumber.t) : Router bool :=
  table_create (mid addr_so);;
  so ← entry_at (mid addr_so);
  let '(is_duplicate, dpl) := DuplicatePacketList.check sn
    (default (DuplicatePacketList.create (itsGnDPLLength m_mib)) (duplicate_packet_list so)) in
  entry_change (mid addr_so) (with_duplicate_packet_list dpl);;
  mret is_duplicate.

(** * Requests *)

Definition set_header_type (ht : HeaderType) (h : CommonHeader) : CommonHeader :=
  mk_CommonHeader (common_next_header h) (reserved1 h) ht (traffic_class h) (flags h) (payload h) (maximum_hop_limit h) (reserved2 h).
Definition set_payload (size : Z) (h : CommonHeader) : CommonHeader :=
  mk_CommonHeader (common_next_header h) (reserved1 h) (header_type h) (traffic_class h) (flags h) (u16 size) (maximum_hop_limit h) (reserved2 h).
Definition set_maximum_hop_limit (n : Z) (h : CommonHeader) : CommonHeader :=
  mk_CommonHeader (common_next_header h) (reserved1 h) (header_type h) (traffic_class h) (flags h) (payload h) n (reserved2 h).
Definition set_hop_limit (n : Z) (h : BasicHeader) : BasicHeader :=
  mk_BasicHeader (version h) (basic_next_header h) (basic_reserved h) (lifetime h) n.
Definition set_next_header (n : Z) (h : BasicHeader) : BasicHeader :=
  mk_BasicHeader (version h) n (basic_reserved h) (lifetime h) (hop_limit h).

Definition create_shb_pdu (request : DataRequest) : Router (Pdu SM ShbHeader) :=
  lpv ← gets w_local_position;
  field ← draw generate_dcc_field;
  mret (mk_Pdu (set_hop_limit 1 (BasicHeader_of_request request m_mib))
    (set_maximum_hop_limit 1 (set_header_type HeaderType_TSB_Single_Hop (CommonHeader_of_request request m_mib)))
    (mk_ShbHeader lpv field) None).

Definition create_beacon_pdu : Router (Pdu SM BeaconHeader) :=
  lpv ← gets w_local_position;
  let c := CommonHeader_of_mib m_mib in
  mret (mk_Pdu (set_hop_limit 1 (BasicHeader_of_mib m_mib))
    (mk_CommonHeader NextHeaderCommon_Any (reserved1 c) HeaderType_Beacon (itsGnDefaultTrafficClass m_mib) (flags c) (payload c) 1 (reserved2 c))
    (mk_BeaconHeader lpv) None).

Definition create_gbc_pdu (request : DataRequest) (area : Area) : Router (Pdu SM GeoBroadcastHeader) :=
  sn ← gets w_local_sequence;
  let '(sn, next_sn) := SequenceNumber.post_increment sn in
  modify (set_local_sequence next_sn);;
  lpv ← gets w_local_position;
  mret (mk_Pdu (BasicHeader_of_request request m_mib)
    (set_header_type (gbc_header_type area) (CommonHeader_of_request request m_mib))
    (set_destination area (mk_GeoBroadcastHeader sn 0 lpv 0 0 0 0 0 0)) None).

(** m_repeater.add *)
Definition repeater_add (request : DataRequestVariant) (payload : Down) : Router unit :=
  modify (fun w => let '(r, rt) := add_request Repetition_timer repeater_scope request payload (w_repeater w, w_runtime w) in
    set_repeater r (set_runtime rt w)).

(** A packet of the size of its payload layers. *)
Definition down_size (payload : Down) : Z := ChunkPacket.total payload.

Definition request_shb (request : DataRequest) (payload : option Down) : Router ResultCode :=
  let result := xor_result (xor_result Accepted (validate_data_request request m_mib)) (validate_payload (down_size <$> payload) m_mib) in
  match payload with
  | Some payload =>
      if accepted result then
        repeater_add (ShbDataRequest request) payload;;
        pdu ← create_shb_pdu request;
        let pdu := with_common (set_payload (down_size payload) (common pdu)) pdu in
        let ctrl := ControlInfo_of request in
        neighbours ← table_has_neighbours;
        (if TrafficClass.store_carry_forward (request_traffic_class request) && negb neighbours
         then bc_push (Buf_shb pdu payload ctrl)
         else transmit_shb ctrl pdu payload);;
        mret result
      else mret result
  | None => mret result
  end.

Definition request_gbc (request : DataRequest) (area : Area) (payload : option Down) : Router ResultCode :=
  let result := xor_result (xor_result Accepted (validate_data_request_area request area m_mib)) (validate_payload (down_size <$> payload) m_mib) in
  match payload with
  | Some payload =>
      if accepted result then
        repeater_add (GbcDataRequest request area) payload;;
        pdu ← create_gbc_pdu request area;
        let pdu := with_common (set_payload (down_size payload) (common pdu)) pdu in
        let packet := mk_ForwardPacket pdu payload (RouterState.Source (ControlInfo_of request)) in
        neighbours ← table_has_neighbours;
        (if TrafficClass.store_carry_forward (request_traffic_class request) && negb neighbours
         then bc_push (Buf_gbc packet (Forwarding None))
         else process_buffered (Buf_gbc packet (Forwarding None)));;
        mret result
      else mret result
  | None => mret result
  end.

(** The overloads of request(), as RepetitionDispatcher calls them. *)
Definition request (r : DataRequestVariant) (payload : option Down) : Router ResultCode :=
  match r with
  | ShbDataRequest r => request_shb r payload
  | GbcDataRequest r area => request_gbc r area payload
  | GacDataRequest _ _ | GucDataRequest _ _ | TsbDataRequest _ => mret Rejected_Unspecified
  end.

(** ** Timers *)

(** Repeater::trigger with dispatch_repetition. *)
Definition on_repetition (rep : nat) (invocation : Z) : Router unit :=
  now ← get_now;
  r ← gets w_repeater;
  found ← deref (find_repetition rep r);
  let '(req, payload) := found in
  assertion (match repetition (access_request req) with Some _ => true | None => false end);;
  request (modify_request (repeated now invocation) req) (Some payload);;
  modify (fun w => set_repeater (erase_repetition rep (w_repeater w)) w).

Definition on_beacon_timer_expired : Router unit :=
  lpv ← gets w_local_position;
  if vanetzaDisableBeaconing m_mib then mret tt
  else if timestamp lpv =? 0 then reset_beacon_timer
  else
    pdu ← create_beacon_pdu;
    encapsulated ← (if itsGnSecurity m_mib
      then encap_packet 141 [] [] (with_basic (set_next_header NextHeaderBasic_Secured (basic pdu)) pdu) ∅
      else mret (Some (with_basic (set_next_header NextHeaderBasic_Common (basic pdu)) pdu, ∅)));
    match encapsulated with
    | None => mret tt
    | Some (pdu, payload) =>
        execute_media_procedures (itsGnIfType m_mib);;
        pass_down cBroadcastMacAddress (variant_of pdu) payload;;
        reset_beacon_timer
    end.

Definition on_callback (cb : Callback) (invocation : Z) : Router unit :=
  match cb with
  | Beacon_timer => on_beacon_timer_expired
  | Cbf_timer => on_cbf_timer_expired
  | Repetition_timer rep => on_repetition rep invocation
  end.

(** The constructor, on a runtime and an environment. *)
Definition Router_create (rt : @ManualRuntime Callback) (e : Ext) : W :=
  let w := mk_World rt (LocationTable_create (clock_cast (itsGnLifetimeLocTE m_mib)))
    (PacketBuffer_empty (u32 (itsGnBcForwardingPacketBufferSize m_mib * 1024)))
    (PacketBuffer_empty (u32 (itsGnUcForwardingPacketBufferSize m_mib * 1024)))
    (CbfPacketBuffer_create (create_cbf_counter m_mib) (u32 (itsGnCbfPacketBufferSize m_mib * 1024)))
    LongPositionVector_default 0 Repeater_create
    (GbcMemory.set_capacity (vanetzaGbcMemoryCapacity m_mib) GbcMemory.create) false (fun _ => false) e [] in
  snd ((if vanetzaDisableBeaconing m_mib then mret tt
   else if 0 <? vanetzaDeferInitialBeacon m_mib then
     real ← draw draw_real;
     reset_beacon_timer_after (vanetzaDeferInitialBeacon m_mib + clock_cast (d_mul real (itsGnBeaconServiceMaxJitter m_mib)))
   else reset_beacon_timer_after 0 : Router unit) w).

End Router.
