(* ===== verification/Indication.v ===== *)
(** The reception of packets: geonet/indication_context.cpp, parse_secured of
    geonet/parser.cpp and the indicate and process_extended functions of
    geonet/router.cpp. *)

From S2P Require Import Prelude Double GnNumbers Archive GnWire Caches SoftState LocationTable PacketBuffer Scheduler CbfBuffer Packets Areas Requests RouterState Router.
From stdpp Require Import gmap.

Open Scope Z_scope.

Section Indication.
Context {SM Report Certificate Ext : Type} {Env : Environment SM Report Certificate Ext}.
Variable m_mib : MIB.

Abbreviation W := (World SM Report Certificate Ext).
Abbreviation Router A := (M SM Report Certificate Ext A).
Abbreviation Down := (gmap nat (ByteBufferConvertible SM)).
Abbreviation Indication := (DataIndication Report Certificate).

(** * Contexts *)

(** The four indication contexts, with what they refer to. *)
Inductive Origin :=
| Deserialize (parser : Parser) (packet : CohesivePacket.t)
| Cast (packet : Down)
| SecuredDeserialize (parser : Parser) (packet : CohesivePacket.t) (parent : Origin)
| SecuredCast (packet : UpPacket SM).

Record Context := mk_Context {
  origin : Origin; ctx_pdu : VariantPdu SM; link_layer : LinkLayer; service_primitive : Indication
}.

Definition BasicHeader_default : BasicHeader := mk_BasicHeader 0 NextHeaderBasic_Any 0 0 0.
Definition CommonHeader_default : CommonHeader := mk_CommonHeader NextHeaderCommon_Any 0 HeaderType_Any 0 0 0 0 0.
Definition VariantPdu_default : VariantPdu SM :=
  mk_Pdu BasicHeader_default CommonHeader_default (Beacon (mk_BeaconHeader LongPositionVector_default)) None.
Definition DataIndication_default : Indication :=
  mk_DataIndication Unknown None To_nothing None None None None None 0 None None.

Definition context_deserialize (packet : CohesivePacket.t) (ll : LinkLayer) : Context :=
  mk_Context (Deserialize (Parser_of (CohesivePacket.get packet Network)) packet) VariantPdu_default ll DataIndication_default.
Definition context_cast (packet : Down) (ll : LinkLayer) : Router Context :=
  match ChunkPacket.layer Network packet with
  | Pdu_buffer pdu => mret (mk_Context (Cast packet) pdu ll DataIndication_default)
  | _ => throw Pdu_cast_failed
  end.

Definition with_origin (o : Origin) (ctx : Context) : Context := mk_Context o (ctx_pdu ctx) (link_layer ctx) (service_primitive ctx).
Definition with_pdu (pdu : VariantPdu SM) (ctx : Context) : Context := mk_Context (origin ctx) pdu (link_layer ctx) (service_primitive ctx).
Definition with_primitive (ind : Indication) (ctx : Context) : Context := mk_Context (origin ctx) (ctx_pdu ctx) (link_layer ctx) ind.

(** finish(); no result when an assertion of the packet fails. *)
Fixpoint finish (o : Origin) (payload : Z) : option (UpPacket SM) :=
  match o with
  | Deserialize parser packet =>
      packet ← CohesivePacket.set_boundary Network (m_read_bytes parser) packet;
      packet ← CohesivePacket.trim Transport (Z.to_nat payload) packet;
      Some (Cohesive packet)
  | Cast packet => Some (Chunk packet)
  | SecuredDeserialize parser packet parent =>
      packet ← CohesivePacket.set_boundary Network (m_read_bytes parser) packet;
      _ ← finish parent payload;
      Some (Cohesive (CohesivePacket.copy packet))
  | SecuredCast packet => Some packet
  end.
Definition finish_context (ctx : Context) : Router (UpPacket SM) :=
  match finish (origin ctx) (payload (common (ctx_pdu ctx))) with Some packet => mret packet | None => throw Assertion_failed end.

Definition parse_basic_header (ctx : Context) : option BasicHeader * Context :=
  match origin ctx with
  | Deserialize parser packet =>
      let '(_, h, parser) := parse_basic parser in
      (h, with_origin (Deserialize parser packet) (match h with Some h => with_pdu (with_basic h (ctx_pdu ctx)) ctx | None => ctx end))
  | Cast _ => (Some (basic (ctx_pdu ctx)), ctx)
  | SecuredDeserialize _ _ _ | SecuredCast _ => (None, ctx)
  end.

Definition parse_common_header (ctx : Context) : option CommonHeader * Context :=
  let parsed o := fun '(_, h, parser) =>
    (h, with_origin (o parser) (match h with Some h => with_pdu (with_common h (ctx_pdu ctx)) ctx | None => ctx end)) in
  match origin ctx with
  | Deserialize parser packet => parsed (fun p => Deserialize p packet) (parse_common parser)
  | SecuredDeserialize parser packet parent => parsed (fun p => SecuredDeserialize p packet parent) (parse_common parser)
  | Cast _ | SecuredCast _ => (Some (common (ctx_pdu ctx)), ctx)
  end.

(** Parser::parse_secured; the archive is only read when it is good, and only
    for the versions up to 3. *)
Definition parse_secured (p : Parser) : nat * option SM * Parser :=
  if is_good (archive p) then
    match peek_byte (archive p) with
    | (Some first, ar) =>
        if first <=? 3 then
          let '(r, ar) := deserialize_secured ar in
          match r with
          | Some (m, bytes) => (bytes, Some m, mk_Parser ar (m_read_bytes p + bytes))
          | None => (0%nat, None, mk_Parser ar (m_read_bytes p))
          end
        else (0%nat, None, mk_Parser ar (m_read_bytes p))
    | (None, ar) => (0%nat, None, mk_Parser ar (m_read_bytes p))
    end
  else (0%nat, None, p).

Definition parse_secured_message (ctx : Context) : option SM * Context :=
  match origin ctx with
  | Deserialize parser packet =>
      let '(bytes, m, parser) := parse_secured parser in
      let ctx := with_origin (Deserialize parser packet) ctx in
      if (0 <? bytes)%nat then (m, with_pdu (with_secured m (ctx_pdu ctx)) ctx) else (None, ctx)
  | Cast _ => (secured (ctx_pdu ctx), ctx)
  | SecuredDeserialize _ _ _ | SecuredCast _ => (None, ctx)
  end.

Definition parse_extended_header (ht : HeaderType) (ctx : Context) : option HeaderVariant * Context :=
  let parsed o := fun '(_, h, parser) =>
    (h, with_origin (o parser) (match h with Some h => with_pdu (with_extended h (ctx_pdu ctx)) ctx | None => ctx end)) in
  match origin ctx with
  | Deserialize parser packet => parsed (fun p => Deserialize p packet) (parse_extended ht parser)
  | SecuredDeserialize parser packet parent => parsed (fun p => SecuredDeserialize p packet parent) (parse_extended ht parser)
  | Cast _ | SecuredCast _ => (Some (extended (ctx_pdu ctx)), ctx)
  end.

(** The constructors of the contexts for a secured message's payload. *)
Definition context_secured_deserialize (parent : Context) (packet : CohesivePacket.t) : Context :=
  with_origin (SecuredDeserialize (Parser_of (CohesivePacket.get packet Network)) packet (origin parent)) parent.
Definition context_secured_cast (parent : Context) (packet : Down) : Router Context :=
  parent_packet ← finish_context parent;
  match ChunkPacket.layer Network packet with
  | SecuredPdu c e =>
      let merged := match parent_packet with
        | Chunk p => Chunk (ChunkPacket.merge Transport max_osi_layer p packet).1
        | Cohesive _ =>
            let buffer := replicate (Z.to_nat (ChunkPacket.total packet)) 0 ++
              concat (map (fun ol => convert (ChunkPacket.layer ol packet)) (osi_layer_range Transport max_osi_layer)) in
            Cohesive (CohesivePacket.create buffer Transport)
        end in
      mret (with_origin (SecuredCast merged) (with_pdu (with_extended e (with_common c (ctx_pdu parent))) parent))
  | _ => throw SecuredPdu_cast_failed
  end.

(** * Extended headers *)

Definition packet_dropped (reason : PacketDropReason) : Router unit := emit (Packet_dropped reason).
Definition forwarding_stopped (reason : ForwardingStopReason) : Router unit := emit (Forwarding_stopped reason).

Definition received_size (packet : UpPacket SM) : Z := packet_size packet Network Application.

(** source_entry.update_pdr *)
Definition entry_update_pdr (mac : MacAddress) (size : Z) : Router unit :=
  now ← get_now; entry_change mac (update_pdr now size (itsGnMaxPacketDataRateEmaBeta m_mib)).

Definition process_shb (pdu : Pdu SM ShbHeader) (packet : UpPacket SM) (ll : LinkLayer) : Router bool :=
  let shb := extended pdu in
  let source_addr := gn_addr (shb_source_position shb) in
  let key := mid source_addr in
  detect_duplicate_address m_mib source_addr (ll_sender ll);;
  table_update (shb_source_position shb);;
  source_entry ← entry_at key;
  assertion (m_has_position_vector source_entry || negb (is_valid (shb_source_position shb)));;
  entry_update_pdr key (received_size packet);;
  now ← get_now;
  entry_change key (set_neighbour_expiry now true (vanetzaNeighbourFlagExpiry m_mib));;
  match itsGnIfType m_mib, get_dcc_mco (dcc shb) with
  | ITS_G5, Some mco =>
      entry_change key (with_loctex_g5 (mk_LocTEX_G5 (Timestamp.of_time_point now) (timestamp (shb_source_position shb)) mco))
  | _, _ => mret tt
  end;;
  mret true.

Definition process_beacon (pdu : Pdu SM BeaconHeader) (packet : UpPacket SM) (ll : LinkLayer) : Router bool :=
  let beacon := extended pdu in
  let source_addr := gn_addr (beacon_source_position beacon) in
  let key := mid source_addr in
  detect_duplicate_address m_mib source_addr (ll_sender ll);;
  table_update (beacon_source_position beacon);;
  entry_update_pdr key (received_size packet);;
  now ← get_now;
  entry_change key (set_neighbour_expiry now true (vanetzaNeighbourFlagExpiry m_mib));;
  mret false.

(** The checks of packet data rates; the reason to stop forwarding. *)
Definition exceeded_pdr (source : MacAddress) (ll : LinkLayer) : Router (option ForwardingStopReason) :=
  if itsGnMaxPacketDataRate m_mib <? 2 ^ 32 - 1 then
    let limit := d_mul (d_of_Z (itsGnMaxPacketDataRate m_mib)) (d_of_Z 1000) in
    source_entry ← entry_at source;
    if d_ltb limit (m_pdr source_entry) then mret (Some Stop_Source_PDR)
    else
      sender_entry ← table_entry (ll_sender ll);
      match sender_entry with
      | Some e => if d_ltb limit (m_pdr e) then mret (Some Stop_Sender_PDR) else mret None
      | None => mret None
      end
  else mret None.

(** create_forwarding_duplicate with the hop limit updated. *)
Definition forwarding_duplicate {H} (pdu : Pdu SM H) (packet : UpPacket SM) : Pdu SM H * Down :=
  (with_basic (set_hop_limit (u8 (hop_limit (basic pdu) - 1)) (basic pdu)) pdu,
   match secured pdu with Some _ => ∅ | None => duplicate_packet packet end).

Definition process_tsb (pdu : Pdu SM TsbHeader) (packet : UpPacket SM) (ll : LinkLayer) : Router bool :=
  let tsb := extended pdu in
  let source_addr := gn_addr (tsb_source_position tsb) in
  let key := mid source_addr in
  locte_exists ← table_has_entry source_addr;
  is_duplicate ← detect_duplicate_packet m_mib source_addr (tsb_sequence_number tsb);
  if is_duplicate : bool then mret false
  else
    (if vanetzaMultiHopDuplicateAddressDetection m_mib then detect_duplicate_address m_mib source_addr (ll_sender ll) else mret tt);;
    table_update (tsb_source_position tsb);;
    (if negb locte_exists then entry_change key (set_neighbour false) else mret tt);;
    entry_update_pdr key (received_size packet);;
    flush_unicast_forwarding_buffer m_mib source_addr;;
    if hop_limit (basic pdu) <=? 1 then forwarding_stopped Stop_Hop_Limit;; mret true
    else
      exceeded ← exceeded_pdr key ll;
      match exceeded with
      | Some reason => forwarding_stopped reason;; mret true
      | None =>
          let '(fwd_pdu, fwd_payload) := forwarding_duplicate pdu packet in
          assertion (hop_limit (basic fwd_pdu) + 1 =? hop_limit (basic pdu));;
          neighbours ← table_has_neighbours;
          (if TrafficClass.store_carry_forward (traffic_class (common pdu)) && negb neighbours
           then bc_push (Buf_tsb fwd_pdu fwd_payload)
           else transmit_tsb m_mib fwd_pdu fwd_payload);;
          mret true
      end.

Definition decide_pass_up (within_destination : bool) (gbc : GeoBroadcastHeader) : Router bool :=
  let accept := within_destination || vanetzaGbcPassUpOutsideDestination m_mib in
  if (vanetzaGbcMemoryCapacity m_mib =? 0)%nat then mret accept
  else if accept then
    memory ← gets w_memory;
    let '(known, memory) := GbcMemory.remember (gn_addr (source_position gbc), sequence_number gbc) memory in
    modify (set_memory memory);;
    mret (negb known)
  else mret false.

(** Step 3 of the forwarder: where duplicates are looked for. *)
Definition gbc_duplicate_detection (within_destination : bool) : bool :=
  if within_destination
  then match itsGnAreaForwardingAlgorithm m_mib with Bc_Unspecified | Bc_SIMPLE => true | Bc_CBF | Bc_Advanced => false end
  else match itsGnNonAreaForwardingAlgorithm m_mib with Uc_Unspecified | Uc_Greedy => true | Uc_CBF => false end.

Definition process_gbc (pdu : Pdu SM GeoBroadcastHeader) (packet : UpPacket SM) (ll : LinkLayer) : Router bool :=
  let gbc := extended pdu in
  let source_addr := gn_addr (source_position gbc) in
  let key := mid source_addr in
  dest_area ← gbc_destination (header_type (common pdu)) gbc;
  locte_exists ← table_has_entry source_addr;
  epv ← local_position;
  let within_destination := inside_or_at_border dest_area epv in
  is_duplicate ← (if gbc_duplicate_detection within_destination
    then detect_duplicate_packet m_mib source_addr (sequence_number gbc) else mret false);
  if is_duplicate : bool then mret false
  else
    (if vanetzaMultiHopDuplicateAddressDetection m_mib then detect_duplicate_address m_mib source_addr (ll_sender ll) else mret tt);;
    table_update (source_position gbc);;
    entry_update_pdr key (received_size packet);;
    (if negb locte_exists then entry_change key (set_neighbour false) else mret tt);;
    flush_unicast_forwarding_buffer m_mib source_addr;;
    if hop_limit (basic pdu) <=? 1 then forwarding_stopped Stop_Hop_Limit;; decide_pass_up within_destination gbc
    else if d_ltb (itsGnMaxGeoAreaSize m_mib) (area_size dest_area) then
      forwarding_stopped Stop_Geo_Area_Size;; decide_pass_up within_destination gbc
    else
      exceeded ← exceeded_pdr key ll;
      match exceeded with
      | Some reason => forwarding_stopped reason;; decide_pass_up within_destination gbc
      | None =>
          let '(fwd_pdu, fwd_payload) := forwarding_duplicate pdu packet in
          assertion (hop_limit (basic fwd_pdu) + 1 =? hop_limit (basic pdu));;
          let fwd_packet := Buf_gbc (mk_ForwardPacket fwd_pdu fwd_payload Relay) (Forwarding (Some ll)) in
          neighbours ← table_has_neighbours;
          (if TrafficClass.store_carry_forward (traffic_class (common pdu)) && negb neighbours
           then bc_push fwd_packet
           else process_buffered m_mib fwd_packet);;
          decide_pass_up within_destination gbc
      end.

(** * Indications *)

Definition ind_extended (ind : Indication) (tt : TransportType) (pos : LongPositionVector) (dest : DestinationVariant) : Indication :=
  mk_DataIndication (ind_upper_protocol ind) (Some tt) dest (Some (ShortPositionVector_of pos)) (ind_security_report ind)
    (ind_its_aid ind) (ind_permissions ind) (ind_certificate_id ind) (ind_traffic_class ind) (ind_remaining_packet_lifetime ind)
    (ind_remaining_hop_limit ind).

(** extended_header_visitor: whether the packet is passed up, and with what. *)
Definition visit_extended (ctx : Context) (packet : UpPacket SM) (h : HeaderVariant) : Router (bool * Indication) :=
  let pdu := ctx_pdu ctx in
  let ind := service_primitive ctx in
  match h with
  | Shb shb =>
      up ← process_shb (with_extended shb pdu) packet (link_layer ctx);
      mret (up, ind_extended ind SHB (shb_source_position shb) (ind_destination ind))
  | Tsb tsb =>
      up ← process_tsb (with_extended tsb pdu) packet (link_layer ctx);
      mret (up, ind_extended ind TSB (tsb_source_position tsb) (ind_destination ind))
  | GeoBroadcast gbc =>
      area ← gbc_destination (header_type (common pdu)) gbc;
      up ← process_gbc (with_extended gbc pdu) packet (link_layer ctx);
      mret (up, ind_extended ind GBC (source_position gbc) (To_area area))
  | Beacon beacon =>
      up ← process_beacon (with_extended beacon pdu) packet (link_layer ctx);
      mret (up, ind)
  end.

Definition indicate_extended (ctx : Context) (common : CommonHeader) : Router unit :=
  let '(extended, ctx) := parse_extended_header (header_type common) ctx in
  packet ← finish_context ctx;
  match extended with
  | None => packet_dropped Parse_Extended_Header
  | Some h =>
      if negb (payload common =? packet_size packet Transport max_osi_layer) then packet_dropped Payload_Size
      else
        r ← visit_extended ctx packet h;
        let '(up, ind) := r in
        if up : bool then pass_up ind packet else mret tt
  end.

Definition upper_protocol_of (next_header : Z) : UpperProtocol :=
  if next_header =? NextHeaderCommon_BTP_A then BTP_A
  else if next_header =? NextHeaderCommon_BTP_B then BTP_B
  else if next_header =? NextHeaderCommon_IPv6 then IPv6 else Unknown.

Definition ind_common (c : CommonHeader) (ind : Indication) : Indication :=
  mk_DataIndication (upper_protocol_of (common_next_header c)) (ind_transport_type ind) (ind_destination ind) (ind_source_position ind)
    (ind_security_report ind) (ind_its_aid ind) (ind_permissions ind) (ind_certificate_id ind) (traffic_class c)
    (ind_remaining_packet_lifetime ind) (ind_remaining_hop_limit ind).

Definition indicate_common (ctx : Context) (basic : BasicHeader) : Router unit :=
  let '(common, ctx) := parse_common_header ctx in
  match common with
  | None => packet_dropped Parse_Common_Header
  | Some common =>
      if maximum_hop_limit common <? hop_limit basic then packet_dropped Hop_Limit
      else
        let ctx := with_primitive (ind_common common (service_primitive ctx)) ctx in
        now ← get_now;
        modify (fun w => set_table (SoftState.drop_expired now (w_table w)) w);;
        flush_broadcast_forwarding_buffer m_mib;;
        indicate_extended ctx common
  end.

Definition ind_secured (confirm : DecapConfirm SM Report Certificate) (ind : Indication) : Indication :=
  mk_DataIndication (ind_upper_protocol ind) (ind_transport_type ind) (ind_destination ind) (ind_source_position ind)
    (Some (report confirm)) (Some (decap_its_aid confirm)) (Some (decap_permissions confirm)) (certificate_id confirm) (ind_traffic_class ind)
    (ind_remaining_packet_lifetime ind) (ind_remaining_hop_limit ind).

(** secured_payload_visitor *)
Definition visit_secured_payload (ctx : Context) (basic : BasicHeader) (payload : UpPacket SM) : Router unit :=
  match payload with
  | Chunk packet => ctx ← context_secured_cast ctx packet; indicate_common ctx basic
  | Cohesive packet => indicate_common (context_secured_deserialize ctx packet) basic
  end.

(** boost::variant::empty(): a variant is never empty. *)
Definition variant_empty (payload : UpPacket SM) : bool := false.

Definition indicate_secured (ctx : Context) (basic : BasicHeader) : Router unit :=
  let '(secured_message, ctx) := parse_secured_message ctx in
  match secured_message with
  | None => packet_dropped Parse_Secured_Header
  | Some secured_message =>
      security ← gets w_security_entity;
      if security : bool then
        decap_confirm ← draw (decapsulate_packet secured_message);
        let ctx := with_primitive (ind_secured decap_confirm (service_primitive ctx)) ctx in
        if is_successful (report decap_confirm) then visit_secured_payload ctx basic (plaintext_payload decap_confirm)
        else
          match itsGnSnDecapResultHandling m_mib with
          | Non_Strict =>
              if negb (variant_empty (plaintext_payload decap_confirm)) then visit_secured_payload ctx basic (plaintext_payload decap_confirm)
              else packet_dropped Decap_Unsuccessful_Non_Strict
          | Strict => packet_dropped Decap_Unsuccessful_Strict
          end
      else packet_dropped Security_Entity_Missing
  end.

Definition ind_basic (b : BasicHeader) (ind : Indication) : Indication :=
  mk_DataIndication (ind_upper_protocol ind) (ind_transport_type ind) (ind_destination ind) (ind_source_position ind)
    (ind_security_report ind) (ind_its_aid ind) (ind_permissions ind) (ind_certificate_id ind) (ind_traffic_class ind)
    (Some (lifetime b)) (Some (hop_limit b)).

Definition indicate_basic (ctx : Context) : Router unit :=
  let '(basic, ctx) := parse_basic_header ctx in
  match basic with
  | None => packet_dropped Parse_Basic_Header
  | Some basic =>
      if negb (version basic =? itsGnProtocolVersion m_mib) then packet_dropped ITS_Protocol_Version
      else
        let ctx := with_primitive (ind_basic basic (service_primitive ctx)) ctx in
        if basic_next_header basic =? NextHeaderBasic_Secured then indicate_secured ctx basic
        else if basic_next_header basic =? NextHeaderBasic_Common then
          if negb (itsGnSecurity m_mib) || match itsGnSnDecapResultHandling m_mib with Non_Strict => true | Strict => false end
          then indicate_common ctx basic
          else packet_dropped Decap_Unsuccessful_Strict
        else mret tt
  end.

Definition indicate (packet : UpPacket SM) (sender destination : MacAddress) : Router unit :=
  let ll := mk_LinkLayer sender destination in
  match packet with
  | Cohesive cohesive => indicate_basic (context_deserialize cohesive ll)
  | Chunk chunk => ctx ← context_cast chunk ll; indicate_basic ctx
  end.

End Indication.
