(* ===== verification/RouterInv.v ===== *)
(** The invariant of the router, and that its operations keep it and throw
    nothing. *)

From S2P Require Import Prelude Double GnNumbers Archive GnWire Caches SoftState LocationTable PacketBuffer Scheduler CbfBuffer Packets Areas Requests RouterState Router.
From stdpp Require Import gmap.

Open Scope Z_scope.

Create HintDb router.

(** The repetitions among the callbacks. *)
Definition as_repetition (cb : Callback) : option nat := match cb with Repetition_timer n => Some n | _ => None end.

Section Invariant.
Context {SM Report Certificate Ext : Type} {Env : Environment SM Report Certificate Ext} {Laws : EnvironmentLaws Env}.
Variable m_mib : MIB.

Abbreviation W := (World SM Report Certificate Ext).
Abbreviation Router A := (M SM Report Certificate Ext A).
Abbreviation Down := (gmap nat (ByteBufferConvertible SM)).

(** * Callbacks *)

(** Every callback has the scope of its owner. *)
Definition scope_of (cb : Callback) : Z :=
  match cb with Beacon_timer => router_scope | Cbf_timer => cbf_scope | Repetition_timer _ => repeater_scope end.
Definition QueueInv (q : list (@ScheduledCallback Callback)) : Prop := ordered q /\ Forall (fun x => scope x = Some (scope_of (callback x))) q.

(** The callbacks of the other owners. *)
Definition others (sc : Z) (q : list (@ScheduledCallback Callback)) : list (@ScheduledCallback Callback) :=
  filter (fun x => scope_of (callback x) <> sc) q.

Lemma pending_others sc q : sc <> repeater_scope -> pending as_repetition (others sc q) = pending as_repetition q.
Proof.
  intros Hsc. unfold pending, others. induction q as [|x q IH]; [reflexivity|]. rewrite filter_cons. destruct (decide _) as [Hd|Hd]; cbn.
  - now rewrite IH.
  - rewrite IH. destruct (callback x); cbn in *; try reflexivity. exfalso. apply Hd. intros E. now apply Hsc.
Qed.

(** cancel() of an owner's callbacks, and scheduling another one. *)
Lemma cancel_queue sc rt : QueueInv (m_queue rt) ->
  QueueInv (m_queue (Scheduler.cancel (Some sc) rt)) /\ m_queue (Scheduler.cancel (Some sc) rt) = others sc (m_queue rt) /\
  m_now (Scheduler.cancel (Some sc) rt) = m_now rt.
Proof.
  intros [Ho Hs]. unfold Scheduler.cancel. cbn [m_queue m_now].
  assert (E : filter (fun x => scope x <> Some sc) (m_queue rt) = others sc (m_queue rt)).
  { unfold others. clear Ho. induction (m_queue rt) as [|x q IH]; [reflexivity|]. inversion Hs as [|? ? Hx Hs']; subst.
    rewrite !filter_cons, IH by assumption. rewrite Hx. destruct (decide _) as [H1|H1], (decide (scope_of _ <> sc)) as [H2|H2]; auto; exfalso; [apply H2|apply H1]; congruence. }
  rewrite E. split_all; auto. split; unfold others; [now apply filter_ordered|]. rewrite Forall_forall in *. intros x [_ Hx]%list_elem_of_filter. auto.
Qed.

Lemma schedule_queue tp cb rt : QueueInv (m_queue rt) ->
  QueueInv (m_queue (schedule tp cb (Some (scope_of cb)) rt)) /\
  m_queue (schedule tp cb (Some (scope_of cb)) rt) ≡ₚ mk_ScheduledCallback tp cb (Some (scope_of cb)) :: m_queue rt.
Proof.
  intros [Ho Hs]. unfold schedule. cbn [m_queue]. split; [split|].
  - now apply insert_by_ordered.
  - unfold emplace. rewrite (insert_by_Permutation deadline). now constructor.
  - apply (insert_by_Permutation deadline).
Qed.

Lemma others_Permutation sc q q' : q ≡ₚ q' -> others sc q ≡ₚ others sc q'.
Proof. intros HP. unfold others. now rewrite HP. Qed.

Lemma others_idem sc q : others sc (others sc q) = others sc q.
Proof. unfold others. apply filter_all. rewrite Forall_forall. now intros x [Hx _]%list_elem_of_filter. Qed.

(** Replacing an owner's callbacks by one. *)
Lemma reschedule_queue tp cb rt : QueueInv (m_queue rt) ->
  let rt' := schedule tp cb (Some (scope_of cb)) (Scheduler.cancel (Some (scope_of cb)) rt) in
  QueueInv (m_queue rt') /\ m_queue rt' ≡ₚ mk_ScheduledCallback tp cb (Some (scope_of cb)) :: others (scope_of cb) (m_queue rt) /\
  others (scope_of cb) (m_queue rt') ≡ₚ others (scope_of cb) (m_queue rt) /\ m_now rt' = m_now rt.
Proof.
  intros HQ. destruct (cancel_queue (scope_of cb) rt HQ) as (HQ1 & Eq & En).
  destruct (schedule_queue tp cb (Scheduler.cancel (Some (scope_of cb)) rt) HQ1) as (HQ2 & HP). rewrite Eq in HP. cbv zeta. split_all; auto.
  rewrite (others_Permutation _ _ _ HP). unfold others at 1. rewrite filter_cons_False by (cbn; intros Hne; now apply Hne).
  fold (others (scope_of cb) (others (scope_of cb) (m_queue rt))). now rewrite others_idem.
Qed.

(** A runtime with other callbacks of one owner, at the same time. *)
Definition same_but (sc : Z) (rt rt' : @ManualRuntime Callback) : Prop :=
  QueueInv (m_queue rt') /\ others sc (m_queue rt') ≡ₚ others sc (m_queue rt) /\ m_now rt' = m_now rt.

Lemma same_but_refl sc rt : QueueInv (m_queue rt) -> same_but sc rt rt.
Proof. intros HQ. unfold same_but. auto. Qed.

(** How many beacon timers there are. *)
Definition beacons (q : list (@ScheduledCallback Callback)) : nat := length (filter (fun x => scope_of (callback x) = router_scope) q).

Lemma beacons_Permutation q q' : q ≡ₚ q' -> beacons q = beacons q'.
Proof. intros HP. unfold beacons. now rewrite HP. Qed.
Lemma beacons_cons x q : beacons (x :: q) = ((if decide (scope_of (callback x) = router_scope) then 1 else 0) + beacons q)%nat.
Proof. unfold beacons. rewrite filter_cons. now destruct (decide _). Qed.
Lemma beacons_others sc q : sc <> router_scope -> beacons (others sc q) = beacons q.
Proof.
  intros Hsc. induction q as [|x q IH]; [reflexivity|]. unfold others. rewrite filter_cons. fold (others sc q). rewrite beacons_cons.
  destruct (decide (scope_of (callback x) <> sc)) as [Hd|Hd]; [now rewrite beacons_cons, IH|]. rewrite IH, decide_False; [reflexivity|].
  intros E. apply Hd. congruence.
Qed.
Lemma beacons_none q : beacons (others router_scope q) = 0%nat.
Proof.
  unfold beacons. rewrite filter_none; [reflexivity|]. rewrite Forall_forall. now intros x [Hx _]%list_elem_of_filter.
Qed.

Lemma held_repetitions (held : list Callback) : omap as_repetition (filter (fun cb => scope_of cb <> router_scope) held) = omap as_repetition held.
Proof.
  induction held as [|cb l IH]; [reflexivity|]. rewrite filter_cons. destruct (decide _) as [Hd|Hd]; cbn; rewrite IH; [reflexivity|].
  destruct cb; cbn in *; try reflexivity. exfalso. now apply Hd.
Qed.

(** Beacons are sent, and are not encapsulated. *)
Definition beaconing : bool := negb (itsGnSecurity m_mib) && negb (vanetzaDisableBeaconing m_mib).

(** * Packets *)

(** Unsecured packets are neither sent nor accepted. *)
Definition strict_security : bool :=
  itsGnSecurity m_mib && match itsGnSnDecapResultHandling m_mib with Strict => true | Non_Strict => false end.

(** Ready for the link layer: the basic header announces the secured message,
    which holds the payload. *)
Definition enveloped {H} (pdu : Pdu SM H) (payload : Down) : Prop :=
  match secured pdu with
  | Some _ => basic_next_header (basic pdu) = NextHeaderBasic_Secured /\ payload_size payload = 0
  | None => basic_next_header (basic pdu) <> NextHeaderBasic_Secured /\ strict_security = false
  end.

(** Not encapsulated yet. *)
Definition plain {H} (pdu : Pdu SM H) : Prop :=
  secured pdu = None /\
  basic_next_header (basic pdu) = if itsGnSecurity m_mib then NextHeaderBasic_Secured else NextHeaderBasic_Common.

(** A packet on its way to the next forwarder. *)
Definition relayable {H} (pdu : Pdu SM H) (payload : Down) : Prop :=
  enveloped pdu payload /\ 1 <= hop_limit (basic pdu) < maximum_hop_limit (common pdu) /\ payload_size payload <= 2 ^ 60.

Definition forward_ok (p : ForwardPacket SM) : Prop :=
  is_gbc (header_type (common (fwd_pdu p))) = true /\
  match fwd_transmit p with RouterState.Source _ => plain (fwd_pdu p) | Relay | Noop => relayable (fwd_pdu p) (fwd_payload p) end.

Definition is_source (p : ForwardPacket SM) : bool := match fwd_transmit p with RouterState.Source _ => true | Relay | Noop => false end.

Definition buffered_ok (b : Buffered SM) : Prop :=
  match b with
  | Buf_shb pdu _ _ => plain pdu
  | Buf_tsb pdu payload => relayable pdu payload
  | Buf_gbc p a => forward_ok p /\ match a with Forwarding ll => is_source p = bool_decide (ll = None) | Greedy => True end
  end.

Definition queued_ok (p : @CbfPacket (ForwardPacket SM)) : Prop :=
  forward_ok (m_packet p) /\ is_source (m_packet p) = false /\ identifier p = gbc_identifier (m_packet p).

Definition hop_ok (nh : NextHop SM) : Prop := match nh with Valid p _ => forward_ok p | Discarded | Buffered_hop => True end.

Definition event_ok (e : Event SM Report Certificate) : Prop :=
  match e with
  | Pass_down _ packet => exists pdu, ChunkPacket.layer Network packet = Pdu_buffer pdu /\ enveloped pdu packet
  | Pass_up ind _ => strict_security = true -> exists r, ind_security_report ind = Some r /\ is_successful r = true
  | Packet_dropped _ | Forwarding_stopped _ => True
  end.

(** ** The invariant *)

(** The memory is that of a history of packets.  [held] are the callbacks
    being invoked, [ref] is an entry of the
    location table to which a reference is held. *)
Record RouterInv (held : list Callback) (ref : option MacAddress) (w : W) : Prop := {
  inv_table : TableInv (w_table w);
  inv_ref : forall k, ref = Some k -> is_Some (get_data_ptr k (w_table w));
  inv_bc : PacketBuffer.Inv (w_bc_buffer w);
  inv_bc_ok : Forall (fun n => buffered_ok n.2) (m_nodes (w_bc_buffer w));
  inv_uc : m_nodes (w_uc_buffer w) = [];
  inv_cbf : CbfBuffer.Inv (w_cbf w);
  inv_cbf_ok : Forall queued_ok (m_packets (w_cbf w));
  inv_queue : QueueInv (m_queue (w_runtime w));
  inv_repeater : RepeaterInv as_repetition (omap as_repetition held) (w_repeater w) (w_runtime w);
  inv_beacon : (beacons (m_queue (w_runtime w)) <= 1)%nat /\
    (beaconing = true -> Beacon_timer ∈ held \/ beacons (m_queue (w_runtime w)) = 1%nat);
  inv_memory : exists h, w_memory w = gbc_run (vanetzaGbcMemoryCapacity m_mib) h;
  inv_events : Forall event_ok (w_events w)
}.

(** The computation keeps the invariant, throws nothing and has a result with
    [P]. *)
Definition yields {A} (held : list Callback) (ref : option MacAddress) (m : Router A) (P : A -> Prop) : Prop :=
  runs (RouterInv held ref) m (fun a w => P a /\ RouterInv held ref w).

Section Rules.
Context {held : list Callback} {ref : option MacAddress}.

Lemma yields_ret {A} (a : A) (P : A -> Prop) : P a -> yields held ref (mret a) P.
Proof. intros Ha. apply runs_ret. auto. Qed.
Lemma yields_seq {A B} (m : Router A) (f : A -> Router B) P Q :
  yields held ref m P -> (forall a, P a -> yields held ref (f a) Q) -> yields held ref (m ≫= f) Q.
Proof. intros Hm Hf. eapply runs_bind; [exact Hm|]. intros a w [Ha Hw]. now apply (Hf a Ha w). Qed.
Lemma yields_weaken {A} (m : Router A) (P Q : A -> Prop) : yields held ref m P -> (forall a, P a -> Q a) -> yields held ref m Q.
Proof. intros Hm HPQ. eapply runs_conseq; [intros w Hw; exact Hw|exact Hm|]. cbn. intros a w []. auto. Qed.
Lemma yields_gets {A} (f : W -> A) (P : A -> Prop) : (forall w, RouterInv held ref w -> P (f w)) -> yields held ref (gets f) P.
Proof. intros Hf w Hw. split; auto. Qed.
Lemma yields_modify (f : W -> W) : (forall w, RouterInv held ref w -> RouterInv held ref (f w)) -> yields held ref (modify f) (fun _ => True).
Proof. intros Hf w Hw. cbn. auto. Qed.
Lemma yields_draw {A} (f : Ext -> A * Ext) : yields held ref (draw f) (fun _ => True).
Proof. intros w []. unfold draw. destruct (f (w_ext w)) as [a e]. split; [exact I|]. now split. Qed.
Lemma yields_assertion b : b = true -> yields held ref (assertion b) (fun _ => True).
Proof. intros ->. now apply yields_ret. Qed.

Lemma yields_emit e : event_ok e -> yields held ref (emit e) (fun _ => True).
Proof. intros He. apply yields_modify. intros w []. split; auto. cbn. apply Forall_app. auto. Qed.

End Rules.

#[local] Hint Resolve yields_draw yields_emit : router.
#[local] Hint Extern 1 (yields _ _ (gets _) (fun _ => True)) => (apply yields_gets; auto) : router.
#[local] Hint Extern 1 (yields _ _ get_now (fun _ => True)) => (apply yields_gets; auto) : router.
#[local] Hint Extern 1 (yields _ _ (mret _) _) => (apply yields_ret; auto) : router.

(** A step of a computation whose value is arbitrary, and one whose value has
    a property. *)
Ltac bind_any := apply (yields_seq _ _ (fun _ => True)); [solve [auto with router]|intros ? _].
Ltac bind_with P := apply (yields_seq _ _ P); [|intros ? ?].

Section Operations.
Context {held : list Callback} {ref : option MacAddress}.

(** ** Members *)

Lemma yields_local_address : yields held ref local_address (fun _ => True).
Proof. now apply yields_gets. Qed.
Lemma yields_local_position : yields held ref local_position (fun _ => True).
Proof. now apply yields_gets. Qed.

(** ** The location table *)

Lemma abs_key (t : LocationTable) k : Linked t -> is_Some (abs t !! k) <-> is_Some (get_data_ptr k t).
Proof.
  intros HL. unfold get_data_ptr. destruct (m_map t !! k) as [[h v]|] eqn:E.
  - destruct (Linked_lookup t k h v HL E) as (e & _ & ->). split; eauto.
  - rewrite (Linked_None t k HL E). split; intros []; discriminate.
Qed.

(** The operations as functions of the table. *)
Ltac unroll := intros; unfold table_update, table_create, entry_at, table_entry, table_has_entry, table_position; unfold mbind, M_bind, get_now, gets, deref;
  cbv beta iota; match goal with |- context[match ?o with Some _ => mret _ | None => _ end] => destruct o; reflexivity end.
Lemma table_update_eq lpv (w : W) : table_update lpv w =
  match LocationTable.update (m_now (w_runtime w)) lpv (w_table w) with Some t => (inl tt, set_table t w) | None => (inr Dangling, w) end.
Proof. unroll. Qed.
Lemma table_create_eq mac (w : W) : table_create mac w =
  match get_or_create_entry (m_now (w_runtime w)) mac (w_table w) with Some t => (inl tt, set_table t w) | None => (inr Dangling, w) end.
Proof. unroll. Qed.
Lemma entry_at_eq mac (w : W) : entry_at mac w =
  match snd <$> get_data_ptr mac (w_table w) with Some e => (inl e, w) | None => (inr Dangling, w) end.
Proof. unroll. Qed.
Lemma table_entry_eq mac (w : W) : table_entry mac w =
  match get_entry (m_now (w_runtime w)) mac (w_table w) with Some e => (inl e, w) | None => (inr Dangling, w) end.
Proof. unroll. Qed.
Lemma table_has_entry_eq addr (w : W) : table_has_entry addr w =
  match has_entry (m_now (w_runtime w)) addr (w_table w) with Some b => (inl b, w) | None => (inr Dangling, w) end.
Proof. unroll. Qed.
Lemma table_position_eq mac (w : W) : table_position mac w =
  match get_position (m_now (w_runtime w)) mac (w_table w) with Some pv => (inl pv, w) | None => (inr Dangling, w) end.
Proof. unroll. Qed.

(** A new table with the old entries. *)
Lemma RouterInv_table w t : RouterInv held ref w -> TableInv t ->
  (forall k, is_Some (abs (w_table w) !! k) -> is_Some (abs t !! k)) -> RouterInv held ref (set_table t w).
Proof.
  intros [] HT Hk. split; auto. intros k Ek. cbn. apply abs_key; [apply HT|]. apply Hk. apply abs_key; [apply inv_table0|auto].
Qed.

Lemma table_update_key lpv w : RouterInv held ref w ->
  exists t', LocationTable.update (m_now (w_runtime w)) lpv (w_table w) = Some t' /\ RouterInv held ref (set_table t' w) /\
    exists d e, abs t' !! mid (gn_addr lpv) = Some (d, e) /\ (is_valid lpv = true -> m_has_position_vector e = true).
Proof.
  intros Hw. destruct (update_TableInv (m_now (w_runtime w)) lpv (w_table w) (inv_table _ _ _ Hw)) as (t' & E & HT & Hoth & d & e & Ek & Hv).
  exists t'. split; [exact E|]. split; [|eauto]. apply RouterInv_table; auto. intros k Hk.
  destruct (decide (k = mid (gn_addr lpv))) as [->|Hne]; [now rewrite Ek|now rewrite Hoth].
Qed.

Lemma table_update_ok lpv : yields held ref (table_update lpv) (fun _ => True).
Proof.
  intros w Hw. destruct (table_update_key lpv w Hw) as (t' & E & Hw' & _). rewrite table_update_eq, E. auto.
Qed.

Lemma table_create_ok mac : yields held ref (table_create mac) (fun _ => True).
Proof.
  intros w Hw. pose proof (inv_table _ _ _ Hw) as [HL Hok]. rewrite table_create_eq. unfold get_or_create_entry.
  destruct (get_value_spec create_entry (m_now (w_runtime w)) (w_table w) mac HL) as (t' & -> & HL' & _ & Ea). split; [exact I|].
  apply RouterInv_table; auto.
  - split; [exact HL'|]. intros k d e. rewrite Ea. unfold spec_get_value. destruct (abs (w_table w) !! mac) as [[d0 e0]|] eqn:Ek.
    + destruct (SoftState.is_expired _ d0); [|eauto]. rewrite lookup_insert_Some. intros [[<- [= <- <-]]|[_ Hk]]; eauto.
    + rewrite lookup_insert_Some. intros [[<- [= <- <-]]|[_ Hk]]; [|eauto]. intros [=].
  - intros k Hk. rewrite Ea. unfold spec_get_value. destruct (abs (w_table w) !! mac) as [[d0 e0]|] eqn:Ek; [destruct (SoftState.is_expired _ d0); [|exact Hk]|];
      (destruct (decide (k = mac)) as [->|Hne]; [rewrite lookup_insert_eq; eauto|now rewrite lookup_insert_ne by congruence]).
Qed.

(** Changes to an entry that leave its position alone. *)
Definition keeps_position (f : LocationTableEntry -> LocationTableEntry) : Prop :=
  forall e, m_has_position_vector (f e) = m_has_position_vector e /\ m_position_vector (f e) = m_position_vector e.

Lemma keeps_position_ok f mac e : keeps_position f -> entry_ok mac e -> entry_ok mac (f e).
Proof.
  intros Hf He. unfold entry_ok, link_layer_address, geonet_address. destruct (Hf e) as [-> ->]. exact He.
Qed.

Lemma keeps_position_pdr now size beta : keeps_position (update_pdr now size beta).
Proof. intros e. unfold update_pdr. repeat case_match; auto. Qed.
Lemma keeps_position_neighbour b : keeps_position (set_neighbour b).
Proof. now intros e. Qed.
Lemma keeps_position_expiry now b d : keeps_position (set_neighbour_expiry now b d).
Proof. intros e. unfold set_neighbour_expiry. repeat case_match; auto. Qed.
Lemma keeps_position_dpl l : keeps_position (with_duplicate_packet_list l).
Proof. now intros e. Qed.
Lemma keeps_position_loctex x : keeps_position (with_loctex_g5 x).
Proof. now intros e. Qed.

Lemma entry_change_ok mac f : keeps_position f -> yields held ref (entry_change mac f) (fun _ => True).
Proof.
  intros Hf. apply yields_modify. intros w Hw. pose proof (inv_table _ _ _ Hw) as [HL Hok]. destruct (assign_spec (w_table w) mac f HL) as [HL' Ea].
  apply RouterInv_table; auto.
  - split; [exact HL'|]. intros k d e. rewrite Ea. destruct (decide (k = mac)) as [->|Hne].
    + rewrite lookup_alter_eq. destruct (abs (w_table w) !! mac) as [[d0 e0]|] eqn:Ek; [|discriminate]. intros [= <- <-].
      apply keeps_position_ok; eauto.
    + rewrite lookup_alter_ne by congruence. eauto.
  - intros k. rewrite Ea. destruct (decide (k = mac)) as [->|Hne]; [rewrite lookup_alter_eq; intros [x ->]; eauto|now rewrite lookup_alter_ne by congruence].
Qed.

Lemma entry_at_ok mac : ref = Some mac -> yields held ref (entry_at mac) (fun _ => True).
Proof.
  intros Er w Hw. destruct (inv_ref _ _ _ Hw mac Er) as [x Ex]. rewrite entry_at_eq, Ex. cbn. auto.
Qed.

(** Reading a live entry, from a table whose positions are known. *)
Definition position_ok (mac : MacAddress) (o : option LongPositionVector) : Prop :=
  forall pv, o = Some pv -> is_valid pv = true /\ mid (gn_addr pv) = mac.

Lemma table_entry_ok mac : yields held ref (table_entry mac) (fun _ => True).
Proof.
  intros w Hw. rewrite table_entry_eq. unfold get_entry.
  rewrite (get_value_ptr_spec _ _ _ (proj1 (inv_table _ _ _ Hw))). auto.
Qed.
Lemma table_has_entry_ok addr : yields held ref (table_has_entry addr) (fun _ => True).
Proof.
  intros w Hw. rewrite table_has_entry_eq. unfold has_entry, has_value.
  rewrite (get_value_ptr_spec _ _ _ (proj1 (inv_table _ _ _ Hw))). cbn. auto.
Qed.
Lemma table_position_ok mac : yields held ref (table_position mac) (position_ok mac).
Proof.
  intros w Hw. pose proof (inv_table _ _ _ Hw) as [HL Hok]. rewrite table_position_eq. unfold get_position.
  rewrite (get_value_ptr_spec _ _ _ HL). cbn. split; [|exact Hw]. unfold position_ok, SoftState.live. rewrite lookup_omap.
  destruct (abs (w_table w) !! mac) as [[d e]|] eqn:Ek; [|discriminate]. cbn. destruct (SoftState.is_expired _ d); [discriminate|].
  destruct (m_has_position_vector e) eqn:Ep; [|discriminate]. intros pv [= <-]. apply (Hok _ _ _ Ek Ep).
Qed.
Lemma table_has_neighbours_ok : yields held ref table_has_neighbours (fun _ => True).
Proof. unfold table_has_neighbours. bind_any. now apply yields_gets. Qed.

(** ** The runtime *)

(** Changing the callbacks of the forwarding buffer. *)
Lemma RouterInv_runtime w rt : RouterInv held ref w -> same_but cbf_scope (w_runtime w) rt -> RouterInv held ref (set_runtime rt w).
Proof.
  intros [] (HQ & Ho & _). split; auto; cbn.
  - destruct inv_repeater0 as (HP & Hr). split; [|exact Hr].
    rewrite <- (pending_others cbf_scope) by discriminate. now rewrite (pending_Permutation _ _ _ Ho), pending_others by discriminate.
  - rewrite <- (beacons_others cbf_scope) by discriminate. now rewrite (beacons_Permutation _ _ Ho), beacons_others by discriminate.
Qed.

(** A beacon timer, be the last one invoked just now. *)
Lemma reset_beacon_timer_after_sets d w : RouterInv held ref w ->
  exists w', reset_beacon_timer_after d w = (inl tt, w') /\ RouterInv (filter (fun cb => scope_of cb <> router_scope) held) ref w'.
Proof.
  intros []. eexists. split; [reflexivity|].
  destruct (reschedule_queue (m_now (w_runtime w) + d) Beacon_timer (w_runtime w) inv_queue0) as (HQ & HP & Ho & _).
  unfold schedule_after. change (m_now (Scheduler.cancel (Some router_scope) (w_runtime w))) with (m_now (w_runtime w)).
  cbn [scope_of] in *. set (rt := schedule _ _ _ _) in *. split; auto; cbn [set_runtime w_runtime w_repeater].
  - destruct inv_repeater0 as (Hp & Hr). split; [|exact Hr].
    rewrite <- (pending_others router_scope), (pending_Permutation _ _ _ Ho), pending_others by discriminate.
    now rewrite held_repetitions.
  - rewrite (beacons_Permutation _ _ HP), beacons_cons, beacons_none. cbn. auto.
Qed.

Lemma reset_beacon_timer_after_ok d : yields held ref (reset_beacon_timer_after d) (fun _ => True).
Proof.
  intros w Hw. pose proof Hw as []. destruct (reset_beacon_timer_after_sets d w Hw) as (w' & -> & Hw'). split; [exact I|].
  destruct Hw'. split; auto.
  - now rewrite held_repetitions in inv_repeater1.
  - destruct inv_beacon1 as [H1 H2]. split; [exact H1|]. intros Hb. destruct (H2 Hb) as [Hin|Hq]; [|auto]. left. now apply list_elem_of_filter in Hin as [_ Hin].
Qed.
#[local] Hint Resolve yields_local_address yields_local_position reset_beacon_timer_after_ok : router.

Lemma reset_beacon_timer_ok : yields held ref (reset_beacon_timer m_mib) (fun _ => True).
Proof. unfold reset_beacon_timer. bind_any. auto with router. Qed.
#[local] Hint Resolve reset_beacon_timer_ok table_update_ok table_create_ok table_entry_ok table_has_entry_ok table_has_neighbours_ok : router.

(** ** Lifetimes *)

Lemma pending_reduce_eq {H} t (pdu : Pdu SM H) : exists l, (pending_reduce t pdu).2 = with_lifetime l pdu.
Proof. unfold pending_reduce. destruct (Lifetime.reduce _ _) as [r l]. now exists l. Qed.

Lemma forward_ok_reduce t p : forward_ok p -> forward_ok (data_reduce_lifetime t p).2 /\
  is_source (data_reduce_lifetime t p).2 = is_source p /\ gbc_identifier (data_reduce_lifetime t p).2 = gbc_identifier p.
Proof.
  intros Hp. cbn. destruct (pending_reduce_eq t (fwd_pdu p)) as [l E]. destruct (pending_reduce t (fwd_pdu p)) as [r pdu]. cbn in *. subst pdu.
  split_all; auto.
Qed.

Lemma buffered_ok_reduce t b : buffered_ok b -> buffered_ok (data_reduce_lifetime t b).2.
Proof.
  destruct b as [pdu payload ctrl|pdu payload|p a]; cbn [data_reduce_lifetime Buffered_data].
  - intros Hb. destruct (pending_reduce_eq t pdu) as [l E]. destruct (pending_reduce t pdu) as [r pdu']. cbn in *. now subst pdu'.
  - intros Hb. destruct (pending_reduce_eq t pdu) as [l E]. destruct (pending_reduce t pdu) as [r pdu']. cbn in *. now subst pdu'.
  - intros [Hp Ha]. destruct (forward_ok_reduce t p Hp) as (Hp' & Es & _). destruct (data_reduce_lifetime t p) as [r p']. cbn in *.
    split; [exact Hp'|]. destruct a; [now rewrite Es|exact I].
Qed.

(** ** The forwarding buffers *)

Lemma bc_push_ok d : buffered_ok d -> yields held ref (bc_push d) (fun _ => True).
Proof.
  intros Hd. unfold bc_push. bind_any. rename a into now. apply yields_modify. intros w [].
  pose proof (push_result now d (w_bc_buffer w) inv_bc0) as Hp. destruct (PacketBuffer.push now d (w_bc_buffer w)) as [pushed b'].
  cbv zeta in Hp. destruct Hp as (HI' & _ & _ & Hn). split; auto. cbn [set_bc_buffer w_bc_buffer snd].
  destruct pushed; [|rewrite Hn; constructor]. destruct Hn as (k & -> & _).
  apply Forall_app. split; [apply Forall_drop|constructor; [now apply buffered_ok_reduce|constructor]].
  rewrite Forall_forall in *. intros n Hn. unfold PacketBuffer.live in Hn. apply list_elem_of_filter in Hn as [_ Hn]. auto.
Qed.

(** ** The contention-based forwarding buffer *)

Lemma relayable_length p : forward_ok p -> is_source p = false -> data_length p <= 2 ^ 62.
Proof.
  intros [_ Hp] Hs. cbn. unfold pending_length, get_pdu_length, is_source in *.
  assert (Hl : payload_size (fwd_payload p) <= 2 ^ 60) by (destruct (fwd_transmit p); [discriminate|apply Hp..]).
  destruct (secured (fwd_pdu p)) as [m|]; [pose proof (sm_size_bound m); unfold BasicHeader_length_bytes; lia|].
  cbn. unfold BasicHeader_length_bytes, CommonHeader_length_bytes. lia.
Qed.

Lemma schedule_timer_same {D C} `{Data D} `{CbfCounter C} (b : @CbfPacketBuffer D C) rt : QueueInv (m_queue rt) ->
  same_but cbf_scope rt (CbfBuffer.schedule_timer Cbf_timer cbf_scope b rt).
Proof.
  intros HQ. unfold CbfBuffer.schedule_timer. destruct (m_timers b) as [|t ts]; [now apply same_but_refl|].
  destruct (reschedule_queue (expiry t) Cbf_timer rt HQ) as (H1 & _ & H2 & H3). unfold same_but. auto.
Qed.

(** An operation on the buffer and the runtime. *)
Lemma cbf_operation_ok {A} (f : CbfPacketBuffer * ManualRuntime -> A * (CbfPacketBuffer * ManualRuntime)) (P : A -> Prop) :
  (forall b rt, CbfBuffer.Inv b -> Forall queued_ok (m_packets b) -> QueueInv (m_queue rt) ->
     let '(a, (b', rt')) := f (b, rt) in P a /\ CbfBuffer.Inv b' /\ Forall queued_ok (m_packets b') /\ same_but cbf_scope rt rt') ->
  yields held ref (cbf_operation f) P.
Proof.
  intros Hf w Hw. pose proof (inv_cbf _ _ _ Hw) as HI. pose proof (inv_cbf_ok _ _ _ Hw) as Hok.
  specialize (Hf (w_cbf w) (w_runtime w) HI Hok (inv_queue _ _ _ Hw)). unfold cbf_operation.
  destruct (f (w_cbf w, w_runtime w)) as [a [b' rt']]. destruct Hf as (Ha & HI' & Hok' & Hrt). split; [exact Ha|].
  assert (Hw' : RouterInv held ref (set_runtime rt' w)) by (now apply RouterInv_runtime).
  destruct Hw'. split; auto.
Qed.

Lemma cbf_add_ok p sender timeout : forward_ok p -> is_source p = false -> yields held ref (cbf_add p sender timeout) (fun _ => True).
Proof.
  intros Hp Hs. apply cbf_operation_ok. intros b rt HI Hok HQ. set (packet := mk_CbfPacket (gbc_identifier p) p sender).
  cbv zeta. fold packet. cbn [fst snd]. set (new := malloc _).
  assert (Hlen : CbfPacket_length packet <= 2 ^ 62) by now apply relayable_length.
  pose proof (add_Inv Cbf_timer cbf_scope new packet timeout (b, rt) HI Hlen (malloc_fresh _)) as (HI' & Hpk & _).
  destruct (CbfBuffer.add Cbf_timer cbf_scope new packet timeout (b, rt)) as [b' rt'] eqn:E. cbn [fst] in *. split_all; auto.
  - destruct (Z.leb_spec timeout 0) as [Ht|Ht].
    + unfold CbfBuffer.add in E. destruct (Z.leb_spec timeout 0); [|lia]. now injection E as <- _.
    + destruct (Hpk Ht) as (k & [-> | ->]); [now apply Forall_drop|]. apply Forall_app. split; [now apply Forall_drop|].
      constructor; [|constructor]. exact (conj Hp (conj Hs eq_refl)).
  - unfold CbfBuffer.add in E. destruct (Z.leb_spec timeout 0) as [Ht|Ht]; [injection E as _ <-; now apply same_but_refl|].
    injection E as _ <-. destruct (decide _); [now apply same_but_refl|now apply schedule_timer_same].
Qed.

Lemma Forall_erase id ps : Forall queued_ok ps -> Forall queued_ok (erase_packet id ps).
Proof. intros Hf. unfold erase_packet. rewrite Forall_forall in *. intros p [_ Hp]%list_elem_of_filter. auto. Qed.

Lemma cbf_remove_ok id : yields held ref (cbf_remove id) (fun _ => True).
Proof.
  apply cbf_operation_ok. intros b rt HI Hok HQ. destruct (remove_cases Cbf_timer cbf_scope id (b, rt)) as [-> |(p & Ep & ->)].
  - split_all; auto. now apply same_but_refl.
  - destruct (discard_spec Cbf_timer cbf_scope id p (b, rt) HI Ep) as (HI' & Ek & _ & _).
    destruct (discard Cbf_timer cbf_scope id (CbfPacket_length p) (b, rt)) as [b' rt'] eqn:E. cbn [fst] in *.
    split_all; auto.
    + rewrite Ek. now apply Forall_erase.
    + unfold discard in E. injection E as _ <-. destruct (match _ with [] => _ | _ :: _ => _ end); [now apply schedule_timer_same|now apply same_but_refl].
Qed.

Lemma queued_ok_reduce now t p : queued_ok p -> queued_ok (CbfBuffer.reduce_lifetime now t p).2.
Proof.
  intros (Hp & Hs & Hi). unfold CbfBuffer.reduce_lifetime. destruct (forward_ok_reduce (now - start t) (m_packet p) Hp) as (Hp' & Es & Ei).
  destruct (data_reduce_lifetime _ _) as [r q]. cbn [snd] in *. unfold queued_ok. cbn [m_packet identifier]. split_all; congruence || auto.
Qed.

Lemma cbf_update_ok id timeout : yields held ref (cbf_update id timeout) (fun _ => True).
Proof.
  apply cbf_operation_ok. intros b rt HI Hok HQ. pose proof (update_Inv id timeout (b, rt) HI) as HI'. unfold CbfBuffer.update in *.
  destruct (find_timer id (m_timers b)) as [t|]; cbn [fst m_packets] in *.
  - split_all; auto; [|now apply same_but_refl]. rewrite Forall_forall in *. intros p Hp. apply list_elem_of_In, in_map_iff in Hp as (q & <- & Hq).
    apply list_elem_of_In in Hq. destruct (decide _); auto. apply queued_ok_reduce. auto.
  - split_all; auto. now apply same_but_refl.
Qed.

Lemma cbf_counter_ok id : yields held ref (cbf_counter id) (fun _ => True).
Proof. unfold cbf_counter. bind_any. now apply yields_gets. Qed.
#[local] Hint Resolve bc_push_ok cbf_add_ok cbf_remove_ok cbf_update_ok cbf_counter_ok : router.

(** ** Sending *)

Lemma payload_size_network b (p : Down) : payload_size (ChunkPacket.set_layer Network b p) = payload_size p.
Proof.
  unfold payload_size, ChunkPacket.size_range, ChunkPacket.set_layer. rewrite map_filter_insert_not; [reflexivity|].
  intros y [Hy _]. cbn in Hy. unfold Transport, Network in Hy. lia.
Qed.

Lemma pass_down_request_ok r (pdu : VariantPdu SM) payload : enveloped pdu payload -> yields held ref (pass_down_request r pdu payload) (fun _ => True).
Proof.
  intros He. unfold pass_down_request. bind_with (fun _ : unit => True).
  - unfold enveloped in He. destruct (secured pdu) as [m|].
    + destruct He as [-> ->]. cbn. auto with router.
    + destruct He as [He _]. destruct (Z.eqb_spec (basic_next_header (basic pdu)) NextHeaderBasic_Secured); [easy|]. auto with router.
  - apply yields_emit. exists pdu. unfold ChunkPacket.set_layer. split; [unfold ChunkPacket.layer; now rewrite lookup_insert_eq|].
    unfold enveloped in *. fold (ChunkPacket.set_layer Network (Pdu_buffer pdu) payload). now rewrite payload_size_network.
Qed.

Lemma pass_down_ok addr (pdu : VariantPdu SM) payload : enveloped pdu payload -> yields held ref (pass_down addr pdu payload) (fun _ => True).
Proof. intros He. unfold pass_down. bind_any. now apply pass_down_request_ok. Qed.
Lemma pass_down_forwarded_ok addr (pdu : VariantPdu SM) payload : enveloped pdu payload -> yields held ref (pass_down_forwarded addr pdu payload) (fun _ => True).
Proof. intros He. unfold pass_down_forwarded. bind_any. now apply pass_down_request_ok. Qed.
Lemma execute_media_procedures_ok p : yields held ref (execute_media_procedures p) (fun _ => True).
Proof. destruct p; cbn; auto with router. Qed.
#[local] Hint Resolve pass_down_ok pass_down_forwarded_ok execute_media_procedures_ok : router.

(** What encapsulation gives, if anything. *)
Definition encapsulated_ok {H} (r : option (Pdu SM H * Down)) : Prop :=
  match r with Some (pdu, payload) => enveloped pdu payload | None => True end.

Lemma encap_packet_ok {H} `{ExtendedHeader H} aid ssp context (pdu : Pdu SM H) payload :
  basic_next_header (basic pdu) = NextHeaderBasic_Secured -> yields held ref (encap_packet aid ssp context pdu payload) encapsulated_ok.
Proof.
  intros Hn. unfold encap_packet. bind_any. destruct a; [|now apply yields_ret].
  set (first := ChunkPacket.set_layer Network _ ∅). pose proof (merge_spec Transport max_osi_layer first payload) as Hm.
  destruct (ChunkPacket.merge Transport max_osi_layer first payload) as [sec rest]. destruct Hm as (_ & _ & Hz).
  bind_any. rename a into confirm.
  apply (yields_seq _ _ (fun _ => True)); [apply yields_assertion; unfold payload_size; now rewrite Hz|intros _ _].
  apply (yields_seq _ _ (fun _ => True)); [apply yields_assertion; now rewrite Hn|intros _ _].
  apply yields_ret. destruct confirm as [m|]; cbn; [|exact I]. unfold enveloped. cbn. auto.
Qed.

(** The packet a source sends, encapsulated when security is on. *)
Lemma source_packet_ok {H} `{ExtendedHeader H} aid ssp context (pdu : Pdu SM H) payload : plain pdu ->
  yields held ref (if itsGnSecurity m_mib then encap_packet aid ssp context pdu payload else mret (Some (pdu, payload))) encapsulated_ok.
Proof.
  intros [Hs Hn]. destruct (itsGnSecurity m_mib) eqn:E; [now apply encap_packet_ok|]. apply yields_ret. cbn. unfold enveloped. rewrite Hs.
  split; [rewrite Hn; discriminate|]. unfold strict_security. now rewrite E.
Qed.

Lemma transmit_shb_ok ctrl pdu payload : plain pdu -> yields held ref (transmit_shb m_mib ctrl pdu payload) (fun _ => True).
Proof.
  intros Hp. unfold transmit_shb. bind_any. rename a into lpv. set (pdu1 := with_extended _ pdu).
  bind_with (@encapsulated_ok ShbHeader); [now apply source_packet_ok|]. destruct a as [[pdu2 payload2]|]; [|now apply yields_ret].
  bind_any. apply (yields_seq _ _ (fun _ => True)); [now apply pass_down_ok|intros _ _]. apply reset_beacon_timer_ok.
Qed.

Lemma transmit_gbc_ok p mac : forward_ok p -> yields held ref (transmit_gbc m_mib p mac) (fun _ => True).
Proof.
  intros [_ Hp]. unfold transmit_gbc. destruct (fwd_transmit p) as [ctrl| |]; [| |now apply yields_ret].
  - bind_any. rename a into lpv. set (pdu1 := with_extended _ (fwd_pdu p)). bind_with (@encapsulated_ok GeoBroadcastHeader).
    + pose proof Hp as [_ Hn]. destruct (itsGnSecurity m_mib) eqn:E.
      * apply (yields_seq _ _ (fun _ => True)); [apply yields_assertion; cbn; now rewrite Hn|intros _ _]. now apply encap_packet_ok.
      * pose proof (source_packet_ok 0 [] [] pdu1 (fwd_payload p) Hp) as Hsrc. now rewrite E in Hsrc.
    + destruct a as [[pdu2 payload2]|]; [|now apply yields_ret]. bind_any. now apply pass_down_ok.
  - bind_any. apply pass_down_forwarded_ok. apply Hp.
Qed.

Lemma transmit_tsb_ok pdu payload : relayable pdu payload -> yields held ref (transmit_tsb m_mib pdu payload) (fun _ => True).
Proof. intros Hp. unfold transmit_tsb. bind_any. apply pass_down_forwarded_ok. apply Hp. Qed.

Lemma process_next_hop_ok nh : hop_ok nh -> yields held ref (process_next_hop m_mib nh) (fun _ => True).
Proof. destruct nh; cbn; intros Hn; auto with router. now apply transmit_gbc_ok. Qed.

(** ** Forwarding *)

Lemma greedy_forwarding_ok p : forward_ok p -> yields held ref (greedy_forwarding p) hop_ok.
Proof.
  intros Hp. unfold greedy_forwarding. cbv zeta. bind_any. bind_any. bind_any. destruct (fold_left _ _ _) as [addr dist].
  destruct (d_ltb dist _); [now apply yields_ret|]. destruct (TrafficClass.store_carry_forward _); [|now apply yields_ret].
  apply (yields_seq _ _ (fun _ => True)); [apply bc_push_ok; now split|intros _ _; now apply yields_ret].
Qed.

Lemma gbc_destination_ok ht gbc : is_gbc ht = true -> yields held ref (gbc_destination ht gbc) (fun _ => True).
Proof. intros Hg. unfold gbc_destination. rewrite destination_shape, Hg. auto with router. Qed.

Lemma timeout_cbf_sender_ok sender : yields held ref (timeout_cbf_sender m_mib sender) (fun _ => True).
Proof.
  unfold timeout_cbf_sender. bind_with (position_ok sender); [apply table_position_ok|]. destruct a as [pv|]; [|now apply yields_ret].
  destruct (position_accuracy_indicator pv); [|now apply yields_ret]. bind_any. now apply yields_ret.
Qed.
#[local] Hint Resolve timeout_cbf_sender_ok : router.

Lemma non_area_ok p sender : forward_ok p -> is_source p = bool_decide (sender = None) ->
  yields held ref (non_area_contention_based_forwarding m_mib p sender) hop_ok.
Proof.
  intros Hp Hs. unfold non_area_contention_based_forwarding. destruct sender as [sender|]; [|now apply yields_ret].
  rewrite bool_decide_false in Hs by discriminate. bind_any. destruct a; [now apply yields_ret|].
  apply (yields_seq _ _ (fun _ => True)); [apply gbc_destination_ok, Hp|intros area _]. bind_any. rename a into epv.
  assert (Hadd : forall t, yields held ref (cbf_add p sender t ;; mret Buffered_hop) hop_ok) by (intros t; bind_any; now apply yields_ret).
  bind_with (position_ok sender); [apply table_position_ok|]. destruct a as [pv|]; [|apply Hadd].
  destruct (position_accuracy_indicator pv); [|apply Hadd]. destruct (d_ltb _ _); [apply Hadd|now apply yields_ret].
Qed.

Lemma area_ok p sender : forward_ok p -> is_source p = bool_decide (sender = None) ->
  yields held ref (area_contention_based_forwarding m_mib p sender) hop_ok.
Proof.
  intros Hp Hs. unfold area_contention_based_forwarding. destruct sender as [sender|]; [|now apply yields_ret].
  rewrite bool_decide_false in Hs by discriminate. bind_any. destruct a; [now apply yields_ret|].
  bind_any. destruct (_ <=? _); [now apply yields_ret|]. bind_any. bind_any. now apply yields_ret.
Qed.

Lemma outside_ok s f : yields held ref (outside_sectorial_contention_area m_mib s f) (fun _ => True).
Proof.
  unfold outside_sectorial_contention_area. bind_with (position_ok s); [apply table_position_ok|]. bind_with (position_ok f); [apply table_position_ok|].
  bind_any. destruct a as [ps|]; [|now apply yields_ret]. destruct a0 as [pf|]; now apply yields_ret.
Qed.
#[local] Hint Resolve outside_ok : router.

Lemma payload_size_empty : payload_size (∅ : Down) = 0.
Proof. unfold payload_size, ChunkPacket.size_range. now rewrite map_filter_empty. Qed.

Lemma duplicate_pending_ok p : forward_ok p -> is_source p = false -> forward_ok (duplicate_pending p).
Proof.
  intros [Hg Hp] Hs. split; [exact Hg|]. unfold is_source in Hs. cbn [duplicate_pending fwd_transmit fwd_pdu fwd_payload].
  assert (Hr : relayable (fwd_pdu p) (fwd_payload p)) by (destruct (fwd_transmit p); [discriminate|exact Hp..]).
  assert (Hd : relayable (fwd_pdu p) (match secured (fwd_pdu p) with Some _ => ∅ | None => fwd_payload p end)).
  { destruct Hr as (He & Hh & Hl). unfold relayable, enveloped in *. destruct (secured (fwd_pdu p)); rewrite ?payload_size_empty; split_all; tauto || auto; lia. }
  now destruct (fwd_transmit p).
Qed.

Lemma advanced_ok p ll : forward_ok p -> is_source p = bool_decide (ll = None) -> yields held ref (area_advanced_forwarding m_mib p ll) hop_ok.
Proof.
  intros Hp Hs. unfold area_advanced_forwarding. destruct ll as [ll|]; [|now apply yields_ret]. rewrite bool_decide_false in Hs by discriminate.
  apply (yields_seq _ _ (fun _ => True)); [apply gbc_destination_ok, Hp|intros area _]. bind_any. destruct a as [c|].
  - bind_any. destruct (_ <=? _); [bind_any; now apply yields_ret|]. bind_any. destruct (negb _); [bind_any; now apply yields_ret|].
    bind_any. bind_any. now apply yields_ret.
  - bind_any. destruct (bool_decide _).
    + bind_with hop_ok; [now apply greedy_forwarding_ok, duplicate_pending_ok|].
      apply (yields_seq _ _ (fun _ => True)); [|intros _ _; now apply yields_ret]. destruct (is_broadcast_hop _); apply cbf_add_ok; auto.
      destruct Hp as [Hg Hp]. split; [exact Hg|]. cbn [fwd_transmit]. unfold is_source in Hs. now destruct (fwd_transmit p).
    + bind_any. bind_any. now apply yields_ret.
Qed.

Lemma selection_ok p ll : forward_ok p -> is_source p = bool_decide (ll = None) -> yields held ref (forwarding_algorithm_selection m_mib p ll) hop_ok.
Proof.
  intros Hp Hs. unfold forwarding_algorithm_selection.
  assert (Hs' : is_source p = bool_decide (ll_sender <$> ll = None)) by (rewrite Hs; now destruct ll).
  apply (yields_seq _ _ (fun _ => True)); [apply gbc_destination_ok, Hp|intros area _]. bind_any. destruct (inside_or_at_border _ _).
  - destruct (itsGnAreaForwardingAlgorithm m_mib); [now apply yields_ret..|now apply area_ok|now apply advanced_ok].
  - apply (yields_seq _ _ (fun _ => True)).
    { destruct ll as [ll|]; [|now apply yields_ret]. eapply yields_weaken; [apply table_position_ok|easy]. }
    intros pv _. destruct (match pv with Some _ => _ | None => _ end).
    + apply (yields_seq _ _ (fun _ => True)); [now apply yields_emit|intros _ _; now apply yields_ret].
    + destruct (itsGnNonAreaForwardingAlgorithm m_mib); [now apply greedy_forwarding_ok..|now apply non_area_ok].
Qed.

Lemma process_buffered_ok b : buffered_ok b -> yields held ref (process_buffered m_mib b) (fun _ => True).
Proof.
  destruct b as [pdu payload ctrl|pdu payload|p []]; cbn [buffered_ok process_buffered].
  - apply transmit_shb_ok.
  - apply transmit_tsb_ok.
  - intros [Hp Hs]. bind_with hop_ok; [now apply selection_ok|now apply process_next_hop_ok].
  - intros [Hp _]. bind_with hop_ok; [now apply greedy_forwarding_ok|now apply process_next_hop_ok].
Qed.
#[local] Hint Resolve transmit_shb_ok process_next_hop_ok : router.

(** ** Flushing *)

Lemma fold_flush_in {D V} `{Data D} now (process : D -> PacketBuffer D * V -> PacketBuffer D * V) (I : PacketBuffer D * V -> Prop) nodes s :
  Forall (fun n => forall s t, I s -> I (process (data_reduce_lifetime t n.2).2 s)) nodes -> I s ->
  I (fold_left (fun s n => flush_node now process n s) nodes s).
Proof.
  intros Hf. revert s. induction Hf as [|n nodes Hn _ IH]; intros s Hs; [exact Hs|]. cbn [fold_left]. apply IH. unfold flush_node.
  destruct (PacketBuffer.is_expired now n.1); auto.
Qed.

Lemma set_bc_buffer_same (w : W) : set_bc_buffer (w_bc_buffer w) w = w.
Proof. now destruct w. Qed.

Lemma flush_broadcast_ok : yields held ref (flush_broadcast_forwarding_buffer m_mib) (fun _ => True).
Proof.
  intros w Hw. unfold flush_broadcast_forwarding_buffer, flush_buffer, PacketBuffer.flush.
  pose (I := fun s : PacketBuffer (Buffered SM) * (option Exception * W) => s.2.1 = None /\ RouterInv held ref (set_bc_buffer s.1 s.2.2)).
  assert (HI : I (fold_left (fun s n => flush_node (m_now (w_runtime w)) (flush_step m_mib w_bc_buffer set_bc_buffer) n s) (m_nodes (w_bc_buffer w))
    (mk_PacketBuffer [] (m_capacity (w_bc_buffer w)) 0, (None, w)))).
  { pose proof Hw as []. apply fold_flush_in.
    - eapply Forall_impl; [exact inv_bc_ok0|]. intros n Hn [b [e w1]] t [He H1]. cbn [fst snd] in *. subst e. unfold flush_step.
      pose proof (process_buffered_ok _ (buffered_ok_reduce t n.2 Hn) (set_bc_buffer b w1) H1) as Hp.
      destruct (process_buffered m_mib _ (set_bc_buffer b w1)) as [[[]|e] w2]; [|contradiction]. split; [reflexivity|].
      cbn [fst snd]. rewrite set_bc_buffer_same. apply Hp.
    - split; [reflexivity|]. cbn [fst snd]. split; auto. destruct inv_bc0 as (Hc & _).
      unfold PacketBuffer.Inv. cbn [set_bc_buffer w_bc_buffer m_capacity m_stored m_nodes]. change (PacketBuffer.total []) with 0. lia. }
  destruct (fold_left _ _ _) as [b [e w']]. destruct HI as [He HI]. cbn [fst snd] in *. subst e. auto.
Qed.

Lemma flush_unicast_ok source : yields held ref (flush_unicast_forwarding_buffer m_mib source) (fun _ => True).
Proof.
  intros w []. unfold flush_unicast_forwarding_buffer, flush_buffer, PacketBuffer.flush. rewrite inv_uc0. cbn. split; [exact I|]. now split.
Qed.

Lemma flush_forwarding_buffers_ok : yields held ref (flush_forwarding_buffers m_mib) (fun _ => True).
Proof.
  unfold flush_forwarding_buffers. apply (yields_seq _ _ (fun _ => True)); [apply flush_broadcast_ok|intros _ _]. bind_any. apply flush_unicast_ok.
Qed.

Lemma process_cbf_ok ps : Forall queued_ok ps -> yields held ref (process_cbf m_mib ps) (fun _ => True).
Proof.
  induction 1 as [|p ps Hp _ IH]; cbn [process_cbf]; [now apply yields_ret|].
  apply (yields_seq _ _ (fun _ => True)); [apply transmit_gbc_ok, Hp|intros _ _; exact IH].
Qed.

Lemma flush_loop_queued now ts (b : @CbfPacketBuffer (ForwardPacket SM) RouterCounter) : Forall queued_ok (m_packets b) ->
  Forall queued_ok (m_packets (flush_loop now ts b).1) /\ Forall queued_ok (flush_loop now ts b).2.
Proof.
  revert b. induction ts as [|t ts IH]; intros b Hb; [cbn; auto|]. cbn [flush_loop]. destruct (_ <? _); [cbn; auto|].
  destruct (find_packet (timer_id t) (m_packets b)) as [p|] eqn:Ep; [|auto].
  assert (Hp : queued_ok (CbfBuffer.reduce_lifetime now t p).2).
  { apply queued_ok_reduce. apply find_Some in Ep as [Ep _]. rewrite Forall_forall in Hb. auto. }
  destruct (CbfBuffer.reduce_lifetime now t p) as [valid p']. cbn [snd] in Hp.
  match goal with |- context[flush_loop now ts ?b0] => specialize (IH b0 (Forall_erase _ _ Hb)) end.
  destruct (flush_loop now ts _) as [b' out]. cbn [fst snd] in *. destruct IH as [H1 H2]. split; [exact H1|]. destruct valid; auto.
Qed.

Lemma on_cbf_timer_ok : yields held ref (on_cbf_timer_expired m_mib) (fun _ => True).
Proof.
  unfold on_cbf_timer_expired. bind_with (Forall queued_ok).
  - apply cbf_operation_ok. intros b rt HI Hok HQ. pose proof (flush_Inv Cbf_timer cbf_scope (b, rt) HI) as HI'.
    unfold CbfBuffer.flush in *. destruct (flush_loop_queued (m_now rt) (m_timers b) b Hok) as [H1 H2].
    destruct (flush_loop (m_now rt) (m_timers b) b) as [b' out]. cbn [fst snd] in *. split_all; auto.
    destruct (m_timers b'); [now apply same_but_refl|now apply schedule_timer_same].
  - now apply process_cbf_ok.
Qed.

(** ** Local state *)

Lemma set_local_position_ok f : yields held ref (modify (fun w : W => set_local_position (f w) w)) (fun _ => True).
Proof. apply yields_modify. intros w []. now split. Qed.

Lemma update_position_ok fix_ : yields held ref (update_position m_mib fix_) (fun _ => True).
Proof. unfold update_position. bind_any. bind_any. apply (set_local_position_ok (fun _ => _)). Qed.
Lemma set_address_ok a : yields held ref (set_address a) (fun _ => True).
Proof. apply (set_local_position_ok (fun w => _)). Qed.
Lemma set_transport_handler_ok p b : yields held ref (set_transport_handler p b) (fun _ => True).
Proof. apply yields_modify. intros w []. now split. Qed.
Lemma set_security_ok b : yields held ref (set_security b) (fun _ => True).
Proof. apply yields_modify. intros w []. now split. Qed.

Lemma random_octets_ok n : yields held ref (random_octets n) (fun _ => True).
Proof.
  induction n as [|n IH]; cbn [random_octets]; [now apply yields_ret|]. bind_any.
  apply (yields_seq _ _ (fun _ => True)); [exact IH|intros l _; now apply yields_ret].
Qed.
Lemma detect_duplicate_address_ok source sender : yields held ref (detect_duplicate_address m_mib source sender) (fun _ => True).
Proof.
  unfold detect_duplicate_address. destruct (itsGnLocalAddrConfMethod m_mib); [|now apply yields_ret..]. bind_any.
  destruct (_ || _); [|now apply yields_ret]. apply (yields_seq _ _ (fun _ => True)); [apply random_octets_ok|intros l _]. apply set_address_ok.
Qed.
#[local] Hint Resolve detect_duplicate_address_ok flush_broadcast_ok flush_unicast_ok : router.

(** ** Requests *)

Lemma repeater_add_ok request payload : yields held ref (repeater_add request payload) (fun _ => True).
Proof.
  apply yields_modify. intros w Hw. pose proof Hw as []. unfold add_request. destruct (repetition (access_request request)) as [rep|] eqn:Er; [|now split].
  pose proof (add_repetition_Inv Repetition_timer repeater_scope as_repetition (fun n => eq_refl) (omap as_repetition held) request rep payload
    (w_repeater w) (w_runtime w) inv_repeater0 ltac:(congruence)) as HR.
  assert (HQ : QueueInv (m_queue (add_repetition Repetition_timer repeater_scope request rep payload (w_repeater w, w_runtime w)).2) /\
    beacons (m_queue (add_repetition Repetition_timer repeater_scope request rep payload (w_repeater w, w_runtime w)).2) = beacons (m_queue (w_runtime w))).
  { unfold add_repetition. destruct (has_further_repetition rep); [|now split]. cbn [snd].
    match goal with |- context[schedule ?tp (Repetition_timer ?n) _ _] =>
      destruct (schedule_queue tp (Repetition_timer n) (w_runtime w) inv_queue0) as [HQ HP] end.
    split; [exact HQ|]. cbn [scope_of] in HP. rewrite (beacons_Permutation _ _ HP), beacons_cons. reflexivity. }
  destruct (add_repetition _ _ _ _ _ _) as [r rt]. cbn [fst snd] in *. destruct HQ as [HQ Eb]. split; auto. cbn. now rewrite Eb.
Qed.

Lemma create_shb_ok request : yields held ref (create_shb_pdu m_mib request) plain.
Proof. unfold create_shb_pdu. bind_any. bind_any. apply yields_ret. now split. Qed.
Lemma create_beacon_ok : yields held ref (create_beacon_pdu m_mib) (fun pdu => secured pdu = None).
Proof. unfold create_beacon_pdu. bind_any. now apply yields_ret. Qed.

Lemma gbc_header_type_is_gbc area : is_gbc (gbc_header_type area) = true.
Proof. unfold gbc_header_type. now destruct (shape area). Qed.

Lemma create_gbc_ok request area : yields held ref (create_gbc_pdu m_mib request area)
  (fun pdu => plain pdu /\ header_type (common pdu) = gbc_header_type area).
Proof.
  unfold create_gbc_pdu. bind_any. rename a into sn. unfold SequenceNumber.post_increment.
  apply (yields_seq _ _ (fun _ => True)); [apply yields_modify; intros w []; now split|intros _ _]. bind_any. apply yields_ret. now split.
Qed.

Lemma request_shb_ok r payload : yields held ref (request_shb m_mib r payload) (fun _ => True).
Proof.
  unfold request_shb. cbv zeta. destruct payload as [payload|]; [|now apply yields_ret]. destruct (accepted _); [|now apply yields_ret].
  apply (yields_seq _ _ (fun _ => True)); [apply repeater_add_ok|intros _ _].
  bind_with (@plain ShbHeader); [apply create_shb_ok|]. rename a into pdu. bind_any.
  apply (yields_seq _ _ (fun _ => True)); [|intros _ _; now apply yields_ret].
  destruct (_ && _); [now apply bc_push_ok|now apply transmit_shb_ok].
Qed.

Lemma request_gbc_ok r area payload : yields held ref (request_gbc m_mib r area payload) (fun _ => True).
Proof.
  unfold request_gbc. cbv zeta. destruct payload as [payload|]; [|now apply yields_ret]. destruct (accepted _); [|now apply yields_ret].
  apply (yields_seq _ _ (fun _ => True)); [apply repeater_add_ok|intros _ _].
  eapply yields_seq; [apply create_gbc_ok|]. intros pdu [Hp Ht]. bind_any. set (packet := mk_ForwardPacket _ payload _).
  assert (Hok : buffered_ok (Buf_gbc packet (Forwarding None))).
  { split; [|reflexivity]. split; [|exact Hp]. cbn. rewrite Ht. apply gbc_header_type_is_gbc. }
  apply (yields_seq _ _ (fun _ => True)); [|intros _ _; now apply yields_ret].
  destruct (_ && _); [now apply bc_push_ok|now apply process_buffered_ok].
Qed.

Lemma request_ok r payload : yields held ref (request m_mib r payload) (fun _ => True).
Proof. destruct r; cbn [request]; [now apply yields_ret|apply request_gbc_ok|now apply yields_ret|apply request_shb_ok|now apply yields_ret]. Qed.

(** ** Timers *)

Lemma on_beacon_ok : yields held ref (on_beacon_timer_expired m_mib) (fun _ => True).
Proof.
  unfold on_beacon_timer_expired. bind_any. destruct (vanetzaDisableBeaconing m_mib); [now apply yields_ret|].
  destruct (_ =? 0); [apply reset_beacon_timer_ok|]. bind_with (fun pdu : Pdu SM BeaconHeader => secured pdu = None); [apply create_beacon_ok|].
  rename a0 into pdu. bind_with (@encapsulated_ok BeaconHeader).
  - destruct (itsGnSecurity m_mib) eqn:E; [now apply encap_packet_ok|]. apply yields_ret. unfold encapsulated_ok, enveloped. cbn. rewrite H.
    split; [discriminate|]. unfold strict_security. now rewrite E.
  - destruct a0 as [[pdu2 payload2]|]; [|now apply yields_ret]. bind_any.
    apply (yields_seq _ _ (fun _ => True)); [now apply pass_down_ok|intros _ _; apply reset_beacon_timer_ok].
Qed.

End Operations.

(** The repetition that is triggered is taken off the list. *)
Lemma on_repetition_ok held ref rep invocation w : RouterInv (Repetition_timer rep :: held) ref w ->
  match on_repetition m_mib rep invocation w with (inl _, w') => RouterInv held ref w' | (inr _, _) => False end.
Proof.
  intros Hw. destruct (find_repetition_Inv as_repetition (omap as_repetition (Repetition_timer rep :: held)) rep (w_repeater w) (w_runtime w)
    (inv_repeater _ _ _ Hw)) as (req & pl & Ef & Hr); [constructor|].
  unfold on_repetition, mbind, M_bind, get_now, gets, deref. cbv beta iota. rewrite Ef. cbn [mret M_ret]. unfold mret, M_ret.
  destruct (repetition (access_request req)) as [r|] eqn:Er; [|easy]. unfold assertion, mret, M_ret.
  pose proof (request_ok (held := Repetition_timer rep :: held) (ref := ref) (modify_request (repeated (m_now (w_runtime w)) invocation) req) (Some pl) w Hw) as Hreq.
  destruct (request m_mib _ (Some pl) w) as [[a|e] w1]; [|contradiction]. destruct Hreq as [_ []]. cbn. split; auto.
  - now apply erase_repetition_Inv.
  - cbn. destruct inv_beacon0 as [H1 H2]. split; [exact H1|]. intros Hb. destruct (H2 Hb) as [Hin|Hq]; [|auto].
    apply elem_of_cons in Hin as [[=]|Hin]. auto.
Qed.

Lemma runs_assume {A} (F : Prop) (P : W -> Prop) (m : Router A) Q : (F -> runs P m Q) -> runs (fun w => F /\ P w) m Q.
Proof. intros Hm w [HF Hw]. now apply Hm. Qed.

(** The beacon timer is set again. *)
Lemma settled held ref w : RouterInv (Beacon_timer :: held) ref w -> (beaconing = true -> beacons (m_queue (w_runtime w)) = 1%nat) -> RouterInv held ref w.
Proof. intros [] Hb. split; auto. split; [apply inv_beacon0|auto]. Qed.

Lemma reset_beacon_timer_after_settles held ref d :
  runs (RouterInv (Beacon_timer :: held) ref) (reset_beacon_timer_after d) (fun _ w => RouterInv held ref w).
Proof.
  intros w Hw. destruct (reset_beacon_timer_after_sets d w Hw) as (w' & -> & Hw'). destruct Hw'. split; auto.
  - now rewrite held_repetitions in inv_repeater0.
  - destruct inv_beacon0 as [H1 H2]. split; [exact H1|]. intros Hb. destruct (H2 Hb) as [Hin|Hq]; [|auto].
    apply list_elem_of_filter in Hin as [Hne _]. exfalso. now apply Hne.
Qed.

Lemma drawn_settles {A} held ref (f : Ext -> A * Ext) (m : A -> Router unit) :
  (forall a, runs (RouterInv (Beacon_timer :: held) ref) (m a) (fun _ w => RouterInv held ref w)) ->
  runs (RouterInv (Beacon_timer :: held) ref) (a ← draw f; m a) (fun _ w => RouterInv held ref w).
Proof.
  intros Hm. eapply runs_bind; [apply (yields_draw (held := Beacon_timer :: held) (ref := ref) f)|]. intros a w [_ Hw]. now apply Hm.
Qed.

Lemma reset_beacon_timer_settles held ref :
  runs (RouterInv (Beacon_timer :: held) ref) (reset_beacon_timer m_mib) (fun _ w => RouterInv held ref w).
Proof. apply drawn_settles. intros jitter. apply reset_beacon_timer_after_settles. Qed.

Lemma on_beacon_settles held ref :
  runs (RouterInv (Beacon_timer :: held) ref) (on_beacon_timer_expired m_mib) (fun _ w => RouterInv held ref w).
Proof.
  destruct beaconing eqn:Hb.
  - unfold beaconing in Hb. apply andb_true_iff in Hb as [Hs Hd]. apply negb_true_iff in Hs, Hd. unfold on_beacon_timer_expired. rewrite Hs, Hd.
    eapply runs_bind; [apply runs_gets|]. intros lpv. apply (runs_conseq _ (RouterInv (Beacon_timer :: held) ref) _ _ (fun _ w => RouterInv held ref w)); [tauto| |auto].
    destruct (_ =? _); [apply reset_beacon_timer_settles|].
    eapply runs_bind; [apply (create_beacon_ok (held := Beacon_timer :: held) (ref := ref))|]. intros pdu. cbv beta.
    apply runs_assume. intros Hsec.
    eapply runs_bind; [apply (yields_ret (held := Beacon_timer :: held) (ref := ref) _ (fun r => r = Some (with_basic (set_next_header NextHeaderBasic_Common (basic pdu)) pdu, ∅))); reflexivity|]. intros r. cbv beta.
    apply runs_assume. intros Er. rewrite Er.
    eapply runs_bind; [apply (execute_media_procedures_ok (held := Beacon_timer :: held) (ref := ref))|]. intros ?.
    eapply runs_bind; [|intros ?; apply reset_beacon_timer_settles]. eapply runs_conseq; [intros w [_ Hw]; exact Hw| |].
    + apply (pass_down_ok (held := Beacon_timer :: held) (ref := ref)). unfold enveloped. cbn. rewrite Hsec. split; [discriminate|].
      unfold strict_security. now rewrite Hs.
    + cbv beta. intros _ w []. assumption.
  - intros w Hw. pose proof (on_beacon_ok (held := Beacon_timer :: held) (ref := ref) w Hw) as Ho.
    destruct (on_beacon_timer_expired m_mib w) as [[a|e] w']; [|exact Ho]. apply settled; [apply Ho|congruence].
Qed.

End Invariant.

#[global] Arguments yields_ret {SM Report Certificate Ext Env m_mib held ref A} a P _.
#[global] Arguments yields_seq {SM Report Certificate Ext Env m_mib held ref A B} m f P Q _ _.
#[global] Arguments yields_weaken {SM Report Certificate Ext Env m_mib held ref A} m P Q _ _.
#[global] Arguments yields_gets {SM Report Certificate Ext Env m_mib held ref A} f P _.
#[global] Arguments yields_modify {SM Report Certificate Ext Env m_mib held ref} f _.

(** The tactics and hints of this file for its clients. *)
#[export] Hint Resolve yields_draw yields_emit yields_local_address yields_local_position table_update_ok table_create_ok table_entry_ok
  table_has_entry_ok table_has_neighbours_ok reset_beacon_timer_ok bc_push_ok cbf_add_ok cbf_remove_ok cbf_update_ok cbf_counter_ok
  pass_down_ok pass_down_forwarded_ok execute_media_procedures_ok timeout_cbf_sender_ok outside_ok transmit_tsb_ok process_buffered_ok
  detect_duplicate_address_ok flush_broadcast_ok flush_unicast_ok : router.
#[export] Hint Extern 1 (yields _ _ _ (gets _) (fun _ => True)) => (apply yields_gets; auto) : router.
#[export] Hint Extern 1 (yields _ _ _ get_now (fun _ => True)) => (apply yields_gets; auto) : router.
#[export] Hint Extern 1 (yields _ _ _ (mret _) _) => (apply yields_ret; auto) : router.

Ltac bind_any := apply (yields_seq _ _ (fun _ => True)); [solve [auto with router]|intros ? _].
Ltac bind_with P := apply (yields_seq _ _ P); [|intros ? ?].
