(* ===== verification/RouterSafety.v ===== *)
(** The indications of the router keep its invariant and throw nothing, its
    histories, and what holds in every state it reaches. *)

From S2P Require Import Prelude Double GnNumbers Archive GnWire Caches SoftState LocationTable PacketBuffer Scheduler CbfBuffer Packets Areas Requests RouterState Router Indication RouterInv.
From stdpp Require Import gmap.

Open Scope Z_scope.

Section Safety.
Context {SM Report Certificate Ext : Type} {Env : Environment SM Report Certificate Ext} {Laws : EnvironmentLaws Env}.
Variable m_mib : MIB.

Abbreviation W := (World SM Report Certificate Ext).
Abbreviation Router A := (M SM Report Certificate Ext A).
Abbreviation Down := (gmap nat (ByteBufferConvertible SM)).
Abbreviation Indication := (DataIndication Report Certificate).
Abbreviation yields := (yields m_mib).
Abbreviation Invariant := (RouterInv m_mib).

(** * Packets *)

(** A received PDU and its packet, as the extended headers are processed. *)
Definition received_ok {H} (pdu : Pdu SM H) (packet : UpPacket SM) : Prop :=
  match secured pdu with
  | Some _ => basic_next_header (basic pdu) = NextHeaderBasic_Secured
  | None => basic_next_header (basic pdu) <> NextHeaderBasic_Secured /\ strict_security m_mib = false
  end /\ 0 <= hop_limit (basic pdu) < 2 ^ 8 /\ hop_limit (basic pdu) <= maximum_hop_limit (common pdu) /\
  payload_size (duplicate_packet packet) <= 2 ^ 60.

(** Accepted packets only: what is passed up has a successful report when
    security is strict. *)
Definition report_ok (ind : Indication) : Prop :=
  strict_security m_mib = true -> exists r, ind_security_report ind = Some r /\ is_successful r = true.

Definition up_ok (packet : UpPacket SM) : Prop := match packet with Chunk _ => True | Cohesive p => CohesivePacket.Inv p end.

(** finish() fails no assertion. *)
Definition finishable (o : Origin) : Prop := forall n, exists packet, finish o n = Some packet /\ up_ok packet.

Definition parsing (parser : Parser) (packet : CohesivePacket.t) : Prop :=
  octets (stream (archive parser)) /\
  (m_read_bytes parser + length (stream (archive parser)) <= length (CohesivePacket.get packet Network))%nat.

Definition origin_ok (pdu : VariantPdu SM) (o : Origin) : Prop :=
  match o with
  | Deserialize parser packet => CohesivePacket.Inv packet /\ parsing parser packet
  | SecuredDeserialize parser packet parent => CohesivePacket.Inv packet /\ parsing parser packet /\ finishable parent
  | Cast _ => headers_ok (common pdu) (extended pdu)
  | SecuredCast packet => up_ok packet /\ headers_ok (common pdu) (extended pdu)
  end.

(** A context whose basic header was accepted, with the secured message when
    there is one. *)
Record context_ok (ctx : @Context SM Report Certificate) : Prop := {
  ctx_origin : origin_ok (ctx_pdu ctx) (origin ctx);
  ctx_hop_limit : 0 <= hop_limit (basic (ctx_pdu ctx)) < 2 ^ 8;
  ctx_secured : match secured (ctx_pdu ctx) with
    | Some _ => basic_next_header (basic (ctx_pdu ctx)) = NextHeaderBasic_Secured
    | None => basic_next_header (basic (ctx_pdu ctx)) <> NextHeaderBasic_Secured /\ strict_security m_mib = false
    end;
  ctx_report : report_ok (service_primitive ctx)
}.

(** ** Parsing *)

Lemma parses_parsing {A} (parse : Parser -> nat * option A * Parser) n ser ok parser packet :
  parses parse n ser ok -> parsing parser packet -> let '(_, h, parser') := parse parser in
  parsing parser' packet /\ forall a, h = Some a -> ok a.
Proof.
  intros Hp [Ho Hl]. destruct parser as [[s e] k]. cbn in *. specialize (Hp s e k Ho).
  destruct (Nat.leb_spec n (length s)) as [Hn|Hn].
  - destruct Hp as (a & Ha & Es & ->). split; [|intros b [= <-]; exact Ha]. split; cbn.
    + rewrite Es in Ho. apply Forall_app in Ho as [_ Ho]. exact Ho.
    + rewrite length_drop. lia.
  - rewrite Hp. split; [|intros b [=]]. split; cbn; [constructor|]. lia.
Qed.

Lemma parse_extended_parsing ht parser packet : parsing parser packet -> let '(_, h, parser') := parse_extended ht parser in
  parsing parser' packet /\ forall a, h = Some a -> travels ht a = true.
Proof.
  intros Hp. destruct (extended_length ht) as [n|] eqn:E.
  - pose proof (parses_parsing _ _ _ _ _ packet (parses_extended ht n E) Hp) as Hx. destruct (parse_extended ht parser) as [[b h] p'].
    destruct Hx as [Hp' Hh]. split; [exact Hp'|]. intros a Ha. now apply Hh.
  - revert E. unfold extended_length, parse_extended.
    destruct (ht =? HeaderType_TSB_Single_Hop), (ht =? HeaderType_TSB_Multi_Hop), (is_gbc ht), (ht =? HeaderType_Beacon); intros [=];
      (split; [exact Hp|intros a [=]]).
Qed.

(** The boundary between headers and payload can be set. *)
Lemma parsing_boundary parser packet : CohesivePacket.Inv packet -> parsing parser packet ->
  exists p', CohesivePacket.set_boundary Network (m_read_bytes parser) packet = Some p' /\ CohesivePacket.Inv p'.
Proof.
  intros HI [_ Hl]. destruct (set_boundary_spec packet Network (m_read_bytes parser) HI) as (p' & E & HI' & _); [unfold Network; lia|lia|eauto].
Qed.

Lemma finish_ok pdu o : origin_ok pdu o -> finishable o.
Proof.
  destruct o as [parser packet|packet|parser packet parent|packet]; cbn [origin_ok]; intros Ho n; cbn [finish].
  - destruct Ho as [HI Hp]. destruct (parsing_boundary parser packet HI Hp) as (p1 & -> & HI1). cbn [mbind option_bind].
    destruct (trim_spec p1 Transport (Z.to_nat n) HI1) as (p2 & -> & HI2 & _); [unfold Transport; lia|]. cbn. eauto.
  - eexists. split; [reflexivity|exact I].
  - destruct Ho as (HI & Hp & Hf). destruct (parsing_boundary parser packet HI Hp) as (p1 & -> & HI1). cbn [mbind option_bind].
    destruct (Hf n) as (q & -> & _). eexists. split; [reflexivity|]. cbn. now rewrite copy_same.
  - eexists. split; [reflexivity|apply Ho].
Qed.

Lemma up_ok_size packet : up_ok packet -> payload_size (duplicate_packet packet) = packet_size packet Transport max_osi_layer.
Proof.
  destruct packet as [p|p]; [reflexivity|]. cbn. intros HI. unfold payload_size. apply duplicate_size; auto; unfold Transport, max_osi_layer, Application; lia.
Qed.

(** * Extended headers *)

Section Handlers.
Context {held : list Callback}.

(** The entry of the source stays while its packet is processed. *)
Lemma release_ref k w : Invariant held (Some k) w -> Invariant held None w.
Proof. intros []. split; auto. intros k' [=]. Qed.
Lemma acquire_ref k w : Invariant held None w -> is_Some (get_data_ptr k (w_table w)) -> Invariant held (Some k) w.
Proof. intros [] Hk. split; auto. now intros k' [= <-]. Qed.

Lemma with_entry {A} k (m : Router A) P : yields held (Some k) m P ->
  forall w, Invariant held None w -> is_Some (get_data_ptr k (w_table w)) -> match m w with (inl a, w') => P a /\ Invariant held None w' | (inr _, _) => False end.
Proof.
  intros Hm w Hw Hk. specialize (Hm w (acquire_ref k w Hw Hk)). destruct (m w) as [[a|e] w']; [|exact Hm].
  destruct Hm as [Ha Hw']. split; [exact Ha|]. now apply (release_ref k).
Qed.

Lemma update_then {A} lpv (m : Router A) P : yields held (Some (mid (gn_addr lpv))) m P -> yields held None (table_update lpv;; m) P.
Proof.
  intros Hm w Hw. destruct (table_update_key m_mib lpv w Hw) as (t' & E & Hw' & d & e & Ek & _).
  unfold mbind, M_bind. rewrite table_update_eq, E. apply (with_entry _ m P Hm _ Hw').
  apply abs_key; [apply Hw'|]. cbn. rewrite Ek. eauto.
Qed.

(** Its position is known when the vector is valid. *)
Lemma update_entry_then {A} lpv (f : LocationTableEntry -> Router A) P :
  (forall e, (is_valid lpv = true -> m_has_position_vector e = true) -> yields held (Some (mid (gn_addr lpv))) (f e) P) ->
  yields held None (table_update lpv;; e ← entry_at (mid (gn_addr lpv)); f e) P.
Proof.
  intros Hf w Hw. destruct (table_update_key m_mib lpv w Hw) as (t' & E & Hw' & d & e & Ek & Hv).
  pose proof (proj1 (inv_table _ _ _ _ Hw')) as HL. cbn in HL.
  assert (Ep : snd <$> get_data_ptr (mid (gn_addr lpv)) t' = Some e).
  { unfold get_data_ptr. destruct (m_map t' !! mid (gn_addr lpv)) as [[h v]|] eqn:Em.
    - destruct (Linked_lookup t' _ h v HL Em) as (x & _ & Ex). rewrite Ek in Ex. injection Ex as -> ->. reflexivity.
    - now rewrite (Linked_None t' _ HL Em) in Ek. }
  unfold mbind, M_bind. rewrite table_update_eq, E, entry_at_eq. change (w_table (set_table t' w)) with t'. rewrite Ep.
  apply (with_entry _ (f e) P (Hf e Hv) _ Hw'). apply abs_key; [exact HL|]. cbn. rewrite Ek. eauto.
Qed.

Lemma entry_update_pdr_ok ref mac size : yields held ref (entry_update_pdr m_mib mac size) (fun _ => True).
Proof. unfold entry_update_pdr. bind_any. apply entry_change_ok, keeps_position_pdr. Qed.
Hint Resolve entry_update_pdr_ok entry_change_ok keeps_position_expiry keeps_position_neighbour keeps_position_loctex : router.

Lemma process_shb_ok pdu packet ll : yields held None (process_shb m_mib pdu packet ll) (fun _ => True).
Proof.
  unfold process_shb. cbv zeta. bind_any. apply update_entry_then. intros e Hv.
  apply (yields_seq _ _ (fun _ => True)).
  { apply yields_assertion. destruct (is_valid _); [now rewrite Hv|apply orb_true_r]. }
  intros _ _. bind_any. bind_any. bind_any. apply (yields_seq _ _ (fun _ => True)); [|intros _ _; now apply yields_ret].
  destruct (itsGnIfType m_mib); auto with router. destruct (get_dcc_mco _); auto with router.
Qed.

Lemma process_beacon_ok pdu packet ll : yields held None (process_beacon m_mib pdu packet ll) (fun _ => True).
Proof.
  unfold process_beacon. cbv zeta. bind_any. apply update_then. bind_any. bind_any. bind_any. auto with router.
Qed.

Lemma exceeded_pdr_ok k ll : yields held (Some k) (exceeded_pdr m_mib k ll) (fun _ => True).
Proof.
  unfold exceeded_pdr. destruct (_ <? _); [|auto with router]. cbv zeta.
  apply (yields_seq _ _ (fun _ => True)); [now apply entry_at_ok|intros e _]. destruct (d_ltb _ _); [auto with router|].
  bind_any. destruct a as [e'|]; [|auto with router]. destruct (d_ltb _ _); auto with router.
Qed.

(** The packet for the next forwarder. *)
Lemma forwarding_duplicate_ok {H} (pdu : Pdu SM H) packet : received_ok pdu packet -> 1 < hop_limit (basic pdu) ->
  let '(fwd_pdu, fwd_payload) := forwarding_duplicate pdu packet in
  relayable m_mib fwd_pdu fwd_payload /\ hop_limit (basic fwd_pdu) + 1 = hop_limit (basic pdu) /\ common fwd_pdu = common pdu.
Proof.
  intros (Hs & Hh & Hm & Hl) H1. unfold forwarding_duplicate, relayable, enveloped. cbn.
  assert (E : u8 (hop_limit (basic pdu) - 1) = hop_limit (basic pdu) - 1) by (apply Z.mod_small; lia). rewrite E.
  destruct (secured pdu); rewrite ?payload_size_empty; split_all; try tauto; lia.
Qed.

Lemma multi_hop_address_ok ref source sender :
  yields held ref (if vanetzaMultiHopDuplicateAddressDetection m_mib then detect_duplicate_address m_mib source sender else mret tt) (fun _ => True).
Proof. destruct (vanetzaMultiHopDuplicateAddressDetection m_mib); auto with router. Qed.
Lemma stopped_ok ref reason : yields held ref (forwarding_stopped reason) (fun _ => True).
Proof. now apply yields_emit. Qed.
Lemma dropped_ok ref reason : yields held ref (packet_dropped reason) (fun _ => True).
Proof. now apply yields_emit. Qed.
Hint Resolve multi_hop_address_ok stopped_ok dropped_ok exceeded_pdr_ok : router.

Lemma detect_duplicate_packet_ok addr sn : yields held None (detect_duplicate_packet m_mib addr sn) (fun _ => True).
Proof.
  intros w Hw. unfold detect_duplicate_packet. unfold mbind at 1, M_bind at 1.
  pose proof (table_create_ok m_mib (held := held) (ref := None) (mid addr) w Hw) as Hc. rewrite table_create_eq in *.
  pose proof (inv_table _ _ _ _ Hw) as [HL _]. unfold get_or_create_entry in *.
  destruct (get_value_spec create_entry (m_now (w_runtime w)) (w_table w) (mid addr) HL) as (t' & Et & HL' & _ & Ea). rewrite Et in *.
  destruct Hc as [_ Hc].
  assert (Hk : is_Some (get_data_ptr (mid addr) t')).
  { apply abs_key; [exact HL'|]. rewrite Ea. unfold spec_get_value. destruct (abs (w_table w) !! mid addr) as [[d e]|] eqn:Ek;
      [destruct (SoftState.is_expired _ d); [rewrite lookup_insert_eq|rewrite Ek]; eauto|rewrite lookup_insert_eq; eauto]. }
  refine (with_entry (mid addr) (_ : Router bool) _ _ _ Hc Hk).
  apply (yields_seq _ _ (fun _ => True)); [now apply entry_at_ok|intros so _]. destruct (DuplicatePacketList.check _ _) as [dup dpl].
  apply (yields_seq _ _ (fun _ => True)); [apply entry_change_ok, keeps_position_dpl|intros _ _]. auto with router.
Qed.
Hint Resolve detect_duplicate_packet_ok : router.

Lemma new_neighbour_ok ref key (b : bool) : yields held ref (if b then entry_change key (set_neighbour false) else mret tt) (fun _ => True).
Proof. destruct b; auto with router. Qed.
Hint Resolve new_neighbour_ok : router.

Lemma process_tsb_ok pdu packet ll : received_ok pdu packet -> yields held None (process_tsb m_mib pdu packet ll) (fun _ => True).
Proof.
  intros Hr. unfold process_tsb. cbv zeta. bind_any. rename a into exists_. bind_any. destruct a; [auto with router|].
  bind_any. apply update_then. bind_any. bind_any. bind_any. destruct (Z.leb_spec (hop_limit (basic pdu)) 1) as [Hh|Hh]; [bind_any; auto with router|].
  bind_any. destruct a3 as [reason|]; [bind_any; auto with router|].
  pose proof (forwarding_duplicate_ok pdu packet Hr ltac:(lia)) as Hf. destruct (forwarding_duplicate pdu packet) as [fwd_pdu fwd_payload].
  destruct Hf as (Hf & Hhop & _). apply (yields_seq _ _ (fun _ => True)); [apply yields_assertion; now apply Z.eqb_eq|intros _ _].
  bind_any. apply (yields_seq _ _ (fun _ => True)); [|auto with router]. destruct (_ && _); auto with router.
Qed.

(** Whether a packet is passed up, from a memory of a history. *)
Definition remembered (gbc : GeoBroadcastHeader) : CbfPacketIdentifier := (gn_addr (source_position gbc), sequence_number gbc).

Lemma decide_pass_up_eq within gbc (w : W) : decide_pass_up m_mib within gbc w =
  let accept := within || vanetzaGbcPassUpOutsideDestination m_mib in
  if (vanetzaGbcMemoryCapacity m_mib =? 0)%nat then (inl accept, w)
  else if accept then (inl (negb (GbcMemory.remember (remembered gbc) (w_memory w)).1), set_memory (GbcMemory.remember (remembered gbc) (w_memory w)).2 w)
  else (inl false, w).
Proof.
  unfold decide_pass_up. cbv zeta. destruct (_ =? _)%nat; [reflexivity|]. destruct (_ || _); [|reflexivity].
  unfold mbind, M_bind, gets, modify, remembered. now destruct (GbcMemory.remember _ _).
Qed.

Lemma decide_pass_up_ok ref within gbc : yields held ref (decide_pass_up m_mib within gbc) (fun _ => True).
Proof.
  intros w Hw. rewrite decide_pass_up_eq. cbv zeta. destruct (_ =? _)%nat; [auto|]. destruct (_ || _); [|auto]. split; [exact I|].
  destruct Hw. split; auto. destruct inv_memory as [h Eh]. exists (remembered gbc :: h). cbn. now rewrite Eh.
Qed.
Hint Resolve decide_pass_up_ok : router.

Lemma process_gbc_ok pdu packet ll : received_ok pdu packet -> is_gbc (header_type (common pdu)) = true ->
  yields held None (process_gbc m_mib pdu packet ll) (fun _ => True).
Proof.
  intros Hr Hg. unfold process_gbc. cbv zeta. apply (yields_seq _ _ (fun _ => True)); [now apply gbc_destination_ok|intros area _].
  bind_any. rename a into exists_. bind_any. rename a into epv.
  apply (yields_seq _ _ (fun _ => True)); [destruct (gbc_duplicate_detection _ _); auto with router|intros dup _].
  destruct dup; [auto with router|]. bind_any. apply update_then. bind_any. bind_any. bind_any.
  destruct (Z.leb_spec (hop_limit (basic pdu)) 1) as [Hh|Hh]; [bind_any; auto with router|].
  destruct (d_ltb _ _); [bind_any; auto with router|]. bind_any. destruct a3 as [reason|]; [bind_any; auto with router|].
  pose proof (forwarding_duplicate_ok pdu packet Hr ltac:(lia)) as Hf. destruct (forwarding_duplicate pdu packet) as [fwd_pdu fwd_payload].
  destruct Hf as (Hf & Hhop & Hc). apply (yields_seq _ _ (fun _ => True)); [apply yields_assertion; now apply Z.eqb_eq|intros _ _].
  bind_any. apply (yields_seq _ _ (fun _ => True)); [|auto with router].
  assert (Hb : buffered_ok m_mib (Buf_gbc (mk_ForwardPacket fwd_pdu fwd_payload Relay) (Forwarding (Some ll)))).
  { split; [|now rewrite bool_decide_false]. split; [cbn; now rewrite Hc|exact Hf]. }
  destruct (_ && _); auto with router.
Qed.

(** * Indications *)

Lemma received_retype {H H'} (pdu : Pdu SM H) (h : H') packet : received_ok pdu packet -> received_ok (with_extended h pdu) packet.
Proof. exact (fun Hr => Hr). Qed.

Lemma visit_extended_ok ctx packet h : received_ok (ctx_pdu ctx) packet -> travels (header_type (common (ctx_pdu ctx))) h = true ->
  report_ok (service_primitive ctx) -> yields held None (visit_extended m_mib ctx packet h) (fun r => report_ok r.2).
Proof.
  intros Hr Ht Hi. unfold visit_extended. destruct h as [b|g|b|t]; cbn [travels] in Ht; cbv zeta.
  - apply (yields_seq _ _ (fun _ => True)); [apply process_beacon_ok|intros up _; now apply yields_ret].
  - apply (yields_seq _ _ (fun _ => True)); [now apply gbc_destination_ok|intros area _].
    apply (yields_seq _ _ (fun _ => True)); [now apply process_gbc_ok|intros up _; now apply yields_ret].
  - apply (yields_seq _ _ (fun _ => True)); [apply process_shb_ok|intros up _; now apply yields_ret].
  - apply (yields_seq _ _ (fun _ => True)); [now apply process_tsb_ok|intros up _; now apply yields_ret].
Qed.

Lemma pass_up_ok ref ind packet : report_ok ind -> yields held ref (pass_up ind packet) (fun _ => True).
Proof. intros Hi. unfold pass_up. bind_any. destruct a; auto with router. Qed.

Lemma finish_context_ok ctx : finishable (origin ctx) -> yields held None (finish_context ctx) up_ok.
Proof.
  intros Hf. unfold finish_context. destruct (Hf (payload (common (ctx_pdu ctx)))) as (packet & -> & Hp). now apply yields_ret.
Qed.

(** The context after its extended header was parsed. *)
Lemma parse_extended_header_ok ctx : context_ok ctx -> let '(h, ctx') := parse_extended_header (header_type (common (ctx_pdu ctx))) ctx in
  finishable (origin ctx') /\ basic (ctx_pdu ctx') = basic (ctx_pdu ctx) /\ common (ctx_pdu ctx') = common (ctx_pdu ctx) /\
  secured (ctx_pdu ctx') = secured (ctx_pdu ctx) /\ service_primitive ctx' = service_primitive ctx /\
  forall v, h = Some v -> travels (header_type (common (ctx_pdu ctx))) v = true.
Proof.
  intros [Ho _ _ _]. unfold parse_extended_header. destruct ctx as [o pdu ll ind]. cbn [ctx_pdu origin service_primitive] in *.
  destruct o as [parser packet|packet|parser packet parent|packet].
  - destruct Ho as [HI Hp]. pose proof (parse_extended_parsing (header_type (common pdu)) parser packet Hp) as Hx.
    destruct (parse_extended _ parser) as [[b h] p']. destruct Hx as [Hp' Hh].
    assert (Hf : finishable (Deserialize p' packet)) by (apply (finish_ok pdu); now split). destruct h; cbn; split_all; auto.
  - cbn. split_all; auto; [apply (finish_ok pdu); exact Ho|]. intros v [= <-]. apply Ho.
  - destruct Ho as (HI & Hp & Hf). pose proof (parse_extended_parsing (header_type (common pdu)) parser packet Hp) as Hx.
    destruct (parse_extended _ parser) as [[b h] p']. destruct Hx as [Hp' Hh].
    assert (Hf' : finishable (SecuredDeserialize p' packet parent)) by (apply (finish_ok pdu); cbn; auto). destruct h; cbn; split_all; auto.
  - cbn. split_all; auto; [apply (finish_ok pdu); exact Ho|]. intros v [= <-]. apply Ho.
Qed.

Lemma indicate_extended_ok ctx : context_ok ctx -> 0 <= payload (common (ctx_pdu ctx)) < 2 ^ 16 ->
  hop_limit (basic (ctx_pdu ctx)) <= maximum_hop_limit (common (ctx_pdu ctx)) ->
  yields held None (indicate_extended m_mib ctx (common (ctx_pdu ctx))) (fun _ => True).
Proof.
  intros Hc Hpl Hm. unfold indicate_extended. pose proof (parse_extended_header_ok ctx Hc) as Hp.
  destruct (parse_extended_header _ ctx) as [h ctx']. destruct Hp as (Hf & Eb & Ec & Es & Ei & Ht).
  bind_with up_ok; [now apply finish_context_ok|]. rename a into packet. destruct h as [v|]; [|auto with router].
  destruct (Z.eqb_spec (payload (common (ctx_pdu ctx))) (packet_size packet Transport max_osi_layer)) as [E|E]; cbn [negb]; [|auto with router].
  destruct Hc as [_ Hh Hsec Hrep]. eapply (yields_seq _ _ (fun r : bool * Indication => report_ok r.2)).
  - apply visit_extended_ok; [|rewrite Ec; now apply Ht|now rewrite Ei]. unfold received_ok. rewrite Eb, Ec, Es, up_ok_size, <- E by assumption.
    split_all; auto; lia.
  - intros [up ind] Hi. cbn in Hi. destruct up; [now apply pass_up_ok|auto with router].
Qed.

(** The context after its common header was parsed. *)
Lemma parse_common_header_ok ctx : context_ok ctx -> let '(h, ctx') := parse_common_header ctx in
  forall c, h = Some c -> context_ok ctx' /\ common (ctx_pdu ctx') = c /\ basic (ctx_pdu ctx') = basic (ctx_pdu ctx) /\ 0 <= payload c < 2 ^ 16.
Proof.
  intros [Ho Hh Hs Hr]. unfold parse_common_header. destruct ctx as [o pdu ll ind]. cbn [ctx_pdu origin service_primitive] in *.
  destruct o as [parser packet|packet|parser packet parent|packet].
  - destruct Ho as [HI Hp]. pose proof (parses_parsing _ _ _ _ _ packet parses_common Hp) as Hx.
    destruct (parse_common parser) as [[b h] p']. destruct Hx as [Hp' Hok]. intros c ->. destruct (Hok c eq_refl) as (_ & _ & _ & _ & _ & Hpl & _).
    cbn. split_all; auto; try apply Hpl. split; cbn; auto.
  - intros c [= <-]. split_all; auto; try apply Ho. split; auto.
  - destruct Ho as (HI & Hp & Hf). pose proof (parses_parsing _ _ _ _ _ packet parses_common Hp) as Hx.
    destruct (parse_common parser) as [[b h] p']. destruct Hx as [Hp' Hok]. intros c ->. destruct (Hok c eq_refl) as (_ & _ & _ & _ & _ & Hpl & _).
    cbn. split_all; auto; try apply Hpl. split; cbn; auto.
  - intros c [= <-]. split_all; auto; try apply Ho. split; auto.
Qed.

Lemma drop_expired_ok : yields held None (now ← get_now; modify (fun w : W => set_table (SoftState.drop_expired now (w_table w)) w)) (fun _ => True).
Proof.
  bind_any. rename a into now. apply yields_modify. intros w Hw. pose proof Hw as []. destruct inv_table as [HL Hok].
  destruct (drop_loop_spec now (size (m_heap (w_table w))) (w_table w) HL (le_n _)) as (HL' & _ & Ea). fold (SoftState.drop_expired now (w_table w)) in *.
  split; auto; [|intros k [=]]. split; [exact HL'|]. intros k d e. cbn. rewrite Ea. intros Hk. apply map_lookup_filter_Some in Hk as [Hk _]. eauto.
Qed.

Lemma indicate_common_ok ctx : context_ok ctx -> yields held None (indicate_common m_mib ctx (basic (ctx_pdu ctx))) (fun _ => True).
Proof.
  intros Hc. unfold indicate_common. pose proof (parse_common_header_ok ctx Hc) as Hp. destruct (parse_common_header ctx) as [[c|] ctx1]; [|auto with router].
  destruct (Hp c eq_refl) as (Hc1 & Ec & Eb & Hpl). destruct (Z.ltb_spec (maximum_hop_limit c) (hop_limit (basic (ctx_pdu ctx)))) as [Hm|Hm]; [auto with router|].
  pose proof (yields_seq _ (fun _ => flush_broadcast_forwarding_buffer m_mib;;
    indicate_extended m_mib (with_primitive (ind_common c (service_primitive ctx1)) ctx1) c) (fun _ => True) (fun _ => True) drop_expired_ok) as Hb.
  assert (Hrest : yields held None (flush_broadcast_forwarding_buffer m_mib;;
    indicate_extended m_mib (with_primitive (ind_common c (service_primitive ctx1)) ctx1) c) (fun _ => True)).
  { bind_any. set (ctx2 := with_primitive _ ctx1). change (ctx_pdu ctx1) with (ctx_pdu ctx2) in Ec, Eb. rewrite <- Ec.
    apply indicate_extended_ok; [|now rewrite Ec|rewrite Ec, Eb; lia]. destruct Hc1 as [Ho Hh Hs Hr]. split; auto. }
  specialize (Hb (fun _ _ => Hrest)). intros w Hw. exact (Hb w Hw).
Qed.

(** The contexts of the payload of a secured message. *)
Lemma visit_secured_ok ctx (p : UpPacket SM) : finishable (origin ctx) -> is_Some (secured (ctx_pdu ctx)) ->
  0 <= hop_limit (basic (ctx_pdu ctx)) < 2 ^ 8 -> basic_next_header (basic (ctx_pdu ctx)) = NextHeaderBasic_Secured ->
  report_ok (service_primitive ctx) ->
  match p with
  | Cohesive p => cohesive_ok p
  | Chunk p => exists c h, ChunkPacket.layer Network p = SecuredPdu c h /\ headers_ok c h
  end ->
  yields held None (visit_secured_payload m_mib ctx (basic (ctx_pdu ctx)) p) (fun _ => True).
Proof.
  intros Hf [m Em] Hh Hn Hr Hp. unfold visit_secured_payload. destruct p as [p|p].
  - destruct Hp as (c & h & El & Hhd). unfold context_secured_cast.
    apply (yields_seq _ _ (fun ctx' => context_ok ctx' /\ basic (ctx_pdu ctx') = basic (ctx_pdu ctx))).
    + bind_with up_ok; [now apply finish_context_ok|]. rewrite El. apply yields_ret. cbn. split; [|reflexivity]. split; cbn; auto.
      * split; [|exact Hhd]. destruct a as [q|q]; [exact I|]. cbn. apply create_Inv. unfold Transport. lia.
      * now rewrite Em.
    + intros ctx' [Hc <-]. now apply indicate_common_ok.
  - destruct Hp as [HI Ho]. apply (indicate_common_ok (context_secured_deserialize ctx p)). split; cbn; auto; [|now rewrite Em].
    split_all; auto. split; cbn.
    + unfold CohesivePacket.get. apply Forall_take, Forall_drop, Ho.
    + lia.
Qed.

(** A received packet: any octets, or a PDU as a router passes it down. *)
Definition input_ok (packet : UpPacket SM) : Prop :=
  match packet with
  | Cohesive p => cohesive_ok p
  | Chunk p => exists pdu, ChunkPacket.layer Network p = Pdu_buffer pdu /\ headers_ok (common pdu) (extended pdu) /\
      0 <= hop_limit (basic pdu) < 2 ^ 8 /\ (is_Some (secured pdu) -> basic_next_header (basic pdu) = NextHeaderBasic_Secured)
  end.

(** A context of a packet, before its secured message is looked for. *)
Record basic_ok (ctx : @Context SM Report Certificate) : Prop := {
  bas_origin : match origin ctx with
    | Deserialize parser packet => CohesivePacket.Inv packet /\ parsing parser packet /\ secured (ctx_pdu ctx) = None
    | Cast _ => headers_ok (common (ctx_pdu ctx)) (extended (ctx_pdu ctx))
    | SecuredDeserialize _ _ _ | SecuredCast _ => False
    end;
  bas_secured : is_Some (secured (ctx_pdu ctx)) -> basic_next_header (basic (ctx_pdu ctx)) = NextHeaderBasic_Secured
}.

Lemma parse_secured_boundary parser packet : CohesivePacket.Inv packet -> parsing parser packet ->
  let '(bytes, m, parser') := parse_secured parser in
  (0 < bytes)%nat -> is_Some m /\ finishable (Deserialize parser' packet).
Proof.
  intros HI [Ho Hl]. unfold parse_secured. destruct (is_good (archive parser)); [|easy]. unfold peek_byte.
  destruct (stream (archive parser)) as [|first rest] eqn:Es; [easy|]. destruct (first <=? 3); [|easy].
  destruct (deserialize_secured (archive parser)) as [[[m n]|] ar'] eqn:Ed; [|easy]. intros Hn. split; [eauto|].
  pose proof (deserialize_secured_consumes _ _ _ _ Ed) as El. rewrite Es in El. intros k. cbn [finish m_read_bytes].
  destruct (set_boundary_spec packet Network (m_read_bytes parser + n) HI) as (p1 & -> & HI1 & _); [unfold Network; lia|lia|].
  cbn [mbind option_bind]. destruct (trim_spec p1 Transport (Z.to_nat k) HI1) as (p2 & -> & HI2 & _); [unfold Transport; lia|]. cbn. eauto.
Qed.

Lemma parse_secured_message_ok ctx : basic_ok ctx -> let '(m, ctx') := parse_secured_message ctx in
  forall msg, m = Some msg -> finishable (origin ctx') /\ secured (ctx_pdu ctx') = Some msg /\ basic (ctx_pdu ctx') = basic (ctx_pdu ctx).
Proof.
  intros [Ho _]. unfold parse_secured_message. destruct ctx as [o pdu ll ind]. cbn [ctx_pdu origin] in *.
  destruct o as [parser packet|packet| |]; try contradiction.
  - destruct Ho as (HI & Hp & _). pose proof (parse_secured_boundary parser packet HI Hp) as Hx. destruct (parse_secured parser) as [[bytes m] p'].
    destruct (Nat.ltb_spec 0 bytes) as [Hb|Hb]; [|easy]. destruct (Hx Hb) as [_ Hf]. intros msg ->. now split_all.
  - intros msg Em. cbn. split_all; auto. apply (finish_ok pdu). exact Ho.
Qed.

(** A message that is not accepted, is passed on all the same, and whose plain
    text is a packet without the PDU that was signed. *)
Definition payload_missing (msg : SM) (w : W) : bool :=
  let c := (decapsulate_packet msg (w_ext w)).1 in
  w_security_entity w && negb (is_successful (report c)) &&
  match itsGnSnDecapResultHandling m_mib with Non_Strict => true | Strict => false end &&
  match plaintext_payload c with
  | Chunk p => match ChunkPacket.layer Network p with SecuredPdu _ _ => false | _ => true end
  | Cohesive _ => false
  end.

Definition after_decapsulation (msg : SM) (w : W) : W := set_ext (decapsulate_packet msg (w_ext w)).2 w.
Lemma after_decapsulation_ok ref msg w : Invariant held ref w -> Invariant held ref (after_decapsulation msg w).
Proof. intros []. now split. Qed.

Lemma plaintext_ok msg w : w_security_entity w = true -> payload_missing msg w = false ->
  let c := (decapsulate_packet msg (w_ext w)).1 in
  is_successful (report c) = true \/ itsGnSnDecapResultHandling m_mib = Non_Strict ->
  match plaintext_payload c with
  | Cohesive p => cohesive_ok p
  | Chunk p => exists c h, ChunkPacket.layer Network p = SecuredPdu c h /\ headers_ok c h
  end.
Proof.
  unfold payload_missing. cbv zeta. intros -> Hm Hs. pose proof (plaintext_wellformed msg (w_ext w)) as Hp. destruct (plaintext_payload _) as [p|p]; [|exact Hp].
  assert (H : forall b, is_successful (report (decapsulate_packet msg (w_ext w)).1) = false -> b = true ->
    true && negb (is_successful (report (decapsulate_packet msg (w_ext w)).1)) && match itsGnSnDecapResultHandling m_mib with Non_Strict => true | Strict => false end && b = true).
  { intros b Hf ->. rewrite Hf. destruct Hs as [|E]; [congruence|]. now rewrite E. }
  destruct (ChunkPacket.layer Network p); eauto; rewrite (H _ Hp eq_refl) in Hm; discriminate.
Qed.

Lemma yields_at {A} (m : Router A) P w : yields held None m P -> Invariant held None w ->
  match m w with (inl _, w') => Invariant held None w' | (inr _, _) => False end.
Proof. intros Hm Hw. specialize (Hm w Hw). destruct (m w) as [[a|x] w']; [apply Hm|exact Hm]. Qed.

(** The state a call starts from is consistent. *)
#[local] Ltac at_once :=
  cbv beta iota; match goal with |- match ?m ?w with _ => _ end => apply (yields_at m (fun _ => True) w); [|assumption] end.

Lemma indicate_secured_ok ctx w : basic_ok ctx -> 0 <= hop_limit (basic (ctx_pdu ctx)) < 2 ^ 8 ->
  basic_next_header (basic (ctx_pdu ctx)) = NextHeaderBasic_Secured -> Invariant held None w ->
  (forall msg, (parse_secured_message ctx).1 = Some msg -> payload_missing msg w = false) ->
  match indicate_secured m_mib ctx (basic (ctx_pdu ctx)) w with (inl _, w') => Invariant held None w' | (inr _, _) => False end.
Proof.
  intros Hb Hh Hn Hw Hm. unfold indicate_secured. pose proof (parse_secured_message_ok ctx Hb) as Hp.
  destruct (parse_secured_message ctx) as [[msg|] ctx1]; [|at_once; auto with router]. destruct (Hp msg eq_refl) as (Hf & Es & Eb). specialize (Hm msg eq_refl).
  unfold mbind at 1, M_bind at 1, gets. destruct (w_security_entity w) eqn:Ew; [|at_once; auto with router]. pose proof (plaintext_ok msg w Ew Hm) as Hc. cbv zeta in Hc.
  pose proof (after_decapsulation_ok None msg w Hw) as Hw1. unfold after_decapsulation in Hw1. unfold mbind at 1, M_bind at 1, draw.
  destruct (decapsulate_packet msg (w_ext w)) as [c e]. cbn [fst snd] in *. cbv zeta.
  set (ctx2 := with_primitive _ ctx1). rewrite <- Eb in *. change (ctx_pdu ctx1) with (ctx_pdu ctx2) in *.
  assert (Hvisit : report_ok (service_primitive ctx2) -> is_successful (report c) = true \/ itsGnSnDecapResultHandling m_mib = Non_Strict ->
    match visit_secured_payload m_mib ctx2 (basic (ctx_pdu ctx2)) (plaintext_payload c) (set_ext e w) with (inl _, w') => Invariant held None w' | (inr _, _) => False end).
  { intros Hr Hs. at_once. apply visit_secured_ok; [exact Hf|eauto|exact Hh|exact Hn|exact Hr|exact (Hc Hs)]. }
  destruct (is_successful (report c)) eqn:Er.
  - apply Hvisit; [|auto]. intros _. cbn. eauto.
  - destruct (itsGnSnDecapResultHandling m_mib) eqn:Ed; [at_once; auto with router|].
    apply Hvisit; [|auto]. unfold report_ok, strict_security. rewrite Ed. now rewrite andb_false_r.
Qed.

(** Its visitor throws, and nothing else is done. *)
Lemma indicate_secured_throws ctx w msg : basic_ok ctx -> (parse_secured_message ctx).1 = Some msg -> payload_missing msg w = true ->
  indicate_secured m_mib ctx (basic (ctx_pdu ctx)) w = (inr SecuredPdu_cast_failed, after_decapsulation msg w).
Proof.
  intros Hb Em Hm. unfold indicate_secured. pose proof (parse_secured_message_ok ctx Hb) as Hp. destruct (parse_secured_message ctx) as [m ctx1]. cbn in Em. subst m.
  destruct (Hp msg eq_refl) as (Hf & _). unfold payload_missing in Hm. cbv zeta in Hm. rewrite !andb_true_iff in Hm. destruct Hm as [[[Hs Hr%negb_true_iff] Hd] Hl].
  unfold mbind at 1, M_bind at 1, gets. rewrite Hs. unfold mbind at 1, M_bind at 1, draw, after_decapsulation. destruct (decapsulate_packet msg (w_ext w)) as [c e].
  cbn [fst snd] in *. cbv zeta. rewrite Hr. destruct (itsGnSnDecapResultHandling m_mib); [discriminate|]. cbn [variant_empty negb].
  destruct (plaintext_payload c) as [p|p]; [|discriminate]. unfold visit_secured_payload, mbind at 1, M_bind at 1, context_secured_cast, mbind, M_bind, finish_context.
  cbn [origin ctx_pdu with_primitive]. destruct (Hf (payload (common (ctx_pdu ctx1)))) as (packet & -> & _). cbn. now destruct (ChunkPacket.layer Network p).
Qed.

Lemma parse_basic_header_ok ctx : basic_ok ctx -> 0 <= hop_limit (basic (ctx_pdu ctx)) < 2 ^ 8 -> let '(h, ctx') := parse_basic_header ctx in
  forall b, h = Some b -> basic (ctx_pdu ctx') = b /\ basic_ok ctx' /\ 0 <= hop_limit b < 2 ^ 8.
Proof.
  intros [Ho Hs] Hh. unfold parse_basic_header. destruct ctx as [o pdu ll ind]. cbn [ctx_pdu origin] in *.
  destruct o as [parser packet|packet| |]; try contradiction.
  - destruct Ho as (HI & Hp & En). pose proof (parses_parsing _ _ _ _ _ packet parses_basic Hp) as Hx.
    destruct (parse_basic parser) as [[n h] p']. destruct Hx as [Hp' Hok]. intros b ->. destruct (Hok b eq_refl) as (_ & _ & _ & _ & Hb).
    cbn. split_all; auto; try apply Hb. split; cbn; auto. rewrite En. intros [x [=]].
  - intros b [= <-]. cbn. split_all; auto; try apply Hh. now split.
Qed.

(** The secured message of a packet, where indicate_basic() comes to it. *)
Definition message_of (ctx : @Context SM Report Certificate) : option SM :=
  let '(basic, ctx) := parse_basic_header ctx in
  match basic with
  | Some basic =>
      if (version basic =? itsGnProtocolVersion m_mib) && (basic_next_header basic =? NextHeaderBasic_Secured) then (parse_secured_message ctx).1 else None
  | None => None
  end.

Lemma parse_secured_primitive ind (ctx : @Context SM Report Certificate) : (parse_secured_message (with_primitive ind ctx)).1 = (parse_secured_message ctx).1.
Proof.
  unfold parse_secured_message. destruct ctx as [[parser packet|packet|parser packet parent|packet] pdu ll i]; cbn; try reflexivity.
  destruct (parse_secured parser) as [[n m] p']. now destruct n.
Qed.

Lemma indicate_basic_ok ctx w : basic_ok ctx -> 0 <= hop_limit (basic (ctx_pdu ctx)) < 2 ^ 8 -> Invariant held None w ->
  match message_of ctx with
  | Some msg => if payload_missing msg w then indicate_basic m_mib ctx w = (inr SecuredPdu_cast_failed, after_decapsulation msg w)
                else match indicate_basic m_mib ctx w with (inl _, w') => Invariant held None w' | (inr _, _) => False end
  | None => match indicate_basic m_mib ctx w with (inl _, w') => Invariant held None w' | (inr _, _) => False end
  end.
Proof.
  intros Hc Hh Hw. unfold message_of, indicate_basic. pose proof (parse_basic_header_ok ctx Hc Hh) as Hp.
  destruct (parse_basic_header ctx) as [[b|] ctx1]; [|at_once; auto with router].
  destruct (Hp b eq_refl) as (Eb & Hc1 & Hhb). destruct (Z.eqb_spec (version b) (itsGnProtocolVersion m_mib)) as [_|_]; cbn [negb andb];
    [|at_once; auto with router]. cbv zeta. set (ctx2 := with_primitive _ ctx1).
  change (ctx_pdu ctx1) with (ctx_pdu ctx2) in Eb. rewrite <- Eb in *. assert (Hc2 : basic_ok ctx2) by (destruct Hc1; now split).
  destruct (Z.eqb_spec (basic_next_header (basic (ctx_pdu ctx2))) NextHeaderBasic_Secured) as [En|En].
  { assert ((parse_secured_message ctx1).1 = (parse_secured_message ctx2).1) as -> by (symmetry; apply parse_secured_primitive).
    destruct (parse_secured_message ctx2).1 as [msg|] eqn:Em.
    - destruct (payload_missing msg w) eqn:Epm; [now apply indicate_secured_throws|]. apply indicate_secured_ok; auto. intros m Em'. congruence.
    - apply indicate_secured_ok; auto. intros m Em'. congruence. }
  at_once.
  destruct (Z.eqb_spec (basic_next_header (basic (ctx_pdu ctx2))) NextHeaderBasic_Common) as [Ec|Ec]; [|auto with router].
  destruct (negb (itsGnSecurity m_mib) || _) eqn:Es; [|auto with router].
  assert (Hst : strict_security m_mib = false).
  { unfold strict_security. destruct (itsGnSecurity m_mib); [|reflexivity]. now destruct (itsGnSnDecapResultHandling m_mib). }
  apply indicate_common_ok. split; auto.
  - destruct Hc2 as [Ho _]. destruct (origin ctx2); cbn in *; tauto.
  - destruct (secured (ctx_pdu ctx2)) as [m|] eqn:Em; [|auto]. exfalso. apply En. apply (bas_secured _ Hc2). eauto.
  - intros Hst'. congruence.
Qed.

(** The secured message of a received packet. *)
Definition received_message (packet : UpPacket SM) (sender destination : MacAddress) : option SM :=
  let ll := mk_LinkLayer sender destination in
  match packet with
  | Cohesive cohesive => message_of (context_deserialize cohesive ll)
  | Chunk chunk => match ChunkPacket.layer Network chunk with Pdu_buffer pdu => message_of (mk_Context (Cast chunk) pdu ll DataIndication_default) | _ => None end
  end.

Lemma indicate_ok packet sender destination w : input_ok packet -> Invariant held None w ->
  match received_message packet sender destination with
  | Some msg => if payload_missing msg w then indicate m_mib packet sender destination w = (inr SecuredPdu_cast_failed, after_decapsulation msg w)
                else match indicate m_mib packet sender destination w with (inl _, w') => Invariant held None w' | (inr _, _) => False end
  | None => match indicate m_mib packet sender destination w with (inl _, w') => Invariant held None w' | (inr _, _) => False end
  end.
Proof.
  intros Hi Hw. unfold indicate, received_message. cbv zeta. destruct packet as [p|p].
  - destruct Hi as (pdu & El & Hh & Hhop & Hs). unfold context_cast. rewrite El. unfold mbind, M_bind, mret, M_ret. apply indicate_basic_ok; [now split|exact Hhop|exact Hw].
  - destruct Hi as [HI Ho]. apply indicate_basic_ok; [|cbn; lia|exact Hw]. split; [|intros [x [=]]]. cbn. split_all; auto. split; cbn; [|lia].
    unfold CohesivePacket.get. apply Forall_take, Forall_drop, Ho.
Qed.

End Handlers.

(** * Histories *)

(** What happens to a router: calls of its operations, the clock that
    advances, and a turn of the runtime's loop. *)
Inductive Input :=
| Request (r : DataRequestVariant) (payload : option Down)
| Indicate (packet : UpPacket SM) (sender destination : MacAddress)
| Position (position_fix : PositionFix)
| Address_set (addr : Address)
| Transport_set (proto : UpperProtocol) (ifc : bool)
| Security_set (entity : bool)
| Flush_buffers
| Clock (tp : Z)
| Invoke.

(** trigger() up to the callback, which is taken off the queue first. *)
Definition invoke_callback : Router unit := fun w =>
  let rt := w_runtime w in
  match m_queue rt with
  | x :: q => if deadline x <=? m_now rt then on_callback m_mib (callback x) (deadline x) (set_runtime (mk_ManualRuntime (m_now rt) q) w) else (inl tt, w)
  | [] => (inl tt, w)
  end.

Definition handle (i : Input) : Router unit :=
  match i with
  | Request r payload => request m_mib r payload;; mret tt
  | Indicate packet sender destination => indicate m_mib packet sender destination
  | Position position_fix => update_position m_mib position_fix
  | Address_set addr => set_address addr
  | Transport_set proto ifc => set_transport_handler proto ifc
  | Security_set entity => set_security entity
  | Flush_buffers => flush_forwarding_buffers m_mib
  | Clock tp => modify (fun w => set_runtime (mk_ManualRuntime tp (m_queue (w_runtime w))) w)
  | Invoke => invoke_callback
  end.

Definition allowed (i : Input) (w : W) : Prop :=
  match i with
  | Indicate packet _ _ => input_ok packet
  | Clock tp => m_now (w_runtime w) <= tp
  | _ => True
  end.

(** A router on a runtime of its own, after any inputs. *)
Inductive reachable : W -> Prop :=
| reach_create now e : reachable (Router_create m_mib (ManualRuntime_create now) e)
| reach_input i w r w' : reachable w -> allowed i w -> handle i w = (r, w') -> reachable w'.

(** The secured message of an input that makes the visitor throw. *)
Definition unreadable (i : Input) (w : W) : option SM :=
  match i with
  | Indicate packet sender destination =>
      match received_message packet sender destination with Some msg => if payload_missing msg w then Some msg else None | None => None end
  | _ => None
  end.

(** ** Every state *)

Lemma create_ok now e : Invariant [] None (Router_create m_mib (ManualRuntime_create now) e).
Proof.
  unfold Router_create. set (w0 := mk_World _ _ _ _ _ _ _ _ _ _ _ _ _).
  assert (H0 : Invariant [Beacon_timer] None w0).
  { split.
    - apply LocationTable_create_Inv.
    - easy.
    - apply PacketBuffer_empty_Inv. pose proof (uwrap_bound 32 (itsGnBcForwardingPacketBufferSize m_mib * 1024)). lia.
    - constructor.
    - reflexivity.
    - apply CbfPacketBuffer_create_Inv. pose proof (uwrap_bound 32 (itsGnCbfPacketBufferSize m_mib * 1024)). lia.
    - constructor.
    - split; constructor.
    - split; [reflexivity|]. cbn. split_all; constructor.
    - split; [cbn; lia|]. intros _. left. constructor.
    - now exists [].
    - constructor. }
  assert (Hs : forall m : Router unit, runs (Invariant [Beacon_timer] None) m (fun _ w => Invariant [] None w) -> Invariant [] None (m w0).2).
  { intros m Hm. specialize (Hm w0 H0). destruct (m w0) as [[a|x] w]; [exact Hm|contradiction]. }
  apply Hs. destruct (vanetzaDisableBeaconing m_mib) eqn:Ed.
  - apply runs_ret. intros w Hw. apply settled; [exact Hw|]. unfold beaconing. rewrite Ed, andb_false_r. discriminate.
  - destruct (_ <? _); [apply drawn_settles; intros real|]; apply reset_beacon_timer_after_settles.
Qed.

Lemma pop_ok x q w : m_queue (w_runtime w) = x :: q -> Invariant [] None w ->
  Invariant [callback x] None (set_runtime (mk_ManualRuntime (m_now (w_runtime w)) q) w).
Proof.
  intros Eq []. split; auto.
  - unfold QueueInv in *. cbn. rewrite Eq in inv_queue. destruct inv_queue as [Ho Hs]. inversion Ho; inversion Hs; subst. now split.
  - destruct inv_repeater as (HP & Hr). split; [|exact Hr]. cbn [set_runtime w_runtime w_repeater m_queue]. rewrite <- HP, Eq. cbn [app].
    unfold pending. cbn. now destruct (as_repetition (callback x)).
  - cbn [set_runtime w_runtime m_queue]. rewrite Eq, beacons_cons in inv_beacon. destruct inv_beacon as [H1 H2]. split; [lia|]. intros Hb. destruct (H2 Hb) as [Hin|Hq]; [now apply elem_of_nil in Hin|].
    destruct (callback x); [left; constructor|right; rewrite decide_False in Hq by discriminate; exact Hq..].
Qed.

(** A callback of another owner leaves the beacons alone. *)
Lemma release_held cb w : cb <> Beacon_timer -> as_repetition cb = None -> Invariant [cb] None w -> Invariant [] None w.
Proof.
  intros Hcb Hr []. split; auto; [cbn in *; now rewrite Hr in inv_repeater|]. destruct inv_beacon as [H1 H2]. split; [exact H1|].
  intros Hb. destruct (H2 Hb) as [Hin|Hq]; [|auto]. apply list_elem_of_singleton in Hin. congruence.
Qed.

Lemma invoke_ok : yields [] None invoke_callback (fun _ => True).
Proof.
  intros w Hw. unfold invoke_callback. cbv zeta. destruct (m_queue (w_runtime w)) as [|x q] eqn:Eq; [auto|]. destruct (_ <=? _); [|auto].
  pose proof (pop_ok x q w Eq Hw) as Hp. destruct (callback x) as [| |rep]; cbn [on_callback] in *.
  - pose proof (on_beacon_settles m_mib [] None _ Hp) as Ho. destruct (on_beacon_timer_expired _ _) as [[[]|e] w']; [auto|contradiction].
  - pose proof (on_cbf_timer_ok m_mib _ Hp) as Ho. destruct (on_cbf_timer_expired _ _) as [[[]|e] w']; [|contradiction]. split; [exact I|].
    now apply (release_held Cbf_timer).
  - pose proof (on_repetition_ok m_mib [] None rep (deadline x) _ Hp) as Ho. destruct (on_repetition _ _ _ _) as [[[]|e] w']; [auto|contradiction].
Qed.

Lemma handle_ok i w : allowed i w -> Invariant [] None w ->
  match unreadable i w with
  | Some msg => handle i w = (inr SecuredPdu_cast_failed, after_decapsulation msg w)
  | None => match handle i w with (inl _, w') => Invariant [] None w' | (inr _, _) => False end
  end.
Proof.
  intros Ha Hw. assert (Hy : yields [] None (handle i) (fun _ => True) -> match handle i w with (inl _, w') => Invariant [] None w' | (inr _, _) => False end).
  { intros Hy. now apply (yields_at _ (fun _ => True)). }
  destruct i; cbn [handle allowed unreadable] in *; try apply Hy.
  - apply (yields_seq _ _ (fun _ => True)); [apply request_ok|auto with router].
  - pose proof (indicate_ok packet sender destination w Ha Hw) as Hi. destruct (received_message _ _ _) as [msg|]; [|exact Hi]. now destruct (payload_missing msg w).
  - apply update_position_ok.
  - apply set_address_ok.
  - apply set_transport_handler_ok.
  - apply set_security_ok.
  - apply flush_forwarding_buffers_ok.
  - apply yields_modify. clear. intros w []. now split.
  - apply invoke_ok.
Qed.

Lemma reachable_ok w : reachable w -> Invariant [] None w.
Proof.
  induction 1 as [now e|i w r w' _ IH Ha E]; [apply create_ok|]. pose proof (handle_ok i w Ha IH) as Hh. rewrite E in Hh.
  destruct (unreadable i w) as [msg|]; [injection Hh as _ ->; now apply after_decapsulation_ok|]. now destruct r.
Qed.

(** ** Sending, when nothing is secured *)

Lemma reset_beacon_timer_eq (w : W) : reset_beacon_timer m_mib w =
  let '(jitter, e) := draw_real (w_ext w) in
  (inl tt, set_runtime (schedule_after (clock_cast (d_add (itsGnBeaconServiceRetransmitTimer m_mib) (d_mul jitter (itsGnBeaconServiceMaxJitter m_mib))))
    Beacon_timer (Some router_scope) (Scheduler.cancel (Some router_scope) (w_runtime w))) (set_ext e w)).
Proof. unfold reset_beacon_timer, mbind, M_bind, draw. now destruct (draw_real (w_ext w)). Qed.

Lemma pass_down_common addr (pdu : VariantPdu SM) payload (w : W) : secured pdu = None -> basic_next_header (basic pdu) = NextHeaderBasic_Common ->
  pass_down addr pdu payload w =
  (inl tt, set_events (w_events w ++ [Pass_down (mk_DccRequest (mid (gn_addr (w_local_position w))) addr
     (TrafficClass.map_tc_onto_profile (traffic_class (common pdu))) (clock_cast (Lifetime.decode (lifetime (basic pdu)))) ether_type)
     (ChunkPacket.set_layer Network (Pdu_buffer pdu) payload)]) w).
Proof.
  intros Hs Hn. unfold pass_down, pass_down_request, mbind, M_bind, local_address, gets. rewrite Hs, Hn. reflexivity.
Qed.

Lemma media_eq p (w : W) : execute_media_procedures p w = (inl tt, w).
Proof. now destruct p. Qed.

End Safety.
