(* ===== verification/RouterExample.v ===== *)
(** A concrete environment for the router, and a router in it.

    Messages are true or forged and take two octets, one for the version and
    one for which it is; the plain text of a true one is always the same
    single-hop broadcast, that of a forged one an empty packet.  The state of the random generator is the number of
    draws, and of messages signed. *)

From S2P Require Import Prelude Double GnNumbers Archive GnWire Caches SoftState LocationTable PacketBuffer Scheduler CbfBuffer Packets Areas Requests RouterState Router Indication RouterInv RouterSafety.
From stdpp Require Import gmap.

Open Scope Z_scope.

#[export] Instance Example_secured : Secured bool.
Proof. refine {| sm_size _ := 2; sm_serialize m := [3; Z.b2z m] |}. intros _. split; vm_compute; congruence. Defined.

(** A position in the middle of Europe, of a station with its own address. *)
Definition example_vector (m lat lon : Z) : LongPositionVector :=
  mk_LongPositionVector (mk_Address true 5 49 [0; 0; 0; 0; 0; m]) 1000 lat lon true 0 0.

(** A single-hop broadcast of two octets. *)
Definition example_basic (next lifetime hop : Z) : BasicHeader := mk_BasicHeader 1 next 0 lifetime hop.
Definition example_common (ht traffic_class size hop : Z) : CommonHeader := mk_CommonHeader NextHeaderCommon_BTP_B 0 ht traffic_class 0 size hop 0.
Definition example_shb (m : Z) : ShbHeader := mk_ShbHeader (example_vector m 480000000 110000000) (DccRaw 0).
Definition example_plain : list Z :=
  serialize_CommonHeader (example_common HeaderType_TSB_Single_Hop 0 2 1) ++ serialize_HeaderVariant (Shb (example_shb 7)) ++ [7; 8].

Definition draw_message : Reader (bool * nat) := bs <~ load_binary 2; ret (bool_decide (nth 1 bs 0 = 1), 2%nat).

#[export] Instance Example_environment : Environment bool bool unit Z := {|
  is_successful r := r;
  draw_real e := (d_literal 1 2, e + 1);
  draw_unsigned e := (e, e + 1);
  generate_dcc_field e := (DccRaw 0, e);
  encapsulate_packet _ e := (if e <? 0 then None else Some true, e + 1);
  decapsulate_packet m e := (mk_DecapConfirm (if m then Cohesive (CohesivePacket.create example_plain Network) else Chunk ∅) m None 36 [], e);
  deserialize_secured := draw_message;
  malloc l := S (foldr Nat.max 0%nat l);
  traversal m := map snd (map_to_list m)
|}.

Lemma foldr_max_le (l : list nat) n : n ∈ l -> (n <= foldr Nat.max 0%nat l)%nat.
Proof. induction 1 as [x l|x y l _ IH]; cbn; lia. Qed.

Lemma octets_decide l : forallb (fun o => (0 <=? o) && (o <? 256)) l = true -> octets l.
Proof.
  intros Hf. apply Forall_forall. intros o Ho. apply list_elem_of_In in Ho. rewrite forallb_forall in Hf. specialize (Hf o Ho).
  unfold octet. lia.
Qed.

#[export] Instance Example_laws : EnvironmentLaws Example_environment.
Proof.
  split.
  - intros l Hin. cbn in Hin. apply foldr_max_le in Hin. lia.
  - intros m e. cbn. rewrite list_elem_of_fmap. split.
    + intros ([k x] & -> & Hx). exists k. now apply elem_of_map_to_list.
    + intros [k Hk]. exists (k, e). split; [reflexivity|]. now apply elem_of_map_to_list.
  - intros [s e] m n ar'. cbn. unfold draw_message, bind, load_binary, ret, fail. cbn [stream error_code].
    destruct (Nat.eqb_spec (length (take 2 s)) 2) as [El|El]; intros [= <- <- <-]. cbn [stream]. rewrite length_take in El. rewrite length_drop. lia.
  - intros [|] e; [|reflexivity]. cbn. split; [apply create_Inv; unfold Network; lia|]. apply octets_decide. vm_compute. reflexivity.
Qed.

(** The defaults, with an area forwarding algorithm, with security and its
    handling. *)
Definition example_mib (security : bool) (handling : SecurityDecapHandling) (af : BroadcastForwarding) (memory : nat) : MIB :=
  let m := MIB_default (d_literal 52 100) in {|
  itsGnLocalAddrConfMethod := Managed;
  itsGnProtocolVersion := itsGnProtocolVersion m;
  itsGnIsMobile := itsGnIsMobile m;
  itsGnIfType := itsGnIfType m;
  itsGnPaiInterval := itsGnPaiInterval m;
  itsGnMaxSduSize := itsGnMaxSduSize m;
  itsGnLifetimeLocTE := itsGnLifetimeLocTE m;
  itsGnSecurity := security;
  itsGnSnDecapResultHandling := handling;
  itsGnBeaconServiceRetransmitTimer := itsGnBeaconServiceRetransmitTimer m;
  itsGnBeaconServiceMaxJitter := itsGnBeaconServiceMaxJitter m;
  itsGnDefaultHopLimit := itsGnDefaultHopLimit m;
  itsGnDPLLength := itsGnDPLLength m;
  itsGnMaxPacketLifetime := itsGnMaxPacketLifetime m;
  itsGnDefaultPacketLifetime := itsGnDefaultPacketLifetime m;
  itsGnMaxPacketDataRate := itsGnMaxPacketDataRate m;
  itsGnMaxPacketDataRateEmaBeta := itsGnMaxPacketDataRateEmaBeta m;
  itsGnMaxGeoAreaSize := itsGnMaxGeoAreaSize m;
  itsGnMinPacketRepetitionInterval := itsGnMinPacketRepetitionInterval m;
  itsGnNonAreaForwardingAlgorithm := itsGnNonAreaForwardingAlgorithm m;
  itsGnAreaForwardingAlgorithm := af;
  itsGnCbfMinTime := itsGnCbfMinTime m;
  itsGnCbfMaxTime := itsGnCbfMaxTime m;
  itsGnDefaultMaxCommunicationRange := itsGnDefaultMaxCommunicationRange m;
  itsGnBroadcastCBFDefSectorAngle := itsGnBroadcastCBFDefSectorAngle m;
  itsGnUcForwardingPacketBufferSize := itsGnUcForwardingPacketBufferSize m;
  itsGnBcForwardingPacketBufferSize := itsGnBcForwardingPacketBufferSize m;
  itsGnCbfPacketBufferSize := itsGnCbfPacketBufferSize m;
  itsGnDefaultTrafficClass := itsGnDefaultTrafficClass m;
  vanetzaCbfMaxCounter := vanetzaCbfMaxCounter m;
  vanetzaDeferInitialBeacon := 0;
  vanetzaDisableBeaconing := false;
  vanetzaMultiHopDuplicateAddressDetection := false;
  vanetzaFadingCbfCounter := false;
  vanetzaFadingCbfCounterLifetime := vanetzaFadingCbfCounterLifetime m;
  vanetzaNeighbourFlagExpiry := 0;
  vanetzaGbcMemoryCapacity := memory;
  vanetzaGbcPassUpOutsideDestination := false
|}.

Definition open_mib : MIB := example_mib false Strict Bc_CBF 2.
Definition strict_mib : MIB := example_mib true Strict Bc_CBF 2.

(** A router after some inputs. *)
Definition run (mib : MIB) (inputs : list Input) (w : World bool bool unit Z) : World bool bool unit Z :=
  fold_left (fun w i => (handle mib i w).2) inputs w.
Fixpoint all_allowed (mib : MIB) (inputs : list Input) (w : World bool bool unit Z) : Prop :=
  match inputs with [] => True | i :: rest => allowed i w /\ all_allowed mib rest (handle mib i w).2 end.

Lemma run_reachable mib inputs w : reachable mib w -> all_allowed mib inputs w -> reachable mib (run mib inputs w).
Proof.
  revert w. induction inputs as [|i rest IH]; intros w Hw Ha; [exact Hw|]. destruct Ha as [Hi Ha]. apply IH; [|exact Ha].
  destruct (handle mib i w) as [r w'] eqn:E. exact (reach_input mib i w r w' Hw Hi E).
Qed.

(** It has a position and a transport for BTP-B, and its first beacon is due. *)
Definition example_fix : PositionFix := mk_PositionFix (d_literal 48 1) (d_literal 11 1) (d_of_Z 0) (d_of_Z 0) (d_of_Z 5).
Definition example_setup : list (@Input bool) :=
  [Security_set true; Transport_set BTP_B true; Address_set (mk_Address true 5 49 [0; 0; 0; 0; 0; 1]); Clock 2000000; Position example_fix].
Definition example_router (mib : MIB) : World bool bool unit Z := run mib example_setup (Router_create mib (ManualRuntime_create 0) 0).

Lemma create_now mib now : m_now (w_runtime (Router_create mib (ManualRuntime_create now) 0)) = now.
Proof. unfold Router_create. destruct (vanetzaDisableBeaconing mib); [reflexivity|]. now destruct (_ <? _). Qed.

Lemma example_router_reachable mib : reachable mib (example_router mib).
Proof.
  apply run_reachable; [apply reach_create|]. cbn [all_allowed example_setup allowed]. split_all; try exact I.
  etransitivity; [apply Z.eq_le_incl, (create_now mib 0)|]. lia.
Qed.

Lemma example_router_Inv mib : RouterInv mib [] None (example_router mib).
Proof. apply reachable_ok, example_router_reachable. Qed.

(** ** Packets *)

Definition example_payload : gmap nat (ByteBufferConvertible bool) := {[Transport := Buffer [7; 8]]}.
Definition example_request (rep : option Repetition) : DataRequest :=
  mk_DataRequest BTP_B ITS_G5 36 [] [] (Lifetime.set Lifetime.One_Second 5) rep 1 0.

(** A geo-broadcast on its way, and a topologically-scoped one. *)
Definition example_pdu {H} (hop : Z) (ht : Z) (h : H) : Pdu bool H :=
  mk_Pdu (example_basic NextHeaderBasic_Common 5 hop) (example_common ht 0 2 10) h None.
Definition example_forward : ForwardPacket bool :=
  mk_ForwardPacket (example_pdu 5 HeaderType_GeoBroadcast_Circle (example_gbc 1 480010000 110000000)) example_payload Relay.
Definition example_tsb : Pdu bool TsbHeader :=
  example_pdu 5 HeaderType_TSB_Multi_Hop (mk_TsbHeader 3 0 (example_vector 7 480000000 110000000)).

Lemma example_forward_ok : forward_ok open_mib example_forward.
Proof. split; [reflexivity|]. unfold relayable, enveloped. cbn [example_forward fwd_transmit]. split; [split; [discriminate|reflexivity]|]. split; [split; vm_compute; congruence|vm_compute; congruence]. Qed.
