(* ===== verification/RouterTheorems.v ===== *)
(** What holds in every state a router reaches: its invariant, that nothing
    throws, what strict security guarantees, and that beaconing goes on. *)

From S2P Require Import Prelude Double GnNumbers Archive GnWire Caches SoftState LocationTable PacketBuffer Scheduler CbfBuffer Packets Areas Requests RouterState Router Indication RouterInv RouterSafety RouterExample.
From stdpp Require Import gmap.

Open Scope Z_scope.

Section Theorems.
Context {SM Report Certificate Ext : Type} {Env : Environment SM Report Certificate Ext} {Laws : EnvironmentLaws Env}.
Variable m_mib : MIB.

Abbreviation W := (World SM Report Certificate Ext).


(** C10.  The state of the router stays consistent in every history: the location
    table is linked and its entries are filed under the addresses of their
    positions, the broadcast buffer and the contention-based forwarding buffer
    keep their bounds and their index, each packet in them is one that may be
    sent, the unicast buffer is empty, every callback on the runtime is of its
    owner, the repetitions are those the runtime will trigger, and there is
    one beacon timer at most. *)
Theorem router_invariant (w : W) : reachable m_mib w ->
  TableInv (w_table w) /\
  PacketBuffer.Inv (w_bc_buffer w) /\ Forall (fun n => buffered_ok m_mib n.2) (m_nodes (w_bc_buffer w)) /\ m_nodes (w_uc_buffer w) = [] /\
  CbfBuffer.Inv (w_cbf w) /\ Forall (queued_ok m_mib) (m_packets (w_cbf w)) /\
  QueueInv (m_queue (w_runtime w)) /\ pending as_repetition (m_queue (w_runtime w)) ≡ₚ map fst (m_repetitions (w_repeater w)) /\
  (beacons (m_queue (w_runtime w)) <= 1)%nat.
Proof. intros Hw. destruct (reachable_ok m_mib w Hw). split_all; auto. apply inv_repeater. Qed.

(** C4.  Strict security: when packets have to be secured and others are not
    accepted, every packet the router ever passes down carries a secured
    message that its basic header announces and no payload beside it, and
    every packet it passes up was decapsulated successfully. *)
Theorem strict_security_holds (w : W) : reachable m_mib w -> itsGnSecurity m_mib = true -> itsGnSnDecapResultHandling m_mib = Strict ->
  Forall (fun e : Event SM Report Certificate => match e with
    | Pass_down _ packet => exists pdu m, ChunkPacket.layer Network packet = Pdu_buffer pdu /\ secured pdu = Some m /\
        basic_next_header (basic pdu) = NextHeaderBasic_Secured /\ payload_size packet = 0
    | Pass_up ind _ => exists r, ind_security_report ind = Some r /\ is_successful r = true
    | _ => True
    end) (w_events w).
Proof.
  intros Hw Hs Hd. destruct (reachable_ok m_mib w Hw). assert (Hst : strict_security m_mib = true) by (unfold strict_security; now rewrite Hs, Hd).
  eapply Forall_impl; [exact inv_events|]. intros [r packet|ind packet|reason|reason]; cbn [event_ok]; auto.
  intros (pdu & El & He). unfold enveloped in He. destruct (secured pdu) as [m|] eqn:Em; [|destruct He; congruence].
  destruct He as [Hn Hp]. eauto 6.
Qed.

(** ** Beacons *)

Lemma only_beacon x q : QueueInv (x :: q) -> callback x = Beacon_timer -> beacons (x :: q) = 1%nat -> others router_scope q = q.
Proof.
  intros _ Ex Hb. rewrite beacons_cons, Ex, decide_True in Hb by reflexivity. unfold others. apply filter_all. rewrite Forall_forall. intros y Hy E.
  apply list_elem_of_split in Hy as (l1 & l2 & ->). unfold beacons in Hb. rewrite filter_app, filter_cons_True, length_app in Hb by exact E. cbn in Hb. lia.
Qed.

(** C34.  Beaconing goes on: as long as beacons are sent and not secured, there is
    exactly one beacon timer in every state the router reaches.  When it
    expires, a beacon with the local position is broadcast to the direct
    neighbours - if a position was ever set - and the next timer is set to the
    retransmission interval and a random jitter from then. *)
Theorem beaconing_goes_on (w : W) : reachable m_mib w -> itsGnSecurity m_mib = false -> vanetzaDisableBeaconing m_mib = false ->
  beacons (m_queue (w_runtime w)) = 1%nat /\
  forall x q, m_queue (w_runtime w) = x :: q -> callback x = Beacon_timer -> deadline x <= m_now (w_runtime w) ->
  let interval := clock_cast (d_add (itsGnBeaconServiceRetransmitTimer m_mib)
                    (d_mul (draw_real (w_ext w)).1 (itsGnBeaconServiceMaxJitter m_mib))) in
  exists w', handle m_mib Invoke w = (inl tt, w') /\
    m_queue (w_runtime w') ≡ₚ mk_ScheduledCallback (m_now (w_runtime w) + interval) Beacon_timer (Some router_scope) :: q /\
    (timestamp (w_local_position w) = 0 -> w_events w' = w_events w) /\
    (timestamp (w_local_position w) <> 0 -> exists request pdu,
       w_events w' = w_events w ++ [Pass_down request (ChunkPacket.set_layer Network (Pdu_buffer pdu) ∅)] /\
       dcc_destination request = cBroadcastMacAddress /\ extended pdu = Beacon (mk_BeaconHeader (w_local_position w)) /\ secured pdu = None /\
       header_type (common pdu) = HeaderType_Beacon /\ payload (common pdu) = 0 /\
       hop_limit (basic pdu) = 1 /\ maximum_hop_limit (common pdu) = 1).
Proof.
  intros Hw Hs Hd. pose proof (reachable_ok m_mib w Hw) as Hi. assert (Hb : beacons (m_queue (w_runtime w)) = 1%nat).
  { destruct (inv_beacon _ _ _ _ Hi) as [_ Hx]. destruct Hx as [Hin|]; auto; [unfold beaconing; now rewrite Hs, Hd|now apply elem_of_nil in Hin]. }
  split; [exact Hb|]. intros x q Eq Ex Hx interval. pose proof (inv_queue _ _ _ _ Hi) as HQ. rewrite Eq in HQ, Hb.
  unfold handle, invoke_callback. cbv zeta. rewrite Eq, Ex. destruct (Z.leb_spec (deadline x) (m_now (w_runtime w))); [|lia]. cbn [on_callback].
  set (w1 := set_runtime _ w).
  assert (Hr : forall w2, w_runtime w2 = w_runtime w1 -> w_ext w2 = w_ext w -> exists w', reset_beacon_timer m_mib w2 = (inl tt, w') /\
    m_queue (w_runtime w') ≡ₚ mk_ScheduledCallback (m_now (w_runtime w) + interval) Beacon_timer (Some router_scope) :: q /\ w_events w' = w_events w2).
  { intros w2 E1 E2. rewrite reset_beacon_timer_eq, E1, E2. unfold interval. destruct (draw_real (w_ext w)) as [jitter e]. eexists. split; [reflexivity|].
    assert (HQ1 : QueueInv (m_queue (w_runtime w1))) by (destruct HQ as [Ho Hf]; inversion Ho; inversion Hf; subst; now split).
    split; [|reflexivity]. unfold schedule_after. cbn [set_runtime w_runtime fst].
    change (m_now (Scheduler.cancel (Some router_scope) (w_runtime w1))) with (m_now (w_runtime w)).
    pose proof (reschedule_queue (m_now (w_runtime w) + clock_cast (d_add (itsGnBeaconServiceRetransmitTimer m_mib)
      (d_mul jitter (itsGnBeaconServiceMaxJitter m_mib)))) Beacon_timer (w_runtime w1) HQ1) as (_ & HP & _). cbn [scope_of] in HP. rewrite HP.
    change (m_queue (w_runtime w1)) with q. now rewrite (only_beacon x q HQ Ex Hb). }
  unfold on_beacon_timer_expired. rewrite Hs, Hd. unfold mbind at 1, M_bind at 1, gets at 1. change (w_local_position w1) with (w_local_position w).
  destruct (Z.eqb_spec (timestamp (w_local_position w)) 0) as [Et|Et].
  - destruct (Hr w1 eq_refl eq_refl) as (w' & E & HP & Ev). exists w'. split_all; [exact E|exact HP|intros _; exact Ev|easy].
  - unfold create_beacon_pdu, mbind, M_bind, gets, mret, M_ret. cbv zeta. rewrite media_eq. rewrite pass_down_common by reflexivity.
    match goal with |- context[reset_beacon_timer m_mib ?w2] => destruct (Hr w2 eq_refl eq_refl) as (w' & E & HP & Ev) end.
    exists w'. split_all; [exact E|exact HP|now intros Hn; destruct Et|]. intros _. rewrite Ev. eexists _, _. split; [reflexivity|]. now split_all.
Qed.

(** The timer is not set again when the beacon cannot be secured. *)
Theorem beacon_timer_lost (w : W) x q : m_queue (w_runtime w) = x :: q -> callback x = Beacon_timer -> deadline x <= m_now (w_runtime w) ->
  itsGnSecurity m_mib = true -> vanetzaDisableBeaconing m_mib = false -> timestamp (w_local_position w) <> 0 -> w_security_entity w = false ->
  exists w', handle m_mib Invoke w = (inl tt, w') /\ m_queue (w_runtime w') = q /\ w_events w' = w_events w.
Proof.
  intros Eq Ex Hx Hs Hd Ht Hn. unfold handle, invoke_callback. cbv zeta. rewrite Eq, Ex. destruct (Z.leb_spec (deadline x) (m_now (w_runtime w))); [|lia].
  cbn [on_callback]. unfold on_beacon_timer_expired. rewrite Hs, Hd. unfold mbind at 1, M_bind at 1, gets at 1. cbn [set_runtime w_local_position].
  destruct (Z.eqb_spec (timestamp (w_local_position w)) 0); [easy|]. unfold create_beacon_pdu, mbind, M_bind, gets, mret, M_ret, encap_packet. cbv zeta.
  unfold mbind, M_bind, gets. change (w_security_entity (set_runtime _ w)) with (w_security_entity w). rewrite Hn. eexists. split; [reflexivity|]. now split.
Qed.

End Theorems.

(** ** Witnesses *)

(** A secured message, a forged one, and a packet that is not secured. *)
Definition example_secured : UpPacket bool :=
  Cohesive (CohesivePacket.create (serialize_BasicHeader (example_basic NextHeaderBasic_Secured 5 1) ++ [3; 1]) Network).
Definition example_forged : UpPacket bool :=
  Cohesive (CohesivePacket.create (serialize_BasicHeader (example_basic NextHeaderBasic_Secured 5 1) ++ [3; 0]) Network).
Definition example_unsecured : UpPacket bool :=
  Cohesive (CohesivePacket.create (serialize_BasicHeader (example_basic NextHeaderBasic_Common 5 1) ++ example_plain) Network).
Definition example_sender : MacAddress := [0; 0; 0; 0; 0; 7].

Lemma example_input_ok l : forallb (fun o => (0 <=? o) && (o <? 256)) l = true -> input_ok (SM := bool) (Cohesive (CohesivePacket.create l Network)).
Proof. intros Hl. split; [apply create_Inv; unfold Network; lia|now apply octets_decide]. Qed.

Definition example_history : list (@Input bool) :=
  [Indicate example_secured example_sender cBroadcastMacAddress; Indicate example_unsecured example_sender cBroadcastMacAddress; Invoke].
Definition example_after : World bool bool unit Z := run strict_mib example_history (example_router strict_mib).

Lemma example_after_reachable : reachable strict_mib example_after.
Proof.
  apply run_reachable; [apply example_router_reachable|]. cbn [all_allowed example_history allowed].
  split_all; try exact I; apply example_input_ok; vm_compute; reflexivity.
Qed.

Definition lax_mib : MIB := example_mib true Non_Strict Bc_CBF 2.


Lemma router_invariant_witness : (beacons (m_queue (w_runtime example_after)) <= 1)%nat /\ length (m_queue (w_runtime example_after)) = 1%nat.
Proof. split; [apply (router_invariant strict_mib example_after example_after_reachable)|vm_compute; reflexivity]. Defined.

(** One packet up, one dropped, and a beacon down. *)
Lemma strict_security_holds_witness :
  exists up r down b m, w_events example_after = [Pass_up up r; Packet_dropped Decap_Unsuccessful_Strict; Pass_down down b] /\
    ind_security_report up = Some m /\ m = true.
Proof.
  pose proof (strict_security_holds strict_mib example_after example_after_reachable eq_refl eq_refl) as Hf.
  assert (E : exists up r down b, w_events example_after = [Pass_up up r; Packet_dropped Decap_Unsuccessful_Strict; Pass_down down b])
    by (vm_compute; eauto 8).
  destruct E as (up & r & down & b & E). rewrite E in Hf. inversion Hf as [|x l Hup _ Ex]; subst. destruct Hup as (m & Em & Es).
  exists up, r, down, b, m. split; [exact E|]. split; [exact Em|exact Es].
Defined.

Lemma beaconing_goes_on_witness : exists w' request pdu, handle open_mib Invoke (example_router open_mib) = (inl tt, w') /\
  w_events w' = [Pass_down request (ChunkPacket.set_layer Network (Pdu_buffer pdu) ∅)] /\
  extended pdu = Beacon (mk_BeaconHeader (w_local_position (example_router open_mib))).
Proof.
  destruct (beaconing_goes_on open_mib (example_router open_mib) (example_router_reachable open_mib) eq_refl eq_refl) as (_ & H).
  destruct (H (mk_ScheduledCallback 0 Beacon_timer (Some router_scope)) [] ltac:(vm_compute; reflexivity) eq_refl ltac:(vm_compute; congruence))
    as (w' & E & _ & _ & Hb).
  destruct Hb as (request & pdu & Ev & _ & Ep & _); [vm_compute; congruence|]. exists w', request, pdu. split; [exact E|]. split; [exact Ev|exact Ep].
Defined.
