(* ===== verification/RouterReception.v ===== *)
(** The reception of packets: malformed ones, single-hop broadcasts from octets
    to the upper layer, and the forwarding of topologically-scoped broadcasts. *)

From S2P Require Import Prelude Double GnNumbers Archive GnWire Caches SoftState LocationTable PacketBuffer Scheduler CbfBuffer Packets Areas Requests RouterState Router Indication RouterInv RouterSafety RouterExample.
From stdpp Require Import gmap.

Open Scope Z_scope.

Section Reception.
Context {SM Report Certificate Ext : Type} {Env : Environment SM Report Certificate Ext} {Laws : EnvironmentLaws Env}.
Variable m_mib : MIB.

Abbreviation W := (World SM Report Certificate Ext).
Abbreviation Router A := (M SM Report Certificate Ext A).
Abbreviation Down := (gmap nat (ByteBufferConvertible SM)).
Abbreviation Invariant := (RouterInv m_mib).

(** * Quiet computations *)

(** Only the location table, the local position, the unicast buffer and the
    environment may differ. *)
Record same_out (w w' : W) : Prop := {
  same_events : w_events w' = w_events w;
  same_runtime : w_runtime w' = w_runtime w;
  same_bc : w_bc_buffer w' = w_bc_buffer w;
  same_cbf : w_cbf w' = w_cbf w;
  same_memory : w_memory w' = w_memory w;
  same_repeater : w_repeater w' = w_repeater w;
  same_sequence : w_local_sequence w' = w_local_sequence w;
  same_transports : w_transports w' = w_transports w;
  same_uc : m_nodes (w_uc_buffer w) = [] -> m_nodes (w_uc_buffer w') = []
}.

#[local] Instance same_out_preorder : PreOrder same_out.
Proof.
  split; [now intros w|]. intros w1 w2 w3 [] []. split; try congruence. auto.
Qed.

Definition quiet {A} (m : Router A) : Prop := forall w, m_nodes (w_uc_buffer w) = [] -> same_out w (m w).2.

Lemma quiet_ret {A} (a : A) : quiet (mret a).
Proof. intros w _. reflexivity. Qed.
Lemma quiet_bind {A B} (m : Router A) (f : A -> Router B) : quiet m -> (forall a, quiet (f a)) -> quiet (m ≫= f).
Proof.
  intros Hm Hf w Hu. specialize (Hm w Hu). unfold mbind, M_bind. destruct (m w) as [[a|e] w']; [|exact Hm]. cbn [snd] in *.
  etransitivity; [exact Hm|]. apply Hf. now apply (same_uc _ _ Hm).
Qed.
Lemma quiet_gets {A} (f : W -> A) : quiet (gets f).
Proof. intros w _. reflexivity. Qed.
Lemma quiet_draw {A} (f : Ext -> A * Ext) : quiet (draw f).
Proof. intros w _. unfold draw. now destruct (f (w_ext w)). Qed.
Lemma quiet_deref {A} (o : option A) : quiet (deref o : Router A).
Proof. now destruct o. Qed.
Lemma quiet_assertion b : quiet (assertion b : Router unit).
Proof. now destruct b. Qed.
Lemma quiet_table f : quiet (modify (fun w : W => set_table (f w) w)).
Proof. now intros w. Qed.
Lemma quiet_position f : quiet (modify (fun w : W => set_local_position (f w) w)).
Proof. now intros w. Qed.

Create HintDb quiet.
#[local] Hint Resolve quiet_ret quiet_gets quiet_draw quiet_deref quiet_assertion quiet_table quiet_position : quiet.
#[local] Hint Extern 2 (quiet (modify (set_table ?t))) => exact (quiet_table (fun _ => t)) : quiet.
Ltac quietly := repeat (apply quiet_bind; [|intros ?]); auto with quiet.

Lemma quiet_update lpv : quiet (table_update lpv : Router unit).
Proof. unfold table_update, get_now. quietly. Qed.
Lemma quiet_create mac : quiet (table_create mac : Router unit).
Proof. unfold table_create, get_now. quietly. Qed.
Lemma quiet_entry_at mac : quiet (entry_at mac : Router LocationTableEntry).
Proof. unfold entry_at. quietly. Qed.
Lemma quiet_entry_change mac f : quiet (entry_change mac f : Router unit).
Proof. apply (quiet_table (fun w => _)). Qed.
Lemma quiet_table_entry mac : quiet (table_entry mac : Router (option LocationTableEntry)).
Proof. unfold table_entry, get_now. quietly. Qed.
Lemma quiet_has_entry addr : quiet (table_has_entry addr : Router bool).
Proof. unfold table_has_entry, get_now. quietly. Qed.
Lemma quiet_has_neighbours : quiet (table_has_neighbours : Router bool).
Proof. unfold table_has_neighbours, get_now. quietly. Qed.
#[local] Hint Resolve quiet_update quiet_create quiet_entry_at quiet_entry_change quiet_table_entry quiet_has_entry quiet_has_neighbours : quiet.

Lemma quiet_update_pdr mac size : quiet (entry_update_pdr m_mib mac size : Router unit).
Proof. unfold entry_update_pdr, get_now. quietly. Qed.
Lemma quiet_random n : quiet (random_octets n : Router (list Z)).
Proof. induction n as [|n IH]; cbn [random_octets]; quietly. Qed.
#[local] Hint Resolve quiet_update_pdr quiet_random : quiet.
Lemma quiet_duplicate_address source sender : quiet (detect_duplicate_address m_mib source sender : Router unit).
Proof.
  unfold detect_duplicate_address, local_address. destruct (itsGnLocalAddrConfMethod m_mib); auto with quiet. apply quiet_bind; auto with quiet. intros a.
  destruct (_ || _); quietly. apply (quiet_position (fun w => _)).
Qed.
Lemma quiet_flush_unicast source : quiet (flush_unicast_forwarding_buffer m_mib source : Router unit).
Proof.
  intros w Hu. unfold flush_unicast_forwarding_buffer, flush_buffer, PacketBuffer.flush. rewrite Hu. now split.
Qed.
Lemma quiet_exceeded mac ll : quiet (exceeded_pdr m_mib mac ll : Router (option ForwardingStopReason)).
Proof.
  unfold exceeded_pdr. destruct (_ <? _); auto with quiet. cbv zeta. apply quiet_bind; auto with quiet. intros e. destruct (d_ltb _ _); auto with quiet.
  apply quiet_bind; auto with quiet. intros [e'|]; auto with quiet. destruct (d_ltb _ _); auto with quiet.
Qed.
#[local] Hint Resolve quiet_duplicate_address quiet_flush_unicast quiet_exceeded : quiet.

Lemma quiet_shb pdu packet ll : quiet (process_shb m_mib pdu packet ll : Router bool).
Proof.
  unfold process_shb, get_now. cbv zeta. quietly. destruct (itsGnIfType m_mib); auto with quiet. destruct (get_dcc_mco _); auto with quiet.
Qed.

(** * Multi-hop broadcasts *)

(** What of an entry the packet data rate and the duplicates depend on. *)
Definition rates (e : LocationTableEntry) := (m_pdr e, m_pdr_update e, duplicate_packet_list e).
(** The table is that of [w0] but for the entry of [key], with the rates of
    [e]. *)
Definition filed (key : MacAddress) (e : LocationTableEntry) (w0 w : W) : Prop :=
  (forall k, k <> key -> abs (w_table w) !! k = abs (w_table w0) !! k) /\
  exists d e', abs (w_table w) !! key = Some (d, e') /\ rates e' = rates e.

(** From a state that differs from [w0] in nothing that is seen. *)
Definition silent (ref : option MacAddress) (key : MacAddress) (e : LocationTableEntry) (w0 w : W) : Prop :=
  Invariant [] ref w /\ same_out w0 w /\ filed key e w0 w.

Lemma silent_then {A B} ref w0 key e e' (m : Router A) (f : A -> Router B) Q : yields m_mib [] ref m (fun _ => True) -> quiet m ->
  (forall w, silent ref key e w0 w -> filed key e' w0 (m w).2) ->
  (forall a, runs (silent ref key e' w0) (f a) Q) -> runs (silent ref key e w0) (m ≫= f) Q.
Proof.
  intros Hy Hq Hf Hk. apply (runs_bind _ _ _ (fun _ => silent ref key e' w0)); [|exact Hk]. intros w Hs. pose proof Hs as (Hw & Ho & _).
  specialize (Hy w Hw). specialize (Hq w (inv_uc _ _ _ _ Hw)). specialize (Hf w Hs). destruct (m w) as [[a|x] w']; [|exact Hy].
  destruct Hy as [_ Hw']. split; [exact Hw'|]. split; [etransitivity; eassumption|exact Hf].
Qed.

Lemma filed_table key e w0 w w' : w_table w' = w_table w -> filed key e w0 w -> filed key e w0 w'.
Proof. unfold filed. now intros ->. Qed.
Lemma filed_assign key f e e' w0 w : Linked (w_table w) -> (forall x, rates x = rates e -> rates (f x) = rates e') ->
  filed key e w0 w -> filed key e' w0 (set_table (assign key f (w_table w)) w).
Proof.
  intros HL Hf [H1 (d & x & Hx & Hr)]. destruct (assign_spec (w_table w) key f HL) as [_ Ea].
  unfold filed. change (w_table (set_table (assign key f (w_table w)) w)) with (assign key f (w_table w)). split.
  - intros k Hk. rewrite Ea, lookup_alter_ne by congruence. auto.
  - rewrite Ea, lookup_alter_eq, Hx. cbn. eauto.
Qed.

(** Steps that leave the table alone. *)
Lemma silent_keep {A B} ref w0 key e (m : Router A) (f : A -> Router B) Q : yields m_mib [] ref m (fun _ => True) -> quiet m ->
  (forall w, m_nodes (w_uc_buffer w) = [] -> w_table (m w).2 = w_table w) ->
  (forall a, runs (silent ref key e w0) (f a) Q) -> runs (silent ref key e w0) (m ≫= f) Q.
Proof. intros Hy Hq Ht. apply silent_then; auto. intros w (Hw & _ & Hf). apply (filed_table _ _ _ w); [|exact Hf]. apply Ht, Hw. Qed.

Lemma entry_change_filed ref key f e e' w0 w : silent ref key e w0 w -> (forall x, rates x = rates e -> rates (f x) = rates e') ->
  filed key e' w0 ((entry_change key f : Router unit) w).2.
Proof. intros (Hw & _ & Hf) Hr. exact (filed_assign key f e e' w0 w (proj1 (inv_table _ _ _ _ Hw)) Hr Hf). Qed.

Lemma renewed_rates now lpv life old : rates (renewed now lpv life old).2 = rates (match old with Some (_, e) => e | None => create_entry now end).
Proof.
  assert (H : forall e, rates (update_position_vector lpv e).2 = rates e).
  { intros e. unfold update_position_vector, set_position_vector. repeat case_match; reflexivity. }
  destruct old as [[d e]|]; [|exact (H (create_entry now))]. unfold renewed. specialize (H e). destruct (_ && _); [|exact H]. now destruct (update_position_vector lpv e).
Qed.

Lemma update_silent {B} w0 lpv e (f : unit -> Router B) Q :
  (forall a, runs (silent (Some (mid (gn_addr lpv))) (mid (gn_addr lpv)) e w0) (f a) Q) ->
  runs (silent None (mid (gn_addr lpv)) e w0) (table_update lpv ≫= f) Q.
Proof.
  intros Hf. apply (runs_bind _ _ _ (fun _ => silent (Some (mid (gn_addr lpv))) (mid (gn_addr lpv)) e w0)); [|intros a; apply Hf].
  intros w (Hw & Hs & H1 & d0 & x0 & Hx & Hr). destruct (table_update_key m_mib lpv w Hw) as (t' & E & Hw' & d & x & Ek & _). rewrite table_update_eq, E. split; [|split].
  - apply acquire_ref; [exact Hw'|]. apply abs_key; [apply Hw'|]. cbn. rewrite Ek. eauto.
  - etransitivity; [exact Hs|]. now split.
  - destruct (update_refines (m_now (w_runtime w)) lpv (w_table w) (proj1 (inv_table _ _ _ _ Hw))) as (t2 & E2 & _ & _ & Ea). rewrite E in E2. injection E2 as <-.
    split; cbn; rewrite Ea.
    + intros k Hk. rewrite lookup_insert_ne by congruence. auto.
    + rewrite lookup_insert_eq. pose proof (renewed_rates (m_now (w_runtime w)) lpv (m_lifetime (w_table w)) (abs (w_table w) !! mid (gn_addr lpv))) as Hn.
      destruct (renewed _ _ _ _) as [d' x']. rewrite Hx in Hn. exists d', x'. split; [reflexivity|exact (eq_trans Hn Hr)].
Qed.

Lemma update_pdr_rates now size beta e e' : rates e = rates e' -> rates (update_pdr now size beta e) = rates (update_pdr now size beta e').
Proof. unfold rates, update_pdr. intros [= H1 H2 H3]. rewrite H1, H2. repeat case_match; cbn; congruence. Qed.

(** ** Duplicates *)

(** The entry of a source, or a new one, and its duplicate packet list. *)
Definition source_entry (w : W) (key : MacAddress) : LocationTableEntry :=
  match abs (w_table w) !! key with Some (_, e) => e | None => create_entry (m_now (w_runtime w)) end.
Definition packet_list (e : LocationTableEntry) : DuplicatePacketList.t := default (DuplicatePacketList.create (itsGnDPLLength m_mib)) (duplicate_packet_list e).

(** Whether the duplicate packet list of a source has a sequence number. *)
Definition known_packet (w : W) (addr : Address) (sn : SequenceNumber.t) : bool :=
  match DuplicatePacketList.find sn (DuplicatePacketList.m_elements (packet_list (source_entry w (mid addr)))) with Some _ => true | None => false end.
(** The entry after the number was looked up. *)
Definition checked_entry (w : W) (addr : Address) (sn : SequenceNumber.t) : LocationTableEntry :=
  let e := source_entry w (mid addr) in with_duplicate_packet_list (DuplicatePacketList.check sn (packet_list e)).2 e.

Lemma check_fst sn l : (DuplicatePacketList.check sn l).1 =
  match DuplicatePacketList.find sn (DuplicatePacketList.m_elements l) with Some _ => true | None => false end.
Proof. unfold DuplicatePacketList.check. now destruct (DuplicatePacketList.find _ _). Qed.

Lemma find_increment sn l : is_Some (DuplicatePacketList.find sn l) -> is_Some (DuplicatePacketList.find sn (DuplicatePacketList.increment sn l)).
Proof.
  unfold DuplicatePacketList.find. induction l as [|x l IH]; cbn; [auto|]. destruct (DuplicatePacketList.is_sn sn x) eqn:E; cbn; [|rewrite E; exact IH].
  unfold DuplicatePacketList.is_sn in *. cbn. rewrite E. eauto.
Qed.
Lemma find_last sn x l : DuplicatePacketList.is_sn sn x = true -> is_Some (DuplicatePacketList.find sn (l ++ [x])).
Proof. intros Hx. unfold DuplicatePacketList.find. induction l as [|y l IH]; cbn; [rewrite Hx; eauto|]. destruct (DuplicatePacketList.is_sn sn y); eauto. Qed.

(** A number that was looked up is in the list, unless the list is that of no
    numbers. *)
Lemma check_records sn l : (DuplicatePacketList.m_elements l <> [] \/ (0 < DuplicatePacketList.capacity l)%nat) ->
  is_Some (DuplicatePacketList.find sn (DuplicatePacketList.m_elements (DuplicatePacketList.check sn l).2)).
Proof.
  intros Hc. unfold DuplicatePacketList.check. destruct (DuplicatePacketList.find sn (DuplicatePacketList.m_elements l)) eqn:E; cbn [snd DuplicatePacketList.m_elements].
  - apply find_increment. rewrite E. eauto.
  - assert (Hx : DuplicatePacketList.is_sn sn (DuplicatePacketList.mk_element sn 1) = true) by apply Z.eqb_refl.
    unfold DuplicatePacketList.push_back. cbn [DuplicatePacketList.m_elements]. destruct (Nat.ltb_spec (length (DuplicatePacketList.m_elements l)) (DuplicatePacketList.capacity l)); [now apply find_last|].
    destruct (DuplicatePacketList.m_elements l); cbn in *; [destruct Hc; [congruence|lia]|now apply find_last].
Qed.

Lemma data_ptr_abs (t : LocationTable) k : Linked t -> snd <$> get_data_ptr k t = snd <$> abs t !! k.
Proof.
  intros HL. unfold get_data_ptr. destruct (m_map t !! k) as [[h v]|] eqn:E.
  - destruct (Linked_lookup t k h v HL E) as (e & _ & ->). reflexivity.
  - now rewrite (Linked_None t k HL E).
Qed.

Lemma detect_duplicate_packet_result addr sn (w : W) : Invariant [] None w ->
  exists w', detect_duplicate_packet m_mib addr sn w = (inl (known_packet w addr sn), w') /\ silent None (mid addr) (checked_entry w addr sn) w w'.
Proof.
  intros Hw. pose proof (detect_duplicate_packet_ok m_mib (held := []) addr sn w Hw) as Hok.
  assert (Hq : quiet (detect_duplicate_packet m_mib addr sn : Router bool)).
  { unfold detect_duplicate_packet. repeat (apply quiet_bind; [auto with quiet|intros ?]). destruct (DuplicatePacketList.check _ _). quietly. }
  specialize (Hq w (inv_uc _ _ _ _ Hw)). revert Hok Hq. unfold detect_duplicate_packet, mbind, M_bind. rewrite table_create_eq.
  unfold get_or_create_entry. destruct (inv_table _ _ _ _ Hw) as [HL _].
  destruct (get_value_spec create_entry (m_now (w_runtime w)) (w_table w) (mid addr) HL) as (t' & -> & HL' & _ & Ea).
  assert (Hk : exists d, abs t' !! mid addr = Some (d, source_entry w (mid addr))).
  { rewrite Ea. unfold spec_get_value, source_entry. destruct (abs (w_table w) !! mid addr) as [[d e]|] eqn:Ek.
    - destruct (SoftState.is_expired _ d); rewrite ?lookup_insert_eq, ?Ek; eauto.
    - rewrite lookup_insert_eq. eauto. }
  assert (Ho : forall k, k <> mid addr -> abs t' !! k = abs (w_table w) !! k).
  { intros k Hne. rewrite Ea. unfold spec_get_value. destruct (abs (w_table w) !! mid addr) as [[d e]|]; [destruct (SoftState.is_expired _ d)|];
      rewrite ?lookup_insert_ne by congruence; reflexivity. }
  destruct Hk as [d Hk]. rewrite entry_at_eq. change (w_table (set_table t' w)) with t'. rewrite (data_ptr_abs t' _ HL'), Hk. cbn [fmap option_fmap option_map snd].
  fold (packet_list (source_entry w (mid addr))). unfold checked_entry, known_packet. rewrite <- check_fst.
  destruct (DuplicatePacketList.check sn (packet_list (source_entry w (mid addr)))) as [dup dpl]. cbn [fst snd].
  unfold entry_change, modify, mret, M_ret. cbn [snd]. intros [_ Hw'] Hq. eexists. split; [reflexivity|]. split; [exact Hw'|]. split; [exact Hq|].
  apply (filed_assign (mid addr) (with_duplicate_packet_list dpl) (source_entry w (mid addr)) _ w (set_table t' w)); [exact HL'| |].
  - intros x [= H1 H2 _]. unfold rates. cbn. congruence.
  - split; [exact Ho|]. exists d, (source_entry w (mid addr)). auto.
Qed.

(** ** Packet data rates *)

Definition exceeds_rate (e : LocationTableEntry) : bool :=
  (itsGnMaxPacketDataRate m_mib <? 2 ^ 32 - 1) && d_ltb (d_mul (d_of_Z (itsGnMaxPacketDataRate m_mib)) (d_of_Z 1000)) (m_pdr e).
(** Why a packet is not forwarded: the rate of its source, be its entry
    expired, or that of its sender, if it has an entry that is not expired. *)
Definition rate_stop (key sender : MacAddress) (w : W) : option ForwardingStopReason :=
  if from_option exceeds_rate false (snd <$> abs (w_table w) !! key) then Some Stop_Source_PDR
  else if from_option exceeds_rate false (SoftState.live (m_now (w_runtime w)) (abs (w_table w)) !! sender) then Some Stop_Sender_PDR else None.

Lemma exceeded_pdr_eq key ll (w : W) : Linked (w_table w) -> is_Some (abs (w_table w) !! key) ->
  exceeded_pdr m_mib key ll w = (inl (rate_stop key (ll_sender ll) w), w).
Proof.
  intros HL [[d e] Hk]. unfold exceeded_pdr, rate_stop, exceeds_rate. rewrite Hk. cbn [fmap option_fmap option_map snd from_option].
  destruct (Z.ltb_spec (itsGnMaxPacketDataRate m_mib) (2 ^ 32 - 1)) as [Hl|_]; cbn [andb]; [|now destruct (SoftState.live _ _ !! _)]. cbv zeta. unfold mbind, M_bind.
  rewrite entry_at_eq, (data_ptr_abs _ _ HL), Hk. cbn [fmap option_fmap option_map snd]. destruct (d_ltb _ (m_pdr e)); [reflexivity|].
  rewrite table_entry_eq. unfold get_entry. rewrite (get_value_ptr_spec _ _ _ HL). destruct (SoftState.live _ _ !! _) as [e'|]; [|reflexivity]. cbn [from_option].
  now destruct (d_ltb _ (m_pdr e')).
Qed.

Definition stopped (reason : ForwardingStopReason) (w : W) : W := set_events (w_events w ++ [Forwarding_stopped reason]) w.

(** What becomes of a packet for the next hop. *)
Definition tsb_sent (pdu : Pdu SM TsbHeader) (payload : Down) (w w' : W) : Prop :=
  if TrafficClass.store_carry_forward (traffic_class (common pdu)) && negb (has_neighbours (m_now (w_runtime w)) (w_table w))
  then w' = set_bc_buffer (PacketBuffer.push (m_now (w_runtime w)) (Buf_tsb pdu payload) (w_bc_buffer w)).2 w
  else exists request, dcc_destination request = cBroadcastMacAddress /\ dcc_profile request = TrafficClass.DP3 /\
    w' = set_events (w_events w ++ [Pass_down request (ChunkPacket.set_layer Network (Pdu_buffer (variant_of pdu)) payload)]) w.

Lemma transmit_tsb_sent pdu payload (w : W) : relayable m_mib pdu payload ->
  exists request, dcc_destination request = cBroadcastMacAddress /\ dcc_profile request = TrafficClass.DP3 /\
    transmit_tsb m_mib pdu payload w =
    (inl tt, set_events (w_events w ++ [Pass_down request (ChunkPacket.set_layer Network (Pdu_buffer (variant_of pdu)) payload)]) w).
Proof.
  intros (He & _). unfold transmit_tsb, pass_down_forwarded, pass_down_request, local_address, gets, mbind, M_bind.
  replace (execute_media_procedures (itsGnIfType m_mib) w) with (@inl unit Exception tt, w) by now destruct (itsGnIfType m_mib).
  unfold enveloped in He. cbn [secured variant_of basic]. destruct (secured pdu) as [m|].
  - destruct He as [-> ->]. cbn. eexists (mk_DccRequest _ _ _ _ _). split; [reflexivity|]. split; reflexivity.
  - destruct He as [He _]. destruct (Z.eqb_spec (basic_next_header (basic pdu)) NextHeaderBasic_Secured); [easy|].
    cbn. eexists (mk_DccRequest _ _ _ _ _). split; [reflexivity|]. split; reflexivity.
Qed.

Lemma runs_exists {A} (P : W -> Prop) (m : Router A) Q w : runs P m Q -> P w -> exists a w', m w = (inl a, w') /\ Q a w'.
Proof. intros Hm Hw. specialize (Hm w Hw). destruct (m w) as [[a|e] w']; [eauto|contradiction]. Qed.

#[local] Hint Resolve entry_update_pdr_ok exceeded_pdr_ok multi_hop_address_ok new_neighbour_ok : router.
#[local] Hint Extern 1 (yields _ _ _ (forwarding_stopped _) _) => (now apply stopped_ok) : router.

Lemma quiet_multi_hop source sender :
  quiet (if vanetzaMultiHopDuplicateAddressDetection m_mib then detect_duplicate_address m_mib source sender else mret tt : Router unit).
Proof. destruct (vanetzaMultiHopDuplicateAddressDetection m_mib); auto with quiet. Qed.
Lemma quiet_new_neighbour key (b : bool) : quiet (if b then entry_change key (set_neighbour false) else mret tt : Router unit).
Proof. destruct b; auto with quiet. Qed.
#[local] Hint Resolve quiet_multi_hop quiet_new_neighbour : quiet.

Lemma random_octets_table n (w : W) : w_table (random_octets n w).2 = w_table w.
Proof.
  revert w. induction n as [|n IH]; intros w; [reflexivity|]. cbn [random_octets]. unfold mbind, M_bind, draw. destruct (draw_unsigned (w_ext w)) as [o e].
  specialize (IH (set_ext e w)). destruct (random_octets n (set_ext e w)) as [[l|x] w']; exact IH.
Qed.
Lemma multi_hop_table source sender (w : W) :
  w_table ((if vanetzaMultiHopDuplicateAddressDetection m_mib then detect_duplicate_address m_mib source sender else mret tt) w).2 = w_table w.
Proof.
  destruct (vanetzaMultiHopDuplicateAddressDetection m_mib); [|reflexivity]. unfold detect_duplicate_address. destruct (itsGnLocalAddrConfMethod m_mib); try reflexivity.
  unfold local_address, gets, mbind at 1, M_bind at 1. destruct (_ || _); [|reflexivity]. unfold mbind, M_bind.
  pose proof (random_octets_table 6 w) as Hr. destruct (random_octets 6 w) as [[l|x] w']; exact Hr.
Qed.

Definition tsb_outcome (pdu : Pdu SM TsbHeader) (packet : UpPacket SM) (ll : LinkLayer) (w w' : W) : Prop :=
  if hop_limit (basic pdu) <=? 1 then same_out (stopped Stop_Hop_Limit w) w'
  else
    match rate_stop (mid (gn_addr (tsb_source_position (extended pdu)))) (ll_sender ll) w' with
    | Some reason => same_out (stopped reason w) w'
    | None => exists w1, same_out w w1 /\ tsb_sent (forwarding_duplicate pdu packet).1 (forwarding_duplicate pdu packet).2 w1 w'
    end.

Lemma stop_outcome w0 w1 reason : same_out w0 w1 -> same_out (stopped reason w0) (stopped reason w1).
Proof. intros []. split; cbn; auto. congruence. Qed.

Lemma tsb_sent_table pdu payload (w w' : W) : tsb_sent pdu payload w w' -> w_table w' = w_table w /\ w_runtime w' = w_runtime w.
Proof. unfold tsb_sent. destruct (_ && _); [intros ->; auto|]. intros (request & _ & _ & ->). auto. Qed.
Lemma rate_stop_same key sender (w w' : W) : w_table w' = w_table w -> w_runtime w' = w_runtime w -> rate_stop key sender w' = rate_stop key sender w.
Proof. unfold rate_stop. now intros -> ->. Qed.

(** From the check of the hop limit on. *)
Lemma process_tsb_rest pdu packet ll w0 e : let key := mid (gn_addr (tsb_source_position (extended pdu))) in received_ok m_mib pdu packet ->
  runs (silent (Some key) key e w0)
    (if hop_limit (basic pdu) <=? 1 then forwarding_stopped Stop_Hop_Limit;; mret true
     else
       exceeded ← exceeded_pdr m_mib key ll;
       match exceeded with
       | Some reason => forwarding_stopped reason;; mret true
       | None =>
           let '(fwd_pdu, fwd_payload) := forwarding_duplicate pdu packet in
           assertion (hop_limit (basic fwd_pdu) + 1 =? hop_limit (basic pdu));;
           neighbours ← table_has_neighbours;
           (if TrafficClass.store_carry_forward (traffic_class (common pdu)) && negb neighbours
            then bc_push (Buf_tsb fwd_pdu fwd_payload)
            else transmit_tsb m_mib fwd_pdu fwd_payload);;
           mret true
       end)
    (fun up w' => up = true /\ filed key e w0 w' /\ tsb_outcome pdu packet ll w0 w').
Proof.
  intros key Hr. unfold tsb_outcome. fold key. destruct (Z.leb_spec (hop_limit (basic pdu)) 1) as [Hh|Hh]; intros w (Hw & Hs & Hf).
  - cbn. split; [reflexivity|]. split; [exact Hf|now apply stop_outcome].
  - assert (Hk : is_Some (abs (w_table w) !! key)) by (destruct Hf as [_ (d & x & -> & _)]; eauto).
    unfold mbind at 1, M_bind at 1. rewrite (exceeded_pdr_eq key ll w (proj1 (inv_table _ _ _ _ Hw)) Hk).
    destruct (rate_stop key (ll_sender ll) w) as [reason|] eqn:Er.
    + cbn. split; [reflexivity|]. split; [exact Hf|]. rewrite (rate_stop_same _ _ w) by reflexivity. rewrite Er. now apply stop_outcome.
    + pose proof (forwarding_duplicate_ok m_mib pdu packet Hr ltac:(lia)) as Hd.
      destruct (forwarding_duplicate pdu packet) as [fwd_pdu fwd_payload]. destruct Hd as (Hd & Hhop & Hc). cbn [fst snd].
      rewrite (proj2 (Z.eqb_eq _ _) Hhop). unfold assertion, table_has_neighbours, get_now, gets, mbind, M_bind, mret, M_ret. cbv beta iota.
      assert (Hgo : forall w', tsb_sent fwd_pdu fwd_payload w w' -> filed key e w0 w' /\
        match rate_stop key (ll_sender ll) w' with Some reason => same_out (stopped reason w0) w' | None => exists w1, same_out w0 w1 /\ tsb_sent fwd_pdu fwd_payload w1 w' end).
      { intros w' Ht. destruct (tsb_sent_table _ _ _ _ Ht) as [Et Ert]. split; [now apply (filed_table _ _ _ w)|]. rewrite (rate_stop_same _ _ w w' Et Ert), Er. eauto. }
      rewrite <- Hc in *. destruct (TrafficClass.store_carry_forward _ && negb _) eqn:Eb.
      * unfold bc_push, get_now, gets, mbind, M_bind, modify. split; [reflexivity|]. apply Hgo. unfold tsb_sent. now rewrite Eb.
      * destruct (transmit_tsb_sent fwd_pdu fwd_payload w Hd) as (request & Hd' & Hp & ->). split; [reflexivity|]. apply Hgo. unfold tsb_sent. rewrite Eb. eauto.
Qed.

(** C12.  A topologically-scoped broadcast that is not a duplicate is passed up and
    forwarded: not when its hop limit is used up, nor when the packet data rate
    of its source, or else that of its sender if its entry is not expired,
    exceeds the limit - the rate of the source after this packet was counted -
    and else with a hop limit one less: broadcast with the DCC profile of
    forwarders, or kept in the broadcast buffer if it may be stored and there
    is no neighbour.  A duplicate, whose sequence number is in the list of its
    source, is neither passed up nor forwarded, and its rate is not counted.
    In either case the number is in the list afterwards, so that the same
    packet is a duplicate next, and no other entry of the location table
    changes. *)
Theorem tsb_forwarding pdu packet ll (w : W) : Invariant [] None w -> received_ok m_mib pdu packet ->
  let source := gn_addr (tsb_source_position (extended pdu)) in
  let sn := tsb_sequence_number (extended pdu) in
  exists up w', process_tsb m_mib pdu packet ll w = (inl up, w') /\
    (if known_packet w source sn
     then up = false /\ same_out w w' /\ filed (mid source) (checked_entry w source sn) w w'
     else up = true /\ tsb_outcome pdu packet ll w w' /\
          filed (mid source) (update_pdr (m_now (w_runtime w)) (received_size packet) (itsGnMaxPacketDataRateEmaBeta m_mib) (checked_entry w source sn)) w w') /\
    ((0 < DuplicatePacketList.capacity (packet_list (source_entry w (mid source))))%nat -> known_packet w' source sn = true).
Proof.
  intros Hw Hr so sn. pose (key := mid so).
  assert (Hkn : forall e w', filed key e w w' -> duplicate_packet_list e = duplicate_packet_list (checked_entry w so sn) ->
    (0 < DuplicatePacketList.capacity (packet_list (source_entry w key)))%nat -> known_packet w' so sn = true).
  { intros e w' [_ (d & x & Hx & Hxe)] He Hc. unfold known_packet, source_entry. fold key. rewrite Hx. unfold packet_list. injection Hxe as _ _ ->. rewrite He. cbn.
    destruct (check_records sn (packet_list (source_entry w key)) ltac:(auto)) as [y Hy]. fold key. now rewrite Hy. }
  unfold process_tsb. cbv zeta. fold so sn key. unfold mbind at 1, M_bind at 1. rewrite table_has_entry_eq. unfold has_entry, has_value.
  rewrite (get_value_ptr_spec _ _ _ (proj1 (inv_table _ _ _ _ Hw))). cbn [fmap option_fmap option_map]. unfold mbind at 1, M_bind at 1.
  destruct (detect_duplicate_packet_result so sn w Hw) as (w1 & -> & H1). destruct (known_packet w so sn).
  - eexists _, _. split; [reflexivity|]. destruct H1 as (_ & Hs1 & Hf1). split; [auto|]. now apply (Hkn _ _ Hf1).
  - set (e1 := checked_entry w so sn) in *. set (e2 := update_pdr (m_now (w_runtime w)) (received_size packet) (itsGnMaxPacketDataRateEmaBeta m_mib) e1).
    match goal with |- context[?m w1] => assert (Hruns : runs (silent None key e1 w) m
      (fun up w' => up = true /\ filed key e2 w w' /\ tsb_outcome pdu packet ll w w')) end.
    { apply silent_keep; auto with router quiet. { intros v _. apply multi_hop_table. } intros _. apply update_silent. intros _. fold so key.
      apply (silent_then _ _ _ _ e1); auto with router quiet.
      { intros v Hv. destruct (negb _); [|apply Hv]. now apply (entry_change_filed _ _ _ e1 _ _ _ Hv). }
      intros _. apply (silent_then _ _ _ _ e2); auto with router quiet.
      { intros v Hv. unfold entry_update_pdr, mbind, M_bind, get_now, gets. apply (entry_change_filed _ _ _ e1 _ _ _ Hv).
        intros x Hx. unfold e2. rewrite <- (same_runtime _ _ (proj1 (proj2 Hv))). now apply update_pdr_rates. }
      intros _. apply silent_keep; auto with router quiet.
      { intros v Hu. unfold flush_unicast_forwarding_buffer, flush_buffer, PacketBuffer.flush. now rewrite Hu. }
      intros _. now apply process_tsb_rest. }
    destruct (runs_exists _ _ _ w1 Hruns H1) as (up & w' & E & Hup & Hf & Ho). exists up, w'. split; [exact E|]. split; [auto|]. apply (Hkn _ _ Hf).
    unfold e2, update_pdr. repeat case_match; reflexivity.
Qed.

(** * From octets *)

Lemma parse_basic_reads b rest n : BasicHeader_ok b ->
  parse_basic (mk_Parser (mk_input (serialize_BasicHeader b ++ rest) Ok) n) = (4%nat, Some b, mk_Parser (mk_input rest Ok) (n + 4)).
Proof. intros Hb. unfold parse_basic, parse_with. cbn [archive m_read_bytes]. now rewrite (reads_BasicHeader b Hb). Qed.
Lemma parse_common_reads c rest n : CommonHeader_ok c ->
  parse_common (mk_Parser (mk_input (serialize_CommonHeader c ++ rest) Ok) n) = (8%nat, Some c, mk_Parser (mk_input rest Ok) (n + 8)).
Proof. intros Hc. unfold parse_common, parse_with. cbn [archive m_read_bytes]. now rewrite (reads_CommonHeader c Hc). Qed.

Definition dropped (reason : PacketDropReason) (w : W) : W := set_events (w_events w ++ [Packet_dropped reason]) w.

Lemma short_basic s : octets s -> (length s < 4)%nat -> exists p, parse_basic (mk_Parser (mk_input s Ok) 0) = (0%nat, None, p).
Proof.
  intros Ho Hl. pose proof (parses_basic s Ok 0%nat Ho) as Hp. destruct (Nat.leb_spec 4 (length s)); [lia|]. rewrite Hp. eauto.
Qed.
Lemma short_common s n : octets s -> (length s < 8)%nat -> exists p, parse_common (mk_Parser (mk_input s Ok) n) = (0%nat, None, p).
Proof.
  intros Ho Hl. pose proof (parses_common s Ok n Ho) as Hp. destruct (Nat.leb_spec 8 (length s)); [lia|]. rewrite Hp. eauto.
Qed.

(** The steps of indicate() on octets that start with a basic header. *)
Lemma indicate_basic_octets packet ll b rest (w : W) : BasicHeader_ok b -> CohesivePacket.get packet Network = serialize_BasicHeader b ++ rest ->
  version b = itsGnProtocolVersion m_mib -> basic_next_header b = NextHeaderBasic_Common -> strict_security m_mib = false ->
  indicate m_mib (Cohesive packet) (ll_sender ll) (ll_destination ll) w =
  indicate_common m_mib (mk_Context (Deserialize (mk_Parser (mk_input rest Ok) 4) packet) (with_basic b VariantPdu_default) ll
    (ind_basic b DataIndication_default)) b w.
Proof.
  intros Hb Es Hv Hn Hst. unfold indicate, indicate_basic, context_deserialize, parse_basic_header. cbn [origin]. rewrite Es. unfold Parser_of.
  rewrite parse_basic_reads by exact Hb. rewrite Hv, Z.eqb_refl, Hn. cbn [negb]. unfold strict_security in Hst.
  change (NextHeaderBasic_Common =? NextHeaderBasic_Secured) with false. change (NextHeaderBasic_Common =? NextHeaderBasic_Common) with true. cbv beta iota zeta.
  replace (negb (itsGnSecurity m_mib) || _) with true; [now destruct ll|].
  destruct (itsGnSecurity m_mib); [|reflexivity]. now destruct (itsGnSnDecapResultHandling m_mib).
Qed.

(** C32.  Malformed packets are dropped for the right reason, and change nothing: too
    short for a basic header, of another protocol version, unsecured when only
    secured ones are accepted, too short for a common header, with a hop limit
    above its maximum.  Nothing at all happens for a next header that is
    neither of the two. *)
Theorem malformed_dropped packet sender destination (w : W) : cohesive_ok packet ->
  let s := CohesivePacket.get packet Network in
  let indicate := indicate m_mib (Cohesive packet) sender destination w in
  ((length s < 4)%nat -> indicate = (inl tt, dropped Parse_Basic_Header w)) /\
  forall b rest, BasicHeader_ok b -> s = serialize_BasicHeader b ++ rest ->
    (version b <> itsGnProtocolVersion m_mib -> indicate = (inl tt, dropped ITS_Protocol_Version w)) /\
    (version b = itsGnProtocolVersion m_mib -> basic_next_header b <> NextHeaderBasic_Common -> basic_next_header b <> NextHeaderBasic_Secured ->
       indicate = (inl tt, w)) /\
    (version b = itsGnProtocolVersion m_mib -> basic_next_header b = NextHeaderBasic_Common ->
       if strict_security m_mib then indicate = (inl tt, dropped Decap_Unsuccessful_Strict w)
       else
         ((length rest < 8)%nat -> indicate = (inl tt, dropped Parse_Common_Header w)) /\
         forall c rest', CommonHeader_ok c -> rest = serialize_CommonHeader c ++ rest' -> maximum_hop_limit c < hop_limit b ->
           indicate = (inl tt, dropped Hop_Limit w)).
Proof.
  intros [HI Ho] s. cbv zeta. assert (Hs : octets s) by (unfold s, CohesivePacket.get; apply Forall_take, Forall_drop, Ho). split.
  { intros Hl. unfold indicate, indicate_basic, context_deserialize, parse_basic_header. cbn [origin]. fold s. unfold Parser_of.
    destruct (short_basic s Hs Hl) as [p ->]. reflexivity. }
  intros b rest Hb Es. assert (Hgen : forall X, (parse_basic_header (context_deserialize packet (mk_LinkLayer sender destination)) : option BasicHeader * @Context SM Report Certificate) = X ->
    X = (Some b, mk_Context (Deserialize (mk_Parser (mk_input rest Ok) 4) packet) (with_basic b VariantPdu_default) (mk_LinkLayer sender destination) DataIndication_default)).
  { intros X <-. unfold parse_basic_header, context_deserialize. cbn [origin]. fold s. rewrite Es. unfold Parser_of. now rewrite parse_basic_reads. }
  specialize (Hgen _ eq_refl). split_all.
  - intros Hv. unfold indicate, indicate_basic. rewrite Hgen. apply Z.eqb_neq in Hv. rewrite Hv. reflexivity.
  - intros Hv Hc Hse. unfold indicate, indicate_basic. rewrite Hgen, Hv, Z.eqb_refl. cbn [negb]. cbv zeta.
    apply Z.eqb_neq in Hc, Hse. rewrite Hse, Hc. reflexivity.
  - intros Hv Hn. destruct (strict_security m_mib) eqn:Est.
    + unfold indicate, indicate_basic. rewrite Hgen, Hv, Z.eqb_refl, Hn. cbn [negb]. cbv zeta.
      change (NextHeaderBasic_Common =? NextHeaderBasic_Secured) with false. change (NextHeaderBasic_Common =? NextHeaderBasic_Common) with true. cbv beta iota.
      unfold strict_security in Est. apply andb_true_iff in Est as [-> Est]. destruct (itsGnSnDecapResultHandling m_mib); [reflexivity|discriminate].
    + pose proof (indicate_basic_octets packet (mk_LinkLayer sender destination) b rest w Hb Es Hv Hn Est) as Hi. cbn [ll_sender ll_destination] in Hi.
      assert (Hr : octets rest) by (rewrite Es in Hs; apply Forall_app in Hs; apply Hs). split.
      * intros Hl. rewrite Hi. unfold indicate_common, parse_common_header. cbn [origin]. destruct (short_common rest 4%nat Hr Hl) as [p ->]. reflexivity.
      * intros c rest' Hc Er Hm. rewrite Hi. unfold indicate_common, parse_common_header. cbn [origin]. rewrite Er, parse_common_reads by exact Hc.
        apply Z.ltb_lt in Hm. rewrite Hm. reflexivity.
Qed.

(** ** Single-hop broadcasts *)

(** The boundary behind the headers, and what is left for the upper layers. *)
Lemma finish_octets hdr pl parser n : m_read_bytes parser = length hdr -> (1 <= length hdr)%nat -> Z.to_nat n = length pl ->
  exists p, finish (SM := SM) (Deserialize parser (CohesivePacket.create (hdr ++ pl) Network)) n = Some (Cohesive p) /\ CohesivePacket.Inv p /\
    CohesivePacket.octets_of p Transport Application = pl /\ CohesivePacket.size_range p Transport max_osi_layer = Z.of_nat (length pl).
Proof.
  intros Hr _ Hn. cbn [finish]. set (p0 := CohesivePacket.create (hdr ++ pl) Network).
  assert (HI0 : CohesivePacket.Inv p0) by (apply create_Inv; unfold Network; lia).
  assert (Hget : forall i, (1 <= i <= 7)%nat -> CohesivePacket.get p0 i = if decide (i = Network) then hdr ++ pl else [])
    by (intros i Hi; apply create_get; unfold Network; lia).
  destruct (set_boundary_spec p0 Network (m_read_bytes parser) HI0) as (p1 & E1 & HI1 & _ & _ & G2 & G3 & _).
  { unfold Network; lia. }
  { rewrite Hget by (unfold Network; lia). rewrite decide_True by reflexivity. rewrite length_app. lia. }
  assert (Eo : CohesivePacket.octets_of p1 Transport 7 = pl).
  { unfold CohesivePacket.octets_of. change (osi_layer_range Transport 7) with [S Network; 5; 6; 7]%nat. cbn [map concat].
    assert (Hnone : forall i, (4 <= i <= 7)%nat -> CohesivePacket.get p0 i = []) by (intros i Hi; rewrite Hget, decide_False by (unfold Network; lia); reflexivity).
    rewrite G2, !G3, (Hnone (S Network)), (Hnone 5%nat), (Hnone 6%nat), (Hnone 7%nat) by (unfold Network; lia). rewrite Hget, decide_True by (unfold Network; lia).
    rewrite Hr, drop_app_length, !app_nil_r. reflexivity. }
  rewrite E1. cbn [mbind option_bind]. destruct (trim_spec p1 Transport (Z.to_nat n) HI1) as (p2 & E2 & HI2 & Eo2 & _); [unfold Transport; lia|].
  rewrite E2. cbn. exists p2. rewrite Eo, Hn, take_ge in Eo2 by lia. split_all; auto.
  rewrite size_range_spec; [|exact HI2|unfold Transport; lia|unfold Transport, max_osi_layer, Application; lia]. change max_osi_layer with 7%nat. now rewrite Eo2.
Qed.

Lemma process_shb_result pdu packet ll (w : W) : Invariant [] None w ->
  exists w', process_shb m_mib pdu packet ll w = (inl true, w') /\ same_out w w' /\ Invariant [] None w'.
Proof.
  intros Hw. pose proof (process_shb_ok m_mib (held := []) pdu packet ll w Hw) as Hy. pose proof (quiet_shb pdu packet ll w (inv_uc _ _ _ _ Hw)) as Hq.
  assert (Ht : match process_shb m_mib pdu packet ll w with (inl b, _) => b = true | _ => True end).
  { unfold process_shb. cbv zeta. unfold mbind, M_bind. repeat case_match; try exact I; unfold mret, M_ret in *; try congruence. }
  destruct (process_shb m_mib pdu packet ll w) as [[b|e] w']; [|contradiction]. subst b. exists w'. destruct Hy. split_all; auto.
Qed.

Definition cleaned (w : W) : W := set_table (SoftState.drop_expired (m_now (w_runtime w)) (w_table w)) w.

(** C7.  A single-hop broadcast comes out as it went in: the octets of its headers
    and of a payload as long as announced are passed up as that payload, with
    the upper protocol, the source, the traffic class, the lifetime and the hop
    limit of the headers, if there is a transport for it - after the packets
    that were waiting for neighbours were processed. *)
Theorem shb_received b c shb pl sender destination (w : W) : Invariant [] None w -> strict_security m_mib = false ->
  BasicHeader_ok b -> CommonHeader_ok c -> HeaderVariant_ok (Shb shb) -> version b = itsGnProtocolVersion m_mib ->
  basic_next_header b = NextHeaderBasic_Common -> header_type c = HeaderType_TSB_Single_Hop -> hop_limit b <= maximum_hop_limit c ->
  payload c = Z.of_nat (length pl) ->
  let packet := CohesivePacket.create (serialize_BasicHeader b ++ serialize_CommonHeader c ++ serialize_HeaderVariant (Shb shb) ++ pl) Network in
  let proto := upper_protocol_of (common_next_header c) in
  exists w1 w' p, flush_broadcast_forwarding_buffer m_mib (cleaned w) = (inl tt, w1) /\
    indicate m_mib (Cohesive packet) sender destination w = (inl tt, w') /\
    CohesivePacket.octets_of p Transport Application = pl /\
    w_events w' = w_events w1 ++
      (if w_transports w1 proto
       then [Pass_up (mk_DataIndication proto (Some SHB) To_nothing (Some (ShortPositionVector_of (shb_source_position shb))) None None None None
              (traffic_class c) (Some (lifetime b)) (Some (hop_limit b))) (Cohesive p)]
       else []).
Proof.
  intros Hw Hst Hb Hc He Hv Hn Ht Hm Hpl. cbv zeta. set (bytes := serialize_BasicHeader b ++ _).
  set (packet := CohesivePacket.create bytes Network). set (proto := upper_protocol_of (common_next_header c)).
  assert (Eg : CohesivePacket.get packet Network = bytes) by (unfold packet; rewrite create_get by (unfold Network; lia); now rewrite decide_True).
  pose proof (indicate_basic_octets packet (mk_LinkLayer sender destination) b _ w Hb Eg Hv Hn Hst) as Ei. cbn [ll_sender ll_destination] in Ei. rewrite Ei.
  unfold indicate_common, parse_common_header. cbn [origin]. rewrite parse_common_reads by exact Hc.
  destruct (Z.ltb_spec (maximum_hop_limit c) (hop_limit b)) as [Hx|_]; [lia|]. cbv zeta.
  assert (Hw0 : Invariant [] None (cleaned w)).
  { pose proof (drop_expired_ok m_mib (held := []) w Hw) as Hd. exact (proj2 Hd). }
  pose proof (flush_broadcast_ok m_mib (held := []) (ref := None) (cleaned w) Hw0) as Hfl.
  destruct (flush_broadcast_forwarding_buffer m_mib (cleaned w)) as [[[]|x] w1] eqn:Ef; [|contradiction]. destruct Hfl as [_ Hw1].
  unfold mbind at 1, M_bind at 1, get_now, gets. unfold mbind at 1, M_bind at 1, modify. fold (cleaned w). unfold mbind at 1, M_bind at 1. rewrite Ef.
  unfold indicate_extended, parse_extended_header. cbn [origin with_primitive with_origin with_pdu].
  rewrite (reads_variant (header_type c) (Shb shb) pl Ok (4 + 8)) by (auto; cbn; now rewrite Ht).
  set (parser := mk_Parser _ _). unfold mbind at 1, M_bind at 1, finish_context. cbn [origin with_primitive with_origin with_pdu ctx_pdu common with_common with_extended].
  destruct (finish_octets (serialize_BasicHeader b ++ serialize_CommonHeader c ++ serialize_HeaderVariant (Shb shb)) pl parser (payload c))
    as (p & Efin & HIp & Eop & Esz).
  { cbn [m_read_bytes parser]. rewrite !length_app. pose proof (wire_length b Hb). pose proof (wire_length c Hc). pose proof (wire_length shb He). cbn in *. lia. }
  { rewrite !length_app. pose proof (wire_length b Hb). cbn in *. lia. }
  { rewrite Hpl. lia. }
  replace packet with (CohesivePacket.create ((serialize_BasicHeader b ++ serialize_CommonHeader c ++ serialize_HeaderVariant (Shb shb)) ++ pl) Network)
    by (unfold packet, bytes; now rewrite <- !app_assoc).
  rewrite Efin. unfold mret at 1, M_ret at 1. cbn [packet_size]. rewrite Esz, Hpl, Z.eqb_refl. cbn [negb].
  unfold mbind at 1, M_bind at 1, visit_extended. cbv zeta. unfold mbind at 1, M_bind at 1.
  match goal with |- context[process_shb m_mib ?a ?b ?d w1] => destruct (process_shb_result a b d w1 Hw1) as (w2 & -> & Hs & _) end.
  unfold mret at 1, M_ret at 1. unfold pass_up, mbind, M_bind, gets. cbn. fold proto. rewrite (same_transports _ _ Hs).
  exists w1. destruct (w_transports w1 proto).
  - eexists _, p. split; [reflexivity|]. split; [reflexivity|]. split; [exact Eop|]. cbn. now rewrite (same_events _ _ Hs).
  - exists w2, p. split; [reflexivity|]. split; [reflexivity|]. split; [exact Eop|]. now rewrite app_nil_r, (same_events _ _ Hs).
Qed.

End Reception.

(** ** Witnesses *)

Definition example_chunk {H} `{ExtendedHeader H} (pdu : Pdu bool H) : UpPacket bool :=
  Chunk (ChunkPacket.set_layer Network (Pdu_buffer (variant_of pdu)) example_payload).

Lemma example_tsb_received : received_ok open_mib example_tsb (example_chunk example_tsb).
Proof. split; [split; [discriminate|reflexivity]|]. split; [split; vm_compute; congruence|]. split; vm_compute; congruence. Qed.

Definition example_link : LinkLayer := mk_LinkLayer [0; 0; 0; 0; 0; 7] cBroadcastMacAddress.

(** The packet is forwarded, and is a duplicate afterwards. *)
Lemma tsb_forwarding_witness : exists w',
  process_tsb open_mib example_tsb (example_chunk example_tsb) example_link (example_router open_mib) = (inl true, w') /\
  tsb_outcome open_mib example_tsb (example_chunk example_tsb) example_link (example_router open_mib) w' /\
  known_packet open_mib w' (gn_addr (tsb_source_position (extended example_tsb))) (tsb_sequence_number (extended example_tsb)) = true.
Proof.
  destruct (tsb_forwarding open_mib example_tsb (example_chunk example_tsb) example_link
    (example_router open_mib) (example_router_Inv open_mib) example_tsb_received) as (up & w' & E & H & Hk).
  replace (known_packet _ (example_router open_mib) _ _) with false in H by (vm_compute; reflexivity). destruct H as (-> & H & _). exists w'.
  split; [exact E|]. split; [exact H|]. apply Hk. apply Nat.ltb_lt. vm_compute. reflexivity.
Defined.

Lemma malformed_dropped_witness :
  indicate open_mib (Cohesive (CohesivePacket.create [17; 0; 5] Network)) [0; 0; 0; 0; 0; 7] cBroadcastMacAddress (example_router open_mib) =
  (inl tt, dropped Parse_Basic_Header (example_router open_mib)).
Proof.
  apply (malformed_dropped open_mib (CohesivePacket.create [17; 0; 5] Network) [0; 0; 0; 0; 0; 7] cBroadcastMacAddress (example_router open_mib)).
  - split; [apply create_Inv; unfold Network; lia|apply octets_decide; reflexivity].
  - apply Nat.ltb_lt. reflexivity.
Defined.

Lemma shb_received_witness : exists w' p ind,
  indicate open_mib (Cohesive (CohesivePacket.create (serialize_BasicHeader (example_basic NextHeaderBasic_Common 5 1) ++
    serialize_CommonHeader (example_common HeaderType_TSB_Single_Hop 0 2 1) ++ serialize_HeaderVariant (Shb (example_shb 7)) ++ [7; 8]) Network))
    [0; 0; 0; 0; 0; 7] cBroadcastMacAddress (example_router open_mib) = (inl tt, w') /\
  w_events w' = [Pass_up ind (Cohesive p)] /\ CohesivePacket.octets_of p Transport Application = [7; 8].
Proof.
  destruct (shb_received open_mib (example_basic NextHeaderBasic_Common 5 1) (example_common HeaderType_TSB_Single_Hop 0 2 1) (example_shb 7) [7; 8]
    [0; 0; 0; 0; 0; 7] cBroadcastMacAddress (example_router open_mib) (example_router_Inv open_mib) eq_refl) as (w1 & w' & p & Ef & E & Eo & Ev);
    try reflexivity; try (vm_compute; congruence).
  - repeat split; vm_compute; congruence.
  - repeat split; vm_compute; congruence.
  - cbn. unfold ShbHeader_ok, LongPositionVector_ok, Address_ok, mac_ok, DccField_ok. cbn. repeat split; try (vm_compute; congruence). apply octets_decide. reflexivity.
  - exists w', p. eexists. split; [exact E|]. split; [|exact Eo]. rewrite Ev. vm_compute in Ef. injection Ef as <-. vm_compute. reflexivity.
Defined.
