(* ===== verification/RouterMemory.v ===== *)
(** The memory of geo-broadcasts passed up: what the reception of one does to
    it, and that nothing else the router does changes it. *)

From S2P Require Import Prelude Double GnNumbers Archive GnWire Caches SoftState LocationTable PacketBuffer Scheduler CbfBuffer Packets Areas Requests RouterState Router Indication RouterInv RouterSafety RouterReception.
From stdpp Require Import gmap.

Open Scope Z_scope.

Section Memory.
Context {SM Report Certificate Ext : Type} {Env : Environment SM Report Certificate Ext} {Laws : EnvironmentLaws Env}.
Variable m_mib : MIB.

Abbreviation W := (World SM Report Certificate Ext).
Abbreviation Router A := (M SM Report Certificate Ext A).
Abbreviation Down := (gmap nat (ByteBufferConvertible SM)).
Abbreviation Invariant := (RouterInv m_mib).

(** * Computations that leave it alone *)

Definition kept {A} (m : Router A) : Prop := forall w, w_memory (m w).2 = w_memory w.

Lemma kept_ret {A} (a : A) : kept (mret a).
Proof. now intros w. Qed.
Lemma kept_throw {A} e : kept (throw e : Router A).
Proof. now intros w. Qed.
Lemma kept_bind {A B} (m : Router A) (f : A -> Router B) : kept m -> (forall a, kept (f a)) -> kept (m ≫= f).
Proof.
  intros Hm Hf w. specialize (Hm w). unfold mbind, M_bind. destruct (m w) as [[a|e] w']; [|exact Hm]. cbn [snd] in *. rewrite <- Hm. apply Hf.
Qed.
Lemma kept_gets {A} (f : W -> A) : kept (gets f).
Proof. now intros w. Qed.
Lemma kept_modify f : (forall w : W, w_memory (f w) = w_memory w) -> kept (modify f).
Proof. intros Hf w. apply Hf. Qed.
Lemma kept_draw {A} (f : Ext -> A * Ext) : kept (draw f).
Proof. intros w. unfold draw. now destruct (f (w_ext w)). Qed.
Lemma kept_cbf {A} f : kept (cbf_operation f : Router A).
Proof. intros w. unfold cbf_operation. now destruct (f _) as [a [b rt]]. Qed.
Lemma kept_assertion b : kept (assertion b : Router unit).
Proof. now destruct b. Qed.
Lemma kept_deref {A} (o : option A) : kept (deref o : Router A).
Proof. now destruct o. Qed.

Create HintDb kept.
#[local] Hint Resolve kept_ret kept_throw kept_gets kept_draw kept_cbf kept_assertion kept_deref : kept.
#[local] Hint Extern 2 (kept (modify _)) => (apply kept_modify; now intros ?) : kept.
#[local] Hint Extern 2 (kept (emit _)) => (apply kept_modify; now intros ?) : kept.
#[local] Ltac keep := cbv zeta; repeat first
  [ solve [auto with kept]
  | match goal with |- kept (mbind _ _) => apply kept_bind; [|intros ?] end
  | match goal with |- kept (match ?x with _ => _ end) => destruct x end ].

Lemma kept_update lpv : kept (table_update lpv : Router unit).
Proof. unfold table_update, get_now. keep. Qed.
Lemma kept_create mac : kept (table_create mac : Router unit).
Proof. unfold table_create, get_now. keep. Qed.
Lemma kept_reads : (forall mac, kept (table_position mac : Router _)) /\ (forall mac, kept (table_entry mac : Router _)) /\
  (forall addr, kept (table_has_entry addr : Router _)) /\ kept (table_has_neighbours : Router _) /\ (forall mac, kept (entry_at mac : Router _)).
Proof. unfold table_position, table_entry, table_has_entry, table_has_neighbours, entry_at, get_now. split_all; intros; keep. Qed.
#[local] Hint Resolve kept_update kept_create : kept.
#[local] Hint Extern 2 (kept (table_position _)) => apply kept_reads : kept.
#[local] Hint Extern 2 (kept (table_entry _)) => apply kept_reads : kept.
#[local] Hint Extern 2 (kept (table_has_entry _)) => apply kept_reads : kept.
#[local] Hint Extern 2 (kept table_has_neighbours) => apply kept_reads : kept.
#[local] Hint Extern 2 (kept (entry_at _)) => apply kept_reads : kept.

Lemma kept_change mac f : kept (entry_change mac f : Router unit).
Proof. now apply kept_modify. Qed.
#[local] Hint Resolve kept_change : kept.
Lemma kept_push d : kept (bc_push d : Router unit).
Proof. unfold bc_push, get_now. keep. Qed.
Lemma kept_counter id : kept (cbf_counter id : Router Z).
Proof. unfold cbf_counter, get_now. keep. Qed.
#[local] Hint Resolve kept_push kept_counter : kept.
#[local] Hint Extern 2 (kept (cbf_add _ _ _)) => apply kept_cbf : kept.
#[local] Hint Extern 2 (kept (cbf_remove _)) => apply kept_cbf : kept.
#[local] Hint Extern 2 (kept (cbf_update _ _)) => apply kept_cbf : kept.

(** ** Sending *)

Lemma kept_media p : kept (execute_media_procedures p : Router unit).
Proof. now destruct p. Qed.
Lemma kept_request r pdu payload : kept (pass_down_request r pdu payload : Router unit).
Proof. unfold pass_down_request. keep. Qed.
#[local] Hint Resolve kept_media kept_request : kept.
Lemma kept_pass_down addr pdu payload : kept (pass_down addr pdu payload : Router unit).
Proof. unfold pass_down, local_address. keep. Qed.
Lemma kept_pass_down_forwarded addr pdu payload : kept (pass_down_forwarded addr pdu payload : Router unit).
Proof. unfold pass_down_forwarded, local_address. keep. Qed.
Lemma kept_reset : kept (reset_beacon_timer m_mib : Router unit).
Proof. unfold reset_beacon_timer, reset_beacon_timer_after. keep. Qed.
Lemma kept_encap {H} `{ExtendedHeader H} aid ssp ctx (pdu : Pdu SM H) packet : kept (encap_packet aid ssp ctx pdu packet : Router _).
Proof. unfold encap_packet. keep. Qed.
#[local] Hint Resolve kept_pass_down kept_pass_down_forwarded kept_reset kept_encap : kept.
Lemma kept_transmit_shb ctrl pdu payload : kept (transmit_shb m_mib ctrl pdu payload : Router unit).
Proof. unfold transmit_shb. keep. Qed.
Lemma kept_transmit_gbc p mac : kept (transmit_gbc m_mib p mac : Router unit).
Proof. unfold transmit_gbc. keep. Qed.
Lemma kept_transmit_tsb pdu payload : kept (transmit_tsb m_mib pdu payload : Router unit).
Proof. unfold transmit_tsb. keep. Qed.
#[local] Hint Resolve kept_transmit_shb kept_transmit_gbc kept_transmit_tsb : kept.

(** ** Forwarding *)

Lemma kept_next_hop nh : kept (process_next_hop m_mib nh : Router unit).
Proof. unfold process_next_hop. keep. Qed.
Lemma kept_greedy p : kept (greedy_forwarding p : Router (NextHop SM)).
Proof. unfold greedy_forwarding, local_position, get_now. keep. Qed.
Lemma kept_timeout sender : kept (timeout_cbf_sender m_mib sender : Router Duration).
Proof. unfold timeout_cbf_sender, local_position. keep. Qed.
Lemma kept_destination ht gbc : kept (gbc_destination ht gbc : Router Area).
Proof. unfold gbc_destination. keep. Qed.
#[local] Hint Resolve kept_next_hop kept_greedy kept_timeout kept_destination : kept.
Lemma kept_non_area p sender : kept (non_area_contention_based_forwarding m_mib p sender : Router (NextHop SM)).
Proof. unfold non_area_contention_based_forwarding, local_position. keep. Qed.
Lemma kept_area p sender : kept (area_contention_based_forwarding m_mib p sender : Router (NextHop SM)).
Proof. unfold area_contention_based_forwarding. keep. Qed.
Lemma kept_sector sender forwarder : kept (outside_sectorial_contention_area m_mib sender forwarder : Router bool).
Proof. unfold outside_sectorial_contention_area, local_position. keep. Qed.
#[local] Hint Resolve kept_non_area kept_area kept_sector : kept.
Lemma kept_advanced p ll : kept (area_advanced_forwarding m_mib p ll : Router (NextHop SM)).
Proof. unfold area_advanced_forwarding, local_address. keep. Qed.
#[local] Hint Resolve kept_advanced : kept.
Lemma kept_selection p ll : kept (forwarding_algorithm_selection m_mib p ll : Router (NextHop SM)).
Proof. unfold forwarding_algorithm_selection, local_position. keep. Qed.
#[local] Hint Resolve kept_selection : kept.
Lemma kept_buffered b : kept (process_buffered m_mib b : Router unit).
Proof. unfold process_buffered. keep. Qed.
#[local] Hint Resolve kept_buffered : kept.

(** ** Buffers *)

Lemma kept_flush get set : (forall b (w : W), w_memory (set b w) = w_memory w) -> kept (flush_buffer m_mib get set : Router unit).
Proof.
  intros Hset w. unfold flush_buffer, PacketBuffer.flush.
  set (s := fold_left _ _ _). assert (H : w_memory s.2.2 = w_memory w).
  { unfold s. apply (fold_flush _ (flush_step m_mib get set) (fun s => w_memory s.2.2 = w_memory w)); [|reflexivity].
    intros d [b [[e|] v]] Hv; [exact Hv|]. cbn [flush_step]. pose proof (kept_buffered d (set b v)) as Hk.
    destruct (process_buffered m_mib d (set b v)) as [r v']. cbn [snd] in *. now rewrite Hk, Hset. }
  destruct s as [b [e v]]. cbn in *. now rewrite Hset.
Qed.
Lemma kept_flush_broadcast : kept (flush_broadcast_forwarding_buffer m_mib : Router unit).
Proof. now apply kept_flush. Qed.
Lemma kept_flush_unicast source : kept (flush_unicast_forwarding_buffer m_mib source : Router unit).
Proof. now apply kept_flush. Qed.
Lemma kept_process_cbf ps : kept (process_cbf m_mib ps : Router unit).
Proof. induction ps as [|p ps IH]; cbn [process_cbf]; keep. Qed.
#[local] Hint Resolve kept_flush_broadcast kept_flush_unicast kept_process_cbf : kept.

(** ** The other operations *)

Lemma kept_repeater request payload : kept (repeater_add request payload : Router unit).
Proof. apply kept_modify. intros w. now destruct (add_request _ _ _ _ _). Qed.
#[local] Hint Resolve kept_repeater : kept.
Lemma kept_user_request r payload : kept (request m_mib r payload : Router ResultCode).
Proof.
  destruct r; cbn [request]; auto with kept; unfold request_shb, request_gbc, create_shb_pdu, create_gbc_pdu; keep.
Qed.
#[local] Hint Resolve kept_user_request : kept.
Lemma kept_callback cb invocation : kept (on_callback m_mib cb invocation : Router unit).
Proof.
  destruct cb; cbn [on_callback]; unfold on_beacon_timer_expired, create_beacon_pdu, on_cbf_timer_expired, on_repetition, get_now; keep.
Qed.

(** Only received packets are remembered. *)
Theorem memory_kept (i : Input) (w : W) : (forall packet sender destination, i <> Indicate packet sender destination) -> w_memory (handle m_mib i w).2 = w_memory w.
Proof.
  intros Hi. revert w. change (kept (handle m_mib i)). destruct i; cbn [handle]; try (now destruct (Hi packet sender destination)).
  - keep.
  - unfold update_position, get_now. keep.
  - unfold set_address. keep.
  - unfold set_transport_handler. keep.
  - unfold set_security. keep.
  - unfold flush_forwarding_buffers, local_address. keep.
  - keep.
  - intros w. unfold invoke_callback. cbv zeta. destruct (m_queue _) as [|x q]; [reflexivity|]. destruct (_ <=? _); [|reflexivity]. now rewrite kept_callback.
Qed.

(** * A geo-broadcast *)

(** What becomes of a packet that is no duplicate, and of the memory. *)
Definition verdict (within : bool) (gbc : GeoBroadcastHeader) (memory : GbcMemory.t CbfPacketIdentifier) : bool * GbcMemory.t CbfPacketIdentifier :=
  let accepted := within || vanetzaGbcPassUpOutsideDestination m_mib in
  if (vanetzaGbcMemoryCapacity m_mib =? 0)%nat then (accepted, memory)
  else if accepted then (negb (GbcMemory.remember (remembered gbc) memory).1, (GbcMemory.remember (remembered gbc) memory).2)
  else (false, memory).

Definition recalls (ref : option MacAddress) (memory : GbcMemory.t CbfPacketIdentifier) (w : W) : Prop := Invariant [] ref w /\ w_memory w = memory.

Lemma recalls_then {A B} ref memory (m : Router A) (f : A -> Router B) Q : yields m_mib [] ref m (fun _ => True) -> kept m ->
  (forall a, runs (recalls ref memory) (f a) Q) -> runs (recalls ref memory) (m ≫= f) Q.
Proof.
  intros Hy Hk Hf. apply (runs_bind _ _ _ (fun _ => recalls ref memory)); [|exact Hf]. intros w [Hw Hm]. specialize (Hy w Hw). specialize (Hk w).
  destruct (m w) as [[a|x] w']; [|exact Hy]. destruct Hy as [_ Hw']. split; [exact Hw'|]. cbn in Hk. congruence.
Qed.
Lemma recalls_update {B} memory lpv (f : unit -> Router B) Q :
  (forall a, runs (recalls (Some (mid (gn_addr lpv))) memory) (f a) Q) -> runs (recalls None memory) (table_update lpv ≫= f) Q.
Proof.
  intros Hf. apply (runs_bind _ _ _ (fun _ => recalls (Some (mid (gn_addr lpv))) memory)); [|exact Hf].
  intros w [Hw Hm]. destruct (table_update_key m_mib lpv w Hw) as (t' & E & Hw' & d & x & Ek & _). rewrite table_update_eq, E. split; [|exact Hm].
  apply acquire_ref; [exact Hw'|]. apply abs_key; [apply Hw'|]. cbn. rewrite Ek. eauto.
Qed.

Lemma decide_verdict ref within gbc memory : runs (recalls ref memory) (decide_pass_up m_mib within gbc) (fun up w => (up, w_memory w) = verdict within gbc memory).
Proof.
  intros w [_ <-]. rewrite decide_pass_up_eq. unfold verdict. cbv zeta. destruct (_ =? _)%nat; [reflexivity|]. now destruct (_ || _).
Qed.

Lemma kept_multi_hop source sender :
  kept (if vanetzaMultiHopDuplicateAddressDetection m_mib then detect_duplicate_address m_mib source sender else mret tt : Router unit).
Proof.
  assert (Hr : forall n, kept (random_octets n : Router (list Z))) by (induction n as [|n IH]; cbn [random_octets]; keep).
  unfold detect_duplicate_address, local_address, set_address. keep.
Qed.
Lemma kept_exceeded key ll : kept (exceeded_pdr m_mib key ll : Router (option ForwardingStopReason)).
Proof. unfold exceeded_pdr. keep. Qed.
#[local] Hint Resolve kept_multi_hop kept_exceeded : kept.

#[local] Hint Resolve entry_update_pdr_ok exceeded_pdr_ok multi_hop_address_ok new_neighbour_ok : router.
#[local] Hint Extern 1 (yields _ _ _ (forwarding_stopped _) _) => (now apply stopped_ok) : router.
#[local] Hint Extern 2 (kept (forwarding_stopped _)) => (apply kept_modify; now intros ?) : kept.

(** Behind the check for duplicates. *)
Lemma gbc_rest pdu packet ll within area (known : bool) memory : let gbc := extended pdu in let key := mid (gn_addr (source_position gbc)) in
  received_ok m_mib pdu packet -> is_gbc (header_type (common pdu)) = true ->
  runs (recalls None memory)
    ((if vanetzaMultiHopDuplicateAddressDetection m_mib then detect_duplicate_address m_mib (gn_addr (source_position gbc)) (ll_sender ll) else mret tt);;
     table_update (source_position gbc);;
     entry_update_pdr m_mib key (received_size packet);;
     (if known then entry_change key (set_neighbour false) else mret tt);;
     flush_unicast_forwarding_buffer m_mib (gn_addr (source_position gbc));;
     if hop_limit (basic pdu) <=? 1 then forwarding_stopped Stop_Hop_Limit;; decide_pass_up m_mib within gbc
     else if d_ltb (itsGnMaxGeoAreaSize m_mib) (area_size area) then
       forwarding_stopped Stop_Geo_Area_Size;; decide_pass_up m_mib within gbc
     else
       exceeded ← exceeded_pdr m_mib key ll;
       match exceeded with
       | Some reason => forwarding_stopped reason;; decide_pass_up m_mib within gbc
       | None =>
           let '(fwd_pdu, fwd_payload) := forwarding_duplicate pdu packet in
           assertion (hop_limit (basic fwd_pdu) + 1 =? hop_limit (basic pdu));;
           let fwd_packet := Buf_gbc (mk_ForwardPacket fwd_pdu fwd_payload Relay) (Forwarding (Some ll)) in
           neighbours ← table_has_neighbours;
           (if TrafficClass.store_carry_forward (traffic_class (common pdu)) && negb neighbours
            then bc_push fwd_packet
            else process_buffered m_mib fwd_packet);;
           decide_pass_up m_mib within gbc
       end)
    (fun up w => (up, w_memory w) = verdict within gbc memory).
Proof.
  intros gbc key Hr Hg. apply recalls_then; auto with kept router. intros _. apply recalls_update. intros _. fold gbc key.
  apply recalls_then; [auto with router|unfold entry_update_pdr, get_now; keep|intros _].
  apply recalls_then; [auto with router|keep|intros _]. apply recalls_then; auto with kept router. intros _.
  assert (Hstop : forall reason, runs (recalls (Some key) memory) (forwarding_stopped reason;; decide_pass_up m_mib within gbc) (fun up w => (up, w_memory w) = verdict within gbc memory)).
  { intros reason. apply recalls_then; [now apply stopped_ok|auto with kept|intros _; apply decide_verdict]. }
  destruct (Z.leb_spec (hop_limit (basic pdu)) 1) as [Hh|Hh]; [apply Hstop|]. destruct (d_ltb _ _); [apply Hstop|].
  apply recalls_then; auto with kept router. intros [reason|]; [apply Hstop|].
  pose proof (forwarding_duplicate_ok m_mib pdu packet Hr ltac:(lia)) as Hf. destruct (forwarding_duplicate pdu packet) as [fwd_pdu fwd_payload].
  destruct Hf as (Hf & Hhop & Hc). apply recalls_then; [apply yields_assertion; now apply Z.eqb_eq|auto with kept|intros _]. cbv zeta.
  apply recalls_then; auto with kept router. intros ns.
  assert (Hb : buffered_ok m_mib (Buf_gbc (mk_ForwardPacket fwd_pdu fwd_payload Relay) (Forwarding (Some ll)))).
  { split; [|now rewrite bool_decide_false]. split; [cbn; now rewrite Hc|exact Hf]. }
  apply recalls_then; [destruct (_ && _); auto with router|keep|intros _; apply decide_verdict].
Qed.

(** process_gbc() as a whole. *)
Lemma process_gbc_verdict pdu packet ll (w : W) : Invariant [] None w -> received_ok m_mib pdu packet -> is_gbc (header_type (common pdu)) = true ->
  let gbc := extended pdu in
  exists area up w', gbc_destination (header_type (common pdu)) gbc w = (inl area, w) /\ process_gbc m_mib pdu packet ll w = (inl up, w') /\
    let within := inside_or_at_border area (position_of (w_local_position w)) in
    (up, w_memory w') =
      if gbc_duplicate_detection m_mib within && known_packet m_mib w (gn_addr (source_position gbc)) (sequence_number gbc)
      then (false, w_memory w) else verdict within gbc (w_memory w).
Proof.
  intros Hw Hr Hg gbc. unfold process_gbc. cbv zeta. fold gbc.
  assert (Eg : exists area, gbc_destination (header_type (common pdu)) gbc w = (inl area, w)).
  { pose proof (gbc_destination_ok m_mib (held := []) (ref := None) (header_type (common pdu)) gbc Hg w Hw) as Hd. unfold gbc_destination in *.
    destruct (destination (header_type (common pdu)) gbc) as [area|]; [now exists area|contradiction]. }
  destruct Eg as [area Eg]. exists area. unfold mbind at 1, M_bind at 1. rewrite Eg. unfold mbind at 1, M_bind at 1. rewrite table_has_entry_eq. unfold has_entry, has_value.
  rewrite (get_value_ptr_spec _ _ _ (proj1 (inv_table _ _ _ _ Hw))). cbn [fmap option_fmap option_map]. unfold mbind at 1, M_bind at 1, local_position, gets.
  set (within := inside_or_at_border _ _). set (known := match _ with Some _ => true | None => false end).
  assert (Hdup : exists w1, (if gbc_duplicate_detection m_mib within then detect_duplicate_packet m_mib (gn_addr (source_position gbc)) (sequence_number gbc) else mret false) w =
      (inl (gbc_duplicate_detection m_mib within && known_packet m_mib w (gn_addr (source_position gbc)) (sequence_number gbc)), w1) /\ recalls None (w_memory w) w1).
  { destruct (gbc_duplicate_detection m_mib within); [|exists w; split; [reflexivity|now split]].
    destruct (detect_duplicate_packet_result m_mib (gn_addr (source_position gbc)) (sequence_number gbc) w Hw) as (w1 & -> & Hw1 & Hs & _). exists w1. split; [reflexivity|].
    split; [exact Hw1|apply Hs]. }
  destruct Hdup as (w1 & E & H1). unfold mbind at 1, M_bind at 1. rewrite E. destruct (gbc_duplicate_detection m_mib within && _).
  - exists false, w1. split; [reflexivity|]. split; [reflexivity|]. now rewrite (proj2 H1).
  - destruct (runs_exists _ _ _ w1 (gbc_rest pdu packet ll within area (negb known) (w_memory w) Hr Hg) H1) as (up & w' & E' & Hv).
    exists up, w'. split; [reflexivity|]. split; [exact E'|exact Hv].
Qed.

End Memory.
