(* ===== verification/RouterSpec.v ===== *)
(** What the router does with packets: forwarding, passing up, and what it
    does with malformed ones. *)

From S2P Require Import Prelude Double GnNumbers Archive GnWire Caches SoftState LocationTable PacketBuffer Scheduler CbfBuffer Packets Areas Requests RouterState Router Indication RouterInv RouterSafety RouterExample RouterReception RouterMemory.
From stdpp Require Import gmap.

Open Scope Z_scope.

Section Spec.
Context {SM Report Certificate Ext : Type} {Env : Environment SM Report Certificate Ext} {Laws : EnvironmentLaws Env}.
Variable m_mib : MIB.

Abbreviation W := (World SM Report Certificate Ext).
Abbreviation Router A := (M SM Report Certificate Ext A).
Abbreviation Down := (gmap nat (ByteBufferConvertible SM)).
Abbreviation Invariant := (RouterInv m_mib).

(** * Geo-broadcasts *)

(** C16.  A geo-broadcast packet is passed up once.  In every state the router
    reaches its memory is that of some history of accepted packets.  For any
    such history, process_gbc() has the packet passed up exactly when it is
    not detected as a duplicate - where duplicates are looked for, which is
    with simple area or greedy non-area forwarding -, it is accepted - its
    area includes the router, or packets from outside of it are wanted - and
    it is not among the last packets of the history, as many distinct ones as
    the capacity.  It becomes the last one of the history when it is accepted
    and no duplicate; a duplicate does not touch the memory.  With a capacity
    of zero nothing is remembered, and every accepted packet that is no
    duplicate is passed up. *)
Theorem gbc_passed_up_once (w : W) : reachable m_mib w ->
  (exists h, w_memory w = gbc_run (vanetzaGbcMemoryCapacity m_mib) h) /\
  forall h pdu packet ll, w_memory w = gbc_run (vanetzaGbcMemoryCapacity m_mib) h -> received_ok m_mib pdu packet -> is_gbc (header_type (common pdu)) = true ->
  let gbc := extended pdu in
  exists area up w', gbc_destination (header_type (common pdu)) gbc w = (inl area, w) /\ process_gbc m_mib pdu packet ll w = (inl up, w') /\
    let within := inside_or_at_border area (position_of (w_local_position w)) in
    let duplicate := gbc_duplicate_detection m_mib within && known_packet m_mib w (gn_addr (source_position gbc)) (sequence_number gbc) in
    let accepted := within || vanetzaGbcPassUpOutsideDestination m_mib in
    let capacity := vanetzaGbcMemoryCapacity m_mib in
    (up = true <-> duplicate = false /\ accepted = true /\ (capacity = 0%nat \/ remembered gbc ∉ take capacity (recent h))) /\
    w_memory w' = if negb duplicate && accepted && negb (capacity =? 0)%nat then gbc_run capacity (remembered gbc :: h) else w_memory w.
Proof.
  intros Hw. split; [exact (inv_memory _ _ _ _ (reachable_ok m_mib w Hw))|]. intros h pdu packet ll Eh Hr Hg gbc.
  destruct (process_gbc_verdict m_mib pdu packet ll w (reachable_ok m_mib w Hw) Hr Hg) as (area & up & w' & Ea & E & Hv). exists area, up, w'.
  split; [exact Ea|]. split; [exact E|]. revert Hv. cbv zeta. fold gbc. set (within := inside_or_at_border _ _). set (duplicate := _ && _). set (accepted := within || _).
  destruct duplicate; cbn [negb andb]; [intros [= -> ->]; split; [|reflexivity]; split; [discriminate|intros [[=] _]]|].
  unfold verdict. fold accepted. destruct (Nat.eqb_spec (vanetzaGbcMemoryCapacity m_mib) 0) as [E0|Hc].
  { intros [= -> ->]. rewrite andb_false_r. split; [|reflexivity]. tauto. }
  rewrite andb_true_r. destruct accepted; [|intros [= -> ->]; split; [|reflexivity]; split; [discriminate|intros (_ & [=] & _)]].
  rewrite Eh. pose proof (gbc_run_recent (vanetzaGbcMemoryCapacity m_mib) h) as Er. rewrite Nat.max_r in Er by lia.
  assert (Ek : (GbcMemory.remember (remembered gbc) (gbc_run (vanetzaGbcMemoryCapacity m_mib) h)).1 =
    bool_decide (remembered gbc ∈ take (vanetzaGbcMemoryCapacity m_mib) (recent h))).
  { rewrite <- Er. unfold GbcMemory.remember, GbcMemory.knows. destruct (bool_decide (remembered gbc ∈ _)) eqn:Eb; cbn [fst]; symmetry.
    - apply bool_decide_eq_true in Eb. apply bool_decide_eq_true. now apply elem_of_reverse.
    - apply bool_decide_eq_false in Eb. apply bool_decide_eq_false. now rewrite elem_of_reverse. }
  rewrite Ek. intros [= -> ->]. split; [|reflexivity]. rewrite negb_true_iff, bool_decide_eq_false. tauto.
Qed.

(** ** Greedy forwarding *)

(** How far a neighbour is from a destination, when its position is known. *)
Definition candidate (w : W) (e : LocationTableEntry) : Prop :=
  (exists k, neighbours (m_now (w_runtime w)) (w_table w) !! k = Some e) /\ m_has_position_vector e = true.
Definition remaining (dest : GeodeticPosition) (e : LocationTableEntry) : double := distance dest (position_of (m_position_vector e)).

Lemma most_forward_fold dest ns a d : let '(a', d') := fold_left (most_forward dest) ns (a, d) in
  (a' = a /\ d' = d \/ exists e, e ∈ ns /\ m_has_position_vector e = true /\ a' = link_layer_address e /\ d' = remaining dest e /\ d_ltb d' d = true) /\
  (forall e, e ∈ ns -> m_has_position_vector e = true -> d_ltb (remaining dest e) d' = false).
Proof.
  revert a d. induction ns as [|n ns IH]; intros a d; cbn [fold_left].
  - split; [auto|]. intros e He. now apply elem_of_nil in He.
  - unfold most_forward at 2. cbn [snd]. fold (remaining dest n).
    destruct (m_has_position_vector n) eqn:Hn.
    + destruct (d_ltb (remaining dest n) d) eqn:Hd.
      * specialize (IH (link_layer_address n) (remaining dest n)). destruct (fold_left _ ns _) as [a' d']. destruct IH as [H1 H2]. split.
        -- right. destruct H1 as [[-> ->]|(e & He & Hp & -> & -> & Hlt)].
           ++ exists n. split_all; auto. constructor.
           ++ exists e. split_all; auto; [now constructor|]. eapply d_ltb_trans; eauto.
        -- intros e He Hp. apply elem_of_cons in He as [->|He]; [|auto].
           destruct H1 as [[_ ->]|(e' & _ & _ & _ & _ & Hlt)]; [apply d_ltb_irrefl|now apply d_lt_nlt].
      * specialize (IH a d). destruct (fold_left _ ns _) as [a' d']. destruct IH as [H1 H2]. split.
        -- destruct H1 as [H1|(e & He & H1)]; [auto|]. right. exists e. split; [now constructor|exact H1].
        -- intros e He Hp. apply elem_of_cons in He as [->|He]; [|auto].
           destruct H1 as [[_ ->]|(e' & _ & _ & _ & _ & Hlt)]; [exact Hd|].
           destruct (d_ltb (remaining dest n) d') eqn:E; [|reflexivity]. now rewrite (d_ltb_trans _ _ _ E Hlt) in Hd.
    + specialize (IH a d). destruct (fold_left _ ns _) as [a' d']. destruct IH as [H1 H2]. split.
      * destruct H1 as [H1|(e & He & H1)]; [auto|]. right. exists e. split; [now constructor|exact H1].
      * intros e He Hp. apply elem_of_cons in He as [->|He]; [congruence|auto].
Qed.

(** C14.  Greedy forwarding makes progress: a packet goes to a neighbour that is
    strictly nearer to its destination than the router is, and to one than
    which no other neighbour is nearer.  Without such a neighbour it is kept
    in the broadcast buffer if it may be stored, and broadcast otherwise. *)
Theorem greedy_forwarding_progress (packet : ForwardPacket SM) (w : W) :
  let dest := gbc_position (extended (fwd_pdu packet)) in
  let own := distance dest (position_of (w_local_position w)) in
  (exists e, candidate w e /\ d_ltb (remaining dest e) own = true /\
     greedy_forwarding packet w = (inl (Valid packet (link_layer_address e)), w) /\
     forall e', candidate w e' -> d_ltb (remaining dest e') (remaining dest e) = false) \/
  (forall e, candidate w e -> d_ltb (remaining dest e) own = false) /\
  greedy_forwarding packet w =
    if TrafficClass.store_carry_forward (traffic_class (common (fwd_pdu packet)))
    then (inl Buffered_hop, set_bc_buffer (PacketBuffer.push (m_now (w_runtime w)) (Buf_gbc packet Greedy) (w_bc_buffer w)).2 w)
    else (inl (Valid packet cBroadcastMacAddress), w).
Proof.
  intros dest own. unfold greedy_forwarding. cbv zeta. unfold mbind, M_bind, local_position, get_now, gets. cbv beta iota. fold dest own.
  set (ns := traversal (neighbours (m_now (w_runtime w)) (w_table w))).
  assert (Hns : forall e, candidate w e <-> e ∈ ns /\ m_has_position_vector e = true) by (intros e; unfold candidate, ns; now rewrite traversal_all).
  pose proof (most_forward_fold dest ns MacAddress_default own) as Hf. destruct (fold_left _ ns _) as [addr dist]. destruct Hf as [H1 H2].
  destruct H1 as [[-> ->]|(e & He & Hp & -> & -> & Hlt)].
  - right. split; [intros e [He Hp]%Hns; auto|]. rewrite d_ltb_irrefl. now destruct (TrafficClass.store_carry_forward _).
  - left. exists e. rewrite Hlt. split_all; auto; [apply Hns; auto|]. intros e' [He' Hp']%Hns. auto.
Qed.

(** ** Contention-based forwarding *)

Lemma find_packet_app id (ps qs : list (@CbfPacket (ForwardPacket SM))) :
  find_packet id (ps ++ qs) = match find_packet id ps with Some p => Some p | None => find_packet id qs end.
Proof. unfold find_packet. induction ps as [|p ps IH]; cbn; [reflexivity|]. destruct (bool_decide _); [reflexivity|exact IH]. Qed.

Lemma find_packet_drop id k (ps : list (@CbfPacket (ForwardPacket SM))) : find_packet id ps = None -> find_packet id (drop k ps) = None.
Proof.
  unfold find_packet. rewrite !find_None. intros Hn Hin. apply Hn. apply list_elem_of_fmap in Hin as (p & Ep & Hp).
  apply list_elem_of_fmap. exists p. split; [exact Ep|]. apply (subseteq_drop k ps). exact Hp.
Qed.

Lemma find_Inv id (b : @CbfPacketBuffer (ForwardPacket SM) RouterCounter) : CbfBuffer.Inv b -> CbfBuffer.find id b = find_packet id (m_packets b).
Proof.
  intros (HM & _). unfold CbfBuffer.find. pose proof (Matched_find _ _ id HM) as Hf. destruct (find_timer id (m_timers b)); [reflexivity|].
  destruct (find_packet id (m_packets b)) as [p|]; [|reflexivity]. exfalso. destruct Hf as [_ Hf]. destruct (Hf (ex_intro _ p eq_refl)) as [x [=]].
Qed.

(** Putting a packet into the buffer that is not there yet. *)
Lemma cbf_add_finds p sender timeout (w : W) : Invariant [] None w -> forward_ok m_mib p -> is_source p = false ->
  CbfBuffer.find (gbc_identifier p) (w_cbf w) = None -> 0 < timeout ->
  exists w', cbf_add p sender timeout w = (inl tt, w') /\ w_events w' = w_events w /\
    CbfBuffer.find (gbc_identifier p) (w_cbf w') = Some (mk_CbfPacket (gbc_identifier p) p sender).
Proof.
  intros Hw Hp Hs Hf Ht. unfold cbf_add, cbf_operation. cbv zeta. cbn [fst snd]. set (packet := mk_CbfPacket (gbc_identifier p) p sender).
  set (new := malloc _). pose proof (inv_cbf _ _ _ _ Hw) as HI. rewrite find_Inv in Hf by exact HI.
  assert (Hlen : CbfPacket_length packet <= 2 ^ 62) by (apply (relayable_length m_mib); assumption).
  pose proof (add_Inv Cbf_timer cbf_scope new packet timeout (w_cbf w, w_runtime w) HI Hlen (malloc_fresh _)) as (HI' & Hk & Hs').
  destruct (CbfBuffer.add Cbf_timer cbf_scope new packet timeout (w_cbf w, w_runtime w)) as [b rt]. cbn [fst] in *. eexists. split; [reflexivity|].
  split; [reflexivity|]. cbn [set_cbf w_cbf]. specialize (Hs' Ht). rewrite find_Inv in * by exact HI'. change (identifier packet) with (gbc_identifier p) in Hs'.
  destruct (Hk Ht) as (k & [E|E]); rewrite E in *.
  - rewrite find_packet_drop in Hs' by exact Hf. destruct Hs' as [x [=]].
  - rewrite find_packet_app, find_packet_drop by exact Hf. unfold find_packet. cbn. rewrite bool_decide_eq_true_2; reflexivity.
Qed.

Lemma cbf_remove_finds id (w : W) : Invariant [] None w ->
  match CbfBuffer.find id (w_cbf w) with
  | Some _ => exists w', cbf_remove id w = (inl true, w') /\ w_events w' = w_events w /\ CbfBuffer.find id (w_cbf w') = None
  | None => cbf_remove id w = (inl false, w)
  end.
Proof.
  intros Hw. pose proof (inv_cbf _ _ _ _ Hw) as HI. rewrite find_Inv by exact HI. unfold cbf_remove, cbf_operation, CbfBuffer.remove. cbn [fst snd].
  pose proof (Matched_find _ _ id (proj1 HI)) as Hm. destruct (find_packet id (m_packets (w_cbf w))) as [p|] eqn:Ep.
  - destruct (find_timer id (m_timers (w_cbf w))) as [t|]; [|destruct Hm as [_ Hm]; destruct (Hm (ex_intro _ p eq_refl)) as [x [=]]].
    pose proof (discard_spec Cbf_timer cbf_scope id p (w_cbf w, w_runtime w) HI Ep) as (HI' & Ek & _).
    destruct (CbfBuffer.discard Cbf_timer cbf_scope id (CbfPacket_length p) (w_cbf w, w_runtime w)) as [b rt]. cbn [fst] in *.
    eexists. split; [reflexivity|]. split; [reflexivity|]. cbn [set_cbf w_cbf]. rewrite find_Inv, Ek by exact HI'. apply erase_packet_find.
  - destruct (find_timer id (m_timers (w_cbf w))); now destruct w.
Qed.

(** The contention time after a packet of a sender. *)
Definition contention_time (sender : MacAddress) (w : W) : Duration :=
  match LocationTable.get_position (m_now (w_runtime w)) sender (w_table w) with
  | Some (Some pv) => if position_accuracy_indicator pv
      then timeout_cbf m_mib (distance (position_of pv) (position_of (w_local_position w))) else itsGnCbfMaxTime m_mib
  | _ => itsGnCbfMaxTime m_mib
  end.

Lemma timeout_cbf_sender_eq sender (w : W) : Invariant [] None w -> timeout_cbf_sender m_mib sender w = (inl (contention_time sender w), w).
Proof.
  intros Hw. pose proof (table_position_ok m_mib (held := []) (ref := None) sender w Hw) as Hp. unfold timeout_cbf_sender, contention_time, mbind, M_bind.
  rewrite table_position_eq in *. destruct (get_position _ sender (w_table w)) as [[pv|]|]; [|reflexivity|contradiction].
  now destruct (position_accuracy_indicator pv).
Qed.

(** C18.  Contention-based forwarding in the destination area: the first copy of a
    packet waits in the buffer for a time that depends on the sender's
    distance, a copy that arrives while it waits makes the router drop both,
    and packets overheard as often as the limit says are not forwarded at all.
    Nothing is sent in either case. *)
Theorem area_cbf_suppression (p : ForwardPacket SM) sender (w : W) : Invariant [] None w -> forward_ok m_mib p -> is_source p = false ->
  let id := gbc_identifier p in
  match CbfBuffer.find id (w_cbf w) with
  | Some _ => exists w', area_contention_based_forwarding m_mib p (Some sender) w = (inl Discarded, w') /\
      CbfBuffer.find id (w_cbf w') = None /\ w_events w' = w_events w
  | None =>
      if vanetzaCbfMaxCounter m_mib <=? cnt_counter (m_now (w_runtime w)) id (m_counter (w_cbf w))
      then area_contention_based_forwarding m_mib p (Some sender) w = (inl Discarded, w)
      else 0 < clock_cast (contention_time sender w) ->
        exists w', area_contention_based_forwarding m_mib p (Some sender) w = (inl Buffered_hop, w') /\
          CbfBuffer.find id (w_cbf w') = Some (mk_CbfPacket id p sender) /\ w_events w' = w_events w
  end.
Proof.
  intros Hw Hp Hs id. unfold area_contention_based_forwarding. cbv zeta. fold id. pose proof (cbf_remove_finds id w Hw) as Hr.
  destruct (CbfBuffer.find id (w_cbf w)) as [q|] eqn:Ef.
  - destruct Hr as (w' & E & Ev & Ed). exists w'. unfold mbind, M_bind. rewrite E. auto.
  - unfold mbind, M_bind. rewrite Hr. unfold cbf_counter, get_now, gets, mbind, M_bind.
    destruct (_ <=? _) eqn:Ec; [reflexivity|]. intros Ht. destruct (cbf_add_finds p sender _ w Hw Hp Hs Ef Ht) as (w' & E & Ev & Ea).
    exists w'. rewrite (timeout_cbf_sender_eq sender w Hw), E. auto.
Qed.

(** * Requests *)

(** The limits of a request for a single-hop broadcast. *)
Definition acceptable (r : DataRequest) (size : Z) : bool :=
  negb (Lifetime.lt (itsGnMaxPacketLifetime m_mib) (maximum_lifetime r)) &&
  match repetition r with Some rep => negb (d_ltb (interval rep) (itsGnMinPacketRepetitionInterval m_mib)) | None => true end &&
  (size <=? itsGnMaxSduSize m_mib).

Lemma acceptable_result r size : acceptable r size =
  accepted (xor_result (xor_result Accepted (validate_data_request r m_mib)) (validate_payload (Some size) m_mib)).
Proof.
  unfold acceptable, validate_data_request, validate_payload. destruct (Lifetime.lt _ _); cbn [negb andb].
  - destruct (_ <? _); reflexivity.
  - destruct (repetition r) as [rep|]; [destruct (d_ltb _ _)|]; cbn [negb andb]; destruct (Z.ltb_spec (itsGnMaxSduSize m_mib) size), (Z.leb_spec size (itsGnMaxSduSize m_mib));
      reflexivity || lia.
Qed.

(** The repeater and the runtime once a request's repetitions are known. *)
Definition repeats (r : DataRequest) (pl : Down) (w w' : W) : Prop :=
  if request_has_further_repetition r
  then m_repetitions (w_repeater w') = (m_next (w_repeater w), (ShbDataRequest r, pl)) :: m_repetitions (w_repeater w) /\
    exists tp, mk_ScheduledCallback tp (Repetition_timer (m_next (w_repeater w))) (Some repeater_scope) ∈ m_queue (w_runtime w')
  else w_repeater w' = w_repeater w.

Lemma repeater_add_eq r pl (w : W) : exists rep rt, repeater_add (ShbDataRequest r) pl w = (inl tt, set_repeater rep (set_runtime rt w)) /\
  m_now rt = m_now (w_runtime w) /\ repeats r pl w (set_repeater rep (set_runtime rt w)).
Proof.
  unfold repeater_add, modify, add_request, repeats, request_has_further_repetition, add_repetition. cbn [access_request].
  destruct (repetition r) as [rep|]; [destruct (has_further_repetition rep)|]; eexists _, _; (split; [reflexivity|]); split; try reflexivity.
  split; [reflexivity|]. eexists. cbn [set_repeater set_runtime w_runtime schedule m_queue w_repeater]. unfold emplace.
  rewrite (insert_by_Permutation deadline). constructor.
Qed.

(** A single-hop broadcast is requested: a request beyond the limits on its
    lifetime, its repetition interval or its size changes nothing and is told
    so.  Otherwise, when it need not be stored for lack of neighbours, one
    packet is broadcast to the direct neighbours: unsecured, with the local
    position, of hop limit one, with the payload as given and announced in the
    common header, and its repetitions are scheduled, if there are any. *)
Theorem request_shb_outcome (r : DataRequest) (pl : Down) (w : W) : itsGnSecurity m_mib = false ->
  request_shb m_mib r None w = (inl Rejected_Unspecified, w) /\
  (acceptable r (down_size pl) = false -> exists reason, reason <> Accepted /\ request_shb m_mib r (Some pl) w = (inl reason, w)) /\
  (acceptable r (down_size pl) = true ->
     TrafficClass.store_carry_forward (request_traffic_class r) && negb (has_neighbours (m_now (w_runtime w)) (w_table w)) = false ->
     exists w' request pdu, request_shb m_mib r (Some pl) w = (inl Accepted, w') /\
       w_events w' = w_events w ++ [Pass_down request (ChunkPacket.set_layer Network (Pdu_buffer pdu) pl)] /\
       dcc_destination request = cBroadcastMacAddress /\ secured pdu = None /\
       hop_limit (basic pdu) = 1 /\ lifetime (basic pdu) = maximum_lifetime r /\
       header_type (common pdu) = HeaderType_TSB_Single_Hop /\ common_next_header (common pdu) = next_header_of (upper_protocol r) /\
       traffic_class (common pdu) = request_traffic_class r /\ payload (common pdu) = u16 (down_size pl) /\
       (exists field, extended pdu = Shb (mk_ShbHeader (w_local_position w) field)) /\ repeats r pl w w').
Proof.
  intros Hs. split; [|split].
  - unfold request_shb. cbv zeta. reflexivity.
  - rewrite acceptable_result. intros Ha. unfold request_shb. cbn [fmap option_fmap option_map]. cbv zeta.
    eexists. split; [|now rewrite Ha]. intros E. rewrite E in Ha. discriminate.
  - rewrite acceptable_result. intros Ha Hn. unfold request_shb. cbn [fmap option_fmap option_map]. cbv zeta. rewrite Ha.
    destruct (xor_result (xor_result Accepted _) _); try discriminate Ha. clear Ha.
    unfold mbind at 1, M_bind at 1. destruct (repeater_add_eq r pl w) as (rep & rt & -> & En & Hrep). set (w1 := set_repeater rep (set_runtime rt w)) in *.
    unfold create_shb_pdu, table_has_neighbours, get_now, gets, draw, mbind, M_bind, mret, M_ret. cbv beta iota.
    change (w_ext w1) with (w_ext w). destruct (generate_dcc_field (w_ext w)) as [field e].
    change (w_table (set_ext e w1)) with (w_table w). change (m_now (w_runtime (set_ext e w1))) with (m_now rt). rewrite En, Hn.
    unfold transmit_shb, gets, mbind, M_bind. rewrite Hs. unfold mret, M_ret. rewrite media_eq, pass_down_common by (cbn; rewrite ?Hs; reflexivity).
    rewrite reset_beacon_timer_eq. cbn [w_ext set_events set_ext]. destruct (draw_real e) as [jitter e'].
    eexists _, _, _. split; [reflexivity|]. split; [reflexivity|]. split_all; try reflexivity; [eexists; reflexivity|].
    revert Hrep. unfold repeats. destruct (request_has_further_repetition r); [|easy]. intros [Hr [tp Hin]]. split; [exact Hr|]. exists tp.
    cbn [set_runtime w_runtime schedule_after schedule m_queue]. unfold emplace. rewrite (insert_by_Permutation deadline). right.
    unfold Scheduler.cancel. cbn [m_queue]. apply list_elem_of_filter. split; [discriminate|exact Hin].
Qed.

End Spec.

(** ** Witnesses *)

(** A packet for an area around the router. *)
Definition example_gbc_pdu : Pdu bool GeoBroadcastHeader := example_pdu 5 HeaderType_GeoBroadcast_Circle (example_gbc 1 480000000 110000000).

Lemma example_gbc_received : received_ok open_mib example_gbc_pdu (example_chunk example_gbc_pdu).
Proof. split; [split; [discriminate|reflexivity]|]. split; [split; vm_compute; congruence|]. split; vm_compute; congruence. Qed.

Lemma gbc_passed_up_once_witness : exists w',
  process_gbc open_mib example_gbc_pdu (example_chunk example_gbc_pdu) example_link (example_router open_mib) = (inl true, w') /\
  w_memory w' = gbc_run 2 [remembered (extended example_gbc_pdu)].
Proof.
  destruct (gbc_passed_up_once open_mib (example_router open_mib) (example_router_reachable open_mib)) as [_ H].
  destruct (H [] example_gbc_pdu (example_chunk example_gbc_pdu) example_link ltac:(vm_compute; reflexivity) example_gbc_received eq_refl)
    as (area & up & w' & Ea & E & Hup & Hm). exists w'.
  assert (Ew : inside_or_at_border area (position_of (w_local_position (example_router open_mib))) = true)
    by (vm_compute in Ea; injection Ea as <-; vm_compute; reflexivity).
  rewrite Ew in Hup, Hm. split; [|exact Hm]. rewrite E. f_equal. f_equal. apply Hup. split; [reflexivity|]. split; [reflexivity|]. right.
  intros Hx. now apply elem_of_nil in Hx.
Defined.

(** After a broadcast from a station that is nearer to the destination. *)
Definition example_neighbour : UpPacket bool :=
  Cohesive (CohesivePacket.create (serialize_BasicHeader (example_basic NextHeaderBasic_Common 5 1) ++
    serialize_CommonHeader (example_common HeaderType_TSB_Single_Hop 0 2 1) ++
    serialize_HeaderVariant (Shb (mk_ShbHeader (example_vector 7 480005000 110000000) (DccRaw 0))) ++ [7; 8]) Network).
Definition example_with_neighbour : World bool bool unit Z :=
  (handle open_mib (Indicate example_neighbour [0; 0; 0; 0; 0; 7] cBroadcastMacAddress) (example_router open_mib)).2.

Lemma greedy_forwarding_progress_witness :
  exists e, candidate example_with_neighbour e /\
    greedy_forwarding example_forward example_with_neighbour = (inl (Valid example_forward (link_layer_address e)), example_with_neighbour).
Proof.
  destruct (greedy_forwarding_progress example_forward example_with_neighbour) as [(e & He & _ & E & _)|[_ E]]; [exists e; split; [exact He|exact E]|].
  exfalso. apply (f_equal fst) in E. revert E. vm_compute. discriminate.
Defined.

Lemma area_cbf_suppression_witness : exists w',
  area_contention_based_forwarding open_mib example_forward (Some [0; 0; 0; 0; 0; 7]) (example_router open_mib) = (inl Buffered_hop, w') /\
  CbfBuffer.find (gbc_identifier example_forward) (w_cbf w') = Some (mk_CbfPacket (gbc_identifier example_forward) example_forward [0; 0; 0; 0; 0; 7]).
Proof.
  pose proof (area_cbf_suppression open_mib example_forward [0; 0; 0; 0; 0; 7] (example_router open_mib) (example_router_Inv open_mib)
    example_forward_ok eq_refl) as H. cbv zeta in H.
  replace (CbfBuffer.find (gbc_identifier example_forward) (w_cbf (example_router open_mib))) with (@None (@CbfPacket (ForwardPacket bool))) in H
    by (vm_compute; reflexivity).
  replace (vanetzaCbfMaxCounter open_mib <=? _) with false in H by (vm_compute; reflexivity).
  destruct H as (w' & E & Ef & _); [vm_compute; reflexivity|]. exists w'. split; [exact E|exact Ef].
Defined.

Lemma request_shb_outcome_witness : exists w' request pdu,
  request_shb open_mib (example_request (Some (mk_Repetition (d_of_Z 1) (d_of_Z 3)))) (Some example_payload) (example_router open_mib) = (inl Accepted, w') /\
  w_events w' = [Pass_down request (ChunkPacket.set_layer Network (Pdu_buffer pdu) example_payload)] /\ payload (common pdu) = 2.
Proof.
  destruct (request_shb_outcome open_mib (example_request (Some (mk_Repetition (d_of_Z 1) (d_of_Z 3)))) example_payload (example_router open_mib) eq_refl)
    as (_ & _ & H).
  destruct H as (w' & request & pdu & E & Ev & _ & _ & _ & _ & _ & _ & _ & Ep & _); [vm_compute; reflexivity|vm_compute; reflexivity|].
  exists w', request, pdu. split; [exact E|]. split; [exact Ev|]. rewrite Ep. vm_compute. reflexivity.
Defined.
