(* ===== verification/Permissions.v ===== *)
(** Permissions along a certificate chain: the namespace [consistency] of
    ports/esp_idf/src/security.cpp up to chain_consistent(), over the types
    PsidSsp, PsidGroupPermissions and SspRange of the certificates.

    The array of a SEQUENCE OF is a list.  Its entries are never null, since
    decoders and ASN_SEQUENCE_ADD only add allocated elements, so the tests
    for null entries have no counterpart.  An alternative of a CHOICE that
    the code does not name is [.._other]. *)

From S2P Require Import Prelude Runtime.
From stdpp Require Import list.

Open Scope Z_scope.

(** * Data *)

Inductive ServiceSpecificPermissions :=
| Ssp_opaque (opaque : list Z)
| Ssp_bitmapSsp (bitmapSsp : list Z)
| Ssp_other.

Inductive SspRange :=
| SspRange_opaque (entries : list (list Z))
| SspRange_all
| SspRange_bitmapSspRange (sspValue sspBitmask : list Z)
| SspRange_other.

Record PsidSsp := mk_PsidSsp { psid : Z; ssp : option ServiceSpecificPermissions }.
Record PsidSspRange := mk_PsidSspRange { range_psid : Z; sspRange : option SspRange }.

Inductive SubjectPermissions :=
| Subject_explicit (ranges : list PsidSspRange)
| Subject_all
| Subject_other.

(** [eeType] holds the octets of the BIT STRING. *)
Record PsidGroupPermissions := mk_Group {
  subjectPermissions : SubjectPermissions;
  minChainLength : option Z;
  chainLengthRange : Z;
  eeType : option (list Z) }.

#[export] Instance ServiceSpecificPermissions_eq_dec : EqDecision ServiceSpecificPermissions.
Proof. solve_decision. Defined.
#[export] Instance SspRange_eq_dec : EqDecision SspRange.
Proof. solve_decision. Defined.
#[export] Instance PsidSspRange_eq_dec : EqDecision PsidSspRange.
Proof. solve_decision. Defined.

(** * Groups *)

Definition octets_equal (a b : list Z) : bool := bool_decide (a = b).

Definition ee_type_app (group : PsidGroupPermissions) : bool :=
  match eeType group with
  | None | Some [] => true
  | Some (b :: _) => negb (b .& 128 =? 0)
  end.

Section Permissions.
Context {T : Target}.

(** [min + range] is an addition of [long]; an overflow, which C leaves
    undefined, wraps here as it does in practice.  The comparisons are those
    of [unsigned long]. *)
Definition chain_length_permits (group : PsidGroupPermissions) (depth : Z) : bool :=
  let min := default 1 (minChainLength group) in
  let range := chainLengthRange group in
  if (min <? 1) || (depth <? uwrap word_bits min) then false
  else (range <? 0) || (depth <=? uwrap word_bits (swrap word_bits (min + range))).

(** find_range: the first range of the PSID in an explicit group. *)
Definition find_range (group : PsidGroupPermissions) (p : Z) : option PsidSspRange :=
  match subjectPermissions group with
  | Subject_explicit ranges => find (fun r => range_psid r =? p) ranges
  | _ => None
  end.

Definition listed_explicitly (groups : list PsidGroupPermissions) (p : Z) : bool :=
  existsb (fun group => match find_range group p with Some _ => true | None => false end) groups.

(** * Service specific permissions within a range *)

(** The loop over the octets of the bitmap: [bits] may be shorter than the
    mask where the mask has no bits left. *)
Fixpoint bitmap_within (bits value mask : list Z) : bool :=
  match mask, value with
  | m :: mask', v :: value' =>
      match bits with
      | [] => if m =? 0 then bitmap_within [] value' mask' else false
      | b :: bits' => if b .& m =? v .& m then bitmap_within bits' value' mask' else false
      end
  | _, _ => true
  end.

Definition ssp_within (s : option ServiceSpecificPermissions) (range : option SspRange) : bool :=
  match range with
  | None | Some SspRange_all => true
  | Some (SspRange_opaque entries) =>
      existsb (fun entry => match s with
                            | None => (length entry =? 0)%nat
                            | Some (Ssp_opaque o) => octets_equal entry o
                            | Some _ => false
                            end) entries
  | Some (SspRange_bitmapSspRange value mask) =>
      match s with
      | Some (Ssp_bitmapSsp bits) =>
          if negb (length value =? length mask)%nat || (length mask <? length bits)%nat then false
          else bitmap_within bits value mask
      | _ => false
      end
  | Some SspRange_other => false
  end.

(** covers: an ancestor's certIssuePermissions admit one appPermissions entry
    of the end entity at a given chain length. *)
Definition covers (groups : list PsidGroupPermissions) (entry : PsidSsp) (depth : Z) : bool :=
  let elsewhere := listed_explicitly groups (psid entry) in
  existsb (fun group =>
    if negb (ee_type_app group) || negb (chain_length_permits group depth) then false
    else match subjectPermissions group with
         | Subject_all => negb elsewhere
         | _ => match find_range group (psid entry) with
                | Some range => ssp_within (ssp entry) (sspRange range)
                | None => false
                end
         end) groups.

(** * Ranges within ranges *)

(** The loop over the octets of the issuer's mask. *)
Fixpoint mask_within (pvalue pmask rvalue rmask : list Z) : bool :=
  match rmask, rvalue with
  | fixed :: rmask', rv :: rvalue' =>
      if fixed =? 0 then mask_within (tail pvalue) (tail pmask) rvalue' rmask'
      else match pmask, pvalue with
           | pm :: pmask', pv :: pvalue' =>
               if negb (pm .& fixed =? fixed) then false
               else if negb (pv .& fixed =? rv .& fixed) then false
               else mask_within pvalue' pmask' rvalue' rmask'
           | _, _ => false
           end
  | _, _ => true
  end.

Definition range_within (sub issuer : option SspRange) : bool :=
  match issuer with
  | None | Some SspRange_all => true
  | Some issuer =>
      match sub with
      | None | Some SspRange_all => false
      | Some sub =>
          match issuer, sub with
          | SspRange_opaque issuers, SspRange_opaque subs =>
              forallb (fun s => existsb (octets_equal s) issuers) subs
          | SspRange_bitmapSspRange rvalue rmask, SspRange_bitmapSspRange pvalue pmask =>
              if negb (length rvalue =? length rmask)%nat || negb (length pvalue =? length pmask)%nat then false
              else mask_within pvalue pmask rvalue rmask
          | _, _ => false
          end
      end
  end.

Definition is_all (group : PsidGroupPermissions) : bool :=
  match subjectPermissions group with Subject_all => true | _ => false end.

(** The inner search of nests(): the loop over the issuer's groups ends at
    the first that makes [found] true. *)
Definition range_nests (issuer : list PsidGroupPermissions) (range : PsidSspRange) : bool :=
  let elsewhere := listed_explicitly issuer (range_psid range) in
  existsb (fun candidate =>
    match subjectPermissions candidate with
    | Subject_all => negb elsewhere
    | _ => match find_range candidate (range_psid range) with
           | Some r => range_within (sspRange range) (sspRange r)
           | None => false
           end
    end) issuer.

Definition nests (sub issuer : list PsidGroupPermissions) : bool :=
  forallb (fun group =>
    match subjectPermissions group with
    | Subject_all => existsb is_all issuer
    | Subject_explicit ranges => forallb (range_nests issuer) ranges
    | Subject_other => false
    end) sub.

(** * Chains *)

(** What chain_consistent() reads of a certificate. *)
Record IssuePermissions := mk_IssuePermissions {
  appPermissions : option (list PsidSsp);
  certIssuePermissions : option (list PsidGroupPermissions) }.

(** The first loop: every ancestor from [depth] on covers the permissions. *)
Fixpoint ancestors_cover (app : list PsidSsp) (chain : list IssuePermissions) (depth : Z) : bool :=
  match chain with
  | [] => true
  | c :: chain' =>
      match certIssuePermissions c with
      | None => false
      | Some issuing => forallb (fun entry => covers issuing entry depth) app && ancestors_cover app chain' (depth + 1)
      end
  end.

(** The second loop: every subordinate authority below the anchor nests. *)
Fixpoint subordinates_nest (chain : list IssuePermissions) : bool :=
  match chain with
  | sub :: (issuer :: _) as chain' =>
      match certIssuePermissions sub, certIssuePermissions issuer with
      | Some s, Some i => nests s i && subordinates_nest chain'
      | _, _ => false
      end
  | _ => true
  end.

Definition chain_consistent (chain : list IssuePermissions) : bool :=
  match chain with
  | [] => false
  | ee :: ancestors =>
      match appPermissions ee with
      | None => false
      | Some app => ancestors_cover app ancestors 1 && subordinates_nest ancestors
      end
  end.
End Permissions.

(** * What a range allows, bit by bit *)

Lemma bits_of_lookup n v i : (i < n)%nat -> bits_of n v !! i = Some (Z.testbit v (Z.of_nat (n - 1 - i))).
Proof.
  revert i. induction n as [|n IH]; intros i Hi; [lia|]. cbn [bits_of]. destruct i as [|i].
  - cbn. do 3 f_equal. lia.
  - cbn. rewrite IH by lia. do 3 f_equal. lia.
Qed.

(** The bits of [bits] agree with [value] wherever the mask has a one. *)
Definition fixed_bits (bits value mask : list Z) : Prop :=
  forall i, bytes_bits mask !! i = Some true -> bytes_bits bits !! i = bytes_bits value !! i.

Lemma octet_masked b v m : octet b -> octet v -> octet m ->
  b .& m = v .& m <-> (forall i, (i < 8)%nat -> bits_of 8 m !! i = Some true -> bits_of 8 b !! i = bits_of 8 v !! i).
Proof.
  intros Hb Hv Hm. split.
  - intros E i Hi. rewrite !bits_of_lookup by assumption. intros [= Et]. f_equal.
    assert (Z.testbit (b .& m) (Z.of_nat (8 - 1 - i)) = Z.testbit (v .& m) (Z.of_nat (8 - 1 - i))) as E' by now rewrite E.
    rewrite !Z.land_spec in E'. replace (8 - 1 - i)%nat with (7 - i)%nat in * by lia. now rewrite Et, !andb_true_r in E'.
  - intros H. apply Z.bits_inj'. intros j Hj. rewrite !Z.land_spec. destruct (Z.testbit m j) eqn:Et; [|now rewrite !andb_false_r].
    rewrite !andb_true_r. destruct (Z.ltb_spec j 8) as [Hlt|Hge].
    + specialize (H (7 - Z.to_nat j)%nat ltac:(lia)). rewrite !bits_of_lookup in H by lia.
      replace (Z.of_nat (8 - 1 - (7 - Z.to_nat j))) with j in H by lia. specialize (H ltac:(now f_equal)). congruence.
    + exfalso. rewrite <- (Z.mod_small m (2 ^ 8)) in Et by exact Hm. rewrite Z.mod_pow2_bits_high in Et by lia. discriminate.
Qed.

Lemma fixed_bits_cons b bits v value m mask : octet b -> octet v -> octet m ->
  fixed_bits (b :: bits) (v :: value) (m :: mask) <-> b .& m = v .& m /\ fixed_bits bits value mask.
Proof.
  intros Hb Hv Hm. unfold fixed_bits. cbn [bytes_bits]. rewrite octet_masked by assumption. split.
  - intros H. split; intros i.
    + intros Hi E. specialize (H i). rewrite !lookup_app_l in H by (rewrite length_bits_of; lia). auto.
    + intros E. specialize (H (8 + i)%nat). rewrite !lookup_app_r in H by (rewrite length_bits_of; lia).
      rewrite !length_bits_of in H. replace (8 + i - 8)%nat with i in H by lia. auto.
  - intros [H1 H2] i. destruct (decide (i < 8)%nat) as [Hi|Hi].
    + rewrite !lookup_app_l by (rewrite length_bits_of; lia). auto.
    + rewrite !lookup_app_r by (rewrite length_bits_of; lia). rewrite !length_bits_of. auto.
Qed.

Lemma octet_zero m : octet m -> (m = 0 <-> forall i, (i < 8)%nat -> bits_of 8 m !! i <> Some true).
Proof.
  intros Hm. split.
  - intros -> i Hi. rewrite bits_of_lookup by assumption. rewrite Z.bits_0. discriminate.
  - intros H. apply Z.bits_inj_0. intros j. destruct (Z.ltb_spec j 8) as [Hlt|Hge].
    + destruct (Z.ltb_spec j 0) as [Hn|Hn]; [now apply Z.testbit_neg_r|].
      specialize (H (7 - Z.to_nat j)%nat ltac:(lia)). rewrite bits_of_lookup in H by lia.
      replace (Z.of_nat (8 - 1 - (7 - Z.to_nat j))) with j in H by lia. destruct (Z.testbit m j); congruence.
    + rewrite <- (Z.mod_small m (2 ^ 8)) by exact Hm. apply Z.mod_pow2_bits_high. lia.
Qed.

Lemma fixed_bits_nil v value m mask : octet v -> octet m ->
  fixed_bits [] (v :: value) (m :: mask) <-> m = 0 /\ fixed_bits [] value mask.
Proof.
  intros Hv Hm. unfold fixed_bits. cbn [bytes_bits]. rewrite octet_zero by assumption. split.
  - intros H. split; intros i.
    + intros Hi E. specialize (H i). rewrite !lookup_app_l in H by (rewrite length_bits_of; lia).
      rewrite (bits_of_lookup 8 v) in H by lia. now specialize (H E).
    + intros E. specialize (H (8 + i)%nat). rewrite !lookup_app_r in H by (rewrite length_bits_of; lia).
      rewrite !length_bits_of in H. replace (8 + i - 8)%nat with i in H by lia. rewrite <- H by assumption. reflexivity.
  - intros [H1 H2] i. destruct (decide (i < 8)%nat) as [Hi|Hi].
    + rewrite !lookup_app_l by (rewrite length_bits_of; lia). intros E. exfalso. now apply (H1 i).
    + rewrite !lookup_app_r by (rewrite length_bits_of; lia). rewrite !length_bits_of. intros E. rewrite <- (H2 _ E). reflexivity.
Qed.

Lemma bitmap_within_spec bits value mask : octets bits -> octets value -> octets mask -> length value = length mask ->
  (bitmap_within bits value mask = true <-> fixed_bits bits value mask).
Proof.
  intros Hb Hv Hm. revert bits value Hb Hv. induction Hm as [|m mask Hm Hms IH]; intros bits [|v value] Hb Hv Hl; try discriminate.
  { split; [|reflexivity]. intros _ i. cbn. discriminate. }
  inversion Hv as [|? ? Hv0 Hvs]; subst. injection Hl as Hl. cbn [bitmap_within]. destruct bits as [|b bits].
  - rewrite fixed_bits_nil by assumption. destruct (Z.eqb_spec m 0) as [E|E]; [|split; [discriminate|tauto]].
    rewrite IH by (assumption || constructor). tauto.
  - inversion Hb as [|? ? Hb0 Hbs]; subst. rewrite fixed_bits_cons by assumption.
    destruct (Z.eqb_spec (b .& m) (v .& m)) as [E|E]; [|split; [discriminate|tauto]]. rewrite IH by assumption. tauto.
Qed.

(** The permissions a range of a certificate stands for. *)
Definition allows (range : option SspRange) (s : option ServiceSpecificPermissions) : Prop :=
  match range with
  | None | Some SspRange_all => True
  | Some (SspRange_opaque entries) => match s with
                                      | None => [] ∈ entries
                                      | Some (Ssp_opaque o) => o ∈ entries
                                      | _ => False
                                      end
  | Some (SspRange_bitmapSspRange value mask) =>
      match s with
      | Some (Ssp_bitmapSsp bits) => length value = length mask /\ (length bits <= length mask)%nat /\ fixed_bits bits value mask
      | _ => False
      end
  | Some SspRange_other => False
  end.

(** The octet strings of ranges and permissions hold octets. *)
Definition range_ok (range : option SspRange) : Prop :=
  match range with Some (SspRange_bitmapSspRange value mask) => octets value /\ octets mask | _ => True end.
Definition ssp_ok (s : option ServiceSpecificPermissions) : Prop :=
  match s with Some (Ssp_bitmapSsp bits) => octets bits | _ => True end.

Lemma existsb_elem {A} (f : A -> bool) l : existsb f l = true <-> exists x, x ∈ l /\ f x = true.
Proof. rewrite existsb_exists. split; intros (x & Hx & E); exists x; split; auto; now apply list_elem_of_In. Qed.

Lemma forallb_elem {A} (f : A -> bool) l : forallb f l = true <-> forall x, x ∈ l -> f x = true.
Proof. rewrite forallb_forall. split; intros H x Hx; apply H; now apply list_elem_of_In. Qed.

Lemma ssp_within_spec s range : range_ok range -> ssp_ok s -> (ssp_within s range = true <-> allows range s).
Proof.
  intros Hr Hs. destruct range as [[entries| |value mask|]|]; cbn [ssp_within allows]; try tauto; try (split; [discriminate|tauto]).
  - rewrite existsb_elem. destruct s as [[o|bits|]|].
    + unfold octets_equal. split.
      * intros (x & Hx & E). apply bool_decide_eq_true in E. now subst.
      * intros Hx. exists o. split; [assumption|]. now apply bool_decide_eq_true.
    + split; [intros (x & _ & E); cbn in E; discriminate|tauto].
    + split; [intros (x & _ & E); cbn in E; discriminate|tauto].
    + split.
      * intros ([|? ?] & Hx & E); [assumption|cbn in E; discriminate].
      * intros Hx. exists []. auto.
  - destruct s as [[o|bits|]|]; cbn [allows]; try (split; [discriminate|tauto]). cbn in Hs. destruct Hr as [Hv Hm].
    destruct (Nat.eqb_spec (length value) (length mask)) as [El|El]; cbn [negb orb]; [|split; [discriminate|tauto]].
    destruct (Nat.ltb_spec (length mask) (length bits)) as [Hl|Hl]; cbn [negb orb]; [split; [discriminate|lia]|].
    rewrite bitmap_within_spec by assumption. tauto.
Qed.

(** ** Nesting of ranges *)

Lemma land_sub_and p r f v w b : p .& f = f -> w .& f = r .& f -> b .& p = v .& p -> w = v -> b .& f = r .& f.
Proof.
  intros Hp Hw Hb ->. apply Z.bits_inj'. intros j Hj. rewrite !Z.land_spec.
  assert (forall x y, x = y -> Z.testbit x j = Z.testbit y j) as Hc by congruence.
  apply Hc in Hp, Hw, Hb. rewrite !Z.land_spec in *. now destruct (Z.testbit f j), (Z.testbit p j), (Z.testbit b j), (Z.testbit v j), (Z.testbit r j).
Qed.

Lemma mask_within_sound pvalue pmask rvalue rmask bits : length pvalue = length pmask -> length rvalue = length rmask ->
  mask_within pvalue pmask rvalue rmask = true -> bitmap_within bits pvalue pmask = true -> bitmap_within bits rvalue rmask = true.
Proof.
  revert pvalue pmask rvalue bits. induction rmask as [|f rmask IH]; intros pvalue pmask [|r rvalue] bits Hp Hr; try discriminate; [reflexivity|].
  injection Hr as Hr. cbn [mask_within bitmap_within]. destruct (Z.eqb_spec f 0) as [Ef|Ef].
  - subst f. intros Hm Hb. destruct bits as [|b bits].
    + apply (IH (tail pvalue) (tail pmask)); try assumption; [destruct pvalue, pmask; cbn in *; congruence|].
      destruct pmask as [|p pmask], pvalue as [|v pvalue]; cbn in *; try assumption; try discriminate; try reflexivity. now destruct (_ =? 0) in Hb.
    + rewrite !Z.land_0_r, Z.eqb_refl. apply (IH (tail pvalue) (tail pmask)); try assumption; [destruct pvalue, pmask; cbn in *; congruence|].
      destruct pmask as [|p pmask], pvalue as [|v pvalue]; cbn [tail bitmap_within] in *; try reflexivity; try discriminate.
      destruct (_ =? _) in Hb; [assumption|discriminate].
  - destruct pmask as [|p pmask], pvalue as [|v pvalue]; try discriminate. injection Hp as Hp.
    destruct (Z.eqb_spec (p .& f) f) as [E1|E1]; [|discriminate]. destruct (Z.eqb_spec (v .& f) (r .& f)) as [E2|E2]; [|discriminate]. cbn [negb].
    intros Hm. cbn [bitmap_within]. destruct bits as [|b bits].
    + destruct (Z.eqb_spec p 0) as [E|E]; [|discriminate]. subst p. rewrite Z.land_0_l in E1. congruence.
    + destruct (Z.eqb_spec (b .& p) (v .& p)) as [E|E]; [|discriminate]. intros Hb.
      rewrite (land_sub_and p r f v v b) by (assumption || reflexivity). rewrite Z.eqb_refl. now apply (IH pvalue pmask).
Qed.

(** No bitmap of a permission is longer than a range's mask. *)
Definition fits (s : option ServiceSpecificPermissions) (range : option SspRange) : Prop :=
  match s, range with
  | Some (Ssp_bitmapSsp bits), Some (SspRange_bitmapSspRange _ mask) => (length bits <= length mask)%nat
  | _, _ => True
  end.

Lemma range_within_sound sub issuer s : fits s issuer ->
  range_within sub issuer = true -> ssp_within s sub = true -> ssp_within s issuer = true.
Proof.
  intros Hf. destruct issuer as [[issuers| |rvalue rmask|]|]; try reflexivity;
    (destruct sub as [[subs| |pvalue pmask|]|]; try discriminate; cbn [range_within]).
  - rewrite forallb_elem. cbn [ssp_within]. rewrite !existsb_elem. intros H (x & Hx & E). specialize (H x Hx).
    apply existsb_elem in H as (y & Hy & E'). apply bool_decide_eq_true in E'. subst. eauto.
  - cbn [ssp_within]. destruct s as [[o|bits|]|]; try discriminate. cbn [fits] in Hf.
    destruct (Nat.eqb_spec (length rvalue) (length rmask)) as [E1|E1]; cbn [negb orb]; [|discriminate].
    destruct (Nat.eqb_spec (length pvalue) (length pmask)) as [E2|E2]; cbn [negb orb]; [|discriminate].
    rewrite (proj2 (Nat.ltb_ge (length rmask) (length bits))) by assumption.
    intros Hm. destruct (length pmask <? length bits)%nat; [discriminate|]. now apply mask_within_sound.
Qed.

(** * What groups grant *)

Section Grants.
Context {T : Target}.

(** The chain below a certificate may have [depth] links. *)
Definition window (group : PsidGroupPermissions) (depth : Z) : Prop :=
  1 <= default 1 (minChainLength group) <= depth /\
  (chainLengthRange group < 0 \/ depth <= default 1 (minChainLength group) + chainLengthRange group).

(** A group covers a PSID by a range, or by [all] when no group of the
    certificate names the PSID. *)
Definition covers_psid (groups : list PsidGroupPermissions) (group : PsidGroupPermissions) (p : Z) (s : option ServiceSpecificPermissions) : Prop :=
  subjectPermissions group = Subject_all /\ listed_explicitly groups p = false \/
  exists range, find_range group p = Some range /\ allows (sspRange range) s.

Definition grants (groups : list PsidGroupPermissions) (p : Z) (s : option ServiceSpecificPermissions) (depth : Z) : Prop :=
  exists group, group ∈ groups /\ ee_type_app group = true /\ window group depth /\ covers_psid groups group p s.

Definition group_ok (group : PsidGroupPermissions) : Prop :=
  is_long (default 1 (minChainLength group)) /\ is_long (chainLengthRange group) /\
  forall ranges, subjectPermissions group = Subject_explicit ranges -> Forall (fun r => range_ok (sspRange r)) ranges.

Lemma chain_length_permits_spec group depth : group_ok group -> 0 <= depth ->
  (chain_length_permits group depth = true <-> window group depth).
Proof.
  intros (Hm & Hr & _) Hd. unfold chain_length_permits, window. set (m := default 1 (minChainLength group)) in *. set (r := chainLengthRange group) in *.
  destruct (Z.ltb_spec m 1) as [H1|H1]; cbn [orb]; [split; [discriminate|lia]|].
  assert (uwrap word_bits m = m) as -> by (apply uwrap_small; unfold is_long, LONG_MIN, LONG_MAX in Hm; destruct word_bits_cases as [E|E]; rewrite E in *; lia).
  destruct (Z.ltb_spec depth m) as [H2|H2]; [split; [discriminate|lia]|].
  destruct (Z.ltb_spec r 0) as [H3|H3]; cbn [orb]; [split; [lia|reflexivity]|].
  assert (uwrap word_bits (swrap word_bits (m + r)) = m + r) as ->.
  { unfold is_long, LONG_MIN, LONG_MAX in Hm, Hr. unfold uwrap, swrap. pose proof word_bits_cases as [E|E]; rewrite E in *.
    - rewrite Zminus_mod, Zmod_mod, <- Zminus_mod. rewrite Z.add_simpl_r. apply Z.mod_small. lia.
    - rewrite Zminus_mod, Zmod_mod, <- Zminus_mod. rewrite Z.add_simpl_r. apply Z.mod_small. lia. }
  rewrite Z.leb_le. lia.
Qed.

Lemma find_range_ok group p r : group_ok group -> find_range group p = Some r -> range_ok (sspRange r).
Proof.
  intros (_ & _ & H) E. unfold find_range in E. destruct (subjectPermissions group) as [ranges| |] eqn:Es; try discriminate.
  apply find_some in E as [Hin _]. specialize (H _ eq_refl). apply (proj1 (Forall_forall _ _) H r). now apply list_elem_of_In.
Qed.

Lemma covers_spec groups entry depth : Forall group_ok groups -> ssp_ok (ssp entry) -> 0 <= depth ->
  (covers groups entry depth = true <-> grants groups (psid entry) (ssp entry) depth).
Proof.
  intros Hg Hs Hd. unfold covers, grants. rewrite existsb_elem. rewrite Forall_forall in Hg.
  apply exist_proper. intros group. split.
  - intros (Hin & E). split; [assumption|]. destruct (ee_type_app group); [|discriminate]. cbn [negb orb] in E.
    destruct (chain_length_permits group depth) eqn:Ec; [|discriminate]. cbn [negb orb] in E. split; [reflexivity|].
    split; [apply chain_length_permits_spec; auto|]. unfold covers_psid.
    destruct (subjectPermissions group) eqn:Es; try rewrite Es in E.
    + right. destruct (find_range group (psid entry)) as [r|] eqn:Er; [|discriminate]. exists r. split; [reflexivity|].
      apply ssp_within_spec; eauto using find_range_ok.
    + left. split; [reflexivity|]. destruct (listed_explicitly groups (psid entry)); [discriminate|reflexivity].
    + unfold find_range in E. rewrite Es in E. discriminate.
  - intros (Hin & -> & Hw & Hc). split; [assumption|]. rewrite (proj2 (chain_length_permits_spec group depth (Hg _ Hin) Hd)) by assumption. cbn [negb orb].
    destruct Hc as [(-> & El)|(r & Er & Ha)]; [now rewrite El|].
    destruct (subjectPermissions group) eqn:Es; try (unfold find_range in Er; rewrite Es in Er; discriminate).
    rewrite Er. apply ssp_within_spec; eauto using find_range_ok.
Qed.

Lemma ancestors_cover_spec app chain depth : 0 <= depth ->
  Forall (fun c => Forall group_ok (default [] (certIssuePermissions c))) chain -> Forall (fun e => ssp_ok (ssp e)) app ->
  (ancestors_cover app chain depth = true <->
   forall i c, chain !! i = Some c -> exists groups, certIssuePermissions c = Some groups /\
     forall e, e ∈ app -> grants groups (psid e) (ssp e) (depth + Z.of_nat i)).
Proof.
  intros Hd Hok Happ. revert depth Hd. induction Hok as [|c chain Hc Hok IH]; intros depth Hd; cbn [ancestors_cover].
  { split; [|reflexivity]. intros _ i c. now rewrite lookup_nil. }
  rewrite Forall_forall in Happ. destruct (certIssuePermissions c) as [groups|] eqn:Ec; cbn [default from_option id] in Hc.
  - rewrite andb_true_iff, IH by lia. rewrite forallb_elem. split.
    + intros [H1 H2] [|i] c' E; cbn in E.
      * injection E as <-. exists groups. split; [assumption|]. intros e He. rewrite Z.add_0_r. apply covers_spec; auto.
      * destruct (H2 i c' E) as (gs & Eg & H). exists gs. split; [assumption|]. intros e He. replace (depth + Z.of_nat (S i)) with (depth + 1 + Z.of_nat i) by lia. auto.
    + intros H. split.
      * intros e He. destruct (H 0%nat c eq_refl) as (gs & Eg & Hgs). rewrite Ec in Eg. injection Eg as <-. specialize (Hgs e He). rewrite Z.add_0_r in Hgs.
        apply covers_spec; auto.
      * intros i c' E. destruct (H (S i) c' E) as (gs & Eg & Hgs). exists gs. split; [assumption|]. intros e He.
        replace (depth + 1 + Z.of_nat i) with (depth + Z.of_nat (S i)) by lia. auto.
  - split; [discriminate|]. intros H. destruct (H 0%nat c eq_refl) as (gs & Eg & _). congruence.
Qed.
End Grants.

Section Chains.
Context {T : Target}.

(** What a decoder guarantees of the integers and octets of a certificate. *)
Definition permissions_ok (c : IssuePermissions) : Prop :=
  Forall (fun e => ssp_ok (ssp e)) (default [] (appPermissions c)) /\
  Forall group_ok (default [] (certIssuePermissions c)).

(** C17.  Permission consistency of a chain: chain_consistent() accepts exactly
    the chains in which every certificate above the end entity grants every
    application permission of it, by a group whose window of chain lengths
    reaches down to the end entity, whose range the permission satisfies bit
    by bit, or which covers all PSIDs the certificate does not name; and in
    which the authorities below the anchor nest. *)
Theorem chain_consistent_grants ee ancestors : Forall permissions_ok (ee :: ancestors) ->
  (chain_consistent (ee :: ancestors) = true <->
   exists app, appPermissions ee = Some app /\
     (forall i c, ancestors !! i = Some c -> exists groups, certIssuePermissions c = Some groups /\
        forall e, e ∈ app -> grants groups (psid e) (ssp e) (1 + Z.of_nat i)) /\
     subordinates_nest ancestors = true).
Proof.
  intros Hok. inversion Hok as [|? ? [Happ _] Hanc]; subst. cbn [chain_consistent].
  destruct (appPermissions ee) as [app|]; [|split; [discriminate|intros (? & ? & _); discriminate]]. cbn [default from_option id] in Happ.
  rewrite andb_true_iff, ancestors_cover_spec; [|lia| |assumption].
  - split; [intros [H1 H2]; eauto|]. intros (app' & [= <-] & H1 & H2). auto.
  - eapply Forall_impl; [exact Hanc|]. now intros c [_ H].
Qed.

(** An empty chain, or one whose end has no application permissions, is not
    consistent, and no authority without certIssuePermissions is passed. *)
Theorem chain_consistent_refuses : chain_consistent [] = false /\
  (forall ee ancestors, appPermissions ee = None -> chain_consistent (ee :: ancestors) = false) /\
  (forall ee l c l', certIssuePermissions c = None -> chain_consistent (ee :: l ++ c :: l') = false).
Proof.
  split; [reflexivity|]. split; [now intros ee ancestors H; cbn; rewrite H|].
  intros ee l c l' Hc. cbn [chain_consistent]. destruct (appPermissions ee) as [ps|]; [|reflexivity]. apply andb_false_iff. left.
  generalize 1. induction l as [|x l IH]; intros d; cbn [app ancestors_cover]; [now rewrite Hc|].
  destruct (certIssuePermissions x); [|reflexivity]. rewrite IH. apply andb_false_r.
Qed.

(** Delegation: when the groups of an authority nest in those of its issuer,
    the issuer covers whatever the authority covers, for permissions no
    longer than the issuer's masks, if the authority names the PSIDs that the
    issuer names. *)
Theorem nests_sound sub issuer p s : nests sub issuer = true -> Forall group_ok sub -> Forall group_ok issuer -> ssp_ok s ->
  (forall g r, g ∈ issuer -> find_range g p = Some r -> fits s (sspRange r)) ->
  (listed_explicitly issuer p = true -> listed_explicitly sub p = true) ->
  (exists g, g ∈ sub /\ covers_psid sub g p s) -> exists g, g ∈ issuer /\ covers_psid issuer g p s.
Proof.
  intros Hn Hsub Hiss Hs Hfit Hlist (g & Hg & Hc). unfold nests in Hn. rewrite forallb_elem in Hn. specialize (Hn g Hg). cbn beta in Hn.
  rewrite Forall_forall in Hsub, Hiss. destruct Hc as [(Hall & Hno)|(r & Er & Ha)].
  - rewrite Hall in Hn. apply existsb_elem in Hn as (g' & Hg' & E). exists g'. split; [assumption|]. left.
    unfold is_all in E. destruct (subjectPermissions g'); try discriminate. split; [reflexivity|].
    destruct (listed_explicitly issuer p); [|reflexivity]. rewrite Hlist in Hno by reflexivity. discriminate.
  - pose proof (find_range_ok g p r (Hsub g Hg) Er) as Hrok. unfold find_range in Er. destruct (subjectPermissions g) as [ranges| |]; try discriminate.
    apply find_some in Er as [Hin Ep]. apply Z.eqb_eq in Ep. rewrite forallb_forall in Hn. specialize (Hn r Hin). unfold range_nests in Hn. rewrite Ep in Hn.
    apply existsb_elem in Hn as (g' & Hg' & E). exists g'. split; [assumption|].
    destruct (subjectPermissions g') eqn:Es; [|left; split; [assumption|now apply negb_true_iff]|unfold find_range in E; rewrite Es in E; discriminate].
    right. destruct (find_range g' p) as [r'|] eqn:Er'; [|discriminate]. exists r'. split; [reflexivity|].
    apply ssp_within_spec; [eauto using find_range_ok|assumption|]. apply (range_within_sound (sspRange r)); eauto.
    now apply ssp_within_spec.
Qed.
End Chains.

(** ** Examples *)

Section Examples.
#[local] Existing Instance LP64.

(** Cooperative awareness (PSID 36) with the first octet of the permissions
    fixed to the version 1 and the upper half of the second free. *)
Definition cam_groups : list PsidGroupPermissions :=
  [mk_Group (Subject_explicit [mk_PsidSspRange 36 (Some (SspRange_bitmapSspRange [1; 0; 0] [255; 15; 255]))]) (Some 1) 0 (Some [128])].
Definition cam_root_groups : list PsidGroupPermissions :=
  [mk_Group Subject_all (Some 2) 1 None;
   mk_Group (Subject_explicit [mk_PsidSspRange 36 (Some (SspRange_bitmapSspRange [1; 0; 0] [255; 0; 255]))]) (Some 2) 0 None].
Definition cam_ticket : IssuePermissions := mk_IssuePermissions (Some [mk_PsidSsp 36 (Some (Ssp_bitmapSsp [1; 240; 0]))]) None.
Definition cam_chain : list IssuePermissions :=
  [cam_ticket; mk_IssuePermissions None (Some cam_groups); mk_IssuePermissions None (Some cam_root_groups)].

Lemma cam_chain_ok : Forall permissions_ok cam_chain.
Proof.
  assert (forall b, 0 <= b < 256 -> octet b) as Ho by auto.
  repeat constructor; cbn; try discriminate; try (intros ranges [= <-]; repeat constructor); lia.
Qed.

Lemma chain_consistent_grants_witness : chain_consistent cam_chain = true /\
  (exists app, appPermissions cam_ticket = Some app /\
     (forall i c, [mk_IssuePermissions None (Some cam_groups); mk_IssuePermissions None (Some cam_root_groups)] !! i = Some c ->
        exists groups, certIssuePermissions c = Some groups /\ forall e, e ∈ app -> grants groups (psid e) (ssp e) (1 + Z.of_nat i)) /\
     subordinates_nest [mk_IssuePermissions None (Some cam_groups); mk_IssuePermissions None (Some cam_root_groups)] = true).
Proof.
  split; [vm_compute; reflexivity|]. apply (chain_consistent_grants cam_ticket); [exact cam_chain_ok|vm_compute; reflexivity].
Defined.

(** A ticket that sets a fixed bit, or that sits too deep, is refused. *)
Example cam_chain_bit : chain_consistent (mk_IssuePermissions (Some [mk_PsidSsp 36 (Some (Ssp_bitmapSsp [1; 1; 0]))]) None :: tail cam_chain) = false.
Proof. reflexivity. Qed.
Example cam_chain_deep : chain_consistent (cam_ticket :: mk_IssuePermissions None (Some cam_root_groups) :: tail cam_chain) = false.
Proof. reflexivity. Qed.

Lemma nests_sound_witness : nests cam_groups cam_root_groups = true /\
  exists g, g ∈ cam_root_groups /\ covers_psid cam_root_groups g 36 (Some (Ssp_bitmapSsp [1; 240; 0])).
Proof.
  split; [reflexivity|]. pose proof cam_chain_ok as H. inversion H as [|? ? _ H1]; subst. inversion H1 as [|? ? [_ Hs] H2]; subst. inversion H2 as [|? ? [_ Hi] _]; subst.
  apply (nests_sound cam_groups); try assumption; try reflexivity.
  - repeat constructor; lia.
  - intros g r Hg. unfold cam_root_groups in Hg. rewrite !elem_of_cons in Hg. destruct Hg as [->|[->|Hg]]; [discriminate| |now apply elem_of_nil in Hg].
    cbn. intros [= <-]. cbn. lia.
  - eexists. split; [now left|]. right. eexists. split; [reflexivity|]. apply ssp_within_spec; [repeat constructor; lia|repeat constructor; lia|reflexivity].
Defined.

(** The condition on the named PSIDs is needed: an authority with [all] nests
    in an issuer that has [all] and a restricted range, and covers what the
    issuer does not. *)
Theorem nests_all_unrestricted : exists sub issuer s, nests sub issuer = true /\ ssp_ok s /\
  (exists g, g ∈ sub /\ covers_psid sub g 36 s) /\ ~ (exists g, g ∈ issuer /\ covers_psid issuer g 36 s).
Proof.
  exists [mk_Group Subject_all None 0 None], cam_root_groups, (Some (Ssp_bitmapSsp [2; 0; 0])). split; [reflexivity|]. split; [repeat constructor; lia|]. split.
  - eexists. split; [now left|]. left. split; reflexivity.
  - intros (g & Hg & Hc). unfold cam_root_groups in Hg. rewrite !elem_of_cons in Hg. destruct Hg as [->|[->|Hg]]; [| |now apply elem_of_nil in Hg].
    + destruct Hc as [(_ & E)|(r & E & _)]; discriminate.
    + destruct Hc as [(E & _)|(r & E & Ha)]; [discriminate|]. injection E as <-.
      apply ssp_within_spec in Ha; [discriminate|repeat constructor; lia|repeat constructor; lia].
Qed.
End Examples.
