(* ===== verification/Regions.v ===== *)
(** Geographic regions of certificates: the region part of the namespace
    [consistency] of ports/esp_idf/src/security.cpp, and is_within() of
    vanetza/security/v3/certificate.cpp, is_inside() of geometry.cpp and
    location_checker.cpp.

    Positions are in degrees.  The great-circle distance (distance.cpp), the
    polygons of Boost.Geometry and the country database are the interface
    [RegionGeometry]. *)

From S2P Require Import Prelude Double.
From stdpp Require Import list.

Open Scope Z_scope.

(** * Data *)

Record TwoDLocation := mk_TwoDLocation { loc_latitude : Z; loc_longitude : Z }.
Record CircularRegion := mk_CircularRegion { center : TwoDLocation; radius : Z }.
Record RectangularRegion := mk_RectangularRegion { northWest : TwoDLocation; southEast : TwoDLocation }.

Inductive IdentifiedRegion :=
| countryOnly (country : Z)
| countryAndRegions (country : Z) (regions : list Z)
| countryAndSubregions (country : Z) (regionAndSubregions : list (Z * list Z))
| Identified_other.

Inductive GeographicRegion :=
| Region_NOTHING
| circularRegion (r : CircularRegion)
| rectangularRegion (rs : list RectangularRegion)
| polygonalRegion (points : list TwoDLocation)
| identifiedRegion (entries : list IdentifiedRegion)
| Region_other.

#[export] Instance TwoDLocation_eq_dec : EqDecision TwoDLocation.
Proof. solve_decision. Defined.
#[export] Instance IdentifiedRegion_eq_dec : EqDecision IdentifiedRegion.
Proof. solve_decision. Defined.

(** The latitude and longitude of a PositionFix. *)
Record Position := mk_Position { latitude : double; longitude : double }.

Class RegionGeometry := {
  distance : Position -> TwoDLocation -> double;
  within_polygon : Position -> list TwoDLocation -> bool;
  country_db : option (Z -> Position -> bool)
}.

(** * Geometry *)

Definition NinetyDegreeInt_min : Z := -900000000.
Definition NinetyDegreeInt_max : Z := 900000000.
Definition OneEightyDegreeInt_min : Z := -1799999999.
Definition OneEightyDegreeInt_max : Z := 1800000000.

Definition is_valid (location : TwoDLocation) : bool :=
  (NinetyDegreeInt_min <=? loc_latitude location) && (loc_latitude location <=? NinetyDegreeInt_max) &&
  (OneEightyDegreeInt_min <=? loc_longitude location) && (loc_longitude location <=? OneEightyDegreeInt_max).

Definition d_isfinite (x : double) : bool := match x with SpecFloat.S754_zero _ | SpecFloat.S754_finite _ _ _ => true | _ => false end.

Definition convert_latitude (v : Z) : double :=
  if (NinetyDegreeInt_min <=? v) && (v <=? NinetyDegreeInt_max)
  then d_div (d_mul (d_of_Z v) (d_of_Z 90)) (d_of_Z NinetyDegreeInt_max) else SpecFloat.S754_nan.
Definition convert_longitude (v : Z) : double :=
  if (OneEightyDegreeInt_min <=? v) && (v <=? OneEightyDegreeInt_max)
  then d_div (d_mul (d_of_Z v) (d_of_Z 180)) (d_of_Z OneEightyDegreeInt_max) else SpecFloat.S754_nan.

Section Geometry.
Context {G : RegionGeometry}.

Definition is_inside_circular (location : Position) (region : CircularRegion) : bool :=
  if is_valid (center region) && (0 <=? radius region)
  then d_leb (distance location (center region)) (d_of_Z (radius region)) else false.

Definition is_inside_rectangular (location : Position) (region : RectangularRegion) : bool :=
  let nw := northWest region in
  let se := southEast region in
  let location_valid := d_isfinite (latitude location) && d_isfinite (longitude location) in
  let region_valid := is_valid nw && is_valid se in
  if location_valid && region_valid then
    if loc_latitude nw <=? loc_latitude se then false
    else if loc_longitude nw =? loc_longitude se then false
    else
      let loc_lat := d_trunc (d_mul (latitude location) (d_of_Z 10000000)) in
      let loc_lon := d_trunc (d_mul (longitude location) (d_of_Z 10000000)) in
      if (loc_latitude se <=? loc_lat) && (loc_lat <=? loc_latitude nw) then
        if loc_longitude nw <? loc_longitude se
        then (loc_longitude nw <=? loc_lon) && (loc_lon <=? loc_longitude se)
        else (loc_longitude nw <=? loc_lon) || (loc_lon <=? loc_longitude se)
      else false
  else false.

Definition is_inside_rectangles (location : Position) (regions : list RectangularRegion) : bool :=
  existsb (is_inside_rectangular location) regions.

Definition is_inside_polygonal (location : Position) (region : list TwoDLocation) : bool :=
  if d_isfinite (latitude location) && d_isfinite (longitude location) then within_polygon location region else false.

(** check_identified_region: the loop with its variable [accepted]. *)
Fixpoint check_entries (permissive : bool) (db : Z -> Position -> bool) (location : Position) (accepted : bool) (seq : list IdentifiedRegion) : bool :=
  match seq with
  | [] => accepted
  | countryOnly c :: seq' =>
      if db (u16 c) location then true else check_entries permissive db location accepted seq'
  | _ :: seq' => check_entries permissive db location permissive seq'
  end.
Definition check_identified_region (permissive : bool) (location : Position) (seq : list IdentifiedRegion) : bool :=
  match country_db with
  | None => permissive
  | Some db => check_entries permissive db location false seq
  end.

(** DefaultLocationChecker::valid_at_location. *)
Definition location_checker (permissive : bool) (region : option GeographicRegion) (location : Position) : bool :=
  match region with
  | None => true
  | Some (circularRegion r) => is_inside_circular location r
  | Some (rectangularRegion rs) => is_inside_rectangles location rs
  | Some (polygonalRegion ps) => is_inside_polygonal location ps
  | Some (identifiedRegion es) => check_identified_region permissive location es
  | Some _ => false
  end.

(** ** Regions within regions, upstream *)

Definition equal_location (l r : TwoDLocation) : bool := (loc_latitude l =? loc_latitude r) && (loc_longitude l =? loc_longitude r).
Definition equal_rectangle (l r : RectangularRegion) : bool :=
  equal_location (northWest l) (northWest r) && equal_location (southEast l) (southEast r).
Fixpoint equal_elements (l r : list RectangularRegion) : bool :=
  match l, r with x :: l', y :: r' => if equal_rectangle x y then equal_elements l' r' else false | _, _ => true end.
Definition equal_rectangles (l r : list RectangularRegion) : bool :=
  if negb (length l =? length r)%nat then false else equal_elements l r.

Definition within_circular (inner : GeographicRegion) (outer : CircularRegion) : bool :=
  match inner with
  | circularRegion circle =>
      if negb (is_valid (center circle)) || negb (is_valid (center outer)) || (radius circle <? 0) || (radius outer <? 0) then false
      else
        let inner_center := mk_Position (convert_latitude (loc_latitude (center circle))) (convert_longitude (loc_longitude (center circle))) in
        d_leb (d_add (distance inner_center (center outer)) (d_of_Z (radius circle))) (d_of_Z (radius outer))
  | _ => false
  end.
Definition within_rectangles (inner : GeographicRegion) (outer : list RectangularRegion) : bool :=
  match inner with rectangularRegion rs => equal_rectangles rs outer | _ => false end.

Definition is_within (inner outer : GeographicRegion) : bool :=
  match outer with
  | circularRegion c => within_circular inner c
  | rectangularRegion rs => within_rectangles inner rs
  | polygonalRegion _ => false
  | Region_NOTHING => true
  | _ => false
  end.

(** CertificateView::region_is_within. *)
Definition region_is_within (subject issuer : option GeographicRegion) : bool :=
  match issuer with
  | None => true
  | Some outer => match subject with None => false | Some inner => is_within inner outer end
  end.

(** * Identified regions *)

(** contains_all of 8-bit and of 16-bit numbers. *)
Definition contains_all (outer inner : list Z) : bool := forallb (fun i => existsb (Z.eqb i) outer) inner.

Definition region_in_entry (country region : Z) (subregions : option (list Z)) (entry : IdentifiedRegion) : bool :=
  match entry with
  | countryOnly c => c =? country
  | countryAndRegions c regions => if negb (c =? country) then false else existsb (fun r => r =? region) regions
  | countryAndSubregions c entries =>
      match subregions with
      | None => false
      | Some subs =>
          if negb (c =? country) then false
          else match find (fun e => e.1 =? region) entries with
               | Some e => contains_all e.2 subs
               | None => false
               end
      end
  | Identified_other => false
  end.

(** The switch of identified_within: one entry of the subject's region within
    one entry of the issuer's. *)
Definition entry_within (entry candidate : IdentifiedRegion) : bool :=
  match entry with
  | countryOnly c => match candidate with countryOnly c' => c' =? c | _ => false end
  | countryAndRegions c regions =>
      (0 <? length regions)%nat && forallb (fun r => region_in_entry c r None candidate) regions
  | countryAndSubregions c entries =>
      (0 <? length entries)%nat && forallb (fun e => region_in_entry c e.1 (Some e.2) candidate) entries
  | Identified_other => false
  end.

Definition identified_within (inner outer : list IdentifiedRegion) : bool :=
  forallb (fun entry => existsb (entry_within entry) outer) inner.

(** consistency::region_within. *)
Definition region_within (permissive_identified_region : bool) (subject issuer : option GeographicRegion) : bool :=
  match issuer with
  | None => true
  | Some outer =>
      match subject with
      | None => true
      | Some inner =>
          match outer with
          | identifiedRegion oes =>
              match inner with
              | identifiedRegion ies => identified_within ies oes
              | circularRegion _ | rectangularRegion _ | polygonalRegion _ => permissive_identified_region
              | _ => false
              end
          | _ => region_is_within subject issuer
          end
      end
  end.

(** The loop over a chain at the end of ChainValidator::valid_for_signing. *)
Fixpoint regions_within (permissive : bool) (chain : list (option GeographicRegion)) : bool :=
  match chain with
  | subject :: (issuer :: _) as chain' => region_within permissive subject issuer && regions_within permissive chain'
  | _ => true
  end.
End Geometry.

(** * Territories *)

(** The subregions [s] of the regions [r] of the countries [c] that an entry
    stands for. *)
Definition territory (e : IdentifiedRegion) (c r s : Z) : Prop :=
  match e with
  | countryOnly c' => c = c'
  | countryAndRegions c' regions => c = c' /\ r ∈ regions
  | countryAndSubregions c' entries => c = c' /\ exists subs, (r, subs) ∈ entries /\ s ∈ subs
  | Identified_other => False
  end.
Definition territories (es : list IdentifiedRegion) (c r s : Z) : Prop := exists e, e ∈ es /\ territory e c r s.

Lemma contains_all_sound outer inner s : contains_all outer inner = true -> s ∈ inner -> s ∈ outer.
Proof.
  unfold contains_all. rewrite forallb_forall. intros H Hs. apply list_elem_of_In in Hs. specialize (H s Hs).
  apply existsb_exists in H as (x & Hx & E). apply Z.eqb_eq in E. subst. now apply list_elem_of_In.
Qed.

Lemma region_in_entry_sound c r subs entry s : region_in_entry c r subs entry = true ->
  match subs with None => True | Some l => s ∈ l end -> territory entry c r s.
Proof.
  destruct entry as [c'|c' regions|c' entries|]; cbn [region_in_entry territory]; try discriminate.
  - intros E%Z.eqb_eq _. now subst.
  - destruct (Z.eqb_spec c' c) as [->|]; cbn [negb]; [|discriminate]. intros E _. split; [reflexivity|].
    apply existsb_exists in E as (x & Hx & E). apply Z.eqb_eq in E. subst. now apply list_elem_of_In.
  - destruct subs as [l|]; [|discriminate]. destruct (Z.eqb_spec c' c) as [->|]; cbn [negb]; [|discriminate].
    destruct (find _ entries) as [[r' subs]|] eqn:Ef; [|discriminate]. intros E Hs. split; [reflexivity|].
    apply find_some in Ef as [Hin Er]. apply Z.eqb_eq in Er. cbn in Er. subst r'. exists subs.
    split; [now apply list_elem_of_In|]. now apply (contains_all_sound subs l).
Qed.

Lemma entry_within_sound entry candidate c r s : entry_within entry candidate = true -> territory entry c r s -> territory candidate c r s.
Proof.
  destruct entry as [c'|c' regions|c' entries|]; cbn [entry_within].
  - destruct candidate; try discriminate. cbn. intros E%Z.eqb_eq H. congruence.
  - intros [_ E]%andb_true_iff [-> Hr]. rewrite forallb_forall in E. apply list_elem_of_In in Hr.
    apply (region_in_entry_sound _ _ None); [now apply E|exact I].
  - intros [_ E]%andb_true_iff (-> & subs & Hr & Hs). rewrite forallb_forall in E. apply list_elem_of_In in Hr.
    apply (region_in_entry_sound _ _ (Some subs)); [now apply (E _ Hr)|exact Hs].
  - discriminate.
Qed.

Lemma identified_within_territories inner outer : identified_within inner outer = true ->
  forall c r s, territories inner c r s -> territories outer c r s.
Proof.
  unfold identified_within. rewrite forallb_forall. intros H c r s (e & He & Ht). apply list_elem_of_In in He. specialize (H e He).
  apply existsb_exists in H as (x & Hx & E). exists x. split; [now apply list_elem_of_In|]. now apply (entry_within_sound e).
Qed.

(** Identified regions along a chain: when every certificate of a chain
    carries an identified region and the chain passes, the region of the end
    entity lies within the region of every certificate above it. *)
Theorem identified_chain_within {G : RegionGeometry} permissive inner chain outer :
  regions_within permissive (map (fun es => Some (identifiedRegion es)) (inner :: chain)) = true ->
  outer ∈ inner :: chain -> forall c r s, territories inner c r s -> territories outer c r s.
Proof.
  revert inner. induction chain as [|x chain IH]; intros inner H Ho c r s Ht.
  - apply elem_of_cons in Ho as [->|Ho]; [assumption|]. now apply elem_of_nil in Ho.
  - cbn [map regions_within] in H. apply andb_true_iff in H as [H1 H2]. cbn [region_within] in H1.
    apply elem_of_cons in Ho as [->|Ho]; [assumption|].
    apply (IH x); [exact H2|exact Ho|]. now apply (identified_within_territories inner).
Qed.

(** Regions that are left out are not inherited: a root restricted to one
    country, an authority without a region, and a ticket for another country
    pass, although a region left out means the region of the issuer. *)
Theorem region_inheritance_lost {G : RegionGeometry} permissive : exists ticket root,
  regions_within permissive [Some (identifiedRegion ticket); None; Some (identifiedRegion root)] = true /\
  exists c r s, territories ticket c r s /\ ~ territories root c r s.
Proof.
  exists [countryOnly 250], [countryOnly 276]. split; [reflexivity|]. exists 250, 0, 0. split.
  - exists (countryOnly 250). split; [now left|reflexivity].
  - intros (e & He & Ht). apply elem_of_cons in He as [->|He]; [discriminate|]. now apply elem_of_nil in He.
Qed.

(** Without an identified region on either side the upstream geometry decides,
    which lets no region through into a polygon, only an equal list of
    rectangles into rectangles, and only circles into a circle. *)
Theorem region_is_within_upstream {G : RegionGeometry} inner :
  (forall ps, is_within inner (polygonalRegion ps) = false) /\
  (forall rs, is_within inner (rectangularRegion rs) = true -> inner = rectangularRegion rs) /\
  (forall circle, is_within inner (circularRegion circle) = true -> exists c, inner = circularRegion c /\
     d_leb (d_add (distance (mk_Position (convert_latitude (loc_latitude (center c))) (convert_longitude (loc_longitude (center c)))) (center circle))
       (d_of_Z (radius c))) (d_of_Z (radius circle)) = true).
Proof.
  split; [reflexivity|]. split.
  - intros rs. destruct inner as [| |l| | |]; try discriminate. cbn. unfold equal_rectangles.
    destruct (Nat.eqb_spec (length l) (length rs)) as [El|El]; [|discriminate]. cbn [negb]. intros E. f_equal. revert rs El E.
    induction l as [|x l IH]; intros [|y rs] El E; try discriminate; [reflexivity|]. cbn [equal_elements] in E.
    destruct (equal_rectangle x y) eqn:Ex; [|discriminate]. f_equal; [|apply IH; [now injection El|exact E]].
    destruct x as [[a b] [c d]], y as [[a' b'] [c' d']]. unfold equal_rectangle, equal_location in Ex. cbn in Ex.
    apply andb_true_iff in Ex as [[E1 E2]%andb_true_iff [E3 E4]%andb_true_iff]. apply Z.eqb_eq in E1, E2, E3, E4. congruence.
  - intros circle. destruct inner as [|c| | | |]; try discriminate. cbn.
    destruct (_ || _); [discriminate|]. intros E. exists c. split; [reflexivity|exact E].
Qed.

(** ** Examples *)

#[local] Instance example_geometry : RegionGeometry :=
  {| distance := fun _ _ => d_of_Z 0; within_polygon := fun _ _ => false; country_db := None |}.

Lemma identified_chain_within_witness :
  regions_within false (map (fun es => Some (identifiedRegion es)) [[countryAndSubregions 276 [(1, [7])]]; [countryAndRegions 276 [1; 2]]; [countryOnly 250; countryOnly 276]]) = true /\
  territories [countryOnly 250; countryOnly 276] 276 1 7.
Proof.
  split; [reflexivity|].
  apply (identified_chain_within false [countryAndSubregions 276 [(1, [7])]] [[countryAndRegions 276 [1; 2]]; [countryOnly 250; countryOnly 276]]).
  - reflexivity.
  - right. right. now left.
  - eexists. split; [now left|]. split; [reflexivity|]. exists [7]. split; now left.
Defined.

(** A region of another country, or one without its subregions, is refused. *)
Example identified_refused :
  identified_within [countryOnly 250] [countryOnly 276] = false /\
  identified_within [countryAndRegions 276 [1]] [countryAndSubregions 276 [(1, [7])]] = false.
Proof. split; reflexivity. Qed.
