(* ===== verification/Certificate.v ===== *)
(** Certificates and what the stack reads of them:
    vanetza/security/v3/certificate.cpp, hash.cpp, basic_elements.cpp,
    security/key_type.cpp and security/hashed_id.cpp.

    A certificate is the C structure the generated decoder fills, with the
    fields the library looks at and [other] for the rest.  The generated
    codec and the hash functions are the interface [CertificateCodec]; what
    signs and verifies is [Backend].  Points of both curve sizes have one
    type, since the code treats them alike. *)

From S2P Require Import Prelude Runtime Permissions Regions.
From stdpp Require Import list.

Open Scope Z_scope.

(** * Keys and digests *)

Inductive KeyType := KeyType_Unspecified | NistP256 | BrainpoolP256r1 | BrainpoolP384r1.
#[export] Instance KeyType_eq_dec : EqDecision KeyType.
Proof. solve_decision. Defined.

Definition key_length (key_type : KeyType) : nat :=
  match key_type with NistP256 | BrainpoolP256r1 => 32 | BrainpoolP384r1 => 48 | KeyType_Unspecified => 0 end.

Inductive HashAlgorithm := Hash_Unspecified | SHA256 | SHA384.
#[export] Instance HashAlgorithm_eq_dec : EqDecision HashAlgorithm.
Proof. solve_decision. Defined.

Definition specified_hash_algorithm (key_type : KeyType) : HashAlgorithm :=
  match key_type with NistP256 | BrainpoolP256r1 => SHA256 | BrainpoolP384r1 => SHA384 | KeyType_Unspecified => Hash_Unspecified end.

Definition HashedId8 : Type := list Z.
Definition HashedId3 : Type := list Z.

(** The last octets of a digest, and of a HashedId8. *)
Definition create_hashed_id8 (digest : list Z) : HashedId8 := drop (length digest - 8) digest.
Definition truncate (id : HashedId8) : HashedId3 := drop (length id - 3) id.

Inductive KeyCompression := NoCompression | Y0 | Y1.
Record PublicKey := mk_PublicKey { pub_type : KeyType; compression : KeyCompression; pub_x : list Z; pub_y : list Z }.
Record PrivateKey := mk_PrivateKey { priv_type : KeyType; priv_key : list Z }.
Record Signature := mk_Signature { sig_type : KeyType; sig_r : list Z; sig_s : list Z }.

(** * The certificate *)

Inductive EccCurvePoint :=
| Point_NOTHING
| Point_x_only (x : list Z)
| Point_fill
| Point_compressed_y_0 (x : list Z)
| Point_compressed_y_1 (x : list Z)
| Point_uncompressed (x y : list Z).

Inductive PublicVerificationKey :=
| ecdsaNistP256 (p : EccCurvePoint)
| ecdsaBrainpoolP256r1 (p : EccCurvePoint)
| ecdsaBrainpoolP384r1 (p : EccCurvePoint)
| VerificationKey_other.

Inductive VerificationKeyIndicator :=
| verificationKey (k : PublicVerificationKey)
| reconstructionValue (p : EccCurvePoint)
| Indicator_other.

Inductive BasePublicEncryptionKey :=
| eciesNistP256 (p : EccCurvePoint)
| eciesBrainpoolP256r1 (p : EccCurvePoint)
| EncryptionKey_other.
Record PublicEncryptionKey := mk_PublicEncryptionKey { supportedSymmAlg : Z; publicKey : BasePublicEncryptionKey }.

Inductive Asn1Signature :=
| ecdsaNistP256Signature (rSig : EccCurvePoint) (sSig : list Z)
| ecdsaBrainpoolP256r1Signature (rSig : EccCurvePoint) (sSig : list Z)
| ecdsaBrainpoolP384r1Signature (rSig : EccCurvePoint) (sSig : list Z)
| Signature_other.

Inductive IssuerIdentifier :=
| sha256AndDigest (d : HashedId8)
| Issuer_self (algorithm : Z)
| sha384AndDigest (d : HashedId8)
| Issuer_other.

Inductive CertificateId := CertificateId_none | CertificateId_other (id : list Z).

Inductive Duration :=
| Duration_NOTHING
| microseconds (n : Z) | milliseconds (n : Z) | seconds (n : Z) | minutes (n : Z) | hours (n : Z) | sixtyHours (n : Z) | years (n : Z).

Record ToBeSignedCertificate := mk_ToBeSigned {
  id : CertificateId;
  validity_start : Z;
  validity_duration : Duration;
  region : option GeographicRegion;
  assuranceLevel : option (list Z);
  permissions : IssuePermissions;
  encryptionKey : option PublicEncryptionKey;
  verifyKeyIndicator : VerificationKeyIndicator;
  other : list Z }.

Record Certificate := mk_Certificate {
  issuer : IssuerIdentifier;
  toBeSigned : ToBeSignedCertificate;
  signature : option Asn1Signature }.

(** encode_oer() throws when a certificate does not encode; decode() and
    validate() are those of the generated types. *)
Class CertificateCodec := {
  encode_certificate : Certificate -> option (list Z);
  encode_tbs : ToBeSignedCertificate -> option (list Z);
  decode_certificate : list Z -> option Certificate;
  validate : Certificate -> bool;
  calculate_sha256_digest : list Z -> list Z;
  calculate_sha384_digest : list Z -> list Z
}.

(** The cryptographic backend; an exception is no result. *)
Class Backend := {
  calculate_hash : HashAlgorithm -> list Z -> list Z;
  sign_digest : PrivateKey -> list Z -> option Signature;
  verify_digest : PublicKey -> list Z -> Signature -> option bool
}.

(** * Canonical form *)

Definition is_compressed (p : EccCurvePoint) : bool :=
  match p with Point_compressed_y_0 _ | Point_compressed_y_1 _ => true | _ => false end.

Definition is_x_only (p : EccCurvePoint) : bool := match p with Point_x_only _ => true | _ => false end.

Definition is_signature_x_only (sig : Asn1Signature) : bool :=
  match sig with
  | ecdsaNistP256Signature r _ | ecdsaBrainpoolP256r1Signature r _ | ecdsaBrainpoolP384r1Signature r _ => is_x_only r
  | Signature_other => true
  end.

Definition is_canonical (cert : Certificate) : bool :=
  let compressed_point :=
    match verifyKeyIndicator (toBeSigned cert) with
    | verificationKey (ecdsaNistP256 p) | verificationKey (ecdsaBrainpoolP256r1 p) | verificationKey (ecdsaBrainpoolP384r1 p) => is_compressed p
    | verificationKey VerificationKey_other => true
    | reconstructionValue p => is_compressed p
    | Indicator_other => true
    end in
  if negb compressed_point then false
  else match signature cert with
       | Some sig => if negb (is_signature_x_only sig) then false else true
       | None => true
       end.

(** The low bit of the last octet. *)
Definition y_odd (y : list Z) : bool := match last y with Some b => Z.odd b | None => false end.

(** compress() and make_x_only(): the changed point, nothing for [false]. *)
Definition compress (p : EccCurvePoint) : option EccCurvePoint :=
  match p with
  | Point_uncompressed x y => Some (if y_odd y then Point_compressed_y_1 x else Point_compressed_y_0 x)
  | Point_compressed_y_0 _ | Point_compressed_y_1 _ => Some p
  | _ => None
  end.

Definition make_x_only (p : EccCurvePoint) : option EccCurvePoint :=
  match p with
  | Point_uncompressed x _ => Some (Point_x_only x)
  | Point_x_only _ => Some p
  | _ => None
  end.

Definition make_signature_x_only (sig : Asn1Signature) : option Asn1Signature :=
  match sig with
  | ecdsaNistP256Signature r s => (fun r => ecdsaNistP256Signature r s) <$> make_x_only r
  | ecdsaBrainpoolP256r1Signature r s => (fun r => ecdsaBrainpoolP256r1Signature r s) <$> make_x_only r
  | ecdsaBrainpoolP384r1Signature r s => (fun r => ecdsaBrainpoolP384r1Signature r s) <$> make_x_only r
  | Signature_other => None
  end.

(** The three parts of canonicalize(). *)
Definition canonical_indicator (v : VerificationKeyIndicator) : option VerificationKeyIndicator :=
  match v with
  | verificationKey (ecdsaNistP256 p) => (fun p => verificationKey (ecdsaNistP256 p)) <$> compress p
  | verificationKey (ecdsaBrainpoolP256r1 p) => (fun p => verificationKey (ecdsaBrainpoolP256r1 p)) <$> compress p
  | verificationKey (ecdsaBrainpoolP384r1 p) => (fun p => verificationKey (ecdsaBrainpoolP384r1 p)) <$> compress p
  | reconstructionValue p => reconstructionValue <$> compress p
  | _ => Some v
  end.
Definition canonical_encryption_key (k : option PublicEncryptionKey) : option (option PublicEncryptionKey) :=
  match k with
  | None => Some None
  | Some (mk_PublicEncryptionKey alg (eciesNistP256 p)) => (fun p => Some (mk_PublicEncryptionKey alg (eciesNistP256 p))) <$> compress p
  | Some (mk_PublicEncryptionKey alg (eciesBrainpoolP256r1 p)) => (fun p => Some (mk_PublicEncryptionKey alg (eciesBrainpoolP256r1 p))) <$> compress p
  | Some k => Some (Some k)
  end.
Definition canonical_signature (s : option Asn1Signature) : option (option Asn1Signature) :=
  match s with None => Some None | Some sig => Some <$> make_signature_x_only sig end.

Definition canonicalize (cert : Certificate) : option Certificate :=
  let tbs := toBeSigned cert in
  match canonical_indicator (verifyKeyIndicator tbs), canonical_encryption_key (encryptionKey tbs), canonical_signature (signature cert) with
  | Some v, Some k, Some s =>
      Some (mk_Certificate (issuer cert)
        (mk_ToBeSigned (id tbs) (validity_start tbs) (validity_duration tbs) (region tbs) (assuranceLevel tbs) (permissions tbs) k v (other tbs)) s)
  | _, _, _ => None
  end.

(** * Digests and keys *)

Definition digest_hash_algorithm (cert : Certificate) : HashAlgorithm :=
  match verifyKeyIndicator (toBeSigned cert) with
  | verificationKey (ecdsaNistP256 _) | verificationKey (ecdsaBrainpoolP256r1 _) => SHA256
  | verificationKey (ecdsaBrainpoolP384r1 _) => SHA384
  | verificationKey VerificationKey_other => Hash_Unspecified
  | reconstructionValue _ => SHA256
  | Indicator_other => Hash_Unspecified
  end.

Section Digests.
Context {C : CertificateCodec}.

Definition calculate_digest_internal (cert : Certificate) (hash_algo : HashAlgorithm) : option HashedId8 :=
  match encode_certificate cert with
  | None => None
  | Some buffer =>
      match hash_algo with
      | SHA256 => Some (create_hashed_id8 (calculate_sha256_digest buffer))
      | SHA384 => Some (create_hashed_id8 (calculate_sha384_digest buffer))
      | Hash_Unspecified => None
      end
  end.

Definition calculate_digest (cert : Certificate) : option HashedId8 :=
  let hash_algo := digest_hash_algorithm cert in
  match hash_algo with
  | Hash_Unspecified => None
  | _ =>
      if is_canonical cert then calculate_digest_internal cert hash_algo
      else match canonicalize cert with
           | Some c => calculate_digest_internal c hash_algo
           | None => None
           end
  end.

(** calculate_message_hash of hash.cpp. *)
Definition calculate_message_hash {B : Backend} (hash_algo : HashAlgorithm) (payload : list Z) (signing_cert : Certificate) : option (list Z) :=
  let encoded_cert :=
    if is_canonical signing_cert then encode_certificate signing_cert
    else match canonicalize signing_cert with Some c => encode_certificate c | None => Some [] end in
  (fun encoded =>
     calculate_hash hash_algo (calculate_hash hash_algo payload ++ calculate_hash hash_algo encoded)) <$> encoded_cert.
End Digests.

Definition get_verification_key_type (cert : Certificate) : KeyType :=
  match verifyKeyIndicator (toBeSigned cert) with
  | verificationKey (ecdsaNistP256 _) => NistP256
  | verificationKey (ecdsaBrainpoolP256r1 _) => BrainpoolP256r1
  | verificationKey (ecdsaBrainpoolP384r1 _) => BrainpoolP384r1
  | _ => KeyType_Unspecified
  end.

Definition copy_curve_point (type : KeyType) (from : EccCurvePoint) : option PublicKey :=
  match from with
  | Point_compressed_y_0 x => Some (mk_PublicKey type Y0 x [])
  | Point_compressed_y_1 x => Some (mk_PublicKey type Y1 x [])
  | Point_uncompressed x y => Some (mk_PublicKey type NoCompression x y)
  | _ => None
  end.

Definition get_public_key (cert : Certificate) : option PublicKey :=
  match verifyKeyIndicator (toBeSigned cert) with
  | verificationKey (ecdsaNistP256 p) => copy_curve_point NistP256 p
  | verificationKey (ecdsaBrainpoolP256r1 p) => copy_curve_point BrainpoolP256r1 p
  | verificationKey (ecdsaBrainpoolP384r1 p) => copy_curve_point BrainpoolP384r1 p
  | _ => None
  end.

(** aes128Ccm is 0. *)
Definition get_public_encryption_key (cert : Certificate) : option PublicKey :=
  match encryptionKey (toBeSigned cert) with
  | None => None
  | Some k =>
      if negb (supportedSymmAlg k =? 0) then None
      else match publicKey k with
           | eciesNistP256 p => copy_curve_point NistP256 p
           | eciesBrainpoolP256r1 p => copy_curve_point BrainpoolP256r1 p
           | EncryptionKey_other => None
           end
  end.

Definition get_x_coordinate (p : EccCurvePoint) : list Z :=
  match p with
  | Point_compressed_y_0 x | Point_compressed_y_1 x | Point_x_only x | Point_uncompressed x _ => x
  | _ => []
  end.

Definition signature_of_asn1 (asn : Asn1Signature) : option Signature :=
  match asn with
  | ecdsaNistP256Signature r s => Some (mk_Signature NistP256 (get_x_coordinate r) s)
  | ecdsaBrainpoolP256r1Signature r s => Some (mk_Signature BrainpoolP256r1 (get_x_coordinate r) s)
  | ecdsaBrainpoolP384r1Signature r s => Some (mk_Signature BrainpoolP384r1 (get_x_coordinate r) s)
  | Signature_other => None
  end.
Definition get_signature (cert : Certificate) : option Signature :=
  match signature cert with None => None | Some asn => signature_of_asn1 asn end.

(** * Issuers and permissions *)

(** create_hashed_id8 of an OCTET STRING copies at most eight octets. *)
Definition issuer_digest (cert : Certificate) : option HashedId8 :=
  match issuer cert with
  | sha256AndDigest d | sha384AndDigest d => Some (take 8 d)
  | _ => None
  end.

Definition issuer_is_self (cert : Certificate) : bool := match issuer cert with Issuer_self _ => true | _ => false end.
Definition has_region_restriction (cert : Certificate) : bool := match region (toBeSigned cert) with Some _ => true | None => false end.

Definition is_ca_certificate (cert : Certificate) : bool :=
  match certIssuePermissions (permissions (toBeSigned cert)) with Some _ => true | None => false end.
Definition is_at_certificate (cert : Certificate) : bool :=
  match certIssuePermissions (permissions (toBeSigned cert)), appPermissions (permissions (toBeSigned cert)) with
  | None, Some _ => true
  | _, _ => false
  end.

Definition valid_for_application (cert : Certificate) (aid : Z) : bool :=
  match appPermissions (permissions (toBeSigned cert)) with
  | Some ps => existsb (fun p => psid p =? aid) ps
  | None => false
  end.

Definition contains_permission (ranges : list PsidSspRange) (aid : Z) : bool := existsb (fun r => range_psid r =? aid) ranges.

Definition is_allowed_to_issue (cert : Certificate) (aid : Z) : bool :=
  match certIssuePermissions (permissions (toBeSigned cert)) with
  | Some groups =>
      existsb (fun group => match subjectPermissions group with
                            | Subject_all => true
                            | Subject_explicit ranges => contains_permission ranges aid
                            | Subject_other => false
                            end) groups
  | None => false
  end.

Definition assurance_level (cert : Certificate) : option Z :=
  match assuranceLevel (toBeSigned cert) with Some (b :: _) => Some b | _ => None end.

Definition get_aids (cert : Certificate) : list Z :=
  match appPermissions (permissions (toBeSigned cert)) with Some ps => map psid ps | None => [] end.

(** The loop of get_app_permissions() ends at the first entry of the
    application whose permissions have a form it knows. *)
Definition get_app_permissions (cert : Certificate) (aid : Z) : list Z :=
  match appPermissions (permissions (toBeSigned cert)) with
  | None => []
  | Some ps =>
      let fix go ps :=
        match ps with
        | [] => []
        | p :: ps' =>
            match (if psid p =? aid then ssp p else None) with
            | Some (Ssp_bitmapSsp b) => b
            | Some (Ssp_opaque o) => o
            | _ => go ps'
            end
        end in go ps
  end.

(** * Validity *)

(** Clock::time_point counts microseconds. *)
Definition second : Z := 1000000.

(** The length of the validity in valid_at_timepoint(). *)
Definition duration_us (d : Duration) : Z :=
  match d with
  | Duration_NOTHING => 0
  | microseconds n => n
  | milliseconds n => n * 1000
  | seconds n => n * second
  | minutes n => n * 60 * second
  | hours n => n * 3600 * second
  | sixtyHours n => 60 * 3600 * second * n
  | years n => 31556952 * second * n
  end.

Definition valid_at_timepoint (cert : Certificate) (timepoint : Z) : bool :=
  let start := validity_start (toBeSigned cert) * second in
  let fin := start + duration_us (validity_duration (toBeSigned cert)) in
  (start <=? timepoint) && (timepoint <? fin).

(** The products of [int] in get_start_and_end_validity(); an overflow, which
    C leaves undefined, wraps here. *)
Definition duration_seconds (d : Duration) : Z :=
  match d with
  | Duration_NOTHING => 0
  | microseconds n => n ÷ 1000000
  | milliseconds n => n ÷ 1000
  | seconds n => n
  | minutes n => swrap 32 (n * 60)
  | hours n => swrap 32 (n * 60 * 60)
  | sixtyHours n => swrap 32 (n * 60 * 60 * 60)
  | years n => swrap 32 (n * 60 * 60 * 24 * 365)
  end.

Record StartAndEndValidity := mk_StartAndEnd { start_validity : Z; end_validity : Z }.

Definition get_start_and_end_validity (cert : Certificate) : StartAndEndValidity :=
  let start := u32 (validity_start (toBeSigned cert)) in
  let duration := u32 (duration_seconds (validity_duration (toBeSigned cert))) in
  mk_StartAndEnd start (u32 (start + duration)).

(** duration_cast of a time point that is not before the epoch. *)
Definition convert_time32 (tp : Z) : Z := u32 (tp / second).
Definition convert_time64 (tp : Z) : Z := u64 tp.

(** * Canonical certificates *)

Lemma compress_compressed p p' : compress p = Some p' -> is_compressed p' = true /\ compress p' = Some p'.
Proof. destruct p as [| | | | |x y]; cbn; try discriminate; intros [= <-]; try (split; reflexivity). destruct (y_odd y); split; reflexivity. Qed.

Lemma compress_id p : is_compressed p = true -> compress p = Some p.
Proof. now destruct p. Qed.

Lemma make_x_only_x_only p p' : make_x_only p = Some p' -> is_x_only p' = true /\ make_x_only p' = Some p'.
Proof. destruct p; cbn; try discriminate; intros [= <-]; split; reflexivity. Qed.

(** Take apart a successful map of an option. *)
Ltac fmap_inv H :=
  let y := fresh "y" in let E := fresh "E" in
  apply fmap_Some in H as (y & E & ->).

Lemma canonical_indicator_spec v v' : canonical_indicator v = Some v' ->
  canonical_indicator v' = Some v' /\
  match v' with
  | verificationKey (ecdsaNistP256 p) | verificationKey (ecdsaBrainpoolP256r1 p) | verificationKey (ecdsaBrainpoolP384r1 p)
  | reconstructionValue p => is_compressed p = true
  | _ => True
  end.
Proof.
  destruct v as [[p|p|p|]|p|]; cbn; intros H; try (injection H as <-; cbn; auto; fail);
    fmap_inv H; apply compress_compressed in E as [E1 E2]; cbn; rewrite E2; auto.
Qed.

Lemma canonical_encryption_key_idem k k' : canonical_encryption_key k = Some k' -> canonical_encryption_key k' = Some k'.
Proof.
  destruct k as [[alg [p|p|]]|]; cbn; intros H; try (injection H as <-; cbn; auto; fail);
    fmap_inv H; apply compress_compressed in E as [E1 E2]; cbn; rewrite E2; auto.
Qed.

Lemma canonical_signature_spec s s' : canonical_signature s = Some s' ->
  canonical_signature s' = Some s' /\ match s' with Some sig => is_signature_x_only sig = true | None => True end.
Proof.
  destruct s as [[r b|r b|r b|]|]; cbn; intros H; try (injection H as <-; cbn; auto; fail); try discriminate;
    fmap_inv H; fmap_inv E; apply make_x_only_x_only in E0 as [E1 E2]; cbn; rewrite E2; auto.
Qed.

(** canonicalize() yields a canonical certificate, as its assertion says, and
    changes no canonicalized one. *)
Theorem canonicalize_canonical cert c : canonicalize cert = Some c -> is_canonical c = true /\ canonicalize c = Some c.
Proof.
  unfold canonicalize. destruct (canonical_indicator _) as [v|] eqn:Ev; [|discriminate].
  destruct (canonical_encryption_key _) as [k|] eqn:Ek; [|discriminate]. destruct (canonical_signature _) as [s|] eqn:Es; [|discriminate].
  intros [= <-]. cbn. apply canonical_indicator_spec in Ev as [Ev1 Ev2]. apply canonical_encryption_key_idem in Ek. apply canonical_signature_spec in Es as [Es1 Es2].
  rewrite Ev1, Ek, Es1. split; [|reflexivity]. unfold is_canonical. cbn. destruct v as [[p|p|p|]|p|]; try rewrite Ev2; cbn;
    (destruct s as [sig|]; [now rewrite Es2|reflexivity]).
Qed.

Lemma canonical_unchanged cert c : is_canonical cert = true -> canonicalize cert = Some c ->
  canonical_encryption_key (encryptionKey (toBeSigned cert)) = Some (encryptionKey (toBeSigned cert)) -> c = cert.
Proof.
  destruct cert as [i [cid vs vd rg al pm ek v o] s]. unfold canonicalize, is_canonical. cbn. intros Hc H Hk. rewrite Hk in H.
  assert (canonical_indicator v = Some v) as Hv.
  { destruct v as [[p|p|p|]|p|]; cbn in *; try reflexivity; destruct (is_compressed p) eqn:E; try discriminate; now rewrite compress_id. }
  rewrite Hv in H. destruct (canonical_signature s) as [s'|] eqn:Es; [|discriminate]. injection H as <-. do 2 f_equal.
  destruct s as [sig|]; cbn in Es; [|congruence].
  assert (is_signature_x_only sig = true) as Hx by (destruct (negb _) in Hc; [discriminate|]; destruct (is_signature_x_only sig); [reflexivity|discriminate]).
  destruct sig as [r b|r b|r b|]; cbn in Hx, Es; try discriminate; destruct r; try discriminate; cbn in Es; congruence.
Qed.

(** The digest does not depend on how points are written: a certificate and
    its canonical form have the same digest, provided that the point of its
    encryption key is compressed when everything else is canonical. *)
Theorem digest_of_canonical {C : CertificateCodec} cert c : canonicalize cert = Some c ->
  (is_canonical cert = true -> canonical_encryption_key (encryptionKey (toBeSigned cert)) = Some (encryptionKey (toBeSigned cert))) ->
  digest_hash_algorithm c = digest_hash_algorithm cert /\ calculate_digest cert = calculate_digest c.
Proof.
  intros Hc Hk. destruct (canonicalize_canonical _ _ Hc) as [H1 _].
  assert (digest_hash_algorithm c = digest_hash_algorithm cert) as Ha.
  { unfold canonicalize in Hc. destruct (canonical_indicator _) as [v|] eqn:Ev; [|discriminate].
    destruct (canonical_encryption_key _); [|discriminate]. destruct (canonical_signature _); [|discriminate]. injection Hc as <-.
    unfold digest_hash_algorithm. cbn. destruct (verifyKeyIndicator (toBeSigned cert)) as [[p|p|p|]|p|]; cbn in Ev; try (injection Ev as <-; reflexivity); fmap_inv Ev; reflexivity. }
  split; [assumption|]. unfold calculate_digest. rewrite Ha, H1. destruct (digest_hash_algorithm cert) eqn:E; try reflexivity;
    (destruct (is_canonical cert) eqn:Ec; [|now rewrite Hc]); now rewrite (canonical_unchanged cert c Ec Hc (Hk eq_refl)).
Qed.

(** ** Validity *)

(** The validity in seconds that pruning and the chain checks use is that of
    valid_at_timepoint() for all units but years. *)
Theorem validity_agrees cert tp : 0 <= validity_start (toBeSigned cert) ->
  (match validity_duration (toBeSigned cert) with
   | Duration_NOTHING => True
   | microseconds n | milliseconds n | seconds n | minutes n | hours n => 0 <= n < 65536
   | sixtyHours n => 0 <= n <= 9942
   | years _ => False
   end) ->
  validity_start (toBeSigned cert) + duration_us (validity_duration (toBeSigned cert)) / second < 2 ^ 32 -> valid_at_timepoint cert tp = true ->
  start_validity (get_start_and_end_validity cert) <= convert_time32 tp <= end_validity (get_start_and_end_validity cert).
Proof.
  destruct cert as [i [cid vs vd rg al pm ek v o] s]. unfold valid_at_timepoint, get_start_and_end_validity, convert_time32, second. cbn [toBeSigned validity_start validity_duration start_validity end_validity].
  intros Hs Hd Hm [H1%Z.leb_le H2%Z.ltb_lt]%andb_true_iff.
  assert (Hds : u32 (duration_seconds vd) = duration_us vd / 1000000 /\ 0 <= duration_us vd / 1000000).
  { destruct vd as [|n|n|n|n|n|n|n]; cbn in *; [split; [reflexivity|lia]| | | | | | |contradiction];
      rewrite ?Z.quot_div_nonneg by lia; unfold second in *; rewrite ?swrap_small by lia;
      rewrite ?uwrap_small by (split; [apply Z.div_pos|apply Z.div_lt_upper_bound]; lia); rewrite ?uwrap_small by lia.
    - split; [reflexivity|]. pose proof (Z.div_le_upper_bound n 1000000 65536). pose proof (Z.div_pos n 1000000). lia.
    - replace (n * 1000) with (n * 1000) by lia. change 1000000 with (1000 * 1000). rewrite Z.div_mul_cancel_r by lia. split; [reflexivity|].
      pose proof (Z.div_le_upper_bound n 1000 65536). pose proof (Z.div_pos n 1000). lia.
    - rewrite Z.div_mul by lia. lia.
    - rewrite Z.div_mul by lia. lia.
    - rewrite Z.div_mul by lia. lia.
    - replace (60 * 3600 * 1000000 * n) with (60 * 3600 * n * 1000000) by lia. rewrite Z.div_mul by lia. lia. }
  destruct Hds as [Hds Hb]. rewrite Hds. set (d := duration_us vd) in *.
  pose proof (Z.div_mod d 1000000 ltac:(lia)). pose proof (Z.mod_pos_bound d 1000000 ltac:(lia)).
  pose proof (Z.div_mod tp 1000000 ltac:(lia)). pose proof (Z.mod_pos_bound tp 1000000 ltac:(lia)).
  rewrite (uwrap_small 32 vs) by lia. rewrite (uwrap_small 32 (vs + d / 1000000)) by lia. rewrite uwrap_small by lia. lia.
Qed.

(** A year is 365 days there, but 31556952 seconds in valid_at_timepoint():
    such a certificate is still valid for up to 20952 seconds a year after the
    end that pruning uses. *)
Theorem years_end_early cert n tp : validity_duration (toBeSigned cert) = years n -> 0 < n <= 68 ->
  0 <= validity_start (toBeSigned cert) -> validity_start (toBeSigned cert) + 31556952 * n < 2 ^ 32 ->
  (valid_at_timepoint cert tp = true /\ end_validity (get_start_and_end_validity cert) < convert_time32 tp <->
   (validity_start (toBeSigned cert) + 31536000 * n + 1) * second <= tp < (validity_start (toBeSigned cert) + 31556952 * n) * second).
Proof.
  intros Hd Hn Hs Hb. unfold valid_at_timepoint, get_start_and_end_validity, convert_time32, second. rewrite Hd. cbn [duration_us duration_seconds end_validity].
  set (vs := validity_start (toBeSigned cert)) in *. unfold second.
  rewrite (swrap_small 32) by lia. rewrite (uwrap_small 32 vs) by lia. rewrite (uwrap_small 32 (n * 60 * 60 * 24 * 365)) by lia. rewrite (uwrap_small 32 (vs + _)) by lia.
  rewrite andb_true_iff, Z.leb_le, Z.ltb_lt.
  pose proof (Z.div_mod tp 1000000 ltac:(lia)). pose proof (Z.mod_pos_bound tp 1000000 ltac:(lia)).
  split.
  - intros [[H1 H2] H3]. rewrite uwrap_small in H3 by lia. lia.
  - intros [H1 H2]. rewrite uwrap_small by lia. lia.
Qed.

(** ** Examples *)

(** A codec that writes the points, the digest of the issuer and the field
    [other], a hash that pads, and signatures that show the key. *)
Definition point_octets (p : EccCurvePoint) : list Z :=
  match p with
  | Point_NOTHING => [0] | Point_fill => [1] | Point_x_only x => 2 :: x
  | Point_compressed_y_0 x => 3 :: x | Point_compressed_y_1 x => 4 :: x | Point_uncompressed x y => 5 :: x ++ y
  end.
Definition tbs_octets (tbs : ToBeSignedCertificate) : list Z :=
  match verifyKeyIndicator tbs with
  | verificationKey (ecdsaNistP256 p) | verificationKey (ecdsaBrainpoolP256r1 p) | verificationKey (ecdsaBrainpoolP384r1 p) | reconstructionValue p => point_octets p
  | _ => []
  end ++
  match encryptionKey tbs with
  | Some (mk_PublicEncryptionKey _ (eciesNistP256 p)) | Some (mk_PublicEncryptionKey _ (eciesBrainpoolP256r1 p)) => point_octets p
  | _ => []
  end ++ other tbs.
Definition certificate_octets (cert : Certificate) : list Z :=
  match issuer cert with sha256AndDigest d | sha384AndDigest d => d | _ => [] end ++ tbs_octets (toBeSigned cert).

Definition example_codec : CertificateCodec := {|
  encode_certificate := fun cert => Some (certificate_octets cert);
  encode_tbs := fun tbs => Some (tbs_octets tbs);
  decode_certificate := fun _ => None;
  validate := fun _ => true;
  calculate_sha256_digest := fun b => replicate 24 0 ++ replicate (8 - length b) 0 ++ b;
  calculate_sha384_digest := fun b => replicate 40 0 ++ replicate (8 - length b) 0 ++ b |}.

Definition example_backend : Backend := {|
  calculate_hash := fun _ b => [Z.of_nat (length b); list_sum_Z b];
  sign_digest := fun key d => Some (mk_Signature (priv_type key) (priv_key key) d);
  verify_digest := fun pub d sig => Some (bool_decide (pub_x pub = sig_r sig) && bool_decide (d = sig_s sig)) |}.

Section Examples.
#[local] Existing Instance example_codec.

Definition example_key : list Z := replicate 31 0 ++ [7].
Definition example_tbs (p : EccCurvePoint) (k : option PublicEncryptionKey) (d : Duration) (perm : IssuePermissions) (o : list Z) : ToBeSignedCertificate :=
  mk_ToBeSigned CertificateId_none 1000 d None None perm k (verificationKey (ecdsaNistP256 p)) o.
Definition example_ticket (p : EccCurvePoint) (k : option PublicEncryptionKey) (d : Duration) : Certificate :=
  mk_Certificate (sha256AndDigest [1; 2; 3; 4; 5; 6; 7; 8])
    (example_tbs p k d (mk_IssuePermissions (Some [mk_PsidSsp 36 (Some (Ssp_bitmapSsp [1; 0; 0])); mk_PsidSsp 37 None]) None) [9; 8; 7; 6; 5; 4; 3; 2])
    (Some (ecdsaNistP256Signature (Point_x_only [5]) [6])).

Lemma canonicalize_canonical_witness : exists c,
  canonicalize (example_ticket (Point_uncompressed example_key [3]) None (hours 1)) = Some c /\ is_canonical c = true.
Proof.
  eexists. split; [reflexivity|].
  apply (canonicalize_canonical (example_ticket (Point_uncompressed example_key [3]) None (hours 1))). reflexivity.
Defined.

Lemma digest_of_canonical_witness :
  calculate_digest (example_ticket (Point_uncompressed example_key [3]) None (hours 1)) =
  calculate_digest (example_ticket (Point_compressed_y_1 example_key) None (hours 1)).
Proof.
  apply (digest_of_canonical (example_ticket (Point_uncompressed example_key [3]) None (hours 1))); [reflexivity|discriminate].
Defined.

(** That proviso is needed: is_canonical() does not look at the encryption
    key, so that certificates with the same canonical form differ in their
    digest. *)
Theorem encryption_key_not_canonical : exists cert c,
  is_canonical cert = true /\ canonicalize cert = Some c /\ calculate_digest cert <> calculate_digest c.
Proof.
  exists (mk_Certificate (Issuer_self 0)
    (example_tbs (Point_compressed_y_0 example_key) (Some (mk_PublicEncryptionKey 0 (eciesNistP256 (Point_uncompressed [1] [3])))) (hours 1) (mk_IssuePermissions None None) [])
    (Some (ecdsaNistP256Signature (Point_x_only [5]) [6]))). eexists. split_all; [reflexivity|reflexivity|vm_compute; discriminate].
Qed.

Lemma validity_agrees_witness :
  start_validity (get_start_and_end_validity (example_ticket Point_fill None (minutes 10))) <= convert_time32 (1599 * second) <=
  end_validity (get_start_and_end_validity (example_ticket Point_fill None (minutes 10))).
Proof. apply validity_agrees; [cbn; lia|cbn; lia|vm_compute; reflexivity|reflexivity]. Defined.

Lemma years_end_early_witness :
  let cert := example_ticket Point_fill None (years 1) in
  valid_at_timepoint cert ((1000 + 31536001) * second) = true /\ end_validity (get_start_and_end_validity cert) < convert_time32 ((1000 + 31536001) * second).
Proof. cbv zeta. apply (years_end_early (example_ticket Point_fill None (years 1)) 1); [reflexivity|lia|cbn; lia|cbn; lia|]. split; vm_compute; [discriminate|reflexivity]. Defined.
End Examples.
