(* ===== verification/TrustStore.v ===== *)
(** Certificates a station knows: trust_store.cpp, issuer_memory_lookup.cpp,
    revocation_lookup.cpp and certificate_cache.cpp under
    vanetza/security/v3/, and TrustConfiguration of
    ports/esp_idf/src/security.cpp. *)

From S2P Require Import Prelude Permissions Regions Certificate.
From stdpp Require Import list gmap.

Open Scope Z_scope.

(** access.hpp of the port. *)
Inductive Result := accepted | invalid_argument | unsupported | wrong_entry_point | security_unavailable | resource_limit
  | rejected | time_regression | identity_change_pending.
#[export] Instance Result_eq_dec : EqDecision Result.
Proof. solve_decision. Defined.

Section TrustStore.
Context {C : CertificateCodec}.

(** * Stores *)

(** A multimap: the certificates of a digest in the order of insertion. *)
Abbreviation TrustStore := (gmap HashedId8 (list Certificate)).

(** insert() throws for a certificate that is not self-signed or has no
    digest. *)
Definition TrustStore_insert (cert : Certificate) (s : TrustStore) : option TrustStore :=
  if negb (issuer_is_self cert) then None
  else match calculate_digest cert with
       | None => None
       | Some d => Some (<[d := default [] (s !! d) ++ [cert]]> s)
       end.
Definition TrustStore_lookup (d : HashedId8) (s : TrustStore) : list Certificate := default [] (s !! d).

Abbreviation IssuerMemoryLookup := (gmap HashedId8 Certificate).
Definition Issuer_insert (cert : Certificate) (s : IssuerMemoryLookup) : bool * IssuerMemoryLookup :=
  if negb (is_ca_certificate cert) then (false, s)
  else match calculate_digest cert with
       | None => (false, s)
       | Some d => (true, <[d := cert]> s)
       end.
Definition find_issuer (d : HashedId8) (s : IssuerMemoryLookup) : option Certificate := s !! d.

Abbreviation RevocationMemoryLookup := (gmap HashedId8 (gset HashedId8)).
Definition revoke (iss cert : HashedId8) (s : RevocationMemoryLookup) : RevocationMemoryLookup :=
  <[iss := {[cert]} ∪ default ∅ (s !! iss)]> s.
Definition Revocation_clear (iss : HashedId8) (s : RevocationMemoryLookup) : RevocationMemoryLookup := delete iss s.
Definition is_revoked (iss cert : HashedId8) (s : RevocationMemoryLookup) : bool :=
  match s !! iss with None => false | Some l => bool_decide (cert ∈ l) end.

(** * The cache of certificates of other stations *)

(** The iterators of [m_short_digests] are the keys they refer to. *)
Record CertificateCache := mk_Cache { storage : gmap HashedId8 Certificate; short_digests : gmap HashedId3 HashedId8; digests : gset HashedId8 }.

Definition Cache_empty : CertificateCache := mk_Cache ∅ ∅ ∅.
Definition Cache_lookup (d : HashedId8) (c : CertificateCache) : option Certificate := storage c !! d.
Definition Cache_lookup3 (d : HashedId3) (c : CertificateCache) : option Certificate :=
  match short_digests c !! d with Some k => storage c !! k | None => None end.
Definition Cache_store (cert : Certificate) (c : CertificateCache) : CertificateCache :=
  match calculate_digest cert with
  | None => c
  | Some d =>
      match storage c !! d with
      | Some _ => c
      | None =>
          mk_Cache (<[d := cert]> (storage c))
            (match short_digests c !! truncate d with Some _ => short_digests c | None => <[truncate d := d]> (short_digests c) end)
            ({[d]} ∪ digests c)
      end
  end.
Definition announce (d : HashedId8) (c : CertificateCache) : bool * CertificateCache :=
  (bool_decide (d ∉ digests c), mk_Cache (storage c) (short_digests c) ({[d]} ∪ digests c)).
Definition Cache_is_known (d : HashedId8) (c : CertificateCache) : bool := bool_decide (d ∈ digests c).
Definition Cache_size (c : CertificateCache) : nat := size (storage c).

(** * TrustConfiguration *)

Record TrustConfiguration := mk_Trust {
  roots : TrustStore;
  issuers : IssuerMemoryLookup;
  authorities : list Certificate;
  revocations : RevocationMemoryLookup }.

Definition Trust_empty : TrustConfiguration := mk_Trust ∅ ∅ [] ∅.

(** decode() and validate() of the overloads that take COER. *)
Definition from_coer (coer : list Z) : option Certificate :=
  match coer with
  | [] => None
  | _ => match decode_certificate coer with
         | Some c => if validate c then Some c else None
         | None => None
         end
  end.

Definition add_root (cert : Certificate) (t : TrustConfiguration) : Result * TrustConfiguration :=
  if negb (issuer_is_self cert) || negb (is_ca_certificate cert) then (invalid_argument, t)
  else match calculate_digest cert with
       | None => (invalid_argument, t)
       | Some _ =>
           match TrustStore_insert cert (roots t) with
           | None => (invalid_argument, t)
           | Some r =>
               let '(ok, i) := Issuer_insert cert (issuers t) in
               if ok then (accepted, mk_Trust r i (authorities t ++ [cert]) (revocations t))
               else (invalid_argument, mk_Trust r i (authorities t) (revocations t))
           end
       end.
Definition add_root_coer (coer : list Z) (t : TrustConfiguration) : Result * TrustConfiguration :=
  match from_coer coer with None => (invalid_argument, t) | Some cert => add_root cert t end.

Definition add_authority (cert : Certificate) (t : TrustConfiguration) : Result * TrustConfiguration :=
  if issuer_is_self cert || negb (is_ca_certificate cert) then (invalid_argument, t)
  else match calculate_digest cert with
       | None => (invalid_argument, t)
       | Some d =>
           match find_issuer d (issuers t) with
           | Some _ => (rejected, t)
           | None =>
               let '(ok, i) := Issuer_insert cert (issuers t) in
               if ok then (accepted, mk_Trust (roots t) i (authorities t ++ [cert]) (revocations t))
               else (invalid_argument, mk_Trust (roots t) i (authorities t) (revocations t))
           end
       end.
Definition add_authority_coer (coer : list Z) (t : TrustConfiguration) : Result * TrustConfiguration :=
  match from_coer coer with None => (invalid_argument, t) | Some cert => add_authority cert t end.

Definition Trust_revoke (iss cert : HashedId8) (t : TrustConfiguration) : TrustConfiguration :=
  mk_Trust (roots t) (issuers t) (authorities t) (revoke iss cert (revocations t)).
Definition clear_revocations (iss : HashedId8) (t : TrustConfiguration) : TrustConfiguration :=
  mk_Trust (roots t) (issuers t) (authorities t) (Revocation_clear iss (revocations t)).

(** * Invariants *)

(** Anchors are self-signed authorities, authorities are found by their own
    digest, and every certificate added is one of these. *)
Record Trust_ok (t : TrustConfiguration) : Prop := {
  roots_ok : forall d l cert, roots t !! d = Some l -> cert ∈ l ->
    calculate_digest cert = Some d /\ issuer_is_self cert = true /\ is_ca_certificate cert = true;
  issuers_ok : forall d cert, issuers t !! d = Some cert -> calculate_digest cert = Some d /\ is_ca_certificate cert = true;
  anchors_ok : forall d cert, issuers t !! d = Some cert -> issuer_is_self cert = true -> exists l, roots t !! d = Some l /\ l <> [];
  authorities_ok : forall cert, cert ∈ authorities t -> exists d cert', calculate_digest cert = Some d /\ issuers t !! d = Some cert' }.

Lemma insert_lookup_cases {V} (d d' : HashedId8) (v v' : V) (m : gmap HashedId8 V) :
  <[d := v]> m !! d' = Some v' -> d = d' /\ v = v' \/ d <> d' /\ m !! d' = Some v'.
Proof. rewrite lookup_insert_Some. tauto. Qed.

Lemma Trust_ok_empty : Trust_ok Trust_empty.
Proof.
  split; cbn.
  - intros d l cert H. now rewrite lookup_empty in H.
  - intros d cert H. now rewrite lookup_empty in H.
  - intros d cert H. now rewrite lookup_empty in H.
  - intros cert H. now apply elem_of_nil in H.
Qed.

Lemma add_root_ok cert t : Trust_ok t -> Trust_ok (add_root cert t).2.
Proof.
  intros [H1 H2 H3 H4]. unfold add_root, TrustStore_insert, Issuer_insert.
  destruct (issuer_is_self cert) eqn:Es, (is_ca_certificate cert) eqn:Ea; cbn [negb orb]; try (split; assumption).
  destruct (calculate_digest cert) as [d|] eqn:Ed; [|split; assumption]. split; cbn.
  - intros d' l c Hl Hc. apply insert_lookup_cases in Hl as [[<- <-]|[_ Hl]]; [|eauto].
    apply elem_of_app in Hc as [Hc|Hc].
    + destruct (roots t !! d) as [l|] eqn:El; [eauto|]. now apply elem_of_nil in Hc.
    + apply list_elem_of_singleton in Hc. subst. auto.
  - intros d' c Hc. apply insert_lookup_cases in Hc as [[<- <-]|[_ Hc]]; eauto.
  - intros d' c Hc Hs. apply insert_lookup_cases in Hc as [[<- <-]|[Hne Hc]].
    + eexists. rewrite lookup_insert_eq. split; [reflexivity|]. now destruct (default [] _).
    + rewrite lookup_insert_ne by assumption. eauto.
  - intros c Hc. apply elem_of_app in Hc as [Hc|Hc].
    + destruct (H4 c Hc) as (d' & c' & E1 & E2). exists d'. destruct (decide (d = d')) as [->|Hne].
      * exists cert. now rewrite lookup_insert_eq.
      * exists c'. now rewrite lookup_insert_ne.
    + apply list_elem_of_singleton in Hc. subst. exists d, cert. now rewrite lookup_insert_eq.
Qed.

Lemma add_authority_ok cert t : Trust_ok t -> Trust_ok (add_authority cert t).2.
Proof.
  intros [H1 H2 H3 H4]. unfold add_authority, Issuer_insert, find_issuer.
  destruct (issuer_is_self cert) eqn:Es, (is_ca_certificate cert) eqn:Ea; cbn [negb orb]; try (split; assumption).
  destruct (calculate_digest cert) as [d|] eqn:Ed; [|split; assumption].
  destruct (issuers t !! d) as [x|] eqn:Ex; [split; assumption|]. split; cbn; try assumption.
  - intros d' c Hc. apply insert_lookup_cases in Hc as [[<- <-]|[_ Hc]]; eauto.
  - intros d' c Hc Hs. apply insert_lookup_cases in Hc as [[<- <-]|[Hne Hc]]; [congruence|eauto].
  - intros c Hc. apply elem_of_app in Hc as [Hc|Hc].
    + destruct (H4 c Hc) as (d' & c' & E1 & E2). exists d', c'. rewrite lookup_insert_ne by congruence. auto.
    + apply list_elem_of_singleton in Hc. subst. exists d, cert. now rewrite lookup_insert_eq.
Qed.

Lemma Trust_revocations_ok t r : Trust_ok t -> Trust_ok (mk_Trust (roots t) (issuers t) (authorities t) r).
Proof. intros [H1 H2 H3 H4]. split; assumption. Qed.

(** The configuration keeps its invariant, whatever is added; an authority
    that is known already is rejected without a change; and a new root is an
    anchor that can be looked up. *)
Theorem TrustConfiguration_invariant t : Trust_ok t ->
  (forall cert, Trust_ok (add_root cert t).2 /\ Trust_ok (add_authority cert t).2) /\
  (forall coer, Trust_ok (add_root_coer coer t).2 /\ Trust_ok (add_authority_coer coer t).2) /\
  (forall iss cert, Trust_ok (Trust_revoke iss cert t) /\ Trust_ok (clear_revocations iss t)) /\
  (forall cert t', add_authority cert t = (accepted, t') -> add_authority cert t' = (rejected, t')) /\
  (forall cert t', add_root cert t = (accepted, t') -> exists d, calculate_digest cert = Some d /\
     find_issuer d (issuers t') = Some cert /\ cert ∈ TrustStore_lookup d (roots t')).
Proof.
  intros H. split_all; intros.
  - split; [now apply add_root_ok|now apply add_authority_ok].
  - unfold add_root_coer, add_authority_coer. destruct (from_coer coer); [|auto]. split; [now apply add_root_ok|now apply add_authority_ok].
  - split; now apply Trust_revocations_ok.
  - revert H0. unfold add_authority, Issuer_insert, find_issuer. destruct (issuer_is_self cert) eqn:Es, (is_ca_certificate cert) eqn:Ea; cbn [negb orb]; try discriminate.
    destruct (calculate_digest cert) as [d|] eqn:Ed; [|discriminate]. destruct (issuers t !! d) eqn:Ex; [discriminate|].
    intros [= <-]. cbn. now rewrite lookup_insert_eq.
  - revert H0. unfold add_root, TrustStore_insert, Issuer_insert, find_issuer, TrustStore_lookup. destruct (issuer_is_self cert) eqn:Es, (is_ca_certificate cert) eqn:Ea; cbn [negb orb]; try discriminate.
    destruct (calculate_digest cert) as [d|] eqn:Ed; [|discriminate]. intros [= <-]. exists d. cbn. rewrite !lookup_insert_eq. split_all; auto.
    cbn. apply elem_of_app. right. now apply list_elem_of_singleton.
Qed.

(** Revocations are those of the issuer that made them: revoking adds one,
    clearing takes all of one issuer, and nothing else changes. *)
Theorem revocations_exact (s : RevocationMemoryLookup) iss cert iss' cert' :
  (is_revoked iss' cert' (revoke iss cert s) = true <-> iss' = iss /\ cert' = cert \/ is_revoked iss' cert' s = true) /\
  (is_revoked iss' cert' (Revocation_clear iss s) = true <-> iss' <> iss /\ is_revoked iss' cert' s = true).
Proof.
  unfold is_revoked, revoke, Revocation_clear. destruct (decide (iss' = iss)) as [->|Hne].
  - rewrite lookup_insert_eq, lookup_delete_eq. split; [|intuition congruence]. rewrite bool_decide_eq_true.
    destruct (s !! iss) as [l|]; cbn; rewrite elem_of_union, elem_of_singleton; [rewrite bool_decide_eq_true; tauto|].
    split; [|intuition discriminate]. intros [E|E]; [auto|]. now apply not_elem_of_empty in E.
  - rewrite lookup_insert_ne, lookup_delete_ne by congruence. split; [intuition congruence|tauto].
Qed.

(** ** The cache *)

(** Certificates are stored under their digests, the short digests refer to
    stored certificates, and everything stored is known. *)
Record Cache_ok (c : CertificateCache) : Prop := {
  storage_ok : forall d cert, storage c !! d = Some cert -> calculate_digest cert = Some d;
  short_ok : forall s d, short_digests c !! s = Some d -> truncate d = s /\ is_Some (storage c !! d);
  known_ok : forall d, is_Some (storage c !! d) -> d ∈ digests c }.

Theorem CertificateCache_invariant :
  Cache_ok Cache_empty /\
  forall c, Cache_ok c ->
    (forall cert, Cache_ok (Cache_store cert c)) /\ (forall d, Cache_ok (announce d c).2) /\
    (forall cert d, calculate_digest cert = Some d -> Cache_lookup d c = None -> Cache_lookup d (Cache_store cert c) = Some cert) /\
    (forall d, (announce d c).1 = negb (Cache_is_known d c) /\ Cache_is_known d (announce d c).2 = true) /\
    (forall s cert, Cache_lookup3 s c = Some cert -> exists d, calculate_digest cert = Some d /\ truncate d = s).
Proof.
  split.
  { split; cbn; intros; try (rewrite lookup_empty in *; discriminate). destruct H as [? H]. now rewrite lookup_empty in H. }
  intros c [H1 H2 H3]. split_all.
  - intros cert. unfold Cache_store. destruct (calculate_digest cert) as [d|] eqn:Ed; [|split; assumption].
    destruct (storage c !! d) as [x|] eqn:Ex; [split; assumption|]. split; cbn.
    + intros d' c' Hc. apply insert_lookup_cases in Hc as [[<- <-]|[_ Hc]]; eauto.
    + intros s d' Hs. assert (short_digests c !! s = Some d' \/ s = truncate d /\ d' = d) as [Hs'|[-> ->]].
      { destruct (short_digests c !! truncate d); [auto|]. apply insert_lookup_cases in Hs as [[-> ->]|[_ Hs]]; auto. }
      * destruct (H2 s d' Hs') as [E [y Hy]]. split; [assumption|]. destruct (decide (d = d')) as [->|Hne].
        -- rewrite lookup_insert_eq. eauto.
        -- rewrite lookup_insert_ne by assumption. eauto.
      * split; [reflexivity|]. rewrite lookup_insert_eq. eauto.
    + intros d' [y Hy]. apply insert_lookup_cases in Hy as [[<- <-]|[_ Hy]]; [now apply elem_of_union_l, elem_of_singleton|]. apply elem_of_union_r. eauto.
  - intros d. split; cbn; try assumption. intros d' Hd. apply elem_of_union_r. auto.
  - intros cert d Ed Hn. unfold Cache_store, Cache_lookup in *. rewrite Ed, Hn. cbn. apply lookup_insert_eq.
  - intros d. cbn. unfold Cache_is_known. cbn. rewrite <- bool_decide_not. split; [reflexivity|]. now apply bool_decide_eq_true, elem_of_union_l, elem_of_singleton.
  - intros s cert. unfold Cache_lookup3. destruct (short_digests c !! s) as [d|] eqn:Ed; [|discriminate]. intros E. exists d.
    destruct (H2 s d Ed) as [Et _]. auto.
Qed.
End TrustStore.
