(* ===== verification/CertificatePool.v ===== *)
(** The station's own authorization tickets: CertificatePool of
    ports/esp_idf/src/security.cpp. *)

From S2P Require Import Prelude Permissions Regions Certificate TrustStore.
From stdpp Require Import list.

Open Scope Z_scope.

Record Ticket := mk_Ticket { certificate : Certificate; key : PrivateKey; digest : HashedId8 }.
Record CertificatePool := mk_Pool { tickets : list Ticket; current_ : nat }.

Definition Pool_empty : CertificatePool := mk_Pool [] 0.

Section Pool.
Context {C : CertificateCodec} {B : Backend}.

(** * Operations *)

Definition is_authorization_ticket (cert : Certificate) : bool :=
  let digest_issuer := match issuer cert with sha256AndDigest _ | sha384AndDigest _ => true | _ => false end in
  digest_issuer && is_at_certificate cert && match id (toBeSigned cert) with CertificateId_none => true | CertificateId_other _ => false end.

(** The try block of add(): no result when something throws. *)
Definition probe (cert : Certificate) (k : PrivateKey) (public_key : PublicKey) : option bool :=
  match encode_certificate cert with
  | None => None
  | Some encoded =>
      let p := calculate_hash (specified_hash_algorithm (get_verification_key_type cert)) encoded in
      match sign_digest k p with
      | None => None
      | Some sig => verify_digest public_key p sig
      end
  end.

Definition add (cert : Certificate) (k : PrivateKey) (pool : CertificatePool) : Result * CertificatePool :=
  if negb (is_authorization_ticket cert) then (invalid_argument, pool)
  else
    let type := get_verification_key_type cert in
    if bool_decide (type = KeyType_Unspecified) || bool_decide (priv_type k <> type) || negb (length (priv_key k) =? key_length type)%nat
    then (invalid_argument, pool)
    else match calculate_digest cert, get_public_key cert with
         | Some d, Some public_key =>
             if existsb (fun t => bool_decide (digest t = d)) (tickets pool) then (invalid_argument, pool)
             else match probe cert k public_key with
                  | Some true => (accepted, mk_Pool (tickets pool ++ [mk_Ticket cert k d]) (current_ pool))
                  | _ => (invalid_argument, pool)
                  end
         | _, _ => (invalid_argument, pool)
         end.

Definition add_coer (coer : list Z) (k : PrivateKey) (pool : CertificatePool) : Result * CertificatePool :=
  match from_coer coer with None => (invalid_argument, pool) | Some cert => add cert k pool end.

Definition current (pool : CertificatePool) : option Ticket :=
  match tickets pool with [] => None | _ => tickets pool !! current_ pool end.

(** The loop of next_valid() from [step] on, [n] turns. *)
Fixpoint next_from (pool : CertificatePool) (now : Z) (step n : nat) : option Ticket :=
  match n with
  | O => None
  | S n' =>
      match tickets pool !! ((current_ pool + step) mod length (tickets pool))%nat with
      | Some candidate => if valid_at_timepoint (certificate candidate) now then Some candidate else next_from pool now (S step) n'
      | None => None
      end
  end.
Definition next_valid (pool : CertificatePool) (now : Z) : option Ticket :=
  if (length (tickets pool) <? 2)%nat then None else next_from pool now 1 (length (tickets pool) - 1).

Fixpoint find_digest (d : HashedId8) (i : nat) (ts : list Ticket) : option nat :=
  match ts with
  | [] => None
  | t :: ts' => if bool_decide (digest t = d) then Some i else find_digest d (S i) ts'
  end.
Definition select (d : HashedId8) (pool : CertificatePool) : Result * CertificatePool :=
  match find_digest d 0 (tickets pool) with
  | Some i => (accepted, mk_Pool (tickets pool) i)
  | None => (invalid_argument, pool)
  end.

(** The loop of prune() at index [i]. *)
Fixpoint prune_loop (fuel : nat) (time32 : Z) (i : nat) (pool : CertificatePool) (removed : nat) : nat * CertificatePool :=
  match fuel with
  | O => (removed, pool)
  | S fuel' =>
      match tickets pool !! i with
      | None => (removed, pool)
      | Some t =>
          if negb (i =? current_ pool)%nat && (end_validity (get_start_and_end_validity (certificate t)) <? time32) then
            prune_loop fuel' time32 i
              (mk_Pool (delete i (tickets pool)) (if (i <? current_ pool)%nat then Nat.pred (current_ pool) else current_ pool)) (S removed)
          else prune_loop fuel' time32 (S i) pool removed
      end
  end.
Definition prune (now : Z) (pool : CertificatePool) : nat * CertificatePool :=
  prune_loop (length (tickets pool)) (convert_time32 now) 0 pool 0.

(** own_certificate() and own_private_key() throw when the pool is empty. *)
Definition own_certificate (pool : CertificatePool) : option Certificate := certificate <$> current pool.
Definition own_private_key (pool : CertificatePool) : option PrivateKey := key <$> current pool.

(** * The invariant *)

(** A ticket that passed add(): an authorization ticket of its digest, whose
    private key fits and signs what the certificate's key verifies. *)
Definition ticket_ok (t : Ticket) : Prop :=
  is_authorization_ticket (certificate t) = true /\ calculate_digest (certificate t) = Some (digest t) /\
  priv_type (key t) = get_verification_key_type (certificate t) /\ get_verification_key_type (certificate t) <> KeyType_Unspecified /\
  length (priv_key (key t)) = key_length (get_verification_key_type (certificate t)) /\
  exists public_key, get_public_key (certificate t) = Some public_key /\ probe (certificate t) (key t) public_key = Some true.

Record Pool_ok (pool : CertificatePool) : Prop := {
  tickets_ok : Forall ticket_ok (tickets pool);
  digests_distinct : NoDup (map digest (tickets pool));
  current_bound : (current_ pool < length (tickets pool))%nat \/ tickets pool = [] /\ current_ pool = 0%nat }.

Lemma Pool_ok_current pool : Pool_ok pool -> tickets pool <> [] -> exists t, current pool = Some t /\ tickets pool !! current_ pool = Some t.
Proof.
  intros [_ _ Hc] Hne. unfold current. destruct (tickets pool) as [|x l] eqn:E; [contradiction|]. rewrite <- E in *.
  destruct Hc as [Hc|[H _]]; [|congruence]. apply lookup_lt_is_Some in Hc as [t Ht]. eauto.
Qed.

Lemma add_ok cert k pool : Pool_ok pool -> Pool_ok (add cert k pool).2.
Proof.
  intros H. unfold add. destruct (is_authorization_ticket cert) eqn:Ea; [|exact H]. cbn [negb].
  destruct (bool_decide (get_verification_key_type cert = KeyType_Unspecified)) eqn:E1; [exact H|].
  destruct (bool_decide (priv_type k <> get_verification_key_type cert)) eqn:E2; [exact H|].
  destruct (Nat.eqb_spec (length (priv_key k)) (key_length (get_verification_key_type cert))) as [E3|E3]; cbn [negb orb]; [|exact H].
  destruct (calculate_digest cert) as [d|] eqn:Ed; [|exact H]. destruct (get_public_key cert) as [pk|] eqn:Ek; [|exact H].
  destruct (existsb _ _) eqn:Ex; [exact H|]. destruct (probe cert k pk) as [[|]|] eqn:Ep; [|exact H|exact H].
  destruct H as [H1 H2 H3]. split; cbn.
  - apply Forall_app. split; [assumption|]. constructor; [|constructor]. unfold ticket_ok. cbn.
    apply bool_decide_eq_false in E1, E2. destruct (decide (priv_type k = get_verification_key_type cert)); [|contradiction]. eauto 10.
  - rewrite map_app. apply NoDup_app. split; [assumption|]. split; [|apply NoDup_singleton].
    intros x Hx Hs. apply list_elem_of_singleton in Hs. cbn in Hs. subst x. apply list_elem_of_fmap in Hx as (t & -> & Ht).
    apply not_true_iff_false in Ex. apply Ex, existsb_exists. exists t. split; [now apply list_elem_of_In|]. now apply bool_decide_eq_true.
  - left. rewrite length_app. cbn. destruct H3 as [|[_ ->]]; lia.
Qed.

Lemma find_digest_spec d i ts : match find_digest d i ts with
  | Some j => (i <= j)%nat /\ exists t, ts !! (j - i)%nat = Some t /\ digest t = d
  | None => d ∉ map digest ts end.
Proof.
  revert i. induction ts as [|t ts IH]; intros i; cbn [find_digest map]; [apply not_elem_of_nil|].
  destruct (bool_decide (digest t = d)) eqn:E.
  - apply bool_decide_eq_true in E. split; [lia|]. exists t. now rewrite Nat.sub_diag.
  - apply bool_decide_eq_false in E. specialize (IH (S i)). destruct (find_digest d (S i) ts) as [j|].
    + destruct IH as [Hl (t' & Et & Ed)]. split; [lia|]. exists t'. split; [|assumption]. replace (j - i)%nat with (S (j - S i)) by lia. exact Et.
    + apply not_elem_of_cons. auto.
Qed.

(** select(): the ticket of a digest becomes current, and only that changes;
    an unknown digest changes nothing. *)
Lemma select_spec d pool : match select d pool with
  | (accepted, p) => tickets p = tickets pool /\ exists t, tickets p !! current_ p = Some t /\ digest t = d /\ current p = Some t
  | (r, p) => r = invalid_argument /\ p = pool /\ d ∉ map digest (tickets pool) end.
Proof.
  unfold select. pose proof (find_digest_spec d 0 (tickets pool)) as H. destruct (find_digest d 0 (tickets pool)) as [j|]; [|auto].
  destruct H as [_ (t & Et & Ed)]. rewrite Nat.sub_0_r in Et. cbn. split; [reflexivity|]. exists t. split_all; auto.
  unfold current. cbn. destruct (tickets pool); [discriminate|exact Et].
Qed.

Lemma select_ok d pool : Pool_ok pool -> Pool_ok (select d pool).2.
Proof.
  intros H. pose proof (select_spec d pool) as Hs. destruct (select d pool) as [r p]. destruct H as [H1 H2 H3]. cbn.
  destruct r; try (destruct Hs as (_ & -> & _); now split).
  destruct Hs as (Et & t & El & _). split; rewrite ?Et; try assumption. left. rewrite <- Et. apply lookup_lt_is_Some. eauto.
Qed.

(** ** The next ticket *)

Lemma next_from_spec pool now step n : tickets pool <> [] ->
  match next_from pool now step n with
  | Some t => exists k, (step <= k < step + n)%nat /\ tickets pool !! ((current_ pool + k) mod length (tickets pool))%nat = Some t /\
      valid_at_timepoint (certificate t) now = true /\
      forall k' t', (step <= k' < k)%nat -> tickets pool !! ((current_ pool + k') mod length (tickets pool))%nat = Some t' -> valid_at_timepoint (certificate t') now = false
  | None => forall k t, (step <= k < step + n)%nat -> tickets pool !! ((current_ pool + k) mod length (tickets pool))%nat = Some t -> valid_at_timepoint (certificate t) now = false
  end.
Proof.
  intros Hne. revert step. induction n as [|n IH]; intros step; cbn [next_from]; [intros; lia|].
  assert (length (tickets pool) <> 0%nat) as Hl by (destruct (tickets pool); [contradiction|cbn; lia]).
  destruct (lookup_lt_is_Some_2 (tickets pool) ((current_ pool + step) mod length (tickets pool))) as [t Et]; [now apply Nat.mod_upper_bound|].
  rewrite Et. destruct (valid_at_timepoint (certificate t) now) eqn:Ev.
  - exists step. split_all; auto; try lia.
  - specialize (IH (S step)). destruct (next_from pool now (S step) n) as [t'|].
    + destruct IH as (k & Hk & E1 & E2 & E3). exists k. split_all; auto; try lia. intros k' t2 Hk' E.
      destruct (decide (k' = step)) as [->|]; [congruence|]. apply (E3 k'); [lia|assumption].
    + intros k t2 Hk E. destruct (decide (k = step)) as [->|]; [congruence|]. apply (IH k); [lia|assumption].
Qed.

(** The offsets of the loop reach every other ticket once. *)
Lemma round_robin c n j : (c < n)%nat -> (j < n)%nat -> j <> c -> exists k, (1 <= k < n)%nat /\ ((c + k) mod n = j)%nat.
Proof.
  intros Hc Hj Hne. destruct (le_lt_dec c j).
  - exists (j - c)%nat. split; [lia|]. rewrite Nat.mod_small by lia. lia.
  - exists (n - c + j)%nat. split; [lia|]. replace (c + (n - c + j))%nat with (j + 1 * n)%nat by lia. rewrite Nat.Div0.mod_add. now apply Nat.mod_small.
Qed.

Lemma round_robin_other c n k : (c < n)%nat -> (1 <= k < n)%nat -> ((c + k) mod n <> c)%nat.
Proof.
  intros Hc Hk E. destruct (le_lt_dec n (c + k)).
  - replace (c + k)%nat with (c + k - n + 1 * n)%nat in E by lia. rewrite Nat.Div0.mod_add, Nat.mod_small in E by lia. lia.
  - rewrite Nat.mod_small in E by lia. lia.
Qed.

(** next_valid() finds a ticket whenever another one is valid, never the
    current one, and the first in the order of the pool. *)
Theorem next_valid_spec pool now : Pool_ok pool ->
  match next_valid pool now with
  | Some t => exists j, tickets pool !! j = Some t /\ j <> current_ pool /\ valid_at_timepoint (certificate t) now = true
  | None => forall j t, tickets pool !! j = Some t -> j <> current_ pool -> valid_at_timepoint (certificate t) now = false
  end.
Proof.
  intros [_ _ Hc]. unfold next_valid. destruct (Nat.ltb_spec (length (tickets pool)) 2) as [Hl|Hl].
  - intros j t Ej Hj. apply lookup_lt_Some in Ej. destruct Hc as [Hc|[E _]]; [lia|]. rewrite E in Ej. cbn in Ej. lia.
  - assert (tickets pool <> []) as Hne by (intros E; rewrite E in Hl; cbn in Hl; lia). destruct Hc as [Hc|[E _]]; [|contradiction].
    pose proof (next_from_spec pool now 1 (length (tickets pool) - 1) Hne) as H. destruct (next_from _ _ _ _) as [t|].
    + destruct H as (k & Hk & E1 & E2 & _). eexists. split; [exact E1|]. split; [|assumption]. apply round_robin_other; lia.
    + intros j t Ej Hj. pose proof (lookup_lt_Some _ _ _ Ej) as Hjl. destruct (round_robin (current_ pool) (length (tickets pool)) j Hc Hjl Hj) as (k & Hk & Ek).
      apply (H k); [lia|]. now rewrite Ek.
Qed.

(** ** Pruning *)

(** What prune() keeps: the current ticket and those that did not end. *)
Definition outdated (time32 : Z) (t : Ticket) : bool := end_validity (get_start_and_end_validity (certificate t)) <? time32.

(** The tickets from index [i] on that stay when [c] is the current index. *)
Fixpoint kept (time32 : Z) (c i : nat) (ts : list Ticket) : list Ticket :=
  match ts with
  | [] => []
  | t :: ts' => if negb (i =? c)%nat && outdated time32 t then kept time32 c (S i) ts' else t :: kept time32 c (S i) ts'
  end.

Lemma kept_shift time32 c i ts : kept time32 (S c) (S i) ts = kept time32 c i ts.
Proof. revert i. induction ts as [|t ts IH]; intros i; [reflexivity|]. cbn [kept]. change (S i =? S c)%nat with (i =? c)%nat. now rewrite IH. Qed.

Lemma kept_past time32 c i ts : (c < i)%nat -> kept time32 c i ts = filter (fun t => outdated time32 t = false) ts.
Proof.
  revert i. induction ts as [|t ts IH]; intros i Hi; [reflexivity|]. cbn [kept]. rewrite (proj2 (Nat.eqb_neq i c)) by lia. cbn [negb andb].
  rewrite filter_cons, IH by lia. destruct (outdated time32 t); [rewrite decide_False by discriminate|rewrite decide_True by reflexivity]; reflexivity.
Qed.

Lemma prune_loop_spec time32 fuel pre post c removed : (length post <= fuel)%nat ->
  let '(r, p) := prune_loop fuel time32 (length pre) (mk_Pool (pre ++ post) c) removed in
  tickets p = pre ++ kept time32 c (length pre) post /\ (r + length (tickets p) = removed + length (pre ++ post))%nat /\
  ((c < length (pre ++ post))%nat -> tickets p !! current_ p = (pre ++ post) !! c) /\ (pre ++ post = [] -> current_ p = c).
Proof.
  revert pre post c removed. induction fuel as [|fuel IH]; intros pre post c removed Hf; cbn [prune_loop tickets current_].
  { destruct post; [cbn; auto|cbn in Hf; lia]. }
  destruct post as [|t post].
  { rewrite (proj2 (lookup_ge_None (pre ++ []) (length pre))) by (rewrite app_nil_r; lia). cbn. auto. }
  rewrite list_lookup_middle by reflexivity. fold (outdated time32 t). cbn [kept].
  destruct (negb (length pre =? c)%nat && outdated time32 t) eqn:E.
  - apply andb_true_iff in E as [E _]. apply negb_true_iff, Nat.eqb_neq in E. rewrite delete_middle.
    set (c' := if (length pre <? c)%nat then Nat.pred c else c). specialize (IH pre post c' (S removed) ltac:(cbn in Hf; lia)).
    destruct (prune_loop _ _ _ _ _) as [r p]. destruct IH as (H1 & H2 & H3 & _). rewrite H1 in *. split_all.
    + f_equal. unfold c'. destruct (Nat.ltb_spec (length pre) c) as [Hl|Hl].
      * destruct c as [|c]; [lia|]. cbn [Nat.pred]. now rewrite kept_shift.
      * rewrite !kept_past by lia. reflexivity.
    + rewrite H2, !length_app. cbn. lia.
    + intros Hc. rewrite H3.
      * unfold c'. destruct (Nat.ltb_spec (length pre) c) as [Hl|Hl].
        -- rewrite !lookup_app_r by lia. destruct (c - length pre)%nat as [|k] eqn:Ek; [lia|]. cbn. f_equal. lia.
        -- rewrite !lookup_app_l by lia. reflexivity.
      * unfold c'. rewrite length_app in *. cbn in Hc. destruct (Nat.ltb_spec (length pre) c); lia.
    + intros E'. now destruct pre.
  - specialize (IH (pre ++ [t]) post c removed ltac:(cbn in Hf; lia)). rewrite <- app_assoc in IH. cbn [app] in IH.
    rewrite length_app in IH. cbn [length] in IH. rewrite Nat.add_1_r in IH. destruct (prune_loop _ _ _ _ _) as [r p].
    destruct IH as (H1 & H2 & H3 & H4). rewrite H1 in *. split_all; auto. now rewrite <- app_assoc.
Qed.

Lemma kept_sublist time32 c i ts : kept time32 c i ts `sublist_of` ts.
Proof. revert i. induction ts as [|t ts IH]; intros i; cbn [kept]; [constructor|]. destruct (_ && _); now constructor. Qed.

Lemma kept_elem time32 c i ts j t : ts !! j = Some t -> (i + j)%nat = c \/ outdated time32 t = false -> t ∈ kept time32 c i ts.
Proof.
  revert i j. induction ts as [|x ts IH]; intros i j; [discriminate|]. cbn [kept]. destruct j as [|j]; cbn.
  - intros [= ->] H. assert (negb (i =? c)%nat && outdated time32 t = false) as ->; [|now left].
    destruct H as [<-| ->]; [|now rewrite andb_false_r]. now rewrite Nat.add_0_r, Nat.eqb_refl.
  - intros E H. assert (t ∈ kept time32 c (S i) ts) as Hin by (apply (IH (S i) j); [assumption|]; destruct H as [H|H]; [left; lia|auto]).
    destruct (_ && _); [assumption|now right].
Qed.

(** prune() keeps the current ticket, at its new place, and every ticket that
    has not ended, in their order; it counts what it removes. *)
Theorem prune_spec pool now : Pool_ok pool ->
  let '(removed, p) := prune now pool in
  Pool_ok p /\ current p = current pool /\ tickets p = kept (convert_time32 now) (current_ pool) 0 (tickets pool) /\
  (removed + length (tickets p) = length (tickets pool))%nat.
Proof.
  intros [H1 H2 H3]. unfold prune. pose proof (prune_loop_spec (convert_time32 now) (length (tickets pool)) [] (tickets pool) (current_ pool) 0 (le_n _)) as H.
  cbn [app length] in H. destruct pool as [ts c]. cbn [tickets current_] in *. destruct (prune_loop _ _ _ _ _) as [r p]. destruct H as (E1 & E2 & E3 & E4).
  assert (tickets p `sublist_of` ts) as Hsub by (rewrite E1; apply kept_sublist).
  assert (Pool_ok p) as Hok.
  { split.
    - rewrite Forall_forall in *. intros t Ht. apply H1. now apply (elem_of_sublist (tickets p)).
    - apply (sublist_NoDup _ (map digest ts)); [assumption|]. clear - Hsub. induction Hsub; cbn; now constructor.
    - destruct H3 as [Hc|[-> ->]].
      + left. apply lookup_lt_is_Some. rewrite E3 by assumption. now apply lookup_lt_is_Some.
      + right. split; [now apply sublist_nil_r|auto]. }
  split; [assumption|]. split; [|auto]. unfold current. cbn [tickets current_]. destruct H3 as [Hc|[-> ->]].
  - pose proof (E3 Hc) as El. destruct (lookup_lt_is_Some_2 ts c Hc) as [t Et]. destruct ts as [|x ts']; [discriminate|].
    destruct (tickets p) as [|y l]; [rewrite Et in El; discriminate|exact El].
  - apply sublist_nil_r in Hsub. now rewrite Hsub.
Qed.

(** C15.  The pool: whatever is added, selected or pruned, every ticket is an
    authorization ticket under its own digest whose private key signs what
    the certificate verifies, no digest occurs twice, and the current ticket
    is one of the pool; a ticket of a digest in the pool is refused; pruning
    keeps the current ticket and reduces nothing but outdated ones; the own
    certificate is there exactly when the pool is not empty. *)
Theorem CertificatePool_invariant pool : Pool_ok pool ->
  (forall cert k, Pool_ok (add cert k pool).2) /\ (forall coer k, Pool_ok (add_coer coer k pool).2) /\
  (forall d, Pool_ok (select d pool).2) /\
  (forall now, let '(removed, p) := prune now pool in
     Pool_ok p /\ current p = current pool /\ tickets p `sublist_of` tickets pool /\
     forall t, t ∈ tickets pool -> current pool = Some t \/ outdated (convert_time32 now) t = false -> t ∈ tickets p) /\
  (forall cert k d, calculate_digest cert = Some d -> d ∈ map digest (tickets pool) -> add cert k pool = (invalid_argument, pool)) /\
  (own_certificate pool = None <-> tickets pool = []).
Proof.
  intros H. split_all.
  - intros. now apply add_ok.
  - intros coer k. unfold add_coer. destruct (from_coer coer); [now apply add_ok|exact H].
  - intros. now apply select_ok.
  - intros now. pose proof (prune_spec pool now H) as Hp. destruct (prune now pool) as [r p]. destruct Hp as (H1 & H2 & H3 & _).
    split_all; [assumption|assumption|rewrite H3; apply kept_sublist|]. intros t Ht Hk. rewrite H3. destruct Hk as [Hc|Ho].
    + assert (tickets pool <> []) as Hne by (intros E; rewrite E in Ht; now apply elem_of_nil in Ht).
      destruct (Pool_ok_current pool H Hne) as (t' & Ec & El). rewrite Ec in Hc. injection Hc as ->. apply (kept_elem _ _ _ _ _ _ El). now left.
    + apply list_elem_of_lookup in Ht as [j Ej]. apply (kept_elem _ _ _ _ _ _ Ej). now right.
  - intros cert k d Ed Hd. unfold add. destruct (negb (is_authorization_ticket cert)); [reflexivity|]. destruct (_ || _); [reflexivity|].
    rewrite Ed. destruct (get_public_key cert); [|reflexivity]. rewrite (proj2 (existsb_exists _ _)); [reflexivity|].
    apply list_elem_of_fmap in Hd as (t & -> & Ht). exists t. split; [now apply list_elem_of_In|]. now apply bool_decide_eq_true.
  - unfold own_certificate. split.
    + intros E. destruct (decide (tickets pool = [])) as [|Hne]; [assumption|].
      destruct (Pool_ok_current pool H Hne) as (t & Ec & _). rewrite Ec in E. discriminate.
    + intros E. unfold current. now rewrite E.
Qed.

(** A ticket that is valid is not pruned, unless its validity is in years. *)
Theorem prune_keeps_valid pool now t : Pool_ok pool -> t ∈ tickets pool -> valid_at_timepoint (certificate t) now = true ->
  let tbs := toBeSigned (certificate t) in
  0 <= validity_start tbs -> validity_start tbs + duration_us (validity_duration tbs) / second < 2 ^ 32 ->
  (match validity_duration tbs with
   | Duration_NOTHING => True
   | microseconds n | milliseconds n | seconds n | minutes n | hours n => 0 <= n < 65536
   | sixtyHours n => 0 <= n <= 9942
   | years _ => False
   end) -> t ∈ tickets (prune now pool).2.
Proof.
  intros H Ht Hv tbs H1 H2 H3. destruct (prune now pool) as [r p] eqn:E. pose proof (prune_spec pool now H) as Hp. rewrite E in Hp. destruct Hp as (_ & _ & Ep & _). cbn. rewrite Ep.
  apply list_elem_of_lookup in Ht as [j Ej]. apply (kept_elem _ _ _ _ _ _ Ej). right. unfold outdated. apply Z.ltb_ge.
  now apply (validity_agrees (certificate t) now).
Qed.
End Pool.

(** ** Examples *)

Section Examples.
#[local] Existing Instance example_codec.
#[local] Existing Instance example_backend.

Definition example_private : PrivateKey := mk_PrivateKey NistP256 example_key.
Definition ticket_of (o : list Z) (d : Duration) : Certificate :=
  mk_Certificate (sha256AndDigest [1; 2; 3; 4; 5; 6; 7; 8])
    (example_tbs (Point_compressed_y_0 example_key) None d (mk_IssuePermissions (Some [mk_PsidSsp 36 None; mk_PsidSsp 37 None; mk_PsidSsp 638 None]) None) o)
    (Some (ecdsaNistP256Signature (Point_x_only [5]) [6])).
Definition id1 : HashedId8 := [1; 1; 1; 1; 1; 1; 1; 1].
Definition id2 : HashedId8 := [2; 2; 2; 2; 2; 2; 2; 2].
Definition id3 : HashedId8 := [3; 3; 3; 3; 3; 3; 3; 3].

Definition example_pool : CertificatePool :=
  (add (ticket_of id3 (hours 1)) example_private (add (ticket_of id2 (years 1)) example_private (add (ticket_of id1 (hours 2)) example_private Pool_empty).2).2).2.

Lemma Pool_ok_empty : Pool_ok Pool_empty.
Proof. split; cbn; [constructor|constructor|auto]. Qed.

Lemma example_pool_ok : Pool_ok example_pool.
Proof. unfold example_pool. do 3 apply add_ok. apply Pool_ok_empty. Qed.

Example example_pool_tickets : map digest (tickets example_pool) = [id1; id2; id3] /\
  (add (ticket_of id2 (hours 1)) example_private example_pool).1 = invalid_argument /\
  (add (ticket_of [4] (hours 1)) (mk_PrivateKey NistP256 (replicate 32 1)) example_pool).1 = invalid_argument.
Proof. vm_compute. auto. Qed.

Lemma CertificatePool_invariant_witness :
  Pool_ok (select id2 example_pool).2 /\ add (ticket_of id3 (hours 1)) example_private example_pool = (invalid_argument, example_pool).
Proof.
  destruct (CertificatePool_invariant example_pool example_pool_ok) as (_ & _ & H1 & _ & H2 & _).
  split; [apply H1|]. apply (H2 _ _ id3); [vm_compute; reflexivity|]. vm_compute. right. right. now left.
Defined.

Lemma next_valid_spec_witness :
  exists j, tickets example_pool !! j = Some (mk_Ticket (ticket_of id2 (years 1)) example_private id2) /\ j <> current_ example_pool.
Proof.
  pose proof (next_valid_spec example_pool (1001 * second) example_pool_ok) as H.
  change (next_valid example_pool (1001 * second)) with (Some (mk_Ticket (ticket_of id2 (years 1)) example_private id2)) in H.
  destruct H as (j & H1 & H2 & _). eauto.
Defined.

Lemma prune_spec_witness : let '(removed, p) := prune (9000 * second) example_pool in removed = 1%nat /\ current p = current example_pool.
Proof.
  pose proof (prune_spec example_pool (9000 * second) example_pool_ok) as H. destruct (prune (9000 * second) example_pool) as [r p] eqn:E. destruct H as (_ & H & _).
  split; [|exact H]. vm_compute in E. congruence.
Defined.

Lemma prune_keeps_valid_witness :
  mk_Ticket (ticket_of id1 (hours 2)) example_private id1 ∈ tickets (prune (8199 * second) (select id3 example_pool).2).2.
Proof.
  apply prune_keeps_valid; try (vm_compute; reflexivity).
  - apply select_ok, example_pool_ok.
  - vm_compute. now left.
  - vm_compute. discriminate.
  - vm_compute. split; [discriminate|reflexivity].
Defined.

(** A ticket for a year is pruned while it is valid, and while next_valid()
    still offers it. *)
Theorem prune_drops_valid : exists pool now t, Pool_ok pool /\ t ∈ tickets pool /\ next_valid pool now = Some t /\
  valid_at_timepoint (certificate t) now = true /\ t ∉ tickets (prune now pool).2.
Proof.
  exists example_pool, ((1000 + 31536001) * second), (mk_Ticket (ticket_of id2 (years 1)) example_private id2).
  split; [exact example_pool_ok|]. split; [vm_compute; right; now left|]. split; [vm_compute; reflexivity|]. split; [vm_compute; reflexivity|].
  intros H. vm_compute in H. apply list_elem_of_singleton in H. discriminate.
Qed.
End Examples.
