(* ===== verification/SecuredMessage.v ===== *)
(** Secured messages: vanetza/security/v3/secured_message.cpp, the parts that
    signing and verification use.

    Pointers that may be null are options.  The setters are called on
    messages made by with_signed_data(), where signedData, tbsData and
    payload are set; on other messages they change nothing here.  A number of
    type INTEGER is its octets. *)

From S2P Require Import Prelude Runtime Integer Permissions Regions Certificate.
From stdpp Require Import list.

Open Scope Z_scope.

(** * Data *)

Record ThreeDLocation := mk_ThreeD { td_latitude : Z; td_longitude : Z; elevation : Z }.

Record HeaderInfo := mk_HeaderInfo {
  hi_psid : Z;
  generationTime : option (list Z);
  expiryTime : option (list Z);
  generationLocation : option ThreeDLocation;
  p2pcdLearningRequest : option HashedId3;
  missingCrlIdentifier : option (list Z);
  hi_encryptionKey : option (list Z);
  inlineP2pcdRequest : option (list HashedId3);
  requestedCertificate : option Certificate }.

(** The inner Ieee1609Dot2Data: its version and its content, if unsecured. *)
Record InnerData := mk_InnerData { inner_version : Z; unsecured : option (list Z) }.
Record SignedDataPayload := mk_Payload { payload_data : option InnerData; extDataHash : option (list Z) }.
Record ToBeSignedData := mk_tbsData { tbs_payload : option SignedDataPayload; headerInfo : HeaderInfo }.

Inductive SignerIdentifier :=
| Signer_NOTHING
| Signer_digest (d : HashedId8)
| Signer_certificate (certificates : list Certificate)
| Signer_self
| Signer_other.

Record SignedData := mk_SignedData {
  hashId : Z; tbsData : option ToBeSignedData; signer : SignerIdentifier; sd_signature : option Asn1Signature }.

Inductive Content :=
| unsecuredData (octets : list Z)
| signedData (sd : option SignedData)
| encryptedData
| Content_other.

Record SecuredMessage := mk_SecuredMessage { protocolVersion : Z; content : Content }.

(** ** Building a message *)

Definition empty_header : HeaderInfo := mk_HeaderInfo 0 None None None None None None None None.

Definition with_signed_data : SecuredMessage :=
  mk_SecuredMessage 3 (signedData (Some (mk_SignedData 0
    (Some (mk_tbsData (Some (mk_Payload (Some (mk_InnerData 3 (Some []))) None)) empty_header)) Signer_NOTHING None))).

Definition on_signed_data (f : SignedData -> SignedData) (m : SecuredMessage) : SecuredMessage :=
  match content m with
  | signedData (Some sd) => mk_SecuredMessage (protocolVersion m) (signedData (Some (f sd)))
  | _ => m
  end.
Definition on_tbs (f : ToBeSignedData -> ToBeSignedData) (m : SecuredMessage) : SecuredMessage :=
  on_signed_data (fun sd => mk_SignedData (hashId sd) (f <$> tbsData sd) (signer sd) (sd_signature sd)) m.
Definition on_header (f : HeaderInfo -> HeaderInfo) (m : SecuredMessage) : SecuredMessage :=
  on_tbs (fun t => mk_tbsData (tbs_payload t) (f (headerInfo t))) m.

Definition set_its_aid (its_aid : Z) : SecuredMessage -> SecuredMessage :=
  on_header (fun h => mk_HeaderInfo its_aid (generationTime h) (expiryTime h) (generationLocation h) (p2pcdLearningRequest h)
    (missingCrlIdentifier h) (hi_encryptionKey h) (inlineP2pcdRequest h) (requestedCertificate h)).

(** The result of asn_uint642INTEGER is not looked at: without memory the
    number stays empty. *)
Definition set_generation_time {A : Allocator} (time : Z) : SecuredMessage -> SecuredMessage :=
  on_header (fun h => mk_HeaderInfo (hi_psid h) (match asn_uint642INTEGER time with Some b => b | None => None end) (expiryTime h) (generationLocation h)
    (p2pcdLearningRequest h) (missingCrlIdentifier h) (hi_encryptionKey h) (inlineP2pcdRequest h) (requestedCertificate h)).

Definition set_generation_location (location : ThreeDLocation) : SecuredMessage -> SecuredMessage :=
  on_header (fun h => mk_HeaderInfo (hi_psid h) (generationTime h) (expiryTime h) (Some location) (p2pcdLearningRequest h)
    (missingCrlIdentifier h) (hi_encryptionKey h) (inlineP2pcdRequest h) (requestedCertificate h)).

(** A list that exists is emptied, and is only made for a first request. *)
Definition set_inline_p2pcd_request (requests : list HashedId3) : SecuredMessage -> SecuredMessage :=
  on_header (fun h => mk_HeaderInfo (hi_psid h) (generationTime h) (expiryTime h) (generationLocation h) (p2pcdLearningRequest h)
    (missingCrlIdentifier h) (hi_encryptionKey h)
    (match inlineP2pcdRequest h, requests with None, [] => None | _, _ => Some requests end) (requestedCertificate h)).

Definition set_requested_certificate (cert : Certificate) : SecuredMessage -> SecuredMessage :=
  on_header (fun h => mk_HeaderInfo (hi_psid h) (generationTime h) (expiryTime h) (generationLocation h) (p2pcdLearningRequest h)
    (missingCrlIdentifier h) (hi_encryptionKey h) (inlineP2pcdRequest h) (Some cert)).

Definition set_signer_identifier (s : SignerIdentifier) : SecuredMessage -> SecuredMessage :=
  on_signed_data (fun sd => mk_SignedData (hashId sd) (tbsData sd) s (sd_signature sd)).

Definition set_hash_id (hash : HashAlgorithm) : SecuredMessage -> SecuredMessage :=
  on_signed_data (fun sd => mk_SignedData (match hash with SHA256 => 0 | SHA384 => 1 | Hash_Unspecified => -1 end) (tbsData sd) (signer sd) (sd_signature sd)).

Definition set_payload (payload : list Z) : SecuredMessage -> SecuredMessage :=
  on_tbs (fun t => mk_tbsData
    ((fun p => mk_Payload ((fun d => mk_InnerData (inner_version d) (Some payload)) <$> payload_data p) (extDataHash p)) <$> tbs_payload t) (headerInfo t)).

Definition dummy_signature : Asn1Signature := ecdsaNistP256Signature (Point_x_only (replicate 32 0)) (replicate 32 0).
Definition to_asn1_signature (sig : Signature) : Asn1Signature :=
  match sig_type sig with
  | NistP256 => ecdsaNistP256Signature (Point_x_only (sig_r sig)) (sig_s sig)
  | BrainpoolP256r1 => ecdsaBrainpoolP256r1Signature (Point_x_only (sig_r sig)) (sig_s sig)
  | BrainpoolP384r1 => ecdsaBrainpoolP384r1Signature (Point_x_only (sig_r sig)) (sig_s sig)
  | KeyType_Unspecified => dummy_signature
  end.
Definition set_signature (sig : Signature) : SecuredMessage -> SecuredMessage :=
  on_signed_data (fun sd => mk_SignedData (hashId sd) (tbsData sd) (signer sd) (Some (to_asn1_signature sig))).

(** ** Reading a message *)

Definition get_signed_data (m : SecuredMessage) : option SignedData := match content m with signedData sd => sd | _ => None end.

Definition is_signed (m : SecuredMessage) : bool := match content m with signedData _ => true | _ => false end.

Definition header_of (m : SecuredMessage) : option HeaderInfo :=
  match get_signed_data m with Some sd => headerInfo <$> tbsData sd | None => None end.

Definition its_aid (m : SecuredMessage) : Z := match header_of m with Some h => hi_psid h | None => 0 end.

Definition hash_id (m : SecuredMessage) : HashAlgorithm :=
  match get_signed_data m with
  | Some sd => if hashId sd =? 0 then SHA256 else if hashId sd =? 1 then SHA384 else Hash_Unspecified
  | None => Hash_Unspecified
  end.

Definition generation_time (m : SecuredMessage) : option Z :=
  match header_of m with
  | Some h => match asn_INTEGER2umax (generationTime h) with inr v => Some v | inl _ => None end
  | None => None
  end.

Definition message_signature (m : SecuredMessage) : option Signature :=
  match get_signed_data m with
  | Some sd => match sd_signature sd with Some asn => signature_of_asn1 asn | None => None end
  | None => None
  end.

(** SecuredMessage::SignerIdentifier, a digest or a certificate, where the
    null pointer to a digest stands for anything else. *)
Inductive MessageSigner := By_digest (d : option HashedId8) | By_certificate (cert : Certificate).

Definition signer_identifier (m : SecuredMessage) : MessageSigner :=
  match get_signed_data m with
  | Some sd =>
      match signer sd with
      | Signer_digest d => By_digest (Some d)
      | Signer_certificate [cert] => By_certificate cert
      | _ => By_digest None
      end
  | None => By_digest None
  end.

Definition get_certificate_id {C : CertificateCodec} (s : MessageSigner) : option HashedId8 :=
  match s with By_digest d => take 8 <$> d | By_certificate cert => calculate_digest cert end.
Definition contains_certificate (s : MessageSigner) : bool := match s with By_digest _ => false | By_certificate _ => true end.

(** The generated encoder of ToBeSignedData. *)
Class MessageCodec := encode_tbs_data : ToBeSignedData -> option (list Z).

Definition signing_payload {E : MessageCodec} (m : SecuredMessage) : option (list Z) :=
  match get_signed_data m with
  | Some sd => match tbsData sd with Some t => encode_tbs_data t | None => None end
  | None => Some []
  end.

Definition get_payload (m : SecuredMessage) : list Z :=
  match content m with
  | unsecuredData o => o
  | signedData (Some sd) =>
      match tbsData sd with
      | Some t => match tbs_payload t with
                  | Some p => match payload_data p with Some d => default [] (unsecured d) | None => [] end
                  | None => []
                  end
      | None => []
      end
  | _ => []
  end.

(** * What is set is read *)

(** A message whose signed data is there, as with_signed_data() makes it. *)
Definition complete (m : SecuredMessage) : Prop :=
  exists sd t p d, content m = signedData (Some sd) /\ tbsData sd = Some t /\ tbs_payload t = Some p /\ payload_data p = Some d.

Lemma with_signed_data_complete : complete with_signed_data.
Proof. unfold complete. eauto 10. Qed.

Lemma uint64_time_roundtrip {A : Allocator} time : serves A 9 -> 0 <= time < 2 ^ 64 ->
  exists b, asn_uint642INTEGER time = Some (Some b) /\ asn_INTEGER2umax (Some b) = inr time.
Proof.
  intros HA Ht. destruct (umax2INTEGER_ok A time HA) as (b & E & Hb & _ & _ & Eu); [unfold is_umax, UINTMAX_MAX; lia|].
  exists b. split.
  - rewrite <- E. unfold asn_uint642INTEGER, asn_umax2INTEGER. change (UINTMAX_MAX ≫ 1) with INTMAX_MAX. reflexivity.
  - rewrite INTEGER2umax_value, Eu by assumption. unfold UINTMAX_MAX. now rewrite (proj2 (Z.leb_le _ _)) by lia.
Qed.

(** The setters keep a message complete, and each getter returns what the
    setter of its field stored last, for times of 64 bits and signatures of
    the known curves. *)
Theorem message_setters m : complete m ->
  (forall aid, complete (set_its_aid aid m) /\ its_aid (set_its_aid aid m) = aid) /\
  (forall A time, serves A 9 -> 0 <= time < 2 ^ 64 ->
     complete (set_generation_time time m) /\ generation_time (set_generation_time time m) = Some time /\ its_aid (set_generation_time time m) = its_aid m) /\
  (forall s, complete (set_signer_identifier s m) /\ header_of (set_signer_identifier s m) = header_of m) /\
  (forall payload, complete (set_payload payload m) /\ get_payload (set_payload payload m) = payload /\ header_of (set_payload payload m) = header_of m) /\
  (forall sig, sig_type sig <> KeyType_Unspecified ->
     complete (set_signature sig m) /\ message_signature (set_signature sig m) = Some sig /\
     forall (E : MessageCodec), signing_payload (set_signature sig m) = signing_payload m) /\
  (forall h, complete (set_hash_id h m) /\ hash_id (set_hash_id h m) = h).
Proof.
  intros (sd & t & p & d & Ec & Et & Ep & Ed). destruct m as [v c], sd as [hid td sg sigo], t as [pl hd], p as [pd eh]. cbn in *. subst.
  unfold complete, set_its_aid, set_generation_time, set_signer_identifier, set_payload, set_signature, set_hash_id, on_header, on_tbs, on_signed_data,
    its_aid, generation_time, message_signature, signing_payload, hash_id, header_of, get_signed_data. cbn.
  split_all; intros; split_all; eauto 10.
  - destruct (uint64_time_roundtrip time H (conj H0 H1)) as (b & -> & ->). reflexivity.
  - destruct sig as [[| | |] r s]; cbn in *; try contradiction; reflexivity.
  - destruct h; reflexivity.
Qed.

Lemma message_setters_witness : let A : Allocator := fun _ => true in
  generation_time (set_generation_time 700000000000000 with_signed_data) = Some 700000000000000.
Proof. intros A. apply (message_setters with_signed_data with_signed_data_complete); [intros m Hm; reflexivity|lia]. Defined.
