(* ===== verification/PeerRequests.v ===== *)
(** Requests for certificates of peers: vanetza/security/peer_request_tracker.cpp,
    a queue with a lookup map whose iterators point into the queue.  An
    iterator is the identifier it points to; the assertions of the code are
    part of the invariant. *)

From S2P Require Import Prelude Permissions Regions Certificate.
From stdpp Require Import list gmap.

Open Scope Z_scope.

Record PeerRequestTracker := mk_Tracker { m_limit : nat; m_fifo : list HashedId3; m_lookup : gset HashedId3 }.

Definition Tracker_create (limit : nat) : PeerRequestTracker := mk_Tracker limit [] ∅.
Definition default_limit : nat := 16.

(** * Operations *)

Definition is_pending (id : HashedId3) (t : PeerRequestTracker) : bool := bool_decide (id ∈ m_lookup t).

Definition add_request (id : HashedId3) (t : PeerRequestTracker) : PeerRequestTracker :=
  if is_pending id t then t
  else
    let t := match m_fifo t with
             | front :: rest =>
                 if (m_limit t <=? length (m_fifo t))%nat then mk_Tracker (m_limit t) rest (m_lookup t ∖ {[front]}) else t
             | [] => t
             end in
    mk_Tracker (m_limit t) (m_fifo t ++ [id]) ({[id]} ∪ m_lookup t).

(** Erasing the element an iterator points to. *)
Definition erase_element (id : HashedId3) (fifo : list HashedId3) : list HashedId3 := filter (fun x => x <> id) fifo.

Definition discard_request (id : HashedId3) (t : PeerRequestTracker) : PeerRequestTracker :=
  if is_pending id t then mk_Tracker (m_limit t) (erase_element id (m_fifo t)) (m_lookup t ∖ {[id]}) else t.

Definition next_one (t : PeerRequestTracker) : option HashedId3 * PeerRequestTracker :=
  match m_fifo t with
  | [] => (None, t)
  | front :: rest => (Some front, mk_Tracker (m_limit t) rest (m_lookup t ∖ {[front]}))
  end.

Definition all (t : PeerRequestTracker) : list HashedId3 * PeerRequestTracker := (m_fifo t, mk_Tracker (m_limit t) [] ∅).

Definition next_n (max : nat) (t : PeerRequestTracker) : list HashedId3 * PeerRequestTracker :=
  if (length (m_fifo t) <=? max)%nat then all t
  else
    let next := take max (m_fifo t) in
    (next, mk_Tracker (m_limit t) (drop max (m_fifo t)) (m_lookup t ∖ list_to_set next)).

(** * The invariant *)

(** The map knows the elements of the queue, which are distinct and no more
    than the limit, or one when the limit is zero; hence the sizes agree. *)
Record Tracker_ok (t : PeerRequestTracker) : Prop := {
  fifo_distinct : NoDup (m_fifo t);
  lookup_fifo : m_lookup t = list_to_set (m_fifo t);
  fifo_bound : (length (m_fifo t) <= Nat.max 1 (m_limit t))%nat }.

Lemma Tracker_sizes t : Tracker_ok t -> size (m_lookup t) = length (m_fifo t).
Proof. intros [H1 H2 _]. rewrite H2. now apply size_list_to_set. Qed.

Lemma is_pending_spec t id : Tracker_ok t -> is_pending id t = true <-> id ∈ m_fifo t.
Proof. intros [_ H _]. unfold is_pending. rewrite bool_decide_eq_true, H. apply elem_of_list_to_set. Qed.

Lemma list_to_set_minus (x : HashedId3) l : x ∉ l -> list_to_set (x :: l) ∖ {[x]} =@{gset HashedId3} list_to_set l.
Proof. intros H. apply set_eq. intros y. cbn. rewrite elem_of_difference, elem_of_union, elem_of_singleton, elem_of_list_to_set. split; [tauto|]. intros Hy. split; [auto|]. intros ->. contradiction. Qed.

Lemma tracker_create_ok limit : Tracker_ok (Tracker_create limit).
Proof. split; cbn; [constructor|reflexivity|lia]. Qed.

Lemma add_request_ok id t : Tracker_ok t -> Tracker_ok (add_request id t).
Proof.
  intros H. unfold add_request. destruct (is_pending id t) eqn:E; [exact H|].
  assert (id ∉ m_fifo t) as Hn by (intros Hi; apply is_pending_spec in Hi; [congruence|exact H]). destruct H as [H1 H2 H3].
  assert (forall f, NoDup f -> id ∉ f -> NoDup (f ++ [id])) as Happ.
  { intros f Hf Hi. apply NoDup_app. split; [assumption|]. split; [|apply NoDup_singleton]. intros x Hx Hs. apply list_elem_of_singleton in Hs. congruence. }
  assert (forall f, {[id]} ∪ list_to_set f =@{gset HashedId3} list_to_set (f ++ [id])) as Hset.
  { intros f. apply set_eq. intros x. rewrite elem_of_union, elem_of_singleton, !elem_of_list_to_set, elem_of_app, list_elem_of_singleton. tauto. }
  destruct (m_fifo t) as [|front rest] eqn:Ef.
  - split; cbn; rewrite ?Ef; cbn [app length]; [apply NoDup_singleton|rewrite H2; apply (Hset [])|lia].
  - apply NoDup_cons in H1 as [Hf Hr]. destruct (Nat.leb_spec (m_limit t) (length (front :: rest))) as [Hl|Hl].
    + split; cbn [m_fifo m_lookup m_limit].
      * apply Happ; [assumption|]. intros Hi. apply Hn. now right.
      * rewrite H2, list_to_set_minus by assumption. apply Hset.
      * rewrite length_app. cbn in *. lia.
    + split; cbn [m_fifo m_lookup m_limit]; rewrite ?Ef.
      * apply Happ; [now constructor|assumption].
      * rewrite H2. apply Hset.
      * rewrite length_app. cbn in *. lia.
Qed.

Lemma discard_request_ok id t : Tracker_ok t -> Tracker_ok (discard_request id t).
Proof.
  intros H. unfold discard_request. destruct (is_pending id t); [|exact H]. destruct H as [H1 H2 H3]. split; cbn.
  - now apply NoDup_filter.
  - rewrite H2. apply set_eq. intros x. unfold erase_element. rewrite elem_of_difference, elem_of_singleton, !elem_of_list_to_set, list_elem_of_filter. tauto.
  - unfold erase_element. pose proof (length_filter (fun x => x <> id) (m_fifo t)). lia.
Qed.

Lemma next_one_ok t : Tracker_ok t -> Tracker_ok (next_one t).2.
Proof.
  intros H. unfold next_one. destruct (m_fifo t) as [|front rest] eqn:E; [exact H|]. destruct H as [H1 H2 H3]. rewrite E in *.
  apply NoDup_cons in H1 as [Hf Hr]. split; cbn; [assumption| |cbn in H3; lia]. rewrite H2. now apply list_to_set_minus.
Qed.

Lemma all_ok t : Tracker_ok t -> Tracker_ok (all t).2.
Proof. intros _. split; cbn; [constructor|reflexivity|lia]. Qed.

(** The tracker keeps its invariant; pending requests are those of the queue;
    a full queue loses its oldest request, and a request that is pending
    already changes nothing. *)
Theorem PeerRequestTracker_queue t : Tracker_ok t ->
  (forall id, Tracker_ok (add_request id t) /\ is_pending id (add_request id t) = true /\
     m_fifo (add_request id t) =
       (if is_pending id t then m_fifo t
        else (if (m_limit t <=? length (m_fifo t))%nat then tail (m_fifo t) else m_fifo t) ++ [id])) /\
  (forall id, Tracker_ok (discard_request id t) /\ m_fifo (discard_request id t) = filter (fun x => x <> id) (m_fifo t)) /\
  Tracker_ok (next_one t).2 /\ (next_one t).1 = head (m_fifo t) /\ m_fifo (next_one t).2 = tail (m_fifo t) /\
  (forall n, Tracker_ok (next_n n t).2 /\ (next_n n t).1 = take n (m_fifo t) /\ m_fifo (next_n n t).2 = drop n (m_fifo t)) /\
  size (m_lookup t) = length (m_fifo t).
Proof.
  intros H. split_all.
  - intros id. pose proof (add_request_ok id t H) as Ha. assert (m_fifo (add_request id t) =
      (if is_pending id t then m_fifo t else (if (m_limit t <=? length (m_fifo t))%nat then tail (m_fifo t) else m_fifo t) ++ [id])) as E.
    { unfold add_request. destruct (is_pending id t); [reflexivity|]. destruct (m_fifo t) as [|f r] eqn:Ef; cbn [m_fifo].
      - rewrite Ef. now destruct (m_limit t <=? _)%nat.
      - destruct (m_limit t <=? length (f :: r))%nat; cbn [m_fifo tail]; [reflexivity|now rewrite Ef]. }
    split_all; auto. apply is_pending_spec; [assumption|]. rewrite E. destruct (is_pending id t) eqn:Ep.
    + now apply is_pending_spec.
    + apply elem_of_app. right. now apply list_elem_of_singleton.
  - intros id. split; [now apply discard_request_ok|]. unfold discard_request. destruct (is_pending id t) eqn:E; [reflexivity|].
    assert (id ∉ m_fifo t) as Hn by (intros Hi; apply is_pending_spec in Hi; [congruence|exact H]).
    revert Hn. generalize (m_fifo t) as l. induction l as [|x l IH]; intros Hn; [reflexivity|]. apply not_elem_of_cons in Hn as [Hx Hl].
    rewrite filter_cons_True by congruence. now rewrite <- IH.
  - now apply next_one_ok.
  - unfold next_one. now destruct (m_fifo t).
  - unfold next_one. now destruct (m_fifo t) eqn:E; cbn; rewrite ?E.
  - intros n. unfold next_n. destruct (Nat.leb_spec (length (m_fifo t)) n) as [Hl|Hl].
    + split; [now apply all_ok|]. unfold all. cbn. now rewrite take_ge, drop_ge by lia.
    + split; [|split; reflexivity]. destruct H as [H1 H2 H3]. split; cbn.
      * rewrite <- (take_drop n (m_fifo t)) in H1. now apply NoDup_app in H1 as (_ & _ & ?).
      * rewrite H2, <- (take_drop n (m_fifo t)) at 1. rewrite <- (take_drop n (m_fifo t)) in H1. apply NoDup_app in H1 as (_ & Hd & _).
        apply set_eq. intros x. rewrite elem_of_difference, !elem_of_list_to_set, elem_of_app. specialize (Hd x). tauto.
      * rewrite length_drop. lia.
  - now apply Tracker_sizes.
Qed.

Lemma PeerRequestTracker_queue_witness :
  m_fifo (add_request [3] (add_request [2] (add_request [1] (Tracker_create 2)))) = [[2]; [3]].
Proof.
  destruct (PeerRequestTracker_queue (add_request [2] (add_request [1] (Tracker_create 2)))) as (H & _).
  - do 2 apply add_request_ok. apply tracker_create_ok.
  - destruct (H [3]) as (_ & _ & ->). vm_compute. reflexivity.
Defined.
