(* ===== verification/SignHeader.v ===== *)
(** Which signer identifier a message carries:
    ports/esp_idf/src/sign_header_policy.cpp.

    The clock, the own certificate and the position are arguments where the
    code asks for them. *)

From S2P Require Import Prelude Runtime Integer Permissions Regions Certificate SecuredMessage TrustStore CertificatePool PeerRequests.
From stdpp Require Import list gmap.

Open Scope Z_scope.

(** common/its_aid.hpp. *)
Definition aid_CA : Z := 36.
Definition aid_DEN : Z := 37.
Definition aid_VRU : Z := 638.
(** context::vam_cluster of security.hpp. *)
Definition vam_cluster : list Z := [1].

(** sign_service.hpp, the members the port reads. *)
Record SignRequest := mk_SignRequest { plain_message : list Z; req_its_aid : Z; context_information : list Z; self_signed : bool }.

(** A call returns, throws, or dereferences an empty optional. *)
Inductive Outcome (A : Type) := Returns (a : A) | Throws | Undefined.
Arguments Returns {A} _.
Arguments Throws {A}.
Arguments Undefined {A}.

Record HeaderPolicy := mk_Policy {
  cam_last_certificate : option Z;
  cam_certificate_requested : bool;
  incoming_requests : PeerRequestTracker;
  outgoing_requests : PeerRequestTracker;
  vam_last_certificate : option Z;
  new_cam_signer : bool;
  generic_last_certificate : gmap Z Z;
  signer_digest : option HashedId8 }.

Definition Policy_create : HeaderPolicy :=
  mk_Policy None false (Tracker_create default_limit) (Tracker_create default_limit) None false ∅ None.

Definition one_second : Z := 1000 * 1000.
Definition half_second : Z := 500 * 1000.

(** elapsed(). *)
Definition elapsed (last : option Z) (now interval : Z) : bool :=
  match last with None => true | Some t => interval <=? now - t end.

(** * The profiles *)

Section Policy.
Context {C : CertificateCodec} {A : Allocator}.

(** The loop that looks for a requested authority. *)
Fixpoint answer_requests (fuel : nat) (authorities : list Certificate) (t : PeerRequestTracker) (m : SecuredMessage) : PeerRequestTracker * SecuredMessage :=
  match fuel with
  | O => (t, m)
  | S fuel' =>
      match next_one t with
      | (None, t) => (t, m)
      | (Some requested, t) =>
          match find (fun a => match calculate_digest a with Some d => bool_decide (truncate d = requested) | None => false end) authorities with
          | Some a => (t, set_requested_certificate a m)
          | None => answer_requests fuel' authorities t m
          end
      end
  end.

Definition cam (trust : TrustConfiguration) (at_ : Certificate) (now : Z) (p : HeaderPolicy) (m : SecuredMessage) : Outcome (HeaderPolicy * SecuredMessage) :=
  let d := calculate_digest at_ in
  let '(requested, incoming) :=
    match d with
    | Some d => if is_pending (truncate d) (incoming_requests p)
                then (true, discard_request (truncate d) (incoming_requests p)) else (cam_certificate_requested p, incoming_requests p)
    | None => (cam_certificate_requested p, incoming_requests p)
    end in
  let '(unknown, outgoing) := all (outgoing_requests p) in
  if requested || elapsed (cam_last_certificate p) now one_second then
    let m := set_inline_p2pcd_request unknown (set_signer_identifier (Signer_certificate [at_]) m) in
    Returns (mk_Policy (Some now) false incoming outgoing (vam_last_certificate p) (new_cam_signer p) (generic_last_certificate p) (signer_digest p), m)
  else
    match d with
    | None => Undefined
    | Some d =>
        let m := set_inline_p2pcd_request unknown (set_signer_identifier (Signer_digest d) m) in
        let '(incoming, m) := answer_requests (length (m_fifo incoming)) (authorities trust) incoming m in
        Returns (mk_Policy (cam_last_certificate p) requested incoming outgoing (vam_last_certificate p) (new_cam_signer p) (generic_last_certificate p) (signer_digest p), m)
    end.

Definition denm (location : ThreeDLocation) (at_ : Certificate) (m : SecuredMessage) : SecuredMessage :=
  set_generation_location location (set_signer_identifier (Signer_certificate [at_]) m).

Definition vam (request : SignRequest) (at_ : Certificate) (now : Z) (p : HeaderPolicy) (m : SecuredMessage) : HeaderPolicy * SecuredMessage :=
  let cluster := bool_decide (context_information request = vam_cluster) in
  let attach := if cluster then elapsed (vam_last_certificate p) now half_second
                else new_cam_signer p || elapsed (vam_last_certificate p) now one_second in
  if attach then
    (mk_Policy (cam_last_certificate p) (cam_certificate_requested p) (incoming_requests p) (outgoing_requests p) (Some now) false (generic_last_certificate p) (signer_digest p),
     set_signer_identifier (Signer_certificate [at_]) m)
  else match calculate_digest at_ with
       | Some d => (p, set_signer_identifier (Signer_digest d) m)
       | None => (p, set_signer_identifier (Signer_certificate [at_]) m)
       end.

Definition generic (aid : Z) (at_ : Certificate) (now : Z) (p : HeaderPolicy) (m : SecuredMessage) : HeaderPolicy * SecuredMessage :=
  let d := calculate_digest at_ in
  match generic_last_certificate p !! aid, d with
  | Some t, Some d =>
      if one_second <=? now - t then
        (mk_Policy (cam_last_certificate p) (cam_certificate_requested p) (incoming_requests p) (outgoing_requests p) (vam_last_certificate p) (new_cam_signer p)
           (<[aid := now]> (generic_last_certificate p)) (signer_digest p), set_signer_identifier (Signer_certificate [at_]) m)
      else (p, set_signer_identifier (Signer_digest d) m)
  | _, _ =>
      (mk_Policy (cam_last_certificate p) (cam_certificate_requested p) (incoming_requests p) (outgoing_requests p) (vam_last_certificate p) (new_cam_signer p)
         (<[aid := now]> (generic_last_certificate p)) (signer_digest p), set_signer_identifier (Signer_certificate [at_]) m)
  end.

(** * The interface *)

Definition reset_after_identifier_change (p : HeaderPolicy) : HeaderPolicy :=
  mk_Policy None false (incoming_requests p) (outgoing_requests p) None (new_cam_signer p) ∅ (signer_digest p).

Definition prepare_header (request : SignRequest) (now : Z) (location : ThreeDLocation) (pool : CertificatePool) (trust : TrustConfiguration)
    (p : HeaderPolicy) (m : SecuredMessage) : Outcome (HeaderPolicy * SecuredMessage) :=
  let m := set_generation_time (convert_time64 now) (set_its_aid (req_its_aid request) m) in
  match own_certificate pool with
  | None => Throws
  | Some at_ =>
      let sd := calculate_digest at_ in
      let p :=
        if bool_decide (sd = signer_digest p) then p
        else let p := reset_after_identifier_change p in
             mk_Policy (cam_last_certificate p) (cam_certificate_requested p) (incoming_requests p) (outgoing_requests p) (vam_last_certificate p)
               (new_cam_signer p) (generic_last_certificate p) sd in
      if self_signed request then Returns (p, set_signer_identifier Signer_self m)
      else if req_its_aid request =? aid_CA then cam trust at_ now p m
      else if req_its_aid request =? aid_DEN then Returns (p, denm location at_ m)
      else if req_its_aid request =? aid_VRU then Returns (vam request at_ now p m)
      else Returns (generic (req_its_aid request) at_ now p m)
  end.

Definition request_unrecognized_certificate (id : HashedId8) (p : HeaderPolicy) : HeaderPolicy :=
  mk_Policy (cam_last_certificate p) (cam_certificate_requested p) (incoming_requests p) (add_request (truncate id) (outgoing_requests p))
    (vam_last_certificate p) (new_cam_signer p) (generic_last_certificate p) (signer_digest p).
Definition request_certificate (p : HeaderPolicy) : HeaderPolicy :=
  mk_Policy (cam_last_certificate p) true (incoming_requests p) (outgoing_requests p)
    (vam_last_certificate p) (new_cam_signer p) (generic_last_certificate p) (signer_digest p).
Definition enqueue_p2p_request (id : HashedId3) (p : HeaderPolicy) : HeaderPolicy :=
  mk_Policy (cam_last_certificate p) (cam_certificate_requested p) (add_request id (incoming_requests p)) (outgoing_requests p)
    (vam_last_certificate p) (new_cam_signer p) (generic_last_certificate p) (signer_digest p).
Definition discard_p2p_request (id : HashedId3) (p : HeaderPolicy) : HeaderPolicy :=
  mk_Policy (cam_last_certificate p) (cam_certificate_requested p) (discard_request id (incoming_requests p)) (outgoing_requests p)
    (vam_last_certificate p) (new_cam_signer p) (generic_last_certificate p) (signer_digest p).
Definition report_new_cam_signer (p : HeaderPolicy) : HeaderPolicy :=
  mk_Policy (cam_last_certificate p) (cam_certificate_requested p) (incoming_requests p) (outgoing_requests p)
    (vam_last_certificate p) true (generic_last_certificate p) (signer_digest p).

(** ** Histories *)

(** A call of the interface, the clock and the own tickets being what they
    are at the time. *)
Inductive PolicyCall :=
| Call_prepare (request : SignRequest) (now : Z) (location : ThreeDLocation) (pool : CertificatePool) (trust : TrustConfiguration)
| Call_unrecognized (id : HashedId8)
| Call_request
| Call_enqueue (id : HashedId3)
| Call_discard (id : HashedId3)
| Call_new_signer
| Call_reset.

(** A header that was prepared: when, for which application, with which
    signer. *)
Record Prepared := mk_Prepared { pr_time : Z; pr_aid : Z; pr_signer : SignerIdentifier }.

Definition signer_of (m : SecuredMessage) : SignerIdentifier := match get_signed_data m with Some sd => signer sd | None => Signer_NOTHING end.

(** No result when an empty optional was dereferenced. *)
Definition policy_step (c : PolicyCall) (s : HeaderPolicy * list Prepared) : option (HeaderPolicy * list Prepared) :=
  let '(p, h) := s in
  match c with
  | Call_prepare request now location pool trust =>
      match prepare_header request now location pool trust p with_signed_data with
      | Returns (p, m) => Some (p, h ++ [mk_Prepared now (its_aid m) (signer_of m)])
      | Throws => Some s
      | Undefined => None
      end
  | Call_unrecognized id => Some (request_unrecognized_certificate id p, h)
  | Call_request => Some (request_certificate p, h)
  | Call_enqueue id => Some (enqueue_p2p_request id p, h)
  | Call_discard id => Some (discard_p2p_request id p, h)
  | Call_new_signer => Some (report_new_cam_signer p, h)
  | Call_reset => Some (reset_after_identifier_change p, h)
  end.

Fixpoint policy_run (cs : list PolicyCall) (s : HeaderPolicy * list Prepared) : option (HeaderPolicy * list Prepared) :=
  match cs with [] => Some s | c :: cs' => match policy_step c s with Some s => policy_run cs' s | None => None end end.
End Policy.

(** * Prepared headers can be resolved *)

Section Resolvable.
Context {C : CertificateCodec} {A : Allocator}.

Lemma signer_of_on_header f m : signer_of (on_header f m) = signer_of m.
Proof. destruct m as [v [o|[sd|]| |]]; reflexivity. Qed.

Lemma header_of_on_header f m : header_of (on_header f m) = f <$> header_of m.
Proof. destruct m as [v [o|[[hid [t|] sg s]|]| |]]; reflexivity. Qed.


(** The loop leaves the signer and the application alone. *)
Lemma answer_requests_signer fuel authorities t m :
  signer_of (answer_requests fuel authorities t m).2 = signer_of m /\ its_aid (answer_requests fuel authorities t m).2 = its_aid m.
Proof.
  revert t. induction fuel as [|fuel IH]; intros t; [split; reflexivity|]. cbn [answer_requests]. destruct (next_one t) as [[r|] t']; [|split; reflexivity].
  destruct (find _ authorities) as [a|]; [|apply IH]. cbn [snd]. unfold set_requested_certificate. rewrite signer_of_on_header. split; [reflexivity|].
  unfold its_aid. rewrite header_of_on_header. now destruct (header_of m).
Qed.

(** A header with a certificate of digest [d] was prepared for the
    application at [t]. *)
Definition attached (h : list Prepared) (aid : Z) (d : option HashedId8) (t : Z) : Prop :=
  exists c, mk_Prepared t aid (Signer_certificate [c]) ∈ h /\ calculate_digest c = d.

(** The timers stand for headers with certificates of the current signer. *)
Record Policy_ok (p : HeaderPolicy) (h : list Prepared) : Prop := {
  cam_attached : forall t, cam_last_certificate p = Some t -> attached h aid_CA (signer_digest p) t;
  vam_attached : forall t, vam_last_certificate p = Some t -> attached h aid_VRU (signer_digest p) t;
  generic_attached : forall aid t, generic_last_certificate p !! aid = Some t -> attached h aid (signer_digest p) t }.

Lemma attached_app h x aid d t : attached h aid d t -> attached (h ++ [x]) aid d t.
Proof. intros (c & H & E). exists c. split; [|assumption]. apply elem_of_app. now left. Qed.

Lemma attached_last h aid c t : attached (h ++ [mk_Prepared t aid (Signer_certificate [c])]) aid (calculate_digest c) t.
Proof. exists c. split; [|reflexivity]. apply elem_of_app. right. now apply list_elem_of_singleton. Qed.

Lemma Policy_ok_app p h x : Policy_ok p h -> Policy_ok p (h ++ [x]).
Proof. intros [H1 H2 H3]. split; eauto using attached_app. Qed.

Lemma Policy_ok_reset p h sd : Policy_ok (mk_Policy None false (incoming_requests p) (outgoing_requests p) None (new_cam_signer p) ∅ sd) h.
Proof. split; cbn; discriminate. Qed.

(** Fields the timers do not depend on. *)
Lemma Policy_ok_same p q h : Policy_ok p h -> cam_last_certificate q = cam_last_certificate p -> vam_last_certificate q = vam_last_certificate p ->
  generic_last_certificate q = generic_last_certificate p -> signer_digest q = signer_digest p -> Policy_ok q h.
Proof. intros [H1 H2 H3] E1 E2 E3 E4. split; rewrite ?E1, ?E2, ?E3, E4; assumption. Qed.

(** What a profile does for [aid] at [now] with the ticket [c]. *)
Definition sends (aid now : Z) (c : Certificate) (p : HeaderPolicy) (h : list Prepared) (p' : HeaderPolicy) (m' : SecuredMessage) : Prop :=
  Policy_ok p' (h ++ [mk_Prepared now aid (signer_of m')]) /\ signer_digest p' = signer_digest p /\ its_aid m' = aid /\
  (signer_of m' = Signer_certificate [c] \/
   exists d t, signer_of m' = Signer_digest d /\ calculate_digest c = Some d /\ attached h aid (Some d) t /\ now - t < one_second).

Lemma elapsed_false last now i : elapsed last now i = false -> exists t, last = Some t /\ now - t < i.
Proof. destruct last as [t|]; [|discriminate]. cbn. intros H%Z.leb_gt. eauto. Qed.

Lemma cam_sends trust c now p h m p' m' : complete m -> its_aid m = aid_CA -> Policy_ok p h -> signer_digest p = calculate_digest c ->
  cam trust c now p m = Returns (p', m') -> sends aid_CA now c p h p' m'.
Proof.
  intros (sd & t & pl & d0 & Ec & Et & _) Ha Hok Hsd. destruct m as [v ct]. cbn in Ec. subst ct. destruct sd as [hid [t'|] sg sg0]; [|discriminate]. cbn in Et. injection Et as ->.
  unfold cam. set (inc := match calculate_digest c with Some d => _ | None => _ end). destruct inc as [requested incoming] eqn:Ei.
  destruct (all (outgoing_requests p)) as [unknown outgoing]. destruct (requested || elapsed (cam_last_certificate p) now one_second) eqn:Ef.
  - intros [= <- <-]. unfold sends. cbn [signer_digest]. unfold set_inline_p2pcd_request. rewrite signer_of_on_header. split_all; auto.
    + destruct Hok as [H1 H2 H3]. split; cbn; eauto using attached_app. intros t0 [= <-]. rewrite Hsd. apply attached_last.
  - destruct (calculate_digest c) as [d|] eqn:Ed; [|discriminate].
    match goal with |- context [answer_requests ?n ?a ?i ?m] => pose proof (answer_requests_signer n a i m) as [Hs Hid]; destruct (answer_requests n a i m) as [inc' m2] end.
    intros [= <- <-]. cbn [snd] in *. unfold sends. cbn [signer_digest]. rewrite Hs, Hid. unfold set_inline_p2pcd_request. rewrite signer_of_on_header. split_all; auto.
    + apply Policy_ok_app. now apply (Policy_ok_same p).
    + right. apply orb_false_iff in Ef as [_ Ef]. apply elapsed_false in Ef as (t0 & El & Hlt). exists d, t0. split_all; auto.
      destruct Hok as [H1 _ _]. specialize (H1 _ El). now rewrite Hsd in H1.
Qed.

Lemma vam_sends request c now p h m p' m' : complete m -> its_aid m = aid_VRU -> Policy_ok p h -> signer_digest p = calculate_digest c ->
  vam request c now p m = (p', m') -> sends aid_VRU now c p h p' m'.
Proof.
  intros (sd & t & pl & d0 & Ec & Et & _) Ha Hok Hsd. destruct m as [v ct]. cbn in Ec. subst ct. destruct sd as [hid [t'|] sg sg0]; [|discriminate]. cbn in Et. injection Et as ->.
  unfold vam. destruct (if bool_decide _ then _ else _) eqn:Ef.
  - intros [= <- <-]. unfold sends. cbn [signer_digest]. split_all; auto. destruct Hok as [H1 H2 H3]. split; cbn; eauto using attached_app.
    intros t0 [= <-]. rewrite Hsd. apply attached_last.
  - destruct (calculate_digest c) as [d|] eqn:Ed; intros [= <- <-]; unfold sends; split_all; auto using Policy_ok_app. right.
    assert (exists t0, vam_last_certificate p = Some t0 /\ now - t0 < one_second) as (t0 & El & Hlt).
    { destruct (bool_decide _) in Ef; [apply elapsed_false in Ef as (t0 & El & Hlt)|apply orb_false_iff in Ef as [_ Ef]; apply elapsed_false in Ef as (t0 & El & Hlt)];
        exists t0; unfold half_second, one_second in *; split; [assumption|lia|assumption|lia]. }
    exists d, t0. split_all; auto. destruct Hok as [_ H2 _]. specialize (H2 _ El). now rewrite Hsd in H2.
Qed.

Lemma generic_sends aid c now p h m p' m' : complete m -> its_aid m = aid -> Policy_ok p h -> signer_digest p = calculate_digest c ->
  generic aid c now p m = (p', m') -> sends aid now c p h p' m'.
Proof.
  intros (sd & t & pl & d0 & Ec & Et & _) Ha Hok Hsd. destruct m as [v ct]. cbn in Ec. subst ct. destruct sd as [hid [t'|] sg sg0]; [|discriminate]. cbn in Et. injection Et as ->.
  assert (forall m', signer_of m' = Signer_certificate [c] -> its_aid m' = aid ->
    sends aid now c p h (mk_Policy (cam_last_certificate p) (cam_certificate_requested p) (incoming_requests p) (outgoing_requests p) (vam_last_certificate p) (new_cam_signer p)
           (<[aid := now]> (generic_last_certificate p)) (signer_digest p)) m') as Hfull.
  { intros m1 Es Ea. unfold sends. rewrite Es. split_all; auto. destruct Hok as [H1 H2 H3]. split; cbn; eauto using attached_app.
    intros aid' t0 Ht. apply lookup_insert_Some in Ht as [[<- <-]|[_ Ht]]; [rewrite Hsd; apply attached_last|eauto using attached_app]. }
  unfold generic. destruct (generic_last_certificate p !! aid) as [t0|] eqn:El; [|intros [= <- <-]; now apply Hfull].
  destruct (calculate_digest c) as [d|] eqn:Ed; [|intros [= <- <-]; now apply Hfull].
  destruct (Z.leb_spec one_second (now - t0)) as [Hlt|Hlt]; intros [= <- <-]; [now apply Hfull|]. unfold sends. split_all; auto using Policy_ok_app.
  right. exists d, t0. split_all; auto. destruct Hok as [_ _ H3]. specialize (H3 _ _ El). now rewrite Hsd in H3.
Qed.

(** What every prepared header satisfies. *)
Lemma prepare_header_sends request now location pool trust p h p' m' : Policy_ok p h ->
  prepare_header request now location pool trust p with_signed_data = Returns (p', m') ->
  exists c, own_certificate pool = Some c /\ signer_digest p' = calculate_digest c /\ its_aid m' = req_its_aid request /\
    Policy_ok p' (h ++ [mk_Prepared now (its_aid m') (signer_of m')]) /\
    (self_signed request = true /\ signer_of m' = Signer_self \/
     self_signed request = false /\ (signer_of m' = Signer_certificate [c] \/
       req_its_aid request <> aid_DEN /\ exists d t, signer_of m' = Signer_digest d /\ calculate_digest c = Some d /\
         attached h (req_its_aid request) (Some d) t /\ now - t < one_second)).
Proof.
  intros Hok. unfold prepare_header. destruct (own_certificate pool) as [c|]; [|discriminate]. intros E. exists c. split; [reflexivity|].
  set (m0 := set_generation_time (convert_time64 now) (set_its_aid (req_its_aid request) with_signed_data)) in E.
  assert (complete m0) as Hm0 by (unfold complete; cbn; eauto 10). assert (its_aid m0 = req_its_aid request) as Ha0 by reflexivity. clearbody m0.
  set (p0 := if bool_decide _ then p else _) in E.
  assert (Policy_ok p0 h) as Hp0 by (unfold p0; destruct (bool_decide _); [assumption|apply Policy_ok_reset]).
  assert (signer_digest p0 = calculate_digest c) as Hs0.
  { unfold p0. destruct (bool_decide (calculate_digest c = signer_digest p)) eqn:Ed; [now apply bool_decide_eq_true in Ed|reflexivity]. }
  clearbody p0. destruct (self_signed request).
  - injection E as <- <-. destruct m0 as [v [o|[sd|]| |]]; try (destruct Hm0 as (? & ? & ? & ? & E & _); discriminate).
    split_all; auto. now apply Policy_ok_app.
  - destruct (Z.eqb_spec (req_its_aid request) aid_CA) as [Ec|Ec]; [|destruct (Z.eqb_spec (req_its_aid request) aid_DEN) as [Ed|Ed]; [|destruct (Z.eqb_spec (req_its_aid request) aid_VRU) as [Ev|Ev]]].
    + apply (cam_sends _ _ _ _ h) in E as (H1 & H2 & H3 & H4); [|assumption|congruence|assumption|assumption].
      rewrite Ec, H3, H2 in *. split_all; auto. right. split; [reflexivity|]. destruct H4 as [H4|H4]; [now left|right]. split; [discriminate|assumption].
    + injection E as <- <-. destruct m0 as [v [o|[sd|]| |]]; try (destruct Hm0 as (? & ? & ? & ? & E & _); discriminate).
      split_all; auto; [|now apply Policy_ok_app]. destruct sd as [hid [t|] sg s]; exact Ha0.
    + injection E as E. apply (vam_sends _ _ _ _ h) in E as (H1 & H2 & H3 & H4); [|assumption|congruence|assumption|assumption].
      rewrite Ev, H3, H2 in *. split_all; auto. right. split; [reflexivity|]. destruct H4 as [H4|H4]; [now left|right]. split; [discriminate|assumption].
    + injection E as E. apply (generic_sends _ _ _ _ h) in E as (H1 & H2 & H3 & H4); [|assumption|assumption|assumption|assumption].
      rewrite H3, H2 in *. split_all; auto. right. split; [reflexivity|]. destruct H4 as [H4|H4]; [now left|right]. auto.
Qed.

(** Digests in a history refer to certificates in headers before. *)
Definition resolvable (h : list Prepared) : Prop :=
  forall i now aid d, h !! i = Some (mk_Prepared now aid (Signer_digest d)) ->
  exists j t c, (j < i)%nat /\ h !! j = Some (mk_Prepared t aid (Signer_certificate [c])) /\ calculate_digest c = Some d /\ now - t < one_second.

Lemma resolvable_app h now aid s : resolvable h ->
  (forall d, s = Signer_digest d -> exists t, attached h aid (Some d) t /\ now - t < one_second) -> resolvable (h ++ [mk_Prepared now aid s]).
Proof.
  intros Hr Hs i now' aid' d E. apply lookup_app_Some in E as [E|[Hi E]].
  - destruct (Hr _ _ _ _ E) as (j & t & c & Hj & Ej & H). exists j, t, c. split; [assumption|]. split; [|assumption].
    rewrite lookup_app_l; [assumption|]. eapply lookup_lt_Some, Ej.
  - destruct (i - length h)%nat as [|k] eqn:Ek; [|destruct k; discriminate]. injection E as <- <- ->. destruct (Hs d eq_refl) as (t & (c & Hin & Ec) & Hlt).
    apply list_elem_of_lookup in Hin as [j Ej]. exists j, t, c. pose proof (lookup_lt_Some _ _ _ Ej). split; [lia|]. rewrite lookup_app_l by assumption. auto.
Qed.

Lemma policy_step_ok c p h p' h' : Policy_ok p h -> resolvable h -> policy_step c (p, h) = Some (p', h') -> Policy_ok p' h' /\ resolvable h'.
Proof.
  intros Hok Hr. destruct c as [request now location pool trust|id|  |id|id| |]; cbn [policy_step];
    try (intros [= <- <-]; split; [now apply (Policy_ok_same p)|assumption]).
  - destruct (prepare_header _ _ _ _ _ _ _) as [[p1 m1]| |] eqn:E; [|intros [= <- <-]; auto|discriminate]. intros [= <- <-].
    apply (prepare_header_sends _ _ _ _ _ _ h) in E as (c & _ & _ & Ha & H1 & H2); [|assumption]. split; [assumption|].
    apply resolvable_app; [assumption|]. intros d Ed. rewrite Ed, Ha in *. destruct H2 as [[_ H2]|[_ [H2|(_ & d' & t & H2 & _ & Hatt & Hlt)]]]; try discriminate.
    injection H2 as <-. eauto.
  - intros [= <- <-]. split; [apply Policy_ok_reset|assumption].
Qed.

(** C13.  The headers that are prepared can be resolved: in every history of
    calls, with any tickets, clock and requests of peers, a header prepared
    with a digest follows a header prepared for the same application with the
    certificate of this digest, less than a second before; a change of the
    ticket never lets a digest out before its certificate.  This is about
    headers, not about messages that were sent: the sign service may refuse a
    message whose header was prepared already, and then the next one carries a
    digest of a certificate that was not sent
    (SecurityExamples.refused_message_restarts_timers). *)
Theorem digests_resolvable cs p h : policy_run cs (Policy_create, []) = Some (p, h) -> resolvable h.
Proof.
  assert (forall s, Policy_ok s.1 s.2 -> resolvable s.2 -> policy_run cs s = Some (p, h) -> resolvable h) as H.
  { induction cs as [|c cs IH]; intros [p0 h0] H1 H2; cbn [policy_run]; [intros [= <- <-]; assumption|].
    destruct (policy_step c (p0, h0)) as [[p1 h1]|] eqn:E; [|discriminate]. apply (policy_step_ok _ _ _ _ _ H1 H2) in E as [H3 H4]. now apply IH. }
  apply H; [split; cbn; discriminate|]. intros i now aid d. cbn. now rewrite lookup_nil.
Qed.

(** ** The profiles *)


(** A cooperative awareness message carries the certificate exactly when it
    was asked for, by a station that saw a digest it does not know or by a
    request of a peer, when the ticket is new, or after a second. *)
Definition cam_due (p : HeaderPolicy) (d : HashedId8) (now : Z) : Prop :=
  signer_digest p <> Some d \/ cam_certificate_requested p = true \/ is_pending (truncate d) (incoming_requests p) = true \/
  elapsed (cam_last_certificate p) now one_second = true.

Lemma answer_requests_answer fuel authorities t m :
  (answer_requests fuel authorities t m).2 = m \/
  exists a d, a ∈ authorities /\ calculate_digest a = Some d /\ truncate d ∈ m_fifo t /\ (answer_requests fuel authorities t m).2 = set_requested_certificate a m.
Proof.
  revert t. induction fuel as [|fuel IH]; intros t; [now left|]. cbn [answer_requests]. unfold next_one.
  destruct (m_fifo t) as [|front rest] eqn:Ef; [now left|]. cbn [m_fifo]. destruct (find _ authorities) as [a|] eqn:Ea.
  - right. apply find_some in Ea as [Hin E]. destruct (calculate_digest a) as [d|] eqn:Ed; [|discriminate]. apply bool_decide_eq_true in E.
    exists a, d. split_all; auto; [now apply list_elem_of_In|rewrite E; now left].
  - destruct (IH (mk_Tracker (m_limit t) rest (m_lookup t ∖ {[front]}))) as [H|(a & d & H1 & H2 & H3 & H4)]; [now left|right].
    exists a, d. split_all; auto. now right.
Qed.

Theorem cam_profile request now location pool trust p c d : req_its_aid request = aid_CA -> self_signed request = false ->
  own_certificate pool = Some c -> calculate_digest c = Some d ->
  exists p' m', prepare_header request now location pool trust p with_signed_data = Returns (p', m') /\
    (cam_due p d now /\ signer_of m' = Signer_certificate [c] /\ (requestedCertificate <$> header_of m') = Some None \/
     ~ cam_due p d now /\ signer_of m' = Signer_digest d /\
       ((requestedCertificate <$> header_of m') = Some None \/
        exists a d', a ∈ authorities trust /\ calculate_digest a = Some d' /\ truncate d' ∈ m_fifo (incoming_requests p) /\
          (requestedCertificate <$> header_of m') = Some (Some a))) /\
    (inlineP2pcdRequest <$> header_of m') = Some (match m_fifo (outgoing_requests p) with [] => None | l => Some l end) /\
    m_fifo (outgoing_requests p') = [].
Proof.
  intros Hreq Hself Hown Hd. unfold prepare_header. rewrite Hown, Hself, Hreq, Z.eqb_refl, Hd.
  set (p0 := if bool_decide _ then p else _).
  assert (incoming_requests p0 = incoming_requests p /\ outgoing_requests p0 = outgoing_requests p) as [Hi Ho] by (unfold p0; now destruct (bool_decide _)).
  assert (cam_due p d now <-> is_pending (truncate d) (incoming_requests p) = true \/ cam_certificate_requested p0 || elapsed (cam_last_certificate p0) now one_second = true) as Hdue.
  { unfold cam_due, p0. destruct (bool_decide (Some d = signer_digest p)) eqn:E; [apply bool_decide_eq_true in E|apply bool_decide_eq_false in E].
    - rewrite orb_true_iff. intuition congruence.
    - cbn. intuition congruence. }
  clearbody p0. unfold cam, all. rewrite Hd, Hi, Ho.
  assert (forall s, (requestedCertificate <$> header_of (set_inline_p2pcd_request (m_fifo (outgoing_requests p)) (set_signer_identifier s
      (set_generation_time (convert_time64 now) (set_its_aid aid_CA with_signed_data))))) = Some None) as Hnone by reflexivity.
  destruct (is_pending (truncate d) (incoming_requests p)) eqn:Ep.
  - cbn [orb]. eexists _, _. split; [reflexivity|]. split_all; [left|now destruct (m_fifo (outgoing_requests p))|reflexivity]. split; [apply Hdue; now left|auto].
  - destruct (cam_certificate_requested p0 || elapsed (cam_last_certificate p0) now one_second) eqn:Ef.
    + eexists _, _. split; [reflexivity|]. split_all; [left|now destruct (m_fifo (outgoing_requests p))|reflexivity]. split; [apply Hdue; now right|auto].
    + match goal with |- context [answer_requests ?n ?a ?i ?m] => pose proof (answer_requests_signer n a i m) as [Hs _]; pose proof (answer_requests_answer n a i m) as Ha;
        destruct (answer_requests n a i m) as [inc m2] end.
      cbn [snd] in Hs, Ha. eexists _, _. split; [reflexivity|]. split_all; [right| |reflexivity].
      * split; [rewrite Hdue; intuition congruence|]. rewrite Hs. split; [reflexivity|].
        destruct Ha as [->|(a & d' & H1 & H2 & H3 & ->)]; [now left|right]. exists a, d'. auto.
      * destruct Ha as [->|(a & d' & H1 & H2 & H3 & ->)]; now destruct (m_fifo (outgoing_requests p)).
Qed.

(** The other profiles: an event message always carries the certificate and
    the location; a message of vulnerable road users carries it by its own
    timer, twice as often for a cluster; every other application has a timer
    of its own; and a self-signed one carries no certificate. *)
Theorem other_profiles request now location pool trust p c d : own_certificate pool = Some c -> calculate_digest c = Some d ->
  exists p' m', prepare_header request now location pool trust p with_signed_data = Returns (p', m') /\ generation_time m' = generation_time (set_generation_time (convert_time64 now) with_signed_data) /\
  (self_signed request = true -> signer_of m' = Signer_self) /\
  (self_signed request = false -> req_its_aid request = aid_DEN ->
     signer_of m' = Signer_certificate [c] /\ (generationLocation <$> header_of m') = Some (Some location)) /\
  (self_signed request = false -> req_its_aid request = aid_VRU ->
     (signer_of m' = Signer_certificate [c] <->
      signer_digest p <> Some d \/
      (if bool_decide (context_information request = vam_cluster) then elapsed (vam_last_certificate p) now half_second
       else new_cam_signer p || elapsed (vam_last_certificate p) now one_second) = true)) /\
  (self_signed request = false -> req_its_aid request <> aid_CA -> req_its_aid request <> aid_DEN -> req_its_aid request <> aid_VRU ->
     (signer_of m' = Signer_certificate [c] <->
      signer_digest p <> Some d \/ elapsed (generic_last_certificate p !! req_its_aid request) now one_second = true)).
Proof.
  intros Hown Hd. unfold prepare_header. rewrite Hown, Hd. set (p0 := if bool_decide _ then p else _).
  assert (Hp0 : signer_digest p = Some d /\ p0 = p \/ signer_digest p <> Some d /\ cam_last_certificate p0 = None /\ vam_last_certificate p0 = None /\ generic_last_certificate p0 = ∅).
  { unfold p0. destruct (bool_decide (Some d = signer_digest p)) eqn:E; [apply bool_decide_eq_true in E|apply bool_decide_eq_false in E]; [left|right]; split_all; auto. }
  clearbody p0. destruct (self_signed request); [eexists _, _; split; [reflexivity|]; split_all; (reflexivity || discriminate)|].
  destruct (Z.eqb_spec (req_its_aid request) aid_CA) as [Ec|Ec].
  { unfold cam, all. rewrite Hd. destruct (if is_pending _ _ then _ else _) as [requested incoming]. destruct (requested || _).
    - eexists _, _. split; [reflexivity|]. rewrite Ec. split_all; try discriminate; try reflexivity; congruence.
    - match goal with |- context [answer_requests ?n ?a ?i ?m] => pose proof (answer_requests_answer n a i m) as Ha; destruct (answer_requests n a i m) as [inc m2] end.
      cbn [snd] in Ha. eexists _, _. split; [reflexivity|]. rewrite Ec. split_all; try discriminate; try congruence.
      all: try (intros _ E; discriminate E). all: try congruence. destruct Ha as [->|(a & d' & H1 & H2 & H3 & ->)]; reflexivity. }
  destruct (Z.eqb_spec (req_its_aid request) aid_DEN) as [Ed|Ed].
  { eexists _, _. split; [reflexivity|]. rewrite Ed. split_all; try discriminate; try congruence; try reflexivity; intros; split_all; reflexivity. }
  destruct (Z.eqb_spec (req_its_aid request) aid_VRU) as [Ev|Ev].
  { unfold vam. set (att := if bool_decide _ then _ else _).
    assert (att = true <-> signer_digest p <> Some d \/
      (if bool_decide (context_information request = vam_cluster) then elapsed (vam_last_certificate p) now half_second
       else new_cam_signer p || elapsed (vam_last_certificate p) now one_second) = true) as Hatt.
    { unfold att. destruct Hp0 as [[Hs ->]|(Hs & _ & Hv & _)]; [intuition congruence|]. rewrite Hv. cbn [elapsed]. rewrite orb_true_r. destruct (bool_decide _); intuition congruence. }
    clearbody att. destruct att; [|rewrite Hd]; (eexists _, _; split; [reflexivity|]; split_all; try discriminate; try congruence; try reflexivity; intros _ _; rewrite <- Hatt; cbn; intuition congruence). }
  unfold generic. rewrite Hd. assert (elapsed (generic_last_certificate p0 !! req_its_aid request) now one_second = true <->
    signer_digest p <> Some d \/ elapsed (generic_last_certificate p !! req_its_aid request) now one_second = true) as Hg.
  { destruct Hp0 as [[Hs ->]|(Hs & _ & _ & ->)]; [intuition congruence|]. rewrite lookup_empty. cbn. intuition congruence. }
  destruct (generic_last_certificate p0 !! req_its_aid request) as [t|]; cbn [elapsed] in Hg; [destruct (one_second <=? now - t)|];
    (eexists _, _; split; [reflexivity|]; split_all; try discriminate; try congruence; try reflexivity; intros _ _ _ _; rewrite <- Hg; cbn; intuition congruence).
Qed.
End Resolvable.

(** ** Examples *)

Section Examples.
#[local] Existing Instance example_codec.
#[local] Existing Instance example_backend.
#[local] Instance example_allocator : Allocator := fun _ => true.

Definition example_location : ThreeDLocation := mk_ThreeD 480000000 110000000 4096.
Definition example_request (aid : Z) : SignRequest := mk_SignRequest [1; 2; 3] aid [] false.
Definition at_ms (t : Z) : Z := 1001 * second + t * 1000.
Definition prepare_at (aid t : Z) (pool : CertificatePool) : PolicyCall := Call_prepare (example_request aid) (at_ms t) example_location pool Trust_empty.

(** Two messages with one ticket, one after its change, and one a second
    later. *)
Definition example_calls : list PolicyCall :=
  [prepare_at aid_CA 0 example_pool; prepare_at aid_CA 100 example_pool; prepare_at aid_VRU 150 example_pool;
   prepare_at aid_CA 200 (select id2 example_pool).2; prepare_at aid_CA 1100 (select id2 example_pool).2;
   prepare_at aid_CA 1200 (select id2 example_pool).2; prepare_at aid_DEN 1300 (select id2 example_pool).2].

Definition digest_sent (s : SignerIdentifier) : option HashedId8 := match s with Signer_digest d => Some d | _ => None end.

Lemma digests_resolvable_witness : exists p h, policy_run example_calls (Policy_create, []) = Some (p, h) /\
  map (fun x => digest_sent (pr_signer x)) h = [None; Some id1; None; None; Some id2; None; None] /\ resolvable h.
Proof.
  destruct (policy_run example_calls (Policy_create, [])) as [[p h]|] eqn:E; [|vm_compute in E; discriminate].
  exists p, h. split; [reflexivity|]. split; [|exact (digests_resolvable example_calls p h E)].
  vm_compute in E. injection E as _ <-. vm_compute. reflexivity.
Defined.

Lemma cam_profile_witness : exists p' m',
  prepare_header (example_request aid_CA) (at_ms 0) example_location example_pool Trust_empty (request_certificate Policy_create) with_signed_data = Returns (p', m') /\
  signer_of m' = Signer_certificate [ticket_of id1 (hours 2)].
Proof.
  destruct (cam_profile (example_request aid_CA) (at_ms 0) example_location example_pool Trust_empty (request_certificate Policy_create)
    (ticket_of id1 (hours 2)) id1) as (p' & m' & E & H & _); try (vm_compute; reflexivity).
  exists p', m'. split; [exact E|]. destruct H as [(_ & H & _)|(Hn & _)]; [exact H|]. exfalso. apply Hn. left. discriminate.
Defined.

Lemma other_profiles_witness : exists p' m',
  prepare_header (example_request aid_DEN) (at_ms 0) example_location example_pool Trust_empty Policy_create with_signed_data = Returns (p', m') /\
  signer_of m' = Signer_certificate [ticket_of id1 (hours 2)] /\ (generationLocation <$> header_of m') = Some (Some example_location).
Proof.
  destruct (other_profiles (example_request aid_DEN) (at_ms 0) example_location example_pool Trust_empty Policy_create
    (ticket_of id1 (hours 2)) id1) as (p' & m' & E & _ & _ & H & _); try (vm_compute; reflexivity).
  exists p', m'. split; [exact E|]. exact (H eq_refl eq_refl).
Defined.
End Examples.
