(* ===== verification/Credentials.v ===== *)
(** A station's provisioned credentials and the octets they are kept in:
    ports/esp_idf/src/credentials.cpp. *)

From S2P Require Import Prelude Permissions Regions Certificate TrustStore CertificatePool.
From stdpp Require Import list.

Open Scope Z_scope.

Record CredentialTicket := mk_CredentialTicket { ct_certificate : list Z; ct_key : PrivateKey }.
Record Credentials := mk_Credentials { cr_roots : list (list Z); cr_authorities : list (list Z); cr_tickets : list CredentialTicket }.

(** * Encoding *)

(** The characters V, C, R and 1, and the record types. *)
Definition magic : list Z := [86; 67; 82; 49].
Definition rec_root : Z := 1.
Definition rec_authority : Z := 2.
Definition rec_ticket : Z := 3.
Definition rec_ticket_key : Z := 4.

Definition curve_code (type : KeyType) : Z :=
  match type with NistP256 => 1 | BrainpoolP256r1 => 2 | BrainpoolP384r1 => 3 | KeyType_Unspecified => 0 end.
Definition curve_type (code : Z) : KeyType :=
  if code =? 1 then NistP256 else if code =? 2 then BrainpoolP256r1 else if code =? 3 then BrainpoolP384r1 else KeyType_Unspecified.

(** put(): the length is cut to sixteen bits. *)
Definition put (type : Z) (payload : list Z) : list Z :=
  let size := Z.of_nat (length payload) in type :: u8 (size ≫ 8) :: u8 size :: payload.

Definition encode_ticket (t : CredentialTicket) : list Z :=
  put rec_ticket (ct_certificate t) ++ put rec_ticket_key (curve_code (priv_type (ct_key t)) :: priv_key (ct_key t)).

Definition encode (c : Credentials) : list Z :=
  magic ++ flat_map (put rec_root) (cr_roots c) ++ flat_map (put rec_authority) (cr_authorities c) ++ flat_map encode_ticket (cr_tickets c).

(** * Decoding *)

(** Set the key of the last ticket. *)
Definition set_last_key (k : PrivateKey) (ts : list CredentialTicket) : list CredentialTicket :=
  match reverse ts with
  | [] => []
  | t :: ts' => reverse ts' ++ [mk_CredentialTicket (ct_certificate t) k]
  end.

(** The switch over the type of a record, with [key_pending]; no result when
    decode() returns false. *)
Definition decode_record (type : Z) (payload : list Z) (parsed : Credentials) (key_pending : bool) : option (Credentials * bool) :=
  if key_pending && negb (type =? rec_ticket_key) then None
  else if type =? rec_root then Some (mk_Credentials (cr_roots parsed ++ [payload]) (cr_authorities parsed) (cr_tickets parsed), key_pending)
  else if type =? rec_authority then Some (mk_Credentials (cr_roots parsed) (cr_authorities parsed ++ [payload]) (cr_tickets parsed), key_pending)
  else if type =? rec_ticket then
    Some (mk_Credentials (cr_roots parsed) (cr_authorities parsed) (cr_tickets parsed ++ [mk_CredentialTicket payload (mk_PrivateKey KeyType_Unspecified [])]), true)
  else if type =? rec_ticket_key then
    if negb key_pending then None
    else
      let curve := curve_type (hd 0 payload) in
      if bool_decide (curve = KeyType_Unspecified) || negb (length payload - 1 =? key_length curve)%nat then None
      else Some (mk_Credentials (cr_roots parsed) (cr_authorities parsed) (set_last_key (mk_PrivateKey curve (tail payload)) (cr_tickets parsed)), false)
  else None.

(** The loop over the octets that are left. *)
Fixpoint decode_records (fuel : nat) (rest : list Z) (parsed : Credentials) (key_pending : bool) : option Credentials :=
  match fuel with
  | O => None
  | S fuel' =>
      match rest with
      | [] => if key_pending then None else Some parsed
      | type :: hi :: lo :: rest =>
          let len := Z.to_nat (Z.lor (hi ≪ 8) lo) in
          if (length rest <? len)%nat || (len =? 0)%nat then None
          else match decode_record type (take len rest) parsed key_pending with
               | Some (parsed, key_pending) => decode_records fuel' (drop len rest) parsed key_pending
               | None => None
               end
      | _ => None
      end
  end.

Definition decode (bundle : list Z) : option Credentials :=
  if (length bundle <? 4)%nat || negb (bool_decide (take 4 bundle = magic)) then None
  else decode_records (S (length bundle)) (drop 4 bundle) (mk_Credentials [] [] []) false.

(** * Feeding them *)

Record ApplyReport := mk_Report { rp_roots : nat; rp_authorities : nat; rp_tickets : nat; rp_result : Result }.

Section Apply.
Context {C : CertificateCodec} {B : Backend}.

(** One loop of apply(): stop at the first refusal. *)
Fixpoint apply_each {X St} (add1 : X -> St -> Result * St) (xs : list X) (s : St) (n : nat) : Result * nat * St :=
  match xs with
  | [] => (accepted, n, s)
  | x :: xs' => let '(r, s) := add1 x s in if bool_decide (r = accepted) then apply_each add1 xs' s (S n) else (r, n, s)
  end.

Definition apply (c : Credentials) (trust : TrustConfiguration) (pool : CertificatePool) : ApplyReport * TrustConfiguration * CertificatePool :=
  let '(r, nr, trust) := apply_each add_root_coer (cr_roots c) trust 0 in
  if negb (bool_decide (r = accepted)) then (mk_Report nr 0 0 r, trust, pool)
  else
    let '(r, na, trust) := apply_each add_authority_coer (cr_authorities c) trust 0 in
    if negb (bool_decide (r = accepted)) then (mk_Report nr na 0 r, trust, pool)
    else
      let '(r, nt, pool) := apply_each (fun t => add_coer (ct_certificate t) (ct_key t)) (cr_tickets c) pool 0 in
      (mk_Report nr na nt r, trust, pool).
End Apply.

(** * Round trip *)

(** What a bundle can hold: no empty payloads, none above sixteen bits, and
    keys of the known curves. *)
Definition payload_ok (p : list Z) : Prop := octets p /\ 0 < Z.of_nat (length p) < 65536.
Definition ticket_payload_ok (t : CredentialTicket) : Prop :=
  payload_ok (ct_certificate t) /\ octets (priv_key (ct_key t)) /\ priv_type (ct_key t) <> KeyType_Unspecified /\
  length (priv_key (ct_key t)) = key_length (priv_type (ct_key t)).
Definition Credentials_ok (c : Credentials) : Prop :=
  Forall payload_ok (cr_roots c) /\ Forall payload_ok (cr_authorities c) /\ Forall ticket_payload_ok (cr_tickets c).

Lemma curve_roundtrip t : t <> KeyType_Unspecified -> curve_type (curve_code t) = t.
Proof. now destruct t. Qed.

Lemma put_length (payload : list Z) : Z.of_nat (length payload) < 65536 ->
  Z.to_nat (Z.lor (u8 (Z.of_nat (length payload) ≫ 8) ≪ 8) (u8 (Z.of_nat (length payload)))) = length payload.
Proof.
  intros H. set (n := Z.of_nat (length payload)). rewrite shift_or_octet by apply u8_octet.
  rewrite Z.shiftr_div_pow2 by lia. unfold uwrap. change (2 ^ 8) with 256. rewrite (Z.mod_small (n / 256)) by (split; [apply Z.div_pos|apply Z.div_lt_upper_bound]; lia).
  rewrite Z.mul_comm, <- Z.div_mod by lia. unfold n. lia.
Qed.

(** One record at the head of the octets is decoded and taken away. *)
Lemma decode_put fuel type payload rest parsed pending : 0 < Z.of_nat (length payload) < 65536 ->
  decode_records (S fuel) (put type payload ++ rest) parsed pending =
  match decode_record type payload parsed pending with Some (p, k) => decode_records fuel rest p k | None => None end.
Proof.
  intros H. unfold put. cbn [app decode_records]. rewrite put_length by lia. rewrite length_app.
  rewrite (proj2 (Nat.ltb_ge _ _)) by lia. rewrite (proj2 (Nat.eqb_neq _ _)) by lia. cbn [orb].
  now rewrite take_app_length, drop_app_length.
Qed.

Lemma decode_roots fuel rs rest r0 a t : Forall payload_ok rs ->
  decode_records (length rs + fuel) (flat_map (put rec_root) rs ++ rest) (mk_Credentials r0 a t) false =
  decode_records fuel rest (mk_Credentials (r0 ++ rs) a t) false.
Proof.
  intros H. revert r0. induction H as [|r rs [_ Hr] Hrs IH]; intros r0; cbn [length flat_map Nat.add app]; [now rewrite app_nil_r|].
  rewrite <- app_assoc, decode_put by assumption. cbn [decode_record andb]. rewrite Z.eqb_refl. cbn [cr_roots cr_authorities cr_tickets].
  rewrite IH, <- app_assoc. reflexivity.
Qed.

Lemma decode_authorities fuel xs rest r a0 t : Forall payload_ok xs ->
  decode_records (length xs + fuel) (flat_map (put rec_authority) xs ++ rest) (mk_Credentials r a0 t) false =
  decode_records fuel rest (mk_Credentials r (a0 ++ xs) t) false.
Proof.
  intros H. revert a0. induction H as [|x xs [_ Hx] Hxs IH]; intros a0; cbn [length flat_map Nat.add app]; [now rewrite app_nil_r|].
  rewrite <- app_assoc, decode_put by assumption. unfold decode_record. cbn [andb]. change (rec_authority =? rec_root) with false. rewrite Z.eqb_refl.
  cbn [cr_roots cr_authorities cr_tickets]. rewrite IH, <- app_assoc. reflexivity.
Qed.

Lemma set_last_key_app k ts t : set_last_key k (ts ++ [t]) = ts ++ [mk_CredentialTicket (ct_certificate t) k].
Proof. unfold set_last_key. now rewrite reverse_snoc, reverse_involutive. Qed.

Lemma key_length_bound t : (key_length t <= 48)%nat.
Proof. destruct t; cbn; lia. Qed.

Lemma decode_tickets fuel xs rest r a t0 : Forall ticket_payload_ok xs ->
  decode_records (2 * length xs + fuel) (flat_map encode_ticket xs ++ rest) (mk_Credentials r a t0) false =
  decode_records fuel rest (mk_Credentials r a (t0 ++ xs)) false.
Proof.
  intros H. revert t0. induction H as [|x xs (Hc & _ & Ht & Hk) Hxs IH]; intros t0; cbn [length flat_map app]; [now rewrite app_nil_r|].
  replace (2 * S (length xs) + fuel)%nat with (S (S (2 * length xs + fuel))) by lia. unfold encode_ticket at 1. rewrite <- !app_assoc.
  rewrite decode_put by apply Hc. unfold decode_record at 1. cbn [andb]. change (rec_ticket =? rec_root) with false. change (rec_ticket =? rec_authority) with false. rewrite Z.eqb_refl.
  pose proof (key_length_bound (priv_type (ct_key x))). rewrite decode_put by (cbn [length]; lia).
  unfold decode_record at 1. cbn [cr_roots cr_authorities cr_tickets hd tail length]. change (rec_ticket_key =? rec_root) with false. change (rec_ticket_key =? rec_authority) with false.
  change (rec_ticket_key =? rec_ticket) with false. rewrite Z.eqb_refl. cbn [negb andb]. rewrite curve_roundtrip by assumption.
  rewrite bool_decide_false by assumption. cbn [orb]. replace (S (length (priv_key (ct_key x))) - 1)%nat with (length (priv_key (ct_key x))) by lia.
  rewrite Hk, Nat.eqb_refl. cbn [negb]. rewrite set_last_key_app, IH, <- app_assoc. cbn [ct_certificate app]. destruct x as [cert [ty k]]. reflexivity.
Qed.

Lemma decode_more_fuel n m rest parsed pending c : (n <= m)%nat -> decode_records n rest parsed pending = Some c -> decode_records m rest parsed pending = Some c.
Proof.
  revert m rest parsed pending. induction n as [|n IH]; intros [|m] rest parsed pending Hm; try discriminate; [lia|]. cbn [decode_records].
  destruct rest as [|ty [|hi [|lo rest]]]; try discriminate; [auto|]. destruct (_ || _); [discriminate|].
  destruct (decode_record _ _ _ _) as [[p k]|]; [|discriminate]. apply IH. lia.
Qed.

Lemma decode_encode c : Credentials_ok c -> decode (encode c) = Some c.
Proof.
  intros (Hr & Ha & Ht). destruct c as [r a t]. cbn in Hr, Ha, Ht. unfold decode, encode. cbn [cr_roots cr_authorities cr_tickets].
  rewrite length_app. change (length magic) with 4%nat. rewrite (proj2 (Nat.ltb_ge _ _)) by lia. cbn [orb].
  rewrite (take_app_length' magic) by reflexivity. rewrite bool_decide_true by reflexivity. cbn [negb]. rewrite (drop_app_length' magic) by reflexivity.
  apply (decode_more_fuel (length r + (length a + (2 * length t + 1)))).
  - assert (forall ty xs, (length xs <= length (flat_map (put ty) xs))%nat) as Hl by (intros ty xs; induction xs as [|x xs IH]; cbn; rewrite ?length_app; lia).
    assert (2 * length t <= length (flat_map encode_ticket t))%nat as Hlt.
    { clear. induction t as [|x t IH]; cbn [flat_map length]; [lia|]. rewrite length_app. unfold encode_ticket at 1, put. rewrite length_app. cbn [length]. lia. }
    pose proof (Hl rec_root r). pose proof (Hl rec_authority a). rewrite !length_app. lia.
  - rewrite decode_roots, decode_authorities by assumption. rewrite <- (app_nil_r (flat_map encode_ticket t)), decode_tickets by assumption. reflexivity.
Qed.

(** C23.  The bundle round trip: every set of credentials the format can hold
    is decoded from its bundle. *)
Theorem credentials_roundtrip c : Credentials_ok c -> decode (encode c) = Some c.
Proof. apply decode_encode. Qed.

(** ** What is decoded *)

Definition parsed_ok (c : Credentials) (pending : bool) : Prop :=
  Forall payload_ok (cr_roots c) /\ Forall payload_ok (cr_authorities c) /\
  if pending then exists ts t, cr_tickets c = ts ++ [t] /\ Forall ticket_payload_ok ts /\ payload_ok (ct_certificate t)
  else Forall ticket_payload_ok (cr_tickets c).

Lemma decode_record_ok type payload c pending c' pending' : parsed_ok c pending -> payload_ok payload ->
  decode_record type payload c pending = Some (c', pending') -> parsed_ok c' pending'.
Proof.
  intros (H1 & H2 & H3) Hp. unfold decode_record. destruct (pending && negb (type =? rec_ticket_key)) eqn:E; [discriminate|].
  assert (forall l, Forall payload_ok l -> Forall payload_ok (l ++ [payload])) as Happ by (intros l Hl; apply Forall_app; auto).
  destruct (Z.eqb_spec type rec_root) as [->|]; [|destruct (Z.eqb_spec type rec_authority) as [->|]; [|destruct (Z.eqb_spec type rec_ticket) as [->|]; [|destruct (Z.eqb_spec type rec_ticket_key) as [->|]; [|discriminate]]]].
  - destruct pending; [discriminate|]. intros [= <- <-]. unfold parsed_ok; cbn; split_all; auto.
  - destruct pending; [discriminate|]. intros [= <- <-]. unfold parsed_ok; cbn; split_all; auto.
  - destruct pending; [discriminate|]. intros [= <- <-]. unfold parsed_ok; cbn; split_all; auto. eexists _, _. split; [reflexivity|]. auto.
  - destruct pending; [|discriminate]. cbn [negb]. destruct (bool_decide _) eqn:Eb; [discriminate|]. apply bool_decide_eq_false in Eb. cbn [orb].
    destruct (Nat.eqb_spec (length payload - 1) (key_length (curve_type (hd 0 payload)))) as [El|El]; [|discriminate]. intros [= <- <-].
    destruct H3 as (ts & t & E3 & Hts & Ht). unfold parsed_ok; cbn; split_all; auto. rewrite E3, set_last_key_app. apply Forall_app. split; [assumption|]. repeat constructor; cbn; auto.
    + apply Ht.
    + apply Ht.
    + apply Ht.
    + destruct Hp as [Ho _]. destruct payload; [constructor|]. now inversion Ho.
    + destruct payload; cbn in *; lia.
Qed.

Lemma decode_records_ok fuel rest c pending c' : octets rest -> parsed_ok c pending -> decode_records fuel rest c pending = Some c' -> Credentials_ok c'.
Proof.
  revert rest c pending. induction fuel as [|fuel IH]; intros rest c pending Ho Hc; [discriminate|]. cbn [decode_records].
  destruct rest as [|ty [|hi [|lo rest]]]; try discriminate.
  - destruct pending; [discriminate|]. intros [= <-]. exact Hc.
  - inversion Ho as [|? ? _ Ho1]; subst. inversion Ho1 as [|? ? Hhi Ho2]; subst. inversion Ho2 as [|? ? Hlo Ho3]; subst.
    set (len := Z.to_nat (Z.lor (hi ≪ 8) lo)). destruct (Nat.ltb_spec (length rest) len) as [|Hl]; [discriminate|].
    destruct (Nat.eqb_spec len 0) as [|Hn]; [discriminate|]. cbn [orb].
    assert (payload_ok (take len rest)) as Hp.
    { split; [auto with asn|]. rewrite length_take, Nat.min_l by lia. unfold len in *. rewrite shift_or_octet in * by assumption. unfold octet in *. lia. }
    destruct (decode_record ty (take len rest) c pending) as [[c1 k1]|] eqn:E; [|discriminate].
    apply IH; [auto with asn|]. now apply (decode_record_ok ty (take len rest) c pending).
Qed.

(** Whatever decode() accepts satisfies the rules of the format, so that
    encoding and decoding it again changes nothing. *)
Theorem decode_wellformed bundle c : octets bundle -> decode bundle = Some c -> Credentials_ok c /\ decode (encode c) = Some c.
Proof.
  intros Ho E. assert (Credentials_ok c) as Hc.
  { unfold decode in E. destruct (_ || _); [discriminate|]. apply decode_records_ok in E; [assumption|auto with asn|]. repeat split; constructor. }
  split; [assumption|]. now apply decode_encode.
Qed.

(** A payload of 65536 octets is written with the length zero: the bundle is
    stored, and refused when it is loaded. *)
Theorem encode_truncates payload : Z.of_nat (length payload) = 65536 -> decode (encode (mk_Credentials [payload] [] [])) = None.
Proof.
  intros H. unfold decode, encode, put. cbn [cr_roots cr_authorities cr_tickets flat_map app]. rewrite H.
  destruct (_ || _); [reflexivity|]. reflexivity.
Qed.

(** ** What is fed *)

Section Applying.
Context {C : CertificateCodec} {B : Backend}.

Lemma apply_each_spec {X St} (add1 : X -> St -> Result * St) (I : St -> Prop) xs s n :
  (forall x s, I s -> I (add1 x s).2) -> I s ->
  let '(r, k, s') := apply_each add1 xs s n in
  I s' /\ (n <= k <= n + length xs)%nat /\ (r = accepted <-> k = (n + length xs)%nat).
Proof.
  intros Hadd. revert s n. induction xs as [|x xs IH]; intros s n Hs; cbn [apply_each length].
  - split; [assumption|]. split; [lia|]. split; [lia|reflexivity].
  - specialize (Hadd x s Hs) as Hx. destruct (add1 x s) as [r s1]. cbn in Hx. destruct (bool_decide (r = accepted)) eqn:E.
    + specialize (IH s1 (S n) Hx). destruct (apply_each add1 xs s1 (S n)) as [[r' k] s']. destruct IH as (H1 & H2 & H3). split_all; auto; try lia.
      rewrite H3. lia.
    + apply bool_decide_eq_false in E. split_all; auto; try lia. split; [congruence|lia].
Qed.

(** Applying credentials keeps the invariants of the trust configuration and
    the pool, stops at the first refusal, and reports acceptance exactly when
    everything was added. *)
Theorem apply_report c trust pool : Trust_ok trust -> Pool_ok pool ->
  let '(report, trust', pool') := apply c trust pool in
  Trust_ok trust' /\ Pool_ok pool' /\
  (rp_result report = accepted <->
   rp_roots report = length (cr_roots c) /\ rp_authorities report = length (cr_authorities c) /\ rp_tickets report = length (cr_tickets c)) /\
  (rp_result report <> accepted -> pool' = pool \/ rp_roots report = length (cr_roots c) /\ rp_authorities report = length (cr_authorities c)).
Proof.
  intros Ht Hp. unfold apply.
  assert (forall x t, Trust_ok t -> Trust_ok (add_root_coer x t).2) as Hroot by (intros x t H; unfold add_root_coer; destruct (from_coer x); [now apply add_root_ok|exact H]).
  assert (forall x t, Trust_ok t -> Trust_ok (add_authority_coer x t).2) as Haut by (intros x t H; unfold add_authority_coer; destruct (from_coer x); [now apply add_authority_ok|exact H]).
  assert (forall t p, Pool_ok p -> Pool_ok (add_coer (ct_certificate t) (ct_key t) p).2) as Htick by (intros t p H; unfold add_coer; destruct (from_coer _); [now apply add_ok|exact H]).
  pose proof (apply_each_spec add_root_coer Trust_ok (cr_roots c) trust 0 Hroot Ht) as H1. destruct (apply_each add_root_coer _ _ _) as [[r nr] trust1]. destruct H1 as (Ht1 & B1 & E1).
  destruct (bool_decide (r = accepted)) eqn:D1; cbn [negb]; [apply bool_decide_eq_true in D1|apply bool_decide_eq_false in D1].
  2: { cbn. split_all; auto. split; [contradiction|]. intros (HH & _). elim D1. now apply E1. }
  pose proof (apply_each_spec add_authority_coer Trust_ok (cr_authorities c) trust1 0 Haut Ht1) as H2. destruct (apply_each add_authority_coer _ _ _) as [[r2 na] trust2]. destruct H2 as (Ht2 & B2 & E2).
  destruct (bool_decide (r2 = accepted)) eqn:D2; cbn [negb]; [apply bool_decide_eq_true in D2|apply bool_decide_eq_false in D2].
  2: { apply E1 in D1. cbn. split_all; auto. split; [contradiction|]. intros (_ & HH & _). elim D2. now apply E2. }
  pose proof (apply_each_spec (fun t => add_coer (ct_certificate t) (ct_key t)) Pool_ok (cr_tickets c) pool 0 Htick Hp) as H3.
  destruct (apply_each _ (cr_tickets c) pool 0) as [[r3 nt] pool']. destruct H3 as (Hp3 & B3 & E3).
  apply E1 in D1. apply E2 in D2. cbn [rp_result rp_roots rp_authorities rp_tickets]. split; [assumption|]. split; [assumption|]. split; [|auto].
  split; [intros HH; apply E3 in HH; lia|]. intros (_ & _ & HH). apply E3. lia.
Qed.
End Applying.

(** ** Examples *)

Definition example_credentials : Credentials :=
  mk_Credentials [[1; 2; 3]] [[4; 5]; [6]] [mk_CredentialTicket [7; 8] (mk_PrivateKey NistP256 (replicate 32 9)); mk_CredentialTicket [10] (mk_PrivateKey BrainpoolP384r1 (replicate 48 11))].

Lemma example_credentials_ok : Credentials_ok example_credentials.
Proof. repeat constructor; cbn; try lia; try discriminate; reflexivity. Qed.

Lemma credentials_roundtrip_witness : decode (encode example_credentials) = Some example_credentials.
Proof. exact (credentials_roundtrip example_credentials example_credentials_ok). Defined.

Lemma decode_wellformed_witness : Credentials_ok (mk_Credentials [[5; 6]] [] []).
Proof.
  apply (decode_wellformed [86; 67; 82; 49; 1; 0; 2; 5; 6]); [repeat constructor; lia|vm_compute; reflexivity].
Defined.

(** A key without its ticket, a ticket without its key, a wrong curve and an
    empty record are refused. *)
Example decode_refuses : map decode
  [magic ++ put 4 (1 :: replicate 32 0); magic ++ put 3 [1]; magic ++ put 3 [1] ++ put 4 (2 :: replicate 48 0); magic ++ put 1 []; magic ++ put 5 [1]; [86; 67; 82]] =
  [None; None; None; None; None; None].
Proof. vm_compute. reflexivity. Qed.
