(* ===== verification/Access.v ===== *)
(** The access layer of the port: the frames of
    ports/esp_idf/src/its_g5_frame.cpp, and AccessStack of
    ports/esp_idf/src/access.cpp with its gate for decentralised congestion
    control. *)

From Stdlib Require Import Floats.SpecFloat.
From S2P Require Import Prelude Double Archive GnWire DccLoad DccBudget Permissions Regions Certificate TrustStore.
From stdpp Require Import list.

Open Scope Z_scope.

(** The modulations of OfdmMcs are the values 0 to 7 of an octet. *)
Record AlDataRequest := mk_AlDataRequest {
  al_source : MacAddress; al_destination : MacAddress; al_priority : Z; transmit_power_dbm : double;
  mcs : Z; bandwidth_mhz : Z; channel_number : Z; al_data : list Z
}.
Record AlDataIndication := mk_AlDataIndication { ind_source : MacAddress; ind_destination : MacAddress; ind_data : list Z }.

Definition isfinite (d : double) : bool :=
  match d with S754_zero _ | S754_finite _ _ _ => true | _ => false end.

Definition validate (request : AlDataRequest) (maximum : nat) : Result :=
  if (length (al_data request) =? 0)%nat || (maximum <? length (al_data request))%nat || (7 <? al_priority request)
     || negb (isfinite (transmit_power_dbm request)) || (bandwidth_mhz request =? 0)
  then invalid_argument else accepted.

(** * Frames *)

Definition snap : list Z := [170; 170; 3; 0; 0; 0; 137; 71].
Definition maximum_gnpdu : nat := 2296.

Definition encode_frame (request : AlDataRequest) (sequence : Z) (out : list Z) : Result * list Z :=
  if negb (bool_decide (validate request maximum_gnpdu = accepted)) || (4095 <? sequence) then (invalid_argument, out)
  else (accepted,
    [136; 0; 0; 0] ++ al_destination request ++ al_source request ++ replicate 6 255 ++
    [Z.land (sequence ≪ 4) 255; u8 (sequence ≫ 4); al_priority request; 0] ++ snap ++ al_data request).

(** [data + first, data + last). *)
Definition range (first last : nat) (data : list Z) : list Z := take (last - first) (drop first data).
Definition octet_at (i : nat) (data : list Z) : Z := nth i data 0.

(** No octets for a null pointer. *)
Definition decode_frame (data : option (list Z)) (fcs : bool) (out : AlDataIndication) : Result * AlDataIndication :=
  match data with
  | None => (invalid_argument, out)
  | Some data =>
      if (length data <? 34 + (if fcs then 4 else 0))%nat then (invalid_argument, out)
      else
        let len := (if fcs then length data - 4 else length data)%nat in
        if negb (octet_at 0 data =? 136) || negb (Z.land (octet_at 1 data) 199 =? 0) || negb (Z.land (octet_at 22 data) 15 =? 0)
           || negb (Z.land (octet_at 24 data) 128 =? 0) || negb (forallb (fun b => b =? 255) (range 16 22 data)) then (unsupported, out)
        else if negb (bool_decide (range 26 34 data = snap)) then (unsupported, out)
        else if (len =? 34)%nat || (maximum_gnpdu <? len - 34)%nat then (invalid_argument, out)
        else (accepted, mk_AlDataIndication (range 10 16 data) (range 4 10 data) (range 34 len data))
  end.

(** * The stack *)

Definition max_ton : Z := ms 4.
Definition g5_rates : list DataRateG5 :=
  [make_DataRateG5 3000 48; make_DataRateG5 4500 48; G5_6Mbps; make_DataRateG5 9000 96;
   make_DataRateG5 12000 192; make_DataRateG5 18000 192; make_DataRateG5 24000 288; make_DataRateG5 27000 288].

Definition request_airtime (request : AlDataRequest) : Z :=
  channel_occupancy (mk_Transmission TrafficClass.DP2 (g5_rates !! Z.to_nat (mcs request)) (Z.of_nat (length (al_data request)))).

Definition limeric_parameters (target : double) : Limeric.Parameters :=
  let p := Limeric.default_params in
  Limeric.mk_Parameters (Limeric.alpha p) (Limeric.beta p) (Limeric.delta_max p) (Limeric.delta_min p)
    (Limeric.g_plus_max p) (Limeric.g_minus_max p) target (Limeric.cbr_interval p).

Section Stack.
(** The backend the stack is built on. *)
Context {Access : Type} (access_request : AlDataRequest -> Access -> Result * Access).

(** The algorithm of a Dcc is the field [m_duty_cycle_permit] of its budget. *)
Record AccessStack := mk_AccessStack { dcc_ : option LimericBudget.t; access_ : Access; maximum_gnpdu_ : nat }.

Definition with_dcc (d : option LimericBudget.t) (s : AccessStack) : AccessStack := mk_AccessStack d (access_ s) (maximum_gnpdu_ s).
Definition set_limeric (l : Limeric.t) (b : LimericBudget.t) : LimericBudget.t :=
  LimericBudget.mk l (LimericBudget.m_interval b) (LimericBudget.m_tx_start b) (LimericBudget.m_tx_on b).

Definition enable_dcc (now : time) (cbr_target : double) (s : AccessStack) : AccessStack :=
  with_dcc (Some (LimericBudget.create now (Limeric.create (limeric_parameters cbr_target)))) s.

Definition report_channel_load (load : double) (s : AccessStack) : AccessStack :=
  with_dcc (option_map (fun b => set_limeric (Limeric.update_cbr load (LimericBudget.m_duty_cycle_permit b)) b) (dcc_ s)) s.

Definition permitted_duty_cycle (s : AccessStack) : double :=
  match dcc_ s with Some b => LimericBudget.permitted b | None => UnitInterval.make (d_of_Z 1) end.

(** The timer of the algorithm, with the hook Dcc's constructor sets. *)
Definition on_duty_cycle_change (now : time) (s : AccessStack) : AccessStack :=
  with_dcc (option_map (fun b => LimericBudget.update now (set_limeric (Limeric.calculate (LimericBudget.m_duty_cycle_permit b)) b)) (dcc_ s)) s.

Definition request (now : time) (r : AlDataRequest) (s : AccessStack) : Result * AccessStack :=
  let result := validate r (maximum_gnpdu_ s) in
  if negb (bool_decide (result = accepted)) then (result, s)
  else match dcc_ s with
       | Some budget =>
           let ton := request_airtime r in
           if (ton <=? 0) || (max_ton <? ton) then (invalid_argument, s)
           else if 0 <? LimericBudget.delay now budget then (resource_limit, s)
           else
             let '(result, access) := access_request r (access_ s) in
             let budget := if bool_decide (result = accepted) then LimericBudget.notify now ton budget else budget in
             (result, mk_AccessStack (Some budget) access (maximum_gnpdu_ s))
       | None =>
           let '(result, access) := access_request r (access_ s) in
           (result, mk_AccessStack None access (maximum_gnpdu_ s))
       end.
End Stack.
Arguments mk_AccessStack {Access}.
Arguments dcc_ {Access}.
Arguments access_ {Access}.
Arguments maximum_gnpdu_ {Access}.

(** * The layout of frames *)

(** What decode_frame() accepts, with the octets it does not look at. *)
Definition frame_of (flags d1 d2 seq1 seq2 qos ht : Z) (destination source data fcs : list Z) : list Z :=
  [136; flags; d1; d2] ++ destination ++ source ++ replicate 6 255 ++ [seq1; seq2; qos; ht] ++ snap ++ data ++ fcs.

Definition frame_fields (flags seq1 qos : Z) (destination source data fcs : list Z) (has_fcs : bool) : Prop :=
  Z.land flags 199 = 0 /\ Z.land seq1 15 = 0 /\ Z.land qos 128 = 0 /\ length destination = 6%nat /\ length source = 6%nat /\
  (0 < length data <= maximum_gnpdu)%nat /\ length fcs = (if has_fcs then 4 else 0)%nat.

Lemma list_six {A} (l : list A) : length l = 6%nat -> exists a b c d e f, l = [a; b; c; d; e; f].
Proof. destruct l as [|a [|b [|c [|d [|e [|f [|g l]]]]]]]; intros H; try discriminate. now exists a, b, c, d, e, f. Qed.

(** A frame of that layout is accepted, and its fields are found. *)
Lemma decode_frame_of flags d1 d2 seq1 seq2 qos ht destination source data fcs has_fcs out :
  frame_fields flags seq1 qos destination source data fcs has_fcs ->
  decode_frame (Some (frame_of flags d1 d2 seq1 seq2 qos ht destination source data fcs)) has_fcs out =
  (accepted, mk_AlDataIndication source destination data).
Proof.
  intros (H1 & H2 & H3 & H4 & H5 & H6 & H7). apply list_six in H4 as (a1 & a2 & a3 & a4 & a5 & a6 & ->). apply list_six in H5 as (b1 & b2 & b3 & b4 & b5 & b6 & ->).
  set (f := frame_of _ _ _ _ _ _ _ _ _ _ _).
  assert (length f = 34 + length data + length fcs)%nat as Hlen by (unfold f, frame_of; cbn [app length replicate snap]; rewrite length_app; lia).
  assert (forall n, range 34 (34 + n) f = take n (data ++ fcs)) as Hr by (intros n; unfold range; replace (34 + n - 34)%nat with n by lia; reflexivity).
  unfold decode_frame. rewrite (proj2 (Nat.ltb_ge _ _)) by (destruct has_fcs; lia).
  set (len := (if has_fcs then length f - 4 else length f)%nat). assert (len = 34 + length data)%nat as Hl by (unfold len; destruct has_fcs; lia).
  change (octet_at 0 f) with 136. change (octet_at 1 f) with flags. change (octet_at 22 f) with seq1. change (octet_at 24 f) with qos.
  change (range 16 22 f) with (replicate 6 255). change (range 26 34 f) with snap. change (range 10 16 f) with [b1; b2; b3; b4; b5; b6]. change (range 4 10 f) with [a1; a2; a3; a4; a5; a6].
  rewrite H1, H2, H3. cbn [negb orb forallb replicate andb Z.eqb]. change (136 =? 136) with true. change (255 =? 255) with true. cbn [negb orb andb].
  rewrite bool_decide_true by reflexivity. cbn [negb]. rewrite Hl, Hr. rewrite (proj2 (Nat.eqb_neq _ _)) by lia. rewrite (proj2 (Nat.ltb_ge _ _)) by lia.
  cbn [orb]. now rewrite take_app_length.
Qed.

(** Nothing else is accepted. *)
Lemma decode_frame_inv data has_fcs out ind : decode_frame data has_fcs out = (accepted, ind) ->
  exists flags d1 d2 seq1 seq2 qos ht fcs,
    data = Some (frame_of flags d1 d2 seq1 seq2 qos ht (ind_destination ind) (ind_source ind) (ind_data ind) fcs) /\
    frame_fields flags seq1 qos (ind_destination ind) (ind_source ind) (ind_data ind) fcs has_fcs.
Proof.
  destruct data as [data|]; [|discriminate]. unfold decode_frame. destruct (Nat.ltb_spec (length data) (34 + (if has_fcs then 4 else 0))) as [|Hl]; [discriminate|].
  do 34 (destruct data as [|? data]; [cbn in Hl; lia|]).
  set (len := (if has_fcs then _ else _)%nat). assert (len <= 34 + (length data - (if has_fcs then 4 else 0)) <= len)%nat as Hlen by (unfold len; cbn in *; destruct has_fcs; lia).
  clearbody len. unfold octet_at, range. cbn [nth drop take Nat.sub forallb].
  destruct (_ || _ || _ || _ || _) eqn:E1; [discriminate|]. destruct (negb (bool_decide _)) eqn:E2; [discriminate|].
  destruct ((len =? 34)%nat || _) eqn:E3; [discriminate|]. intros [= <-]. cbn [ind_source ind_destination ind_data].
  apply negb_false_iff, bool_decide_eq_true in E2. rewrite !orb_false_iff, !negb_false_iff, !andb_true_iff, !Z.eqb_eq in E1. split_all. subst.
  injection E2 as -> -> -> -> -> -> -> ->. rewrite orb_false_iff, Nat.eqb_neq, Nat.ltb_ge in E3. destruct E3 as [E3 E4].
  replace (len - 34)%nat with (length data - (if has_fcs then 4 else 0))%nat in * by lia. set (m := (length data - (if has_fcs then 4 else 0))%nat) in *.
  do 7 eexists. exists (drop m data). split.
  - unfold frame_of. rewrite take_drop. reflexivity.
  - cbn [length] in Hl. unfold frame_fields. rewrite length_take, length_drop. split_all; try assumption; try reflexivity; unfold m in *; destruct has_fcs; rewrite ?length_drop; lia.
Qed.

(** The headers of a frame of the layout, whatever follows. *)
Definition headed (octets : list Z) (rest : list Z) : Prop :=
  exists flags d1 d2 seq1 seq2 qos ht destination source,
    octets = frame_of flags d1 d2 seq1 seq2 qos ht destination source rest [] /\
    Z.land flags 199 = 0 /\ Z.land seq1 15 = 0 /\ Z.land qos 128 = 0 /\ length destination = 6%nat /\ length source = 6%nat.

Lemma headed_rest octets rest : headed octets rest -> rest = drop 34 octets /\ length octets = (34 + length rest)%nat.
Proof.
  intros (flags & d1 & d2 & seq1 & seq2 & qos & ht & destination & source & -> & _ & _ & _ & H4 & H5).
  apply list_six in H4 as (a1 & a2 & a3 & a4 & a5 & a6 & ->). apply list_six in H5 as (b1 & b2 & b3 & b4 & b5 & b6 & ->).
  unfold frame_of. rewrite app_nil_r. now split.
Qed.

(** The errors, for a frame that is long enough for the headers. *)
Lemma decode_frame_headed data (has_fcs : bool) out : let fcs := (if has_fcs then 4 else 0)%nat in (34 + fcs <= length data)%nat ->
  (exists rest, headed data rest /\ decode_frame (Some data) has_fcs out =
     let payload := take (length rest - fcs) rest in
     if (length payload =? 0)%nat || (maximum_gnpdu <? length payload)%nat then (invalid_argument, out)
     else (accepted, mk_AlDataIndication (range 10 16 data) (range 4 10 data) payload)) \/
  (forall rest, ~ headed data rest) /\ decode_frame (Some data) has_fcs out = (unsupported, out).
Proof.
  cbv zeta. intros Hl. unfold decode_frame. rewrite (proj2 (Nat.ltb_ge _ _)) by exact Hl.
  set (bad := negb (octet_at 0 data =? 136) || _ || _ || _ || _).
  assert (Hh : bad = false /\ bool_decide (range 26 34 data = snap) = true <-> exists rest, headed data rest).
  { unfold bad. clear bad. split.
    - do 34 (destruct data as [|? data]; [cbn in Hl; lia|]). unfold octet_at, range. cbn [nth drop take Nat.sub forallb]. intros [E1 E2%bool_decide_eq_true].
      rewrite !orb_false_iff, !negb_false_iff, !andb_true_iff, !Z.eqb_eq in E1. split_all. subst. injection E2 as -> -> -> -> -> -> -> ->.
      exists data. do 7 eexists. eexists [_; _; _; _; _; _], [_; _; _; _; _; _]. unfold frame_of. rewrite app_nil_r. split; [reflexivity|]. split_all; try assumption; reflexivity.
    - intros (rest & flags & d1 & d2 & seq1 & seq2 & qos & ht & destination & source & -> & H1 & H2 & H3 & H4 & H5).
      apply list_six in H4 as (a1 & a2 & a3 & a4 & a5 & a6 & ->). apply list_six in H5 as (b1 & b2 & b3 & b4 & b5 & b6 & ->).
      unfold frame_of, octet_at, range. cbn [app nth drop take Nat.sub forallb replicate snap]. rewrite H1, H2, H3. split; [reflexivity|]. now apply bool_decide_eq_true. }
  destruct bad; [right; split; [|reflexivity]; intros rest Hr; destruct (proj2 Hh) as [[=] _]; eauto|].
  destruct (bool_decide (range 26 34 data = snap)) eqn:Es; cbn [negb]; [left|right; split; [|reflexivity]; intros rest Hr; destruct (proj2 Hh) as [_ [=]]; eauto].
  destruct (proj1 Hh) as [rest Hr]; [auto|]. exists rest. split; [exact Hr|]. apply headed_rest in Hr as [-> Hd]. unfold range at 3. rewrite length_take, length_drop in *.
  set (len := (if has_fcs then _ else _)%nat). assert (len - 34 = length data - 34 - (if has_fcs then 4 else 0) /\ 34 <= len)%nat as [El Hle] by (unfold len; destruct has_fcs; lia).
  rewrite El, Nat.min_l by lia. replace (len =? 34)%nat with (length data - 34 - (if has_fcs then 4 else 0) =? 0)%nat; [reflexivity|].
  destruct (Nat.eqb_spec len 34), (Nat.eqb_spec (length data - 34 - (if has_fcs then 4 else 0)) 0); auto; lia.
Qed.

(** C33.  decode_frame() accepts exactly the frames of the layout: QoS data
    without fragmentation, protection or aggregation, with the wildcard BSSID,
    the SNAP header of GeoNetworking and 1 to 2296 octets of payload, and gives
    back their addresses and payload without the check sequence.  It tells
    malformed from unsupported ones: no data at all, too little for the
    headers - and the check sequence -, and headers of the layout with no
    payload or one that is too long are an invalid argument; any other headers
    are unsupported.  The output is left alone then. *)
Theorem decode_frame_exact data (has_fcs : bool) out :
  let fcs := (if has_fcs then 4 else 0)%nat in
  (forall ind, decode_frame data has_fcs out = (accepted, ind) <->
    exists flags d1 d2 seq1 seq2 qos ht fcs,
      data = Some (frame_of flags d1 d2 seq1 seq2 qos ht (ind_destination ind) (ind_source ind) (ind_data ind) fcs) /\
      frame_fields flags seq1 qos (ind_destination ind) (ind_source ind) (ind_data ind) fcs has_fcs) /\
  (decode_frame data has_fcs out = (unsupported, out) <->
    exists octets, data = Some octets /\ (34 + fcs <= length octets)%nat /\ forall rest, ~ headed octets rest) /\
  (decode_frame data has_fcs out = (invalid_argument, out) <->
    data = None \/ exists octets, data = Some octets /\
      ((length octets < 34 + fcs)%nat \/
       exists rest, headed octets rest /\ (length rest <= fcs \/ maximum_gnpdu + fcs < length rest)%nat)) /\
  ((exists ind, decode_frame data has_fcs out = (accepted, ind)) \/
   decode_frame data has_fcs out = (unsupported, out) \/ decode_frame data has_fcs out = (invalid_argument, out)).
Proof.
  cbv zeta. split.
  { intros ind. split; [apply decode_frame_inv|]. intros (flags & d1 & d2 & seq1 & seq2 & qos & ht & fcs & -> & H). rewrite decode_frame_of by exact H. now destruct ind. }
  set (fcs := (if has_fcs then 4 else 0)%nat). destruct data as [data|].
  2: { split; [split; [discriminate|now intros (octets & [=] & _)]|]. split; [|auto]. split; auto. }
  destruct (Nat.ltb_spec (length data) (34 + fcs)) as [Hl|Hl].
  { assert (E : decode_frame (Some data) has_fcs out = (invalid_argument, out)) by (unfold decode_frame; fold fcs; now rewrite (proj2 (Nat.ltb_lt _ _) Hl)).
    rewrite E. split; [split; [discriminate|intros (octets & [= <-] & Hx & _); lia]|]. split; [|auto]. split; [|auto]. intros _. right. eauto. }
  destruct (decode_frame_headed data has_fcs out Hl) as [(rest & Hr & ->)|[Hn ->]]; fold fcs.
  - pose proof (headed_rest _ _ Hr) as [_ Hlen]. cbv zeta. rewrite length_take, Nat.min_l by lia.
    assert (Hu : forall P, (exists octets, Some data = Some octets /\ P octets /\ (forall rest, ~ headed octets rest)) -> False) by (intros P (octets & [= <-] & _ & H); exact (H rest Hr)).
    destruct ((length rest - fcs =? 0)%nat || (maximum_gnpdu <? length rest - fcs)%nat) eqn:E.
    + rewrite orb_true_iff, Nat.eqb_eq, Nat.ltb_lt in E. split; [split; [discriminate|intros H; now apply Hu in H]|]. split; [|auto]. split; [|auto].
      intros _. right. exists data. split; [reflexivity|]. right. exists rest. split; [exact Hr|]. lia.
    + rewrite orb_false_iff, Nat.eqb_neq, Nat.ltb_ge in E. split; [split; [discriminate|intros H; now apply Hu in H]|]. split; [|eauto]. split; [discriminate|].
      intros [[=]|(octets & [= <-] & [Hx|(rest' & Hr' & Hx)])]; [lia|]. apply headed_rest in Hr' as [_ Hr']. lia.
  - split; [split; [eauto|auto]|]. split; [|auto]. split; [discriminate|]. intros [[=]|(octets & [= <-] & [Hx|(rest & Hr & _)])]; [lia|]. now apply Hn in Hr.
Qed.

Lemma validate_accepted r maximum : validate r maximum = accepted <->
  (0 < length (al_data r) <= maximum)%nat /\ al_priority r <= 7 /\ isfinite (transmit_power_dbm r) = true /\ bandwidth_mhz r <> 0.
Proof.
  unfold validate. destruct (_ || _) eqn:E.
  - split; [discriminate|]. intros (H1 & H2 & H3 & H4). rewrite H3 in E. rewrite !orb_true_iff, Nat.eqb_eq, Nat.ltb_lt, Z.ltb_lt, Z.eqb_eq in E. cbn in E. lia.
  - split; [intros _|reflexivity]. rewrite !orb_false_iff, Nat.eqb_neq, Nat.ltb_ge, Z.ltb_ge, Z.eqb_neq, negb_false_iff in E. split_all; auto; lia.
Qed.

(** A request the frame format can carry is encoded, and its frame is decoded
    to the same addresses and payload, with or without a check sequence. *)
Theorem frame_roundtrip r sequence buffer out fcs (has_fcs : bool) :
  validate r maximum_gnpdu = accepted -> 0 <= al_priority r -> 0 <= sequence <= 4095 ->
  length (al_destination r) = 6%nat -> length (al_source r) = 6%nat -> length fcs = (if has_fcs then 4 else 0)%nat ->
  let '(result, frame) := encode_frame r sequence buffer in
  result = accepted /\ length frame = (34 + length (al_data r))%nat /\
  decode_frame (Some (frame ++ fcs)) has_fcs out = (accepted, mk_AlDataIndication (al_source r) (al_destination r) (al_data r)).
Proof.
  intros Hv Hp Hs Hd Hsrc Hf. pose proof Hv as Hv'. apply validate_accepted in Hv' as (H1 & H2 & _). unfold encode_frame.
  rewrite bool_decide_true by assumption. cbn [negb orb]. rewrite (proj2 (Z.ltb_ge _ _)) by lia.
  split; [reflexivity|]. split; [rewrite !length_app; cbn [length replicate snap]; lia|].
  rewrite <- (decode_frame_of 0 0 0 (Z.land (sequence ≪ 4) 255) (u8 (sequence ≫ 4)) (al_priority r) 0 _ _ _ fcs has_fcs out).
  - unfold frame_of. rewrite <- !app_assoc. reflexivity.
  - unfold frame_fields. split_all; auto; try lia.
    + apply Z.bits_inj'. intros i Hi. rewrite !Z.land_spec, Z.bits_0. destruct (Z.ltb_spec i 4).
      * rewrite Z.shiftl_spec_low by lia. reflexivity.
      * change 15 with (Z.ones 4). rewrite (Z.ones_spec_high 4) by lia. apply andb_false_r.
    + change 128 with (2 ^ 7). assert (al_priority r < 2 ^ 7) by (change (2 ^ 7) with 128; lia).
      apply Z.bits_inj'. intros i Hi. rewrite Z.land_spec, Z.bits_0, Z.pow2_bits_eqb by lia. destruct (Z.eqb_spec 7 i) as [<-|]; [|apply andb_false_r].
      assert (Z.testbit (al_priority r) 7 = false) as -> by (apply Z.testbit_false; [lia|]; rewrite Z.div_small by lia; reflexivity). reflexivity.
Qed.

(** * The gate *)

Section Gate.
Context {Access : Type} (access_request : AlDataRequest -> Access -> Result * Access).

(** What happens to a stack with its time. *)
Inductive GateEvent := Load (load : double) | Calculated | Requested (r : AlDataRequest).

(** One event, and the transmissions it adds with their airtime. *)
Definition gate_step (now : time) (e : GateEvent) (s : AccessStack (Access := Access)) : AccessStack * list (time * Z) :=
  match e with
  | Load load => (report_channel_load load s, [])
  | Calculated => (on_duty_cycle_change now s, [])
  | Requested r => let '(result, s) := request access_request now r s in (s, if bool_decide (result = accepted) then [(now, request_airtime r)] else [])
  end.

Fixpoint gate_run (events : list (time * GateEvent)) (s : AccessStack) : AccessStack * list (time * Z) :=
  match events with
  | [] => (s, [])
  | (now, e) :: events => let '(s, sent) := gate_step now e s in let '(s, more) := gate_run events s in (s, sent ++ more)
  end.

(** The gate is closed for 25 ms after the last transmission at least. *)
Definition gate_closed (last : option time) (s : AccessStack (Access := Access)) : Prop :=
  exists b, dcc_ s = Some b /\ LimericBudget.min_interval <= LimericBudget.m_interval b /\
    forall t, last = Some t -> LimericBudget.m_tx_start b = t.

(** Transmissions of at most 4 ms, each at least 25 ms after the one before. *)
Fixpoint spaced (last : option time) (sent : list (time * Z)) : Prop :=
  match sent with
  | [] => True
  | (t, ton) :: sent => (forall t0, last = Some t0 -> t0 + LimericBudget.min_interval <= t) /\ 0 < ton <= max_ton /\ spaced (Some t) sent
  end.

Lemma update_interval now b : LimericBudget.min_interval <= LimericBudget.m_interval (LimericBudget.update now b).
Proof.
  unfold LimericBudget.update. cbn zeta. cbn [LimericBudget.m_interval]. destruct (d_ltb zero (LimericBudget.permitted b)); [match goal with |- context [if ?c then _ else _] => destruct c end; apply clamp_interval_bounds|].
  cbn beta iota. now vm_compute.
Qed.

Lemma gate_step_ok now e s last : gate_closed last s ->
  let '(s', sent) := gate_step now e s in
  match sent with
  | [] => gate_closed last s'
  | [x] => gate_closed (Some x.1) s' /\ spaced last [x]
  | _ => False
  end.
Proof.
  intros (b & Hb & Hi & Hl). destruct e as [load| |r]; cbn [gate_step].
  - exists (set_limeric (Limeric.update_cbr load (LimericBudget.m_duty_cycle_permit b)) b). unfold report_channel_load. rewrite Hb. auto.
  - unfold on_duty_cycle_change. rewrite Hb. eexists. split; [reflexivity|]. split; [apply update_interval|exact Hl].
  - unfold request. destruct (bool_decide (validate r (maximum_gnpdu_ s) = accepted)) eqn:Ev; cbn [negb].
    2: { apply bool_decide_eq_false in Ev. rewrite bool_decide_false by assumption. now exists b. }
    rewrite Hb. destruct (Z.leb_spec (request_airtime r) 0); cbn [orb]; [rewrite bool_decide_false by discriminate; now exists b|].
    destruct (Z.ltb_spec max_ton (request_airtime r)); cbn [orb]; [rewrite bool_decide_false by discriminate; now exists b|].
    destruct (Z.ltb_spec 0 (LimericBudget.delay now b)) as [|Hd]; [rewrite bool_decide_false by discriminate; now exists b|].
    destruct (access_request r (access_ s)) as [result access]. destruct (bool_decide (result = accepted)) eqn:Er; [|now exists b].
    split.
    + eexists. split; [reflexivity|]. split; [apply clamp_interval_bounds|]. now intros t [= <-].
    + cbn. split_all; auto. intros t Ht. specialize (Hl t Ht). unfold LimericBudget.delay in Hd. destruct (Z.leb_spec (LimericBudget.m_tx_start b + LimericBudget.m_interval b) now); lia.
Qed.

Lemma gate_run_ok events s last : gate_closed last s -> spaced last (gate_run events s).2.
Proof.
  revert s last. induction events as [|[now e] events IH]; intros s last Hs; [exact I|]. cbn [gate_run].
  pose proof (gate_step_ok now e s last Hs) as H. destruct (gate_step now e s) as [s1 sent]. specialize (IH s1).
  destruct (gate_run events s1) as [s2 more]. cbn [snd] in *. destruct sent as [|x [|y sent]]; [now apply IH| |contradiction].
  destruct H as [H1 H2]. destruct x as [t ton]. cbn in *. destruct H2 as (H2 & H3 & _). split_all; auto.
Qed.

(** C31.  The gate: from the moment it is enabled, whatever channel load is
    reported, however often the duty cycle is calculated and whatever is
    requested, the accepted transmissions last at most 4 ms each and are at
    least 25 ms apart. *)
Theorem access_gate now cbr_target s events :
  spaced None (gate_run events (enable_dcc now cbr_target s)).2.
Proof.
  apply gate_run_ok. eexists. split; [reflexivity|]. split; [apply update_interval|discriminate].
Qed.
End Gate.

(** Ten requests 10 ms apart: every fourth is passed on. *)
Definition example_request : AlDataRequest := mk_AlDataRequest (replicate 6 1) cBroadcastMacAddress 3 (d_of_Z 23) 2 10 180 (replicate 300 7).
Example gate_example :
  (gate_run (Access := unit) (fun _ a => (accepted, a)) (map (fun i => (ms (1000 + 10 * Z.of_nat i), Requested example_request)) (seq 0 10))
     (enable_dcc (ms 0) (UnitInterval.make (d_literal 62 100)) (mk_AccessStack None tt 4096))).2
  = [(ms 1000, 504); (ms 1040, 504); (ms 1080, 504)].
Proof. vm_compute. reflexivity. Qed.

Lemma frame_roundtrip_witness : (encode_frame example_request 77 []).1 = accepted.
Proof.
  pose proof (frame_roundtrip example_request 77 [] (mk_AlDataIndication [] [] []) [1; 2; 3; 4] true) as H.
  destruct (encode_frame example_request 77 []) as [result frame]. cbn [fst].
  apply H; try reflexivity; cbn; lia.
Defined.
