(* ===== verification/IdentityManager.v ===== *)
(** The identifier-change service: ports/esp_idf/src/identity_manager.cpp.

    A hook is a program over the interface of the service: it may call back
    into it while a command is delivered, which the interpretation [exec]
    follows with fuel for the depth of such calls.  The log of the state is
    what subscribers and the users of locks see; the code does not keep it. *)

From S2P Require Import Prelude Scheduler Permissions Regions Certificate TrustStore CertificatePool.
From stdpp Require Import list gmap.

Open Scope Z_scope.

Inductive IdChangeCommand := PREPARE | COMMIT | ABORT | DEREG.
#[export] Instance IdChangeCommand_eq_dec : EqDecision IdChangeCommand.
Proof. solve_decision. Defined.

Abbreviation Identifier := HashedId8.
Abbreviation SubscriptionHandle := Z.
Abbreviation LockHandle := Z.

(** What the service uses of the pool of tickets. *)
Class TicketPool (P : Type) := {
  pool_next_valid : Z -> P -> option Identifier;
  pool_select : Identifier -> P -> P;
  pool_current : P -> option Identifier
}.

#[export] Instance CertificatePool_tickets `{CertificateCodec} : TicketPool CertificatePool := {
  pool_next_valid now pool := digest <$> next_valid pool now;
  pool_select id pool := (select id pool).2;
  pool_current pool := digest <$> CertificatePool.current pool
}.

(** A Responder; its weak pointer to the service is not modelled. *)
Record Responder := mk_Responder { round_ : Z; handle_ : SubscriptionHandle }.

Inductive Timer := RoundTimeout | LockTimeout.
#[export] Instance Timer_eq_dec : EqDecision Timer.
Proof. solve_decision. Defined.

Inductive Entry :=
| Started (r : Z) (id : Identifier)
| Delivered (h : SubscriptionHandle) (c : IdChangeCommand) (id : Identifier) (r : option Z)
| Answered (r : Z) (h : SubscriptionHandle) (code : bool)
| Subscribed (h : SubscriptionHandle)
| Unsubscribed (h : SubscriptionHandle)
| Selected (id : Identifier)
| Ended (r : Z) (done : bool)
| Locked (h : LockHandle)
| Released (h : LockHandle).

Section IdentityManager.
Context {P : Type} {TP : TicketPool P}.
(** What the subscribers keep between calls. *)
Context {U : Type}.

(** * Programs of the subscribers *)

Inductive Prog :=
| Done
| Read (k : U -> Prog)
| Write (u : U) (k : Prog)
| Respond (r : Responder) (return_code : bool) (k : Prog)
| Subscribe (hook : IdChangeCommand -> Identifier -> list Z -> option Responder -> Prog) (data : list Z) (k : SubscriptionHandle -> Prog)
| Unsubscribe (h : SubscriptionHandle) (k : Result -> Prog)
| Trigger (k : Result -> Prog)
| Lock (duration_seconds : Z) (k : LockHandle -> Prog)
| Unlock (h : LockHandle) (k : Result -> Prog).

Definition IdChangeHook : Type := IdChangeCommand -> Identifier -> list Z -> option Responder -> Prog.

(** * State *)

Record Subscription := mk_Subscription { sub_hook : IdChangeHook; sub_data : list Z }.
Record Round := mk_Round { round_id : Z; phase : IdChangeCommand; new_identifier : Identifier; outstanding : gset SubscriptionHandle }.
Record Statistics := mk_Statistics { st_committed : Z; st_aborted : Z; st_timed_out : Z; st_commit_failures : Z }.

(** The maps in the order of their keys; the counters of handles and rounds do
    not wrap around. *)
Record Impl := mk_Impl {
  runtime : @ManualRuntime Timer; pool : P;
  subscriptions : list (SubscriptionHandle * Subscription); next_subscription : SubscriptionHandle;
  locks : list (LockHandle * Z); next_lock : LockHandle;
  round : option Round; round_counter : Z; pending_trigger : bool; response_timeout : Z;
  committed : option (Identifier -> Prog); stats : Statistics; notify_depth : nat;
  users : U; log : list Entry
}.

Definition Impl_create (rt : @ManualRuntime Timer) (p : P) (u : U) : Impl :=
  mk_Impl rt p [] 1 [] 1 None 0 false 500000 None (mk_Statistics 0 0 0 0) 0 u [].

(** The scopes of the two timers. *)
Definition round_timer_scope : option Z := Some 0.
Definition lock_timer_scope : option Z := Some 1.

Definition set_runtime v (s : Impl) : Impl := mk_Impl v (pool s) (subscriptions s) (next_subscription s) (locks s) (next_lock s) (round s) (round_counter s) (pending_trigger s) (response_timeout s) (committed s) (stats s) (notify_depth s) (users s) (log s).
Definition set_pool v (s : Impl) : Impl := mk_Impl (runtime s) v (subscriptions s) (next_subscription s) (locks s) (next_lock s) (round s) (round_counter s) (pending_trigger s) (response_timeout s) (committed s) (stats s) (notify_depth s) (users s) (log s).
Definition set_subscriptions v n (s : Impl) : Impl := mk_Impl (runtime s) (pool s) v n (locks s) (next_lock s) (round s) (round_counter s) (pending_trigger s) (response_timeout s) (committed s) (stats s) (notify_depth s) (users s) (log s).
Definition set_locks v n (s : Impl) : Impl := mk_Impl (runtime s) (pool s) (subscriptions s) (next_subscription s) v n (round s) (round_counter s) (pending_trigger s) (response_timeout s) (committed s) (stats s) (notify_depth s) (users s) (log s).
Definition set_round v (s : Impl) : Impl := mk_Impl (runtime s) (pool s) (subscriptions s) (next_subscription s) (locks s) (next_lock s) v (round_counter s) (pending_trigger s) (response_timeout s) (committed s) (stats s) (notify_depth s) (users s) (log s).
Definition set_counter v (s : Impl) : Impl := mk_Impl (runtime s) (pool s) (subscriptions s) (next_subscription s) (locks s) (next_lock s) (round s) v (pending_trigger s) (response_timeout s) (committed s) (stats s) (notify_depth s) (users s) (log s).
Definition set_pending v (s : Impl) : Impl := mk_Impl (runtime s) (pool s) (subscriptions s) (next_subscription s) (locks s) (next_lock s) (round s) (round_counter s) v (response_timeout s) (committed s) (stats s) (notify_depth s) (users s) (log s).
Definition set_response_timeout v (s : Impl) : Impl := mk_Impl (runtime s) (pool s) (subscriptions s) (next_subscription s) (locks s) (next_lock s) (round s) (round_counter s) (pending_trigger s) v (committed s) (stats s) (notify_depth s) (users s) (log s).
Definition on_committed v (s : Impl) : Impl := mk_Impl (runtime s) (pool s) (subscriptions s) (next_subscription s) (locks s) (next_lock s) (round s) (round_counter s) (pending_trigger s) (response_timeout s) (Some v) (stats s) (notify_depth s) (users s) (log s).
Definition set_stats v (s : Impl) : Impl := mk_Impl (runtime s) (pool s) (subscriptions s) (next_subscription s) (locks s) (next_lock s) (round s) (round_counter s) (pending_trigger s) (response_timeout s) (committed s) v (notify_depth s) (users s) (log s).
Definition set_depth v (s : Impl) : Impl := mk_Impl (runtime s) (pool s) (subscriptions s) (next_subscription s) (locks s) (next_lock s) (round s) (round_counter s) (pending_trigger s) (response_timeout s) (committed s) (stats s) v (users s) (log s).
Definition set_users v (s : Impl) : Impl := mk_Impl (runtime s) (pool s) (subscriptions s) (next_subscription s) (locks s) (next_lock s) (round s) (round_counter s) (pending_trigger s) (response_timeout s) (committed s) (stats s) (notify_depth s) v (log s).
Definition record (e : Entry) (s : Impl) : Impl := mk_Impl (runtime s) (pool s) (subscriptions s) (next_subscription s) (locks s) (next_lock s) (round s) (round_counter s) (pending_trigger s) (response_timeout s) (committed s) (stats s) (notify_depth s) (users s) (e :: log s).

Definition with_outstanding (o : gset SubscriptionHandle) (R : Round) : Round := mk_Round (round_id R) (phase R) (new_identifier R) o.
Definition with_phase (c : IdChangeCommand) (R : Round) : Round := mk_Round (round_id R) c (new_identifier R) (outstanding R).

Definition add_stats (c a t f : Z) (s : Impl) : Impl :=
  let st := stats s in set_stats (mk_Statistics (st_committed st + c) (st_aborted st + a) (st_timed_out st + t) (st_commit_failures st + f)) s.

Definition current (s : Impl) : Identifier := default (replicate 8 0) (pool_current (pool s)).
Definition locked (s : Impl) : bool := negb (bool_decide (locks s = [])).
Definition change_pending (s : Impl) : bool := bool_decide (is_Some (round s)).

(** The entry of a handle in a map. *)
Fixpoint find_handle {V} (h : Z) (m : list (Z * V)) : option V :=
  match m with [] => None | (k, v) :: m => if k =? h then Some v else find_handle h m end.
Definition erase_handle {V} (h : Z) (m : list (Z * V)) : list (Z * V) := filter (fun x => x.1 <> h) m.

(** * Calls *)

(** A call that may return, with a value; no result when the fuel of [exec] is
    used up. *)
Definition I (A : Type) : Type := Impl -> option (A * Impl).
Definition ret {A} (a : A) : I A := fun s => Some (a, s).
Definition bind {A B} (m : I A) (k : A -> I B) : I B := fun s => match m s with Some (a, s') => k a s' | None => None end.
Definition get : I Impl := fun s => Some (s, s).
Definition modify (f : Impl -> Impl) : I unit := fun s => Some (tt, f s).

#[local] Notation "'let*' x := m 'in' k" := (bind m (fun x => k)) (at level 10, x name, m at level 100, k at level 200).
#[local] Notation "m ';;' k" := (bind m (fun _ => k)) (at level 100, k at level 200, right associativity).

(** What a call can lead back to: a hook, or the next phase of a round. *)
Inductive Callback := Hook (p : Prog) | Advance.

Section Calls.
Variable call : Callback -> I unit.

Definition arm_round_timer : I unit :=
  modify (fun s => set_runtime (Scheduler.cancel round_timer_scope (runtime s)) s) ;;
  modify (fun s => set_runtime (schedule_after (response_timeout s) RoundTimeout round_timer_scope (runtime s)) s).

Definition is_round (r : Z) (s : Impl) : bool :=
  match round s with Some R => round_id R =? r | None => false end.

(** The loop of notify() over the snapshot of the handles. *)
Fixpoint notify_each (command : IdChangeCommand) (id : Identifier) (expect_response : bool) (r : Z) (handles : list SubscriptionHandle) : I unit :=
  match handles with
  | [] => ret tt
  | h :: handles =>
      let* s := get in
      if expect_response && negb (is_round r s) then ret tt
      else match find_handle h (subscriptions s) with
           | None =>
               (if is_round r s then modify (fun s => set_round (option_map (fun R => with_outstanding (outstanding R ∖ {[h]}) R) (round s)) s) else ret tt) ;;
               notify_each command id expect_response r handles
           | Some sub =>
               let responder := if expect_response then Some (mk_Responder r h) else None in
               modify (record (Delivered h command id (if expect_response then Some r else None))) ;;
               call (Hook (sub_hook sub command id (sub_data sub) responder)) ;;
               notify_each command id expect_response r handles
           end
  end.

Definition notify (command : IdChangeCommand) (id : Identifier) (expect_response : bool) : I unit :=
  let* s := get in
  let handles := map fst (subscriptions s) in
  let r := match round s with Some R => round_id R | None => 0 end in
  (if expect_response then modify (fun s => set_round (option_map (fun R => with_outstanding (outstanding R ∪ list_to_set handles) R) (round s)) s) else ret tt) ;;
  modify (fun s => set_depth (S (notify_depth s)) s) ;;
  notify_each command id expect_response r handles ;;
  modify (fun s => set_depth (Nat.pred (notify_depth s)) s) ;;
  let* s := get in
  if expect_response && (notify_depth s =? 0)%nat && is_round r s then
    match round s with
    | Some R => if bool_decide (outstanding R = ∅) then call Advance else arm_round_timer
    | None => ret tt
    end
  else ret tt.

Definition try_start : I unit :=
  let* s := get in
  if negb (pending_trigger s) || locked s || bool_decide (is_Some (round s)) then ret tt
  else
    modify (set_pending false) ;;
    match pool_next_valid (m_now (runtime s)) (pool s) with
    | None => ret tt
    | Some next =>
        modify (fun s => set_counter (round_counter s + 1) s) ;;
        modify (fun s => record (Started (round_counter s) next) (set_round (Some (mk_Round (round_counter s) PREPARE next ∅)) s)) ;;
        notify PREPARE next true
    end.

(** finish() and abort() are called with a round. *)
Definition finish : I unit :=
  modify (fun s => set_runtime (Scheduler.cancel round_timer_scope (runtime s)) s) ;;
  let* s := get in
  match round s with
  | None => ret tt
  | Some R =>
      modify (fun s => record (Ended (round_id R) true) (set_round None s)) ;;
      modify (add_stats 1 0 0 0) ;;
      match committed s with Some f => call (Hook (f (new_identifier R))) | None => ret tt end ;;
      try_start
  end.

Definition abort : I unit :=
  modify (fun s => set_runtime (Scheduler.cancel round_timer_scope (runtime s)) s) ;;
  let* s := get in
  match round s with
  | None => ret tt
  | Some R =>
      modify (fun s => record (Ended (round_id R) false) (set_round None s)) ;;
      modify (add_stats 0 1 0 0) ;;
      notify ABORT (new_identifier R) false
  end.

Definition advance : I unit :=
  modify (fun s => set_runtime (Scheduler.cancel round_timer_scope (runtime s)) s) ;;
  let* s := get in
  match round s with
  | None => ret tt
  | Some R =>
      if bool_decide (phase R = PREPARE) then
        modify (fun s => record (Selected (new_identifier R)) (set_pool (pool_select (new_identifier R) (pool s)) (set_round (Some (with_phase COMMIT R)) s))) ;;
        notify COMMIT (new_identifier R) true
      else finish
  end.

Definition handle_response (r : Z) (h : SubscriptionHandle) (return_code : bool) : I unit :=
  let* s := get in
  match round s with
  | Some R =>
      if negb (round_id R =? r) || negb (bool_decide (h ∈ outstanding R)) then ret tt
      else
        modify (fun s => record (Answered r h return_code) (set_round (Some (with_outstanding (outstanding R ∖ {[h]}) R)) s)) ;;
        if negb return_code && bool_decide (phase R = PREPARE) then abort
        else
          (if negb return_code then modify (add_stats 0 0 0 1) else ret tt) ;;
          if bool_decide (outstanding R ∖ {[h]} = ∅) && (notify_depth s =? 0)%nat then advance else ret tt
  | None => ret tt
  end.

Definition on_round_timeout : I unit :=
  let* s := get in
  match round s with
  | None => ret tt
  | Some R =>
      modify (add_stats 0 0 1 0) ;;
      if bool_decide (phase R = PREPARE) then abort
      else modify (add_stats 0 0 0 (Z.of_nat (size (outstanding R)))) ;; finish
  end.

Definition earliest (ls : list (LockHandle * Z)) : option Z :=
  match map snd ls with [] => None | t :: ts => Some (fold_left Z.min ts t) end.
Definition arm_lock_timer : I unit :=
  modify (fun s => set_runtime (Scheduler.cancel lock_timer_scope (runtime s)) s) ;;
  modify (fun s => match earliest (locks s) with
                   | None => s
                   | Some t => set_runtime (schedule t LockTimeout lock_timer_scope (runtime s)) s
                   end).

(** Release the locks that expired. *)
Definition expire (now : Z) (s : Impl) : Impl :=
  fold_left (fun s l => if l.2 <=? now then record (Released l.1) (set_locks (erase_handle l.1 (locks s)) (next_lock s) s) else s) (locks s) s.
Definition on_lock_timer : I unit :=
  modify (fun s => expire (m_now (runtime s)) s) ;;
  arm_lock_timer ;;
  try_start.

(** ** The interface *)

Definition subscribe (hook : IdChangeHook) (data : list Z) : I SubscriptionHandle :=
  let* s := get in
  let h := next_subscription s in
  modify (fun s => record (Subscribed h) (set_subscriptions (subscriptions s ++ [(h, mk_Subscription hook data)]) (h + 1) s)) ;;
  ret h.

Definition unsubscribe (h : SubscriptionHandle) : I Result :=
  let* s := get in
  match find_handle h (subscriptions s) with
  | None => ret invalid_argument
  | Some _ =>
      modify (fun s => record (Unsubscribed h) (set_subscriptions (erase_handle h (subscriptions s)) (next_subscription s) s)) ;;
      match round s with
      | Some R =>
          if bool_decide (h ∈ outstanding R) then
            modify (set_round (Some (with_outstanding (outstanding R ∖ {[h]}) R))) ;;
            (if bool_decide (outstanding R ∖ {[h]} = ∅) && (notify_depth s =? 0)%nat then advance else ret tt) ;;
            ret accepted
          else ret accepted
      | None => ret accepted
      end
  end.

Definition trigger : I Result :=
  let* s := get in
  match pool_next_valid (m_now (runtime s)) (pool s) with
  | None => ret rejected
  | Some _ => modify (set_pending true) ;; try_start ;; ret accepted
  end.

Definition lock (duration_seconds : Z) : I LockHandle :=
  let* s := get in
  let h := next_lock s in
  modify (fun s => record (Locked h) (set_locks (locks s ++ [(h, m_now (runtime s) + duration_seconds * second)]) (h + 1) s)) ;;
  arm_lock_timer ;;
  (if duration_seconds =? 0 then on_lock_timer else ret tt) ;;
  ret h.

Definition unlock (h : LockHandle) : I Result :=
  let* s := get in
  match find_handle h (locks s) with
  | None => ret invalid_argument
  | Some _ =>
      modify (fun s => record (Released h) (set_locks (erase_handle h (locks s)) (next_lock s) s)) ;;
      arm_lock_timer ;; try_start ;; ret accepted
  end.

Fixpoint run (p : Prog) : I unit :=
  match p with
  | Done => ret tt
  | Read k => let* s := get in run (k (users s))
  | Write u k => modify (set_users u) ;; run k
  | Respond r code k => handle_response (round_ r) (handle_ r) code ;; run k
  | Subscribe hook data k => let* h := subscribe hook data in run (k h)
  | Unsubscribe h k => let* r := unsubscribe h in run (k r)
  | Trigger k => let* r := trigger in run (k r)
  | Lock d k => let* h := lock d in run (k h)
  | Unlock h k => let* r := unlock h in run (k r)
  end.
End Calls.

(** Calls nested [fuel] deep. *)
Fixpoint exec (fuel : nat) (c : Callback) : I unit :=
  match fuel with
  | O => fun _ => None
  | S fuel => match c with Hook p => run (exec fuel) p | Advance => advance (exec fuel) end
  end.

(** What happens to the service between the calls of its subscribers: a
    program outside of any hook, the next callback of the runtime that is due,
    time passing, a change of the pool, and the settings. *)
Inductive Event :=
| Calls (p : Prog)
| Fires
| Time (now : Z)
| PoolChanges (f : P -> P)
| SetTimeout (t : Z)
| OnCommitted (f : Identifier -> Prog).

(** One turn of the loop of the runtime's trigger(). *)
Definition fire (call : Callback -> I unit) : I unit :=
  let* s := get in
  match m_queue (runtime s) with
  | x :: q =>
      if deadline x <=? m_now (runtime s) then
        modify (set_runtime (mk_ManualRuntime (m_now (runtime s)) q)) ;;
        match callback x with RoundTimeout => on_round_timeout call | LockTimeout => on_lock_timer call end
      else ret tt
  | [] => ret tt
  end.

Definition event (fuel : nat) (e : Event) : I unit :=
  match e with
  | Calls p => run (exec fuel) p
  | Fires => fire (exec fuel)
  | Time now => modify (fun s => set_runtime (mk_ManualRuntime now (m_queue (runtime s))) s)
  | PoolChanges f => modify (fun s => set_pool (f (pool s)) s)
  | SetTimeout t => modify (set_response_timeout t)
  | OnCommitted f => modify (on_committed f)
  end.

Fixpoint events (fuel : nat) (es : list Event) : I unit :=
  match es with [] => ret tt | e :: es => event fuel e ;; events fuel es end.

(** The destructor. *)
Definition destroy (call : Callback -> I unit) : I unit :=
  modify (fun s => set_runtime (Scheduler.cancel lock_timer_scope (Scheduler.cancel round_timer_scope (runtime s))) s) ;;
  modify (set_round None) ;;
  let* s := get in
  notify call DEREG (current s) false ;;
  modify (fun s => set_subscriptions [] (next_subscription s) s).
End IdentityManager.

Arguments Prog U : clear implicits.
Arguments Callback U : clear implicits.
Arguments IdChangeHook U : clear implicits.
Arguments Impl P U : clear implicits.
Arguments Event P U : clear implicits.
