(* ===== verification/IdentityRounds.v ===== *)
(** What the identifier-change service guarantees whatever its subscribers do:
    two-phase commit, locks and single rounds, as a property of the log. *)

From S2P Require Import Prelude Scheduler Certificate IdentityManager.
From stdpp Require Import list gmap.

Open Scope Z_scope.

(** * The log as a protocol *)

(** The round in progress after the entries of a log, newest first: its
    number, its identifier, and whether the new ticket was selected. *)
Fixpoint view (l : list Entry) : option (Z * Identifier * bool) :=
  match l with
  | [] => None
  | Started r id :: _ => Some (r, id, false)
  | Ended _ _ :: _ => None
  | Selected _ :: l => match view l with Some (r, id, _) => Some (r, id, true) | None => None end
  | _ :: l => view l
  end.

(** The locks held. *)
Fixpoint held (l : list Entry) : list LockHandle :=
  match l with
  | [] => []
  | Locked h :: l => held l ++ [h]
  | Released h :: l => filter (fun k => k <> h) (held l)
  | _ :: l => held l
  end.

(** A subscriber that has not left. *)
Definition live (h : SubscriptionHandle) (l : list Entry) : Prop := Subscribed h ∈ l /\ Unsubscribed h ∉ l.
(** A subscriber that agreed to the change of a round, or left. *)
Definition settled (r : Z) (h : SubscriptionHandle) (l : list Entry) : Prop := Answered r h true ∈ l \/ Unsubscribed h ∈ l.
(** Who has a say in a round: whoever was a subscriber when it started, and
    whoever it asked to prepare. *)
Definition concerned (r : Z) (h : SubscriptionHandle) (l : list Entry) : Prop :=
  (exists newer id older, l = newer ++ Started r id :: older /\ live h older) \/ (exists id, Delivered h PREPARE id (Some r) ∈ l).
Definition prepared (r : Z) (l : list Entry) : Prop := forall h, concerned r h l -> settled r h l.
(** A round for the identifier ended without the selection while [h] was a
    subscriber. *)
Definition aborted_for (h : SubscriptionHandle) (id : Identifier) (l : list Entry) : Prop :=
  exists r newer older, l = newer ++ Ended r false :: older /\ view older = Some (r, id, false) /\ live h older.

(** Told of a command, or gone. *)
Definition told (h : SubscriptionHandle) (c : IdChangeCommand) (id : Identifier) (r : option Z) (l : list Entry) : Prop := Delivered h c id r ∈ l \/ Unsubscribed h ∈ l.
(** The same, told after [base]. *)
Definition heard (base : list Entry) (h : SubscriptionHandle) (c : IdChangeCommand) (id : Identifier) (r : option Z) (l : list Entry) : Prop :=
  (exists n, l = n ++ base /\ Delivered h c id r ∈ n) \/ Unsubscribed h ∈ l.
(** The log when the new ticket of the round in progress was selected. *)
Fixpoint selection (l : list Entry) : option (list Entry) :=
  match l with
  | [] => None
  | Selected _ :: l => Some l
  | Started _ _ :: _ | Ended _ _ :: _ => None
  | _ :: l => selection l
  end.
(** Every subscriber at the selection was told of it. *)
Definition commit_told (r : Z) (id : Identifier) (l : list Entry) : Prop :=
  forall before h, selection l = Some before -> live h before -> told h COMMIT id (Some r) l.

(** An entry is allowed after those of [l]. *)
Definition entry_ok (e : Entry) (l : list Entry) : Prop :=
  match e with
  | Started r _ => view l = None /\ held l = [] /\ forall r' id', Started r' id' ∈ l -> r' < r
  | Delivered h PREPARE id (Some r) => live h l /\ view l = Some (r, id, false)
  | Delivered h COMMIT id (Some r) => live h l /\ view l = Some (r, id, true) /\ prepared r l
  | Delivered h ABORT id None => live h l /\ aborted_for h id l
  | Delivered _ _ _ _ => False
  | Selected id => exists r, view l = Some (r, id, false) /\ prepared r l
  | Ended r true => exists id, view l = Some (r, id, true) /\ commit_told r id l
  | Ended r false => exists id, view l = Some (r, id, false)
  | _ => True
  end.
Fixpoint log_ok (l : list Entry) : Prop := match l with [] => True | e :: l => entry_ok e l /\ log_ok l end.

Lemma settled_mono r h e l : settled r h l -> settled r h (e :: l).
Proof. intros [H|H]; [left|right]; now apply list_elem_of_further. Qed.
Lemma settled_app r h l1 l : settled r h l -> settled r h (l1 ++ l).
Proof. intros [H|H]; [left|right]; apply elem_of_app; auto. Qed.
Lemma told_app h c id r l1 l : told h c id r l -> told h c id r (l1 ++ l).
Proof. intros [H|H]; [left|right]; apply elem_of_app; auto. Qed.

Lemma heard_app base h c id r l1 l : heard base h c id r l -> heard base h c id r (l1 ++ l).
Proof. intros [(n & -> & H)|H]; [left; exists (l1 ++ n); split; [now rewrite app_assoc|]|right]; apply elem_of_app; auto. Qed.
Lemma heard_base m base h c id r l : heard (m ++ base) h c id r l -> heard base h c id r l.
Proof. intros [(n & -> & H)|H]; [left; exists (n ++ m); split; [now rewrite app_assoc|apply elem_of_app; auto]|now right]. Qed.
Lemma heard_told base h c id r l : heard base h c id r l -> told h c id r l.
Proof. intros [(n & -> & H)|H]; [left; apply elem_of_app; auto|now right]. Qed.

(** Every subscriber of a round that was aborted is told so, in a part of the
    log after [base]. *)
Definition aborts_told (l base : list Entry) : Prop := forall newer r older id h,
  l = newer ++ Ended r false :: older -> view (older ++ base) = Some (r, id, false) -> live h (older ++ base) -> told h ABORT id None newer.

Lemma aborts_told_app l2 l1 base : aborts_told l1 base -> aborts_told l2 (l1 ++ base) -> aborts_told (l2 ++ l1) base.
Proof.
  intros H1 H2 n r o id h E Hv Hl. apply app_eq_inv in E as [(k & E1 & E2)|(k & -> & E)].
  - destruct k as [|x k]; cbn in E2.
    + destruct (H1 [] r o id h) as [H|H]; auto; now apply elem_of_nil in H.
    + injection E2 as <- ->. apply (H2 n r k id h); [assumption|now rewrite app_assoc..].
  - apply told_app. now apply (H1 _ r o id h).
Qed.
Lemma aborts_told_end l r base : aborts_told l (Ended r false :: base) ->
  (forall id h, view base = Some (r, id, false) -> live h base -> told h ABORT id None l) -> aborts_told (l ++ [Ended r false]) base.
Proof.
  intros H1 H2 n r' o. induction o as [|x o _] using rev_ind; intros id h E Hv Hl.
  - apply app_inj_tail in E as [-> [= ->]]. auto.
  - rewrite app_comm_cons, app_assoc in E. apply app_inj_tail in E as [-> <-]. rewrite <- app_assoc in Hv, Hl. now apply (H1 n r' o id h).
Qed.
Lemma aborts_told_nil base : aborts_told [] base.
Proof. intros n r o id h E. now destruct n. Qed.
Lemma aborts_told_one e base : (forall r, e <> Ended r false) -> aborts_told [e] base.
Proof. intros He [|x n] r o id h E; [injection E as -> _; now destruct (He r)|]. injection E as _ E. now destruct n. Qed.
Lemma aborted_for_app h id l1 l : aborted_for h id l -> aborted_for h id (l1 ++ l).
Proof. intros (r & n & o & -> & H). exists r, (l1 ++ n), o. split; [now rewrite app_assoc|assumption]. Qed.
Lemma concerned_cons r h e l : concerned r h (e :: l) ->
  concerned r h l \/ (exists id, e = Delivered h PREPARE id (Some r)) \/ (exists id, e = Started r id /\ live h l).
Proof.
  intros [([|x n] & id & o & E & Hl)|[id [H|H]%elem_of_cons]]; [injection E as -> ->; eauto|injection E as -> ->; left; left; eauto|eauto|left; right; eauto].
Qed.
(** Rounds that concern somebody are in the log. *)
Lemma concerned_known r h l : concerned r h l -> (exists id, Started r id ∈ l) \/ (exists id, Delivered h PREPARE id (Some r) ∈ l).
Proof. intros [(n & id & o & -> & _)|H]; [|auto]. left. exists id. apply elem_of_app. right. now left. Qed.

(** The subscribers are those of the log that have not left; handles are
    given out once. *)
Definition member_entry (e : Entry) : bool := match e with Subscribed _ | Unsubscribed _ => true | _ => false end.
Definition members {V} (subs : list (SubscriptionHandle * V)) (next : SubscriptionHandle) (l : list Entry) : Prop :=
  (forall h, find_handle h subs <> None <-> live h l) /\ (forall h, Subscribed h ∈ l \/ Unsubscribed h ∈ l -> h < next).

Lemma live_cons h e l : member_entry e = false -> live h (e :: l) <-> live h l.
Proof.
  intros He. unfold live. rewrite !elem_of_cons. split; [intros [[H|H] Hn]; [now subst e|tauto]|]. intros [H Hn]. split; [auto|].
  intros [H'|H']; [now subst e|contradiction].
Qed.
Lemma members_cons {V} (subs : list (SubscriptionHandle * V)) next e l : member_entry e = false -> members subs next l -> members subs next (e :: l).
Proof.
  intros He [H1 H2]. split; [intros h; now rewrite live_cons|]. intros h. rewrite !elem_of_cons. intros [[H|H]|[H|H]]; [now subst e|auto|now subst e|auto].
Qed.

Lemma find_handle_in {V} (m : list (Z * V)) h : find_handle h m <> None <-> h ∈ map fst m.
Proof.
  induction m as [|[k v] m IH]; cbn; [now rewrite elem_of_nil|]. rewrite elem_of_cons, <- IH. destruct (Z.eqb_spec k h) as [->|].
  - split; [now left|discriminate].
  - split; [auto|]. intros [E|H]; [now subst|exact H].
Qed.
Lemma erase_keys {V} h (m : list (Z * V)) : map fst (erase_handle h m) = filter (fun k => k <> h) (map fst m).
Proof.
  induction m as [|[k v] m IH]; [reflexivity|]. unfold erase_handle in *. cbn [map fst]. rewrite !filter_cons. cbn [fst]. destruct (decide (k <> h)); cbn [map fst]; now rewrite IH.
Qed.
Lemma find_handle_erase {V} h k (m : list (Z * V)) : find_handle k (erase_handle h m) <> None <-> find_handle k m <> None /\ k <> h.
Proof. rewrite !find_handle_in, erase_keys, list_elem_of_filter. tauto. Qed.

Lemma members_subscribe {V} (subs : list (SubscriptionHandle * V)) next v l : members subs next l -> members (subs ++ [(next, v)]) (next + 1) (Subscribed next :: l).
Proof.
  intros [H1 H2]. split.
  - intros h. rewrite find_handle_in, map_app, elem_of_app, <- find_handle_in, H1. cbn. rewrite list_elem_of_singleton. unfold live. rewrite !elem_of_cons.
    split.
    + intros [[Hs Hu]|E]; [split; [now right|]; now intros [|]|]. subst h. split; [now left|]. intros [|H]; [discriminate|]. specialize (H2 next (or_intror H)). lia.
    + intros [[E|H] Hu]; [injection E as E; now right|]. left. split; [assumption|]. intros Hx. apply Hu. now right.
  - intros h. rewrite !elem_of_cons. intros [[E|H]|[E|H]]; [injection E as E; lia| |discriminate|]; enough (h < next) by lia; auto.
Qed.
Lemma members_unsubscribe {V} (subs : list (SubscriptionHandle * V)) next h l : find_handle h subs <> None -> members subs next l -> members (erase_handle h subs) next (Unsubscribed h :: l).
Proof.
  intros Hh [H1 H2]. split.
  - intros k. rewrite find_handle_erase, H1. unfold live. rewrite !elem_of_cons. split.
    + intros [[Hs Hu] Hne]. split; [now right|]. intros [E|]; [injection E as E; contradiction|contradiction].
    + intros [[E|Hs] Hu]; [discriminate|]. split; [split; [assumption|]|]; intros Hx; apply Hu; [now right|left; now subst].
  - intros k. rewrite !elem_of_cons. apply H1 in Hh as [Hh _]. intros [[E|H]|[E|H]]; [discriminate|auto|injection E as E; subst k; auto|auto].
Qed.

Section Rounds.
Context {P : Type} {TP : TicketPool P} {U : Type}.
Abbreviation Impl := (Impl P U).
Implicit Type s : Impl.

(** * The invariant *)

Definition view_of s : option (Z * Identifier * bool) :=
  match round s with Some R => Some (round_id R, new_identifier R, bool_decide (phase R = COMMIT)) | None => None end.

Record GoodLog s : Prop := {
  g_log : log_ok (log s);
  g_view : view (log s) = view_of s;
  g_held : held (log s) = map fst (locks s);
  g_started : forall r id, Started r id ∈ log s -> r <= round_counter s;
  g_delivered : forall h id r, Delivered h PREPARE id (Some r) ∈ log s -> r <= round_counter s;
  g_members : members (subscriptions s) (next_subscription s) (log s);
  g_round : forall R, round s = Some R -> round_id R <= round_counter s /\ (phase R = PREPARE \/ phase R = COMMIT) }.

(** Who has a say in the round is settled or waited for. *)
Definition Settling s : Prop := forall R, round s = Some R -> forall h, concerned (round_id R) h (log s) ->
  settled (round_id R) h (log s) \/ phase R = PREPARE /\ h ∈ outstanding R.
(** Outside of hooks everybody knows of the selection. *)
Definition Knowing s : Prop := notify_depth s = 0%nat -> forall r id, view (log s) = Some (r, id, true) -> commit_told r id (log s).
Definition Good s : Prop := GoodLog s /\ Settling s /\ Knowing s.

(** A round that survives calls made from a hook is in the same phase, and
    who is not outstanding any more is settled; a new one does not get beyond
    its first phase. *)
Definition framed s s' : Prop := forall R', round s' = Some R' ->
  (round_counter s < round_id R' -> phase R' = PREPARE) /\
  (round_id R' <= round_counter s ->
   exists R, round s = Some R /\ round_id R = round_id R' /\ phase R = phase R' /\ new_identifier R = new_identifier R' /\ selection (log s') = selection (log s) /\
     forall h, h ∈ outstanding R -> h ∈ outstanding R' \/ settled (round_id R) h (log s') \/ phase R = COMMIT).

Record Grows s s' : Prop := {
  r_depth : notify_depth s' = notify_depth s;
  r_counter : round_counter s <= round_counter s';
  r_log : exists l, log s' = l ++ log s /\ aborts_told l (log s);
  r_subs : forall h, find_handle h (subscriptions s) <> None -> find_handle h (subscriptions s') <> None \/ Unsubscribed h ∈ log s' }.
Definition Rel s s' : Prop := Grows s s' /\ ((0 < notify_depth s)%nat -> framed s s').

Lemma Grows_quiet s s' : log s' = log s -> subscriptions s' = subscriptions s -> notify_depth s' = notify_depth s -> round_counter s <= round_counter s' -> Grows s s'.
Proof. intros H1 H2 H3 H4. split; auto; [|rewrite H2; auto]. exists []. split; [assumption|apply aborts_told_nil]. Qed.
Lemma Grows_entry e s s' : (forall r, e <> Ended r false) -> log s' = e :: log s -> subscriptions s' = subscriptions s ->
  notify_depth s' = notify_depth s -> round_counter s <= round_counter s' -> Grows s s'.
Proof. intros He H1 H2 H3 H4. split; auto; [|rewrite H2; auto]. exists [e]. split; [assumption|now apply aborts_told_one]. Qed.
Lemma Grows_refl s : Grows s s.
Proof. apply Grows_quiet; reflexivity. Qed.
Lemma Grows_trans s1 s2 s3 : Grows s1 s2 -> Grows s2 s3 -> Grows s1 s3.
Proof.
  intros [D1 C1 (l1 & L1 & T1) S1] [D2 C2 (l2 & L2 & T2) S2]. split; [congruence|lia| |].
  - exists (l2 ++ l1). split; [now rewrite L2, L1, app_assoc|]. rewrite L1 in T2. now apply aborts_told_app.
  - intros h Hh. destruct (S1 h Hh) as [H|H]; [auto|]. right. rewrite L2. apply elem_of_app. auto.
Qed.

Lemma framed_same s s' : round s' = round s -> (forall R, round s = Some R -> round_id R <= round_counter s) -> selection (log s') = selection (log s) -> framed s s'.
Proof.
  intros H1 H2 H3 R HR. rewrite H1 in HR. pose proof (H2 R HR). split; [lia|]. intros _. exists R. split_all; auto.
Qed.
Lemma framed_trans s1 s2 s3 : Grows s1 s2 -> Grows s2 s3 -> framed s1 s2 -> framed s2 s3 -> framed s1 s3.
Proof.
  intros [_ C1 _ _] [_ _ (l & L & _) _] F1 F2 R3 H3. destruct (F2 R3 H3) as [N3 O3]. split.
  - intros Hn. destruct (Z.le_gt_cases (round_id R3) (round_counter s2)) as [Hle|]; [|apply N3; lia].
    destruct (O3 Hle) as (R2 & H2 & I2 & P2 & _). destruct (F1 R2 H2) as [N2 _]. rewrite <- P2. apply N2. lia.
  - intros Hid. destruct O3 as (R2 & H2 & I2 & P2 & J2 & E2 & O2); [lia|].
    destruct (F1 R2 H2) as [_ O1]. destruct O1 as (R1 & H1 & I1 & P1 & J1 & E1 & O1); [lia|]. exists R1. split_all; try congruence.
    intros h Hh. destruct (O1 h Hh) as [H|[H|H]].
    + destruct (O2 h H) as [|[|]]; [auto|right; left; congruence|right; right; congruence].
    + right; left. rewrite L. now apply settled_app.
    + auto.
Qed.
Lemma Rel_trans s1 s2 s3 : Rel s1 s2 -> Rel s2 s3 -> Rel s1 s3.
Proof.
  intros [G1 F1] [G2 F2]. split; [now apply (Grows_trans s1 s2)|]. intros H. apply (framed_trans s1 s2 s3); auto. apply F2. now rewrite (r_depth _ _ G1).
Qed.

(** The parts of the state the invariant is about. *)
Definition core s := (log s, round s, subscriptions s, next_subscription s, locks s, round_counter s, notify_depth s).
Lemma core_same s s' : core s' = core s -> Good s -> Good s' /\ Rel s s'.
Proof.
  unfold core. intros [= H1 H2 H3 H3' H4 H5 H6] [[G1 G2 G3 G4 G5 GM G6] [G7 G8]]. split; [split; [|split]|].
  - split; unfold view_of in *; rewrite ?H1, ?H2, ?H3, ?H3', ?H4, ?H5; auto.
  - unfold Settling. now rewrite H1, H2.
  - unfold Knowing. now rewrite H1, H6.
  - split; [apply Grows_quiet; auto; lia|]. intros _. apply framed_same; [assumption|intros R HR; now apply G6|now rewrite H1].
Qed.
Lemma Rel_refl s : Good s -> Rel s s.
Proof. intros Hs. now apply core_same. Qed.

(** * Calls that keep it *)

Definition safe_at {A} s (m : I A) : Prop := forall a s', m s = Some (a, s') -> Good s' /\ Rel s s'.
Definition safe {A} (m : I (P := P) (U := U) A) : Prop := forall s, Good s -> safe_at s m.

Lemma safe_ret {A} (a : A) : safe (ret a).
Proof. intros s H a' s' [= <- <-]. split; [assumption|now apply Rel_refl]. Qed.

Lemma safe_at_bind {A B} s (m : I A) (k : A -> I B) : safe_at s m -> (forall a, safe (k a)) -> safe_at s (bind m k).
Proof.
  intros Hm Hk b s' E. unfold bind in E. destruct (m s) as [[a s1]|] eqn:E1; [|discriminate]. destruct (Hm a s1 E1) as [G1 R1].
  destruct (Hk a s1 G1 b s' E) as [G2 R2]. split; [assumption|now apply (Rel_trans s s1)].
Qed.
Lemma safe_bind {A B} (m : I A) (k : A -> I B) : safe m -> (forall a, safe (k a)) -> safe (bind m k).
Proof. intros Hm Hk s Hs. apply safe_at_bind; auto. Qed.
Lemma safe_get {B} (k : Impl -> I B) : (forall s, Good s -> safe_at s (k s)) -> safe (bind get k).
Proof. intros Hk s Hs b s' E. exact (Hk s Hs b s' E). Qed.

Lemma at_safe {A} s (m : I A) : Good s -> safe m -> safe_at s m.
Proof. intros Hs Hm. exact (Hm s Hs). Qed.

Lemma safe_modify f : (forall s, core (f s) = core s) -> safe (modify f).
Proof. intros H s Hs a s' [= _ <-]. apply core_same; auto. Qed.

(** A step from [s] to [s1] by any update, followed by a safe call. *)
Lemma safe_at_step {A} s s1 f (k : unit -> I A) : f s = s1 -> Rel s s1 -> safe_at s1 (k tt) -> safe_at s (bind (modify f) k).
Proof.
  intros <- R1 Hk a s' E. destruct (Hk a s' E) as [G2 R2]. split; [assumption|now apply (Rel_trans s (f s))].
Qed.

(** Entries that neither start, end nor advance a round. *)
Definition inner (e : Entry) : bool := match e with Started _ _ | Ended _ _ | Selected _ => false | _ => true end.
(** Of these, all but a PREPARE. *)
Definition neutral (e : Entry) : Prop := inner e = true /\ forall h id r, e <> Delivered h PREPARE id (Some r).

Lemma inner_not_ended e : inner e = true -> forall r, e <> Ended r false.
Proof. now intros H r ->. Qed.
Lemma inner_view e l : inner e = true -> view (e :: l) = view l /\ selection (e :: l) = selection l.
Proof. now destruct e. Qed.

Lemma Rel_same_round e s s' : Good s -> inner e = true -> log s' = e :: log s -> round s' = round s -> subscriptions s' = subscriptions s ->
  round_counter s' = round_counter s -> notify_depth s' = notify_depth s -> Rel s s'.
Proof.
  intros Hs He H1 H2 H3 H4 H5. split; [apply (Grows_entry e); auto; [now apply inner_not_ended|lia]|]. intros _.
  apply framed_same; [assumption|intros R HR; now apply Hs|]. rewrite H1. now apply inner_view.
Qed.

Lemma GoodLog_neutral s s' e : GoodLog s -> neutral e -> entry_ok e (log s) -> log s' = e :: log s -> view_of s' = view_of s ->
  held (log s') = map fst (locks s') -> round_counter s' = round_counter s -> members (subscriptions s') (next_subscription s') (log s') ->
  (forall R, round s' = Some R -> phase R = PREPARE \/ phase R = COMMIT) -> GoodLog s'.
Proof.
  intros [G1 G2 G3 G4 G5 GM G6] [Hi Hn] He Hl Hv Hh Hc Hm Hp. split; rewrite ?Hc; auto; try rewrite Hl.
  - now split.
  - rewrite Hv, <- G2. now apply inner_view.
  - intros r id [H|H]%elem_of_cons; [now subst e|]. now apply (G4 r id).
  - intros h id r [H|H]%elem_of_cons; [now destruct (Hn h id r)|]. now apply (G5 h id r).
  - intros R HR. split; [|auto]. unfold view_of in Hv. rewrite HR in Hv. destruct (round s) as [R0|] eqn:E; [|discriminate].
    injection Hv as H1 _ _. rewrite H1. now apply G6.
Qed.

Lemma Knowing_entry e s s' : Knowing s -> inner e = true -> log s' = e :: log s -> notify_depth s' = notify_depth s -> Knowing s'.
Proof.
  intros Hk He Hl Hd. unfold Knowing. rewrite Hl, Hd. destruct (inner_view e (log s) He) as [-> Hs]. intros H0 r id Hv before h Hb Hh.
  rewrite Hs in Hb. now apply (told_app _ _ _ _ [e]), (Hk H0 r id Hv before h).
Qed.

Lemma concerned_inner r h e l : (forall r' id, e <> Started r' id) -> (forall h id r, e <> Delivered h PREPARE id (Some r)) -> concerned r h (e :: l) -> concerned r h l.
Proof. intros H1 H2 [H|[[id ->]|[id [-> _]]]]%concerned_cons; [assumption|now destruct (H2 h id r)|now destruct (H1 r id)]. Qed.
Lemma Settling_entry s s' e : Settling s -> neutral e -> log s' = e :: log s -> round s' = round s -> Settling s'.
Proof.
  intros Hs [H1 H2] Hl Hr R HR h Hh. rewrite Hl in *. rewrite Hr in HR. apply concerned_inner in Hh; [|intros r id ->; discriminate|assumption].
  destruct (Hs R HR h Hh); [left; now apply settled_mono|auto].
Qed.

(** Any neutral entry that leaves the round alone. *)
Lemma Good_entry s s' e : Good s -> neutral e -> entry_ok e (log s) -> log s' = e :: log s -> round s' = round s -> notify_depth s' = notify_depth s ->
  held (log s') = map fst (locks s') -> round_counter s' = round_counter s -> members (subscriptions s') (next_subscription s') (log s') -> Good s'.
Proof.
  intros [HG [Hst Hk]] Hn He Hl Hr Hd Hh Hc Hm. split; [|split].
  - apply (GoodLog_neutral s _ e); auto; [unfold view_of; now rewrite Hr|]. intros R HR. rewrite Hr in HR. now apply HG.
  - now apply (Settling_entry s _ e).
  - apply (Knowing_entry e s); auto. apply Hn.
Qed.

(** * The calls of the service *)

Section Calls.
Variable call : Callback U -> I (P := P) (U := U) unit.
Hypothesis Hhook : forall p, safe (call (Hook p)).
Hypothesis Hadvance : forall s R, Good s -> notify_depth s = 0%nat -> round s = Some R -> outstanding R = ∅ -> safe_at s (call Advance).

Lemma arm_round_timer_safe : safe arm_round_timer.
Proof. unfold arm_round_timer. apply safe_bind; [now apply safe_modify|]. intros _. now apply safe_modify. Qed.

(** What the loop of notify() relies on. *)
Definition loop_pre (command : IdChangeCommand) (id : Identifier) (expect : bool) (r : Z) (handles : list SubscriptionHandle) s : Prop :=
  (forall h, h ∈ handles -> find_handle h (subscriptions s) <> None \/ Unsubscribed h ∈ log s) /\
  (expect = false -> command = ABORT /\ forall h, h ∈ handles -> aborted_for h id (log s)) /\
  (expect = true -> r <= round_counter s /\ (command = PREPARE \/ command = COMMIT) /\
     forall R, round s = Some R -> round_id R = r -> phase R = command /\ new_identifier R = id /\
       (command = PREPARE -> forall h, h ∈ handles -> h ∈ outstanding R \/ settled r h (log s))).

Lemma loop_pre_rel command id expect r h handles s s' : (0 < notify_depth s)%nat -> loop_pre command id expect r (h :: handles) s -> Rel s s' -> loop_pre command id expect r handles s'.
Proof.
  intros Hd (H1 & Ht & H2) [[_ C (l & L & _) S] F]. specialize (F Hd). split; [|split].
  - intros k Hk. destruct (H1 k) as [H|H]; [now right|auto|]. right. rewrite L. apply elem_of_app. auto.
  - intros He. destruct (Ht He) as [Hc Ha]. split; [assumption|]. intros k Hk. rewrite L. apply aborted_for_app, Ha. now right.
  - intros He. destruct (H2 He) as (Hr & Hc & H3). split; [lia|]. split; [assumption|]. intros R' HR' Hid. destruct (F R' HR') as [_ (R & HR & I1 & I2 & I3 & _ & I4)]; [lia|].
    destruct (H3 R HR) as (E1 & E2 & E3); [congruence|]. split_all; try congruence. intros Ec k Hk. destruct (E3 Ec k) as [H|H]; [now right| |].
    + destruct (I4 k H) as [|[H'|H']]; [auto|right; congruence|congruence].
    + right. rewrite L. now apply settled_app.
Qed.

Lemma is_round_spec r s : is_round r s = true <-> exists R, round s = Some R /\ round_id R = r.
Proof.
  unfold is_round. destruct (round s) as [R|]; [|split; [discriminate|intros (R & H & _); discriminate]].
  rewrite Z.eqb_eq. split; [eauto|]. intros (R' & [= <-] & H). exact H.
Qed.

(** A round only changes whom it waits for. *)
Lemma with_outstanding_good o R s : Good s -> round s = Some R -> let s1 := set_round (Some (with_outstanding o R)) s in
  (forall h, h ∈ outstanding R -> h ∈ o \/ settled (round_id R) h (log s)) -> Good s1 /\ Rel s s1.
Proof.
  intros [[G1 G2 G3 G4 G5 GM G6] [G7 G8]] HR. cbn zeta. intros Ho. split; [split; [|split]|].
  - split; cbn; auto; [rewrite G2; unfold view_of; cbn; now rewrite HR|]. intros R' [= <-]. now apply (G6 R).
  - intros R' [= <-] k Hk. cbn in *. destruct (G7 R HR k Hk) as [H|[H1 H2]]; [auto|]. destruct (Ho k H2); auto.
  - exact G8.
  - split; [now apply Grows_quiet|]. intros _ R' [= <-]. cbn. pose proof (G6 R HR). split; [lia|]. intros _. exists R. split_all; auto. intros k Hk. destruct (Ho k Hk); auto.
Qed.

(** A subscriber that left is not waited for any more. *)
Lemma drop_outstanding_ok h s : Good s -> Unsubscribed h ∈ log s ->
  let s1 := set_round (option_map (fun R => with_outstanding (outstanding R ∖ {[h]}) R) (round s)) s in Good s1 /\ Rel s s1.
Proof.
  intros Hs Hh. cbn zeta. destruct (round s) as [R|] eqn:ER; cbn [option_map].
  - apply with_outstanding_good; [assumption|assumption|]. intros k Hk. destruct (decide (k = h)) as [->|Hne]; [right; now right|]. left. apply elem_of_difference. split; [assumption|]. now rewrite elem_of_singleton.
  - apply core_same; [unfold core; cbn; congruence|assumption].
Qed.

(** PREPARE is delivered to somebody the round waits for. *)
Lemma prepare_ok h s R : Good s -> live h (log s) -> round s = Some R -> phase R = PREPARE -> h ∈ outstanding R \/ settled (round_id R) h (log s) ->
  Good (record (Delivered h PREPARE (new_identifier R) (Some (round_id R))) s).
Proof.
  intros (HG & G7 & G8) Hl HR Hp Ho. set (e := Delivered h PREPARE (new_identifier R) (Some (round_id R))).
  pose proof (g_view _ HG) as Hv. unfold view_of in Hv. rewrite HR, Hp in Hv. split; [|split].
  - destruct HG as [G1 G2 G3 G4 G5 GM G6]. split; cbn; auto.
    + intros r' id' [H|H]%elem_of_cons; [discriminate|]. eauto.
    + intros k id' r' [[= _ _ ->]|H]%elem_of_cons; [|eauto]. now apply G6.
    + now apply members_cons.
  - intros R' HR' k Hk. cbn in HR', Hk. rewrite HR in HR'. injection HR' as <-. apply concerned_cons in Hk as [Hk|[[id' [= -> _]]|[id' [[=] _]]]].
    + destruct (G7 R HR k Hk) as [H|H]; [left; now apply settled_mono|auto].
    + destruct Ho as [H|H]; [auto|]. left. now apply settled_mono.
  - now apply (Knowing_entry e s).
Qed.

Lemma deliver_ok command id expect r h s : Good s -> find_handle h (subscriptions s) <> None ->
  (expect = false -> command = ABORT /\ aborted_for h id (log s)) ->
  (expect = true -> exists R, round s = Some R /\ round_id R = r /\ phase R = command /\ new_identifier R = id /\ (command = PREPARE -> h ∈ outstanding R \/ settled r h (log s)) /\ (command = PREPARE \/ command = COMMIT)) ->
  let s1 := record (Delivered h command id (if expect then Some r else None)) s in Good s1 /\ Rel s s1.
Proof.
  intros Hs Hf Ha He. cbn zeta. split; [|now apply (Rel_same_round (Delivered h command id (if expect then Some r else None)))].
  apply (proj1 (g_members _ (proj1 Hs))) in Hf. pose proof (members_cons _ _ (Delivered h command id (if expect then Some r else None)) _ eq_refl (g_members _ (proj1 Hs))) as Hm. destruct expect.
  - destruct (He eq_refl) as (R & HR & <- & <- & <- & Ho & [Hc|Hc]).
    + rewrite Hc. apply prepare_ok; auto.
    + pose proof (g_view _ (proj1 Hs)) as Hv. unfold view_of in Hv. rewrite HR, Hc in Hv. rewrite Hc in *.
      apply (Good_entry s _ (Delivered h COMMIT (new_identifier R) (Some (round_id R)))); try reflexivity; auto; [split; [reflexivity|discriminate]| |apply Hs].
      split; [assumption|]. split; [assumption|]. intros k Hk. destruct Hs as (_ & G7 & _). destruct (G7 R HR k Hk) as [H|[H _]]; [assumption|congruence].
  - destruct (Ha eq_refl) as [-> Hab].
    apply (Good_entry s _ (Delivered h ABORT id None)); try reflexivity; auto; [split; [reflexivity|discriminate]|now split|apply Hs].
Qed.

(** The loop runs to its end, except when its round is over. *)
Lemma notify_each_safe command id expect r handles : forall s, Good s -> (0 < notify_depth s)%nat -> loop_pre command id expect r handles s ->
  forall a s', notify_each call command id expect r handles s = Some (a, s') -> Good s' /\ Rel s s' /\
    (expect = false \/ is_round r s' = true -> forall h, h ∈ handles -> heard (log s) h command id (if expect then Some r else None) (log s')).
Proof.
  induction handles as [|h handles IH]; intros s Hs Hd Hp a s'.
  { intros [= _ <-]. split; [assumption|]. split; [now apply Rel_refl|]. now intros _ h ?%elem_of_nil. }
  cbn [notify_each]. unfold bind at 1, get. destruct (expect && negb (is_round r s)) eqn:E0.
  { apply andb_true_iff in E0 as [-> E0]. intros [= _ <-]. split; [assumption|]. split; [now apply Rel_refl|]. intros [|H]; [discriminate|]. now rewrite H in E0. }
  assert (forall s2, Good s2 -> Rel s s2 -> heard (log s) h command id (if expect then Some r else None) (log s2) ->
    notify_each call command id expect r handles s2 = Some (a, s') -> Good s' /\ Rel s s' /\
    (expect = false \/ is_round r s' = true -> forall k, k ∈ h :: handles -> heard (log s) k command id (if expect then Some r else None) (log s'))) as Hrest.
  { intros s2 G2 R2 Ht E. destruct (IH s2 G2) with (a := a) (s' := s') as (G3 & R3 & T3); auto.
    - rewrite (r_depth _ _ (proj1 R2)). exact Hd.
    - now apply (loop_pre_rel command id expect r h handles s).
    - split; [assumption|]. split; [now apply (Rel_trans _ s2)|]. intros Hr k [->|Hk]%elem_of_cons.
      + destruct (r_log _ _ (proj1 R3)) as (l & -> & _). now apply heard_app.
      + destruct (r_log _ _ (proj1 R2)) as (l & L & _). apply (heard_base l). rewrite <- L. auto. }
  destruct (find_handle h (subscriptions s)) as [sub|] eqn:Ef.
  - destruct (deliver_ok command id expect r h s Hs) as [G1 R1].
    { now rewrite Ef. }
    { intros He. destruct (proj1 (proj2 Hp) He) as [Hc Ha]. split; [assumption|]. apply Ha. now left. }
    { intros ->. cbn in E0. apply negb_false_iff, is_round_spec in E0 as (R & HR & Hr). destruct Hp as (_ & _ & Hp). destruct (Hp eq_refl) as (_ & Hc & H3).
      destruct (H3 R HR Hr) as (E1 & E2 & E3). exists R. split_all; auto. intros Ec. apply (E3 Ec). now left. }
    unfold bind at 1, modify. cbn beta. unfold bind at 1. destruct (call _ _) as [[[] s2]|] eqn:E1; [|discriminate]. apply Hhook in E1 as [G2 R2]; [|assumption].
    apply Hrest; [assumption|now apply (Rel_trans _ _ _ R1)|]. destruct (r_log _ _ (proj1 R2)) as (l & -> & _). apply heard_app. left. eexists [_]. split; [reflexivity|]. now left.
  - destruct (proj1 Hp h) as [H|Hu]; [now left|congruence|]. destruct (is_round r s).
    + destruct (drop_outstanding_ok h s Hs Hu) as [G1 R1]. unfold bind at 1, modify. cbn beta. apply Hrest; [assumption|assumption|now right].
    + unfold bind at 1, ret. cbn beta. apply Hrest; [assumption|now apply Rel_refl|now right].
Qed.

Lemma set_depth_good n s : GoodLog s -> Settling s -> Good (set_depth (S n) s).
Proof. intros [G1 G2 G3 G4 G5 GM G6] G7. split; [split; assumption|]. split; [assumption|]. intros [=]. Qed.

(** The loop between the two changes of the depth.  A round that was selected
    before must be that of the loop, which tells everybody. *)
Lemma nested_loop_safe command id expect r handles s1 s2 : GoodLog s1 -> Settling s1 -> loop_pre command id expect r handles s1 ->
  (forall R, round s1 = Some R -> phase R = COMMIT -> expect = true /\ command = COMMIT /\ r = round_id R /\ id = new_identifier R /\
     forall before h, selection (log s1) = Some before -> live h before -> h ∈ handles) ->
  notify_each call command id expect r handles (set_depth (S (notify_depth s1)) s1) = Some (tt, s2) ->
  let s3 := set_depth (Nat.pred (notify_depth s2)) s2 in Good s3 /\ Grows s1 s3 /\ framed s1 s3 /\
    (expect = false -> forall h, h ∈ handles -> heard (log s1) h command id None (log s3)).
Proof.
  intros G1 S1 Hp Hc E. cbn zeta. apply notify_each_safe in E as (G2 & [[D C L Su] F] & T); [|now apply set_depth_good|cbn; lia|exact Hp].
  assert (framed s1 (set_depth (Nat.pred (notify_depth s2)) s2)) as F1 by (apply F; cbn; lia).
  split; [|split; [|split; [assumption|]]].
  - destruct G2 as ([G2a G2b G2c G2d G2e G2f G2g] & G7 & _). split; [split; assumption|]. split; [assumption|]. intros _ r' id' Hv before h Hb Hl. cbn in Hv, Hb |- *.
    rewrite G2b in Hv. unfold view_of in Hv. destruct (round s2) as [R'|] eqn:HR'; [|discriminate]. injection Hv as <- <- Hph. apply bool_decide_eq_true in Hph.
    destruct (F1 R' HR') as [Hn Ho]. destruct (Z.le_gt_cases (round_id R') (round_counter s1)) as [Hle|Hgt]; [|rewrite Hn in Hph by lia; discriminate].
    destruct (Ho Hle) as (R & HR & I1 & I2 & I3 & I4 & _). destruct (Hc R HR) as (-> & -> & -> & -> & Hall); [congruence|].
    rewrite <- I1, <- I3. apply (heard_told (log s1)), T; [|cbn in I4; apply (Hall before h); [congruence|assumption]]. right. apply is_round_spec. eauto.
  - split; cbn in *; [rewrite D; reflexivity|assumption|assumption|assumption].
  - intros -> h Hh. apply T; auto.
Qed.

(** ABORT, which expects no response. *)
Lemma notify_abort_safe id s : Good s -> round s = None -> (forall h, live h (log s) -> aborted_for h id (log s)) ->
  forall a s', notify call ABORT id false s = Some (a, s') -> Good s' /\ Rel s s' /\ forall h, live h (log s) -> heard (log s) h ABORT id None (log s').
Proof.
  intros Hs Hr Ha a s' E. unfold notify, bind, get, ret, modify in E. cbn beta in E.
  destruct (notify_each _ _ _ _ _ _ _) as [[[] s2]|] eqn:E1; [|discriminate]. cbn [andb] in E. injection E as _ <-.
  apply nested_loop_safe in E1 as (G & R1 & R2 & T); [|apply Hs..| |].
  - split; [assumption|]. split; [now split|]. intros h Hh. apply T; [reflexivity|]. apply find_handle_in. now apply (g_members _ (proj1 Hs)).
  - split; [intros h Hh; left; now apply find_handle_in|]. split; [|discriminate]. intros _. split; [reflexivity|]. intros h Hh. apply Ha.
    apply (g_members _ (proj1 Hs)). now apply find_handle_in.
  - intros R HR. congruence.
Qed.

(** PREPARE and COMMIT for the round in progress. *)
Definition asked (R : Round) s : Round := with_outstanding (outstanding R ∪ list_to_set (map fst (subscriptions s))) R.
Lemma notify_round_safe command id s R : GoodLog s -> Settling (set_round (Some (asked R s)) s) -> round s = Some R -> phase R = command -> new_identifier R = id ->
  (command = COMMIT -> forall before h, selection (log s) = Some before -> live h before -> find_handle h (subscriptions s) <> None) ->
  safe_at s (notify call command id true).
Proof.
  intros HG Hst HR Hp Hi Hsel a s' E. unfold notify, bind, get, ret, modify in E. cbn beta in E. rewrite HR in E. cbn [option_map] in E.
  fold (asked R s) in E. set (R1 := asked R s) in *.
  assert (GoodLog (set_round (Some R1) s)) as G1.
  { destruct HG as [G1 G2 G3 G4 G5 GM G6]. split; cbn; auto.
    - rewrite G2. unfold view_of. cbn. now rewrite HR.
    - intros R' [= <-]. now apply (G6 R). }
  assert (Rel s (set_round (Some R1) s)) as RR.
  { split; [now apply Grows_quiet|]. intros _ R' [= <-]. cbn. pose proof (g_round _ HG R HR). split; [lia|]. intros _. exists R. split_all; auto. intros k Hk. left. apply elem_of_union. auto. }
  destruct (notify_each _ _ _ _ _ _ _) as [[[] s2]|] eqn:E1; [|discriminate].
  apply (nested_loop_safe command id true (round_id R) (map fst (subscriptions s)) (set_round (Some R1) s)) in E1 as (G3 & R2 & R3 & _); [|assumption|assumption| |].
  2: { split; [intros h Hh; left; now apply find_handle_in|]. split; [discriminate|]. intros _. split; [apply (g_round _ HG R HR)|].
       split; [rewrite <- Hp; apply (g_round _ HG R HR)|]. intros R' [= <-] _. split_all; auto. intros _ h Hh. left. cbn. apply elem_of_union. right. now apply elem_of_list_to_set. }
  2: { intros R' [= <-] Hc. cbn in Hc. rewrite Hp in Hc. split_all; auto. intros before h Hb Hl. apply find_handle_in. now apply (Hsel Hc before h). }
  set (s3 := set_depth (Nat.pred (notify_depth s2)) s2) in *.
  assert (Rel s s3) as R03 by (apply (Rel_trans s (set_round (Some R1) s)); [assumption|split; auto]).
  assert (forall m : I unit, safe_at s3 m -> m s3 = Some (a, s') -> Good s' /\ Rel s s') as Hfin.
  { intros m Hm Em. destruct a. destruct (Hm _ _ Em) as [G4 R4]. split; [assumption|now apply (Rel_trans s s3)]. }
  clearbody s3. destruct (true && (notify_depth s3 =? 0)%nat && is_round (round_id R) s3) eqn:Ec.
  - apply andb_true_iff in Ec as [Ec1 Ec2]. cbn in Ec1. apply Nat.eqb_eq in Ec1. apply is_round_spec in Ec2 as (R' & HR' & _). rewrite HR' in E.
    destruct (bool_decide (outstanding R' = ∅)) eqn:Eo.
    + apply bool_decide_eq_true in Eo. apply (Hfin (call Advance)); [|exact E]. now apply (Hadvance s3 R').
    + apply (Hfin arm_round_timer); [|exact E]. now apply arm_round_timer_safe.
  - apply (Hfin (ret tt)); [now apply safe_ret|exact E].
Qed.

Lemma try_start_safe : safe (try_start call).
Proof.
  unfold try_start. apply safe_get. intros s Hs. destruct (negb (pending_trigger s) || locked s || bool_decide (is_Some (round s))) eqn:E0; [now apply safe_ret|].
  rewrite !orb_false_iff in E0. destruct E0 as [[_ El] Er]. unfold locked in El. apply negb_false_iff, bool_decide_eq_true in El. apply bool_decide_eq_false, eq_None_not_Some in Er.
  destruct (core_same s (set_pending false s) eq_refl Hs) as [G1 R1]. eapply safe_at_step; [reflexivity|exact R1|].
  destruct (pool_next_valid _ _) as [next|]; [|now apply safe_ret].
  set (r := round_counter s + 1). set (R := mk_Round r PREPARE next ∅).
  set (s2 := record (Started r next) (set_round (Some R) (set_counter r (set_pending false s)))).
  assert (GoodLog s2 /\ Settling (set_round (Some (asked R s2)) s2) /\ Rel (set_pending false s) s2) as (G2 & S2 & R2).
  { destruct G1 as [[G1 G2 G3 G4 G5 GM G6] _]. cbn in *. unfold view_of in G2. cbn in G2. rewrite Er in G2. rewrite El in G3. split; [split|split]; cbn.
    - split_all; auto. intros r' id' H. apply G4 in H. unfold r. lia.
    - reflexivity.
    - now rewrite El.
    - intros r' id' [[= -> _]|H]%elem_of_cons; [lia|]. apply G4 in H. unfold r. lia.
    - intros h id' r' [H|H]%elem_of_cons; [discriminate|]. apply G5 in H. unfold r. lia.
    - now apply members_cons.
    - intros R' [= <-]. cbn. split; [lia|auto].
    - intros R' [= <-] h Hh. cbn in Hh. right. split; [reflexivity|]. apply concerned_cons in Hh as [Hh|[[id' [=]]|[id' [_ Hl]]]].
      + apply concerned_known in Hh as [[id' H]|[id' H]]; [apply G4 in H|apply G5 in H]; unfold r in H; lia.
      + cbn. apply elem_of_union. right. apply elem_of_list_to_set, find_handle_in. now apply (proj1 GM).
    - split; [apply (Grows_entry (Started r next)); auto; cbn; lia|]. intros _ R' [= <-]. split; [reflexivity|]. cbn. lia. }
  intros a s' E. unfold bind, modify in E. cbn beta in E.
  destruct (notify_round_safe PREPARE next s2 R G2 S2 eq_refl eq_refl eq_refl ltac:(discriminate) a s' E) as [G3 R3]. split; [assumption|now apply (Rel_trans _ s2)].
Qed.

(** The log of a round that ends. *)
Lemma ended_good s s1 r id done : GoodLog s -> view (log s) = Some (r, id, done) -> (done = true -> commit_told r id (log s)) ->
  log s1 = Ended r done :: log s -> round s1 = None -> subscriptions s1 = subscriptions s -> next_subscription s1 = next_subscription s ->
  locks s1 = locks s -> round_counter s1 = round_counter s -> Good s1.
Proof.
  intros [G1 G2 G3 G4 G5 GM G6] Hv Ht H1 H2 H3 H4 H5 H6. unfold Good, Settling, Knowing, view_of. split; [split|split]; unfold view_of; rewrite ?H1, ?H2, ?H3, ?H4, ?H5, ?H6; try discriminate; auto.
  - split; [|assumption]. destruct done; exists id; auto.
  - intros r' id' [H|H]%elem_of_cons; [discriminate|]. eauto.
  - intros h id' r' [H|H]%elem_of_cons; [discriminate|]. eauto.
  - now apply members_cons.
Qed.

Lemma finish_safe s R : Good s -> notify_depth s = 0%nat -> round s = Some R -> phase R = COMMIT -> safe_at s (finish call).
Proof.
  intros Hs Hd HR Hp. unfold finish. destruct (core_same s (set_runtime (Scheduler.cancel round_timer_scope (runtime s)) s) eq_refl Hs) as [G1 R1].
  eapply safe_at_step; [reflexivity|exact R1|]. cbn beta. set (s1 := set_runtime _ s) in *. intros a s' E. unfold bind at 1, get in E. change (round s1) with (round s) in E. rewrite HR in E. revert a s' E.
  set (s2 := record (Ended (round_id R) true) (set_round None s1)).
  assert (Good s2 /\ Rel s1 s2) as [G2 R2].
  { split.
    - pose proof (g_view _ (proj1 G1)) as Hv. unfold view_of in Hv. change (round s1) with (round s) in Hv. rewrite HR, Hp in Hv.
      apply (ended_good s1 s2 (round_id R) (new_identifier R) true); try reflexivity; [apply G1|exact Hv|]. intros _. now apply G1.
    - split; [apply (Grows_entry (Ended (round_id R) true)); auto; cbn; lia|]. intros Hlt. cbn in Hlt. lia. }
  eapply safe_at_step; [reflexivity|exact R2|]. apply at_safe; [assumption|]. apply safe_bind; [now apply safe_modify|]. intros _.
  apply safe_bind; [|intros _; apply try_start_safe]. destruct (committed s1); [apply Hhook|apply safe_ret].
Qed.

(** [s] is where the call began whose last update led to [s1]. *)
Lemma abort_safe s s1 R : GoodLog s1 -> Grows s s1 -> round_counter s1 = round_counter s -> round s1 = Some R -> phase R = PREPARE ->
  forall a s', abort call s1 = Some (a, s') -> Good s' /\ Rel s s'.
Proof.
  intros HG RG Hc HR Hp a s' E. unfold abort, bind, modify, get in E. cbn beta in E. change (round (set_runtime _ s1)) with (round s1) in E. rewrite HR in E.
  set (s2 := add_stats 0 1 0 0 (record (Ended (round_id R) false) (set_round None (set_runtime (Scheduler.cancel round_timer_scope (runtime s1)) s1)))) in E.
  pose proof (g_view _ HG) as Hv. unfold view_of in Hv. rewrite HR, Hp in Hv. cbn in Hv.
  assert (Good s2) as G2 by now apply (ended_good s1 s2 (round_id R) (new_identifier R) false).
  destruct (notify_abort_safe (new_identifier R) s2 G2 eq_refl) with (a := a) (s' := s') as (G3 & [R3 F3] & T3); [|exact E|].
  { intros h Hh%live_cons; [|reflexivity]. exists (round_id R), [], (log s1). auto. }
  assert (Grows s1 s') as R1.
  { destruct R3 as [D C (l & L & T) S]. split; [exact D|exact C| |exact S]. exists (l ++ [Ended (round_id R) false]). split; [rewrite L; now rewrite <- app_assoc|].
    apply aborts_told_end; [exact T|]. intros id h Hvo Hlo. rewrite Hv in Hvo. injection Hvo as <-.
    destruct (T3 h) as [(n & En & Hn)|Hu]; [now apply live_cons|left|right].
    - rewrite L in En. now apply app_inv_tail in En as ->.
    - rewrite L in Hu. apply elem_of_app in Hu as [Hu|Hu]; [assumption|]. apply elem_of_cons in Hu as [|Hu]; [discriminate|]. now destruct Hlo. }
  split; [assumption|]. split; [now apply (Grows_trans s s1)|].
  intros Hd R' HR'. destruct (F3) with (R' := R') as [Hn Ho]; [|assumption|].
  - change (notify_depth s2) with (notify_depth s1). rewrite (r_depth _ _ RG). exact Hd.
  - change (round_counter s2) with (round_counter s1) in Hn, Ho. rewrite Hc in Hn, Ho. split; [exact Hn|]. intros Hle. destruct (Ho Hle) as (R0 & H0 & _). discriminate.
Qed.


Lemma advance_safe s R : Good s -> notify_depth s = 0%nat -> round s = Some R -> outstanding R = ∅ -> safe_at s (advance call).
Proof.
  intros Hs Hd HR Ho. unfold advance. destruct (core_same s (set_runtime (Scheduler.cancel round_timer_scope (runtime s)) s) eq_refl Hs) as [G1 R1].
  eapply safe_at_step; [reflexivity|exact R1|]. cbn beta. set (s1 := set_runtime _ s) in *. intros a s' E. unfold bind at 1, get in E. change (round s1) with (round s) in E. rewrite HR in E. revert a s' E.
  destruct (g_round _ (proj1 G1) R HR) as [_ Hph]. destruct (bool_decide (phase R = PREPARE)) eqn:Ep.
  2: { apply bool_decide_eq_false in Ep. destruct Hph; [contradiction|]. now apply (finish_safe s1 R). }
  apply bool_decide_eq_true in Ep. set (s2 := record (Selected (new_identifier R)) (set_pool (pool_select (new_identifier R) (pool s1)) (set_round (Some (with_phase COMMIT R)) s1))).
  assert (GoodLog s2 /\ Settling s2 /\ Rel s1 s2) as (G2 & S2 & R2).
  { destruct G1 as [[G1 G2 G3 G4 G5 GM G6] [G7 _]]. unfold view_of in G2. cbn in *. rewrite HR, Ep in G2. cbn in G2.
    assert (prepared (round_id R) (log s)) as Hprep.
    { intros h Hh. destruct (G7 R HR h Hh) as [|[_ H]]; [assumption|]. rewrite Ho in H. now apply elem_of_empty in H. }
    split; [split|split]; cbn; auto.
    - split; [|assumption]. exists (round_id R). auto.
    - rewrite G2. reflexivity.
    - intros r id [H|H]%elem_of_cons; [discriminate|]. now apply G4 in H.
    - intros h id r [H|H]%elem_of_cons; [discriminate|]. now apply G5 in H.
    - now apply members_cons.
    - intros R' [= <-]. cbn. split; [now apply G6|auto].
    - intros R' [= <-] h Hh. apply concerned_inner in Hh; [|discriminate..]. left. apply settled_mono. now apply Hprep.
    - split; [apply (Grows_entry (Selected (new_identifier R))); auto; cbn; lia|]. intros Hlt. cbn in Hlt. lia. }
  eapply safe_at_step; [reflexivity|exact R2|]. apply (notify_round_safe COMMIT (new_identifier R) s2 (with_phase COMMIT R)); auto.
  - intros R' [= <-] h Hh. destruct (S2 _ eq_refl h Hh) as [|[[=] _]]; auto.
  - intros _ before h [= <-] Hl. now apply (g_members _ (proj1 G1)).
Qed.

Lemma bind_modify {A} f (k : unit -> I A) s : bind (modify f) k s = k tt (f s).
Proof. reflexivity. Qed.

Lemma bind_if_modify (b : bool) f (k : I unit) s : bind (if b then modify f else ret tt) (fun _ => k) s = k (if b then f s else s).
Proof. now destruct b. Qed.

Lemma count_failure (b : bool) s : Good s -> let s' := if b then add_stats 0 0 0 1 s else s in
  Good s' /\ Rel s s' /\ round s' = round s /\ notify_depth s' = notify_depth s.
Proof. intros Hs. cbn zeta. destruct (core_same s (if b then add_stats 0 0 0 1 s else s)) as [H1 H2]; [now destruct b|assumption|]. now destruct b. Qed.

(** A response: a subscriber that refuses to prepare ends the round. *)
Lemma handle_response_safe r h code : safe (handle_response call r h code).
Proof.
  unfold handle_response. apply safe_get. intros s Hs. destruct (round s) as [R|] eqn:HR; [|now apply safe_ret].
  destruct (negb (round_id R =? r) || negb (bool_decide (h ∈ outstanding R))) eqn:E0; [now apply safe_ret|].
  rewrite orb_false_iff, !negb_false_iff, Z.eqb_eq, bool_decide_eq_true in E0. destruct E0 as [Hr Hh].
  set (R1 := with_outstanding (outstanding R ∖ {[h]}) R). set (s1 := record (Answered r h code) (set_round (Some R1) s)).
  assert (GoodLog s1) as HG1.
  { pose proof (proj1 Hs) as HG. apply (GoodLog_neutral s _ (Answered r h code)); try reflexivity; try exact Logic.I; auto.
    - now split.
    - unfold view_of. cbn. now rewrite HR.
    - apply (g_held _ HG).
    - apply members_cons; [reflexivity|apply HG].
    - intros R' [= <-]. now apply (g_round _ HG R). }
  assert (Grows s s1) as RG1 by (apply (Grows_entry (Answered r h code)); auto; cbn; lia).
  destruct (negb code && bool_decide (phase R = PREPARE)) eqn:Ec.
  - apply andb_true_iff in Ec as [_ Ep%bool_decide_eq_true]. intros a s'. rewrite bind_modify. fold R1 s1.
    apply (abort_safe s s1 R1 HG1 RG1); [reflexivity|reflexivity|exact Ep].
  - assert (Good s1 /\ Rel s s1) as [G1 RR1].
    { assert (code = true \/ phase R = COMMIT) as Hcp.
      { destruct code; [auto|]. cbn in Ec. apply bool_decide_eq_false in Ec. destruct (g_round _ (proj1 Hs) R HR) as [_ [Hx|Hx]]; [contradiction|auto]. }
      split; [split; [assumption|split]|split; [assumption|]].
      - intros R' [= <-] k H. apply concerned_inner in H; [|discriminate..]. destruct (proj1 (proj2 Hs) R HR k H) as [H1|[H1 H2]]; [left; now apply settled_mono|].
        destruct (decide (k = h)) as [->|Hne].
        + destruct Hcp as [->|]; [|congruence]. left. left. cbn. rewrite Hr. now left.
        + right. split; [assumption|]. cbn. apply elem_of_difference. split; [assumption|]. now rewrite elem_of_singleton.
      - apply (Knowing_entry (Answered r h code) s); auto. apply Hs.
      - intros _ R' [= <-]. cbn. pose proof (g_round _ (proj1 Hs) R HR). split; [lia|]. intros _. exists R. split_all; auto. intros k Hk. cbn. destruct (decide (k = h)) as [->|Hne].
        + destruct Hcp as [->|]; [|auto]. right. left. left. cbn. rewrite Hr. now left.
        + left. apply elem_of_difference. split; [assumption|]. now rewrite elem_of_singleton. }
    eapply safe_at_step; [reflexivity|exact RR1|]. cbn beta.
    destruct (count_failure (negb code) s1 G1) as (G2 & RR2 & HR2 & Hd2).
    change (round s1) with (Some R1) in HR2. change (notify_depth s1) with (notify_depth s) in Hd2. set (s2 := if negb code then add_stats 0 0 0 1 s1 else s1) in *.
    intros a s'. rewrite bind_if_modify. fold s1. fold s2. clearbody s2. destruct (bool_decide (outstanding R ∖ {[h]} = ∅) && (notify_depth s =? 0)%nat) eqn:Ea; intros E.
    + apply andb_true_iff in Ea as [Eo%bool_decide_eq_true Ed%Nat.eqb_eq]. destruct (advance_safe s2 R1 G2) with (a := a) (s' := s') as [G3 RR3]; auto; [congruence|].
      split; [assumption|]. now apply (Rel_trans _ s2).
    + injection E as _ <-. auto.
Qed.

Lemma on_round_timeout_safe s : Good s -> notify_depth s = 0%nat -> safe_at s (on_round_timeout call).
Proof.
  intros Hs Hd a s' E. unfold on_round_timeout, bind at 1, get in E. destruct (round s) as [R|] eqn:HR; [|now apply (safe_ret tt s Hs a)].
  destruct (g_round _ (proj1 Hs) R HR) as [_ Hp]. destruct (bool_decide (phase R = PREPARE)) eqn:Ep.
  - apply bool_decide_eq_true in Ep. unfold bind, modify in E. destruct (core_same s (add_stats 0 0 1 0 s) eq_refl Hs) as [[G1 _] [RG _]].
    exact (abort_safe s _ R G1 RG eq_refl HR Ep a s' E).
  - apply bool_decide_eq_false in Ep. destruct Hp; [contradiction|]. unfold bind, modify in E. cbn beta in E.
    set (s1 := add_stats 0 0 0 (Z.of_nat (size (outstanding R))) (add_stats 0 0 1 0 s)) in E. destruct (core_same s s1 eq_refl Hs) as [G1 R1].
    destruct (finish_safe s1 R G1 Hd HR) with (a := a) (s' := s') as [G2 R2]; auto. split; [assumption|]. now apply (Rel_trans _ s1).
Qed.

Lemma arm_lock_timer_safe : safe arm_lock_timer.
Proof.
  unfold arm_lock_timer. apply safe_bind; [now apply safe_modify|]. intros _. apply safe_modify. intros s. now destruct (earliest (locks s)).
Qed.

Lemma release_ok h s : Good s -> let s1 := record (Released h) (set_locks (erase_handle h (locks s)) (next_lock s) s) in Good s1 /\ Rel s s1.
Proof.
  intros Hs. cbn zeta. split; [|now apply (Rel_same_round (Released h))].
  apply (Good_entry s _ (Released h)); auto; [now split|exact Logic.I| |apply members_cons; [reflexivity|apply Hs]].
  cbn. now rewrite (g_held _ (proj1 Hs)), erase_keys.
Qed.

Lemma expire_ok now s : Good s -> Good (expire now s) /\ Rel s (expire now s).
Proof.
  unfold expire. generalize (locks s) as ls. intros ls. revert s. induction ls as [|[h t] ls IH]; intros s Hs; [split; [assumption|now apply Rel_refl]|].
  cbn [fold_left fst snd]. destruct (t <=? now); [|now apply IH]. destruct (release_ok h s Hs) as [G1 R1]. destruct (IH _ G1) as [G2 R2].
  split; [assumption|]. eapply Rel_trans; eassumption.
Qed.

Lemma on_lock_timer_safe : safe (on_lock_timer call).
Proof.
  unfold on_lock_timer. intros s Hs. eapply safe_at_step; [reflexivity|apply expire_ok, Hs|]. apply at_safe; [now apply expire_ok|].
  apply safe_bind; [apply arm_lock_timer_safe|]. intros _. apply try_start_safe.
Qed.

Lemma subscribe_safe hook data : safe (subscribe hook data).
Proof.
  unfold subscribe. apply safe_get. intros s Hs. set (s1 := record (Subscribed (next_subscription s)) (set_subscriptions (subscriptions s ++ [(next_subscription s, mk_Subscription hook data)]) (next_subscription s + 1) s)).
  assert (Good s1 /\ Rel s s1) as [G1 R1].
  { split.
    - apply (Good_entry s _ (Subscribed (next_subscription s))); auto; [now split|exact Logic.I|apply Hs|apply members_subscribe, Hs].
    - split; [split; cbn; auto; [lia| |]|].
      + exists [Subscribed (next_subscription s)]. split; [reflexivity|now apply aborts_told_one].
      + intros h H. left. apply find_handle_in. rewrite map_app. apply elem_of_app. left. now apply find_handle_in.
      + intros _. apply framed_same; [reflexivity|intros R HR; now apply Hs|reflexivity]. }
  eapply safe_at_step; [reflexivity|exact R1|]. now apply safe_ret.
Qed.

Lemma unsubscribe_safe h : safe (unsubscribe call h).
Proof.
  unfold unsubscribe. apply safe_get. intros s Hs. destruct (find_handle h (subscriptions s)) as [sub|] eqn:Ef; [|now apply safe_ret].
  set (s1 := record (Unsubscribed h) (set_subscriptions (erase_handle h (subscriptions s)) (next_subscription s) s)).
  assert (Good s1 /\ Rel s s1) as [G1 R1].
  { split.
    - apply (Good_entry s _ (Unsubscribed h)); auto; [now split|exact Logic.I|apply Hs|apply members_unsubscribe; [now rewrite Ef|apply Hs]].
    - split; [split; cbn; auto; [lia| |]|].
      + exists [Unsubscribed h]. split; [reflexivity|now apply aborts_told_one].
      + intros k Hk. destruct (decide (k = h)) as [->|Hne]; [right; now left|]. left. now apply find_handle_erase.
      + intros _. apply framed_same; [reflexivity|intros R HR; now apply Hs|reflexivity]. }
  eapply safe_at_step; [reflexivity|exact R1|]. cbn beta. destruct (round s) as [R|] eqn:HR; [|now apply safe_ret].
  destruct (bool_decide (h ∈ outstanding R)); [|now apply safe_ret].
  assert (Unsubscribed h ∈ log s1) as Hu by now left. destruct (drop_outstanding_ok h s1 G1 Hu) as [G2 R2]. change (round s1) with (round s) in G2, R2. rewrite HR in G2, R2. cbn [option_map] in G2, R2.
  eapply safe_at_step; [reflexivity|exact R2|]. cbn beta. apply safe_at_bind; [|intros; apply safe_ret].
  destruct (bool_decide (outstanding R ∖ {[h]} = ∅)) eqn:Eo; cbn [andb]; [|now apply safe_ret].
  destruct (Nat.eqb_spec (notify_depth s) 0) as [Ed|]; [|now apply safe_ret]. apply bool_decide_eq_true in Eo.
  now apply (advance_safe _ (with_outstanding (outstanding R ∖ {[h]}) R)).
Qed.

Lemma trigger_safe : safe (IdentityManager.trigger call).
Proof.
  unfold IdentityManager.trigger. apply safe_get. intros s Hs. destruct (pool_next_valid _ _); [|now apply safe_ret]. apply at_safe; [assumption|].
  apply safe_bind; [now apply safe_modify|]. intros _. apply safe_bind; [apply try_start_safe|]. intros _. apply safe_ret.
Qed.

Lemma lock_safe d : safe (lock call d).
Proof.
  unfold lock. apply safe_get. intros s Hs. set (s1 := record (Locked (next_lock s)) (set_locks (locks s ++ [(next_lock s, m_now (runtime s) + d * second)]) (next_lock s + 1) s)).
  assert (Good s1 /\ Rel s s1) as [G1 R1].
  { split; [|now apply (Rel_same_round (Locked (next_lock s)))].
    apply (Good_entry s _ (Locked (next_lock s))); auto; [now split|exact Logic.I| |apply members_cons; [reflexivity|apply Hs]].
    cbn. now rewrite (g_held _ (proj1 Hs)), map_app. }
  eapply safe_at_step; [reflexivity|exact R1|]. apply at_safe; [assumption|].
  apply safe_bind; [apply arm_lock_timer_safe|]. intros _. apply safe_bind; [|intros; apply safe_ret]. destruct (d =? 0); [apply on_lock_timer_safe|apply safe_ret].
Qed.

Lemma unlock_safe h : safe (unlock call h).
Proof.
  unfold unlock. apply safe_get. intros s Hs. destruct (find_handle h (locks s)); [|now apply safe_ret].
  destruct (release_ok h s Hs) as [G1 R1]. eapply safe_at_step; [reflexivity|exact R1|]. apply at_safe; [assumption|].
  apply safe_bind; [apply arm_lock_timer_safe|]. intros _. apply safe_bind; [apply try_start_safe|]. intros _. apply safe_ret.
Qed.

Lemma run_safe p : safe (run call p).
Proof.
  induction p as [|k IH|u k IH|r code k IH|hook IHh data k IH|h k IH|k IH|d k IH|h k IH]; cbn [run]; [apply safe_ret|..].
  - apply safe_get. intros s Hs. now apply at_safe.
  - apply safe_bind; [now apply safe_modify|auto].
  - apply safe_bind; [apply handle_response_safe|auto].
  - apply safe_bind; [apply subscribe_safe|auto].
  - apply safe_bind; [apply unsubscribe_safe|auto].
  - apply safe_bind; [apply trigger_safe|auto].
  - apply safe_bind; [apply lock_safe|auto].
  - apply safe_bind; [apply unlock_safe|auto].
Qed.

Lemma fire_safe s : Good s -> notify_depth s = 0%nat -> safe_at s (fire call).
Proof.
  intros Hs Hd a s' E. unfold fire, bind at 1, get in E. destruct (m_queue (runtime s)) as [|x q]; [now apply (safe_ret tt s Hs a)|].
  destruct (deadline x <=? m_now (runtime s)); [|now apply (safe_ret tt s Hs a)]. unfold bind, modify in E. cbn beta in E.
  set (s1 := set_runtime (mk_ManualRuntime (m_now (runtime s)) q) s) in E. destruct (core_same s s1 eq_refl Hs) as [G1 R1].
  assert (safe_at s1 (match callback x with RoundTimeout => on_round_timeout call | LockTimeout => on_lock_timer call end)) as H1.
  { destruct (callback x); [now apply on_round_timeout_safe|now apply on_lock_timer_safe]. }
  destruct (H1 a s' E) as [G2 R2]. split; [assumption|]. now apply (Rel_trans _ s1).
Qed.
End Calls.

Lemma exec_safe fuel : (forall p, safe (exec fuel (Hook p))) /\
  (forall s R, Good s -> notify_depth s = 0%nat -> round s = Some R -> outstanding R = ∅ -> safe_at s (exec fuel Advance)).
Proof.
  induction fuel as [|fuel [IH1 IH2]]; [split; discriminate|]. cbn [exec]. split; [intros p; now apply run_safe|]. intros s R. now apply advance_safe.
Qed.

Lemma event_safe fuel e s : Good s -> notify_depth s = 0%nat -> safe_at s (event fuel e).
Proof.
  intros Hs Hd. destruct (exec_safe fuel) as [H1 H2]. destruct e; cbn [event]; try (apply at_safe; [assumption|]; now apply safe_modify).
  - apply at_safe; [assumption|]. now apply run_safe.
  - now apply fire_safe.
Qed.

Lemma events_good fuel es s s' : Good s -> notify_depth s = 0%nat -> events fuel es s = Some (tt, s') -> Good s' /\ Grows s s'.
Proof.
  revert s. induction es as [|e es IH]; intros s Hs Hd E; [injection E as <-; split; [assumption|apply Grows_refl]|]. cbn [events] in E. unfold bind in E.
  destruct (event fuel e s) as [[[] s1]|] eqn:E1; [|discriminate]. destruct (event_safe fuel e s Hs Hd _ _ E1) as [G1 [R1 _]].
  destruct (IH s1) as [G2 R2]; auto; [rewrite (r_depth _ _ R1); exact Hd|]. split; [assumption|now apply (Grows_trans s s1)].
Qed.

Lemma create_good rt p u : Good (Impl_create rt p u).
Proof.
  split; [split|split; [intros R [=]|intros _ r id [=]]]; cbn; try reflexivity; try discriminate.
  - now intros r id H%elem_of_nil.
  - now intros h id r H%elem_of_nil.
  - split; intros h; [split; [contradiction|intros [H _]]|intros [H|H]]; now apply elem_of_nil in H.
Qed.

Lemma log_ok_split l1 e l : log_ok (l1 ++ e :: l) -> entry_ok e l /\ log_ok l.
Proof. induction l1 as [|x l1 IH]; cbn; [auto|]. intros [_ H]. auto. Qed.

(** C5.  Two-phase commit, whatever the subscribers do, be it from within a
    hook.  A round starts when no lock is held and no other round is in
    progress, and under a new number.  The new ticket is selected and COMMIT
    delivered only when everybody who was a subscriber when the round started,
    and everybody it asked to prepare, has agreed or left; PREPARE is delivered
    only before that.  A round ends once: done, after the selection, when
    everybody who was a subscriber then was told to commit or has left; or
    aborted, before the selection, and everybody who was a subscriber then is
    told so afterwards or leaves.  Nobody else is told of an abort, and nothing
    is delivered to somebody who has left. *)
Theorem two_phase_commit fuel es rt p u s' newer e older :
  events fuel es (Impl_create rt p u) = Some (tt, s') -> log s' = newer ++ e :: older ->
  entry_ok e older /\
  forall r id h, e = Ended r false -> view older = Some (r, id, false) -> live h older -> told h ABORT id None newer.
Proof.
  intros E Hl. apply events_good in E as [[HG _] [_ _ (l & L & T) _]]; [|apply create_good|reflexivity]. cbn in L. rewrite app_nil_r in L. subst l. split.
  - apply g_log in HG. rewrite Hl in HG. now apply log_ok_split in HG.
  - intros r id h -> Hv Hh. apply (T newer r older id h Hl); now rewrite app_nil_r.
Qed.

(** The log describes the state between events. *)
Theorem log_describes fuel es rt p u s' : events fuel es (Impl_create rt p u) = Some (tt, s') ->
  view (log s') = view_of s' /\ held (log s') = map fst (locks s') /\ notify_depth s' = 0%nat /\ forall h, find_handle h (subscriptions s') <> None <-> live h (log s').
Proof. intros E. apply events_good in E as [[HG _] [Hd _ _ _]]; [|apply create_good|reflexivity]. split_all; try apply HG; auto. Qed.
End Rounds.
