(* ===== verification/IdentityLiveness.v ===== *)
(** Progress of the identifier-change service: with hooks that leave triggers
    and locks to others every call returns and every round in progress waits
    for somebody and for a timer; with others a round can be stuck for good. *)

From S2P Require Import Prelude Scheduler Permissions Regions Certificate TrustStore CertificatePool IdentityManager.
From stdpp Require Import list gmap.

Open Scope Z_scope.

Section Liveness.
Context {P : Type} {TP : TicketPool P} {U : Type}.
Abbreviation Impl := (Impl P U).
Implicit Type s : Impl.

(** * Quiet hooks *)

(** Programs that neither trigger nor lock nor unlock. *)
Fixpoint quiet (p : Prog U) : Prop :=
  match p with
  | Done => True
  | Read k => forall u, quiet (k u)
  | Write _ k => quiet k
  | Respond _ _ k => quiet k
  | Subscribe hook _ k => (forall c id d r, quiet (hook c id d r)) /\ forall h, quiet (k h)
  | Unsubscribe _ k => forall r, quiet (k r)
  | Trigger _ | Lock _ _ | Unlock _ _ => False
  end.

(** Programs that subscribe quiet hooks only. *)
Fixpoint calm (p : Prog U) : Prop :=
  match p with
  | Done => True
  | Read k => forall u, calm (k u)
  | Write _ k => calm k
  | Respond _ _ k => calm k
  | Subscribe hook _ k => (forall c id d r, quiet (hook c id d r)) /\ forall h, calm (k h)
  | Unsubscribe _ k => forall r, calm (k r)
  | Trigger k | Unlock _ k => forall r, calm (k r)
  | Lock _ k => forall h, calm (k h)
  end.
Definition calm_event (e : Event P U) : Prop :=
  match e with Calls p => calm p | OnCommitted f => forall id, quiet (f id) | _ => True end.

(** * The invariant *)

Definition keys s : list SubscriptionHandle := map fst (subscriptions s).
Definition armed s : Prop := exists x, x ∈ m_queue (runtime s) /\ callback x = RoundTimeout.

Record Inv s : Prop := {
  i_hooks : forall h sub, (h, sub) ∈ subscriptions s -> forall c id d r, quiet (sub_hook sub c id d r);
  i_committed : forall f, committed s = Some f -> forall id, quiet (f id);
  i_scopes : forall x, x ∈ m_queue (runtime s) -> (callback x = RoundTimeout <-> scope x = round_timer_scope);
  i_idle : round s = None -> ~ armed s;
  i_round : forall R, round s = Some R -> round_id R = round_counter s /\ (phase R = PREPARE \/ phase R = COMMIT) /\
    forall h, h ∈ outstanding R -> h ∈ keys s }.

(** A round waits for subscribers that are still there, and for its timer. *)
Definition Rest s : Prop := Inv s /\ notify_depth s = 0%nat /\ forall R, round s = Some R -> outstanding R <> ∅ /\ armed s.

(** What a call from within a hook changes. *)
Record Nested s s' : Prop := {
  n_depth : notify_depth s' = notify_depth s;
  n_pending : pending_trigger s' = pending_trigger s;
  n_counter : round_counter s' = round_counter s;
  n_round : round s' = None \/ exists R R', round s = Some R /\ round s' = Some R' /\ phase R' = phase R }.

Lemma Nested_refl s : Nested s s.
Proof. split; auto. destruct (round s) as [R|]; [right; eauto|auto]. Qed.
Lemma Nested_trans s1 s2 s3 : Nested s1 s2 -> Nested s2 s3 -> Nested s1 s3.
Proof.
  intros [D1 P1 C1 R1] [D2 P2 C2 R2]. split; try congruence. destruct R2 as [|(R & R' & H1 & H2 & H3)]; [auto|].
  destruct R1 as [|(R0 & R0' & H4 & H5 & H6)]; [congruence|]. right. exists R0, R'. split_all; congruence.
Qed.
Lemma Nested_same s s' : round s' = round s -> notify_depth s' = notify_depth s -> pending_trigger s' = pending_trigger s -> round_counter s' = round_counter s -> Nested s s'.
Proof. intros H1 H2 H3 H4. split; auto. rewrite H1. destruct (round s) as [R|]; [right; eauto|auto]. Qed.

(** A call that returns, within the invariant. *)
Definition returns {A} (m : I A) s (Q : Impl -> Prop) : Prop := exists a s', m s = Some (a, s') /\ Q s'.

Lemma returns_bind {A B} (m : I A) (k : A -> I B) s Q Q' : returns m s Q' -> (forall a s', Q' s' -> returns (k a) s' Q) -> returns (bind m k) s Q.
Proof. intros (a & s1 & E & H) Hk. destruct (Hk a s1 H) as (b & s2 & E2 & H2). exists b, s2. unfold bind. now rewrite E. Qed.
Lemma returns_modify {B} f (k : unit -> I B) s Q : returns (k tt) (f s) Q -> returns (bind (modify f) k) s Q.
Proof. auto. Qed.
Lemma returns_get {B} (k : Impl -> I B) s Q : returns (k s) s Q -> returns (bind get k) s Q.
Proof. auto. Qed.
Lemma returns_ret {A} (a : A) s (Q : Impl -> Prop) : Q s -> returns (ret a) s Q.
Proof. intros H. now exists a, s. Qed.
Lemma returns_weaken {A} (m : I A) s (Q Q' : Impl -> Prop) : returns m s Q' -> (forall s', Q' s' -> Q s') -> returns m s Q.
Proof. intros (a & s' & E & H) HQ. exists a, s'. auto. Qed.

(** The state changes that only touch what the invariant does not read. *)
Lemma Inv_same s s' : Inv s -> subscriptions s' = subscriptions s -> committed s' = committed s -> m_queue (runtime s') = m_queue (runtime s) ->
  round s' = round s -> round_counter s' = round_counter s -> Inv s'.
Proof.
  intros [I1 I2 I3 I4 I5] H1 H2 H3 H4 H5. split; unfold armed, keys; rewrite ?H1, ?H2, ?H3, ?H4, ?H5; auto.
Qed.

Lemma Inv_outstanding s R o : Inv s -> round s = Some R -> (forall h, h ∈ o -> h ∈ keys s) -> Inv (set_round (Some (with_outstanding o R)) s).
Proof.
  intros [I1 I2 I3 I4 I5] HR Ho. split; auto; [discriminate|]. intros R' [= <-]. destruct (I5 R HR) as (H1 & H2 & _). cbn. auto.
Qed.

Lemma cancel_round_elem s x : x ∈ m_queue (Scheduler.cancel round_timer_scope (runtime s)) -> x ∈ m_queue (runtime s) /\ scope x <> round_timer_scope.
Proof. cbn. intros H. apply list_elem_of_filter in H as [H1 H2]. auto. Qed.

(** Without its timer, whether or not the round ends. *)
Lemma Inv_cancel s v : Inv s -> (v = None \/ v = round s) ->
  let s' := set_round v (set_runtime (Scheduler.cancel round_timer_scope (runtime s)) s) in Inv s' /\ ~ armed s'.
Proof.
  intros [I1 I2 I3 I4 I5] Hv. cbn zeta. assert (~ armed (set_round v (set_runtime (Scheduler.cancel round_timer_scope (runtime s)) s))) as Ha.
  { intros (x & [Hx Hsc]%cancel_round_elem & Hc). apply Hsc. now apply I3. }
  split; [|exact Ha]. split; auto.
  - intros x [Hx _]%cancel_round_elem. now apply I3.
  - cbn. intros R HR. apply I5. destruct Hv; congruence.
Qed.

Section Calls.
Variable call : Callback U -> I (P := P) (U := U) unit.

Definition nested_ok s s' : Prop := Inv s' /\ Nested s s'.
Definition Idle : Prop := forall p s, quiet p -> Inv s -> round s = None -> returns (call (Hook p)) s (nested_ok s).
Definition Busy : Prop := forall p s, quiet p -> Inv s -> (0 < notify_depth s)%nat -> returns (call (Hook p)) s (nested_ok s).

Lemma find_handle_elem {V} h (m : list (Z * V)) v : find_handle h m = Some v -> (h, v) ∈ m.
Proof.
  induction m as [|[k w] m IH]; [discriminate|]. cbn. destruct (Z.eqb_spec k h) as [->|]; [intros [= ->]; now left|]. intros H. right. auto.
Qed.
Lemma find_handle_none {V} h (m : list (Z * V)) : find_handle h m = None -> h ∉ map fst m.
Proof.
  induction m as [|[k w] m IH]; cbn; [intros _; apply not_elem_of_nil|]. destruct (Z.eqb_spec k h); [discriminate|].
  intros H [E|E]%elem_of_cons; [congruence|]. now apply IH.
Qed.

(** The loop of notify(), in states where hooks return. *)
Lemma notify_each_returns (C : Impl -> Prop) command id expect r handles :
  (forall s s', C s -> Nested s s' -> C s') -> (forall p s, quiet p -> Inv s -> C s -> returns (call (Hook p)) s (nested_ok s)) ->
  forall s, Inv s -> C s -> returns (notify_each call command id expect r handles) s (nested_ok s).
Proof.
  intros HC Hcall. induction handles as [|h handles IH]; intros s Hi Hc; cbn [notify_each]; [apply returns_ret; split; [assumption|apply Nested_refl]|].
  apply returns_get. destruct (expect && negb (is_round r s)); [apply returns_ret; split; [assumption|apply Nested_refl]|].
  assert (forall s1, nested_ok s s1 -> returns (notify_each call command id expect r handles) s1 (nested_ok s)) as Hgo.
  { intros s1 [I1 N1]. eapply returns_weaken; [apply IH; [assumption|now apply (HC s)]|]. intros s2 [I2 N2]. split; [assumption|now apply (Nested_trans s s1)]. }
  destruct (find_handle h (subscriptions s)) as [sub|] eqn:Ef.
  - apply returns_modify. eapply returns_bind; [apply Hcall|].
    + apply find_handle_elem in Ef. now apply (i_hooks _ Hi h).
    + now apply (Inv_same s).
    + apply (HC s); [assumption|]. now apply Nested_same.
    + intros _ s1 [I1 N1]. apply Hgo. split; [assumption|]. eapply Nested_trans; [|exact N1]. now apply Nested_same.
  - destruct (is_round r s); [|now apply Hgo; split; [|apply Nested_refl]]. apply returns_modify. apply Hgo. destruct (round s) as [R|] eqn:HR; cbn [option_map].
    + split; [apply (Inv_outstanding s R); auto|].
      * intros k [Hk _]%elem_of_difference. now apply (i_round _ Hi R HR).
      * split; auto. right. exists R, (with_outstanding (outstanding R ∖ {[h]}) R). auto.
    + split; [apply (Inv_same s); auto|]. split; auto.
Qed.

Lemma notify_told_returns command id s : Idle -> Inv s -> round s = None -> returns (notify call command id false) s (nested_ok s).
Proof.
  intros Hidle Hi HR. unfold notify. apply returns_get. cbn [andb]. eapply returns_bind; [apply (returns_ret tt s (fun s' => s' = s)); reflexivity|]. intros _ ? ->. apply returns_modify.
  eapply returns_bind; [apply (notify_each_returns (fun s => round s = None))|].
  - intros s1 s2 H [_ _ _ [|(R & R' & H1 & _)]]; congruence.
  - auto.
  - now apply (Inv_same s).
  - exact HR.
  - intros _ s2 [I2 [D2 P2 C2 R2]]. apply returns_modify, returns_get, returns_ret. cbn in D2. split; [now apply (Inv_same s2)|]. split; cbn; rewrite ?D2; auto.
Qed.

Lemma abort_returns s : Idle -> Inv s -> returns (abort call) s (fun s' => Inv s' /\ round s' = None /\ notify_depth s' = notify_depth s /\ pending_trigger s' = pending_trigger s /\ round_counter s' = round_counter s).
Proof.
  intros Hidle Hi. unfold abort. apply returns_modify, returns_get. change (round (set_runtime _ s)) with (round s). destruct (round s) as [R|] eqn:HR.
  - do 2 apply returns_modify. destruct (Inv_cancel s None Hi (or_introl eq_refl)) as [Hi1 _].
    eapply returns_weaken; [apply notify_told_returns; [assumption|now apply (Inv_same _ _ Hi1)|reflexivity]|].
    intros s' [I2 [D2 P2 C2 R2]]. cbn in *. split_all; auto. destruct R2 as [|(R0 & R' & H1 & _)]; [auto|discriminate].
  - apply returns_ret. destruct (Inv_cancel s None Hi (or_introl eq_refl)) as [Hi1 _]. split_all; auto. apply (Inv_same _ _ Hi1); auto.
Qed.

(** ** Within hooks *)

(** A hook whose commands can be delivered, or no round to end. *)
Definition in_hook s : Prop := (0 < notify_depth s)%nat /\ Idle \/ round s = None.

Lemma in_hook_nested s s' : in_hook s -> Nested s s' -> in_hook s'.
Proof. intros [[H Hidle]|H] [D _ _ R]; [left; now rewrite D|]. right. destruct R as [|(R & R' & H1 & _)]; congruence. Qed.

Lemma handle_response_nested r h code s : Inv s -> in_hook s -> returns (handle_response call r h code) s (nested_ok s).
Proof.
  intros Hi Hd. unfold handle_response. apply returns_get. destruct (round s) as [R|] eqn:HR; [|apply returns_ret; split; [assumption|apply Nested_refl]].
  destruct (negb (round_id R =? r) || negb (bool_decide (h ∈ outstanding R))); [apply returns_ret; split; [assumption|apply Nested_refl]|].
  apply returns_modify. set (R1 := with_outstanding (outstanding R ∖ {[h]}) R).
  assert (Inv (record (Answered r h code) (set_round (Some R1) s))) as Hi1.
  { apply (Inv_same (set_round (Some R1) s)); auto. apply Inv_outstanding; auto. intros k [Hk _]%elem_of_difference. now apply (i_round _ Hi R HR). }
  destruct (negb code && bool_decide (phase R = PREPARE)).
  - destruct Hd as [[_ Hidle]|Hd]; [|congruence]. eapply returns_weaken; [now apply abort_returns|]. intros s' (I2 & R2 & D2 & P2 & C2). split; [assumption|]. split; auto.
  - assert (forall s1, Inv s1 -> round s1 = Some R1 -> notify_depth s1 = notify_depth s -> pending_trigger s1 = pending_trigger s -> round_counter s1 = round_counter s ->
      returns (if bool_decide (outstanding R ∖ {[h]} = ∅) && (notify_depth s =? 0)%nat then advance call else ret tt) s1 (nested_ok s)) as Hlast.
    { intros s1 I1 R2 D2 P2 C2. destruct Hd as [[Hd _]|Hd]; [|congruence]. rewrite (proj2 (Nat.eqb_neq _ _)), andb_false_r by lia. apply returns_ret. split; [assumption|].
      split; auto. right. exists R, R1. auto. }
    destruct (negb code).
    + eapply returns_bind; [apply (returns_modify _ (fun _ => ret tt)), (returns_ret tt _ (fun s' => s' = add_stats 0 0 0 1 (record (Answered r h code) (set_round (Some R1) s)))); reflexivity|].
      intros _ s1 ->. apply Hlast; auto. now apply (Inv_same _ _ Hi1).
    + eapply returns_bind; [apply (returns_ret tt _ (fun s' => s' = record (Answered r h code) (set_round (Some R1) s))); reflexivity|].
      intros _ s1 ->. now apply Hlast.
Qed.

(** Subscriptions of quiet hooks, and leaving. *)
Lemma Inv_subscribe s hook data : Inv s -> (forall c id d r, quiet (hook c id d r)) ->
  Inv (record (Subscribed (next_subscription s)) (set_subscriptions (subscriptions s ++ [(next_subscription s, mk_Subscription hook data)]) (next_subscription s + 1) s)).
Proof.
  intros [I1 I2 I3 I4 I5] Hq. split; auto.
  - intros h sub [H|H]%elem_of_app; [now apply (I1 h)|]. apply list_elem_of_singleton in H. injection H as _ ->. exact Hq.
  - intros R HR. destruct (I5 R HR) as (H1 & H2 & H3). split_all; auto. intros h Hh. unfold keys. cbn. rewrite map_app. apply elem_of_app. left. now apply H3.
Qed.

Definition left_ok h s : Impl :=
  let s1 := record (Unsubscribed h) (set_subscriptions (erase_handle h (subscriptions s)) (next_subscription s) s) in
  match round s with
  | Some R => if bool_decide (h ∈ outstanding R) then set_round (Some (with_outstanding (outstanding R ∖ {[h]}) R)) s1 else s1
  | None => s1
  end.

Lemma erased_keys h s k : k ∈ keys s -> k <> h -> k ∈ map fst (erase_handle h (subscriptions s)).
Proof.
  unfold keys, erase_handle. intros (x & -> & Hx)%list_elem_of_fmap Hne. apply list_elem_of_fmap. exists x. split; [reflexivity|]. apply list_elem_of_filter. auto.
Qed.

Lemma Inv_left h s : Inv s -> Inv (left_ok h s) /\ Nested s (left_ok h s) /\ runtime (left_ok h s) = runtime s.
Proof.
  intros [I1 I2 I3 I4 I5]. unfold left_ok. destruct (round s) as [R|] eqn:HR.
  - destruct (I5 R eq_refl) as (H1 & H2 & H3). destruct (bool_decide (h ∈ outstanding R)) eqn:Eb; (split; [split; auto|split; [|reflexivity]]).
    + intros k sub [_ H]%list_elem_of_filter. now apply (I1 k).
    + discriminate.
    + intros R' [= <-]. cbn. split_all; auto. intros k [Hk Hne]%elem_of_difference. rewrite elem_of_singleton in Hne. apply erased_keys; auto.
    + split; auto. right. eexists _, _. split; [eassumption|]. split; reflexivity.
    + intros k sub [_ H]%list_elem_of_filter. now apply (I1 k).
    + intros HN. cbn in HN. congruence.
    + intros R' HR'. cbn in HR'. rewrite HR in HR'. injection HR' as <-. split_all; auto. intros k Hk. apply erased_keys; auto. intros ->. apply bool_decide_eq_false in Eb. contradiction.
    + now apply Nested_same.
  - split; [split; auto|split; [now apply Nested_same|reflexivity]].
    + intros k sub [_ H]%list_elem_of_filter. now apply (I1 k).
    + intros R HR'. cbn in HR'. congruence.
Qed.

(** The last step of unsubscribe(). *)
Lemma unsubscribe_cases h s (Q : Impl -> Prop) : Q s -> Q (left_ok h s) ->
  (forall R, round s = Some R -> h ∈ outstanding R -> outstanding R ∖ {[h]} = ∅ -> notify_depth s = 0%nat -> returns (advance call) (left_ok h s) Q) ->
  returns (unsubscribe call h) s Q.
Proof.
  intros H1 H2 H3. unfold unsubscribe. apply returns_get. destruct (find_handle h (subscriptions s)); [|now apply returns_ret]. apply returns_modify.
  unfold left_ok in *. destruct (round s) as [R|] eqn:HR; [|now apply returns_ret]. destruct (bool_decide (h ∈ outstanding R)) eqn:Eb; [|now apply returns_ret].
  apply returns_modify. apply bool_decide_eq_true in Eb. destruct (bool_decide (outstanding R ∖ {[h]} = ∅)) eqn:Eo; cbn [andb].
  - apply bool_decide_eq_true in Eo. destruct (Nat.eqb_spec (notify_depth s) 0) as [Ed|].
    + eapply returns_bind; [now apply (H3 R)|]. intros _ s' Hs'. now apply returns_ret.
    + eapply returns_bind; [apply (returns_ret tt _ Q); assumption|]. intros _ s' Hs'. now apply returns_ret.
  - eapply returns_bind; [apply (returns_ret tt _ Q); assumption|]. intros _ s' Hs'. now apply returns_ret.
Qed.

Lemma run_quiet p : forall s, quiet p -> Inv s -> in_hook s -> returns (run call p) s (nested_ok s).
Proof.
  assert (forall s, Inv s -> nested_ok s s) as Hrefl by (intros s Hi; split; [assumption|apply Nested_refl]).
  assert (forall s (m : I (P := P) (U := U) unit) s1, in_hook s -> nested_ok s s1 -> (forall s, Inv s -> in_hook s -> returns m s (nested_ok s)) -> returns m s1 (nested_ok s)) as Hgo.
  { intros s m s1 Hd [I1 N1] Hm. eapply returns_weaken; [apply Hm; [assumption|now apply (in_hook_nested s)]|]. intros s2 [I2 N2]. split; [assumption|now apply (Nested_trans s s1)]. }
  induction p as [|k IH|u k IH|r code k IH|hook IHh data k IH|h k IH|k IH|d k IH|h k IH]; intros s Hq Hi Hd; cbn [run]; cbn in Hq; try contradiction.
  - now apply returns_ret, Hrefl.
  - apply returns_get. apply IH; auto.
  - apply returns_modify. apply (Hgo s); auto. split; [now apply (Inv_same s)|now apply Nested_same].
  - eapply returns_bind; [now apply handle_response_nested|]. intros _ s1 H1. apply (Hgo s); auto.
  - unfold subscribe. eapply returns_bind; [apply returns_get, returns_modify, returns_ret|].
    + instantiate (1 := fun s' => nested_ok s s'). split; [now apply Inv_subscribe|now apply Nested_same].
    + intros h s1 H1. apply (Hgo s); auto. intros s2 I2 D2. apply IH; auto. apply Hq.
  - eapply returns_bind; [apply (unsubscribe_cases h s (nested_ok s))|].
    + auto.
    + split; [now apply Inv_left|now apply Inv_left].
    + intros R HR _ _ Hz. destruct Hd as [[Hd _]|Hd]; [lia|congruence].
    + intros a s1 H1. apply (Hgo s); auto.
Qed.
End Calls.

Lemma exec_idle n : Idle (exec (S n)).
Proof. intros p s Hq Hi HR. cbn [exec]. apply run_quiet; auto. now right. Qed.
Lemma exec_busy n : Busy (exec (S (S n))).
Proof. intros p s Hq Hi Hd. change (exec (S (S n)) (Hook p)) with (run (exec (S n)) p). apply run_quiet; auto. left. split; [assumption|]. apply exec_idle. Qed.

(** * Between hooks *)

Lemma Rest_same s s' : Rest s -> subscriptions s' = subscriptions s -> committed s' = committed s -> m_queue (runtime s') = m_queue (runtime s) ->
  round s' = round s -> round_counter s' = round_counter s -> notify_depth s' = notify_depth s -> Rest s'.
Proof.
  intros (Hi & Hd & Hr) H1 H2 H3 H4 H5 H6. split; [now apply (Inv_same s)|]. split; [congruence|]. unfold armed. now rewrite H3, H4.
Qed.

Lemma Rest_queue s now q : Rest s -> (forall x, callback x = RoundTimeout -> x ∈ q <-> x ∈ m_queue (runtime s)) ->
  (forall x, x ∈ q -> callback x = LockTimeout -> scope x <> round_timer_scope) -> Rest (set_runtime (mk_ManualRuntime now q) s).
Proof.
  intros ([I1 I2 I3 I4 I5] & Hd & Hr) Hq Hl.
  assert (armed (set_runtime (mk_ManualRuntime now q) s) <-> armed s) as Ha by (split; intros (x & Hx & Hc); exists x; split; auto; now apply Hq).
  split; [|split; [assumption|]].
  - split; auto.
    + intros x Hx. cbn in Hx. destruct (callback x) eqn:Ec; [split; [intros _; apply I3; [now apply Hq|exact Ec]|reflexivity]|]. split; [discriminate|]. intros H. now apply Hl in H.
    + intros HR. rewrite Ha. auto.
  - intros R HR. rewrite Ha. auto.
Qed.

(** The hooks of a pending trigger and of the phases left to a round. *)
Definition need s : nat :=
  (if pending_trigger s then 2 else 0) + match round s with Some R => if bool_decide (phase R = PREPARE) then 1 else 0 | None => 0 end.
Definition Adv (k : nat) (call : Callback U -> I unit) : Prop := forall s R, Inv s -> notify_depth s = 0%nat -> round s = Some R -> outstanding R = ∅ -> (need s <= k)%nat ->
  returns (call Advance) s (fun s' => Rest s' /\ round_counter s <= round_counter s').

Section Between.
Variable call : Callback U -> I (P := P) (U := U) unit.
Hypothesis Hidle : Idle call.
Hypothesis Hbusy : Busy call.

Lemma Inv_scopes_cancel s x : Inv s -> x ∈ m_queue (Scheduler.cancel round_timer_scope (runtime s)) -> callback x = LockTimeout /\ scope x <> round_timer_scope.
Proof.
  intros Hi [Hx Hs]%cancel_round_elem. split; [|assumption]. destruct (callback x) eqn:Ec; [|reflexivity]. exfalso. apply Hs. now apply (i_scopes _ Hi).
Qed.

Lemma arm_round_timer_returns s R : Inv s -> notify_depth s = 0%nat -> round s = Some R -> outstanding R <> ∅ ->
  returns (arm_round_timer (P := P) (U := U)) s (fun s' => Rest s' /\ round_counter s <= round_counter s').
Proof.
  intros Hi Hd HR Ho. unfold arm_round_timer. apply returns_modify. eexists tt, _. split; [reflexivity|]. split; [|cbn; lia].
  assert (forall x, x ∈ insert_by deadline (mk_ScheduledCallback (m_now (runtime s) + response_timeout s) RoundTimeout round_timer_scope) (m_queue (Scheduler.cancel round_timer_scope (runtime s))) <->
    x = mk_ScheduledCallback (m_now (runtime s) + response_timeout s) RoundTimeout round_timer_scope \/ x ∈ m_queue (Scheduler.cancel round_timer_scope (runtime s))) as Hin
    by (intros x; rewrite insert_by_Permutation; apply elem_of_cons).
  destruct Hi as [I1 I2 I3 I4 I5] eqn:Ei. split; [|split; [exact Hd|]].
  - split; auto.
    + intros x Hx. apply Hin in Hx as [->|Hx]; [now split|]. apply Inv_scopes_cancel in Hx as [Hc Hs]; [|assumption]. rewrite Hc. split; [discriminate|contradiction].
    + intros HN. cbn in HN. congruence.
  - intros R' HR'. cbn in HR'. split; [congruence|]. eexists. split; [apply Hin; now left|reflexivity].
Qed.

Lemma notify_round_returns k command id s R : Adv k call -> Inv s -> notify_depth s = 0%nat -> round s = Some R -> (need s <= k)%nat ->
  returns (notify call command id true) s (fun s' => Rest s' /\ round_counter s <= round_counter s').
Proof.
  intros Hadv Hi Hd HR Hn. unfold notify. apply returns_get. rewrite HR. set (R1 := with_outstanding (outstanding R ∪ list_to_set (map fst (subscriptions s))) R).
  eapply returns_bind; [apply (returns_modify _ (fun _ => ret tt)), (returns_ret tt _ (fun s' => s' = set_round (Some R1) s)); cbn; now rewrite HR|]. intros _ ? ->.
  assert (Inv (set_round (Some R1) s)) as Hi1.
  { apply Inv_outstanding; auto. intros h [Hh|Hh]%elem_of_union; [now apply (i_round _ Hi R HR)|]. now apply elem_of_list_to_set in Hh. }
  apply returns_modify. eapply returns_bind; [apply (notify_each_returns call (fun s => (0 < notify_depth s)%nat))|].
  - intros s1 s2 H [D _ _ _]. now rewrite D.
  - exact Hbusy.
  - now apply (Inv_same _ _ Hi1).
  - cbn. lia.
  - intros _ s2 [I2 [D2 P2 C2 R2]]. cbn in D2, P2, C2. apply returns_modify, returns_get. set (s3 := set_depth (Nat.pred (notify_depth s2)) s2).
    assert (notify_depth s3 = 0%nat) as D3 by (cbn; rewrite D2; exact Hd). assert (Inv s3) as I3 by now apply (Inv_same s2). rewrite D3. cbn [andb Nat.eqb].
    destruct R2 as [HN|(R0 & R' & H0 & HR' & Hp)].
    + unfold is_round. change (round s3) with (round s2). rewrite HN. apply returns_ret. split; [|cbn; lia]. split; [assumption|]. split; [assumption|]. cbn. congruence.
    + cbn in H0. injection H0 as <-. change (round s3) with (round s2). unfold is_round. change (round s3) with (round s2). rewrite HR'.
      replace (round_id R' =? round_id R) with true.
      2: { symmetry. apply Z.eqb_eq. rewrite (proj1 (i_round _ I2 R' HR')), (proj1 (i_round _ Hi R HR)). exact C2. }
      destruct (bool_decide (outstanding R' = ∅)) eqn:Eo.
      * apply bool_decide_eq_true in Eo. eapply returns_weaken; [apply (Hadv s3 R'); auto|].
        -- unfold need. change (round s3) with (round s2). rewrite HR', Hp. change (pending_trigger s3) with (pending_trigger s2). rewrite P2. unfold need in Hn. rewrite HR in Hn. exact Hn.
        -- intros s' [H1 H2]. split; [assumption|]. cbn in H2. lia.
      * apply bool_decide_eq_false in Eo. eapply returns_weaken; [now apply (arm_round_timer_returns s3 R')|]. intros s' [H1 H2]. split; [assumption|]. cbn in H2. lia.
Qed.

(** A trigger can be started: there is enough fuel for its round. *)
Definition startable s : Prop := pending_trigger s = true -> exists k, Adv k call /\ (1 <= k)%nat.

Lemma try_start_returns s : Rest s -> startable s ->
  returns (try_start call) s (fun s' => Rest s' /\ round_counter s <= round_counter s' /\ (round s = None -> round s' <> None -> round_counter s < round_counter s')).
Proof.
  intros Hrest Hst. unfold try_start. apply returns_get. destruct (negb (pending_trigger s) || locked s || bool_decide (is_Some (round s))) eqn:E0.
  { apply returns_ret. split; [assumption|]. split; [lia|congruence]. }
  rewrite !orb_false_iff, negb_false_iff in E0. destruct E0 as [[Ep _] Er%bool_decide_eq_false%eq_None_not_Some]. destruct (Hst Ep) as (k & Hk & Hk1). destruct Hrest as (Hi & Hd & _).
  apply returns_modify. destruct (pool_next_valid _ _) as [next|].
  - do 2 apply returns_modify. eapply returns_weaken; [eapply (notify_round_returns k); [exact Hk| |exact Hd|reflexivity|unfold need; cbn [pending_trigger round set_pending set_round record set_counter]; destruct (bool_decide _); lia]|].
    + destruct Hi as [I1 I2 I3 I4 I5]. split; auto. intros R [= <-]. cbn. split_all; auto. intros h Hh. now apply elem_of_empty in Hh.
    + cbn. intros s' [H1 H2]. split; [assumption|]. lia.
  - apply returns_ret. split; [|cbn; split; [lia|congruence]]. apply (Rest_same s); auto. split; [assumption|]. split; [assumption|]. congruence.
Qed.

Lemma finish_returns s R : Inv s -> notify_depth s = 0%nat -> round s = Some R -> startable s ->
  returns (finish call) s (fun s' => Rest s' /\ round_counter s <= round_counter s' /\ (round s' <> None -> round_counter s < round_counter s')).
Proof.
  intros Hi Hd HR Hst. unfold finish. apply returns_modify, returns_get. change (round (set_runtime _ s)) with (round s). rewrite HR. do 2 apply returns_modify.
  destruct (Inv_cancel s None Hi (or_introl eq_refl)) as [Hi1 _].
  set (s2 := add_stats 1 0 0 0 _). assert (Inv s2) as Hi2 by now apply (Inv_same _ _ Hi1).
  assert (returns match committed (set_runtime (Scheduler.cancel round_timer_scope (runtime s)) s) with Some f => call (Hook (f (new_identifier R))) | None => ret tt end s2 (nested_ok s2)) as Hcall.
  { change (committed (set_runtime _ s)) with (committed s). destruct (committed s) as [f|] eqn:Ef; [|apply returns_ret; split; [assumption|apply Nested_refl]].
    apply Hidle; [now apply (i_committed _ Hi f)|assumption|reflexivity]. }
  eapply returns_bind; [exact Hcall|]. intros _ s3 [I3 [D3 P3 C3 R3]]. cbn in D3, P3, C3, R3. assert (round s3 = None) as HN by (destruct R3 as [|(R0 & R' & H & _)]; [assumption|discriminate]).
  eapply returns_weaken; [apply try_start_returns|].
  - split; [assumption|]. split; [congruence|congruence].
  - intros H. apply Hst. congruence.
  - cbn. intros s' (H1 & H2 & H3). rewrite C3 in H2, H3. auto.
Qed.

Lemma advance_returns k s R : (forall j, (j < k)%nat -> Adv j call) -> Inv s -> notify_depth s = 0%nat -> round s = Some R -> (need s <= k)%nat ->
  returns (advance call) s (fun s' => Rest s' /\ round_counter s <= round_counter s').
Proof.
  intros Hadv Hi Hd HR Hn. unfold advance. apply returns_modify, returns_get. change (round (set_runtime _ s)) with (round s). rewrite HR.
  assert (Inv (set_runtime (Scheduler.cancel round_timer_scope (runtime s)) s)) as Hi1.
  { destruct (Inv_cancel s (round s) Hi (or_intror eq_refl)) as [H _]. now apply (Inv_same _ _ H). }
  unfold need in Hn. rewrite HR in Hn. destruct (bool_decide (phase R = PREPARE)) eqn:Ep.
  - apply returns_modify. eapply returns_weaken; [eapply (notify_round_returns (k - 1)); [apply Hadv; lia| |exact Hd|reflexivity|unfold need; cbn [pending_trigger round set_pool set_round set_runtime record phase with_phase]; rewrite bool_decide_false by discriminate; lia]|].
    + destruct Hi1 as [I1 I2 I3 I4 I5]. split; auto; [discriminate|]. intros R' [= <-]. destruct (I5 R HR) as (H1 & H2 & H3). cbn. auto.
    + intros s' [H1 H2]. auto.
  - eapply returns_weaken; [eapply finish_returns; [exact Hi1|exact Hd|exact HR|]|].
    + intros Hp. change (pending_trigger s = true) in Hp. rewrite Hp in Hn. exists (k - 1)%nat. split; [apply Hadv; lia|lia].
    + cbn. intros s' (H1 & H2 & _). auto.
Qed.

(** ** The interface *)
Hypothesis Hadv : forall j, (j < 3)%nat -> Adv j call.

Lemma need_le s : (need s <= 3)%nat.
Proof. unfold need. destruct (pending_trigger s); destruct (round s) as [R|]; [destruct (bool_decide _)| |destruct (bool_decide _)|]; lia. Qed.

Lemma always_startable s : startable s.
Proof. intros _. exists 2%nat. split; [apply Hadv; lia|lia]. Qed.

Lemma handle_response_rest r h code s : Rest s -> returns (handle_response call r h code) s Rest.
Proof.
  intros Hrest. pose proof Hrest as (Hi & Hd & Hr). unfold handle_response. apply returns_get. destruct (round s) as [R|] eqn:HR; [|now apply returns_ret].
  destruct (negb (round_id R =? r) || negb (bool_decide (h ∈ outstanding R))); [now apply returns_ret|].
  apply returns_modify. set (R1 := with_outstanding (outstanding R ∖ {[h]}) R). set (s1 := record (Answered r h code) (set_round (Some R1) s)).
  assert (Inv s1) as Hi1.
  { apply (Inv_same (set_round (Some R1) s)); auto. apply Inv_outstanding; auto. intros k [Hk _]%elem_of_difference. now apply (i_round _ Hi R HR). }
  destruct (negb code && bool_decide (phase R = PREPARE)).
  - eapply returns_weaken; [now apply abort_returns|]. intros s' (I2 & R2 & D2 & _). split; [assumption|]. split; [rewrite D2; exact Hd|congruence].
  - eapply returns_bind with (Q' := fun s2 => Inv s2 /\ round s2 = Some R1 /\ notify_depth s2 = 0%nat /\ runtime s2 = runtime s).
    + destruct (negb code); [apply (returns_modify _ (fun _ => ret tt))|]; apply returns_ret; split_all; auto. now apply (Inv_same s1).
    + intros _ s2 (I2 & R2 & D2 & T2). rewrite Hd. cbn [Nat.eqb]. rewrite andb_true_r. destruct (bool_decide (outstanding R ∖ {[h]} = ∅)) eqn:Eo.
      * eapply returns_weaken; [apply (advance_returns 3 s2 R1); auto; apply need_le|]. now intros s' [H _].
      * apply bool_decide_eq_false in Eo. apply returns_ret. split; [assumption|]. split; [assumption|]. intros R' HR'. rewrite R2 in HR'. injection HR' as <-. split; [exact Eo|]. unfold armed. rewrite T2. now apply (Hr R).
Qed.

Lemma unsubscribe_rest h s : Rest s -> returns (unsubscribe call h) s Rest.
Proof.
  intros Hrest. pose proof Hrest as (Hi & Hd & Hr). destruct (Inv_left h s Hi) as (Hi1 & [D1 _ _ _] & T1).
  assert ((forall R, round s = Some R -> h ∈ outstanding R -> outstanding R ∖ {[h]} = ∅ -> False) -> Rest (left_ok h s)) as Hcase.
  { intros Hno. split; [assumption|]. split; [congruence|]. intros R' HR'. unfold left_ok in HR'. destruct (round s) as [R|] eqn:HR; [|cbn in HR'; congruence].
    assert (armed (left_ok h s)) as Ha by (unfold armed; rewrite T1; now apply (Hr R)). split; [|assumption].
    destruct (bool_decide (h ∈ outstanding R)) eqn:Eb; cbn in HR'.
    - apply bool_decide_eq_true in Eb. injection HR' as <-. cbn. intros Hz. now apply (Hno R).
    - rewrite HR in HR'. injection HR' as <-. now apply (Hr R). }
  unfold unsubscribe. apply returns_get. destruct (find_handle h (subscriptions s)); [|now apply returns_ret]. apply returns_modify.
  unfold left_ok in *. destruct (round s) as [R|] eqn:HR; [|apply returns_ret, Hcase; discriminate]. destruct (bool_decide (h ∈ outstanding R)) eqn:Eb.
  - apply returns_modify. apply bool_decide_eq_true in Eb. rewrite Hd. cbn [Nat.eqb]. rewrite andb_true_r. destruct (bool_decide (outstanding R ∖ {[h]} = ∅)) eqn:Eo.
    + eapply returns_bind; [apply (advance_returns 3 _ (with_outstanding (outstanding R ∖ {[h]}) R)); [exact Hadv|exact Hi1|exact Hd|reflexivity|apply need_le]|].
      intros _ s' [H _]. now apply returns_ret.
    + apply bool_decide_eq_false in Eo. eapply returns_bind; [apply (returns_ret tt _ Rest), Hcase|intros _ s' H; now apply returns_ret]. intros R' [= <-] _ Hz. contradiction.
  - apply bool_decide_eq_false in Eb. apply returns_ret, Hcase. intros R' [= <-] H _. contradiction.
Qed.

Lemma arm_lock_timer_rest s : Rest s -> returns (arm_lock_timer (P := P) (U := U)) s Rest.
Proof.
  intros Hrest. unfold arm_lock_timer. apply returns_modify. set (s1 := set_runtime _ s).
  pose proof (i_scopes _ (proj1 Hrest)) as Hsc.
  assert (Rest s1) as H1.
  { apply (Rest_queue s (m_now (runtime s)) (m_queue (Scheduler.cancel lock_timer_scope (runtime s)))); auto.
    - intros x Hx. cbn. rewrite list_elem_of_filter. split; [tauto|]. intros Hq. split; [|assumption]. apply (Hsc x Hq) in Hx. rewrite Hx. discriminate.
    - intros x Hx Hc. cbn in Hx. apply list_elem_of_filter in Hx as [_ Hx]. intros Hs. apply (Hsc x Hx) in Hs. congruence. }
  eexists tt, _. split; [reflexivity|]. destruct (earliest (locks s1)) as [t|]; [|assumption]. pose proof (i_scopes _ (proj1 H1)) as Hsc1.
  apply (Rest_queue s1); [assumption| |].
  - intros x Hx. cbn. unfold emplace. rewrite insert_by_Permutation, elem_of_cons. split; [|tauto]. intros [->|H]; [discriminate|exact H].
  - intros x Hx Hc. unfold emplace in Hx. rewrite insert_by_Permutation, elem_of_cons in Hx. destruct Hx as [->|Hx]; [discriminate|]. intros Hs. apply (Hsc1 x Hx) in Hs. congruence.
Qed.

Lemma expire_rest now s : Rest s -> Rest (expire now s).
Proof.
  unfold expire. generalize (locks s) as ls. intros ls. revert s. induction ls as [|[h t] ls IH]; intros s Hs; [assumption|]. cbn [fold_left fst snd].
  apply IH. destruct (t <=? now); [now apply (Rest_same s)|assumption].
Qed.

Lemma try_start_rest s : Rest s -> returns (try_start call) s Rest.
Proof. intros Hs. eapply returns_weaken; [apply try_start_returns; [assumption|apply always_startable]|]. now intros s' (H & _). Qed.

Lemma on_lock_timer_rest s : Rest s -> returns (on_lock_timer call) s Rest.
Proof.
  intros Hs. unfold on_lock_timer. apply returns_modify. eapply returns_bind; [apply arm_lock_timer_rest, expire_rest, Hs|]. intros _. apply try_start_rest.
Qed.

Lemma run_calm p : forall s, calm p -> Rest s -> returns (run call p) s Rest.
Proof.
  induction p as [|k IH|u k IH|r code k IH|hook IHh data k IH|h k IH|k IH|d k IH|h k IH]; intros s Hq Hs; cbn [run]; cbn in Hq.
  - now apply returns_ret.
  - apply returns_get. now apply IH.
  - apply returns_modify. apply IH; [assumption|]. now apply (Rest_same s).
  - eapply returns_bind; [now apply handle_response_rest|]. auto.
  - unfold subscribe. eapply returns_bind; [apply returns_get, returns_modify, (returns_ret _ _ Rest)|intros h s' H; apply IH; [apply Hq|assumption]].
    destruct Hs as (Hi & Hd & Hr). split; [now apply Inv_subscribe|]. auto.
  - eapply returns_bind; [now apply unsubscribe_rest|]. auto.
  - unfold IdentityManager.trigger. eapply returns_bind with (Q' := Rest); [|auto]. apply returns_get. destruct (pool_next_valid _ _); [|now apply returns_ret].
    apply returns_modify. eapply returns_bind; [apply try_start_rest; now apply (Rest_same s)|]. intros _ s' H. now apply returns_ret.
  - unfold lock. eapply returns_bind with (Q' := Rest); [|auto]. apply returns_get, returns_modify. eapply returns_bind; [apply arm_lock_timer_rest; now apply (Rest_same s)|].
    intros _ s1 H1. eapply returns_bind with (Q' := Rest); [destruct (d =? 0); [now apply on_lock_timer_rest|now apply returns_ret]|]. intros _ s2 H2. now apply returns_ret.
  - unfold unlock. eapply returns_bind with (Q' := Rest); [|auto]. apply returns_get. destruct (find_handle h (locks s)); [|now apply returns_ret]. apply returns_modify.
    eapply returns_bind; [apply arm_lock_timer_rest; now apply (Rest_same s)|]. intros _ s1 H1. eapply returns_bind; [now apply try_start_rest|]. intros _ s2 H2. now apply returns_ret.
Qed.

(** The timeout of a round ends it. *)
Lemma on_round_timeout_returns s R : Inv s -> notify_depth s = 0%nat -> round s = Some R ->
  returns (on_round_timeout call) s (fun s' => Rest s' /\ forall R', round s' = Some R' -> round_id R < round_id R').
Proof.
  intros Hi Hd HR. unfold on_round_timeout. apply returns_get. rewrite HR. apply returns_modify. destruct (bool_decide (phase R = PREPARE)).
  - eapply returns_weaken; [apply abort_returns; [assumption|now apply (Inv_same s)]|]. cbn. intros s' (H1 & H2 & H3 & _). split; [|congruence]. split; [assumption|]. split; congruence.
  - apply returns_modify. eapply returns_weaken; [eapply (finish_returns _ R); [now apply (Inv_same s)|exact Hd|exact HR|apply always_startable]|].
    cbn. intros s' (H1 & H2 & H3). split; [assumption|]. intros R' HR'. rewrite (proj1 (i_round _ Hi R HR)), (proj1 (i_round _ (proj1 H1) R' HR')). apply H3. congruence.
Qed.
End Between.

Lemma exec_adv k : forall n, (3 + k <= n)%nat -> Adv k (exec n).
Proof.
  induction k as [k IH] using lt_wf_ind. intros [|[|[|n]]] Hn; try lia. intros s R Hi Hd HR Ho Hk. cbn [exec].
  apply (advance_returns _ (exec_idle (S n)) (exec_busy n) k s R); auto. intros j Hj. apply IH; lia.
Qed.

Lemma exec_ready fuel : (6 <= fuel)%nat -> Idle (exec fuel) /\ Busy (exec fuel) /\ forall j, (j < 3)%nat -> Adv j (exec fuel).
Proof.
  intros Hf. destruct fuel as [|[|fuel]]; try lia. split; [apply exec_idle|]. split; [apply exec_busy|]. intros j Hj. apply exec_adv. lia.
Qed.

Lemma event_rest fuel e s : (6 <= fuel)%nat -> calm_event e -> Rest s -> returns (event fuel e) s Rest.
Proof.
  intros Hf Hc Hs. destruct (exec_ready fuel Hf) as (H1 & H2 & H3). pose proof (i_scopes _ (proj1 Hs)) as Hsc. destruct e as [p| |now|f|t|f]; cbn [event].
  - now apply run_calm.
  - unfold fire. apply returns_get. destruct (m_queue (runtime s)) as [|x q] eqn:Eq; [now apply returns_ret|]. destruct (deadline x <=? m_now (runtime s)); [|now apply returns_ret].
    apply returns_modify. destruct (callback x) eqn:Ex.
    + assert (armed s) as Ha by (exists x; rewrite Eq; split; [now left|assumption]). destruct Hs as (Hi & Hd & Hr). destruct (round s) as [R|] eqn:HR; [|exfalso; now apply (i_idle _ Hi)].
      eapply returns_weaken; [eapply (on_round_timeout_returns _ H1 H2 H3 _ R)|now intros s' [H _]]; [|exact Hd|exact HR].
      destruct Hi as [I1 I2 I3 I4 I5]. split; auto; [|intros HN; cbn in HN; congruence]. intros y Hy. apply I3. rewrite Eq. now right.
    + apply on_lock_timer_rest; auto. apply (Rest_queue s); [assumption| |].
      * intros y Hy. rewrite Eq, elem_of_cons. split; [auto|]. intros [->|H]; [congruence|assumption].
      * intros y Hy Hl Hsy. assert (y ∈ x :: q) as Hin by now right. apply (Hsc y Hin) in Hsy. congruence.
  - apply (returns_modify _ (fun _ => ret tt)), returns_ret. apply (Rest_queue s); [assumption|tauto|]. intros x Hx Hl Hsx. apply (Hsc x Hx) in Hsx. congruence.
  - apply (returns_modify _ (fun _ => ret tt)), returns_ret. now apply (Rest_same s).
  - apply (returns_modify _ (fun _ => ret tt)), returns_ret. now apply (Rest_same s).
  - apply (returns_modify _ (fun _ => ret tt)), returns_ret. destruct Hs as ([I1 I2 I3 I4 I5] & Hd & Hr). split; [|auto]. split; auto. now intros g [= <-].
Qed.

Lemma create_rest rt p u : m_queue rt = [] -> Rest (Impl_create rt p u).
Proof.
  intros Hq. split; [|split; [reflexivity|discriminate]]. split; cbn; try discriminate.
  - intros h sub H. now apply elem_of_nil in H.
  - rewrite Hq. intros x H. now apply elem_of_nil in H.
  - intros _ (x & Hx & _). cbn in Hx. rewrite Hq in Hx. now apply elem_of_nil in Hx.
Qed.

Lemma events_rest fuel es : forall s, (6 <= fuel)%nat -> Forall calm_event es -> Rest s -> returns (events fuel es) s Rest.
Proof.
  induction es as [|e es IH]; intros s Hf Hes Hs; cbn [events]; [now apply returns_ret|]. inversion Hes; subst.
  eapply returns_bind; [now apply event_rest|]. intros _ s' Hs'. now apply IH.
Qed.

(** C8.  With hooks that leave triggers and locks to others, calls nested six
    deep are enough for every call of the service to return, whatever is
    called from outside of the hooks; between them a round in progress always
    waits for a response of somebody who is still subscribed, and its timer is
    armed. *)
Theorem service_returns fuel es rt p u : (6 <= fuel)%nat -> m_queue rt = [] -> Forall calm_event es ->
  exists s', events fuel es (Impl_create rt p u) = Some (tt, s') /\ notify_depth s' = 0%nat /\
    forall R, round s' = Some R -> armed s' /\ exists h, h ∈ outstanding R /\ h ∈ keys s'.
Proof.
  intros Hf Hq Hes. destruct (events_rest fuel es (Impl_create rt p u) Hf Hes (create_rest rt p u Hq)) as ([] & s' & E & Hi & Hd & Hr).
  exists s'. split; [assumption|]. split; [assumption|]. intros R HR. destruct (Hr R HR) as [Ho Ha]. split; [assumption|].
  apply set_choose_L in Ho as [h Hh]. exists h. split; [assumption|]. now apply (i_round _ Hi R HR).
Qed.

(** Once the timer of a round fires, the round has ended. *)
Theorem round_times_out fuel s R x q : (6 <= fuel)%nat -> Rest s -> round s = Some R ->
  m_queue (runtime s) = x :: q -> callback x = RoundTimeout -> deadline x <= m_now (runtime s) ->
  exists s', event fuel Fires s = Some (tt, s') /\ Rest s' /\ forall R', round s' = Some R' -> round_id R < round_id R'.
Proof.
  intros Hf (Hi & Hd & Hr) HR Hq Hx Hdl. destruct (exec_ready fuel Hf) as (H1 & H2 & H3). cbn [event]. unfold fire, bind, get, modify. rewrite Hq, (proj2 (Z.leb_le _ _) Hdl), Hx.
  destruct (on_round_timeout_returns _ H1 H2 H3 (set_runtime (mk_ManualRuntime (m_now (runtime s)) q) s) R) as ([] & s' & E & Hs'); auto.
  - destruct Hi as [I1 I2 I3 I4 I5]. split; auto; [|intros HN; cbn in HN; congruence]. intros y Hy. apply I3. rewrite Hq. now right.
  - exists s'. auto.
Qed.

(** * Stuck rounds *)

(** A round that nobody is to answer, without a timer. *)
Definition Stuck (R : Round) s : Prop := round s = Some R /\ outstanding R = ∅ /\ notify_depth s = 0%nat /\
  forall x, x ∈ m_queue (runtime s) -> callback x = LockTimeout.

Lemma try_start_stuck call R s : Stuck R s -> try_start call s = Some (tt, s).
Proof.
  intros (HR & _). unfold try_start, bind, get. rewrite HR. rewrite (bool_decide_true (is_Some (Some R))) by eauto. now rewrite orb_true_r.
Qed.

Lemma arm_lock_timer_stuck R s : Stuck R s -> returns (arm_lock_timer (P := P) (U := U)) s (Stuck R).
Proof.
  intros (HR & Ho & Hd & Hq). unfold arm_lock_timer. apply returns_modify. eexists tt, _. split; [reflexivity|].
  assert (forall x, x ∈ m_queue (Scheduler.cancel lock_timer_scope (runtime s)) -> callback x = LockTimeout) as Hc by (intros x [_ Hx]%list_elem_of_filter; auto).
  destruct (earliest _) as [t|]; (split; [exact HR|]; split; [exact Ho|]; split; [exact Hd|]); [|exact Hc].
  intros x Hx. cbn in Hx. unfold emplace in Hx. rewrite insert_by_Permutation, elem_of_cons in Hx. destruct Hx as [->|Hx]; [reflexivity|now apply Hc].
Qed.

Lemma expire_stuck now R s : Stuck R s -> Stuck R (expire now s).
Proof.
  unfold expire. generalize (locks s) as ls. intros ls. revert s. induction ls as [|[h t] ls IH]; intros s Hs; [assumption|]. cbn [fold_left fst snd]. apply IH. now destruct (t <=? now).
Qed.

Lemma on_lock_timer_stuck call R s : Stuck R s -> returns (on_lock_timer call) s (Stuck R).
Proof.
  intros Hs. unfold on_lock_timer. apply returns_modify. eapply returns_bind; [apply arm_lock_timer_stuck, expire_stuck, Hs|].
  intros _ s1 H1. exists tt, s1. split; [now apply (try_start_stuck call R)|assumption].
Qed.

Lemma run_stuck call R p : forall s, Stuck R s -> returns (run call p) s (Stuck R).
Proof.
  induction p as [|k IH|u k IH|r code k IH|hook IHh data k IH|h k IH|k IH|d k IH|h k IH]; intros s Hs; cbn [run]; pose proof Hs as (HR & Ho & Hd & Hq).
  - now apply returns_ret.
  - now apply returns_get, IH.
  - now apply returns_modify, IH.
  - eapply returns_bind with (Q' := Stuck R); [|auto]. unfold handle_response. apply returns_get. rewrite HR, Ho. rewrite (bool_decide_false (_ ∈ ∅)) by apply not_elem_of_empty. rewrite orb_true_r. now apply returns_ret.
  - unfold subscribe. eapply returns_bind; [apply returns_get, returns_modify, (returns_ret _ _ (Stuck R)); exact Hs|auto].
  - eapply returns_bind with (Q' := Stuck R); [|auto]. unfold unsubscribe. apply returns_get. destruct (find_handle h (subscriptions s)); [|now apply returns_ret]. apply returns_modify.
    rewrite HR, Ho. rewrite (bool_decide_false (h ∈ ∅)) by apply not_elem_of_empty. apply returns_ret. exact Hs.
  - unfold IdentityManager.trigger. eapply returns_bind with (Q' := Stuck R); [|auto]. apply returns_get. destruct (pool_next_valid _ _); [|now apply returns_ret].
    apply returns_modify. eapply returns_bind with (Q' := Stuck R); [exists tt, (set_pending true s); split; [now apply (try_start_stuck call R)|exact Hs]|]. intros _ s' H. now apply returns_ret.
  - unfold lock. eapply returns_bind with (Q' := Stuck R); [|auto]. apply returns_get, returns_modify. eapply returns_bind; [apply (arm_lock_timer_stuck R); exact Hs|].
    intros _ s1 H1. eapply returns_bind with (Q' := Stuck R); [destruct (d =? 0); [now apply on_lock_timer_stuck|now apply returns_ret]|]. intros _ s2 H2. now apply returns_ret.
  - unfold unlock. eapply returns_bind with (Q' := Stuck R); [|auto]. apply returns_get. destruct (find_handle h (locks s)); [|now apply returns_ret]. apply returns_modify.
    eapply returns_bind; [apply (arm_lock_timer_stuck R); exact Hs|]. intros _ s1 H1. eapply returns_bind with (Q' := Stuck R); [exists tt, s1; split; [now apply (try_start_stuck call R)|assumption]|]. intros _ s2 H2. now apply returns_ret.
Qed.

Lemma event_stuck fuel e R s : Stuck R s -> returns (event fuel e) s (Stuck R).
Proof.
  intros Hs. destruct e as [p| |now|f|t|f]; cbn [event]; try (apply (returns_modify _ (fun _ => ret tt)), returns_ret; exact Hs); [now apply run_stuck|].
  pose proof Hs as (HR & Ho & Hd & Hq). unfold fire. apply returns_get. destruct (m_queue (runtime s)) as [|x q] eqn:Eq; [now apply returns_ret|].
  destruct (deadline x <=? m_now (runtime s)); [|now apply returns_ret]. apply returns_modify. rewrite (Hq x) by now left. apply on_lock_timer_stuck.
  split; [assumption|]. split; [assumption|]. split; [assumption|]. intros y Hy. apply Hq. now right.
Qed.

Lemma events_stuck fuel es R : forall s, Stuck R s -> returns (events fuel es) s (Stuck R).
Proof.
  induction es as [|e es IH]; intros s Hs; [now apply returns_ret|]. cbn [events]. eapply returns_bind with (Q' := Stuck R); [now apply event_stuck|]. intros _ s' Hs'. now apply IH.
Qed.

(** A stuck round is in progress for good, whatever is called: no trigger
    starts another one, and change_pending() stays true. *)
Theorem stuck_for_good fuel es R s : Stuck R s ->
  exists s', events fuel es s = Some (tt, s') /\ round s' = Some R /\ change_pending s' = true.
Proof.
  intros Hs. destruct (events_stuck fuel es R s Hs) as ([] & s' & E & HR & _). exists s'. split; [assumption|]. split; [assumption|].
  unfold change_pending. apply bool_decide_eq_true. rewrite HR. eauto.
Qed.
End Liveness.
