(* ===== verification/IdentityExamples.v ===== *)
(** Runs of the identifier-change service over a pool of three tickets: the
    normal course, and what subscribers can bring about that the interface
    does not intend. *)

From S2P Require Import Prelude Scheduler Permissions Regions Certificate TrustStore CertificatePool IdentityManager IdentityRounds IdentityLiveness.
From stdpp Require Import list gmap.

Open Scope Z_scope.

#[local] Existing Instance example_codec.
#[local] Existing Instance example_backend.

(** A subscriber keeps the responders it was given, the latest first. *)
Abbreviation Users := (list Responder).
Definition start : Impl CertificatePool Users := Impl_create (ManualRuntime_create (1001 * second)) example_pool [].
Definition go (es : list (Event CertificatePool Users)) : option (Impl CertificatePool Users) := snd <$> events 6 es start.

(** Agrees at once; answers later; refuses, and asks for another change when
    told of the abort. *)
Definition polite : IdChangeHook Users := fun c _ _ r => match r with Some r => Respond r true Done | None => Done end.
Definition slow : IdChangeHook Users := fun c _ _ r => match r with Some r => Read (fun u => Write (r :: u) Done) | None => Done end.
Definition insisting : IdChangeHook Users := fun c _ _ r =>
  match c, r with
  | PREPARE, Some r => Read (fun u => Write (r :: u) (Respond r (bool_decide (u <> [])) Done))
  | ABORT, _ => Trigger (fun _ => Done)
  | _, Some r => Respond r true Done
  | _, None => Done
  end.
Definition join (hook : IdChangeHook Users) : Event CertificatePool Users := Calls (Subscribe hook [] (fun _ => Done)).
Definition ask : Event CertificatePool Users := Calls (Trigger (fun _ => Done)).
(** The [n]-th kept responder is used. *)
Definition answer (n : nat) (code : bool) : Event CertificatePool Users :=
  Calls (Read (fun u => match u !! n with Some r => Respond r code Done | None => Done end)).

Example a_change : (fun s => (log s, digest <$> CertificatePool.current (pool s))) <$> go [join polite; join slow; ask; answer 0 true; answer 0 true] =
  Some ([Ended 1 true; Answered 1 2 true; Delivered 2 COMMIT id2 (Some 1); Answered 1 1 true; Delivered 1 COMMIT id2 (Some 1); Selected id2;
         Answered 1 2 true; Delivered 2 PREPARE id2 (Some 1); Answered 1 1 true; Delivered 1 PREPARE id2 (Some 1); Started 1 id2; Subscribed 2; Subscribed 1], Some id2).
Proof. vm_compute. reflexivity. Qed.

(** The response to PREPARE used a second time stands for the one to COMMIT,
    which the subscriber has not given: the round is done. *)
Theorem prepare_response_commits : exists s newer older, go [join slow; ask; answer 0 true; answer 1 true] = Some s /\
  log s = newer ++ Delivered 1 COMMIT id2 (Some 1) :: older /\ round s = None /\ newer = [Ended 1 true; Answered 1 1 true] /\
  users s = [mk_Responder 1 1; mk_Responder 1 1].
Proof. eexists _, [_; _], _. split; [vm_compute; reflexivity|]. split; [reflexivity|]. split; [reflexivity|]. split; reflexivity. Qed.

(** A trigger during a round that is aborted starts nothing afterwards. *)
Theorem queued_trigger_waits : exists s, go [join slow; ask; ask; answer 0 false] = Some s /\
  pending_trigger s = true /\ round s = None /\ locks s = [] /\ m_queue (runtime s) = [] /\ hd_error (log s) = Some (Delivered 1 ABORT id2 None).
Proof. eexists. split; [vm_compute; reflexivity|]. repeat split. Qed.

Lemma insisting_stuck : exists s, go [join insisting; ask] = Some s /\ Stuck (mk_Round 2 PREPARE id2 ∅) s /\ Answered 2 1 true ∈ log s.
Proof.
  eexists. split; [vm_compute; reflexivity|]. split; [|now left].
  split; [reflexivity|]. split; [reflexivity|]. split; [reflexivity|]. intros x Hx. now apply elem_of_nil in Hx.
Qed.

(** A trigger from a hook that is told of an abort starts a round that its
    only subscriber agrees to, and that nothing can advance or end any more. *)
Theorem trigger_in_abort_sticks : exists s, go [join insisting; ask] = Some s /\ Answered 2 1 true ∈ log s /\
  forall fuel es, exists s', events fuel es s = Some (tt, s') /\ round s' = Some (mk_Round 2 PREPARE id2 ∅).
Proof.
  destruct insisting_stuck as (s & E & Hs & Ha). exists s. split; [assumption|]. split; [assumption|]. intros fuel es.
  destruct (events_stuck fuel es _ s Hs) as ([] & s' & E' & HR & _). eauto.
Qed.

Lemma stuck_for_good_witness : exists s s', go [join insisting; ask] = Some s /\
  events 9 [ask; Calls (Lock 0 (fun _ => Done)); Time (5000 * second); Fires] s = Some (tt, s') /\ change_pending s' = true.
Proof.
  destruct insisting_stuck as (s & E & Hs & _). destruct (stuck_for_good 9 [ask; Calls (Lock 0 (fun _ => Done)); Time (5000 * second); Fires] _ s Hs) as (s' & H1 & _ & H2).
  exists s, s'. auto.
Defined.

Lemma polite_calm hook : hook = polite \/ hook = slow -> forall c id d r, quiet (hook c id d r).
Proof. intros [-> | ->] c id d [r|]; cbn; auto. Qed.

Lemma service_returns_witness : exists s R, go [join polite; join slow; ask] = Some s /\ round s = Some R /\ exists h, h ∈ outstanding R /\ h ∈ keys s.
Proof.
  destruct (service_returns 6 [join polite; join slow; ask] (ManualRuntime_create (1001 * second)) example_pool []) as (s & E & _ & H).
  - lia.
  - reflexivity.
  - repeat constructor; cbn; auto; apply polite_calm; auto.
  - assert (go [join polite; join slow; ask] = Some s) as E' by (unfold go, start; now rewrite E).
    assert (exists R, round s = Some R) as [R HR].
    { assert (change_pending <$> go [join polite; join slow; ask] = Some true) as Hp by (vm_compute; reflexivity). rewrite E' in Hp.
      injection Hp as Hp. unfold change_pending in Hp. now apply bool_decide_eq_true in Hp. }
    exists s, R. split; [exact E'|]. split; [exact HR|]. now apply H.
Defined.

Lemma go_events es s : go es = Some s -> events 6 es start = Some (tt, s).
Proof. unfold go. destruct (events 6 es start) as [[[] s']|]; [|discriminate]. now intros [= ->]. Qed.

Lemma example_selected : exists s older, go [join polite; join slow; ask; answer 0 true] = Some s /\
  log s = [Delivered 2 COMMIT id2 (Some 1); Answered 1 1 true; Delivered 1 COMMIT id2 (Some 1)] ++ Selected id2 :: older.
Proof. eexists _, _. split; [vm_compute; reflexivity|]. reflexivity. Qed.

Lemma example_aborted : exists s older, go [join polite; join slow; ask; answer 0 false] = Some s /\
  log s = [Delivered 2 ABORT id2 None; Delivered 1 ABORT id2 None] ++ Ended 1 false :: older /\ view older = Some (1, id2, false) /\ live 1 older.
Proof.
  eexists _, _. split; [vm_compute; reflexivity|]. split; [reflexivity|]. split; [reflexivity|]. split.
  - rewrite !elem_of_cons. repeat (left; reflexivity) || right.
  - intros H. repeat (apply elem_of_cons in H as [H|H]; [discriminate|]). now apply elem_of_nil in H.
Qed.

Lemma two_phase_commit_witness : exists s s' older older', go [join polite; join slow; ask; answer 0 true] = Some s /\
  go [join polite; join slow; ask; answer 0 false] = Some s' /\ (exists r, view older = Some (r, id2, false) /\ prepared r older) /\
  log s' = [Delivered 2 ABORT id2 None; Delivered 1 ABORT id2 None] ++ Ended 1 false :: older' /\
  told 1 ABORT id2 None [Delivered 2 ABORT id2 None; Delivered 1 ABORT id2 None].
Proof.
  destruct example_selected as (s & older & E & Hl), example_aborted as (s' & older' & E' & Hl' & Hv & Hh). exists s, s', older, older'.
  split; [exact E|]. split; [exact E'|]. split; [exact (proj1 (two_phase_commit 6 _ _ _ _ s _ (Selected id2) older (go_events _ s E) Hl))|]. split; [exact Hl'|].
  exact (proj2 (two_phase_commit 6 _ _ _ _ s' _ (Ended 1 false) older' (go_events _ s' E') Hl') 1 id2 1 eq_refl Hv Hh).
Defined.

(** An answer that does not come: the timer of the round aborts it. *)
Lemma round_times_out_witness : exists s s', go [join slow; ask; Time (1002 * second)] = Some s /\ event 6 Fires s = Some (tt, s') /\ Rest s'.
Proof.
  destruct (events_rest 6 [join slow; ask; Time (1002 * second)] start) as ([] & s & E & Hs).
  - lia.
  - repeat constructor; cbn; auto. apply polite_calm. auto.
  - now apply create_rest.
  - exists s. assert (go [join slow; ask; Time (1002 * second)] = Some s) as E' by (unfold go; now rewrite E).
    assert (exists R, round s = Some R) as [R HR].
    { assert (change_pending <$> go [join slow; ask; Time (1002 * second)] = Some true) as Hp by (vm_compute; reflexivity). rewrite E' in Hp.
      injection Hp as Hp. unfold change_pending in Hp. now apply bool_decide_eq_true in Hp. }
    assert ((fun s => (m_queue (runtime s), m_now (runtime s))) <$> go [join slow; ask; Time (1002 * second)] = Some ([mk_ScheduledCallback (1001 * second + 500000) RoundTimeout round_timer_scope], 1002 * second)) as Eq by (vm_compute; reflexivity).
    rewrite E' in Eq. injection Eq as Eq1 Eq2. destruct (round_times_out 6 s R _ [] ltac:(lia) Hs HR Eq1 eq_refl) as (s' & H1 & H2 & _); [rewrite Eq2; vm_compute; discriminate|].
    exists s'. auto.
Defined.
