(* ===== verification/Validator.v ===== *)
(** The validity of signing certificates: DefaultCertificateValidator of
    vanetza/security/v3/certificate_validator.cpp, and the certificate
    signatures and ChainValidator of ports/esp_idf/src/security.cpp. *)

From S2P Require Import Prelude Runtime Permissions Regions Certificate TrustStore.
From stdpp Require Import list gmap.

Open Scope Z_scope.

Inductive Verdict :=
| Verdict_Unknown | Valid | Expired | Revoked | Untrusted | InconsistentChain | OutsideRegion | InsufficientPermission | Misconfiguration.
#[export] Instance Verdict_eq_dec : EqDecision Verdict.
Proof. solve_decision. Defined.

Section Validator.
Context {C : CertificateCodec} {B : Backend} {G : RegionGeometry} {T : Target}.

(** * DefaultCertificateValidator *)

(** What use_...() and disable_...() set; the time and the position are those
    of the runtime and the provider at the call. *)
Record DefaultCertificateValidator := mk_Validator {
  m_runtime : option Z;
  m_position_provider : option Position;
  m_issuer_lookup : option (HashedId8 -> option Certificate);
  m_location_checker : option (option GeographicRegion -> Position -> bool);
  m_revocation_lookup : option (HashedId8 -> HashedId8 -> bool);
  m_trust_store : option (HashedId8 -> list Certificate);
  m_disable_time_checks : bool; m_disable_location_checks : bool;
  m_disable_chain_consistency_checks : bool; m_disable_region_consistency_checks : bool }.

Definition check_time_consistency (subject issuer : Certificate) : bool :=
  let subject_time := get_start_and_end_validity subject in
  let issuer_time := get_start_and_end_validity issuer in
  (start_validity issuer_time <=? start_validity subject_time) && (end_validity subject_time <=? end_validity issuer_time).

Definition check_permission_consistency (subject issuer : Certificate) (its_aid : Z) : bool :=
  if is_ca_certificate subject && negb (is_allowed_to_issue subject its_aid) then false
  else if is_at_certificate subject && negb (valid_for_application subject its_aid) then false
  else is_allowed_to_issue issuer its_aid.

Definition check_assurance_consistency (subject issuer : Certificate) : bool :=
  match assurance_level subject, assurance_level issuer with
  | None, _ => true
  | Some _, None => false
  | Some subject_value, Some issuer_value =>
      let subject_level := Z.land (subject_value ≫ 5) 7 in
      let issuer_level := Z.land (issuer_value ≫ 5) 7 in
      let subject_confidence := Z.land (subject_value ≫ 2) 7 in
      let issuer_confidence := Z.land (issuer_value ≫ 2) 7 in
      (subject_level <? issuer_level) || (subject_level =? issuer_level) && (subject_confidence <=? issuer_confidence)
  end.

Definition check_region_consistency (subject issuer : Certificate) : bool :=
  region_is_within (region (toBeSigned subject)) (region (toBeSigned issuer)).

Definition check_consistency (v : DefaultCertificateValidator) (subject issuer : Certificate) (its_aid : Z) : bool :=
  check_time_consistency subject issuer && check_permission_consistency subject issuer its_aid &&
  check_assurance_consistency subject issuer && (m_disable_region_consistency_checks v || check_region_consistency subject issuer).

Definition find_issuer_certificate (v : DefaultCertificateValidator) (at_cert : Certificate) : option Certificate :=
  match m_issuer_lookup v with
  | Some lookup => match issuer_digest at_cert with Some d => lookup d | None => None end
  | None => None
  end.

Definition max_chain_depth : nat := 8.

(** The loops over the chain, [depth] certificates left. *)
Fixpoint anchored (lookup : HashedId8 -> option Certificate) (store : HashedId8 -> list Certificate) (depth : nat) (cert : Certificate) : bool :=
  match depth with
  | O => false
  | S depth =>
      if issuer_is_self cert then
        match calculate_digest cert with Some d => negb (length (store d) =? 0)%nat | None => false end
      else match issuer_digest cert with
           | None => false
           | Some d => match lookup d with None => false | Some issuer => anchored lookup store depth issuer end
           end
  end.
Definition is_chain_anchored (v : DefaultCertificateValidator) (signing_cert : Certificate) : bool :=
  match m_trust_store v, m_issuer_lookup v with
  | Some store, Some lookup => anchored lookup store max_chain_depth signing_cert
  | _, _ => true
  end.

Fixpoint consistent_from (v : DefaultCertificateValidator) (its_aid : Z) (depth : nat) (subject : Certificate) : bool :=
  match depth with
  | O => true
  | S depth =>
      if issuer_is_self subject then true
      else match find_issuer_certificate v subject with
           | None => true
           | Some issuer => if negb (check_consistency v subject issuer its_aid) then false else consistent_from v its_aid depth issuer
           end
  end.
Definition chain_is_consistent (v : DefaultCertificateValidator) (signing_cert : Certificate) (its_aid : Z) : bool :=
  if m_disable_chain_consistency_checks v then true
  else match m_issuer_lookup v with
       | None => true
       | Some _ => consistent_from v its_aid max_chain_depth signing_cert
       end.

Fixpoint revoked_from (lookup : HashedId8 -> option Certificate) (is_revoked : HashedId8 -> HashedId8 -> bool) (depth : nat) (cert : Certificate) : bool :=
  match depth with
  | O => false
  | S depth =>
      match calculate_digest cert, issuer_digest cert with
      | Some cert_digest, Some issuer_digest =>
          if is_revoked issuer_digest cert_digest then true
          else match lookup issuer_digest with
               | None => false
               | Some issuer => if issuer_is_self issuer then false else revoked_from lookup is_revoked depth issuer
               end
      | _, _ => false
      end
  end.
Definition chain_is_revoked (v : DefaultCertificateValidator) (signing_cert : Certificate) : bool :=
  match m_revocation_lookup v, m_issuer_lookup v with
  | Some is_revoked, Some lookup => revoked_from lookup is_revoked max_chain_depth signing_cert
  | _, _ => false
  end.

(** CertificateView::valid_at_location. *)
Definition valid_at_location (cert : Certificate) (location : Position) (checker : option (option GeographicRegion -> Position -> bool)) : bool :=
  match checker with Some lc => lc (region (toBeSigned cert)) location | None => false end.

Definition is_some {A} (o : option A) : bool := match o with Some _ => true | None => false end.

Definition valid_for_signing (v : DefaultCertificateValidator) (signing_cert : Certificate) (its_aid : Z) : Verdict :=
  if negb (m_disable_time_checks v) && negb (is_some (m_runtime v)) then Misconfiguration
  else if negb (m_disable_location_checks v) && (negb (is_some (m_position_provider v)) || negb (is_some (m_location_checker v))) then Misconfiguration
  else if negb (valid_for_application signing_cert its_aid) then InsufficientPermission
  else if match m_runtime v with Some now => negb (valid_at_timepoint signing_cert now) | None => false end then Expired
  else if negb (is_chain_anchored v signing_cert) then Untrusted
  else if negb (chain_is_consistent v signing_cert its_aid) then InconsistentChain
  else if chain_is_revoked v signing_cert then Revoked
  else if m_disable_location_checks v then Valid
  else match m_position_provider v with
       | None => Valid
       | Some location =>
           if has_region_restriction signing_cert then
             if negb (valid_at_location signing_cert location (m_location_checker v)) then OutsideRegion else Valid
           else match find_issuer_certificate v signing_cert with
                | Some issuing_cert => if negb (valid_at_location issuing_cert location (m_location_checker v)) then OutsideRegion else Valid
                | None => Valid
                end
       end.

(** * Certificate signatures *)

(** No result when encoding or the backend throws. *)
Definition verify_certificate_signature (subject : Certificate) (issuer_cert : option Certificate) : option bool :=
  match get_signature subject with
  | None => Some false
  | Some sig =>
      let checked (hash : HashAlgorithm) (issuer_cert : option Certificate) : option bool :=
        match get_public_key (default subject issuer_cert) with
        | None => Some false
        | Some public_key =>
            match encode_tbs (toBeSigned subject), match issuer_cert with Some i => encode_certificate i | None => Some [] end with
            | Some tbs, Some encoded => verify_digest public_key (calculate_hash hash (calculate_hash hash tbs ++ calculate_hash hash encoded)) sig
            | _, _ => None
            end
        end in
      match issuer subject, issuer_cert with
      | sha256AndDigest _, Some i => checked SHA256 (Some i)
      | sha384AndDigest _, Some i => checked SHA384 (Some i)
      | Issuer_self algorithm, _ => checked (if algorithm =? 1 then SHA384 else SHA256) None
      | _, _ => Some false
      end
  end.

(** * ChainValidator *)

(** CombinedIssuerLookup::find_issuer. *)
Definition find_combined (provisioned : HashedId8 -> option Certificate) (learned : list Certificate) (d : HashedId8) : option Certificate :=
  match provisioned d with
  | Some found => Some found
  | None => find (fun c => bool_decide (calculate_digest c = Some d)) learned
  end.

(** The walk to the anchor: the chain, or the verdict that ends it; no result
    when something throws. *)
Fixpoint walk (lookup : HashedId8 -> option Certificate) (depth : nat) (subject : Certificate) (chain : list Certificate) : option (Verdict + list Certificate) :=
  match depth with
  | O => Some (inl Untrusted)
  | S depth =>
      if issuer_is_self subject then
        match verify_certificate_signature subject None with
        | None => None
        | Some false => Some (inl Untrusted)
        | Some true => Some (inr chain)
        end
      else match match issuer_digest subject with Some d => lookup d | None => None end with
           | None => Some (inl Untrusted)
           | Some issuer =>
               match verify_certificate_signature subject (Some issuer) with
               | None => None
               | Some false => Some (inl Untrusted)
               | Some true =>
                   let chain := chain ++ [issuer] in
                   if issuer_is_self issuer then Some (inr chain) else walk lookup depth issuer chain
               end
           end
  end.

(** [verified] is the set of tickets already verified. *)
Definition chain_valid_for_signing (base : DefaultCertificateValidator) (lookup : HashedId8 -> option Certificate) (capacity : nat) (permissive_identified_region : bool)
    (signing_cert : Certificate) (its_aid : Z) (verified : gset HashedId8) : option (Verdict * gset HashedId8) :=
  let verdict := valid_for_signing base signing_cert its_aid in
  if negb (bool_decide (verdict = Valid)) then Some (verdict, verified)
  else match calculate_digest signing_cert with
       | None => Some (Untrusted, verified)
       | Some d =>
           if bool_decide (d ∈ verified) then Some (Valid, verified)
           else match walk lookup 4 signing_cert [signing_cert] with
                | None => None
                | Some (inl v) => Some (v, verified)
                | Some (inr chain) =>
                    if (1 <? length chain)%nat && negb (chain_consistent (map (fun c => permissions (toBeSigned c)) chain)) then Some (InconsistentChain, verified)
                    else if negb (regions_within permissive_identified_region (map (fun c => region (toBeSigned c)) chain)) then Some (InconsistentChain, verified)
                    else Some (Valid, {[d]} ∪ (if (capacity <=? size verified)%nat then ∅ else verified))
                end
       end.

(** * Chains *)

(** The certificates from one to its self-signed anchor, by a lookup. *)
Inductive path (lookup : HashedId8 -> option Certificate) : Certificate -> list Certificate -> Prop :=
| path_self c : issuer_is_self c = true -> path lookup c [c]
| path_issued c d i rest : issuer_is_self c = false -> issuer_digest c = Some d -> lookup d = Some i -> path lookup i rest -> path lookup c (c :: rest).

(** A relation between each certificate and the next. *)
Fixpoint adjacent (R : Certificate -> Certificate -> Prop) (chain : list Certificate) : Prop :=
  match chain with
  | subject :: (issuer :: _) as chain' => R subject issuer /\ adjacent R chain'
  | _ => True
  end.

(** What is looked up has the digest it is looked up by. *)
Definition lawful (lookup : HashedId8 -> option Certificate) : Prop := forall d c, lookup d = Some c -> calculate_digest c = Some d.

Lemma path_head lookup c chain : path lookup c chain -> exists rest, chain = c :: rest.
Proof. intros []; eauto. Qed.

Lemma path_unique lookup c chain chain' : path lookup c chain -> path lookup c chain' -> chain = chain'.
Proof.
  intros H. revert chain'. induction H as [c Hs|c d i rest Hs Hd Hl H IH]; intros chain' H'; inversion H' as [c' Hs'|c' d' i' rest' Hs' Hd' Hl' Hp']; subst; try congruence.
  f_equal. apply IH. congruence.
Qed.

Lemma path_digests lookup c chain : lawful lookup -> path lookup c chain -> is_Some (calculate_digest c) -> Forall (fun c => is_Some (calculate_digest c)) chain.
Proof. intros Hl. induction 1 as [c Hs|c d i rest Hs Hd Hi H IH]; intros Hc; constructor; auto. apply IH. exists d. now apply Hl. Qed.

Lemma anchored_spec lookup store n c : anchored lookup store n c = true <->
  exists chain root d, path lookup c chain /\ (length chain <= n)%nat /\ last chain = Some root /\ calculate_digest root = Some d /\ store d <> [].
Proof.
  revert c. induction n as [|n IH]; intros c; cbn [anchored].
  - split; [discriminate|]. intros (chain & root & d & H & Hl & _). apply path_head in H as (rest & ->). cbn in Hl. lia.
  - destruct (issuer_is_self c) eqn:Es.
    + split.
      * destruct (calculate_digest c) as [d|] eqn:Ed; [|discriminate]. rewrite negb_true_iff, Nat.eqb_neq. intros Hd.
        exists [c], c, d. split; [now constructor|]. cbn. split_all; auto; [lia|]. intros E. now rewrite E in Hd.
      * intros (chain & root & d & H & _ & Hr & Hd & Hs). inversion H; subst; [|congruence]. injection Hr as <-. rewrite Hd, negb_true_iff, Nat.eqb_neq. now intros E%nil_length_inv.
    + split.
      * destruct (issuer_digest c) as [d|] eqn:Ed; [|discriminate]. destruct (lookup d) as [i|] eqn:Ei; [|discriminate].
        intros (chain & root & rd & H & Hl & Hr & Hd & Hs)%IH. exists (c :: chain), root, rd. split; [now apply (path_issued lookup c d i)|].
        apply path_head in H as (rest & ->). cbn in *. split_all; auto. lia.
      * intros (chain & root & rd & H & Hl & Hr & Hd & Hs). inversion H as [|c' d i rest Hs' Hd' Hi Hp]; subst; [congruence|]. rewrite Hd', Hi. apply IH.
        exists rest, root, rd. cbn in Hl. split; [assumption|]. split; [lia|]. apply path_head in Hp as (rest' & ->). auto.
Qed.

Lemma consistent_from_spec v lookup aid n c chain : m_issuer_lookup v = Some lookup -> path lookup c chain -> (length chain <= n)%nat ->
  consistent_from v aid n c = true <-> adjacent (fun s i => check_consistency v s i aid = true) chain.
Proof.
  intros Hv H. revert n. induction H as [c Hs|c d i rest Hs Hd Hi H IH]; intros [|n] Hl; try (cbn in Hl; lia); cbn [consistent_from]; rewrite Hs.
  - cbn. tauto.
  - unfold find_issuer_certificate. rewrite Hv, Hd, Hi. cbn in Hl. specialize (IH n ltac:(lia)). destruct (path_head _ _ _ H) as (rest' & ->).
    change (adjacent _ (c :: i :: rest')) with (check_consistency v c i aid = true /\ adjacent (fun s i => check_consistency v s i aid = true) (i :: rest')).
    destruct (check_consistency v c i aid); cbn [negb]; [rewrite IH; tauto|]. split; [discriminate|]. intros [E _]. discriminate.
Qed.

Definition not_revoked (is_revoked : HashedId8 -> HashedId8 -> bool) (subject _issuer : Certificate) : Prop :=
  forall d e, issuer_digest subject = Some d -> calculate_digest subject = Some e -> is_revoked d e = false.

Lemma revoked_from_spec lookup is_revoked n c chain : path lookup c chain -> Forall (fun c => is_Some (calculate_digest c)) chain -> (length chain <= n)%nat ->
  revoked_from lookup is_revoked n c = false <-> adjacent (not_revoked is_revoked) chain.
Proof.
  intros H. revert n. induction H as [c Hs|c d i rest Hs Hd Hi H IH]; intros [|n] Hf Hl; try (cbn in Hl; lia); cbn [revoked_from].
  - inversion Hf as [|? ? [e He] _]; subst. rewrite He. unfold issuer_digest, issuer_is_self in *. destruct (issuer c); try discriminate. cbn. tauto.
  - inversion Hf as [|? ? [e He] Hf']; subst. rewrite He, Hd, Hi. cbn in Hl. specialize (IH n Hf' ltac:(lia)). destruct (path_head _ _ _ H) as (rest' & ->).
    change (adjacent _ (c :: i :: rest')) with (not_revoked is_revoked c i /\ adjacent (not_revoked is_revoked) (i :: rest')).
    assert (not_revoked is_revoked c i <-> is_revoked d e = false) as Hn by (unfold not_revoked; split; [intros Hx; now apply Hx|intros Hx ? ?; congruence]).
    rewrite Hn. destruct (is_revoked d e); [split; [discriminate|intros [E _]; discriminate]|]. destruct (issuer_is_self i) eqn:Ei; [|rewrite IH; tauto].
    inversion H as [|? ? ? ? Hs']; subst; [|congruence]. cbn. tauto.
Qed.

(** ** Verdicts *)

(** A validator that checks everything, as the security entity sets it up. *)
Definition complete_validator (now : Z) (location : Position) (lookup : HashedId8 -> option Certificate) (checker : option GeographicRegion -> Position -> bool)
    (is_revoked : HashedId8 -> HashedId8 -> bool) (store : HashedId8 -> list Certificate) (disable_region : bool) : DefaultCertificateValidator :=
  mk_Validator (Some now) (Some location) (Some lookup) (Some checker) (Some is_revoked) (Some store) false false false disable_region.

(** The station is where the ticket, or else its issuer, is valid. *)
Definition at_place (checker : option GeographicRegion -> Position -> bool) (location : Position) (chain : list Certificate) : Prop :=
  match chain with
  | c :: rest =>
      if has_region_restriction c then checker (region (toBeSigned c)) location = true
      else match rest with i :: _ => checker (region (toBeSigned i)) location = true | [] => True end
  | [] => True
  end.

Lemma valid_for_signing_valid now location lookup checker is_revoked store disable_region c aid : lawful lookup -> is_Some (calculate_digest c) ->
  let v := complete_validator now location lookup checker is_revoked store disable_region in
  valid_for_signing v c aid = Valid <->
  valid_for_application c aid = true /\ valid_at_timepoint c now = true /\
  exists chain root d, path lookup c chain /\ (length chain <= max_chain_depth)%nat /\ last chain = Some root /\ calculate_digest root = Some d /\ store d <> [] /\
    adjacent (fun s i => check_consistency v s i aid = true) chain /\ adjacent (not_revoked is_revoked) chain /\ at_place checker location chain.
Proof.
  intros Hlaw Hdig. cbn zeta. set (v := complete_validator _ _ _ _ _ _ _). unfold valid_for_signing. cbn [m_disable_time_checks m_disable_location_checks m_runtime m_position_provider m_location_checker complete_validator v is_some negb andb orb].
  destruct (valid_for_application c aid); cbn [negb]; [|split; [discriminate|intros (E & _); discriminate]].
  destruct (valid_at_timepoint c now); cbn [negb]; [|split; [discriminate|intros (_ & E & _); discriminate]].
  change (is_chain_anchored v c) with (anchored lookup store max_chain_depth c). destruct (anchored lookup store max_chain_depth c) eqn:Ea; cbn [negb].
  2: { split; [discriminate|]. intros (_ & _ & chain & root & d & H1 & H2 & H3 & H4 & H5 & _). assert (anchored lookup store max_chain_depth c = true) by (apply anchored_spec; exists chain, root, d; split_all; assumption). congruence. }
  apply anchored_spec in Ea as (chain & root & d & Hp & Hl & Hr & Hd & Hs). pose proof (path_digests _ _ _ Hlaw Hp Hdig) as Hds.
  change (chain_is_consistent v c aid) with (consistent_from v aid max_chain_depth c). pose proof (consistent_from_spec v lookup aid max_chain_depth c chain eq_refl Hp Hl) as Hc.
  change (chain_is_revoked v c) with (revoked_from lookup is_revoked max_chain_depth c). pose proof (revoked_from_spec lookup is_revoked max_chain_depth c chain Hp Hds Hl) as Hv.
  assert (forall Q : list Certificate -> Prop, (exists chain' root' d', path lookup c chain' /\ (length chain' <= max_chain_depth)%nat /\ last chain' = Some root' /\ calculate_digest root' = Some d' /\ store d' <> [] /\ Q chain') <-> Q chain) as Hex.
  { intros Q. split; [|intros HQ; exists chain, root, d; split_all; assumption]. intros (chain' & _ & _ & Hp' & _ & _ & _ & _ & HQ). now rewrite (path_unique _ _ _ _ Hp Hp'). }
  rewrite (Hex (fun chain => adjacent _ chain /\ adjacent _ chain /\ at_place checker location chain)). clear Hex.
  destruct (consistent_from v aid max_chain_depth c); cbn [negb]; [|split; [discriminate|intros (_ & _ & E & _); apply Hc in E; discriminate]].
  destruct (revoked_from lookup is_revoked max_chain_depth c); [split; [discriminate|intros (_ & _ & _ & E & _); apply Hv in E; discriminate]|].
  assert (adjacent (fun s i => check_consistency v s i aid = true) chain) as Hc' by now apply Hc. assert (adjacent (not_revoked is_revoked) chain) as Hv' by now apply Hv.
  assert ((if has_region_restriction c then if negb (checker (region (toBeSigned c)) location) then OutsideRegion else Valid
           else match find_issuer_certificate v c with
                | Some issuing_cert => if negb (checker (region (toBeSigned issuing_cert)) location) then OutsideRegion else Valid
                | None => Valid
                end) = Valid <-> at_place checker location chain) as Hat; [|unfold valid_at_location; rewrite Hat; tauto].
  inversion Hp as [c' Hself|c' d' i rest Hself Hd' Hi Hp']; subst; cbn [at_place].
  - destruct (has_region_restriction c); [destruct (checker _ _); cbn; split; (congruence || auto)|].
    unfold find_issuer_certificate. cbn. unfold issuer_digest, issuer_is_self in *. destruct (issuer c); try discriminate. tauto.
  - destruct (has_region_restriction c); [destruct (checker _ _); cbn; split; (congruence || auto)|].
    unfold find_issuer_certificate. cbn [m_issuer_lookup v complete_validator]. rewrite Hd', Hi. destruct (path_head _ _ _ Hp') as (rest' & ->).
    destruct (checker _ _); cbn; split; (congruence || auto).
Qed.

(** C11.  The verdict on a signing certificate is Valid exactly when the
    certificate has permissions for the application and is in its validity
    period, at most eight certificates lead to a self-signed one in the trust
    store, each of them is consistent with its issuer in time, permissions,
    assurance and region, none below the root is revoked, and the station is
    in the region of the certificate or, without one, of its issuer. *)
Theorem valid_for_signing_exact now location lookup checker is_revoked store disable_region c aid : lawful lookup -> is_Some (calculate_digest c) ->
  let v := complete_validator now location lookup checker is_revoked store disable_region in
  valid_for_signing v c aid = Valid <->
  valid_for_application c aid = true /\ valid_at_timepoint c now = true /\
  exists chain root d, path lookup c chain /\ (length chain <= max_chain_depth)%nat /\ last chain = Some root /\ calculate_digest root = Some d /\ store d <> [] /\
    adjacent (fun s i => check_consistency v s i aid = true) chain /\ adjacent (not_revoked is_revoked) chain /\ at_place checker location chain.
Proof. apply valid_for_signing_valid. Qed.

(** Assurance never grows along a chain: neither the level nor, within a
    level, the confidence of the subject is above the issuer's. *)
Theorem assurance_bounded subject issuer s i : check_assurance_consistency subject issuer = true ->
  assurance_level subject = Some s -> assurance_level issuer = Some i -> 0 <= s < 256 -> 0 <= i < 256 ->
  s / 32 <= i / 32 /\ (s / 32 = i / 32 -> (s / 4) mod 8 <= (i / 4) mod 8).
Proof.
  unfold check_assurance_consistency. intros H Es Ei Hs Hi. rewrite Es, Ei in H.
  assert (forall x, 0 <= x < 256 -> Z.land (x ≫ 5) 7 = x / 32 /\ Z.land (x ≫ 2) 7 = (x / 4) mod 8) as Hx.
  { intros x Hx. change 7 with (Z.ones 3). rewrite !Z.land_ones, !Z.shiftr_div_pow2 by lia. change (2 ^ 5) with 32. change (2 ^ 2) with 4. change (2 ^ 3) with 8.
    split; [|reflexivity]. apply Z.mod_small. split; [apply Z.div_pos; lia|apply Z.div_lt_upper_bound; lia]. }
  destruct (Hx s Hs) as [Es1 Es2]. destruct (Hx i Hi) as [Ei1 Ei2]. rewrite Es1, Es2, Ei1, Ei2 in H.
  apply orb_true_iff in H as [H%Z.ltb_lt|[H1%Z.eqb_eq H2%Z.leb_le]%andb_true_iff]; split; lia.
Qed.

(** ** Signed chains *)

(** The subject names its issuer by digest, and the issuer's key verifies the
    signature of the subject. *)
Definition signed_by (subject issuer : Certificate) : Prop :=
  issuer_digest subject = calculate_digest issuer /\ is_Some (calculate_digest issuer) /\ verify_certificate_signature subject (Some issuer) = Some true.

(** A ticket whose chain was verified up to a self-signed certificate. *)
Definition vouched (c : Certificate) : Prop := exists rest root permissive,
  adjacent signed_by (c :: rest) /\ last (c :: rest) = Some root /\ issuer_is_self root = true /\ (length rest <= 4)%nat /\
  (rest = [] -> verify_certificate_signature c None = Some true) /\
  (rest <> [] -> chain_consistent (map (fun c => permissions (toBeSigned c)) (c :: rest)) = true) /\
  regions_within permissive (map (fun c => region (toBeSigned c)) (c :: rest)) = true.

Definition Verified_ok (verified : gset HashedId8) : Prop := forall d, d ∈ verified -> exists c, calculate_digest c = Some d /\ vouched c.

Lemma adjacent_snoc R l x y : adjacent R (l ++ [x]) -> R x y -> adjacent R (l ++ [x; y]).
Proof.
  induction l as [|a l IH]; cbn [app adjacent]; [auto|]. destruct l as [|b l]; cbn [app] in *.
  - intros [H1 _] H2. cbn. auto.
  - intros [H1 H3] H2. split; [assumption|]. now apply IH.
Qed.

Lemma walk_spec lookup n : lawful lookup -> forall before subject chain, adjacent signed_by (before ++ [subject]) -> (before <> [] -> issuer_is_self subject = false) ->
  walk lookup n subject (before ++ [subject]) = Some (inr chain) ->
  exists rest root, chain = before ++ subject :: rest /\ adjacent signed_by chain /\ last chain = Some root /\ issuer_is_self root = true /\ (length rest <= n)%nat /\
    (before = [] -> rest = [] -> verify_certificate_signature subject None = Some true).
Proof.
  intros Hlaw. induction n as [|n IH]; intros before subject chain Hadj Hb; cbn [walk]; [discriminate|]. destruct (issuer_is_self subject) eqn:Es.
  - destruct (verify_certificate_signature subject None) as [[|]|] eqn:Ev; try discriminate. intros [= <-]. exists [], subject. split_all; auto; [apply last_snoc|cbn; lia].
  - destruct (issuer_digest subject) as [d|] eqn:Ed; [|discriminate]. destruct (lookup d) as [i|] eqn:Ei; [|discriminate].
    destruct (verify_certificate_signature subject (Some i)) as [[|]|] eqn:Ev; try discriminate.
    assert (adjacent signed_by ((before ++ [subject]) ++ [i])) as Hadj'.
    { rewrite <- app_assoc. apply adjacent_snoc; [assumption|]. apply Hlaw in Ei. split; [congruence|]. split; [eauto|assumption]. }
    destruct (issuer_is_self i) eqn:Esi.
    + intros [= <-]. exists [i], i. rewrite <- app_assoc in *. cbn [app] in *. split_all; auto.
      * change (before ++ [subject; i]) with (before ++ [subject] ++ [i]). rewrite app_assoc. apply last_snoc.
      * cbn. lia.
      * discriminate.
    + intros E. apply IH in E as (rest & root & -> & H1 & H2 & H3 & H4 & _); [|assumption|auto]. exists (i :: rest), root. rewrite <- app_assoc in *. cbn [app] in *.
      split_all; auto; [cbn; lia|discriminate].
Qed.

Lemma chain_valid_spec base lookup capacity permissive c aid verified r verified' : lawful lookup -> Verified_ok verified ->
  chain_valid_for_signing base lookup capacity permissive c aid verified = Some (r, verified') ->
  Verified_ok verified' /\ ((size verified <= Nat.max 1 capacity)%nat -> (size verified' <= Nat.max 1 capacity)%nat) /\
  (r = Valid -> valid_for_signing base c aid = Valid /\ exists c', calculate_digest c' = calculate_digest c /\ is_Some (calculate_digest c) /\ vouched c').
Proof.
  intros Hlaw Hok. unfold chain_valid_for_signing. destruct (bool_decide (valid_for_signing base c aid = Valid)) eqn:Eb; cbn [negb].
  2: { apply bool_decide_eq_false in Eb. intros [= <- <-]. split_all; auto. intros E. contradiction. }
  apply bool_decide_eq_true in Eb. destruct (calculate_digest c) as [d|] eqn:Ed; [|intros [= <- <-]; split_all; auto; discriminate].
  destruct (bool_decide (d ∈ verified)) eqn:Em.
  { apply bool_decide_eq_true in Em. intros [= <- <-]. split_all; auto. intros _. split; [assumption|]. destruct (Hok d Em) as (c' & H1 & H2). exists c'. split_all; eauto. }
  destruct (walk lookup 4 c [c]) as [[v|chain]|] eqn:Ew; [| |discriminate].
  { intros [= <- <-]. split_all; auto. intros ->. exfalso. clear - Ew. revert Ew. generalize [c]. generalize 4%nat as n. intros n. revert c. induction n as [|n IH]; intros c l; cbn [walk]; [discriminate|].
    destruct (issuer_is_self c); [destruct (verify_certificate_signature c None) as [[|]|]; discriminate|].
    destruct (issuer_digest c) as [d|]; [|discriminate]. destruct (lookup d) as [i|]; [|discriminate]. destruct (verify_certificate_signature c (Some i)) as [[|]|]; try discriminate.
    destruct (issuer_is_self i); [discriminate|]. apply IH. }
  apply (walk_spec lookup 4 Hlaw [] c chain I) in Ew as (rest & root & -> & H1 & H2 & H3 & H4 & H5); [|congruence]. cbn [app] in *.
  destruct ((1 <? length (c :: rest))%nat && negb (chain_consistent _)) eqn:Ec; [intros [= <- <-]; split_all; auto; discriminate|].
  destruct (regions_within permissive _) eqn:Er; cbn [negb]; [|intros [= <- <-]; split_all; auto; discriminate]. intros [= <- <-].
  assert (vouched c) as Hv.
  { exists rest, root, permissive. split_all; auto. intros Hne. apply andb_false_iff in Ec as [Ec|Ec]; [|now apply negb_false_iff in Ec].
    apply Nat.ltb_ge in Ec. destruct rest; [contradiction|cbn in Ec; lia]. }
  split; [|split].
  - intros e He. apply elem_of_union in He as [He|He]; [apply elem_of_singleton in He as ->; eauto|]. destruct (capacity <=? size verified)%nat; [now apply elem_of_empty in He|auto].
  - intros Hsz. destruct (Nat.leb_spec capacity (size verified)) as [Hc|Hc].
    + rewrite union_empty_r_L, size_singleton. lia.
    + rewrite size_union_alt. pose proof (size_singleton (C := gset HashedId8) d). assert (size (verified ∖ {[d]}) <= size verified)%nat by (apply subseteq_size; apply subseteq_difference_l; reflexivity). lia.
  - intros _. split; [assumption|]. exists c. split_all; eauto.
Qed.

(** C9.  ChainValidator vouches for a ticket only when the upstream validator
    does and its signature chain was verified: each certificate up to a
    self-signed one signed by the key of the next, permissions and regions
    consistent; a remembered ticket stands for one of the same digest that was
    verified so.  It remembers only such tickets, and no more than its
    capacity. *)
Theorem chain_validator_sound base lookup capacity permissive c aid verified r verified' : lawful lookup -> Verified_ok verified ->
  chain_valid_for_signing base lookup capacity permissive c aid verified = Some (r, verified') ->
  Verified_ok verified' /\ ((size verified <= Nat.max 1 capacity)%nat -> (size verified' <= Nat.max 1 capacity)%nat) /\
  (r = Valid -> valid_for_signing base c aid = Valid /\ exists c', calculate_digest c' = calculate_digest c /\ is_Some (calculate_digest c) /\ vouched c').
Proof. apply chain_valid_spec. Qed.
End Validator.
