(* ===== verification/SecurityEntity.v ===== *)
(** The security entity: check_profile() and SecurityEntity of
    ports/esp_idf/src/security.cpp, and StraightSignService of
    vanetza/security/v3/sign_service.cpp.

    The clock, the position, the pool, the trust configuration and whether an
    identifier change is pending are arguments where the code asks the objects
    it refers to.  Logging and its counter are left out. *)

From S2P Require Import Prelude Runtime Permissions Regions Certificate SecuredMessage TrustStore CertificatePool PeerRequests SignHeader Validator.
From stdpp Require Import list gmap.

Open Scope Z_scope.

(** * Reports *)

Inductive VerificationReport :=
| Success | False_Signature | Invalid_Certificate | Revoked_Certificate | Inconsistent_Chain | Invalid_Timestamp | Duplicate_Message | Invalid_Mobility_Data
| Unsigned_Message | Signer_Certificate_Not_Found | Unsupported_Signer_Identifier_Type | Incompatible_Protocol | Configuration_Problem.
#[export] Instance VerificationReport_eq_dec : EqDecision VerificationReport.
Proof. solve_decision. Defined.

Inductive CertificateInvalidReason :=
| Broken_Time_Period | Off_Time_Period | Unknown_Signer | Missing_Signature | Missing_Public_Key | Invalid_Signer | Invalid_Name
| Excessive_Chain_Length | Off_Region | Inconsistent_With_Signer | Insufficient_ITS_AID | Missing_Subject_Assurance.

Record VerifyConfirm := mk_VerifyConfirm {
  vc_report : VerificationReport; vc_its_aid : Z; vc_permissions : list Z; vc_validity : option CertificateInvalidReason; vc_certificate_id : option HashedId8 }.
Record DecapConfirm := mk_DecapConfirm {
  dc_report : VerificationReport; dc_its_aid : Z; dc_permissions : list Z; dc_validity : option CertificateInvalidReason; dc_certificate_id : option HashedId8;
  plaintext_payload : list Z }.
(** DecapConfirm::from. *)
Definition DecapConfirm_from (v : VerifyConfirm) (payload : list Z) : DecapConfirm :=
  mk_DecapConfirm (vc_report v) (vc_its_aid v) (vc_permissions v) (vc_validity v) (vc_certificate_id v) payload.

Inductive SignConfirmError := Unspecified | No_Certificate | No_Service.
(** A secured message or an error. *)
Abbreviation EncapConfirm := (SecuredMessage + SignConfirmError)%type.

Inductive Counter :=
| signed_messages | refused_no_ticket | refused_change_pending | refused_permission | failed
| verified_count | rejected_profile | rejected_signer | rejected_certificate | rejected_signature | rejected_time | replayed | learned_authorities_count.
#[export] Instance Counter_eq_dec : EqDecision Counter.
Proof. solve_decision. Defined.

(** * State *)

(** The tolerances in seconds. *)
Record VerificationPolicy := mk_VerificationPolicy {
  generation_time_future_tolerance : Z; generation_time_max_age : Z; replay_window : nat; verified_chain_cache : nat;
  certificate_cache_limit : nat; learned_authority_limit : nat; permissive_identified_region : bool }.
Definition default_verification : VerificationPolicy := mk_VerificationPolicy 3 300 256 64 32 8 true.

(** [events] are those of log_security_event(). *)
Record SecurityEntity := mk_Entity {
  policy : HeaderPolicy;
  learned : list Certificate;
  verified_ : gset HashedId8;
  capacity : nat;
  cache : CertificateCache;
  accepted_ : list (HashedId8 * Z);
  stats : Counter -> Z;
  verification : VerificationPolicy;
  events : list (list Z);
  event_capacity : nat }.

Definition Entity_create : SecurityEntity :=
  mk_Entity Policy_create [] ∅ 64 Cache_empty [] (fun _ => 0) default_verification [] 16.

Definition set_policy v e := mk_Entity v (learned e) (verified_ e) (capacity e) (cache e) (accepted_ e) (stats e) (verification e) (events e) (event_capacity e).
Definition set_learned v e := mk_Entity (policy e) v (verified_ e) (capacity e) (cache e) (accepted_ e) (stats e) (verification e) (events e) (event_capacity e).
Definition set_verified v e := mk_Entity (policy e) (learned e) v (capacity e) (cache e) (accepted_ e) (stats e) (verification e) (events e) (event_capacity e).
Definition set_cache v e := mk_Entity (policy e) (learned e) (verified_ e) (capacity e) v (accepted_ e) (stats e) (verification e) (events e) (event_capacity e).
Definition set_accepted v e := mk_Entity (policy e) (learned e) (verified_ e) (capacity e) (cache e) v (stats e) (verification e) (events e) (event_capacity e).
Definition set_events v n e := mk_Entity (policy e) (learned e) (verified_ e) (capacity e) (cache e) (accepted_ e) (stats e) (verification e) v n.
Definition count (c : Counter) e :=
  mk_Entity (policy e) (learned e) (verified_ e) (capacity e) (cache e) (accepted_ e) (fun d => if decide (d = c) then stats e d + 1 else stats e d) (verification e) (events e) (event_capacity e).

Definition set_verification_policy (v : VerificationPolicy) e :=
  mk_Entity (policy e) (learned e) (verified_ e) (Nat.max 1 (verified_chain_cache v)) (cache e) (accepted_ e) (stats e) v (events e) (event_capacity e).

(** while (size >= n) pop_front(). *)
Definition shrink_below {A} (n : nat) (l : list A) : list A := drop (length l - Nat.pred n) l.

Definition log_security_event (event : list Z) e := set_events (shrink_below (event_capacity e) (events e) ++ [event]) (event_capacity e) e.
Definition drain_security_events e : list (list Z) * SecurityEntity := (events e, set_events [] (event_capacity e) e).
Definition set_security_event_capacity (n : nat) e := let n := Nat.max 1 n in set_events (drop (length (events e) - n) (events e)) n e.

(** What the entity refers to, at a call. *)
Record Surroundings := mk_Surroundings {
  now : Z; position : Position; own_location : ThreeDLocation; trust : TrustConfiguration; pool : CertificatePool; change_pending : bool }.

(** * Profiles *)

Definition present {A} (o : option A) : bool := match o with Some _ => true | None => false end.

Definition check_profile (msg : SecuredMessage) : VerificationReport :=
  if negb (protocolVersion msg =? 3) then Incompatible_Protocol
  else match content msg with
  | signedData (Some (mk_SignedData hid (Some tbs) sgn sig)) =>
      let header := headerInfo tbs in
      match tbs_payload tbs with
      | None => Incompatible_Protocol
      | Some payload =>
          if match payload_data payload with Some d => negb (inner_version d =? 3) | None => false end then Incompatible_Protocol
          else if negb (present (payload_data payload)) && negb (present (extDataHash payload)) then Incompatible_Protocol
          else
            let sha384 := hid =? 1 in
            if match sig with
               | Some (ecdsaNistP256Signature _ _) | Some (ecdsaBrainpoolP256r1Signature _ _) => sha384
               | Some (ecdsaBrainpoolP384r1Signature _ _) => negb sha384
               | _ => true
               end then Incompatible_Protocol
            else if negb (present (generationTime header)) then Invalid_Timestamp
            else if present (p2pcdLearningRequest header) || present (missingCrlIdentifier header) then Incompatible_Protocol
            else match sgn with
            | Signer_digest _ | Signer_certificate _ =>
                let aid := its_aid msg in
                if aid =? aid_CA then
                  if present (expiryTime header) || present (generationLocation header) || present (hi_encryptionKey header) then Incompatible_Protocol else Success
                else if aid =? aid_DEN then
                  if negb (present (generationLocation header)) || present (expiryTime header) || present (hi_encryptionKey header) then Incompatible_Protocol
                  else match sgn with Signer_certificate _ => Success | _ => Incompatible_Protocol end
                else Success
            | _ => Unsupported_Signer_Identifier_Type
            end
      end
  | signedData _ => Incompatible_Protocol
  | _ => Unsigned_Message
  end.

Section Entity.
Context {C : CertificateCodec} {B : Backend} {G : RegionGeometry} {T : Target} {A : Allocator} {E : MessageCodec}.

(** * Verification *)

(** The lookup of issuers() and of [validator]. *)
Definition lookup_of (w : Surroundings) e : HashedId8 -> option Certificate :=
  find_combined (fun d => find_issuer d (issuers (trust w))) (learned e).
Definition validator_of (w : Surroundings) e : DefaultCertificateValidator :=
  complete_validator (now w) (position w) (lookup_of w e) (location_checker (permissive_identified_region (verification e)))
    (fun iss cert => is_revoked iss cert (revocations (trust w))) (fun d => TrustStore_lookup d (roots (trust w))) true.

Definition learn_authority (w : Surroundings) (candidate : Certificate) e : option SecurityEntity :=
  if negb (is_ca_certificate candidate) || issuer_is_self candidate then Some e
  else match calculate_digest candidate with
       | None => Some e
       | Some d =>
           match lookup_of w e d with
           | Some _ => Some e
           | None =>
               match match issuer_digest candidate with Some i => lookup_of w e i | None => None end with
               | None => Some e
               | Some issuer_cert =>
                   match verify_certificate_signature candidate (Some issuer_cert) with
                   | None => None
                   | Some false => Some e
                   | Some true =>
                       Some (count learned_authorities_count
                         (set_learned (shrink_below (Nat.max 1 (learned_authority_limit (verification e))) (learned e) ++ [candidate]) e))
                   end
               end
           end
       end.

(** The distribution of certificates among peers, from the header of a CAM. *)
Definition peer_distribution (header : HeaderInfo) (p : HeaderPolicy) : HeaderPolicy :=
  let p := fold_left (fun p id => enqueue_p2p_request (take 3 id) p) (default [] (inlineP2pcdRequest header)) p in
  match requestedCertificate header with
  | Some cert => match calculate_digest cert with Some included => discard_p2p_request (truncate included) p | None => p end
  | None => p
  end.

Definition reason_of (v : Verdict) : VerificationReport * option CertificateInvalidReason :=
  match v with
  | Revoked => (Revoked_Certificate, None)
  | Expired => (Invalid_Certificate, Some Off_Time_Period)
  | Untrusted => (Invalid_Certificate, Some Unknown_Signer)
  | InconsistentChain => (Inconsistent_Chain, Some Inconsistent_With_Signer)
  | OutsideRegion => (Invalid_Certificate, Some Off_Region)
  | InsufficientPermission => (Invalid_Certificate, Some Insufficient_ITS_AID)
  | _ => (Invalid_Certificate, None)
  end.

(** The first part of verify_signed(): who signed, and what the header of the
    message asks of this station. *)
Definition note_signer (msg : SecuredMessage) (maybe_digest : option HashedId8) e : SecurityEntity :=
  let aid := its_aid msg in
  let e :=
    match maybe_digest with
    | Some d =>
        let '(was_unknown, c) := announce d (cache e) in
        let e := set_cache c e in
        if was_unknown && (aid =? aid_CA) then set_policy (request_certificate (policy e)) e else e
    | None => e
    end in
  if aid =? aid_CA then
    match header_of msg with Some header => set_policy (peer_distribution header (policy e)) e | None => e end
  else e.

Definition signing_certificate (msg : SecuredMessage) (maybe_digest : option HashedId8) e : option Certificate :=
  match signer_identifier msg with
  | By_certificate cert => Some cert
  | By_digest _ => match maybe_digest with Some d => Cache_lookup d (cache e) | None => None end
  end.

(** The check of the signature and what is kept of the signer. *)
Definition check_signature (msg : SecuredMessage) (maybe_digest : option HashedId8) (sig : Signature) (cert : Certificate) e : option VerifyConfirm * SecurityEntity :=
  let aid := its_aid msg in
  match get_public_key cert with
  | None => (Some (mk_VerifyConfirm Invalid_Certificate aid [] (Some Missing_Public_Key) None), e)
  | Some public_key =>
      match match signing_payload msg with Some payload => calculate_message_hash (hash_id msg) payload cert | None => None end with
      | None => (None, e)
      | Some digest =>
          match verify_digest public_key digest sig with
          | None => (None, e)
          | Some false => (Some (mk_VerifyConfirm False_Signature aid [] None None), e)
          | Some true =>
              let certificate_id := match maybe_digest with Some d => Some d | None => calculate_digest cert end in
              let confirm := mk_VerifyConfirm Success aid (get_app_permissions cert aid) None certificate_id in
              match certificate_id with
              | Some id =>
                  if contains_certificate (signer_identifier msg) && negb (present (Cache_lookup id (cache e))) then
                    let e := if aid =? aid_CA then set_policy (request_certificate (policy e)) e else e in
                    (Some confirm, set_cache (Cache_store cert (cache e)) e)
                  else (Some confirm, e)
              | None => (Some confirm, e)
              end
          end
      end
  end.

(** No confirm when something throws. *)
Definition verify_signed (w : Surroundings) (msg : SecuredMessage) e : option VerifyConfirm * SecurityEntity :=
  let aid := its_aid msg in
  match message_signature msg with
  | None => (Some (mk_VerifyConfirm Unsigned_Message aid [] None None), e)
  | Some sig =>
      let maybe_digest := get_certificate_id (signer_identifier msg) in
      let e := note_signer msg maybe_digest e in
      match signing_certificate msg maybe_digest e with
      | None =>
          let e := match maybe_digest with
                   | Some d => if aid =? aid_CA then set_policy (request_unrecognized_certificate d (policy e)) e else e
                   | None => e
                   end in
          (Some (mk_VerifyConfirm Signer_Certificate_Not_Found aid [] None None), e)
      | Some cert =>
          match chain_valid_for_signing (validator_of w e) (lookup_of w e) (capacity e) (permissive_identified_region (verification e)) cert aid (verified_ e) with
          | None => (None, e)
          | Some (verdict, v) =>
              let e := set_verified v e in
              if negb (bool_decide (verdict = Valid)) then
                let e := match issuer_digest cert with
                         | Some aa => if negb (present (lookup_of w e aa)) && negb (Cache_is_known aa (cache e))
                                      then set_policy (request_unrecognized_certificate aa (policy e)) e else e
                         | None => e
                         end in
                let '(report, validity) := reason_of verdict in
                (Some (mk_VerifyConfirm report aid [] validity None), e)
              else check_signature msg maybe_digest sig cert e
          end
      end
  end.

(** generationTime and the replay window. *)
Definition check_freshness (w : Surroundings) (msg : SecuredMessage) (confirm : VerifyConfirm) e : VerifyConfirm * SecurityEntity :=
  let with_report r := mk_VerifyConfirm r (vc_its_aid confirm) (vc_permissions confirm) (vc_validity confirm) (vc_certificate_id confirm) in
  let now := convert_time64 (now w) in
  let future := u64 (generation_time_future_tolerance (verification e) * second) in
  let age := u64 (generation_time_max_age (verification e) * second) in
  match generation_time msg with
  | None => (with_report Invalid_Timestamp, count rejected_time e)
  | Some generation =>
      if (u64 (now + future) <? generation) || (u64 (generation + age) <? now) then (with_report Invalid_Timestamp, count rejected_time e)
      else match replay_window (verification e), vc_certificate_id confirm with
           | O, _ | _, None => (confirm, e)
           | n, Some id =>
               if bool_decide ((id, generation) ∈ accepted_ e) then (with_report Duplicate_Message, count replayed e)
               else (confirm, set_accepted (shrink_below n (accepted_ e) ++ [(id, generation)]) e)
           end
  end.

Definition count_report (r : VerificationReport) e : SecurityEntity :=
  match r with
  | Success => count verified_count e
  | Invalid_Timestamp | Duplicate_Message => e
  | Signer_Certificate_Not_Found | Unsupported_Signer_Identifier_Type => count rejected_signer e
  | False_Signature => count rejected_signature e
  | _ => count rejected_certificate e
  end.

Definition verify (w : Surroundings) (msg : SecuredMessage) e : option DecapConfirm * SecurityEntity :=
  match check_profile msg with
  | Success =>
      match match match header_of msg with Some h => requestedCertificate h | None => None end with
            | Some candidate => learn_authority w candidate e
            | None => Some e
            end with
      | None => (None, e)
      | Some e =>
          match verify_signed w msg e with
          | (None, e) => (None, e)
          | (Some confirm, e) =>
              let '(confirm, e) := if bool_decide (vc_report confirm = Success) then check_freshness w msg confirm e else (confirm, e) in
              let e := count_report (vc_report confirm) e in
              let e := if (certificate_cache_limit (verification e) <? Cache_size (cache e))%nat then set_cache Cache_empty e else e in
              (Some (DecapConfirm_from confirm (get_payload msg)), e)
          end
      end
  | profile => (Some (mk_DecapConfirm profile (its_aid msg) [] None None (get_payload msg)), count rejected_profile e)
  end.

(** decapsulate_packet() for messages of version 3, with verification; what
    verify() did before it throws stays. *)
Definition decapsulate_packet (w : Surroundings) (msg : SecuredMessage) e : DecapConfirm * SecurityEntity :=
  match verify w msg e with
  | (Some confirm, e) => (confirm, e)
  | (None, e) => (mk_DecapConfirm Incompatible_Protocol (its_aid msg) [] None None [], count failed e)
  end.

(** * Signing *)

(** StraightSignService::sign. *)
Definition sign (w : Surroundings) (request : SignRequest) e : Outcome EncapConfirm * SecurityEntity :=
  match own_certificate (pool w), own_private_key (pool w) with
  | Some signing_cert, Some key =>
      let hash_algo := specified_hash_algorithm (get_verification_key_type signing_cert) in
      let secured_message := set_payload (plain_message request) (set_hash_id hash_algo with_signed_data) in
      match prepare_header request (now w) (own_location w) (pool w) (trust w) (policy e) secured_message with
      | Throws => (Throws, e)
      | Undefined => (Undefined, e)
      | Returns (p, secured_message) =>
          let e := set_policy p e in
          if negb (bool_decide (valid_for_signing (validator_of w e) signing_cert (req_its_aid request) = Valid)) then (Returns (inr No_Certificate), e)
          else match signing_payload secured_message with
               | None => (Throws, e)
               | Some payload =>
                   match calculate_message_hash hash_algo payload signing_cert with
                   | None => (Throws, e)
                   | Some digest =>
                       match sign_digest key digest with
                       | None => (Throws, e)
                       | Some sig => (Returns (inl (set_signature sig secured_message)), e)
                       end
                   end
               end
      end
  | _, _ => (Throws, e)
  end.

Definition encapsulate_packet (w : Surroundings) (request : SignRequest) e : Outcome EncapConfirm * SecurityEntity :=
  match tickets (pool w) with
  | [] => (Returns (inr No_Certificate), count refused_no_ticket e)
  | _ =>
      if change_pending w then (Returns (inr No_Certificate), count refused_change_pending e)
      else match sign w request e with
           | (Returns (inl m), e) => (Returns (inl m), count signed_messages e)
           | (Returns (inr error), e) => (Returns (inr error), count refused_permission e)
           | (Throws, e) => (Returns (inr Unspecified), count failed e)
           | (Undefined, e) => (Undefined, e)
           end
  end.
End Entity.
