(* ===== verification/SecurityTheorems.v ===== *)
(** What the security entity guarantees: which messages are reported as
    verified, that none is accepted twice within the replay window, and that a
    message signed by one station is accepted by another. *)

From S2P Require Import Prelude Runtime Integer Permissions Regions Certificate SecuredMessage TrustStore CertificatePool PeerRequests SignHeader Validator SecurityEntity.
From stdpp Require Import list gmap.

Open Scope Z_scope.

Section Security.
Context {C : CertificateCodec} {B : Backend} {G : RegionGeometry} {T : Target} {A : Allocator} {E : MessageCodec}.

(** * The invariant *)

Definition learned_ok (c : Certificate) : Prop :=
  is_ca_certificate c = true /\ issuer_is_self c = false /\ is_Some (calculate_digest c) /\ exists issuer_cert, signed_by c issuer_cert.

Record Entity_ok (e : SecurityEntity) : Prop := {
  eo_verified : Verified_ok (verified_ e);
  eo_learned : Forall learned_ok (learned e);
  eo_cache : forall d c, Cache_lookup d (cache e) = Some c -> calculate_digest c = Some d }.

Lemma Entity_ok_create : Entity_ok Entity_create.
Proof. split; cbn; [intros d H; now apply elem_of_empty in H|constructor|]. intros d c. unfold Cache_lookup. cbn. now rewrite lookup_empty. Qed.

(** Steps that leave what the invariant is about alone. *)
Lemma Entity_ok_same e e' : Entity_ok e -> verified_ e' = verified_ e -> learned e' = learned e -> storage (cache e') = storage (cache e) -> Entity_ok e'.
Proof. intros [H1 H2 H3] E1 E2 E3. split; unfold Cache_lookup; rewrite ?E1, ?E2, ?E3; auto. Qed.

Definition lawful_trust (w : Surroundings) : Prop := lawful (fun d => find_issuer d (issuers (trust w))).

Lemma lookup_of_lawful w e : lawful_trust w -> lawful (lookup_of w e).
Proof.
  intros Hw d c. unfold lookup_of, find_combined. destruct (find_issuer d _) as [c'|] eqn:Ef; [intros [= <-]; now apply Hw|].
  intros H. apply find_some in H as [_ H]. now apply bool_decide_eq_true in H.
Qed.

Lemma shrink_below_In {X} n (l : list X) : forall x, x ∈ shrink_below n l -> x ∈ l.
Proof. intros x H. unfold shrink_below in H. rewrite <- (take_drop (length l - Nat.pred n) l). apply elem_of_app. now right. Qed.

Lemma shrink_below_length {X} n (l : list X) : (0 < n)%nat -> (length (shrink_below n l) <= n - 1)%nat.
Proof. intros H. unfold shrink_below. rewrite length_drop. lia. Qed.

Lemma learn_authority_ok w c e e' : lawful_trust w -> Entity_ok e -> learn_authority w c e = Some e' ->
  Entity_ok e' /\ accepted_ e' = accepted_ e /\ cache e' = cache e /\ verification e' = verification e /\ capacity e' = capacity e /\ verified_ e' = verified_ e.
Proof.
  intros Hw He. unfold learn_authority. destruct (is_ca_certificate c) eqn:Eca; cbn [negb orb]; [|intros [= <-]; split_all; auto].
  destruct (issuer_is_self c) eqn:Es; [intros [= <-]; split_all; auto|]. destruct (calculate_digest c) as [d|] eqn:Ed; [|intros [= <-]; split_all; auto].
  destruct (lookup_of w e d); [intros [= <-]; split_all; auto|]. destruct (issuer_digest c) as [i|] eqn:Ei; [|intros [= <-]; split_all; auto].
  destruct (lookup_of w e i) as [ic|] eqn:El; [|intros [= <-]; split_all; auto]. destruct (verify_certificate_signature c (Some ic)) as [[|]|] eqn:Ev; [| |discriminate]; intros [= <-]; [|split_all; auto].
  split; [|split_all; reflexivity]. destruct He as [H1 H2 H3]. split; cbn; auto. apply Forall_app. split.
  - apply Forall_forall. intros x Hx%shrink_below_In. rewrite Forall_forall in H2. auto.
  - constructor; [|constructor]. apply lookup_of_lawful in El; [|assumption]. split; [assumption|]. split; [assumption|]. split; [eauto|]. exists ic. split; [congruence|]. split; [eauto|assumption].
Qed.

Lemma note_signer_same msg md e : let e' := note_signer msg md e in
  verified_ e' = verified_ e /\ learned e' = learned e /\ storage (cache e') = storage (cache e) /\ accepted_ e' = accepted_ e /\ verification e' = verification e /\ capacity e' = capacity e.
Proof.
  unfold note_signer. destruct md as [d|]; cbn; destruct (its_aid msg =? aid_CA); rewrite ?andb_true_r, ?andb_false_r; repeat (destruct (bool_decide _); cbn); destruct (header_of msg); split_all; reflexivity.
Qed.

(** What a successful verification of the signature stands on. *)
Definition Signed_ok (w : Surroundings) (msg : SecuredMessage) (e : SecurityEntity) (certificate_id : option HashedId8) : Prop :=
  exists cert sig public_key payload digest learned0,
    match signer_identifier msg with By_certificate c => cert = c | By_digest d => exists h, d = Some h /\ calculate_digest cert = Some (take 8 h) end /\
    valid_for_signing (complete_validator (now w) (position w) (find_combined (fun d => find_issuer d (issuers (trust w))) learned0)
       (location_checker (permissive_identified_region (verification e))) (fun iss cert => is_revoked iss cert (revocations (trust w)))
       (fun d => TrustStore_lookup d (roots (trust w))) true) cert (its_aid msg) = Valid /\
    Forall learned_ok learned0 /\
    (exists c', calculate_digest c' = calculate_digest cert /\ vouched c') /\
    certificate_id = calculate_digest cert /\ is_Some certificate_id /\
    message_signature msg = Some sig /\ get_public_key cert = Some public_key /\ signing_payload msg = Some payload /\
    calculate_message_hash (hash_id msg) payload cert = Some digest /\ verify_digest public_key digest sig = Some true.

Lemma Cache_store_ok cert c : (forall d x, Cache_lookup d c = Some x -> calculate_digest x = Some d) -> forall d x, Cache_lookup d (Cache_store cert c) = Some x -> calculate_digest x = Some d.
Proof.
  intros H d x. unfold Cache_store. destruct (calculate_digest cert) as [d0|] eqn:Ed; [|apply H]. destruct (storage c !! d0); [apply H|].
  unfold Cache_lookup. cbn. intros [[<- <-]|[_ Hx]]%lookup_insert_Some; [assumption|]. now apply H.
Qed.

Lemma signing_certificate_spec msg e cert : (forall d c, Cache_lookup d (cache e) = Some c -> calculate_digest c = Some d) ->
  signing_certificate msg (get_certificate_id (signer_identifier msg)) e = Some cert ->
  get_certificate_id (signer_identifier msg) = calculate_digest cert /\
  match signer_identifier msg with By_certificate c => cert = c | By_digest d => exists h, d = Some h /\ calculate_digest cert = Some (take 8 h) end.
Proof.
  intros Hc. unfold signing_certificate. destruct (signer_identifier msg) as [[h|]|c]; cbn [get_certificate_id fmap option_fmap option_map]; [|discriminate|intros [= ->]; auto].
  intros H. apply Hc in H. split; [symmetry; exact H|]. exists h. auto.
Qed.

Lemma check_signature_ok msg md sig cert e confirm e' : Entity_ok e -> md = calculate_digest cert -> check_signature msg md sig cert e = (confirm, e') ->
  Entity_ok e' /\ accepted_ e' = accepted_ e /\ verification e' = verification e /\
  match confirm with
  | Some v => vc_report v = Success -> vc_certificate_id v = calculate_digest cert /\ exists public_key payload digest,
      get_public_key cert = Some public_key /\ signing_payload msg = Some payload /\
      calculate_message_hash (hash_id msg) payload cert = Some digest /\ verify_digest public_key digest sig = Some true
  | None => True
  end.
Proof.
  intros He ->. unfold check_signature. destruct (get_public_key cert) as [pk|] eqn:Epk; [|intros [= <- <-]; split_all; auto; discriminate].
  destruct (signing_payload msg) as [payload|] eqn:Ep; [|intros [= <- <-]; split_all; auto].
  destruct (calculate_message_hash (hash_id msg) payload cert) as [dig|] eqn:Eh; [|intros [= <- <-]; split_all; auto].
  destruct (verify_digest pk dig sig) as [[|]|] eqn:Evd; [|intros [= <- <-]; split_all; auto; discriminate|intros [= <- <-]; split_all; auto].
  assert (match calculate_digest cert with Some d => Some d | None => calculate_digest cert end = calculate_digest cert) as -> by now destruct (calculate_digest cert).
  assert (Entity_ok (set_cache (Cache_store cert (cache e)) e)) as Hstore by (destruct He; split; auto; cbn; now apply Cache_store_ok).
  assert (forall p, Entity_ok (set_cache (Cache_store cert (cache e)) (set_policy p e))) as Hstore' by (intros p; now apply (Entity_ok_same _ _ Hstore)).
  assert (exists public_key payload0 digest, Some pk = Some public_key /\ Some payload = Some payload0 /\
      calculate_message_hash (hash_id msg) payload0 cert = Some digest /\ verify_digest public_key digest sig = Some true) as Hex by (exists pk, payload, dig; auto).
  destruct (calculate_digest cert) as [id|] eqn:Ed; [destruct (_ && _); [destruct (its_aid msg =? aid_CA)|]|]; intros [= <- <-]; split_all; auto; try (intros _; split; auto); first [exact Hstore|apply Hstore'].
Qed.

Lemma verify_signed_ok w msg e confirm e' : Trust_ok (trust w) -> Entity_ok e -> verify_signed w msg e = (confirm, e') ->
  Entity_ok e' /\ accepted_ e' = accepted_ e /\ verification e' = verification e /\
  match confirm with Some v => vc_report v = Success -> Signed_ok w msg e (vc_certificate_id v) | None => True end.
Proof.
  intros Ht He. assert (lawful_trust w) as Hw by (intros d c H; now apply (issuers_ok _ Ht) in H as [H _]).
  unfold verify_signed. destruct (message_signature msg) as [sig|] eqn:Esig; [|intros [= <- <-]; split_all; auto; discriminate].
  set (md := get_certificate_id (signer_identifier msg)). pose proof (note_signer_same msg md e) as Hn. cbn zeta in Hn. destruct Hn as (N1 & N2 & N3 & N4 & N5 & N6).
  set (e1 := note_signer msg md e) in *. assert (Entity_ok e1) as He1 by now apply (Entity_ok_same e). clearbody e1.
  destruct (signing_certificate msg md e1) as [cert|] eqn:Ec.
  2: { intros [= <- <-]. assert (forall p, Entity_ok (set_policy p e1)) as Hp by (intros p; now apply (Entity_ok_same e1)).
       destruct md; [destruct (its_aid msg =? aid_CA)|]; split_all; auto; discriminate. }
  apply signing_certificate_spec in Ec as [Hid Hsigner]; [|apply He1].
  destruct (chain_valid_for_signing _ _ _ _ _ _ _) as [[verdict v]|] eqn:Ev; [|intros [= <- <-]; split_all; auto].
  apply chain_valid_spec in Ev as (V1 & V2 & V3); [|now apply lookup_of_lawful|apply He1]. set (e2 := set_verified v e1).
  assert (Entity_ok e2) as He2 by (destruct He1; split; auto). assert (accepted_ e2 = accepted_ e /\ verification e2 = verification e) as [A2 F2] by (split; [exact N4|exact N5]).
  destruct (bool_decide (verdict = Valid)) eqn:Eb; cbn [negb].
  2: { destruct (reason_of verdict) as [report validity] eqn:Er. intros [= <- <-].
       assert (forall p, Entity_ok (set_policy p e2)) as Hp by (intros p; now apply (Entity_ok_same e2)).
       assert (report <> Success) as Hr by (destruct verdict; cbn in Er; congruence).
       destruct (issuer_digest cert); [destruct (_ && _)|]; split_all; auto; contradiction. }
  apply bool_decide_eq_true in Eb. destruct (V3 Eb) as (W1 & c' & W2 & Wd & W3). intros Ecs.
  apply check_signature_ok in Ecs as (K1 & K2 & K3 & K4); [|assumption|exact Hid]. split; [assumption|]. split; [congruence|]. split; [congruence|].
  destruct confirm as [cf|]; [|exact I]. intros Hs. destruct (K4 Hs) as (Q1 & pk & payload & dig & Q2 & Q3 & Q4 & Q5).
  exists cert, sig, pk, payload, dig, (learned e1). rewrite Q1. split; [exact Hsigner|]. split; [|split; [apply He1|split; [exists c'; auto|split_all; auto]]].
  unfold validator_of, lookup_of in W1. now rewrite N5 in W1.
Qed.

(** The times a message is taken at. *)
Definition timely (w : Surroundings) (v : VerificationPolicy) (generation : Z) : Prop :=
  generation <= u64 (convert_time64 (now w) + u64 (generation_time_future_tolerance v * second)) /\
  convert_time64 (now w) <= u64 (generation + u64 (generation_time_max_age v * second)).

Lemma check_freshness_ok w msg v e v' e' : check_freshness w msg v e = (v', e') -> Entity_ok e ->
  Entity_ok e' /\ verification e' = verification e /\
  (vc_report v = Success -> is_Some (vc_certificate_id v) -> (0 < replay_window (verification e))%nat ->
   (vc_report v' = Success /\ exists id generation, vc_certificate_id v = Some id /\ generation_time msg = Some generation /\ timely w (verification e) generation /\
      ((id, generation) ∉ accepted_ e) /\ accepted_ e' = shrink_below (replay_window (verification e)) (accepted_ e) ++ [(id, generation)]) \/
   vc_report v' <> Success /\ accepted_ e' = accepted_ e) /\
  (vc_report v' = Success -> v' = v /\ exists generation, generation_time msg = Some generation /\ timely w (verification e) generation).
Proof.
  intros H He. unfold check_freshness in H. destruct (generation_time msg) as [g|] eqn:Eg.
  2: { injection H as <- <-. split; [now apply (Entity_ok_same e)|]. split; [reflexivity|]. split; [right; split; [discriminate|reflexivity]|discriminate]. }
  destruct (_ || _) eqn:Et.
  { injection H as <- <-. split; [now apply (Entity_ok_same e)|]. split; [reflexivity|]. split; [right; split; [discriminate|reflexivity]|discriminate]. }
  assert (timely w (verification e) g) as Hti by (apply orb_false_iff in Et as [H1%Z.ltb_ge H2%Z.ltb_ge]; split; assumption).
  destruct (replay_window (verification e)) as [|n] eqn:Ew.
  { injection H as <- <-. split_all; auto; [lia|]. intros Hs. split; [reflexivity|eauto]. }
  destruct (vc_certificate_id v) as [id|] eqn:Eid.
  2: { injection H as <- <-. split_all; auto; [intros _ [? ?]; discriminate|]. intros Hs. split; [reflexivity|eauto]. }
  destruct (bool_decide _) eqn:Eb; injection H as <- <-.
  - split; [now apply (Entity_ok_same e)|]. split; [reflexivity|]. split; [right; split; [discriminate|reflexivity]|discriminate].
  - apply bool_decide_eq_false in Eb. split; [now apply (Entity_ok_same e)|]. split; [reflexivity|]. split; [|intros Hs; split; [reflexivity|eauto]].
    intros Hs _ _. left. split; [assumption|]. exists id, g. auto.
Qed.

(** ** Decapsulation *)

(** A message reported as verified, with the key it is remembered by. *)
Definition Accepted_ok (w : Surroundings) (msg : SecuredMessage) (e : SecurityEntity) (confirm : DecapConfirm) : Prop :=
  check_profile msg = Success /\ plaintext_payload confirm = get_payload msg /\
  (exists e0, verification e0 = verification e /\ Signed_ok w msg e0 (dc_certificate_id confirm)) /\
  exists generation, generation_time msg = Some generation /\ timely w (verification e) generation.

Lemma count_report_same r e : let e' := count_report r e in
  verified_ e' = verified_ e /\ learned e' = learned e /\ cache e' = cache e /\ accepted_ e' = accepted_ e /\ verification e' = verification e.
Proof. cbn zeta. destruct r; split_all; reflexivity. Qed.

Lemma verify_ok w msg e confirm e' : Trust_ok (trust w) -> Entity_ok e -> verify w msg e = (confirm, e') ->
  Entity_ok e' /\ verification e' = verification e /\
  match confirm with
  | Some v =>
      (dc_report v = Success -> Accepted_ok w msg e v) /\
      ((0 < replay_window (verification e))%nat ->
       dc_report v = Success /\ (exists id generation, dc_certificate_id v = Some id /\ generation_time msg = Some generation /\ ((id, generation) ∉ accepted_ e) /\
          accepted_ e' = shrink_below (replay_window (verification e)) (accepted_ e) ++ [(id, generation)]) \/
       dc_report v <> Success /\ accepted_ e' = accepted_ e)
  | None => accepted_ e' = accepted_ e
  end.
Proof.
  intros Ht He. assert (lawful_trust w) as Hw by (intros d c H; now apply (issuers_ok _ Ht) in H as [H _]).
  unfold verify. destruct (check_profile msg) eqn:Ep; try (intros [= <- <-]; split; [now apply (Entity_ok_same e)|]; split; [reflexivity|]; split; [discriminate|]; intros _; right; split; [discriminate|reflexivity]).
  destruct (match match header_of msg with Some h => requestedCertificate h | None => None end with Some candidate => learn_authority w candidate e | None => Some e end) as [e1|] eqn:El.
  2: { intros [= <- <-]. auto. }
  assert (Entity_ok e1 /\ accepted_ e1 = accepted_ e /\ verification e1 = verification e) as (He1 & A1 & F1).
  { destruct (match header_of msg with Some h => requestedCertificate h | None => None end) as [cand|]; [|injection El as <-; auto].
    apply learn_authority_ok in El as (H1 & H2 & _ & H3 & _); auto. }
  clear El. destruct (verify_signed w msg e1) as [[v|] e2] eqn:Ev; apply verify_signed_ok in Ev as (He2 & A2 & F2 & Hs); auto.
  2: { intros [= <- <-]. split; [assumption|]. split; congruence. }
  destruct (if bool_decide (vc_report v = Success) then check_freshness w msg v e2 else (v, e2)) as [v' e3] eqn:Ef.
  assert (Entity_ok e3 /\ verification e3 = verification e /\
    (vc_report v' = Success -> vc_certificate_id v' = vc_certificate_id v /\ Signed_ok w msg e1 (vc_certificate_id v) /\ exists g, generation_time msg = Some g /\ timely w (verification e) g) /\
    ((0 < replay_window (verification e))%nat ->
       vc_report v' = Success /\ (exists id generation, vc_certificate_id v' = Some id /\ generation_time msg = Some generation /\ ((id, generation) ∉ accepted_ e) /\
          accepted_ e3 = shrink_below (replay_window (verification e)) (accepted_ e) ++ [(id, generation)]) \/
       vc_report v' <> Success /\ accepted_ e3 = accepted_ e)) as (He3 & F3 & S3 & R3).
  { destruct (bool_decide (vc_report v = Success)) eqn:Eb.
    - apply bool_decide_eq_true in Eb. destruct (check_freshness_ok w msg v e2 v' e3 Ef He2) as (K1 & K2 & K3 & K4). specialize (Hs Eb).
      assert (is_Some (vc_certificate_id v)) as Hid by (destruct Hs as (cert & sig & pk & pl & dg & l0 & _ & _ & _ & _ & _ & H & _); exact H).
      assert (verification e2 = verification e) as Fe by congruence. assert (accepted_ e2 = accepted_ e) as Ae by congruence. rewrite Fe, ?Ae in *.
      split; [assumption|]. split; [congruence|]. split.
      + intros Hs'. destruct (K4 Hs') as [-> Hg]. split; [reflexivity|]. split; [assumption|exact Hg].
      + intros Hwin. destruct (K3 Eb Hid Hwin) as [(H1 & id & g & H2 & H3 & _ & H4 & H5)|H]; [left|right; exact H].
        split; [assumption|]. exists id, g. destruct (K4 H1) as [-> _]. auto.
    - apply bool_decide_eq_false in Eb. injection Ef as <- <-. split; [assumption|]. split; [congruence|]. split; [contradiction|]. intros _. right. split; [assumption|congruence]. }
  pose proof (count_report_same (vc_report v') e3) as Hc. cbn zeta in Hc. set (e4 := count_report (vc_report v') e3) in *. clearbody e4. destruct Hc as (C1 & C2 & C3 & C4 & C5).
  set (e5 := if (certificate_cache_limit (verification e4) <? Cache_size (cache e4))%nat then set_cache Cache_empty e4 else e4).
  assert (Entity_ok e5 /\ accepted_ e5 = accepted_ e3 /\ verification e5 = verification e) as (He5 & A5 & F5).
  { assert (Entity_ok e4) as He4 by (apply (Entity_ok_same e3); auto; now rewrite C3). unfold e5. destruct (_ <? _)%nat.
    - split; [|split; [exact C4|cbn; congruence]]. destruct He4 as [H1 H2 H3]. split; auto. intros d c. unfold Cache_lookup. cbn. now rewrite lookup_empty.
    - split; [assumption|]. split; [assumption|congruence]. }
  clearbody e5. intros [= <- <-]. split; [assumption|]. split; [assumption|]. unfold DecapConfirm_from. cbn [dc_report dc_certificate_id]. split.
  - intros Hsuc. destruct (S3 Hsuc) as (H1 & H2 & H3). split; [exact Ep|]. split; [reflexivity|]. split; [exists e1; split; [assumption|]; cbn; now rewrite H1|exact H3].
  - intros Hwin. rewrite A5. exact (R3 Hwin).
Qed.

Lemma decapsulate_packet_ok w msg e confirm e' : Trust_ok (trust w) -> Entity_ok e -> decapsulate_packet w msg e = (confirm, e') ->
  Entity_ok e' /\ verification e' = verification e /\ (dc_report confirm = Success -> Accepted_ok w msg e confirm) /\
  ((0 < replay_window (verification e))%nat ->
       dc_report confirm = Success /\ (exists id generation, dc_certificate_id confirm = Some id /\ generation_time msg = Some generation /\ ((id, generation) ∉ accepted_ e) /\
          accepted_ e' = shrink_below (replay_window (verification e)) (accepted_ e) ++ [(id, generation)]) \/
       dc_report confirm <> Success /\ accepted_ e' = accepted_ e).
Proof.
  intros Ht He. unfold decapsulate_packet. destruct (verify w msg e) as [[v|] e1] eqn:Ev; apply verify_ok in Ev as (H1 & H2 & H3); auto; intros [= <- <-].
  - split; [assumption|]. split; [assumption|]. exact H3.
  - split; [now apply (Entity_ok_same e1)|]. split; [assumption|]. split; [discriminate|]. intros _. right. split; [discriminate|exact H3].
Qed.

(** C2.  What is accepted is authentic: a message reported as Success has an
    admissible profile, was signed by the key of a certificate that it carries
    or whose digest it names, which is valid for the application here and now
    and whose chain of signatures was verified up to a provisioned anchor, and
    its generation time lies within the tolerances; certificates learned from
    peers serve in chains only once their own signature was verified. *)
Theorem decapsulation_sound w msg e confirm e' : Trust_ok (trust w) -> Entity_ok e -> decapsulate_packet w msg e = (confirm, e') ->
  Entity_ok e' /\ (dc_report confirm = Success -> Accepted_ok w msg e confirm).
Proof. intros Ht He Ed. apply decapsulate_packet_ok in Ed as (H1 & _ & H2 & _); auto. Qed.

(** ** Replay *)

(** Packets one after the other, each in its surroundings, and the signers and
    times of those accepted, in order. *)
Fixpoint receive (packets : list (Surroundings * SecuredMessage)) (e : SecurityEntity) : SecurityEntity * list (option HashedId8 * option Z) :=
  match packets with
  | [] => (e, [])
  | (w, msg) :: packets =>
      let '(confirm, e) := decapsulate_packet w msg e in
      let '(e, more) := receive packets e in
      (e, if bool_decide (dc_report confirm = Success) then (dc_certificate_id confirm, generation_time msg) :: more else more)
  end.

Definition keys_of (l : list (HashedId8 * Z)) : list (option HashedId8 * option Z) := map (fun k => (Some k.1, Some k.2)) l.

(** The window holds the last accepted keys, and none of them again. *)
Definition windowed {X} (n : nat) (l : list X) : Prop := forall i j x, (i < j)%nat -> l !! i = Some x -> l !! j = Some x -> (n < j - i)%nat.

Lemma windowed_snoc {X} n (l : list X) x : windowed n l -> x ∉ drop (length l - n) l -> windowed n (l ++ [x]).
Proof.
  intros Hw Hx i j y Hij Hi Hj. apply lookup_app_Some in Hj as [Hj|[Hj1 Hj2]].
  - apply (Hw i j y Hij); [|assumption]. rewrite lookup_app_l in Hi; [assumption|]. apply lookup_lt_Some in Hj. lia.
  - assert (j = length l) as -> by (destruct (j - length l)%nat as [|k] eqn:Ek; [lia|destruct k; discriminate]). rewrite Nat.sub_diag in Hj2. injection Hj2 as ->.
    rewrite lookup_app_l in Hi by assumption. destruct (decide (n < length l - i)%nat) as [|Hn]; [assumption|]. exfalso. apply Hx.
    apply list_elem_of_lookup. exists (i - (length l - n))%nat. rewrite lookup_drop. replace (length l - n + (i - (length l - n)))%nat with i by lia. exact Hi.
Qed.

Lemma receive_windowed n packets : (0 < n)%nat -> forall e before, Forall (fun p => Trust_ok (trust p.1)) packets -> Entity_ok e -> replay_window (verification e) = n ->
  windowed n before -> accepted_ e = drop (length before - n) before ->
  exists after, (receive packets e).2 = keys_of after /\ windowed n (before ++ after) /\ Entity_ok (receive packets e).1.
Proof.
  intros Hn. induction packets as [|[w msg] packets IH]; intros e before Hp He Hr Hb Ha.
  - exists []. rewrite app_nil_r. auto.
  - inversion Hp as [|? ? Ht Hp']; subst. cbn [receive]. destruct (decapsulate_packet w msg e) as [confirm e1] eqn:Ed. apply decapsulate_packet_ok in Ed as (He1 & F1 & _ & Hwin); auto.
    destruct (Hwin Hn) as [(Hs & id & g & Hid & Hg & Hnot & Hacc)|[Hs Hacc]].
    + rewrite bool_decide_true by assumption. rewrite Ha in Hnot, Hacc. destruct (IH e1 (before ++ [(id, g)])) as (after & H1 & H2 & H3); auto.
      * now rewrite F1.
      * now apply windowed_snoc.
      * rewrite Hacc. unfold shrink_below. rewrite length_drop, length_app, drop_drop. cbn [length]. set (W := replay_window (verification e)) in *.
        rewrite drop_app_le by lia. f_equal. f_equal. lia.
      * destruct (receive packets e1) as [e2 more]. cbn [fst snd] in *. exists ((id, g) :: after). rewrite Hid, Hg, H1. split; [reflexivity|]. rewrite <- app_assoc in H2. auto.
    + rewrite bool_decide_false by assumption. destruct (IH e1 before) as (after & H1 & H2 & H3); auto; [now rewrite F1|congruence|].
      destruct (receive packets e1) as [e2 more]. cbn [fst snd] in *. exists after. auto.
Qed.

(** C6.  No replay within the window: of the messages accepted one after the
    other, two of the same signer and generation time are more than the replay
    window apart. *)
Theorem no_replay packets e : Forall (fun p => Trust_ok (trust p.1)) packets -> Entity_ok e -> accepted_ e = [] -> (0 < replay_window (verification e))%nat ->
  windowed (replay_window (verification e)) (receive packets e).2.
Proof.
  intros Hp He Ha Hn. destruct (receive_windowed (replay_window (verification e)) packets Hn e [] Hp He eq_refl) as (after & H1 & H2 & _); auto.
  - intros i j x _ H. now rewrite lookup_nil in H.
  - rewrite H1. intros i j x Hij Hi Hj. unfold keys_of in *. apply list_lookup_fmap_Some in Hi as ([a b] & -> & Hi). apply list_lookup_fmap_Some in Hj as ([a' b'] & Ej & Hj).
    cbn in Ej. injection Ej as <- <-. now apply (H2 i j (a, b)).
Qed.

(** ** What unverified messages leave behind *)

(** The digests a cache remembers grow with every message that names a new
    signer, whether or not it is verified; only stored certificates count for
    the limit. *)
Definition unverified (d : HashedId8) : SecuredMessage :=
  mk_SecuredMessage 3 (signedData (Some (mk_SignedData 0
    (Some (mk_tbsData (Some (mk_Payload (Some (mk_InnerData 3 (Some []))) None)) (mk_HeaderInfo 1000 (Some []) None None None None None None None)))
    (Signer_digest d) (Some dummy_signature)))).

Lemma unverified_step w d e : Cache_lookup (take 8 d) (cache e) = None -> (Cache_size (cache e) <= certificate_cache_limit (verification e))%nat ->
  let '(confirm, e') := decapsulate_packet w (unverified d) e in
  dc_report confirm = Signer_Certificate_Not_Found /\
  storage (cache e') = storage (cache e) /\ digests (cache e') = {[take 8 d]} ∪ digests (cache e) /\ verification e' = verification e.
Proof.
  intros Hc Hs. unfold decapsulate_packet, verify. change (check_profile (unverified d)) with Success. cbn [header_of get_signed_data unverified content tbsData fmap option_fmap option_map headerInfo requestedCertificate].
  unfold verify_signed. change (message_signature (unverified d)) with (signature_of_asn1 dummy_signature). cbn [signature_of_asn1 dummy_signature].
  change (get_certificate_id (signer_identifier (unverified d))) with (Some (take 8 d)).
  change (note_signer (unverified d) (Some (take 8 d)) e) with (if bool_decide (take 8 d ∉ digests (cache e)) && false
    then set_policy (request_certificate (policy e)) (set_cache (announce (take 8 d) (cache e)).2 e) else set_cache (announce (take 8 d) (cache e)).2 e).
  rewrite andb_false_r. change (signing_certificate (unverified d) (Some (take 8 d)) (set_cache (announce (take 8 d) (cache e)).2 e)) with (Cache_lookup (take 8 d) (cache e)). rewrite Hc.
  change (its_aid (unverified d)) with 1000. change (1000 =? aid_CA) with false. cbv iota. cbn [vc_report]. rewrite bool_decide_false by discriminate. cbn [count_report].
  change (cache (count rejected_signer (set_cache (announce (take 8 d) (cache e)).2 e))) with (announce (take 8 d) (cache e)).2.
  change (verification (count rejected_signer (set_cache (announce (take 8 d) (cache e)).2 e))) with (verification e).
  change (Cache_size (announce (take 8 d) (cache e)).2) with (Cache_size (cache e)). rewrite (proj2 (Nat.ltb_ge _ _)) by assumption. split_all; reflexivity.
Qed.

(** So [length ds] messages from nowhere make a station remember as many
    digests, with an empty cache. *)
Theorem digests_unbounded w ds : NoDup ds -> Forall (fun d => length d = 8%nat) ds ->
  let '(e, keys) := receive (map (fun d => (w, unverified d)) ds) Entity_create in
  keys = [] /\ Cache_size (cache e) = 0%nat /\ size (digests (cache e)) = length ds.
Proof.
  assert (forall e, storage (cache e) = ∅ -> NoDup ds -> Forall (fun d => length d = 8%nat) ds -> (forall d, d ∈ ds -> d ∉ digests (cache e)) ->
    let '(e', keys) := receive (map (fun d => (w, unverified d)) ds) e in
    keys = [] /\ storage (cache e') = ∅ /\ size (digests (cache e')) = (length ds + size (digests (cache e)))%nat) as H.
  { induction ds as [|d ds IH]; intros e He Hnd Hl Hnot; [cbn; auto|]. inversion Hnd as [|? ? Hd Hnd']; subst. inversion Hl as [|? ? Hd8 Hl']; subst. cbn [map receive].
    assert (take 8 d = d) as Ht by (rewrite <- Hd8; apply firstn_all).
    pose proof (unverified_step w d e) as Hstep. rewrite Ht in Hstep. destruct (decapsulate_packet w (unverified d) e) as [confirm e1].
    destruct Hstep as (H1 & H2 & H3 & H4); [unfold Cache_lookup; rewrite He; apply lookup_empty|unfold Cache_size; rewrite He, map_size_empty; lia|].
    specialize (IH e1 ltac:(congruence) Hnd' Hl'). destruct (receive (map (fun d => (w, unverified d)) ds) e1) as [e2 more]. rewrite H1, bool_decide_false by discriminate.
    destruct IH as (I1 & I2 & I3).
    { intros x Hx. rewrite H3. intros [Hy|Hy]%elem_of_union; [apply elem_of_singleton in Hy as ->; contradiction|]. apply (Hnot x); [now right|assumption]. }
    split_all; auto. rewrite I3, H3. rewrite size_union by (intros x Hx1 Hx2; apply elem_of_singleton in Hx1 as ->; apply (Hnot d); [now left|assumption]).
    rewrite size_singleton. cbn [length]. lia. }
  intros Hnd Hl. specialize (H Entity_create eq_refl Hnd Hl). cbn [cache Entity_create Cache_empty digests] in H. specialize (H ltac:(intros d _; apply not_elem_of_empty)).
  destruct (receive _ Entity_create) as [e keys]. destruct H as (H1 & H2 & H3). split_all; auto; [unfold Cache_size; rewrite H2; apply map_size_empty|].
  rewrite H3, size_empty. lia.
Qed.
End Security.
