(* ===== verification/SignedExchange.v ===== *)
(** From one station to another: what encapsulate_packet() signs,
    decapsulate_packet() accepts. *)

From S2P Require Import Prelude Runtime Integer Permissions Regions Certificate SecuredMessage TrustStore CertificatePool PeerRequests SignHeader Validator SecurityEntity SecurityTheorems.
From stdpp Require Import list gmap.

Open Scope Z_scope.

Section Exchange.
Context {C : CertificateCodec} {B : Backend} {G : RegionGeometry} {T : Target} {A : Allocator} {E : MessageCodec}.

(** * What is signed *)

(** A message of prepare_header(). *)
Definition message_of (plain : list Z) (hid aid : Z) (time : option (list Z)) (loc : option ThreeDLocation) (inl : option (list HashedId3)) (req : option Certificate)
    (sgn : SignerIdentifier) (sig : option Asn1Signature) : SecuredMessage :=
  mk_SecuredMessage 3 (signedData (Some (mk_SignedData hid
    (Some (mk_tbsData (Some (mk_Payload (Some (mk_InnerData 3 (Some plain))) None)) (mk_HeaderInfo aid time None loc None None None inl req))) sgn sig))).

(** The fields its profile allows, and a signer of the certificate [c]. *)
Definition profile_fields (aid : Z) (c : Certificate) (loc : option ThreeDLocation) (sgn : SignerIdentifier) : Prop :=
  (aid = aid_CA -> loc = None) /\ (aid = aid_DEN -> is_Some loc /\ sgn = Signer_certificate [c]) /\
  (sgn = Signer_certificate [c] \/ exists d, sgn = Signer_digest d /\ calculate_digest c = Some d).

Definition hash_code (h : HashAlgorithm) : Z := match h with SHA256 => 0 | SHA384 => 1 | Hash_Unspecified => -1 end.

Lemma answer_requests_shape fuel authorities t plain hid aid time loc inl req sgn : exists req',
  (answer_requests fuel authorities t (message_of plain hid aid time loc inl req sgn None)).2 = message_of plain hid aid time loc inl req' sgn None.
Proof.
  revert t. induction fuel as [|fuel IH]; intros t; [now exists req|]. cbn [answer_requests]. destruct (next_one t) as [[r|] t']; [|now exists req].
  destruct (find _ authorities) as [a|]; [now exists (Some a)|apply IH].
Qed.

(** prepare_header() on the message sign() starts with. *)
Lemma prepare_header_shape request now location pool trust p h p' m : self_signed request = false ->
  prepare_header request now location pool trust p (set_payload (plain_message request) (set_hash_id h with_signed_data)) = Returns (p', m) ->
  exists c loc inl req sgn, own_certificate pool = Some c /\ profile_fields (req_its_aid request) c loc sgn /\
    m = message_of (plain_message request) (hash_code h) (req_its_aid request) (match asn_uint642INTEGER (convert_time64 now) with Some b => b | None => None end) loc inl req sgn None.
Proof.
  intros Hself. unfold prepare_header. destruct (own_certificate pool) as [c|]; [|discriminate]. rewrite Hself.
  set (time := match asn_uint642INTEGER (convert_time64 now) with Some b => b | None => None end). set (aid := req_its_aid request).
  change (set_generation_time (convert_time64 now) (set_its_aid aid (set_payload (plain_message request) (set_hash_id h with_signed_data))))
    with (message_of (plain_message request) (hash_code h) aid time None None None Signer_NOTHING None).
  set (p0 := if bool_decide _ then p else _). clearbody p0 time.
  assert (forall inl req sgn, aid <> aid_DEN -> sgn = Signer_certificate [c] \/ (exists d, sgn = Signer_digest d /\ calculate_digest c = Some d) ->
    forall m, m = message_of (plain_message request) (hash_code h) aid time None inl req sgn None ->
    exists c0 loc inl req sgn, Some c = Some c0 /\ profile_fields aid c0 loc sgn /\ m = message_of (plain_message request) (hash_code h) aid time loc inl req sgn None) as Hmk.
  { intros inl req sgn Ha Hs m0 ->. exists c, None, inl, req, sgn. split; [reflexivity|]. split; [|reflexivity]. split; [auto|]. split; [contradiction|assumption]. }
  destruct (Z.eqb_spec aid aid_CA) as [Ec|Ec]; [|destruct (Z.eqb_spec aid aid_DEN) as [Ed|Ed]; [|destruct (Z.eqb_spec aid aid_VRU) as [Ev|Ev]]].
  - assert (aid <> aid_DEN) as Hd by (rewrite Ec; discriminate). unfold cam. destruct (match calculate_digest c with Some d => _ | None => _ end) as [requested incoming].
    destruct (all (outgoing_requests p0)) as [unknown outgoing]. destruct (_ || _).
    + intros [= _ <-]. eapply Hmk; [assumption|left; reflexivity|]. destruct unknown; reflexivity.
    + destruct (calculate_digest c) as [d|] eqn:Edg; [|discriminate].
      assert (exists inl, set_inline_p2pcd_request unknown (set_signer_identifier (Signer_digest d) (message_of (plain_message request) (hash_code h) aid time None None None Signer_NOTHING None)) =
        message_of (plain_message request) (hash_code h) aid time None inl None (Signer_digest d) None) as [inl Einl] by (destruct unknown; eexists; reflexivity).
      rewrite Einl. match goal with |- context [answer_requests ?n ?a ?i (message_of ?pl ?hh ?ai ?ti ?lo ?il ?re ?sg None)] => destruct (answer_requests_shape n a i pl hh ai ti lo il re sg) as [req Hreq]; destruct (answer_requests n a i _) as [inc' m2] end.
      intros [= _ <-]. cbn [snd] in Hreq. eapply Hmk; [assumption|right; exists d; auto|exact Hreq].
  - intros [= _ <-]. exists c, (Some location), None, None, (Signer_certificate [c]). split; [reflexivity|]. split; [|reflexivity]. split; [intros; congruence|]. split; [split; eauto|now left].
  - unfold vam. destruct (if bool_decide _ then _ else _); [|destruct (calculate_digest c) as [d|] eqn:Edg]; intros [= _ <-];
      (eapply Hmk; [assumption| |reflexivity]); [now left|right; exists d; auto|now left].
  - unfold generic. destruct (generic_last_certificate p0 !! aid) as [t|]; [destruct (calculate_digest c) as [d|] eqn:Edg; [destruct (_ <=? _)|]|]; intros [= _ <-];
      (eapply Hmk; [assumption| |reflexivity]); first [now left|right; exists d; auto].
Qed.

(** Every message that leaves the entity. *)
Lemma encapsulate_signed w request e m e' : self_signed request = false -> encapsulate_packet w request e = (Returns (inl m), e') ->
  exists c key loc inl req sgn payload digest sig,
    own_certificate (pool w) = Some c /\ own_private_key (pool w) = Some key /\ change_pending w = false /\ profile_fields (req_its_aid request) c loc sgn /\
    let h := specified_hash_algorithm (get_verification_key_type c) in
    let unsigned := message_of (plain_message request) (hash_code h) (req_its_aid request)
      (match asn_uint642INTEGER (convert_time64 (now w)) with Some b => b | None => None end) loc inl req sgn None in
    m = set_signature sig unsigned /\ signing_payload unsigned = Some payload /\ calculate_message_hash h payload c = Some digest /\ sign_digest key digest = Some sig.
Proof.
  intros Hself. unfold encapsulate_packet. destruct (tickets (pool w)); [discriminate|]. destruct (change_pending w) eqn:Ep; [discriminate|]. unfold sign.
  destruct (own_certificate (pool w)) as [c|] eqn:Ec; [|discriminate]. destruct (own_private_key (pool w)) as [key|] eqn:Ek; [|discriminate].
  destruct (prepare_header _ _ _ _ _ _ _) as [[p1 m1]| |] eqn:Eh; [|discriminate|discriminate].
  apply prepare_header_shape in Eh as (c0 & loc & inl & req & sgn & E1 & E2 & ->); [|assumption]. rewrite Ec in E1. injection E1 as <-.
  destruct (negb _); [discriminate|]. destruct (signing_payload _) as [payload|] eqn:Epl; [|discriminate]. destruct (calculate_message_hash _ payload c) as [digest|] eqn:Ehash; [|discriminate].
  destruct (sign_digest key digest) as [sig|] eqn:Es; [|discriminate]. intros [= <- _]. exists c, key, loc, inl, req, sgn, payload, digest, sig. split_all; auto.
Qed.

(** * What is accepted *)

(** A key that signs one digest so that a public key verifies it does so with
    every digest, and signs under its own type. *)
Definition key_pairs : Prop := forall k pk d1 d2 s1 s2, sign_digest k d1 = Some s1 -> verify_digest pk d1 s1 = Some true -> sign_digest k d2 = Some s2 ->
  sig_type s2 = priv_type k /\ verify_digest pk d2 s2 = Some true.

(** A receiver that trusts the certificate for the application, whatever it
    has learned, and finds it under its digest. *)
Definition trusts (w : Surroundings) (e : SecurityEntity) (c : Certificate) (aid : Z) : Prop :=
  (forall l, exists v, chain_valid_for_signing (validator_of w (set_learned l e)) (lookup_of w (set_learned l e)) (capacity e) (permissive_identified_region (verification e))
     c aid (verified_ e) = Some (Valid, v)).

Lemma check_profile_message plain hid aid time loc inl req sgn sig c : profile_fields aid c loc sgn -> is_Some time ->
  (hid = 0 /\ match sig with ecdsaNistP256Signature _ _ | ecdsaBrainpoolP256r1Signature _ _ => True | _ => False end \/
   hid = 1 /\ match sig with ecdsaBrainpoolP384r1Signature _ _ => True | _ => False end) ->
  check_profile (message_of plain hid aid time loc inl req sgn (Some sig)) = Success.
Proof.
  intros (H1 & H2 & H3) [t ->] Hs. unfold check_profile. cbn [message_of protocolVersion content tbs_payload payload_data inner_version headerInfo generationTime p2pcdLearningRequest missingCrlIdentifier expiryTime generationLocation hi_encryptionKey present negb andb orb].
  change (3 =? 3) with true. cbn [negb]. change (its_aid (message_of plain hid aid (Some t) loc inl req sgn (Some sig))) with aid.
  assert (match Some sig with Some (ecdsaNistP256Signature _ _) | Some (ecdsaBrainpoolP256r1Signature _ _) => hid =? 1 | Some (ecdsaBrainpoolP384r1Signature _ _) => negb (hid =? 1) | _ => true end = false) as ->.
  { destruct Hs as [[-> Hs]|[-> Hs]]; destruct sig; try contradiction; reflexivity. }
  assert (forall r : VerificationReport, match sgn with Signer_digest _ | Signer_certificate _ => r | _ => Unsupported_Signer_Identifier_Type end = r) as Hr by (intros r; destruct H3 as [->|(d & -> & _)]; reflexivity).
  rewrite Hr. destruct (Z.eqb_spec aid aid_CA) as [Ec|Ec]; [rewrite (H1 Ec); reflexivity|]. destruct (Z.eqb_spec aid aid_DEN) as [Ed|Ed]; [|reflexivity].
  destruct (H2 Ed) as [[l ->] ->]. reflexivity.
Qed.

Lemma note_signer_cache msg md e d : Cache_lookup d (cache (note_signer msg md e)) = Cache_lookup d (cache e).
Proof. unfold Cache_lookup. pose proof (note_signer_same msg md e) as H. cbn zeta in H. destruct H as (_ & _ & -> & _). reflexivity. Qed.

(** Fields a learned authority leaves alone. *)
Definition same_but_learned (e e' : SecurityEntity) : Prop :=
  verified_ e' = verified_ e /\ capacity e' = capacity e /\ verification e' = verification e /\ cache e' = cache e /\ accepted_ e' = accepted_ e.

Lemma learn_authority_total w c e : (forall s i, verify_certificate_signature s i <> None) -> exists e', learn_authority w c e = Some e' /\ same_but_learned e e'.
Proof.
  intros Ht. assert (same_but_learned e e) as Hrefl by (unfold same_but_learned; split_all; reflexivity). unfold learn_authority. destruct (_ || _); [eauto|]. destruct (calculate_digest c); [|eauto].
  destruct (lookup_of w e _); [eauto|]. destruct (match issuer_digest c with Some i => lookup_of w e i | None => None end) as [ic|]; [|eauto].
  destruct (verify_certificate_signature c (Some ic)) as [[|]|] eqn:Ev; [|eauto|now apply Ht in Ev]. eexists. split; [reflexivity|]. unfold same_but_learned. split_all; reflexivity.
Qed.

(** The verification of a message whose signature is right, by a station that
    trusts its certificate. *)
Lemma verify_signed_trusted w m e c sig pk payload digest : trusts w e c (its_aid m) ->
  message_signature m = Some sig ->
  (signer_identifier m = By_certificate c \/ exists d, signer_identifier m = By_digest (Some d) /\ length d = 8%nat /\ calculate_digest c = Some d /\ Cache_lookup d (cache e) = Some c) ->
  is_Some (calculate_digest c) -> get_public_key c = Some pk -> signing_payload m = Some payload ->
  calculate_message_hash (hash_id m) payload c = Some digest -> verify_digest pk digest sig = Some true ->
  forall e0, same_but_learned e e0 ->
  exists e', verify_signed w m e0 = (Some (mk_VerifyConfirm Success (its_aid m) (get_app_permissions c (its_aid m)) None (calculate_digest c)), e') /\
    accepted_ e' = accepted_ e /\ verification e' = verification e.
Proof.
  intros Ht Hsig Hsgn [dg Hdg] Hpk Hpl Hhash Hver e0 (S1 & S2 & S3 & S4 & S5). unfold verify_signed. rewrite Hsig. set (md := get_certificate_id (signer_identifier m)).
  assert (md = Some dg) as Hmd.
  { unfold md. destruct Hsgn as [->|(d & -> & Hl & Hd & _)]; [exact Hdg|]. cbn [get_certificate_id fmap option_fmap option_map]. rewrite take_ge by lia. rewrite Hd in Hdg. exact Hdg. }
  set (e1 := note_signer m md e0). pose proof (note_signer_same m md e0) as Hn. cbn zeta in Hn. destruct Hn as (N1 & N2 & N3 & N4 & N5 & N6). fold e1 in N1, N2, N3, N4, N5, N6.
  assert (signing_certificate m md e1 = Some c) as ->.
  { unfold signing_certificate. rewrite Hmd. destruct Hsgn as [->|(d & -> & _ & Hd & Hc)]; [reflexivity|]. unfold Cache_lookup. rewrite N3, S4. rewrite Hdg in Hd. injection Hd as ->. exact Hc. }
  destruct (Ht (learned e0)) as [v Hv].
  assert (validator_of w e1 = validator_of w (set_learned (learned e0) e) /\ lookup_of w e1 = lookup_of w (set_learned (learned e0) e)) as [-> ->].
  { unfold validator_of, lookup_of. cbn [learned set_learned verification]. now rewrite N2, N5, S3. }
  rewrite N1, N5, N6, S1, S2, S3, Hv. rewrite bool_decide_true by reflexivity. cbn [negb].
  assert (accepted_ e1 = accepted_ e /\ verification e1 = verification e) as [Ea Ev] by (split; congruence).
  unfold check_signature. rewrite Hpk, Hpl, Hhash, Hver, Hmd, Hdg. destruct (_ && _); [destruct (its_aid m =? aid_CA)|]; eexists; (split; [reflexivity|]); cbn; split; assumption.
Qed.

(** C3.  End to end: what one station signs, another that trusts the ticket for
    the application accepts, with the payload, the application and the
    identifier of the sender, whether the message carries the certificate or
    its digest, provided that the receiver has the certificate of a digest,
    that the clocks agree within the tolerances, and that the message is not
    one it has accepted before. *)
Theorem signed_messages_accepted ws request es m es' wr er c :
  key_pairs -> serves A 9 -> Pool_ok (pool ws) -> self_signed request = false -> 0 <= now ws ->
  encapsulate_packet ws request es = (Returns (inl m), es') -> own_certificate (pool ws) = Some c ->
  trusts wr er c (req_its_aid request) -> (forall s i, verify_certificate_signature s i <> None) ->
  (forall d, calculate_digest c = Some d -> length d = 8%nat /\ (signer_identifier m = By_digest (Some d) -> Cache_lookup d (cache er) = Some c)) ->
  timely wr (verification er) (convert_time64 (now ws)) ->
  (forall d, calculate_digest c = Some d -> (d, convert_time64 (now ws)) ∉ accepted_ er) ->
  exists confirm er', decapsulate_packet wr m er = (confirm, er') /\ dc_report confirm = Success /\
    plaintext_payload confirm = plain_message request /\ dc_its_aid confirm = req_its_aid request /\ dc_certificate_id confirm = calculate_digest c /\
    dc_permissions confirm = get_app_permissions c (req_its_aid request).
Proof.
  intros Hkeys Hserves Hpool Hself Hnow He Hc Htrust Hthrow Hcache Htimely Hfresh.
  apply encapsulate_signed in He as (c0 & key & loc & inl & req & sgn & payload & digest & sig & E1 & E2 & _ & Hprof & He); [|assumption]. rewrite Hc in E1. injection E1 as <-. cbn zeta in He. destruct He as (Em & Epl & Ehash & Esig).
  (* the ticket *)
  unfold own_certificate, own_private_key in Hc, E2. destruct (current (pool ws)) as [t|] eqn:Ecur; [|discriminate]. cbn in Hc, E2. injection Hc as Hc. injection E2 as Hk.
  assert (ticket_ok t) as Htick.
  { unfold current in Ecur. destruct (tickets (pool ws)) as [|x l] eqn:El; [discriminate|]. rewrite <- El in Ecur. apply list_elem_of_lookup_2 in Ecur. pose proof (tickets_ok _ Hpool) as Hall. rewrite Forall_forall in Hall. now apply Hall. }
  destruct Htick as (_ & Hd & Hpt & Hty & _ & pk & Hpk & Hprobe). rewrite Hc in *. rewrite Hk in *. set (d := CertificatePool.digest t) in *.
  unfold probe in Hprobe. destruct (encode_certificate c) as [enc|]; [|discriminate]. destruct (sign_digest key (calculate_hash _ enc)) as [s1|] eqn:Es1; [|discriminate].
  destruct (Hkeys _ _ _ _ _ _ Es1 Hprobe Esig) as [Hst Hver]. rewrite Hpt in Hst.
  (* the message *)
  set (aid := req_its_aid request) in *. set (plain := plain_message request) in *. set (h := specified_hash_algorithm (get_verification_key_type c)) in *.
  destruct (uint64_time_roundtrip (convert_time64 (now ws)) Hserves) as (tb & Etb & Etime); [apply Z.mod_pos_bound; lia|]. rewrite Etb in *.
  set (asn := to_asn1_signature sig). assert (m = message_of plain (hash_code h) aid (Some tb) loc inl req sgn (Some asn)) as Hm by exact Em. clear Em.
  assert (its_aid m = aid) as Ha by now rewrite Hm. assert (get_payload m = plain) as Hp by now rewrite Hm.
  assert (generation_time m = Some (convert_time64 (now ws))) as Hg by (rewrite Hm; unfold generation_time; cbn [header_of get_signed_data message_of content tbsData fmap option_fmap option_map headerInfo generationTime]; now rewrite Etime).
  assert (message_signature m = Some sig) as Hsig.
  { rewrite Hm. change (signature_of_asn1 asn = Some sig). unfold asn, to_asn1_signature. rewrite Hst. destruct sig as [ty r s]. cbn in Hst. destruct (get_verification_key_type c); try contradiction; subst ty; reflexivity. }
  assert (hash_id m = h) as Hhid by (rewrite Hm; unfold h; destruct (get_verification_key_type c); try contradiction; reflexivity).
  assert (signing_payload m = Some payload) as Hpay by (rewrite Hm; exact Epl).
  assert (check_profile m = Success) as Hprofile.
  { rewrite Hm. apply (check_profile_message _ _ _ _ _ _ _ _ _ c); [assumption|eauto|]. unfold h, asn, to_asn1_signature. rewrite Hst. destruct (get_verification_key_type c); try contradiction; cbn; auto. }
  assert (header_of m = Some (mk_HeaderInfo aid (Some tb) None loc None None None inl req)) as Hhdr by now rewrite Hm.
  assert (signer_identifier m = match sgn with Signer_digest d => By_digest (Some d) | Signer_certificate [c] => By_certificate c | _ => By_digest None end) as Hsi by now rewrite Hm.
  clear Hm. unfold decapsulate_packet, verify. rewrite Hprofile, Hhdr. cbn [requestedCertificate].
  assert (exists e1, match req with Some candidate => learn_authority wr candidate er | None => Some er end = Some e1 /\ same_but_learned er e1) as (e1 & -> & He1).
  { destruct req; [now apply learn_authority_total|]. exists er. split; [reflexivity|]. unfold same_but_learned. split_all; reflexivity. }
  destruct (Hcache d Hd) as [Hlen Hcached].
  assert (signer_identifier m = By_certificate c \/ exists d', signer_identifier m = By_digest (Some d') /\ length d' = 8%nat /\ calculate_digest c = Some d' /\ Cache_lookup d' (cache er) = Some c) as Hsgn.
  { rewrite Hsi in *. destruct Hprof as (_ & _ & [->|(d' & -> & Hd')]); [now left|right]. rewrite Hd in Hd'. injection Hd' as <-. exists d. split_all; auto. }
  assert (trusts wr er c (its_aid m)) as Htm by now rewrite Ha. rewrite <- Hhid in Ehash.
  destruct (verify_signed_trusted wr m er c sig pk payload digest Htm Hsig Hsgn (ex_intro _ d Hd) Hpk Hpay Ehash Hver e1 He1) as (e2 & Hv & A2 & F2).
  rewrite Hv. clear Hv.
  cbn [vc_report]. rewrite bool_decide_true by reflexivity.
  assert (exists e3, check_freshness wr m (mk_VerifyConfirm Success (its_aid m) (get_app_permissions c (its_aid m)) None (calculate_digest c)) e2 =
      (mk_VerifyConfirm Success (its_aid m) (get_app_permissions c (its_aid m)) None (calculate_digest c), e3)) as [e3 ->].
    { unfold check_freshness. rewrite Hg, F2. destruct Htimely as [T1 T2]. rewrite (proj2 (Z.ltb_ge _ _) T1), (proj2 (Z.ltb_ge _ _) T2). cbn [orb vc_certificate_id].
      destruct (replay_window (verification er)); [eauto|]. rewrite Hd. rewrite A2, bool_decide_false by now apply Hfresh. eauto. }
    cbn [vc_report]. eexists _, _. split; [reflexivity|]. cbn. rewrite Ha. split_all; auto.
Qed.
End Exchange.
