(* ===== verification/SecurityExamples.v ===== *)
(** A station with a root, an authorization authority and a ticket: the
    theorems on validation, signing and verification at concrete inputs. *)

From S2P Require Import Prelude Runtime Integer Double Permissions Regions Certificate TrustStore CertificatePool SecuredMessage PeerRequests SignHeader Validator SecurityEntity SecurityTheorems SignedExchange.
From stdpp Require Import list gmap.

Open Scope Z_scope.

#[local] Existing Instance example_codec.
#[local] Existing Instance example_backend.
#[local] Existing Instance example_geometry.
#[local] Existing Instance example_allocator.
#[local] Existing Instance LP64.

(** Messages are hashed with their payload and generation time. *)
#[local] Instance example_messages : MessageCodec := fun t =>
  Some (match tbs_payload t with Some (mk_Payload (Some d) _) => default [] (unsecured d) | _ => [] end ++ default [] (generationTime (headerInfo t))).

(** * Certificates *)

Definition root_id : HashedId8 := [4; 4; 4; 4; 4; 4; 4; 4].
Definition authority_id : HashedId8 := [5; 5; 5; 5; 5; 5; 5; 5].

Definition issue_all : IssuePermissions := mk_IssuePermissions None (Some [mk_Group Subject_all (Some 1) 3 (Some [192])]).
Definition use_ca_den : IssuePermissions := mk_IssuePermissions (Some [mk_PsidSsp 36 None; mk_PsidSsp 37 None]) None.

(** A certificate signed with the example key. *)
Definition issued (iss : IssuerIdentifier) (issuer_octets : list Z) (perm : IssuePermissions) (d : HashedId8) : Certificate :=
  let tbs := example_tbs (Point_compressed_y_0 example_key) None (hours 2) perm d in
  mk_Certificate iss tbs (Some (ecdsaNistP256Signature (Point_x_only example_key)
    (calculate_hash SHA256 (calculate_hash SHA256 (tbs_octets tbs) ++ calculate_hash SHA256 issuer_octets)))).

Definition example_root : Certificate := issued (Issuer_self 0) [] issue_all root_id.
Definition example_authority : Certificate := issued (sha256AndDigest root_id) (certificate_octets example_root) issue_all authority_id.
Definition station_ticket : Certificate := issued (sha256AndDigest authority_id) (certificate_octets example_authority) use_ca_den id1.

Definition example_trust : TrustConfiguration := (add_authority example_authority (add_root example_root Trust_empty).2).2.
Definition station_pool : CertificatePool := (add station_ticket example_private Pool_empty).2.

Definition at_second (s : Z) : Surroundings :=
  mk_Surroundings (s * second) (mk_Position (d_of_Z 48) (d_of_Z 11)) example_location example_trust station_pool false.

Definition trusting : DefaultCertificateValidator := validator_of (at_second 1010) Entity_create.

Definition signed_at (aid s : Z) (e : SecurityEntity) : Outcome EncapConfirm * SecurityEntity := encapsulate_packet (at_second s) (example_request aid) e.

Lemma example_trust_ok : Trust_ok example_trust.
Proof. apply add_authority_ok, add_root_ok, Trust_ok_empty. Qed.

Lemma example_lawful e : lawful (lookup_of (at_second 1010) e).
Proof. apply lookup_of_lawful. intros d c H. now apply (issuers_ok _ example_trust_ok) in H as [H _]. Qed.

Lemma station_pool_ok : Pool_ok station_pool.
Proof. apply add_ok, Pool_ok_empty. Qed.

Lemma nothing_verified : Verified_ok ∅.
Proof. intros d H. now apply elem_of_empty in H. Qed.

(** * Validation *)

Lemma valid_for_signing_exact_witness : exists chain root,
  path (lookup_of (at_second 1010) Entity_create) station_ticket chain /\ last chain = Some root /\ calculate_digest root <> None.
Proof.
  destruct (valid_for_signing_exact (1010 * second) (position (at_second 1010)) (lookup_of (at_second 1010) Entity_create) (location_checker true)
    (fun iss cert => is_revoked iss cert (revocations example_trust)) (fun d => TrustStore_lookup d (roots example_trust)) true station_ticket 36) as [H _].
  - apply example_lawful.
  - vm_compute. eauto.
  - destruct H as (_ & _ & chain & root & d & H1 & _ & H2 & H3 & _); [vm_compute; reflexivity|]. exists chain, root. split; [exact H1|]. split; [exact H2|]. rewrite H3. discriminate.
Defined.

Lemma chain_validator_sound_witness :
  chain_valid_for_signing (validator_of (at_second 1010) Entity_create) (lookup_of (at_second 1010) Entity_create) 64 true station_ticket 36 ∅ = Some (Valid, {[id1]} ∪ ∅) /\
  Verified_ok ({[id1]} ∪ ∅).
Proof.
  assert (chain_valid_for_signing (validator_of (at_second 1010) Entity_create) (lookup_of (at_second 1010) Entity_create) 64 true station_ticket 36 ∅ = Some (Valid, {[id1]} ∪ ∅)) as E
    by (vm_compute; reflexivity).
  split; [exact E|]. exact (proj1 (chain_validator_sound _ _ _ _ _ _ _ _ _ (example_lawful Entity_create) nothing_verified E)).
Defined.

(** A certificate whose signature is not that of the authority is refused. *)
Example forged_ticket : 
  let forged := mk_Certificate (issuer station_ticket) (toBeSigned station_ticket) (Some (ecdsaNistP256Signature (Point_x_only example_key) [1; 2])) in
  valid_for_signing (validator_of (at_second 1010) Entity_create) forged 36 = Valid /\
  chain_valid_for_signing (validator_of (at_second 1010) Entity_create) (lookup_of (at_second 1010) Entity_create) 64 true forged 36 ∅ = Some (Untrusted, ∅).
Proof. vm_compute. auto. Qed.

(** * Messages *)

Definition sent_at (aid s : Z) : SecuredMessage :=
  match (encapsulate_packet (at_second s) (example_request aid) Entity_create).1 with Returns (inl m) => m | _ => with_signed_data end.

Lemma decapsulation_sound_witness : exists confirm e', decapsulate_packet (at_second 1011) (sent_at 36 1010) Entity_create = (confirm, e') /\
  dc_report confirm = Success /\ Entity_ok e'.
Proof.
  destruct (decapsulate_packet (at_second 1011) (sent_at 36 1010) Entity_create) as [confirm e'] eqn:E. exists confirm, e'. split; [reflexivity|].
  pose proof (decapsulation_sound (at_second 1011) (sent_at 36 1010) Entity_create confirm e' example_trust_ok Entity_ok_create E) as [H _]. split; [|exact H].
  assert (confirm = (decapsulate_packet (at_second 1011) (sent_at 36 1010) Entity_create).1) as -> by now rewrite E. vm_compute. reflexivity.
Defined.

(** The first message is refused, since the authority of the ticket is not
    known yet; nothing was signed.  The second, signed in the same second,
    carries the digest only. *)
Theorem refused_message_restarts_timers :
  let unknown := mk_Surroundings (1010 * second) (position (at_second 1010)) example_location Trust_empty station_pool false in
  let first := encapsulate_packet unknown (example_request aid_CA) Entity_create in
  first.1 = Returns (inr No_Certificate) /\
  exists m, (encapsulate_packet (at_second 1010) (example_request aid_CA) first.2).1 = Returns (inl m) /\ signer_of m = Signer_digest id1.
Proof. cbv zeta. split; [vm_compute; reflexivity|]. eexists. split; vm_compute; reflexivity. Qed.

(** The second of two equal messages is a duplicate, one signed later is not. *)
Definition example_packets : list (Surroundings * SecuredMessage) :=
  [(at_second 1011, sent_at 36 1010); (at_second 1011, sent_at 36 1010); (at_second 1012, sent_at 36 1011)].
Example example_received : (receive example_packets Entity_create).2 = [(Some id1, Some (1010 * second)); (Some id1, Some (1011 * second))].
Proof. vm_compute. reflexivity. Qed.

Lemma no_replay_witness : windowed 256 (receive example_packets Entity_create).2.
Proof.
  apply (no_replay example_packets Entity_create); [|exact Entity_ok_create|reflexivity|cbn; lia].
  apply Forall_forall. intros p Hp. unfold example_packets in Hp. rewrite !elem_of_cons in Hp. destruct Hp as [->|[->|[->|Hp]]]; [exact example_trust_ok..|now apply elem_of_nil in Hp].
Defined.

(** ** From one station to another *)

Lemma example_key_pairs : key_pairs.
Proof.
  intros k pk d1 d2 s1 s2 [= <-] Hv [= <-]. split; [reflexivity|]. unfold verify_digest in *. cbn in *.
  apply (f_equal (fun o => match o with Some b => b | None => false end)) in Hv. apply andb_true_iff in Hv as [Hv _]. rewrite Hv. now rewrite bool_decide_true.
Qed.

Lemma signed_messages_accepted_witness : exists confirm e', decapsulate_packet (at_second 1011) (sent_at 36 1010) Entity_create = (confirm, e') /\
  dc_report confirm = Success /\ plaintext_payload confirm = [1; 2; 3].
Proof.
  destruct (encapsulate_packet (at_second 1010) (example_request 36) Entity_create) as [r es'] eqn:E.
  assert (r = Returns (inl (sent_at 36 1010))) as -> by (change r with ((r, es').1); rewrite <- E; vm_compute; reflexivity).
  destruct (signed_messages_accepted (at_second 1010) (example_request 36) Entity_create (sent_at 36 1010) es' (at_second 1011) Entity_create station_ticket) as (confirm & e' & H1 & H2 & H3 & _).
  - exact example_key_pairs.
  - intros n Hn. reflexivity.
  - exact station_pool_ok.
  - reflexivity.
  - vm_compute. discriminate.
  - exact E.
  - vm_compute. reflexivity.
  - intros l. eexists. vm_compute. reflexivity.
  - intros s i. unfold verify_certificate_signature. destruct (get_signature s), (issuer s), i; cbn; try discriminate; destruct (get_public_key _); discriminate.
  - intros d Hd. vm_compute in Hd. injection Hd as <-. split; [reflexivity|]. vm_compute. discriminate.
  - vm_compute. split; discriminate.
  - intros d _. apply not_elem_of_nil.
  - exists confirm, e'. auto.
Defined.
