(* ===== verification/CbrSharing.v ===== *)
(** The sharing of channel loads: the loads in dcc_mco_field.cpp,
    cbr_aggregator.cpp and dcc_information_sharing.cpp of geonet/.

    The hook for updates is a list of what it was called with; the entries of
    the location table come in the order of its hash map, which is an
    argument. *)

From Stdlib Require Import Floats.SpecFloat.
From S2P Require Import Prelude Double DccLoad GnNumbers Archive GnWire LocationTable Scheduler.
From stdpp Require Import list.

Open Scope Z_scope.

(** * Loads in the DCC-MCO field *)

(** The conversion of a double to uint8_t. *)
Definition cbr_of_load (cbr : double) : Z := u8 (d_trunc (d_mul cbr (d_of_Z 255))).
Definition load_of_cbr (cbr : Z) : double := UnitInterval.make (d_div (d_of_Z cbr) (d_of_Z 255)).

Definition local_cbr (f : DccMcoField) : double := load_of_cbr (cbr_l0_hop f).
Definition neighbour_cbr (f : DccMcoField) : double := load_of_cbr (cbr_l1_hop f).
Definition set_local_cbr (cbr : double) (f : DccMcoField) : DccMcoField := mk_DccMcoField (cbr_of_load cbr) (cbr_l1_hop f) (m_output_power f).
Definition set_neighbour_cbr (cbr : double) (f : DccMcoField) : DccMcoField := mk_DccMcoField (cbr_l0_hop f) (cbr_of_load cbr) (m_output_power f).

(** * CbrAggregator *)

Record CbrAggregatorUnit := mk_Unit { u_n : Z; u_average : double; u_maximum0 : double; u_maximum1 : double }.
Definition Unit_create : CbrAggregatorUnit := mk_Unit 0 zero zero zero.

Definition Unit_add (u : CbrAggregatorUnit) (cbr : double) : CbrAggregatorUnit :=
  let average := UnitInterval.make (d_div (d_add (d_mul (u_average u) (d_of_Z (u_n u))) cbr) (d_of_Z (u32 (u_n u + 1)))) in
  let n := u32 (u_n u + 1) in
  if UnitInterval.ge cbr (u_maximum0 u) then mk_Unit n average cbr (u_maximum0 u)
  else if UnitInterval.lt (u_maximum1 u) cbr then mk_Unit n average (u_maximum0 u) cbr
  else mk_Unit n average (u_maximum0 u) (u_maximum1 u).

Definition Unit_result (u : CbrAggregatorUnit) (target : double) : double :=
  if UnitInterval.lt target (u_average u) then u_maximum0 u else u_maximum1 u.

Record CbrAggregator := mk_Aggregator { m_local_cbr : double * double; m_one_hop_cbr : double; m_two_hop_cbr : double; m_global_cbr : double }.
Definition Aggregator_create : CbrAggregator := mk_Aggregator (zero, zero) zero zero zero.

(** The entries the visitor takes. *)
Definition recent (lifetime : Timestamp.t) (entry : LocationTableEntry) : option DccMcoField :=
  match loctex_g5 entry with
  | Some loctex => if negb (Timestamp.lt (local_update loctex) lifetime) then Some (dcc_mco loctex) else None
  | None => None
  end.

Definition larger (x y : double) : double := if d_ltb x y then y else x.

Definition aggregate (local : double) (lt : list LocationTableEntry) (lifetime : Timestamp.t) (target : double) (a : CbrAggregator) : CbrAggregator :=
  let locals := (local, (m_local_cbr a).1) in
  let fields := omap (recent lifetime) lt in
  let one_hop := fold_left Unit_add (map local_cbr fields) Unit_create in
  let two_hop := fold_left Unit_add (map neighbour_cbr fields) Unit_create in
  let one := Unit_result one_hop target in
  let two := Unit_result two_hop target in
  mk_Aggregator locals one two (larger (larger locals.2 one) two).

(** * DccInformationSharing *)

Section Sharing.
(** The callbacks of the runtime; [cb_trigger] is the one of this object. *)
Context {Callback : Type} (cb_trigger : Callback).

Record DccInformationSharing := mk_Sharing {
  m_cbr_target : double; m_cbr_local : double; m_tx_power : Z; m_aggregator : CbrAggregator;
  m_trigger_interval : Z; m_last_aggregation : Timestamp.t; m_updates : list CbrAggregator }.

(** [initial *= delay.value()]: the operator of a duration in whole
    microseconds takes a number of that type, int64_t. *)
Definition initial_delay (delay : double) : Z := s64 (ms 100 * d_trunc delay).

Definition Sharing_create (target delay : double) (rt : ManualRuntime) : DccInformationSharing * @ManualRuntime Callback :=
  (mk_Sharing target zero 0 Aggregator_create (ms 100) (Timestamp.of_time_point (m_now rt)) [],
   schedule_after (initial_delay delay) cb_trigger None rt).

Definition generate_dcc_field (s : DccInformationSharing) : DccField :=
  DccMco (set_output_power (m_tx_power s) (set_neighbour_cbr (m_one_hop_cbr (m_aggregator s))
    (set_local_cbr (m_local_cbr (m_aggregator s)).1 (mk_DccMcoField 0 0 0)))).

Definition update_local_cbr (cbr : double) (s : DccInformationSharing) : DccInformationSharing :=
  mk_Sharing (m_cbr_target s) cbr (m_tx_power s) (m_aggregator s) (m_trigger_interval s) (m_last_aggregation s) (m_updates s).
Definition set_tx_power (power : Z) (s : DccInformationSharing) : DccInformationSharing :=
  mk_Sharing (m_cbr_target s) (m_cbr_local s) power (m_aggregator s) (m_trigger_interval s) (m_last_aggregation s) (m_updates s).

Definition trigger (lt : list LocationTableEntry) (s : DccInformationSharing) (rt : ManualRuntime) : DccInformationSharing * @ManualRuntime Callback :=
  let a := aggregate (m_cbr_local s) lt (m_last_aggregation s) (m_cbr_target s) (m_aggregator s) in
  (mk_Sharing (m_cbr_target s) (m_cbr_local s) (m_tx_power s) a (m_trigger_interval s) (Timestamp.of_time_point (m_now rt)) (a :: m_updates s),
   schedule_after (m_trigger_interval s) cb_trigger None rt).
End Sharing.

(** * Loads as octets *)

Definition octets : list Z := map Z.of_nat (seq 0 256).

Lemma octets_elem n : 0 <= n < 256 -> n ∈ octets.
Proof. intros H. apply list_elem_of_In. unfold octets. apply in_map_iff. exists (Z.to_nat n). split; [lia|]. apply in_seq. lia. Qed.

Definition loads : list (Z * double) := map (fun n => (n, load_of_cbr n)) octets.

Lemma loads_ordered : forallb (fun a => forallb (fun b => Bool.eqb (d_ltb a.2 b.2) (a.1 <? b.1)) loads) loads = true.
Proof. vm_compute. reflexivity. Qed.

(** The order of received loads is that of their octets. *)
Lemma load_lt a b : 0 <= a < 256 -> 0 <= b < 256 -> d_ltb (load_of_cbr a) (load_of_cbr b) = (a <? b).
Proof.
  intros Ha Hb. pose proof loads_ordered as H. rewrite forallb_forall in H. specialize (H (a, load_of_cbr a)). rewrite forallb_forall in H.
  assert (forall n, 0 <= n < 256 -> In (n, load_of_cbr n) loads) as Hin by (intros n Hn; apply in_map_iff; exists n; split; [reflexivity|now apply list_elem_of_In, octets_elem]).
  specialize (H (Hin a Ha) (b, load_of_cbr b) (Hin b Hb)). now apply eqb_prop in H.
Qed.

(** A load that was received is passed on as it is. *)
Lemma load_roundtrip n : 0 <= n < 256 -> cbr_of_load (load_of_cbr n) = n.
Proof.
  intros Hn. assert (forallb (fun n => cbr_of_load (load_of_cbr n) =? n) octets = true) as H by (vm_compute; reflexivity).
  rewrite forallb_forall in H. apply Z.eqb_eq, H, list_elem_of_In, octets_elem, Hn.
Qed.

(** ** The two largest loads *)

Definition top_two (l : list Z) (t0 t1 : Z) : Prop := exists rest, l ≡ₚ t0 :: t1 :: rest /\ t1 <= t0 /\ Forall (fun x => x <= t1) rest.

Lemma top_two_unique l t0 t1 t0' t1' : top_two l t0 t1 -> top_two l t0' t1' -> t0 = t0' /\ t1 = t1'.
Proof.
  intros (r & E & H1 & H2) (r' & E' & H1' & H2'). rewrite E in E'. rewrite Forall_forall in H2, H2'.
  assert (t0 = t0') as ->.
  { assert (forall x, x ∈ t0 :: t1 :: r -> x <= t0) as Hx by (intros x; rewrite !elem_of_cons; intros [->|[->|H%H2]]; lia).
    assert (forall x, x ∈ t0' :: t1' :: r' -> x <= t0') as Hx' by (intros x; rewrite !elem_of_cons; intros [->|[->|H%H2']]; lia).
    apply Z.le_antisymm; [apply Hx'; rewrite <- E'; now left|apply Hx; rewrite E'; now left]. }
  split; [reflexivity|]. apply (Permutation_cons_inv) in E'.
  assert (forall x, x ∈ t1 :: r -> x <= t1) as Hx by (intros x; rewrite !elem_of_cons; intros [->|H%H2]; lia).
  assert (forall x, x ∈ t1' :: r' -> x <= t1') as Hx' by (intros x; rewrite !elem_of_cons; intros [->|H%H2']; lia).
  apply Z.le_antisymm; [apply Hx'; rewrite <- E'; now left|apply Hx; rewrite E'; now left].
Qed.

(** The octets are those of the largest loads in any order of the table. *)
Lemma top_two_Permutation l l' t0 t1 : l ≡ₚ l' -> top_two l t0 t1 -> top_two l' t0 t1.
Proof. intros E (rest & H & Hs). exists rest. now rewrite <- E. Qed.

Lemma top_two_step l t0 t1 c : top_two l t0 t1 ->
  top_two (l ++ [c]) (if t0 <=? c then c else t0) (if t0 <=? c then t0 else if t1 <? c then c else t1).
Proof.
  intros (rest & E & H1 & H2). assert (l ++ [c] ≡ₚ c :: t0 :: t1 :: rest) as E' by (rewrite <- E; symmetry; apply Permutation_cons_append).
  destruct (Z.leb_spec t0 c).
  - exists (t1 :: rest). split; [exact E'|]. split; [lia|]. constructor; [lia|]. eapply Forall_impl; [exact H2|cbn; lia].
  - destruct (Z.ltb_spec t1 c).
    + exists (t1 :: rest). split; [rewrite E'; apply perm_swap|]. split; [lia|]. constructor; [lia|]. eapply Forall_impl; [exact H2|cbn; lia].
    + exists (c :: rest). split; [rewrite E', perm_swap; f_equiv; apply perm_swap|]. split; [lia|]. constructor; [lia|assumption].
Qed.

Lemma Unit_maxima cs : Forall octet cs -> forall l u t0 t1, top_two l t0 t1 -> 0 <= t0 < 256 -> 0 <= t1 < 256 ->
  u_maximum0 u = load_of_cbr t0 -> u_maximum1 u = load_of_cbr t1 ->
  exists s0 s1, top_two (l ++ cs) s0 s1 /\ 0 <= s0 < 256 /\ 0 <= s1 < 256 /\
    u_maximum0 (fold_left Unit_add (map load_of_cbr cs) u) = load_of_cbr s0 /\ u_maximum1 (fold_left Unit_add (map load_of_cbr cs) u) = load_of_cbr s1.
Proof.
  induction 1 as [|c cs Hc Hcs IH]; intros l u t0 t1 Ht H0 H1 E0 E1; [exists t0, t1; rewrite app_nil_r; auto|]. unfold octet in Hc. cbn [map fold_left].
  pose proof (top_two_step l t0 t1 c Ht) as Hn. replace (l ++ c :: cs) with ((l ++ [c]) ++ cs) by now rewrite <- app_assoc.
  apply (IH _ _ _ _ Hn).
  - destruct (t0 <=? c); assumption.
  - destruct (t0 <=? c), (t1 <? c); assumption.
  - unfold Unit_add, UnitInterval.ge, UnitInterval.lt. rewrite E0, E1, !load_lt, <- Z.leb_antisym by assumption. now destruct (t0 <=? c), (t1 <? c).
  - unfold Unit_add, UnitInterval.ge, UnitInterval.lt. rewrite E0, E1, !load_lt, <- Z.leb_antisym by assumption. now destruct (t0 <=? c), (t1 <? c).
Qed.

(** * Theorems *)

Section Theorems.
Context {Callback : Type} (cb_trigger : Callback).

(** What a cycle shares: after trigger() the field carries the load measured
    last and the largest or second largest load that neighbours reported since
    the last cycle (zero twice if there are none), depending on whether their
    average exceeds the target; it is the octet that was received, whatever
    the order of the table; the next cycle follows after 100 ms. *)
Theorem sharing_cycle lt (s : DccInformationSharing) (rt : @ManualRuntime Callback) : m_trigger_interval s = ms 100 ->
  Forall (fun f => octet (cbr_l0_hop f)) (omap (recent (m_last_aggregation s)) lt) ->
  let '(s', rt') := trigger cb_trigger lt s rt in
  exists t0 t1, top_two ([0; 0] ++ map cbr_l0_hop (omap (recent (m_last_aggregation s)) lt)) t0 t1 /\
    generate_dcc_field s' = DccMco (mk_DccMcoField (cbr_of_load (m_cbr_local s))
      (if d_ltb (m_cbr_target s) (u_average (fold_left Unit_add (map local_cbr (omap (recent (m_last_aggregation s)) lt)) Unit_create)) then t0 else t1)
      (BitNumber 32 5 (Z.min (m_tx_power s) 31))) /\
    m_updates s' = m_aggregator s' :: m_updates s /\ m_last_aggregation s' = Timestamp.of_time_point (m_now rt) /\
    rt' = schedule_after (ms 100) cb_trigger None rt.
Proof.
  intros Hi Hf. cbn zeta. unfold trigger. set (fields := omap (recent (m_last_aggregation s)) lt) in *.
  assert (Forall octet (map cbr_l0_hop fields)) as Hcs by now apply Forall_map.
  destruct (Unit_maxima _ Hcs [0; 0] Unit_create 0 0) as (t0 & t1 & Ht & B0 & B1 & E0 & E1); [exists []; auto using Z.le_refl|lia|lia|reflexivity|reflexivity|].
  rewrite map_map in E0, E1. change (map (fun x => load_of_cbr (cbr_l0_hop x)) fields) with (map local_cbr fields) in E0, E1.
  exists t0, t1. split; [exact Ht|]. rewrite Hi. cbn. split_all; try reflexivity.
  unfold generate_dcc_field, aggregate, set_output_power, set_neighbour_cbr, set_local_cbr, Unit_result. cbn [m_aggregator m_tx_power m_one_hop_cbr m_local_cbr fst cbr_l0_hop cbr_l1_hop]. fold fields.
  rewrite E0, E1. unfold UnitInterval.lt. destruct (d_ltb _ _); rewrite load_roundtrip by lia; reflexivity.
Qed.
End Theorems.

(** ** The initial delay *)

Lemma digits_bound m : Zpos m < 2 ^ Zpos (digits2_pos m).
Proof.
  induction m as [m IH|m IH|]; cbn [digits2_pos]; [| |now vm_compute]; rewrite Pos2Z.inj_succ, Z.pow_succ_r by lia; lia.
Qed.

Lemma compare_cont_Eq m n : Pos.compare_cont Eq m n = Pos.compare m n.
Proof. reflexivity. Qed.

(** A fraction of an interval is none at all: for every delay below one the
    first cycle is due at once, however it was drawn. *)
Theorem initial_delay_lost delay : valid_binary prec emax delay = true -> d_ltb delay zero = false -> d_ltb delay one = true -> initial_delay delay = 0.
Proof.
  intros Hv H0 H1. assert (d_trunc delay = 0) as E; [|unfold initial_delay; now rewrite E].
  destruct delay as [s|s| |s m e]; [reflexivity| |reflexivity|]; [destruct s; cbn in H0, H1; discriminate|].
  destruct s; [cbn in H0; discriminate|]. cbn in Hv. unfold bounded, canonical_mantissa in Hv. apply andb_true_iff in Hv as [Hc _]. apply Z.eqb_eq in Hc.
  assert (Zpos m < 2 ^ 53) as Hm.
  { unfold fexp, emin, prec in Hc. assert (Zpos (digits2_pos m) <= 53) by lia. eapply Z.lt_le_trans; [apply digits_bound|]. apply Z.pow_le_mono_r; lia. }
  unfold d_ltb, SFltb in H1. change one with (S754_finite false 4503599627370496 (-52)) in H1. cbn [SFcompare] in H1.
  destruct (Z.compare_spec e (-52)) as [Ee|Ee|Ee]; [| |discriminate].
  - subst e. cbn [d_trunc]. change (0 <=? -52) with false. cbv iota. destruct (Pos.compare_cont Eq m 4503599627370496) eqn:Ecm; try discriminate.
    rewrite compare_cont_Eq in Ecm. apply Pos.compare_lt_iff in Ecm. rewrite Z.shiftr_div_pow2 by lia. apply Z.div_small. change (- -52) with 52. split; [lia|]. change (Zpos m < Zpos 4503599627370496). exact Ecm.
  - cbn [d_trunc]. rewrite (proj2 (Z.leb_gt 0 e)) by lia. rewrite Z.shiftr_div_pow2 by lia. apply Z.div_small. split; [lia|].
    apply (Z.lt_le_trans _ (2 ^ 53) _ Hm). apply Z.pow_le_mono_r; clear - Ee; lia.
Qed.

Lemma initial_delay_lost_witness : initial_delay (d_literal 1 2) = 0 /\ initial_delay one = ms 100.
Proof. split; [apply (initial_delay_lost (d_literal 1 2)); reflexivity|reflexivity]. Defined.

Definition example_entry (mco : DccMcoField) (update : Timestamp.t) : LocationTableEntry :=
  with_loctex_g5 (mk_LocTEX_G5 update 0 mco) (create_entry 0).
Definition example_entries : list LocationTableEntry :=
  [example_entry (mk_DccMcoField 40 7 3) 1000; example_entry (mk_DccMcoField 200 8 3) 999; example_entry (mk_DccMcoField 90 9 3) 1100; create_entry 0].
Definition example_sharing : DccInformationSharing :=
  mk_Sharing (d_literal 6 10) (d_literal 1 2) 23 Aggregator_create (ms 100) 1000 [].

(** Of the loads 40 and 90 reported in time the average is below the target,
    so the second largest is shared. *)
Example example_shared : generate_dcc_field (trigger tt example_entries example_sharing (mk_ManualRuntime (ms 1100) [])).1 = DccMco (mk_DccMcoField 127 40 23).
Proof. vm_compute. reflexivity. Qed.

Lemma sharing_cycle_witness : (trigger tt example_entries example_sharing (mk_ManualRuntime (ms 1100) [])).2 =
  mk_ManualRuntime (ms 1100) [mk_ScheduledCallback (ms 1200) tt None].
Proof.
  pose proof (sharing_cycle tt example_entries example_sharing (mk_ManualRuntime (ms 1100) []) eq_refl) as H.
  destruct (trigger tt example_entries example_sharing (mk_ManualRuntime (ms 1100) [])) as [s' rt'].
  destruct H as (t0 & t1 & _ & _ & _ & _ & ->); [|reflexivity]. unfold example_entries. vm_compute. repeat constructor; discriminate.
Defined.
