(* ===== verification/Btp.v ===== *)
(** The dispatcher of BTP ports: parse_btp_a() and parse_btp_b() of
    btp/header.cpp, btp/data_indication.cpp and btp/port_dispatcher.cpp.

    Handlers and hooks are pointers, of a type each; what they are called with
    is a list of events, so that they do not change the dispatcher while it
    dispatches. *)

From S2P Require Import Prelude Archive GnNumbers GnWire Packets Requests RouterState.
From stdpp Require Import list gmap.

Open Scope Z_scope.

(** * Headers of received packets *)

(** A call returns, throws, or fails an assertion. *)
Inductive Parsed (A : Type) := Parse (a : A) | Parse_throws | Parse_asserts.
Arguments Parse {A} _.
Arguments Parse_throws {A}.
Arguments Parse_asserts {A}.

Section Btp.
Context {SM Report Certificate Ext : Type} {Env : Environment SM Report Certificate Ext}.

(** The octets parse_btp_a() and parse_btp_b() read, and the packet they leave
    for the header [hdr] of four octets. *)
Definition transport_octets (packet : UpPacket SM) : list Z :=
  match packet with
  | Cohesive packet => CohesivePacket.get packet Transport
  | Chunk packet => convert (ChunkPacket.layer Transport packet)
  end.
Definition parse_btp {H} (deserialize_header : Reader H) (packet : UpPacket SM) : Parsed (H * UpPacket SM) :=
  match deserialize_header (mk_input (transport_octets packet) Ok) with
  | (None, _) => Parse_throws
  | (Some hdr, _) =>
      match packet with
      | Cohesive packet =>
          match CohesivePacket.set_boundary Transport 4 packet with
          | Some packet => Parse (hdr, Cohesive packet)
          | None => Parse_asserts
          end
      | Chunk packet => Parse (hdr, Chunk packet)
      end
  end.
Definition parse_btp_a (packet : UpPacket SM) : Parsed (HeaderA * UpPacket SM) := parse_btp deserialize_HeaderA packet.
Definition parse_btp_b (packet : UpPacket SM) : Parsed (HeaderB * UpPacket SM) := parse_btp deserialize_HeaderB packet.

Record BtpIndication := mk_BtpIndication {
  btp_source_port : option Z; btp_destination_port : Z; btp_destination_port_info : option Z; btp_destination : DestinationVariant;
  btp_its_aid : option Z; btp_permissions : option (list Z); btp_source_position : option ShortPositionVector;
  btp_traffic_class : TrafficClass.t; btp_remaining_packet_lifetime : option Lifetime.t }.
Abbreviation Indication := (RouterState.DataIndication Report Certificate).

Definition indication_of_a (ind : Indication) (btp : HeaderA) : BtpIndication :=
  mk_BtpIndication (Some (source_port btp)) (a_destination_port btp) None (ind_destination ind) (ind_its_aid ind) (ind_permissions ind)
    (ind_source_position ind) (ind_traffic_class ind) (ind_remaining_packet_lifetime ind).
Definition indication_of_b (ind : Indication) (btp : HeaderB) : BtpIndication :=
  mk_BtpIndication None (b_destination_port btp) (Some (destination_port_info btp)) (ind_destination ind) (ind_its_aid ind) (ind_permissions ind)
    (ind_source_position ind) (ind_traffic_class ind) (ind_remaining_packet_lifetime ind).

Definition parse_btp_header (gn_ind : Indication) (packet : UpPacket SM) : Parsed (option BtpIndication * UpPacket SM) :=
  match ind_upper_protocol gn_ind with
  | BTP_A => match parse_btp_a packet with
             | Parse (hdr, packet) => Parse (Some (indication_of_a gn_ind hdr), packet)
             | Parse_throws => Parse_throws | Parse_asserts => Parse_asserts end
  | BTP_B => match parse_btp_b packet with
             | Parse (hdr, packet) => Parse (Some (indication_of_b gn_ind hdr), packet)
             | Parse_throws => Parse_throws | Parse_asserts => Parse_asserts end
  | _ => Parse (None, packet)
  end.

(** * PortDispatcher *)

Context {Handler Hook : Type} `{EqDecision Hook}.

(** A handler or hook may be the null pointer. *)
Record PortDispatcher := mk_Dispatcher {
  m_interactive_handlers : gmap Z (option Handler); m_non_interactive_handlers : gmap Z (option Handler); m_promiscuous_hooks : list Hook }.
Definition Dispatcher_create : PortDispatcher := mk_Dispatcher ∅ ∅ [].

Definition add_promiscuous_hook (hook : option Hook) (d : PortDispatcher) : PortDispatcher :=
  match hook with
  | Some hook =>
      if bool_decide (hook ∈ m_promiscuous_hooks d) then d
      else mk_Dispatcher (m_interactive_handlers d) (m_non_interactive_handlers d) (m_promiscuous_hooks d ++ [hook])
  | None => d
  end.
Definition remove_promiscuous_hook (hook : option Hook) (d : PortDispatcher) : PortDispatcher :=
  mk_Dispatcher (m_interactive_handlers d) (m_non_interactive_handlers d) (filter (fun h => Some h <> hook) (m_promiscuous_hooks d)).
Definition set_interactive_handler (port : Z) (handler : option Handler) (d : PortDispatcher) : PortDispatcher :=
  mk_Dispatcher (<[port := handler]> (m_interactive_handlers d)) (m_non_interactive_handlers d) (m_promiscuous_hooks d).
Definition set_non_interactive_handler (port : Z) (handler : option Handler) (d : PortDispatcher) : PortDispatcher :=
  mk_Dispatcher (m_interactive_handlers d) (<[port := handler]> (m_non_interactive_handlers d)) (m_promiscuous_hooks d).

Inductive BtpEvent :=
| Tap_packet (hook : Hook) (ind : BtpIndication) (packet : UpPacket SM)
| Handled (handler : Handler) (ind : BtpIndication) (packet : UpPacket SM)
| Undispatched (gn_ind : Indication) (ind : option BtpIndication).

(** [map[port]] makes an entry with the null pointer where there is none. *)
Definition at_port (port : Z) (handlers : gmap Z (option Handler)) : option Handler * gmap Z (option Handler) :=
  match handlers !! port with Some h => (h, handlers) | None => (None, <[port := None]> handlers) end.

Definition find_handler (ind : BtpIndication) (d : PortDispatcher) : option Handler * PortDispatcher :=
  match btp_source_port ind with
  | Some _ => let '(h, m) := at_port (btp_destination_port ind) (m_interactive_handlers d) in (h, mk_Dispatcher m (m_non_interactive_handlers d) (m_promiscuous_hooks d))
  | None => let '(h, m) := at_port (btp_destination_port ind) (m_non_interactive_handlers d) in (h, mk_Dispatcher (m_interactive_handlers d) m (m_promiscuous_hooks d))
  end.

Definition btp_indicate (gn_ind : Indication) (packet : UpPacket SM) (d : PortDispatcher) : Parsed (list BtpEvent * PortDispatcher) :=
  match parse_btp_header gn_ind packet with
  | Parse (Some btp_ind, packet) =>
      let '(handler, d) := find_handler btp_ind d in
      let taps := map (fun hook => Tap_packet hook btp_ind packet) (m_promiscuous_hooks d) in
      Parse (taps ++ [match handler with Some h => Handled h btp_ind packet | None => Undispatched gn_ind (Some btp_ind) end], d)
  | Parse (None, _) => Parse ([Undispatched gn_ind None], d)
  | Parse_throws => Parse_throws
  | Parse_asserts => Parse_asserts
  end.

(** * Theorems *)

(** The header is cut off and the rest of the layer goes to the one above. *)
Lemma parse_btp_cohesive {H} {W : Wire H} hdr payload (p : CohesivePacket.t) : wire_len (H := H) = 4%nat -> CohesivePacket.Inv p -> wire_ok hdr ->
  CohesivePacket.get p Transport = wire_ser hdr ++ payload ->
  exists p', parse_btp wire_de (Cohesive p) = Parse (hdr, Cohesive p') /\ CohesivePacket.Inv p' /\
    CohesivePacket.get p' Transport = wire_ser hdr /\ CohesivePacket.get p' Session = payload ++ CohesivePacket.get p Session /\
    forall i, (1 <= i <= 7)%nat -> i <> Transport -> i <> Session -> CohesivePacket.get p' i = CohesivePacket.get p i.
Proof.
  intros Hl Hp Hok Hg. pose proof (wire_length hdr Hok) as Hn. rewrite Hl in Hn. unfold parse_btp, transport_octets. rewrite Hg, (wire_reads hdr Hok payload Ok).
  destruct (set_boundary_spec p Transport 4 Hp) as (p' & -> & HI & _ & G1 & G2 & G3 & _); [unfold Transport; lia|rewrite Hg, length_app; lia|].
  exists p'. split; [reflexivity|]. rewrite Hg in G1, G2. rewrite take_app_length' in G1 by lia. rewrite drop_app_length' in G2 by lia. auto.
Qed.

(** Fewer octets than a header make the parser throw; its assertion holds. *)
Lemma parse_btp_total {H} {W : Wire H} (p : CohesivePacket.t) : wire_len (H := H) = 4%nat -> CohesivePacket.Inv p -> octets (CohesivePacket.get p Transport) ->
  match parse_btp wire_de (Cohesive p) with
  | Parse (_, p') => (4 <= length (CohesivePacket.get p Transport))%nat /\ exists q, p' = Cohesive q /\ CohesivePacket.Inv q
  | Parse_throws => (length (CohesivePacket.get p Transport) < 4)%nat
  | Parse_asserts => False
  end.
Proof.
  intros Hl Hp Ho. unfold parse_btp, transport_octets. pose proof (wire_frames (H := H) _ Ok Ho) as Hf. rewrite Hl in Hf.
  destruct (Nat.leb_spec 4 (length (CohesivePacket.get p Transport))) as [Hn|Hn].
  - destruct Hf as (hdr & -> & _). destruct (set_boundary_spec p Transport 4 Hp) as (p' & -> & HI & _); [unfold Transport; lia|exact Hn|]. eauto.
  - rewrite Hf. exact Hn.
Qed.

(** What a received packet leads to: a BTP packet with a header is shown to
    every hook, in the order of their registration, and then given to the
    handler of its port, or reported when there is none; other protocols are
    reported without being shown; a packet too short for a header throws.
    Handlers and hooks stay as they are, but for an empty entry of the port. *)
Theorem btp_dispatch gn_ind (p : CohesivePacket.t) d : CohesivePacket.Inv p -> octets (CohesivePacket.get p Transport) ->
  match btp_indicate gn_ind (Cohesive p) d with
  | Parse (events, d') => m_promiscuous_hooks d' = m_promiscuous_hooks d /\
      (forall port h, m_interactive_handlers d !! port = Some (Some h) <-> m_interactive_handlers d' !! port = Some (Some h)) /\
      (forall port h, m_non_interactive_handlers d !! port = Some (Some h) <-> m_non_interactive_handlers d' !! port = Some (Some h)) /\
      match ind_upper_protocol gn_ind with
      | BTP_A | BTP_B => exists ind q last, events = map (fun hook => Tap_packet hook ind q) (m_promiscuous_hooks d) ++ [last] /\
          ((exists h, (m_interactive_handlers d !! btp_destination_port ind = Some (Some h) \/ m_non_interactive_handlers d !! btp_destination_port ind = Some (Some h)) /\ last = Handled h ind q) \/
           last = Undispatched gn_ind (Some ind))
      | _ => events = [Undispatched gn_ind None]
      end
  | Parse_throws => (ind_upper_protocol gn_ind = BTP_A \/ ind_upper_protocol gn_ind = BTP_B) /\ (length (CohesivePacket.get p Transport) < 4)%nat
  | Parse_asserts => False
  end.
Proof.
  intros Hp Ho. pose proof (parse_btp_total (H := HeaderA) p eq_refl Hp Ho) as Ha. pose proof (parse_btp_total (H := HeaderB) p eq_refl Hp Ho) as Hb.
  change (parse_btp wire_de (Cohesive p)) with (parse_btp_a (Cohesive p)) in Ha. change (parse_btp wire_de (Cohesive p)) with (parse_btp_b (Cohesive p)) in Hb.
  assert (forall (port port' : Z) (h : Handler) (m : gmap Z (option Handler)), m !! port = None -> (m !! port' = Some (Some h) <-> <[port := None]> m !! port' = Some (Some h))) as Hins.
  { intros port port' h m Hm. rewrite lookup_insert_Some. destruct (decide (port = port')) as [->|Hne]; [rewrite Hm|]; split; intros; try discriminate; intuition congruence. }
  unfold btp_indicate, parse_btp_header. destruct (ind_upper_protocol gn_ind) eqn:Eu; [split_all; auto; tauto| | |split_all; auto; tauto].
  - destruct (parse_btp_a (Cohesive p)) as [[hdr q]| |]; [|auto|auto]. unfold find_handler, at_port. cbn [btp_source_port indication_of_a btp_destination_port].
    destruct (m_interactive_handlers d !! a_destination_port hdr) as [[h|]|] eqn:Eh; cbn; split_all; auto; try tauto; try (intros; now apply Hins);
      eexists (indication_of_a gn_ind hdr), q, _; (split; [reflexivity|]); eauto.
  - destruct (parse_btp_b (Cohesive p)) as [[hdr q]| |]; [|auto|auto]. unfold find_handler, at_port. cbn [btp_source_port indication_of_b btp_destination_port].
    destruct (m_non_interactive_handlers d !! b_destination_port hdr) as [[h|]|] eqn:Eh; cbn; split_all; auto; try tauto; try (intros; now apply Hins);
      eexists (indication_of_b gn_ind hdr), q, _; (split; [reflexivity|]); eauto.
Qed.

(** What is sent with a header to a port arrives at the handler of the port. *)
Theorem btp_delivered gn_ind hdr payload (p : CohesivePacket.t) d h : ind_upper_protocol gn_ind = BTP_B -> HeaderB_ok hdr -> CohesivePacket.Inv p ->
  CohesivePacket.get p Transport = serialize_HeaderB hdr ++ payload -> CohesivePacket.get p Session = [] ->
  m_non_interactive_handlers d !! b_destination_port hdr = Some (Some h) ->
  exists q, btp_indicate gn_ind (Cohesive p) d =
      Parse (map (fun hook => Tap_packet hook (indication_of_b gn_ind hdr) (Cohesive q)) (m_promiscuous_hooks d) ++ [Handled h (indication_of_b gn_ind hdr) (Cohesive q)],
        mk_Dispatcher (m_interactive_handlers d) (m_non_interactive_handlers d) (m_promiscuous_hooks d)) /\
    CohesivePacket.get q Session = payload.
Proof.
  intros Hu Hok Hp Hg Hs Hh. destruct (parse_btp_cohesive (W := HeaderB_wire) hdr payload p eq_refl Hp Hok Hg) as (q & E & _ & _ & G & _). rewrite Hs, app_nil_r in G.
  exists q. split; [|exact G]. unfold btp_indicate, parse_btp_header. rewrite Hu. unfold parse_btp_b. cbn [wire_de HeaderB_wire] in E. rewrite E.
  unfold find_handler, at_port. cbn [btp_source_port indication_of_b btp_destination_port]. now rewrite Hh.
Qed.
End Btp.

(** * Examples *)

Definition example_gn_indication (protocol : UpperProtocol) : RouterState.DataIndication unit unit :=
  mk_DataIndication protocol None To_nothing None None None None None 0 None None.
Definition example_btp (octets : list Z) : CohesivePacket.t := CohesivePacket.create octets Transport.
Definition example_dispatcher : @PortDispatcher nat nat := set_non_interactive_handler 2001 (Some 7%nat) (add_promiscuous_hook (Some 1%nat) Dispatcher_create).
